(* ===== verification/_CoqProject ===== *)
-Q . S2P
Prelude.v
Text.v
Frame.v
Nmt.v
Od.v
SdoProtocol.v
SdoServer.v
SdoServerSafe.v
SdoServerSpec.v
SdoClient.v
SdoClientSafe.v
SdoDriver.v
SdoTransfer.v
Crc.v
SdoBlock.v
PdoBits.v
PdoEngine.v
PdoMapped.v
PdoTimed.v
Sync.v
Heartbeat.v
Emcy.v
Lss.v
Events.v
Nb.v
Node.v
NodeSafe.v
NodeRun.v
NodeNew.v
NodeSpec.v
SdoTimed.v
SdoTimedSpec.v
Router.v
Dcf.v
Eds.v
EdsParser.v
EdsSpec.v
Gen.v
GenSpec.v
GenTable.v
GenFacts.v
GenNode.v
PdoClient.v
PdoClientSpec.v
PdoClientDevice.v
PdoClientDispatch.v
Dsl.v
DslSpec.v
EdsExport.v
EdsText.v
EdsExportSpec.v
EdsRoundTrip.v
EdsPdoTrip.v
SdoClientGen.v
SdoClientDevice.v
Slcan.v
Canwsd.v
Bridge.v
BridgeSpec.v
BridgeDelivery.v
BridgeDemo.v
FwMeta.v
FwMetaSpec.v
FwUpdate.v
FwUpdateSpec.v
FwProgram.v
FwDemo.v
FwHost.v
FwBench.v
FwInstall.v
FwSuccess.v
FwHostSpec.v
FwHostDemo.v
Bus.v
BusWait.v
