(* ===== verification/Prelude.v ===== *)
(** * A verification of yacob, a CANopen stack

    yacob is a Rust implementation of CANopen (CiA 301, parts of CiA 305): a
    node owns an object dictionary and answers SDO requests on it, exchanges
    PDOs, follows NMT commands, and produces or consumes heartbeats, SYNC and
    emergency messages; a client side drives SDO transfers against remote
    nodes.  This library models the protocol machines of [canopen-core] as
    executable Gallina functions, one file per component, and proves what each
    promises to its users.

    ** Conventions

    - Machine integers are [Z]; [as] casts and wrapping operations go through
      [wrap], [saturating_*] are written out, and a plain subtraction whose
      operands are not fixed by the types goes through [usub] or [checked].
    - Everything in Rust that can panic (slicing, [unwrap], [copy_from_slice],
      checked arithmetic) lives in the monad [exec], whose second constructor
      is [Panic].  [runs m P] says that [m] does not panic and its result
      satisfies [P]; [wlp m P] only the latter.
    - [&mut self] is state passing; a [Result] is [result]; [heapless] queues
      and vectors are lists with their capacity as an argument; a byte array is
      a list with [array n l] as its type.
    - Loops of the source are [Fixpoint]s over the data they consume.  Only the
      receive loops have fuel, since a transport may deliver frames for ever;
      the theorems give the fuel that is enough ([len / 7 + 3] for a download,
      40 for any upload of the driver's 256 bytes, one more than the number of
      queued frames for the node's loop).

    ** Files and the code they model

    - [Frame]: transport.rs ([CanFrame], the mailbox queues), cobid.rs.
    - [Nmt]: nmt.rs.
    - [Od]: datatypes.rs, od.rs.  The trait [ObjectDictionary] is a type class;
      [OdLaws] states what its Rust types and documentation promise.  Its
      instances are [TableOd], a table used by the witnesses, and the generated
      dictionaries of [Gen].
    - [SdoProtocol], [SdoServer]: sdo/protocol.rs, sdo/server.rs.  All handlers,
      the validation of configuration writes, the transfer timeout and the
      block-upload poll.  [SdoServerSafe] proves the invariant of the server and
      that it never panics; [SdoServerSpec] proves what a request may change.
    - [SdoClient], [SdoDriver]: sdo/client.rs, sdo/driver.rs, the latter over
      the class [AsyncCan].  [SdoClientSafe] is the client's invariant.
      [SdoTransfer] closes the loop: a driver connected to a server refines one
      read or one validated write of the dictionary.  [SdoTimed] is the rest of
      driver.rs: transfers with a deadline, over the class [PollCan] (a
      transport seen one poll at a time) and the list of clock readings they
      take; typed access; the adapter [NbCanAsync].  [SdoTimedSpec] proves when
      timed transfers end, and that in time they are the untimed ones.
    - [Crc], [SdoBlock]: the CRC of block transfers, and block transfers against
      clients that lose segments and change block sizes.
    - [PdoBits], [PdoEngine]: pdo/mod.rs, pdo/engine.rs.  [PdoMapped] proves that
      packing and unpacking agree; [PdoTimed] proves the timing rules (inhibit
      time, event timer, cyclic SYNC division, SYNC-coherent reception,
      deadlines).
    - [Sync], [Heartbeat], [Emcy], [Lss], [Events]: the files of these names.
    - [Node]: node.rs, the composition.  The transport is the class [Can]; the
      arrays of the additional SDO servers are one list of channels; [process]
      is the whole processing call, [boot], [begin_polls], [drain] (the receive
      loop), and [after_rx] its stages in order.  [NodeSafe] proves the invariant
      [node_ok] preserved by every stage for transports satisfying [CanLaws] and
      dictionaries satisfying [NodeOd]; [NodeRun] runs a node on the mailbox
      under any traffic and application calls, and shows the table-driven
      dictionary to be such a dictionary; [NodeNew] describes the node that
      construction builds and the COB-ID plans it accepts; [NodeSpec] says what a processing
      call and a reset leave behind.
    - [Router]: can_router.rs.
    - [Dcf]: dcf.rs, over the string functions of [Text].
    - [Eds], [EdsParser]: the EDS import of [canopen-derive], from text to the
      dictionary entries and PDO definitions its generators work on, with the
      checks of dsl.rs and the resolution of mappings of codegen.rs.  [EdsSpec]:
      what an accepted file guarantees.
    - [Gen]: codegen.rs.  [generate] returns what its templates denote: the
      initial struct, the metadata table and the arms of the [match]es of [read]
      and [write]; [generated_od] is the dictionary.  [GenSpec] gives every row
      its place in the struct and its checks, and shows that each arm computes
      [ref_read] and [ref_write]; [GenTable] that every address has one row;
      [GenFacts] what the rows hold after a write; [GenNode] that a node
      accepts the dictionary.
    - [PdoClient]: pdo_client_codegen.rs, the remote-device type generated for
      a definition.  [PdoClientSpec] reads its codecs as numbers,
      [PdoClientDevice] relates them to the PDOs of the generated dictionary,
      [PdoClientDispatch] is about [decode].
    - [Dsl]: dsl.rs, the parser of the macro language, over the class
      [TokenStream] of [syn]'s buffers.  [DslSpec]: a program logic for its
      parsers and what an accepted definition guarantees.
    - [EdsExport]: eds_export.rs, the EDS text of a definition.  [EdsText] reads
      its numbers, keys and lines back; [EdsExportSpec] gives the sections of a
      well-formed definition and shows that the INI reader finds them;
      [EdsRoundTrip] (objects) and [EdsPdoTrip] (PDOs) import them again.
    - [SdoClientGen]: sdo_client_codegen.rs, the methods of the SDO client
      generated for a definition.  [SdoClientDevice] runs them against the
      server of the generated device.
    - [Bus]: bus.rs, over the class [Can] of [Nb]; [BusWait] interleaves the
      locked regions of its asynchronous and blocking waits as step relations.
    - [Slcan]: slcan/logic.rs and slcan/serial.rs, over the class [SerialPort].
    - [Canwsd]: the WebSocket bridge's wire format, filters and frame buffer.
      [Bridge] is one client's session (bridge.rs, socketcan_wire.rs) over the
      classes of the socket, its frames and the WebSocket sink; [BridgeSpec] has
      their laws and the filter invariant, [BridgeDelivery] what the client is
      sent between filter commands, and [BridgeDemo] a concrete socket with the
      cases the theorems exclude.
    - [FwMeta], [FwUpdate]: the firmware updater of examples/emdm-fwupdate, its
      metadata log and its bootloader, over the class [FlashOps].
      [FwMetaSpec]: the log under power failures; [FwUpdateSpec]: runs of the
      device over requests, resets and power failures; [FwProgram]: the image a
      download leaves; [FwDemo]: a concrete flash.
    - [FwHost]: the client of tools/canopen-fwupdate over the class [Network] of
      its transport; the fuel of its waiting loops is their deadline over their
      interval.  [FwHostSpec]: every command ends.  [FwBench]: client and
      device connected, with lost exchanges and power cycles; [FwInstall]: what
      a reported success means; [FwSuccess]: an undisturbed update succeeds;
      [FwHostDemo]: runs on concrete flashes.

    ** What the theorems show

    - Absence of panics, bounds, termination: [node_never_panics],
      [server_never_panics], and the no-panic part of every theorem stated with
      [runs] or with an equation to [Ret].  Construction builds the node its
      inputs describe and fails only on an ambiguous COB-ID plan
      ([new_fails_only_on_clash]).  The client side:
      [client_never_panics], [timed_transfer_ends].
    - The node over time: [quiet_outside_operational], [reset_forgets].
    - Refinement: an SDO transfer, expedited, segmented or block, is one read or
      one validated write ([download_is_write], [upload_is_read],
      [block_download_is_write], [block_upload_delivers]); the NMT slave and the
      heartbeat monitor are their diagrams, the latter labelled with what the
      monitor observes ([heartbeat_monitor_life]).
    - Safety of the dictionary: [od_changes_only_by_validated_write],
      [operational_refuses_pdo_download],
      [rpdo_sync_coherent].
    - Timing: [timeout_only_after_silence], [tpdo_inhibit_respected],
      [tpdo_event_delivered], [cyclic_tpdo_period], [rpdo_deadline_edge],
      [heartbeat_period], [sync_producer_pulses].  Times are [u64] microseconds
      with the wrap-around of the source; a hypothesis that a clock advances
      says so on the sequence of times of a run.
    - Generated dictionaries: [generated_is_table], [generated_roundtrip], and
      [generated_node_never_panics], which composes them with the node for
      definitions that are [node_ready].
      Device and client generated from one definition understand each other:
      [tpdo_reaches_client], [rpdo_reaches_device], [client_dispatches] for PDOs,
      [sdo_client_round_trip] and [sdo_client_methods] for SDO.
    - Delivery: [bus_delivery] and [no_lost_wakeup] for the shared bus,
      [demux_keeps_order] for the demultiplexer, [slcan_framing] for a serial byte stream in pieces of any size,
      [drop_buffer_refines_queue] for the bridge's buffer, and around it
      [client_sees_lossy_queue], [client_filter_enforced] and
      [frame_crosses_bridge], for filters and identifiers that kernel and bridge
      read alike.
    - The firmware updater: [update_never_boots_partial_image],
      [append_is_atomic], and the content of a download
      ([download_programs_image]).  Client and device together: a reported
      success has installed the image ([success_installs_image]), an undisturbed
      update succeeds ([undisturbed_update_succeeds]); the client always ends
      ([client_ends]).
    - The macro language: [macro_definition_valid], what the generator theorems
      assume of a definition.
    - Configuration files: [serialize_integer_bounds], [dcf_parse_well_typed];
      [eds_import_valid], and [hash_order_irrelevant] for the hash map inside;
      [eds_round_trip]: an exported definition is imported as it was.
    - Round trips and bit-level functions: identifiers, PDO bit copies, PDO
      mapping, emergency frames, SYNC COB-ID, event decoding.

    ** Not modelled

    - Of node.rs, the embassy wake signal and the mutex wrapper [SharedNode].
    - Of driver.rs and can_router.rs, the additional timer of the embassy
      feature, which only adds polls.
    - Of [canopen-derive], the entry points of the macros (lib.rs).
    - The bus between update client and device is not the SDO frames of the
      other files: an exchange is one read or write of an object, which is what
      [download_is_write] and [upload_is_read] show a transfer to be.  The F767
      updater has the same state machine on another flash and is left out.
    - The Linux and web transports, the other examples, the HTTP routing of
      canwsd, the text output of canwsd-dump and the command lines of the tools
      are input and output. *)
From stdpp Require Export base tactics list numbers option decidable.
From Stdlib Require Export ZArith Lia.

Open Scope Z_scope.

(** ** Rust results and panics *)

Inductive result (T E : Type) : Type :=
| Ok (t : T)
| Err (e : E).
Arguments Ok {T E} t.
Arguments Err {T E} e.

Definition is_ok {T E} (r : result T E) : bool :=
  match r with Ok _ => true | Err _ => false end.

Definition res_ok {T E} (r : result T E) : option T :=
  match r with Ok t => Some t | Err _ => None end.

#[export] Instance result_eq_dec {T E} `{EqDecision T, EqDecision E} : EqDecision (result T E).
Proof. solve_decision. Defined.

(** A computation that may panic: out-of-range slices, failed [unwrap]s and
    [assert!]s, and checked integer arithmetic that leaves its width. *)
Inductive exec (A : Type) : Type :=
| Ret (a : A)
| Panic.
Arguments Ret {A} a.
Arguments Panic {A}.

#[export] Instance exec_ret : MRet exec := λ A a, Ret a.
#[export] Instance exec_bind : MBind exec := λ A B f m,
  match m with Ret a => f a | Panic => Panic end.

(** [runs m P]: the computation does not panic and its result satisfies [P]. *)
Definition runs {A} (m : exec A) (P : A → Prop) : Prop :=
  match m with Ret a => P a | Panic => False end.

(** A [for] loop that collects its results. *)
Definition for_each {A B} (f : A → exec B) : list A → exec (list B) :=
  fix go l := match l with [] => mret [] | x :: l => y ← f x; ys ← go l; mret (y :: ys) end.

Definition unwrap {A} (o : option A) : exec A :=
  match o with Some a => Ret a | None => Panic end.

Definition assert_ (b : bool) : exec unit := if b then Ret tt else Panic.

Section exec_lemmas.
Context {A B : Type}.
Implicit Types (m : exec A) (f : A → exec B).

Lemma runs_ret (a : A) (P : A → Prop) : P a → runs (Ret a) P.
Proof. done. Qed.

Lemma runs_bind m f (P : A → Prop) (Q : B → Prop) :
  runs m P → (∀ a, P a → runs (f a) Q) → runs (m ≫= f) Q.
Proof. destruct m; simpl; [auto|done]. Qed.

Lemma runs_mono m (P Q : A → Prop) : runs m P → (∀ a, P a → Q a) → runs m Q.
Proof. destruct m; simpl; auto. Qed.

Lemma runs_inv m (P : A → Prop) : runs m P → ∃ a, m = Ret a ∧ P a.
Proof. destruct m; simpl; [eauto|done]. Qed.

Lemma runs_eq m a (P : A → Prop) : m = Ret a → P a → runs m P.
Proof. by intros ->. Qed.

Lemma bind_ret (a : A) f : (Ret a ≫= f) = f a.
Proof. done. Qed.

Lemma bind_Ret_inv m f (b : B) : m ≫= f = Ret b → ∃ a, m = Ret a ∧ f a = Ret b.
Proof. destruct m; simpl; [eauto|done]. Qed.
End exec_lemmas.

(** [wlp m P]: if the computation returns, its result satisfies [P]. *)
Definition wlp {A} (m : exec A) (P : A → Prop) : Prop := ∀ a, m = Ret a → P a.

Lemma wlp_ret {A} (a : A) (P : A → Prop) : P a → wlp (Ret a) P.
Proof. by intros ? b [= <-]. Qed.

Lemma wlp_bind {A B} (m : exec A) (f : A → exec B) (Q : B → Prop) :
  (∀ a, m = Ret a → wlp (f a) Q) → wlp (m ≫= f) Q.
Proof. intros Hf b Hb. apply bind_Ret_inv in Hb as (a & Ha & Hb). by eapply Hf. Qed.

Lemma wlp_bind_use {A B} (m : exec A) (f : A → exec B) (P : A → Prop) (Q : B → Prop) :
  wlp m P → (∀ a, P a → wlp (f a) Q) → wlp (m ≫= f) Q.
Proof. intros Hm Hf. apply wlp_bind. intros a Ha. by apply Hf, Hm. Qed.

Lemma wlp_mono {A} (m : exec A) (P Q : A → Prop) : wlp m P → (∀ a, P a → Q a) → wlp m Q.
Proof. intros Hm HPQ a Ha. by apply HPQ, Hm. Qed.

Lemma wlp_panic {A} (P : A → Prop) : wlp Panic P.
Proof. by intros a. Qed.

(** Walk through a computation, splitting every branch and naming nothing. *)
Ltac wlp_step :=
  match goal with
  | |- wlp (mbind _ _) _ => apply wlp_bind; intros ? ?
  | |- wlp (mret _) _ => apply wlp_ret
  | |- wlp (Ret _) _ => apply wlp_ret
  | |- wlp Panic _ => apply wlp_panic
  | |- wlp (match ?x with _ => _ end) _ => destruct x eqn:?
  | |- wlp (let '(_, _) := ?x in _) _ => destruct x eqn:?
  end.

(** Reduce the head of a monadic computation, and nothing inside its data. *)
Ltac rstep := cbn [mbind exec_bind mret exec_ret runs unwrap fst snd].

(** ** Machine integers *)

Definition is_uint (w z : Z) : Prop := 0 ≤ z < 2 ^ w.
Abbreviation is_u8 := (is_uint 8).
Abbreviation is_u16 := (is_uint 16).
Abbreviation is_u32 := (is_uint 32).
Abbreviation is_u64 := (is_uint 64).

(** [as] casts and [wrapping_*] operations reduce modulo the width. *)
Definition wrap (w z : Z) : Z := z mod 2 ^ w.
Abbreviation as_u8 := (wrap 8).
Abbreviation as_u16 := (wrap 16).
Abbreviation as_u32 := (wrap 32).
Abbreviation as_u64 := (wrap 64).

(** Plain [+], [-], [*] on unsigned integers panic outside the width. *)
Definition checked (w z : Z) : exec Z :=
  if (0 <=? z) && (z <? 2 ^ w) then Ret z else Panic.

Definition saturating_add (w a b : Z) : Z := Z.min (a + b) (2 ^ w - 1).
Definition saturating_sub (a b : Z) : Z := Z.max (a - b) 0.
Definition wrapping_sub (w a b : Z) : Z := wrap w (a - b).

(** [usize] subtraction. *)
Definition usub (a b : Z) : exec Z := if b <=? a then Ret (a - b) else Panic.

(** The range pattern [lo..=hi]. *)
Definition in_range (lo hi z : Z) : bool := (lo <=? z) && (z <=? hi).

Lemma is_uint_dec_spec w z : ((0 <=? z) && (z <? 2 ^ w) = true) ↔ is_uint w z.
Proof. unfold is_uint. lia. Qed.

Lemma wrap_id w z : is_uint w z → wrap w z = z.
Proof. apply Z.mod_small. Qed.

Lemma wrap_range w z : 0 ≤ w → is_uint w (wrap w z).
Proof. intros. apply Z.mod_pos_bound. by apply Z.pow_pos_nonneg. Qed.

Lemma usub_ret a b : b ≤ a → usub a b = Ret (a - b).
Proof. intros. unfold usub. by rewrite (proj2 (Z.leb_le _ _)). Qed.

Lemma checked_ret w z : is_uint w z → checked w z = Ret z.
Proof. intros. unfold checked. by rewrite (proj2 (is_uint_dec_spec _ _)). Qed.

(** A flag of a word is set when its bit is. *)
Lemma flag_bit w k : 0 ≤ k → negb (Z.land w (2 ^ k) =? 0) = Z.testbit w k.
Proof.
  intros Hk. destruct (Z.testbit w k) eqn:Hb.
  - apply negb_true_iff, Z.eqb_neq. intros H0.
    apply (f_equal (λ z, Z.testbit z k)) in H0. rewrite Z.land_spec, Z.pow2_bits_true, Hb in H0 by done.
    by rewrite Z.bits_0 in H0.
  - apply negb_false_iff, Z.eqb_eq, Z.bits_inj_0. intros n.
    rewrite Z.land_spec. destruct (decide (n = k)) as [->|].
    + by rewrite Hb.
    + rewrite Z.pow2_bits_false by done. by rewrite andb_false_r.
Qed.

Lemma wrapping_sub_id w a b : is_uint w (a - b) → wrapping_sub w a b = a - b.
Proof. apply wrap_id. Qed.

Lemma wrapping_sub_self w a : wrapping_sub w a a = 0.
Proof. unfold wrapping_sub, wrap. by rewrite Z.sub_diag, Zmod_0_l. Qed.

(** *** Bits of bytes *)

Lemma land_disjoint (a b : Z) : 0 ≤ a < 256 → Z.land a (b * 2 ^ 8) = 0.
Proof.
  intros Ha. apply Z.bits_inj'. intros n Hn. rewrite Z.land_spec, Z.bits_0.
  destruct (Z.lt_ge_cases n 8).
  - rewrite Z.mul_pow2_bits_low by lia. by rewrite andb_false_r.
  - replace a with (a mod 2 ^ 8) by (apply Z.mod_small; lia).
    by rewrite Z.mod_pow2_bits_high by lia.
Qed.

Lemma lor_shift (a b : Z) : 0 ≤ a < 256 → Z.lor a (Z.shiftl b 8) = a + 256 * b.
Proof.
  intros Ha. rewrite Z.shiftl_mul_pow2 by lia.
  pose proof (land_disjoint a b Ha) as Hd.
  pose proof (Z.add_nocarry_lxor _ _ Hd). pose proof (Z.lxor_lor _ _ Hd). lia.
Qed.

Lemma testbit_byte b k : is_u8 b → 8 ≤ k → Z.testbit b k = false.
Proof.
  intros Hb Hk. rewrite <- (wrap_id 8 b Hb). unfold wrap. by rewrite Z.mod_pow2_bits_high by lia.
Qed.

Lemma byte_from_bits y : (∀ j, 8 ≤ j → Z.testbit y j = false) → 0 ≤ y → is_u8 y.
Proof.
  intros Hj Hy. unfold is_uint. split; [done|]. destruct (decide (y = 0)) as [->|]; [lia|].
  apply Z.log2_lt_pow2; [lia|]. destruct (Z.lt_ge_cases (Z.log2 y) 8) as [|Hge]; [done|].
  specialize (Hj (Z.log2 y) Hge). rewrite Z.bit_log2 in Hj by lia. done.
Qed.

Lemma testbit_small x w k : 0 ≤ w → 0 ≤ x < 2 ^ w → w ≤ k → Z.testbit x k = false.
Proof.
  intros Hw Hx Hk. rewrite <- (Z.mod_small x (2 ^ w)) by done. by apply Z.mod_pow2_bits_high.
Qed.

Lemma lor_u8 a b : is_u8 a → is_u8 b → is_u8 (Z.lor a b).
Proof.
  intros Ha Hb. apply byte_from_bits.
  - intros j Hj. by rewrite Z.lor_spec, !testbit_byte.
  - apply Z.lor_nonneg. unfold is_uint in *. lia.
Qed.

Lemma land_u8 a b : is_u8 a → is_u8 (Z.land a b).
Proof.
  intros Ha. apply byte_from_bits.
  - intros j Hj. by rewrite Z.land_spec, testbit_byte.
  - apply Z.land_nonneg. unfold is_uint in *. lia.
Qed.

(** A boolean fact about every byte is decided by evaluation. *)
Lemma byte_forall (f : Z → bool) :
  forallb f (seqZ 0 256) = true → ∀ b, is_u8 b → f b = true.
Proof.
  rewrite forallb_forall. intros H b Hb. apply H.
  apply list_elem_of_In, elem_of_seqZ. unfold is_uint in Hb. lia.
Qed.

(** Each time is at least [gap] after the one before it, the first after [last]. *)
Fixpoint spaced (gap last : Z) (times : list Z) : Prop :=
  match times with
  | [] => True
  | x :: times => last + gap ≤ x ∧ spaced gap x times
  end.

(** ** Hash maps *)

(** A [HashMap] as the list of its entries; [insert] replaces. *)
Definition map_get {A} (m : list (Z * A)) (k : Z) : option A :=
  snd <$> List.find (λ e, fst e =? k) m.

Definition map_insert {A} (m : list (Z * A)) (k : Z) (v : A) : list (Z * A) :=
  List.filter (λ e, negb (fst e =? k)) m ++ [(k, v)].

(** [entry(k).or_default().push(x)] *)
Definition map_push {A} (m : list (Z * list A)) (k : Z) (x : A) : list (Z * list A) :=
  match map_get m k with
  | Some _ => map (λ e, if fst e =? k then (fst e, snd e ++ [x]) else e) m
  | None => m ++ [(k, [x])]
  end.

(** ** Byte arrays and slices *)

Abbreviation len l := (Z.of_nat (length l)).
Abbreviation bytes := (Forall (is_uint 8)).

(** A frame payload of the Rust type [[u8; n]]. *)
Definition array (n : Z) (l : list Z) : Prop := len l = n ∧ bytes l.

Definition zeros (n : Z) : list Z := replicate (Z.to_nat n) 0.

(** [l[i]] on an array whose length the type fixes. *)
Definition at_ (l : list Z) (i : nat) : Z := nth i l 0.

(** [&l[a..b]] *)
Definition slice (l : list Z) (a b : Z) : exec (list Z) :=
  if (0 <=? a) && (a <=? b) && (b <=? len l)
  then Ret (take (Z.to_nat (b - a)) (drop (Z.to_nat a) l))
  else Panic.

(** [dst[a..b].copy_from_slice(src)] *)
Definition copy_from_slice (dst : list Z) (a b : Z) (src : list Z) : exec (list Z) :=
  if (0 <=? a) && (a <=? b) && (b <=? len dst) && (len src =? b - a)
  then Ret (take (Z.to_nat a) dst ++ src ++ drop (Z.to_nat b) dst)
  else Panic.

(** [dst[i] = v] *)
Definition set_at (dst : list Z) (i : nat) (v : Z) : list Z := <[i := v]> dst.

(** [data.try_into()] from a slice to [[u8; 8]]. *)
Definition try_into8 (data : list Z) : option (list Z) :=
  if len data =? 8 then Some data else None.

(** Little-endian conversions of the standard library. *)
Fixpoint to_le_bytes (n : nat) (z : Z) : list Z :=
  match n with
  | O => []
  | S n' => z mod 256 :: to_le_bytes n' (z / 256)
  end.

Fixpoint from_le_bytes (l : list Z) : Z :=
  match l with
  | [] => 0
  | b :: l' => b + 256 * from_le_bytes l'
  end.

(** The two's complement reading of [n] bytes. *)
Definition signed_of (n v : Z) : Z := if v <? 2 ^ (8 * n - 1) then v else v - 2 ^ (8 * n).

#[global] Arguments zeros : simpl never.
#[global] Arguments slice : simpl never.
#[global] Arguments copy_from_slice : simpl never.
#[global] Arguments wrap : simpl never.
#[global] Arguments usub : simpl never.
#[global] Arguments checked : simpl never.

(** Facts [is_uint], [bytes] and [array] that follow from how a value is built. *)
Create HintDb bytes discriminated.

Section byte_lists.
Implicit Types l k dst src : list Z.

Lemma len_zeros n : 0 ≤ n → len (zeros n) = n.
Proof. intros. unfold zeros. rewrite length_replicate. lia. Qed.

Lemma bytes_zeros n : bytes (zeros n).
Proof. unfold zeros. apply Forall_replicate. by unfold is_uint. Qed.

Lemma array_zeros n : 0 ≤ n → array n (zeros n).
Proof. intros. split; [by apply len_zeros|apply bytes_zeros]. Qed.

Lemma slice_ret l a b :
  0 ≤ a → a ≤ b → b ≤ len l →
  slice l a b = Ret (take (Z.to_nat (b - a)) (drop (Z.to_nat a) l)).
Proof.
  intros. unfold slice.
  by rewrite (proj2 (Z.leb_le 0 a)), (proj2 (Z.leb_le a b)), (proj2 (Z.leb_le b _)).
Qed.

Lemma slice_prefix l b : 0 ≤ b → b ≤ len l → slice l 0 b = Ret (take (Z.to_nat b) l).
Proof. intros. rewrite slice_ret by lia. by rewrite Z.sub_0_r. Qed.

Lemma copy_from_slice_ret dst a b src :
  0 ≤ a → a ≤ b → b ≤ len dst → len src = b - a →
  copy_from_slice dst a b src = Ret (take (Z.to_nat a) dst ++ src ++ drop (Z.to_nat b) dst).
Proof.
  intros. unfold copy_from_slice.
  by rewrite (proj2 (Z.leb_le 0 a)), (proj2 (Z.leb_le a b)), (proj2 (Z.leb_le b _)),
    (proj2 (Z.eqb_eq _ _)).
Qed.

Lemma copy_length dst a b src :
  0 ≤ a → a ≤ b → b ≤ len dst → len src = b - a →
  length (take (Z.to_nat a) dst ++ src ++ drop (Z.to_nat b) dst) = length dst.
Proof. intros. rewrite !length_app, length_take, length_drop. lia. Qed.

Lemma bytes_take n l : bytes l → bytes (take n l).
Proof. apply Forall_take. Qed.

Lemma bytes_drop n l : bytes l → bytes (drop n l).
Proof. apply Forall_drop. Qed.

Lemma bytes_app l k : bytes l → bytes k → bytes (l ++ k).
Proof. intros. by apply Forall_app_2. Qed.

Lemma bytes_copy dst a b src :
  bytes dst → bytes src → bytes (take a dst ++ src ++ drop b dst).
Proof. intros. apply bytes_app; [by apply bytes_take|]. apply bytes_app; [done|by apply bytes_drop]. Qed.

#[local] Hint Resolve bytes_take bytes_drop bytes_app bytes_copy bytes_zeros : bytes.

Lemma at_bytes l i : bytes l → is_u8 (at_ l i).
Proof.
  intros H. unfold at_. destruct (decide (i < length l)%nat).
  - by apply Forall_nth.
  - rewrite nth_overflow by lia. by unfold is_uint.
Qed.

Lemma slice_bytes l a b d : slice l a b = Ret d → bytes l → bytes d.
Proof. unfold slice. intros Hs ?. case_match; [|done]. injection Hs as <-. auto with bytes. Qed.

Lemma copy_bytes dst a b src d : copy_from_slice dst a b src = Ret d → bytes dst → bytes src → bytes d.
Proof. unfold copy_from_slice. intros Hs ??. case_match; [|done]. injection Hs as <-. auto with bytes. Qed.

Lemma array_slice n l a b :
  array n l → 0 ≤ a → a ≤ b → b ≤ n → runs (slice l a b) (array (b - a)).
Proof.
  intros [Hl Hb] ???. rewrite slice_ret by lia. split.
  - rewrite length_take, length_drop. lia.
  - auto with bytes.
Qed.

Lemma array_copy n dst a b src :
  array n dst → 0 ≤ a → a ≤ b → b ≤ n → array (b - a) src →
  runs (copy_from_slice dst a b src) (array n).
Proof.
  intros [Hl Hb] ??? [Hs ?]. rewrite copy_from_slice_ret by lia. split.
  - rewrite copy_length; lia.
  - auto with bytes.
Qed.

Lemma array_set n l i v : array n l → is_u8 v → array n (set_at l i v).
Proof.
  intros [Hl Hb] Hv. split.
  - unfold set_at. by rewrite length_insert.
  - by apply Forall_insert.
Qed.

Lemma length_to_le n z : length (to_le_bytes n z) = n.
Proof. revert z. induction n; simpl; auto. Qed.

Lemma bytes_to_le n z : bytes (to_le_bytes n z).
Proof.
  revert z. induction n; simpl; constructor; auto. unfold is_uint.
  apply Z.mod_pos_bound. lia.
Qed.

Lemma from_to_le n z : from_le_bytes (to_le_bytes n z) = z mod 256 ^ Z.of_nat n.
Proof.
  revert z. induction n as [|n IH]; intros z; simpl.
  - by rewrite Z.mod_1_r.
  - rewrite IH. replace (Z.of_nat (S n)) with (1 + Z.of_nat n) by lia.
    rewrite Z.pow_add_r, Z.pow_1_r by lia.
    rewrite Z.rem_mul_r by lia. lia.
Qed.

Lemma from_to_le_id n z : 0 ≤ z < 256 ^ Z.of_nat n → from_le_bytes (to_le_bytes n z) = z.
Proof. intros. rewrite from_to_le. by apply Z.mod_small. Qed.

Lemma to_from_le l : bytes l → to_le_bytes (length l) (from_le_bytes l) = l.
Proof.
  induction 1 as [|b l Hb _ IH]; simpl; [done|]. unfold is_uint in Hb.
  rewrite (Z.mul_comm 256), Z.mod_add, Z.mod_small, Z.div_add, Z.div_small by lia.
  by rewrite Z.add_0_l, IH.
Qed.

Lemma from_le_range l : bytes l → 0 ≤ from_le_bytes l < 256 ^ len l.
Proof.
  induction 1 as [|b l Hb _ IH]; simpl; [lia|]. unfold is_uint in Hb.
  replace (Z.of_nat (S (length l))) with (1 + len l) by lia.
  rewrite Z.pow_add_r by lia. lia.
Qed.
End byte_lists.

#[global] Arguments to_le_bytes : simpl never.
#[global] Arguments from_le_bytes : simpl never.

#[export] Hint Resolve bytes_take bytes_drop bytes_app bytes_copy bytes_zeros bytes_to_le
  array_zeros array_set at_bytes : bytes.

(** [d.[i]] is the [i]th element of an array, as in the source. *)
Declare Scope yacob_scope.
Delimit Scope yacob_scope with yacob.
Notation "d .[ i ]" := (at_ d i) (at level 1, left associativity, format "d .[ i ]") : yacob_scope.
