(* ===== verification/Text.v ===== *)
(** * Text

    The string functions of the Rust standard library that [dcf.rs] and
    [filter.rs] use.  A string is the list of its bytes; whitespace and letter
    case are those of ASCII.  [from_str_radix_spec] says what number parsing
    accepts. *)
From S2P Require Import Prelude.
From Stdlib Require Import String Ascii.
Export StringSyntax.

Definition str (s : string) : list Z := (λ c, Z.of_N (N_of_ascii c)) <$> list_ascii_of_string s.
#[global] Arguments str s%_string_scope.

Definition quote : Z := 34.
Definition newline : Z := 10.
Definition cr : Z := 13.

Lemma bytes_str s : bytes (str s).
Proof.
  unfold str. apply Forall_fmap, List.Forall_forall. intros c _. unfold compose.
  split; [apply N2Z.is_nonneg|]. change (2 ^ 8) with (Z.of_N 256). apply N2Z.inj_lt, N_ascii_bounded.
Qed.

(** ** Trimming, prefixes and separators *)

Definition is_whitespace (c : Z) : bool := in_range 9 13 c || (c =? 32).

Fixpoint trim_start_by (f : Z → bool) (s : list Z) : list Z :=
  match s with
  | c :: s' => if f c then trim_start_by f s' else s
  | [] => []
  end.

Definition trim_by (f : Z → bool) (s : list Z) : list Z :=
  rev (trim_start_by f (rev (trim_start_by f s))).

Definition trim (s : list Z) : list Z := trim_by is_whitespace s.

(** [trim_matches(c)] *)
Definition trim_matches (c : Z) (s : list Z) : list Z := trim_by (Z.eqb c) s.

Fixpoint strip_prefix (p s : list Z) : option (list Z) :=
  match p, s with
  | [], s => Some s
  | c :: p, d :: s => if c =? d then strip_prefix p s else None
  | _ :: _, [] => None
  end.

Definition starts_with (p s : list Z) : bool :=
  match strip_prefix p s with Some _ => true | None => false end.

Definition ends_with (c : Z) (s : list Z) : bool :=
  match rev s with d :: _ => d =? c | [] => false end.

(** [split(c)]: the pieces between separators, at least one. *)
Fixpoint split (c : Z) (s : list Z) : list (list Z) :=
  match s with
  | [] => [[]]
  | d :: s =>
      if d =? c then [] :: split c s
      else match split c s with
           | piece :: rest => (d :: piece) :: rest
           | [] => [[d]]
           end
  end.

(** [split_once(p)]: around the first occurrence of [p]. *)
Fixpoint split_once (p s : list Z) : option (list Z * list Z) :=
  match strip_prefix p s with
  | Some rest => Some ([], rest)
  | None =>
      match s with
      | [] => None
      | d :: s => '(a, b) ← split_once p s; Some (d :: a, b)
      end
  end.

Definition contains (p s : list Z) : bool := bool_decide (is_Some (split_once p s)).

(** [lines()]: the pieces ending at a line feed, which is removed with a
    carriage return before it; an empty last piece is no line. *)
Definition strip_line_end (line : list Z) : list Z :=
  match rev line with
  | c :: l => if c =? cr then rev l else line
  | [] => []
  end.

Fixpoint drop_last_empty (pieces : list (list Z)) : list (list Z) :=
  match pieces with
  | [] => []
  | [[]] => []
  | [p] => [p]
  | p :: rest => strip_line_end p :: drop_last_empty rest
  end.

Definition lines (s : list Z) : list (list Z) := drop_last_empty (split newline s).

(** ** Letter case *)

Definition to_ascii_lowercase (c : Z) : Z := if in_range 65 90 c then c + 32 else c.
Definition to_lowercase (s : list Z) : list Z := to_ascii_lowercase <$> s.
Definition eq_ignore_ascii_case (a b : list Z) : bool :=
  bool_decide (to_lowercase a = to_lowercase b).

(** ** Numbers *)

(** [char::to_digit] *)
Definition to_digit (radix c : Z) : option Z :=
  let d := if in_range 48 57 c then c - 48
           else if in_range 97 122 c then c - 97 + 10
           else if in_range 65 90 c then c - 65 + 10
           else radix in
  if d <? radix then Some d else None.

(** The digit loop: [checked_mul] and [checked_add] in [w] bits. *)
Fixpoint digits_loop (w radix acc : Z) (s : list Z) : option Z :=
  match s with
  | [] => Some acc
  | c :: s =>
      let m := acc * radix in
      if m <? 2 ^ w then
        d ← to_digit radix c;
        if m + d <? 2 ^ w then digits_loop w radix (m + d) s else None
      else None
  end.

Definition plus : Z := 43.
Definition minus : Z := 45.

(** [uN::from_str_radix], and with radix 10 [str::parse::<uN>]. *)
Definition from_str_radix (w radix : Z) (s : list Z) : option Z :=
  match s with
  | [] => None
  | [c] => if (c =? plus) || (c =? minus) then None else digits_loop w radix 0 [c]
  | c :: digits => if c =? plus then digits_loop w radix 0 digits else digits_loop w radix 0 s
  end.

(** The loop for a negative number: [checked_mul], then [checked_sub]. *)
Fixpoint neg_digits_loop (w acc : Z) (s : list Z) : option Z :=
  match s with
  | [] => Some acc
  | c :: s =>
      let m := acc * 10 in
      if - 2 ^ (w - 1) <=? m then
        d ← to_digit 10 c;
        if - 2 ^ (w - 1) <=? m - d then neg_digits_loop w (m - d) s else None
      else None
  end.

(** [str::parse::<iN>] *)
Definition parse_signed (w : Z) (s : list Z) : option Z :=
  match s with
  | [] => None
  | [c] => if (c =? plus) || (c =? minus) then None else digits_loop (w - 1) 10 0 [c]
  | c :: digits =>
      if c =? plus then digits_loop (w - 1) 10 0 digits
      else if c =? minus then neg_digits_loop w 0 digits
      else digits_loop (w - 1) 10 0 s
  end.

(** ** What number parsing accepts *)

(** The value of a digit string, of any size. *)
Fixpoint digits_value (radix acc : Z) (s : list Z) : option Z :=
  match s with
  | [] => Some acc
  | c :: s => d ← to_digit radix c; digits_value radix (acc * radix + d) s
  end.

(** The digits of a number without its plus sign. *)
Definition digits_of (s : list Z) : option (list Z) :=
  match s with
  | [] => None
  | [c] => if (c =? plus) || (c =? minus) then None else Some [c]
  | c :: digits => if c =? plus then Some digits else Some s
  end.

Definition number (radix : Z) (s : list Z) : option Z := s ← digits_of s; digits_value radix 0 s.

Definition below (bound : Z) (o : option Z) : option Z := n ← o; if n <? bound then Some n else None.

Lemma below_Some bound o n : below bound o = Some n ↔ o = Some n ∧ n < bound.
Proof.
  unfold below. destruct o as [m|]; cbn [mbind option_bind]; [|naive_solver].
  destruct (Z.ltb_spec m bound); naive_solver lia.
Qed.

Lemma below_trans b b' o : b ≤ b' → below b (below b' o) = below b o.
Proof.
  intros. unfold below. destruct o as [n|]; [|done]. cbn [mbind option_bind].
  destruct (Z.ltb_spec n b'); [done|]. cbn [mbind option_bind].
  by rewrite (proj2 (Z.ltb_ge _ _)) by lia.
Qed.

Lemma to_digit_range radix c d : 0 ≤ radix → to_digit radix c = Some d → 0 ≤ d < radix.
Proof.
  intros Hr. unfold to_digit, in_range.
  destruct (Z.leb_spec 48 c), (Z.leb_spec c 57), (Z.leb_spec 97 c), (Z.leb_spec c 122),
    (Z.leb_spec 65 c), (Z.leb_spec c 90); cbn [andb]; cbv zeta; try lia;
    match goal with |- context [?a <? ?b] => destruct (Z.ltb_spec a b) end; intros [= <-]; lia.
Qed.

Lemma digits_value_ge radix acc s n :
  1 ≤ radix → 0 ≤ acc → digits_value radix acc s = Some n → acc ≤ n.
Proof.
  intros Hr. revert acc. induction s as [|c s IH]; intros acc Ha; cbn [digits_value].
  - intros [= <-]. lia.
  - destruct (to_digit radix c) as [d|] eqn:E; [|done]. cbn [mbind option_bind]. intros H.
    apply to_digit_range in E; [|lia]. apply IH in H; nia.
Qed.

Lemma digits_value_none_below w radix acc s :
  1 ≤ radix → 0 ≤ acc → 2 ^ w ≤ acc → below (2 ^ w) (digits_value radix acc s) = None.
Proof.
  intros Hr Ha Hw. unfold below. destruct (digits_value radix acc s) as [n|] eqn:E; [|done].
  apply digits_value_ge in E; [|lia..]. cbn [mbind option_bind].
  by rewrite (proj2 (Z.ltb_ge _ _)) by lia.
Qed.

Lemma digits_loop_value w radix acc s :
  1 ≤ radix → 0 ≤ acc < 2 ^ w → digits_loop w radix acc s = below (2 ^ w) (digits_value radix acc s).
Proof.
  intros Hr. revert acc. induction s as [|c s IH]; intros acc Ha; cbn [digits_loop digits_value].
  - unfold below. cbn [mbind option_bind]. by rewrite (proj2 (Z.ltb_lt _ _)) by lia.
  - cbv zeta. destruct (to_digit radix c) as [d|] eqn:E.
    2: { by destruct (_ <? _). }
    apply to_digit_range in E; [|lia]. cbn [mbind option_bind].
    destruct (Z.ltb_spec (acc * radix) (2 ^ w)), (Z.ltb_spec (acc * radix + d) (2 ^ w));
      try (symmetry; apply digits_value_none_below; nia).
    apply IH. nia.
Qed.

Lemma from_str_radix_spec w radix s :
  0 ≤ w → 1 ≤ radix → from_str_radix w radix s = below (2 ^ w) (number radix s).
Proof.
  intros Hw Hr. pose proof (Z.pow_pos_nonneg 2 w ltac:(lia) Hw).
  unfold from_str_radix, number, digits_of.
  destruct s as [|c [|c' s]]; [done| |].
  - destruct (_ || _); [done|]. by apply digits_loop_value.
  - destruct (c =? plus); cbn [mbind option_bind]; by apply digits_loop_value.
Qed.

Lemma from_str_radix_range w radix s n :
  0 ≤ w → 1 ≤ radix → from_str_radix w radix s = Some n → is_uint w n.
Proof.
  intros Hw Hr. rewrite from_str_radix_spec by done. intros H. apply below_Some in H as [H ?].
  unfold number in H. destruct (digits_of s) as [ds|]; [|done].
  apply digits_value_ge in H; [|lia..]. by split.
Qed.

Lemma neg_digits_loop_value w acc s :
  0 ≤ acc ≤ 2 ^ (w - 1) →
  neg_digits_loop w (- acc) s = Z.opp <$> below (2 ^ (w - 1) + 1) (digits_value 10 acc s).
Proof.
  revert acc. induction s as [|c s IH]; intros acc Ha; cbn [neg_digits_loop digits_value].
  - unfold below. cbn [mbind option_bind]. by rewrite (proj2 (Z.ltb_lt _ _)) by lia.
  - cbv zeta. destruct (to_digit 10 c) as [d|] eqn:E.
    2: { by destruct (_ <=? _). }
    apply to_digit_range in E; [|lia]. cbn [mbind option_bind].
    assert (2 ^ (w - 1) < acc * 10 + d → below (2 ^ (w - 1) + 1) (digits_value 10 (acc * 10 + d) s) = None)
      as Hnone.
    { intros Hd. unfold below. destruct (digits_value 10 _ s) as [n|] eqn:En; [|done].
      apply digits_value_ge in En; [|lia..]. cbn [mbind option_bind].
      by rewrite (proj2 (Z.ltb_ge _ _)) by lia. }
    destruct (Z.leb_spec (- 2 ^ (w - 1)) (- acc * 10)), (Z.leb_spec (- 2 ^ (w - 1)) (- acc * 10 - d));
      try (rewrite Hnone by lia; done); try lia.
    replace (- acc * 10 - d) with (- (acc * 10 + d)) by lia. apply IH. lia.
Qed.

(** A minus sign followed by digits. *)
Lemma parse_signed_minus w c s :
  parse_signed w (minus :: c :: s) = Z.opp <$> below (2 ^ (w - 1) + 1) (digits_value 10 0 (c :: s)).
Proof.
  unfold parse_signed. cbn [Z.eqb plus minus Pos.eqb]. apply (neg_digits_loop_value w 0).
  split; [done|]. by apply Z.pow_nonneg.
Qed.

(** ** Trimming *)

Lemma trim_start_by_id f s : match s with c :: _ => f c = false | [] => True end → trim_start_by f s = s.
Proof. destruct s as [|c s]; [done|]. simpl. by intros ->. Qed.

Lemma strip_prefix_app p s : strip_prefix p (p ++ s) = Some s.
Proof. induction p as [|c p IH]; simpl; [done|]. by rewrite Z.eqb_refl. Qed.

Lemma strip_prefix_Some p s rest : strip_prefix p s = Some rest ↔ s = p ++ rest.
Proof.
  revert s. induction p as [|c p IH]; intros [|d s]; simpl; try naive_solver.
  destruct (Z.eqb_spec c d); naive_solver.
Qed.

(** ** Floating-point numbers

    [str::parse] for [f32] and [f64], correctly rounded, as IEEE bit patterns.
    A format is given by the size of its significand and of its exponent. *)

Record float_format := mkFormat { significand : Z; exponent : Z }.
Definition f32 : float_format := mkFormat 24 8.
Definition f64 : float_format := mkFormat 53 11.

Section floats.
Context (fmt : float_format).

(** The exponent of the least subnormal, and the bits of infinity and sign. *)
Definition min_exp : Z := 3 - 2 ^ (exponent fmt - 1) - significand fmt.
Definition inf_bits : Z := (2 ^ exponent fmt - 1) * 2 ^ (significand fmt - 1).
Definition sign_bit : Z := 2 ^ (significand fmt + exponent fmt - 1).

(** [num / den] scaled by [2 ^ -k], as a fraction. *)
Definition scaled (num den k : Z) : Z * Z :=
  if 0 <=? k then (num, den * 2 ^ k) else (num * 2 ^ (- k), den).

(** The floor of the binary logarithm of [num / den]. *)
Definition log2_frac (num den : Z) : Z :=
  let l := Z.log2 num - Z.log2 den in
  let '(n, d) := scaled num den l in if d <=? n then l else l - 1.

(** To the nearest, ties to even. *)
Definition round_even (n d : Z) : Z :=
  let q := n / d in let r := n mod d in
  if (2 * r <? d) || ((2 * r =? d) && Z.even q) then q else q + 1.

Definition float_bits (num den : Z) : Z :=
  if num =? 0 then 0
  else
    let k := Z.max (log2_frac num den - (significand fmt - 1)) min_exp in
    let '(n, d) := scaled num den k in
    Z.min ((k - min_exp) * 2 ^ (significand fmt - 1) + round_even n d) inf_bits.

(** A run of decimal digits: their value, their number, what follows. *)
Fixpoint take_digits (acc n : Z) (s : list Z) : Z * Z * list Z :=
  match s with
  | c :: s' => if in_range 48 57 c then take_digits (acc * 10 + (c - 48)) (n + 1) s' else (acc, n, s)
  | [] => (acc, n, [])
  end.

(** The exponent, which stops growing at 0x10000. *)
Fixpoint exponent_digits (acc : Z) (s : list Z) : option Z :=
  match s with
  | [] => Some acc
  | c :: s =>
      if in_range 48 57 c then exponent_digits (if acc <? 0x10000 then acc * 10 + (c - 48) else acc) s
      else None
  end.

Definition parse_exponent (s : list Z) : option Z :=
  match s with
  | [] => Some 0
  | c :: s =>
      if to_ascii_lowercase c =? 101 then
        match s with
        | [] => None
        | sg :: digits =>
            if sg =? minus then (if len digits =? 0 then None else Z.opp <$> exponent_digits 0 digits)
            else if sg =? plus then (if len digits =? 0 then None else exponent_digits 0 digits)
            else exponent_digits 0 s
        end
      else None
  end.

(** [digits . digits e exponent], at least one digit, as significand and power
    of ten. *)
Definition parse_decimal (s : list Z) : option (Z * Z) :=
  let '(i, n, s) := take_digits 0 0 s in
  let '(m, n, frac, s) :=
    match s with
    | c :: rest =>
        if c =? 46 then let '(m, n', s) := take_digits i n rest in (m, n', n' - n, s) else (i, n, 0, s)
    | [] => (i, n, 0, [])
    end in
  if n =? 0 then None
  else e ← parse_exponent s; Some (m, e - frac).

Definition parse_special (s : list Z) : option Z :=
  let s := to_lowercase s in
  if bool_decide (s = str "inf") || bool_decide (s = str "infinity") then Some inf_bits
  else if bool_decide (s = str "nan") then Some (inf_bits + 2 ^ (significand fmt - 2))
  else None.

Definition parse_unsigned_float (s : list Z) : option Z :=
  match parse_decimal s with
  | Some (m, e) => Some (if 0 <=? e then float_bits (m * 10 ^ e) 1 else float_bits m (10 ^ (- e)))
  | None => parse_special s
  end.

Definition parse_float (s : list Z) : option Z :=
  match s with
  | c :: digits =>
      if c =? minus then (λ b, sign_bit + b) <$> parse_unsigned_float digits
      else if c =? plus then parse_unsigned_float digits
      else parse_unsigned_float s
  | [] => None
  end.
End floats.

Example parse_f32_tenth : parse_float f32 (str "0.1") = Some 0x3DCCCCCD.
Proof. vm_compute. reflexivity. Qed.
Example parse_f32_1_25 : parse_float f32 (str "-1.25") = Some 0xBFA00000.
Proof. vm_compute. reflexivity. Qed.
Example parse_f64_tenth : parse_float f64 (str "1e-1") = Some 0x3FB999999999999A.
Proof. vm_compute. reflexivity. Qed.
Example parse_f32_subnormal : parse_float f32 (str "1.0E-45") = Some 1.
Proof. vm_compute. reflexivity. Qed.
Example parse_f32_overflow : parse_float f32 (str "3.5e38") = Some 0x7F800000.
Proof. vm_compute. reflexivity. Qed.
Example parse_f64_max : parse_float f64 (str "1.7976931348623157e308") = Some 0x7FEFFFFFFFFFFFFF.
Proof. vm_compute. reflexivity. Qed.
Example parse_f32_bad : parse_float f32 (str ".e5") = None.
Proof. vm_compute. reflexivity. Qed.

(** *** The bits fit the format *)

Section float_range.
Context (fmt : float_format) (Hsig : 2 ≤ significand fmt) (Hexp : 1 ≤ exponent fmt).

Lemma scaled_pos num den k n d :
  0 ≤ num → 0 < den → scaled num den k = (n, d) → 0 ≤ n ∧ 0 < d.
Proof.
  unfold scaled. intros Hn Hd. destruct (Z.leb_spec 0 k); intros [= <- <-].
  - split; [done|]. apply Z.mul_pos_pos; [done|]. apply Z.pow_pos_nonneg; lia.
  - split; [|done]. apply Z.mul_nonneg_nonneg; [done|]. by apply Z.pow_nonneg.
Qed.

Lemma round_even_nonneg n d : 0 ≤ n → 0 < d → 0 ≤ round_even n d.
Proof.
  intros. unfold round_even. pose proof (Z.div_pos n d ltac:(lia) ltac:(lia)).
  cbv zeta. destruct (_ || _); lia.
Qed.

Lemma inf_bits_nonneg : 0 ≤ inf_bits fmt.
Proof.
  unfold inf_bits. pose proof (Z.pow_pos_nonneg 2 (exponent fmt) ltac:(lia) ltac:(lia)).
  pose proof (Z.pow_nonneg 2 (significand fmt - 1) ltac:(lia)). nia.
Qed.

Lemma float_bits_range num den : 0 ≤ num → 0 < den → 0 ≤ float_bits fmt num den ≤ inf_bits fmt.
Proof.
  intros Hn Hd. unfold float_bits. pose proof inf_bits_nonneg. destruct (num =? 0); [lia|]. cbv zeta.
  destruct (scaled num den _) as [n d] eqn:E. apply scaled_pos in E as [Hn' Hd']; [|done..].
  pose proof (round_even_nonneg n d Hn' Hd'). pose proof (Z.pow_nonneg 2 (significand fmt - 1) ltac:(lia)).
  nia.
Qed.

Lemma take_digits_nonneg acc n s m k rest :
  0 ≤ acc → take_digits acc n s = (m, k, rest) → 0 ≤ m.
Proof.
  revert acc n. induction s as [|c s IH]; intros acc n Ha; cbn [take_digits].
  - by intros [= <- <- <-].
  - unfold in_range. destruct (Z.leb_spec 48 c), (Z.leb_spec c 57); cbn [andb];
      try (by intros [= <- <- <-]). apply IH. lia.
Qed.

Lemma parse_decimal_nonneg s m e : parse_decimal s = Some (m, e) → 0 ≤ m.
Proof.
  unfold parse_decimal. destruct (take_digits 0 0 s) as [[i n] r] eqn:E.
  apply take_digits_nonneg in E; [|done]. intros H.
  destruct r as [|c rest].
  - destruct (n =? 0); [done|]. apply bind_Some in H as (x & _ & H). by injection H as <- _.
  - destruct (c =? 46).
    + destruct (take_digits i n rest) as [[m' n'] r'] eqn:E2. apply take_digits_nonneg in E2; [|done].
      destruct (n' =? 0); [done|]. apply bind_Some in H as (x & _ & H). by injection H as <- _.
    + destruct (n =? 0); [done|]. apply bind_Some in H as (x & _ & H). by injection H as <- _.
Qed.

Lemma parse_unsigned_float_range s b :
  parse_unsigned_float fmt s = Some b → 0 ≤ b < sign_bit fmt.
Proof.
  intros H.
  assert (inf_bits fmt + 2 ^ (significand fmt - 2) < sign_bit fmt ∧ 0 ≤ 2 ^ (significand fmt - 2)) as [Hs H0].
  { unfold inf_bits, sign_bit.
    replace (significand fmt + exponent fmt - 1) with (exponent fmt + (significand fmt - 1)) by lia.
    rewrite Z.pow_add_r by lia.
    replace (significand fmt - 1) with (1 + (significand fmt - 2)) by lia. rewrite Z.pow_add_r by lia.
    pose proof (Z.pow_pos_nonneg 2 (significand fmt - 2) ltac:(lia) ltac:(lia)). nia. }
  pose proof inf_bits_nonneg. unfold parse_unsigned_float in H.
  destruct (parse_decimal s) as [[m e]|] eqn:E.
  - apply parse_decimal_nonneg in E. injection H as <-. destruct (Z.leb_spec 0 e).
    + pose proof (float_bits_range (m * 10 ^ e) 1). pose proof (Z.pow_nonneg 10 e). nia.
    + pose proof (float_bits_range m (10 ^ (- e))). pose proof (Z.pow_pos_nonneg 10 (- e)). lia.
  - unfold parse_special in H. destruct (_ || _); [injection H as <-; lia|].
    destruct (bool_decide _); [|done]. injection H as <-. lia.
Qed.

Lemma parse_float_range s b : parse_float fmt s = Some b → is_uint (significand fmt + exponent fmt) b.
Proof.
  intros H. assert (0 ≤ b < 2 * sign_bit fmt) as Hb.
  { unfold parse_float in H. destruct s as [|c s]; [done|].
    assert (0 ≤ sign_bit fmt) by (by apply Z.pow_nonneg).
    destruct (c =? minus); [|destruct (c =? plus); apply parse_unsigned_float_range in H; lia].
    apply fmap_Some in H as (x & Hx & ->). apply parse_unsigned_float_range in Hx. lia. }
  unfold is_uint. unfold sign_bit in Hb.
  replace (significand fmt + exponent fmt) with (1 + (significand fmt + exponent fmt - 1)) by lia.
  rewrite Z.pow_add_r by lia. lia.
Qed.
End float_range.

(** ** Characters of the pieces *)

Section characters.
Context (P : Z → Prop).
Abbreviation all := (Forall P).

Lemma all_rev s : all s → all (rev s).
Proof. rewrite !List.Forall_forall. intros H x Hx. apply H. by apply in_rev. Qed.

Lemma all_trim_start f s : all s → all (trim_start_by f s).
Proof. induction 1 as [|c s Hc Hs IH]; simpl; [constructor|]. destruct (f c); [done|by constructor]. Qed.

Lemma all_trim_by f s : all s → all (trim_by f s).
Proof. intros. unfold trim_by. auto using all_rev, all_trim_start. Qed.

Lemma all_strip_prefix p s rest : strip_prefix p s = Some rest → all s → all rest.
Proof. intros H%strip_prefix_Some Hs. rewrite H in Hs. by apply Forall_app in Hs as [_ ?]. Qed.

Lemma all_split c s : all s → Forall all (split c s).
Proof.
  induction 1 as [|d s Hd _ IH]; cbn [split]; [by repeat constructor|].
  destruct (d =? c); [by constructor|]. destruct (split c s) as [|piece rest]; [by repeat constructor|].
  apply Forall_cons_1 in IH as [? ?]. by repeat constructor.
Qed.

Lemma all_lines s : all s → Forall all (lines s).
Proof.
  intros Hs. apply (all_split newline) in Hs. unfold lines. induction Hs as [|p rest Hp Hr IH]; [constructor|].
  assert (all (strip_line_end p)) as Hsl.
  { unfold strip_line_end. destruct (rev p) as [|c l] eqn:E; [constructor|].
    assert (all (c :: l)) as Hcl by (rewrite <- E; by apply all_rev).
    apply Forall_cons_1 in Hcl as [_ ?]. destruct (c =? cr); [by apply all_rev|done]. }
  destruct p as [|c p], rest as [|q rest]; cbn [drop_last_empty] in *;
    first [apply List.Forall_nil | apply List.Forall_cons; first [done | apply List.Forall_nil]].
Qed.

Lemma all_split_once p s a b : split_once p s = Some (a, b) → all s → all a ∧ all b.
Proof.
  revert a b. induction s as [|d s IH]; intros a b; cbn [split_once];
    destruct (strip_prefix p _) as [rest|] eqn:E; try done; intros H Hs.
  - injection H as <- <-. split; [constructor|by eapply all_strip_prefix].
  - injection H as <- <-. split; [constructor|by eapply all_strip_prefix].
  - apply bind_Some in H as ([a' b'] & H & [= <- <-]). apply Forall_cons_1 in Hs as [? Hs].
    destruct (IH _ _ H Hs). split; [by constructor|done].
Qed.
End characters.
