(* ===== verification/Frame.v ===== *)
(** * CAN frames and COB-IDs

    [canopen-core/src/transport.rs] ([CanFrame], the two queues of
    [MailboxTransport]) and [canopen-core/src/cobid.rs] ([NodeId], [CobId],
    [ParsedCobId]).  A [heapless::Deque<T, N>] is the list of its elements,
    front first, with its capacity as an argument. *)
From S2P Require Import Prelude.

(** ** transport.rs *)

Inductive CanError := TxBufferFull | BusError.

(** [nb::Error] *)
Inductive nb_error := WouldBlock | Other (e : CanError).

Record CanFrame := mkCanFrame { cf_id : Z; cf_dlc : Z; cf_data : list Z }.

#[export] Instance CanFrame_eq_dec : EqDecision CanFrame.
Proof. solve_decision. Defined.

Module CanFrame.

(** The [while] loop of [CanFrame::new]: copy [data] from index [i] on. *)
Fixpoint copy_loop (frame_data data : list Z) (i : nat) : list Z :=
  match data with
  | [] => frame_data
  | d :: data' => copy_loop (set_at frame_data i d) data' (S i)
  end.

Definition new (id : Z) (data : list Z) : option CanFrame :=
  if (0x7FF <? id) || (8 <? len data) then None
  else Some (mkCanFrame id (as_u8 (len data)) (copy_loop (zeros 8) data 0)).

Definition raw_id (f : CanFrame) : Z := cf_id f.
Definition data (f : CanFrame) : list Z := take (Z.to_nat (cf_dlc f)) (cf_data f).
Definition raw_dlc (f : CanFrame) : Z := cf_dlc f.

End CanFrame.

(** The invariant every [CanFrame] built by [new] satisfies. *)
Definition wf_frame (f : CanFrame) : Prop :=
  0 ≤ cf_id f ≤ 0x7FF ∧ 0 ≤ cf_dlc f ≤ 8 ∧ array 8 (cf_data f).

Record MailboxTransport := mkMailbox { tx_queue : list CanFrame; rx_queue : list CanFrame }.

Module Mailbox.

(** [Deque::push_back] with capacity [cap]: the item comes back when full. *)
Definition push_back {A} (cap : nat) (q : list A) (x : A) : result (list A) A :=
  if (cap <=? length q)%nat then Err x else Ok (q ++ [x]).

(** [Deque::pop_front] *)
Definition pop_front {A} (q : list A) : option A * list A :=
  match q with [] => (None, []) | x :: q' => (Some x, q') end.

Section ops.
Context (TX RX : nat).

Definition new : MailboxTransport := mkMailbox [] [].

Definition store_received (m : MailboxTransport) (frame : CanFrame)
    : MailboxTransport * result unit CanFrame :=
  match push_back RX (rx_queue m) frame with
  | Ok q => (mkMailbox (tx_queue m) q, Ok tt)
  | Err f => (m, Err f)
  end.

Definition next_to_transmit (m : MailboxTransport) : MailboxTransport * option CanFrame :=
  let (o, q) := pop_front (tx_queue m) in (mkMailbox q (rx_queue m), o).

Definition transmit (m : MailboxTransport) (frame : CanFrame)
    : MailboxTransport * result (option CanFrame) nb_error :=
  match push_back TX (tx_queue m) frame with
  | Ok q => (mkMailbox q (rx_queue m), Ok None)
  | Err _ => (m, Err WouldBlock)
  end.

Definition receive (m : MailboxTransport) : MailboxTransport * result CanFrame nb_error :=
  match pop_front (rx_queue m) with
  | (Some f, q) => (mkMailbox (tx_queue m) q, Ok f)
  | (None, q) => (mkMailbox (tx_queue m) q, Err WouldBlock)
  end.

End ops.
End Mailbox.

(** ** cobid.rs *)

Module NodeId.

(** [NodeId(u8)]: the raw value; [new] is the only constructor the crate exports. *)
Definition new (id : Z) : option Z :=
  if (1 <=? id) && (id <=? 127) then Some id else None.

End NodeId.

Definition wf_node (n : Z) : Prop := 1 ≤ n ≤ 127.

Inductive ParsedCobId :=
| Nmt
| Sync
| Emergency (node : Z)
| Tpdo (pdo_num node : Z)
| Rpdo (pdo_num node : Z)
| SdoResponse (node : Z)
| SdoRequest (node : Z)
| Heartbeat (node : Z)
| Unknown (raw : Z).

#[export] Instance ParsedCobId_eq_dec : EqDecision ParsedCobId.
Proof. solve_decision. Defined.

Module CobId.

Definition new (raw : Z) : option Z := if raw <=? 0x7FF then Some raw else None.

(** The arm [lo..=hi => match NodeId::new((raw - base) as u8) ...]. *)
Definition parse_arm (raw base : Z) (k : Z → ParsedCobId) : ParsedCobId :=
  match NodeId.new (as_u8 (raw - base)) with
  | Some n => k n
  | None => Unknown raw
  end.

Definition parse (raw : Z) : ParsedCobId :=
  if raw =? 0x000 then Nmt
  else if raw =? 0x080 then Sync
  else if in_range 0x081 0x0FF raw then
    match NodeId.new (as_u8 (Z.land raw 0x7F)) with
    | Some n => Emergency n
    | None => Unknown raw
    end
  else if in_range 0x181 0x1FF raw then parse_arm raw 0x180 (Tpdo 0)
  else if in_range 0x201 0x27F raw then parse_arm raw 0x200 (Rpdo 0)
  else if in_range 0x281 0x2FF raw then parse_arm raw 0x280 (Tpdo 1)
  else if in_range 0x301 0x37F raw then parse_arm raw 0x300 (Rpdo 1)
  else if in_range 0x381 0x3FF raw then parse_arm raw 0x380 (Tpdo 2)
  else if in_range 0x401 0x47F raw then parse_arm raw 0x400 (Rpdo 2)
  else if in_range 0x481 0x4FF raw then parse_arm raw 0x480 (Tpdo 3)
  else if in_range 0x501 0x57F raw then parse_arm raw 0x500 (Rpdo 3)
  else if in_range 0x581 0x5FF raw then parse_arm raw 0x580 SdoResponse
  else if in_range 0x601 0x67F raw then parse_arm raw 0x600 SdoRequest
  else if in_range 0x701 0x77F raw then parse_arm raw 0x700 Heartbeat
  else Unknown raw.

Definition nmt : Z := 0x000.
Definition sync : Z := 0x080.
Definition emergency (node : Z) : Z := 0x080 + node.

Definition tpdo (pdo node : Z) : option Z :=
  if in_range 1 4 pdo then Some (0x80 + 0x100 * pdo + node) else None.
Definition rpdo (pdo node : Z) : option Z :=
  if in_range 1 4 pdo then Some (0x100 + 0x100 * pdo + node) else None.

Definition sdo_tx (node : Z) : Z := 0x580 + node.
Definition sdo_rx (node : Z) : Z := 0x600 + node.
Definition heartbeat (node : Z) : Z := 0x700 + node.

(** The identifier the pre-defined connection set gives to a parsed object. *)
Definition construct (p : ParsedCobId) : option Z :=
  match p with
  | Nmt => Some nmt
  | Sync => Some sync
  | Emergency n => Some (emergency n)
  | Tpdo k n => tpdo (k + 1) n
  | Rpdo k n => rpdo (k + 1) n
  | SdoResponse n => Some (sdo_tx n)
  | SdoRequest n => Some (sdo_rx n)
  | Heartbeat n => Some (heartbeat n)
  | Unknown _ => None
  end.

End CobId.

(** ** Lemmas on frames *)

Lemma copy_loop_spec data fd i :
  (i + length data ≤ length fd)%nat →
  CanFrame.copy_loop fd data i = take i fd ++ data ++ drop (i + length data) fd.
Proof.
  revert fd i. induction data as [|d data IH]; intros fd i Hi; simpl in *.
  - by rewrite Nat.add_0_r, take_drop.
  - rewrite IH by (unfold set_at; rewrite length_insert; lia).
    unfold set_at. rewrite drop_insert_lt by lia.
    rewrite (take_S_r _ i d) by (apply list_lookup_insert_eq; lia).
    rewrite take_insert_ge by lia.
    rewrite <- app_assoc. simpl. by rewrite Nat.add_succ_r.
Qed.

Lemma CanFrame_new_ok id data :
  id ≤ 0x7FF → (length data ≤ 8)%nat →
  CanFrame.new id data = Some (mkCanFrame id (len data) (data ++ zeros (8 - len data))).
Proof.
  intros Hid Hd. unfold CanFrame.new.
  rewrite (proj2 (Z.ltb_ge _ _)), (proj2 (Z.ltb_ge 8 _)) by lia. simpl.
  do 2 f_equal.
  - apply wrap_id. unfold is_uint. lia.
  - rewrite copy_loop_spec by (simpl; lia). simpl. f_equal.
    unfold zeros. rewrite drop_replicate. f_equal. lia.
Qed.

Lemma CanFrame_new_data id data f : CanFrame.new id data = Some f → CanFrame.data f = data.
Proof.
  intros H. assert (id ≤ 0x7FF ∧ (length data ≤ 8)%nat) as [Hid Hd].
  { unfold CanFrame.new in H. destruct (Z.ltb_spec 0x7FF id), (Z.ltb_spec 8 (len data));
      simplify_eq/=; lia. }
  rewrite CanFrame_new_ok in H by done. simplify_eq. unfold CanFrame.data. simpl.
  by rewrite Nat2Z.id, take_app_length.
Qed.

Lemma CanFrame_new_id id data f : CanFrame.new id data = Some f → CanFrame.raw_id f = id.
Proof. unfold CanFrame.new. case_match; naive_solver. Qed.

Lemma CanFrame_new_wf id data f :
  0 ≤ id → bytes data → CanFrame.new id data = Some f → wf_frame f.
Proof.
  intros Hid Hb H. unfold CanFrame.new in H.
  destruct (Z.ltb_spec 0x7FF id), (Z.ltb_spec 8 (len data)); simplify_eq/=.
  rewrite copy_loop_spec by (simpl; lia).
  split_and!; simpl; try lia.
  - apply wrap_range. lia.
  - rewrite wrap_id; unfold is_uint; lia.
  - split; simpl.
    + rewrite length_app, length_drop. simpl. lia.
    + apply bytes_app; [done|]. apply bytes_drop, bytes_zeros.
Qed.

Lemma length_data f : wf_frame f → len (CanFrame.data f) = cf_dlc f.
Proof.
  intros (_ & ? & [? _]). unfold CanFrame.data. rewrite length_take. lia.
Qed.

Lemma bytes_data f : wf_frame f → bytes (CanFrame.data f).
Proof. intros (_ & _ & [_ ?]). by apply bytes_take. Qed.

(** ** The identifier map of the pre-defined connection set *)

(** The payload a [ParsedCobId] may carry: a valid node id, PDO 1 to 4. *)
Definition wf_parsed (p : ParsedCobId) : Prop :=
  match p with
  | Nmt | Sync => True
  | Emergency n | SdoResponse n | SdoRequest n | Heartbeat n => wf_node n
  | Tpdo k n | Rpdo k n => 0 ≤ k ≤ 3 ∧ wf_node n
  | Unknown _ => False
  end.

Lemma cob_forall (f : Z → bool) :
  forallb f (seqZ 0 0x800) = true → ∀ raw, 0 ≤ raw ≤ 0x7FF → f raw = true.
Proof.
  rewrite forallb_forall. intros H raw Hr. apply H.
  apply list_elem_of_In, elem_of_seqZ. lia.
Qed.

Lemma node_forall (f : Z → bool) :
  forallb f (seqZ 1 127) = true → ∀ n, wf_node n → f n = true.
Proof.
  rewrite forallb_forall. intros H n Hn. apply H.
  apply list_elem_of_In, elem_of_seqZ. unfold wf_node in Hn. lia.
Qed.

Lemma NodeId_new_Some id n : NodeId.new id = Some n ↔ n = id ∧ wf_node id.
Proof.
  unfold NodeId.new, wf_node. destruct (Z.leb_spec 1 id), (Z.leb_spec id 127); simpl;
    split; intros; simplify_eq; try lia; naive_solver lia.
Qed.

Definition parse_sound_at (raw : Z) : bool :=
  match CobId.parse raw with
  | Unknown _ => true
  | q => bool_decide (CobId.construct q = Some raw)
  end.

Definition parse_complete_at (q : Z → ParsedCobId) (n : Z) : bool :=
  match CobId.construct (q n) with
  | Some raw => bool_decide (CobId.parse raw = q n)
  | None => false
  end.

Lemma parse_sound raw p :
  0 ≤ raw ≤ 0x7FF → wf_parsed p → CobId.parse raw = p → CobId.construct p = Some raw.
Proof.
  intros Hraw Hp Hr.
  assert (forallb parse_sound_at (seqZ 0 0x800) = true) as Hall by (vm_compute; reflexivity).
  pose proof (cob_forall _ Hall raw Hraw) as H. clear Hall. unfold parse_sound_at in H. rewrite Hr in H.
  destruct p; try done; by apply bool_decide_eq_true_1 in H.
Qed.

Lemma parse_complete q n raw :
  forallb (parse_complete_at q) (seqZ 1 127) = true → wf_node n →
  CobId.construct (q n) = Some raw → CobId.parse raw = q n.
Proof.
  intros Hf Hn Hc. pose proof (node_forall _ Hf n Hn) as H. clear Hf. unfold parse_complete_at in H.
  rewrite Hc in H. by apply bool_decide_eq_true_1 in H.
Qed.

Lemma parse_complete_all p raw :
  wf_parsed p → CobId.construct p = Some raw → CobId.parse raw = p.
Proof.
  intros Hp. assert (∀ k, 0 ≤ k ≤ 3 → k = 0 ∨ k = 1 ∨ k = 2 ∨ k = 3) as Hk by lia.
  destruct p as [| |n|k n|k n|n|n|n|]; simpl in Hp; try (intros [= <-]; done);
    try (destruct Hp as [Hk' Hp]; destruct (Hk k Hk') as [->|[->|[->| ->]]]);
    first [ apply (parse_complete Emergency) | apply (parse_complete SdoResponse)
          | apply (parse_complete SdoRequest) | apply (parse_complete Heartbeat)
          | apply (parse_complete (Tpdo _)) | apply (parse_complete (Rpdo _)) | done ];
    first [exact Hp | vm_compute; reflexivity].
Qed.

Lemma parse_wf raw :
  0 ≤ raw ≤ 0x7FF →
  CobId.parse raw = Unknown raw ∨
  wf_parsed (CobId.parse raw) ∧ CobId.construct (CobId.parse raw) = Some raw.
Proof.
  intros Hraw.
  pose (chk raw := match CobId.parse raw with
    | Unknown r => r =? raw
    | Nmt | Sync => true
    | Emergency n | SdoResponse n | SdoRequest n | Heartbeat n => in_range 1 127 n
    | Tpdo k n | Rpdo k n => in_range 0 3 k && in_range 1 127 n
    end).
  assert (forallb chk (seqZ 0 0x800) = true) as Hall by (vm_compute; reflexivity).
  pose proof (cob_forall _ Hall raw Hraw) as H. clear Hall. unfold chk, in_range in H.
  destruct (CobId.parse raw) eqn:E; try (right; split; [unfold wf_parsed, wf_node; lia|];
    apply parse_sound; [done|unfold wf_parsed, wf_node; lia|done]).
  left. f_equal. lia.
Qed.

(** [CobId::parse] inverts the COB-ID constructors of the pre-defined
    connection set, and every identifier it does not call [Unknown] is the
    one the matching constructor builds: the eight services partition the
    11-bit space without overlap. *)
Theorem CobId_parse_spec (raw : Z) (p : ParsedCobId) :
  0 ≤ raw ≤ 0x7FF → wf_parsed p → (CobId.parse raw = p ↔ CobId.construct p = Some raw).
Proof.
  intros Hraw Hp. split; [by apply parse_sound|by apply parse_complete_all].
Qed.

Lemma CobId_parse_spec_witness :
  0 ≤ 0x1B1 ≤ 0x7FF ∧ wf_parsed (Tpdo 0 0x31) ∧
  (CobId.parse 0x1B1 = Tpdo 0 0x31 ↔ CobId.construct (Tpdo 0 0x31) = Some 0x1B1).
Proof.
  split; [lia|]. split; [unfold wf_parsed, wf_node; lia|].
  apply CobId_parse_spec; [lia|unfold wf_parsed, wf_node; lia].
Defined.
