(* ===== verification/Nmt.v ===== *)
(** * The NMT slave state machine

    [canopen-core/src/nmt.rs]: [NmtState], [NmtCommand], [NmtTransition] and
    [NmtHandler]. *)
From S2P Require Import Prelude Frame.

Inductive NmtState := Initializing | PreOperational | Operational | Stopped.

#[export] Instance NmtState_eq_dec : EqDecision NmtState.
Proof. solve_decision. Defined.

Module NmtState.

Definition heartbeat_byte (s : NmtState) : Z :=
  match s with
  | Initializing => 0x00
  | Stopped => 0x04
  | Operational => 0x05
  | PreOperational => 0x7F
  end.

Definition from_heartbeat_byte (byte : Z) : option NmtState :=
  if byte =? 0x00 then Some Initializing
  else if byte =? 0x04 then Some Stopped
  else if byte =? 0x05 then Some Operational
  else if byte =? 0x7F then Some PreOperational
  else None.

End NmtState.

Inductive NmtCommand :=
| StartRemoteNode | StopRemoteNode | EnterPreOperational | ResetNode | ResetCommunication.

#[export] Instance NmtCommand_eq_dec : EqDecision NmtCommand.
Proof. solve_decision. Defined.

Module NmtCommand.

Definition from_byte (b : Z) : option NmtCommand :=
  if b =? 0x01 then Some StartRemoteNode
  else if b =? 0x02 then Some StopRemoteNode
  else if b =? 0x80 then Some EnterPreOperational
  else if b =? 0x81 then Some ResetNode
  else if b =? 0x82 then Some ResetCommunication
  else None.

Definition to_byte (c : NmtCommand) : Z :=
  match c with
  | StartRemoteNode => 0x01
  | StopRemoteNode => 0x02
  | EnterPreOperational => 0x80
  | ResetNode => 0x81
  | ResetCommunication => 0x82
  end.

Definition to_frame (c : NmtCommand) (target_node : Z) : exec CanFrame :=
  unwrap (CanFrame.new 0x000 [to_byte c; target_node]).

End NmtCommand.

(** [NmtTransition]; [NtNone] is the source's [None]. *)
Inductive NmtTransition := NtNone | StateChanged | ResetApplication | NtResetCommunication.

#[export] Instance NmtTransition_eq_dec : EqDecision NmtTransition.
Proof. solve_decision. Defined.

Record NmtHandler := mkNmt { nmt_state : NmtState }.

Module NmtHandler.

Definition new : NmtHandler := mkNmt Initializing.

Definition state (h : NmtHandler) : NmtState := nmt_state h.

Definition boot_complete (h : NmtHandler) : NmtHandler := mkNmt PreOperational.

Definition process_command (h : NmtHandler) (cmd : NmtCommand) (target our_node : Z)
    : NmtHandler * NmtTransition :=
  if negb (target =? 0) && negb (target =? our_node) then (h, NtNone)
  else if decide (nmt_state h = Initializing) then
    (h, match cmd with ResetNode => ResetApplication | _ => NtNone end)
  else
    let new_state :=
      match cmd with
      | StartRemoteNode => Operational
      | StopRemoteNode => Stopped
      | EnterPreOperational => PreOperational
      | ResetNode | ResetCommunication => Initializing
      end in
    if decide (nmt_state h = new_state) then (h, NtNone)
    else
      (mkNmt new_state,
       match cmd with
       | ResetNode => ResetApplication
       | ResetCommunication => NtResetCommunication
       | _ => StateChanged
       end).

End NmtHandler.

(** ** The CiA 301 state diagram as a step relation

    [nmt_step]: the transitions of the NMT slave diagram, with [boot] the
    internal end of initialisation and [cmd] an addressed command. *)
Inductive nmt_event := Boot | Cmd (c : NmtCommand).

Inductive nmt_step : NmtState → nmt_event → NmtState → Prop :=
| step_boot s : nmt_step s Boot PreOperational
| step_start s : s ≠ Initializing → nmt_step s (Cmd StartRemoteNode) Operational
| step_stop s : s ≠ Initializing → nmt_step s (Cmd StopRemoteNode) Stopped
| step_preop s : s ≠ Initializing → nmt_step s (Cmd EnterPreOperational) PreOperational
| step_reset s : nmt_step s (Cmd ResetNode) Initializing
| step_resetcom s : nmt_step s (Cmd ResetCommunication) Initializing
| step_ignored c : (c ≠ ResetNode) → nmt_step Initializing (Cmd c) Initializing.

(** One event applied to the handler; a command comes with its target byte. *)
Definition nmt_apply (our_node : Z) (h : NmtHandler) (e : nmt_event) : NmtHandler :=
  match e with
  | Boot => NmtHandler.boot_complete h
  | Cmd c => fst (NmtHandler.process_command h c 0 our_node)
  end.

Lemma heartbeat_byte_roundtrip s :
  NmtState.from_heartbeat_byte (NmtState.heartbeat_byte s) = Some s.
Proof. by destruct s. Qed.

Lemma from_heartbeat_byte_Some b s :
  NmtState.from_heartbeat_byte b = Some s → b = NmtState.heartbeat_byte s.
Proof.
  unfold NmtState.from_heartbeat_byte.
  repeat case_match; intros; simplify_eq; simpl; lia.
Qed.

Lemma command_byte_roundtrip c : NmtCommand.from_byte (NmtCommand.to_byte c) = Some c.
Proof. by destruct c. Qed.

Lemma heartbeat_byte_u8 s : is_u8 (NmtState.heartbeat_byte s).
Proof. by destruct s. Qed.

Lemma command_byte_u8 c : is_u8 (NmtCommand.to_byte c).
Proof. by destruct c. Qed.

(** The NMT slave is the CiA 301 state diagram: a command addressed to the
    node or to all performs exactly the diagram's step, with a transition
    reported whenever the state changes; any other command changes nothing and
    reports nothing. *)
Theorem nmt_refines_diagram h c target our_node :
  let '(h', t) := NmtHandler.process_command h c target our_node in
  (target = 0 ∨ target = our_node → nmt_step (nmt_state h) (Cmd c) (nmt_state h')) ∧
  (target ≠ 0 → target ≠ our_node → h' = h ∧ t = NtNone) ∧
  (nmt_state h ≠ nmt_state h' → t ≠ NtNone).
Proof.
  unfold NmtHandler.process_command.
  destruct (Z.eqb_spec target 0), (Z.eqb_spec target our_node); simpl;
    try (split_and!; [tauto|tauto|done]);
    destruct h as [s]; simpl;
    destruct s, c; simpl; split_and!; intros; try constructor; try done; tauto.
Qed.
