(* ===== verification/Od.v ===== *)
(** * The object dictionary interface

    [canopen-core/src/datatypes.rs] ([DataType]) and [canopen-core/src/od.rs]
    ([OdEntryMeta], [OdError], [OdEvent], the [ObjectDictionary] trait).

    The trait is the class [ObjectDictionary]; the laws of [OdLaws] are what
    the Rust types and the trait's documentation already promise: a read fills
    a prefix of the caller's buffer and never changes the buffer's length, and
    an abort code is a [u32].
    [TableOd] is a concrete dictionary used to instantiate the theorems. *)
From S2P Require Import Prelude.

(** ** datatypes.rs *)

Inductive DataType :=
| Boolean | I8 | I16 | I32 | U8 | U16 | U32 | Real32 | VisibleString | OctetString
| Domain | I24 | U24 | Real64 | I64 | U64.

#[export] Instance DataType_eq_dec : EqDecision DataType.
Proof. solve_decision. Defined.

Module DataType.

(** The discriminants of the [repr(u16)] enum. *)
Definition code (t : DataType) : Z :=
  match t with
  | Boolean => 0x0001 | I8 => 0x0002 | I16 => 0x0003 | I32 => 0x0004
  | U8 => 0x0005 | U16 => 0x0006 | U32 => 0x0007 | Real32 => 0x0008
  | VisibleString => 0x0009 | OctetString => 0x000A | Domain => 0x000F
  | I24 => 0x0010 | U24 => 0x0016 | Real64 => 0x0011 | I64 => 0x0015 | U64 => 0x001B
  end.

Definition size (t : DataType) : option Z :=
  match t with
  | Boolean | U8 | I8 => Some 1
  | U16 | I16 => Some 2
  | I24 | U24 => Some 3
  | U32 | I32 | Real32 => Some 4
  | U64 | I64 | Real64 => Some 8
  | VisibleString | OctetString | Domain => None
  end.

Definition from_code (c : Z) : option DataType :=
  if c =? 0x0001 then Some Boolean
  else if c =? 0x0002 then Some I8
  else if c =? 0x0003 then Some I16
  else if c =? 0x0004 then Some I32
  else if c =? 0x0005 then Some U8
  else if c =? 0x0006 then Some U16
  else if c =? 0x0007 then Some U32
  else if c =? 0x0008 then Some Real32
  else if c =? 0x0009 then Some VisibleString
  else if c =? 0x000A then Some OctetString
  else if c =? 0x000F then Some Domain
  else if c =? 0x0010 then Some I24
  else if c =? 0x0016 then Some U24
  else if c =? 0x0011 then Some Real64
  else if c =? 0x0015 then Some I64
  else if c =? 0x001B then Some U64
  else None.

End DataType.

(** ** od.rs *)

Definition STORE_FORMAT_DEFLATE : Z := 0x80.

Inductive AccessType := Ro | Wo | Rw | Const.

#[export] Instance AccessType_eq_dec : EqDecision AccessType.
Proof. solve_decision. Defined.

Inductive ObjectType := Var | Array | RecordObject.

(** [OdEntryMeta] without its display name. *)
Record OdEntryMeta := mkMeta {
  meta_index : Z;
  meta_subindex : Z;
  data_type : DataType;
  access : AccessType;
  pdo_mappable : bool;
  max_size : option Z;
}.

Inductive OdError :=
| NotFound
| ReadOnly
| WriteOnly
| DataTypeMismatch
| ValueTooLong
| ValueRange
| HardwareError
| Abort (code : Z).

#[export] Instance OdError_eq_dec : EqDecision OdError.
Proof. solve_decision. Defined.

Inductive OdEventSource := SrcSdo | SrcRpdo | SrcRpdoDeadline.

Record OdEvent := mkEvent { ev_index : Z; ev_subindex : Z; ev_source : OdEventSource }.

#[export] Instance OdEventSource_eq_dec : EqDecision OdEventSource.
Proof. solve_decision. Defined.
#[export] Instance OdEvent_eq_dec : EqDecision OdEvent.
Proof. solve_decision. Defined.

(** The trait.  [od_read od i s buf] is the buffer after the call and the
    [Result<usize, OdError>]; [od_write] may change the dictionary even when it
    reports an error. *)
Class ObjectDictionary (OD : Type) := {
  od_lookup : OD → Z → Z → option OdEntryMeta;
  od_read : OD → Z → Z → list Z → list Z * result Z OdError;
  od_write : OD → Z → Z → list Z → OD * result unit OdError;
  od_sub_count : OD → Z → option Z;
  od_validate_write : OD → Z → Z → list Z → result unit OdError;
  od_store_sdo_server_cob_ids : OD → Z → OD;
  od_store_error_register : OD → Z → OD;
}.

Class OdLaws (OD : Type) `{ObjectDictionary OD} := {
  od_read_length : ∀ od i s buf, length (fst (od_read od i s buf)) = length buf;
  od_read_bytes : ∀ od i s buf, bytes buf → bytes (fst (od_read od i s buf));
  od_read_bound : ∀ od i s buf n, snd (od_read od i s buf) = Ok n → 0 ≤ n ≤ len buf;
  od_write_abort_u32 : ∀ od i s d c, snd (od_write od i s d) = Err (Abort c) → is_u32 c;
  od_read_abort_u32 : ∀ od i s buf c, snd (od_read od i s buf) = Err (Abort c) → is_u32 c;
  od_validate_abort_u32 : ∀ od i s d c, od_validate_write od i s d = Err (Abort c) → is_u32 c;
}.

(** ** A table-driven dictionary *)

Record TableEntry := mkEntry { te_meta : OdEntryMeta; te_value : list Z }.

Definition TableOd := list TableEntry.

Definition te_is (i s : Z) (e : TableEntry) : bool :=
  (meta_index (te_meta e) =? i) && (meta_subindex (te_meta e) =? s).

Definition table_find (t : TableOd) (i s : Z) : option TableEntry := List.find (te_is i s) t.

(** Overwrite the front of [buf]. *)
Definition overwrite (buf v : list Z) : list Z := take (length buf) v ++ drop (length v) buf.

Definition table_read (t : TableOd) (i s : Z) (buf : list Z) : list Z * result Z OdError :=
  match table_find t i s with
  | None => (buf, Err NotFound)
  | Some e =>
      if decide (access (te_meta e) = Wo) then (buf, Err WriteOnly)
      else if len buf <? len (te_value e) then (buf, Err ValueTooLong)
      else (overwrite buf (map as_u8 (te_value e)), Ok (len (te_value e)))
  end.

Definition table_set (t : TableOd) (i s : Z) (v : list Z) : TableOd :=
  map (λ e, if te_is i s e then mkEntry (te_meta e) v else e) t.

Definition table_accepts (m : OdEntryMeta) (data : list Z) : result unit OdError :=
  if decide (access m = Ro ∨ access m = Const) then Err ReadOnly
  else match DataType.size (data_type m) with
       | Some n => if len data =? n then Ok tt else Err DataTypeMismatch
       | None => match max_size m with
                 | Some k => if k <? len data then Err ValueTooLong else Ok tt
                 | None => Ok tt
                 end
       end.

Definition table_write (t : TableOd) (i s : Z) (data : list Z) : TableOd * result unit OdError :=
  match table_find t i s with
  | None => (t, Err NotFound)
  | Some e =>
      match table_accepts (te_meta e) data with
      | Ok _ => (table_set t i s data, Ok tt)
      | Err err => (t, Err err)
      end
  end.

Definition table_sub_count (t : TableOd) (i : Z) : option Z :=
  match table_find t i 0 with
  | None => None
  | Some e => match te_value e with [n] => Some n | _ => Some 0 end
  end.

#[export] Instance table_od : ObjectDictionary TableOd := {
  od_lookup t i s := option_map te_meta (table_find t i s);
  od_read := table_read;
  od_write := table_write;
  od_sub_count := table_sub_count;
  od_validate_write _ _ _ _ := Ok tt;
  od_store_sdo_server_cob_ids t _ := t;
  od_store_error_register t v := table_set t 0x1001 0 [v];
}.

Lemma overwrite_length buf v :
  (length v ≤ length buf)%nat → length (overwrite buf v) = length buf.
Proof. intros. unfold overwrite. rewrite length_app, length_take, length_drop. lia. Qed.

#[export] Instance table_laws : OdLaws TableOd.
Proof.
  split; simpl; intros t i s buf; unfold table_read;
    destruct (table_find t i s) as [e|] eqn:E; simpl; try done;
    try (unfold table_write; rewrite E; done).
  - case_decide; [done|]. destruct (Z.ltb_spec (len buf) (len (te_value e))); simpl; [done|].
    apply overwrite_length. rewrite length_map. lia.
  - intros Hb. case_decide; [done|].
    destruct (Z.ltb_spec (len buf) (len (te_value e))); simpl; [done|].
    unfold overwrite. apply bytes_app; [|by apply bytes_drop]. apply bytes_take.
    apply Forall_map, Forall_true. intros x. simpl. apply wrap_range. lia.
  - intros n. case_decide; [done|].
    destruct (Z.ltb_spec (len buf) (len (te_value e))); simpl; [done|]. intros [= <-]. lia.
  - intros c. unfold table_write. rewrite E. by destruct (table_accepts _ _) eqn:Ha; simpl;
      unfold table_accepts in Ha; repeat case_match; simplify_eq.
  - intros c. case_decide; [done|]. by destruct (len buf <? _).
Qed.

(** ** Data-type codes *)

Lemma from_code_code t : DataType.from_code (DataType.code t) = Some t.
Proof. by destruct t. Qed.

Lemma from_code_Some c t : DataType.from_code c = Some t → c = DataType.code t.
Proof. unfold DataType.from_code. repeat case_match; intros; simplify_eq; simpl; lia. Qed.

Lemma size_pos t n : DataType.size t = Some n → 1 ≤ n ≤ 8.
Proof. destruct t; intros; simplify_eq/=; lia. Qed.
