(* ===== verification/SdoProtocol.v ===== *)
(** * SDO frames and abort codes

    [canopen-core/src/sdo/protocol.rs]: [AbortCode], [SdoAbort] (a raw [u32]),
    command specifiers and the frame encoders shared by server and client. *)
From S2P Require Import Prelude.

Inductive AbortCode :=
| ToggleBitNotAlternated
| SdoProtocolTimeout
| InvalidCommandSpecifier
| InvalidBlockSize
| InvalidSequenceNumber
| CrcError
| OutOfMemory
| UnsupportedAccess
| WriteOnlyObject
| ReadOnlyObject
| ObjectNotFound
| ObjectCannotBeMapped
| PdoLengthExceeded
| ParameterIncompatibility
| GeneralInternalIncompatibility
| AcHardwareError
| AcDataTypeMismatch
| LengthTooHigh
| LengthTooLow
| SubindexNotFound
| ValueRangeExceeded
| ValueTooHigh
| ValueTooLow
| MaxLessThanMin
| ResourceNotAvailable
| GeneralError
| DataTransferError
| DataTransferLocalControl
| DataTransferDeviceState
| OdGenerationFailed
| NoDataAvailable.

#[export] Instance AbortCode_eq_dec : EqDecision AbortCode.
Proof. solve_decision. Defined.

Module AbortCode.

Definition to_u32 (c : AbortCode) : Z :=
  match c with
  | ToggleBitNotAlternated => 0x05030000
  | SdoProtocolTimeout => 0x05040000
  | InvalidCommandSpecifier => 0x05040001
  | InvalidBlockSize => 0x05040002
  | InvalidSequenceNumber => 0x05040003
  | CrcError => 0x05040004
  | OutOfMemory => 0x05040005
  | UnsupportedAccess => 0x06010000
  | WriteOnlyObject => 0x06010001
  | ReadOnlyObject => 0x06010002
  | ObjectNotFound => 0x06020000
  | ObjectCannotBeMapped => 0x06040041
  | PdoLengthExceeded => 0x06040042
  | ParameterIncompatibility => 0x06040043
  | GeneralInternalIncompatibility => 0x06040047
  | AcHardwareError => 0x06060000
  | AcDataTypeMismatch => 0x06070010
  | LengthTooHigh => 0x06070012
  | LengthTooLow => 0x06070013
  | SubindexNotFound => 0x06090011
  | ValueRangeExceeded => 0x06090030
  | ValueTooHigh => 0x06090031
  | ValueTooLow => 0x06090032
  | MaxLessThanMin => 0x06090036
  | ResourceNotAvailable => 0x060A0023
  | GeneralError => 0x08000000
  | DataTransferError => 0x08000020
  | DataTransferLocalControl => 0x08000021
  | DataTransferDeviceState => 0x08000022
  | OdGenerationFailed => 0x08000023
  | NoDataAvailable => 0x08000024
  end.

Definition to_le_bytes (c : AbortCode) : list Z := Prelude.to_le_bytes 4 (to_u32 c).

Definition from_u32 (code : Z) : option AbortCode :=
  if code =? 0x05030000 then Some ToggleBitNotAlternated
  else if code =? 0x05040000 then Some SdoProtocolTimeout
  else if code =? 0x05040001 then Some InvalidCommandSpecifier
  else if code =? 0x05040002 then Some InvalidBlockSize
  else if code =? 0x05040003 then Some InvalidSequenceNumber
  else if code =? 0x05040004 then Some CrcError
  else if code =? 0x05040005 then Some OutOfMemory
  else if code =? 0x06010000 then Some UnsupportedAccess
  else if code =? 0x06010001 then Some WriteOnlyObject
  else if code =? 0x06010002 then Some ReadOnlyObject
  else if code =? 0x06020000 then Some ObjectNotFound
  else if code =? 0x06040041 then Some ObjectCannotBeMapped
  else if code =? 0x06040042 then Some PdoLengthExceeded
  else if code =? 0x06040043 then Some ParameterIncompatibility
  else if code =? 0x06040047 then Some GeneralInternalIncompatibility
  else if code =? 0x06060000 then Some AcHardwareError
  else if code =? 0x06070010 then Some AcDataTypeMismatch
  else if code =? 0x06070012 then Some LengthTooHigh
  else if code =? 0x06070013 then Some LengthTooLow
  else if code =? 0x06090011 then Some SubindexNotFound
  else if code =? 0x06090030 then Some ValueRangeExceeded
  else if code =? 0x06090031 then Some ValueTooHigh
  else if code =? 0x06090032 then Some ValueTooLow
  else if code =? 0x06090036 then Some MaxLessThanMin
  else if code =? 0x060A0023 then Some ResourceNotAvailable
  else if code =? 0x08000000 then Some GeneralError
  else if code =? 0x08000020 then Some DataTransferError
  else if code =? 0x08000021 then Some DataTransferLocalControl
  else if code =? 0x08000022 then Some DataTransferDeviceState
  else if code =? 0x08000023 then Some OdGenerationFailed
  else if code =? 0x08000024 then Some NoDataAvailable
  else None.

End AbortCode.

(** [SdoAbort(u32)]; [From<AbortCode>] is [AbortCode.to_u32]. *)
Definition SdoAbort_known (raw : Z) : option AbortCode := AbortCode.from_u32 raw.

Module Ccs.
Definition DownloadSegment : Z := 0.
Definition InitiateDownload : Z := 1.
Definition InitiateUpload : Z := 2.
Definition UploadSegment : Z := 3.
Definition AbortTransfer : Z := 4.
Definition BlockUpload : Z := 5.
Definition BlockDownload : Z := 6.
End Ccs.

Module Scs.
Definition UploadSegmentResponse : Z := 0.
Definition DownloadSegmentResponse : Z := 1.
Definition InitiateUploadResponse : Z := 2.
Definition InitiateDownloadResponse : Z := 3.
Definition AbortTransfer : Z := 4.
End Scs.

(** [(x as u8) << n] on a [u8]: bits shifted out are lost. *)
Definition shl8 (x n : Z) : Z := as_u8 (Z.shiftl x n).

Definition command_specifier (byte0 : Z) : Z := Z.land (Z.shiftr byte0 5) 0x07.

(** [data[1] = (index & 0xFF) as u8; data[2] = (index >> 8) as u8; data[3] = subindex] *)
Definition put_index (data : list Z) (index subindex : Z) : list Z :=
  set_at (set_at (set_at data 1 (as_u8 (Z.land index 0xFF)))
                 2 (as_u8 (Z.shiftr index 8))) 3 subindex.

Definition encode_sdo_abort (index subindex code : Z) : exec (list Z) :=
  let data := set_at (zeros 8) 0 (shl8 Scs.AbortTransfer 5) in
  let data := put_index data index subindex in
  copy_from_slice data 4 8 (to_le_bytes 4 code).

Definition encode_abort (index subindex : Z) (code : AbortCode) : exec (list Z) :=
  encode_sdo_abort index subindex (AbortCode.to_u32 code).

Definition encode_upload_response_expedited (index subindex : Z) (value : list Z)
    : exec (option (list Z)) :=
  if (len value =? 0) || (4 <? len value) then mret None
  else
    n ← usub 4 (len value);
    let data := set_at (zeros 8) 0
      (Z.lor (Z.lor (Z.lor (shl8 Scs.InitiateUploadResponse 5) (shl8 (as_u8 n) 2)) 0x02) 0x01) in
    let data := put_index data index subindex in
    data ← copy_from_slice data 4 (4 + len value) value;
    mret (Some data).

Definition encode_upload_response_segmented (index subindex total_size : Z) : exec (list Z) :=
  let data := set_at (zeros 8) 0 (Z.lor (shl8 Scs.InitiateUploadResponse 5) 0x01) in
  let data := put_index data index subindex in
  copy_from_slice data 4 8 (to_le_bytes 4 total_size).

Definition encode_upload_segment_response (toggle : bool) (segment_data : list Z) (last : bool)
    : exec (option (list Z)) :=
  if 7 <? len segment_data then mret None
  else
    let n := 7 - len segment_data in
    let data := set_at (zeros 8) 0
      (Z.lor (Z.lor (Z.lor (shl8 Scs.UploadSegmentResponse 5) (if toggle then 0x10 else 0))
                    (shl8 (as_u8 n) 1))
             (if last then 0x01 else 0)) in
    data ← copy_from_slice data 1 (1 + len segment_data) segment_data;
    mret (Some data).

Definition encode_download_response (index subindex : Z) : list Z :=
  put_index (set_at (zeros 8) 0 (shl8 Scs.InitiateDownloadResponse 5)) index subindex.

Definition encode_download_segment_response (toggle : bool) : list Z :=
  set_at (zeros 8) 0
    (Z.lor (shl8 Scs.DownloadSegmentResponse 5) (if toggle then 0x10 else 0)).

Definition parse_index_sub (data : list Z) : Z * Z :=
  (Z.lor (at_ data 1) (as_u16 (Z.shiftl (at_ data 2) 8)), at_ data 3).

#[global] Arguments encode_sdo_abort : simpl never.
#[global] Arguments encode_abort : simpl never.
#[global] Arguments encode_upload_response_expedited : simpl never.
#[global] Arguments encode_upload_response_segmented : simpl never.
#[global] Arguments encode_upload_segment_response : simpl never.
#[global] Arguments encode_download_response : simpl never.
#[global] Arguments encode_download_segment_response : simpl never.
#[global] Arguments parse_index_sub : simpl never.
#[global] Arguments command_specifier : simpl never.
