(* ===== verification/SdoServer.v ===== *)
(** * The SDO server

    [canopen-core/src/sdo/server.rs], non-test part: transfer state, download
    validation, and every request handler.  [&mut self], [&mut od],
    [&mut response] and [&mut events] are the four fields of [Io]; a handler
    returns the new [Io] and whether the Rust result is [Ok(())].  Slicing,
    [unwrap] and unsigned subtraction go through [exec] and may panic. *)
From S2P Require Import Prelude Frame Nmt Od SdoProtocol.

Definition SDO_TIMEOUT_US : Z := 5000000.
Definition MAX_BLKSIZE : Z := 127.

(** The size of every transfer buffer ([127 * 7]). *)
Definition BUF_LEN : Z := 889.

Inductive Direction := Upload | Download.

#[export] Instance Direction_eq_dec : EqDecision Direction.
Proof. solve_decision. Defined.

Record SegmentedTransfer := mkSeg {
  sg_index : Z;
  sg_subindex : Z;
  sg_toggle : bool;
  sg_direction : Direction;
  sg_buf : list Z;
  sg_offset : Z;
  sg_total_len : Z;
  sg_size_indicated : bool;
  sg_last_activity_us : Z;
}.

Record BlockUploadState := mkBu {
  bu_index : Z;
  bu_subindex : Z;
  bu_buf : list Z;
  bu_total_len : Z;
  bu_offset : Z;
  bu_subblock_start_offset : Z;
  bu_blksize : Z;
  bu_seqno : Z;
  bu_last_seqno : Z;
  bu_crc : Z;
  bu_last_activity_us : Z;
}.

Record BlockDownloadState := mkBd {
  bd_index : Z;
  bd_subindex : Z;
  bd_buf : list Z;
  bd_offset : Z;
  bd_total_len : Z;
  bd_size_indicated : bool;
  bd_blksize : Z;
  bd_seqno : Z;
  bd_awaiting_end : bool;
  bd_crc_enabled : bool;
  bd_last_activity_us : Z;
}.

Inductive TransferState :=
| Segmented (t : SegmentedTransfer)
| BlockUpload (t : BlockUploadState)
| BlockDownload (t : BlockDownloadState).

Module TransferState.

Definition last_activity_us (t : TransferState) : Z :=
  match t with
  | Segmented t => sg_last_activity_us t
  | BlockUpload t => bu_last_activity_us t
  | BlockDownload t => bd_last_activity_us t
  end.

Definition index_sub (t : TransferState) : Z * Z :=
  match t with
  | Segmented t => (sg_index t, sg_subindex t)
  | BlockUpload t => (bu_index t, bu_subindex t)
  | BlockDownload t => (bd_index t, bd_subindex t)
  end.

End TransferState.

(** ** COB-ID plan and request context *)

Definition contains (ids : list Z) (cob : Z) : bool := existsb (Z.eqb cob) ids.

Record SdoCobIds := mkSdoCobIds {
  default_rx : Z;
  default_tx : Z;
  extra_rx : list Z;
  extra_tx : list Z;
}.

Module SdoCobIds.
Definition default : SdoCobIds := mkSdoCobIds 0 0 [] [].

Definition claims (c : SdoCobIds) (cob : Z) : bool :=
  negb (cob =? 0) &&
  ((cob =? default_rx c) || (cob =? default_tx c)
   || contains (extra_rx c) cob || contains (extra_tx c) cob).
End SdoCobIds.

Record ReservedCobIds := mkReserved { ids : list Z; truncated : bool }.

Module ReservedCobIds.
Definition default : ReservedCobIds := mkReserved [] false.

Definition claims (r : ReservedCobIds) (cob : Z) : bool :=
  negb (cob =? 0) && (truncated r || contains (ids r) cob).
End ReservedCobIds.

Record SdoContext := mkCtx {
  ctx_nmt_state : NmtState;
  ctx_now_us : Z;
  heartbeat_consumer_count : Z;
  cob_ids : SdoCobIds;
  reserved_cob_ids : ReservedCobIds;
  sync_cob_id : Z;
}.

Record SdoServer := mkSrv {
  transfer : option TransferState;
  committed_write : option (Z * Z);
}.

Module SdoServerState.

Definition new : SdoServer := mkSrv None None.

Definition take_committed_write (s : SdoServer) : SdoServer * option (Z * Z) :=
  (mkSrv (transfer s) None, committed_write s).

Definition abort_transfer (s : SdoServer) : SdoServer := mkSrv None (committed_write s).

End SdoServerState.

(** ** CRC and sync-object checks *)

(** One iteration of the inner [for _ in 0..8] loop. *)
Definition crc16_bit (crc : Z) : Z :=
  if negb (Z.land crc 0x8000 =? 0)
  then Z.lxor (as_u16 (Z.shiftl crc 1)) 0x1021
  else as_u16 (Z.shiftl crc 1).

Definition crc16_byte (crc byte : Z) : Z :=
  Nat.iter 8 crc16_bit (Z.lxor crc (as_u16 (Z.shiftl byte 8))).

Definition crc16_ccitt_update (crc : Z) (data : list Z) : Z := fold_left crc16_byte data crc.

Definition SYNC_FRAME_29BIT : Z := Z.shiftl 1 29.
Definition SYNC_COB_ID_RESERVED : Z := Z.lor 0x80000000 0x1FFFF800.
Definition SYNC_COUNTER_OVERFLOW_MAX : Z := 240.

Definition is_valid_sync_counter_overflow (value : Z) : bool :=
  (value =? 0) || ((2 <=? value) && (value <=? SYNC_COUNTER_OVERFLOW_MAX)).

Definition is_supported_sync_cob_id (raw : Z) : bool :=
  (Z.land raw (Z.lor SYNC_FRAME_29BIT SYNC_COB_ID_RESERVED) =? 0)
  && negb (Z.land raw 0x7FF =? 0).

Definition is_pdo_config_index (index : Z) : bool := (0x1400 <=? index) && (index <=? 0x1BFF).

(** [push_event]: a full [Deque<OdEvent, N>] drops its oldest event. *)
Definition push_event (n : nat) (events : list OdEvent) (e : OdEvent) : list OdEvent :=
  let events := if (n <=? length events)%nat then snd (Mailbox.pop_front events) else events in
  match Mailbox.push_back n events e with Ok q => q | Err _ => events end.

(** ** Timeout and block-upload polling *)

Module SdoPoll.

Definition check_timeout (s : SdoServer) (now_us : Z) : exec (SdoServer * option (list Z)) :=
  let timed_out :=
    match transfer s with
    | Some t => SDO_TIMEOUT_US <=? wrapping_sub 64 now_us (TransferState.last_activity_us t)
    | None => false
    end in
  if timed_out then
    t ← unwrap (transfer s);
    let '(idx, sub) := TransferState.index_sub t in
    f ← encode_abort idx sub SdoProtocolTimeout;
    mret (mkSrv None (committed_write s), Some f)
  else mret (s, None).

Definition poll_block_upload (s : SdoServer) (now_us : Z) : exec (SdoServer * option (list Z)) :=
  match transfer s with
  | Some (BlockUpload st) =>
      if bu_seqno st =? 0 then mret (s, None)
      else
        remaining ← usub (bu_total_len st) (bu_offset st);
        let seg_data_len := Z.min remaining 7 in
        let is_last_segment := remaining <=? 7 in
        let is_last_in_subblock := (bu_blksize st <=? bu_seqno st) || is_last_segment in
        let frame := set_at (zeros 8) 0 (bu_seqno st) in
        let frame := if is_last_segment && is_last_in_subblock
                     then set_at frame 0 (Z.lor (at_ frame 0) 0x80) else frame in
        data ← slice (bu_buf st) (bu_offset st) (bu_offset st + seg_data_len);
        frame ← copy_from_slice frame 1 (1 + seg_data_len) data;
        let crc := crc16_ccitt_update (bu_crc st) data in
        seqno ← (if is_last_in_subblock then mret 0 else checked 8 (bu_seqno st + 1));
        mret
          (mkSrv (Some (BlockUpload (mkBu (bu_index st) (bu_subindex st) (bu_buf st)
             (bu_total_len st) (bu_offset st + seg_data_len) (bu_subblock_start_offset st)
             (bu_blksize st) seqno (Z.land (at_ frame 0) 0x7F) crc now_us)))
             (committed_write s),
           Some frame)
  | _ => mret (s, None)
  end.

End SdoPoll.

Section server.
Context {OD : Type} `{ObjectDictionary OD} (EVT_QUEUE : nat).

Record Io := mkIo {
  io_srv : SdoServer;
  io_od : OD;
  io_resp : list Z;
  io_events : list OdEvent;
}.

Definition set_transfer (io : Io) (t : option TransferState) : Io :=
  mkIo (mkSrv t (committed_write (io_srv io))) (io_od io) (io_resp io) (io_events io).

Definition respond (io : Io) (r : list Z) : Io :=
  mkIo (io_srv io) (io_od io) r (io_events io).

(** [*response = encode_abort(..); return Ok(())] *)
Definition reply_abort (io : Io) (index subindex : Z) (code : AbortCode) : exec (Io * bool) :=
  r ← encode_abort index subindex code; mret (respond io r, true).

(** ** Abort codes of failed accesses *)

Definition od_error_to_abort (od : OD) (index : Z) (e : OdError) : Z :=
  match e with
  | NotFound =>
      match od_lookup od index 0 with
      | Some _ => AbortCode.to_u32 SubindexNotFound
      | None => AbortCode.to_u32 ObjectNotFound
      end
  | ReadOnly => AbortCode.to_u32 ReadOnlyObject
  | WriteOnly => AbortCode.to_u32 WriteOnlyObject
  | DataTypeMismatch => AbortCode.to_u32 AcDataTypeMismatch
  | ValueTooLong => AbortCode.to_u32 LengthTooHigh
  | ValueRange => AbortCode.to_u32 ValueRangeExceeded
  | HardwareError => AbortCode.to_u32 AcHardwareError
  | Abort code => code
  end.

Definition od_read_abort (od : OD) (index : Z) (e : OdError) : Z :=
  match e with
  | ValueTooLong => AbortCode.to_u32 OutOfMemory
  | e => od_error_to_abort od index e
  end.

Definition known_size (od : OD) (index subindex : Z) : option Z :=
  m ← od_lookup od index subindex; DataType.size (data_type m).

Definition od_write_abort (od : OD) (index subindex data_len : Z) (e : OdError) : Z :=
  if decide (e = DataTypeMismatch) then
    match known_size od index subindex with
    | Some size =>
        if size <? data_len then AbortCode.to_u32 LengthTooHigh
        else if data_len <? size then AbortCode.to_u32 LengthTooLow
        else od_error_to_abort od index e
    | None => od_error_to_abort od index e
    end
  else od_error_to_abort od index e.

(** ** Download validation *)

(** The [for sub in 1..=count] scan for a second entry monitoring [node];
    [buf] is the one read buffer all iterations share. *)
Fixpoint duplicate_producer (od : OD) (index subindex node : Z) (buf : list Z) (subs : list Z)
    : bool :=
  match subs with
  | [] => false
  | sub :: subs' =>
      if sub =? subindex then duplicate_producer od index subindex node buf subs'
      else
        let '(buf, r) := od_read od index sub buf in
        let other := from_le_bytes buf in
        if is_ok r && negb (Z.land other 0xFFFF =? 0)
           && (Z.land (Z.shiftr other 16) 0xFF =? node)
        then true
        else duplicate_producer od index subindex node buf subs'
  end.

Definition validate_heartbeat_consumer_write (od : OD) (sdo_cobs : SdoCobIds)
    (sync_cob_id heartbeat_consumer_count index subindex : Z) (data : list Z)
    : result unit AbortCode :=
  if negb (index =? 0x1016) || (subindex =? 0) || negb (len data =? 4) then Ok tt
  else
    let raw := from_le_bytes data in
    if negb (Z.shiftr raw 24 =? 0) then Err ValueRangeExceeded
    else if Z.land raw 0xFFFF =? 0 then Ok tt
    else
      let node := Z.land (Z.shiftr raw 16) 0xFF in
      if (node =? 0) || (127 <? node) then Err ValueRangeExceeded
      else
        let cob := 0x700 + as_u16 node in
        if (subindex <=? heartbeat_consumer_count)
           && (SdoCobIds.claims sdo_cobs cob || (cob =? sync_cob_id))
        then Err ParameterIncompatibility
        else
          let count := default 0 (od_sub_count od index) in
          if duplicate_producer od index subindex node (zeros 4) (seqZ 1 count)
          then Err ParameterIncompatibility
          else Ok tt.

Definition validate_pdo_cob_id_write (sdo_cobs : SdoCobIds) (sync_cob_id index subindex : Z)
    (data : list Z) : result unit AbortCode :=
  let is_comm_param :=
    in_range 0x1400 0x15FF index || in_range 0x1800 0x19FF index in
  if negb is_comm_param || negb (subindex =? 1) || negb (len data =? 4) then Ok tt
  else
    let raw := from_le_bytes data in
    if negb (Z.land raw 0x3FFFF800 =? 0) then Err ValueRangeExceeded
    else
      let cob := as_u16 (Z.land raw 0x7FF) in
      if SdoCobIds.claims sdo_cobs cob || (negb (cob =? 0) && (cob =? sync_cob_id))
      then Err ParameterIncompatibility
      else Ok tt.

Definition validate_sync_cob_id_write (sdo_cobs : SdoCobIds) (reserved_cobs : ReservedCobIds)
    (index subindex : Z) (data : list Z) : result unit AbortCode :=
  if negb (index =? 0x1005) || negb (subindex =? 0) || negb (len data =? 4) then Ok tt
  else
    let raw := from_le_bytes data in
    if negb (is_supported_sync_cob_id raw) then Err ValueRangeExceeded
    else
      let cob := as_u16 (Z.land raw 0x7FF) in
      if SdoCobIds.claims sdo_cobs cob || ReservedCobIds.claims reserved_cobs cob
      then Err ParameterIncompatibility
      else Ok tt.

Definition validate_sync_counter_overflow_write (index subindex : Z) (data : list Z)
    : result unit AbortCode :=
  if negb (index =? 0x1019) || negb (subindex =? 0) || (len data =? 0) then Ok tt
  else if negb (is_valid_sync_counter_overflow (at_ data 0)) then Err ValueRangeExceeded
  else Ok tt.

(** [r?] inside a function that returns [Result<(), SdoAbort>]. *)
Definition check (r : result unit AbortCode) (k : result unit Z) : result unit Z :=
  match r with Ok _ => k | Err c => Err (AbortCode.to_u32 c) end.

Definition validate_download (od : OD) (ctx : SdoContext) (index subindex : Z) (data : list Z)
    : result unit Z :=
  check (validate_heartbeat_consumer_write od (cob_ids ctx) (sync_cob_id ctx)
           (heartbeat_consumer_count ctx) index subindex data)
  (check (validate_pdo_cob_id_write (cob_ids ctx) (sync_cob_id ctx) index subindex data)
  (check (validate_sync_cob_id_write (cob_ids ctx) (reserved_cob_ids ctx) index subindex data)
  (check (validate_sync_counter_overflow_write index subindex data)
  (match od_validate_write od index subindex data with
   | Ok _ => Ok tt
   | Err e => Err (od_write_abort od index subindex (len data) e)
   end)))).

(** The [match od.write(..)] every download path ends with: on success the
    commit signal and one event; on failure the abort frame.  The response of
    the success case is already in place. *)
Definition commit_write (io : Io) (index subindex : Z) (data : list Z) : exec (Io * bool) :=
  let '(od, r) := od_write (io_od io) index subindex data in
  match r with
  | Ok _ =>
      mret (mkIo (mkSrv (transfer (io_srv io)) (Some (index, subindex))) od (io_resp io)
              (push_event EVT_QUEUE (io_events io) (mkEvent index subindex SrcSdo)), true)
  | Err e =>
      f ← encode_sdo_abort index subindex (od_write_abort od index subindex (len data) e);
      mret (mkIo (io_srv io) od f (io_events io), true)
  end.

(** Validation, then the commit. *)
Definition validate_and_commit (io : Io) (ctx : SdoContext) (index subindex : Z)
    (data : list Z) : exec (Io * bool) :=
  match validate_download (io_od io) ctx index subindex data with
  | Err code => f ← encode_sdo_abort index subindex code; mret (respond io f, true)
  | Ok _ => commit_write io index subindex data
  end.

(** ** Segmented transfer handlers *)

Definition handle_initiate_upload (io : Io) (request : list Z) (now_us : Z) : exec (Io * bool) :=
  let '(index, subindex) := parse_index_sub request in
  match od_read (io_od io) index subindex (zeros BUF_LEN) with
  | (_, Err e) =>
      f ← encode_sdo_abort index subindex (od_read_abort (io_od io) index e);
      mret (respond io f, true)
  | (buf, Ok n) =>
      if (0 <? n) && (n <=? 4) then
        data ← slice buf 0 n;
        r ← encode_upload_response_expedited index subindex data;
        r ← unwrap r;
        mret (set_transfer (respond io r) None, true)
      else
        r ← encode_upload_response_segmented index subindex (as_u32 n);
        mret (set_transfer (respond io r)
          (Some (Segmented (mkSeg index subindex false Upload buf 0 n true now_us))), true)
  end.

Definition handle_upload_segment (io : Io) (request : list Z) (now_us : Z) : exec (Io * bool) :=
  match transfer (io_srv io) with
  | Some (Segmented t) =>
      if decide (sg_direction t = Upload) then
        let client_toggle := negb (Z.land (at_ request 0) 0x10 =? 0) in
        if negb (Bool.eqb client_toggle (sg_toggle t)) then
          reply_abort (set_transfer io None) (sg_index t) (sg_subindex t) ToggleBitNotAlternated
        else
          remaining ← usub (sg_total_len t) (sg_offset t);
          let seg_len := Z.min remaining 7 in
          let last := remaining <=? 7 in
          data ← slice (sg_buf t) (sg_offset t) (sg_offset t + seg_len);
          r ← encode_upload_segment_response (sg_toggle t) data last;
          r ← unwrap r;
          let t' := mkSeg (sg_index t) (sg_subindex t) (negb (sg_toggle t)) (sg_direction t)
            (sg_buf t) (sg_offset t + seg_len) (sg_total_len t) (sg_size_indicated t) now_us in
          mret (set_transfer (respond io r) (if last then None else Some (Segmented t')), true)
      else reply_abort io 0 0 InvalidCommandSpecifier
  | _ => reply_abort io 0 0 InvalidCommandSpecifier
  end.

(** The declared size of a download: bytes 4 to 7 when indicated. *)
Definition declared_len (request : list Z) (size_indicated : bool) : Z :=
  if size_indicated
  then from_le_bytes [at_ request 4; at_ request 5; at_ request 6; at_ request 7]
  else 0.

Definition handle_initiate_download (io : Io) (request : list Z) (ctx : SdoContext)
    : exec (Io * bool) :=
  let '(index, subindex) := parse_index_sub request in
  if bool_decide (ctx_nmt_state ctx = Operational) && is_pdo_config_index index then
    reply_abort io index subindex DataTransferDeviceState
  else
    let expedited := negb (Z.land (at_ request 0) 0x02 =? 0) in
    let size_indicated := negb (Z.land (at_ request 0) 0x01 =? 0) in
    if expedited then
      data_len ← (if size_indicated
                  then usub 4 (Z.land (Z.shiftr (at_ request 0) 2) 0x03)
                  else mret (match known_size (io_od io) index subindex with
                             | Some size => Z.min size 4
                             | None => 4
                             end));
      data ← slice request 4 (4 + data_len);
      '(io, ok) ← validate_and_commit
        (set_transfer (respond io (encode_download_response index subindex)) None)
        ctx index subindex data;
      mret (set_transfer io None, ok)
    else
      let total_len := declared_len request size_indicated in
      if BUF_LEN <? total_len then reply_abort io index subindex OutOfMemory
      else
        mret (respond
          (set_transfer io (Some (Segmented (mkSeg index subindex false Download (zeros BUF_LEN)
             0 total_len size_indicated (ctx_now_us ctx)))))
          (encode_download_response index subindex), true).

Definition handle_download_segment (io : Io) (request : list Z) (ctx : SdoContext)
    : exec (Io * bool) :=
  match transfer (io_srv io) with
  | Some (Segmented t) =>
      if decide (sg_direction t = Download) then
        let idx := sg_index t in
        let sub := sg_subindex t in
        let client_toggle := negb (Z.land (at_ request 0) 0x10 =? 0) in
        if negb (Bool.eqb client_toggle (sg_toggle t)) then
          reply_abort (set_transfer io None) idx sub ToggleBitNotAlternated
        else
          let last := negb (Z.land (at_ request 0) 0x01 =? 0) in
          seg_len ← usub 7 (Z.land (Z.shiftr (at_ request 0) 1) 0x07);
          let received := sg_offset t + seg_len in
          if sg_size_indicated t
             && ((sg_total_len t <? received) || (last && negb (received =? sg_total_len t)))
          then reply_abort (set_transfer io None) idx sub
                 (if sg_total_len t <? received then LengthTooHigh else LengthTooLow)
          else if BUF_LEN <? sg_offset t + seg_len then
            reply_abort (set_transfer io None) idx sub OutOfMemory
          else
            chunk ← slice request 1 (1 + seg_len);
            buf ← copy_from_slice (sg_buf t) (sg_offset t) (sg_offset t + seg_len) chunk;
            let t' := mkSeg idx sub (negb (sg_toggle t)) (sg_direction t) buf
              (sg_offset t + seg_len) (sg_total_len t) (sg_size_indicated t) (ctx_now_us ctx) in
            let io := respond io (encode_download_segment_response client_toggle) in
            if last then
              data ← slice buf 0 (sg_offset t');
              validate_and_commit (set_transfer io None) ctx idx sub data
            else mret (set_transfer io (Some (Segmented t')), true)
      else reply_abort io 0 0 InvalidCommandSpecifier
  | _ => reply_abort io 0 0 InvalidCommandSpecifier
  end.

(** ** Block transfer handlers *)

Definition block_upload_initiate (io : Io) (request : list Z) (now_us : Z) : exec (Io * bool) :=
  let '(index, subindex) := parse_index_sub request in
  let client_blksize := at_ request 4 in
  if negb (in_range 1 MAX_BLKSIZE client_blksize) then
    reply_abort io index subindex InvalidBlockSize
  else
    match od_read (io_od io) index subindex (zeros BUF_LEN) with
    | (_, Err e) =>
        f ← encode_sdo_abort index subindex (od_read_abort (io_od io) index e);
        mret (respond io f, true)
    | (buf, Ok n) =>
        let r := set_at (zeros 8) 0 (Z.lor (Z.lor (shl8 6 5) 0x04) 0x02) in
        let r := put_index r index subindex in
        r ← copy_from_slice r 4 8 (to_le_bytes 4 (as_u32 n));
        mret (set_transfer (respond io r)
          (Some (BlockUpload (mkBu index subindex buf n 0 0 client_blksize 0 0 0 now_us))), true)
    end.

Definition block_upload_start (io : Io) (now_us : Z) : exec (Io * bool) :=
  match transfer (io_srv io) with
  | Some (BlockUpload st) =>
      if (bu_seqno st =? 0) && (bu_offset st =? 0) then
        mret (set_transfer io (Some (BlockUpload (mkBu (bu_index st) (bu_subindex st)
          (bu_buf st) (bu_total_len st) (bu_offset st) (bu_subblock_start_offset st)
          (bu_blksize st) 1 (bu_last_seqno st) (bu_crc st) now_us))), false)
      else reply_abort io 0 0 InvalidCommandSpecifier
  | _ => reply_abort io 0 0 InvalidCommandSpecifier
  end.

Definition block_upload_ack (io : Io) (request : list Z) (now_us : Z) : exec (Io * bool) :=
  match transfer (io_srv io) with
  | Some (BlockUpload st) =>
      if negb (bu_seqno st =? 0) then mret (io, false)
      else
        let ackseq := at_ request 1 in
        let new_blksize := at_ request 2 in
        if negb (in_range 1 MAX_BLKSIZE new_blksize) then
          reply_abort (set_transfer io None) (bu_index st) (bu_subindex st) InvalidBlockSize
        else if bu_last_seqno st <? ackseq then
          reply_abort (set_transfer io None) (bu_index st) (bu_subindex st) InvalidSequenceNumber
        else
          let acknowledged := ackseq * 7 in
          let offset := Z.min (bu_subblock_start_offset st + acknowledged) (bu_total_len st) in
          sent ← slice (bu_buf st) 0 offset;
          let crc := crc16_ccitt_update 0 sent in
          if bu_total_len st <=? offset then
            n_unused ← (if bu_total_len st mod 7 =? 0 then mret 0
                        else usub 7 (bu_total_len st mod 7));
            let r := set_at (zeros 8) 0
              (Z.lor (Z.lor (shl8 6 5) 0x01) (shl8 (Z.land (as_u8 n_unused) 0x07) 2)) in
            let r := set_at r 1 (as_u8 (Z.land crc 0xFF)) in
            let r := set_at r 2 (as_u8 (Z.shiftr crc 8)) in
            mret (set_transfer (respond io r) None, true)
          else
            mret (set_transfer io (Some (BlockUpload (mkBu (bu_index st) (bu_subindex st)
              (bu_buf st) (bu_total_len st) offset offset new_blksize 1 0 crc now_us))), false)
  | _ => reply_abort io 0 0 InvalidCommandSpecifier
  end.

Definition handle_block_upload (io : Io) (request : list Z) (now_us : Z) : exec (Io * bool) :=
  let sub_cmd := Z.land (at_ request 0) 0x03 in
  if sub_cmd =? 0 then block_upload_initiate io request now_us
  else if sub_cmd =? 3 then block_upload_start io now_us
  else if sub_cmd =? 2 then block_upload_ack io request now_us
  else if sub_cmd =? 1 then
    match transfer (io_srv io) with
    | Some (BlockUpload _) => mret (set_transfer io None, false)
    | _ => mret (io, false)
    end
  else reply_abort io 0 0 InvalidCommandSpecifier.

Definition block_download_initiate (io : Io) (request : list Z) (ctx : SdoContext)
    : exec (Io * bool) :=
  let '(index, subindex) := parse_index_sub request in
  let size_indicated := negb (Z.land (at_ request 0) 0x02 =? 0) in
  let crc_enabled := negb (Z.land (at_ request 0) 0x04 =? 0) in
  if bool_decide (ctx_nmt_state ctx = Operational) && is_pdo_config_index index then
    reply_abort io index subindex DataTransferDeviceState
  else
    let total_len := declared_len request size_indicated in
    if BUF_LEN <? total_len then reply_abort io index subindex OutOfMemory
    else
      let r := set_at (zeros 8) 0 (Z.lor (shl8 5 5) 0x04) in
      let r := set_at (put_index r index subindex) 4 MAX_BLKSIZE in
      mret (set_transfer (respond io r)
        (Some (BlockDownload (mkBd index subindex (zeros BUF_LEN) 0 total_len size_indicated
           MAX_BLKSIZE 0 false crc_enabled (ctx_now_us ctx)))), true).

Definition block_download_end (io : Io) (request : list Z) (ctx : SdoContext)
    : exec (Io * bool) :=
  match transfer (io_srv io) with
  | Some (BlockDownload st) =>
      let n_unused := Z.land (Z.shiftr (at_ request 0) 2) 0x07 in
      let client_crc := Z.lor (at_ request 1) (as_u16 (Z.shiftl (at_ request 2) 8)) in
      let index := bd_index st in
      let subindex := bd_subindex st in
      let io := set_transfer io None in
      if (6 <? n_unused) || (bd_offset st <? n_unused) then
        reply_abort io index subindex DataTransferError
      else
        data_len ← usub (bd_offset st) n_unused;
        data ← slice (bd_buf st) 0 data_len;
        if bd_size_indicated st && negb (data_len =? bd_total_len st) then
          reply_abort io index subindex
            (if bd_total_len st <? data_len then LengthTooHigh else LengthTooLow)
        else if bd_crc_enabled st && negb (crc16_ccitt_update 0 data =? client_crc) then
          reply_abort io index subindex CrcError
        else
          let r := set_at (zeros 8) 0 (Z.lor (shl8 5 5) 0x01) in
          validate_and_commit (respond io r) ctx index subindex data
  | _ => reply_abort io 0 0 InvalidCommandSpecifier
  end.

Definition handle_block_download (io : Io) (request : list Z) (ctx : SdoContext)
    : exec (Io * bool) :=
  let sub_cmd := Z.land (at_ request 0) 0x01 in
  if sub_cmd =? 0 then block_download_initiate io request ctx
  else if sub_cmd =? 1 then block_download_end io request ctx
  else reply_abort io 0 0 InvalidCommandSpecifier.

Definition handle_block_download_segment (io : Io) (request : list Z) (now_us : Z)
    : exec (Io * bool) :=
  match transfer (io_srv io) with
  | Some (BlockDownload st) =>
      let seqno := Z.land (at_ request 0) 0x7F in
      let is_last := negb (Z.land (at_ request 0) 0x80 =? 0) in
      let expected_seqno := as_u8 (bd_seqno st + 1) in
      if (seqno =? 0) || negb (seqno =? expected_seqno) then
        reply_abort (set_transfer io None) (bd_index st) (bd_subindex st) InvalidSequenceNumber
      else
        space ← usub BUF_LEN (bd_offset st);
        if space <? 7 then
          reply_abort (set_transfer io None) (bd_index st) (bd_subindex st) OutOfMemory
        else
          chunk ← slice request 1 (1 + 7);
          buf ← copy_from_slice (bd_buf st) (bd_offset st) (bd_offset st + 7) chunk;
          let st' seqno' awaiting :=
            mkBd (bd_index st) (bd_subindex st) buf (bd_offset st + 7) (bd_total_len st)
              (bd_size_indicated st) (bd_blksize st) seqno' awaiting (bd_crc_enabled st) now_us in
          if is_last || (bd_blksize st <=? seqno) then
            let r := set_at (zeros 8) 0 (Z.lor (shl8 5 5) 0x02) in
            let r := set_at (set_at r 1 seqno) 2 (bd_blksize st) in
            mret (set_transfer (respond io r)
              (Some (BlockDownload (if is_last then st' seqno true
                                    else st' 0 (bd_awaiting_end st)))), true)
          else
            mret (set_transfer io
              (Some (BlockDownload (st' seqno (bd_awaiting_end st)))), false)
  | _ => reply_abort io 0 0 InvalidCommandSpecifier
  end.

(** ** Dispatch *)

Definition dispatch (io : Io) (request : list Z) (ctx : SdoContext) : exec (Io * bool) :=
  let now_us := ctx_now_us ctx in
  let cs := command_specifier (at_ request 0) in
  if cs =? Ccs.InitiateUpload then handle_initiate_upload io request now_us
  else if cs =? Ccs.UploadSegment then handle_upload_segment io request now_us
  else if cs =? Ccs.InitiateDownload then handle_initiate_download io request ctx
  else if cs =? Ccs.DownloadSegment then handle_download_segment io request ctx
  else if cs =? Ccs.BlockUpload then handle_block_upload io request now_us
  else if cs =? Ccs.BlockDownload then handle_block_download io request ctx
  else if cs =? Ccs.AbortTransfer then mret (set_transfer io None, false)
  else
    let '(index, subindex) := parse_index_sub request in
    reply_abort io index subindex InvalidCommandSpecifier.

(** While block segments are being received, every frame but the client abort
    is a segment. *)
Definition receiving_block (s : SdoServer) (request : list Z) : bool :=
  match transfer s with
  | Some (BlockDownload st) => negb (bd_awaiting_end st) && negb (at_ request 0 =? 0x80)
  | _ => false
  end.

Definition process_with_context (io : Io) (request : list Z) (ctx : SdoContext)
    : exec (Io * bool) :=
  if receiving_block (io_srv io) request
  then handle_block_download_segment io request (ctx_now_us ctx)
  else
    '(io, ok) ← dispatch io request ctx;
    mret (if ok && (at_ (io_resp io) 0 =? 0x80) then set_transfer io None else io, ok).

Definition process (io : Io) (request : list Z) (nmt_state : NmtState) (now_us : Z)
    : exec (Io * bool) :=
  process_with_context io request
    (mkCtx nmt_state now_us 0 SdoCobIds.default ReservedCobIds.default 0).

End server.

Arguments Io OD : clear implicits.
Arguments mkIo {OD}.
