(* ===== verification/SdoServerSafe.v ===== *)
(** * The SDO server never panics and keeps its transfer state well-formed

    [wf_server] bounds every buffer offset, size and sequence number of the
    transfer in progress.  Every operation of [SdoServer] preserves it for any
    request and any dictionary satisfying [OdLaws], without a panic. *)
From S2P Require Import Prelude Frame Nmt Od SdoProtocol SdoServer.

(** The 8-byte abort frame with its closed form. *)
Definition abort_frame (index subindex code : Z) : list Z :=
  0x80 :: as_u8 (Z.land index 0xFF) :: as_u8 (Z.shiftr index 8) :: subindex
       :: to_le_bytes 4 code.

Definition wf_segmented (t : SegmentedTransfer) : Prop :=
  array BUF_LEN (sg_buf t) ∧ is_u8 (sg_subindex t) ∧
  0 ≤ sg_offset t ≤ BUF_LEN ∧ 0 ≤ sg_total_len t ≤ BUF_LEN ∧
  (sg_direction t = Upload ∨ sg_size_indicated t = true → sg_offset t ≤ sg_total_len t).

Definition wf_block_upload (t : BlockUploadState) : Prop :=
  array BUF_LEN (bu_buf t) ∧ is_u8 (bu_subindex t) ∧
  0 ≤ bu_subblock_start_offset t ≤ bu_offset t ∧ bu_offset t ≤ bu_total_len t ∧
  bu_total_len t ≤ BUF_LEN ∧ 1 ≤ bu_blksize t ≤ MAX_BLKSIZE ∧
  0 ≤ bu_seqno t ≤ bu_blksize t ∧ 0 ≤ bu_last_seqno t ≤ MAX_BLKSIZE ∧
  (bu_seqno t ≠ 0 → bu_offset t = bu_subblock_start_offset t + 7 * (bu_seqno t - 1)) ∧
  (bu_seqno t = 0 →
     bu_offset t = Z.min (bu_subblock_start_offset t + 7 * bu_last_seqno t) (bu_total_len t)).

Definition wf_block_download (t : BlockDownloadState) : Prop :=
  array BUF_LEN (bd_buf t) ∧ is_u8 (bd_subindex t) ∧
  bd_blksize t = MAX_BLKSIZE ∧ 0 ≤ bd_seqno t ≤ MAX_BLKSIZE ∧
  0 ≤ bd_total_len t ≤ BUF_LEN ∧
  (bd_offset t = 7 * bd_seqno t ∨ bd_seqno t = 0 ∧ bd_offset t = BUF_LEN).

Definition wf_transfer (t : TransferState) : Prop :=
  match t with
  | Segmented t => wf_segmented t
  | BlockUpload t => wf_block_upload t
  | BlockDownload t => wf_block_download t
  end.

Definition wf_server (s : SdoServer) : Prop :=
  match transfer s with Some t => wf_transfer t | None => True end.

(** ** Closed forms of the encoders *)

Lemma encode_sdo_abort_eq i s c : encode_sdo_abort i s c = Ret (abort_frame i s c).
Proof. reflexivity. Qed.

Lemma encode_abort_eq i s c :
  encode_abort i s c = Ret (abort_frame i s (AbortCode.to_u32 c)).
Proof. reflexivity. Qed.

Lemma as_u8_u8 z : is_u8 (as_u8 z).
Proof. by apply wrap_range. Qed.

Lemma abort_frame_array i s c : is_u8 s → array 8 (abort_frame i s c).
Proof.
  intros Hs. split; [done|]. unfold abort_frame.
  repeat (constructor; [by auto using as_u8_u8 || done|]). apply bytes_to_le.
Qed.

Lemma index_frame_array b i s rest :
  is_u8 b → is_u8 s → array 4 rest →
  array 8 (b :: as_u8 (Z.land i 0xFF) :: as_u8 (Z.shiftr i 8) :: s :: rest).
Proof.
  intros Hb Hs [Hl Hr]. split; [simpl; lia|].
  repeat (constructor; [by auto using as_u8_u8|]). done.
Qed.

Lemma to_le_array n z : array (Z.of_nat n) (to_le_bytes n z).
Proof. split; [by rewrite length_to_le|apply bytes_to_le]. Qed.

Lemma encode_upload_response_expedited_eq i s v :
  1 ≤ len v ≤ 4 →
  encode_upload_response_expedited i s v =
  Ret (Some (Z.lor 0x43 (shl8 (4 - len v) 2) :: as_u8 (Z.land i 0xFF) :: as_u8 (Z.shiftr i 8)
             :: s :: v ++ zeros (4 - len v))).
Proof.
  intros Hv. unfold encode_upload_response_expedited.
  destruct v as [|a [|b [|c [|d [|]]]]]; simpl length in *; try lia; reflexivity.
Qed.

Lemma encode_upload_response_segmented_eq i s n :
  encode_upload_response_segmented i s n =
  Ret (0x41 :: as_u8 (Z.land i 0xFF) :: as_u8 (Z.shiftr i 8) :: s :: to_le_bytes 4 n).
Proof. reflexivity. Qed.

Lemma encode_upload_segment_response_eq toggle v last :
  len v ≤ 7 →
  encode_upload_segment_response toggle v last =
  Ret (Some (Z.lor (Z.lor (if toggle then 0x10 else 0) (shl8 (7 - len v) 1)) (if last then 1 else 0)
             :: v ++ zeros (7 - len v))).
Proof.
  intros Hv. unfold encode_upload_segment_response.
  destruct v as [|? [|? [|? [|? [|? [|? [|? [|]]]]]]]]; simpl length in *; try lia;
    destruct toggle, last; reflexivity.
Qed.

Lemma encode_download_response_eq i s :
  encode_download_response i s =
  0x60 :: as_u8 (Z.land i 0xFF) :: as_u8 (Z.shiftr i 8) :: s :: zeros 4.
Proof. reflexivity. Qed.

Lemma encode_download_segment_response_eq toggle :
  encode_download_segment_response toggle =
  Z.lor 0x20 (if toggle then 0x10 else 0) :: zeros 7.
Proof. reflexivity. Qed.

(** ** The invariant of a handler's state *)

Section safe.
Context {OD : Type} `{OdLaws OD} (EVT_QUEUE : nat).

Implicit Types (io : Io OD) (ctx : SdoContext).

Definition wf_io (io : Io OD) : Prop :=
  wf_server (io_srv io) ∧ array 8 (io_resp io) ∧ (length (io_events io) ≤ EVT_QUEUE)%nat.

(** What every handler guarantees. *)
Definition handler_post (r : Io OD * bool) : Prop := wf_io (fst r).

Lemma wf_respond io r : wf_io io → array 8 r → wf_io (respond io r).
Proof. by intros (? & ? & ?) ?. Qed.

Lemma wf_set_transfer io t :
  wf_io io → match t with Some t => wf_transfer t | None => True end →
  wf_io (set_transfer io t).
Proof. by intros (? & ? & ?) ?. Qed.

Lemma wf_set_None io : wf_io io → wf_io (set_transfer io None).
Proof. intros. by apply wf_set_transfer. Qed.

Lemma reply_abort_safe io i s c : wf_io io → is_u8 s → runs (reply_abort io i s c) handler_post.
Proof.
  intros Hio Hs. unfold reply_abort. rewrite encode_abort_eq. simpl.
  apply wf_respond; [done|]. by apply abort_frame_array.
Qed.

Lemma push_event_length events e :
  (length events ≤ EVT_QUEUE)%nat → (length (push_event EVT_QUEUE events e) ≤ EVT_QUEUE)%nat.
Proof.
  intros Hl. unfold push_event, Mailbox.push_back.
  destruct (Nat.leb_spec EVT_QUEUE (length events)).
  - destruct events as [|x events]; simpl in *;
      (destruct (Nat.leb_spec EVT_QUEUE (length events)); simpl; rewrite ?length_app; simpl; lia)
      || (destruct (Nat.leb_spec EVT_QUEUE 0); simpl; lia).
  - destruct (Nat.leb_spec EVT_QUEUE (length events)); [lia|]. rewrite length_app. simpl. lia.
Qed.

Lemma commit_write_safe io i s data :
  wf_io io → is_u8 s → runs (commit_write EVT_QUEUE io i s data) handler_post.
Proof.
  intros (Hs & Hr & He) Hu. unfold commit_write.
  destruct (od_write (io_od io) i s data) as [od [[]|e]]; simpl.
  - split_and!; simpl; auto using push_event_length.
  - split_and!; simpl; [done|by apply abort_frame_array|done].
Qed.

Lemma validate_and_commit_safe io ctx i s data :
  wf_io io → is_u8 s → runs (validate_and_commit EVT_QUEUE io ctx i s data) handler_post.
Proof.
  intros Hio Hu. unfold validate_and_commit.
  destruct (validate_download _ _ _ _ _); [by apply commit_write_safe|].
  rewrite encode_sdo_abort_eq. simpl. apply wf_respond; [done|]. by apply abort_frame_array.
Qed.

Lemma at_u8 n request i : array n request → is_u8 (at_ request i).
Proof. intros [_ ?]. by apply at_bytes. Qed.

Lemma parse_index_sub_u8 request i s :
  array 8 request → parse_index_sub request = (i, s) → is_u8 s.
Proof. intros Hr [= <- <-]. by eapply at_u8. Qed.

(** A read of the dictionary into a fresh transfer buffer. *)
Lemma od_read_buffer od i s buf n :
  od_read od i s (zeros BUF_LEN) = (buf, Ok n) → array BUF_LEN buf ∧ 0 ≤ n ≤ BUF_LEN.
Proof.
  intros Hr. assert (buf = fst (od_read od i s (zeros BUF_LEN))) as -> by (by rewrite Hr).
  split; [split|].
  - by rewrite od_read_length, len_zeros.
  - apply od_read_bytes, bytes_zeros.
  - pose proof (od_read_bound od i s (zeros BUF_LEN) n) as Hb.
    rewrite Hr, len_zeros in Hb by done. by apply Hb.
Qed.

Lemma land_bound (x m k : Z) : 0 ≤ x → 0 ≤ k → m = 2 ^ k - 1 → 0 ≤ Z.land x m < 2 ^ k.
Proof.
  intros Hx Hk ->. replace (2 ^ k - 1) with (Z.ones k) by (rewrite Z.ones_equiv; lia).
  rewrite Z.land_ones by done. by apply Z.mod_pos_bound, Z.pow_pos_nonneg.
Qed.

Lemma field_bound (b n m k : Z) :
  is_u8 b → 0 ≤ n → 0 ≤ k → m = 2 ^ k - 1 → 0 ≤ Z.land (Z.shiftr b n) m < 2 ^ k.
Proof. intros [? _] ???. apply land_bound; [by apply Z.shiftr_nonneg|done..]. Qed.

Lemma head_byte_u8 (b : Z) (l : list Z) n : array n l → is_u8 b → array (n + 1) (b :: l).
Proof. intros [??] ?. split; [simpl; lia|by constructor]. Qed.

Lemma array_app (n m : Z) (l k : list Z) : array n l → array m k → array (n + m) (l ++ k).
Proof. intros [??] [??]. split; [rewrite length_app; lia|by apply bytes_app]. Qed.

Lemma segment_header_u8 (toggle last : bool) (n : Z) :
  0 ≤ n ≤ 7 →
  is_u8 (Z.lor (Z.lor (if toggle then 0x10 else 0) (shl8 n 1)) (if last then 1 else 0)).
Proof.
  intros Hn. assert (n = 0 ∨ n = 1 ∨ n = 2 ∨ n = 3 ∨ n = 4 ∨ n = 5 ∨ n = 6 ∨ n = 7) by lia.
  destruct_or!; subst; by destruct toggle, last.
Qed.

Lemma expedited_header_u8 (n : Z) : 0 ≤ n ≤ 3 → is_u8 (Z.lor 0x43 (shl8 n 2)).
Proof.
  intros Hn. assert (n = 0 ∨ n = 1 ∨ n = 2 ∨ n = 3) by lia. by destruct_or!; subst.
Qed.

Lemma handle_initiate_upload_safe io request now :
  wf_io io → array 8 request → runs (handle_initiate_upload io request now) handler_post.
Proof.
  intros Hio Hreq. unfold handle_initiate_upload.
  destruct (parse_index_sub request) as [i s] eqn:Hp.
  apply parse_index_sub_u8 in Hp; [|done].
  destruct (od_read _ i s _) as [buf [n|e]] eqn:Hr; rstep;
    [|by apply wf_respond, abort_frame_array].
  apply od_read_buffer in Hr as [Hbuf Hn]. pose proof Hbuf as [Hl Hb].
  destruct ((0 <? n) && (n <=? 4)) eqn:E.
  - rewrite slice_prefix by lia. rstep.
    assert (len (take (Z.to_nat n) buf) = n) as Hv by (rewrite length_take; lia).
    rewrite encode_upload_response_expedited_eq by lia. rstep.
    apply wf_set_None, wf_respond; [done|].
    apply index_frame_array; [apply expedited_header_u8; lia|done|].
    rewrite Hv. split.
    + rewrite length_app, Nat2Z.inj_add, Hv, len_zeros by lia. lia.
    + apply bytes_app; [by apply bytes_take|apply bytes_zeros].
  - rewrite encode_upload_response_segmented_eq. rstep. apply wf_set_transfer.
    + apply wf_respond; [done|]. apply index_frame_array; [done|done|apply (to_le_array 4)].
    + split_and!; simpl; auto; lia.
Qed.

Lemma handle_upload_segment_safe io request now :
  wf_io io → array 8 request → runs (handle_upload_segment io request now) handler_post.
Proof.
  intros Hio Hreq. unfold handle_upload_segment. pose proof Hio as [Hs _]. unfold wf_server in Hs.
  destruct (transfer (io_srv io)) as [[t|t|t]|]; try by apply reply_abort_safe.
  destruct Hs as (Hbuf & Hsub & Ho & Ht & Hle). pose proof Hbuf as [Hl Hb].
  case_decide as Hd; [|by apply reply_abort_safe]. specialize (Hle (or_introl Hd)).
  case_match; [apply reply_abort_safe; [by apply wf_set_None|done]|].
  rewrite usub_ret by done. rstep. rewrite slice_ret by lia. rstep.
  rewrite encode_upload_segment_response_eq by (rewrite length_take, length_drop; lia). rstep.
  apply wf_set_transfer.
  - apply wf_respond; [done|]. apply (head_byte_u8 _ _ 7).
    + match goal with |- array 7 (?v ++ zeros (7 - len ?v)) => replace 7 with (len v + (7 - len v)) at 1 by lia;
        apply array_app; [split; [done|]|apply array_zeros; rewrite length_take, length_drop; lia] end.
      auto with bytes.
    + apply segment_header_u8. rewrite length_take, length_drop. lia.
  - destruct (Z.leb_spec (sg_total_len t - sg_offset t) 7); [done|].
    split_and!; simpl; auto; lia.
Qed.

Lemma declared_len_nonneg request b : array 8 request → 0 ≤ declared_len request b.
Proof.
  intros Hr. unfold declared_len. destruct b; [|done].
  assert (bytes [at_ request 4; at_ request 5; at_ request 6; at_ request 7]) as Hb.
  { repeat constructor; by eapply at_u8. }
  apply from_le_range in Hb. lia.
Qed.

Lemma handle_initiate_download_safe io request ctx :
  wf_io io → array 8 request →
  runs (handle_initiate_download EVT_QUEUE io request ctx) handler_post.
Proof.
  intros Hio Hreq. unfold handle_initiate_download.
  destruct (parse_index_sub request) as [i s] eqn:Hp.
  apply parse_index_sub_u8 in Hp; [|done].
  case_match; [by apply reply_abort_safe|].
  assert (array 8 (encode_download_response i s)).
  { apply index_frame_array; [done|done|by apply array_zeros]. }
  case_match.
  - eapply (runs_bind _ _ (λ n, 0 ≤ n ≤ 4)).
    { case_match; simpl.
      - pose proof (field_bound (at_ request 0) 2 3 2 (at_u8 _ _ _ Hreq)).
        rewrite usub_ret by lia. rstep. lia.
      - unfold known_size. destruct (od_lookup _ _ _); simpl; [|lia].
        destruct (DataType.size _) eqn:E; simpl; [|lia]. apply size_pos in E. lia. }
    intros n Hn. eapply runs_bind; [by eapply (array_slice 8); [done|lia..]|]. intros data Hdata.
    eapply runs_bind; [apply validate_and_commit_safe; [by apply wf_set_None, wf_respond|done]|].
    intros [io' ok] Hio'. rstep. by apply wf_set_None.
  - case_match; [by apply reply_abort_safe|]. rstep.
    apply wf_respond; [|done]. apply wf_set_transfer; [done|].
    pose proof (declared_len_nonneg request (negb (Z.land (at_ request 0) 1 =? 0)) Hreq).
    split; [by apply array_zeros|]. split_and!; simpl; try done; unfold BUF_LEN in *; lia.
Qed.

Lemma download_response_array toggle : array 8 (encode_download_segment_response toggle).
Proof.
  rewrite encode_download_segment_response_eq. apply (head_byte_u8 _ _ 7).
  - by apply array_zeros.
  - by destruct toggle.
Qed.

Lemma handle_download_segment_safe io request ctx :
  wf_io io → array 8 request →
  runs (handle_download_segment EVT_QUEUE io request ctx) handler_post.
Proof.
  intros Hio Hreq. unfold handle_download_segment.
  pose proof Hio as [Hs _]. unfold wf_server in Hs.
  destruct (transfer (io_srv io)) as [[t|t|t]|]; try by apply reply_abort_safe.
  destruct Hs as (Hbuf & Hsub & Ho & Ht & Hle). pose proof Hbuf as [Hl Hb].
  case_decide as Hd; [|by apply reply_abort_safe].
  assert (∀ c, runs (reply_abort (set_transfer io None) (sg_index t) (sg_subindex t) c)
                 handler_post) as Habort by (intros; apply reply_abort_safe; [by apply wf_set_None|done]).
  case_match; [by apply Habort|].
  pose proof (field_bound (at_ request 0) 1 7 3 (at_u8 _ _ _ Hreq)) as Hn.
  rewrite usub_ret by lia. rstep.
  set (seg_len := 7 - Z.land (Z.shiftr (at_ request 0) 1) 7) in *.
  assert (0 ≤ seg_len ≤ 7) as Hseg by (unfold seg_len; lia).
  destruct (sg_size_indicated t && _) eqn:E1; [by apply Habort|].
  destruct (Z.ltb_spec BUF_LEN (sg_offset t + seg_len)); [by apply Habort|].
  eapply runs_bind; [by apply (array_slice 8); [done|lia..]|]. intros chunk Hchunk.
  eapply runs_bind; [apply (array_copy BUF_LEN); try done; try lia;
    by replace (sg_offset t + seg_len - sg_offset t) with (1 + seg_len - 1) by lia|].
  intros buf Hbuf'. case_match.
  - eapply runs_bind; [by apply (array_slice BUF_LEN); [done|simpl; lia..]|]. intros data _.
    apply validate_and_commit_safe; [|done].
    by apply wf_set_None, wf_respond, download_response_array.
  - rstep. apply wf_set_transfer; [by apply wf_respond, download_response_array|].
    split_and!; simpl; try done; try lia.
    intros [Hu|Hi]; [congruence|]. rewrite Hi in E1. simpl in E1. lia.
Qed.

Lemma in_range_spec lo hi z : in_range lo hi z = true ↔ lo ≤ z ≤ hi.
Proof. unfold in_range. lia. Qed.

Lemma block_upload_initiate_safe io request now :
  wf_io io → array 8 request → runs (block_upload_initiate io request now) handler_post.
Proof.
  intros Hio Hreq. unfold block_upload_initiate.
  destruct (parse_index_sub request) as [i s] eqn:Hp.
  apply parse_index_sub_u8 in Hp; [|done].
  destruct (in_range 1 MAX_BLKSIZE _) eqn:Hblk; cbn [negb]; [|by apply reply_abort_safe].
  apply in_range_spec in Hblk. unfold MAX_BLKSIZE in *.
  destruct (od_read _ i s _) as [buf [n|e]] eqn:Hr; rstep;
    [|by apply wf_respond, abort_frame_array].
  apply od_read_buffer in Hr as [Hbuf Hn].
  rewrite copy_from_slice_ret by (rewrite ?length_to_le; done). rstep.
  apply wf_set_transfer.
  - apply wf_respond; [done|].
    apply (index_frame_array 0xC6 i s (to_le_bytes 4 (as_u32 n) ++ [])); [done|done|].
    rewrite app_nil_r. apply (to_le_array 4).
  - split_and!; simpl; try done; unfold MAX_BLKSIZE; lia.
Qed.

Lemma block_upload_start_safe io now :
  wf_io io → runs (block_upload_start io now) handler_post.
Proof.
  intros Hio. unfold block_upload_start.
  pose proof Hio as [Hs _]. unfold wf_server in Hs.
  destruct (transfer (io_srv io)) as [[t|t|t]|]; try by apply reply_abort_safe.
  destruct Hs as (Hbuf & Hsub & Hst & Ho & Ht & Hblk & Hseq & Hlast & Hn & Hz).
  destruct ((bu_seqno t =? 0) && (bu_offset t =? 0)) eqn:E; [|by apply reply_abort_safe].
  rstep. apply wf_set_transfer; [done|]. unfold MAX_BLKSIZE in *.
  split_and!; simpl; try done; unfold MAX_BLKSIZE; lia.
Qed.

Lemma end_header_u8 (n : Z) :
  is_u8 (Z.lor (Z.lor (shl8 6 5) 0x01) (shl8 (Z.land (as_u8 n) 0x07) 2)).
Proof.
  assert (0 ≤ Z.land (as_u8 n) 7 < 8) as Hb.
  { apply (land_bound _ 7 3); [|done..]. by apply as_u8_u8. }
  set (m := Z.land (as_u8 n) 7) in *. clearbody m.
  assert (m = 0 ∨ m = 1 ∨ m = 2 ∨ m = 3 ∨ m = 4 ∨ m = 5 ∨ m = 6 ∨ m = 7) by lia.
  by destruct_or!; subst.
Qed.

Lemma block_upload_ack_safe io request now :
  wf_io io → array 8 request → runs (block_upload_ack io request now) handler_post.
Proof.
  intros Hio Hreq. unfold block_upload_ack.
  pose proof Hio as [Hs _]. unfold wf_server in Hs.
  destruct (transfer (io_srv io)) as [[t|t|t]|]; try by apply reply_abort_safe.
  destruct Hs as (Hbuf & Hsub & Hst & Ho & Ht & Hblk & Hseq & Hlast & Hn & Hz).
  case_match; [done|].
  destruct (in_range 1 MAX_BLKSIZE _) eqn:Hnew; cbn [negb];
    [|apply reply_abort_safe; [by apply wf_set_None|done]].
  apply in_range_spec in Hnew.
  destruct (Z.ltb_spec (bu_last_seqno t) (at_ request 1));
    [apply reply_abort_safe; [by apply wf_set_None|done]|].
  pose proof (at_u8 _ _ 1%nat Hreq) as [Hack _]. pose proof Hbuf as [Hl Hb].
  set (offset := Z.min _ (bu_total_len t)).
  assert (bu_subblock_start_offset t ≤ offset ≤ bu_total_len t) as Hoff by (unfold offset; lia).
  unfold BUF_LEN, MAX_BLKSIZE in *. rewrite slice_prefix by lia. rstep.
  destruct (Z.leb_spec (bu_total_len t) offset).
  - pose proof (Z.mod_pos_bound (bu_total_len t) 7 ltac:(lia)).
    eapply (runs_bind _ _ (λ _, True)).
    { case_match; rstep; [done|]. rewrite usub_ret by lia. done. }
    intros n _. rstep. apply wf_set_None, wf_respond; [done|].
    repeat (apply array_set; [|auto using end_header_u8, as_u8_u8]). by apply array_zeros.
  - rstep. apply wf_set_transfer; [done|].
    split_and!; simpl; try done; unfold MAX_BLKSIZE, BUF_LEN; lia.
Qed.

Lemma handle_block_upload_safe io request now :
  wf_io io → array 8 request → runs (handle_block_upload io request now) handler_post.
Proof.
  intros Hio Hreq. unfold handle_block_upload.
  case_match; [by apply block_upload_initiate_safe|].
  case_match; [by apply block_upload_start_safe|].
  case_match; [by apply block_upload_ack_safe|].
  case_match; [|by apply reply_abort_safe].
  destruct (transfer (io_srv io)) as [[]|]; rstep; try done. by apply wf_set_None.
Qed.

Lemma block_download_initiate_safe io request ctx :
  wf_io io → array 8 request → runs (block_download_initiate io request ctx) handler_post.
Proof.
  intros Hio Hreq. unfold block_download_initiate.
  destruct (parse_index_sub request) as [i s] eqn:Hp.
  apply parse_index_sub_u8 in Hp; [|done].
  case_match; [by apply reply_abort_safe|].
  case_match; [by apply reply_abort_safe|]. rstep.
  pose proof (declared_len_nonneg request (negb (Z.land (at_ request 0) 2 =? 0)) Hreq).
  apply wf_set_transfer.
  - apply wf_respond; [done|].
    apply (index_frame_array 0xA4 i s [MAX_BLKSIZE; 0; 0; 0]); try done.
    split; [done|]. by repeat constructor.
  - split; [by apply array_zeros|].
    split_and!; simpl; try done; unfold BUF_LEN, MAX_BLKSIZE in *; lia.
Qed.

Lemma block_download_end_safe io request ctx :
  wf_io io → array 8 request → runs (block_download_end EVT_QUEUE io request ctx) handler_post.
Proof.
  intros Hio Hreq. unfold block_download_end.
  pose proof Hio as [Hs _]. unfold wf_server in Hs.
  destruct (transfer (io_srv io)) as [[t|t|t]|]; try by apply reply_abort_safe.
  destruct Hs as (Hbuf & Hsub & Hblk & Hseq & Ht & Ho). pose proof Hbuf as [Hl Hb].
  assert (∀ c, runs (reply_abort (set_transfer io None) (bd_index t) (bd_subindex t) c)
                 handler_post) as Habort by (intros; apply reply_abort_safe; [by apply wf_set_None|done]).
  pose proof (field_bound (at_ request 0) 2 7 3 (at_u8 _ _ _ Hreq)) as Hn.
  unfold BUF_LEN, MAX_BLKSIZE in *.
  destruct ((6 <? _) || _) eqn:E; [by apply Habort|].
  rewrite usub_ret by lia. rstep. rewrite slice_prefix by lia. rstep.
  case_match; [by apply Habort|]. case_match; [by apply Habort|].
  apply validate_and_commit_safe; [|done]. apply wf_respond; [by apply wf_set_None|].
  apply array_set; [by apply array_zeros|done].
Qed.

Lemma handle_block_download_safe io request ctx :
  wf_io io → array 8 request → runs (handle_block_download EVT_QUEUE io request ctx) handler_post.
Proof.
  intros Hio Hreq. unfold handle_block_download.
  case_match; [by apply block_download_initiate_safe|].
  case_match; [by apply block_download_end_safe|by apply reply_abort_safe].
Qed.

(** Only called while segments are expected, i.e. not after the final one. *)
Lemma handle_block_download_segment_safe io request now :
  wf_io io → array 8 request →
  runs (handle_block_download_segment io request now) handler_post.
Proof.
  intros Hio Hreq. unfold handle_block_download_segment.
  pose proof Hio as [Hs _]. unfold wf_server in Hs.
  destruct (transfer (io_srv io)) as [[t|t|t]|]; try by apply reply_abort_safe.
  destruct Hs as (Hbuf & Hsub & Hblk & Hseq & Ht & Ho). pose proof Hbuf as [Hl Hb].
  assert (∀ c, runs (reply_abort (set_transfer io None) (bd_index t) (bd_subindex t) c)
                 handler_post) as Habort by (intros; apply reply_abort_safe; [by apply wf_set_None|done]).
  unfold BUF_LEN, MAX_BLKSIZE in *.
  assert (as_u8 (bd_seqno t + 1) = bd_seqno t + 1) as -> by (apply wrap_id; unfold is_uint; lia).
  destruct (Z.eqb_spec (Z.land (at_ request 0) 127) 0) as [|Hz];
    [by apply Habort|].
  destruct (Z.eqb_spec (Z.land (at_ request 0) 127) (bd_seqno t + 1)) as [Heq|]; cbn [negb orb];
    [|by apply Habort].
  pose proof (land_bound (at_ request 0) 127 7 (proj1 (at_u8 _ _ _ Hreq))) as Hb7.
  rewrite usub_ret by lia. rstep.
  destruct (Z.ltb_spec (889 - bd_offset t) 7); [by apply Habort|].
  eapply runs_bind; [by apply (array_slice 8); [done|lia..]|]. intros chunk Hchunk.
  eapply runs_bind; [apply (array_copy 889); try done; try lia;
    by replace (bd_offset t + 7 - bd_offset t) with (1 + 7 - 1) by lia|].
  intros buf Hbuf'. destruct (_ || (bd_blksize t <=? _)) eqn:E; rstep.
  - apply wf_set_transfer.
    + apply wf_respond; [done|].
      repeat (apply array_set; [|first [done|unfold is_uint; lia]]). by apply array_zeros.
    + case_match; split_and!; simpl; unfold BUF_LEN, MAX_BLKSIZE; try done; try lia.
  - apply wf_set_transfer; [done|].
    split_and!; simpl; unfold BUF_LEN, MAX_BLKSIZE; try done; try lia.
Qed.

Lemma dispatch_safe io request ctx :
  wf_io io → array 8 request → runs (dispatch EVT_QUEUE io request ctx) handler_post.
Proof.
  intros Hio Hreq. unfold dispatch.
  case_match; [by apply handle_initiate_upload_safe|].
  case_match; [by apply handle_upload_segment_safe|].
  case_match; [by apply handle_initiate_download_safe|].
  case_match; [by apply handle_download_segment_safe|].
  case_match; [by apply handle_block_upload_safe|].
  case_match; [by apply handle_block_download_safe|].
  case_match; [rstep; by apply wf_set_None|].
  destruct (parse_index_sub request) as [i s] eqn:Hp.
  apply parse_index_sub_u8 in Hp; [|done]. by apply reply_abort_safe.
Qed.

Lemma process_with_context_safe io request ctx :
  wf_io io → array 8 request →
  runs (process_with_context EVT_QUEUE io request ctx) handler_post.
Proof.
  intros Hio Hreq. unfold process_with_context.
  case_match; [by apply handle_block_download_segment_safe|].
  eapply runs_bind; [by apply dispatch_safe|]. intros [io' ok] Hio'. rstep.
  unfold handler_post in *. simpl in *. case_match; [by apply wf_set_None|done].
Qed.

End safe.

(** ** The polling operations *)

Lemma check_timeout_safe s now :
  wf_server s →
  runs (SdoPoll.check_timeout s now) (λ r, wf_server (fst r) ∧
    match snd r with Some f => array 8 f ∧ transfer (fst r) = None | None => fst r = s end).
Proof.
  intros Hs. unfold SdoPoll.check_timeout, wf_server in *.
  destruct (transfer s) as [t|] eqn:Et; rstep; [|by rewrite Et].
  case_match; rstep; [|by rewrite Et].
  destruct (TransferState.index_sub t) as [i u] eqn:Eix. rewrite encode_abort_eq. rstep.
  split; [done|]. split; [|done]. apply abort_frame_array.
  destruct t as [t|t|t]; injection Eix as <- <-; apply Hs.
Qed.

(** The sequence number in the low seven bits of a segment's first byte. *)
Lemma seqno_head (b : Z) :
  0 ≤ b ≤ 127 →
  Z.land b 0x7F = b ∧ Z.land (Z.lor b 0x80) 0x7F = b ∧ Z.lor b 0x80 = b + 128.
Proof.
  intros Hb. pose proof (byte_forall (λ b, (127 <? b) || ((Z.land b 0x7F =? b)
    && (Z.land (Z.lor b 0x80) 0x7F =? b) && (Z.lor b 0x80 =? b + 128)))
    ltac:(vm_compute; reflexivity) b ltac:(unfold is_uint; lia)) as H. simpl in H. lia.
Qed.

Lemma at_copy_low (dst src : list Z) (a b : nat) (i : nat) :
  (i < a)%nat → (a ≤ length dst)%nat → at_ (take a dst ++ src ++ drop b dst) i = at_ dst i.
Proof.
  intros Hi Ha. unfold at_. rewrite app_nth1 by (rewrite length_take; lia).
  by rewrite nth_lookup, lookup_take_lt, <- nth_lookup.
Qed.

(** The first byte of the polled segment and the effect on the sub-block. *)
Definition segment_head (st : BlockUploadState) : Z :=
  if (bu_total_len st - bu_offset st <=? 7) then Z.lor (bu_seqno st) 0x80 else bu_seqno st.

Definition after_segment (st : BlockUploadState) (data : list Z) (now : Z) : BlockUploadState :=
  mkBu (bu_index st) (bu_subindex st) (bu_buf st) (bu_total_len st)
    (bu_offset st + Z.min (bu_total_len st - bu_offset st) 7)
    (bu_subblock_start_offset st) (bu_blksize st)
    (if (bu_blksize st <=? bu_seqno st) || (bu_total_len st - bu_offset st <=? 7)
     then 0 else bu_seqno st + 1)
    (bu_seqno st) (crc16_ccitt_update (bu_crc st) data) now.

Definition segment_data (st : BlockUploadState) : list Z :=
  take (Z.to_nat (Z.min (bu_total_len st - bu_offset st) 7)) (drop (Z.to_nat (bu_offset st)) (bu_buf st)).

Lemma segment_data_length st :
  wf_block_upload st → len (segment_data st) = Z.min (bu_total_len st - bu_offset st) 7.
Proof.
  intros ([Hl _] & _ & Hst & Ho & Ht & _). unfold segment_data.
  rewrite length_take, length_drop. lia.
Qed.

Lemma poll_block_upload_eq s st now :
  transfer s = Some (BlockUpload st) → wf_block_upload st → bu_seqno st ≠ 0 →
  SdoPoll.poll_block_upload s now =
  Ret (mkSrv (Some (BlockUpload (after_segment st (segment_data st) now))) (committed_write s),
       Some (segment_head st :: segment_data st ++ zeros (7 - len (segment_data st)))).
Proof.
  intros Et Hwf Hnz. pose proof (segment_data_length st Hwf) as Hdl.
  destruct Hwf as ([Hl Hb] & Hsub & Hst & Ho & Ht & Hblk & Hseq & Hlast & Hn & Hz).
  unfold SdoPoll.poll_block_upload. rewrite Et.
  destruct (Z.eqb_spec (bu_seqno st) 0) as [|_]; [done|].
  rewrite usub_ret by done. rstep. unfold BUF_LEN, MAX_BLKSIZE in *.
  rewrite slice_ret by lia. rstep.
  replace (bu_offset st + _ - bu_offset st) with (Z.min (bu_total_len st - bu_offset st) 7) by lia.
  fold (segment_data st).
  set (frame := if _ && _ then _ else _).
  assert (frame = segment_head st :: zeros 7) as ->.
  { unfold frame, segment_head. destruct (Z.leb_spec (bu_total_len st - bu_offset st) 7).
    - by rewrite orb_true_r.
    - done. }
  rewrite copy_from_slice_ret by (rewrite ?Hdl; simpl; lia). rstep.
  assert (Z.land (segment_head st) 0x7F = bu_seqno st) as Hhead.
  { destruct (seqno_head (bu_seqno st)) as (?&?&?); [lia|]. unfold segment_head. by case_match. }
  assert ((if (bu_blksize st <=? bu_seqno st) || (bu_total_len st - bu_offset st <=? 7)
           then mret 0 else checked 8 (bu_seqno st + 1)) =
          Ret (if (bu_blksize st <=? bu_seqno st) || (bu_total_len st - bu_offset st <=? 7)
           then 0 else bu_seqno st + 1)) as ->.
  { case_match; [done|]. apply checked_ret. unfold is_uint. lia. }
  rstep. unfold after_segment.
  change (take (Z.to_nat 1) (segment_head st :: zeros 7)) with [segment_head st].
  cbn [app at_ nth]. unfold at_. cbn [nth]. rewrite Hhead, Hdl.
  unfold mret, exec_ret. do 4 f_equal. unfold zeros.
  replace (Z.to_nat (1 + Z.min (bu_total_len st - bu_offset st) 7))
    with (S (Z.to_nat (Z.min (bu_total_len st - bu_offset st) 7))) by lia.
  cbn [drop]. rewrite drop_replicate. do 2 f_equal. lia.
Qed.

Lemma poll_block_upload_safe s now :
  wf_server s →
  runs (SdoPoll.poll_block_upload s now) (λ r, wf_server (fst r) ∧
    match snd r with Some f => array 8 f | None => fst r = s end).
Proof.
  intros Hs. pose proof Hs as Hs'. unfold wf_server in Hs'.
  destruct (transfer s) as [[t|t|t]|] eqn:Et;
    try (unfold SdoPoll.poll_block_upload; rewrite Et; by rstep).
  destruct (decide (bu_seqno t = 0)) as [Hz|Hnz].
  { unfold SdoPoll.poll_block_upload. rewrite Et, (proj2 (Z.eqb_eq _ _)) by done. by rstep. }
  rewrite (poll_block_upload_eq s t now) by done. rstep.
  pose proof (segment_data_length t Hs') as Hdl.
  destruct Hs' as ([Hl Hb] & Hsub & Hst & Ho & Ht & Hblk & Hseq & Hlast & Hn & Hz).
  unfold BUF_LEN, MAX_BLKSIZE in *. split.
  - unfold wf_server, after_segment. cbn [transfer wf_transfer].
    destruct (Z.leb_spec (bu_blksize t) (bu_seqno t)),
      (Z.leb_spec (bu_total_len t - bu_offset t) 7); simpl;
      split_and!; simpl; unfold BUF_LEN, MAX_BLKSIZE; try done; try lia.
  - apply (head_byte_u8 _ _ 7).
    + replace 7 with (len (segment_data t) + (7 - len (segment_data t))) at 1 by lia.
      apply array_app; [|apply array_zeros; lia]. split; [done|].
      by apply bytes_take, bytes_drop.
    + destruct (seqno_head (bu_seqno t)) as (?&?&?); [lia|].
      unfold segment_head, is_uint. case_match; lia.
Qed.

(** ** Runs of a server

    The operations [Node] performs on one of its servers, in any order:
    a request (answered into a zeroed buffer, as [Node::handle_sdo_request]
    does), the two polls, an abort, and the application draining an event. *)
Inductive server_op :=
| OpRequest (request : list Z) (ctx : SdoContext)
| OpPoll (now : Z)
| OpTimeout (now : Z)
| OpAbort
| OpTakeCommitted
| OpNextEvent.

Definition wf_op (o : server_op) : Prop :=
  match o with OpRequest request _ => array 8 request | _ => True end.

Section runs_of_server.
Context {OD : Type} `{OdLaws OD} (EVT_QUEUE : nat).

Definition server_state : Type := SdoServer * OD * list OdEvent.

Definition run_op (st : server_state) (o : server_op) : exec server_state :=
  let '(srv, od, events) := st in
  match o with
  | OpRequest request ctx =>
      '(io, _) ← process_with_context EVT_QUEUE (mkIo srv od (zeros 8) events) request ctx;
      mret (io_srv io, io_od io, io_events io)
  | OpPoll now => '(srv, _) ← SdoPoll.poll_block_upload srv now; mret (srv, od, events)
  | OpTimeout now => '(srv, _) ← SdoPoll.check_timeout srv now; mret (srv, od, events)
  | OpAbort => mret (SdoServerState.abort_transfer srv, od, events)
  | OpTakeCommitted => mret (fst (SdoServerState.take_committed_write srv), od, events)
  | OpNextEvent => mret (srv, od, snd (Mailbox.pop_front events))
  end.

Fixpoint run_ops (st : server_state) (os : list server_op) : exec server_state :=
  match os with
  | [] => mret st
  | o :: os' => st' ← run_op st o; run_ops st' os'
  end.

Definition wf_state (st : server_state) : Prop :=
  wf_server (fst (fst st)) ∧ (length (snd st) ≤ EVT_QUEUE)%nat.

Lemma run_op_safe st o : wf_state st → wf_op o → runs (run_op st o) wf_state.
Proof.
  destruct st as [[srv od] events]. intros [Hs He] Ho. simpl in Hs, He.
  destruct o as [request ctx|now|now| | |]; simpl in Ho |- *.
  - eapply runs_bind; [apply process_with_context_safe; [|exact Ho]|].
    + split_and!; simpl; [done|by apply array_zeros|done].
    + intros [io ok] (? & _ & ?). by split.
  - eapply runs_bind; [by apply poll_block_upload_safe|]. by intros [srv' f] [? _].
  - eapply runs_bind; [by apply check_timeout_safe|]. by intros [srv' f] [? _].
  - done.
  - done.
  - split; [done|]. simpl. destruct events; simpl in *; lia.
Qed.

(** C2. No sequence of requests (any 8 bytes, in any NMT state, at any time),
    polls, timeouts and aborts makes the SDO server panic: every slice stays
    inside its 889-byte buffer, every subtraction stays non-negative, and the
    transfer state and event queue stay within their bounds. *)
Theorem server_never_panics (od : OD) (os : list server_op) :
  Forall wf_op os →
  runs (run_ops (SdoServerState.new, od, []) os) wf_state.
Proof.
  intros Hos.
  assert (wf_state (SdoServerState.new, od, [])) as Hst by (split; simpl; [done|lia]).
  revert Hst. generalize (SdoServerState.new, od, @nil OdEvent).
  induction Hos as [|o os Ho _ IH]; intros st Hst; simpl; [done|].
  eapply runs_bind; [by apply run_op_safe|]. intros st' Hst'. by apply IH.
Qed.
End runs_of_server.

(** A dictionary with a 300-byte domain at 0x2000 and a [u32] at 0x2001, and a
    context with no COB-ID plan, for the instances below. *)
Definition demo_od : TableOd :=
  [ mkEntry (mkMeta 0x2000 0 Domain Rw false (Some 889)) (map Z.of_nat (seq 0 300));
    mkEntry (mkMeta 0x2001 0 U32 Rw false None) [1; 2; 3; 4];
    mkEntry (mkMeta 0x1400 1 U32 Rw false None) [0; 0; 0; 0] ].

Definition demo_ctx (s : NmtState) : SdoContext :=
  mkCtx s 0 0 SdoCobIds.default ReservedCobIds.default 0.

Definition demo_ops : list server_op :=
  [ OpRequest [0xA0; 0x00; 0x20; 0x00; 127; 0; 0; 0] (demo_ctx Operational);
    OpRequest [0xA3; 0; 0; 0; 0; 0; 0; 0] (demo_ctx Operational);
    OpPoll 1; OpPoll 2; OpTimeout 6000000; OpAbort;
    OpRequest [0x21; 0x00; 0x20; 0x00; 14; 0; 0; 0] (demo_ctx Operational);
    OpRequest [0x00; 1; 2; 3; 4; 5; 6; 7] (demo_ctx Operational); OpTakeCommitted; OpNextEvent ].

Lemma demo_ops_wf : Forall wf_op demo_ops.
Proof. repeat constructor; simpl; unfold array; repeat (split || constructor || done). Qed.

Lemma server_never_panics_witness :
  Forall wf_op demo_ops ∧ runs (run_ops 4 (SdoServerState.new, demo_od, []) demo_ops) (wf_state 4).
Proof. split; [exact demo_ops_wf|exact (server_never_panics 4 demo_od demo_ops demo_ops_wf)]. Defined.
