(* ===== verification/SdoServerSpec.v ===== *)
(** * What the SDO server promises to the dictionary and to the client

    The commit contract (the dictionary changes only through a validated
    write, which is always reported), abort and timeout behaviour, and the
    Operational lock on PDO parameters with the path around it. *)
From S2P Require Import Prelude Frame Nmt Od SdoProtocol SdoServer SdoServerSafe.

Section spec.
Context {OD : Type} `{ObjectDictionary OD} (EVT_QUEUE : nat).

Implicit Types (io : Io OD) (ctx : SdoContext).

(** Nothing the application can observe has changed. *)
Definition untouched io io' : Prop :=
  io_od io' = io_od io ∧ io_events io' = io_events io ∧
  committed_write (io_srv io') = committed_write (io_srv io).

(** The dictionary took one validated write, and both ends were told. *)
Definition committed io io' ctx (i s : Z) (data : list Z) : Prop :=
  validate_download (io_od io) ctx i s data = Ok tt ∧
  io_od io' = fst (od_write (io_od io) i s data) ∧
  match snd (od_write (io_od io) i s data) with
  | Ok _ =>
      committed_write (io_srv io') = Some (i, s) ∧
      io_events io' = push_event EVT_QUEUE (io_events io) (mkEvent i s SrcSdo) ∧
      at_ (io_resp io') 0 ≠ 0x80
  | Err e =>
      committed_write (io_srv io') = committed_write (io_srv io) ∧
      io_events io' = io_events io ∧
      io_resp io' = abort_frame i s (od_write_abort (io_od io') i s (len data) e)
  end.

(** Request and receive buffer hold bytes. *)
Definition bytes_in io (request : list Z) : Prop :=
  bytes request ∧
  match transfer (io_srv io) with
  | Some (Segmented t) => bytes (sg_buf t)
  | Some (BlockDownload t) => bytes (bd_buf t)
  | _ => True
  end.

Definition commit_post io request ctx (r : Io OD * bool) : Prop :=
  untouched io (fst r) ∨
  ∃ i s data, snd r = true ∧ transfer (io_srv (fst r)) = None ∧ committed io (fst r) ctx i s data ∧
    (bytes_in io request → bytes data).

Lemma untouched_refl io : untouched io io.
Proof. done. Qed.

Lemma reply_abort_untouched io0 io request ctx i s c :
  untouched io0 io → wlp (reply_abort io i s c) (commit_post io0 request ctx).
Proof.
  intros Hu. unfold reply_abort. rewrite encode_abort_eq. rstep. apply wlp_ret. by left.
Qed.

Lemma validate_and_commit_post io0 io request ctx i s data :
  (bytes_in io0 request → bytes data) → untouched io0 io → transfer (io_srv io) = None → at_ (io_resp io) 0 ≠ 0x80 →
  wlp (validate_and_commit EVT_QUEUE io ctx i s data) (commit_post io0 request ctx).
Proof.
  intros Hb (Hod & Hev & Hcw) Htr Hresp. unfold validate_and_commit.
  destruct (validate_download (io_od io) ctx i s data) as [[]|code] eqn:Hv.
  - unfold commit_write. destruct (od_write (io_od io) i s data) as [od [[]|e]] eqn:Hw;
      rewrite ?encode_sdo_abort_eq; rstep; apply wlp_ret; right; exists i, s, data;
      unfold committed; rewrite <- Hod, Hv, Hw, <- ?Hev, <- ?Hcw; simpl; split_and!; try done.
  - rewrite encode_sdo_abort_eq. rstep. apply wlp_ret. left. by split_and!.
Qed.

Ltac untouched_auto :=
  repeat first
    [ progress rstep | wlp_step
    | apply reply_abort_untouched; by split_and!
    | match goal with |- wlp (reply_abort _ _ _ _) _ => fail 1 end ];
  try (left; by split_and!).

Lemma handle_initiate_download_commit io request ctx :
  wlp (handle_initiate_download EVT_QUEUE io request ctx) (commit_post io request ctx).
Proof.
  unfold handle_initiate_download. destruct (parse_index_sub request) as [i s].
  case_match; [by apply reply_abort_untouched|]. case_match.
  - apply wlp_bind. intros n _. apply wlp_bind. intros data Hdata.
    eapply wlp_bind_use; [apply (validate_and_commit_post io _ request); [|done..]|].
    { intros [Hr _]. by eapply slice_bytes. }
    intros [io' ok] [Hu|(i'&s'&d&Hok&Htr&Hc&Hb)]; rstep; apply wlp_ret; [by left|].
    right. exists i', s', d. by split_and!.
  - case_match; [by apply reply_abort_untouched|]. apply wlp_ret. by left.
Qed.

Lemma handle_download_segment_commit io request ctx :
  wlp (handle_download_segment EVT_QUEUE io request ctx) (commit_post io request ctx).
Proof.
  unfold handle_download_segment.
  destruct (transfer (io_srv io)) as [[t|t|t]|] eqn:Et; try by apply reply_abort_untouched.
  case_decide; [|by apply reply_abort_untouched].
  case_match; [by apply reply_abort_untouched|]. apply wlp_bind. intros n _.
  case_match; [by apply reply_abort_untouched|].
  case_match; [by apply reply_abort_untouched|].
  apply wlp_bind. intros chunk Hchunk. apply wlp_bind. intros buf Hbuf.
  case_match; [|apply wlp_ret; by left].
  apply wlp_bind. intros data Hdata. apply validate_and_commit_post; [|done|done|].
  - intros [Hr Hb]. rewrite Et in Hb. eapply slice_bytes; [exact Hdata|]. eapply copy_bytes; [exact Hbuf|done|].
    by eapply slice_bytes.
  - by destruct (Z.land (at_ request 0) 16 =? 0).
Qed.

Lemma block_download_end_commit io request ctx :
  wlp (block_download_end EVT_QUEUE io request ctx) (commit_post io request ctx).
Proof.
  unfold block_download_end.
  destruct (transfer (io_srv io)) as [[t|t|t]|] eqn:Et; try by apply reply_abort_untouched.
  case_match; [by apply reply_abort_untouched|].
  apply wlp_bind. intros n _. apply wlp_bind. intros data Hdata.
  case_match; [by apply reply_abort_untouched|].
  case_match; [by apply reply_abort_untouched|].
  apply validate_and_commit_post; [|done..].
  intros [_ Hb]. rewrite Et in Hb. by eapply slice_bytes.
Qed.

Lemma reads_untouched io request now ctx :
  wlp (handle_initiate_upload io request now) (commit_post io request ctx) ∧
  wlp (handle_upload_segment io request now) (commit_post io request ctx) ∧
  wlp (handle_block_upload io request now) (commit_post io request ctx) ∧
  wlp (handle_block_download_segment io request now) (commit_post io request ctx) ∧
  wlp (block_download_initiate io request ctx) (commit_post io request ctx).
Proof.
  split_and!.
  - unfold handle_initiate_upload. untouched_auto.
  - unfold handle_upload_segment. untouched_auto.
  - unfold handle_block_upload, block_upload_initiate, block_upload_start, block_upload_ack.
    untouched_auto.
  - unfold handle_block_download_segment. untouched_auto.
  - unfold block_download_initiate. untouched_auto.
Qed.

Lemma dispatch_commit io request ctx :
  wlp (dispatch EVT_QUEUE io request ctx) (commit_post io request ctx).
Proof.
  destruct (reads_untouched io request (ctx_now_us ctx) ctx) as (?&?&?&?&?).
  unfold dispatch. case_match; [done|]. case_match; [done|].
  case_match; [apply handle_initiate_download_commit|].
  case_match; [apply handle_download_segment_commit|].
  case_match; [done|]. case_match.
  { unfold handle_block_download. case_match; [done|].
    case_match; [apply block_download_end_commit|by apply reply_abort_untouched]. }
  case_match; [apply wlp_ret; by left|].
  destruct (parse_index_sub request). by apply reply_abort_untouched.
Qed.

Lemma process_commit io request ctx :
  wlp (process_with_context EVT_QUEUE io request ctx) (commit_post io request ctx).
Proof.
  unfold process_with_context. case_match.
  - apply (reads_untouched io request (ctx_now_us ctx) ctx).
  - eapply wlp_bind_use; [apply dispatch_commit|].
    intros [io1 ok1] [Hu|(i&s&d&Hok&Htr&Hc&Hb)]; rstep; apply wlp_ret.
    + left. simpl in *. by case_match.
    + right. exists i, s, d. simpl in *. by case_match.
Qed.

(** C5. The commit contract of every request: either dictionary, event queue
    and commit signal are exactly as before, or the dictionary took exactly
    one write, of data that passed [validate_download] against the dictionary
    as it was, the transfer is over, and the outcome is reported both ways: on
    success one [Sdo] event, the commit signal and a non-abort response; on
    failure the abort frame with the code of that error and no event. *)
Theorem od_changes_only_by_validated_write io request ctx io' ok :
  process_with_context EVT_QUEUE io request ctx = Ret (io', ok) →
  untouched io io' ∨
  ∃ i s data, ok = true ∧ transfer (io_srv io') = None ∧ committed io io' ctx i s data.
Proof.
  intros Hp. destruct (process_commit io request ctx _ Hp) as [Hu|(i & s & d & ? & ? & ? & _)]; [by left|].
  right. by exists i, s, d.
Qed.

End spec.

(** The request used as an instance: an expedited write of [u32] 0x2001. *)
Definition demo_write : list Z := [0x23; 0x01; 0x20; 0x00; 9; 8; 7; 6].

Definition demo_io : Io TableOd := mkIo SdoServerState.new demo_od (zeros 8) [].

Definition demo_io' : Io TableOd :=
  mkIo (mkSrv None (Some (0x2001, 0))) (fst (od_write demo_od 0x2001 0 [9; 8; 7; 6]))
    [0x60; 0x01; 0x20; 0x00; 0; 0; 0; 0] [mkEvent 0x2001 0 SrcSdo].

Lemma od_changes_only_by_validated_write_witness :
  process_with_context 4 demo_io demo_write (demo_ctx Operational) = Ret (demo_io', true) ∧
  (untouched demo_io demo_io' ∨
   ∃ i s data, true = true ∧ transfer (io_srv demo_io') = None ∧
     committed 4 demo_io demo_io' (demo_ctx Operational) i s data).
Proof.
  split; [vm_compute; reflexivity|].
  apply (od_changes_only_by_validated_write 4 demo_io demo_write (demo_ctx Operational)).
  vm_compute. reflexivity.
Defined.

Section aborts.
Context {OD : Type} `{ObjectDictionary OD} (EVT_QUEUE : nat).

Implicit Types (io : Io OD) (ctx : SdoContext).

Definition abort_post (r : Io OD * bool) : Prop :=
  snd r = true → at_ (io_resp (fst r)) 0 = 0x80 → transfer (io_srv (fst r)) = None.

Lemma block_segment_abort io request now :
  wlp (handle_block_download_segment io request now)
    (λ r, receiving_block (io_srv io) request = true → abort_post r).
Proof.
  unfold handle_block_download_segment, receiving_block.
  destruct (transfer (io_srv io)) as [[t|t|t]|] eqn:Et;
    try (intros r _ [=]; fail); try (intros r _ ?; discriminate).
  unfold reply_abort.
  repeat first [progress rstep | wlp_step | rewrite encode_abort_eq]; intros _ ?; try done.
Qed.

(** Whenever the server answers with an abort frame, the channel has no
    transfer left: an error reported to the client never leaves a stale
    transfer that a later segment could resume. *)
Theorem abort_reply_ends_transfer io request ctx io' :
  process_with_context EVT_QUEUE io request ctx = Ret (io', true) →
  at_ (io_resp io') 0 = 0x80 → transfer (io_srv io') = None.
Proof.
  intros Hp Hr. unfold process_with_context in Hp.
  destruct (receiving_block (io_srv io) request) eqn:Eb.
  - pose proof (block_segment_abort io request (ctx_now_us ctx) _ Hp Eb) as Hpost. by apply Hpost.
  - apply bind_Ret_inv in Hp as ([io1 ok1] & _ & Hp). injection Hp as <- ->. simpl in *.
    destruct (at_ (io_resp io1) 0 =? 0x80) eqn:E; [done|]. apply Z.eqb_neq in E. done.
Qed.

(** ** The Operational lock *)

(** Requests that start a download: expedited, segmented or block. *)
Definition starts_download (request : list Z) : bool :=
  (command_specifier (at_ request 0) =? Ccs.InitiateDownload)
  || ((command_specifier (at_ request 0) =? Ccs.BlockDownload)
      && (Z.land (at_ request 0) 0x01 =? 0)).

Definition with_state ctx (s : NmtState) : SdoContext :=
  mkCtx s (ctx_now_us ctx) (heartbeat_consumer_count ctx) (cob_ids ctx)
    (reserved_cob_ids ctx) (sync_cob_id ctx).

Lemma command_specifier_cases (b : Z) :
  command_specifier b = Ccs.InitiateDownload ∨ command_specifier b = Ccs.BlockDownload →
  command_specifier b ≠ Ccs.InitiateUpload ∧ command_specifier b ≠ Ccs.UploadSegment ∧
  command_specifier b ≠ Ccs.DownloadSegment ∧ command_specifier b ≠ Ccs.BlockUpload.
Proof. by intros [-> | ->]. Qed.

(** In Operational, a request that starts a download of a PDO parameter
    (0x1400 to 0x1BFF) is refused with 0x0800_0022 on every path, expedited,
    segmented and block, and changes neither dictionary nor events. *)
Theorem operational_refuses_pdo_download io request ctx (i s : Z) :
  receiving_block (io_srv io) request = false →
  starts_download request = true →
  parse_index_sub request = (i, s) → is_pdo_config_index i = true →
  ctx_nmt_state ctx = Operational →
  process_with_context EVT_QUEUE io request ctx =
  Ret (respond (set_transfer io None) (abort_frame i s (AbortCode.to_u32 DataTransferDeviceState)),
       true).
Proof.
  intros Hrb Hst Hpi Hidx Hnmt. unfold process_with_context. rewrite Hrb.
  assert (dispatch EVT_QUEUE io request ctx =
    Ret (respond io (abort_frame i s (AbortCode.to_u32 DataTransferDeviceState)), true)) as ->;
    [|reflexivity].
  unfold starts_download in Hst. unfold dispatch.
  destruct (Z.eqb_spec (command_specifier (at_ request 0)) Ccs.InitiateDownload) as [Hcs|Hcs].
  - rewrite Hcs. cbn. unfold handle_initiate_download. rewrite Hpi, Hnmt, Hidx. reflexivity.
  - simpl in Hst. apply andb_true_iff in Hst as [Hb Hsub]. apply Z.eqb_eq in Hb. rewrite Hb.
    cbn -[handle_block_download]. unfold handle_block_download. rewrite Hsub.
    unfold block_download_initiate. rewrite Hpi, Hnmt, Hidx. reflexivity.
Qed.

(** The lock looks at the NMT state only when a download starts: for every
    other request, the final segment that commits a segmented or block
    download included, the outcome is the same in every NMT state.  A PDO
    parameter download started in Pre-Operational is therefore committed
    although the node has become Operational meanwhile. *)
Theorem running_download_ignores_nmt_state io request ctx (s1 s2 : NmtState) :
  starts_download request = false →
  process_with_context EVT_QUEUE io request (with_state ctx s1) =
  process_with_context EVT_QUEUE io request (with_state ctx s2).
Proof.
  intros Hst. unfold process_with_context. case_match; [done|].
  assert (dispatch EVT_QUEUE io request (with_state ctx s1) =
          dispatch EVT_QUEUE io request (with_state ctx s2)) as ->; [|done].
  unfold starts_download in Hst. apply orb_false_iff in Hst as [Hini Hblk]. unfold dispatch.
  rewrite Hini. repeat (case_match; [done|]).
  destruct (command_specifier (at_ request 0) =? Ccs.BlockDownload); [|done].
  simpl in Hblk. unfold handle_block_download. by rewrite Hblk.
Qed.

(** ** Timeouts *)

Definition activity_post io (now : Z) (r : Io OD * bool) : Prop :=
  transfer (io_srv (fst r)) = None ∨ transfer (io_srv (fst r)) = transfer (io_srv io) ∨
  ∃ t, transfer (io_srv (fst r)) = Some t ∧ TransferState.last_activity_us t = now.

Lemma commit_transfer io i s data :
  wlp (commit_write EVT_QUEUE io i s data) (λ r, transfer (io_srv (fst r)) = transfer (io_srv io)).
Proof.
  unfold commit_write. destruct (od_write (io_od io) i s data) as [od [[]|e]];
    rewrite ?encode_sdo_abort_eq; rstep; by apply wlp_ret.
Qed.

Lemma validate_and_commit_transfer io ctx i s data :
  wlp (validate_and_commit EVT_QUEUE io ctx i s data)
    (λ r, transfer (io_srv (fst r)) = transfer (io_srv io)).
Proof.
  unfold validate_and_commit. case_match; [apply commit_transfer|].
  rewrite encode_sdo_abort_eq. rstep. by apply wlp_ret.
Qed.

Ltac activity_auto :=
  repeat first [ progress rstep | rewrite encode_abort_eq | rewrite encode_sdo_abort_eq
    | eapply wlp_mono; [apply validate_and_commit_transfer|]; intros ? ? | wlp_step ];
  try (unfold activity_post in *; simpl in *; repeat case_match;
       first [ by left | by right; left | right; right; eexists; split; [reflexivity|reflexivity]
             | left; congruence ]).

Lemma dispatch_activity io request ctx :
  wlp (dispatch EVT_QUEUE io request ctx) (activity_post io (ctx_now_us ctx)).
Proof.
  unfold dispatch, handle_initiate_upload, handle_upload_segment, handle_initiate_download,
    handle_download_segment, handle_block_upload, block_upload_initiate, block_upload_start,
    block_upload_ack, handle_block_download, block_download_initiate, block_download_end,
    reply_abort.
  activity_auto.
Qed.

Lemma block_segment_activity io request now :
  wlp (handle_block_download_segment io request now) (activity_post io now).
Proof. unfold handle_block_download_segment, reply_abort. activity_auto. Qed.

(** Every request either ends the transfer, leaves it untouched, or stamps
    it with the request's time, and [check_timeout] ends a transfer exactly
    when that stamp is at least 5 s old (on the wrapping 64-bit clock), with
    the timeout abort for the transfer's own object; otherwise it changes
    nothing. *)
Theorem timeout_only_after_silence io request ctx io' ok (now : Z) :
  process_with_context EVT_QUEUE io request ctx = Ret (io', ok) →
  activity_post io (ctx_now_us ctx) (io', ok) ∧
  SdoPoll.check_timeout (io_srv io') now = Ret (
    match transfer (io_srv io') with
    | Some t =>
        if SDO_TIMEOUT_US <=? wrapping_sub 64 now (TransferState.last_activity_us t) then
          (mkSrv None (committed_write (io_srv io')),
           Some (abort_frame (fst (TransferState.index_sub t)) (snd (TransferState.index_sub t))
                   (AbortCode.to_u32 SdoProtocolTimeout)))
        else (io_srv io', None)
    | None => (io_srv io', None)
    end).
Proof.
  intros Hp. split.
  - enough (wlp (process_with_context EVT_QUEUE io request ctx)
              (activity_post io (ctx_now_us ctx))) as Hw by exact (Hw _ Hp).
    unfold process_with_context. case_match; [apply block_segment_activity|].
    eapply wlp_bind_use; [apply dispatch_activity|]. intros [io1 ok1] Ha. rstep. apply wlp_ret.
    unfold activity_post in *. simpl in *. case_match; [by left|done].
  - unfold SdoPoll.check_timeout. destruct (transfer (io_srv io')) as [t|]; [|done].
    case_match; [|done]. rstep. by destruct (TransferState.index_sub t).
Qed.
End aborts.

(** ** Instances *)

(** A segmented download of 0x1400:01 is announced in Pre-Operational ... *)
Definition lock_io : Io TableOd := demo_io.
Definition lock_announce : list Z := [0x21; 0x00; 0x14; 0x01; 4; 0; 0; 0].
Definition lock_final : list Z := [0x07; 0x01; 0x02; 0x00; 0x00; 0; 0; 0].
Definition lock_io1 : Io TableOd :=
  match process_with_context 4 lock_io lock_announce (demo_ctx PreOperational) with
  | Ret (io, _) => io
  | Panic => lock_io
  end.

(** ... and its only segment is committed in Operational: the parameter changes. *)
Lemma running_download_ignores_nmt_state_witness :
  starts_download lock_final = false ∧
  process_with_context 4 lock_io1 lock_final (with_state (demo_ctx PreOperational) Operational) =
  process_with_context 4 lock_io1 lock_final (with_state (demo_ctx PreOperational) PreOperational) ∧
  (∃ io', process_with_context 4 lock_io1 lock_final (demo_ctx Operational) = Ret (io', true) ∧
     committed_write (io_srv io') = Some (0x1400, 1) ∧
     option_map te_value (table_find (io_od io') 0x1400 1) = Some [0x01; 0x02; 0x00; 0x00]).
Proof.
  split; [reflexivity|]. split.
  - exact (running_download_ignores_nmt_state 4 lock_io1 lock_final (demo_ctx PreOperational)
             Operational PreOperational eq_refl).
  - eexists. split; [vm_compute; reflexivity|]. split; reflexivity.
Defined.

Lemma operational_refuses_pdo_download_witness :
  starts_download lock_announce = true ∧
  process_with_context 4 lock_io lock_announce (demo_ctx Operational) =
  Ret (respond (set_transfer lock_io None)
         (abort_frame 0x1400 1 (AbortCode.to_u32 DataTransferDeviceState)), true).
Proof.
  split; [reflexivity|].
  exact (operational_refuses_pdo_download 4 lock_io lock_announce (demo_ctx Operational)
           0x1400 1 eq_refl eq_refl eq_refl eq_refl eq_refl).
Defined.

Definition lock_refused : Io TableOd :=
  respond (set_transfer lock_io1 None)
    (abort_frame 0x1400 1 (AbortCode.to_u32 ToggleBitNotAlternated)).

Lemma abort_reply_ends_transfer_witness :
  process_with_context 4 lock_io1 [0x17; 1; 2; 3; 4; 0; 0; 0] (demo_ctx Operational) =
    Ret (lock_refused, true) ∧
  transfer (io_srv lock_refused) = None.
Proof.
  split; [vm_compute; reflexivity|].
  apply (abort_reply_ends_transfer 4 lock_io1 [0x17; 1; 2; 3; 4; 0; 0; 0] (demo_ctx Operational)).
  - vm_compute. reflexivity.
  - reflexivity.
Defined.

Lemma timeout_only_after_silence_witness :
  process_with_context 4 lock_io lock_announce (demo_ctx PreOperational) = Ret (lock_io1, true) ∧
  activity_post lock_io 0 (lock_io1, true) ∧
  SdoPoll.check_timeout (io_srv lock_io1) 5000000 =
    Ret (mkSrv None None, Some (abort_frame 0x1400 1 0x05040000)).
Proof.
  assert (process_with_context 4 lock_io lock_announce (demo_ctx PreOperational)
          = Ret (lock_io1, true)) as Hp by (vm_compute; reflexivity).
  destruct (timeout_only_after_silence 4 lock_io lock_announce (demo_ctx PreOperational)
              lock_io1 true 5000000 Hp) as [Ha Ht].
  split; [exact Hp|]. split; [exact Ha|]. rewrite Ht. vm_compute. reflexivity.
Defined.
