(* ===== verification/SdoClient.v ===== *)
(** * The SDO client

    [canopen-core/src/sdo/client.rs]: [SdoClient<BUF>], one expedited or
    segmented transfer at a time.  Each method takes the client and returns the
    new client with its result; slicing and [unwrap] go through [exec]. *)
From S2P Require Import Prelude Frame Nmt Od SdoProtocol.

Inductive SdoClientResult :=
| UploadComplete (data_len : Z)
| DownloadComplete
| SendNext (frame : CanFrame)
| Aborted (code : Z)
| IgnoredAbort
| ProtocolViolation.

Inductive State :=
| Idle
| WaitingUploadInitResponse (index subindex : Z)
| UploadSegmented (index subindex : Z) (toggle : bool)
| WaitingDownloadInitResponse (index subindex : Z)
| DownloadSegmented (index subindex : Z) (toggle : bool).

Record SdoClient := mkClient {
  target_node : Z;
  cl_state : State;
  cl_buf : list Z;
  cl_offset : Z;
  cl_total_len : Z;
  upload_len : option Z;
  upload_size_indicated : bool;
}.

Definition set_state (c : SdoClient) (s : State) : SdoClient :=
  mkClient (target_node c) s (cl_buf c) (cl_offset c) (cl_total_len c) (upload_len c)
    (upload_size_indicated c).

Definition set_offset (c : SdoClient) (o : Z) : SdoClient :=
  mkClient (target_node c) (cl_state c) (cl_buf c) o (cl_total_len c) (upload_len c)
    (upload_size_indicated c).

Section client.
Context (BUF : Z).

Definition new (target : Z) : SdoClient :=
  mkClient target Idle (zeros BUF) 0 0 None false.

Definition data (c : SdoClient) : exec (list Z) := slice (cl_buf c) 0 (cl_offset c).

Definition tx_cobid (c : SdoClient) : Z := CobId.sdo_rx (target_node c).

Definition request_frame (c : SdoClient) (data : list Z) : exec CanFrame :=
  unwrap (CanFrame.new (tx_cobid c) data).

Definition start_upload (c : SdoClient) (index subindex : Z) : exec (SdoClient * CanFrame) :=
  let c := mkClient (target_node c) (WaitingUploadInitResponse index subindex) (cl_buf c) 0 0
             None false in
  let d := put_index (set_at (zeros 8) 0 (shl8 Ccs.InitiateUpload 5)) index subindex in
  f ← request_frame c d;
  mret (c, f).

Definition start_download (c : SdoClient) (index subindex : Z) (value : list Z)
    : exec (SdoClient * result CanFrame unit) :=
  if negb (len value =? 0) && (len value <=? 4) then
    let c := mkClient (target_node c) (WaitingDownloadInitResponse index subindex) (cl_buf c)
               (cl_offset c) (len value) (upload_len c) (upload_size_indicated c) in
    n ← usub 4 (len value);
    let d := set_at (zeros 8) 0
      (Z.lor (Z.lor (Z.lor (shl8 Ccs.InitiateDownload 5) (shl8 (as_u8 n) 2)) 0x02) 0x01) in
    let d := put_index d index subindex in
    d ← copy_from_slice d 4 (4 + len value) value;
    f ← request_frame c d;
    mret (c, Ok f)
  else if BUF <? len value then
    mret (mkClient (target_node c) Idle (cl_buf c) 0 0 (upload_len c) (upload_size_indicated c),
          Err tt)
  else
    buf ← copy_from_slice (cl_buf c) 0 (len value) value;
    let c := mkClient (target_node c) (WaitingDownloadInitResponse index subindex) buf 0
               (len value) (upload_len c) (upload_size_indicated c) in
    let d := set_at (zeros 8) 0 (Z.lor (shl8 Ccs.InitiateDownload 5) 0x01) in
    let d := put_index d index subindex in
    d ← copy_from_slice d 4 8 (to_le_bytes 4 (as_u32 (len value)));
    f ← request_frame c d;
    mret (c, Ok f).

Definition make_upload_segment_request (c : SdoClient) (toggle : bool) : exec CanFrame :=
  request_frame c
    (set_at (zeros 8) 0 (Z.lor (shl8 Ccs.UploadSegment 5) (if toggle then 0x10 else 0))).

Definition make_download_segment (c : SdoClient) (toggle : bool) : exec (SdoClient * CanFrame) :=
  remaining ← usub (cl_total_len c) (cl_offset c);
  let seg_len := Z.min remaining 7 in
  let last := remaining <=? 7 in
  n ← usub 7 seg_len;
  let d := set_at (zeros 8) 0
    (Z.lor (Z.lor (Z.lor (shl8 Ccs.DownloadSegment 5) (if toggle then 0x10 else 0))
                  (shl8 (as_u8 n) 1))
           (if last then 0x01 else 0)) in
  chunk ← slice (cl_buf c) (cl_offset c) (cl_offset c + seg_len);
  d ← copy_from_slice d 1 (1 + seg_len) chunk;
  let c := set_offset c (cl_offset c + seg_len) in
  f ← request_frame c d;
  mret (c, f).

Definition response_u32 (response : list Z) : Z :=
  from_le_bytes [at_ response 4; at_ response 5; at_ response 6; at_ response 7].

Definition handle_upload_init_response (c : SdoClient) (index subindex : Z) (response : list Z)
    : exec (SdoClient * SdoClientResult) :=
  let expedited := negb (Z.land (at_ response 0) 0x02 =? 0) in
  let size_indicated := negb (Z.land (at_ response 0) 0x01 =? 0) in
  if expedited then
    let n := if size_indicated then Z.land (Z.shiftr (at_ response 0) 2) 0x03 else 0 in
    data_len ← usub 4 n;
    if BUF <? data_len then mret (set_state c Idle, ProtocolViolation)
    else
      chunk ← slice response 4 (4 + data_len);
      buf ← copy_from_slice (cl_buf c) 0 data_len chunk;
      mret (mkClient (target_node c) Idle buf data_len (cl_total_len c) (upload_len c)
              size_indicated, UploadComplete data_len)
  else
    let ul := if size_indicated then Some (response_u32 response) else None in
    let too_long := match ul with Some l => BUF <? l | None => false end in
    if too_long then
      mret (mkClient (target_node c) Idle (cl_buf c) (cl_offset c) (cl_total_len c) ul
              size_indicated, ProtocolViolation)
    else
      let c := mkClient (target_node c) (UploadSegmented index subindex false) (cl_buf c) 0
                 (cl_total_len c) ul size_indicated in
      f ← make_upload_segment_request c false;
      mret (c, SendNext f).

Definition handle_upload_segment_response (c : SdoClient) (index subindex : Z)
    (expected_toggle : bool) (response : list Z) : exec (SdoClient * SdoClientResult) :=
  let server_toggle := negb (Z.land (at_ response 0) 0x10 =? 0) in
  if negb (Bool.eqb server_toggle expected_toggle) then
    mret (set_state c Idle, ProtocolViolation)
  else
    let n := Z.land (Z.shiftr (at_ response 0) 1) 0x07 in
    let last := negb (Z.land (at_ response 0) 0x01 =? 0) in
    seg_len ← usub 7 n;
    let received := cl_offset c + seg_len in
    if (BUF <? received)
       || match upload_len c with
          | Some l => (l <? received) || (last && negb (received =? l))
          | None => false
          end
    then mret (set_state c Idle, ProtocolViolation)
    else
      chunk ← slice response 1 (1 + seg_len);
      buf ← copy_from_slice (cl_buf c) (cl_offset c) (cl_offset c + seg_len) chunk;
      let c' s := mkClient (target_node c) s buf (cl_offset c + seg_len) (cl_total_len c)
                    (upload_len c) (upload_size_indicated c) in
      if last then mret (c' Idle, UploadComplete (cl_offset c + seg_len))
      else
        let new_toggle := negb expected_toggle in
        let c := c' (UploadSegmented index subindex new_toggle) in
        f ← make_upload_segment_request c new_toggle;
        mret (c, SendNext f).

Definition handle_download_init_response (c : SdoClient) (index subindex : Z)
    : exec (SdoClient * SdoClientResult) :=
  if (0 <? cl_total_len c) && (cl_total_len c <=? 4) then
    mret (set_state c Idle, DownloadComplete)
  else
    '(c, f) ← make_download_segment (set_state c (DownloadSegmented index subindex false)) false;
    mret (c, SendNext f).

Definition handle_download_segment_response (c : SdoClient) (index subindex : Z)
    (expected_toggle : bool) (response : list Z) : exec (SdoClient * SdoClientResult) :=
  let server_toggle := negb (Z.land (at_ response 0) 0x10 =? 0) in
  if negb (Bool.eqb server_toggle expected_toggle) then
    mret (set_state c Idle, ProtocolViolation)
  else if cl_total_len c <=? cl_offset c then
    mret (set_state c Idle, DownloadComplete)
  else
    let new_toggle := negb expected_toggle in
    '(c, f) ← make_download_segment (set_state c (DownloadSegmented index subindex new_toggle))
                new_toggle;
    mret (c, SendNext f).

(** The object of the transfer in progress. *)
Definition active (s : State) : option (Z * Z) :=
  match s with
  | Idle => None
  | WaitingUploadInitResponse i s | WaitingDownloadInitResponse i s => Some (i, s)
  | UploadSegmented i s _ | DownloadSegmented i s _ => Some (i, s)
  end.

(** [u16::from_le_bytes([response[1], response[2]])] *)
Definition response_index (response : list Z) : Z :=
  from_le_bytes [at_ response 1; at_ response 2].

Definition process_response (c : SdoClient) (response : list Z)
    : exec (SdoClient * SdoClientResult) :=
  let cs := command_specifier (at_ response 0) in
  if cs =? Scs.AbortTransfer then
    let abort_index := response_index response in
    let abort_sub := at_ response 3 in
    let ignored :=
      match active (cl_state c) with
      | Some (index, subindex) =>
          let channel_level := (abort_index =? 0) && (abort_sub =? 0) in
          negb channel_level && negb ((abort_index =? index) && (abort_sub =? subindex))
      | None => false
      end in
    if ignored then mret (c, IgnoredAbort)
    else mret (set_state c Idle, Aborted (response_u32 response))
  else
    match cl_state c with
    | Idle => mret (c, ProtocolViolation)
    | WaitingUploadInitResponse index subindex =>
        if negb (cs =? Scs.InitiateUploadResponse) || negb (response_index response =? index)
           || negb (at_ response 3 =? subindex)
        then mret (set_state c Idle, ProtocolViolation)
        else handle_upload_init_response c index subindex response
    | UploadSegmented index subindex toggle =>
        if negb (cs =? Scs.UploadSegmentResponse)
        then mret (set_state c Idle, ProtocolViolation)
        else handle_upload_segment_response c index subindex toggle response
    | WaitingDownloadInitResponse index subindex =>
        if negb (cs =? Scs.InitiateDownloadResponse) || negb (response_index response =? index)
           || negb (at_ response 3 =? subindex)
        then mret (set_state c Idle, ProtocolViolation)
        else handle_download_init_response c index subindex
    | DownloadSegmented index subindex toggle =>
        if negb (cs =? Scs.DownloadSegmentResponse)
        then mret (set_state c Idle, ProtocolViolation)
        else handle_download_segment_response c index subindex toggle response
    end.

End client.
