(* ===== verification/SdoClientSafe.v ===== *)
(** * The SDO client never panics

    The invariant of [SdoClient<BUF>] between two calls, for any buffer size:
    what every method of sdo/client.rs preserves, whatever eight bytes a server
    answers, and why none of its slices and subtractions can fail. *)
From S2P Require Import Prelude Frame Nmt Od SdoProtocol SdoServer SdoServerSafe SdoClient.

(** Requests to send and results to act on. *)
Definition request_to (node : Z) (f : CanFrame) : Prop :=
  wf_frame f ∧ CanFrame.raw_id f = CobId.sdo_rx node ∧ CanFrame.raw_dlc f = 8.

Section safe.
Context (BUF : Z).
Hypothesis buf_nonneg : 0 ≤ BUF.
Implicit Types (c : SdoClient) (response : list Z).

(** The object of a transfer comes from [start_upload] or [start_download]. *)
Definition active_ok (o : option (Z * Z)) : Prop :=
  match o with Some (i, s) => is_u16 i ∧ is_u8 s | None => True end.

Definition state_ok c : Prop :=
  match cl_state c with
  | WaitingDownloadInitResponse _ _ =>
      0 ≤ cl_total_len c ≤ BUF ∧ cl_offset c ≤ cl_total_len c ∨ 1 ≤ cl_total_len c ≤ 4
  | DownloadSegmented _ _ _ => cl_offset c ≤ cl_total_len c ≤ BUF
  | Idle | WaitingUploadInitResponse _ _ | UploadSegmented _ _ _ => True
  end.

Definition client_ok c : Prop :=
  wf_node (target_node c) ∧ array BUF (cl_buf c) ∧ 0 ≤ cl_offset c ≤ BUF ∧
  active_ok (active (cl_state c)) ∧ state_ok c.

(** What a step of the client with node [n] leaves. *)
Definition next_ok (n : Z) (c : SdoClient) : Prop := client_ok c ∧ target_node c = n.

Definition step_post (n : Z) (r : SdoClient * SdoClientResult) : Prop :=
  next_ok n (fst r) ∧
  match snd r with
  | SendNext f => request_to n f
  | UploadComplete l => l = cl_offset (fst r)
  | Aborted code => is_u32 code
  | _ => True
  end.

Lemma new_ok n : wf_node n → next_ok n (new BUF n).
Proof. intros Hn. split; [|done]. split; [done|]. split; [by apply array_zeros|].
  split; [simpl; lia|done]. Qed.

Lemma request_frame_ok c d :
  wf_node (target_node c) → array 8 d → runs (request_frame c d) (request_to (target_node c)).
Proof.
  intros Hn [Hl Hb]. unfold request_frame, tx_cobid. unfold wf_node in Hn.
  destruct (CanFrame.new _ d) as [f|] eqn:Hf.
  - rstep. pose proof Hf as Hf'. unfold CanFrame.new in Hf'. case_match; [done|]. injection Hf' as <-.
    split; [|split; [done|simpl; by rewrite Hl]].
    eapply CanFrame_new_wf; [|exact Hb|exact Hf]. unfold CobId.sdo_rx. lia.
  - unfold CanFrame.new in Hf. rewrite Hl in Hf. unfold CobId.sdo_rx in Hf.
    rewrite (proj2 (Z.ltb_ge _ _)) in Hf by lia. done.
Qed.

(** A state change that keeps the invariant. *)
Lemma set_state_ok c s :
  client_ok c → active_ok (active s) → state_ok (set_state c s) → client_ok (set_state c s).
Proof. intros (Hn & Hb & Ho & _ & _) Ha Hs. exact (conj Hn (conj Hb (conj Ho (conj Ha Hs)))). Qed.

Lemma idle_ok c : client_ok c → next_ok (target_node c) (set_state c Idle).
Proof. intros Hc. split; [|done]. by apply set_state_ok. Qed.

Lemma shl8_u8 x n : is_u8 (shl8 x n).
Proof. apply as_u8_u8. Qed.

Lemma put_index_array d i s : array 8 d → is_u8 s → array 8 (put_index d i s).
Proof. intros. unfold put_index. by repeat (apply array_set; [|try apply as_u8_u8; done]). Qed.

Lemma upload_request_ok c toggle :
  wf_node (target_node c) → runs (make_upload_segment_request c toggle) (request_to (target_node c)).
Proof.
  intros Hn. apply request_frame_ok; [done|]. apply array_set; [by apply array_zeros|].
  apply lor_u8; [apply shl8_u8|]. by destruct toggle.
Qed.

Lemma download_segment_ok c toggle :
  client_ok c → cl_offset c ≤ cl_total_len c ≤ BUF →
  runs (make_download_segment c toggle) (λ r,
    ∃ o, fst r = set_offset c o ∧ cl_offset c ≤ o ≤ cl_total_len c ∧ request_to (target_node c) (snd r)).
Proof.
  intros (Hn & [Hl Hb] & Ho & _) Hle. unfold make_download_segment.
  rewrite usub_ret by lia. rstep. set (seg := Z.min _ 7).
  assert (0 ≤ seg ≤ 7 ∧ cl_offset c + seg ≤ cl_total_len c) as [Hs7 Hst] by (unfold seg; lia).
  rewrite usub_ret by lia. rstep.
  eapply runs_bind; [apply (array_slice BUF); [done|lia..]|]. intros chunk Hchunk.
  replace (cl_offset c + seg - cl_offset c) with seg in Hchunk by lia.
  eapply runs_bind.
  { apply (array_copy 8); [|lia..|by replace (1 + seg - 1) with seg by lia].
    apply array_set; [by apply array_zeros|].
    repeat (apply lor_u8; [|first [by case_match|apply shl8_u8]]). first [by case_match|apply shl8_u8]. }
  intros d Hd. eapply runs_bind; [by apply request_frame_ok|]. intros f Hf. apply runs_ret.
  exists (cl_offset c + seg). split; [done|]. split; [lia|done].
Qed.

Lemma violation_ok c : client_ok c → runs (mret (set_state c Idle, ProtocolViolation)) (step_post (target_node c)).
Proof. intros Hc. split; [by apply idle_ok|done]. Qed.

(** [make_download_segment] in a segmented download. *)
Lemma send_segment_ok c i s toggle :
  client_ok c → is_u16 i ∧ is_u8 s → cl_offset c ≤ cl_total_len c ≤ BUF →
  runs ('(c, f) ← make_download_segment (set_state c (DownloadSegmented i s toggle)) toggle; mret (c, SendNext f))
    (step_post (target_node c)).
Proof.
  intros Hc Ha Hle. assert (client_ok (set_state c (DownloadSegmented i s toggle))) as Hc' by (by apply set_state_ok).
  eapply runs_bind; [by apply download_segment_ok|]. intros [c2 f] (o & Hc2 & Ho & Hf). simpl in Hc2, Ho, Hf. subst c2.
  apply runs_ret. destruct Hc' as (Hn & Hb & Hoff & Hact & _).  simpl in Hoff.
  split; [|done]. split; [|done]. split; [done|]. split; [done|]. split; [simpl; lia|]. split; [done|].
  unfold state_ok. simpl. lia.
Qed.

Lemma with_buffer_ok c s buf o tl ul si :
  client_ok c → array BUF buf → 0 ≤ o ≤ BUF → active_ok (active s) →
  match s with UploadSegmented _ _ _ | Idle => True | _ => False end →
  next_ok (target_node c) (mkClient (target_node c) s buf o tl ul si).
Proof.
  intros (Hn & _) Hb Ho Ha Hs. split; [|done]. split; [done|]. split; [done|]. split; [done|].
  split; [done|]. unfold state_ok. by destruct s.
Qed.

Lemma handle_upload_init_ok c i s response :
  client_ok c → is_u16 i ∧ is_u8 s → array 8 response →
  runs (handle_upload_init_response BUF c i s response) (step_post (target_node c)).
Proof.
  intros Hc Ha Hr. unfold handle_upload_init_response. set (exped := negb _). set (ind := negb _).
  pose proof Hc as (Hn & Hb & Ho & _). destruct exped.
  - set (n := if ind then _ else 0). pose proof (field_bound (at_ response 0) 2 3 2 (at_u8 _ _ _ Hr) ltac:(lia) ltac:(lia) eq_refl) as Hf.
    assert (0 ≤ n ≤ 3) as Hn3 by (unfold n; destruct ind; lia).
    rewrite usub_ret by lia. rstep. destruct (Z.ltb_spec BUF (4 - n)); [by apply violation_ok|].
    eapply runs_bind; [apply (array_slice 8); [done|lia..]|]. intros chunk Hch.
    replace (4 + (4 - n) - 4) with (4 - n - 0) in Hch by lia.
    eapply runs_bind; [by apply (array_copy BUF); [|lia..|]|]. intros buf Hbuf. apply runs_ret.
    split; [|done]. apply with_buffer_ok; [done..|lia|done|done].
  - case_match.
    + split; [|done]. by apply with_buffer_ok.
    + set (c' := mkClient _ _ _ _ _ _ _).
      assert (next_ok (target_node c) c') as [Hc' Ht] by (apply with_buffer_ok; [done..|lia|done|done]).
      eapply runs_bind; [by apply upload_request_ok|]. intros f Hf. by apply runs_ret.
Qed.

Lemma handle_upload_segment_ok c i s toggle response :
  client_ok c → is_u16 i ∧ is_u8 s → array 8 response →
  runs (handle_upload_segment_response BUF c i s toggle response) (step_post (target_node c)).
Proof.
  intros Hc Ha Hr. unfold handle_upload_segment_response. set (last := negb (Z.land _ 1 =? 0)).
  pose proof Hc as (Hn & Hb & Ho & _). case_match; [by apply violation_ok|].
  pose proof (field_bound (at_ response 0) 1 7 3 (at_u8 _ _ _ Hr) ltac:(lia) ltac:(lia) eq_refl) as Hf.
  rewrite usub_ret by lia. rstep. set (n := Z.land _ 7) in *.
  destruct (Z.ltb_spec BUF (cl_offset c + (7 - n))); cbn [orb]; [by apply violation_ok|].
  destruct (match upload_len c with Some _ => _ | None => _ end); [by apply violation_ok|].
  eapply runs_bind; [apply (array_slice 8); [done|lia..]|]. intros chunk Hch.
  replace (1 + (7 - n) - 1) with (cl_offset c + (7 - n) - cl_offset c) in Hch by lia.
  eapply runs_bind; [by apply (array_copy BUF); [|lia..|]|]. intros buf Hbuf. destruct last.
  - apply runs_ret. split; [|done]. apply with_buffer_ok; [done..|lia|done|done].
  - set (c' := mkClient _ _ _ _ _ _ _).
    assert (next_ok (target_node c) c') as [Hc' Ht] by (apply with_buffer_ok; [done..|lia|done|done]).
    eapply runs_bind; [by apply upload_request_ok|]. intros f Hf'. by apply runs_ret.
Qed.

Lemma process_response_ok c response :
  client_ok c → array 8 response →
  runs (process_response BUF c response) (step_post (target_node c)).
Proof.
  intros Hc Hr. pose proof Hc as (Hn & Hb & Ho & Ha & Hs). unfold process_response.
  case_match.
  { case_match; apply runs_ret; [done|]. split; [by apply idle_ok|]. simpl. unfold response_u32.
    unfold is_uint. change (2 ^ 32) with (256 ^ len [at_ response 4; at_ response 5; at_ response 6; at_ response 7]).
    apply from_le_range. repeat (apply List.Forall_cons; [by eapply at_u8|]). apply List.Forall_nil. }
  unfold state_ok in Hs. destruct (cl_state c) as [|i s|i s t|i s|i s t] eqn:Hst; cbn [active active_ok] in Ha.
  - by apply runs_ret.
  - case_match; [by apply violation_ok|by apply handle_upload_init_ok].
  - case_match; [by apply violation_ok|by apply handle_upload_segment_ok].
  - case_match; [by apply violation_ok|]. unfold handle_download_init_response.
    destruct (Z.ltb_spec 0 (cl_total_len c)), (Z.leb_spec (cl_total_len c) 4); cbn [andb];
      try (apply send_segment_ok; [done..|lia]). apply runs_ret. split; [by apply idle_ok|done].
  - case_match; [by apply violation_ok|]. unfold handle_download_segment_response.
    case_match; [by apply violation_ok|].
    case_match; [apply runs_ret; split; [by apply idle_ok|done]|]. by apply send_segment_ok.
Qed.

Lemma start_upload_ok c i s :
  client_ok c → is_u16 i → is_u8 s →
  runs (start_upload c i s) (λ r, next_ok (target_node c) (fst r) ∧ request_to (target_node c) (snd r)).
Proof.
  intros (Hn & Hb & _) Hi Hs. unfold start_upload. set (c' := mkClient _ _ _ _ _ _ _).
  eapply runs_bind.
  { apply request_frame_ok; [exact Hn|]. apply put_index_array; [|done].
    apply array_set; [by apply array_zeros|apply shl8_u8]. }
  intros f Hf. apply runs_ret. split; [|done]. split; [|done].
  split; [done|]. split; [done|]. split; [simpl; lia|done].
Qed.

(** Refused exactly when the value is neither expedited nor fits the buffer. *)
Lemma start_download_ok c i s value :
  client_ok c → is_u16 i → is_u8 s → bytes value →
  runs (start_download BUF c i s value) (λ r,
    next_ok (target_node c) (fst r) ∧
    match snd r with
    | Ok f => request_to (target_node c) f ∧ (len value ≤ 4 ∨ len value ≤ BUF)
    | Err _ => Z.max 4 BUF < len value
    end).
Proof.
  intros (Hn & Hb & Ho & _) Hi Hs Hv. unfold start_download.
  destruct (Z.eqb_spec (len value) 0), (Z.leb_spec (len value) 4); cbn [negb andb];
    [destruct (Z.ltb_spec BUF (len value)); [lia|]|lia| |destruct (Z.ltb_spec BUF (len value))].
  2: { set (c' := mkClient _ _ _ _ _ _ _). rewrite usub_ret by lia. rstep. eapply runs_bind.
    { apply (array_copy 8); [|lia..|split; [lia|done]]. apply put_index_array; [|done].
      apply array_set; [by apply array_zeros|]. repeat (apply lor_u8; [|done]). apply lor_u8; apply shl8_u8. }
    intros d Hd. eapply runs_bind; [by apply request_frame_ok|]. intros f Hf. apply runs_ret.
    split; [|by split; [|left]]. split; [|done]. split; [done|]. split; [done|]. split; [done|]. split; [done|].
    unfold state_ok. simpl. lia. }
  2: { apply runs_ret. split; [|simpl; lia]. split; [|done]. split; [done|]. split; [done|]. split; [simpl; lia|done]. }
  all: eapply runs_bind; [apply (array_copy BUF); [done|lia..|split; [lia|done]]|]; intros buf Hbuf;
    eapply runs_bind;
    [apply (array_copy 8 _ 4 8);
      [apply put_index_array; [apply array_set; [by apply array_zeros|apply lor_u8; [apply shl8_u8|done]]|done]
      |lia..|apply (to_le_array 4)]|];
    intros d Hd; (eapply runs_bind; [by apply request_frame_ok|]); intros f Hf; apply runs_ret;
    (split; [|by split; [|right]]); (split; [|done]); (split; [done|]); (split; [done|]); (split; [simpl; lia|]);
    (split; [done|]); unfold state_ok; simpl; lia.
Qed.

Lemma data_ok c : client_ok c → runs (data c) (array (cl_offset c)).
Proof.
  intros (Hn & Hb & Ho & _). unfold data. replace (cl_offset c) with (cl_offset c - 0) at 2 by lia.
  by apply (array_slice BUF); [|lia..].
Qed.

(** ** Any use of a client *)

Inductive client_op :=
| StartUpload (index subindex : Z)
| StartDownload (index subindex : Z) (value : list Z)
| Respond (response : list Z).

Definition op_wf (o : client_op) : Prop :=
  match o with
  | StartUpload i s => is_u16 i ∧ is_u8 s
  | StartDownload i s v => is_u16 i ∧ is_u8 s ∧ bytes v
  | Respond r => array 8 r
  end.

(** The client with the frames it asks to send, and what [data] shows then. *)
Definition client_step c (o : client_op) : exec (SdoClient * list CanFrame * list Z) :=
  r ← match o with
      | StartUpload i s => '(c, f) ← start_upload c i s; mret (c, [f])
      | StartDownload i s v =>
          '(c, r) ← start_download BUF c i s v;
          mret (c, match r with Ok f => [f] | Err _ => [] end)
      | Respond r =>
          '(c, r) ← process_response BUF c r;
          mret (c, match r with SendNext f => [f] | _ => [] end)
      end;
  d ← data (fst r);
  mret (r, d).

Fixpoint client_run c (os : list client_op) : exec (SdoClient * list CanFrame) :=
  match os with
  | [] => mret (c, [])
  | o :: os =>
      '(c, fs, _) ← client_step c o;
      '(c, gs) ← client_run c os;
      mret (c, fs ++ gs)
  end.

Lemma client_step_ok c o :
  client_ok c → op_wf o →
  runs (client_step c o) (λ r,
    next_ok (target_node c) (fst (fst r)) ∧ Forall (request_to (target_node c)) (snd (fst r))).
Proof.
  intros Hc Ho. unfold client_step.
  eapply (runs_bind _ _ (λ r, next_ok (target_node c) (fst r) ∧ Forall (request_to (target_node c)) (snd r))).
  - destruct o as [i s|i s v|r]; cbn [op_wf] in Ho.
    + destruct Ho as [? ?]. eapply runs_bind; [by apply start_upload_ok|]. intros [c' f] [Hc' Hf]. apply runs_ret.
      split; [done|]. by apply List.Forall_cons.
    + destruct Ho as (? & ? & ?). eapply runs_bind; [by apply start_download_ok|].
      intros [c' [f|]] [Hc' Hf]; apply runs_ret; (split; [done|]); [|constructor].
      destruct Hf as [Hf _]. by apply List.Forall_cons.
    + eapply runs_bind; [by apply process_response_ok|]. intros [c' []] [Hc' Hf]; apply runs_ret;
        (split; [done|]); first [by apply List.Forall_nil|by apply List.Forall_cons].
  - intros [c' fs] [[Hc' Ht] Hf]. eapply runs_bind; [by apply data_ok|]. intros d _. by apply runs_ret.
Qed.

(** C8. Whatever transfers an application starts and whatever eight bytes a
    server answers, the client never panics, keeps its offset and length
    within its buffer, asks to send eight-byte frames on the server's request
    identifier only, and [data] is always a valid slice. *)
Theorem client_never_panics (n : Z) (os : list client_op) :
  wf_node n → Forall op_wf os →
  runs (client_run (new BUF n) os) (λ r, next_ok n (fst r) ∧ Forall (request_to n) (snd r)).
Proof.
  intros Hn. pose proof (new_ok n Hn) as Hc. revert Hc. generalize (new BUF n). induction os as [|o os IH];
    intros c [Hc Ht] Hos; cbn [client_run].
  - apply runs_ret. by split.
  - apply List.Forall_cons_iff in Hos as [Ho Hos]. rewrite <- Ht in *.
    eapply runs_bind; [by apply client_step_ok|]. intros [[c' fs] d] [Hc' Hfs].
    eapply runs_bind; [by apply IH|]. intros [c2 gs] [Hc2 Hgs]. apply runs_ret.
    split; [done|]. by apply Forall_app_2.
Qed.
End safe.

(** An upload with a short first segment, a stray abort and a download that
    does not fit. *)
Definition demo_client_ops : list client_op :=
  [ StartUpload 0x1008 0; Respond [0x41; 0x08; 0x10; 0; 10; 0; 0; 0]; Respond [0x80; 1; 2; 3; 0; 0; 0; 0];
    Respond [0x00; 1; 2; 3; 4; 5; 6; 7]; Respond [0x19; 8; 9; 10; 0; 0; 0; 0];
    StartDownload 0x2000 1 (replicate 33 7); StartDownload 0x2000 1 [1; 2] ].

Lemma client_never_panics_witness :
  runs (client_run 32 (new 32 5) demo_client_ops) (λ r, next_ok 32 5 (fst r) ∧ Forall (request_to 5) (snd r)) ∧
  match client_run 32 (new 32 5) demo_client_ops with Ret (c, fs) => length fs = 4%nat | Panic => False end.
Proof.
  split; [|by vm_compute]. apply (client_never_panics 32 ltac:(lia) 5 demo_client_ops); [unfold wf_node; lia|].
  by repeat constructor.
Defined.
