(* ===== verification/SdoDriver.v ===== *)
(** * The SDO driver

    [canopen-core/src/sdo/driver.rs]: [SdoDriver] drives one [SdoClient]
    transfer over an [AsyncCan] transport.  The transport is the class
    [AsyncCan]: its two operations thread the state of the transport, and an
    [await] that never completes is the loop running out of [fuel].  Deadlines
    are only modelled by their arithmetic ([TransferDeadline]); the transfers
    below are the untimed ones ([deadline = None]). *)
From S2P Require Import Prelude Frame Nmt Od SdoProtocol SdoClient.

Class AsyncCan (C E : Type) := {
  can_transmit : C → CanFrame → C * result unit E;
  can_receive : C → C * result CanFrame E;
}.

Inductive SdoError (E : Type) :=
| ErrAborted (code : Z)
| ErrProtocol
| ErrTransport (e : E)
| ErrTimeout
| ErrTooLarge.
Arguments ErrAborted {E} code.
Arguments ErrProtocol {E}.
Arguments ErrTransport {E} e.
Arguments ErrTimeout {E}.
Arguments ErrTooLarge {E}.

Record TransferDeadline := mkDeadline { started : Z; timeout_us : Z }.

Definition remaining (d : TransferDeadline) (now : Z) : Z :=
  saturating_sub (timeout_us d) (wrapping_sub 64 now (started d)).

Definition MAX_TRANSFER : Z := 256.

(** The outcome of a loop: [None] when the fuel is used up. *)
Definition fueled (A : Type) : Type := exec (option A).

Section driver.
Context {C E : Type} `{AsyncCan C E}.

Record SdoDriver := mkDriver { drv_target : Z; drv_response_cob : Z }.

Definition driver_new (target : Z) : SdoDriver := mkDriver target (CobId.sdo_tx target).

(** [receive_response]: skip frames of other identifiers; a frame on the
    response identifier must be 8 bytes long. *)
Fixpoint receive_response (fuel : nat) (d : SdoDriver) (can : C)
    : C * option (result CanFrame (SdoError E)) :=
  match fuel with
  | O => (can, None)
  | S fuel' =>
      match can_receive can with
      | (can, Err e) => (can, Some (Err (ErrTransport e)))
      | (can, Ok frame) =>
          if negb (CanFrame.raw_id frame =? drv_response_cob d) then receive_response fuel' d can
          else if negb (CanFrame.raw_dlc frame =? 8) then (can, Some (Err ErrProtocol))
          else (can, Some (Ok frame))
      end
  end.

(** [send] without a deadline. *)
Definition send (can : C) (frame : CanFrame) : C * result unit (SdoError E) :=
  match can_transmit can frame with
  | (can, Ok _) => (can, Ok tt)
  | (can, Err e) => (can, Err (ErrTransport e))
  end.

(** [send_abort]: offered once, the result is ignored. *)
Definition send_abort (d : SdoDriver) (can : C) (index subindex : Z) (code : AbortCode)
    : exec C :=
  data ← encode_abort index subindex code;
  mret (match CanFrame.new (CobId.sdo_rx (drv_target d)) data with
        | Some frame => fst (can_transmit can frame)
        | None => can
        end).

(** [finish]: [Ok] carries a terminal outcome the server knows about, [Err] a
    transfer that broke off while the server may still hold it. *)
Definition finish {T} (d : SdoDriver) (can : C) (index subindex : Z)
    (r : result (result T (SdoError E)) (SdoError E)) : exec (C * result T (SdoError E)) :=
  match r with
  | Ok outcome => mret (can, outcome)
  | Err error =>
      let code := match error with
                  | ErrTimeout => Some SdoProtocolTimeout
                  | ErrProtocol => Some InvalidCommandSpecifier
                  | _ => None
                  end in
      match code with
      | Some code => can ← send_abort d can index subindex code; mret (can, Err error)
      | None => mret (can, Err error)
      end
  end.

(** The [loop] of [download_impl]. *)
Fixpoint download_loop (fuel : nat) (d : SdoDriver) (client : SdoClient) (can : C)
    : exec (option (C * result (result unit (SdoError E)) (SdoError E))) :=
  match fuel with
  | O => mret None
  | S fuel' =>
      match receive_response fuel d can with
      | (can, None) => mret None
      | (can, Some (Err e)) => mret (Some (can, Err e))
      | (can, Some (Ok frame)) =>
          '(client, r) ← process_response MAX_TRANSFER client (CanFrame.data frame);
          match r with
          | DownloadComplete => mret (Some (can, Ok (Ok tt)))
          | SendNext next =>
              match send can next with
              | (can, Ok _) => download_loop fuel' d client can
              | (can, Err e) => mret (Some (can, Err e))
              end
          | Aborted code => mret (Some (can, Ok (Err (ErrAborted code))))
          | IgnoredAbort => download_loop fuel' d client can
          | UploadComplete _ | ProtocolViolation => mret (Some (can, Err ErrProtocol))
          end
      end
  end.

Definition download (fuel : nat) (d : SdoDriver) (can : C) (index subindex : Z) (data : list Z)
    : exec (option (C * result unit (SdoError E))) :=
  '(client, req) ← start_download MAX_TRANSFER (new MAX_TRANSFER (drv_target d)) index subindex data;
  match req with
  | Err _ => mret (Some (can, Err ErrTooLarge))
  | Ok req =>
      match send can req with
      | (can, Err e) => mret (Some (can, Err e))
      | (can, Ok _) =>
          r ← download_loop fuel d client can;
          match r with
          | None => mret None
          | Some (can, r) => r ← finish d can index subindex r; mret (Some r)
          end
      end
  end.

(** The [loop] of [upload_impl] into a caller's buffer of [buf_len] bytes; the
    result is the data copied into it and whether the size was indicated. *)
Fixpoint upload_loop (fuel : nat) (d : SdoDriver) (client : SdoClient) (buf_len : Z) (can : C)
    : exec (option (C * result (result (list Z * bool) (SdoError E)) (SdoError E))) :=
  match fuel with
  | O => mret None
  | S fuel' =>
      match receive_response fuel d can with
      | (can, None) => mret None
      | (can, Some (Err e)) => mret (Some (can, Err e))
      | (can, Some (Ok frame)) =>
          '(client, r) ← process_response MAX_TRANSFER client (CanFrame.data frame);
          match r with
          | UploadComplete data_len =>
              if buf_len <? data_len then mret (Some (can, Ok (Err ErrTooLarge)))
              else
                all ← data client;
                v ← slice all 0 data_len;
                mret (Some (can, Ok (Ok (v, upload_size_indicated client))))
          | SendNext next =>
              match send can next with
              | (can, Ok _) => upload_loop fuel' d client buf_len can
              | (can, Err e) => mret (Some (can, Err e))
              end
          | Aborted code => mret (Some (can, Ok (Err (ErrAborted code))))
          | IgnoredAbort => upload_loop fuel' d client buf_len can
          | DownloadComplete | ProtocolViolation => mret (Some (can, Err ErrProtocol))
          end
      end
  end.

Definition upload_impl (fuel : nat) (d : SdoDriver) (can : C) (index subindex buf_len : Z)
    : exec (option (C * result (list Z * bool) (SdoError E))) :=
  '(client, req) ← start_upload (new MAX_TRANSFER (drv_target d)) index subindex;
  match send can req with
  | (can, Err e) => mret (Some (can, Err e))
  | (can, Ok _) =>
      r ← upload_loop fuel d client buf_len can;
      match r with
      | None => mret None
      | Some (can, r) => r ← finish d can index subindex r; mret (Some r)
      end
  end.

Definition upload (fuel : nat) (d : SdoDriver) (can : C) (index subindex buf_len : Z)
    : exec (option (C * result (list Z) (SdoError E))) :=
  r ← upload_impl fuel d can index subindex buf_len;
  mret (match r with
        | None => None
        | Some (can, Ok (v, _)) => Some (can, Ok v)
        | Some (can, Err e) => Some (can, Err e)
        end).

(** [read_fixed::<N>]: exactly [n] bytes, or the leading [n < 4] of a size-less
    expedited reply. *)
Definition read_fixed (fuel : nat) (d : SdoDriver) (can : C) (index subindex n : Z)
    : exec (option (C * result (list Z) (SdoError E))) :=
  r ← upload_impl fuel d can index subindex 8;
  match r with
  | None => mret None
  | Some (can, Err e) => mret (Some (can, Err e))
  | Some (can, Ok (v, size_indicated)) =>
      let width_ok := (len v =? n) || (negb size_indicated && (len v =? 4) && (n <? 4)) in
      if width_ok then
        out ← slice (v ++ zeros (8 - len v)) 0 n;
        mret (Some (can, Ok out))
      else mret (Some (can, Err ErrProtocol))
  end.
End driver.
