(* ===== verification/SdoTransfer.v ===== *)
(** * Client and server together: segmented and expedited transfers

    The driver of [SdoDriver] runs against the server of [SdoServer] over a
    loss-free channel ([loop_can]).  The two theorems say that a download
    delivers to the dictionary exactly the bytes the caller passed, whatever
    their number, and an upload returns exactly the bytes the dictionary
    produced; both with the fuel that is enough. *)
From S2P Require Import Prelude Frame Nmt Od SdoProtocol SdoServer SdoServerSafe SdoClient SdoDriver.

(** ** Frames *)

Definition sdo_frame (id : Z) (d : list Z) : CanFrame := mkCanFrame id 8 d.

Lemma sdo_frame_new id d : id ≤ 0x7FF → length d = 8%nat → CanFrame.new id d = Some (sdo_frame id d).
Proof.
  intros Hid Hd. rewrite CanFrame_new_ok by lia. rewrite Hd. unfold sdo_frame.
  change (zeros (8 - Z.of_nat 8)) with (@nil Z). by rewrite app_nil_r.
Qed.

Lemma sdo_frame_data id d : length d = 8%nat → CanFrame.data (sdo_frame id d) = d.
Proof. intros Hd. unfold CanFrame.data. simpl. by rewrite take_ge by lia. Qed.

(** The four header bytes of an initiate frame and the object they address. *)
Definition header (b index subindex : Z) (rest : list Z) : list Z :=
  b :: as_u8 (Z.land index 0xFF) :: as_u8 (Z.shiftr index 8) :: subindex :: rest.

Lemma index_bytes index :
  is_u16 index →
  as_u8 (Z.land index 0xFF) = index mod 256 ∧ as_u8 (Z.shiftr index 8) = index / 256 ∧
  0 ≤ index / 256 < 256 ∧ 0 ≤ index mod 256 < 256.
Proof.
  intros Hi. unfold is_uint in Hi.
  pose proof (Z.mod_pos_bound index 256 ltac:(lia)).
  assert (0 ≤ index / 256 < 256) by (split; [apply Z.div_pos|apply Z.div_lt_upper_bound]; lia).
  change 0xFF with (Z.ones 8). rewrite Z.land_ones, Z.shiftr_div_pow2 by lia.
  change (2 ^ 8) with 256. rewrite !wrap_id by (unfold is_uint; lia). lia.
Qed.

Lemma response_index_header b index subindex rest :
  is_u16 index → response_index (header b index subindex rest) = index.
Proof.
  intros Hi. destruct (index_bytes index Hi) as (Hlo & Hhi & _). unfold response_index, header, at_.
  cbn [nth]. rewrite Hlo, Hhi. unfold from_le_bytes. pose proof (Z.div_mod index 256). lia.
Qed.

Lemma parse_index_sub_header b index subindex rest :
  is_u16 index → parse_index_sub (header b index subindex rest) = (index, subindex).
Proof.
  intros Hi. destruct (index_bytes index Hi) as (Hlo & Hhi & ? & ?).
  unfold parse_index_sub, header, at_. cbn [nth]. rewrite Hlo, Hhi. f_equal.
  rewrite wrap_id.
  - rewrite lor_shift by lia. pose proof (Z.div_mod index 256). lia.
  - unfold is_uint. rewrite Z.shiftl_mul_pow2 by lia. lia.
Qed.

(** A segment in either direction: header bits, data, padding. *)
Definition segment_header (toggle : bool) (n : Z) (last : bool) : Z :=
  Z.lor (Z.lor (if toggle then 0x10 else 0) (shl8 n 1)) (if last then 1 else 0).

Definition segment_frame (toggle : bool) (v : list Z) (last : bool) : list Z :=
  segment_header toggle (7 - len v) last :: v ++ zeros (7 - len v).

Lemma segment_header_fields toggle n last :
  0 ≤ n ≤ 7 →
  let h := segment_header toggle n last in
  h ≠ 0x80 ∧ command_specifier h = 0 ∧ negb (Z.land h 0x10 =? 0) = toggle ∧
  Z.land (Z.shiftr h 1) 7 = n ∧ negb (Z.land h 1 =? 0) = last.
Proof.
  intros Hn. assert (n = 0 ∨ n = 1 ∨ n = 2 ∨ n = 3 ∨ n = 4 ∨ n = 5 ∨ n = 6 ∨ n = 7) by lia.
  destruct_or!; subst; by destruct toggle, last.
Qed.

Lemma segment_frame_head toggle v last :
  at_ (segment_frame toggle v last) 0 = segment_header toggle (7 - len v) last.
Proof. done. Qed.

Lemma segment_frame_length toggle v last : len v ≤ 7 → length (segment_frame toggle v last) = 8%nat.
Proof.
  intros. unfold segment_frame. simpl. rewrite length_app. pose proof (len_zeros (7 - len v)). lia.
Qed.

Lemma segment_frame_slice toggle v last :
  len v ≤ 7 → slice (segment_frame toggle v last) 1 (1 + len v) = Ret v.
Proof.
  intros. rewrite slice_ret by (rewrite ?segment_frame_length; lia).
  replace (Z.to_nat (1 + len v - 1)) with (length v) by lia. unfold segment_frame.
  change (Z.to_nat 1) with 1%nat. cbn [drop].
  by rewrite drop_0, take_app_length.
Qed.

Lemma put_segment h v :
  len v ≤ 7 →
  copy_from_slice (set_at (zeros 8) 0 h) 1 (1 + len v) v = Ret (h :: v ++ zeros (7 - len v)).
Proof.
  intros Hv. destruct v as [|? [|? [|? [|? [|? [|? [|? [|]]]]]]]]; simpl length in *; try lia;
    reflexivity.
Qed.

Lemma is_bool_of (b : bool) : Bool.eqb b b = true.
Proof. by destruct b. Qed.

(** ** The loss-free channel *)

Inductive loop_error := ServerPanicked | NothingReceived.

Record Loop (OD : Type) := mkLoop {
  lp_srv : SdoServer;
  lp_od : OD;
  lp_events : list OdEvent;
  lp_rx : list CanFrame;
}.
Arguments mkLoop {OD}.
Arguments lp_srv {OD}.
Arguments lp_od {OD}.
Arguments lp_events {OD}.
Arguments lp_rx {OD}.

Section transfer.
Context {OD : Type} `{OdLaws OD} (EVT_QUEUE : nat) (ctx : SdoContext).
Context (target : Z) (Htarget : wf_node target).

Implicit Types (lp : Loop OD) (v : list Z).

(** The server answers a request frame at once; other frames pass by. *)
Definition loop_transmit lp (frame : CanFrame) : Loop OD * result unit loop_error :=
  if (CanFrame.raw_id frame =? CobId.sdo_rx target) && (CanFrame.raw_dlc frame =? 8) then
    match process_with_context EVT_QUEUE (mkIo (lp_srv lp) (lp_od lp) (zeros 8) (lp_events lp))
            (CanFrame.data frame) ctx with
    | Panic => (lp, Err ServerPanicked)
    | Ret (io, ok) =>
        (mkLoop (io_srv io) (io_od io) (io_events io)
           (if ok then lp_rx lp ++ option_list (CanFrame.new (CobId.sdo_tx target) (io_resp io))
            else lp_rx lp), Ok tt)
    end
  else (lp, Ok tt).

Definition loop_receive lp : Loop OD * result CanFrame loop_error :=
  match lp_rx lp with
  | [] => (lp, Err NothingReceived)
  | f :: rx => (mkLoop (lp_srv lp) (lp_od lp) (lp_events lp) rx, Ok f)
  end.

#[local] Instance loop_can : AsyncCan (Loop OD) loop_error := {
  can_transmit := loop_transmit;
  can_receive := loop_receive;
}.

(** What a download is: one validated write of the whole value. *)
Definition write_object lp (i s : Z) v : Loop OD * result unit Z :=
  let done srv od ev := mkLoop srv od ev [] in
  match validate_download (lp_od lp) ctx i s v with
  | Err c => (done (mkSrv None (committed_write (lp_srv lp))) (lp_od lp) (lp_events lp), Err c)
  | Ok _ =>
      match od_write (lp_od lp) i s v with
      | (od, Ok _) =>
          (done (mkSrv None (Some (i, s))) od
             (push_event EVT_QUEUE (lp_events lp) (mkEvent i s SrcSdo)), Ok tt)
      | (od, Err e) =>
          (done (mkSrv None (committed_write (lp_srv lp))) od (lp_events lp),
           Err (od_write_abort od i s (len v) e))
      end
  end.

Definition with_rx lp rx : Loop OD := mkLoop (lp_srv lp) (lp_od lp) (lp_events lp) rx.

(** The response that reports the outcome [r], [ok] being the success frame. *)
Definition outcome_frame (i s : Z) (r : result unit Z) (ok : list Z) : list Z :=
  match r with Ok _ => ok | Err c => abort_frame i s c end.

Definition driver_result {T} (r : result T Z) : result T (SdoError loop_error) :=
  match r with Ok t => Ok t | Err c => Err (ErrAborted c) end.

Definition drv : SdoDriver := driver_new target.

(** Outside the reception of block segments a request is dispatched, and an
    abort response ends the transfer. *)
Definition after_dispatch (r : Io OD * bool) : exec (Io OD * bool) :=
  let '(io, ok) := r in
  mret (if ok && (at_ (io_resp io) 0 =? 0x80) then set_transfer io None else io, ok).

Lemma process_idle io request :
  receiving_block (io_srv io) request = false →
  process_with_context EVT_QUEUE io request ctx =
    (dispatch EVT_QUEUE io request ctx ≫= after_dispatch).
Proof. intros Hr. unfold process_with_context. by rewrite Hr. Qed.

Lemma dispatch_download_segment io request :
  command_specifier (at_ request 0) = Ccs.DownloadSegment →
  dispatch EVT_QUEUE io request ctx = handle_download_segment EVT_QUEUE io request ctx.
Proof. intros Hc. unfold dispatch. by rewrite Hc. Qed.

Lemma dispatch_upload_segment io request :
  command_specifier (at_ request 0) = Ccs.UploadSegment →
  dispatch EVT_QUEUE io request ctx = handle_upload_segment io request (ctx_now_us ctx).
Proof. intros Hc. unfold dispatch. by rewrite Hc. Qed.

Lemma dispatch_initiate_download io request :
  command_specifier (at_ request 0) = Ccs.InitiateDownload →
  dispatch EVT_QUEUE io request ctx = handle_initiate_download EVT_QUEUE io request ctx.
Proof. intros Hc. unfold dispatch. by rewrite Hc. Qed.

Lemma dispatch_initiate_upload io request :
  command_specifier (at_ request 0) = Ccs.InitiateUpload →
  dispatch EVT_QUEUE io request ctx = handle_initiate_upload io request (ctx_now_us ctx).
Proof. intros Hc. unfold dispatch. by rewrite Hc. Qed.

Lemma transmit_reply lp req srv od resp ev :
  length req = 8%nat → length resp = 8%nat →
  process_with_context EVT_QUEUE (mkIo (lp_srv lp) (lp_od lp) (zeros 8) (lp_events lp)) req ctx
    = Ret (mkIo srv od resp ev, true) →
  loop_transmit lp (sdo_frame (CobId.sdo_rx target) req) =
    (mkLoop srv od ev (lp_rx lp ++ [sdo_frame (CobId.sdo_tx target) resp]), Ok tt).
Proof using Htarget.
  intros Hreq Hresp Hp. unfold wf_node in Htarget. unfold loop_transmit.
  rewrite sdo_frame_data by done. simpl. rewrite Z.eqb_refl. simpl. rewrite Hp. simpl.
  rewrite sdo_frame_new; [done|unfold CobId.sdo_tx; lia|done].
Qed.

Lemma receive_one fuel lp d :
  lp_rx lp = [sdo_frame (CobId.sdo_tx target) d] →
  receive_response (S fuel) drv lp =
    (with_rx lp [], Some (Ok (sdo_frame (CobId.sdo_tx target) d))).
Proof.
  intros Hrx. simpl. unfold loop_receive. rewrite Hrx. unfold drv. simpl.
  by rewrite Z.eqb_refl.
Qed.

Lemma request_frame_eq c d :
  target_node c = target → length d = 8%nat →
  request_frame c d = Ret (sdo_frame (CobId.sdo_rx target) d).
Proof using Htarget.
  intros Hc Hd. unfold wf_node in Htarget. unfold request_frame, tx_cobid.
  rewrite Hc, sdo_frame_new; [done|unfold CobId.sdo_rx; lia|done].
Qed.

(** ** Downloads *)

Section download.
Context (i s : Z) (v : list Z).
Context (Hi : is_u16 i) (Hs : is_u8 s) (Hv : bytes v) (Hlen : len v ≤ MAX_TRANSFER).

Lemma write_object_codes lp c : snd (write_object lp i s v) = Err c → is_u32 c.
Proof using All.
  assert (∀ a, is_u32 (AbortCode.to_u32 a)) as Hac by by intros [].
  assert (∀ od e, (∀ c, e = Abort c → is_u32 c) → is_u32 (od_write_abort od i s (len v) e)) as Hwa.
  { intros od e He. unfold od_write_abort, od_error_to_abort.
    repeat case_match; subst; try done; by apply He. }
  unfold write_object. destruct (validate_download _ _ _ _ _) as [[]|c'] eqn:Ev.
  - destruct (od_write _ _ _ _) as [od [[]|e]] eqn:Ew; simpl; intros [= <-]. apply Hwa.
    intros c' ->. apply (od_write_abort_u32 (lp_od lp) i s v). by rewrite Ew.
  - simpl. intros [= <-]. unfold validate_download, check in Ev.
    repeat (case_match; simplify_eq; try done). apply Hwa. intros c'' ->.
    by eapply od_validate_abort_u32.
Qed.

Lemma commit_outcome lp cw resp :
  cw = committed_write (lp_srv lp) →
  let '(lp', r) := write_object lp i s v in
  (validate_and_commit EVT_QUEUE (mkIo (mkSrv None cw) (lp_od lp) resp (lp_events lp)) ctx i s v
   ≫= after_dispatch)
  = Ret (mkIo (lp_srv lp') (lp_od lp') (outcome_frame i s r resp) (lp_events lp'), true) ∧
  lp_rx lp' = [] ∧ transfer (lp_srv lp') = None.
Proof.
  intros ->. unfold validate_and_commit, write_object. simpl.
  destruct (validate_download _ _ _ _ _); [|done].
  unfold commit_write. simpl. destruct (od_write _ _ _ _) as [od [[]|e]]; [|done].
  simpl. by case_match.
Qed.

(** The server's segmented download at offset [o], next toggle [t]. *)
Definition seg_server (cw : option (Z * Z)) (o : Z) (t : bool) (buf : list Z) (now : Z) : SdoServer :=
  mkSrv (Some (Segmented (mkSeg i s t Download buf o (len v) true now))) cw.

(** The client's view of the same point. *)
Definition seg_client (c : SdoClient) (o : Z) : Prop :=
  target_node c = target ∧ len (cl_buf c) = MAX_TRANSFER ∧ take (length v) (cl_buf c) = v ∧
  cl_offset c = o ∧ cl_total_len c = len v.

Definition chunk_at (o : Z) : list Z := take 7 (drop (Z.to_nat o) v).

Lemma chunk_len o : 0 ≤ o ≤ len v → len (chunk_at o) = Z.min (len v - o) 7.
Proof. intros. unfold chunk_at. rewrite length_take, length_drop. lia. Qed.

Lemma make_segment c o t :
  seg_client c o → 0 ≤ o ≤ len v →
  make_download_segment c t =
    Ret (set_offset c (o + len (chunk_at o)),
         sdo_frame (CobId.sdo_rx target) (segment_frame t (chunk_at o) (len v - o <=? 7))).
Proof using Htarget Hlen.
  intros (Hc & Hbl & Hbuf & Ho & Htot) Hor. pose proof (chunk_len o Hor) as Hcl.
  unfold MAX_TRANSFER in *.
  unfold make_download_segment. rewrite Htot, Ho, usub_ret by lia. rstep.
  rewrite usub_ret by lia. rstep. rewrite slice_ret by lia. rstep.
  replace (Z.to_nat (o + Z.min (len v - o) 7 - o)) with (length (chunk_at o)) by lia.
  assert (take (length (chunk_at o)) (drop (Z.to_nat o) (cl_buf c)) = chunk_at o) as ->.
  { transitivity (take 7 (drop (Z.to_nat o) (take (length v) (cl_buf c))));
      [|by unfold chunk_at; rewrite Hbuf].
    rewrite skipn_firstn_comm, firstn_firstn. f_equal. lia. }
  rewrite <- Hcl, wrap_id by (unfold is_uint; lia). rewrite put_segment by lia. rstep.
  rewrite request_frame_eq; [done|done|]. apply segment_frame_length. lia.
Qed.

Lemma prefix_extend o :
  0 ≤ o ≤ len v →
  take (Z.to_nat o) v ++ chunk_at o = take (Z.to_nat (o + len (chunk_at o))) v.
Proof using Type.
  intros Ho. pose proof (chunk_len o Ho) as Hc.
  rewrite <- (take_drop (Z.to_nat o) (take (Z.to_nat (o + len (chunk_at o))) v)). f_equal.
  - rewrite firstn_firstn. f_equal. lia.
  - rewrite skipn_firstn_comm. unfold chunk_at at 1.
    rewrite <- (firstn_all (drop (Z.to_nat o) v)) at 1. rewrite firstn_firstn. f_equal.
    rewrite length_drop. lia.
Qed.

Lemma copied_prefix n buf o :
  0 ≤ o ≤ len v → len buf = n → len v ≤ n → take (Z.to_nat o) buf = take (Z.to_nat o) v →
  let o' := o + len (chunk_at o) in
  let buf' := take (Z.to_nat o) buf ++ chunk_at o ++ drop (Z.to_nat o') buf in
  len buf' = n ∧ take (Z.to_nat o') buf' = take (Z.to_nat o') v.
Proof using Type.
  intros Ho Hb Hn Hp o' buf'. pose proof (chunk_len o Ho) as Hc. split.
  - unfold buf'. rewrite copy_length; unfold o'; lia.
  - unfold buf'. rewrite Hp, app_assoc.
    rewrite prefix_extend by done.
    apply take_app_length'. rewrite length_take. unfold o'. lia.
Qed.

Lemma server_segment od ev cw o t buf now last :
  0 ≤ o ≤ len v → len buf = BUF_LEN → take (Z.to_nat o) buf = take (Z.to_nat o) v →
  last = (len v - o <=? 7) →
  let o' := o + len (chunk_at o) in
  let buf' := take (Z.to_nat o) buf ++ chunk_at o ++ drop (Z.to_nat o') buf in
  process_with_context EVT_QUEUE (mkIo (seg_server cw o t buf now) od (zeros 8) ev)
    (segment_frame t (chunk_at o) last) ctx =
  if last then
    validate_and_commit EVT_QUEUE
      (mkIo (mkSrv None cw) od (encode_download_segment_response t) ev) ctx i s v
    ≫= after_dispatch
  else
    Ret (mkIo (seg_server cw o' (negb t) buf' (ctx_now_us ctx)) od
           (encode_download_segment_response t) ev, true).
Proof using Hlen.
  intros Ho Hb Hp Hlast o' buf'. pose proof (chunk_len o Ho) as Hc.
  destruct (copied_prefix BUF_LEN buf o Ho Hb ltac:(unfold MAX_TRANSFER, BUF_LEN in *; lia) Hp)
    as [Hb' Hp'].
  destruct (segment_header_fields t (7 - len (chunk_at o)) last ltac:(lia))
    as (_ & Hcs & Ht & Hn & Hl).
  unfold MAX_TRANSFER, BUF_LEN in *.
  rewrite process_idle, dispatch_download_segment by done.
  unfold handle_download_segment. cbn [io_srv transfer seg_server sg_direction].
  rewrite decide_True by done. rewrite segment_frame_head, Ht, Hn, Hl, is_bool_of. cbn [negb sg_toggle]. rewrite usub_ret by lia. rstep.
  cbn [sg_size_indicated sg_total_len sg_offset sg_index sg_subindex sg_buf sg_direction sg_toggle].
  replace (7 - (7 - len (chunk_at o))) with (len (chunk_at o)) by lia.
  match goal with |- context [if ?c then reply_abort _ _ _ _ else _] => assert (c = false) as -> end.
  { rewrite Hlast. destruct (Z.leb_spec (len v - o) 7), (Z.ltb_spec (len v) (o + len (chunk_at o))),
      (Z.eqb_spec (o + len (chunk_at o)) (len v)); simpl; try done; lia. }
  rewrite (proj2 (Z.ltb_ge _ _)) by (unfold BUF_LEN; lia).
  rewrite segment_frame_slice by lia. rstep. rewrite copy_from_slice_ret by lia. rstep.
  fold o' buf'. destruct last.
  - fold o' in Hp', Hb'. fold buf' in Hp', Hb'.
    rewrite slice_prefix by (cbn [sg_offset]; lia). rstep. cbn [sg_offset]. rewrite Hp'.
    rewrite (take_ge v) by (unfold o'; lia). done.
  - by destruct t.
Qed.

(** *** The driver's loop *)

(** Sending a segment and waiting for the rest of the transfer. *)
Definition send_and_wait (fuel : nat) (c : SdoClient) (t : bool) lp
    : exec (option (Loop OD * result (result unit (SdoError loop_error)) (SdoError loop_error))) :=
  '(c, f) ← make_download_segment c t;
  match send lp f with
  | (lp, Ok _) => download_loop fuel drv c lp
  | (lp, Err e) => mret (Some (lp, Err e))
  end.

Lemma response_fields t :
  let d := encode_download_segment_response t in
  command_specifier (at_ d 0) = Scs.DownloadSegmentResponse ∧
  negb (Z.land (at_ d 0) 0x10 =? 0) = t ∧ length d = 8%nat.
Proof. by destruct t. Qed.

Lemma segment_ack fuel c lp t :
  cl_state c = DownloadSegmented i s t → cl_offset c < cl_total_len c →
  lp_rx lp = [sdo_frame (CobId.sdo_tx target) (encode_download_segment_response t)] →
  download_loop (S fuel) drv c lp =
  send_and_wait fuel (set_state c (DownloadSegmented i s (negb t))) (negb t) (with_rx lp []).
Proof.
  intros Hst Ho Hrx. destruct (response_fields t) as (Hcs & Ht & Hl).
  cbn [download_loop]. rewrite (receive_one _ _ _ Hrx), sdo_frame_data by done.
  unfold process_response. rewrite Hcs. change (_ =? Scs.AbortTransfer) with false.
  rewrite Hst. change (negb (_ =? _)) with false. cbn iota.
  unfold handle_download_segment_response. rewrite Ht, is_bool_of. cbn [negb].
  rewrite (proj2 (Z.leb_gt _ _)) by done. unfold send_and_wait.
  by destruct (make_download_segment _ _) as [[c' f]|].
Qed.

Lemma abort_response c st code :
  cl_state c = st → active st = Some (i, s) → is_u32 code →
  process_response MAX_TRANSFER c (abort_frame i s code) = Ret (set_state c Idle, Aborted code).
Proof using Hi.
  intros Hst Hact Hc. unfold process_response. change (abort_frame i s code) with
    (header 0x80 i s (to_le_bytes 4 code)). change (_ =? Scs.AbortTransfer) with true.
  cbn iota. rewrite Hst, Hact, response_index_header by done. unfold header at 1 2. cbn [at_ nth].
  rewrite !Z.eqb_refl. simpl. rewrite andb_false_r. unfold response_u32, header.
  change (from_le_bytes _) with (from_le_bytes (to_le_bytes 4 code)).
  rewrite from_to_le_id; [done|]. exact Hc.
Qed.

Lemma last_ack fuel c lp t r :
  cl_state c = DownloadSegmented i s t → cl_total_len c ≤ cl_offset c →
  (∀ code, r = Err code → is_u32 code) →
  lp_rx lp = [sdo_frame (CobId.sdo_tx target)
                (outcome_frame i s r (encode_download_segment_response t))] →
  download_loop (S fuel) drv c lp = Ret (Some (with_rx lp [], Ok (driver_result r))).
Proof using Hi.
  intros Hst Ho Hr Hrx. destruct (response_fields t) as (Hcs & Ht & Hl).
  cbn [download_loop]. rewrite (receive_one _ _ _ Hrx).
  destruct r as [[]|code]; cbn [outcome_frame].
  - rewrite sdo_frame_data by done.
    unfold process_response. rewrite Hcs. change (_ =? Scs.AbortTransfer) with false.
    rewrite Hst. change (negb (_ =? _)) with false. cbn iota.
    unfold handle_download_segment_response. rewrite Ht, is_bool_of. cbn [negb].
    by rewrite (proj2 (Z.leb_le _ _)).
  - rewrite sdo_frame_data by done. by rewrite (abort_response _ _ _ Hst) by auto.
Qed.

(** Both sides at offset [o], about to exchange the segment with toggle [t]. *)
Definition ready lp0 c lp (o : Z) (t : bool) : Prop :=
  seg_client c o ∧ cl_state c = DownloadSegmented i s t ∧ 0 ≤ o ≤ len v ∧ lp_rx lp = [] ∧
  lp_od lp = lp_od lp0 ∧ lp_events lp = lp_events lp0 ∧
  ∃ buf now, lp_srv lp = seg_server (committed_write (lp_srv lp0)) o t buf now ∧
    len buf = BUF_LEN ∧ take (Z.to_nat o) buf = take (Z.to_nat o) v.

Lemma send_segment lp0 c lp o t :
  ready lp0 c lp o t →
  ∃ lp' d,
    loop_transmit lp (sdo_frame (CobId.sdo_rx target)
                        (segment_frame t (chunk_at o) (len v - o <=? 7))) = (lp', Ok tt) ∧
    lp_rx lp' = [sdo_frame (CobId.sdo_tx target) d] ∧
    if len v - o <=? 7 then
      d = outcome_frame i s (snd (write_object lp0 i s v)) (encode_download_segment_response t) ∧
      with_rx lp' [] = fst (write_object lp0 i s v)
    else
      d = encode_download_segment_response t ∧
      ready lp0 (set_state (set_offset c (o + 7)) (DownloadSegmented i s (negb t)))
        (with_rx lp' []) (o + 7) (negb t).
Proof using All.
  intros (Hcl & Hst & Ho & Hrx & Hod & Hev & buf & now & Hsrv & Hb & Hp).
  pose proof (chunk_len o Ho) as Hc.
  pose proof (server_segment (lp_od lp0) (lp_events lp0) (committed_write (lp_srv lp0)) o t buf now
                _ Ho Hb Hp eq_refl) as Hproc.
  rewrite <- Hod, <- Hev, <- Hsrv in Hproc. destruct (Z.leb_spec (len v - o) 7) as [Hlast|Hlast].
  - pose proof (commit_outcome lp0 _ (encode_download_segment_response t) eq_refl) as Hcom.
    destruct (write_object lp0 i s v) as [lp1 r] eqn:Ew. destruct Hcom as (Hcom & Hrx1 & Htr1).
    rewrite <- Hod, <- Hev in Hcom. rewrite Hcom in Hproc.
    eexists _, _. split; [|split; [|split; [reflexivity|]]].
    + eapply transmit_reply; [apply segment_frame_length; lia| |exact Hproc]. by destruct r.
    + simpl. by rewrite Hrx.
    + destruct lp1. simpl in *. unfold with_rx. by subst.
  - eexists _, _. split; [|split; [|split; [reflexivity|]]].
    + eapply transmit_reply; [apply segment_frame_length; lia| |exact Hproc]. done.
    + simpl. by rewrite Hrx.
    + destruct (copied_prefix BUF_LEN buf o Ho Hb
        ltac:(unfold MAX_TRANSFER, BUF_LEN in *; lia) Hp) as [Hb' Hp']. destruct Hcl as (?&?&?&?&?).
      replace (o + 7) with (o + len (chunk_at o)) by lia.
      split_and!; try done; simpl; try lia. eexists _, _. split_and!; [reflexivity|done..].
Qed.

Lemma send_next lp0 fuel c lp o t :
  ready lp0 c lp o t → len v - o + 7 ≤ 7 * Z.of_nat fuel →
  send_and_wait fuel c t lp =
    Ret (Some (fst (write_object lp0 i s v), Ok (driver_result (snd (write_object lp0 i s v))))).
Proof using All.
  revert c lp o t. induction fuel as [|fuel IH]; intros c lp o t Hr Hf.
  { destruct Hr as (_ & _ & ? & _). lia. }
  pose proof Hr as (Hcl & Hst & Ho & _). pose proof (chunk_len o Ho) as Hc.
  destruct (send_segment lp0 c lp o t Hr) as (lp' & d & Htx & Hrx & Hpost).
  unfold send_and_wait. rewrite (make_segment c o t Hcl Ho). rstep.
  unfold send. simpl can_transmit. rewrite Htx.
  destruct (Z.leb_spec (len v - o) 7) as [Hlast|Hlast]; destruct Hpost as [-> Hpost].
  - destruct Hcl as (?&?&?&?&?). rewrite (last_ack _ _ _ t (snd (write_object lp0 i s v))); try done.
    + by rewrite Hpost.
    + simpl. lia.
    + apply write_object_codes.
  - destruct Hcl as (?&?&?&?&?). rewrite (segment_ack _ _ _ t); [|done|simpl; lia|done].
    eapply (IH _ _ (o + 7)); [|lia]. replace (len (chunk_at o)) with 7 by lia. exact Hpost.
Qed.

(** *** Initiation *)

(** No block download is waiting for data segments. *)
Definition takes_requests (srv : SdoServer) : Prop :=
  match transfer srv with Some (BlockDownload st) => bd_awaiting_end st = true | _ => True end.

Lemma takes_requests_idle srv request : takes_requests srv → receiving_block srv request = false.
Proof.
  unfold takes_requests, receiving_block. destruct (transfer srv) as [[| |st]|]; try done.
  by intros ->.
Qed.

Definition locked : bool :=
  bool_decide (ctx_nmt_state ctx = Operational) && is_pdo_config_index i.

Definition expedited_request : list Z :=
  header (Z.lor (Z.lor (Z.lor (shl8 Ccs.InitiateDownload 5) (shl8 (4 - len v) 2)) 0x02) 0x01)
    i s (v ++ zeros (4 - len v)).

Definition segmented_request : list Z := header 0x21 i s (to_le_bytes 4 (len v)).

Lemma small_value : 1 ≤ len v ≤ 4 → ∃ a w,
  v = a :: w ∧ (w = [] ∨ (∃ b, w = [b]) ∨ (∃ b c, w = [b; c]) ∨ ∃ b c d, w = [b; c; d]).
Proof.
  clear. intros Hl. destruct v as [|a [|b [|c [|d [|]]]]]; simpl length in *; try lia;
    eexists _, _; (split; [reflexivity|]); eauto 10.
Qed.

Lemma expedited_fields :
  1 ≤ len v ≤ 4 →
  command_specifier (at_ expedited_request 0) = Ccs.InitiateDownload ∧
  negb (Z.land (at_ expedited_request 0) 0x02 =? 0) = true ∧
  negb (Z.land (at_ expedited_request 0) 0x01 =? 0) = true ∧
  Z.land (Z.shiftr (at_ expedited_request 0) 2) 0x03 = 4 - len v ∧
  slice expedited_request 4 (4 + len v) = Ret v ∧ length expedited_request = 8%nat.
Proof.
  intros Hl. unfold expedited_request.
  destruct (small_value Hl) as (a & w & -> & [->|[(b & ->)|[(b & c & ->)|(b & c & d & ->)]]]);
    repeat split.
Qed.

Lemma start_expedited :
  1 ≤ len v ≤ 4 →
  start_download MAX_TRANSFER (new MAX_TRANSFER target) i s v =
    Ret (mkClient target (WaitingDownloadInitResponse i s) (zeros MAX_TRANSFER) 0 (len v) None false,
         Ok (sdo_frame (CobId.sdo_rx target) expedited_request)).
Proof using All.
  intros Hl. unfold start_download.
  destruct (Z.eqb_spec (len v) 0), (Z.leb_spec (len v) 4); try lia. cbn [negb andb].
  rewrite usub_ret by lia. rstep. rewrite (wrap_id 8 (4 - len v)) by (unfold is_uint; lia).
  assert (copy_from_slice (put_index (set_at (zeros 8) 0
            (Z.lor (Z.lor (Z.lor (shl8 Ccs.InitiateDownload 5) (shl8 (4 - len v) 2)) 2) 1)) i s)
            4 (4 + len v) v = Ret expedited_request) as ->.
  { unfold expedited_request.
    destruct (small_value Hl) as (a & w & -> & [->|[(b & ->)|[(b & c & ->)|(b & c & d & ->)]]]);
      reflexivity. }
  rstep. rewrite request_frame_eq; [done|done|by apply expedited_fields].
Qed.

Lemma start_segmented :
  ¬ (1 ≤ len v ≤ 4) →
  ∃ c, start_download MAX_TRANSFER (new MAX_TRANSFER target) i s v =
    Ret (c, Ok (sdo_frame (CobId.sdo_rx target) segmented_request)) ∧
    seg_client c 0 ∧ cl_state c = WaitingDownloadInitResponse i s.
Proof using Htarget Hlen.
  intros Hl. unfold start_download, MAX_TRANSFER in *.
  assert (negb (len v =? 0) && (len v <=? 4) = false) as -> by lia.
  rewrite (proj2 (Z.ltb_ge _ _)) by lia. cbn [cl_buf new].
  rewrite (copy_from_slice_ret (zeros 256) 0 (len v) v) by (rewrite ?len_zeros; lia). rstep.
  rewrite (wrap_id 32 (len v)) by (unfold is_uint; lia).
  change (copy_from_slice _ _ _ _) with (@Ret (list Z) segmented_request). rstep.
  rewrite request_frame_eq by done. rstep.
  eexists. split; [reflexivity|]. split; [|reflexivity].
  split_and!; try done; cbn [cl_buf].
  - unfold MAX_TRANSFER. rewrite copy_length; rewrite ?len_zeros; lia.
  - change (Z.to_nat 0) with 0%nat. rewrite take_0. simpl. apply take_app_length.
Qed.

Lemma server_segmented_init srv od ev :
  takes_requests srv → locked = false →
  process_with_context EVT_QUEUE (mkIo srv od (zeros 8) ev) segmented_request ctx =
  Ret (mkIo (seg_server (committed_write srv) 0 false (zeros BUF_LEN) (ctx_now_us ctx)) od
         (encode_download_response i s) ev, true).
Proof using Hi Hlen.
  intros Hsrv Hlock. rewrite process_idle by (by apply takes_requests_idle).
  rewrite dispatch_initiate_download by done.
  unfold handle_initiate_download, segmented_request. rewrite parse_index_sub_header by done.
  unfold locked in Hlock. rewrite Hlock. change (negb (Z.land (at_ _ 0) 2 =? 0)) with false.
  change (negb (Z.land (at_ _ 0) 1 =? 0)) with true. cbn iota.
  unfold declared_len, header. change (from_le_bytes _) with (from_le_bytes (to_le_bytes 4 (len v))).
  unfold MAX_TRANSFER in Hlen. rewrite from_to_le_id by (split; [lia|simpl; lia]).
  rewrite (proj2 (Z.ltb_ge _ _)) by (unfold BUF_LEN; lia). done.
Qed.

Lemma server_expedited lp :
  takes_requests (lp_srv lp) → locked = false → 1 ≤ len v ≤ 4 →
  let '(lp', r) := write_object lp i s v in
  process_with_context EVT_QUEUE (mkIo (lp_srv lp) (lp_od lp) (zeros 8) (lp_events lp))
    expedited_request ctx =
  Ret (mkIo (lp_srv lp') (lp_od lp') (outcome_frame i s r (encode_download_response i s))
         (lp_events lp'), true) ∧ lp_rx lp' = [].
Proof using Hi Hv Hlen Hs.
  intros Hsrv Hlock Hl. destruct (expedited_fields Hl) as (Hcs & He & Hsz & Hn & Hsl & _).
  pose proof (commit_outcome lp _ (encode_download_response i s) eq_refl) as Hcom.
  destruct (write_object lp i s v) as [lp' r]. destruct Hcom as (Hcom & Hrx & Htr).
  split; [|done]. rewrite process_idle by (by apply takes_requests_idle).
  rewrite dispatch_initiate_download by done.
  unfold handle_initiate_download.
  assert (parse_index_sub expedited_request = (i, s)) as -> by by apply parse_index_sub_header.
  unfold locked in Hlock. rewrite Hlock, He, Hsz, Hn, usub_ret by lia. rstep.
  replace (4 - (4 - len v)) with (len v) by lia. rewrite Hsl. rstep.
  match goal with |- context [validate_and_commit _ ?x _ _ _ _] => change x with
    (mkIo (mkSrv None (committed_write (lp_srv lp))) (lp_od lp) (encode_download_response i s)
       (lp_events lp)) end.
  destruct (validate_and_commit _ _ _ _ _ _) as [[io ok]|]; [|done]. rstep. cbn in Hcom.
  injection Hcom as Hio ->. unfold after_dispatch, mret, exec_ret. do 2 f_equal.
  simpl in *. destruct io as [[tr cw] od resp ev]. simpl in *.
  destruct lp' as [[tr' cw'] od' ev' rx']. simpl in *. subst.
  case_match; simplify_eq/=; done.
Qed.

(** The client's answer to the response that completes an initiation. *)
Lemma client_init_response c :
  target_node c = target → cl_state c = WaitingDownloadInitResponse i s →
  process_response MAX_TRANSFER c (encode_download_response i s) =
  handle_download_init_response c i s.
Proof using Hi.
  intros Hc Hst. unfold process_response. rewrite encode_download_response_eq.
  change (_ =? Scs.AbortTransfer) with false. rewrite Hst.
  change (as_u8 (Z.land i 255) :: _) with (tl (header 0x60 i s (zeros 4))).
  change (0x60 :: tl _) with (header 0x60 i s (zeros 4)).
  rewrite response_index_header by done. unfold header at 1 2. cbn [at_ nth]. by rewrite !Z.eqb_refl.
Qed.

Lemma init_ack fuel c lp r :
  target_node c = target → cl_state c = WaitingDownloadInitResponse i s →
  1 ≤ cl_total_len c ≤ 4 → (∀ code, r = Err code → is_u32 code) →
  lp_rx lp = [sdo_frame (CobId.sdo_tx target) (outcome_frame i s r (encode_download_response i s))] →
  download_loop (S fuel) drv c lp = Ret (Some (with_rx lp [], Ok (driver_result r))).
Proof using All.
  intros Hc Hst Hl Hr Hrx. cbn [download_loop]. rewrite (receive_one _ _ _ Hrx).
  destruct r as [[]|code]; cbn [outcome_frame]; rewrite sdo_frame_data by done.
  - rewrite client_init_response by done. unfold handle_download_init_response.
    by rewrite (proj2 (Z.ltb_lt _ _)), (proj2 (Z.leb_le _ _)) by lia.
  - by rewrite (abort_response _ _ _ Hst) by auto.
Qed.

Lemma segmented_ack fuel c lp :
  target_node c = target → cl_state c = WaitingDownloadInitResponse i s →
  ¬ (1 ≤ cl_total_len c ≤ 4) → 
  lp_rx lp = [sdo_frame (CobId.sdo_tx target) (encode_download_response i s)] →
  download_loop (S fuel) drv c lp =
  send_and_wait fuel (set_state c (DownloadSegmented i s false)) false (with_rx lp []).
Proof using All.
  intros Hc Hst Hl Hrx. cbn [download_loop]. rewrite (receive_one _ _ _ Hrx), sdo_frame_data by done.
  rewrite client_init_response by done. unfold handle_download_init_response, send_and_wait.
  assert ((0 <? cl_total_len c) && (cl_total_len c <=? 4) = false) as -> by lia.
  by destruct (make_download_segment _ _) as [[c' f]|].
Qed.

Lemma download_writes fuel lp :
  takes_requests (lp_srv lp) → locked = false → lp_rx lp = [] →
  len v + 14 ≤ 7 * Z.of_nat fuel →
  download fuel drv lp i s v =
    Ret (Some (fst (write_object lp i s v), driver_result (snd (write_object lp i s v)))).
Proof using All.
  intros Hsrv Hlock Hrx Hfuel. destruct fuel as [|fuel]; [lia|]. unfold download.
  simpl drv_target. unfold send. simpl can_transmit.
  assert (1 ≤ len v ≤ 4 ∨ ¬ (1 ≤ len v ≤ 4)) as [Hl|Hl] by lia.
  - rewrite start_expedited by done. rstep.
    pose proof (server_expedited lp Hsrv Hlock Hl) as Hproc.
    pose proof (write_object_codes lp) as Hcodes.
    destruct (write_object lp i s v) as [lp' r] eqn:Ew. destruct Hproc as [Hproc Hrx'].
    erewrite transmit_reply; [|by apply expedited_fields| |exact Hproc]; [|by destruct r].
    rewrite Hrx. cbn [app].
    rewrite (init_ack _ _ _ r) by done. rstep.
    destruct lp'. simpl in *. by subst.
  - destruct (start_segmented Hl) as (c & -> & Hcl & Hst). rstep.
    erewrite transmit_reply; [|done| |by apply server_segmented_init]; [|done].
    rewrite Hrx. cbn [app]. pose proof Hcl as (Hc & Hbl & Hbuf & Ho & Htot).
    rewrite segmented_ack by (done || by rewrite Htot). rstep.
    rewrite (send_next lp _ _ _ 0); [done| |lia].
    split_and!; try done; try lia. eexists _, _. split_and!; [done| |done].
    by rewrite len_zeros.
Qed.

(** C6. An SDO download is one validated write of exactly the caller's bytes.
    Whatever their number (0 to 256, the driver's limit) the exchange between
    [SdoDriver::download] and the server ends with the dictionary, the event
    queue and the commit signal as [write_object] leaves them and the driver
    returning its result: [Ok] when the object was written, otherwise the
    abort code of the refusal.  [len v / 7 + 3] iterations are enough, and
    nothing panics on either side. *)
Theorem download_is_write fuel lp :
  takes_requests (lp_srv lp) → locked = false → lp_rx lp = [] →
  len v + 14 ≤ 7 * Z.of_nat fuel →
  download fuel drv lp i s v =
    Ret (Some (fst (write_object lp i s v), driver_result (snd (write_object lp i s v)))).
Proof using All. intros. by apply download_writes. Qed.

End download.

(** ** Uploads *)

Section upload.
Context (i s : Z) (Hi : is_u16 i) (Hs : is_u8 s).

(** The server after an upload: no transfer, nothing else changed. *)
Definition settled lp : Loop OD :=
  mkLoop (mkSrv None (committed_write (lp_srv lp))) (lp_od lp) (lp_events lp) [].

(** What an upload into a buffer of [buf_len] bytes is: one read of the object. *)
Definition read_object lp (buf_len : Z) : result (list Z) (SdoError loop_error) :=
  match od_read (lp_od lp) i s (zeros BUF_LEN) with
  | (_, Err e) => Err (ErrAborted (od_read_abort (lp_od lp) i e))
  | (buf, Ok n) =>
      if MAX_TRANSFER <? n then Err ErrProtocol
      else if buf_len <? n then Err ErrTooLarge
      else Ok (take (Z.to_nat n) buf)
  end.

Definition upload_request : list Z := header 0x40 i s (zeros 4).

Definition segment_request (t : bool) : list Z := (if t then 0x70 else 0x60) :: zeros 7.

Section object.
Context (v : list Z) (Hlen : len v ≤ MAX_TRANSFER).

Definition up_server (cw : option (Z * Z)) (o : Z) (t : bool) (buf : list Z) (now : Z) : SdoServer :=
  mkSrv (Some (Segmented (mkSeg i s t Upload buf o (len v) true now))) cw.

Definition up_client (c : SdoClient) (o : Z) (t : bool) : Prop :=
  target_node c = target ∧ cl_state c = UploadSegmented i s t ∧ len (cl_buf c) = MAX_TRANSFER ∧
  cl_offset c = o ∧ upload_len c = Some (len v) ∧
  take (Z.to_nat o) (cl_buf c) = take (Z.to_nat o) v.

Lemma make_request c t :
  target_node c = target →
  make_upload_segment_request c t = Ret (sdo_frame (CobId.sdo_rx target) (segment_request t)).
Proof using Htarget.
  intros Hc. unfold make_upload_segment_request.
  destruct t; (rewrite request_frame_eq; [|done|done]); reflexivity.
Qed.

Lemma server_upload_segment od ev cw o t buf now :
  0 ≤ o ≤ len v → len buf = BUF_LEN → take (length v) buf = v →
  process_with_context EVT_QUEUE (mkIo (up_server cw o t buf now) od (zeros 8) ev)
    (segment_request t) ctx =
  Ret (mkIo (if len v - o <=? 7 then mkSrv None cw
             else up_server cw (o + 7) (negb t) buf (ctx_now_us ctx)) od
         (segment_frame t (chunk_at v o) (len v - o <=? 7)) ev, true).
Proof using Hlen.
  intros Ho Hb Hv. pose proof (chunk_len v o Ho) as Hc. unfold MAX_TRANSFER, BUF_LEN in *.
  rewrite process_idle by done. rewrite dispatch_upload_segment by (by destruct t).
  unfold handle_upload_segment. cbn [io_srv transfer up_server sg_direction].
  rewrite decide_True by done.
  assert (negb (Z.land (at_ (segment_request t) 0) 16 =? 0) = t) as -> by (by destruct t).
  cbn [sg_toggle sg_total_len sg_offset sg_buf sg_index sg_subindex sg_direction sg_size_indicated].
  rewrite is_bool_of. cbn [negb]. rewrite usub_ret by lia. rstep. rewrite slice_ret by lia. rstep.
  assert (take (Z.to_nat (o + Z.min (len v - o) 7 - o)) (drop (Z.to_nat o) buf) = chunk_at v o) as ->.
  { transitivity (take 7 (drop (Z.to_nat o) (take (length v) buf)));
      [|by unfold chunk_at; rewrite Hv].
    rewrite skipn_firstn_comm, firstn_firstn. f_equal. lia. }
  rewrite encode_upload_segment_response_eq by lia. rstep.
  change (Z.lor (Z.lor _ _) _ :: _) with (segment_frame t (chunk_at v o) (len v - o <=? 7)).
  unfold after_dispatch. cbn [io_resp respond set_transfer andb]. rewrite segment_frame_head.
  destruct (segment_header_fields t (7 - len (chunk_at v o)) (len v - o <=? 7) ltac:(lia))
    as (Hne & _). rewrite (proj2 (Z.eqb_neq _ _) Hne).
  destruct (Z.leb_spec (len v - o) 7); [done|]. by replace (Z.min (len v - o) 7) with 7 by lia.
Qed.

Lemma client_upload_segment c o t :
  up_client c o t → 0 ≤ o ≤ len v →
  ∃ c', process_response MAX_TRANSFER c (segment_frame t (chunk_at v o) (len v - o <=? 7)) =
    Ret (c', if len v - o <=? 7 then UploadComplete (len v)
             else SendNext (sdo_frame (CobId.sdo_rx target) (segment_request (negb t)))) ∧
    upload_size_indicated c' = upload_size_indicated c ∧
    if len v - o <=? 7 then cl_offset c' = len v ∧ take (length v) (cl_buf c') = v ∧
      len (cl_buf c') = MAX_TRANSFER
    else up_client c' (o + 7) (negb t).
Proof using Htarget Hlen.
  intros (Hc & Hst & Hb & Ho & Hul & Hp) Hor. pose proof (chunk_len v o Hor) as Hcl.
  destruct (segment_header_fields t (7 - len (chunk_at v o)) (len v - o <=? 7) ltac:(lia))
    as (_ & Hcs & Ht & Hn & Hl).
  unfold process_response. rewrite segment_frame_head, Hcs.
  change (0 =? Scs.AbortTransfer) with false. rewrite Hst. change (negb (0 =? _)) with false.
  cbn iota. unfold handle_upload_segment_response. rewrite segment_frame_head, Ht, Hn, Hl, is_bool_of.
  cbn [negb]. rewrite usub_ret by lia. rstep. rewrite Ho, Hul.
  replace (7 - (7 - len (chunk_at v o))) with (len (chunk_at v o)) by lia.
  match goal with |- context [if ?c then mret (set_state _ _, _) else _] =>
    assert (c = false) as -> end.
  { unfold MAX_TRANSFER in *.
    destruct (Z.leb_spec (len v - o) 7), (Z.ltb_spec 256 (o + len (chunk_at v o))),
      (Z.ltb_spec (len v) (o + len (chunk_at v o))), (Z.eqb_spec (o + len (chunk_at v o)) (len v));
      simpl; try done; lia. }
  rewrite segment_frame_slice by lia. rstep.
  rewrite copy_from_slice_ret by (unfold MAX_TRANSFER in *; lia). rstep.
  destruct (copied_prefix v _ (cl_buf c) o Hor Hb Hlen Hp) as [Hb' Hp'].
  destruct (Z.leb_spec (len v - o) 7) as [Hlast|Hlast].
  - replace (o + len (chunk_at v o)) with (len v) in * by lia. eexists. split; [reflexivity|].
    cbn [cl_offset cl_buf]. split_and!; [done|done| |done].
    rewrite Nat2Z.id in Hp'. by rewrite Nat2Z.id, Hp', take_ge by lia.
  - rewrite make_request by done. rstep.
    replace (o + len (chunk_at v o)) with (o + 7) in * by lia.
    eexists. split; [reflexivity|]. by split_and!.
Qed.

(** Both sides at offset [o], the request with toggle [t] not yet sent. *)
Definition up_ready lp0 c lp (o : Z) (t : bool) : Prop :=
  up_client c o t ∧ 0 ≤ o ≤ len v ∧ lp_rx lp = [] ∧
  lp_od lp = lp_od lp0 ∧ lp_events lp = lp_events lp0 ∧
  ∃ buf now, lp_srv lp = up_server (committed_write (lp_srv lp0)) o t buf now ∧
    len buf = BUF_LEN ∧ take (length v) buf = v.

Lemma request_next lp0 fuel c lp o t buf_len :
  up_ready lp0 c lp o t → len v - o + 7 ≤ 7 * Z.of_nat fuel →
  match send lp (sdo_frame (CobId.sdo_rx target) (segment_request t)) with
  | (lp, Ok _) => upload_loop fuel drv c buf_len lp
  | (lp, Err e) => mret (Some (lp, Err e))
  end = Ret (Some (settled lp0, Ok (if buf_len <? len v then Err ErrTooLarge else
                                    Ok (v, upload_size_indicated c)))).
Proof using All.
  revert c lp o t. induction fuel as [|fuel IH]; intros c lp o t Hr Hf.
  { destruct Hr as (_ & ? & _). lia. }
  destruct Hr as (Hcl & Ho & Hrx & Hod & Hev & buf & now & Hsrv & Hb & Hv).
  pose proof (chunk_len v o Ho) as Hc.
  pose proof (server_upload_segment (lp_od lp) (lp_events lp)
                (committed_write (lp_srv lp0)) o t buf now Ho Hb Hv) as Hproc.
  rewrite <- Hsrv in Hproc. unfold send at 1. simpl can_transmit.
  erewrite transmit_reply; [|by destruct t| |exact Hproc];
    [|apply segment_frame_length; lia].
  rewrite Hrx. cbn [app upload_loop].
  erewrite receive_one by reflexivity. rewrite sdo_frame_data by (apply segment_frame_length; lia).
  destruct (client_upload_segment c o t Hcl Ho) as (c' & -> & Hsi & Hc'). rstep. rewrite <- Hsi.
  destruct (Z.leb_spec (len v - o) 7) as [Hlast|Hlast].
  - destruct Hc' as (Ho' & Hb' & Hl').
    unfold with_rx, settled. cbn [lp_srv lp_od lp_events]. rewrite Hod, Hev.
    destruct (buf_len <? len v); [done|]. unfold data. unfold MAX_TRANSFER in *.
    rewrite Ho', slice_prefix by lia. rstep. rewrite Nat2Z.id, Hb', slice_prefix by lia. rstep.
    by rewrite Nat2Z.id, firstn_all.
  - apply (IH _ _ (o + 7)); [|lia]. split_and!; try done; try lia.
    eexists _, _. by split_and!.
Qed.
End object.

(** *** Initiation *)

Definition expedited_reply (v : list Z) : list Z :=
  header (Z.lor 0x43 (shl8 (4 - len v) 2)) i s (v ++ zeros (4 - len v)).

Lemma expedited_reply_fields v :
  1 ≤ len v ≤ 4 →
  let h := at_ (expedited_reply v) 0 in
  h ≠ 0x80 ∧ command_specifier h = Scs.InitiateUploadResponse ∧
  negb (Z.land h 0x02 =? 0) = true ∧ negb (Z.land h 0x01 =? 0) = true ∧
  Z.land (Z.shiftr h 2) 0x03 = 4 - len v ∧
  slice (expedited_reply v) 4 (4 + len v) = Ret v ∧ length (expedited_reply v) = 8%nat.
Proof.
  intros Hl. destruct (small_value v Hl)
    as (a & w & -> & [->|[(b & ->)|[(b & c & ->)|(b & c & d & ->)]]]); by repeat split.
Qed.

Lemma server_upload_init lp :
  takes_requests (lp_srv lp) →
  process_with_context EVT_QUEUE (mkIo (lp_srv lp) (lp_od lp) (zeros 8) (lp_events lp))
    upload_request ctx =
  let reply tr r := Ret (mkIo (mkSrv tr (committed_write (lp_srv lp))) (lp_od lp) r (lp_events lp), true) in
  match od_read (lp_od lp) i s (zeros BUF_LEN) with
  | (_, Err e) => reply None (abort_frame i s (od_read_abort (lp_od lp) i e))
  | (buf, Ok n) =>
      if (0 <? n) && (n <=? 4) then reply None (expedited_reply (take (Z.to_nat n) buf))
      else reply (Some (Segmented (mkSeg i s false Upload buf 0 n true (ctx_now_us ctx))))
             (header 0x41 i s (to_le_bytes 4 n))
  end.
Proof using All.
  intros Hsrv. rewrite process_idle by (by apply takes_requests_idle).
  rewrite dispatch_initiate_upload by done. unfold handle_initiate_upload, upload_request.
  rewrite parse_index_sub_header by done. cbn [io_od].
  destruct (od_read (lp_od lp) i s (zeros BUF_LEN)) as [buf [n|e]] eqn:Hr; [|done].
  apply od_read_buffer in Hr as [[Hb _] Hn].
  destruct ((0 <? n) && (n <=? 4)) eqn:E.
  - rewrite slice_prefix by lia. rstep.
    assert (len (take (Z.to_nat n) buf) = n) as Hl by (rewrite length_take; lia).
    rewrite encode_upload_response_expedited_eq by lia. rstep. unfold after_dispatch.
    destruct (expedited_reply_fields (take (Z.to_nat n) buf) ltac:(lia)) as (Hne & _).
    cbn [andb io_resp set_transfer respond].
    match goal with |- context [if ?c then _ else _] =>
      change c with (at_ (expedited_reply (take (Z.to_nat n) buf)) 0 =? 0x80) end.
    by rewrite (proj2 (Z.eqb_neq _ _) Hne).
  - rewrite encode_upload_response_segmented_eq. rstep.
    rewrite (wrap_id 32 n) by (unfold is_uint, BUF_LEN in *; lia). done.
Qed.

Definition upload_client : SdoClient :=
  mkClient target (WaitingUploadInitResponse i s) (zeros MAX_TRANSFER) 0 0 None false.

Lemma client_expedited v :
  1 ≤ len v ≤ 4 →
  ∃ c, process_response MAX_TRANSFER upload_client (expedited_reply v) =
    Ret (c, UploadComplete (len v)) ∧ data c = Ret v.
Proof using All.
  intros Hl. destruct (expedited_reply_fields v Hl) as (_ & Hcs & He & Hsz & Hn & Hsl & _).
  unfold process_response. rewrite Hcs. change (_ =? Scs.AbortTransfer) with false.
  cbn [cl_state upload_client]. change (negb (_ =? Scs.InitiateUploadResponse)) with false.
  unfold expedited_reply at 1 2. rewrite response_index_header by done. unfold header at 1.
  cbn [at_ nth]. rewrite !Z.eqb_refl. cbn [negb orb].
  unfold handle_upload_init_response. rewrite He, Hsz, Hn, usub_ret by lia. rstep.
  replace (4 - (4 - len v)) with (len v) by lia. unfold MAX_TRANSFER.
  rewrite (proj2 (Z.ltb_ge _ _)) by lia. rewrite Hsl. rstep. cbn [cl_buf upload_client].
  rewrite copy_from_slice_ret by (unfold MAX_TRANSFER; rewrite ?len_zeros; lia). rstep.
  eexists. split; [reflexivity|]. unfold data. cbn [cl_buf cl_offset].
  rewrite slice_prefix; [|lia|unfold MAX_TRANSFER; rewrite copy_length; rewrite ?len_zeros; lia].
  change (Z.to_nat 0) with 0%nat. rewrite take_0, Nat2Z.id. simpl app. by rewrite take_app_length.
Qed.

Lemma client_size n :
  0 ≤ n ≤ BUF_LEN →
  ∃ c, process_response MAX_TRANSFER upload_client (header 0x41 i s (to_le_bytes 4 n)) =
    Ret (c, if MAX_TRANSFER <? n then ProtocolViolation
            else SendNext (sdo_frame (CobId.sdo_rx target) (segment_request false))) ∧
    if MAX_TRANSFER <? n then cl_state c = Idle
    else ∀ v, len v = n → up_client v c 0 false.
Proof using All.
  intros Hn. unfold process_response. change (_ =? Scs.AbortTransfer) with false.
  cbn [cl_state upload_client]. change (negb (_ =? Scs.InitiateUploadResponse)) with false.
  rewrite response_index_header by done. unfold header at 1.
  cbn [at_ nth]. rewrite !Z.eqb_refl. cbn [negb orb].
  unfold handle_upload_init_response. change (negb (Z.land (at_ _ 0) 2 =? 0)) with false.
  change (negb (Z.land (at_ _ 0) 1 =? 0)) with true. cbn iota.
  assert (response_u32 (header 65 i s (to_le_bytes 4 n)) = n) as ->.
  { change (from_le_bytes (to_le_bytes 4 n) = n). apply from_to_le_id. unfold BUF_LEN in *. simpl. lia. }
  destruct (Z.ltb_spec MAX_TRANSFER n).
  - eexists. by split.
  - rewrite make_request by done. rstep. eexists. split; [reflexivity|].
    intros v <-. split_and!; done.
Qed.

Lemma read_abort_code od e buf :
  od_read od i s (zeros BUF_LEN) = (buf, Err e) → is_u32 (od_read_abort od i e).
Proof using All.
  intros Hr. unfold od_read_abort, od_error_to_abort. repeat case_match; subst; try done.
  apply (od_read_abort_u32 od i s (zeros BUF_LEN)). by rewrite Hr.
Qed.

(** The driver's abort of a broken-off transfer clears the server's side. *)
Lemma abort_settles lp buf n now :
  lp_srv lp = mkSrv (Some (Segmented (mkSeg i s false Upload buf 0 n true now)))
                (committed_write (lp_srv lp)) →
  lp_rx lp = [] →
  finish drv lp i s (@Err (result (list Z * bool) (SdoError loop_error)) _ ErrProtocol) =
    Ret (settled lp, Err ErrProtocol).
Proof using Htarget.
  intros Hsrv Hrx. unfold wf_node in Htarget. unfold finish, send_abort.
  rewrite encode_abort_eq. rstep. simpl drv_target.
  rewrite sdo_frame_new by (done || (unfold CobId.sdo_rx; lia)). simpl can_transmit.
  unfold loop_transmit. rewrite sdo_frame_data by done. simpl CanFrame.raw_id. rewrite Z.eqb_refl.
  simpl andb. rewrite process_idle by (by rewrite Hsrv).
  change (dispatch _ _ _ _) with (@Ret (Io OD * bool) (set_transfer
    (mkIo (lp_srv lp) (lp_od lp) (zeros 8) (lp_events lp)) None, false)).
  rstep. cbn. by rewrite Hrx.
Qed.

Lemma upload_reads fuel lp buf_len :
  takes_requests (lp_srv lp) → lp_rx lp = [] → (40 ≤ fuel)%nat →
  upload fuel drv lp i s buf_len = Ret (Some (settled lp, read_object lp buf_len)).
Proof using All.
  intros Hsrv Hrx Hfuel. destruct fuel as [|fuel]; [lia|].
  pose proof (server_upload_init lp Hsrv) as Hproc.
  unfold upload, upload_impl, start_upload. cbn [new target_node cl_buf drv_target drv driver_new].
  change (put_index _ _ _) with upload_request. rewrite request_frame_eq by done. rstep.
  change (mkClient _ _ _ _ _ _ _) with upload_client.
  unfold send at 1, read_object. simpl can_transmit.
  destruct (od_read (lp_od lp) i s (zeros BUF_LEN)) as [buf [n|e]] eqn:Hr.
  - pose proof (od_read_buffer _ _ _ _ _ Hr) as [[Hb _] Hn].
    assert (len (take (Z.to_nat n) buf) = n) as Hl by (rewrite length_take; lia).
    destruct ((0 <? n) && (n <=? 4)) eqn:E.
    + destruct (expedited_reply_fields (take (Z.to_nat n) buf) ltac:(lia)) as (_&_&_&_&_&_&Hlen).
      erewrite transmit_reply; [|done| |exact Hproc]; [|done].
      rewrite Hrx. cbn [app upload_loop]. erewrite receive_one by reflexivity.
      rewrite sdo_frame_data by done.
      destruct (client_expedited (take (Z.to_nat n) buf) ltac:(lia)) as (c & -> & Hd). rstep.
      rewrite Hl, Hd. unfold MAX_TRANSFER. rewrite (proj2 (Z.ltb_ge 256 n)) by lia.
      destruct (buf_len <? n); [done|]. rstep. rewrite slice_prefix by lia. rstep.
      by rewrite firstn_firstn, Nat.min_id.
    + erewrite transmit_reply; [|done| |exact Hproc]; [|done].
      rewrite Hrx. cbn [app upload_loop]. erewrite receive_one by reflexivity.
      rewrite sdo_frame_data by done.
      destruct (client_size n Hn) as (c & -> & Hc). rstep.
      destruct (Z.ltb_spec MAX_TRANSFER n) as [Hbig|Hsmall].
      * unfold with_rx. cbn [lp_srv lp_od lp_events].
        rstep. by erewrite abort_settles.
      * pose proof (request_next (take (Z.to_nat n) buf)
          ltac:(lia) (with_rx lp []) fuel c) as Hnext. rewrite Hl in Hnext.
        rewrite (Hnext _ 0 false); [by destruct (buf_len <? n)| |unfold MAX_TRANSFER in *; lia].
        split_and!; try done; try lia; [by apply Hc|]. exists buf, (ctx_now_us ctx).
        unfold up_server. rewrite Hl. split_and!; [done|done|f_equal; lia].
  - erewrite transmit_reply; [|done| |exact Hproc]; [|done].
    rewrite Hrx. cbn [app upload_loop]. erewrite receive_one by reflexivity.
    rewrite sdo_frame_data by done.
    rewrite (abort_response i s Hi upload_client (WaitingUploadInitResponse i s)); try done.
    by eapply read_abort_code.
Qed.

(** C7. An SDO upload is one read of the object: the driver returns exactly
    the bytes the dictionary produced (expedited up to 4 bytes, segmented
    otherwise), the abort code of a refused read, [TooLarge] for a value
    longer than the caller's buffer, and [Protocol] for one longer than the
    client's own; in every case the server holds no transfer afterwards and
    dictionary and events are untouched.  40 iterations are always enough. *)
Theorem upload_is_read fuel lp buf_len :
  takes_requests (lp_srv lp) → lp_rx lp = [] → (40 ≤ fuel)%nat →
  upload fuel drv lp i s buf_len = Ret (Some (settled lp, read_object lp buf_len)).
Proof using All. intros. by apply upload_reads. Qed.
End upload.

End transfer.

(** ** Instances *)

Definition demo_loop : Loop TableOd := mkLoop SdoServerState.new demo_od [] [].
Definition demo_value : list Z := [1; 2; 3; 4; 5; 6; 7; 8; 9; 10].
Definition demo_can : AsyncCan (Loop TableOd) loop_error := loop_can 4 (demo_ctx Operational) 5.

Lemma download_is_write_witness :
  let r := write_object 4 (demo_ctx Operational) demo_loop 0x2000 0 demo_value in
  snd r = Ok tt ∧
  option_map te_value (table_find (lp_od (fst r)) 0x2000 0) = Some demo_value ∧
  @download _ _ demo_can 4 (drv 5) demo_loop 0x2000 0 demo_value = Ret (Some (fst r, Ok tt)).
Proof.
  split; [reflexivity|]. split; [reflexivity|].
  refine (download_is_write 4 (demo_ctx Operational) 5 _ 0x2000 0 demo_value _ _ _ _ 4 demo_loop
            _ _ _ _); try reflexivity; try exact I; unfold wf_node, is_uint; simpl; try lia.
  - repeat constructor; unfold is_uint; lia.
  - unfold MAX_TRANSFER. lia.
Defined.

Lemma upload_is_read_witness :
  read_object 0x2001 0 demo_loop 8 = Ok [1; 2; 3; 4] ∧
  @upload _ _ demo_can 40 (drv 5) demo_loop 0x2001 0 8 =
    Ret (Some (settled demo_loop, read_object 0x2001 0 demo_loop 8)).
Proof.
  split; [vm_compute; reflexivity|].
  apply (upload_is_read 4 (demo_ctx Operational) 5); try reflexivity; try exact I;
    unfold wf_node, is_uint; lia.
Defined.
