(* ===== verification/Crc.v ===== *)
(** * The CRC of block transfers

    [crc16_ccitt_update] of [canopen-core/src/sdo/server.rs] is linear and
    every step of its register is invertible, so it tells apart any two
    messages that differ only in two adjacent bytes. *)
From S2P Require Import Prelude Od SdoServer.

Definition forall_u16 (f : Z → bool) : bool :=
  let bs := seqZ 0 256 in forallb (λ h, forallb (λ l, f (256 * h + l)) bs) bs.

Lemma u16_forall (f : Z → bool) : forall_u16 f = true → ∀ c, is_u16 c → f c = true.
Proof.
  intros H c Hc. unfold is_uint in Hc. pose proof (Z.div_mod c 256 ltac:(lia)) as ->.
  pose proof (Z.mod_pos_bound c 256 ltac:(lia)).
  assert (0 ≤ c / 256 < 256) by (split; [apply Z.div_pos|apply Z.div_lt_upper_bound]; lia).
  pose proof (byte_forall _ H (c / 256) ltac:(unfold is_uint; lia)) as H'. cbv beta in H'.
  exact (byte_forall _ H' (c mod 256) ltac:(unfold is_uint; lia)).
Qed.

(** One step backwards: the feedback was added when the result is odd. *)
Definition crc16_unbit (c : Z) : Z :=
  if Z.testbit c 0 then Z.lor (Z.shiftr (Z.lxor c 0x1021) 1) 0x8000 else Z.shiftr c 1.

Lemma crc16_bit_u16 c : is_u16 c → is_u16 (crc16_bit c).
Proof.
  assert (forall_u16 (λ c, (0 <=? crc16_bit c) && (crc16_bit c <? 2 ^ 16)) = true)
    as Hall by (vm_compute; reflexivity).
  intros Hc. pose proof (u16_forall _ Hall c Hc) as H. clear Hall. by apply is_uint_dec_spec in H.
Qed.

Lemma crc16_unbit_bit c : is_u16 c → crc16_unbit (crc16_bit c) = c.
Proof.
  assert (forall_u16 (λ c, crc16_unbit (crc16_bit c) =? c) = true)
    as Hall by (vm_compute; reflexivity).
  intros Hc. pose proof (u16_forall _ Hall c Hc) as H. clear Hall. by apply Z.eqb_eq in H.
Qed.

Lemma crc16_bit_eq c :
  is_u16 c → crc16_bit c = Z.lxor (as_u16 (Z.shiftl c 1)) (if Z.testbit c 15 then 0x1021 else 0).
Proof.
  assert (forall_u16 (λ c, crc16_bit c =?
            Z.lxor (as_u16 (Z.shiftl c 1)) (if Z.testbit c 15 then 0x1021 else 0)) = true) as Hall by (vm_compute; reflexivity).
  intros Hc. pose proof (u16_forall _ Hall c Hc) as H. clear Hall. by apply Z.eqb_eq in H.
Qed.

Lemma wrap_lxor w a b : 0 ≤ w → wrap w (Z.lxor a b) = Z.lxor (wrap w a) (wrap w b).
Proof.
  intros Hw. apply Z.bits_inj'. intros n Hn. rewrite Z.lxor_spec. unfold wrap.
  destruct (Z.lt_ge_cases n w).
  - rewrite !Z.mod_pow2_bits_low by lia. apply Z.lxor_spec.
  - by rewrite !Z.mod_pow2_bits_high by lia.
Qed.

Lemma u16_lxor a b : is_u16 a → is_u16 b → is_u16 (Z.lxor a b).
Proof.
  intros Ha Hb. rewrite <- (wrap_id 16 a Ha), <- (wrap_id 16 b Hb), <- wrap_lxor by lia.
  by apply wrap_range.
Qed.

Lemma crc16_bit_lxor a b :
  is_u16 a → is_u16 b → crc16_bit (Z.lxor a b) = Z.lxor (crc16_bit a) (crc16_bit b).
Proof.
  intros Ha Hb. rewrite !crc16_bit_eq by auto using u16_lxor.
  rewrite Z.shiftl_lxor, wrap_lxor, Z.lxor_spec by lia.
  destruct (Z.testbit a 15), (Z.testbit b 15); simpl; rewrite ?Z.lxor_0_r;
    rewrite ?Z.lxor_assoc; f_equal.
  - rewrite (Z.lxor_comm 0x1021), Z.lxor_assoc, Z.lxor_nilpotent. by rewrite Z.lxor_0_r.
  - apply Z.lxor_comm.
Qed.

Abbreviation crc16_iter := (Nat.iter 8 crc16_bit).

Lemma iter_u16 n c : is_u16 c → is_u16 (Nat.iter n crc16_bit c).
Proof. intros Hc. induction n; simpl; auto using crc16_bit_u16. Qed.

Lemma iter_lxor n a b :
  is_u16 a → is_u16 b →
  Nat.iter n crc16_bit (Z.lxor a b) = Z.lxor (Nat.iter n crc16_bit a) (Nat.iter n crc16_bit b).
Proof.
  intros Ha Hb. induction n as [|n IH]; simpl; [done|].
  rewrite IH. by apply crc16_bit_lxor; apply iter_u16.
Qed.

Lemma iter_inj n a b :
  is_u16 a → is_u16 b → Nat.iter n crc16_bit a = Nat.iter n crc16_bit b → a = b.
Proof.
  intros Ha Hb. induction n as [|n IH]; simpl; [done|]. intros He. apply IH.
  rewrite <- (crc16_unbit_bit (Nat.iter n crc16_bit a)) by by apply iter_u16.
  rewrite He. by apply crc16_unbit_bit, iter_u16.
Qed.

Lemma high_byte_u16 b : is_u8 b → is_u16 (Z.shiftl b 8) ∧ as_u16 (Z.shiftl b 8) = Z.shiftl b 8.
Proof.
  intros Hb. unfold is_uint in *. rewrite Z.shiftl_mul_pow2 by lia.
  split; [lia|]. apply wrap_id. unfold is_uint. lia.
Qed.

Lemma crc16_byte_u16 c b : is_u16 c → is_u8 b → is_u16 (crc16_byte c b).
Proof.
  intros Hc Hb. destruct (high_byte_u16 b Hb) as [Hu He]. unfold crc16_byte. rewrite He.
  by apply iter_u16, u16_lxor.
Qed.

Lemma crc16_u16 c data : is_u16 c → bytes data → is_u16 (crc16_ccitt_update c data).
Proof.
  intros Hc Hd. revert c Hc. induction Hd as [|b d Hb _ IH]; intros c Hc; simpl; [done|].
  by apply IH, crc16_byte_u16.
Qed.

Lemma crc16_app c d1 d2 :
  crc16_ccitt_update c (d1 ++ d2) = crc16_ccitt_update (crc16_ccitt_update c d1) d2.
Proof. apply fold_left_app. Qed.

(** The register is shifted eight times without feedback. *)
Lemma iter_low_byte b : is_u8 b → crc16_iter b = Z.shiftl b 8.
Proof.
  assert (forallb (λ b, crc16_iter b =? Z.shiftl b 8) (seqZ 0 256) = true)
    as Hall by (vm_compute; reflexivity).
  intros Hb. pose proof (byte_forall _ Hall b Hb) as H. clear Hall. by apply Z.eqb_eq in H.
Qed.

Lemma iter_twice {A} (f : A → A) n m a : Nat.iter (n + m) f a = Nat.iter n f (Nat.iter m f a).
Proof. induction n; simpl; congruence. Qed.

Lemma u8_u16 b : is_u8 b → is_u16 b.
Proof. unfold is_uint. lia. Qed.

Lemma crc16_two_bytes c a b :
  is_u16 c → is_u8 a → is_u8 b →
  crc16_byte (crc16_byte c a) b =
    Nat.iter 16 crc16_bit (Z.lxor c (Z.lxor (Z.shiftl a 8) b)).
Proof.
  intros Hc Ha Hb. destruct (high_byte_u16 a Ha) as [Hau Hae]. destruct (high_byte_u16 b Hb) as [Hbu Hbe].
  change 16%nat with (8 + 8)%nat. rewrite iter_twice. unfold crc16_byte. f_equal.
  rewrite Hae, Hbe, <- (iter_low_byte b Hb), <- iter_lxor by auto using u16_lxor, u8_u16.
  f_equal. apply Z.lxor_assoc.
Qed.

Lemma crc16_register_inj c c' d :
  is_u16 c → is_u16 c' → bytes d → crc16_ccitt_update c d = crc16_ccitt_update c' d → c = c'.
Proof.
  intros Hc Hc' Hd. revert c c' Hc Hc'. induction Hd as [|b d Hb _ IH]; intros c c' Hc Hc'; simpl; [done|].
  intros He. apply IH in He; [|by apply crc16_byte_u16..].
  destruct (high_byte_u16 b Hb) as [Hu Heq]. unfold crc16_byte in He. rewrite Heq in He.
  apply iter_inj in He; [|by apply u16_lxor..].
  rewrite <- (Z.lxor_0_r c), <- (Z.lxor_nilpotent (Z.shiftl b 8)), <- Z.lxor_assoc, He.
  by rewrite Z.lxor_assoc, Z.lxor_nilpotent, Z.lxor_0_r.
Qed.

Lemma lxor_cancel c x y : Z.lxor c x = Z.lxor c y → x = y.
Proof.
  intros H. rewrite <- (Z.lxor_0_l x), <- (Z.lxor_0_l y), <- (Z.lxor_nilpotent c).
  by rewrite !Z.lxor_assoc, H.
Qed.

Lemma word_bytes a b : is_u8 a → is_u8 b → Z.lxor (Z.shiftl a 8) b = 256 * a + b.
Proof.
  unfold is_uint. intros Ha Hb. rewrite Z.shiftl_mul_pow2 by lia.
  pose proof (land_disjoint b a ltac:(lia)) as Hd. rewrite Z.land_comm in Hd.
  rewrite <- Z.add_nocarry_lxor by done. lia.
Qed.

Lemma crc16_byte_inj p a a' :
  is_u16 p → is_u8 a → is_u8 a' → crc16_byte p a = crc16_byte p a' → a = a'.
Proof.
  intros Hp Ha Ha' He. destruct (high_byte_u16 a Ha) as [Hu Hw], (high_byte_u16 a' Ha') as [Hu' Hw'].
  unfold crc16_byte in He. rewrite Hw, Hw' in He.
  apply iter_inj in He; [|by apply u16_lxor..]. apply lxor_cancel in He.
  unfold is_uint in *. rewrite !Z.shiftl_mul_pow2 in He by lia. lia.
Qed.

Lemma crc16_two_bytes_inj p a b a' b' :
  is_u16 p → is_u8 a → is_u8 b → is_u8 a' → is_u8 b' →
  crc16_byte (crc16_byte p a) b = crc16_byte (crc16_byte p a') b' → a = a' ∧ b = b'.
Proof.
  intros Hp Ha Hb Ha' Hb' He. rewrite !crc16_two_bytes in He by done.
  assert (∀ x y, is_u8 x → is_u8 y → is_u16 (Z.lxor p (Z.lxor (Z.shiftl x 8) y))) as Hu.
  { intros. apply u16_lxor, u16_lxor; [done|by apply high_byte_u16|by apply u8_u16]. }
  apply iter_inj in He; [|by apply Hu..]. apply lxor_cancel in He.
  rewrite !word_bytes in He by done. unfold is_uint in *. lia.
Qed.

#[local] Opaque crc16_byte.

(** Two messages of the same length that differ only within two adjacent
    bytes never have the same CRC: every corruption confined to two bytes of a
    block transfer, single-bit errors included, is detected by the check. *)
Theorem crc16_detects_burst (c : Z) (pre w w' post : list Z) :
  is_u16 c → bytes pre → bytes w → bytes w' → bytes post →
  length w = length w' → (length w ≤ 2)%nat → w ≠ w' →
  crc16_ccitt_update c (pre ++ w ++ post) ≠ crc16_ccitt_update c (pre ++ w' ++ post).
Proof.
  intros Hc Hpre Hw Hw' Hpost Hl H2 Hne He. apply Hne. rewrite !crc16_app in He.
  pose proof (crc16_u16 c pre Hc Hpre) as Hp. set (p := crc16_ccitt_update c pre) in *.
  apply crc16_register_inj in He; [|by apply crc16_u16..|done].
  destruct w as [|a [|b [|]]], w' as [|a' [|b' [|]]]; cbn [length] in Hl, H2; try lia;
    [reflexivity| |]; unfold crc16_ccitt_update in He; cbn [fold_left] in He.
  - f_equal. exact (crc16_byte_inj p _ _ Hp (Forall_inv Hw) (Forall_inv Hw') He).
  - destruct (crc16_two_bytes_inj p a b a' b' Hp (Forall_inv Hw) (Forall_inv (Forall_inv_tail Hw))
      (Forall_inv Hw') (Forall_inv (Forall_inv_tail Hw')) He) as [-> ->]. reflexivity.
Qed.

Lemma crc16_detects_burst_witness :
  crc16_ccitt_update 0 ([1; 2] ++ [3; 4] ++ [5]) ≠ crc16_ccitt_update 0 ([1; 2] ++ [3; 5] ++ [5]).
Proof.
  apply crc16_detects_burst; [unfold is_uint; lia| | | | |reflexivity|simpl; lia|discriminate];
    repeat (apply List.Forall_cons; [unfold is_uint; lia|]); apply List.Forall_nil.
Defined.
