(* ===== verification/SdoBlock.v ===== *)
(** * Block transfers

    A block download is one validated write of the client's bytes when the CRC
    matches and no write otherwise; a block upload delivers exactly the bytes
    of the object whatever the client acknowledges on the way. *)
From S2P Require Import Prelude Frame Nmt Od SdoProtocol SdoServer SdoServerSafe SdoClient SdoDriver SdoTransfer Crc.

(** ** Block downloads *)

(** A block segment: sequence number and last flag, then seven data bytes. *)
Definition block_segment (k : Z) (last : bool) (chunk : list Z) : list Z :=
  (if last then 0x80 + k else k) :: chunk ++ zeros (7 - len chunk).

Lemma block_segment_fields (k : Z) (last : bool) :
  1 ≤ k ≤ 127 →
  let h := if last then 0x80 + k else k in
  h ≠ 0x80 ∧ Z.land h 0x7F = k ∧ negb (Z.land h 0x80 =? 0) = last.
Proof.
  intros Hk h.
  pose (f := λ k : Z, let h := if last then 0x80 + k else k in
    negb (h =? 0x80) && (Z.land h 0x7F =? k) && Bool.eqb (negb (Z.land h 0x80 =? 0)) last).
  assert (forallb f (seqZ 1 127) = true) as Hall by (unfold f; destruct last; vm_compute; reflexivity).
  pose proof (node_forall f Hall k Hk) as H. clear Hall. unfold f in H.
  apply andb_true_iff in H as [[H1 H2]%andb_true_iff H3].
  apply negb_true_iff, Z.eqb_neq in H1. apply Z.eqb_eq in H2. apply Bool.eqb_prop in H3. done.
Qed.

Section block.
Context {OD : Type} `{OdLaws OD} (EVT_QUEUE : nat) (ctx : SdoContext).
Context (target : Z) (Htarget : wf_node target).

Implicit Types (lp : Loop OD).

(** Offering requests one after the other; each response joins [lp_rx]. *)
Fixpoint transmit_all lp (requests : list (list Z)) : Loop OD * result unit loop_error :=
  match requests with
  | [] => (lp, Ok tt)
  | r :: rs =>
      match loop_transmit EVT_QUEUE ctx target lp (sdo_frame (CobId.sdo_rx target) r) with
      | (lp, Ok _) => transmit_all lp rs
      | (lp, Err e) => (lp, Err e)
      end
  end.

Lemma transmit_all_app lp r1 r2 :
  transmit_all lp (r1 ++ r2) =
  match transmit_all lp r1 with
  | (lp, Ok _) => transmit_all lp r2
  | (lp, Err e) => (lp, Err e)
  end.
Proof.
  revert lp. induction r1 as [|r r1 IH]; intros lp; simpl; [done|].
  destruct (loop_transmit _ _ _ _ _) as [lp' [[]|e]]; [apply IH|done].
Qed.

(** A request the server takes without an answer. *)
Lemma transmit_silent lp req srv od resp ev :
  length req = 8%nat →
  process_with_context EVT_QUEUE (mkIo (lp_srv lp) (lp_od lp) (zeros 8) (lp_events lp)) req ctx
    = Ret (mkIo srv od resp ev, false) →
  loop_transmit EVT_QUEUE ctx target lp (sdo_frame (CobId.sdo_rx target) req) =
    (mkLoop srv od ev (lp_rx lp), Ok tt).
Proof.
  intros Hreq Hp. unfold loop_transmit. rewrite sdo_frame_data by done. simpl.
  rewrite Z.eqb_refl. simpl. by rewrite Hp.
Qed.

Section download.
Context (i s : Z) (v : list Z) (crc : Z).
Context (Hi : is_u16 i) (Hs : is_u8 s) (Hv : bytes v) (Hlen : 1 ≤ len v ≤ BUF_LEN) (Hcrc : is_u16 crc).

Definition segment_count : Z := (len v + 6) / 7.

Definition block_initiate : list Z := header 0xC6 i s (to_le_bytes 4 (len v)).

Definition block_request (k : Z) : list Z :=
  block_segment k (k =? segment_count) (chunk_at v (7 * (k - 1))).

Definition block_end : list Z :=
  Z.lor 0xC1 (Z.shiftl (7 * segment_count - len v) 2) :: to_le_bytes 2 crc ++ zeros 5.

Definition block_download_frames : list (list Z) :=
  block_initiate :: map block_request (seqZ 1 segment_count) ++ [block_end].

Definition bd_server (cw : option (Z * Z)) (k : Z) (awaiting : bool) (buf : list Z) (now : Z)
    : SdoServer :=
  mkSrv (Some (BlockDownload (mkBd i s buf (7 * k) (len v) true MAX_BLKSIZE k awaiting true now))) cw.

(** The server has stored the first [k] segments. *)
Definition received lp0 lp (k : Z) : Prop :=
  lp_od lp = lp_od lp0 ∧ lp_events lp = lp_events lp0 ∧
  ∃ buf now, lp_srv lp = bd_server (committed_write (lp_srv lp0)) k (k =? segment_count) buf now ∧
    len buf = BUF_LEN ∧ take (Z.to_nat (Z.min (7 * k) (len v))) buf =
                        take (Z.to_nat (Z.min (7 * k) (len v))) v.

Definition ini_reply : list Z :=
  0xA4 :: as_u8 (Z.land i 0xFF) :: as_u8 (Z.shiftr i 8) :: s :: MAX_BLKSIZE :: zeros 3.
Definition subblock_reply : list Z := 0xA2 :: segment_count :: MAX_BLKSIZE :: zeros 5.
Definition end_reply : list Z := 0xA1 :: zeros 7.

Lemma segment_count_bounds :
  1 ≤ segment_count ≤ 127 ∧ 0 ≤ 7 * segment_count - len v ≤ 6.
Proof using Hlen.
  clear - Hlen. unfold segment_count, BUF_LEN in *.
  pose proof (Z.div_mod (len v + 6) 7). pose proof (Z.mod_pos_bound (len v + 6) 7). lia.
Qed.

Lemma server_block_segment lp0 lp k :
  received lp0 lp k → 0 ≤ k < segment_count → lp_rx lp = lp_rx lp0 →
  ∃ lp', loop_transmit EVT_QUEUE ctx target lp
           (sdo_frame (CobId.sdo_rx target) (block_request (k + 1))) = (lp', Ok tt) ∧
    received lp0 lp' (k + 1) ∧
    lp_rx lp' = lp_rx lp0 ++ (if k + 1 =? segment_count
                              then [sdo_frame (CobId.sdo_tx target) subblock_reply] else []).
Proof using All.
  intros (Hod & Hev & buf & now & Hsrv & Hb & Hp) Hk Hrx.
  pose proof segment_count_bounds as [Hcnt Hun].
  assert (0 ≤ 7 * k ≤ len v) as Ho by lia. pose proof (chunk_len v (7 * k) Ho) as Hc.
  destruct (block_segment_fields (k + 1) (k + 1 =? segment_count) ltac:(lia)) as (Hne & Hseq & Hlast).
  pose (c := chunk_at v (7 * k)). pose (req := block_request (k + 1)).
  assert (req = block_segment (k + 1) (k + 1 =? segment_count) c) as Hreq.
  { unfold req, block_request, c. do 2 f_equal. lia. }
  assert (length req = 8%nat) as Hl8.
  { rewrite Hreq. unfold block_segment. simpl. rewrite length_app.
    pose proof (len_zeros (7 - len c)). unfold c in *. lia. }
  assert (process_with_context EVT_QUEUE (mkIo (lp_srv lp) (lp_od lp) (zeros 8) (lp_events lp)) req ctx
    = Ret (mkIo (bd_server (committed_write (lp_srv lp0)) (k + 1) (k + 1 =? segment_count)
               (take (Z.to_nat (7 * k)) buf ++ (c ++ zeros (7 - len c)) ++ drop (Z.to_nat (7 * k + 7)) buf)
               (ctx_now_us ctx)) (lp_od lp)
             (if k + 1 =? segment_count then subblock_reply else zeros 8) (lp_events lp),
           k + 1 =? segment_count)) as Hproc.
  { unfold process_with_context. rewrite Hsrv. unfold receiving_block, bd_server at 1.
    cbn [transfer io_srv bd_awaiting_end].
    assert (at_ req 0 = if k + 1 =? segment_count then 0x80 + (k + 1) else k + 1) as Hhd by by rewrite Hreq.
    rewrite Hhd, (proj2 (Z.eqb_neq k segment_count)), (proj2 (Z.eqb_neq _ 0x80) Hne) by lia.
    cbn [negb andb]. unfold handle_block_download_segment, bd_server at 1.
    cbn [transfer io_srv bd_seqno bd_index bd_subindex bd_offset bd_buf bd_blksize bd_awaiting_end
         bd_total_len bd_size_indicated bd_crc_enabled].
    rewrite Hhd, Hseq, Hlast, (wrap_id 8 (k + 1)), Z.eqb_refl by (unfold is_uint; lia).
    rewrite (proj2 (Z.eqb_neq (k + 1) 0)) by lia. cbn [negb orb].
    unfold BUF_LEN in *. rewrite usub_ret by lia. rstep. rewrite (proj2 (Z.ltb_ge _ 7)) by lia.
    assert (slice req 1 (1 + 7) = Ret (c ++ zeros (7 - len c))) as ->.
    { rewrite slice_ret by lia. rewrite Hreq. unfold block_segment. change (Z.to_nat 1) with 1%nat.
      cbn [drop]. rewrite drop_0, take_ge; [done|].
      rewrite length_app. pose proof (len_zeros (7 - len c)). unfold c in *. lia. }
    rstep. rewrite copy_from_slice_ret; try lia.
    2: { rewrite length_app. pose proof (len_zeros (7 - len c)). unfold c in *. lia. }
    rstep. replace (7 * k + 7) with (7 * (k + 1)) by lia.
    destruct (Z.eqb_spec (k + 1) segment_count) as [He|He].
    - cbn [orb]. rstep. unfold subblock_reply. rewrite <- He. done.
    - rewrite (proj2 (Z.leb_gt _ _)) by (unfold MAX_BLKSIZE; lia). done. }
  assert (7 * k + len c = Z.min (7 * (k + 1)) (len v)) as Hmin by (unfold c in *; lia).
  assert (∀ lp', lp_od lp' = lp_od lp → lp_events lp' = lp_events lp →
    lp_srv lp' = bd_server (committed_write (lp_srv lp0)) (k + 1) (k + 1 =? segment_count)
      (take (Z.to_nat (7 * k)) buf ++ (c ++ zeros (7 - len c)) ++ drop (Z.to_nat (7 * k + 7)) buf)
      (ctx_now_us ctx) → received lp0 lp' (k + 1)) as Hrec.
  { intros lp' E1 E2 E3. split; [by rewrite E1|]. split; [by rewrite E2|].
    eexists _, _. split; [exact E3|].
    unfold BUF_LEN in *. split.
    - rewrite copy_length; rewrite ?length_app; pose proof (len_zeros (7 - len c)); unfold c in *; lia.
    - rewrite <- Hmin. unfold c. rewrite <- prefix_extend by done. fold c.
      assert (take (Z.to_nat (7 * k)) buf = take (Z.to_nat (7 * k)) v) as Hpre.
      { rewrite Z.min_l in Hp by lia. exact Hp. }
      rewrite Hpre, <- app_assoc, (app_assoc (take _ v)).
      apply take_app_length'. rewrite length_app, length_take. lia. }
  destruct (k + 1 =? segment_count) eqn:He.
  - eexists. split; [by eapply transmit_reply; [..|exact Hproc]|]. split; [by apply Hrec|].
    simpl. by rewrite Hrx.
  - eexists. split; [by eapply transmit_silent; [|exact Hproc]|]. split; [by apply Hrec|].
    simpl. by rewrite Hrx, app_nil_r.
Qed.

Lemma server_block_segments lp0 lp (n : nat) :
  received lp0 lp 0 → Z.of_nat n ≤ segment_count → lp_rx lp = lp_rx lp0 →
  ∃ lp', transmit_all lp (map block_request (seqZ 1 (Z.of_nat n))) = (lp', Ok tt) ∧
    received lp0 lp' (Z.of_nat n) ∧
    lp_rx lp' = lp_rx lp0 ++ (if Z.of_nat n =? segment_count
                              then [sdo_frame (CobId.sdo_tx target) subblock_reply] else []).
Proof using All.
  intros Hr Hn Hrx. pose proof segment_count_bounds as [Hcnt _].
  induction n as [|n IH].
  - eexists. split; [done|]. split; [done|].
    rewrite (proj2 (Z.eqb_neq _ _)) by lia. by rewrite app_nil_r.
  - destruct IH as (lp1 & Htx & Hr1 & Hrx1); [lia|].
    rewrite (proj2 (Z.eqb_neq (Z.of_nat n) _)), app_nil_r in Hrx1 by lia.
    destruct (server_block_segment lp0 lp1 (Z.of_nat n) Hr1 ltac:(lia) Hrx1) as (lp2 & Htx2 & Hr2 & Hrx2).
    exists lp2. replace (Z.of_nat (S n)) with (Z.of_nat n + 1) in * by lia. split; [|done].
    replace (Z.of_nat n + 1) with (Z.of_nat (S n)) by lia.
    rewrite seqZ_S, map_app, transmit_all_app, Htx. simpl map. rewrite Z.add_comm. simpl transmit_all.
    by rewrite Htx2.
Qed.

Lemma server_block_initiate lp :
  takes_requests (lp_srv lp) → locked ctx i = false → lp_rx lp = [] →
  ∃ lp', loop_transmit EVT_QUEUE ctx target lp (sdo_frame (CobId.sdo_rx target) block_initiate) =
    (lp', Ok tt) ∧ received lp lp' 0 ∧ lp_rx lp' = [sdo_frame (CobId.sdo_tx target) ini_reply].
Proof using All.
  intros Hsrv Hlock Hrx. pose proof segment_count_bounds as [Hcnt _].
  assert (process_with_context EVT_QUEUE (mkIo (lp_srv lp) (lp_od lp) (zeros 8) (lp_events lp))
      block_initiate ctx =
    Ret (mkIo (bd_server (committed_write (lp_srv lp)) 0 false (zeros BUF_LEN) (ctx_now_us ctx))
           (lp_od lp) ini_reply (lp_events lp), true)) as Hproc.
  { rewrite process_idle by by apply takes_requests_idle.
    unfold dispatch, block_initiate. change (command_specifier _) with 6. cbn [Z.eqb Pos.eqb].
    unfold handle_block_download. change (Z.land (at_ _ 0) 1) with 0. cbn [Z.eqb].
    unfold block_download_initiate. rewrite parse_index_sub_header by done.
    change (negb (Z.land (at_ _ 0) 2 =? 0)) with true.
    change (negb (Z.land (at_ _ 0) 4 =? 0)) with true. unfold locked in Hlock. 
    cbn [Z.eqb Pos.eqb]. rewrite Hlock. unfold declared_len, header.
    change (from_le_bytes _) with (from_le_bytes (to_le_bytes 4 (len v))).
    rewrite from_to_le_id by (unfold BUF_LEN in *; simpl; lia).
    by rewrite (proj2 (Z.ltb_ge _ _)) by lia. }
  eexists. split; [by eapply transmit_reply; [..|exact Hproc]|]. split; [|by simpl; rewrite Hrx].
  split; [done|]. split; [done|]. eexists _, _. split; [|split; [by rewrite len_zeros|]].
  - rewrite (proj2 (Z.eqb_neq 0 _)) by lia. reflexivity.
  - rewrite Z.min_l by lia. done.
Qed.

(** The dictionary's view of the end of the transfer. *)
Definition block_outcome lp : Loop OD * result unit Z :=
  if crc16_ccitt_update 0 v =? crc then write_object EVT_QUEUE ctx lp i s v
  else (settled lp, Err (AbortCode.to_u32 CrcError)).

Lemma block_end_fields :
  command_specifier (at_ block_end 0) = Ccs.BlockDownload ∧ Z.land (at_ block_end 0) 1 = 1 ∧
  Z.land (Z.shiftr (at_ block_end 0) 2) 7 = 7 * segment_count - len v ∧
  Z.lor (at_ block_end 1) (as_u16 (Z.shiftl (at_ block_end 2) 8)) = crc ∧ length block_end = 8%nat.
Proof using All.
  pose proof segment_count_bounds as [_ Hn]. unfold block_end.
  assert (∀ n, 0 ≤ n ≤ 6 → command_specifier (Z.lor 0xC1 (Z.shiftl n 2)) = Ccs.BlockDownload ∧
    Z.land (Z.lor 0xC1 (Z.shiftl n 2)) 1 = 1 ∧ Z.land (Z.shiftr (Z.lor 0xC1 (Z.shiftl n 2)) 2) 7 = n)
    as Hf.
  { intros n Hn'. assert (n = 0 ∨ n = 1 ∨ n = 2 ∨ n = 3 ∨ n = 4 ∨ n = 5 ∨ n = 6) by lia.
    by destruct_or!; subst. }
  destruct (Hf _ Hn) as (? & ? & ?). split_and!; try done.
  change (Z.lor (crc mod 256) (as_u16 (Z.shiftl ((crc / 256) mod 256) 8)) = crc).
  unfold is_uint in Hcrc. pose proof (Z.mod_pos_bound crc 256).
  assert (0 ≤ crc / 256 < 256) by (split; [apply Z.div_pos|apply Z.div_lt_upper_bound]; lia).
  rewrite (Z.mod_small (crc / 256)) by lia. rewrite wrap_id.
  - rewrite lor_shift by lia. pose proof (Z.div_mod crc 256). lia.
  - unfold is_uint. rewrite Z.shiftl_mul_pow2; lia.
Qed.

Lemma server_block_end lp0 lp :
  received lp0 lp segment_count →
  loop_transmit EVT_QUEUE ctx target lp (sdo_frame (CobId.sdo_rx target) block_end) =
    (with_rx (fst (block_outcome lp0)) (lp_rx lp ++
       [sdo_frame (CobId.sdo_tx target) (outcome_frame i s (snd (block_outcome lp0)) end_reply)]),
     Ok tt).
Proof using All.
  intros (Hod & Hev & buf & now & Hsrv & Hb & Hp). pose proof segment_count_bounds as [Hcnt Hn].
  destruct block_end_fields as (Hcs & H1 & Hun & Hc & Hl8).
  assert (process_with_context EVT_QUEUE (mkIo (lp_srv lp) (lp_od lp) (zeros 8) (lp_events lp))
      block_end ctx =
    Ret (mkIo (lp_srv (fst (block_outcome lp0))) (lp_od (fst (block_outcome lp0)))
           (outcome_frame i s (snd (block_outcome lp0)) end_reply)
           (lp_events (fst (block_outcome lp0))), true)) as Hproc.
  { rewrite process_idle.
    2: { rewrite Hsrv. unfold receiving_block, bd_server. cbn. by rewrite Z.eqb_refl. }
    unfold dispatch. rewrite Hcs. cbn [Z.eqb Pos.eqb Ccs.BlockDownload Ccs.InitiateUpload
      Ccs.UploadSegment Ccs.InitiateDownload Ccs.DownloadSegment Ccs.BlockUpload].
    change (6 =? Ccs.InitiateUpload) with false.
    unfold handle_block_download. rewrite H1. cbn [Z.eqb Pos.eqb].
    unfold block_download_end. rewrite Hsrv. unfold bd_server at 1.
    cbn [io_srv transfer bd_index bd_subindex bd_offset bd_buf bd_size_indicated bd_total_len bd_crc_enabled].
    rewrite Hun, Hc. unfold BUF_LEN in *.
    rewrite (proj2 (Z.ltb_ge 6 _)), (proj2 (Z.ltb_ge (7 * segment_count) _)) by lia. cbn [orb].
    rewrite usub_ret by lia. rstep.
    replace (7 * segment_count - (7 * segment_count - len v)) with (len v) by lia.
    rewrite slice_prefix by lia. rstep. rewrite Z.min_r in Hp by lia.
    rewrite Hp, Nat2Z.id, firstn_all, Z.eqb_refl. cbn [negb andb].
    unfold block_outcome. destruct (crc16_ccitt_update 0 v =? crc); cbn [negb].
    - pose proof (commit_outcome EVT_QUEUE ctx i s v lp0 (committed_write (lp_srv lp0)) end_reply eq_refl)
        as Hcom. destruct (write_object _ _ _ _ _ _) as [lp' r]. destruct Hcom as [Hcom _].
      cbn [fst snd]. rewrite <- Hcom, Hod, Hev. reflexivity.
    - by rewrite Hod, Hev. }
  erewrite (transmit_reply EVT_QUEUE ctx target Htarget); [|exact Hl8| |exact Hproc]; [done|].
  by destruct (snd (block_outcome lp0)).
Qed.

(** C9. A block download is one validated write of exactly the client's bytes,
    or none: the initiate, the numbered segments and the end frame with the
    client's CRC are answered by the initiate reply, one acknowledgement of all
    segments and the end reply, and dictionary, events and commit signal are as
    [write_object] leaves them when the CRC is that of the bytes, and untouched
    with the reply 0x0504_0004 when it is not.  Any value of 1 to 889 bytes. *)
Theorem block_download_is_write lp :
  takes_requests (lp_srv lp) → locked ctx i = false → lp_rx lp = [] →
  transmit_all lp block_download_frames =
    (with_rx (fst (block_outcome lp))
       (map (sdo_frame (CobId.sdo_tx target))
          [ini_reply; subblock_reply; outcome_frame i s (snd (block_outcome lp)) end_reply]), Ok tt).
Proof using All.
  intros Hsrv Hlock Hrx. pose proof segment_count_bounds as [Hcnt _].
  destruct (server_block_initiate lp Hsrv Hlock Hrx) as (lp1 & Htx1 & Hr1 & Hrx1).
  unfold block_download_frames. cbn [transmit_all]. rewrite Htx1, transmit_all_app.
  replace segment_count with (Z.of_nat (Z.to_nat segment_count)) at 1 by lia.
  pose (lp0 := with_rx lp (lp_rx lp1)).
  destruct (server_block_segments lp0 lp1 (Z.to_nat segment_count)) as (lp2 & Htx2 & Hr2 & Hrx2);
    [exact Hr1|lia|done|].
  rewrite Htx2. rewrite Z2Nat.id, Z.eqb_refl in * by lia. cbn [transmit_all].
  rewrite (server_block_end lp0 lp2 Hr2), Hrx2. unfold lp0. cbn [lp_rx with_rx]. rewrite Hrx1.
  reflexivity.
Qed.
End download.

(** ** Block uploads *)

Section upload.
Context (i s : Z) (v : list Z) (now : Z).
Context (Hi : is_u16 i) (Hs : is_u8 s) (Hv : bytes v) (Hlen : 1 ≤ len v ≤ BUF_LEN).

(** Polling until the server has no segment to send. *)
Fixpoint poll_all (fuel : nat) (srv : SdoServer) : exec (SdoServer * list (list Z)) :=
  match fuel with
  | O => mret (srv, [])
  | S fuel' =>
      '(srv, r) ← SdoPoll.poll_block_upload srv now;
      match r with
      | None => mret (srv, [])
      | Some f => '(srv, fs) ← poll_all fuel' srv; mret (srv, f :: fs)
      end
  end.

(** Seven bytes per segment, zero-padded. *)
Definition pad (n : Z) (l : list Z) : list Z := l ++ zeros (n - len l).

Definition payload (frames : list (list Z)) : list Z := concat (map (@tl Z) frames).

Definition same_upload (st st' : BlockUploadState) : Prop :=
  bu_index st' = bu_index st ∧ bu_subindex st' = bu_subindex st ∧ bu_buf st' = bu_buf st ∧
  bu_total_len st' = bu_total_len st ∧
  bu_subblock_start_offset st' = bu_subblock_start_offset st ∧ bu_blksize st' = bu_blksize st.

Lemma poll_wf s0 s1 f :
  wf_server s0 → SdoPoll.poll_block_upload s0 now = Ret (s1, f) → wf_server s1.
Proof. intros Hwf Hp. pose proof (poll_block_upload_safe s0 now Hwf) as H1. rewrite Hp in H1. apply H1. Qed.

Lemma pad_step (o a : Z) :
  0 ≤ o → o + 7 ≤ len v → 0 ≤ a →
  pad (7 * (a + 1)) (take (Z.to_nat (7 * (a + 1))) (drop (Z.to_nat o) v)) =
  take 7 (drop (Z.to_nat o) v) ++
  pad (7 * a) (take (Z.to_nat (7 * a)) (drop (Z.to_nat (o + 7)) v)).
Proof.
  intros Ho Hl Ha. unfold pad. rewrite app_assoc. f_equal.
  - replace (Z.to_nat (7 * (a + 1))) with (7 + Z.to_nat (7 * a))%nat by lia.
    replace (Z.to_nat (o + 7)) with (7 + Z.to_nat o)%nat by lia.
    by rewrite <- skipn_skipn, take_take_drop.
  - f_equal. rewrite !length_take, !length_drop. lia.
Qed.

Lemma poll_subblock cw fuel st :
  wf_block_upload st → bu_seqno st ≠ 0 → bu_total_len st = len v →
  take (length v) (bu_buf st) = v → bu_blksize st - bu_seqno st + 2 ≤ Z.of_nat fuel →
  bu_offset st < len v →
  ∃ st' fs, poll_all fuel (mkSrv (Some (BlockUpload st)) cw) = Ret (mkSrv (Some (BlockUpload st')) cw, fs) ∧
    same_upload st st' ∧ wf_block_upload st' ∧ bu_seqno st' = 0 ∧
    bu_last_seqno st' = bu_seqno st + len fs - 1 ∧
    (1 ≤ len fs ∧ 7 * (len fs - 1) < len v - bu_offset st) ∧
    map (λ f, Z.land (at_ f 0) 0x7F) fs = seqZ (bu_seqno st) (len fs) ∧
    ∀ a, (a ≤ length fs)%nat →
      payload (take a fs) =
      pad (7 * Z.of_nat a) (take (Z.to_nat (7 * Z.of_nat a)) (drop (Z.to_nat (bu_offset st)) v)).
Proof using All.
  revert st. induction fuel as [|fuel IH]; intros st Hwf Hnz Ht Hbuf Hf Holt.
  { destruct Hwf as (_&_&_&_&_&_&?&_). lia. }
  pose proof (poll_block_upload_eq (mkSrv (Some (BlockUpload st)) cw) st now eq_refl Hwf Hnz) as Hp.
  pose proof (poll_wf (mkSrv (Some (BlockUpload st)) cw) _ _ Hwf Hp) as Hwf'.
  cbn [poll_all]. rewrite Hp. rstep. cbn [wf_server transfer wf_transfer committed_write] in Hwf'.
  pose proof (segment_data_length st Hwf) as Hdl.
  set (st1 := after_segment st (segment_data st) now) in *.
  assert (0 ≤ bu_offset st ≤ len v ∧ 1 ≤ bu_seqno st ≤ bu_blksize st ∧ bu_blksize st ≤ 127)
    as (Ho & Hk & Hb127).
  { destruct Hwf as (_&_&?&?&?&[? ?]&[? ?]&_). unfold MAX_BLKSIZE in *. lia. }
  assert (segment_data st = take 7 (drop (Z.to_nat (bu_offset st)) v)) as Hd.
  { transitivity (take 7 (drop (Z.to_nat (bu_offset st)) (take (length v) (bu_buf st))));
      [|by rewrite Hbuf]. unfold segment_data.
    rewrite skipn_firstn_comm, firstn_firstn. f_equal. lia. }
  assert (Z.land (segment_head st) 0x7F = bu_seqno st) as Hhd.
  { destruct (seqno_head (bu_seqno st)) as (?&?&?); [lia|]. unfold segment_head. by case_match. }
  assert (segment_data st ++ zeros (7 - len (segment_data st)) =
          pad 7 (take 7 (drop (Z.to_nat (bu_offset st)) v))) as Hpad by by rewrite Hd.
  destruct (decide (bu_seqno st1 = 0)) as [Hz|Hnz1].
  - exists st1, [segment_head st :: segment_data st ++ zeros (7 - len (segment_data st))].
    split.
    { destruct fuel as [|fuel]; [lia|]. cbn [poll_all]. unfold SdoPoll.poll_block_upload at 1.
      cbn [transfer]. by rewrite Hz. }
    split_and!; try done; try (simpl; lia).
    + change ([Z.land (segment_head st) 0x7F] = seqZ (bu_seqno st) 1). by rewrite Hhd, seqZ_cons.
    + intros [|[|a]] Ha; [done| |simpl in Ha; lia]. unfold payload. simpl. by rewrite app_nil_r.
  - assert (7 < len v - bu_offset st ∧ bu_seqno st1 = bu_seqno st + 1) as [Hbig Hk1].
    { unfold st1, after_segment in Hnz1 |- *. cbn [bu_seqno] in *.
      destruct (Z.leb_spec (bu_blksize st) (bu_seqno st)),
        (Z.leb_spec (bu_total_len st - bu_offset st) 7); simpl in *; lia. }
    assert (bu_offset st1 = bu_offset st + 7) as Ho1 by (simpl; lia).
    destruct (IH st1 Hwf' Hnz1) as (st' & fs & Hpoll & Hsame & Hwf2 & Hz' & Hls & Hl1 & Hseq & Hpay);
      [done|done|rewrite Hk1; simpl; lia|lia|].
    exists st', ((segment_head st :: segment_data st ++ zeros (7 - len (segment_data st))) :: fs).
    cbn [committed_write]. rewrite Hpoll. rstep. split_and!; try done; try (rewrite Hls, Hk1; simpl; lia); try (simpl; lia).
    + cbn [map]. change (at_ (_ :: _) 0) with (segment_head st). rewrite Hhd, Hseq, Hk1. cbn [length]. rewrite Nat2Z.inj_succ.
      rewrite (seqZ_cons (bu_seqno st)) by lia. by rewrite Z.pred_succ.
    + intros [|a] Ha; [done|]. unfold payload. cbn [take map concat tl].
      change (concat (map (@tl Z) (take a fs))) with (payload (take a fs)).
      rewrite Hpay by (simpl in Ha; lia). rewrite Hpad, Ho1.
      replace (7 * Z.of_nat (S a)) with (7 * (Z.of_nat a + 1)) by lia.
      rewrite pad_step by lia. f_equal. unfold pad.
      rewrite length_take, length_drop.
      replace (7 - Z.of_nat _) with 0 by lia. by rewrite app_nil_r.
Qed.

(** *** The client's acknowledgements *)

Definition ack_request (a b : Z) : list Z := 0xA2 :: a :: b :: zeros 5.

Definition upload_end : list Z :=
  Z.lor 0xC1 (shl8 (7 * segment_count v - len v) 2)
    :: as_u8 (Z.land (crc16_ccitt_update 0 v) 0xFF)
    :: as_u8 (Z.shiftr (crc16_ccitt_update 0 v) 8) :: zeros 5.

Lemma unused_bytes :
  (if len v mod 7 =? 0 then mret 0 else usub 7 (len v mod 7)) = Ret (7 * segment_count v - len v) ∧
  0 ≤ 7 * segment_count v - len v ≤ 6.
Proof.
  unfold segment_count. pose proof (Z.div_mod (len v + 6) 7). pose proof (Z.mod_pos_bound (len v + 6) 7).
  pose proof (Z.div_mod (len v) 7). pose proof (Z.mod_pos_bound (len v) 7).
  split; [|lia]. destruct (Z.eqb_spec (len v mod 7) 0).
  - unfold mret, exec_ret. f_equal. lia.
  - rewrite usub_ret by lia. f_equal. lia.
Qed.

(** A sub-block that is complete and waits for its acknowledgement. *)
Definition sent (st : BlockUploadState) (start : Z) : Prop :=
  wf_block_upload st ∧ bu_seqno st = 0 ∧ bu_index st = i ∧ bu_subindex st = s ∧
  bu_total_len st = len v ∧ take (length v) (bu_buf st) = v ∧ bu_subblock_start_offset st = start.

Definition next_subblock (st : BlockUploadState) (start b : Z) : BlockUploadState :=
  mkBu i s (bu_buf st) (len v) start start b 1 0
    (crc16_ccitt_update 0 (take (Z.to_nat start) (bu_buf st))) (ctx_now_us ctx).

Lemma dispatch_block_upload (io : Io OD) request :
  command_specifier (at_ request 0) = Ccs.BlockUpload →
  dispatch EVT_QUEUE io request ctx = handle_block_upload io request (ctx_now_us ctx).
Proof. intros Hc. unfold dispatch. by rewrite Hc. Qed.

Lemma server_ack cw od ev st (start a b : Z) :
  sent st start → 0 ≤ a → 1 ≤ b ≤ 127 →
  let reply tr r ok := Ret (mkIo (mkSrv tr cw) od r ev, ok) in
  process_with_context EVT_QUEUE (mkIo (mkSrv (Some (BlockUpload st)) cw) od (zeros 8) ev)
    (ack_request a b) ctx =
  if bu_last_seqno st <? a then
    reply None (abort_frame i s (AbortCode.to_u32 InvalidSequenceNumber)) true
  else if len v <=? start + 7 * a then reply None upload_end true
  else reply (Some (BlockUpload (next_subblock st (start + 7 * a) b))) (zeros 8) false.
Proof using All.
  intros (Hwf & Hz & Hix & Hsx & Ht & Hbuf & Hstart) Ha Hb.
  pose proof Hwf as ([Hl _] & _ & Hst & Ho & Htl & _).
  rewrite process_idle by done. rewrite dispatch_block_upload by done.
  unfold handle_block_upload. change (Z.land (at_ _ 0) 3) with 2. cbn [Z.eqb Pos.eqb].
  unfold block_upload_ack. cbn [io_srv transfer]. rewrite Hz. cbn [Z.eqb negb].
  change (at_ (ack_request a b) 1) with a. change (at_ (ack_request a b) 2) with b.
  unfold in_range, MAX_BLKSIZE.
  rewrite (proj2 (Z.leb_le 1 b)), (proj2 (Z.leb_le b 127)) by lia. cbn [andb negb].
  rewrite Hix, Hsx, Ht, Hstart. destruct (bu_last_seqno st <? a); [done|].
  replace (a * 7) with (7 * a) by lia.
  rewrite slice_prefix by lia. rstep.
  destruct (Z.leb_spec (len v) (start + 7 * a)) as [Hdone|Hmore].
  - rewrite (proj2 (Z.leb_le _ _)) by lia. destruct unused_bytes as [-> Hu]. rstep.
    rewrite Z.min_r by lia. rewrite Nat2Z.id, Hbuf.
    rewrite (wrap_id 8 (7 * segment_count v - len v)) by (unfold is_uint; lia).
    unfold after_dispatch, upload_end. cbn [io_resp respond set_transfer andb].
    assert (∀ n, 0 ≤ n ≤ 6 → Z.land n 7 = n ∧ Z.lor 0xC1 (shl8 n 2) ≠ 0x80) as Hf.
    { intros n Hn. assert (n = 0 ∨ n = 1 ∨ n = 2 ∨ n = 3 ∨ n = 4 ∨ n = 5 ∨ n = 6) by lia.
      by destruct_or!; subst. }
    destruct (Hf _ Hu) as [-> Hne]. 
    change (at_ (set_at _ 2 _) 0) with (Z.lor 0xC1 (shl8 (7 * segment_count v - len v) 2)).
    rewrite (proj2 (Z.eqb_neq _ _) Hne). reflexivity.
  - rewrite (proj2 (Z.leb_gt _ _)) by lia. rewrite Z.min_l by lia. reflexivity.
Qed.

(** One round per acknowledgement [(a, b)]: the server's segments are polled,
    the client keeps the payload of the first [a] and asks for sub-blocks of
    [b] segments from there on. *)
Fixpoint upload_rounds lp (acc : list Z) (acks : list (Z * Z))
    : exec (Loop OD * list Z * option (list Z)) :=
  match acks with
  | [] => mret (lp, acc, None)
  | (a, b) :: acks' =>
      '(srv, frames) ← poll_all 128 (lp_srv lp);
      let acc := acc ++ payload (take (Z.to_nat a) frames) in
      r ← process_with_context EVT_QUEUE (mkIo srv (lp_od lp) (zeros 8) (lp_events lp))
            (ack_request a b) ctx;
      let '(io, ok) := (r : Io OD * bool) in
      let lp := mkLoop (io_srv io) (io_od io) (io_events io) (lp_rx lp) in
      if ok then mret (lp, acc, Some (io_resp io)) else upload_rounds lp acc acks'
  end.

(** The server is about to send a sub-block from offset [7 * j]. *)
Definition subblock_ready lp (st : BlockUploadState) (j : Z) : Prop :=
  transfer (lp_srv lp) = Some (BlockUpload st) ∧ wf_block_upload st ∧ bu_seqno st = 1 ∧
  bu_index st = i ∧ bu_subindex st = s ∧ bu_total_len st = len v ∧
  take (length v) (bu_buf st) = v ∧ bu_offset st = 7 * j ∧
  bu_subblock_start_offset st = 7 * j ∧ 7 * j < len v.

(** How a session may end: nothing lost, duplicated or reordered. *)
Definition session_end lp0 (acc0 : list Z) (acks : list (Z * Z))
    (r : Loop OD * list Z * option (list Z)) : Prop :=
  let '(lp, acc, resp) := r in
  lp_od lp = lp_od lp0 ∧ lp_events lp = lp_events lp0 ∧
  match resp with
  | None => ∃ k, acc = take k v
  | Some resp =>
      transfer (lp_srv lp) = None ∧
      (resp = upload_end ∧ acc = pad (7 * segment_count v) v ∨
       resp = abort_frame i s (AbortCode.to_u32 InvalidSequenceNumber))
  end ∧
  (Forall (λ ab : Z * Z, 1 ≤ fst ab) acks → len v - len acc0 ≤ len acks → resp ≠ None).

Lemma last_pad (j a : Z) :
  0 ≤ j → 7 * j < len v → len v ≤ 7 * j + 7 * a → 7 * (a - 1) < len v - 7 * j →
  take (Z.to_nat (7 * j)) v ++ pad (7 * a) (take (Z.to_nat (7 * a)) (drop (Z.to_nat (7 * j)) v)) =
  pad (7 * segment_count v) v.
Proof.
  intros Hj Hl Ha Hm. destruct unused_bytes as [_ Hu]. unfold pad.
  rewrite (take_ge (drop _ v)) by (rewrite length_drop; lia).
  rewrite app_assoc, take_drop. f_equal. f_equal. rewrite length_drop. lia.
Qed.

Lemma middle_pad (j a : Z) :
  0 ≤ j → 0 ≤ a → 7 * j + 7 * a < len v →
  take (Z.to_nat (7 * j)) v ++ pad (7 * a) (take (Z.to_nat (7 * a)) (drop (Z.to_nat (7 * j)) v)) =
  take (Z.to_nat (7 * (j + a))) v.
Proof.
  intros Hj Ha Hl. unfold pad. rewrite length_take, length_drop.
  replace (7 * a - Z.of_nat _) with 0 by lia. rewrite app_nil_r, take_take_drop. f_equal. lia.
Qed.

Lemma upload_rounds_ok acks lp st j :
  Forall (λ ab : Z * Z, is_u8 (fst ab) ∧ 1 ≤ snd ab ≤ 127) acks → 0 ≤ j → subblock_ready lp st j →
  runs (upload_rounds lp (take (Z.to_nat (7 * j)) v) acks)
    (session_end lp (take (Z.to_nat (7 * j)) v) acks).
Proof using All.
  intros Hacks. revert lp st j. induction Hacks as [|[a b] acks [Ha Hb] _ IH]; intros lp st j Hj Hr.
  - cbn. split; [done|]. split; [done|]. split; [by eexists|].
    intros _. destruct Hr as (_&_&_&_&_&_&_&_&_&?). rewrite length_take. lia.
  - destruct Hr as (Htr & Hwf & Hk & Hix & Hsx & Ht & Hbuf & Ho & Hstart & Hjl).
    pose proof Hwf as (_&_&_&_&_&Hblk&_). unfold MAX_BLKSIZE in *.
    destruct (lp_srv lp) as [tr cw] eqn:Esrv. simpl in Htr. subst tr.
    destruct (poll_subblock cw 128 st) as (st' & fs & Hpoll & Hsame & Hwf' & Hz' & Hls & [Hl1 Hl2] & Hseq & Hpay);
      try done; try lia.
    destruct Hsame as (E1 & E2 & E3 & E4 & E5 & E6).
    cbn [upload_rounds]. rewrite Esrv, Hpoll. rstep.
    assert (sent st' (7 * j)) as Hsent by (split_and!; congruence).
    unfold is_uint in Ha. cbn [fst snd] in Ha, Hb.
    rewrite (server_ack cw _ _ st' (7 * j) a b Hsent) by lia.
    rewrite Hls, Hk. destruct (Z.ltb_spec (1 + len fs - 1) a) as [Hbig|Hok].
    { rstep. split_and!; try done. by right. }
    rewrite Hpay, Z2Nat.id, Ho by lia.
    destruct (Z.leb_spec (len v) (7 * j + 7 * a)) as [Hdone|Hmore].
    + rstep. split_and!; try done. left. split; [done|]. apply last_pad; lia.
    + rstep. rewrite middle_pad by lia.
      replace (7 * j + 7 * a) with (7 * (j + a)) by lia.
      set (lp1 := mkLoop _ _ _ _). set (st1 := next_subblock st' (7 * (j + a)) b) in *.
      eapply runs_mono; [apply (IH lp1 st1); [lia|]|].
      * destruct Hwf' as (Hb1 & Hs1 & _). split_and!; try done; simpl; try congruence; try lia.
        split_and!; simpl; unfold MAX_BLKSIZE; try done; try congruence; try lia.
      * intros [[lp' acc] resp] (? & ? & Hresp & Hprog). split_and!; try done.
        intros Hall Hlen'. apply Hprog; [by apply Forall_inv_tail in Hall|].
        apply Forall_inv in Hall. simpl in Hall. cbn [length] in Hlen'.
        rewrite length_take in *. lia.
Qed.

Definition upload_initiate (b : Z) : list Z := header 0xA4 i s (b :: zeros 3).
Definition upload_start : list Z := 0xA3 :: zeros 7.

(** Initiate with [b0] segments per sub-block, start, then the rounds. *)
Definition upload_session lp (b0 : Z) (acks : list (Z * Z)) : exec (Loop OD * list Z * option (list Z)) :=
  match transmit_all lp [upload_initiate b0; upload_start] with
  | (lp, Ok _) => upload_rounds lp [] acks
  | (_, Err _) => Panic
  end.

Lemma server_upload_start lp b0 buf :
  takes_requests (lp_srv lp) → 1 ≤ b0 ≤ 127 →
  od_read (lp_od lp) i s (zeros BUF_LEN) = (buf, Ok (len v)) → take (length v) buf = v →
  ∃ lp' st, transmit_all lp [upload_initiate b0; upload_start] = (lp', Ok tt) ∧
    subblock_ready lp' st 0 ∧ lp_od lp' = lp_od lp ∧ lp_events lp' = lp_events lp.
Proof using All.
  intros Hsrv Hb0 Hr Hbuf. pose proof (od_read_buffer _ _ _ _ _ Hr) as [Hab _].
  pose (st0 := mkBu i s buf (len v) 0 0 b0 0 0 0 (ctx_now_us ctx)).
  pose (cw := committed_write (lp_srv lp)).
  assert (∃ resp, length resp = 8%nat ∧
    process_with_context EVT_QUEUE (mkIo (lp_srv lp) (lp_od lp) (zeros 8) (lp_events lp))
      (upload_initiate b0) ctx =
    Ret (mkIo (mkSrv (Some (BlockUpload st0)) cw) (lp_od lp) resp (lp_events lp), true))
    as (resp & Hl8 & Hproc).
  { exists (header 0xC6 i s (to_le_bytes 4 (len v))). split; [done|].
    rewrite process_idle by by apply takes_requests_idle. rewrite dispatch_block_upload by done.
    unfold handle_block_upload. change (Z.land (at_ _ 0) 3) with 0. cbn [Z.eqb].
    unfold block_upload_initiate, upload_initiate. rewrite parse_index_sub_header by done.
    change (at_ _ 4) with b0. unfold in_range, MAX_BLKSIZE.
    rewrite (proj2 (Z.leb_le 1 b0)), (proj2 (Z.leb_le b0 127)) by lia. cbn [andb negb io_od].
    rewrite Hr. rewrite (wrap_id 32 (len v)) by (unfold is_uint, BUF_LEN in *; lia). reflexivity. }
  pose (lp1 := mkLoop (mkSrv (Some (BlockUpload st0)) cw) (lp_od lp) (lp_events lp)
                 (lp_rx lp ++ [sdo_frame (CobId.sdo_tx target) resp])).
  pose (st1 := mkBu i s buf (len v) 0 0 b0 1 0 0 (ctx_now_us ctx)).
  exists (mkLoop (mkSrv (Some (BlockUpload st1)) cw) (lp_od lp) (lp_events lp) (lp_rx lp1)), st1.
  split.
  - cbn [transmit_all]. erewrite (transmit_reply EVT_QUEUE ctx target Htarget); [|done|exact Hl8|exact Hproc].
    erewrite transmit_silent; [reflexivity|done|]. reflexivity.
  - split; [|done]. split_and!; try done; try (simpl; lia).
    split_and!; simpl; unfold MAX_BLKSIZE, BUF_LEN in *; try done; lia.
Qed.

(** C10. A block upload is one read of the object, whatever the client
    acknowledges: for every sequence of acknowledgements [(a, b)], i.e. any
    loss and any change of block size, the bytes the client keeps are always a
    prefix of the object, and when the server ends the session they are the
    whole object padded to seven bytes, with the end frame carrying the CRC of
    the object and the number of padding bytes; an acknowledgement of segments
    never sent is the only other end, and aborts.  If every acknowledgement
    covers at least one segment the session ends. *)
Theorem block_upload_delivers lp b0 acks buf :
  takes_requests (lp_srv lp) → 1 ≤ b0 ≤ 127 →
  od_read (lp_od lp) i s (zeros BUF_LEN) = (buf, Ok (len v)) → take (length v) buf = v →
  Forall (λ ab : Z * Z, is_u8 (fst ab) ∧ 1 ≤ snd ab ≤ 127) acks →
  runs (upload_session lp b0 acks) (session_end lp [] acks).
Proof using All.
  intros Hsrv Hb0 Hr Hbuf Hacks. unfold upload_session.
  destruct (server_upload_start lp b0 buf Hsrv Hb0 Hr Hbuf) as (lp1 & st & -> & Hready & Hod & Hev).
  eapply runs_mono; [exact (upload_rounds_ok acks lp1 st 0 Hacks ltac:(lia) Hready)|].
  intros [[lp' acc] resp] (H1 & H2 & H3). split; [congruence|]. split; [congruence|exact H3].
Qed.
End upload.
End block.

(** ** Instances *)

Lemma demo_value_bytes : bytes demo_value.
Proof. repeat (apply List.Forall_cons; [unfold is_uint; lia|]); apply List.Forall_nil. Qed.

Lemma block_download_is_write_witness :
  let W := block_outcome 4 (demo_ctx Operational) 0x2000 0 demo_value 52555 demo_loop in
  snd W = Ok tt ∧ option_map te_value (table_find (lp_od (fst W)) 0x2000 0) = Some demo_value ∧
  transmit_all 4 (demo_ctx Operational) 5 demo_loop
    (block_download_frames 0x2000 0 demo_value 52555) =
  (with_rx (fst W) (map (sdo_frame (CobId.sdo_tx 5))
     [ini_reply 0x2000 0; subblock_reply demo_value; outcome_frame 0x2000 0 (snd W) end_reply]), Ok tt).
Proof.
  split; [vm_compute; reflexivity|]. split; [vm_compute; reflexivity|].
  apply block_download_is_write; try reflexivity; try exact I; try exact demo_value_bytes;
    unfold wf_node, is_uint, BUF_LEN; simpl; lia.
Defined.

Definition demo_object : list Z := map as_u8 (map Z.of_nat (seq 0 300)).
Definition demo_acks : list (Z * Z) := [(20, 127); (23, 127)].

Lemma demo_object_bytes : bytes demo_object.
Proof. apply Forall_map, Forall_true. intros x. by apply wrap_range. Qed.

(** Twenty of 43 segments are acknowledged, then the rest. *)
Lemma block_upload_delivers_witness :
  runs (upload_session 4 (demo_ctx Operational) 5 0x2000 0 1 demo_loop 127 demo_acks)
    (session_end 0x2000 0 demo_object demo_loop [] demo_acks) ∧
  runs (upload_session 4 (demo_ctx Operational) 5 0x2000 0 1 demo_loop 127 demo_acks)
    (λ r, snd r = Some (upload_end demo_object)).
Proof.
  split; [|vm_compute; reflexivity].
  apply (block_upload_delivers 4 (demo_ctx Operational) 5) with
    (buf := fst (od_read (lp_od demo_loop) 0x2000 0 (zeros BUF_LEN)));
    try exact I; try exact demo_object_bytes; try (unfold wf_node, is_uint; lia);
    try (vm_compute; reflexivity).
  - vm_compute. split; discriminate.
  - repeat (apply List.Forall_cons; [unfold is_uint; simpl; lia|]); apply List.Forall_nil.
Defined.
