(* ===== verification/PdoBits.v ===== *)
(** * Bit copies between byte arrays

    [canopen-core/src/pdo/mod.rs]: [copy_pdo_bits] with its byte-aligned fast
    path and [sign_extend_pdo_bits].  A byte array is read as the number its
    little-endian bytes denote; both routines are specified on that number. *)
From S2P Require Import Prelude.

(** ** Definitions *)

(** The body of the [for bit in 0..bit_len] loop. *)
Definition copy_bit (src dst : list Z) (src_bit dst_bit : Z) : exec (list Z) :=
  x ← unwrap (src !! Z.to_nat (src_bit / 8));
  y ← unwrap (dst !! Z.to_nat (dst_bit / 8));
  let value := Z.land (Z.shiftr x (src_bit mod 8)) 1 in
  let mask := as_u8 (Z.shiftl 1 (dst_bit mod 8)) in
  mret (set_at dst (Z.to_nat (dst_bit / 8))
    (if negb (value =? 0) then Z.lor y mask else Z.land y (Z.lxor 0xFF mask))).

Fixpoint copy_bits_loop (src dst : list Z) (src_bit dst_bit : Z) (n : nat) : exec (list Z) :=
  match n with
  | O => mret dst
  | S n' =>
      dst ← copy_bit src dst src_bit dst_bit;
      copy_bits_loop src dst (src_bit + 1) (dst_bit + 1) n'
  end.

Definition copy_pdo_bits (src : list Z) (src_bit_offset : Z) (dst : list Z)
    (dst_bit_offset bit_len : Z) : exec (list Z) :=
  if (src_bit_offset mod 8 =? 0) && (dst_bit_offset mod 8 =? 0) && (bit_len mod 8 =? 0) then
    let byte_len := bit_len / 8 in
    let src_start := src_bit_offset / 8 in
    let dst_start := dst_bit_offset / 8 in
    chunk ← slice src src_start (src_start + byte_len);
    copy_from_slice dst dst_start (dst_start + byte_len) chunk
  else copy_bits_loop src dst src_bit_offset dst_bit_offset (Z.to_nat bit_len).

(** The body of the sign-filling loop. *)
Definition set_bit (value : list Z) (bit : Z) : exec (list Z) :=
  y ← unwrap (value !! Z.to_nat (bit / 8));
  mret (set_at value (Z.to_nat (bit / 8)) (Z.lor y (as_u8 (Z.shiftl 1 (bit mod 8))))).

Fixpoint set_bits_loop (value : list Z) (bit : Z) (n : nat) : exec (list Z) :=
  match n with
  | O => mret value
  | S n' => value ← set_bit value bit; set_bits_loop value (bit + 1) n'
  end.

Definition sign_extend_pdo_bits (value : list Z) (bits : Z) : exec (list Z) :=
  if (bits =? 0) || (len value * 8 <=? bits) then mret value
  else
    b ← unwrap (value !! Z.to_nat ((bits - 1) / 8));
    if Z.land (Z.shiftr b ((bits - 1) mod 8)) 1 =? 0 then mret value
    else set_bits_loop value bits (Z.to_nat (len value * 8 - bits)).

(** ** Bits of a byte array *)

Lemma testbit_cons b x k :
  is_u8 b → 0 ≤ k →
  Z.testbit (b + 256 * x) k = if k <? 8 then Z.testbit b k else Z.testbit x (k - 8).
Proof.
  intros Hb Hk. unfold is_uint in Hb. rewrite <- lor_shift by lia. rewrite Z.lor_spec.
  destruct (Z.ltb_spec k 8).
  - rewrite Z.shiftl_spec_low by lia. by rewrite orb_false_r.
  - rewrite testbit_byte by (unfold is_uint; lia). by rewrite Z.shiftl_spec by lia.
Qed.

Lemma from_le_cons b l : from_le_bytes (b :: l) = b + 256 * from_le_bytes l.
Proof. done. Qed.

Lemma testbit_le l k :
  bytes l → 0 ≤ k →
  Z.testbit (from_le_bytes l) k = Z.testbit (at_ l (Z.to_nat (k / 8))) (k mod 8).
Proof.
  intros Hl. revert k. induction Hl as [|b l Hb _ IH]; intros k Hk.
  - unfold at_. rewrite nth_overflow by (simpl; lia). by rewrite !Z.bits_0.
  - rewrite from_le_cons, testbit_cons by done. destruct (Z.ltb_spec k 8).
    + rewrite Z.div_small, Z.mod_small by lia. done.
    + rewrite IH by lia. replace k with (k - 8 + 1 * 8) at 3 4 by lia.
      rewrite Z.div_add, Z.mod_add by lia.
      rewrite Z2Nat.inj_add by (try lia; apply Z.div_pos; lia).
      rewrite Nat.add_comm. done.
Qed.

Lemma testbit_app l1 l2 k :
  bytes l1 → bytes l2 → 0 ≤ k →
  Z.testbit (from_le_bytes (l1 ++ l2)) k =
  if k <? 8 * len l1 then Z.testbit (from_le_bytes l1) k
  else Z.testbit (from_le_bytes l2) (k - 8 * len l1).
Proof.
  intros H1 H2. revert k. induction H1 as [|b l1 Hb _ IH]; intros k Hk.
  - cbn [length]. rewrite (proj2 (Z.ltb_ge _ _)) by lia. simpl app. f_equal. lia.
  - cbn [app length]. rewrite !from_le_cons, !testbit_cons by done.
    destruct (Z.ltb_spec k 8).
    + by rewrite (proj2 (Z.ltb_lt _ _)) by lia.
    + rewrite IH by lia. destruct (Z.ltb_spec (k - 8) (8 * len l1)).
      * by rewrite (proj2 (Z.ltb_lt _ _)) by lia.
      * rewrite (proj2 (Z.ltb_ge _ _)) by lia. f_equal. lia.
Qed.

(** Bits beyond the array are clear. *)
Lemma testbit_beyond l k : bytes l → 8 * len l ≤ k → Z.testbit (from_le_bytes l) k = false.
Proof.
  intros Hl Hk. rewrite testbit_le by (done || lia). unfold at_. rewrite nth_overflow.
  - by rewrite Z.bits_0.
  - assert (len l ≤ k / 8) by (apply Z.div_le_lower_bound; lia). lia.
Qed.

Lemma from_le_inj l1 l2 :
  bytes l1 → bytes l2 → length l1 = length l2 → from_le_bytes l1 = from_le_bytes l2 → l1 = l2.
Proof.
  intros H1 H2 Hl He. rewrite <- (to_from_le l1 H1), <- (to_from_le l2 H2), Hl. by rewrite He.
Qed.

(** Updating one byte changes its eight bits. *)
Lemma testbit_set l j y k :
  bytes l → is_u8 y → 0 ≤ k → 0 ≤ j < len l →
  Z.testbit (from_le_bytes (set_at l (Z.to_nat j) y)) k =
  if k / 8 =? j then Z.testbit y (k mod 8) else Z.testbit (from_le_bytes l) k.
Proof.
  intros Hl Hy Hk Hj. rewrite !testbit_le; try done; [|by apply Forall_insert].
  assert (0 ≤ k / 8) by (apply Z.div_pos; lia).
  unfold at_, set_at. destruct (Z.eqb_spec (k / 8) j) as [->|Hne].
  - f_equal. rewrite nth_lookup, list_lookup_insert_eq by lia. done.
  - f_equal. rewrite !nth_lookup, list_lookup_insert_ne by lia. done.
Qed.

Lemma bit_value x m : 0 ≤ m → (Z.land (Z.shiftr x m) 1 =? 0) = negb (Z.testbit x m).
Proof.
  intros Hm. change 1 with (Z.ones 1) at 1. rewrite Z.land_ones, Z.shiftr_div_pow2 by lia.
  change (2 ^ 1) with 2. rewrite <- Z.testbit_spec' by done. by destruct (Z.testbit x m).
Qed.

Lemma mask_pow2 m : 0 ≤ m < 8 → as_u8 (Z.shiftl 1 m) = 2 ^ m.
Proof.
  intros Hm. rewrite Z.shiftl_1_l, wrap_id; [done|]. unfold is_uint.
  split; [apply Z.pow_nonneg; lia|apply Z.pow_lt_mono_r; lia].
Qed.

Lemma set_mask_bits y m j :
  0 ≤ m < 8 → 0 ≤ j < 8 →
  Z.testbit (Z.lor y (as_u8 (Z.shiftl 1 m))) j = if j =? m then true else Z.testbit y j.
Proof.
  intros Hm Hj. rewrite mask_pow2, Z.lor_spec, Z.pow2_bits_eqb, (Z.eqb_sym m) by lia.
  destruct (j =? m); [by rewrite orb_true_r|by rewrite orb_false_r].
Qed.

Lemma clear_mask_bits y m j :
  0 ≤ m < 8 → 0 ≤ j < 8 →
  Z.testbit (Z.land y (Z.lxor 0xFF (as_u8 (Z.shiftl 1 m)))) j =
  if j =? m then false else Z.testbit y j.
Proof.
  intros Hm Hj. rewrite mask_pow2, Z.land_spec, Z.lxor_spec, Z.pow2_bits_eqb, (Z.eqb_sym m) by lia.
  change 0xFF with (Z.ones 8). rewrite Z.ones_spec_low by lia.
  destruct (j =? m); [by rewrite andb_false_r|by rewrite andb_true_r].
Qed.

Lemma lookup_at (l : list Z) (j : Z) :
  0 ≤ j < len l → l !! Z.to_nat j = Some (at_ l (Z.to_nat j)).
Proof.
  intros Hj. unfold at_. rewrite nth_lookup.
  destruct (lookup_lt_is_Some_2 l (Z.to_nat j) ltac:(lia)) as [x Hx]. by rewrite Hx.
Qed.

Lemma bit_index k n : 0 ≤ k < 8 * n → 0 ≤ k / 8 < n ∧ 0 ≤ k mod 8 < 8.
Proof.
  intros Hk. pose proof (Z.mod_pos_bound k 8). pose proof (Z.div_mod k 8).
  split; [|lia]. split; [apply Z.div_pos|apply Z.div_lt_upper_bound]; lia.
Qed.

Lemma same_bit k db : 0 ≤ k → 0 ≤ db → (k =? db) = (k / 8 =? db / 8) && (k mod 8 =? db mod 8).
Proof.
  intros Hk Hd. pose proof (Z.div_mod k 8). pose proof (Z.div_mod db 8).
  destruct (Z.eqb_spec k db) as [->|]; [by rewrite !Z.eqb_refl|].
  destruct (Z.eqb_spec (k / 8) (db / 8)), (Z.eqb_spec (k mod 8) (db mod 8)); simpl; try done; lia.
Qed.

(** The effect of writing one bit. *)
Definition bit_written (l l' : list Z) (k : Z) (b : bool) : Prop :=
  length l' = length l ∧ bytes l' ∧
  ∀ j, 0 ≤ j → Z.testbit (from_le_bytes l') j =
    if j =? k then b else Z.testbit (from_le_bytes l) j.

Lemma byte_update l k y b :
  bytes l → 0 ≤ k < 8 * len l → is_u8 y →
  (∀ j, 0 ≤ j < 8 → Z.testbit y j = if j =? k mod 8 then b else Z.testbit (at_ l (Z.to_nat (k / 8))) j) →
  bit_written l (set_at l (Z.to_nat (k / 8)) y) k b.
Proof.
  intros Hl Hk Hy Hbits. destruct (bit_index k (len l) Hk) as [Hd Hm].
  split; [by unfold set_at; rewrite length_insert|]. split; [by apply Forall_insert|].
  intros j Hj. rewrite testbit_set, (same_bit j k) by (done || lia).
  pose proof (Z.mod_pos_bound j 8). destruct (Z.eqb_spec (j / 8) (k / 8)) as [He|He]; [|done].
  rewrite Hbits by lia. cbn [andb]. rewrite testbit_le by done. by rewrite He.
Qed.

Lemma copy_bit_ok src dst sb db :
  bytes src → bytes dst → 0 ≤ sb < 8 * len src → 0 ≤ db < 8 * len dst →
  runs (copy_bit src dst sb db) (λ d, bit_written dst d db (Z.testbit (from_le_bytes src) sb)).
Proof.
  intros Hs Hd Hsb Hdb. destruct (bit_index sb _ Hsb) as [Hs1 Hs2].
  destruct (bit_index db _ Hdb) as [Hd1 Hd2].
  unfold copy_bit. rewrite !lookup_at by done. rstep.
  rewrite bit_value, negb_involutive, <- testbit_le by (done || lia).
  apply byte_update; [done|done| |].
  - pose proof (at_bytes dst (Z.to_nat (db / 8)) Hd). case_match; [|by apply land_u8].
    apply lor_u8; [done|]. by apply wrap_range.
  - intros j Hj. destruct (Z.testbit (from_le_bytes src) sb).
    + by apply set_mask_bits.
    + by apply clear_mask_bits.
Qed.

(** ** Copies *)

(** [d] is [dst] with [n] bits from [db] on replaced by those of [src] from [sb] on. *)
Definition bits_copied (src dst d : list Z) (sb db n : Z) : Prop :=
  length d = length dst ∧ bytes d ∧
  ∀ k, 0 ≤ k → Z.testbit (from_le_bytes d) k =
    if (db <=? k) && (k <? db + n) then Z.testbit (from_le_bytes src) (sb + (k - db))
    else Z.testbit (from_le_bytes dst) k.

Lemma copy_bits_loop_ok src dst sb db n :
  bytes src → bytes dst → 0 ≤ sb → sb + Z.of_nat n ≤ 8 * len src →
  0 ≤ db → db + Z.of_nat n ≤ 8 * len dst →
  runs (copy_bits_loop src dst sb db n) (λ d, bits_copied src dst d sb db (Z.of_nat n)).
Proof.
  intros Hs. revert dst sb db. induction n as [|n IH]; intros dst sb db Hd Hsb Hsl Hdb Hdl.
  - split; [done|]. split; [done|]. intros k Hk.
    destruct (Z.leb_spec db k), (Z.ltb_spec k (db + Z.of_nat 0)); simpl; try done; lia.
  - cbn [copy_bits_loop].
    eapply runs_bind; [apply copy_bit_ok; (done || lia)|]. intros d1 (Hl1 & Hb1 & Hbits1).
    eapply runs_mono; [apply IH; (done || lia)|]. intros d (Hl & Hb & Hbits).
    split; [congruence|]. split; [done|]. intros k Hk. rewrite Hbits, Hbits1 by done.
    destruct (Z.leb_spec (db + 1) k), (Z.ltb_spec k (db + 1 + Z.of_nat n)), (Z.eqb_spec k db),
      (Z.leb_spec db k), (Z.ltb_spec k (db + Z.of_nat (S n))); simpl; try lia; try done; f_equal; lia.
Qed.

Lemma testbit_take l (a k : Z) :
  bytes l → 0 ≤ a ≤ len l → 0 ≤ k < 8 * a →
  Z.testbit (from_le_bytes (take (Z.to_nat a) l)) k = Z.testbit (from_le_bytes l) k.
Proof.
  intros Hl Ha Hk. rewrite <- (take_drop (Z.to_nat a) l) at 2.
  rewrite testbit_app by (auto with bytes; lia).
  rewrite length_take. by rewrite (proj2 (Z.ltb_lt _ _)) by lia.
Qed.

Lemma testbit_drop l (a k : Z) :
  bytes l → 0 ≤ a ≤ len l → 0 ≤ k →
  Z.testbit (from_le_bytes (drop (Z.to_nat a) l)) k = Z.testbit (from_le_bytes l) (k + 8 * a).
Proof.
  intros Hl Ha Hk. rewrite <- (take_drop (Z.to_nat a) l) at 2.
  rewrite testbit_app by (auto with bytes; lia).
  rewrite length_take. rewrite (proj2 (Z.ltb_ge _ _)) by lia. f_equal. lia.
Qed.

Lemma aligned_copy src dst s a m :
  bytes src → bytes dst → 0 ≤ s → s + m ≤ len src → 0 ≤ a → a + m ≤ len dst → 0 ≤ m →
  runs (chunk ← slice src s (s + m); copy_from_slice dst a (a + m) chunk)
    (λ d, bits_copied src dst d (8 * s) (8 * a) (8 * m)).
Proof.
  intros Hs Hd Hs0 Hsl Ha Hal Hm. rewrite slice_ret by lia. rstep.
  replace (s + m - s) with m by lia.
  set (chunk := take (Z.to_nat m) (drop (Z.to_nat s) src)).
  assert (len chunk = m) as Hcl by (unfold chunk; rewrite length_take, length_drop; lia).
  assert (bytes chunk) as Hcb by (unfold chunk; auto with bytes).
  rewrite copy_from_slice_ret by lia. rstep.
  split; [by apply copy_length; lia|]. split; [by apply bytes_copy|]. intros k Hk.
  rewrite testbit_app by (auto with bytes; lia).
  rewrite length_take. replace (8 * Z.of_nat _) with (8 * a) by lia.
  destruct (Z.ltb_spec k (8 * a)).
  - rewrite (proj2 (Z.leb_gt _ _)) by lia. by apply testbit_take; [|lia..].
  - rewrite (proj2 (Z.leb_le _ _)) by lia. cbn [andb].
    rewrite testbit_app by (auto with bytes; lia). rewrite Hcl.
    destruct (Z.ltb_spec (k - 8 * a) (8 * m)).
    + rewrite (proj2 (Z.ltb_lt _ _)) by lia. unfold chunk.
      rewrite testbit_take by (rewrite ?length_drop; auto with bytes; lia).
      rewrite testbit_drop by (done || lia). f_equal. lia.
    + rewrite (proj2 (Z.ltb_ge _ _)) by lia.
      rewrite testbit_drop by (done || lia). f_equal. lia.
Qed.

Lemma copy_pdo_bits_ok (src dst : list Z) (sb db n : Z) :
  bytes src → bytes dst → 0 ≤ n → 0 ≤ sb → sb + n ≤ 8 * len src → 0 ≤ db → db + n ≤ 8 * len dst →
  runs (copy_pdo_bits src sb dst db n) (λ d, bits_copied src dst d sb db n).
Proof.
  intros Hs Hd Hn Hsb Hsl Hdb Hdl. unfold copy_pdo_bits.
  destruct (_ && _) eqn:E.
  - apply andb_true_iff in E as [[E1 E2]%andb_true_iff E3].
    apply Z.eqb_eq in E1, E2, E3.
    pose proof (Z.div_mod sb 8). pose proof (Z.div_mod db 8). pose proof (Z.div_mod n 8).
    eapply runs_mono; [apply aligned_copy; (done || lia)|].
    intros d Hc. by replace sb with (8 * (sb / 8)) at 1 by lia;
      replace db with (8 * (db / 8)) at 1 by lia; replace n with (8 * (n / 8)) at 1 by lia.
  - eapply runs_mono; [apply copy_bits_loop_ok; (done || lia)|].
    intros d Hc. by rewrite Z2Nat.id in Hc by lia.
Qed.

(** [copy_pdo_bits], fast path and bit loop alike, replaces exactly the
    addressed bits of the destination by the addressed bits of the source,
    least significant first, and leaves every other bit alone; it never
    panics when both ranges fit. *)
Theorem copy_pdo_bits_spec (src dst : list Z) (sb db n : Z) :
  bytes src → bytes dst → 0 ≤ n → 0 ≤ sb → sb + n ≤ 8 * len src → 0 ≤ db → db + n ≤ 8 * len dst →
  runs (copy_pdo_bits src sb dst db n) (λ d, bits_copied src dst d sb db n).
Proof. apply copy_pdo_bits_ok. Qed.

Lemma copy_pdo_bits_spec_witness :
  runs (copy_pdo_bits [0xAB; 0x0C] 0 [0xFF; 0; 0] 5 12)
    (λ d, bits_copied [0xAB; 0x0C] [0xFF; 0; 0] d 0 5 12) ∧
  copy_pdo_bits [0xAB; 0x0C] 0 [0xFF; 0; 0] 5 12 = Ret [0x7F; 0x95; 0x01].
Proof.
  split; [|vm_compute; reflexivity].
  apply copy_pdo_bits_spec; try (simpl; lia);
    repeat (apply List.Forall_cons; [unfold is_uint; lia|]); apply List.Forall_nil.
Defined.

(** ** Sign extension *)

Lemma set_bit_ok l k :
  bytes l → 0 ≤ k < 8 * len l → runs (set_bit l k) (λ d, bit_written l d k true).
Proof.
  intros Hl Hk. destruct (bit_index k _ Hk) as [Hk1 Hk2].
  unfold set_bit. rewrite lookup_at by done. rstep.
  apply byte_update; [done|done| |].
  - apply lor_u8; [by apply at_bytes|]. by apply wrap_range.
  - intros j Hj. by apply set_mask_bits.
Qed.

Lemma set_bits_loop_ok l k n :
  bytes l → 0 ≤ k → k + Z.of_nat n ≤ 8 * len l →
  runs (set_bits_loop l k n) (λ d, length d = length l ∧ bytes d ∧
    ∀ j, 0 ≤ j → Z.testbit (from_le_bytes d) j =
      if (k <=? j) && (j <? k + Z.of_nat n) then true else Z.testbit (from_le_bytes l) j).
Proof.
  revert l k. induction n as [|n IH]; intros l k Hl Hk Hkl.
  - split; [done|]. split; [done|]. intros j Hj.
    destruct (Z.leb_spec k j), (Z.ltb_spec j (k + Z.of_nat 0)); simpl; try done; lia.
  - cbn [set_bits_loop]. eapply runs_bind; [apply set_bit_ok; (done || lia)|].
    intros d1 (Hl1 & Hb1 & Hbits1). eapply runs_mono; [apply IH; (done || lia)|].
    intros d (Hld & Hb & Hbits). split; [congruence|]. split; [done|]. intros j Hj.
    rewrite Hbits, Hbits1 by done.
    destruct (Z.leb_spec (k + 1) j), (Z.ltb_spec j (k + 1 + Z.of_nat n)), (Z.eqb_spec j k),
      (Z.leb_spec k j), (Z.ltb_spec j (k + Z.of_nat (S n))); simpl; try lia; done.
Qed.

(** The two's complement reading of a [w]-bit number. *)
Definition signed (w x : Z) : Z := if Z.testbit x (w - 1) then x - 2 ^ w else x.

Lemma fill_sign x y (w n : Z) :
  0 ≤ w ≤ n → 0 ≤ x < 2 ^ w →
  (∀ j, 0 ≤ j → Z.testbit y j = if (w <=? j) && (j <? n) then true else Z.testbit x j) →
  y = x + 2 ^ n - 2 ^ w.
Proof.
  intros Hw Hx Hbits.
  assert (y = Z.lor x (Z.shiftl (Z.ones (n - w)) w)) as ->.
  { apply Z.bits_inj'. intros j Hj. rewrite Hbits, Z.lor_spec by done.
    destruct (Z.leb_spec w j).
    - rewrite (testbit_small x w j), Z.shiftl_spec, Z.testbit_ones_nonneg by lia.
      destruct (Z.ltb_spec j n), (Z.ltb_spec (j - w) (n - w)); simpl; try done; lia.
    - rewrite Z.shiftl_spec_low by lia. simpl. by rewrite orb_false_r. }
  assert (Z.land x (Z.shiftl (Z.ones (n - w)) w) = 0) as Hd.
  { apply Z.bits_inj'. intros j Hj. rewrite Z.land_spec, Z.bits_0.
    destruct (Z.lt_ge_cases j w).
    - rewrite Z.shiftl_spec_low by lia. by rewrite andb_false_r.
    - by rewrite (testbit_small x w j) by lia. }
  pose proof (Z.add_nocarry_lxor _ _ Hd). pose proof (Z.lxor_lor _ _ Hd).
  rewrite Z.shiftl_mul_pow2, Z.ones_equiv in * by lia.
  assert (2 ^ n = 2 ^ (n - w) * 2 ^ w) by (rewrite <- Z.pow_add_r by lia; f_equal; lia). lia.
Qed.

Lemma fill_sign_top x w n :
  0 < w ≤ n → 0 ≤ x < 2 ^ w → Z.testbit x (w - 1) = true → Z.testbit (x + 2 ^ n - 2 ^ w) (n - 1) = true.
Proof.
  intros Hw Hx Hs.
  assert (2 ^ (w - 1) ≤ x) as Hlow.
  { destruct (Z.lt_ge_cases x (2 ^ (w - 1))); [|done].
    rewrite (testbit_small x (w - 1)) in Hs by lia. done. }
  assert (2 ^ w = 2 * 2 ^ (w - 1)) as E1 by (rewrite <- Z.pow_succ_r by lia; f_equal; lia).
  assert (2 ^ n = 2 * 2 ^ (n - 1)) as E2 by (rewrite <- Z.pow_succ_r by lia; f_equal; lia).
  assert (2 ^ (w - 1) ≤ 2 ^ (n - 1)) by (apply Z.pow_le_mono_r; lia).
  apply Z.testbit_true; [lia|].
  rewrite <- (Z.div_unique_pos _ (2 ^ (n - 1)) 1 (x + 2 ^ n - 2 ^ w - 2 ^ (n - 1))) by lia. done.
Qed.

Lemma sign_extend_ok (value : list Z) (bits : Z) :
  bytes value → 0 ≤ bits ≤ 8 * len value → from_le_bytes value < 2 ^ bits →
  runs (sign_extend_pdo_bits value bits) (λ d, length d = length value ∧ bytes d ∧
    if bits =? 0 then d = value
    else signed (8 * len value) (from_le_bytes d) = signed bits (from_le_bytes value)).
Proof.
  intros Hv Hbits Hlt. pose proof (from_le_range value Hv) as Hr.
  unfold sign_extend_pdo_bits.
  destruct (Z.eqb_spec bits 0) as [->|Hnz]; [by cbn|]. cbn [orb].
  destruct (Z.leb_spec (len value * 8) bits) as [Hge|Hless].
  - rstep. replace bits with (8 * len value) by lia. done.
  - destruct (bit_index (bits - 1) (len value) ltac:(lia)) as [Hi _].
    rewrite lookup_at by done. rstep.
    rewrite bit_value, <- testbit_le by (done || lia || by apply Z.mod_pos_bound).
    destruct (Z.testbit (from_le_bytes value) (bits - 1)) eqn:Hs; cbn [negb]; rstep.
    + eapply runs_mono; [apply set_bits_loop_ok; (done || lia)|].
      intros d (Hl & Hb & Hd). split; [done|]. split; [done|].
      replace (bits + Z.of_nat _) with (8 * len value) in Hd by lia.
      assert (from_le_bytes d = from_le_bytes value + 2 ^ (8 * len value) - 2 ^ bits) as ->
        by (apply fill_sign; (done || lia)).
      unfold signed. rewrite Hs, fill_sign_top by (done || lia). lia.
    + split; [done|]. split; [done|]. unfold signed. rewrite Hs.
      by rewrite (testbit_small _ bits) by lia.
Qed.

(** [sign_extend_pdo_bits] widens the two's complement number received in
    the low [bits] bits of a cleared value to the whole value, for every width
    up to the value's own; with no bits it does nothing. *)
Theorem sign_extend_pdo_bits_spec (value : list Z) (bits : Z) :
  bytes value → 0 ≤ bits ≤ 8 * len value → from_le_bytes value < 2 ^ bits →
  runs (sign_extend_pdo_bits value bits) (λ d, length d = length value ∧ bytes d ∧
    if bits =? 0 then d = value
    else signed (8 * len value) (from_le_bytes d) = signed bits (from_le_bytes value)).
Proof. apply sign_extend_ok. Qed.

Lemma sign_extend_pdo_bits_spec_witness :
  sign_extend_pdo_bits [0xF0; 0x0F; 0; 0] 12 = Ret [0xF0; 0xFF; 0xFF; 0xFF] ∧
  runs (sign_extend_pdo_bits [0xF0; 0x0F; 0; 0] 12) (λ d, length d = 4%nat ∧ bytes d ∧
    signed 32 (from_le_bytes d) = signed 12 0xFF0).
Proof.
  split; [vm_compute; reflexivity|].
  apply (sign_extend_pdo_bits_spec [0xF0; 0x0F; 0; 0] 12); [|simpl; lia|vm_compute; reflexivity].
  repeat (apply List.Forall_cons; [unfold is_uint; lia|]); apply List.Forall_nil.
Defined.
