(* ===== verification/PdoEngine.v ===== *)
(** * The PDO engines

    [canopen-core/src/pdo/engine.rs], non-test part.  An engine's parallel
    arrays ([pdos], [sync_counter], ...) are one list of slot records; slot
    [i] holds the [i]-th element of each.  Loops over the slots touch only
    their own slot and the outputs they thread.  A [heapless::Vec] of capacity
    [N] is a list pushed to with [vec_push]. *)
From S2P Require Import Prelude Frame Nmt Od SdoProtocol SdoServer PdoBits.

(** ** Mapping entries *)

Definition PDO_MAX_PAYLOAD_BITS : Z := 64.

Record PdoMapping := mkMapping { pm_index : Z; pm_subindex : Z; bit_length : Z }.

Module PdoMapping.
Definition from_mapping_value (val : Z) : PdoMapping :=
  mkMapping (as_u16 (Z.shiftr val 16)) (as_u8 (Z.shiftr val 8)) (as_u8 val).

Definition to_mapping_value (m : PdoMapping) : Z :=
  Z.lor (Z.lor (as_u32 (Z.shiftl (pm_index m) 16)) (as_u32 (Z.shiftl (pm_subindex m) 8)))
        (bit_length m).
End PdoMapping.

Definition is_dummy_mapping_index (index : Z) : bool := in_range 0x0001 0x0007 index.

Definition bytes_for_bits (bits : Z) : Z := (bits + 7) / 8.

(** ** Transmission types *)

Definition SYNC_ACYCLIC : Z := 0.
Definition EVENT_DRIVEN_MANUFACTURER : Z := 254.
Definition EVENT_DRIVEN : Z := 255.

Definition sync_cyclic (n : Z) : exec Z :=
  _ ← assert_ ((1 <=? n) && (n <=? 240)); mret n.

Definition raw_is_synchronous (raw : Z) : bool := raw <=? 240.

Inductive TransmissionType :=
| SyncAcyclic
| SyncCyclic (n : Z)
| RtrSync
| RtrEvent
| EventDrivenManufacturer
| EventDriven.

Module TransmissionType.
Definition raw (t : TransmissionType) : exec Z :=
  match t with
  | SyncAcyclic => mret SYNC_ACYCLIC
  | SyncCyclic n => _ ← assert_ ((1 <=? n) && (n <=? 240)); mret n
  | RtrSync => mret 252
  | RtrEvent => mret 253
  | EventDrivenManufacturer => mret EVENT_DRIVEN_MANUFACTURER
  | EventDriven => mret EVENT_DRIVEN
  end.

Definition is_synchronous (t : TransmissionType) : bool :=
  match t with SyncAcyclic | SyncCyclic _ => true | _ => false end.

Definition from_raw (raw : Z) : option TransmissionType :=
  if raw =? 0 then Some SyncAcyclic
  else if in_range 1 240 raw then Some (SyncCyclic raw)
  else if raw =? 252 then Some RtrSync
  else if raw =? 253 then Some RtrEvent
  else if raw =? 254 then Some EventDrivenManufacturer
  else if raw =? 255 then Some EventDriven
  else None.
End TransmissionType.

(** ** PDO numbers *)

Module PdoNumber.
Definition new (n : Z) : option Z := if (1 <=? n) && (n <=? 512) then Some n else None.
Definition od_offset (n : Z) : Z := n - 1.
End PdoNumber.

Definition pdo_number_for_slot (od_number : Z) (slot : nat) : Z :=
  if od_number =? 0 then as_u16 (Z.of_nat slot) + 1 else od_number.

(** ** Configurations *)

Record TpdoConfig := mkTpdo {
  tp_od_number : Z;
  tp_cob_id : Z;
  tp_transmission_type : Z;
  inhibit_time_100us : Z;
  event_timer_ms : Z;
  tp_mappings : list PdoMapping;
  tp_enabled : bool;
}.

Definition TpdoConfig_default : TpdoConfig := mkTpdo 0 0 255 0 0 [] false.

Definition tp_is_placeholder (c : TpdoConfig) : bool :=
  (tp_od_number c =? 0) && (tp_cob_id c =? 0) && negb (tp_enabled c)
  && match tp_mappings c with [] => true | _ => false end.

Record RpdoConfig := mkRpdo {
  rp_od_number : Z;
  rp_cob_id : Z;
  rp_transmission_type : Z;
  deadline_ms : Z;
  rp_mappings : list PdoMapping;
  rp_enabled : bool;
}.

Definition RpdoConfig_default : RpdoConfig := mkRpdo 0 0 255 0 [] false.

Definition rp_is_placeholder (c : RpdoConfig) : bool :=
  (rp_od_number c =? 0) && (rp_cob_id c =? 0) && negb (rp_enabled c)
  && match rp_mappings c with [] => true | _ => false end.

(** [heapless::Vec::push], whose result the engines drop. *)
Definition vec_push {A} (cap : nat) (out : list A) (x : A) : list A :=
  if (length out <? cap)%nat then out ++ [x] else out.

(** ** Frames and dictionary entries *)

(** [validate_mapping_target], of which the dictionary's [lookup] is all it uses. *)
Definition validate_target (lookup : Z → Z → option OdEntryMeta) (descriptor : Z) (receive : bool)
    : result unit OdError :=
  let index := as_u16 (Z.shiftr descriptor 16) in
  if is_dummy_mapping_index index then Ok tt
  else
    let eligible :=
      match lookup index (as_u8 (Z.shiftr descriptor 8)) with
      | Some meta =>
          pdo_mappable meta &&
          (if receive then bool_decide (access meta = Wo ∨ access meta = Rw)
           else negb (bool_decide (access meta = Wo)))
      | None => false
      end in
    if eligible then Ok tt else Err (Abort (AbortCode.to_u32 ObjectCannotBeMapped)).

Section mapped.
Context {OD : Type} `{ObjectDictionary OD}.

Definition validate_mapping_target (od : OD) (descriptor : Z) (receive : bool) : result unit OdError :=
  validate_target (od_lookup od) descriptor receive.

(** The loop of [build_pdo_frame]; [None] is its [return None]. *)
Fixpoint build_loop (od : OD) (mappings : list PdoMapping) (data : list Z) (bit_offset : Z)
    : exec (option (list Z * Z)) :=
  match mappings with
  | [] => mret (Some (data, bit_offset))
  | m :: ms =>
      let bit_len := bit_length m in
      let end_bit := bit_offset + bit_len in
      if 64 <? end_bit then mret None
      else if is_dummy_mapping_index (pm_index m) then build_loop od ms data end_bit
      else
        match od_read od (pm_index m) (pm_subindex m) (zeros 8) with
        | (_, Err _) => mret None
        | (object_data, Ok read_len) =>
            if read_len * 8 <? bit_len then mret None
            else
              data ← copy_pdo_bits object_data 0 data bit_offset bit_len;
              build_loop od ms data end_bit
        end
  end.

Definition build_pdo_frame (pdo : TpdoConfig) (od : OD) : exec (option CanFrame) :=
  r ← build_loop od (tp_mappings pdo) (zeros 8) 0;
  match r with
  | None => mret None
  | Some (data, bit_offset) =>
      let total_bytes := (bit_offset + 7) / 8 in
      payload ← slice data 0 total_bytes;
      mret (CanFrame.new (tp_cob_id pdo) payload)
  end.

Definition is_signed_integer (t : DataType) : bool :=
  match t with I8 | I16 | I24 | I32 | I64 => true | _ => false end.

(** The data type and size of a fixed-size object. *)
Definition sized_type (od : OD) (index subindex : Z) : option (DataType * Z) :=
  meta ← od_lookup od index subindex;
  size ← DataType.size (data_type meta);
  mret (data_type meta, size).

(** The object value carried by one mapping: the bits widened to the object's
    size, with the width that is written. *)
Definition widen (od : OD) (m : PdoMapping) (object_data : list Z) : exec (list Z * Z) :=
  let object_len := bytes_for_bits (bit_length m) in
  match sized_type od (pm_index m) (pm_subindex m) with
  | Some (t, size) =>
      if (object_len <=? size) && (size <=? 8) then
        if is_signed_integer t then
          low ← slice object_data 0 size;
          low ← sign_extend_pdo_bits low (bit_length m);
          object_data ← copy_from_slice object_data 0 size low;
          mret (object_data, size)
        else mret (object_data, size)
      else mret (object_data, object_len)
  | None => mret (object_data, object_len)
  end.

Record Applied := mkApplied { ap_od : OD; ap_events : list OdEvent; ap_dropped : Z }.

(** One successful or refused write of [apply_mapped]. *)
Definition apply_write (evt_queue : nat) (a : Applied) (m : PdoMapping) (value : list Z) : Applied :=
  match od_write (ap_od a) (pm_index m) (pm_subindex m) value with
  | (od, Ok _) =>
      mkApplied od (push_event evt_queue (ap_events a) (mkEvent (pm_index m) (pm_subindex m) SrcRpdo))
        (if (evt_queue <=? length (ap_events a))%nat
         then saturating_add 32 (ap_dropped a) 1 else ap_dropped a)
  | (od, Err _) => mkApplied od (ap_events a) (ap_dropped a)
  end.

(** The loop of [apply_mapped]. *)
Fixpoint apply_loop (evt_queue : nat) (data : list Z) (mappings : list PdoMapping) (bit_offset : Z)
    (a : Applied) : exec Applied :=
  match mappings with
  | [] => mret a
  | m :: ms =>
      let bit_len := bit_length m in
      let end_bit := bit_offset + bit_len in
      if (len data * 8 <? end_bit) || (8 <? bytes_for_bits bit_len) then mret a
      else if is_dummy_mapping_index (pm_index m) then apply_loop evt_queue data ms end_bit a
      else
        object_data ← copy_pdo_bits data bit_offset (zeros 8) 0 bit_len;
        '(object_data, write_len) ← widen (ap_od a) m object_data;
        value ← slice object_data 0 write_len;
        apply_loop evt_queue data ms end_bit (apply_write evt_queue a m value)
  end.

Definition apply_mapped (evt_queue : nat) (pdo : RpdoConfig) (data : list Z) (od : OD)
    (events : list OdEvent) : exec Applied :=
  apply_loop evt_queue data (rp_mappings pdo) 0 (mkApplied od events 0).

End mapped.

Arguments Applied OD : clear implicits.
Arguments mkApplied {OD}.

Definition total_bits (ms : list PdoMapping) : Z := fold_right Z.add 0 (map bit_length ms).

Definition mapped_payload_len (pdo : RpdoConfig) : option Z :=
  let bits := total_bits (rp_mappings pdo) in
  if bits <=? PDO_MAX_PAYLOAD_BITS then Some (bytes_for_bits bits) else None.

(** ** The TPDO engine *)

Record TpdoSlot := mkTSlot {
  ts_cfg : TpdoConfig;
  sync_counter : Z;
  last_send_us : Z;
  sync_event_pending : bool;
  async_event_pending : bool;
}.

Abbreviation TpdoEngine := (list TpdoSlot).

(** [enumerate().find_map(..)] over the slots from number [n] on. *)
Fixpoint find_slot {A} (p : nat → A → bool) (l : list A) (n : nat) : option nat :=
  match l with
  | [] => None
  | a :: l' => if p n a then Some n else find_slot p l' (S n)
  end.

Definition maps_object (ms : list PdoMapping) (index subindex : Z) : bool :=
  existsb (λ m, (pm_index m =? index) && (pm_subindex m =? subindex)) ms.

Module Tpdo.

Definition new (pdos : list TpdoConfig) : TpdoEngine :=
  map (λ c, mkTSlot c 0 0 false false) pdos.

Definition slot_for_number (e : TpdoEngine) (number : Z) : option nat :=
  find_slot (λ slot t, negb (tp_is_placeholder (ts_cfg t))
    && (pdo_number_for_slot (tp_od_number (ts_cfg t)) slot =? number)) e 0.

Definition config_slot (e : TpdoEngine) (slot : nat) : option TpdoConfig := ts_cfg <$> e !! slot.

Definition config (e : TpdoEngine) (number : Z) : option TpdoConfig :=
  slot ← slot_for_number e number; config_slot e slot.

(** The slot's part of [latch_slot_event]. *)
Definition latch (t : TpdoSlot) : TpdoSlot :=
  if tp_enabled (ts_cfg t) then
    if tp_transmission_type (ts_cfg t) =? 0 then
      mkTSlot (ts_cfg t) (sync_counter t) (last_send_us t) true (async_event_pending t)
    else if (tp_transmission_type (ts_cfg t) =? 254) || (tp_transmission_type (ts_cfg t) =? 255) then
      mkTSlot (ts_cfg t) (sync_counter t) (last_send_us t) (sync_event_pending t) true
    else t
  else t.

Definition latch_slot_event (e : TpdoEngine) (slot : nat) : TpdoEngine := alter latch slot e.

Definition notify_changed (e : TpdoEngine) (index subindex : Z) : TpdoEngine :=
  map (λ t, if tp_enabled (ts_cfg t) && maps_object (tp_mappings (ts_cfg t)) index subindex
            then latch t else t) e.

Definition has_dirty_mapping (t : TpdoSlot) (dirty : list (Z * Z)) : bool :=
  existsb (λ m, existsb (λ '(idx, sub), (idx =? pm_index m) && (sub =? pm_subindex m)) dirty)
    (tp_mappings (ts_cfg t)).

Definition latch_sync_events (e : TpdoEngine) (dirty : list (Z * Z)) : TpdoEngine :=
  match dirty with
  | [] => e
  | _ =>
      map (λ t, if tp_enabled (ts_cfg t) && (tp_transmission_type (ts_cfg t) =? 0)
                   && has_dirty_mapping t dirty
                then mkTSlot (ts_cfg t) (sync_counter t) (last_send_us t) true (async_event_pending t)
                else t) e
  end.

Definition discard_sync_events (e : TpdoEngine) : TpdoEngine :=
  map (λ t, mkTSlot (ts_cfg t) (sync_counter t) (last_send_us t) false (async_event_pending t)) e.

Definition discard_async_events (e : TpdoEngine) : TpdoEngine :=
  map (λ t, mkTSlot (ts_cfg t) (sync_counter t) (last_send_us t) (sync_event_pending t) false) e.

Definition reset_communication_state (e : TpdoEngine) : TpdoEngine :=
  map (λ t, mkTSlot (ts_cfg t) 0 (last_send_us t) false false) e.

Section od.
Context {OD : Type} `{ObjectDictionary OD}.

(** The frame of one slot at a SYNC. *)
Definition on_sync_slot (t : TpdoSlot) (od : OD) : exec (TpdoSlot * option CanFrame) :=
  let cfg := ts_cfg t in
  if negb (tp_enabled cfg) then mret (t, None)
  else
    let tt := tp_transmission_type cfg in
    if tt =? 0 then
      let t' := mkTSlot cfg (sync_counter t) (last_send_us t) false (async_event_pending t) in
      if sync_event_pending t then f ← build_pdo_frame cfg od; mret (t', f) else mret (t', None)
    else if in_range 1 240 tt then
      counter ← checked 8 (sync_counter t + 1);
      let set c := mkTSlot cfg c (last_send_us t) (sync_event_pending t) (async_event_pending t) in
      if tt <=? counter then f ← build_pdo_frame cfg od; mret (set 0, f)
      else mret (set counter, None)
    else mret (t, None).

Fixpoint on_sync_loop (cap : nat) (e : TpdoEngine) (od : OD) (out : list CanFrame)
    : exec (TpdoEngine * list CanFrame) :=
  match e with
  | [] => mret ([], out)
  | t :: e' =>
      '(t, f) ← on_sync_slot t od;
      let out := match f with Some f => vec_push cap out f | None => out end in
      '(e', out) ← on_sync_loop cap e' od out;
      mret (t :: e', out)
  end.

Definition on_sync (e : TpdoEngine) (od : OD) (out : list CanFrame)
    : exec (TpdoEngine * list CanFrame) := on_sync_loop (length e) e od out.

(** [accept] is the transport: it sees each frame and may refuse it. *)
Context {S : Type} (accept : S → CanFrame → S * bool).

Definition poll_slot (t : TpdoSlot) (od : OD) (now_us : Z) (dirty : list (Z * Z)) (s : S)
    : exec (TpdoSlot * S) :=
  let cfg := ts_cfg t in
  if negb (tp_enabled cfg) then mret (t, s)
  else if negb ((tp_transmission_type cfg =? 254) || (tp_transmission_type cfg =? 255)) then mret (t, s)
  else
    let inhibit_us := inhibit_time_100us cfg * 100 in
    let elapsed := wrapping_sub 64 now_us (last_send_us t) in
    let pending := async_event_pending t || has_dirty_mapping t dirty in
    let timer_trigger := (0 <? event_timer_ms cfg) && (event_timer_ms cfg * 1000 <=? elapsed) in
    let t := mkTSlot cfg (sync_counter t) (last_send_us t) (sync_event_pending t) pending in
    if (pending || timer_trigger) && (inhibit_us <=? elapsed) then
      f ← build_pdo_frame cfg od;
      match f with
      | None => mret (t, s)
      | Some frame =>
          let '(s, ok) := accept s frame in
          if ok then mret (mkTSlot cfg (sync_counter t) now_us (sync_event_pending t) false, s)
          else mret (t, s)
      end
    else mret (t, s).

Fixpoint poll_with (e : TpdoEngine) (od : OD) (now_us : Z) (dirty : list (Z * Z)) (s : S)
    : exec (TpdoEngine * S) :=
  match e with
  | [] => mret ([], s)
  | t :: e' =>
      '(t, s) ← poll_slot t od now_us dirty s;
      '(e', s) ← poll_with e' od now_us dirty s;
      mret (t :: e', s)
  end.

End od.

(** [poll]: the frames are pushed to [out], which refuses when full. *)
Definition poll `{ObjectDictionary OD} (e : TpdoEngine) (od : OD) (now_us : Z)
    (dirty : list (Z * Z)) (out : list CanFrame) : exec (TpdoEngine * list CanFrame) :=
  poll_with (λ out f, (vec_push (length e) out f, (length out <? length e)%nat)) e od now_us dirty out.

End Tpdo.

(** ** The RPDO engine *)

Record RpdoSlot := mkRSlot {
  rs_cfg : RpdoConfig;
  pending : option CanFrame;
  last_rx_us : Z;
  armed : bool;
  expired : bool;
}.

Record RpdoEngine := mkRpdoEngine { rpdo_slots : list RpdoSlot; length_errors : Z }.

Module Rpdo.

Definition new (pdos : list RpdoConfig) : RpdoEngine :=
  mkRpdoEngine (map (λ c, mkRSlot c None 0 false false) pdos) 0.

Definition slot_for_number (e : RpdoEngine) (number : Z) : option nat :=
  find_slot (λ slot r, negb (rp_is_placeholder (rs_cfg r))
    && (pdo_number_for_slot (rp_od_number (rs_cfg r)) slot =? number)) (rpdo_slots e) 0.

Definition config_slot (e : RpdoEngine) (slot : nat) : option RpdoConfig :=
  rs_cfg <$> rpdo_slots e !! slot.

Definition config (e : RpdoEngine) (number : Z) : option RpdoConfig :=
  slot ← slot_for_number e number; config_slot e slot.

Definition set_slot (e : RpdoEngine) (slot : nat) (r : RpdoSlot) : RpdoEngine :=
  mkRpdoEngine (<[slot := r]> (rpdo_slots e)) (length_errors e).

(** [iter().position(|pdo| pdo.enabled && ..)] *)
Definition matching_slot (e : RpdoEngine) (cob : Z) : option nat :=
  find_slot (λ _ r, rp_enabled (rs_cfg r) && (cob =? rp_cob_id (rs_cfg r))) (rpdo_slots e) 0.

Section od.
Context {OD : Type} `{ObjectDictionary OD} (evt_queue : nat).

(** The result is the engine, what the mapping applied (dictionary, events,
    drop count) and whether the frame was consumed. *)
Definition process_with_drop_count (e : RpdoEngine) (frame : CanFrame) (od : OD)
    (events : list OdEvent) (now_us : Z) : exec (RpdoEngine * Applied OD * bool) :=
  let nothing := mkApplied od events 0 in
  match matching_slot e (CanFrame.raw_id frame) with
  | None => mret (e, nothing, false)
  | Some slot =>
      r ← unwrap (rpdo_slots e !! slot);
      let cfg := rs_cfg r in
      let too_short := match mapped_payload_len cfg with
                       | None => true
                       | Some n => len (CanFrame.data frame) <? n
                       end in
      if too_short then
        mret (mkRpdoEngine (rpdo_slots e) (saturating_add 32 (length_errors e) 1), nothing, true)
      else if raw_is_synchronous (rp_transmission_type cfg) then
        mret (set_slot e slot (mkRSlot cfg (Some frame) now_us true false), nothing, true)
      else
        a ← apply_mapped evt_queue cfg (CanFrame.data frame) od events;
        mret (set_slot e slot (mkRSlot cfg (pending r) now_us true false), a, true)
  end.

Definition process (e : RpdoEngine) (frame : CanFrame) (od : OD) (events : list OdEvent)
    (now_us : Z) : exec (RpdoEngine * OD * list OdEvent * bool) :=
  '(e, a, b) ← process_with_drop_count e frame od events now_us;
  mret (e, ap_od a, ap_events a, b).

Fixpoint on_sync_loop (slots : list RpdoSlot) (od : OD) (events : list OdEvent) (dropped : Z)
    : exec (list RpdoSlot * Applied OD) :=
  match slots with
  | [] => mret ([], mkApplied od events dropped)
  | r :: slots' =>
      match pending r with
      | None =>
          '(slots', a) ← on_sync_loop slots' od events dropped; mret (r :: slots', a)
      | Some frame =>
          a ← apply_mapped evt_queue (rs_cfg r) (CanFrame.data frame) od events;
          '(slots', a) ← on_sync_loop slots' (ap_od a) (ap_events a)
                           (saturating_add 32 dropped (ap_dropped a));
          mret (mkRSlot (rs_cfg r) None (last_rx_us r) (armed r) (expired r) :: slots', a)
      end
  end.

Definition on_sync (e : RpdoEngine) (od : OD) (events : list OdEvent)
    : exec (RpdoEngine * Applied OD) :=
  '(slots, a) ← on_sync_loop (rpdo_slots e) od events 0;
  mret (mkRpdoEngine slots (length_errors e), a).

End od.

Definition has_pending (e : RpdoEngine) (number : Z) : bool :=
  match slot_for_number e number with
  | Some slot => match rpdo_slots e !! slot with
                 | Some r => match pending r with Some _ => true | None => false end
                 | None => false
                 end
  | None => false
  end.

Definition map_slots (f : RpdoSlot → RpdoSlot) (e : RpdoEngine) : RpdoEngine :=
  mkRpdoEngine (map f (rpdo_slots e)) (length_errors e).

Definition discard_pending (e : RpdoEngine) : RpdoEngine :=
  map_slots (λ r, mkRSlot (rs_cfg r) None (last_rx_us r) (armed r) (expired r)) e.

(** Does the slot's deadline expire in this check? *)
Definition expires (r : RpdoSlot) (now_us : Z) : bool :=
  rp_enabled (rs_cfg r) && negb (deadline_ms (rs_cfg r) =? 0) && armed r && negb (expired r)
  && (deadline_ms (rs_cfg r) * 1000 <? wrapping_sub 64 now_us (last_rx_us r)).

Fixpoint check_loop (cap slot : nat) (slots : list RpdoSlot) (now_us : Z) (out : list Z)
    : list RpdoSlot * list Z :=
  match slots with
  | [] => ([], out)
  | r :: slots' =>
      let '(r, out) :=
        if expires r now_us then
          (mkRSlot (rs_cfg r) (pending r) (last_rx_us r) (armed r) true,
           match PdoNumber.new (pdo_number_for_slot (rp_od_number (rs_cfg r)) slot) with
           | Some n => vec_push cap out n
           | None => out
           end)
        else (r, out) in
      let '(slots', out) := check_loop cap (S slot) slots' now_us out in
      (r :: slots', out)
  end.

Definition check_deadlines (e : RpdoEngine) (now_us : Z) (out : list Z) : RpdoEngine * list Z :=
  let '(slots, out) := check_loop (length (rpdo_slots e)) 0 (rpdo_slots e) now_us out in
  (mkRpdoEngine slots (length_errors e), out).

Definition deadline_expired_slot (e : RpdoEngine) (slot : nat) : bool :=
  match rpdo_slots e !! slot with
  | None => false
  | Some r => rp_enabled (rs_cfg r) && (0 <? deadline_ms (rs_cfg r)) && (negb (armed r) || expired r)
  end.

Definition deadline_expired (e : RpdoEngine) (number : Z) : bool :=
  match slot_for_number e number with
  | Some slot => deadline_expired_slot e slot
  | None => false
  end.

Definition reset_deadline_monitoring (e : RpdoEngine) : RpdoEngine :=
  map_slots (λ r, mkRSlot (rs_cfg r) (pending r) (last_rx_us r) false false) e.

End Rpdo.
