(* ===== verification/PdoMapped.v ===== *)
(** * What a PDO carries

    [build_pdo_frame] and [apply_mapped] of [PdoEngine] against the arithmetic
    they stand for: a PDO payload is one number, each mapping a field of it.
    A consumer with the producer's mapping writes exactly the producer's
    object values. *)
From S2P Require Import Prelude Frame Nmt Od SdoProtocol SdoServer SdoServerSafe PdoBits PdoEngine.

(** ** Fields of numbers *)

(** [n] bits of [x] from bit [off] on. *)
Definition field (x off n : Z) : Z := Z.shiftr x off mod 2 ^ n.

Lemma field_range x off n : 0 ≤ n → 0 ≤ field x off n < 2 ^ n.
Proof. intros. unfold field. apply Z.mod_pos_bound. by apply Z.pow_pos_nonneg. Qed.

Lemma field_testbit x off n k :
  0 ≤ off → 0 ≤ n → 0 ≤ k →
  Z.testbit (field x off n) k = if k <? n then Z.testbit x (off + k) else false.
Proof.
  intros Ho Hn Hk. unfold field. destruct (Z.ltb_spec k n).
  - rewrite Z.mod_pow2_bits_low, Z.shiftr_spec by lia. f_equal. lia.
  - by apply Z.mod_pow2_bits_high; lia.
Qed.

Lemma take_to_le (k n : nat) z : (k ≤ n)%nat → take k (to_le_bytes n z) = to_le_bytes k z.
Proof.
  revert n z. induction k as [|k IH]; intros [|n] z Hk; try done; [lia|].
  change (take (S k) (to_le_bytes (S n) z)) with (z mod 256 :: take k (to_le_bytes n (z / 256))).
  rewrite IH by lia. done.
Qed.

Lemma to_le_mod n z : to_le_bytes n (z mod 256 ^ Z.of_nat n) = to_le_bytes n z.
Proof.
  apply from_le_inj; [apply bytes_to_le..|by rewrite !length_to_le|].
  rewrite !from_to_le. by rewrite Z.mod_mod by lia.
Qed.

Lemma le_number l n x : bytes l → length l = n → from_le_bytes l = x → l = to_le_bytes n x.
Proof. intros Hl <- <-. by rewrite to_from_le. Qed.

Lemma pow_256 n : 0 ≤ n → 256 ^ n = 2 ^ (8 * n).
Proof. intros. change 256 with (2 ^ 8). by rewrite <- Z.pow_mul_r by lia. Qed.

(** Two fields side by side. *)
Lemma sum_testbit x y off k :
  0 ≤ off → 0 ≤ x < 2 ^ off → 0 ≤ k →
  Z.testbit (x + y * 2 ^ off) k = if k <? off then Z.testbit x k else Z.testbit y (k - off).
Proof.
  intros Ho Hx Hk. destruct (Z.ltb_spec k off).
  - rewrite <- (Z.mod_pow2_bits_low (x + y * 2 ^ off) off) by lia.
    by rewrite Z.mod_add, Z.mod_small by lia.
  - replace k with (k - off + off) at 1 by lia.
    rewrite <- Z.shiftr_spec, Z.shiftr_div_pow2 by lia.
    by rewrite Z.div_add, Z.div_small, Z.add_0_l by lia.
Qed.

(** The bits copied into a cleared array, as a number. *)
Lemma copy_to_zeros src sb n :
  bytes src → 0 ≤ n ≤ 64 → 0 ≤ sb → sb + n ≤ 8 * len src →
  copy_pdo_bits src sb (zeros 8) 0 n = Ret (to_le_bytes 8 (field (from_le_bytes src) sb n)).
Proof.
  intros Hs Hn Hsb Hsl.
  destruct (runs_inv _ _ (copy_pdo_bits_ok src (zeros 8) sb 0 n Hs (bytes_zeros 8) ltac:(lia) Hsb Hsl ltac:(lia) ltac:(rewrite len_zeros; lia)))
    as (d & -> & Hl & Hb & Hbits).
  f_equal. apply le_number; [done|by rewrite Hl|].
  apply Z.bits_inj'. intros k Hk. rewrite Hbits, field_testbit by lia.
  rewrite (proj2 (Z.leb_le 0 k)), Z.add_0_l by lia. cbn [andb].
  destruct (Z.ltb_spec k n); [f_equal; lia|]. apply Z.bits_0.
Qed.

(** Bits written into the next free field of a payload. *)
Lemma copy_append data x src off n :
  data = to_le_bytes 8 x → 0 ≤ x < 2 ^ off → bytes src → 0 ≤ n → 0 ≤ off → off + n ≤ 64 → n ≤ 8 * len src →
  copy_pdo_bits src 0 data off n =
    Ret (to_le_bytes 8 (x + field (from_le_bytes src) 0 n * 2 ^ off)).
Proof.
  intros -> Hx Hs Hn Ho Hon Hsl.
  destruct (runs_inv _ _ (copy_pdo_bits_ok src (to_le_bytes 8 x) 0 off n Hs (bytes_to_le 8 x)
    Hn ltac:(lia) ltac:(lia) Ho ltac:(rewrite length_to_le; lia))) as (d & -> & Hl & Hb & Hbits).
  f_equal. apply le_number; [done|by rewrite Hl, length_to_le|].
  pose proof (field_range (from_le_bytes src) 0 n Hn) as Hf.
  assert (2 ^ off ≤ 2 ^ 64) as Hp by (apply Z.pow_le_mono_r; lia).
  assert (from_le_bytes (to_le_bytes 8 x) = x) as Hfx by (apply from_to_le_id; simpl; lia).
  apply Z.bits_inj'. intros k Hk. rewrite Hbits, Hfx by lia.
  rewrite (sum_testbit x (field (from_le_bytes src) 0 n) off k) by lia.
  destruct (Z.leb_spec off k); cbn [andb].
  - rewrite (proj2 (Z.ltb_ge k off)), field_testbit by lia.
    destruct (Z.ltb_spec k (off + n)), (Z.ltb_spec (k - off) n); try lia; [done|].
    by rewrite (testbit_small x off) by lia.
  - by rewrite (proj2 (Z.ltb_lt k off)) by lia.
Qed.

Definition wf_mapping (m : PdoMapping) : Prop := is_u8 (bit_length m).

Section mapped.
Context {OD : Type} `{OdLaws OD}.

(** ** Transmission *)

(** The number a TPDO transmits, and its bits; [None] when it cannot. *)
Fixpoint tpdo_image (od : OD) (ms : list PdoMapping) (off acc : Z) : option (Z * Z) :=
  match ms with
  | [] => Some (acc, off)
  | m :: ms =>
      let n := bit_length m in
      if 64 <? off + n then None
      else if is_dummy_mapping_index (pm_index m) then tpdo_image od ms (off + n) acc
      else
        match od_read od (pm_index m) (pm_subindex m) (zeros 8) with
        | (_, Err _) => None
        | (obj, Ok k) =>
            if k * 8 <? n then None
            else tpdo_image od ms (off + n) (acc + field (from_le_bytes obj) 0 n * 2 ^ off)
        end
  end.

Lemma append_range x y off n :
  0 ≤ x < 2 ^ off → 0 ≤ y < 2 ^ n → 0 ≤ off → 0 ≤ n → 0 ≤ x + y * 2 ^ off < 2 ^ (off + n).
Proof. intros. rewrite Z.pow_add_r by lia. nia. Qed.

Lemma od_read_8 od i s obj k :
  od_read od i s (zeros 8) = (obj, Ok k) → bytes obj ∧ len obj = 8 ∧ 0 ≤ k ≤ 8.
Proof.
  intros Hr. assert (obj = fst (od_read od i s (zeros 8))) as -> by by rewrite Hr.
  split; [apply od_read_bytes, bytes_zeros|]. split; [by rewrite od_read_length|].
  pose proof (od_read_bound od i s (zeros 8) k) as Hb. rewrite Hr in Hb. by apply Hb.
Qed.

Lemma build_loop_image od ms x off :
  Forall wf_mapping ms → 0 ≤ off ≤ 64 → 0 ≤ x < 2 ^ off →
  build_loop od ms (to_le_bytes 8 x) off =
    Ret (match tpdo_image od ms off x with
         | Some (y, bits) => Some (to_le_bytes 8 y, bits) | None => None end) ∧
  match tpdo_image od ms off x with
  | Some (y, bits) => off ≤ bits ≤ 64 ∧ 0 ≤ y < 2 ^ bits ∧ bits = off + total_bits ms
  | None => True
  end.
Proof.
  intros Hms. revert x off. induction Hms as [|m ms Hm _ IH]; intros x off Ho Hx.
  - cbn. split_and!; try done; lia.
  - unfold wf_mapping, is_uint in Hm. cbn [build_loop tpdo_image].
    destruct (Z.ltb_spec 64 (off + bit_length m)); [done|].
    assert (total_bits (m :: ms) = bit_length m + total_bits ms) as Htot by done.
    destruct (is_dummy_mapping_index (pm_index m)).
    + destruct (IH x (off + bit_length m)) as [E1 E2]; [lia| |].
      { split; [lia|]. apply (Z.lt_le_trans _ (2 ^ off)); [lia|]. apply Z.pow_le_mono_r; lia. }
      rewrite E1. split; [done|]. destruct (tpdo_image _ _ _ _) as [[y bits]|]; [|done].
      rewrite Htot. destruct E2 as (? & ? & ->). split_and!; lia.
    + destruct (od_read od _ _ _) as [obj [k|e]] eqn:Hr; [|done].
      destruct (od_read_8 _ _ _ _ _ Hr) as (Hb & Hl & Hk).
      destruct (Z.ltb_spec (k * 8) (bit_length m)); [done|].
      rewrite (copy_append _ x) by (done || lia). rstep.
      pose proof (field_range (from_le_bytes obj) 0 (bit_length m) ltac:(lia)) as Hf.
      destruct (IH (x + field (from_le_bytes obj) 0 (bit_length m) * 2 ^ off) (off + bit_length m))
        as [E1 E2]; [lia|apply append_range; lia|].
      rewrite E1. split; [done|]. destruct (tpdo_image _ _ _ _) as [[y bits]|]; [|done].
      rewrite Htot. destruct E2 as (? & ? & ->). split_and!; lia.
Qed.

Lemma bytes_for_bits_bound n : 0 ≤ n ≤ 64 → 0 ≤ bytes_for_bits n ≤ 8 ∧ n ≤ 8 * bytes_for_bits n.
Proof.
  intros Hn. unfold bytes_for_bits. pose proof (Z.div_mod (n + 7) 8). pose proof (Z.mod_pos_bound (n + 7) 8).
  lia.
Qed.

Lemma build_pdo_frame_image pdo od :
  Forall wf_mapping (tp_mappings pdo) →
  build_pdo_frame pdo od =
  Ret (match tpdo_image od (tp_mappings pdo) 0 0 with
       | None => None
       | Some (x, bits) => CanFrame.new (tp_cob_id pdo) (to_le_bytes (Z.to_nat (bytes_for_bits bits)) x)
       end).
Proof.
  intros Hms. unfold build_pdo_frame. change (zeros 8) with (to_le_bytes 8 0).
  destruct (build_loop_image od (tp_mappings pdo) 0 0 Hms) as [-> Hi]; [lia|lia|]. rstep.
  destruct (tpdo_image od (tp_mappings pdo) 0 0) as [[x bits]|]; [|done].
  destruct Hi as (Hb & Hx & _). pose proof (bytes_for_bits_bound bits Hb) as Hbb.
  change ((bits + 7) / 8) with (bytes_for_bits bits).
  rewrite slice_prefix by (rewrite ?length_to_le; lia). rstep. by rewrite take_to_le by lia.
Qed.

(** ** Reception *)

(** The bytes of an object of type [t] for the received field [v] of [n] bits. *)
Definition object_bytes (ty : option (DataType * Z)) (n v : Z) : list Z :=
  match ty with
  | Some (t, size) =>
      if (bytes_for_bits n <=? size) && (size <=? 8) then
        to_le_bytes (Z.to_nat size) (if is_signed_integer t then signed n v else v)
      else to_le_bytes (Z.to_nat (bytes_for_bits n)) v
  | None => to_le_bytes (Z.to_nat (bytes_for_bits n)) v
  end.

Lemma sized_type_size od i s t size : sized_type od i s = Some (t, size) → 1 ≤ size ≤ 8.
Proof.
  unfold sized_type. destruct (od_lookup od i s) as [meta|]; simpl; [|done].
  destruct (DataType.size (data_type meta)) eqn:E; simpl; [|done]. intros [= <- <-]. by eapply size_pos.
Qed.

(** Equal two's complement readings are equal bytes. *)
Lemma signed_mod w x : 0 ≤ w → 0 ≤ x < 2 ^ w → signed w x mod 2 ^ w = x.
Proof.
  intros Hw Hx. unfold signed. case_match; [|by apply Z.mod_small].
  rewrite <- (Z.mod_add _ 1) by lia. rewrite Z.mul_1_l. rewrite Z.mod_small; lia.
Qed.

Lemma widen_spec od m v :
  wf_mapping m → bytes_for_bits (bit_length m) ≤ 8 → 0 ≤ v < 2 ^ bit_length m →
  ∃ data n, widen od m (to_le_bytes 8 v) = Ret (data, n) ∧
    slice data 0 n = Ret (object_bytes (sized_type od (pm_index m) (pm_subindex m)) (bit_length m) v).
Proof.
  intros Hm Hn8 Hv. unfold wf_mapping, is_uint in Hm. unfold widen, object_bytes.
  pose proof (Z.div_mod (bit_length m + 7) 8) as Hd. pose proof (Z.mod_pos_bound (bit_length m + 7) 8) as Hmd.
  assert (0 ≤ bytes_for_bits (bit_length m) ∧ bit_length m ≤ 8 * bytes_for_bits (bit_length m)) as [Hb0 Hb1]
    by (unfold bytes_for_bits in *; lia).
  assert (∀ k, 0 ≤ k ≤ 8 → slice (to_le_bytes 8 v) 0 k = Ret (to_le_bytes (Z.to_nat k) v)) as Hsl.
  { intros k Hk. rewrite slice_prefix by (rewrite ?length_to_le; lia). by rewrite take_to_le by lia. }
  destruct (sized_type od (pm_index m) (pm_subindex m)) as [[t size]|] eqn:Hs;
    [|eexists _, _; split; [done|]; by apply Hsl].
  apply sized_type_size in Hs as Hsize.
  destruct (Z.leb_spec (bytes_for_bits (bit_length m)) size), (Z.leb_spec size 8); cbn [andb]; try lia;
    [|eexists _, _; split; [done|]; by apply Hsl].
  destruct (is_signed_integer t) eqn:Hsg; [|eexists _, _; split; [done|]; apply Hsl; lia].
  rewrite Hsl by lia. rstep.
  set (low := to_le_bytes (Z.to_nat size) v).
  assert (len low = size) as Hll by (unfold low; rewrite length_to_le; lia).
  assert (v < 256 ^ size) as Hvs.
  { rewrite pow_256 by lia. apply (Z.lt_le_trans _ (2 ^ bit_length m)); [lia|]. apply Z.pow_le_mono_r; lia. }
  assert (from_le_bytes low = v) as Hlv by (apply from_to_le_id; rewrite Z2Nat.id; lia).
  destruct (runs_inv _ _ (sign_extend_ok low (bit_length m) (bytes_to_le _ _) ltac:(lia) ltac:(lia)))
    as (d & -> & Hld & Hbd & Hsd). rstep.
  rewrite copy_from_slice_ret by (rewrite ?length_to_le; lia). rstep.
  eexists _, _. split; [done|]. change (Z.to_nat 0) with 0%nat. rewrite take_0. cbn [app].
  rewrite slice_prefix by (rewrite ?length_app; lia). f_equal.
  rewrite take_app_length' by lia.
  assert (length d = Z.to_nat size) as Hdl by lia.
  destruct (Z.eqb_spec (bit_length m) 0) as [Hz|Hnz].
  - subst d. rewrite Hz in *. change (2 ^ 0) with 1 in Hv. assert (v = 0) as -> by lia. done.
  - rewrite Hll, Hlv in Hsd. pose proof (from_le_range d Hbd) as Hr.
    replace (len d) with size in Hr by lia. rewrite pow_256 in Hr by lia.
    rewrite <- Hsd, <- to_le_mod, Z2Nat.id, pow_256 by lia. apply le_number; [done|done|].
    by rewrite signed_mod by lia.
Qed.
End mapped.

Section received.
Context {OD : Type} `{ObjectDictionary OD} (evt : nat).

(** Writing the fields of the number [x] along the mapping, from bit [off] on. *)
Fixpoint apply_fields (ms : list PdoMapping) (off x : Z) (a : Applied OD) : Applied OD :=
  match ms with
  | [] => a
  | m :: ms =>
      let n := bit_length m in
      if is_dummy_mapping_index (pm_index m) then apply_fields ms (off + n) x a
      else apply_fields ms (off + n) x
             (apply_write evt a m
                (object_bytes (sized_type (ap_od a) (pm_index m) (pm_subindex m)) n (field x off n)))
  end.

Lemma total_bits_nonneg ms : Forall wf_mapping ms → 0 ≤ total_bits ms.
Proof.
  induction 1 as [|m ms Hm _ IH]; [done|]. unfold wf_mapping, is_uint in Hm.
  change (total_bits (m :: ms)) with (bit_length m + total_bits ms). lia.
Qed.

Lemma apply_loop_fields ms data off a :
  Forall wf_mapping ms → bytes data → len data ≤ 8 → 0 ≤ off → off + total_bits ms ≤ 8 * len data →
  apply_loop evt data ms off a = Ret (apply_fields ms off (from_le_bytes data) a).
Proof.
  intros Hms Hd Hl. revert off a. induction Hms as [|m ms Hm Hms IH]; intros off a Ho Ht; [done|].
  pose proof (total_bits_nonneg ms Hms) as Htn.
  change (total_bits (m :: ms)) with (bit_length m + total_bits ms) in Ht.
  pose proof Hm as Hm'. unfold wf_mapping, is_uint in Hm'.
  pose proof (bytes_for_bits_bound (bit_length m) ltac:(lia)) as [Hbb _].
  cbn [apply_loop apply_fields].
  rewrite (proj2 (Z.ltb_ge (len data * 8) _)), (proj2 (Z.ltb_ge 8 _)) by lia. cbn [orb].
  destruct (is_dummy_mapping_index (pm_index m)); [apply IH; lia|].
  rewrite copy_to_zeros by (done || lia). rstep.
  destruct (widen_spec (ap_od a) m (field (from_le_bytes data) off (bit_length m)) Hm ltac:(lia)
    ltac:(apply field_range; lia)) as (obj & n & -> & Hsl). rstep. rewrite Hsl. rstep. apply IH; lia.
Qed.
End received.

(** ** End to end *)

Section roundtrip.
Context {OD1 OD2 : Type} `{OdLaws OD1} `{ObjectDictionary OD2} (evt : nat).

(** Writing the producer's object values themselves: for each mapped object of
    [od], the low bits of its value as the mapping's field. *)
Fixpoint deliver (od : OD1) (ms : list PdoMapping) (a : Applied OD2) : Applied OD2 :=
  match ms with
  | [] => a
  | m :: ms =>
      if is_dummy_mapping_index (pm_index m) then deliver od ms a
      else
        let obj := fst (od_read od (pm_index m) (pm_subindex m) (zeros 8)) in
        deliver od ms
          (apply_write evt a m
             (object_bytes (sized_type (ap_od a) (pm_index m) (pm_subindex m)) (bit_length m)
                (from_le_bytes obj mod 2 ^ bit_length m)))
  end.

Lemma image_low (od : OD1) ms off acc y bits :
  Forall wf_mapping ms → 0 ≤ off → tpdo_image od ms off acc = Some (y, bits) →
  y mod 2 ^ off = acc mod 2 ^ off.
Proof.
  intros Hms. revert off acc. induction Hms as [|m ms Hm _ IH]; intros off acc Ho; cbn [tpdo_image].
  - by intros [= <- <-].
  - unfold wf_mapping, is_uint in Hm.
    assert (∀ z, z mod 2 ^ (off + bit_length m) mod 2 ^ off = z mod 2 ^ off) as Hmm.
    { intros z. apply Z.bits_inj'. intros k Hk. destruct (Z.lt_ge_cases k off).
      - by rewrite !Z.mod_pow2_bits_low by lia.
      - by rewrite !Z.mod_pow2_bits_high by lia. }
    destruct (64 <? _); [done|]. destruct (is_dummy_mapping_index _).
    + intros Hi. apply IH in Hi; [|lia]. by rewrite <- (Hmm y), Hi, Hmm.
    + destruct (od_read _ _ _ _) as [obj [k|e]]; [|done]. destruct (k * 8 <? _); [done|].
      intros Hi. apply IH in Hi; [|lia]. rewrite <- (Hmm y), Hi, Hmm.
      by rewrite Z.mod_add by lia.
Qed.

Lemma field_of_image x obj y off n :
  0 ≤ off → 0 ≤ n → 0 ≤ x < 2 ^ off →
  y mod 2 ^ (off + n) = (x + field obj 0 n * 2 ^ off) mod 2 ^ (off + n) →
  field y off n = obj mod 2 ^ n.
Proof.
  intros Ho Hn Hx Hy. apply Z.bits_inj'. intros k Hk. rewrite field_testbit by lia.
  destruct (Z.ltb_spec k n).
  - rewrite Z.mod_pow2_bits_low by lia.
    rewrite <- (Z.mod_pow2_bits_low y (off + n)), Hy, Z.mod_pow2_bits_low by lia.
    rewrite sum_testbit, (proj2 (Z.ltb_ge _ off)), field_testbit by lia.
    rewrite (proj2 (Z.ltb_lt _ n)) by lia. f_equal. lia.
  - by rewrite Z.mod_pow2_bits_high by lia.
Qed.

Lemma fields_of_image (od : OD1) ms off acc y bits a :
  Forall wf_mapping ms → 0 ≤ off → 0 ≤ acc < 2 ^ off →
  tpdo_image od ms off acc = Some (y, bits) →
  apply_fields evt ms off y a = deliver od ms a.
Proof.
  intros Hms. revert off acc a. induction Hms as [|m ms Hm Hms IH]; intros off acc a Ho Hacc; [done|].
  unfold wf_mapping, is_uint in Hm. cbn [tpdo_image apply_fields deliver].
  destruct (64 <? _); [done|]. destruct (is_dummy_mapping_index _).
  - intros Hi. eapply (IH (off + bit_length m) acc); [lia| |done].
    split; [lia|]. apply (Z.lt_le_trans _ (2 ^ off)); [lia|]. apply Z.pow_le_mono_r; lia.
  - destruct (od_read _ _ _ _) as [obj [k|e]]; [|done]. destruct (k * 8 <? _); [done|].
    intros Hi. cbn [fst]. pose proof (image_low od ms (off + bit_length m) _ y bits Hms ltac:(lia) Hi) as Hlow.
    rewrite (field_of_image acc (from_le_bytes obj) y off (bit_length m)) by (done || lia).
    eapply IH; [lia| |exact Hi]. apply append_range; try lia. apply field_range. lia.
Qed.

(** C11. A PDO carries its objects: when a producer's TPDO and a consumer's
    RPDO have the same mapping (any bit lengths, dummy entries included), the
    frame the producer builds is never too short for the consumer, and
    processing it performs exactly the writes of the producer's object values,
    widened to the consumer's object types (signed ones with their sign), in
    mapping order and with one event each. *)
Theorem pdo_roundtrip (tp : TpdoConfig) (rp : RpdoConfig) (od1 : OD1) (od2 : OD2)
    (events : list OdEvent) (f : CanFrame) :
  Forall wf_mapping (tp_mappings tp) → rp_mappings rp = tp_mappings tp →
  build_pdo_frame tp od1 = Ret (Some f) →
  mapped_payload_len rp = Some (len (CanFrame.data f)) ∧
  apply_mapped evt rp (CanFrame.data f) od2 events =
    Ret (deliver od1 (tp_mappings tp) (mkApplied od2 events 0)).
Proof.
  intros Hms Hrp Hf. rewrite build_pdo_frame_image in Hf by done.
  destruct (tpdo_image od1 (tp_mappings tp) 0 0) as [[y bits]|] eqn:Hi; [|done].
  injection Hf as Hf.
  destruct (build_loop_image od1 (tp_mappings tp) 0 0 Hms ltac:(lia) ltac:(lia)) as [_ Hb].
  rewrite Hi in Hb. destruct Hb as (Hb & Hy & Htot). rewrite Z.add_0_l in Htot.
  pose proof (bytes_for_bits_bound bits Hb) as [Hbb Hb8].
  rewrite (CanFrame_new_data _ _ _ Hf).
  unfold mapped_payload_len, apply_mapped. rewrite Hrp, <- Htot, length_to_le.
  split; [rewrite (proj2 (Z.leb_le _ _)) by (unfold PDO_MAX_PAYLOAD_BITS; lia); f_equal; lia|].
  rewrite apply_loop_fields; rewrite ?length_to_le; try done; try lia; [|apply bytes_to_le].
  rewrite from_to_le_id.
  - f_equal. by apply (fields_of_image od1 _ 0 0 y bits).
  - rewrite Z2Nat.id, pow_256 by lia. split; [lia|].
    apply (Z.lt_le_trans _ (2 ^ bits)); [lia|]. apply Z.pow_le_mono_r; lia.
Qed.
End roundtrip.

(** ** Instances *)

Definition pdo_od : TableOd :=
  [ mkEntry (mkMeta 0x2000 1 I16 Rw true None) [0xFE; 0xFF];
    mkEntry (mkMeta 0x2000 2 U8 Rw true None) [0x5A] ].

Definition pdo_ms : list PdoMapping :=
  [mkMapping 0x2000 1 12; mkMapping 0x0005 0 3; mkMapping 0x2000 2 8].

Definition pdo_tp : TpdoConfig := mkTpdo 1 0x181 255 0 0 pdo_ms true.
Definition pdo_rp : RpdoConfig := mkRpdo 1 0x181 255 0 pdo_ms true.
Definition pdo_blank : TableOd := table_set (table_set pdo_od 0x2000 1 [0; 0]) 0x2000 2 [0].
Definition pdo_frame : CanFrame := mkCanFrame 0x181 3 [0xFE; 0x0F; 0x2D; 0; 0; 0; 0; 0].

(** A 12-bit -2 and a byte after three dummy bits arrive as they were sent. *)
Lemma pdo_roundtrip_witness :
  build_pdo_frame pdo_tp pdo_od = Ret (Some pdo_frame) ∧
  apply_mapped 8 pdo_rp (CanFrame.data pdo_frame) pdo_blank [] =
    Ret (deliver 8 pdo_od pdo_ms (mkApplied pdo_blank [] 0)) ∧
  ap_od (deliver 8 pdo_od pdo_ms (mkApplied pdo_blank [] 0)) = pdo_od.
Proof.
  assert (build_pdo_frame pdo_tp pdo_od = Ret (Some pdo_frame)) as Hb by (vm_compute; reflexivity).
  split; [exact Hb|]. split; [|vm_compute; reflexivity].
  refine (proj2 (pdo_roundtrip 8 pdo_tp pdo_rp pdo_od pdo_blank [] pdo_frame _ eq_refl Hb)).
  repeat (apply List.Forall_cons; [unfold wf_mapping, is_uint; simpl; lia|]); apply List.Forall_nil.
Defined.
