(* ===== verification/PdoTimed.v ===== *)
(** * When PDOs are sent and applied

    The timing rules of the engines of [PdoEngine]: inhibit time and event
    latching of event-driven TPDOs, the period of cyclic synchronous TPDOs,
    the buffering of synchronous RPDOs until SYNC, and deadline monitoring. *)
From S2P Require Import Prelude Frame Nmt Od SdoProtocol SdoServer SdoServerSafe PdoBits PdoEngine PdoMapped.

(** ** Event-driven TPDOs *)

Section tpdo.
Context {OD : Type} `{OdLaws OD} {S : Type} (accept : S → CanFrame → S * bool).

(** The transport's acceptance, recorded. *)
Definition recording (sl : S * bool) (f : CanFrame) : (S * bool) * bool :=
  let '(s, ok) := accept (fst sl) f in ((s, ok || snd sl), ok).

(** A series of polls; the last component lists the times of the accepted frames. *)
Fixpoint run_polls (t : TpdoSlot) (steps : list (Z * list (Z * Z) * OD)) (s : S)
    : exec (TpdoSlot * S * list Z) :=
  match steps with
  | [] => mret (t, s, [])
  | (now, dirty, od) :: steps =>
      r ← Tpdo.poll_slot recording t od now dirty (s, false);
      let '(t, (s, sent)) := (r : TpdoSlot * (S * bool)) in
      r ← run_polls t steps s;
      let '(t, s, times) := (r : TpdoSlot * S * list Z) in
      mret (t, s, if sent then now :: times else times)
  end.

Definition event_driven (t : TpdoSlot) : bool :=
  tp_enabled (ts_cfg t)
  && ((tp_transmission_type (ts_cfg t) =? 254) || (tp_transmission_type (ts_cfg t) =? 255)).

Definition inhibit_us (t : TpdoSlot) : Z := inhibit_time_100us (ts_cfg t) * 100.

Definition triggered (t : TpdoSlot) (now : Z) (dirty : list (Z * Z)) : bool :=
  async_event_pending t || Tpdo.has_dirty_mapping t dirty
  || ((0 <? event_timer_ms (ts_cfg t))
      && (event_timer_ms (ts_cfg t) * 1000 <=? wrapping_sub 64 now (last_send_us t))).

(** The slot after a poll that did not send. *)
Definition kept (t : TpdoSlot) (dirty : list (Z * Z)) : TpdoSlot :=
  mkTSlot (ts_cfg t) (sync_counter t) (last_send_us t) (sync_event_pending t)
    (async_event_pending t || Tpdo.has_dirty_mapping t dirty).

Definition after_send (t : TpdoSlot) (now : Z) : TpdoSlot :=
  mkTSlot (ts_cfg t) (sync_counter t) now (sync_event_pending t) false.

Lemma poll_slot_cases t od now dirty s :
  Forall wf_mapping (tp_mappings (ts_cfg t)) → event_driven t = true →
  ∃ frame, build_pdo_frame (ts_cfg t) od = Ret frame ∧
  Tpdo.poll_slot recording t od now dirty (s, false) = Ret
    (if triggered t now dirty && (inhibit_us t <=? wrapping_sub 64 now (last_send_us t)) then
       match frame with
       | Some f => let '(s, ok) := accept s f in
                   if ok then (after_send t now, (s, true)) else (kept t dirty, (s, false))
       | None => (kept t dirty, (s, false))
       end
     else (kept t dirty, (s, false))).
Proof.
  intros Hms Hev. rewrite build_pdo_frame_image by done. eexists. split; [reflexivity|].
  unfold event_driven in Hev. apply andb_true_iff in Hev as [He Htt].
  unfold Tpdo.poll_slot. rewrite He, Htt. cbn [negb].
  change (inhibit_time_100us (ts_cfg t) * 100) with (inhibit_us t).
  fold (triggered t now dirty). unfold triggered.
  destruct (_ && (inhibit_us t <=? _)); [|done].
  rewrite build_pdo_frame_image by done. rstep.
  destruct (match tpdo_image _ _ _ _ with Some _ => _ | None => _ end) as [f|]; [|done].
  unfold recording. cbn [fst snd]. destruct (accept s f) as [s' [|]]; reflexivity.
Qed.

(** Poll times on the 64-bit microsecond clock, none before [last]. *)
Fixpoint clock (last : Z) (steps : list (Z * list (Z * Z) * OD)) : Prop :=
  match steps with
  | [] => True
  | (now, _, _) :: steps => last ≤ now ∧ is_u64 now ∧ clock now steps
  end.

Lemma clock_mono last last' steps : last' ≤ last → clock last steps → clock last' steps.
Proof. destruct steps as [|[[now d] od] steps]; simpl; [done|]. intros ? (? & ? & ?). split_and!; auto; lia. Qed.

Lemma run_polls_ok t steps s :
  Forall wf_mapping (tp_mappings (ts_cfg t)) → event_driven t = true →
  0 ≤ last_send_us t → clock (last_send_us t) steps →
  runs (run_polls t steps s) (λ '(t', _, times),
    ts_cfg t' = ts_cfg t ∧ spaced (inhibit_us t) (last_send_us t) times ∧
    (async_event_pending t = true → times = [] → async_event_pending t' = true)).
Proof.
  intros Hms Hev Hlast Hclock. remember (last_send_us t) as last0 eqn:Hl0.
  revert t s last0 Hl0 Hms Hev Hlast Hclock.
  induction steps as [|[[now dirty] od] steps IH]; intros t s last0 Hl0 Hms Hev Hlast Hclock.
  { by cbn. }
  destruct Hclock as (Hn & Hu & Hclock). cbn [run_polls].
  destruct (poll_slot_cases t od now dirty s Hms Hev) as (frame & _ & ->). rstep.
  assert (∀ s0, runs (r ← run_polls (kept t dirty) steps s0;
                      let '(t1, s1, times) := (r : TpdoSlot * S * list Z) in mret (t1, s1, times))
    (λ '(t', _, times), ts_cfg t' = ts_cfg t ∧ spaced (inhibit_us t) last0 times ∧
       (async_event_pending t = true → times = [] → async_event_pending t' = true))) as Hkept.
  { intros s0. eapply runs_bind; [apply (IH (kept t dirty) s0 last0); try done; by eapply clock_mono|].
    intros [[t1 s1] times] (H1 & H2 & H3). rstep. split_and!; try done.
    intros Hp. apply H3. simpl. by rewrite Hp. }
  destruct (_ && _) eqn:E; [|by apply Hkept]. apply andb_true_iff in E as [_ Hinh].
  destruct frame as [f|]; [|by apply Hkept].
  destruct (accept s f) as [s' [|]]; [|by apply Hkept].
  eapply runs_bind; [apply (IH (after_send t now) s' now); try done; unfold is_uint in Hu; lia|].
  intros [[t1 s1] times] (H1 & H2 & H3). rstep. split_and!; [done| |done].
  cbn [spaced]. split; [|done]. rewrite wrapping_sub_id in Hinh by (unfold is_uint in *; lia). lia.
Qed.

(** C18. Inhibit time and no lost events: over any series of polls of an
    event-driven TPDO, with any dirty sets and any pattern of transport
    refusals, nothing panics, accepted frames are at least the inhibit time
    apart (the first from the previous transmission), and an application event
    that is pending stays pending until a frame is accepted. *)
Theorem tpdo_inhibit_respected t steps s :
  Forall wf_mapping (tp_mappings (ts_cfg t)) → event_driven t = true →
  0 ≤ last_send_us t → clock (last_send_us t) steps →
  runs (run_polls t steps s) (λ '(t', _, times),
    ts_cfg t' = ts_cfg t ∧ spaced (inhibit_us t) (last_send_us t) times ∧
    (async_event_pending t = true → times = [] → async_event_pending t' = true)).
Proof. apply run_polls_ok. Qed.

(** C26. An event is delivered as soon as the rules allow: when the transport
    accepts and the mapped objects can be read, a pending event of an
    event-driven TPDO is sent at exactly the first poll at which the inhibit
    time has passed. *)
Theorem tpdo_event_delivered t steps s :
  Forall wf_mapping (tp_mappings (ts_cfg t)) → event_driven t = true →
  0 ≤ last_send_us t → clock (last_send_us t) steps →
  async_event_pending t = true → (∀ s f, snd (accept s f) = true) →
  Forall (λ '(_, _, od), build_pdo_frame (ts_cfg t) od ≠ Ret None) steps →
  runs (run_polls t steps s) (λ '(_, _, times),
    head times = List.find (λ now, last_send_us t + inhibit_us t <=? now) (map (λ st, fst (fst st)) steps)).
Proof.
  intros Hms Hev Hlast Hclock Hp Hacc Hbuild. remember (last_send_us t) as last0 eqn:Hl0.
  revert t s Hl0 Hms Hev Hp Hclock Hbuild.
  induction steps as [|[[now dirty] od] steps IH]; intros t s Hl0 Hms Hev Hp Hclock Hbuild; [done|].
  destruct Hclock as (Hn & Hu & Hclock). cbn [run_polls].
  destruct (poll_slot_cases t od now dirty s Hms Hev) as (frame & Hf & ->). rstep.
  pose proof (Forall_inv Hbuild) as Hb1. apply Forall_inv_tail in Hbuild.
  cbv beta iota in Hb1. rewrite Hf in Hb1.
  assert (triggered t now dirty = true) as -> by (unfold triggered; by rewrite Hp).
  rewrite wrapping_sub_id by (unfold is_uint in *; lia). cbn [andb].
  cbn [map fst find].
  assert ((last0 + inhibit_us t <=? now) = (inhibit_us t <=? now - last_send_us t)) as -> by lia.
  destruct (inhibit_us t <=? now - last_send_us t) eqn:E.
  - destruct frame as [f|]; [|done]. pose proof (Hacc s f) as Ha.
    destruct (accept s f) as [s' ok]. simpl in Ha. subst ok. cbn [fst snd].
    eapply runs_bind; [apply (run_polls_ok (after_send t now)); try done; simpl; lia|].
    intros [[t1 s1] times] _. rstep. done.
  - eapply runs_bind; [apply (IH (kept t dirty)); try done|].
    + simpl. by rewrite Hp.
    + by eapply clock_mono.
    + intros [[t1 s1] times] Hh. rstep. exact Hh.
Qed.
End tpdo.

(** ** Synchronous TPDOs *)

Section sync.
Context {OD : Type} `{OdLaws OD}.

(** One SYNC after the other, each with the dictionary of its time; the frames
    that resulted, SYNC by SYNC. *)
Fixpoint run_syncs (t : TpdoSlot) (ods : list OD) : exec (TpdoSlot * list (option CanFrame)) :=
  match ods with
  | [] => mret (t, [])
  | od :: ods =>
      '(t, f) ← Tpdo.on_sync_slot t od;
      '(t, fs) ← run_syncs t ods;
      mret (t, f :: fs)
  end.

(** The frames of a TPDO sent at every [n]th SYNC, [c] SYNCs into its period. *)
Fixpoint every_nth (n c : Z) (frames : list (option CanFrame)) : list (option CanFrame) :=
  match frames with
  | [] => []
  | f :: frames =>
      if (c + 1) mod n =? 0 then f :: every_nth n 0 frames else None :: every_nth n (c + 1) frames
  end.

Definition with_counter (t : TpdoSlot) (c : Z) : TpdoSlot :=
  mkTSlot (ts_cfg t) c (last_send_us t) (sync_event_pending t) (async_event_pending t).

(** A synchronous cyclic TPDO of type [n] (1 to 240) transmits the
    objects sampled at the SYNC itself on exactly every [n]th SYNC, counted
    from its current divisor, and never in between; the divisor stays below
    [n], so the byte counter never overflows. *)
Theorem cyclic_tpdo_period (t : TpdoSlot) (n : Z) (ods : list OD) (frames : list (option CanFrame)) :
  Forall wf_mapping (tp_mappings (ts_cfg t)) → tp_enabled (ts_cfg t) = true →
  tp_transmission_type (ts_cfg t) = n → 1 ≤ n ≤ 240 → 0 ≤ sync_counter t < n →
  Forall2 (λ od f, build_pdo_frame (ts_cfg t) od = Ret f) ods frames →
  run_syncs t ods =
    Ret (with_counter t ((sync_counter t + Z.of_nat (length ods)) mod n),
         every_nth n (sync_counter t) frames).
Proof.
  intros Hms Hen Htt Hn Hc Hf. revert t Hms Hen Htt Hc Hf. 
  revert frames. induction ods as [|od ods IH]; intros frames t Hms Hen Htt Hc Hf.
  - apply Forall2_nil_inv_l in Hf as ->. cbn. rewrite Z.add_0_r, Z.mod_small by lia. by destruct t.
  - apply Forall2_cons_inv_l in Hf as (f & frames' & Hf & Hfs & ->).
    cbn [run_syncs every_nth]. unfold Tpdo.on_sync_slot. rewrite Hen, Htt. cbn [negb].
    rewrite (proj2 (Z.eqb_neq n 0)) by lia. unfold in_range.
    rewrite (proj2 (Z.leb_le 1 n)), (proj2 (Z.leb_le n 240)) by lia. cbn [andb].
    rewrite checked_ret by (unfold is_uint; lia). rstep.
    destruct (Z.leb_spec n (sync_counter t + 1)).
    + assert (sync_counter t + 1 = n) as He by lia. rewrite He, Z.mod_same by lia. cbn [Z.eqb].
      rewrite Hf. rstep.
      rewrite (IH frames'); [|done|done|done|simpl; lia|done]. rstep.
      unfold with_counter. cbn [ts_cfg last_send_us sync_event_pending async_event_pending sync_counter].
      replace (sync_counter t + Z.of_nat (length (od :: ods))) with (0 + Z.of_nat (length ods) + 1 * n)
        by (simpl; lia). rewrite Z.mod_add by lia. done.
    + rewrite (Z.mod_small (sync_counter t + 1)) by lia. rewrite (proj2 (Z.eqb_neq _ 0)) by lia. rstep.
      rewrite (IH frames'); [|done|done|done|simpl; lia|done]. rstep.
      unfold with_counter. cbn [ts_cfg last_send_us sync_event_pending async_event_pending sync_counter].
      replace (sync_counter t + Z.of_nat (length (od :: ods)))
        with (sync_counter t + 1 + Z.of_nat (length ods)) by (simpl; lia). done.
Qed.
End sync.

(** ** Synchronous RPDOs *)

Section rpdo.
Context {OD : Type} `{ObjectDictionary OD} (evt : nat).

Fixpoint run_process (e : RpdoEngine) (frames : list (CanFrame * Z)) (od : OD) (events : list OdEvent)
    : exec (RpdoEngine * OD * list OdEvent) :=
  match frames with
  | [] => mret (e, od, events)
  | (f, now) :: frames =>
      r ← Rpdo.process evt e f od events now;
      let '(e, od, events, _) := (r : RpdoEngine * OD * list OdEvent * bool) in
      run_process e frames od events
  end.

Definition long_enough (cfg : RpdoConfig) (f : CanFrame) : bool :=
  match mapped_payload_len cfg with None => false | Some n => n <=? len (CanFrame.data f) end.

(** The frame slot [k] holds after receiving [f]: the latest acceptable one. *)
Definition buffered (slots : list RpdoSlot) (k : nat) (held : option CanFrame) (f : CanFrame)
    : option CanFrame :=
  if bool_decide (Rpdo.matching_slot (mkRpdoEngine slots 0) (CanFrame.raw_id f) = Some k)
     && match slots !! k with Some r => long_enough (rs_cfg r) f | None => false end
  then Some f else held.

Definition all_synchronous (slots : list RpdoSlot) : Prop :=
  Forall (λ cfg, raw_is_synchronous (rp_transmission_type cfg) = true) (map rs_cfg slots).

Lemma synchronous_slot slots k r :
  all_synchronous slots → slots !! k = Some r →
  raw_is_synchronous (rp_transmission_type (rs_cfg r)) = true.
Proof.
  intros Hs Hr. apply (proj1 (Forall_lookup _ _) Hs k).
  change (map rs_cfg slots) with (rs_cfg <$> slots). by rewrite list_lookup_fmap, Hr.
Qed.

Lemma find_slot_lookup {A} (p : nat → A → bool) l n k :
  find_slot p l n = Some k → ∃ a, l !! (k - n)%nat = Some a ∧ p k a = true ∧ (n ≤ k)%nat.
Proof.
  revert n. induction l as [|a l IH]; intros n; cbn [find_slot]; [done|].
  destruct (p n a) eqn:E.
  - intros [= ->]. exists a. rewrite Nat.sub_diag. done.
  - intros Hf. destruct (IH _ Hf) as (b & Hb & Hp & Hl). exists b. split_and!; [|done|lia].
    by replace (k - n)%nat with (Datatypes.S (k - Datatypes.S n)) by lia.
Qed.

(** Slots with the same configurations match the same frames. *)
Lemma find_slot_cfg (p : nat → RpdoConfig → bool) (l l' : list RpdoSlot) n :
  map rs_cfg l = map rs_cfg l' →
  find_slot (λ i r, p i (rs_cfg r)) l n = find_slot (λ i r, p i (rs_cfg r)) l' n.
Proof.
  revert l' n. induction l as [|r l IH]; intros [|r' l'] n; simpl; try done.
  intros [= Hr Hl]. rewrite Hr. by rewrite (IH l').
Qed.

Lemma matching_slot_cfg slots slots' c n m :
  map rs_cfg slots = map rs_cfg slots' →
  Rpdo.matching_slot (mkRpdoEngine slots n) c = Rpdo.matching_slot (mkRpdoEngine slots' m) c.
Proof.
  intros Hm. unfold Rpdo.matching_slot. cbn [rpdo_slots].
  exact (find_slot_cfg (λ _ cfg, rp_enabled cfg && (c =? rp_cob_id cfg)) slots slots' 0 Hm).
Qed.

Lemma process_synchronous e f od events now :
  all_synchronous (rpdo_slots e) →
  ∃ e' b, Rpdo.process evt e f od events now = Ret (e', od, events, b) ∧
    map rs_cfg (rpdo_slots e') = map rs_cfg (rpdo_slots e) ∧
    ∀ k, (pending <$> rpdo_slots e' !! k) =
         ((λ r, buffered (rpdo_slots e) k (pending r) f) <$> rpdo_slots e !! k).
Proof.
  intros Hsync. unfold Rpdo.process, Rpdo.process_with_drop_count.
  assert (∀ c n, Rpdo.matching_slot (mkRpdoEngine (rpdo_slots e) n) c = Rpdo.matching_slot e c) as Hme by done.
  destruct (Rpdo.matching_slot e (CanFrame.raw_id f)) as [slot|] eqn:Em.
  2: { rstep. eexists _, _. split; [done|]. split; [done|]. intros k.
       unfold buffered. rewrite Hme, Em. by destruct (rpdo_slots e !! k). }
  pose proof Em as Hfind. unfold Rpdo.matching_slot in Hfind.
  apply find_slot_lookup in Hfind as (r & Hr & _ & _). rewrite Nat.sub_0_r in Hr.
  rewrite Hr. rstep.
  assert (∀ k held, buffered (rpdo_slots e) k held f =
    if bool_decide (slot = k) && long_enough (rs_cfg r) f then Some f else held) as Hbuf.
  { intros k held. unfold buffered. rewrite Hme, Em. destruct (decide (slot = k)) as [<-|Hne].
    - rewrite !bool_decide_true by done. by rewrite Hr.
    - rewrite !bool_decide_false by congruence. done. }
  assert (match mapped_payload_len (rs_cfg r) with
          | Some n => len (CanFrame.data f) <? n | None => true end
          = negb (long_enough (rs_cfg r) f)) as ->.
  { unfold long_enough. destruct (mapped_payload_len _); [|done]. by rewrite Z.leb_antisym, negb_involutive. }
  destruct (long_enough (rs_cfg r) f) eqn:El; cbn [negb].
  - rewrite (synchronous_slot _ _ _ Hsync Hr). rstep.
    eexists _, _. split; [done|]. cbn [Rpdo.set_slot rpdo_slots]. split.
    + apply list_eq. intros k. rewrite !list_lookup_fmap. destruct (decide (slot = k)) as [<-|].
      * rewrite list_lookup_insert_eq, Hr by (by eapply lookup_lt_Some). done.
      * by rewrite list_lookup_insert_ne.
    + intros k. destruct (decide (slot = k)) as [<-|].
      * rewrite list_lookup_insert_eq by (by eapply lookup_lt_Some). rewrite Hr. simpl.
        rewrite Hbuf, bool_decide_true by done. done.
      * rewrite list_lookup_insert_ne by done. destruct (rpdo_slots e !! k); [|done]. simpl.
        by rewrite Hbuf, bool_decide_false.
  - rstep. eexists _, _. split; [done|]. split; [done|]. intros k.
    cbn [rpdo_slots]. destruct (rpdo_slots e !! k); [|done]. simpl. by rewrite Hbuf, andb_false_r.
Qed.

Lemma buffered_cfg slots slots' k held f :
  map rs_cfg slots = map rs_cfg slots' → buffered slots k held f = buffered slots' k held f.
Proof.
  intros Hm. unfold buffered. rewrite (matching_slot_cfg slots slots' _ 0 0 Hm).
  assert (rs_cfg <$> slots !! k = rs_cfg <$> slots' !! k) as Hk.
  { rewrite <- !list_lookup_fmap. exact (f_equal (λ l, l !! k) Hm). }
  destruct (slots !! k) as [r|], (slots' !! k) as [r'|]; simplify_eq/=; [by rewrite Hk|done].
Qed.

Definition latest (slots : list RpdoSlot) (k : nat) (held : option CanFrame) (fs : list CanFrame)
    : option CanFrame := fold_left (buffered slots k) fs held.

Lemma latest_cfg slots slots' k held fs :
  map rs_cfg slots = map rs_cfg slots' → latest slots k held fs = latest slots' k held fs.
Proof.
  intros Hm. revert held. induction fs as [|f fs IH]; intros held; [done|].
  unfold latest in *. cbn [fold_left]. by rewrite IH, (buffered_cfg slots slots').
Qed.

Lemma run_process_synchronous e frames od events :
  all_synchronous (rpdo_slots e) →
  ∃ e', run_process e frames od events = Ret (e', od, events) ∧
    map rs_cfg (rpdo_slots e') = map rs_cfg (rpdo_slots e) ∧
    ∀ k, (pending <$> rpdo_slots e' !! k) =
         ((λ r, latest (rpdo_slots e) k (pending r) (map fst frames)) <$> rpdo_slots e !! k).
Proof.
  revert e. induction frames as [|[f now] frames IH]; intros e Hs.
  - exists e. split; [done|]. split; [done|]. intros k. by destruct (rpdo_slots e !! k).
  - destruct (process_synchronous e f od events now Hs) as (e1 & b & Hp & Hcfg & Hpend).
    cbn [run_process]. rewrite Hp. rstep.
    destruct (IH e1) as (e2 & Hr & Hcfg2 & Hpend2); [unfold all_synchronous in *; by rewrite Hcfg|].
    exists e2. split; [done|].
    split; [congruence|]. intros k. rewrite Hpend2. specialize (Hpend k).
    destruct (rpdo_slots e1 !! k) as [r1|], (rpdo_slots e !! k) as [r|]; simplify_eq/=; [|done].
    rewrite Hpend, (latest_cfg _ (rpdo_slots e)) by done. done.
Qed.

(** Applying the buffered frames in slot order. *)
Fixpoint commit (l : list (RpdoConfig * option CanFrame)) (a : Applied OD) : exec (Applied OD) :=
  match l with
  | [] => mret a
  | (_, None) :: l => commit l a
  | (cfg, Some f) :: l =>
      a' ← apply_mapped evt cfg (CanFrame.data f) (ap_od a) (ap_events a);
      commit l (mkApplied (ap_od a') (ap_events a') (saturating_add 32 (ap_dropped a) (ap_dropped a')))
  end.

Lemma on_sync_commit slots a :
  (Rpdo.on_sync_loop evt slots (ap_od a) (ap_events a) (ap_dropped a)
     ≫= λ '(slots', a'), mret (map rs_cfg slots', map pending slots', a')) =
  (commit (map (λ r, (rs_cfg r, pending r)) slots) a
     ≫= λ a', mret (map rs_cfg slots, map (λ _, None) slots, a')).
Proof.
  revert a. induction slots as [|r slots IH]; intros a; cbn [Rpdo.on_sync_loop map commit].
  { by destruct a. }
  destruct (pending r) as [f|] eqn:Hr.
  - destruct (apply_mapped _ _ _ _ _) as [a1|]; rstep; [|done].
    specialize (IH (mkApplied (ap_od a1) (ap_events a1) (saturating_add 32 (ap_dropped a) (ap_dropped a1)))).
    cbn [ap_od ap_events ap_dropped] in IH.
    destruct (Rpdo.on_sync_loop _ _ _ _ _) as [[slots1 a2]|], (commit _ _) as [a3|];
      simpl in *; try done. injection IH as Hc Hp ->. unfold mret, exec_ret. simpl. congruence.
  - specialize (IH a).
    destruct (Rpdo.on_sync_loop _ _ _ _ _) as [[slots1 a2]|], (commit _ _) as [a3|];
      simpl in *; try done. injection IH as Hc Hp ->. unfold mret, exec_ret. simpl. congruence.
Qed.

(** C19. Synchronous RPDOs update the dictionary as one: whatever frames arrive
    between two SYNCs, dictionary and events stay untouched until the SYNC,
    which applies for each slot exactly its latest frame that was long enough
    (or the one held before, or none), in slot order, and empties every
    buffer. *)
Theorem rpdo_sync_coherent e frames od events :
  all_synchronous (rpdo_slots e) →
  ∃ e', run_process e frames od events = Ret (e', od, events) ∧
    (Rpdo.on_sync evt e' od events ≫= λ '(e'', a), mret (map pending (rpdo_slots e''), a)) =
    (commit (imap (λ k r, (rs_cfg r, latest (rpdo_slots e) k (pending r) (map fst frames))) (rpdo_slots e))
       (mkApplied od events 0) ≫= λ a, mret (map (λ _, None) (rpdo_slots e), a)).
Proof.
  intros Hs. destruct (run_process_synchronous e frames od events Hs) as (e' & Hr & Hcfg & Hpend).
  exists e'. split; [done|]. unfold Rpdo.on_sync.
  pose proof (on_sync_commit (rpdo_slots e') (mkApplied od events 0)) as Hc.
  cbn [ap_od ap_events ap_dropped] in Hc.
  assert (map (λ r, (rs_cfg r, pending r)) (rpdo_slots e') =
    imap (λ k r, (rs_cfg r, latest (rpdo_slots e) k (pending r) (map fst frames))) (rpdo_slots e)) as Hl.
  { apply list_eq. intros k. rewrite list_lookup_imap.
    change (map (λ r, (rs_cfg r, pending r)) (rpdo_slots e')) with ((λ r, (rs_cfg r, pending r)) <$> rpdo_slots e').
    rewrite list_lookup_fmap. specialize (Hpend k).
    assert (rs_cfg <$> rpdo_slots e' !! k = rs_cfg <$> rpdo_slots e !! k) as Hk
      by (rewrite <- !list_lookup_fmap; exact (f_equal (λ l, l !! k) Hcfg)).
    destruct (rpdo_slots e' !! k) as [r1|], (rpdo_slots e !! k) as [r|]; simplify_eq/=; [|done].
    by rewrite Hk, Hpend. }
  rewrite Hl in Hc.
  assert (map (λ _ : RpdoSlot, @None CanFrame) (rpdo_slots e') = map (λ _, None) (rpdo_slots e)) as Hn.
  { apply (f_equal length) in Hcfg. rewrite !length_map in Hcfg. revert Hcfg.
    generalize (rpdo_slots e) (rpdo_slots e'). clear. intros l l'. revert l.
    induction l' as [|x l' IH]; intros [|y l] Hl; simpl in *; try done. f_equal. apply IH. lia. }
  destruct (Rpdo.on_sync_loop _ _ _ _ _) as [[slots1 a2]|], (commit _ _) as [a3|];
    simpl in *; try done. injection Hc as _ Hp ->. unfold mret, exec_ret. by rewrite Hp, Hn.
Qed.
End rpdo.

(** ** Deadline monitoring *)

Definition flag_expired (now : Z) (r : RpdoSlot) : RpdoSlot :=
  if Rpdo.expires r now then mkRSlot (rs_cfg r) (pending r) (last_rx_us r) (armed r) true else r.

(** The numbers of the slots whose deadline expires now, in slot order. *)
Fixpoint newly_expired (now : Z) (slot : nat) (slots : list RpdoSlot) : list Z :=
  match slots with
  | [] => []
  | r :: slots =>
      (if Rpdo.expires r now
       then option_list (PdoNumber.new (pdo_number_for_slot (rp_od_number (rs_cfg r)) slot)) else [])
      ++ newly_expired now (S slot) slots
  end.

Lemma vec_push_room {A} cap (out : list A) x :
  (length out < cap)%nat → vec_push cap out x = out ++ [x].
Proof. intros Hl. unfold vec_push. by rewrite (proj2 (Nat.ltb_lt _ _)). Qed.

Lemma check_loop_eq cap slot slots now out :
  (length out + length slots ≤ cap)%nat →
  Rpdo.check_loop cap slot slots now out =
    (map (flag_expired now) slots, out ++ newly_expired now slot slots).
Proof.
  revert slot out. induction slots as [|r slots IH]; intros slot out Hl;
    cbn [Rpdo.check_loop map newly_expired].
  { by rewrite app_nil_r. }
  unfold flag_expired at 1. cbn [length] in Hl. destruct (Rpdo.expires r now); [|by rewrite IH by lia].
  destruct (PdoNumber.new _) as [n|]; [|by rewrite IH by lia].
  rewrite vec_push_room, IH by (rewrite ?length_app; simpl; lia). by rewrite <- app_assoc.
Qed.

Lemma flag_expired_once now r : Rpdo.expires (flag_expired now r) now = false.
Proof.
  unfold flag_expired. destruct (Rpdo.expires r now) eqn:E; [|done].
  unfold Rpdo.expires. simpl. by rewrite andb_false_r.
Qed.

Lemma newly_expired_none now slot slots :
  newly_expired now slot (map (flag_expired now) slots) = [] ∧
  map (flag_expired now) (map (flag_expired now) slots) = map (flag_expired now) slots.
Proof.
  revert slot. induction slots as [|r slots IH]; intros slot; [done|].
  destruct (IH (S slot)) as [E1 E2]. cbn [map newly_expired]. rewrite flag_expired_once, E1, E2.
  split; [done|]. f_equal. unfold flag_expired at 1. by rewrite flag_expired_once.
Qed.

(** Deadline monitoring is edge-triggered with a level flag: a check
    reports exactly the monitored slots whose silence has just exceeded their
    deadline, in slot order; repeating it at the same time reports nothing and
    changes nothing; and afterwards the level query says for every slot whether
    it is monitored and has either never received, or been flagged before, or
    been silent for longer than its deadline. *)
Theorem rpdo_deadline_edge (e : RpdoEngine) (now : Z) :
  Forall (λ r, 0 ≤ deadline_ms (rs_cfg r)) (rpdo_slots e) →
  let '(e', out) := Rpdo.check_deadlines e now [] in
  out = newly_expired now 0 (rpdo_slots e) ∧
  Rpdo.check_deadlines e' now [] = (e', []) ∧
  ∀ k r, rpdo_slots e !! k = Some r →
    Rpdo.deadline_expired_slot e' k =
    rp_enabled (rs_cfg r) && (0 <? deadline_ms (rs_cfg r)) &&
    (negb (armed r) || expired r
     || (deadline_ms (rs_cfg r) * 1000 <? wrapping_sub 64 now (last_rx_us r))).
Proof.
  intros Hd. unfold Rpdo.check_deadlines. rewrite check_loop_eq by (simpl; lia).
  cbn [app rpdo_slots length_errors]. split; [done|].
  rewrite check_loop_eq by (simpl; lia). destruct (newly_expired_none now 0 (rpdo_slots e)) as [-> ->].
  split; [done|]. intros k r Hr. unfold Rpdo.deadline_expired_slot. cbn [rpdo_slots].
  change (map (flag_expired now) (rpdo_slots e)) with (flag_expired now <$> rpdo_slots e).
  rewrite list_lookup_fmap, Hr. simpl.
  pose proof (proj1 (Forall_lookup _ _) Hd k r Hr) as Hdr. simpl in Hdr.
  unfold flag_expired, Rpdo.expires.
  destruct (rp_enabled (rs_cfg r)) eqn:E1, (armed r) eqn:E2, (expired r) eqn:E3,
    (Z.eqb_spec (deadline_ms (rs_cfg r)) 0), (Z.ltb_spec 0 (deadline_ms (rs_cfg r))),
    (deadline_ms (rs_cfg r) * 1000 <? wrapping_sub 64 now (last_rx_us r)); simpl; rewrite ?E1, ?E2, ?E3;
    simpl; try lia; try done; by rewrite (proj2 (Z.ltb_lt _ _)).
Qed.

(** ** Instances *)

Definition timed_slot : TpdoSlot :=
  mkTSlot (mkTpdo 1 0x181 254 10 0 pdo_ms true) 0 5000 false true.

Definition timed_steps : list (Z * list (Z * Z) * TableOd) :=
  [ (5500, [], pdo_od); (6200, [], pdo_od); (6300, [(0x2000, 1)], pdo_od); (9000, [], pdo_od) ].

Definition accept_all (s : nat) (_ : CanFrame) : nat * bool := (S s, true).

Lemma pdo_ms_wf : Forall wf_mapping pdo_ms.
Proof. repeat (apply List.Forall_cons; [unfold wf_mapping, is_uint; simpl; lia|]); apply List.Forall_nil. Qed.

Lemma timed_clock : clock 5000 timed_steps.
Proof. unfold clock, timed_steps, is_uint. lia. Qed.

(** Inhibited at 5.5 ms, sent at 6.2 ms; the next change waits until 9 ms. *)
Lemma tpdo_inhibit_respected_witness :
  run_polls accept_all timed_slot timed_steps 0%nat =
    Ret (mkTSlot (ts_cfg timed_slot) 0 9000 false false, 2%nat, [6200; 9000]) ∧
  runs (run_polls accept_all timed_slot timed_steps 0%nat) (λ '(t', _, times),
    ts_cfg t' = ts_cfg timed_slot ∧ spaced 1000 5000 times ∧
    (true = true → times = [] → async_event_pending t' = true)).
Proof.
  split; [vm_compute; reflexivity|].
  apply (tpdo_inhibit_respected accept_all timed_slot timed_steps 0%nat);
    [exact pdo_ms_wf|reflexivity|simpl; lia|exact timed_clock].
Defined.

Lemma tpdo_event_delivered_witness :
  runs (run_polls accept_all timed_slot timed_steps 0%nat) (λ '(_, _, times),
    head times = Some 6200).
Proof.
  apply (tpdo_event_delivered accept_all timed_slot timed_steps 0%nat);
    [exact pdo_ms_wf|reflexivity|simpl; lia|exact timed_clock|reflexivity|reflexivity|].
  repeat (apply List.Forall_cons; [vm_compute; discriminate|]). apply List.Forall_nil.
Defined.

Definition cyclic_slot : TpdoSlot := mkTSlot (mkTpdo 1 0x181 3 0 0 pdo_ms true) 1 0 false false.

Lemma cyclic_tpdo_period_witness :
  run_syncs cyclic_slot (replicate 5 pdo_od) =
    Ret (with_counter cyclic_slot 0, [None; Some pdo_frame; None; None; Some pdo_frame]).
Proof.
  rewrite (cyclic_tpdo_period cyclic_slot 3 (replicate 5 pdo_od) (replicate 5 (Some pdo_frame)));
    [reflexivity|exact pdo_ms_wf|reflexivity|reflexivity|lia|simpl; lia|].
  repeat (apply List.Forall2_cons; [vm_compute; reflexivity|]). apply List.Forall2_nil.
Defined.

Definition sync_engine : RpdoEngine :=
  Rpdo.new [ mkRpdo 1 0x201 0 20 pdo_ms true; mkRpdo 2 0x301 1 0 pdo_ms true ].

Definition sync_frames : list (CanFrame * Z) :=
  [ (mkCanFrame 0x201 3 [1; 2; 3; 0; 0; 0; 0; 0], 10);
    (mkCanFrame 0x201 3 [4; 5; 6; 0; 0; 0; 0; 0], 20);
    (mkCanFrame 0x201 2 [7; 8; 0; 0; 0; 0; 0; 0], 30) ].

Lemma rpdo_sync_coherent_witness :
  ∃ e', run_process 8 sync_engine sync_frames pdo_blank [] = Ret (e', pdo_blank, []) ∧
    (Rpdo.on_sync 8 e' pdo_blank [] ≫= λ '(e'', a), mret (map pending (rpdo_slots e''), a)) =
    (commit 8 [(mkRpdo 1 0x201 0 20 pdo_ms true, Some (mkCanFrame 0x201 3 [4; 5; 6; 0; 0; 0; 0; 0]));
               (mkRpdo 2 0x301 1 0 pdo_ms true, None)]
       (mkApplied pdo_blank [] 0) ≫= λ a, mret ([None; None], a)).
Proof.
  apply (rpdo_sync_coherent 8 sync_engine sync_frames pdo_blank []).
  repeat (apply List.Forall_cons; [reflexivity|]). apply List.Forall_nil.
Defined.

Definition silent_engine : RpdoEngine :=
  mkRpdoEngine [ mkRSlot (mkRpdo 7 0x201 255 20 pdo_ms true) None 1000 true false ] 0.

Lemma rpdo_deadline_edge_witness :
  snd (Rpdo.check_deadlines silent_engine 21000 []) = [] ∧
  let '(e', out) := Rpdo.check_deadlines silent_engine 21001 [] in
  out = [7] ∧ Rpdo.check_deadlines e' 21001 [] = (e', []).
Proof.
  split; [reflexivity|].
  assert (Forall (λ r, 0 ≤ deadline_ms (rs_cfg r)) (rpdo_slots silent_engine)) as Hd
    by (apply List.Forall_cons; [simpl; lia|apply List.Forall_nil]).
  destruct (rpdo_deadline_edge silent_engine 21001 Hd) as (H1 & H2 & _).
  exact (conj H1 H2).
Defined.
