(* ===== verification/Sync.v ===== *)
(** * The SYNC object

    [canopen-core/src/sync.rs]: OD 0x1005 decoding, the consumer, the
    synchronous window and the producer.  The value checks that the SDO server
    shares ([is_supported_sync_cob_id], [is_valid_sync_counter_overflow]) are
    defined in [SdoServer]. *)
From S2P Require Import Prelude Frame Nmt Od SdoServer PdoBits.

(** ** COB-ID entry *)

Definition SYNC_COB_ID_DEFAULT : Z := 0x080.
Definition SYNC_GEN : Z := Z.shiftl 1 30.

Record SyncCobId := mkSyncCobId { sc_cob_id : Z; sc_produce : bool }.

Module SyncCobId.
Definition DEFAULT : SyncCobId := mkSyncCobId SYNC_COB_ID_DEFAULT false.

Definition from_raw (raw : Z) : option SyncCobId :=
  if negb (is_supported_sync_cob_id raw) then None
  else Some (mkSyncCobId (as_u16 (Z.land raw 0x7FF)) (negb (Z.land raw SYNC_GEN =? 0))).

Definition to_raw (c : SyncCobId) : Z :=
  Z.lor (sc_cob_id c) (if sc_produce c then SYNC_GEN else 0).
End SyncCobId.

(** ** Consumer *)

Record SyncConsumer := mkConsumer { con_cob_id : Z; con_counter : Z }.

Module SyncConsumer.
Definition new (cob_id : Z) : SyncConsumer := mkConsumer cob_id 0.
Definition default_cob : SyncConsumer := new SYNC_COB_ID_DEFAULT.

Definition cob_id (c : SyncConsumer) : option Z :=
  if con_cob_id c =? 0 then None else Some (con_cob_id c).

Definition set_cob_id (c : SyncConsumer) (cob_id : Z) : SyncConsumer :=
  if negb (con_cob_id c =? cob_id) then mkConsumer cob_id 0 else c.

Definition reset (c : SyncConsumer) : SyncConsumer := mkConsumer (con_cob_id c) 0.

Definition process (c : SyncConsumer) (frame : CanFrame) : exec (SyncConsumer * option Z) :=
  if (con_cob_id c =? 0) || negb (CanFrame.raw_id frame =? con_cob_id c)
     || (1 <? CanFrame.raw_dlc frame)
  then mret (c, None)
  else if CanFrame.raw_dlc frame =? 1 then
    counter ← unwrap (CanFrame.data frame !! 0%nat);
    mret (mkConsumer (con_cob_id c) counter, Some counter)
  else
    let counter := as_u8 (con_counter c + 1) in
    mret (mkConsumer (con_cob_id c) counter, Some counter).
End SyncConsumer.

(** ** Window *)

Record SyncWindow := mkWindow { win_length_us : Z; opened_at_us : Z; win_active : bool }.

Module SyncWindow.
Definition new : SyncWindow := mkWindow 0 0 false.
Definition configure (w : SyncWindow) (length_us : Z) : SyncWindow :=
  mkWindow length_us (opened_at_us w) (win_active w).
Definition open (w : SyncWindow) (now_us : Z) : SyncWindow := mkWindow (win_length_us w) now_us true.
Definition reset (w : SyncWindow) : SyncWindow := mkWindow (win_length_us w) 0 false.
Definition allows_transmit (w : SyncWindow) (now_us : Z) : bool :=
  win_active w &&
  ((win_length_us w =? 0) || (wrapping_sub 64 now_us (opened_at_us w) <=? win_length_us w)).
End SyncWindow.

(** ** Producer *)

Record SyncProducer := mkProducer {
  prod_cob_id : Z;
  prod_interval_us : Z;
  overflow : Z;
  prod_last_sent_us : Z;
  prod_armed : bool;
  prod_counter : Z;
}.

Module SyncProducer.
Definition new : SyncProducer := mkProducer 0 0 0 0 false 0.

Definition configure (p : SyncProducer) (cob_id interval_us overflow' : Z) : SyncProducer :=
  if (prod_cob_id p =? cob_id) && (prod_interval_us p =? interval_us) && (overflow p =? overflow')
  then p
  else mkProducer cob_id interval_us overflow' (prod_last_sent_us p) false 0.

Definition is_enabled (p : SyncProducer) : bool :=
  negb (prod_cob_id p =? 0) && negb (prod_interval_us p =? 0).

Definition interval_us (p : SyncProducer) : Z := if is_enabled p then prod_interval_us p else 0.

Definition reset (p : SyncProducer) : SyncProducer :=
  mkProducer (prod_cob_id p) (prod_interval_us p) (overflow p) 0 false 0.

Definition peek_counter (p : SyncProducer) : exec Z :=
  if overflow p <=? prod_counter p then mret 1 else checked 8 (prod_counter p + 1).

Definition poll (p : SyncProducer) (now_us : Z) : exec (SyncProducer * option CanFrame) :=
  if negb (is_enabled p) then mret (p, None)
  else if negb (prod_armed p) then
    mret (mkProducer (prod_cob_id p) (prod_interval_us p) (overflow p) now_us true (prod_counter p), None)
  else if wrapping_sub 64 now_us (prod_last_sent_us p) <? prod_interval_us p then mret (p, None)
  else if 2 <=? overflow p then
    c ← peek_counter p; mret (p, CanFrame.new (prod_cob_id p) [c])
  else mret (p, CanFrame.new (prod_cob_id p) []).

Definition confirm_sent (p : SyncProducer) (now_us : Z) : exec SyncProducer :=
  counter ← (if 2 <=? overflow p then peek_counter p else mret (prod_counter p));
  mret (mkProducer (prod_cob_id p) (prod_interval_us p) (overflow p) now_us (prod_armed p) counter).

(** A poll whose frame the transport accepts or refuses, as [Node] does it. *)
Definition offer (p : SyncProducer) (now_us : Z) (accepted : bool)
    : exec (SyncProducer * option CanFrame) :=
  '(p, f) ← poll p now_us;
  match f with
  | Some frame =>
      if accepted then p ← confirm_sent p now_us; mret (p, Some frame) else mret (p, None)
  | None => mret (p, None)
  end.
End SyncProducer.

(** ** The 0x1005 entry round-trips *)

Lemma supported_bits raw :
  is_u32 raw →
  is_supported_sync_cob_id raw = true →
  raw = Z.lor (Z.land raw 0x7FF) (Z.land raw SYNC_GEN).
Proof.
  intros Hr Hs. unfold is_supported_sync_cob_id in Hs. apply andb_true_iff in Hs as [Hs _].
  apply Z.eqb_eq in Hs. apply Z.bits_inj'. intros n Hn.
  rewrite Z.lor_spec, !Z.land_spec. destruct (Z.lt_ge_cases n 32).
  - assert (Z.testbit (Z.land raw (Z.lor SYNC_FRAME_29BIT SYNC_COB_ID_RESERVED)) n = false) as Hz
      by by rewrite Hs, Z.bits_0.
    rewrite Z.land_spec in Hz.
    assert (Z.testbit (Z.lor SYNC_FRAME_29BIT SYNC_COB_ID_RESERVED) n =
            negb (Z.testbit 0x7FF n || Z.testbit SYNC_GEN n)) as Hmask.
    { assert (forallb (λ n, Bool.eqb (Z.testbit (Z.lor SYNC_FRAME_29BIT SYNC_COB_ID_RESERVED) n)
                (negb (Z.testbit 0x7FF n || Z.testbit SYNC_GEN n))) (seqZ 0 32) = true) as Hall
        by (vm_compute; reflexivity).
      rewrite forallb_forall in Hall. apply Bool.eqb_prop, Hall.
      apply list_elem_of_In, elem_of_seqZ. lia. }
    rewrite Hmask in Hz. destruct (Z.testbit raw n); [|done]. simpl in *.
    by apply negb_false_iff in Hz.
  - by rewrite (testbit_small raw 32 n) by (unfold is_uint in Hr; lia).
Qed.

Lemma gen_bit raw : Z.land raw SYNC_GEN = if negb (Z.land raw SYNC_GEN =? 0) then SYNC_GEN else 0.
Proof.
  change SYNC_GEN with (2 ^ 30) in *. apply Z.bits_inj'. intros n Hn.
  assert ((Z.land raw (2 ^ 30) =? 0) = negb (Z.testbit raw 30)) as ->.
  { destruct (Z.testbit raw 30) eqn:E; simpl.
    - apply Z.eqb_neq. intros Hz. apply (f_equal (λ z, Z.testbit z 30)) in Hz.
      rewrite Z.land_spec, E, Z.bits_0 in Hz. done.
    - apply Z.eqb_eq, Z.bits_inj'. intros k Hk. rewrite Z.land_spec, Z.pow2_bits_eqb, Z.bits_0 by lia.
      destruct (Z.eqb_spec 30 k) as [<-|]; [by rewrite E|apply andb_false_r]. }
  rewrite negb_involutive, Z.land_spec, Z.pow2_bits_eqb by lia.
  destruct (Z.testbit raw 30) eqn:E.
  - rewrite Z.pow2_bits_eqb by lia. destruct (Z.eqb_spec 30 n) as [<-|]; [by rewrite E|apply andb_false_r].
  - rewrite Z.bits_0. destruct (Z.eqb_spec 30 n) as [<-|]; [by rewrite E|apply andb_false_r].
Qed.

(** OD 0x1005 is decoded without loss: an entry decodes exactly when the
    shared validity check accepts it, to an 11-bit COB-ID other than NMT's,
    and re-encoding gives back the entry; every legal decoded value is the
    decoding of its encoding.  Initial configuration and SDO download
    therefore agree on what a usable SYNC object is. *)
Theorem sync_cob_id_roundtrip (raw : Z) (c : SyncCobId) :
  is_u32 raw →
  (SyncCobId.from_raw raw = Some c ↔
   is_supported_sync_cob_id raw = true ∧ SyncCobId.to_raw c = raw ∧ 1 ≤ sc_cob_id c ≤ 0x7FF).
Proof.
  intros Hr. unfold SyncCobId.from_raw.
  assert (0 ≤ Z.land raw 0x7FF ≤ 0x7FF) as Hland.
  { change 0x7FF with (Z.ones 11) at 1 2. rewrite Z.land_ones by lia.
    pose proof (Z.mod_pos_bound raw (2 ^ 11)). lia. }
  split.
  - destruct (is_supported_sync_cob_id raw) eqn:E; [|done]. intros [= <-]. split; [done|].
    unfold SyncCobId.to_raw. cbn [sc_cob_id sc_produce]. rewrite <- gen_bit.
    rewrite wrap_id by (unfold is_uint; lia). split; [by rewrite <- supported_bits|].
    unfold is_supported_sync_cob_id in E. lia.
  - intros (E & Hraw & Hc). rewrite E. cbn [negb]. do 2 f_equal.
    rewrite wrap_id by (unfold is_uint; lia). subst raw. unfold SyncCobId.to_raw in *.
    destruct c as [cob pr]. cbn [sc_cob_id sc_produce] in *.
    assert (Z.land cob 0x7FF = cob) as Hcl.
    { change 0x7FF with (Z.ones 11). rewrite Z.land_ones, Z.mod_small by lia. done. }
    assert (Z.land cob SYNC_GEN = 0) as Hcg.
    { apply Z.bits_inj'. intros n Hn. rewrite Z.land_spec, Z.bits_0. change SYNC_GEN with (2 ^ 30).
      rewrite Z.pow2_bits_eqb by lia. destruct (Z.eqb_spec 30 n) as [<-|]; [|apply andb_false_r].
      by rewrite (testbit_small cob 11) by lia. }
    rewrite !Z.land_lor_distr_l, Hcl, Hcg. destruct pr; [|by rewrite Z.land_0_l, Z.lor_0_r].
    change (Z.land SYNC_GEN 0x7FF) with 0. rewrite Z.lor_0_r. done.
Qed.

Lemma sync_cob_id_roundtrip_witness :
  SyncCobId.from_raw 0x40000085 = Some (mkSyncCobId 0x85 true) ∧
  (SyncCobId.from_raw 0x40000085 = Some (mkSyncCobId 0x85 true) ↔
   is_supported_sync_cob_id 0x40000085 = true ∧
   SyncCobId.to_raw (mkSyncCobId 0x85 true) = 0x40000085 ∧ 1 ≤ 0x85 ≤ 0x7FF).
Proof.
  split; [reflexivity|]. apply (sync_cob_id_roundtrip 0x40000085 (mkSyncCobId 0x85 true)).
  unfold is_uint. lia.
Defined.

(** ** The producer's pulses *)

(** Polls at the given times, each with the transport's verdict; the pulses
    that reached the bus, with their times and payloads. *)
Fixpoint run_offers (p : SyncProducer) (steps : list (Z * bool)) : exec (SyncProducer * list (Z * list Z)) :=
  match steps with
  | [] => mret (p, [])
  | (now, accepted) :: steps =>
      '(p, f) ← SyncProducer.offer p now accepted;
      '(p, sent) ← run_offers p steps;
      mret (p, match f with Some f => (now, CanFrame.data f) :: sent | None => sent end)
  end.

Fixpoint ticking (last : Z) (steps : list (Z * bool)) : Prop :=
  match steps with
  | [] => True
  | (now, _) :: steps => last ≤ now ∧ is_u64 now ∧ ticking now steps
  end.

Definition wf_producer (p : SyncProducer) : Prop :=
  1 ≤ prod_cob_id p ≤ 0x7FF ∧ 0 < prod_interval_us p ∧
  is_valid_sync_counter_overflow (overflow p) = true ∧ 0 ≤ prod_counter p ≤ overflow p.

(** The payloads of [n] pulses after counter value [c]. *)
Definition pulse_payloads (ov c : Z) (n : nat) : list (list Z) :=
  map (λ k, if 2 <=? ov then [1 + (c + Z.of_nat k) mod ov] else []) (seq 0 n).

Lemma peek_counter_eq p :
  wf_producer p → 2 ≤ overflow p →
  SyncProducer.peek_counter p = Ret (1 + prod_counter p mod overflow p).
Proof.
  intros (_ & _ & Hov & Hc) H2. unfold is_valid_sync_counter_overflow, SYNC_COUNTER_OVERFLOW_MAX in Hov.
  unfold SyncProducer.peek_counter. destruct (Z.leb_spec (overflow p) (prod_counter p)).
  - replace (prod_counter p) with (overflow p) by lia. by rewrite Z.mod_same by lia.
  - rewrite checked_ret by (unfold is_uint; lia). rewrite Z.mod_small by lia. f_equal. lia.
Qed.

Lemma pulse_payloads_cons ov c n :
  0 ≤ c → pulse_payloads ov c (S n) =
  (if 2 <=? ov then [1 + c mod ov] else []) :: pulse_payloads ov (1 + c mod ov) n.
Proof.
  intros Hc. unfold pulse_payloads. cbn [seq map]. rewrite Z.add_0_r. f_equal.
  rewrite <- seq_shift, map_map. apply map_ext. intros k. destruct (Z.leb_spec 2 ov); [|done].
  do 2 f_equal. replace (1 + c mod ov + Z.of_nat k) with (1 + Z.of_nat k + c mod ov) by lia.
  rewrite Z.add_mod_idemp_r by lia. f_equal. lia.
Qed.

Definition advanced (p : SyncProducer) (now : Z) : SyncProducer :=
  mkProducer (prod_cob_id p) (prod_interval_us p) (overflow p) now (prod_armed p)
    (if 2 <=? overflow p then 1 + prod_counter p mod overflow p else prod_counter p).

Lemma wf_advanced p now : wf_producer p → wf_producer (advanced p now).
Proof.
  intros (Hc & Hi & Hov & Hcnt). split_and!; try done; simpl; try lia.
  - destruct (Z.leb_spec 2 (overflow p)); [|lia]. pose proof (Z.mod_pos_bound (prod_counter p) (overflow p)). lia.
  - destruct (Z.leb_spec 2 (overflow p)); [|lia]. pose proof (Z.mod_pos_bound (prod_counter p) (overflow p)). lia.
Qed.

(** One poll of an armed producer. *)
Lemma offer_armed p now accepted :
  wf_producer p → prod_armed p = true → is_u64 (now - prod_last_sent_us p) →
  ∃ f, CanFrame.data f = (if 2 <=? overflow p then [1 + prod_counter p mod overflow p] else []) ∧
  SyncProducer.offer p now accepted =
  Ret (if (prod_interval_us p <=? now - prod_last_sent_us p) && accepted
       then (advanced p now, Some f) else (p, None)).
Proof.
  intros Hwf Harm Hu. pose proof Hwf as (Hc & Hi & Hov & Hcnt).
  pose (payload := if 2 <=? overflow p then [1 + prod_counter p mod overflow p] else []).
  destruct (CanFrame.new (prod_cob_id p) payload) as [f|] eqn:Hf.
  2: { rewrite CanFrame_new_ok in Hf; [done|lia|]. unfold payload. case_match; simpl; lia. }
  exists f. split; [by apply CanFrame_new_data in Hf|].
  unfold SyncProducer.offer, SyncProducer.poll, SyncProducer.is_enabled.
  rewrite (proj2 (Z.eqb_neq (prod_cob_id p) 0)), (proj2 (Z.eqb_neq (prod_interval_us p) 0)) by lia.
  cbn [negb andb]. rewrite Harm. cbn [negb]. rewrite wrapping_sub_id by done. rewrite Z.ltb_antisym.
  destruct (prod_interval_us p <=? now - prod_last_sent_us p); cbn [negb andb]; [|done].
  unfold SyncProducer.confirm_sent, advanced. unfold payload in Hf.
  destruct (Z.leb_spec 2 (overflow p)).
  - rewrite peek_counter_eq by done. rstep. rewrite Hf. rstep. destruct accepted; [|done].
    by rewrite (proj2 (Z.leb_le 2 _)), peek_counter_eq by done.
  - rstep. rewrite Hf. rstep. destruct accepted; [|done]. by rewrite (proj2 (Z.leb_gt 2 _)).
Qed.

Lemma run_offers_armed p steps :
  wf_producer p → prod_armed p = true → 0 ≤ prod_last_sent_us p → ticking (prod_last_sent_us p) steps →
  runs (run_offers p steps) (λ '(_, sent),
    spaced (prod_interval_us p) (prod_last_sent_us p) (map fst sent) ∧
    map snd sent = pulse_payloads (overflow p) (prod_counter p) (length sent)).
Proof.
  remember (prod_last_sent_us p) as l eqn:Hl. intros Hwf Harm Hl0 Ht.
  revert p l Hl Hwf Harm Hl0 Ht. induction steps as [|[now acc] steps IH]; intros p l Hl Hwf Harm Hl0 Ht.
  { by cbn. }
  destruct Ht as (Hn & Hu & Ht). cbn [run_offers].
  destruct (offer_armed p now acc Hwf Harm) as (f & Hf & ->); [unfold is_uint in *; lia|].
  destruct (_ && acc) eqn:E; rstep.
  - apply andb_true_iff in E as [E _].
    eapply runs_bind; [apply (IH (advanced p now) now); try done; [by apply wf_advanced|lia]|].
    intros [p' sent] [Hsp Hpay]. rstep. cbn [map fst snd spaced length]. split.
    + split; [lia|exact Hsp].
    + rewrite pulse_payloads_cons by (destruct Hwf as (_&_&_&?); lia). rewrite Hf, Hpay. f_equal.
      cbn [overflow advanced prod_counter]. unfold pulse_payloads.
      apply map_ext. intros k. by destruct (2 <=? overflow p).
  - eapply runs_bind; [apply (IH p l); try done|].
    + destruct steps as [|[n' a'] steps]; [done|]. simpl in *. split_and!; try apply Ht. lia.
    + by intros [p' sent].
Qed.

(** The SYNC master's pulses are regular and numbered: starting from a
    fresh (reset or newly configured) producer, over any series of polls and
    any pattern of transport refusals nothing panics, the pulses that reach
    the bus are at least one communication cycle apart, the first at least one
    cycle after the first poll, and with a counter overflow value [n] they
    carry 1, 2, ..., n, 1, ... without a gap: a refused pulse is offered again
    and not skipped. *)
Theorem sync_producer_pulses p now0 acc0 steps :
  wf_producer p → prod_armed p = false → prod_counter p = 0 → is_u64 now0 → ticking now0 steps →
  runs (run_offers p ((now0, acc0) :: steps)) (λ '(_, sent),
    spaced (prod_interval_us p) now0 (map fst sent) ∧
    map snd sent = pulse_payloads (overflow p) 0 (length sent)).
Proof.
  intros Hwf Harm Hcnt Hu Ht. pose proof Hwf as (Hc & Hi & _).
  cbn [run_offers]. unfold SyncProducer.offer at 1, SyncProducer.poll, SyncProducer.is_enabled.
  rewrite (proj2 (Z.eqb_neq (prod_cob_id p) 0)), (proj2 (Z.eqb_neq (prod_interval_us p) 0)) by lia.
  cbn [negb andb]. rewrite Harm. rstep. cbn [negb]. rstep.
  eapply runs_bind; [apply run_offers_armed; try done; unfold is_uint in Hu; simpl; lia|].
  intros [p' sent] [Hsp Hpay]. rstep. split; [exact Hsp|]. by rewrite <- Hcnt.
Qed.

Definition demo_producer : SyncProducer := mkProducer 0x80 1000 2 0 false 0.

(** The pulse refused at 3.1 ms goes out at 3.2 ms. *)
Lemma sync_producer_pulses_witness :
  let steps := [(1000, true); (2000, true); (3100, false); (3200, true); (4300, true)] in
  (∃ p, run_offers demo_producer ((0, true) :: steps) =
    Ret (p, [(1000, [1]); (2000, [2]); (3200, [1]); (4300, [2])])) ∧
  runs (run_offers demo_producer ((0, true) :: steps)) (λ '(_, sent),
    spaced 1000 0 (map fst sent) ∧ map snd sent = pulse_payloads 2 0 (length sent)).
Proof.
  split; [eexists; vm_compute; reflexivity|].
  apply (sync_producer_pulses demo_producer 0 true); try reflexivity.
  - unfold wf_producer. simpl. split_and!; try lia. reflexivity.
  - unfold is_uint. lia.
  - unfold ticking, is_uint. lia.
Defined.
