(* ===== verification/Heartbeat.v ===== *)
(** * Heartbeat producer and consumer

    [canopen-core/src/heartbeat.rs].  A monitor's life is the labelled
    automaton [life_step], driven by what the monitor observes: seen, silent,
    seen again. *)
From S2P Require Import Prelude Frame Nmt.

(** ** Producer *)

Record HeartbeatProducer := mkHbProducer { hp_node : Z; hp_interval_us : Z; hp_last_sent_us : Z }.

Module HeartbeatProducer.
Definition new (node : Z) (interval_ms : Z) : HeartbeatProducer := mkHbProducer node (interval_ms * 1000) 0.

Definition set_interval_ms (p : HeartbeatProducer) (ms : Z) : HeartbeatProducer :=
  mkHbProducer (hp_node p) (ms * 1000) (hp_last_sent_us p).

Definition interval_ms (p : HeartbeatProducer) : Z := as_u16 (hp_interval_us p / 1000).

Definition pending (p : HeartbeatProducer) (now_us : Z) (state : NmtState) : exec (option CanFrame) :=
  if hp_interval_us p =? 0 then mret None
  else if hp_interval_us p <=? wrapping_sub 64 now_us (hp_last_sent_us p) then
    f ← unwrap (CanFrame.new (CobId.heartbeat (hp_node p)) [NmtState.heartbeat_byte state]);
    mret (Some f)
  else mret None.

Definition confirm_sent (p : HeartbeatProducer) (now_us : Z) : HeartbeatProducer :=
  mkHbProducer (hp_node p) (hp_interval_us p) now_us.

Definition poll (p : HeartbeatProducer) (now_us : Z) (state : NmtState)
    : exec (HeartbeatProducer * option CanFrame) :=
  f ← pending p now_us state;
  mret (match f with Some f => (confirm_sent p now_us, Some f) | None => (p, None) end).

Definition send_boot (p : HeartbeatProducer) (now_us : Z) : exec (HeartbeatProducer * CanFrame) :=
  f ← unwrap (CanFrame.new (CobId.heartbeat (hp_node p)) [NmtState.heartbeat_byte Initializing]);
  mret (confirm_sent p now_us, f).
End HeartbeatProducer.

(** ** Monitor *)

Inductive HeartbeatMonitorState :=
| HmDisabled
| HmWaiting
| HmAlive (nmt_state : NmtState) (last_seen_us : Z)
| HmTimeout (last_nmt_state : NmtState) (last_seen_us timed_out_us : Z).

Definition is_alive (s : HeartbeatMonitorState) : bool :=
  match s with HmAlive _ _ => true | _ => false end.

Inductive HeartbeatEvent :=
| HbStarted (node : Z) (state : NmtState)
| HbStateChanged (node : Z) (old new : NmtState)
| HbRemoteReset (node : Z)
| HbTimeout (node : Z)
| HbRecovered (node : Z) (state : NmtState).

#[export] Instance HeartbeatEvent_eq_dec : EqDecision HeartbeatEvent.
Proof. solve_decision. Defined.

Record HeartbeatMonitor := mkMonitor {
  hm_node : Z;
  hm_timeout_ms : Z;
  hm_state : HeartbeatMonitorState;
}.

Module HeartbeatMonitor.
Definition new (node timeout_ms : Z) : HeartbeatMonitor := mkMonitor node timeout_ms HmWaiting.

(** [events.push] into the buffer of two. *)
Definition push (events : list HeartbeatEvent) (e : HeartbeatEvent) : list HeartbeatEvent :=
  if (length events <? 2)%nat then events ++ [e] else events.

Definition process (m : HeartbeatMonitor) (node state_byte now_us : Z) (events : list HeartbeatEvent)
    : HeartbeatMonitor * list HeartbeatEvent * bool :=
  if negb (node =? hm_node m) then (m, events, false)
  else
    match NmtState.from_heartbeat_byte state_byte with
    | None => (m, events, true)
    | Some new_state =>
        let node := hm_node m in
        let events :=
          match hm_state m with
          | HmDisabled | HmWaiting => push events (HbStarted node new_state)
          | HmAlive old _ =>
              if decide (new_state = old) then events
              else
                let events := push events (HbStateChanged node old new_state) in
                if decide (new_state = Initializing) then push events (HbRemoteReset node) else events
          | HmTimeout last_nmt_state _ _ =>
              let events := push events (HbRecovered node new_state) in
              if decide (new_state = Initializing ∧ last_nmt_state ≠ Initializing)
              then push events (HbRemoteReset node) else events
          end in
        (mkMonitor node (hm_timeout_ms m) (HmAlive new_state now_us), events, true)
    end.

Definition check_timeout (m : HeartbeatMonitor) (now_us : Z) : HeartbeatMonitor * option HeartbeatEvent :=
  match hm_state m with
  | HmAlive nmt_state last_seen_us =>
      if negb (hm_timeout_ms m =? 0) && (hm_timeout_ms m * 1000 <? wrapping_sub 64 now_us last_seen_us)
      then (mkMonitor (hm_node m) (hm_timeout_ms m) (HmTimeout nmt_state last_seen_us now_us),
            Some (HbTimeout (hm_node m)))
      else (m, None)
  | _ => (m, None)
  end.
End HeartbeatMonitor.

(** ** The producer's period *)

Fixpoint run_heartbeats (p : HeartbeatProducer) (steps : list (Z * NmtState))
    : exec (HeartbeatProducer * list (Z * CanFrame)) :=
  match steps with
  | [] => mret (p, [])
  | (now, state) :: steps =>
      '(p, f) ← HeartbeatProducer.poll p now state;
      '(p, sent) ← run_heartbeats p steps;
      mret (p, match f with Some f => (now, f) :: sent | None => sent end)
  end.

Fixpoint hb_clock (last : Z) (steps : list (Z * NmtState)) : Prop :=
  match steps with
  | [] => True
  | (now, _) :: steps => last ≤ now ∧ is_u64 now ∧ hb_clock now steps
  end.

(** A sent heartbeat: its identifier and the state at the time of sending. *)
Definition heartbeat_of (p : HeartbeatProducer) (steps : list (Z * NmtState)) (sf : Z * CanFrame) : Prop :=
  ∃ state, In (fst sf, state) steps ∧
    CanFrame.new (CobId.heartbeat (hp_node p)) [NmtState.heartbeat_byte state] = Some (snd sf).

Lemma heartbeat_frame n s : wf_node n → ∃ f, CanFrame.new (CobId.heartbeat n) [NmtState.heartbeat_byte s] = Some f.
Proof.
  intros Hn. unfold wf_node in Hn. rewrite CanFrame_new_ok; [by eexists|unfold CobId.heartbeat; lia|simpl; lia].
Qed.

(** Heartbeats are at least their interval apart, carry the node's
    identifier and the NMT state of the poll that sent them, and none is sent
    while the interval is 0; no poll panics. *)
Theorem heartbeat_period p steps :
  wf_node (hp_node p) → 0 ≤ hp_last_sent_us p → hb_clock (hp_last_sent_us p) steps →
  runs (run_heartbeats p steps) (λ '(_, sent),
    spaced (hp_interval_us p) (hp_last_sent_us p) (map fst sent) ∧
    Forall (heartbeat_of p steps) sent ∧ (hp_interval_us p = 0 → sent = [])).
Proof.
  revert p. induction steps as [|[now state] steps IH]; intros p Hn Hl Hc; [by cbn|].
  destruct Hc as (Hle & Hu & Hc). cbn [run_heartbeats].
  unfold HeartbeatProducer.poll, HeartbeatProducer.pending.
  assert (∀ q sent, hp_node q = hp_node p → Forall (heartbeat_of q steps) sent →
            Forall (heartbeat_of p ((now, state) :: steps)) sent) as Hweak.
  { intros q sent Hq. apply Forall_impl. intros sf (st & Hin & Hf). exists st. split; [by right|].
    by rewrite <- Hq. }
  assert (runs (run_heartbeats p steps) (λ '(_, sent),
    spaced (hp_interval_us p) (hp_last_sent_us p) (map fst sent) ∧
    Forall (heartbeat_of p ((now, state) :: steps)) sent ∧ (hp_interval_us p = 0 → sent = []))) as Hskip.
  { eapply runs_mono; [apply IH; try done|].
    - destruct steps as [|[n' s'] steps]; [done|]. simpl in *. split_and!; try apply Hc. lia.
    - intros [q sent] (H1 & H2 & H3). split_and!; [done|by apply (Hweak p)|done]. }
  destruct (Z.eqb_spec (hp_interval_us p) 0) as [Hz|Hz].
  { rstep. eapply runs_bind; [exact Hskip|]. by intros [q sent] ?. }
  destruct (Z.leb_spec (hp_interval_us p) (wrapping_sub 64 now (hp_last_sent_us p))) as [Hdue|_].
  2: { rstep. eapply runs_bind; [exact Hskip|]. by intros [q sent] ?. }
  destruct (heartbeat_frame (hp_node p) state Hn) as [f Hf]. rewrite Hf. rstep.
  rewrite wrapping_sub_id in Hdue by (unfold is_uint in *; lia).
  eapply runs_bind; [apply (IH (HeartbeatProducer.confirm_sent p now)); [done|simpl; unfold is_uint in *; lia|exact Hc]|].
  intros [q sent] (H1 & H2 & H3). rstep. cbn [map fst spaced]. split_and!; [lia|exact H1| |done].
  constructor; [|by apply (Hweak (HeartbeatProducer.confirm_sent p now))].
  exists state. split; [by left|done].
Qed.

Lemma heartbeat_period_witness :
  let p := HeartbeatProducer.new 5 1 in
  let steps := [(900, Initializing); (1200, PreOperational); (2000, PreOperational); (2300, Operational)] in
  (∃ q f g, run_heartbeats p steps = Ret (q, [(1200, f); (2300, g)])) ∧
  runs (run_heartbeats p steps) (λ '(_, sent),
    spaced 1000 0 (map fst sent) ∧ Forall (heartbeat_of p steps) sent ∧ (1000 = 0 → sent = [])).
Proof.
  split; [do 3 eexists; vm_compute; reflexivity|].
  apply (heartbeat_period (HeartbeatProducer.new 5 1)).
  - unfold wf_node. simpl. lia.
  - simpl. lia.
  - unfold hb_clock, is_uint. simpl. lia.
Defined.

(** ** The monitor's life *)

Inductive hb_life := NotSeen | Up (s : NmtState) | Down (s : NmtState).

Definition life (m : HeartbeatMonitor) : hb_life :=
  match hm_state m with
  | HmDisabled | HmWaiting => NotSeen
  | HmAlive s _ => Up s
  | HmTimeout s _ _ => Down s
  end.

(** What a monitor observes of its producer. *)
Inductive hb_observation := Heard (s : NmtState) | Silence | Nothing.

(** One observation, the events it raises and the life after it. *)
Inductive life_step (node : Z) : hb_life → hb_observation → list HeartbeatEvent → hb_life → Prop :=
| life_idle l : life_step node l Nothing [] l
| life_first s : life_step node NotSeen (Heard s) [HbStarted node s] (Up s)
| life_same s : life_step node (Up s) (Heard s) [] (Up s)
| life_change s s' : s ≠ s' → s' ≠ Initializing →
    life_step node (Up s) (Heard s') [HbStateChanged node s s'] (Up s')
| life_reset s : s ≠ Initializing →
    life_step node (Up s) (Heard Initializing)
      [HbStateChanged node s Initializing; HbRemoteReset node] (Up Initializing)
| life_silent s : life_step node (Up s) Silence [HbTimeout node] (Down s)
| life_back_boot :
    life_step node (Down Initializing) (Heard Initializing) [HbRecovered node Initializing] (Up Initializing)
| life_back_running s s' : s' ≠ Initializing →
    life_step node (Down s) (Heard s') [HbRecovered node s'] (Up s')
| life_back_reset s : s ≠ Initializing →
    life_step node (Down s) (Heard Initializing)
      [HbRecovered node Initializing; HbRemoteReset node] (Up Initializing).

Inductive hb_op := HbFrame (node state_byte now : Z) | HbCheck (now : Z).

Definition hb_apply (m : HeartbeatMonitor) (op : hb_op) : HeartbeatMonitor * list HeartbeatEvent :=
  match op with
  | HbFrame node b now => let '(m, events, _) := HeartbeatMonitor.process m node b now [] in (m, events)
  | HbCheck now => let '(m, e) := HeartbeatMonitor.check_timeout m now in (m, option_list e)
  end.

(** When the last heartbeat was seen, while the producer is up. *)
Definition last_seen (m : HeartbeatMonitor) : option Z :=
  match hm_state m with HmAlive _ t => Some t | _ => None end.

(** The states CiA 301 gives a heartbeat byte. *)
Definition reported_states : list (Z * NmtState) :=
  [(0, Initializing); (4, Stopped); (5, Operational); (127, PreOperational)].

Definition reported_state (b : Z) : option NmtState :=
  snd <$> List.find (λ row, fst row =? b) reported_states.

(** What an operation shows the monitor: the state a heartbeat of its node
    reports, or a silence longer than the consumer time of a producer that was
    up. *)
Definition observation (m : HeartbeatMonitor) (op : hb_op) : hb_observation :=
  match op with
  | HbFrame node b now =>
      if node =? hm_node m
      then match reported_state b with Some s => Heard s | None => Nothing end
      else Nothing
  | HbCheck now =>
      match last_seen m with
      | Some t =>
          if negb (hm_timeout_ms m =? 0) && (hm_timeout_ms m * 1000 <? wrapping_sub 64 now t)
          then Silence else Nothing
      | None => Nothing
      end
  end.

Lemma reported_state_spec b : NmtState.from_heartbeat_byte b = reported_state b.
Proof.
  unfold NmtState.from_heartbeat_byte, reported_state, reported_states. cbn [List.find fst].
  rewrite !(Z.eqb_sym b). by repeat case_match.
Qed.

(** A monitor after a heartbeat of its node with a known state. *)
Lemma process_heard m b now s :
  reported_state b = Some s →
  ∃ events, hb_apply m (HbFrame (hm_node m) b now)
            = (mkMonitor (hm_node m) (hm_timeout_ms m) (HmAlive s now), events) ∧
    life_step (hm_node m) (life m) (Heard s) events (Up s).
Proof.
  intros Hs. unfold hb_apply, HeartbeatMonitor.process.
  rewrite Z.eqb_refl, reported_state_spec, Hs. cbn [negb]. eexists. split; [done|].
  unfold life, HeartbeatMonitor.push.
  destruct (hm_state m) as [| |s0 t|s0 t t']; simpl; repeat (case_decide; simpl);
    try (destruct_and?; subst; constructor; congruence).
  destruct (decide (s = Initializing)) as [->|]; [|by constructor].
  destruct (decide (s0 = Initializing)) as [->|]; [constructor|tauto].
Qed.

(** C39. A heartbeat monitor follows the life of its producer.  What it
    observes is the state that a heartbeat of its node reports, or, at a
    check, a silence longer than the consumer time while the producer is up
    and monitoring is enabled; every operation is the step of [life_step] for
    its observation, with that step's events: Started at the first heartbeat,
    StateChanged with the state left and the state reported, RemoteReset
    exactly on a boot-up of a producer last seen in another state, Timeout and
    Recovered strictly alternating.  A heartbeat that reports a state is
    remembered with its time; a frame of another node or with an unknown
    state, and a check without a timeout, change nothing. *)
Theorem heartbeat_monitor_life (m : HeartbeatMonitor) (op : hb_op) :
  let '(m', events) := hb_apply m op in
  life_step (hm_node m) (life m) (observation m op) events (life m') ∧
  hm_node m' = hm_node m ∧ hm_timeout_ms m' = hm_timeout_ms m ∧
  match observation m op, op with
  | Heard s, HbFrame _ _ now => hm_state m' = HmAlive s now
  | Silence, HbCheck now => ∃ s t, hm_state m = HmAlive s t ∧ hm_state m' = HmTimeout s t now
  | _, _ => m' = m ∧ events = []
  end.
Proof.
  destruct op as [node b now|now]; cbn [observation].
  - destruct (Z.eqb_spec node (hm_node m)) as [->|Hn].
    + destruct (reported_state b) as [s|] eqn:Hs.
      * destruct (process_heard m b now s Hs) as (events & -> & Hstep). by split_and!.
      * cbn [hb_apply]. unfold HeartbeatMonitor.process.
        rewrite Z.eqb_refl, reported_state_spec, Hs. by split_and!; try constructor.
    + cbn [hb_apply]. unfold HeartbeatMonitor.process.
      rewrite (proj2 (Z.eqb_neq _ _) Hn). by split_and!; try constructor.
  - cbn [hb_apply]. unfold HeartbeatMonitor.check_timeout, last_seen.
    destruct (hm_state m) as [| |s t|s t t'] eqn:E; try by split_and!; try constructor.
    destruct (negb _ && _); [|by split_and!; try constructor].
    cbn. unfold life. rewrite E. split_and!; try done; [constructor|by exists s, t].
Qed.
