(* ===== verification/Emcy.v ===== *)
(** * Emergency messages

    [canopen-core/src/emcy.rs]: frame construction and parsing, and the
    producer with its error register and queue of four.  The Rust enum of
    error codes is its discriminants. *)
From S2P Require Import Prelude Frame PdoBits.

Inductive EmcyErrorCode :=
| NoError | GenericError | CurrentGeneric | VoltageGeneric | TemperatureGeneric
| DeviceHardwareGeneric | DeviceSoftwareGeneric | AdditionalModulesGeneric | MonitoringGeneric
| CommunicationGeneric | HeartbeatError | ProtocolError | RpdoTimeout | ExternalError
| ManufacturerSpecific.

Definition EmcyErrorCode_code (c : EmcyErrorCode) : Z :=
  match c with
  | NoError => 0x0000
  | GenericError => 0x1000
  | CurrentGeneric => 0x2000
  | VoltageGeneric => 0x3000
  | TemperatureGeneric => 0x4000
  | DeviceHardwareGeneric => 0x5000
  | DeviceSoftwareGeneric => 0x6000
  | AdditionalModulesGeneric => 0x7000
  | MonitoringGeneric => 0x8000
  | CommunicationGeneric => 0x8100
  | HeartbeatError => 0x8130
  | ProtocolError => 0x8200
  | RpdoTimeout => 0x8250
  | ExternalError => 0x9000
  | ManufacturerSpecific => 0xFF00
  end.

Definition build_emcy_frame (node error_code error_register : Z) (vendor_data : list Z) : exec CanFrame :=
  let d := set_at (zeros 8) 0 (as_u8 (Z.land error_code 0xFF)) in
  let d := set_at d 1 (as_u8 (Z.shiftr error_code 8)) in
  let d := set_at d 2 error_register in
  let vlen := Z.min (len vendor_data) 5 in
  v ← slice vendor_data 0 vlen;
  d ← copy_from_slice d 3 (3 + vlen) v;
  unwrap (CanFrame.new (CobId.emergency node) d).

Record EmcyMessage := mkEmcy {
  em_node : Z;
  em_error_code : Z;
  em_error_register : Z;
  em_vendor_data : list Z;
}.

Module EmcyMessage.
Definition is_error_reset (m : EmcyMessage) : bool := em_error_code m =? 0x0000.

Definition parse (frame : CanFrame) : exec (option EmcyMessage) :=
  match CobId.new (CanFrame.raw_id frame) with
  | None => mret None
  | Some cob =>
      match CobId.parse cob with
      | Emergency node =>
          let data := CanFrame.data frame in
          if len data <? 8 then mret None
          else
            v ← slice data 3 8;
            vendor_data ← copy_from_slice (zeros 5) 0 5 v;
            mret (Some (mkEmcy node (from_le_bytes [at_ data 0; at_ data 1]) (at_ data 2) vendor_data))
      | _ => mret None
      end
  end.
End EmcyMessage.

(** Error register bits. *)
Definition GENERIC : Z := 1.
Definition COMMUNICATION : Z := 16.

Record EmcyProducer := mkEmcyProducer {
  ep_node : Z;
  error_register : Z;
  ep_pending : list CanFrame;
  ep_dropped : Z;
}.

Module EmcyProducer.

Definition new (node : Z) : EmcyProducer := mkEmcyProducer node 0 [] 0.

Definition queue (p : EmcyProducer) (frame : CanFrame) : EmcyProducer :=
  let '(q, dropped) :=
    if (4 <=? length (ep_pending p))%nat
    then (snd (Mailbox.pop_front (ep_pending p)), saturating_add 32 (ep_dropped p) 1)
    else (ep_pending p, ep_dropped p) in
  mkEmcyProducer (ep_node p) (error_register p)
    (match Mailbox.push_back 4 q frame with Ok q => q | Err _ => q end) dropped.

Definition with_register (p : EmcyProducer) (r : Z) : EmcyProducer :=
  mkEmcyProducer (ep_node p) r (ep_pending p) (ep_dropped p).

Definition set_error (p : EmcyProducer) (error_code register_bits : Z) (vendor_data : list Z)
    : exec EmcyProducer :=
  let p := with_register p (Z.lor (error_register p) (Z.lor register_bits GENERIC)) in
  f ← build_emcy_frame (ep_node p) error_code (error_register p) vendor_data;
  mret (queue p f).

(** [!x] on a [u8]. *)
Definition not8 (x : Z) : Z := Z.lxor 0xFF x.

Definition cleared_register (before register_bits : Z) : Z :=
  let cleared_categories := Z.land (Z.land before register_bits) (not8 GENERIC) in
  let r := Z.land before (not8 register_bits) in
  if negb (Z.land r (not8 GENERIC) =? 0) then Z.lor r GENERIC
  else if negb (cleared_categories =? 0) then 0 else r.

Definition clear_error (p : EmcyProducer) (register_bits : Z) : exec EmcyProducer :=
  let before := error_register p in
  let p := with_register p (cleared_register before register_bits) in
  if negb (before =? 0) && (error_register p =? 0) then
    f ← build_emcy_frame (ep_node p) (EmcyErrorCode_code NoError) 0 [];
    mret (queue p f)
  else mret p.

Definition clear_all (p : EmcyProducer) : exec EmcyProducer :=
  let p := with_register p 0 in
  f ← build_emcy_frame (ep_node p) (EmcyErrorCode_code NoError) 0 [];
  mret (queue p f).

Definition take_pending (p : EmcyProducer) : EmcyProducer * option CanFrame :=
  let '(f, q) := Mailbox.pop_front (ep_pending p) in
  (mkEmcyProducer (ep_node p) (error_register p) q (ep_dropped p), f).

Definition peek_pending (p : EmcyProducer) : option CanFrame := head (ep_pending p).

End EmcyProducer.

(** ** Frames *)

(** The five vendor bytes a frame carries. *)
Definition vendor5 (v : list Z) : list Z := take 5 v ++ zeros (5 - len (take 5 v)).

Definition emcy_data (error_code error_register : Z) (v : list Z) : list Z :=
  as_u8 (Z.land error_code 0xFF) :: as_u8 (Z.shiftr error_code 8) :: error_register :: vendor5 v.

Lemma vendor5_length v : length (vendor5 v) = 5%nat.
Proof.
  unfold vendor5. rewrite length_app. pose proof (len_zeros (5 - len (take 5 v))).
  rewrite length_take in *. lia.
Qed.

Lemma build_emcy_frame_eq node code reg v :
  wf_node node →
  build_emcy_frame node code reg v =
    Ret (mkCanFrame (CobId.emergency node) 8 (emcy_data code reg v)).
Proof.
  intros Hn. unfold wf_node in Hn. unfold build_emcy_frame. rewrite slice_prefix by lia. rstep.
  replace (Z.to_nat (Z.min (len v) 5)) with (length (take 5 v)) by (rewrite length_take; lia).
  assert (take (length (take 5 v)) v = take 5 v) as ->.
  { rewrite length_take. destruct (Nat.le_ge_cases 5 (length v)).
    - by rewrite Nat.min_l.
    - by rewrite Nat.min_r, !take_ge. }
  replace (Z.min (len v) 5) with (len (take 5 v)) by (rewrite length_take; lia).
  assert (copy_from_slice
    (set_at (set_at (set_at (zeros 8) 0 (as_u8 (Z.land code 255))) 1 (as_u8 (Z.shiftr code 8))) 2 reg)
    3 (3 + len (take 5 v)) (take 5 v) = Ret (emcy_data code reg v)) as ->.
  { destruct v as [|a [|b [|c [|d [|e l]]]]]; reflexivity. }
  rstep. rewrite CanFrame_new_ok.
  - unfold emcy_data. cbn [length]. rewrite vendor5_length. change (zeros (8 - 8)) with (@nil Z).
    by rewrite app_nil_r.
  - unfold CobId.emergency. lia.
  - unfold emcy_data. cbn [length]. rewrite vendor5_length. lia.
Qed.

(** What an emergency producer sends is what a consumer reads: parsing a
    built frame yields the node, the error code, the register and the first
    five vendor bytes, zero-filled. *)
Theorem emcy_roundtrip node code reg v :
  wf_node node → is_u16 code →
  ∃ f, build_emcy_frame node code reg v = Ret f ∧
    EmcyMessage.parse f = Ret (Some (mkEmcy node code reg (vendor5 v))).
Proof.
  intros Hn Hc. eexists. split; [by apply build_emcy_frame_eq|].
  unfold EmcyMessage.parse. cbn [CanFrame.raw_id cf_id]. unfold CobId.emergency, wf_node in *.
  unfold CobId.new. rewrite (proj2 (Z.leb_le _ _)) by lia.
  assert (CobId.parse (0x080 + node) = Emergency node) as ->.
  { apply (parse_complete Emergency node); [vm_compute; reflexivity|done|done]. }
  unfold CanFrame.data. cbn [cf_dlc cf_data]. rewrite take_ge.
  2: { unfold emcy_data. cbn [length]. rewrite vendor5_length. simpl. lia. }
  unfold emcy_data. cbn [length]. rewrite vendor5_length. change (Z.of_nat _ <? 8) with false. cbn iota.
  pose proof (vendor5_length v) as Hl. destruct (vendor5 v) as [|a [|b [|c [|d [|e [|]]]]]]; try done.
  cbn [at_ nth]. change (slice _ 3 8) with (Ret [a; b; c; d; e]). rstep.
  change (copy_from_slice _ 0 5 _) with (Ret [a; b; c; d; e]). rstep.
  unfold mret, exec_ret. do 3 f_equal. unfold is_uint in Hc.
  change 0xFF with (Z.ones 8). rewrite Z.land_ones, Z.shiftr_div_pow2 by lia. change (2 ^ 8) with 256.
  pose proof (Z.mod_pos_bound code 256). pose proof (Z.div_mod code 256).
  assert (0 ≤ code / 256 < 256) by (split; [apply Z.div_pos|apply Z.div_lt_upper_bound]; lia).
  rewrite !wrap_id by (unfold is_uint; lia). unfold from_le_bytes. lia.
Qed.

Lemma emcy_roundtrip_witness :
  ∃ f, build_emcy_frame 0x22 0x8130 0x11 [0x22; 7] = Ret f ∧
    EmcyMessage.parse f = Ret (Some (mkEmcy 0x22 0x8130 0x11 [0x22; 7; 0; 0; 0])).
Proof. apply (emcy_roundtrip 0x22 0x8130 0x11 [0x22; 7]); [unfold wf_node|unfold is_uint]; lia. Defined.

(** ** The producer *)

Inductive emcy_op :=
| SetError (code bits : Z) (vendor : list Z)
| ClearError (bits : Z)
| ClearAll
| TakePending.

Definition emcy_apply (p : EmcyProducer) (op : emcy_op) : exec (EmcyProducer * list CanFrame) :=
  match op with
  | SetError code bits v => p ← EmcyProducer.set_error p code bits v; mret (p, [])
  | ClearError bits => p ← EmcyProducer.clear_error p bits; mret (p, [])
  | ClearAll => p ← EmcyProducer.clear_all p; mret (p, [])
  | TakePending => let '(p, f) := EmcyProducer.take_pending p in mret (p, option_list f)
  end.

Definition wf_emcy_op (op : emcy_op) : Prop :=
  match op with
  | SetError code bits v => is_u16 code ∧ is_u8 bits
  | ClearError bits => is_u8 bits
  | _ => True
  end.

(** The register after an operation, as CiA 301 describes it: bit 0 summarises
    the other seven. *)
Definition register_after (r : Z) (op : emcy_op) : Z :=
  match op with
  | SetError _ bits _ => Z.lor r (Z.lor bits GENERIC)
  | ClearError bits => EmcyProducer.cleared_register r bits
  | ClearAll => 0
  | TakePending => r
  end.

(** The announcement an operation queues. *)
Definition announcement (r : Z) (op : emcy_op) : option (Z * Z * list Z) :=
  match op with
  | SetError code _ v => Some (code, register_after r op, v)
  | ClearError _ => if negb (r =? 0) && (register_after r op =? 0) then Some (0, 0, []) else None
  | ClearAll => Some (0, 0, [])
  | TakePending => None
  end.

(** Bit 0 is set exactly when the register is not zero. *)
Definition summary_bit (r : Z) : Prop := is_u8 r ∧ (Z.testbit r 0 = true ↔ r ≠ 0).

Lemma cleared_register_cases r bits :
  is_u8 r → is_u8 bits →
  let r' := EmcyProducer.cleared_register r bits in
  is_u8 r' ∧ (Z.testbit r 0 = true ∨ r = 0 → Z.testbit r' 0 = true ∨ r' = 0) ∧
  Z.land r' 0xFE = Z.land (Z.land r (Z.lxor 0xFF bits)) 0xFE ∧
  (r' = 0 ↔ r = 0 ∨ Z.land (Z.land r (Z.lxor 0xFF bits)) 0xFE = 0 ∧
             (Z.land (Z.land r bits) 0xFE ≠ 0 ∨ Z.land r (Z.lxor 0xFF bits) = 0)).
Proof.
  intros Hr Hb r'.
  pose (chk r bits := let r' := EmcyProducer.cleared_register r bits in
    (0 <=? r') && (r' <? 256) && implb (Z.testbit r 0 || (r =? 0)) (Z.testbit r' 0 || (r' =? 0))
    && (Z.land r' 0xFE =? Z.land (Z.land r (Z.lxor 0xFF bits)) 0xFE)
    && Bool.eqb (r' =? 0) ((r =? 0) || ((Z.land (Z.land r (Z.lxor 0xFF bits)) 0xFE =? 0)
         && (negb (Z.land (Z.land r bits) 0xFE =? 0) || (Z.land r (Z.lxor 0xFF bits) =? 0))))).
  assert (forallb (λ r, forallb (chk r) (seqZ 0 256)) (seqZ 0 256) = true) as Hall
    by (vm_compute; reflexivity).
  pose proof (byte_forall _ Hall r Hr) as H1. clear Hall. cbv beta in H1.
  pose proof (byte_forall _ H1 bits Hb) as H2. clear H1. unfold chk in H2. fold r' in H2.
  cbv zeta in H2. repeat (apply andb_true_iff in H2 as [H2 ?]).
  split_and!; [unfold is_uint; lia| |lia|].
  - intros Hs. destruct (Z.testbit r 0), (Z.eqb_spec r 0), (Z.testbit r' 0), (Z.eqb_spec r' 0); simpl in *; tauto || done.
  - destruct (Z.eqb_spec r' 0), (Z.eqb_spec r 0),
      (Z.eqb_spec (Z.land (Z.land r (Z.lxor 0xFF bits)) 0xFE) 0),
      (Z.eqb_spec (Z.land (Z.land r bits) 0xFE) 0), (Z.eqb_spec (Z.land r (Z.lxor 0xFF bits)) 0);
      simpl in *; try done; tauto.
Qed.

Fixpoint run_emcy (p : EmcyProducer) (ops : list emcy_op) : exec (EmcyProducer * list CanFrame) :=
  match ops with
  | [] => mret (p, [])
  | op :: ops =>
      '(p, f) ← emcy_apply p op;
      '(p, fs) ← run_emcy p ops;
      mret (p, f ++ fs)
  end.

Lemma run_emcy_cons p op ops p1 f :
  emcy_apply p op = Ret (p1, f) →
  run_emcy p (op :: ops) = '(p', fs) ← run_emcy p1 ops; mret (p', f ++ fs).
Proof. cbn [run_emcy]. by intros ->. Qed.

(** The frames announced by a series of operations, in order. *)
Fixpoint announced (node r : Z) (ops : list emcy_op) : list CanFrame :=
  match ops with
  | [] => []
  | op :: ops =>
      match announcement r op with
      | Some (code, reg, v) => [mkCanFrame (CobId.emergency node) 8 (emcy_data code reg v)]
      | None => []
      end ++ announced node (register_after r op) ops
  end.

Definition final_register (r : Z) (ops : list emcy_op) : Z := fold_left register_after ops r.

(** Queueing a frame: the oldest gives way when four are pending. *)
Definition enqueued (p p' : EmcyProducer) (r : Z) (fs : list CanFrame) : Prop :=
  ep_node p' = ep_node p ∧ error_register p' = r ∧ (length (ep_pending p') ≤ 4)%nat ∧
  sublist (ep_pending p') (ep_pending p ++ fs) ∧
  (ep_dropped p + len fs < 2 ^ 32 →
   len (ep_pending p') + ep_dropped p' = len (ep_pending p) + len fs + ep_dropped p ∧
   ep_dropped p ≤ ep_dropped p' ≤ ep_dropped p + len fs).

Lemma queue_enqueued p f :
  (length (ep_pending p) ≤ 4)%nat → enqueued p (EmcyProducer.queue p f) (error_register p) [f].
Proof.
  intros Hl. unfold EmcyProducer.queue, enqueued.
  destruct (Nat.leb_spec 4 (length (ep_pending p))).
  - destruct (ep_pending p) as [|x q] eqn:E; simpl in *; [lia|].
    unfold Mailbox.push_back. rewrite (proj2 (Nat.leb_gt 4 (length q))) by lia. simpl.
    rewrite !length_app. simpl. split_and!; try done; try lia; [by constructor|].
    unfold saturating_add. lia.
  - unfold Mailbox.push_back. rewrite (proj2 (Nat.leb_gt _ _)) by lia. simpl.
    rewrite !length_app. simpl. split_and!; try done; lia.
Qed.

Lemma summary_set r bits : is_u8 r → is_u8 bits → summary_bit (Z.lor r (Z.lor bits GENERIC)).
Proof.
  intros Hr Hb. split.
  - apply lor_u8; [done|]. apply lor_u8; [done|]. by unfold is_uint, GENERIC.
  - assert (Z.testbit (Z.lor r (Z.lor bits GENERIC)) 0 = true) as Ht.
    { rewrite !Z.lor_spec. change (Z.testbit GENERIC 0) with true. by rewrite !orb_true_r. }
    split; [|done]. intros _ Hz. by rewrite Hz, Z.bits_0 in Ht.
Qed.

Lemma register_summary r op : summary_bit r → wf_emcy_op op → summary_bit (register_after r op).
Proof.
  intros [Hr Hs] Hw. destruct op as [code bits v|bits| |]; simpl in *; try done.
  - apply summary_set; tauto.
  - destruct (cleared_register_cases r bits Hr Hw) as (Hu & Hc & _). split; [done|].
    destruct Hc as [Ht|Hz].
    + destruct (decide (r = 0)); [by right|left; by apply Hs].
    + split; [|done]. intros _ Hz. by rewrite Hz, Z.bits_0 in Ht.
    + rewrite Hz. done.
Qed.

Lemma emcy_apply_queue p op :
  wf_node (ep_node p) → (length (ep_pending p) ≤ 4)%nat → op ≠ TakePending →
  ∃ p', emcy_apply p op = Ret (p', []) ∧
    enqueued p p' (register_after (error_register p) op)
      (match announcement (error_register p) op with
       | Some (code, reg, v) => [mkCanFrame (CobId.emergency (ep_node p)) 8 (emcy_data code reg v)]
       | None => [] end).
Proof.
  intros Hn Hl Hop. destruct op as [code bits v|bits| |]; [..|done]; cbn [emcy_apply announcement register_after].
  - unfold EmcyProducer.set_error. rewrite build_emcy_frame_eq by done. rstep.
    eexists. split; [done|]. by apply (queue_enqueued (EmcyProducer.with_register p _)).
  - unfold EmcyProducer.clear_error. cbn [EmcyProducer.with_register error_register ep_node].
    destruct (negb (error_register p =? 0) && _).
    + rewrite build_emcy_frame_eq by done. rstep.
      eexists. split; [done|]. by apply (queue_enqueued (EmcyProducer.with_register p _)).
    + rstep. eexists. split; [done|]. unfold enqueued. simpl. rewrite app_nil_r. split_and!; try done; lia.
  - unfold EmcyProducer.clear_all. cbn [EmcyProducer.with_register ep_node].
    rewrite build_emcy_frame_eq by done. rstep.
    eexists. split; [done|]. by apply (queue_enqueued (EmcyProducer.with_register p 0)).
Qed.

Lemma emcy_take p :
  ∃ p' f, emcy_apply p TakePending = Ret (p', f) ∧ ep_node p' = ep_node p ∧
    error_register p' = error_register p ∧ ep_dropped p' = ep_dropped p ∧
    ep_pending p = f ++ ep_pending p'.
Proof.
  cbn [emcy_apply]. unfold EmcyProducer.take_pending.
  destruct (ep_pending p) as [|f q]; do 2 eexists; (split; [reflexivity|]); done.
Qed.

(** C40. The emergency producer keeps its books: over any series of reports,
    clearings and transmissions nothing panics; the register follows
    [register_after] and its bit 0 is set exactly while any error is; at most
    four announcements are pending; what was taken and what is pending are, in
    order, announcements made (register at the time of the report included),
    and every announcement is taken, pending or counted as dropped. *)
Theorem emcy_accounting p ops :
  wf_node (ep_node p) → summary_bit (error_register p) → (length (ep_pending p) ≤ 4)%nat →
  Forall wf_emcy_op ops →
  runs (run_emcy p ops) (λ '(p', taken),
    error_register p' = final_register (error_register p) ops ∧
    summary_bit (error_register p') ∧ (length (ep_pending p') ≤ 4)%nat ∧
    sublist (taken ++ ep_pending p')
      (ep_pending p ++ announced (ep_node p) (error_register p) ops) ∧
    (ep_dropped p + len (announced (ep_node p) (error_register p) ops) < 2 ^ 32 →
     len taken + len (ep_pending p') + ep_dropped p' =
     len (ep_pending p) + len (announced (ep_node p) (error_register p) ops) + ep_dropped p)).
Proof.
  intros Hn Hs Hl Hops. revert p Hn Hs Hl. induction Hops as [|op ops Hop Hops IH]; intros p Hn Hs Hl.
  { cbn. rewrite app_nil_r. split_and!; try done. simpl. lia. }
  cbn [announced]. assert (op = TakePending ∨ op ≠ TakePending) as [->|Hne]
    by (destruct op; [by right|by right|by right|by left]).
  - cbn [announcement register_after app].
    destruct (emcy_take p) as (p1 & f & Ht & E1 & E2 & E3 & E4).
    rewrite (run_emcy_cons _ _ _ _ _ Ht).
    eapply runs_bind.
    { apply (IH p1); rewrite ?E1, ?E2; try done. apply (f_equal length) in E4. rewrite length_app in E4. lia. }
    intros [p' taken] (H1 & H2 & H3 & H4 & H5). rewrite E1, E2, E3 in *. rstep. rewrite E4, <- (app_assoc f taken), <- (app_assoc f (ep_pending p1)).
    split_and!; try done; [by apply sublist_app|].
    intros Hd. specialize (H5 Hd). rewrite !length_app. lia.
  - destruct (emcy_apply_queue p op Hn Hl Hne) as (p1 & Hp & E1 & E2 & E3 & E4 & E5).
    rewrite (run_emcy_cons _ _ _ _ _ Hp).
    set (fs := match announcement (error_register p) op with Some _ => _ | None => _ end) in *.
    eapply runs_bind; [apply (IH p1); rewrite ?E1, ?E2; try done; by apply register_summary|].
    intros [p' taken] (H1 & H2 & H3 & H4 & H5). rewrite E1, E2 in *. cbn [app].
    split_and!; try done.
    + etrans; [exact H4|]. rewrite app_assoc. by apply sublist_app.
    + rewrite length_app. intros Hd. destruct E5 as [E5 E6]; [lia|]. specialize (H5 ltac:(lia)). lia.
Qed.

Definition demo_emcy_ops : list emcy_op :=
  [ SetError 0x8130 COMMUNICATION [0x22]; SetError 0x3000 4 []; ClearError COMMUNICATION;
    TakePending; ClearError 4; TakePending; TakePending ].

Lemma emcy_accounting_witness :
  (∃ p f1 f2 f3, run_emcy (EmcyProducer.new 5) demo_emcy_ops = Ret (p, [f1; f2; f3]) ∧
     error_register p = 0 ∧ CanFrame.data f3 = [0; 0; 0; 0; 0; 0; 0; 0]) ∧
  runs (run_emcy (EmcyProducer.new 5) demo_emcy_ops) (λ '(p', taken),
    error_register p' = final_register 0 demo_emcy_ops ∧
    summary_bit (error_register p') ∧ (length (ep_pending p') ≤ 4)%nat ∧
    sublist (taken ++ ep_pending p') ([] ++ announced 5 0 demo_emcy_ops) ∧
    (0 + len (announced 5 0 demo_emcy_ops) < 2 ^ 32 →
     len taken + len (ep_pending p') + ep_dropped p' = 0 + len (announced 5 0 demo_emcy_ops) + 0)).
Proof.
  split; [do 4 eexists; split; [vm_compute; reflexivity|split; reflexivity]|].
  apply (emcy_accounting (EmcyProducer.new 5) demo_emcy_ops).
  - unfold wf_node. simpl. lia.
  - split; [unfold is_uint; simpl; lia|]. simpl. split; [discriminate|done].
  - simpl. lia.
  - repeat (apply List.Forall_cons; [unfold wf_emcy_op, is_uint, COMMUNICATION; lia|]). apply List.Forall_nil.
Defined.
