(* ===== verification/Lss.v ===== *)
(** * LSS slave

    [canopen-core/src/lss.rs]: the layer-setting slave.  Selective switching
    is specified by the pattern the received requests must contain; the other
    services by what they may change and when they answer. *)
From S2P Require Import Prelude Frame.

Definition LSS_REQUEST_COB : Z := 0x7E5.
Definition LSS_RESPONSE_COB : Z := 0x7E4.

Module cs.
Definition SWITCH_MODE_GLOBAL : Z := 0x04.
Definition CONFIGURE_NODE_ID : Z := 0x11.
Definition STORE_CONFIGURATION : Z := 0x17.
Definition SWITCH_VENDOR : Z := 0x40.
Definition SWITCH_PRODUCT : Z := 0x41.
Definition SWITCH_REVISION : Z := 0x42.
Definition SWITCH_SERIAL : Z := 0x43.
Definition INQUIRE_VENDOR : Z := 0x5A.
Definition INQUIRE_PRODUCT : Z := 0x5B.
Definition INQUIRE_REVISION : Z := 0x5C.
Definition INQUIRE_SERIAL : Z := 0x5D.
Definition INQUIRE_NODE_ID : Z := 0x5E.
End cs.

Record LssIdentity := mkIdentity { vendor_id : Z; product_code : Z; revision : Z; serial : Z }.

Inductive LssMode := LssWaiting | LssConfiguration.

#[export] Instance LssMode_eq_dec : EqDecision LssMode.
Proof. solve_decision. Defined.

Inductive LssEvent := NodeIdConfigured (id : Z) | StoreConfiguration.

Record LssSlave := mkLss {
  ls_identity : LssIdentity;
  ls_node_id : Z;
  ls_mode : LssMode;
  selective_step : Z;
  ls_pending : option LssEvent;
}.

Module LssSlave.

Definition new (identity : LssIdentity) (node_id : Z) : LssSlave :=
  mkLss identity node_id LssWaiting 0 None.

Definition take_event (s : LssSlave) : LssSlave * option LssEvent :=
  (mkLss (ls_identity s) (ls_node_id s) (ls_mode s) (selective_step s) None, ls_pending s).

Definition with_mode (s : LssSlave) (m : LssMode) : LssSlave :=
  mkLss (ls_identity s) (ls_node_id s) m (selective_step s) (ls_pending s).
Definition with_step (s : LssSlave) (k : Z) : LssSlave :=
  mkLss (ls_identity s) (ls_node_id s) (ls_mode s) k (ls_pending s).
Definition with_node_id (s : LssSlave) (n : Z) : LssSlave :=
  mkLss (ls_identity s) n (ls_mode s) (selective_step s) (ls_pending s).
Definition with_event (s : LssSlave) (e : LssEvent) : LssSlave :=
  mkLss (ls_identity s) (ls_node_id s) (ls_mode s) (selective_step s) (Some e).

Definition make_response (data : list Z) : option CanFrame := CanFrame.new LSS_RESPONSE_COB data.

(** [resp[0] = c; resp[1] = v] on eight zero bytes. *)
Definition resp2 (c v : Z) : list Z := set_at (set_at (zeros 8) 0 c) 1 v.

(** The arm of the four [SWITCH_*] commands. *)
Definition switch_selective (s : LssSlave) (cmd : Z) (data : list Z) : LssSlave * option CanFrame :=
  let val := from_le_bytes [at_ data 1; at_ data 2; at_ data 3; at_ data 4] in
  let '(step, expected) :=
    if cmd =? cs.SWITCH_VENDOR then (0, vendor_id (ls_identity s))
    else if cmd =? cs.SWITCH_PRODUCT then (1, product_code (ls_identity s))
    else if cmd =? cs.SWITCH_REVISION then (2, revision (ls_identity s))
    else (3, serial (ls_identity s)) in
  let s := if step =? 0 then with_step s 0 else s in
  if negb (selective_step s =? step) || negb (val =? expected) then (with_step s 0, None)
  else if step <? 3 then (with_step s (step + 1), None)
  else (with_mode (with_step s 0) LssConfiguration, make_response (set_at (zeros 8) 0 0x44)).

(** An [INQUIRE_*] arm: the command and the four bytes of the identity field. *)
Definition inquire (s : LssSlave) (cmd v : Z) : exec (LssSlave * option CanFrame) :=
  resp ← copy_from_slice (set_at (zeros 8) 0 cmd) 1 5 (to_le_bytes 4 v);
  mret (s, make_response resp).

Definition configure_node_id (s : LssSlave) (new_id : Z) : LssSlave * option CanFrame :=
  if (1 <=? new_id) && (new_id <=? 127) then
    (with_event (with_node_id s new_id) (NodeIdConfigured new_id),
     make_response (resp2 cs.CONFIGURE_NODE_ID 0))
  else if new_id =? 0xFF then
    (with_event (with_node_id s new_id) (NodeIdConfigured new_id),
     make_response (resp2 cs.CONFIGURE_NODE_ID 0))
  else (s, make_response (resp2 cs.CONFIGURE_NODE_ID 1)).

Definition process (s : LssSlave) (frame : CanFrame) : exec (LssSlave * option CanFrame) :=
  if negb (CanFrame.raw_id frame =? LSS_REQUEST_COB) || (CanFrame.raw_dlc frame <? 8)
  then mret (s, None)
  else
    let data := CanFrame.data frame in
    let cmd := at_ data 0 in
    let conf := bool_decide (ls_mode s = LssConfiguration) in
    if cmd =? cs.SWITCH_MODE_GLOBAL then
      let new_mode := at_ data 1 in
      mret (if new_mode =? 0 then with_step (with_mode s LssWaiting) 0
            else if new_mode =? 1 then with_mode s LssConfiguration
            else s, None)
    else if ((cmd =? cs.SWITCH_VENDOR) || (cmd =? cs.SWITCH_PRODUCT)
             || (cmd =? cs.SWITCH_REVISION) || (cmd =? cs.SWITCH_SERIAL))
            && bool_decide (ls_mode s = LssWaiting) then
      mret (switch_selective s cmd data)
    else if (cmd =? cs.CONFIGURE_NODE_ID) && conf then mret (configure_node_id s (at_ data 1))
    else if (cmd =? cs.STORE_CONFIGURATION) && conf then
      mret (with_event s StoreConfiguration, make_response (resp2 cs.STORE_CONFIGURATION 0))
    else if (cmd =? cs.INQUIRE_VENDOR) && conf then inquire s cmd (vendor_id (ls_identity s))
    else if (cmd =? cs.INQUIRE_PRODUCT) && conf then inquire s cmd (product_code (ls_identity s))
    else if (cmd =? cs.INQUIRE_REVISION) && conf then inquire s cmd (revision (ls_identity s))
    else if (cmd =? cs.INQUIRE_SERIAL) && conf then inquire s cmd (serial (ls_identity s))
    else if (cmd =? cs.INQUIRE_NODE_ID) && conf then
      mret (s, make_response (resp2 cs.INQUIRE_NODE_ID (ls_node_id s)))
    else mret (s, None).

End LssSlave.

(** The slave over a series of frames, with its answers in order. *)
Fixpoint run_lss (s : LssSlave) (frames : list CanFrame) : exec (LssSlave * list CanFrame) :=
  match frames with
  | [] => mret (s, [])
  | f :: frames =>
      '(s, r) ← LssSlave.process s f;
      '(s, rs) ← run_lss s frames;
      mret (s, option_list r ++ rs)
  end.

(** ** Selective switching *)

(** A request the slave serves: its command and its 32-bit argument. *)
Definition lss_served (f : CanFrame) : bool :=
  (cf_id f =? LSS_REQUEST_COB) && (8 <=? cf_dlc f).

Definition lss_cmd (f : CanFrame) : Z := at_ (CanFrame.data f) 0.
Definition lss_arg (f : CanFrame) : Z :=
  let d := CanFrame.data f in from_le_bytes [at_ d 1; at_ d 2; at_ d 3; at_ d 4].

(** The selective-switch requests among some frames. *)
Definition selective (f : CanFrame) : bool := lss_served f && in_range 0x40 0x43 (lss_cmd f).

Definition selective_requests (fs : list CanFrame) : list (Z * Z) :=
  (λ f, (lss_cmd f, lss_arg f)) <$> filter selective fs.

(** The four requests that select a device. *)
Definition selection (i : LssIdentity) : list (Z * Z) :=
  [(0x40, vendor_id i); (0x41, product_code i); (0x42, revision i); (0x43, serial i)].

(** They were received one after the other, no other selective request between. *)
Definition occurs {A} (pattern l : list A) : Prop := ∃ pre post, l = pre ++ pattern ++ post.

Definition global_switch (f : CanFrame) : bool := lss_served f && (lss_cmd f =? 0x04).

Section occurs_lemmas.
Context {A : Type}.
Implicit Types p l : list A.

Lemma suffix_snoc_iff p l x y : (p ++ [x]) `suffix_of` (l ++ [y]) ↔ p `suffix_of` l ∧ x = y.
Proof.
  split.
  - intros H. split; [by eapply suffix_snoc_inv_2|by eapply suffix_snoc_inv_1].
  - intros [[k ->] ->]. exists k. by rewrite app_assoc.
Qed.

Lemma occurs_snoc p l x : occurs p (l ++ [x]) ↔ occurs p l ∨ p `suffix_of` (l ++ [x]).
Proof.
  split.
  - intros (pre & post & H). destruct post as [|y post _] using rev_ind.
    + right. exists pre. by rewrite app_nil_r in H.
    + left. rewrite !app_assoc in H. apply app_inj_2 in H as [H _]; [|done].
      exists pre, post. by rewrite <- app_assoc in H.
  - intros [(pre & post & ->)|[k Hk]].
    + exists pre, (post ++ [x]). by rewrite !app_assoc.
    + exists k, []. by rewrite app_nil_r.
Qed.
End occurs_lemmas.

(** What the slave remembers of the requests it has seen. *)
Definition lss_inv (i : LssIdentity) (seen : list (Z * Z)) (s : LssSlave) : Prop :=
  ls_identity s = i ∧
  match ls_mode s with
  | LssConfiguration => occurs (selection i) seen
  | LssWaiting =>
      ¬ occurs (selection i) seen ∧ 0 ≤ selective_step s ≤ 3 ∧
      ([(0x40, vendor_id i)] `suffix_of` seen ↔ selective_step s = 1) ∧
      ([(0x40, vendor_id i); (0x41, product_code i)] `suffix_of` seen ↔ selective_step s = 2) ∧
      ([(0x40, vendor_id i); (0x41, product_code i); (0x42, revision i)] `suffix_of` seen
       ↔ selective_step s = 3)
  end.

(** One selective request against the pattern. *)
Lemma selection_snoc i seen c v :
  let seen' := seen ++ [(c, v)] in
  ([(0x40, vendor_id i)] `suffix_of` seen' ↔ 0x40 = c ∧ vendor_id i = v) ∧
  ([(0x40, vendor_id i); (0x41, product_code i)] `suffix_of` seen' ↔
     [(0x40, vendor_id i)] `suffix_of` seen ∧ 0x41 = c ∧ product_code i = v) ∧
  ([(0x40, vendor_id i); (0x41, product_code i); (0x42, revision i)] `suffix_of` seen' ↔
     [(0x40, vendor_id i); (0x41, product_code i)] `suffix_of` seen ∧ 0x42 = c ∧ revision i = v) ∧
  (occurs (selection i) seen' ↔
     occurs (selection i) seen ∨
     [(0x40, vendor_id i); (0x41, product_code i); (0x42, revision i)] `suffix_of` seen ∧
     0x43 = c ∧ serial i = v).
Proof.
  intros seen'. unfold seen'. rewrite occurs_snoc.
  pose proof (λ p x, suffix_snoc_iff p seen x (c, v)) as Hs.
  pose proof (Hs [] (0x40, vendor_id i)) as H0.
  pose proof (Hs [(0x40, vendor_id i)] (0x41, product_code i)) as H1.
  pose proof (Hs [(0x40, vendor_id i); (0x41, product_code i)] (0x42, revision i)) as H2.
  pose proof (Hs [(0x40, vendor_id i); (0x41, product_code i); (0x42, revision i)] (0x43, serial i)) as H3.
  cbn [app] in H0, H1, H2, H3. unfold selection.
  rewrite H0, H1, H2, H3, !pair_equal_spec. pose proof (suffix_nil seen). tauto.
Qed.

Lemma lss_select_step i seen s f :
  lss_inv i seen s → ls_mode s = LssWaiting → in_range 0x40 0x43 (lss_cmd f) = true →
  let '(s', r) := LssSlave.switch_selective s (lss_cmd f) (CanFrame.data f) in
  lss_inv i (seen ++ [(lss_cmd f, lss_arg f)]) s' ∧ ls_node_id s' = ls_node_id s ∧
  (ls_mode s' = LssWaiting → r = None).
Proof.
  intros [Hi Hm] Hw Hr. rewrite Hw in Hm. destruct Hm as (Hn & Hk & H1 & H2 & H3).
  pose proof (selection_snoc i seen (lss_cmd f) (lss_arg f)) as (E1 & E2 & E3 & E4).
  unfold LssSlave.switch_selective. fold (lss_arg f). rewrite Hi.
  set (c := lss_cmd f) in *. set (v := lss_arg f) in *. clearbody c v.
  unfold in_range in Hr.
  assert (c = 0x40 ∨ c = 0x41 ∨ c = 0x42 ∨ c = 0x43) as [->|[->|[->| ->]]] by lia;
    cbv [cs.SWITCH_VENDOR cs.SWITCH_PRODUCT cs.SWITCH_REVISION LssSlave.with_step LssSlave.with_mode];
    cbn [Z.eqb Pos.eqb Z.ltb Z.compare Pos.compare Pos.compare_cont Z.add Pos.add negb orb selective_step];
    match goal with |- context [v =? ?e] => destruct (Z.eqb_spec v e) as [->|] end;
    try match goal with |- context [selective_step s =? ?e] => destruct (Z.eqb_spec (selective_step s) e) end;
    cbn [negb orb andb ls_node_id ls_mode ls_identity];
    (split; [|split; [done|try done; try congruence]]); unfold lss_inv;
    cbn [ls_mode ls_identity selective_step];
    rewrite ?Hw, ?E1, ?E2, ?E3, ?E4; (split; [exact Hi|]);
    try (split_and!; intuition lia).
  right. rewrite H3. tauto.
Qed.

Lemma lss_inv_configured i seen reqs s :
  lss_inv i seen s → ls_mode s = LssConfiguration → lss_inv i (seen ++ reqs) s.
Proof.
  intros [Hi Hm] Hc. split; [done|]. rewrite Hc in *. destruct Hm as (pre & post & ->).
  exists pre, (post ++ reqs). by rewrite !app_assoc.
Qed.

Lemma inquire_eq s cmd v :
  LssSlave.inquire s cmd v =
    Ret (s, LssSlave.make_response (cmd :: to_le_bytes 4 v ++ [0; 0; 0])).
Proof. unfold LssSlave.inquire. by rewrite copy_from_slice_ret by (rewrite ?length_to_le; done). Qed.

(** In configuration mode, one frame that is not a global switch. *)
Lemma lss_configured_step s f :
  ls_mode s = LssConfiguration → global_switch f = false →
  ∃ s' r, LssSlave.process s f = Ret (s', r) ∧
    ls_identity s' = ls_identity s ∧ ls_mode s' = LssConfiguration.
Proof.
  intros Hc Hg. unfold LssSlave.process, global_switch, lss_served, lss_cmd in *.
  unfold CanFrame.raw_id, CanFrame.raw_dlc. rewrite Hc.
  destruct (Z.eqb_spec (cf_id f) LSS_REQUEST_COB), (Z.ltb_spec (cf_dlc f) 8); cbn [negb orb andb] in *;
    try by (do 2 eexists; split; [reflexivity|]).
  rewrite (proj2 (Z.leb_le _ _)) in Hg by lia. cbn [andb] in Hg.
  change (at_ (CanFrame.data f) 0 =? cs.SWITCH_MODE_GLOBAL) with (at_ (CanFrame.data f) 0 =? 4).
  rewrite Hg. change (bool_decide (LssConfiguration = LssWaiting)) with false.
  change (bool_decide (LssConfiguration = LssConfiguration)) with true. rewrite andb_false_r.
  rewrite !inquire_eq. unfold LssSlave.configure_node_id.
  repeat case_match; do 2 eexists; (split; [reflexivity|]); done.
Qed.

Lemma selective_requests_one f :
  selective_requests [f] = if selective f then [(lss_cmd f, lss_arg f)] else [].
Proof. unfold selective_requests. rewrite filter_cons. case_decide; destruct (selective f); done. Qed.

Lemma lss_step i seen s f :
  lss_inv i seen s → global_switch f = false →
  ∃ s' r, LssSlave.process s f = Ret (s', r) ∧ lss_inv i (seen ++ selective_requests [f]) s' ∧
    (ls_mode s' = LssWaiting → ls_mode s = LssWaiting ∧ r = None ∧ ls_node_id s' = ls_node_id s).
Proof.
  intros Hinv Hg. rewrite selective_requests_one. destruct (ls_mode s) eqn:Hm.
  - assert (LssSlave.process s f =
      mret (if selective f then LssSlave.switch_selective s (lss_cmd f) (CanFrame.data f) else (s, None))) as ->.
    { unfold LssSlave.process, selective, global_switch, lss_served, lss_cmd, in_range in *.
      unfold CanFrame.raw_id, CanFrame.raw_dlc. rewrite Hm.
      change (bool_decide (LssWaiting = LssWaiting)) with true.
      change (bool_decide (LssWaiting = LssConfiguration)) with false. rewrite !andb_false_r, andb_true_r.
      destruct (Z.eqb_spec (cf_id f) LSS_REQUEST_COB), (Z.ltb_spec (cf_dlc f) 8); cbn [negb orb andb] in *;
        try (rewrite (proj2 (Z.leb_gt _ _)) by lia); try done.
      rewrite (proj2 (Z.leb_le _ _)) in * by lia. cbn [andb] in *.
      unfold cs.SWITCH_MODE_GLOBAL, cs.SWITCH_VENDOR, cs.SWITCH_PRODUCT, cs.SWITCH_REVISION, cs.SWITCH_SERIAL.
      set (c := at_ (CanFrame.data f) 0) in *. rewrite Hg.
      destruct (Z.leb_spec 64 c), (Z.leb_spec c 67), (Z.eqb_spec c 64), (Z.eqb_spec c 65),
        (Z.eqb_spec c 66), (Z.eqb_spec c 67); try lia; done. }
    destruct (selective f) eqn:Hs.
    + assert (in_range 0x40 0x43 (lss_cmd f) = true) as Hr.
      { unfold selective in Hs. by apply andb_true_iff in Hs as [_ ?]. }
      pose proof (lss_select_step i seen s f Hinv Hm Hr) as H.
      destruct (LssSlave.switch_selective _ _ _) as [s' r]. destruct H as (H1 & H2 & H3).
      exists s', r. split; [done|]. split; [done|]. intros Hw. by rewrite H3.
    + exists s, None. rewrite app_nil_r. done.
  - destruct (lss_configured_step s f Hm Hg) as (s' & r & Hp & Hid & Hm'). exists s', r.
    split; [done|]. split; [|congruence].
    assert (lss_inv i (seen ++ if selective f then [(lss_cmd f, lss_arg f)] else []) s) as [Hi Hc].
    { by apply lss_inv_configured. }
    split; [congruence|]. rewrite Hm' in *. by rewrite Hm in Hc.
Qed.

Lemma run_lss_cons s f fs s' r :
  LssSlave.process s f = Ret (s', r) →
  run_lss s (f :: fs) = '(s, rs) ← run_lss s' fs; mret (s, option_list r ++ rs).
Proof. cbn [run_lss]. by intros ->. Qed.

Lemma selective_requests_cons f fs :
  selective_requests (f :: fs) = selective_requests [f] ++ selective_requests fs.
Proof. unfold selective_requests. rewrite !filter_cons. case_decide; done. Qed.

Lemma run_lss_inv i seen s fs :
  lss_inv i seen s → Forall (λ f, global_switch f = false) fs →
  runs (run_lss s fs) (λ '(s', rs), lss_inv i (seen ++ selective_requests fs) s' ∧
    (ls_mode s' = LssWaiting → ls_mode s = LssWaiting ∧ rs = [] ∧ ls_node_id s' = ls_node_id s)).
Proof.
  intros Hinv Hg. revert seen s Hinv. induction Hg as [|f fs Hf _ IH]; intros seen s Hinv.
  { cbn. rewrite app_nil_r. done. }
  destruct (lss_step i seen s f Hinv Hf) as (s1 & r & Hp & Hinv1 & Hw).
  rewrite (run_lss_cons _ _ _ _ _ Hp), selective_requests_cons, app_assoc.
  eapply runs_bind; [exact (IH _ _ Hinv1)|]. intros [s' rs] [H1 H2]. split; [done|].
  intros Hw'. destruct (H2 Hw') as (Hm & -> & Hn). destruct (Hw Hm) as (? & -> & ?).
  split_and!; [done|done|congruence].
Qed.

(** Selective switching: as long as no global switch command arrives, an
    LSS slave enters configuration mode exactly when the selective-switch
    requests it received contain its vendor id, product code, revision and
    serial number in this order with no other selective request between them.
    Until then it answers nothing and keeps its node id; it never panics. *)
Theorem lss_selected_by_identity i node fs :
  Forall (λ f, global_switch f = false) fs →
  runs (run_lss (LssSlave.new i node) fs) (λ '(s, rs),
    (ls_mode s = LssConfiguration ↔ occurs (selection i) (selective_requests fs)) ∧
    (ls_mode s = LssWaiting → rs = [] ∧ ls_node_id s = node)).
Proof.
  intros Hg. assert (lss_inv i [] (LssSlave.new i node)) as Hinv.
  { assert (∀ (x : Z * Z) l, (x :: l) `suffix_of` [] ↔ False) as Hnil.
    { intros x l. split; [|done]. intros H%suffix_length. simpl in H. lia. }
    split; [done|]. simpl. rewrite !Hnil. split_and!; try lia.
    intros (pre & post & H). destruct pre; discriminate H. }
  eapply runs_mono; [exact (run_lss_inv i [] _ fs Hinv Hg)|].
  intros [s rs] [[_ Hm] Hw]. cbn [app] in Hm. destruct (ls_mode s).
  - destruct (Hw eq_refl) as (_ & -> & ->). split; [|done]. split; [done|]. by intros ?%Hm.
  - done.
Qed.

Definition demo_identity : LssIdentity := mkIdentity 0x1111 0x2222 3 0x44556677.

(** A vendor request that is overtaken, then the full sequence. *)
Definition demo_lss_frames : list CanFrame :=
  (λ d, mkCanFrame 0x7E5 8 d) <$>
  [ [0x40; 0x11; 0x11; 0; 0; 0; 0; 0]; [0x42; 3; 0; 0; 0; 0; 0; 0];
    [0x40; 0x11; 0x11; 0; 0; 0; 0; 0]; [0x41; 0x22; 0x22; 0; 0; 0; 0; 0];
    [0x42; 3; 0; 0; 0; 0; 0; 0]; [0x43; 0x77; 0x66; 0x55; 0x44; 0; 0; 0];
    [0x11; 9; 0; 0; 0; 0; 0; 0] ].

Lemma lss_selected_by_identity_witness :
  (∃ s r1 r2, run_lss (LssSlave.new demo_identity 0xFF) demo_lss_frames = Ret (s, [r1; r2]) ∧
     ls_node_id s = 9 ∧ CanFrame.data r1 = [0x44; 0; 0; 0; 0; 0; 0; 0]) ∧
  runs (run_lss (LssSlave.new demo_identity 0xFF) demo_lss_frames) (λ '(s, rs),
    (ls_mode s = LssConfiguration ↔
       occurs (selection demo_identity) (selective_requests demo_lss_frames)) ∧
    (ls_mode s = LssWaiting → rs = [] ∧ ls_node_id s = 0xFF)).
Proof.
  split; [do 3 eexists; split; [vm_compute; reflexivity|split; reflexivity]|].
  apply (lss_selected_by_identity demo_identity 0xFF demo_lss_frames).
  repeat (apply List.Forall_cons; [reflexivity|]). apply List.Forall_nil.
Defined.

(** ** What the other services may do *)

(** A node id the slave accepts: 1 to 127, or 255 for "unconfigured". *)
Definition lss_id (n : Z) : Prop := 1 ≤ n ≤ 127 ∨ n = 255.

(** The answer of a service: its command byte and four bytes of data. *)
Definition lss_answer (r : option CanFrame) (data : list Z) : Prop :=
  ∃ f, r = Some f ∧ cf_id f = LSS_RESPONSE_COB ∧ CanFrame.data f = data.

Lemma make_response_answer data : len data = 8 → lss_answer (LssSlave.make_response data) data.
Proof.
  intros H. unfold lss_answer, LssSlave.make_response. rewrite CanFrame_new_ok by (unfold LSS_RESPONSE_COB; lia).
  eexists. split_and!; [done..|]. unfold CanFrame.data. cbn [cf_dlc cf_data]. rewrite H.
  change (zeros (8 - 8)) with (@nil Z). rewrite app_nil_r. apply take_ge. lia.
Qed.

Definition lss_identity_field (i : LssIdentity) (cmd : Z) : option Z :=
  if cmd =? 0x5A then Some (vendor_id i)
  else if cmd =? 0x5B then Some (product_code i)
  else if cmd =? 0x5C then Some (revision i)
  else if cmd =? 0x5D then Some (serial i)
  else None.

Lemma process_unserved s f : lss_served f = false → LssSlave.process s f = Ret (s, None).
Proof.
  intros Hs. unfold LssSlave.process, lss_served, CanFrame.raw_id, CanFrame.raw_dlc in *.
  destruct (Z.eqb_spec (cf_id f) LSS_REQUEST_COB), (Z.ltb_spec (cf_dlc f) 8); try done.
  by rewrite (proj2 (Z.leb_le _ _)) in Hs by lia.
Qed.

Lemma process_waiting s f :
  lss_served f = true → ls_mode s = LssWaiting →
  LssSlave.process s f = Ret (
    if lss_cmd f =? 4 then
      (if at_ (CanFrame.data f) 1 =? 0 then LssSlave.with_step (LssSlave.with_mode s LssWaiting) 0
       else if at_ (CanFrame.data f) 1 =? 1 then LssSlave.with_mode s LssConfiguration
       else s, None)
    else if in_range 0x40 0x43 (lss_cmd f)
      then LssSlave.switch_selective s (lss_cmd f) (CanFrame.data f)
    else (s, None)).
Proof.
  intros [Hid Hd]%andb_true_iff Hm. unfold LssSlave.process, CanFrame.raw_id, CanFrame.raw_dlc.
  rewrite Hid, Hm. rewrite (proj2 (Z.ltb_ge _ _)) by lia. cbn [negb orb].
  change (bool_decide (LssWaiting = LssWaiting)) with true.
  change (bool_decide (LssWaiting = LssConfiguration)) with false. rewrite !andb_false_r, andb_true_r.
  change (at_ (CanFrame.data f) 0) with (lss_cmd f). unfold in_range.
  unfold cs.SWITCH_MODE_GLOBAL, cs.SWITCH_VENDOR, cs.SWITCH_PRODUCT, cs.SWITCH_REVISION, cs.SWITCH_SERIAL.
  destruct (Z.eqb_spec (lss_cmd f) 4); [done|].
  destruct (Z.leb_spec 64 (lss_cmd f)), (Z.leb_spec (lss_cmd f) 67), (Z.eqb_spec (lss_cmd f) 64),
    (Z.eqb_spec (lss_cmd f) 65), (Z.eqb_spec (lss_cmd f) 66), (Z.eqb_spec (lss_cmd f) 67); try lia; done.
Qed.

Lemma switch_selective_effect s c d :
  let '(s', r) := LssSlave.switch_selective s c d in
  ls_identity s' = ls_identity s ∧ ls_node_id s' = ls_node_id s ∧ ls_pending s' = ls_pending s ∧
  (r ≠ None → ls_mode s' = LssConfiguration ∧ lss_answer r [0x44; 0; 0; 0; 0; 0; 0; 0]).
Proof.
  unfold LssSlave.switch_selective. pose proof (make_response_answer [0x44; 0; 0; 0; 0; 0; 0; 0] eq_refl).
  repeat case_match; simplify_eq; split_and!; done.
Qed.

(** What the configuration services do, by command. *)
Definition lss_service (s : LssSlave) (cmd arg1 : Z) (s' : LssSlave) (r : option CanFrame) : Prop :=
  (cmd = 0x11 → ∃ code, lss_answer r [0x11; code; 0; 0; 0; 0; 0; 0] ∧
     (code = 0 ∧ lss_id arg1 ∧ ls_node_id s' = arg1 ∨ code = 1 ∧ ¬ lss_id arg1 ∧ s' = s)) ∧
  (cmd = 0x17 → ls_pending s' = Some StoreConfiguration ∧ lss_answer r [0x17; 0; 0; 0; 0; 0; 0; 0]) ∧
  (∀ v, lss_identity_field (ls_identity s) cmd = Some v →
     s' = s ∧ lss_answer r (cmd :: to_le_bytes 4 v ++ [0; 0; 0])) ∧
  (cmd = 0x5E → s' = s ∧ lss_answer r [0x5E; ls_node_id s; 0; 0; 0; 0; 0; 0]).

Lemma configure_node_id_effect s n :
  let '(s', r) := LssSlave.configure_node_id s n in
  ls_identity s' = ls_identity s ∧
  (ls_node_id s' ≠ ls_node_id s →
     ls_node_id s' = n ∧ lss_id n ∧ ls_pending s' = Some (NodeIdConfigured n)) ∧
  ∃ code, lss_answer r [0x11; code; 0; 0; 0; 0; 0; 0] ∧
    (code = 0 ∧ lss_id n ∧ ls_node_id s' = n ∨ code = 1 ∧ ¬ lss_id n ∧ s' = s).
Proof.
  assert (∀ code, lss_answer (LssSlave.make_response (LssSlave.resp2 cs.CONFIGURE_NODE_ID code))
    [0x11; code; 0; 0; 0; 0; 0; 0]) as Ha by (intros; by apply make_response_answer).
  unfold LssSlave.configure_node_id, lss_id.
  destruct (Z.leb_spec 1 n), (Z.leb_spec n 127), (Z.eqb_spec n 0xFF); try lia;
    cbn [andb LssSlave.with_event LssSlave.with_node_id ls_identity ls_node_id ls_pending];
    (split_and!; [done|first [done|intros _; split_and!; [done|lia|done]]|]); eexists; (split; [apply Ha|]);
    first [left; split_and!; [done|lia|done]|right; split_and!; [done|lia|done]].
Qed.

(** Configuration mode; the arms in the order of the source. *)
Lemma process_configured s f :
  lss_served f = true → ls_mode s = LssConfiguration →
  runs (LssSlave.process s f) (λ '(s', r),
    ls_identity s' = ls_identity s ∧
    (ls_node_id s' ≠ ls_node_id s →
       lss_cmd f = 0x11 ∧ ls_node_id s' = at_ (CanFrame.data f) 1 ∧ lss_id (ls_node_id s') ∧
       ls_pending s' = Some (NodeIdConfigured (ls_node_id s'))) ∧
    lss_service s (lss_cmd f) (at_ (CanFrame.data f) 1) s' r).
Proof.
  intros [Hid Hd]%andb_true_iff Hm. unfold LssSlave.process, CanFrame.raw_id, CanFrame.raw_dlc.
  rewrite Hid, Hm. rewrite (proj2 (Z.ltb_ge _ _)) by lia. cbn [negb orb].
  change (bool_decide (LssConfiguration = LssWaiting)) with false.
  change (bool_decide (LssConfiguration = LssConfiguration)) with true. rewrite !andb_false_r, !andb_true_r.
  change (at_ (CanFrame.data f) 0) with (lss_cmd f). rewrite !inquire_eq.
  assert (∀ c v, lss_answer (LssSlave.make_response (c :: to_le_bytes 4 v ++ [0; 0; 0]))
    (c :: to_le_bytes 4 v ++ [0; 0; 0])) as Hinq.
  { intros. apply make_response_answer. cbn [length]. rewrite length_app, length_to_le. done. }
  pose proof (configure_node_id_effect s (at_ (CanFrame.data f) 1)) as Hconf.
  unfold lss_service, lss_identity_field.
  unfold cs.SWITCH_MODE_GLOBAL, cs.CONFIGURE_NODE_ID, cs.STORE_CONFIGURATION, cs.INQUIRE_VENDOR,
    cs.INQUIRE_PRODUCT, cs.INQUIRE_REVISION, cs.INQUIRE_SERIAL, cs.INQUIRE_NODE_ID.
  destruct (Z.eqb_spec (lss_cmd f) 4) as [->|]; [rstep; repeat case_match; cbn; split_and!; done|].
  destruct (Z.eqb_spec (lss_cmd f) 17) as [->|].
  { rstep. destruct (LssSlave.configure_node_id _ _) as [s' r]. destruct Hconf as (? & Hn & ?).
    split; [done|]. split; [intros Hne; by destruct (Hn Hne) as (-> & ? & ?)|]. split_and!; done. }
  destruct (Z.eqb_spec (lss_cmd f) 23) as [->|].
  { rstep. split; [done|]. split; [done|]. split_and!; try done. intros _. split; [done|].
    by apply make_response_answer. }
  destruct (Z.eqb_spec (lss_cmd f) 94) as [->|].
  { rstep. split; [done|]. split; [done|]. split_and!; try done. intros _. split; [done|].
    by apply make_response_answer. }
  repeat match goal with
  | |- context [if lss_cmd f =? ?k then _ else _] => destruct (Z.eqb_spec (lss_cmd f) k) as [->|]
  end; rstep; (split; [done|split; [done|]]); split_and!; try done; intros v [= <-]; done.
Qed.

(** The configuration services act in configuration mode only: a node id
    changes only by a Configure Node-ID request of a value in 1..127 or 255,
    which is acknowledged with 0 and announced to the application; another
    value is refused with 1 and changes nothing; Store Configuration and the
    inquiries answer with what they are asked for; in waiting mode nothing but
    a completed selection is answered. *)
Theorem lss_services_gated s f :
  runs (LssSlave.process s f) (λ '(s', r),
    ls_identity s' = ls_identity s ∧
    (ls_node_id s' ≠ ls_node_id s →
       ls_mode s = LssConfiguration ∧ lss_served f = true ∧ lss_cmd f = 0x11 ∧
       ls_node_id s' = at_ (CanFrame.data f) 1 ∧ lss_id (ls_node_id s') ∧
       ls_pending s' = Some (NodeIdConfigured (ls_node_id s'))) ∧
    (ls_mode s = LssConfiguration → lss_served f = true →
       lss_service s (lss_cmd f) (at_ (CanFrame.data f) 1) s' r) ∧
    (ls_mode s = LssWaiting →
       ls_pending s' = ls_pending s ∧
       (r ≠ None → ls_mode s' = LssConfiguration ∧ lss_answer r [0x44; 0; 0; 0; 0; 0; 0; 0]))).
Proof.
  destruct (lss_served f) eqn:Hs.
  2: { rewrite process_unserved by done. cbn. split_and!; done. }
  destruct (ls_mode s) eqn:Hm.
  - rewrite process_waiting by done. cbn [runs].
    destruct (lss_cmd f =? 4) eqn:Hc; [repeat case_match; cbn; split_and!; done|].
    destruct (in_range 0x40 0x43 (lss_cmd f)); [|cbn; split_and!; done].
    pose proof (switch_selective_effect s (lss_cmd f) (CanFrame.data f)) as H.
    destruct (LssSlave.switch_selective _ _ _) as [s' r]. destruct H as (H1 & H2 & H3 & H4).
    split_and!; [done|congruence|done|done].
  - eapply runs_mono; [by apply process_configured|]. intros [s' r] (H1 & H2 & H3).
    split_and!; [done| |done|done]. intros H. destruct (H2 H) as (? & ? & ? & ?). done.
Qed.
