(* ===== verification/Events.v ===== *)
(** * Decoding of bus traffic

    [canopen-core/src/events.rs]: the typed view of a frame under the
    pre-defined connection set.  [carries] is its specification. *)
From S2P Require Import Prelude Frame Nmt Emcy PdoBits.

Inductive CanOpenEvent :=
| EvNmt (command : Z) (target : option Z)
| EvSync
| EvEmcy (m : EmcyMessage)
| EvHeartbeat (node : Z) (state : NmtState)
| EvTpdo (pdo_num node : Z) (data : list Z) (len : Z)
| EvRpdo (pdo_num node : Z) (data : list Z) (len : Z)
| EvSdoResponse (node : Z) (data : list Z)
| EvSdoRequest (node : Z) (data : list Z).

Definition copy_payload (data : list Z) : exec (list Z * Z) :=
  let n := Z.min (len data) 8 in
  v ← slice data 0 n;
  payload ← copy_from_slice (zeros 8) 0 n v;
  mret (payload, as_u8 n).

Module CanOpenEvent.

Definition decode (frame : CanFrame) : exec (option CanOpenEvent) :=
  match CobId.new (CanFrame.raw_id frame) with
  | None => mret None
  | Some cob =>
      let data := CanFrame.data frame in
      match CobId.parse cob with
      | Nmt =>
          if len data <? 2 then mret None
          else if at_ data 1 =? 0 then mret (Some (EvNmt (at_ data 0) None))
          else match NodeId.new (at_ data 1) with
               | None => mret None
               | Some n => mret (Some (EvNmt (at_ data 0) (Some n)))
               end
      | Sync => mret (Some EvSync)
      | Emergency _ => m ← EmcyMessage.parse frame; mret (EvEmcy <$> (m : option EmcyMessage))
      | Heartbeat node =>
          mret (b ← head data; state ← NmtState.from_heartbeat_byte b; Some (EvHeartbeat node state))
      | Tpdo pdo_num node => '(payload, n) ← copy_payload data; mret (Some (EvTpdo pdo_num node payload n))
      | Rpdo pdo_num node => '(payload, n) ← copy_payload data; mret (Some (EvRpdo pdo_num node payload n))
      | SdoResponse node => mret (EvSdoResponse node <$> try_into8 data)
      | SdoRequest node => mret (EvSdoRequest node <$> try_into8 data)
      | Unknown _ => mret None
      end
  end.

Definition node (ev : CanOpenEvent) : option Z :=
  match ev with
  | EvNmt _ target => target
  | EvSync => None
  | EvEmcy msg => Some (em_node msg)
  | EvHeartbeat node _ | EvTpdo _ node _ _ | EvRpdo _ node _ _
  | EvSdoResponse node _ | EvSdoRequest node _ => Some node
  end.

Definition matches_node (ev : CanOpenEvent) (n : Z) : bool :=
  match ev with
  | EvNmt _ None => true
  | EvSync => false
  | _ => bool_decide (node ev = Some n)
  end.

End CanOpenEvent.

(** ** What an event says of a frame *)

(** The service and node an event is about, as an identifier. *)
Definition event_cob (ev : CanOpenEvent) : ParsedCobId :=
  match ev with
  | EvNmt _ _ => Nmt
  | EvSync => Sync
  | EvEmcy m => Emergency (em_node m)
  | EvHeartbeat n _ => Heartbeat n
  | EvTpdo k n _ _ => Tpdo k n
  | EvRpdo k n _ _ => Rpdo k n
  | EvSdoResponse n _ => SdoResponse n
  | EvSdoRequest n _ => SdoRequest n
  end.

(** The payload an event stands for. *)
Definition event_payload (ev : CanOpenEvent) (d : list Z) : Prop :=
  match ev with
  | EvNmt c t => ∃ b rest, d = c :: b :: rest ∧
      match t with None => b = 0 | Some n => b = n ∧ wf_node n end
  | EvSync => True
  | EvEmcy m => is_u16 (em_error_code m) ∧ len (em_vendor_data m) = 5 ∧
      d = to_le_bytes 2 (em_error_code m) ++ em_error_register m :: em_vendor_data m
  | EvHeartbeat _ s => head d = Some (NmtState.heartbeat_byte s)
  | EvTpdo _ _ p n | EvRpdo _ _ p n => n = len d ∧ p = d ++ zeros (8 - len d)
  | EvSdoResponse _ p | EvSdoRequest _ p => len d = 8 ∧ p = d
  end.

Definition carries (ev : CanOpenEvent) (f : CanFrame) : Prop :=
  wf_parsed (event_cob ev) ∧ CobId.construct (event_cob ev) = Some (cf_id f) ∧
  event_payload ev (CanFrame.data f).

Lemma copy_payload_eq d :
  (length d ≤ 8)%nat → copy_payload d = Ret (d ++ zeros (8 - len d), len d).
Proof.
  intros Hl. unfold copy_payload. rewrite Z.min_l by lia. rewrite slice_prefix by lia. rstep.
  rewrite Nat2Z.id, take_ge by lia. rewrite copy_from_slice_ret by (rewrite ?len_zeros; lia). rstep.
  rewrite (wrap_id 8) by (unfold is_uint; lia). simpl take.
  unfold zeros. rewrite drop_replicate, Nat2Z.id. by replace (Z.to_nat 8 - length d)%nat with (Z.to_nat (8 - len d)) by lia.
Qed.

Lemma data_length f : wf_frame f → (length (CanFrame.data f) ≤ 8)%nat.
Proof. intros Hf. pose proof (length_data f Hf). destruct Hf as (_ & ? & _). lia. Qed.

(** An emergency frame and its message. *)
Lemma emcy_parse_eq f n :
  wf_frame f → CobId.parse (cf_id f) = Emergency n →
  EmcyMessage.parse f = Ret (
    if len (CanFrame.data f) <? 8 then None
    else let d := CanFrame.data f in
      Some (mkEmcy n (from_le_bytes (take 2 d)) (at_ d 2) (drop 3 d))).
Proof.
  intros Hf Hp. unfold EmcyMessage.parse, CanFrame.raw_id, CobId.new.
  pose proof Hf as (Hid & _ & _). rewrite (proj2 (Z.leb_le _ _)) by lia. rewrite Hp.
  destruct (Z.ltb_spec (len (CanFrame.data f)) 8); [done|]. pose proof (data_length f Hf).
  destruct (CanFrame.data f) as [|a [|b [|c [|d [|e [|g [|h [|i [|]]]]]]]]]; simpl in *; try lia.
  done.
Qed.

Lemma nmt_event_spec d :
  ∃ o, (if len d <? 2 then mret None
        else if at_ d 1 =? 0 then mret (Some (EvNmt (at_ d 0) None))
        else match NodeId.new (at_ d 1) with
             | None => mret None
             | Some n => mret (Some (EvNmt (at_ d 0) (Some n)))
             end) = Ret (o : option CanOpenEvent) ∧
    ∀ ev, o = Some ev ↔ event_cob ev = Nmt ∧ event_payload ev d.
Proof.
  assert (∀ ev, event_cob ev = Nmt ∧ event_payload ev d → ∃ c t b rest, ev = EvNmt c t ∧ d = c :: b :: rest ∧
    match t with None => b = 0 | Some n => b = n ∧ wf_node n end) as Hinv.
  { intros ev [He Hp]. destruct ev; simplify_eq/=. destruct Hp as (b & rest & -> & Ht). by do 4 eexists. }
  destruct (Z.ltb_spec (len d) 2).
  { eexists. split; [done|]. intros ev. split; [done|]. intros He.
    destruct (Hinv ev He) as (c & t & b & rest & _ & -> & _). simpl in *. lia. }
  destruct d as [|c [|b rest]]; [simpl in *; lia..|]. cbn [at_ nth].
  destruct (Z.eqb_spec b 0) as [->|Hb]; [|destruct (NodeId.new b) as [n|] eqn:Hn];
    (eexists; split; [reflexivity|]; intros ev; split).
  - intros [= <-]. split; [done|]. by exists 0, rest.
  - intros He. destruct (Hinv ev He) as (c' & [n|] & b' & rest' & -> & [= -> <- ->] & Ht); [|done].
    destruct Ht as [<- Ht]. unfold wf_node in Ht. lia.
  - apply NodeId_new_Some in Hn as [-> Hw]. intros [= <-]. split; [done|]. by exists b, rest.
  - apply NodeId_new_Some in Hn as [-> Hw]. intros He.
    destruct (Hinv ev He) as (c' & [n|] & b' & rest' & -> & [= -> <- ->] & Ht); [|done].
    by destruct Ht as [<- Ht].
  - done.
  - intros He. destruct (Hinv ev He) as (c' & [n|] & b' & rest' & -> & [= -> <- ->] & Ht); [|done].
    destruct Ht as [<- Ht]. assert (NodeId.new b = Some b) by (by apply NodeId_new_Some). congruence.
Qed.

Lemma emcy_event_spec d n :
  bytes d → (length d ≤ 8)%nat →
  ∃ o, (mret (EvEmcy <$> (if len d <? 8 then None
          else Some (mkEmcy n (from_le_bytes (take 2 d)) (at_ d 2) (drop 3 d))))
        : exec (option CanOpenEvent)) = Ret o ∧
    ∀ ev, o = Some ev ↔ event_cob ev = Emergency n ∧ event_payload ev d.
Proof.
  intros Hb Hl. eexists. split; [reflexivity|]. intros ev. destruct (Z.ltb_spec (len d) 8).
  - split; [done|]. intros [He Hp]. destruct ev; simplify_eq/=. destruct Hp as (_ & Hv & ->).
    simpl in *. lia.
  - split.
    + intros [= <-]. cbn [event_cob event_payload em_node em_error_code em_error_register em_vendor_data].
      split; [done|]. assert (length (take 2 d) = 2%nat) as H2 by (rewrite length_take; lia).
      pose proof (bytes_take 2 _ Hb) as Hb2. pose proof (from_le_range _ Hb2) as Hr. rewrite H2 in Hr.
      split_and!.
      * unfold is_uint. change (2 ^ 16) with (256 ^ Z.of_nat 2). lia.
      * rewrite length_drop. lia.
      * pose proof (to_from_le _ Hb2) as Ht. rewrite H2 in Ht. rewrite Ht.
        destruct d as [|a [|b [|c d]]]; [simpl in *; lia..|]. done.
    + intros [He Hp]. destruct ev as [| |m| | | | |]; simplify_eq/=. destruct Hp as (Hc & Hv & ->).
      destruct m as [n code reg v]. cbn [em_error_code em_error_register em_vendor_data em_node] in *.
      pose proof (from_to_le_id 2 code) as Hid. unfold is_uint in Hc. specialize (Hid ltac:(lia)).
      unfold fmap, option_fmap, option_map. do 2 f_equal. exact (f_equal (λ c, mkEmcy n c reg v) Hid).
Qed.

(** Decoding by service: the event, if any, has the identifier's service and
    node and the payload it claims. *)
Lemma decode_by_service f p :
  wf_frame f → CobId.parse (cf_id f) = p → wf_parsed p →
  ∃ o, CanOpenEvent.decode f = Ret o ∧
    ∀ ev, o = Some ev ↔ event_cob ev = p ∧ event_payload ev (CanFrame.data f).
Proof.
  intros Hf Hp Hw. unfold CanOpenEvent.decode, CanFrame.raw_id, CobId.new.
  pose proof Hf as (Hid & _ & _). rewrite (proj2 (Z.leb_le _ _)) by lia. rewrite Hp.
  pose proof (data_length f Hf) as Hl. pose proof (bytes_data f Hf) as Hb.
  set (d := CanFrame.data f) in *.
  destruct p as [| |n|k n|k n|n|n|n|]; [..|done].
  - eapply nmt_event_spec.
  - exists (Some EvSync). split; [done|]. intros ev. split; [by intros [= <-]|].
    intros [He _]. destruct ev; done.
  - rewrite (emcy_parse_eq f n Hf Hp). fold d. rstep. by apply emcy_event_spec.
  - rewrite copy_payload_eq by done. rstep. eexists. split; [done|]. intros ev. split; [by intros [= <-]|].
    intros [He Hpay]. destruct ev; simplify_eq/=. destruct Hpay as [-> ->]. done.
  - rewrite copy_payload_eq by done. rstep. eexists. split; [done|]. intros ev. split; [by intros [= <-]|].
    intros [He Hpay]. destruct ev; simplify_eq/=. destruct Hpay as [-> ->]. done.
  - eexists. split; [done|]. intros ev. unfold try_into8. destruct (Z.eqb_spec (len d) 8); split.
    + by intros [= <-].
    + intros [He Hpay]. destruct ev; simplify_eq/=. by destruct Hpay as [_ ->].
    + done.
    + intros [He Hpay]. destruct ev; simplify_eq/=. tauto.
  - eexists. split; [done|]. intros ev. unfold try_into8. destruct (Z.eqb_spec (len d) 8); split.
    + by intros [= <-].
    + intros [He Hpay]. destruct ev; simplify_eq/=. by destruct Hpay as [_ ->].
    + done.
    + intros [He Hpay]. destruct ev; simplify_eq/=. tauto.
  - eexists. split; [done|]. intros ev. split.
    + destruct d as [|b d]; [done|]. simpl. destruct (NmtState.from_heartbeat_byte b) as [s|] eqn:Hs; [|done].
      intros [= <-]. simpl. split; [done|]. by apply from_heartbeat_byte_Some in Hs as <-.
    + intros [He Hpay]. destruct ev; simplify_eq/=. rewrite Hpay. simpl. by rewrite heartbeat_byte_roundtrip.
Qed.

(** [CanOpenEvent::decode] never panics and reports an event exactly when
    the frame carries it: identifier of the event's service and node, payload
    as the event says.  In particular a frame has at most one reading. *)
Theorem decode_spec f :
  wf_frame f →
  ∃ o, CanOpenEvent.decode f = Ret o ∧ ∀ ev, o = Some ev ↔ carries ev f.
Proof.
  intros Hf. pose proof Hf as (Hid & _). unfold carries.
  destruct (parse_wf (cf_id f) Hid) as [Hu|[Hw Hc]].
  - exists None. split.
    + unfold CanOpenEvent.decode, CanFrame.raw_id, CobId.new.
      rewrite (proj2 (Z.leb_le _ _)) by lia. by rewrite Hu.
    + intros ev. split; [done|]. intros (Hw & Hc & _). rewrite (parse_complete_all _ _ Hw Hc) in Hu.
      destruct ev; done.
  - destruct (decode_by_service f _ Hf eq_refl Hw) as (o & Hd & Ho). exists o. split; [done|].
    intros ev. rewrite Ho. split.
    + intros [He Hp]. by rewrite He.
    + intros (Hwe & Hce & Hp). split; [|done]. by rewrite (parse_complete_all _ _ Hwe Hce).
Qed.

Definition demo_hb_frame : CanFrame := mkCanFrame 0x722 1 [5; 0; 0; 0; 0; 0; 0; 0].

Lemma decode_spec_witness :
  CanOpenEvent.decode demo_hb_frame = Ret (Some (EvHeartbeat 0x22 Operational)) ∧
  ∃ o, CanOpenEvent.decode demo_hb_frame = Ret o ∧ ∀ ev, o = Some ev ↔ carries ev demo_hb_frame.
Proof.
  split; [vm_compute; reflexivity|]. apply (decode_spec demo_hb_frame).
  split; [simpl; lia|]. split; [simpl; lia|]. split; [done|].
  repeat (apply List.Forall_cons; [unfold is_uint; lia|]). apply List.Forall_nil.
Defined.

(** ** Which node an event concerns *)

(** Read off the frame: an NMT command names its node in the second byte, 0
    for all; every other service but SYNC has the node in the low seven bits
    of its identifier. *)
Definition addresses (f : CanFrame) (n : Z) : Prop :=
  if cf_id f =? 0x000 then at_ (CanFrame.data f) 1 = 0 ∨ at_ (CanFrame.data f) 1 = n
  else cf_id f ≠ 0x080 ∧ Z.land (cf_id f) 0x7F = n.

Definition node_of_cob (p : ParsedCobId) : option Z :=
  match p with
  | Emergency n | Tpdo _ n | Rpdo _ n | SdoResponse n | SdoRequest n | Heartbeat n => Some n
  | _ => None
  end.

Lemma construct_node p raw :
  wf_parsed p → CobId.construct p = Some raw → 0 ≤ raw ≤ 0x7FF →
  match node_of_cob p with
  | Some n => raw ≠ 0 ∧ raw ≠ 0x80 ∧ Z.land raw 0x7F = n
  | None => raw = 0 ∨ raw = 0x80
  end.
Proof.
  intros Hw Hc Hr. rewrite <- (parse_complete_all _ _ Hw Hc). rewrite <- (parse_complete_all _ _ Hw Hc) in Hw.
  clear Hc p.
  pose (chk raw := match CobId.parse raw with
    | Unknown _ => true
    | q => match node_of_cob q with
           | Some n => negb (raw =? 0) && negb (raw =? 0x80) && (Z.land raw 0x7F =? n)
           | None => (raw =? 0) || (raw =? 0x80)
           end
    end).
  assert (forallb chk (seqZ 0 0x800) = true) as Hall by (vm_compute; reflexivity).
  pose proof (cob_forall _ Hall raw Hr) as H. clear Hall. unfold chk in H.
  destruct (CobId.parse raw); simpl in *; try done; lia.
Qed.

(** [matches_node] agrees with the address the frame itself carries, so a
    monitor that filters by node loses no event of that node and sees no
    other's. *)
Theorem matches_node_spec f ev n :
  wf_frame f → wf_node n → CanOpenEvent.decode f = Ret (Some ev) →
  (CanOpenEvent.matches_node ev n = true ↔ addresses f n).
Proof.
  intros Hf Hn Hd. pose proof Hf as (Hid & _).
  destruct (parse_wf (cf_id f) Hid) as [Hu|[Hw Hc]].
  { unfold CanOpenEvent.decode, CanFrame.raw_id, CobId.new in Hd.
    rewrite (proj2 (Z.leb_le _ _)) in Hd by lia. by rewrite Hu in Hd. }
  destruct (decode_by_service f _ Hf eq_refl Hw) as (o & Hd' & Ho). rewrite Hd in Hd'. simplify_eq.
  destruct (proj1 (Ho ev) eq_refl) as [He Hp]. clear Ho. rewrite <- He in *.
  pose proof (construct_node _ _ Hw Hc Hid) as Hnode. unfold addresses.
  destruct ev as [c t| |m|m s|k m d l|k m d l|m d|m d]; simpl in Hnode;
    cbn [CanOpenEvent.matches_node CanOpenEvent.node];
    try (destruct Hnode as (H0 & H80 & <-); rewrite (proj2 (Z.eqb_neq _ _) H0), bool_decide_eq_true;
         naive_solver).
  - simpl in Hc. injection Hc as Hc. rewrite <- Hc. unfold CobId.nmt. cbn [Z.eqb].
    destruct Hp as (b & rest & -> & Ht). cbn [at_ nth]. destruct t as [t|].
    + destruct Ht as [-> Ht]. rewrite bool_decide_eq_true. unfold wf_node in *. naive_solver lia.
    + naive_solver.
  - simpl in Hc. injection Hc as Hc. rewrite <- Hc. unfold CobId.sync. cbn. naive_solver.
Qed.

Lemma matches_node_spec_witness :
  CanOpenEvent.decode demo_hb_frame = Ret (Some (EvHeartbeat 0x22 Operational)) ∧
  (CanOpenEvent.matches_node (EvHeartbeat 0x22 Operational) 0x22 = true ↔ addresses demo_hb_frame 0x22).
Proof.
  assert (CanOpenEvent.decode demo_hb_frame = Ret (Some (EvHeartbeat 0x22 Operational))) as Hd
    by (vm_compute; reflexivity).
  split; [exact Hd|]. apply matches_node_spec; [|unfold wf_node; lia|exact Hd].
  split; [simpl; lia|]. split; [simpl; lia|]. split; [done|].
  repeat (apply List.Forall_cons; [unfold is_uint; lia|]). apply List.Forall_nil.
Defined.
