(* ===== verification/Nb.v ===== *)
(** * Non-blocking CAN transports

    The trait [embedded_can::nb::Can] as a class: [transmit] may hand back a
    frame it replaced, both operations may report [WouldBlock].
    [MailboxTransport] (transport.rs) is an instance. *)
From S2P Require Import Prelude Frame.

Class Can (S : Type) := {
  transmit : S → CanFrame → S * result (option CanFrame) nb_error;
  receive : S → S * result CanFrame nb_error;
}.

#[export] Instance mailbox_can (TX RX : nat) : Can MailboxTransport | 100 := {
  transmit := Mailbox.transmit TX;
  receive := Mailbox.receive;
}.
