(* ===== verification/Node.v ===== *)
(** * The node

    [canopen-core/src/node.rs]: the composition of the services.  [process] is
    one call of the main processing function, generic over the transport
    ([Can]); the arrays of the additional SDO servers (state, pending response,
    COB-IDs) are one list of channel records.  [u16] sums of OD indices go
    through [checked]; the [assert!]s on the configured dictionary through
    [assert_]. *)
From S2P Require Import Prelude Frame Nmt Od SdoProtocol SdoServer PdoEngine Sync Heartbeat Emcy Lss Nb.

Inductive ResetType := ResetTypeApplication | ResetTypeCommunication.

Record SdoServerConfig := mkSdoServerConfig { number : Z; cob_rx : Z; cob_tx : Z }.

Record NodeConfig := mkNodeConfig {
  cfg_node_id : Z;
  cfg_heartbeat_interval_ms : Z;
  cfg_auto_start : bool;
  cfg_tpdo : list TpdoConfig;
  cfg_rpdo : list RpdoConfig;
  cfg_sdo_servers : list SdoServerConfig;
  cfg_identity : LssIdentity;
}.

Definition MAX_HEARTBEAT_MONITORS : nat := 8.
Definition HB_EVENT_QUEUE : nat := 8.
Definition RESERVED_COB_IDS : nat := 32.
Definition PDO_MAX_MAPPINGS : nat := 64.

Inductive SdoServerSel := SelDefault | SelExtra (i : nat).

(** ** The pending SDO response of a channel *)

Record PendingSdoTx := mkPendingTx {
  ptx_frame : option (CanFrame * Z);
  refused_this_poll : bool;
}.

Module PendingSdoTx.

Definition default : PendingSdoTx := mkPendingTx None false.

Definition queue (p : PendingSdoTx) (cob : Z) (data : list Z) (now : Z) : PendingSdoTx :=
  mkPendingTx (match CanFrame.new cob data with Some f => Some (f, now) | None => None end)
    (refused_this_poll p).

Definition begin_poll (p : PendingSdoTx) (server : SdoServer) (cob now : Z)
    : exec (PendingSdoTx * SdoServer) :=
  let p := mkPendingTx (ptx_frame p) false in
  let stale := match ptx_frame p with
               | Some (_, since) => SDO_TIMEOUT_US <=? wrapping_sub 64 now since
               | None => false
               end in
  if stale then mret (mkPendingTx None false, SdoServerState.abort_transfer server)
  else
    '(server, abort) ← SdoPoll.check_timeout server now;
    mret (match abort with Some data => queue p cob data now | None => p end, server).

Section transport.
Context {S : Type} `{Can S}.

Definition try_send (p : PendingSdoTx) (tr : S) : PendingSdoTx * S :=
  if refused_this_poll p then (p, tr)
  else
    match ptx_frame p with
    | None => (p, tr)
    | Some (frame, _) =>
        match transmit tr frame with
        | (tr, Ok _) => (mkPendingTx None (refused_this_poll p), tr)
        | (tr, Err _) => (mkPendingTx (ptx_frame p) true, tr)
        end
    end.

(** The [for _ in 0..n] loop of [service]. *)
Fixpoint service_loop (n : nat) (p : PendingSdoTx) (server : SdoServer) (cob : Z) (tr : S) (now : Z)
    : exec (PendingSdoTx * SdoServer * S) :=
  match n with
  | O => mret (p, server, tr)
  | Datatypes.S n' =>
      match ptx_frame p with
      | Some _ => mret (p, server, tr)
      | None =>
          '(server, data) ← SdoPoll.poll_block_upload server now;
          match data with
          | None => mret (p, server, tr)
          | Some data =>
              let '(p, tr) := try_send (queue p cob data now) tr in
              service_loop n' p server cob tr now
          end
      end
  end.

Definition service (p : PendingSdoTx) (server : SdoServer) (cob : Z) (tr : S) (now : Z)
    : exec (PendingSdoTx * SdoServer * S) :=
  let '(p, tr) := try_send p tr in
  service_loop 127 p server cob tr now.

End transport.
End PendingSdoTx.

(** A channel: server, pending response and resolved COB-IDs. *)
Record ExtraSdo := mkExtra {
  ex_server : SdoServer;
  ex_pending : PendingSdoTx;
  ex_rx : Z;
  ex_tx : Z;
}.

(** ** State *)

Section node.
Context {OD : Type} `{ObjectDictionary OD}.

Record Node := mkNode {
  nd_node_id : Z;
  nd_od : OD;
  nd_nmt : NmtHandler;
  nd_sdo_server : SdoServer;
  nd_sdo_tx : PendingSdoTx;
  nd_extra_sdo : list ExtraSdo;
  nd_tpdo : TpdoEngine;
  nd_rpdo : RpdoEngine;
  nd_sync : SyncConsumer;
  nd_sync_producer : SyncProducer;
  nd_sync_window : SyncWindow;
  nd_pending_sync_tpdo : list CanFrame;
  nd_last_attempt_us : option Z;
  nd_heartbeat : HeartbeatProducer;
  nd_hb_monitors : list (option HeartbeatMonitor);
  nd_hb_events : list HeartbeatEvent;
  nd_emcy : EmcyProducer;
  nd_lss : LssSlave;
  nd_booted : bool;
  nd_auto_start : bool;
  nd_event_queue : list OdEvent;
  nd_dirty_set : list (Z * Z);
  nd_overflow : Z;
  nd_reset_event : option ResetType;
}.

Definition set_od (v : OD) (n : Node) : Node :=
  mkNode (nd_node_id n) v (nd_nmt n) (nd_sdo_server n) (nd_sdo_tx n) (nd_extra_sdo n) (nd_tpdo n)
    (nd_rpdo n) (nd_sync n) (nd_sync_producer n) (nd_sync_window n) (nd_pending_sync_tpdo n)
    (nd_last_attempt_us n) (nd_heartbeat n) (nd_hb_monitors n) (nd_hb_events n) (nd_emcy n)
    (nd_lss n) (nd_booted n) (nd_auto_start n) (nd_event_queue n) (nd_dirty_set n)
    (nd_overflow n) (nd_reset_event n).

Definition set_nmt (v : NmtHandler) (n : Node) : Node :=
  mkNode (nd_node_id n) (nd_od n) v (nd_sdo_server n) (nd_sdo_tx n) (nd_extra_sdo n) (nd_tpdo n)
    (nd_rpdo n) (nd_sync n) (nd_sync_producer n) (nd_sync_window n) (nd_pending_sync_tpdo n)
    (nd_last_attempt_us n) (nd_heartbeat n) (nd_hb_monitors n) (nd_hb_events n) (nd_emcy n)
    (nd_lss n) (nd_booted n) (nd_auto_start n) (nd_event_queue n) (nd_dirty_set n)
    (nd_overflow n) (nd_reset_event n).

Definition set_sdo_server (v : SdoServer) (n : Node) : Node :=
  mkNode (nd_node_id n) (nd_od n) (nd_nmt n) v (nd_sdo_tx n) (nd_extra_sdo n) (nd_tpdo n) (nd_rpdo n)
    (nd_sync n) (nd_sync_producer n) (nd_sync_window n) (nd_pending_sync_tpdo n)
    (nd_last_attempt_us n) (nd_heartbeat n) (nd_hb_monitors n) (nd_hb_events n) (nd_emcy n)
    (nd_lss n) (nd_booted n) (nd_auto_start n) (nd_event_queue n) (nd_dirty_set n)
    (nd_overflow n) (nd_reset_event n).

Definition set_sdo_tx (v : PendingSdoTx) (n : Node) : Node :=
  mkNode (nd_node_id n) (nd_od n) (nd_nmt n) (nd_sdo_server n) v (nd_extra_sdo n) (nd_tpdo n)
    (nd_rpdo n) (nd_sync n) (nd_sync_producer n) (nd_sync_window n) (nd_pending_sync_tpdo n)
    (nd_last_attempt_us n) (nd_heartbeat n) (nd_hb_monitors n) (nd_hb_events n) (nd_emcy n)
    (nd_lss n) (nd_booted n) (nd_auto_start n) (nd_event_queue n) (nd_dirty_set n)
    (nd_overflow n) (nd_reset_event n).

Definition set_extra_sdo (v : list ExtraSdo) (n : Node) : Node :=
  mkNode (nd_node_id n) (nd_od n) (nd_nmt n) (nd_sdo_server n) (nd_sdo_tx n) v (nd_tpdo n)
    (nd_rpdo n) (nd_sync n) (nd_sync_producer n) (nd_sync_window n) (nd_pending_sync_tpdo n)
    (nd_last_attempt_us n) (nd_heartbeat n) (nd_hb_monitors n) (nd_hb_events n) (nd_emcy n)
    (nd_lss n) (nd_booted n) (nd_auto_start n) (nd_event_queue n) (nd_dirty_set n)
    (nd_overflow n) (nd_reset_event n).

Definition set_tpdo (v : TpdoEngine) (n : Node) : Node :=
  mkNode (nd_node_id n) (nd_od n) (nd_nmt n) (nd_sdo_server n) (nd_sdo_tx n) (nd_extra_sdo n) v
    (nd_rpdo n) (nd_sync n) (nd_sync_producer n) (nd_sync_window n) (nd_pending_sync_tpdo n)
    (nd_last_attempt_us n) (nd_heartbeat n) (nd_hb_monitors n) (nd_hb_events n) (nd_emcy n)
    (nd_lss n) (nd_booted n) (nd_auto_start n) (nd_event_queue n) (nd_dirty_set n)
    (nd_overflow n) (nd_reset_event n).

Definition set_rpdo (v : RpdoEngine) (n : Node) : Node :=
  mkNode (nd_node_id n) (nd_od n) (nd_nmt n) (nd_sdo_server n) (nd_sdo_tx n) (nd_extra_sdo n)
    (nd_tpdo n) v (nd_sync n) (nd_sync_producer n) (nd_sync_window n) (nd_pending_sync_tpdo n)
    (nd_last_attempt_us n) (nd_heartbeat n) (nd_hb_monitors n) (nd_hb_events n) (nd_emcy n)
    (nd_lss n) (nd_booted n) (nd_auto_start n) (nd_event_queue n) (nd_dirty_set n)
    (nd_overflow n) (nd_reset_event n).

Definition set_sync (v : SyncConsumer) (n : Node) : Node :=
  mkNode (nd_node_id n) (nd_od n) (nd_nmt n) (nd_sdo_server n) (nd_sdo_tx n) (nd_extra_sdo n)
    (nd_tpdo n) (nd_rpdo n) v (nd_sync_producer n) (nd_sync_window n) (nd_pending_sync_tpdo n)
    (nd_last_attempt_us n) (nd_heartbeat n) (nd_hb_monitors n) (nd_hb_events n) (nd_emcy n)
    (nd_lss n) (nd_booted n) (nd_auto_start n) (nd_event_queue n) (nd_dirty_set n)
    (nd_overflow n) (nd_reset_event n).

Definition set_sync_producer (v : SyncProducer) (n : Node) : Node :=
  mkNode (nd_node_id n) (nd_od n) (nd_nmt n) (nd_sdo_server n) (nd_sdo_tx n) (nd_extra_sdo n)
    (nd_tpdo n) (nd_rpdo n) (nd_sync n) v (nd_sync_window n) (nd_pending_sync_tpdo n)
    (nd_last_attempt_us n) (nd_heartbeat n) (nd_hb_monitors n) (nd_hb_events n) (nd_emcy n)
    (nd_lss n) (nd_booted n) (nd_auto_start n) (nd_event_queue n) (nd_dirty_set n)
    (nd_overflow n) (nd_reset_event n).

Definition set_sync_window (v : SyncWindow) (n : Node) : Node :=
  mkNode (nd_node_id n) (nd_od n) (nd_nmt n) (nd_sdo_server n) (nd_sdo_tx n) (nd_extra_sdo n)
    (nd_tpdo n) (nd_rpdo n) (nd_sync n) (nd_sync_producer n) v (nd_pending_sync_tpdo n)
    (nd_last_attempt_us n) (nd_heartbeat n) (nd_hb_monitors n) (nd_hb_events n) (nd_emcy n)
    (nd_lss n) (nd_booted n) (nd_auto_start n) (nd_event_queue n) (nd_dirty_set n)
    (nd_overflow n) (nd_reset_event n).

Definition set_pending_sync_tpdo (v : list CanFrame) (n : Node) : Node :=
  mkNode (nd_node_id n) (nd_od n) (nd_nmt n) (nd_sdo_server n) (nd_sdo_tx n) (nd_extra_sdo n)
    (nd_tpdo n) (nd_rpdo n) (nd_sync n) (nd_sync_producer n) (nd_sync_window n) v
    (nd_last_attempt_us n) (nd_heartbeat n) (nd_hb_monitors n) (nd_hb_events n) (nd_emcy n)
    (nd_lss n) (nd_booted n) (nd_auto_start n) (nd_event_queue n) (nd_dirty_set n)
    (nd_overflow n) (nd_reset_event n).

Definition set_last_attempt_us (v : option Z) (n : Node) : Node :=
  mkNode (nd_node_id n) (nd_od n) (nd_nmt n) (nd_sdo_server n) (nd_sdo_tx n) (nd_extra_sdo n)
    (nd_tpdo n) (nd_rpdo n) (nd_sync n) (nd_sync_producer n) (nd_sync_window n)
    (nd_pending_sync_tpdo n) v (nd_heartbeat n) (nd_hb_monitors n) (nd_hb_events n) (nd_emcy n)
    (nd_lss n) (nd_booted n) (nd_auto_start n) (nd_event_queue n) (nd_dirty_set n)
    (nd_overflow n) (nd_reset_event n).

Definition set_heartbeat (v : HeartbeatProducer) (n : Node) : Node :=
  mkNode (nd_node_id n) (nd_od n) (nd_nmt n) (nd_sdo_server n) (nd_sdo_tx n) (nd_extra_sdo n)
    (nd_tpdo n) (nd_rpdo n) (nd_sync n) (nd_sync_producer n) (nd_sync_window n)
    (nd_pending_sync_tpdo n) (nd_last_attempt_us n) v (nd_hb_monitors n) (nd_hb_events n)
    (nd_emcy n) (nd_lss n) (nd_booted n) (nd_auto_start n) (nd_event_queue n) (nd_dirty_set n)
    (nd_overflow n) (nd_reset_event n).

Definition set_hb_monitors (v : list (option HeartbeatMonitor)) (n : Node) : Node :=
  mkNode (nd_node_id n) (nd_od n) (nd_nmt n) (nd_sdo_server n) (nd_sdo_tx n) (nd_extra_sdo n)
    (nd_tpdo n) (nd_rpdo n) (nd_sync n) (nd_sync_producer n) (nd_sync_window n)
    (nd_pending_sync_tpdo n) (nd_last_attempt_us n) (nd_heartbeat n) v (nd_hb_events n)
    (nd_emcy n) (nd_lss n) (nd_booted n) (nd_auto_start n) (nd_event_queue n) (nd_dirty_set n)
    (nd_overflow n) (nd_reset_event n).

Definition set_hb_events (v : list HeartbeatEvent) (n : Node) : Node :=
  mkNode (nd_node_id n) (nd_od n) (nd_nmt n) (nd_sdo_server n) (nd_sdo_tx n) (nd_extra_sdo n)
    (nd_tpdo n) (nd_rpdo n) (nd_sync n) (nd_sync_producer n) (nd_sync_window n)
    (nd_pending_sync_tpdo n) (nd_last_attempt_us n) (nd_heartbeat n) (nd_hb_monitors n) v
    (nd_emcy n) (nd_lss n) (nd_booted n) (nd_auto_start n) (nd_event_queue n) (nd_dirty_set n)
    (nd_overflow n) (nd_reset_event n).

Definition set_emcy (v : EmcyProducer) (n : Node) : Node :=
  mkNode (nd_node_id n) (nd_od n) (nd_nmt n) (nd_sdo_server n) (nd_sdo_tx n) (nd_extra_sdo n)
    (nd_tpdo n) (nd_rpdo n) (nd_sync n) (nd_sync_producer n) (nd_sync_window n)
    (nd_pending_sync_tpdo n) (nd_last_attempt_us n) (nd_heartbeat n) (nd_hb_monitors n)
    (nd_hb_events n) v (nd_lss n) (nd_booted n) (nd_auto_start n) (nd_event_queue n)
    (nd_dirty_set n) (nd_overflow n) (nd_reset_event n).

Definition set_lss (v : LssSlave) (n : Node) : Node :=
  mkNode (nd_node_id n) (nd_od n) (nd_nmt n) (nd_sdo_server n) (nd_sdo_tx n) (nd_extra_sdo n)
    (nd_tpdo n) (nd_rpdo n) (nd_sync n) (nd_sync_producer n) (nd_sync_window n)
    (nd_pending_sync_tpdo n) (nd_last_attempt_us n) (nd_heartbeat n) (nd_hb_monitors n)
    (nd_hb_events n) (nd_emcy n) v (nd_booted n) (nd_auto_start n) (nd_event_queue n)
    (nd_dirty_set n) (nd_overflow n) (nd_reset_event n).

Definition set_booted (v : bool) (n : Node) : Node :=
  mkNode (nd_node_id n) (nd_od n) (nd_nmt n) (nd_sdo_server n) (nd_sdo_tx n) (nd_extra_sdo n)
    (nd_tpdo n) (nd_rpdo n) (nd_sync n) (nd_sync_producer n) (nd_sync_window n)
    (nd_pending_sync_tpdo n) (nd_last_attempt_us n) (nd_heartbeat n) (nd_hb_monitors n)
    (nd_hb_events n) (nd_emcy n) (nd_lss n) v (nd_auto_start n) (nd_event_queue n)
    (nd_dirty_set n) (nd_overflow n) (nd_reset_event n).

Definition set_event_queue (v : list OdEvent) (n : Node) : Node :=
  mkNode (nd_node_id n) (nd_od n) (nd_nmt n) (nd_sdo_server n) (nd_sdo_tx n) (nd_extra_sdo n)
    (nd_tpdo n) (nd_rpdo n) (nd_sync n) (nd_sync_producer n) (nd_sync_window n)
    (nd_pending_sync_tpdo n) (nd_last_attempt_us n) (nd_heartbeat n) (nd_hb_monitors n)
    (nd_hb_events n) (nd_emcy n) (nd_lss n) (nd_booted n) (nd_auto_start n) v (nd_dirty_set n)
    (nd_overflow n) (nd_reset_event n).

Definition set_dirty_set (v : list (Z * Z)) (n : Node) : Node :=
  mkNode (nd_node_id n) (nd_od n) (nd_nmt n) (nd_sdo_server n) (nd_sdo_tx n) (nd_extra_sdo n)
    (nd_tpdo n) (nd_rpdo n) (nd_sync n) (nd_sync_producer n) (nd_sync_window n)
    (nd_pending_sync_tpdo n) (nd_last_attempt_us n) (nd_heartbeat n) (nd_hb_monitors n)
    (nd_hb_events n) (nd_emcy n) (nd_lss n) (nd_booted n) (nd_auto_start n) (nd_event_queue n) v
    (nd_overflow n) (nd_reset_event n).

Definition set_overflow (v : Z) (n : Node) : Node :=
  mkNode (nd_node_id n) (nd_od n) (nd_nmt n) (nd_sdo_server n) (nd_sdo_tx n) (nd_extra_sdo n)
    (nd_tpdo n) (nd_rpdo n) (nd_sync n) (nd_sync_producer n) (nd_sync_window n)
    (nd_pending_sync_tpdo n) (nd_last_attempt_us n) (nd_heartbeat n) (nd_hb_monitors n)
    (nd_hb_events n) (nd_emcy n) (nd_lss n) (nd_booted n) (nd_auto_start n) (nd_event_queue n)
    (nd_dirty_set n) v (nd_reset_event n).

Definition set_reset_event (v : option ResetType) (n : Node) : Node :=
  mkNode (nd_node_id n) (nd_od n) (nd_nmt n) (nd_sdo_server n) (nd_sdo_tx n) (nd_extra_sdo n)
    (nd_tpdo n) (nd_rpdo n) (nd_sync n) (nd_sync_producer n) (nd_sync_window n)
    (nd_pending_sync_tpdo n) (nd_last_attempt_us n) (nd_heartbeat n) (nd_hb_monitors n)
    (nd_hb_events n) (nd_emcy n) (nd_lss n) (nd_booted n) (nd_auto_start n) (nd_event_queue n)
    (nd_dirty_set n) (nd_overflow n) v.

Definition pdo_od_offset (od_number : Z) (slot : nat) : Z :=
  if od_number =? 0 then as_u16 (Z.of_nat slot) else od_number - 1.

(** ** The COB-ID plan *)

Definition sdo_cobs (n : Node) : SdoCobIds :=
  mkSdoCobIds (CobId.sdo_rx (nd_node_id n)) (CobId.sdo_tx (nd_node_id n))
    (map ex_rx (nd_extra_sdo n)) (map ex_tx (nd_extra_sdo n)).

Definition tpdo_cobs (n : Node) : list Z := map (λ t, tp_cob_id (ts_cfg t)) (nd_tpdo n).
Definition rpdo_cobs (n : Node) : list Z := map (λ r, rp_cob_id (rs_cfg r)) (rpdo_slots (nd_rpdo n)).

(** [hb_monitors.iter().flatten()] *)
Definition monitors (n : Node) : list HeartbeatMonitor := omap id (nd_hb_monitors n).

Definition monitored_cobs (n : Node) : list Z := map (λ m, CobId.heartbeat (hm_node m)) (monitors n).

Definition sync_or_0 (n : Node) : Z := default 0 (SyncConsumer.cob_id (nd_sync n)).

(** The loop over the additional servers in [sdo_cob_ids_are_unique]. *)
Fixpoint extras_unique (fixed : list Z) (l : list ExtraSdo) : bool :=
  match l with
  | [] => true
  | c :: l' =>
      let rx := ex_rx c in
      let tx := ex_tx c in
      negb ((rx =? 0) || (tx =? 0) || (rx =? tx))
      && negb (contains fixed rx || contains fixed tx)
      && forallb (λ o, negb ((rx =? ex_rx o) || (rx =? ex_tx o) || (tx =? ex_rx o) || (tx =? ex_tx o))) l'
      && extras_unique fixed l'
  end.

Definition sdo_cob_ids_are_unique (n : Node) : bool :=
  let fixed := [CobId.nmt; sync_or_0 n; CobId.emergency (nd_node_id n); CobId.sdo_rx (nd_node_id n);
                CobId.sdo_tx (nd_node_id n); CobId.heartbeat (nd_node_id n);
                LSS_REQUEST_COB; LSS_RESPONSE_COB] in
  extras_unique fixed (nd_extra_sdo n)
  && forallb (λ c, negb (SdoCobIds.claims (sdo_cobs n) c)) (tpdo_cobs n)
  && forallb (λ c, negb (SdoCobIds.claims (sdo_cobs n) c)) (rpdo_cobs n)
  && forallb (λ c, negb (SdoCobIds.claims (sdo_cobs n) c)) (monitored_cobs n).

Definition fixed_reserved (n : Node) : list Z :=
  [CobId.emergency (nd_node_id n); CobId.heartbeat (nd_node_id n); LSS_REQUEST_COB; LSS_RESPONSE_COB].

Fixpoint reserve (cobs out : list Z) (complete : bool) : list Z * bool :=
  match cobs with
  | [] => (out, complete)
  | cob :: cobs' =>
      if negb (cob =? 0) && negb (contains out cob) then
        if (length out <? RESERVED_COB_IDS)%nat then reserve cobs' (out ++ [cob]) complete
        else reserve cobs' out false
      else reserve cobs' out complete
  end.

Definition reserved_cob_ids (n : Node) : list Z * bool :=
  reserve (fixed_reserved n ++ (tpdo_cobs n ++ rpdo_cobs n) ++ monitored_cobs n) [] true.

Definition sync_cob_id_is_unique (n : Node) : bool :=
  match SyncConsumer.cob_id (nd_sync n) with
  | None => true
  | Some sync =>
      if (sync =? CobId.nmt) || SdoCobIds.claims (sdo_cobs n) sync then false
      else if (sync =? CobId.emergency (nd_node_id n)) || (sync =? CobId.heartbeat (nd_node_id n))
              || (sync =? LSS_REQUEST_COB) || (sync =? LSS_RESPONSE_COB) then false
      else if existsb (λ c, c =? sync) (tpdo_cobs n) then false
      else if existsb (λ c, c =? sync) (rpdo_cobs n) then false
      else negb (existsb (λ c, c =? sync) (monitored_cobs n))
  end.

(** ** Configuration from the dictionary *)

(** A read into a buffer the caller keeps: the buffer afterwards and whether
    the read succeeded. *)
Definition read_into (od : OD) (index sub : Z) (buf : list Z) : list Z * bool :=
  let '(buf, r) := od_read od index sub buf in (buf, is_ok r).

(** One iteration of the 0x1016 loop. *)
Definition configured_monitor (od : OD) (slot : nat) (buf4 : list Z) : list Z * option (Z * Z) :=
  let '(buf4, ok) := read_into od 0x1016 (as_u8 (Z.of_nat slot + 1)) buf4 in
  (buf4,
   if ok then
     let raw := from_le_bytes buf4 in
     let time_ms := as_u16 (Z.land raw 0xFFFF) in
     if time_ms =? 0 then None
     else match NodeId.new (as_u8 (Z.land (Z.shiftr raw 16) 0xFF)) with
          | Some node => Some (node, time_ms)
          | None => None
          end
   else None).

Definition next_monitor (preserve : bool) (configured : option (Z * Z))
    (existing : option HeartbeatMonitor) : option HeartbeatMonitor :=
  match configured with
  | None => None
  | Some (node, time) =>
      match existing with
      | Some m =>
          if preserve && (hm_node m =? node) && (hm_timeout_ms m =? time) then Some m
          else Some (HeartbeatMonitor.new node time)
      | None => Some (HeartbeatMonitor.new node time)
      end
  end.

Fixpoint monitors_loop (od : OD) (preserve : bool) (slot : nat) (buf4 : list Z)
    (l : list (option HeartbeatMonitor)) : list (option HeartbeatMonitor) :=
  match l with
  | [] => []
  | m :: l' =>
      let '(buf4, configured) := configured_monitor od slot buf4 in
      next_monitor preserve configured m :: monitors_loop od preserve (S slot) buf4 l'
  end.

Definition sync_heartbeat_from_od (preserve_monitor_state : bool) (n : Node) : Node :=
  let '(buf2, ok) := read_into (nd_od n) 0x1017 0 (zeros 2) in
  let n := if ok then
             set_heartbeat (HeartbeatProducer.set_interval_ms (nd_heartbeat n) (from_le_bytes buf2)) n
           else n in
  set_hb_monitors (monitors_loop (nd_od n) preserve_monitor_state 0 (zeros 4) (nd_hb_monitors n)) n.

Definition sync_config_from_od (n : Node) : exec Node :=
  let '(buf4, ok) := read_into (nd_od n) 0x1005 0 (zeros 4) in
  sync_obj ← (if ok then
                let raw := from_le_bytes buf4 in
                _ ← assert_ (is_supported_sync_cob_id raw);
                unwrap (SyncCobId.from_raw raw)
              else mret SyncCobId.DEFAULT);
  let n := set_sync (SyncConsumer.set_cob_id (nd_sync n) (sc_cob_id sync_obj)) n in
  let '(buf4, ok) := read_into (nd_od n) 0x1006 0 buf4 in
  let period_us := if ok then from_le_bytes buf4 else 0 in
  let '(buf4, ok) := read_into (nd_od n) 0x1007 0 buf4 in
  let window_us := if ok then from_le_bytes buf4 else 0 in
  let n := set_sync_window (SyncWindow.configure (nd_sync_window n) window_us) n in
  let '(buf1, ok) := read_into (nd_od n) 0x1019 0 (zeros 1) in
  let overflow := if ok then at_ buf1 0 else 0 in
  _ ← assert_ (is_valid_sync_counter_overflow overflow);
  mret (set_sync_producer
    (SyncProducer.configure (nd_sync_producer n)
       (if sc_produce sync_obj then sc_cob_id sync_obj else 0) period_us overflow) n).

(** The mapping entries at [map_idx], the buffers they are read through. *)
Fixpoint read_mappings (od : OD) (map_idx : Z) (subs : list Z) (buf4 : list Z) (ms : list PdoMapping)
    : list Z * list PdoMapping :=
  match subs with
  | [] => (buf4, ms)
  | sub :: subs' =>
      let '(buf4, ok) := read_into od map_idx sub buf4 in
      let ms := if ok then vec_push PDO_MAX_MAPPINGS ms (PdoMapping.from_mapping_value (from_le_bytes buf4)) else ms in
      read_mappings od map_idx subs' buf4 ms
  end.

Definition read_mapping_record (od : OD) (map_idx : Z) (buf4 : list Z) : list Z * list PdoMapping :=
  let '(buf4, ok) := read_into od map_idx 0 buf4 in
  if ok then
    let count := Z.min (at_ buf4 0) (Z.of_nat PDO_MAX_MAPPINGS) in
    read_mappings od map_idx (seqZ 1 count) buf4 []
  else (buf4, []).

(** Sub 1 of a communication record: enabled bit and COB-ID. *)
Definition cob_enabled (raw : Z) : bool :=
  (Z.land raw 0x80000000 =? 0) && negb (Z.land raw 0x7FF =? 0).
Definition cob_of (raw : Z) : Z := as_u16 (Z.land raw 0x7FF).

Definition read_tpdo (od : OD) (comm_idx map_idx : Z) (buf4 buf2 : list Z) (c : TpdoConfig)
    : list Z * list Z * TpdoConfig :=
  let '(buf4, ok) := read_into od comm_idx 1 buf4 in
  let raw := from_le_bytes buf4 in
  let enabled := if ok then cob_enabled raw else tp_enabled c in
  let cob := if ok then cob_of raw else tp_cob_id c in
  let '(buf4, ok) := read_into od comm_idx 2 buf4 in
  let tt := if ok then at_ buf4 0 else tp_transmission_type c in
  let '(buf2, ok) := read_into od comm_idx 3 buf2 in
  let inhibit := if ok then from_le_bytes buf2 else inhibit_time_100us c in
  let '(buf2, ok) := read_into od comm_idx 5 buf2 in
  let timer := if ok then from_le_bytes buf2 else event_timer_ms c in
  let '(buf4, ms) := read_mapping_record od map_idx buf4 in
  (buf4, buf2, mkTpdo (tp_od_number c) cob tt inhibit timer ms enabled).

Definition read_rpdo (od : OD) (comm_idx map_idx : Z) (buf4 buf2 : list Z) (c : RpdoConfig)
    : list Z * list Z * RpdoConfig :=
  let '(buf4, ok) := read_into od comm_idx 1 buf4 in
  let raw := from_le_bytes buf4 in
  let enabled := if ok then cob_enabled raw else rp_enabled c in
  let cob := if ok then cob_of raw else rp_cob_id c in
  let '(buf4, ok) := read_into od comm_idx 2 buf4 in
  let tt := if ok then at_ buf4 0 else rp_transmission_type c in
  let '(buf2, ok) := read_into od comm_idx 5 buf2 in
  let deadline := if ok then from_le_bytes buf2 else deadline_ms c in
  let '(buf4, ms) := read_mapping_record od map_idx buf4 in
  (buf4, buf2, mkRpdo (rp_od_number c) cob tt deadline ms enabled).

Fixpoint sync_tpdos (od : OD) (slot : nat) (buf4 buf2 : list Z) (l : TpdoEngine)
    : exec (list Z * list Z * TpdoEngine) :=
  match l with
  | [] => mret (buf4, buf2, [])
  | t :: l' =>
      let off := pdo_od_offset (tp_od_number (ts_cfg t)) slot in
      comm_idx ← checked 16 (0x1800 + off);
      map_idx ← checked 16 (0x1A00 + off);
      let '(buf4, buf2, c) := read_tpdo od comm_idx map_idx buf4 buf2 (ts_cfg t) in
      '(buf4, buf2, l') ← sync_tpdos od (S slot) buf4 buf2 l';
      mret (buf4, buf2, mkTSlot c (sync_counter t) (last_send_us t) (sync_event_pending t)
                          (async_event_pending t) :: l')
  end.

Fixpoint sync_rpdos (od : OD) (slot : nat) (buf4 buf2 : list Z) (l : list RpdoSlot)
    : exec (list RpdoSlot) :=
  match l with
  | [] => mret []
  | r :: l' =>
      let off := pdo_od_offset (rp_od_number (rs_cfg r)) slot in
      comm_idx ← checked 16 (0x1400 + off);
      map_idx ← checked 16 (0x1600 + off);
      let '(buf4, buf2, c) := read_rpdo od comm_idx map_idx buf4 buf2 (rs_cfg r) in
      l' ← sync_rpdos od (S slot) buf4 buf2 l';
      mret (mkRSlot c (pending r) (last_rx_us r) (armed r) (expired r) :: l')
  end.

Definition sync_pdo_from_od (n : Node) : exec Node :=
  '(buf4, buf2, tpdo) ← sync_tpdos (nd_od n) 0 (zeros 4) (zeros 2) (nd_tpdo n);
  rpdo ← sync_rpdos (nd_od n) 0 buf4 buf2 (rpdo_slots (nd_rpdo n));
  mret (set_rpdo (mkRpdoEngine rpdo (length_errors (nd_rpdo n))) (set_tpdo tpdo n)).

Definition stored_cob (cob : Z) (enabled : bool) : list Z :=
  to_le_bytes 4 (Z.lor cob (if enabled then 0 else 0x80000000)).

(** The two loops of [write_pdo_cob_ids_to_od], over the COB-ID, od_number and
    enabled flag of each slot. *)
Fixpoint store_cobs (base : Z) (slot : nat) (l : list (Z * Z * bool)) (od : OD) : exec OD :=
  match l with
  | [] => mret od
  | (cob, od_number, enabled) :: l' =>
      idx ← checked 16 (base + pdo_od_offset od_number slot);
      store_cobs base (S slot) l' (fst (od_write od idx 1 (stored_cob cob enabled)))
  end.

Definition write_pdo_cob_ids_to_od (n : Node) : exec Node :=
  od ← store_cobs 0x1800 0
         (map (λ t, (tp_cob_id (ts_cfg t), tp_od_number (ts_cfg t), tp_enabled (ts_cfg t))) (nd_tpdo n))
         (nd_od n);
  od ← store_cobs 0x1400 0
         (map (λ r, (rp_cob_id (rs_cfg r), rp_od_number (rs_cfg r), rp_enabled (rs_cfg r)))
            (rpdo_slots (nd_rpdo n))) od;
  mret (set_od od n).

Definition reset_sync_state (n : Node) : exec Node :=
  n ← sync_config_from_od n;
  let n := set_sync (SyncConsumer.reset (nd_sync n)) n in
  let n := set_sync_producer (SyncProducer.reset (nd_sync_producer n)) n in
  let n := set_sync_window (SyncWindow.reset (nd_sync_window n)) n in
  let n := set_last_attempt_us None (set_pending_sync_tpdo [] n) in
  let n := set_rpdo (Rpdo.reset_deadline_monitoring (Rpdo.discard_pending (nd_rpdo n))) n in
  let n := set_dirty_set [] n in
  mret (set_tpdo (Tpdo.reset_communication_state (nd_tpdo n)) n).

Definition leave_operational (n : Node) : Node :=
  let n := set_rpdo (Rpdo.discard_pending (Rpdo.reset_deadline_monitoring (nd_rpdo n))) n in
  let n := set_tpdo (Tpdo.discard_async_events (Tpdo.discard_sync_events (nd_tpdo n))) n in
  let n := set_dirty_set [] n in
  let n := set_sync_window (SyncWindow.reset (nd_sync_window n)) n in
  set_last_attempt_us None (set_pending_sync_tpdo [] n).

Definition abort_all_sdo_transfers (n : Node) : Node :=
  let n := set_sdo_server (SdoServerState.abort_transfer (nd_sdo_server n)) n in
  let n := set_sdo_tx PendingSdoTx.default n in
  set_extra_sdo (map (λ c, mkExtra (SdoServerState.abort_transfer (ex_server c)) PendingSdoTx.default
                             (ex_rx c) (ex_tx c)) (nd_extra_sdo n)) n.

(** What an NMT reset and [request_reset] have in common. *)
Definition reinitialise (n : Node) : exec Node :=
  let n := abort_all_sdo_transfers n in
  n ← sync_pdo_from_od n;
  reset_sync_state (sync_heartbeat_from_od false n).

Definition request_reset (reset_type : ResetType) (n : Node) : exec Node :=
  n ← reinitialise (set_booted false (set_reset_event (Some reset_type) n));
  mret (set_nmt NmtHandler.new n).

Definition take_reset_event (n : Node) : Node * option ResetType :=
  (set_reset_event None n, nd_reset_event n).

(** ** Construction *)

(** [NodeConfig::from_od]; the three configuration sources of the generated
    dictionary are arguments. *)
Definition identity_sub (od : OD) (sub : Z) : Z :=
  match od_read od 0x1018 sub (zeros 8) with
  | (buf, Ok n) =>
      if n =? 4 then from_le_bytes [at_ buf 0; at_ buf 1; at_ buf 2; at_ buf 3] else 0
  | (_, Err _) => 0
  end.

Definition from_od (tpdo_configs : list TpdoConfig) (rpdo_configs : list RpdoConfig)
    (sdo_server_configs : list SdoServerConfig) (od : OD) (node_id : Z) : NodeConfig :=
  mkNodeConfig node_id 1000 false tpdo_configs rpdo_configs sdo_server_configs
    (mkIdentity (identity_sub od 1) (identity_sub od 2) (identity_sub od 3) (identity_sub od 4)).

Definition initial (config : NodeConfig) (od : OD) : Node :=
  let id := cfg_node_id config in
  mkNode id od NmtHandler.new SdoServerState.new PendingSdoTx.default
    (map (λ c, mkExtra SdoServerState.new PendingSdoTx.default (cob_rx c) (cob_tx c))
       (cfg_sdo_servers config))
    (Tpdo.new (cfg_tpdo config)) (Rpdo.new (cfg_rpdo config)) SyncConsumer.default_cob
    SyncProducer.new SyncWindow.new [] None
    (HeartbeatProducer.new id (cfg_heartbeat_interval_ms config))
    (replicate MAX_HEARTBEAT_MONITORS None) [] (EmcyProducer.new id)
    (LssSlave.new (cfg_identity config) id) false (cfg_auto_start config) [] [] 0 None.

Definition new (config : NodeConfig) (od : OD) : exec Node :=
  n ← write_pdo_cob_ids_to_od (initial config od);
  let n := set_od (od_store_sdo_server_cob_ids (nd_od n) (cfg_node_id config)) n in
  let n := set_od (od_store_error_register (nd_od n) (error_register (nd_emcy n))) n in
  n ← sync_config_from_od (sync_heartbeat_from_od false n);
  _ ← assert_ (sdo_cob_ids_are_unique n);
  _ ← assert_ (sync_cob_id_is_unique n);
  mret n.

(** ** Application interface *)

Context (EVT_QUEUE DIRTY_SET : nat).

Definition notify_changed (index subindex : Z) (n : Node) : Node :=
  let n := set_tpdo (Tpdo.notify_changed (nd_tpdo n) index subindex) n in
  if existsb (λ '(i, s), (i =? index) && (s =? subindex)) (nd_dirty_set n) then n
  else set_dirty_set (vec_push DIRTY_SET (nd_dirty_set n) (index, subindex)) n.

Definition mirror_error_register (n : Node) : Node :=
  let value := error_register (nd_emcy n) in
  let changed := match od_read (nd_od n) 0x1001 0 (zeros 8) with
                 | (old, Ok len) => negb ((len =? 1) && (at_ old 0 =? value))
                 | (_, Err _) => true
                 end in
  let n := set_od (od_store_error_register (nd_od n) value) n in
  if changed then notify_changed 0x1001 0 n else n.

Definition set_error (error_code register_bits : Z) (vendor_data : list Z) (n : Node) : exec Node :=
  p ← EmcyProducer.set_error (nd_emcy n) error_code register_bits vendor_data;
  mret (mirror_error_register (set_emcy p n)).

Definition clear_error (register_bits : Z) (n : Node) : exec Node :=
  p ← EmcyProducer.clear_error (nd_emcy n) register_bits;
  mret (mirror_error_register (set_emcy p n)).

Definition clear_all_errors (n : Node) : exec Node :=
  p ← EmcyProducer.clear_all (nd_emcy n);
  mret (mirror_error_register (set_emcy p n)).

Definition next_event (n : Node) : Node * option OdEvent :=
  let '(e, q) := Mailbox.pop_front (nd_event_queue n) in (set_event_queue q n, e).

(** [next_change]; the decoder of the dictionary is generated code. *)
Fixpoint next_change_loop {Change} (decode_event : OD → OdEvent → option Change) (od : OD)
    (q : list OdEvent) : list OdEvent * option Change :=
  match q with
  | [] => ([], None)
  | evt :: q' =>
      match decode_event od evt with
      | Some change => (q', Some change)
      | None => next_change_loop decode_event od q'
      end
  end.

Definition next_change {Change} (decode_event : OD → OdEvent → option Change) (n : Node)
    : Node * option Change :=
  let '(q, c) := next_change_loop decode_event (nd_od n) (nd_event_queue n) in (set_event_queue q n, c).

Definition next_heartbeat_event (n : Node) : Node * option HeartbeatEvent :=
  let '(e, q) := Mailbox.pop_front (nd_hb_events n) in (set_hb_events q n, e).

Definition heartbeat_status (n : Node) (node : Z) : HeartbeatMonitorState :=
  match List.find (λ m, hm_node m =? node) (monitors n) with
  | Some m => hm_state m
  | None => HmDisabled
  end.

Definition tpdo_cob_id (n : Node) (number : Z) : option Z :=
  c ← Tpdo.config (nd_tpdo n) number;
  if negb (tp_cob_id c =? 0) then CobId.new (tp_cob_id c) else None.

Definition rpdo_cob_id (n : Node) (number : Z) : option Z :=
  c ← Rpdo.config (nd_rpdo n) number;
  if negb (rp_cob_id c =? 0) then CobId.new (rp_cob_id c) else None.

Definition rpdo_deadline_expired (n : Node) (number : Z) : bool :=
  Rpdo.deadline_expired (nd_rpdo n) number.

(** [OdGuard::drop]: the TPDOs one of whose mapped objects differs between the
    snapshot and the dictionary are latched. *)
Definition object_changed (old new : OD) (m : PdoMapping) : exec bool :=
  let '(old_buf, old_r) := od_read old (pm_index m) (pm_subindex m) (zeros 8) in
  let '(new_buf, new_r) := od_read new (pm_index m) (pm_subindex m) (zeros 8) in
  let old_len := default 0 (res_ok old_r) in
  let new_len := default 0 (res_ok new_r) in
  if negb (old_len =? new_len) then mret true
  else
    a ← slice old_buf 0 old_len;
    b ← slice new_buf 0 new_len;
    mret (negb (bool_decide (a = b))).

Fixpoint any_changed (old new : OD) (ms : list PdoMapping) : exec bool :=
  match ms with
  | [] => mret false
  | m :: ms' =>
      b ← object_changed old new m;
      if (b : bool) then mret true else any_changed old new ms'
  end.

Fixpoint guard_latch (old new : OD) (l : TpdoEngine) : exec TpdoEngine :=
  match l with
  | [] => mret []
  | t :: l' =>
      b ← any_changed old new (tp_mappings (ts_cfg t));
      l' ← guard_latch old new l';
      mret ((if (b : bool) then Tpdo.latch t else t) :: l')
  end.

(** An application's batch of changes through [od_mut]. *)
Definition with_od_mut (f : OD → OD) (n : Node) : exec Node :=
  let snapshot := nd_od n in
  let n := set_od (f (nd_od n)) n in
  l ← guard_latch snapshot (nd_od n) (nd_tpdo n);
  mret (set_tpdo l n).

(** ** Event queues *)

(** Push with eviction of the oldest, counted. *)
Definition push_counted {A} (cap : nat) (q : list A) (dropped : Z) (x : A) : list A * Z :=
  if (cap <=? length q)%nat
  then (match Mailbox.push_back cap (snd (Mailbox.pop_front q)) x with Ok q => q | Err _ => snd (Mailbox.pop_front q) end,
        saturating_add 32 dropped 1)
  else (match Mailbox.push_back cap q x with Ok q => q | Err _ => q end, dropped).

Definition push_hb_event (n : Node) (e : HeartbeatEvent) : Node :=
  let '(q, d) := push_counted HB_EVENT_QUEUE (nd_hb_events n) (nd_overflow n) e in
  set_overflow d (set_hb_events q n).

Definition push_deadline_event (n : Node) (number : Z) : Node :=
  let '(q, d) := push_counted EVT_QUEUE (nd_event_queue n) (nd_overflow n)
                   (mkEvent (0x1400 + PdoNumber.od_offset number) 0 SrcRpdoDeadline) in
  set_overflow d (set_event_queue q n).

(** ** SDO requests *)

Definition channel (n : Node) (sel : SdoServerSel) : exec ExtraSdo :=
  match sel with
  | SelDefault => mret (mkExtra (nd_sdo_server n) (nd_sdo_tx n) (CobId.sdo_rx (nd_node_id n))
                          (CobId.sdo_tx (nd_node_id n)))
  | SelExtra i => unwrap (nd_extra_sdo n !! i)
  end.

Definition set_channel (n : Node) (sel : SdoServerSel) (c : ExtraSdo) : Node :=
  match sel with
  | SelDefault => set_sdo_tx (ex_pending c) (set_sdo_server (ex_server c) n)
  | SelExtra i => set_extra_sdo (<[i := c]> (nd_extra_sdo n)) n
  end.

Definition sdo_context (n : Node) (now : Z) : SdoContext :=
  let '(reserved, complete) := reserved_cob_ids n in
  mkCtx (NmtHandler.state (nd_nmt n)) now
    (Z.min (default 0 (od_sub_count (nd_od n) 0x1016)) (Z.of_nat MAX_HEARTBEAT_MONITORS))
    (sdo_cobs n) (mkReserved reserved (negb complete)) (sync_or_0 n).

(** The services whose configuration a committed download may have changed. *)
Definition resync (index : Z) (n : Node) : exec Node :=
  n ← (if in_range 0x1400 0x1BFF index then sync_pdo_from_od n else mret n);
  let n := if (index =? 0x1016) || (index =? 0x1017) then sync_heartbeat_from_od true n else n in
  if (index =? 0x1005) || (index =? 0x1006) || (index =? 0x1007) || (index =? 0x1019)
  then sync_config_from_od n else mret n.

Definition sdo_available (s : NmtState) : bool :=
  match s with PreOperational | Operational => true | _ => false end.

Section transport.
Context {S : Type} `{Can S}.

Definition handle_sdo_request (n : Node) (sel : SdoServerSel) (frame : CanFrame) (tr : S) (now : Z)
    : exec (Node * S) :=
  if negb (sdo_available (NmtHandler.state (nd_nmt n))) || negb (CanFrame.raw_dlc frame =? 8)
  then mret (n, tr)
  else
    req ← unwrap (try_into8 (CanFrame.data frame));
    c ← channel n sel;
    let is_abort := at_ req 0 =? 0x80 in
    if negb is_abort && match ptx_frame (ex_pending c) with Some _ => true | None => false end
    then mret (n, tr)
    else
      let pend := if is_abort then mkPendingTx None (refused_this_poll (ex_pending c))
                  else ex_pending c in
      let was_full := (EVT_QUEUE <=? length (nd_event_queue n))%nat in
      '(io, ok) ← process_with_context EVT_QUEUE
         (mkIo (ex_server c) (nd_od n) (zeros 8) (nd_event_queue n)) req (sdo_context n now);
      let '(pend, tr) :=
        if (ok : bool) then PendingSdoTx.try_send (PendingSdoTx.queue pend (ex_tx c) (io_resp io) now) tr
        else (pend, tr) in
      let '(srv, committed) := SdoServerState.take_committed_write (io_srv io) in
      let n := set_event_queue (io_events io) (set_od (io_od io) n) in
      let n := set_channel n sel (mkExtra srv pend (ex_rx c) (ex_tx c)) in
      match committed with
      | None => mret (n, tr)
      | Some (index, _) =>
          let n := if was_full then set_overflow (saturating_add 32 (nd_overflow n) 1) n else n in
          n ← resync index n; mret (n, tr)
      end.

(** ** SYNC and PDOs *)

(** Frames offered in order; those refused, up to the capacity of the list. *)
Fixpoint offer_all (cap : nat) (frames refused : list CanFrame) (tr : S) : list CanFrame * S :=
  match frames with
  | [] => (refused, tr)
  | f :: frames' =>
      let '(tr, r) := transmit tr f in
      offer_all cap frames' (if is_ok r then refused else vec_push cap refused f) tr
  end.

Definition retry_pending_sync_tpdo (n : Node) (tr : S) (now : Z) : Node * S :=
  if bool_decide (nd_pending_sync_tpdo n = []) then (n, tr)
  else if negb (bool_decide (NmtHandler.state (nd_nmt n) = Operational))
          || negb (SyncWindow.allows_transmit (nd_sync_window n) now)
  then (set_last_attempt_us None (set_pending_sync_tpdo [] n), tr)
  else if bool_decide (nd_last_attempt_us n = Some now) then (n, tr)
  else
    let '(refused, tr) := offer_all (length (nd_tpdo n)) (nd_pending_sync_tpdo n) [] tr in
    let n := set_pending_sync_tpdo refused (set_last_attempt_us (Some now) n) in
    (if bool_decide (refused = []) then set_last_attempt_us None n else n, tr).

Definition handle_sync (n : Node) (tr : S) (now : Z) : exec (Node * S) :=
  if negb (bool_decide (NmtHandler.state (nd_nmt n) = Operational)) then mret (n, tr)
  else
    let n := set_pending_sync_tpdo [] n in
    let n := set_sync_window (SyncWindow.open (nd_sync_window n) now) n in
    let n := set_last_attempt_us (Some now) n in
    '(rpdo, a) ← Rpdo.on_sync EVT_QUEUE (nd_rpdo n) (nd_od n) (nd_event_queue n);
    let n := set_event_queue (ap_events a) (set_od (ap_od a) (set_rpdo rpdo n)) in
    let n := set_overflow (saturating_add 32 (nd_overflow n) (ap_dropped a)) n in
    '(tpdo, out) ← Tpdo.on_sync (nd_tpdo n) (nd_od n) [];
    let n := set_tpdo tpdo n in
    let '(refused, tr) := offer_all (length (nd_tpdo n)) out (nd_pending_sync_tpdo n) tr in
    let n := set_pending_sync_tpdo refused n in
    mret (if bool_decide (refused = []) then set_last_attempt_us None n else n, tr).

Definition process_rpdo_frame (n : Node) (frame : CanFrame) (now : Z) : exec Node :=
  if bool_decide (NmtHandler.state (nd_nmt n) = Operational) then
    r ← Rpdo.process_with_drop_count EVT_QUEUE (nd_rpdo n) frame (nd_od n) (nd_event_queue n) now;
    let '(rpdo, a, _) := (r : RpdoEngine * Applied OD * bool) in
    let n := set_event_queue (ap_events a) (set_od (ap_od a) (set_rpdo rpdo n)) in
    mret (set_overflow (saturating_add 32 (nd_overflow n) (ap_dropped a)) n)
  else mret n.

(** ** Frame dispatch *)

Definition apply_transition (t : NmtTransition) (n : Node) : exec Node :=
  match t with
  | ResetApplication =>
      reinitialise (set_booted false (set_reset_event (Some ResetTypeApplication) n))
  | NtResetCommunication =>
      reinitialise (set_booted false (set_reset_event (Some ResetTypeCommunication) n))
  | StateChanged =>
      if negb (bool_decide (NmtHandler.state (nd_nmt n) = Operational)) then
        let n := leave_operational n in
        mret (if bool_decide (NmtHandler.state (nd_nmt n) = Stopped) then abort_all_sdo_transfers n else n)
      else mret n
  | NtNone => mret n
  end.

Definition handle_nmt (n : Node) (frame : CanFrame) : exec Node :=
  if CanFrame.raw_dlc frame =? 2 then
    let data := CanFrame.data frame in
    match NmtCommand.from_byte (at_ data 0) with
    | None => mret n
    | Some cmd =>
        let '(nmt, transition) :=
          NmtHandler.process_command (nd_nmt n) cmd (at_ data 1) (nd_node_id n) in
        apply_transition transition (set_nmt nmt n)
    end
  else mret n.

Definition monitor_for (frame : CanFrame) (m : option HeartbeatMonitor) : bool :=
  match m with
  | Some m => CobId.heartbeat (hm_node m) =? CanFrame.raw_id frame
  | None => false
  end.

(** The monitor a heartbeat frame is for, by its exact COB-ID. *)
Definition heartbeat_monitor (n : Node) (frame : CanFrame) : option (nat * HeartbeatMonitor) :=
  if CanFrame.raw_dlc frame =? 1 then
    i ← find_slot (λ _, monitor_for frame) (nd_hb_monitors n) 0;
    m ← mjoin (nd_hb_monitors n !! i);
    Some (i, m)
  else None.

Definition handle_heartbeat (n : Node) (i : nat) (m : HeartbeatMonitor) (frame : CanFrame) (now : Z) : Node :=
  let '(m, events, _) := HeartbeatMonitor.process m (hm_node m) (at_ (CanFrame.data frame) 0) now [] in
  fold_left push_hb_event events (set_hb_monitors (<[i := Some m]> (nd_hb_monitors n)) n).

Definition dispatch_frame (n : Node) (frame : CanFrame) (tr : S) (now : Z) : exec (Node * S) :=
  match find_slot (λ _ c, ex_rx c =? CanFrame.raw_id frame) (nd_extra_sdo n) 0 with
  | Some i => handle_sdo_request n (SelExtra i) frame tr now
  | None =>
      if bool_decide (SyncConsumer.cob_id (nd_sync n) = Some (CanFrame.raw_id frame)) then
        '(sync, pulse) ← SyncConsumer.process (nd_sync n) frame;
        let n := set_sync sync n in
        match pulse with
        | Some _ => handle_sync n tr now
        | None => mret (n, tr)
        end
      else if CanFrame.raw_id frame =? CobId.nmt then
        n ← handle_nmt n frame; mret (n, tr)
      else if CanFrame.raw_id frame =? CobId.sdo_rx (nd_node_id n) then
        handle_sdo_request n SelDefault frame tr now
      else if CanFrame.raw_id frame =? LSS_REQUEST_COB then
        '(lss, resp) ← LssSlave.process (nd_lss n) frame;
        mret (set_lss lss n, match resp with Some f => fst (transmit tr f) | None => tr end)
      else
        match heartbeat_monitor n frame with
        | Some (i, m) => mret (handle_heartbeat n i m frame now, tr)
        | None => n ← process_rpdo_frame n frame now; mret (n, tr)
        end
  end.

(** ** The processing function *)

(** The boot sequence; [None] postpones it to the next call. *)
Definition boot (n : Node) (tr : S) (now : Z) : exec (Node * S * bool) :=
  if nd_booted n then mret (n, tr, true)
  else
    '(hb, frame) ← HeartbeatProducer.send_boot (nd_heartbeat n) now;
    let n := set_heartbeat hb n in
    let '(tr, r) := transmit tr frame in
    match r with
    | Err WouldBlock => mret (n, tr, false)
    | _ =>
        let n := set_nmt (NmtHandler.boot_complete (nd_nmt n)) (set_booted true n) in
        mret (if nd_auto_start n
              then set_nmt (fst (NmtHandler.process_command (nd_nmt n) StartRemoteNode 0 (nd_node_id n))) n
              else n, tr, true)
    end.

(** The loop over the channels of additional servers. *)
Fixpoint begin_extras (l : list ExtraSdo) (now : Z) : exec (list ExtraSdo) :=
  match l with
  | [] => mret []
  | c :: l' =>
      '(p, s) ← PendingSdoTx.begin_poll (ex_pending c) (ex_server c) (ex_tx c) now;
      l' ← begin_extras l' now;
      mret (mkExtra s p (ex_rx c) (ex_tx c) :: l')
  end.

Definition begin_polls (n : Node) (now : Z) : exec Node :=
  '(p, s) ← PendingSdoTx.begin_poll (nd_sdo_tx n) (nd_sdo_server n) (CobId.sdo_tx (nd_node_id n)) now;
  extras ← begin_extras (nd_extra_sdo n) now;
  mret (set_extra_sdo extras (set_sdo_tx p (set_sdo_server s n))).

(** The receive loop; [None] when [fuel] frames did not empty the transport. *)
Fixpoint drain (fuel : nat) (n : Node) (tr : S) (now : Z) : exec (option (Node * S)) :=
  match fuel with
  | O => mret None
  | Datatypes.S fuel' =>
      let '(tr, r) := receive tr in
      match r with
      | Ok frame => '(n, tr) ← dispatch_frame n frame tr now; drain fuel' n tr now
      | Err _ => mret (Some (n, tr))
      end
  end.

Fixpoint service_extras (l : list ExtraSdo) (tr : S) (now : Z) : exec (list ExtraSdo * S) :=
  match l with
  | [] => mret ([], tr)
  | c :: l' =>
      '(p, s, tr) ← PendingSdoTx.service (ex_pending c) (ex_server c) (ex_tx c) tr now;
      '(l', tr) ← service_extras l' tr now;
      mret (mkExtra s p (ex_rx c) (ex_tx c) :: l', tr)
  end.

Definition services (n : Node) (tr : S) (now : Z) : exec (Node * S) :=
  '(p, s, tr) ← PendingSdoTx.service (nd_sdo_tx n) (nd_sdo_server n) (CobId.sdo_tx (nd_node_id n)) tr now;
  '(extras, tr) ← service_extras (nd_extra_sdo n) tr now;
  mret (set_extra_sdo extras (set_sdo_tx p (set_sdo_server s n)), tr).

Definition produce_sync (n : Node) (tr : S) (now : Z) : exec (Node * S) :=
  if nd_booted n && negb (bool_decide (NmtHandler.state (nd_nmt n) = Stopped)) then
    '(sp, frame) ← SyncProducer.poll (nd_sync_producer n) now;
    let n := set_sync_producer sp n in
    match frame with
    | None => mret (n, tr)
    | Some f =>
        let '(tr, r) := transmit tr f in
        if is_ok r then
          sp ← SyncProducer.confirm_sent (nd_sync_producer n) now;
          handle_sync (set_sync_producer sp n) tr now
        else mret (n, tr)
    end
  else mret (n, tr).

Definition check_pdo_deadlines (n : Node) (now : Z) : Node :=
  if bool_decide (NmtHandler.state (nd_nmt n) = Operational) then
    let '(rpdo, expired) := Rpdo.check_deadlines (nd_rpdo n) now [] in
    fold_left push_deadline_event expired (set_rpdo rpdo n)
  else leave_operational n.

Definition produce_heartbeat (n : Node) (tr : S) (now : Z) : exec (Node * S) :=
  if nd_booted n then
    hb ← HeartbeatProducer.pending (nd_heartbeat n) now (NmtHandler.state (nd_nmt n));
    match hb with
    | None => mret (n, tr)
    | Some f =>
        let '(tr, r) := transmit tr f in
        mret (if is_ok r then set_heartbeat (HeartbeatProducer.confirm_sent (nd_heartbeat n) now) n else n, tr)
    end
  else mret (n, tr).

(** The timeout checks, and the events they raise in order. *)
Fixpoint check_monitors (l : list (option HeartbeatMonitor)) (now : Z)
    : list (option HeartbeatMonitor) * list HeartbeatEvent :=
  match l with
  | [] => ([], [])
  | None :: l' => let '(l', evs) := check_monitors l' now in (None :: l', evs)
  | Some m :: l' =>
      let '(m, e) := HeartbeatMonitor.check_timeout m now in
      let '(l', evs) := check_monitors l' now in
      (Some m :: l', option_list e ++ evs)
  end.

Definition check_heartbeats (n : Node) (now : Z) : Node :=
  let '(l, evs) := check_monitors (nd_hb_monitors n) now in
  fold_left push_hb_event evs (set_hb_monitors l n).

(** The loop over the pending emergency frames, one of which each iteration
    that does not end it removes. *)
Fixpoint emcy_loop (fuel : nat) (p : EmcyProducer) (tr : S) : EmcyProducer * S :=
  match fuel with
  | O => (p, tr)
  | Datatypes.S fuel' =>
      match EmcyProducer.peek_pending p with
      | None => (p, tr)
      | Some f =>
          let '(tr, r) := transmit tr f in
          if is_ok r then emcy_loop fuel' (fst (EmcyProducer.take_pending p)) tr else (p, tr)
      end
  end.

Definition send_emergencies (n : Node) (tr : S) : Node * S :=
  if nd_booted n && sdo_available (NmtHandler.state (nd_nmt n)) then
    let '(p, tr) := emcy_loop (length (ep_pending (nd_emcy n))) (nd_emcy n) tr in
    (set_emcy p n, tr)
  else (n, tr).

Definition accepted (tr : S) (f : CanFrame) : S * bool :=
  let '(tr, r) := transmit tr f in (tr, is_ok r).

Definition poll_tpdos (n : Node) (tr : S) (now : Z) : exec (Node * S) :=
  if bool_decide (NmtHandler.state (nd_nmt n) = Operational) then
    '(tpdo, tr) ← Tpdo.poll_with accepted (nd_tpdo n) (nd_od n) now (nd_dirty_set n) tr;
    mret (set_tpdo tpdo n, tr)
  else mret (n, tr).

(** Everything after the receive loop. *)
Definition after_rx (n : Node) (tr : S) (now : Z) : exec (Node * S) :=
  '(n, tr) ← services n tr now;
  '(n, tr) ← produce_sync n tr now;
  let '(n, tr) := retry_pending_sync_tpdo n tr now in
  let n := check_pdo_deadlines n now in
  '(n, tr) ← produce_heartbeat n tr now;
  let n := check_heartbeats n now in
  let '(n, tr) := send_emergencies n tr in
  '(n, tr) ← poll_tpdos n tr now;
  mret (set_dirty_set [] n, tr).

Definition process (fuel : nat) (n : Node) (tr : S) (now : Z) : exec (option (Node * S)) :=
  r ← boot n tr now;
  let '(n, tr, up) := (r : Node * S * bool) in
  if negb up then mret (Some (n, tr))
  else
    n ← begin_polls (set_tpdo (Tpdo.latch_sync_events (nd_tpdo n) (nd_dirty_set n)) n) now;
    r ← drain fuel n tr now;
    match (r : option (Node * S)) with
    | None => mret None
    | Some (n, tr) => r ← after_rx n tr now; mret (Some r)
    end.

End transport.
End node.
