(* ===== verification/NodeSafe.v ===== *)
(** * The node never panics and its processing call returns

    [node_ok] is the invariant of [Node]: well-formed server transfers, bounded
    queues and counters, mapped widths that are bytes, and a dictionary whose
    SYNC entries hold supported values.  [process] preserves it, without a
    panic, over any transport whose receive queue shrinks with every frame
    taken; [new] establishes it. *)
From S2P Require Import Prelude Frame Nmt Od SdoProtocol SdoServer SdoServerSafe SdoServerSpec PdoBits PdoEngine PdoMapped PdoTimed Sync Heartbeat Emcy Lss Nb Node.

(** What the node relies on of a transport: received frames are frames, and
    [backlog] counts those waiting, of which sending creates none. *)
Class CanLaws (S : Type) `{Can S} := {
  can_ok : S → Prop;
  backlog : S → nat;
  transmit_ok : ∀ tr f, can_ok tr → can_ok (fst (transmit tr f)) ∧ (backlog (fst (transmit tr f)) ≤ backlog tr)%nat;
  receive_ok : ∀ tr tr' r, can_ok tr → receive tr = (tr', r) →
    can_ok tr' ∧ match r with Ok f => wf_frame f ∧ (backlog tr' < backlog tr)%nat | Err _ => (backlog tr' ≤ backlog tr)%nat end;
}.

#[export] Program Instance mailbox_can_laws (TX RX : nat) : @CanLaws MailboxTransport (mailbox_can TX RX) := {
  can_ok m := Forall wf_frame (rx_queue m);
  backlog m := length (rx_queue m);
}.
Next Obligation.
  intros TX RX tr f Hok. cbn. unfold Mailbox.transmit, Mailbox.push_back.
  destruct (_ <=? _)%nat; by simpl.
Qed.
Next Obligation.
  intros TX RX tr tr' r Hok. cbn. unfold Mailbox.receive. destruct Hok as [|f q Hf Hq]; simpl;
    intros [= <- <-]; simpl; split_and!; auto; lia.
Qed.

(** ** Dictionaries

    [od_ok] says that the entries the node takes its SYNC configuration from
    hold supported values and that the active mappings of RPDOs name application
    objects ([pdo_object]) or dummies.  The SDO server's checks keep it
    ([od_ok_sdo]); application objects do not contain the SYNC entries. *)

Definition sync_entries_supported (index subindex : Z) (data : list Z) : Prop :=
  (index = 0x1005 → subindex = 0 → len data = 4 → is_supported_sync_cob_id (from_le_bytes data) = true) ∧
  (index = 0x1019 → subindex = 0 → len data ≠ 0 → is_valid_sync_counter_overflow (at_ data 0) = true).

Class NodeOd (OD : Type) `{OdLaws OD} := {
  od_ok : OD → Prop;
  pdo_object : Z → Z → Prop;
  od_ok_1005 : ∀ od b, od_ok od → read_into od 0x1005 0 (zeros 4) = (b, true) →
    is_supported_sync_cob_id (from_le_bytes b) = true;
  od_ok_1019 : ∀ od b, od_ok od → read_into od 0x1019 0 (zeros 1) = (b, true) →
    is_valid_sync_counter_overflow (at_ b 0) = true;
  od_ok_sdo : ∀ od i s d, od_ok od → bytes d → od_validate_write od i s d = Ok tt → sync_entries_supported i s d →
    od_ok (fst (od_write od i s d));
  od_ok_pdo : ∀ od i s d, od_ok od → pdo_object i s → od_ok (fst (od_write od i s d));
  od_ok_cob : ∀ od i d, od_ok od → 0x1400 ≤ i < 0x1600 ∨ 0x1800 ≤ i < 0x1A00 →
    od_ok (fst (od_write od i 1 d));
  od_ok_mapping : ∀ od i s buf0 b0 buf b, od_ok od → 0x1600 ≤ i < 0x1800 →
    len buf0 = 4 → read_into od i 0 buf0 = (b0, true) → 1 ≤ s ≤ at_ b0 0 →
    len buf = 4 → read_into od i s buf = (b, true) →
    let m := PdoMapping.from_mapping_value (from_le_bytes b) in
    is_dummy_mapping_index (pm_index m) = false → pdo_object (pm_index m) (pm_subindex m);
  od_ok_store_servers : ∀ od id, od_ok od → od_ok (od_store_sdo_server_cob_ids od id);
  od_ok_store_register : ∀ od v, od_ok od → od_ok (od_store_error_register od v);
}.

Section safe.
Context {OD : Type} `{NodeOd OD} (EVT_QUEUE DIRTY_SET : nat).

(** A received mapping entry: dummy, or an application object. *)
Definition rx_mapping_ok (m : PdoMapping) : Prop :=
  wf_mapping m ∧ (is_dummy_mapping_index (pm_index m) = false → pdo_object (pm_index m) (pm_subindex m)).

Definition tpdo_ok (t : TpdoSlot) : Prop :=
  Forall wf_mapping (tp_mappings (ts_cfg t)) ∧ 0 ≤ tp_od_number (ts_cfg t) ≤ 512 ∧ 0 ≤ sync_counter t < 240.

Definition rpdo_ok (r : RpdoSlot) : Prop :=
  Forall rx_mapping_ok (rp_mappings (rs_cfg r)) ∧ 0 ≤ rp_od_number (rs_cfg r) ≤ 512 ∧
  match pending r with Some f => wf_frame f | None => True end.

Definition tpdos_ok (e : TpdoEngine) : Prop := Forall tpdo_ok e ∧ (length e ≤ 512)%nat.
Definition rpdos_ok (e : RpdoEngine) : Prop :=
  Forall rpdo_ok (rpdo_slots e) ∧ (length (rpdo_slots e) ≤ 512)%nat.

Definition producer_ok (p : SyncProducer) : Prop :=
  is_valid_sync_counter_overflow (overflow p) = true ∧ 0 ≤ prod_counter p ≤ overflow p.

Record node_ok (n : Node (OD := OD)) : Prop := {
  ok_id : wf_node (nd_node_id n);
  ok_od : od_ok (nd_od n);
  ok_server : wf_server (nd_sdo_server n);
  ok_extra : Forall (λ c, wf_server (ex_server c)) (nd_extra_sdo n);
  ok_tpdo : tpdos_ok (nd_tpdo n);
  ok_rpdo : rpdos_ok (nd_rpdo n);
  ok_producer : producer_ok (nd_sync_producer n);
  ok_heartbeat : wf_node (hp_node (nd_heartbeat n));
  ok_emcy : wf_node (ep_node (nd_emcy n));
  ok_events : (length (nd_event_queue n) ≤ EVT_QUEUE)%nat;
}.

(** ** Configuration reads *)

Lemma read_into_length od i s buf b ok :
  read_into od i s buf = (b, ok) → length b = length buf.
Proof.
  unfold read_into. intros Hr. pose proof (od_read_length od i s buf) as Hl.
  destruct (od_read od i s buf) as [b' r]. by injection Hr as <- _.
Qed.

Lemma read_into_bytes od i s buf b ok :
  bytes buf → read_into od i s buf = (b, ok) → bytes b.
Proof.
  unfold read_into. intros Hb Hr. pose proof (od_read_bytes od i s buf Hb) as Hl.
  destruct (od_read od i s buf) as [b' r]. by injection Hr as <- _.
Qed.

Lemma mapping_value_wf v : wf_mapping (PdoMapping.from_mapping_value v).
Proof. apply as_u8_u8. Qed.

Lemma vec_push_Forall {A} (P : A → Prop) cap l x : Forall P l → P x → Forall P (vec_push cap l x).
Proof. intros. unfold vec_push. destruct (_ <? _)%nat; [apply Forall_app; auto|done]. Qed.

Lemma read_mappings_tx od i subs buf ms :
  Forall wf_mapping ms → Forall wf_mapping (snd (read_mappings od i subs buf ms)).
Proof.
  revert buf ms. induction subs as [|s subs IH]; intros buf ms Hms; cbn [read_mappings]; [done|].
  destruct (read_into od i s buf) as [b [|]]; apply IH; [|done].
  apply vec_push_Forall; [done|apply mapping_value_wf].
Qed.

Lemma read_mappings_rx od i subs buf ms :
  od_ok od → 0x1600 ≤ i < 0x1800 → (∃ buf0 b0, len buf0 = 4 ∧ read_into od i 0 buf0 = (b0, true) ∧
    Forall (λ s, 1 ≤ s ≤ at_ b0 0) subs) → len buf = 4 →
  Forall rx_mapping_ok ms → Forall rx_mapping_ok (snd (read_mappings od i subs buf ms)).
Proof.
  intros Hod Hi (buf0 & b0 & Hb0 & Hr0 & Hsubs). revert buf ms.
  induction Hsubs as [|s subs Hs _ IH]; intros buf ms Hb Hms; cbn [read_mappings]; [done|].
  destruct (read_into od i s buf) as [b ok] eqn:Hr. apply read_into_length in Hr as Hl.
  destruct ok; apply IH; try done; try lia.
  apply vec_push_Forall; [done|]. split; [apply mapping_value_wf|]. intros Hd.
  by eapply (od_ok_mapping od i s buf0 b0 buf b).
Qed.

Lemma mapping_record_tx od i buf : Forall wf_mapping (snd (read_mapping_record od i buf)).
Proof.
  unfold read_mapping_record. destruct (read_into od i 0 buf) as [b [|]]; [|constructor].
  by apply read_mappings_tx.
Qed.

Lemma mapping_record_rx od i buf :
  od_ok od → 0x1600 ≤ i < 0x1800 → len buf = 4 → Forall rx_mapping_ok (snd (read_mapping_record od i buf)).
Proof.
  intros Hod Hi Hb. unfold read_mapping_record.
  destruct (read_into od i 0 buf) as [b [|]] eqn:Hr; [|constructor]. pose proof Hr as Hl. apply read_into_length in Hl.
  apply read_mappings_rx; try done; [|lia]. exists buf, b. split_and!; [done..|].
  apply Forall_forall. intros s Hs%list_elem_of_In%elem_of_seqZ. lia.
Qed.

Lemma read_mappings_length od i subs buf ms :
  length (fst (read_mappings od i subs buf ms)) = length buf.
Proof.
  revert buf ms. induction subs as [|s subs IH]; intros buf ms; cbn [read_mappings]; [done|].
  destruct (read_into od i s buf) as [b ok] eqn:Hr. apply read_into_length in Hr. rewrite IH. lia.
Qed.

Lemma mapping_record_length od i buf : length (fst (read_mapping_record od i buf)) = length buf.
Proof.
  unfold read_mapping_record. destruct (read_into od i 0 buf) as [b ok] eqn:Hr.
  apply read_into_length in Hr. destruct ok; [|done]. by rewrite read_mappings_length.
Qed.

Lemma pdo_offset_range k slot :
  0 ≤ k ≤ 512 → (slot < 512)%nat → 0 ≤ pdo_od_offset k slot < 512.
Proof.
  intros Hk Hs. unfold pdo_od_offset. destruct (Z.eqb_spec k 0); [|lia].
  rewrite wrap_id by (unfold is_uint; lia). lia.
Qed.

(** The configuration a slot reads keeps its number and its mapping's shape. *)
Lemma read_tpdo_ok od ci mi buf4 buf2 c b4 b2 c' :
  read_tpdo od ci mi buf4 buf2 c = (b4, b2, c') →
  length b4 = length buf4 ∧ tp_od_number c' = tp_od_number c ∧ Forall wf_mapping (tp_mappings c').
Proof.
  unfold read_tpdo. intros Hr.
  destruct (read_into od ci 1 buf4) as [b1 ok1] eqn:E1. destruct (read_into od ci 2 b1) as [b2' ok2] eqn:E2.
  destruct (read_into od ci 3 buf2) as [b3 ok3] eqn:E3. destruct (read_into od ci 5 b3) as [b5 ok5] eqn:E5.
  pose proof (mapping_record_tx od mi b2') as Hm. pose proof (mapping_record_length od mi b2') as Hl.
  destruct (read_mapping_record od mi b2') as [b6 ms]. injection Hr as <- <- <-.
  apply read_into_length in E1, E2. simpl in *. split_and!; [congruence|done|done].
Qed.

Lemma read_rpdo_ok od ci mi buf4 buf2 c b4 b2 c' :
  od_ok od → 0x1600 ≤ mi < 0x1800 → len buf4 = 4 →
  read_rpdo od ci mi buf4 buf2 c = (b4, b2, c') →
  length b4 = length buf4 ∧ rp_od_number c' = rp_od_number c ∧ Forall rx_mapping_ok (rp_mappings c').
Proof.
  unfold read_rpdo. intros Hod Hmi Hb Hr.
  destruct (read_into od ci 1 buf4) as [b1 ok1] eqn:E1. destruct (read_into od ci 2 b1) as [b2' ok2] eqn:E2.
  destruct (read_into od ci 5 buf2) as [b5 ok5] eqn:E5. apply read_into_length in E1, E2.
  pose proof (mapping_record_rx od mi b2' Hod Hmi ltac:(lia)) as Hm.
  pose proof (mapping_record_length od mi b2') as Hl.
  destruct (read_mapping_record od mi b2') as [b6 ms]. injection Hr as <- <- <-.
  simpl in *. split_and!; [congruence|done|done].
Qed.

Lemma sync_tpdos_ok od slot buf4 buf2 l :
  Forall tpdo_ok l → (slot + length l ≤ 512)%nat →
  runs (sync_tpdos od slot buf4 buf2 l) (λ '(b4, _, l'),
    length b4 = length buf4 ∧ length l' = length l ∧ Forall tpdo_ok l').
Proof.
  intros Hl. revert slot buf4 buf2. induction Hl as [|t l Ht Hl IH]; intros slot buf4 buf2 Hs; cbn [sync_tpdos].
  { by rstep. }
  destruct Ht as (Hm & Hn & Hc). cbn [length] in Hs.
  pose proof (pdo_offset_range _ slot Hn ltac:(lia)) as Ho.
  rewrite !checked_ret by (unfold is_uint; lia). rstep.
  destruct (read_tpdo od _ _ buf4 buf2 (ts_cfg t)) as [[b4 b2] c] eqn:E.
  apply read_tpdo_ok in E as (Hb & Hk & Hms).
  eapply runs_bind; [apply IH; lia|]. intros [[b4' b2'] l'] (Hb' & Hl' & Hok). rstep.
  split_and!; [congruence|simpl; lia|]. constructor; [|done]. split_and!; simpl; try done; lia.
Qed.

Lemma sync_rpdos_ok od slot buf4 buf2 l :
  od_ok od → len buf4 = 4 → Forall rpdo_ok l → (slot + length l ≤ 512)%nat →
  runs (sync_rpdos od slot buf4 buf2 l) (λ l', length l' = length l ∧ Forall rpdo_ok l').
Proof.
  intros Hod Hb4 Hl. revert slot buf4 buf2 Hb4.
  induction Hl as [|r l Hr Hl IH]; intros slot buf4 buf2 Hb4 Hs; cbn [sync_rpdos].
  { by rstep. }
  destruct Hr as (Hm & Hn & Hp). cbn [length] in Hs.
  pose proof (pdo_offset_range _ slot Hn ltac:(lia)) as Ho.
  rewrite !checked_ret by (unfold is_uint; lia). rstep.
  destruct (read_rpdo od _ _ buf4 buf2 (rs_cfg r)) as [[b4 b2] c] eqn:E.
  apply read_rpdo_ok in E as (Hb & Hk & Hms); [|done|lia|done].
  eapply runs_bind; [apply IH; lia|]. intros l' (Hl' & Hok). rstep.
  split; [simpl; lia|]. constructor; [|done]. split_and!; simpl; try done; lia.
Qed.

(** Each step re-establishes the fields it changes and keeps the others. *)
Ltac keep_ok Hok := destruct Hok; split; cbn [nd_node_id nd_od nd_sdo_server nd_extra_sdo nd_tpdo nd_rpdo
  nd_sync_producer nd_heartbeat nd_emcy nd_event_queue set_od set_nmt set_sdo_server set_sdo_tx set_extra_sdo
  set_tpdo set_rpdo set_sync set_sync_producer set_sync_window set_pending_sync_tpdo set_last_attempt_us
  set_heartbeat set_hb_monitors set_hb_events set_emcy set_lss set_booted set_event_queue set_dirty_set
  set_overflow set_reset_event]; auto.

Lemma sync_pdo_ok n : node_ok n → runs (sync_pdo_from_od n) node_ok.
Proof.
  intros Hok. unfold sync_pdo_from_od. destruct (ok_tpdo n Hok) as [Ht Htl], (ok_rpdo n Hok) as [Hr Hrl].
  eapply runs_bind; [by apply sync_tpdos_ok|]. intros [[b4 b2] tp] (Hb & Hl & Hts).
  eapply runs_bind.
  { apply sync_rpdos_ok; [apply Hok|by rewrite Hb|done|done]. }
  intros rp [Hl' Hrs]. rstep. keep_ok Hok; split; simpl; auto; lia.
Qed.

Lemma sync_heartbeat_ok b n : node_ok n → node_ok (sync_heartbeat_from_od b n).
Proof.
  intros Hok. unfold sync_heartbeat_from_od. destruct (read_into (nd_od n) 0x1017 0 (zeros 2)) as [b2 [|]]; keep_ok Hok.
Qed.

Lemma configure_ok p cob i ov :
  producer_ok p → is_valid_sync_counter_overflow ov = true → producer_ok (SyncProducer.configure p cob i ov).
Proof.
  intros Hp Hov. unfold SyncProducer.configure. destruct (_ && _); [done|]. split; [done|]. simpl.
  unfold is_valid_sync_counter_overflow in Hov. lia.
Qed.

Lemma producer_reset_ok p : producer_ok p → producer_ok (SyncProducer.reset p).
Proof. intros [? ?]. split; [done|]. simpl. lia. Qed.

Lemma sync_config_ok n : node_ok n → runs (sync_config_from_od n) node_ok.
Proof.
  intros Hok. unfold sync_config_from_od.
  destruct (read_into (nd_od n) 0x1005 0 (zeros 4)) as [b4 ok] eqn:E1.
  assert (runs (if ok then _ ← assert_ (is_supported_sync_cob_id (from_le_bytes b4));
      unwrap (SyncCobId.from_raw (from_le_bytes b4)) else mret SyncCobId.DEFAULT) (λ _, True)) as Hobj.
  { destruct ok; [|done]. apply od_ok_1005 in E1; [|apply Hok]. unfold SyncCobId.from_raw. by rewrite E1. }
  eapply runs_bind; [exact Hobj|]. intros obj _. cbn beta zeta.
  destruct (read_into _ 0x1006 0 b4) as [b6 ok6]. destruct (read_into _ 0x1007 0 b6) as [b7 ok7].
  cbn [nd_od set_sync set_sync_window].
  destruct (read_into (nd_od n) 0x1019 0 (zeros 1)) as [b9 ok9] eqn:E9.
  assert (is_valid_sync_counter_overflow (if ok9 then at_ b9 0 else 0) = true) as Hov.
  { destruct ok9; [|done]. by eapply od_ok_1019; [apply Hok|]. }
  rewrite Hov. rstep. keep_ok Hok. by apply configure_ok.
Qed.

Lemma map_slots_ok f e :
  (∀ r, rpdo_ok r → rpdo_ok (f r)) → rpdos_ok e → rpdos_ok (Rpdo.map_slots f e).
Proof. intros Hf [He Hl]. split; simpl; [|by rewrite length_map]. apply Forall_map. by eapply Forall_impl. Qed.

Lemma map_tpdos_ok f e : (∀ t, tpdo_ok t → tpdo_ok (f t)) → tpdos_ok e → tpdos_ok (map f e).
Proof. intros Hf [He Hl]. split; [|by rewrite length_map]. apply Forall_map. by eapply Forall_impl. Qed.

Lemma discard_ok e : rpdos_ok e → rpdos_ok (Rpdo.discard_pending e).
Proof. apply map_slots_ok. by intros r (? & ? & _). Qed.

Lemma deadline_reset_ok e : rpdos_ok e → rpdos_ok (Rpdo.reset_deadline_monitoring e).
Proof. apply map_slots_ok. by intros r (? & ? & ?). Qed.

Lemma tpdo_discard_ok e : tpdos_ok e → tpdos_ok (Tpdo.discard_async_events (Tpdo.discard_sync_events e)).
Proof. intros. apply map_tpdos_ok; [by intros t (? & ? & ?)|]. apply map_tpdos_ok; [by intros t (? & ? & ?)|done]. Qed.

Lemma tpdo_reset_ok e : tpdos_ok e → tpdos_ok (Tpdo.reset_communication_state e).
Proof. apply map_tpdos_ok. intros t (? & ? & ?). split_and!; simpl; try done; lia. Qed.

Lemma leave_operational_ok n : node_ok n → node_ok (leave_operational n).
Proof. intros Hok. unfold leave_operational. keep_ok Hok; auto using discard_ok, deadline_reset_ok, tpdo_discard_ok. Qed.

Lemma reset_sync_state_ok n : node_ok n → runs (reset_sync_state n) node_ok.
Proof.
  intros Hok. unfold reset_sync_state. eapply runs_bind; [by apply sync_config_ok|]. clear n Hok. intros n Hok. rstep.
  keep_ok Hok; auto using discard_ok, deadline_reset_ok, tpdo_reset_ok, producer_reset_ok.
Qed.

Lemma abort_all_ok n : node_ok n → node_ok (abort_all_sdo_transfers n).
Proof.
  intros Hok. unfold abort_all_sdo_transfers. keep_ok Hok; try done.
  apply Forall_map, Forall_true. by intros c.
Qed.

Lemma reinitialise_ok n : node_ok n → runs (reinitialise n) node_ok.
Proof.
  intros Hok. unfold reinitialise. eapply runs_bind; [by apply sync_pdo_ok, abort_all_ok|].
  intros n' Hok'. by apply reset_sync_state_ok, sync_heartbeat_ok.
Qed.

Lemma set_sync_ok v n : node_ok n → node_ok (set_sync v n).
Proof. intros Hok. keep_ok Hok. Qed.
Lemma set_nmt_ok v n : node_ok n → node_ok (set_nmt v n).
Proof. intros Hok. keep_ok Hok. Qed.
Lemma set_overflow_ok v n : node_ok n → node_ok (set_overflow v n).
Proof. intros Hok. keep_ok Hok. Qed.
Lemma set_attempt_ok v w n : node_ok n → node_ok (set_last_attempt_us v (set_pending_sync_tpdo w n)).
Proof. intros Hok. keep_ok Hok. Qed.
Lemma set_pending_ok v n : node_ok n → node_ok (set_pending_sync_tpdo v n).
Proof. intros Hok. keep_ok Hok. Qed.
Lemma set_last_ok v n : node_ok n → node_ok (set_last_attempt_us v n).
Proof. intros Hok. keep_ok Hok. Qed.
Lemma set_booted_ok v n : node_ok n → node_ok (set_booted v n).
Proof. intros Hok. keep_ok Hok. Qed.
Lemma set_reset_event_ok v n : node_ok n → node_ok (set_reset_event v n).
Proof. intros Hok. keep_ok Hok. Qed.
Lemma set_lss_ok v n : node_ok n → node_ok (set_lss v n).
Proof. intros Hok. keep_ok Hok. Qed.
Lemma set_hb_monitors_ok v n : node_ok n → node_ok (set_hb_monitors v n).
Proof. intros Hok. keep_ok Hok. Qed.
Lemma set_dirty_set_ok v n : node_ok n → node_ok (set_dirty_set v n).
Proof. intros Hok. keep_ok Hok. Qed.
Lemma set_window_ok v n : node_ok n → node_ok (set_sync_window v n).
Proof. intros Hok. keep_ok Hok. Qed.

Create HintDb node discriminated.
#[local] Hint Resolve set_sync_ok set_nmt_ok set_overflow_ok set_attempt_ok set_pending_ok set_last_ok
  set_booted_ok set_reset_event_ok set_lss_ok set_hb_monitors_ok set_dirty_set_ok set_window_ok
  leave_operational_ok abort_all_ok sync_heartbeat_ok : node.

(** ** SDO requests *)

Lemma supported_by_validation od ctx i s d :
  validate_download od ctx i s d = Ok tt →
  od_validate_write od i s d = Ok tt ∧ sync_entries_supported i s d.
Proof.
  unfold validate_download, check. intros Hv.
  destruct (validate_heartbeat_consumer_write _ _ _ _ _ _ _); [|done].
  destruct (validate_pdo_cob_id_write _ _ _ _ _); [|done].
  destruct (validate_sync_cob_id_write _ _ _ _ _) eqn:H5; [|done].
  destruct (validate_sync_counter_overflow_write _ _ _) eqn:H9; [|done].
  destruct (od_validate_write od i s d) as [[]|]; [|done]. split; [done|]. split.
  - intros -> -> Hl. unfold validate_sync_cob_id_write in H5. rewrite Hl in H5. cbn [negb orb Z.eqb Pos.eqb] in H5.
    by destruct (is_supported_sync_cob_id _).
  - intros -> -> Hl. unfold validate_sync_counter_overflow_write in H9.
    rewrite (proj2 (Z.eqb_neq _ _) Hl) in H9. cbn [negb orb Z.eqb Pos.eqb] in H9.
    by destruct (is_valid_sync_counter_overflow _).
Qed.

Lemma request_keeps_od io request ctx :
  wf_io EVT_QUEUE io → od_ok (io_od io) → array 8 request →
  runs (process_with_context EVT_QUEUE io request ctx) (λ r, wf_io EVT_QUEUE (fst r) ∧ od_ok (io_od (fst r))).
Proof.
  intros Hio Hod Hreq. destruct (runs_inv _ _ (process_with_context_safe EVT_QUEUE io request ctx Hio Hreq)) as (r & Hr & Hwf).
  eapply runs_eq; [exact Hr|]. split; [exact Hwf|].
  destruct (process_commit EVT_QUEUE io request ctx _ Hr) as [(-> & _)|(i & s & d & _ & _ & (Hv & -> & _) & Hb)]; [done|].
  apply supported_by_validation in Hv as [Hv Hs]. apply od_ok_sdo; try done. apply Hb. split; [apply Hreq|].
  destruct Hio as [Hsrv _]. unfold wf_server in Hsrv. destruct (transfer (io_srv io)) as [[t|t|t]|]; try done; apply Hsrv.
Qed.

Lemma channel_ok n sel :
  node_ok n → match sel with SelDefault => True | SelExtra i => (i < length (nd_extra_sdo n))%nat end →
  runs (channel n sel) (λ c, wf_server (ex_server c)).
Proof.
  intros Hok Hs. destruct sel as [|i]; cbn [channel].
  - apply Hok.
  - destruct (lookup_lt_is_Some_2 _ _ Hs) as [c Hc]. rewrite Hc. rstep.
    by eapply (Forall_lookup_1 (λ c, wf_server (ex_server c))); [apply ok_extra|].
Qed.

Lemma set_channel_ok n sel c : node_ok n → wf_server (ex_server c) → node_ok (set_channel n sel c).
Proof.
  intros Hok Hc. destruct sel; cbn [set_channel]; keep_ok Hok. by apply Forall_insert.
Qed.

Lemma resync_ok i n : node_ok n → runs (resync i n) node_ok.
Proof.
  intros Hok. unfold resync.
  assert (runs (if in_range 0x1400 0x1BFF i then sync_pdo_from_od n else mret n) node_ok) as Hp
    by (case_match; [by apply sync_pdo_ok|done]).
  eapply runs_bind; [exact Hp|]. clear n Hok Hp. intros n Hok.
  cbn zeta. assert (node_ok (if (i =? 0x1016) || (i =? 0x1017) then sync_heartbeat_from_od true n else n)) as Hh
    by (case_match; auto with node).
  revert Hh. generalize (if (i =? 0x1016) || (i =? 0x1017) then sync_heartbeat_from_od true n else n).
  intros n' Hn'. case_match; [by apply sync_config_ok|done].
Qed.

(** ** PDOs *)

Lemma apply_write_ok (a : Applied OD) m v :
  rx_mapping_ok m → is_dummy_mapping_index (pm_index m) = false →
  od_ok (ap_od a) → (length (ap_events a) ≤ EVT_QUEUE)%nat →
  od_ok (ap_od (apply_write EVT_QUEUE a m v)) ∧ (length (ap_events (apply_write EVT_QUEUE a m v)) ≤ EVT_QUEUE)%nat.
Proof.
  intros [_ Hm] Hd Hod He. unfold apply_write.
  pose proof (od_ok_pdo (ap_od a) _ _ v Hod (Hm Hd)) as Hw.
  destruct (od_write _ _ _ _) as [od [u|e]]; simpl; auto using push_event_length.
Qed.

Lemma apply_loop_ok data ms off (a : Applied OD) :
  Forall rx_mapping_ok ms → bytes data → len data ≤ 8 → 0 ≤ off → od_ok (ap_od a) →
  (length (ap_events a) ≤ EVT_QUEUE)%nat →
  runs (apply_loop EVT_QUEUE data ms off a) (λ a', od_ok (ap_od a') ∧ (length (ap_events a') ≤ EVT_QUEUE)%nat).
Proof.
  intros Hms Hd Hl. revert off a. induction Hms as [|m ms Hm Hms IH]; intros off a Ho Hod He; [done|].
  cbn [apply_loop]. pose proof Hm as [Hw _]. pose proof Hw as Hw'. unfold wf_mapping, is_uint in Hw'.
  destruct (Z.ltb_spec (len data * 8) (off + bit_length m)); [done|].
  destruct (Z.ltb_spec 8 (bytes_for_bits (bit_length m))); [done|]. cbn [orb].
  destruct (is_dummy_mapping_index (pm_index m)) eqn:Hdm; [apply IH; try done; lia|].
  rewrite copy_to_zeros by (done || lia). rstep.
  destruct (widen_spec (ap_od a) m (field (from_le_bytes data) off (bit_length m)) Hw ltac:(lia)
    ltac:(apply field_range; lia)) as (obj & k & -> & Hsl). rstep. rewrite Hsl. rstep.
  edestruct apply_write_ok as [H1' H2']; [exact Hm|exact Hdm|exact Hod|exact He|]. apply IH; [lia|exact H1'|exact H2'].
Qed.

Lemma apply_mapped_ok cfg f od events :
  Forall rx_mapping_ok (rp_mappings cfg) → wf_frame f → od_ok od → (length events ≤ EVT_QUEUE)%nat →
  runs (apply_mapped EVT_QUEUE cfg (CanFrame.data f) od events)
    (λ a', od_ok (ap_od a') ∧ (length (ap_events a') ≤ EVT_QUEUE)%nat).
Proof.
  intros Hms Hf Hod He. unfold apply_mapped. apply apply_loop_ok; try done.
  - by apply bytes_data.
  - rewrite length_data by done. apply Hf.
Qed.

Lemma rpdo_on_sync_ok slots od events d :
  Forall rpdo_ok slots → od_ok od → (length events ≤ EVT_QUEUE)%nat →
  runs (Rpdo.on_sync_loop EVT_QUEUE slots od events d) (λ '(slots', a),
    Forall rpdo_ok slots' ∧ length slots' = length slots ∧
    od_ok (ap_od a) ∧ (length (ap_events a) ≤ EVT_QUEUE)%nat).
Proof.
  intros Hs. revert od events d. induction Hs as [|r slots Hr Hs IH]; intros od events d Hod He; [done|].
  cbn [Rpdo.on_sync_loop]. destruct Hr as (Hm & Hn & Hp). destruct (pending r) as [f|] eqn:Ep.
  - eapply runs_bind; [by apply apply_mapped_ok|]. intros a [Ha1 Ha2].
    eapply runs_bind; [by apply IH|]. intros [slots' a'] (H1' & H2' & H3' & H4'). rstep.
    split_and!; try done; [|simpl; lia]. by constructor.
  - eapply runs_bind; [by apply IH|]. intros [slots' a'] (H1' & H2' & H3' & H4'). rstep.
    split_and!; try done; [|simpl; lia]. constructor; [|done]. split_and!; try done; [lia..|by rewrite Ep].
Qed.

Lemma tpdo_on_sync_ok cap e od out :
  Forall tpdo_ok e → runs (Tpdo.on_sync_loop cap e od out) (λ '(e', _), Forall tpdo_ok e' ∧ length e' = length e).
Proof.
  intros He. revert out. induction He as [|t e Ht He IH]; intros out; [done|]. cbn [Tpdo.on_sync_loop].
  assert (runs (Tpdo.on_sync_slot t od) (λ r, tpdo_ok (fst r))) as Hslot.
  { pose proof Ht as (Hm & Hn & Hc). unfold Tpdo.on_sync_slot.
    pose proof (build_pdo_frame_image (ts_cfg t) od Hm) as Hb.
    destruct (tp_enabled _); cbn [negb]; [|exact Ht].
    destruct (tp_transmission_type (ts_cfg t) =? 0).
    { destruct (sync_event_pending t); [rewrite Hb|]; exact Ht. }
    unfold in_range. destruct (_ && _) eqn:Htt; [|exact Ht]. rewrite checked_ret by (unfold is_uint; lia). rstep.
    destruct (Z.leb_spec (tp_transmission_type (ts_cfg t)) (sync_counter t + 1)); [rewrite Hb|]; rstep;
      (split; [done|]); simpl; lia. }
  eapply runs_bind; [exact Hslot|]. intros [t' f] Ht'. cbn [fst] in Ht'.
  eapply runs_bind; [apply IH|]. intros [e' out'] [H1' H2']. rstep. split; [by constructor|simpl; lia].
Qed.

Lemma rpdo_frame_ok e f od events now :
  rpdos_ok e → wf_frame f → od_ok od → (length events ≤ EVT_QUEUE)%nat →
  runs (Rpdo.process_with_drop_count EVT_QUEUE e f od events now) (λ '(e', a, _),
    rpdos_ok e' ∧ od_ok (ap_od a) ∧ (length (ap_events a) ≤ EVT_QUEUE)%nat).
Proof.
  intros Hok Hf Hod Hev. pose proof Hok as [He Hl]. unfold Rpdo.process_with_drop_count.
  destruct (Rpdo.matching_slot e _) as [slot|] eqn:Em; [|rstep; by split_and!].
  unfold Rpdo.matching_slot in Em. apply find_slot_lookup in Em as (r & Hr & _ & _).
  rewrite Nat.sub_0_r in Hr. rewrite Hr. rstep.
  pose proof (Forall_lookup_1 _ _ _ _ He Hr) as (Hm & Hn & Hp).
  assert (∀ r', rpdo_ok r' → rpdos_ok (Rpdo.set_slot e slot r')) as Hset.
  { intros r' Hr'. split; simpl; [by apply Forall_insert|by rewrite length_insert]. }
  match goal with |- runs (if ?b then _ else _) _ => destruct b end; [rstep; by split_and!|].
  destruct (raw_is_synchronous _).
  { rstep. split_and!; [|done..]. apply Hset. by split; [|split]. }
  eapply runs_bind; [by apply apply_mapped_ok|]. intros a [Ha1 Ha2]. rstep.
  split_and!; [|done..]. apply Hset. by split; [|split].
Qed.

Section transport.
Context {S : Type} `{CanLaws S}.

(** What every operation on the node and the transport guarantees: [node_ok],
    [can_ok] and no more frames waiting than before. *)
Definition step_ok (tr : S) (r : Node (OD := OD) * S) : Prop :=
  node_ok (fst r) ∧ can_ok (snd r) ∧ (backlog (snd r) ≤ backlog tr)%nat.

Lemma step_ok_refl n tr : node_ok n → can_ok tr → step_ok tr (n, tr).
Proof. intros ??. by split; [|split]. Qed.

Lemma step_ok_trans tr tr' r : (backlog tr' ≤ backlog tr)%nat → step_ok tr' r → step_ok tr r.
Proof. intros ? (? & ? & ?). split; [done|split; [done|lia]]. Qed.

Lemma step_bind {B} tr (m : exec (Node (OD := OD) * S)) (k : Node (OD := OD) * S → exec B) Q :
  runs m (step_ok tr) →
  (∀ n' tr', node_ok n' → can_ok tr' → (backlog tr' ≤ backlog tr)%nat → runs (k (n', tr')) Q) →
  runs (m ≫= k) Q.
Proof. intros Hm Hk. eapply runs_bind; [exact Hm|]. intros [n' tr'] (? & ? & ?). by apply Hk. Qed.

Definition quieter (tr tr' : S) : Prop := can_ok tr' ∧ (backlog tr' ≤ backlog tr)%nat.

Lemma quieter_step n tr tr' : node_ok n → quieter tr tr' → step_ok tr (n, tr').
Proof. intros ? [? ?]. by split; [|split]. Qed.

Lemma transmit_quieter tr f : can_ok tr → quieter tr (fst (transmit tr f)).
Proof. apply transmit_ok. Qed.

Lemma quieter_refl tr : can_ok tr → quieter tr tr.
Proof. by split. Qed.

Lemma quieter_trans tr tr' tr'' : quieter tr tr' → quieter tr' tr'' → quieter tr tr''.
Proof. intros [? ?] [? ?]. split; [done|lia]. Qed.

Lemma try_send_quieter p tr : can_ok tr → quieter tr (snd (PendingSdoTx.try_send p tr)).
Proof.
  intros Hc. unfold PendingSdoTx.try_send. destruct (refused_this_poll p); [by apply quieter_refl|].
  destruct (ptx_frame p) as [[f t]|]; [|by apply quieter_refl].
  pose proof (transmit_quieter tr f Hc). by destruct (transmit tr f) as [tr' [|]].
Qed.

Lemma handle_sdo_request_ok n sel f tr now :
  node_ok n → can_ok tr → wf_frame f →
  match sel with SelDefault => True | SelExtra i => (i < length (nd_extra_sdo n))%nat end →
  runs (handle_sdo_request EVT_QUEUE n sel f tr now) (step_ok tr).
Proof.
  intros Hok Hc Hf Hsel. unfold handle_sdo_request.
  destruct (negb _ || _) eqn:Hg; [rstep; by apply step_ok_refl|].
  apply orb_false_iff in Hg as [_ Hdlc]. unfold CanFrame.raw_dlc in Hdlc.
  pose proof (length_data f Hf) as Hlen. pose proof (bytes_data f Hf) as Hbytes.
  unfold try_into8. rewrite (proj2 (Z.eqb_eq (len (CanFrame.data f)) 8)) by lia. rstep.
  set (req := CanFrame.data f) in *. assert (array 8 req) as Hreq by (split; [lia|done]).
  eapply runs_bind; [by apply channel_ok|]. intros c Hsrv. cbn beta zeta.
  match goal with |- runs (if ?b then _ else _) _ => destruct b end; [rstep; by apply step_ok_refl|].
  eapply runs_bind.
  { apply request_keeps_od; [|by apply Hok|exact Hreq].
    split_and!; simpl; [exact Hsrv|by apply array_zeros|apply Hok]. }
  intros [io ok] [(Hsrv' & _ & Hev) Hod]. cbn [fst snd] in *.
  match goal with |- runs (let '(_, _) := ?x in _) _ => set (sent := x) end.
  assert (quieter tr (snd sent)) as Hq by (unfold sent; destruct ok; [by apply try_send_quieter|by apply quieter_refl]).
  clearbody sent. destruct sent as [pend tr']. cbn [fst snd] in *.
  unfold SdoServerState.take_committed_write. cbv beta iota.
  match goal with |- context [set_channel ?x sel ?y] => assert (node_ok (set_channel x sel y)) as Hn' end.
  { apply set_channel_ok; [|done]. keep_ok Hok. }
  revert Hn'. match goal with |- context [set_channel ?x sel ?y] => generalize (set_channel x sel y) end. intros n' Hn'.
  destruct (committed_write _) as [[i s]|].
  - apply (runs_bind _ _ node_ok); [apply resync_ok; destruct (_ <=? _)%nat; auto with node|]. intros n2 Hn2. rstep. by apply quieter_step.
  - rstep. by apply quieter_step.
Qed.

Lemma offer_all_quieter cap fs out tr : can_ok tr → quieter tr (snd (offer_all cap fs out tr)).
Proof.
  revert out tr. induction fs as [|f fs IH]; intros out tr Hc; cbn [offer_all]; [by apply quieter_refl|].
  pose proof (transmit_quieter tr f Hc) as Hq. destruct (transmit tr f) as [tr' r]. cbn [fst] in Hq.
  eapply quieter_trans; [exact Hq|]. apply IH, Hq.
Qed.

Lemma handle_sync_ok n tr now :
  node_ok n → can_ok tr → runs (handle_sync EVT_QUEUE n tr now) (step_ok tr).
Proof.
  intros Hok Hc. unfold handle_sync.
  destruct (negb _); [rstep; by apply step_ok_refl|]. cbn zeta.
  match goal with |- context [set_last_attempt_us ?v ?m] =>
    assert (node_ok (set_last_attempt_us v m)) as Hok1 by auto with node;
    revert Hok1; generalize (set_last_attempt_us v m) end.
  clear n Hok. intros n Hok. eapply runs_bind.
  { unfold Rpdo.on_sync. eapply runs_bind; [apply rpdo_on_sync_ok; apply Hok|].
    intros [slots a] (H1' & H2' & H3' & H4'). rstep.
    instantiate (1 := λ r, rpdos_ok (fst r) ∧ od_ok (ap_od (snd r)) ∧ (length (ap_events (snd r)) ≤ EVT_QUEUE)%nat).
    destruct (ok_rpdo n Hok). by split; [split; simpl; [|lia]|]. }
  intros [rpdo a] (Hr & Hod & Hev). cbn [fst snd] in *. cbn zeta.
  match goal with |- context [set_overflow ?v ?m] =>
    assert (node_ok (set_overflow v m)) as Hok1 by (apply set_overflow_ok; keep_ok Hok);
    revert Hok1; generalize (set_overflow v m) end.
  clear n Hok Hr Hod Hev a rpdo. intros n Hok. eapply runs_bind; [apply tpdo_on_sync_ok; apply Hok|].
  intros [e out] [He Hl]. cbn zeta.
  match goal with |- runs (let '(_, _) := ?x in _) _ =>
    pose proof (offer_all_quieter (length (nd_tpdo (set_tpdo e n))) out (nd_pending_sync_tpdo (set_tpdo e n)) tr Hc) as Hq;
    destruct x as [refused tr'] end. cbn [snd] in Hq. rstep.
  assert (node_ok (set_tpdo e n)) as Hn.
  { keep_ok Hok. split; [done|]. destruct ok_tpdo0. simpl in *. lia. }
  apply quieter_step; [|done]. case_match; auto with node.
Qed.

Lemma process_rpdo_frame_ok n f now :
  node_ok n → wf_frame f → runs (process_rpdo_frame EVT_QUEUE n f now) node_ok.
Proof.
  intros Hok Hf. unfold process_rpdo_frame. destruct (bool_decide _); [|done].
  eapply runs_bind; [apply rpdo_frame_ok; [apply Hok|done|apply Hok..]|].
  intros [[rpdo a] b] (Hr & Hod & Hev). rstep. apply set_overflow_ok. keep_ok Hok.
Qed.

Lemma apply_transition_ok t n : node_ok n → runs (apply_transition t n) node_ok.
Proof.
  intros Hok. destruct t; cbn [apply_transition]; [done| |apply reinitialise_ok; auto with node..].
  destruct (negb _); [|done]. cbn zeta. destruct (bool_decide _); rstep; auto with node.
Qed.

Lemma handle_nmt_ok n f : node_ok n → runs (handle_nmt n f) node_ok.
Proof.
  intros Hok. unfold handle_nmt. destruct (_ =? 2); [|done]. cbn zeta.
  destruct (NmtCommand.from_byte _) as [cmd|]; [|done].
  destruct (NmtHandler.process_command _ _ _ _) as [nmt t]. by apply apply_transition_ok, set_nmt_ok.
Qed.

Lemma push_hb_event_ok n e : node_ok n → node_ok (push_hb_event n e).
Proof.
  intros Hok. unfold push_hb_event. destruct (push_counted _ _ _ _) as [q d]. apply set_overflow_ok. keep_ok Hok.
Qed.

Lemma fold_ok {A} (f : Node (OD := OD) → A → Node (OD := OD)) l n :
  (∀ n a, node_ok n → node_ok (f n a)) → node_ok n → node_ok (fold_left f l n).
Proof. intros Hf. revert n. induction l; simpl; auto. Qed.

Lemma push_counted_length {A} (q : list A) d x :
  (length q ≤ EVT_QUEUE)%nat → (length (fst (push_counted EVT_QUEUE q d x)) ≤ EVT_QUEUE)%nat.
Proof.
  intros Hq. unfold push_counted, Mailbox.push_back.
  destruct (Nat.leb_spec EVT_QUEUE (length q)); cbn [fst].
  - destruct q as [|y q]; cbn [Mailbox.pop_front snd length] in *.
    + destruct (Nat.leb_spec EVT_QUEUE 0); simpl; lia.
    + destruct (Nat.leb_spec EVT_QUEUE (length q)); [lia|]. rewrite length_app. simpl. lia.
  - destruct (Nat.leb_spec EVT_QUEUE (length q)); [lia|]. rewrite length_app. simpl. lia.
Qed.

Lemma push_deadline_event_ok n k : node_ok n → node_ok (push_deadline_event EVT_QUEUE n k).
Proof.
  intros Hok. unfold push_deadline_event.
  pose proof (push_counted_length (nd_event_queue n) (nd_overflow n)
    (mkEvent (0x1400 + PdoNumber.od_offset k) 0 SrcRpdoDeadline) (ok_events n Hok)) as Hl.
  destruct (push_counted _ _ _ _) as [q d]. apply set_overflow_ok. keep_ok Hok.
Qed.

Lemma sync_process_total c f : wf_frame f → ∃ c' p, SyncConsumer.process c f = Ret (c', p).
Proof.
  intros Hf. unfold SyncConsumer.process. destruct (_ || _); [by eexists _, _|].
  unfold CanFrame.raw_dlc. destruct (Z.eqb_spec (cf_dlc f) 1) as [Hd1|]; [|by eexists _, _].
  pose proof (length_data f Hf) as Hl. destruct (CanFrame.data f); [simpl in *; lia|]. by eexists _, _.
Qed.

Lemma lss_process_total s f : ∃ r, LssSlave.process s f = Ret r.
Proof.
  unfold LssSlave.process, LssSlave.inquire. destruct (_ || _); [by eexists|]. cbn zeta.
  repeat match goal with |- context [if ?b then _ else _] => destruct b; [by eexists|] end.
  by eexists.
Qed.

Lemma dispatch_frame_ok n f tr now :
  node_ok n → can_ok tr → wf_frame f → runs (dispatch_frame EVT_QUEUE n f tr now) (step_ok tr).
Proof.
  intros Hok Hc Hf. unfold dispatch_frame.
  destruct (find_slot _ (nd_extra_sdo n) 0) as [i|] eqn:Ei.
  { apply handle_sdo_request_ok; try done. apply find_slot_lookup in Ei as (c & Hi & _ & _).
    rewrite Nat.sub_0_r in Hi. by eapply lookup_lt_Some. }
  destruct (bool_decide _).
  { destruct (sync_process_total (nd_sync n) f Hf) as (c & p & ->). rstep.
    destruct p; [apply handle_sync_ok; auto with node|]. rstep. apply step_ok_refl; auto with node. }
  destruct (_ =? CobId.nmt).
  { eapply runs_bind; [by apply handle_nmt_ok|]. intros n' Hn'. rstep. by apply step_ok_refl. }
  destruct (_ =? CobId.sdo_rx _); [by apply handle_sdo_request_ok|].
  destruct (_ =? LSS_REQUEST_COB).
  { destruct (lss_process_total (nd_lss n) f) as [[lss r] ->]. rstep. apply quieter_step; [auto with node|].
    destruct r; [by apply transmit_quieter|by apply quieter_refl]. }
  destruct (heartbeat_monitor n f) as [[i m]|].
  - rstep. apply step_ok_refl; [|done]. unfold handle_heartbeat.
    destruct (HeartbeatMonitor.process _ _ _ _ _) as [[m' evs] b].
    apply fold_ok; [apply push_hb_event_ok|auto with node].
  - apply (runs_bind _ _ node_ok); [by apply process_rpdo_frame_ok|]. intros n' Hn'. rstep. by apply step_ok_refl.
Qed.

Lemma drain_ok fuel n tr now :
  node_ok n → can_ok tr → (backlog tr < fuel)%nat →
  runs (drain EVT_QUEUE fuel n tr now) (λ r, ∃ n' tr', r = Some (n', tr') ∧ step_ok tr (n', tr')).
Proof.
  revert n tr. induction fuel as [|fuel IH]; intros n tr Hok Hc Hb; [lia|]. cbn [drain].
  destruct (receive tr) as [tr1 r] eqn:Er. destruct (receive_ok tr tr1 r Hc Er) as [Hc1 Hr].
  destruct r as [f|e].
  - destruct Hr as [Hf Hlt]. eapply step_bind; [by apply dispatch_frame_ok|].
    intros n2 tr2 Hn2 Hc2 Hle. cbv beta iota. eapply runs_mono; [apply IH; [done|done|lia]|].
    intros r (n3 & tr3 & -> & Hs). exists n3, tr3. split; [done|]. eapply step_ok_trans; [|exact Hs]. lia.
  - rstep. exists n, tr1. split; [done|]. by apply quieter_step.
Qed.

(** ** The processing call *)

Lemma begin_poll_ok p s cob now :
  wf_server s → runs (PendingSdoTx.begin_poll p s cob now) (λ r, wf_server (snd r)).
Proof.
  intros Hs. unfold PendingSdoTx.begin_poll. cbn zeta.
  match goal with |- runs (if ?b then _ else _) _ => destruct b end; [done|].
  eapply runs_bind; [by apply check_timeout_safe|]. intros [s' a] [Hs' _]. by destruct a.
Qed.

Lemma begin_extras_ok l now :
  Forall (λ c, wf_server (ex_server c)) l → runs (begin_extras l now) (Forall (λ c, wf_server (ex_server c))).
Proof.
  induction 1 as [|c l Hc _ IH]; cbn [begin_extras]; [by constructor|].
  eapply runs_bind; [by apply begin_poll_ok|]. intros [p s] Hs.
  eapply runs_bind; [exact IH|]. intros l' Hl'. rstep. by constructor.
Qed.

Lemma begin_polls_ok n now : node_ok n → runs (begin_polls n now) node_ok.
Proof.
  intros Hok. unfold begin_polls. eapply runs_bind; [apply begin_poll_ok, Hok|]. intros [p s] Hs.
  eapply runs_bind; [apply begin_extras_ok, Hok|]. intros l Hl. rstep. keep_ok Hok.
Qed.

Definition served (tr : S) (r : PendingSdoTx * SdoServer * S) : Prop :=
  wf_server (snd (fst r)) ∧ quieter tr (snd r).

Lemma service_loop_ok k p s cob tr now :
  wf_server s → can_ok tr → runs (PendingSdoTx.service_loop k p s cob tr now) (served tr).
Proof.
  revert p s tr. induction k as [|k IH]; intros p s tr Hs Hc; cbn [PendingSdoTx.service_loop].
  { split; [done|by apply quieter_refl]. }
  destruct (ptx_frame p); [split; [done|by apply quieter_refl]|].
  eapply runs_bind; [by apply poll_block_upload_safe|]. intros [s' d] [Hs' _]. cbn [fst] in Hs'.
  destruct d as [d|]; [|split; [done|by apply quieter_refl]].
  pose proof (try_send_quieter (PendingSdoTx.queue p cob d now) tr Hc) as Hq.
  destruct (PendingSdoTx.try_send _ _) as [p' tr']. cbn [snd] in Hq.
  eapply runs_mono; [apply IH; [done|apply Hq]|]. intros r [Hr1 Hr2]. split; [done|]. by eapply quieter_trans.
Qed.

Lemma service_ok p s cob tr now :
  wf_server s → can_ok tr → runs (PendingSdoTx.service p s cob tr now) (served tr).
Proof.
  intros Hs Hc. unfold PendingSdoTx.service. pose proof (try_send_quieter p tr Hc) as Hq.
  destruct (PendingSdoTx.try_send p tr) as [p' tr']. cbn [snd] in Hq.
  eapply runs_mono; [apply service_loop_ok; [done|apply Hq]|]. intros r [Hr1 Hr2]. split; [done|]. by eapply quieter_trans.
Qed.

Lemma service_extras_ok l tr now :
  Forall (λ c, wf_server (ex_server c)) l → can_ok tr →
  runs (service_extras l tr now) (λ r, Forall (λ c, wf_server (ex_server c)) (fst r) ∧ quieter tr (snd r)).
Proof.
  intros Hl. revert tr. induction Hl as [|c l Hs _ IH]; intros tr Hc; cbn [service_extras].
  { split; [by constructor|by apply quieter_refl]. }
  eapply runs_bind; [by apply service_ok|]. intros [[p s] tr1] [Hs1 Hq1]. cbn [fst snd] in *.
  eapply runs_bind; [apply IH, Hq1|]. intros [l' tr2] [Hl2 Hq2]. rstep.
  split; [by constructor|by eapply quieter_trans].
Qed.

Lemma services_ok n tr now : node_ok n → can_ok tr → runs (services n tr now) (step_ok tr).
Proof.
  intros Hok Hc. unfold services. eapply runs_bind; [apply service_ok; [apply Hok|done]|].
  intros [[p s] tr1] [Hs1 Hq1]. cbn [fst snd] in *.
  eapply runs_bind; [apply service_extras_ok; [apply Hok|apply Hq1]|]. intros [l tr2] [Hl2 Hq2]. rstep.
  apply quieter_step; [|by eapply quieter_trans]. keep_ok Hok.
Qed.

Lemma peek_counter_ok p : producer_ok p → runs (SyncProducer.peek_counter p) (λ c, 0 ≤ c ≤ Z.max 1 (overflow p)).
Proof.
  intros [Hov Hc]. unfold is_valid_sync_counter_overflow, SYNC_COUNTER_OVERFLOW_MAX in Hov.
  unfold SyncProducer.peek_counter. destruct (Z.leb_spec (overflow p) (prod_counter p)); [rstep; lia|].
  rewrite checked_ret by (unfold is_uint; lia). rstep. lia.
Qed.

Lemma producer_poll_ok p now : producer_ok p → runs (SyncProducer.poll p now) (λ r, producer_ok (fst r)).
Proof.
  intros Hp. unfold SyncProducer.poll. destruct (negb _); [done|]. destruct (negb _); [done|].
  destruct (_ <? _); [done|]. destruct (2 <=? _); [|done].
  eapply runs_bind; [by apply peek_counter_ok|]. by intros c _.
Qed.

Lemma confirm_sent_ok p now : producer_ok p → runs (SyncProducer.confirm_sent p now) producer_ok.
Proof.
  intros Hp. unfold SyncProducer.confirm_sent. destruct (Z.leb_spec 2 (overflow p)).
  - eapply runs_bind; [by apply peek_counter_ok|]. intros c Hc. cbv beta in Hc. destruct Hp. split; [done|]. simpl. lia.
  - rstep. destruct Hp. by split.
Qed.

Lemma produce_sync_ok n tr now :
  node_ok n → can_ok tr → runs (produce_sync EVT_QUEUE n tr now) (step_ok tr).
Proof.
  intros Hok Hc. unfold produce_sync. destruct (_ && _); [|rstep; by apply step_ok_refl].
  eapply runs_bind; [apply producer_poll_ok, Hok|]. intros [sp f] Hsp. cbn [fst] in Hsp. cbv beta iota zeta.
  assert (node_ok (set_sync_producer sp n)) as Hn by keep_ok Hok.
  destruct f as [f|]; [|rstep; by apply step_ok_refl].
  pose proof (transmit_quieter tr f Hc) as Hq. destruct (transmit tr f) as [tr' r]. cbn [fst] in Hq.
  destruct (is_ok r); [|rstep; by apply quieter_step].
  eapply runs_bind; [by apply confirm_sent_ok|]. intros sp' Hsp'. eapply runs_mono.
  - apply handle_sync_ok; [keep_ok Hn|apply Hq].
  - intros r'. by apply step_ok_trans, Hq.
Qed.

Lemma retry_ok n tr now : node_ok n → can_ok tr → step_ok tr (retry_pending_sync_tpdo n tr now).
Proof.
  intros Hok Hc. unfold retry_pending_sync_tpdo.
  destruct (bool_decide _); [by apply step_ok_refl|].
  destruct (_ || _); [apply step_ok_refl; auto with node|].
  destruct (bool_decide _); [by apply step_ok_refl|].
  pose proof (offer_all_quieter (length (nd_tpdo n)) (nd_pending_sync_tpdo n) [] tr Hc) as Hq.
  destruct (offer_all _ _ _ _) as [refused tr']. cbn [snd] in Hq.
  apply quieter_step; [|done]. destruct (bool_decide _); auto with node.
Qed.

Lemma check_loop_ok cap slot slots now out :
  Forall rpdo_ok slots → Forall rpdo_ok (fst (Rpdo.check_loop cap slot slots now out)) ∧
  length (fst (Rpdo.check_loop cap slot slots now out)) = length slots.
Proof.
  intros Hs. revert slot out. induction Hs as [|r slots Hr Hs IH]; intros slot out; cbn [Rpdo.check_loop]; [done|].
  destruct (Rpdo.expires r now);
    match goal with |- context [Rpdo.check_loop cap _ slots now ?o] =>
      pose proof (IH (Datatypes.S slot) o) as [Hi1 Hi2]; destruct (Rpdo.check_loop _ _ _ _ _) end;
    cbn [fst] in *; (split; [constructor; done|simpl; lia]).
Qed.

Lemma check_deadlines_ok n now : node_ok n → node_ok (check_pdo_deadlines EVT_QUEUE n now).
Proof.
  intros Hok. unfold check_pdo_deadlines. destruct (bool_decide _); [|auto with node].
  unfold Rpdo.check_deadlines. destruct (ok_rpdo n Hok) as [Hr Hl].
  destruct (check_loop_ok (length (rpdo_slots (nd_rpdo n))) 0 (rpdo_slots (nd_rpdo n)) now [] Hr) as [Hr' Hl'].
  destruct (Rpdo.check_loop _ _ _ _ _) as [slots expired]. cbn [fst] in *.
  apply fold_ok; [apply push_deadline_event_ok|]. keep_ok Hok. split; simpl; [done|lia].
Qed.

Lemma pending_heartbeat_total p now s : wf_node (hp_node p) → ∃ f, HeartbeatProducer.pending p now s = Ret f.
Proof.
  intros Hn. unfold HeartbeatProducer.pending. destruct (_ =? 0); [by eexists|]. destruct (_ <=? _); [|by eexists].
  destruct (heartbeat_frame (hp_node p) s Hn) as [f ->]. by eexists.
Qed.

Lemma produce_heartbeat_ok n tr now :
  node_ok n → can_ok tr → runs (produce_heartbeat n tr now) (step_ok tr).
Proof.
  intros Hok Hc. unfold produce_heartbeat. destruct (nd_booted n); [|rstep; by apply step_ok_refl].
  destruct (pending_heartbeat_total (nd_heartbeat n) now (NmtHandler.state (nd_nmt n)) (ok_heartbeat n Hok)) as [f ->].
  rstep. destruct f as [f|]; [|by apply step_ok_refl].
  pose proof (transmit_quieter tr f Hc) as Hq. destruct (transmit tr f) as [tr' r]. cbn [fst] in Hq.
  apply quieter_step; [|done]. destruct (is_ok r); [|done]. keep_ok Hok.
Qed.

Lemma check_heartbeats_ok n now : node_ok n → node_ok (check_heartbeats n now).
Proof.
  intros Hok. unfold check_heartbeats. destruct (check_monitors _ _) as [l evs].
  apply fold_ok; [apply push_hb_event_ok|auto with node].
Qed.

Lemma emcy_loop_ok fuel p tr :
  can_ok tr → ep_node (fst (emcy_loop fuel p tr)) = ep_node p ∧ quieter tr (snd (emcy_loop fuel p tr)).
Proof.
  revert p tr. induction fuel as [|fuel IH]; intros p tr Hc; cbn [emcy_loop]; [split; [done|by apply quieter_refl]|].
  destruct (EmcyProducer.peek_pending p) as [f|]; [|split; [done|by apply quieter_refl]].
  pose proof (transmit_quieter tr f Hc) as Hq. destruct (transmit tr f) as [tr' r]. cbn [fst] in Hq.
  destruct (is_ok r); [|by split].
  destruct (IH (fst (EmcyProducer.take_pending p)) tr' (proj1 Hq)) as [He Hq']. rewrite He. split.
  - unfold EmcyProducer.take_pending. by destruct (Mailbox.pop_front _).
  - by eapply quieter_trans.
Qed.

Lemma send_emergencies_ok n tr : node_ok n → can_ok tr → step_ok tr (send_emergencies n tr).
Proof.
  intros Hok Hc. unfold send_emergencies. destruct (_ && _); [|by apply step_ok_refl].
  destruct (emcy_loop_ok (length (ep_pending (nd_emcy n))) (nd_emcy n) tr Hc) as [He Hq].
  destruct (emcy_loop _ _ _) as [p tr']. cbn [fst snd] in *. apply quieter_step; [|done].
  keep_ok Hok. by rewrite He.
Qed.

Lemma poll_slot_ok t od now dirty tr :
  tpdo_ok t → can_ok tr →
  runs (Tpdo.poll_slot accepted t od now dirty tr) (λ r, tpdo_ok (fst r) ∧ quieter tr (snd r)).
Proof.
  intros Ht Hc. pose proof (quieter_refl tr Hc) as Hr0. unfold Tpdo.poll_slot.
  destruct (negb _); [by split|]. destruct (negb _); [by split|]. cbn zeta.
  destruct (_ && _); [|by split]. rewrite build_pdo_frame_image by apply Ht. rstep.
  destruct (match tpdo_image _ _ _ _ with Some _ => _ | None => _ end) as [f|]; [|by split].
  unfold accepted. pose proof (transmit_quieter tr f Hc) as Hq. destruct (transmit tr f) as [tr' r]. cbn [fst] in Hq.
  by destruct (is_ok r).
Qed.

Lemma poll_with_ok e od now dirty tr :
  Forall tpdo_ok e → can_ok tr →
  runs (Tpdo.poll_with accepted e od now dirty tr) (λ r, Forall tpdo_ok (fst r) ∧ length (fst r) = length e ∧ quieter tr (snd r)).
Proof.
  intros He. revert tr. induction He as [|t e Ht He IH]; intros tr Hc; cbn [Tpdo.poll_with].
  { split; [by constructor|split; [done|by apply quieter_refl]]. }
  eapply runs_bind; [by apply poll_slot_ok|]. intros [t' tr1] [Ht' Hq1]. cbn [fst snd] in *.
  eapply runs_bind; [apply IH, Hq1|]. intros [e' tr2] (He' & Hl & Hq2). rstep.
  split; [by constructor|split; [simpl in *; lia|by eapply quieter_trans]].
Qed.

Lemma poll_tpdos_ok n tr now : node_ok n → can_ok tr → runs (poll_tpdos n tr now) (step_ok tr).
Proof.
  intros Hok Hc. unfold poll_tpdos. destruct (bool_decide _); [|rstep; by apply step_ok_refl].
  destruct (ok_tpdo n Hok) as [Ht Htl].
  eapply runs_bind; [by apply poll_with_ok|]. intros [e tr'] (He & Hl & Hq). rstep.
  apply quieter_step; [|done]. keep_ok Hok. split; [done|]. simpl in *. lia.
Qed.

Lemma after_rx_ok n tr now : node_ok n → can_ok tr → runs (after_rx EVT_QUEUE n tr now) (step_ok tr).
Proof.
  intros Hok Hc. unfold after_rx. eapply step_bind; [by apply services_ok|]. clear n Hok. intros n1 tr1 Hok1 Hc1 Hb1.
  eapply step_bind; [by apply produce_sync_ok|]. clear n1 Hok1. intros n2 tr2 Hok2 Hc2 Hb2.
  pose proof (retry_ok n2 tr2 now Hok2 Hc2) as (Hok3 & Hc3 & Hb3).
  destruct (retry_pending_sync_tpdo n2 tr2 now) as [n3 tr3]. cbn [fst snd] in *. clear n2 Hok2.
  eapply step_bind; [apply produce_heartbeat_ok; [by apply check_deadlines_ok|done]|]. clear n3 Hok3. intros n4 tr4 Hok4 Hc4 Hb4.
  pose proof (send_emergencies_ok (check_heartbeats n4 now) tr4 (check_heartbeats_ok n4 now Hok4) Hc4) as (Hok5 & Hc5 & Hb5).
  destruct (send_emergencies _ tr4) as [n5 tr5]. cbn [fst snd] in *. clear n4 Hok4.
  eapply step_bind; [by apply poll_tpdos_ok|]. intros n6 tr6 Hok6 Hc6 Hb6. rstep.
  apply quieter_step; [auto with node|]. split; [done|lia].
Qed.

Lemma boot_ok n tr now :
  node_ok n → can_ok tr → runs (boot n tr now) (λ r, step_ok tr (fst r)).
Proof.
  intros Hok Hc. unfold boot. destruct (nd_booted n); [by apply step_ok_refl|].
  unfold HeartbeatProducer.send_boot. destruct (heartbeat_frame _ Initializing (ok_heartbeat n Hok)) as [f ->]. rstep.
  assert (node_ok (set_heartbeat (HeartbeatProducer.confirm_sent (nd_heartbeat n) now) n)) as Hn by keep_ok Hok.
  pose proof (transmit_quieter tr f Hc) as Hq. destruct (transmit tr f) as [tr' r]. cbn [fst] in Hq.
  destruct r as [o|[|e]]; [|by apply quieter_step|]; (apply quieter_step; [|done]); destruct (nd_auto_start _); auto with node.
Qed.

Lemma latch_sync_ok e dirty : tpdos_ok e → tpdos_ok (Tpdo.latch_sync_events e dirty).
Proof.
  intros He. unfold Tpdo.latch_sync_events. destruct dirty; [done|]. apply map_tpdos_ok; [|done].
  intros t Ht. by destruct (_ && _).
Qed.

Lemma process_ok fuel n tr now :
  node_ok n → can_ok tr → (backlog tr < fuel)%nat →
  runs (process EVT_QUEUE fuel n tr now) (λ r, ∃ n' tr', r = Some (n', tr') ∧ step_ok tr (n', tr')).
Proof.
  intros Hok Hc Hfuel. unfold process. eapply runs_bind; [by apply boot_ok|].
  intros [[n1 tr1] up] (Hok1 & Hc1 & Hb1). cbn [fst snd] in *. clear n Hok.
  destruct (negb up); [rstep; exists n1, tr1; by split|].
  apply (runs_bind _ _ node_ok).
  { apply begin_polls_ok. keep_ok Hok1. by apply latch_sync_ok. }
  clear n1 Hok1. intros n Hok. eapply runs_bind; [apply drain_ok; [done|done|lia]|].
  intros r (n' & tr' & -> & Hok' & Hc' & Hb'). cbn [fst snd] in *.
  eapply runs_bind; [by apply after_rx_ok|]. intros [n2 tr2] Hs. rstep. exists n2, tr2. split; [done|].
  eapply step_ok_trans; [|exact Hs]. lia.
Qed.
End transport.

(** ** Construction *)

Definition config_ok (c : NodeConfig) : Prop :=
  wf_node (cfg_node_id c) ∧
  Forall (λ t, Forall wf_mapping (tp_mappings t) ∧ 0 ≤ tp_od_number t ≤ 512) (cfg_tpdo c) ∧
  Forall (λ r, Forall rx_mapping_ok (rp_mappings r) ∧ 0 ≤ rp_od_number r ≤ 512) (cfg_rpdo c) ∧
  (length (cfg_tpdo c) ≤ 512)%nat ∧ (length (cfg_rpdo c) ≤ 512)%nat.

Lemma initial_ok c od : config_ok c → od_ok od → node_ok (initial c od).
Proof.
  intros (Hid & Ht & Hr & Htl & Hrl) Hod. split; simpl; try done; try lia.
  - apply Forall_map, Forall_true. by intros x.
  - split; [|unfold Tpdo.new; by rewrite length_map]. apply Forall_map. eapply Forall_impl; [|exact Ht].
    intros t [Hm Hn]. by split; [|split; simpl; [|lia]].
  - split; simpl; [|by rewrite length_map]. apply Forall_map. eapply Forall_impl; [|exact Hr].
    intros r [Hm Hn]. by split; [|split].
Qed.

Lemma store_cobs_ok base slot l od :
  base = 0x1800 ∨ base = 0x1400 → od_ok od → Forall (λ x, 0 ≤ snd (fst x) ≤ 512) l → (slot + length l ≤ 512)%nat →
  runs (store_cobs base slot l od) od_ok.
Proof.
  intros Hbase Hod Hl. revert slot od Hod. induction Hl as [|[[cob k] en] l Hk Hl IH]; intros slot od Hod Hs;
    cbn [store_cobs]; [done|]. cbn [fst snd length] in *.
  pose proof (pdo_offset_range k slot Hk ltac:(lia)) as Ho.
  rewrite checked_ret by (unfold is_uint; lia). rstep. apply IH; [|lia]. apply od_ok_cob; [done|lia].
Qed.

Lemma set_od_ok od n : node_ok n → od_ok od → node_ok (set_od od n).
Proof. intros Hok Hod. keep_ok Hok. Qed.

Lemma write_cobs_ok n : node_ok n → runs (write_pdo_cob_ids_to_od n) node_ok.
Proof.
  intros Hok. unfold write_pdo_cob_ids_to_od. destruct (ok_tpdo n Hok) as [Ht Htl], (ok_rpdo n Hok) as [Hr Hrl].
  eapply runs_bind.
  { apply store_cobs_ok; [by left|apply Hok| |by rewrite length_map]. apply Forall_map.
    eapply Forall_impl; [|exact Ht]. intros t (_ & Hn & _). exact Hn. }
  intros od1 Hod1. eapply runs_bind.
  { apply store_cobs_ok; [by right|exact Hod1| |by rewrite length_map]. apply Forall_map.
    eapply Forall_impl; [|exact Hr]. intros r (_ & Hn & _). exact Hn. }
  intros od2 Hod2. rstep. by apply set_od_ok.
Qed.

(** Construction panics only when the COB-ID plan is ambiguous. *)
Lemma new_cases c od :
  config_ok c → od_ok od →
  ∃ n, node_ok n ∧ new c od = if sdo_cob_ids_are_unique n && sync_cob_id_is_unique n then Ret n else Panic.
Proof.
  intros Hc Hod. unfold new.
  destruct (runs_inv _ _ (write_cobs_ok _ (initial_ok c od Hc Hod))) as (n1 & -> & Hn1). rstep.
  assert (node_ok (set_od (od_store_sdo_server_cob_ids (nd_od n1) (cfg_node_id c)) n1)) as Hn2
    by (apply set_od_ok; [done|]; apply od_ok_store_servers, Hn1).
  revert Hn2. generalize (set_od (od_store_sdo_server_cob_ids (nd_od n1) (cfg_node_id c)) n1). clear n1 Hn1. intros n1 Hn1.
  assert (node_ok (set_od (od_store_error_register (nd_od n1) (error_register (nd_emcy n1))) n1)) as Hn2
    by (apply set_od_ok; [done|]; apply od_ok_store_register, Hn1).
  revert Hn2. generalize (set_od (od_store_error_register (nd_od n1) (error_register (nd_emcy n1))) n1). clear n1 Hn1. intros n1 Hn1.
  destruct (runs_inv _ _ (sync_config_ok _ (sync_heartbeat_ok false n1 Hn1))) as (n & -> & Hn). rstep.
  exists n. split; [done|]. destruct (sdo_cob_ids_are_unique n); [|done]. rstep. by destruct (sync_cob_id_is_unique n).
Qed.

(** ** The application interface *)

Lemma latch_ok t : tpdo_ok t → tpdo_ok (Tpdo.latch t).
Proof.
  intros Ht. unfold Tpdo.latch. destruct (tp_enabled _); [|done]. destruct (_ =? 0); [exact Ht|].
  destruct (_ || _); exact Ht.
Qed.

Lemma notify_changed_ok i s n : node_ok n → node_ok (notify_changed DIRTY_SET i s n).
Proof.
  intros Hok. unfold notify_changed.
  assert (node_ok (set_tpdo (Tpdo.notify_changed (nd_tpdo n) i s) n)) as Hn.
  { keep_ok Hok. unfold Tpdo.notify_changed. apply map_tpdos_ok; [|done].
    intros t Ht. destruct (_ && _); [by apply latch_ok|done]. }
  destruct (existsb _ _); auto with node.
Qed.

Lemma mirror_ok n : node_ok n → node_ok (mirror_error_register DIRTY_SET n).
Proof.
  intros Hok. unfold mirror_error_register. destruct (od_read _ _ _ _) as [old [k|e]]; cbv zeta.
  - destruct (negb _); [apply notify_changed_ok|]; (apply set_od_ok; [done|]; apply od_ok_store_register, Hok).
  - apply notify_changed_ok. apply set_od_ok; [done|]. apply od_ok_store_register, Hok.
Qed.

Lemma set_emcy_ok p n : node_ok n → wf_node (ep_node p) → node_ok (set_emcy p n).
Proof. intros Hok Hp. keep_ok Hok. Qed.

Lemma queue_node p f : ep_node (EmcyProducer.queue p f) = ep_node p.
Proof. unfold EmcyProducer.queue. by destruct (4 <=? length (ep_pending p))%nat. Qed.

Lemma set_error_ok code bits v n : node_ok n → runs (set_error DIRTY_SET code bits v n) node_ok.
Proof.
  intros Hok. unfold set_error, EmcyProducer.set_error. cbn zeta.
  rewrite build_emcy_frame_eq by apply Hok. rstep.
  apply mirror_ok, set_emcy_ok; [done|]. rewrite queue_node. apply Hok.
Qed.

Lemma clear_error_ok bits n : node_ok n → runs (clear_error DIRTY_SET bits n) node_ok.
Proof.
  intros Hok. unfold clear_error, EmcyProducer.clear_error. cbn zeta.
  destruct (_ && _); [rewrite build_emcy_frame_eq by apply Hok|]; rstep;
    (apply mirror_ok, set_emcy_ok; [done|]); rewrite ?queue_node; apply Hok.
Qed.

Lemma clear_all_ok n : node_ok n → runs (clear_all_errors DIRTY_SET n) node_ok.
Proof.
  intros Hok. unfold clear_all_errors, EmcyProducer.clear_all. cbn zeta.
  rewrite build_emcy_frame_eq by apply Hok. rstep.
  apply mirror_ok, set_emcy_ok; [done|]. rewrite queue_node. apply Hok.
Qed.

Lemma read_slice od i s : 
  let '(b, r) := od_read od i s (zeros 8) in ∃ l, slice b 0 (default 0 (res_ok r)) = Ret l.
Proof.
  pose proof (od_read_length od i s (zeros 8)) as Hl. pose proof (od_read_bound od i s (zeros 8)) as Hb.
  destruct (od_read od i s (zeros 8)) as [b r]. cbn [fst snd] in *. change (len (zeros 8)) with 8 in Hb.
  change (length (zeros 8)) with 8%nat in Hl.
  destruct r as [k|e]; cbn [res_ok]; (eexists; apply slice_prefix); simpl; try specialize (Hb _ eq_refl); lia.
Qed.

Lemma guard_latch_ok old new l :
  Forall tpdo_ok l → runs (guard_latch old new l) (λ l', Forall tpdo_ok l' ∧ length l' = length l).
Proof.
  intros Hl. induction Hl as [|t l Ht _ IH]; cbn [guard_latch]; [done|].
  assert (∀ ms, runs (any_changed old new ms) (λ _, True)) as Hany.
  { intros ms. induction ms as [|m ms IHm]; cbn [any_changed]; [done|].
    apply (runs_bind _ _ (λ _, True)); [|by intros [|]]. unfold object_changed.
    pose proof (read_slice old (pm_index m) (pm_subindex m)) as Ho.
    pose proof (read_slice new (pm_index m) (pm_subindex m)) as Hn.
    destruct (od_read old _ _ _) as [ob or], (od_read new _ _ _) as [nb nr].
    destruct Ho as [a Ha], Hn as [b Hb]. cbn zeta. destruct (negb _); [done|]. by rewrite Ha, Hb. }
  eapply runs_bind; [apply Hany|]. intros b _. eapply runs_bind; [exact IH|]. intros l' [Hl' Hlen]. rstep.
  split; [|simpl; lia]. constructor; [|done]. destruct b; [by apply latch_ok|done].
Qed.

Lemma with_od_mut_ok f n : node_ok n → od_ok (f (nd_od n)) → runs (with_od_mut f n) node_ok.
Proof.
  intros Hok Hf. unfold with_od_mut. destruct (ok_tpdo n Hok) as [Ht Htl].
  eapply runs_bind; [by apply guard_latch_ok|]. intros l [Hl Hlen]. rstep. keep_ok Hok. split; [done|]. simpl in *. lia.
Qed.

Lemma request_reset_ok t n : node_ok n → runs (request_reset t n) node_ok.
Proof.
  intros Hok. unfold request_reset. apply (runs_bind _ _ node_ok); [apply reinitialise_ok; auto with node|].
  intros n' Hn'. rstep. auto with node.
Qed.

End safe.
