(* ===== verification/NodeRun.v ===== *)
(** * Runs of a node

    A node on a mailbox transport under any sequence of bus traffic,
    application calls and processing calls, and the table-driven dictionary as
    an instance of the dictionaries a node accepts. *)
From S2P Require Import Prelude Frame Nmt Od SdoProtocol SdoServer SdoServerSafe PdoBits PdoEngine PdoMapped Sync Heartbeat Emcy Lss Nb Node NodeSafe.

Section run.
Context {OD : Type} `{NodeOd OD} (EVT_QUEUE DIRTY_SET TX RX : nat).

Inductive node_op :=
| OpProcess (now : Z)
| OpReceived (f : CanFrame)
| OpSent
| OpNotifyChanged (index subindex : Z)
| OpSetError (code bits : Z) (vendor : list Z)
| OpClearError (bits : Z)
| OpClearAllErrors
| OpOdMut (f : OD → OD)
| OpRequestReset (t : ResetType)
| OpTakeEvents.

Definition wf_node_op (o : node_op) : Prop :=
  match o with
  | OpReceived f => wf_frame f
  | OpOdMut f => ∀ od, od_ok od → od_ok (f od)
  | _ => True
  end.

(** A processing call is given fuel for the frames that are queued. *)
Definition run_node_op (o : node_op) (st : Node (OD := OD) * MailboxTransport)
    : exec (Node (OD := OD) * MailboxTransport) :=
  let '(n, m) := st in
  let app (r : exec (Node (OD := OD))) := n ← r; mret (n, m) in
  match o with
  | OpProcess now =>
      r ← process (H0 := mailbox_can TX RX) EVT_QUEUE (S (length (rx_queue m))) n m now; unwrap r
  | OpReceived f => mret (n, fst (Mailbox.store_received RX m f))
  | OpSent => mret (n, fst (Mailbox.next_to_transmit m))
  | OpNotifyChanged i s => mret (notify_changed DIRTY_SET i s n, m)
  | OpSetError code bits v => app (set_error DIRTY_SET code bits v n)
  | OpClearError bits => app (clear_error DIRTY_SET bits n)
  | OpClearAllErrors => app (clear_all_errors DIRTY_SET n)
  | OpOdMut f => app (with_od_mut f n)
  | OpRequestReset t => app (request_reset t n)
  | OpTakeEvents => mret (fst (next_event (fst (next_heartbeat_event (fst (take_reset_event n))))), m)
  end.

Fixpoint run_node_ops (os : list node_op) (st : Node (OD := OD) * MailboxTransport)
    : exec (Node (OD := OD) * MailboxTransport) :=
  match os with
  | [] => mret st
  | o :: os => st ← run_node_op o st; run_node_ops os st
  end.

Definition state_ok (st : Node (OD := OD) * MailboxTransport) : Prop :=
  node_ok EVT_QUEUE (fst st) ∧ Forall wf_frame (rx_queue (snd st)).

Lemma app_ok (r : exec (Node (OD := OD))) m :
  runs r (node_ok EVT_QUEUE) → Forall wf_frame (rx_queue m) → runs (n ← r; mret (n, m)) state_ok.
Proof. intros Hr Hm. eapply runs_bind; [exact Hr|]. intros n Hn. by split. Qed.

Lemma next_event_ok n : node_ok EVT_QUEUE n → node_ok EVT_QUEUE (fst (next_event n)).
Proof.
  intros [? ? ? ? ? ? ? ? ? He]. unfold next_event.
  destruct (nd_event_queue n) as [|e q]; cbn [Mailbox.pop_front fst]; split; simpl in *; auto; lia.
Qed.

Lemma next_hb_event_ok n : node_ok EVT_QUEUE n → node_ok EVT_QUEUE (fst (next_heartbeat_event n)).
Proof.
  intros [? ? ? ? ? ? ? ? ? He]. unfold next_heartbeat_event. destruct (Mailbox.pop_front _). by split.
Qed.

Lemma take_reset_ok n : node_ok EVT_QUEUE n → node_ok EVT_QUEUE (fst (take_reset_event n)).
Proof. intros []. by split. Qed.

Lemma run_node_op_ok o st : wf_node_op o → state_ok st → runs (run_node_op o st) state_ok.
Proof.
  destruct st as [n m]. intros Ho [Hok Hm]. cbn [fst snd] in *.
  destruct o; cbn [run_node_op wf_node_op] in *; try (apply app_ok; [|done]).
  - eapply runs_bind; [apply (process_ok EVT_QUEUE); [done|exact Hm|cbn; lia]|].
    intros r (n' & m' & -> & Hn' & Hm' & _). by split.
  - split; [done|]. cbn [fst snd]. unfold Mailbox.store_received, Mailbox.push_back.
    destruct (RX <=? _)%nat; simpl; [done|]. apply Forall_app. auto.
  - split; [done|]. cbn [fst snd]. unfold Mailbox.next_to_transmit. by destruct (Mailbox.pop_front _).
  - split; [|done]. by apply notify_changed_ok.
  - by apply set_error_ok.
  - by apply clear_error_ok.
  - by apply clear_all_ok.
  - apply with_od_mut_ok; [done|]. apply Ho, Hok.
  - by apply request_reset_ok.
  - split; [|done]. by apply next_event_ok, next_hb_event_ok, take_reset_ok.
Qed.

Lemma run_node_ops_ok os st : Forall wf_node_op os → state_ok st → runs (run_node_ops os st) state_ok.
Proof.
  intros Hos. revert st. induction Hos as [|o os Ho _ IH]; intros st Hst; [done|].
  cbn [run_node_ops]. eapply runs_bind; [by apply run_node_op_ok|]. exact IH.
Qed.

Lemma new_state_ok (c : NodeConfig) (od : OD) (n : Node) :
  config_ok c → od_ok od → new c od = Ret n → state_ok (n, Mailbox.new).
Proof.
  intros Hc Hod Hnew. split; [|constructor]. destruct (new_cases EVT_QUEUE c od Hc Hod) as (n' & Hn' & Heq).
  rewrite Hnew in Heq. destruct (_ && _); [|done]. by injection Heq as ->.
Qed.

(** C1. A node built from a well-formed configuration never panics and every
    [process] call returns: whatever well-formed frames arrive, however full
    the transmit queue is, at any times, and whatever application calls come
    between, the receive loop ends after the queued frames, no slice, index
    sum, counter or assertion fails, and queues, counters and transfer buffers
    stay within their bounds. *)
Theorem node_never_panics (c : NodeConfig) (od : OD) (n : Node) (os : list node_op) :
  config_ok c → od_ok od → new c od = Ret n → Forall wf_node_op os →
  runs (run_node_ops os (n, Mailbox.new)) state_ok.
Proof. intros Hc Hod Hnew Hos. apply run_node_ops_ok; [done|]. by eapply new_state_ok. Qed.
End run.

(** ** The table-driven dictionary

    Its SYNC entries may be written (with their exact sizes); the mappings of
    its RPDOs are constant and name application objects. *)

Definition sync_cob_entry (e : TableEntry) : Prop :=
  data_type (te_meta e) = U32 ∧ array 4 (te_value e) ∧ is_supported_sync_cob_id (from_le_bytes (te_value e)) = true.

Definition sync_overflow_entry (e : TableEntry) : Prop :=
  data_type (te_meta e) = U8 ∧ array 1 (te_value e) ∧ is_valid_sync_counter_overflow (at_ (te_value e) 0) = true.

Definition application_object (i s : Z) : Prop := 0x2000 ≤ i.

Definition rpdo_mapping_entry (e : TableEntry) : Prop :=
  (access (te_meta e) = Ro ∨ access (te_meta e) = Const) ∧ array 4 (te_value e) ∧
  let m := PdoMapping.from_mapping_value (from_le_bytes (te_value e)) in
  is_dummy_mapping_index (pm_index m) = false → application_object (pm_index m) (pm_subindex m).

Definition entry_ok (e : TableEntry) : Prop :=
  (te_is 0x1005 0 e = true → sync_cob_entry e) ∧ (te_is 0x1019 0 e = true → sync_overflow_entry e) ∧
  (0x1600 ≤ meta_index (te_meta e) < 0x1800 → 1 ≤ meta_subindex (te_meta e) → rpdo_mapping_entry e).

Definition table_ok (t : TableOd) : Prop := Forall entry_ok t.

Lemma te_is_spec i s e : te_is i s e = true ↔ meta_index (te_meta e) = i ∧ meta_subindex (te_meta e) = s.
Proof. unfold te_is. rewrite andb_true_iff, !Z.eqb_eq. done. Qed.

Lemma table_find_ok t i s e : table_ok t → table_find t i s = Some e → entry_ok e ∧ te_is i s e = true.
Proof.
  unfold table_find, table_ok. intros Ht Hf. apply List.find_some in Hf as [Hin Hk]. split; [|done].
  rewrite List.Forall_forall in Ht. by apply Ht.
Qed.

Lemma table_read_exact t i s buf b :
  table_ok t → read_into t i s buf = (b, true) →
  ∃ e, entry_ok e ∧ te_is i s e = true ∧ (array (len buf) (te_value e) → b = te_value e).
Proof.
  intros Ht Hr. unfold read_into in Hr. cbn [od_read table_od] in Hr. unfold table_read in Hr.
  destruct (table_find t i s) as [e|] eqn:Ef; [|done]. destruct (table_find_ok _ _ _ _ Ht Ef) as [He Hk].
  exists e. split; [done|]. split; [done|]. intros [Hl Hb]. case_decide; [done|].
  destruct (_ <? _); [done|]. injection Hr as <-.
  assert (map as_u8 (te_value e) = te_value e) as ->.
  { clear Hl. induction Hb as [|x l Hx _ IH]; [done|]. cbn [map]. by rewrite IH, wrap_id. }
  unfold overwrite. rewrite take_ge by lia. rewrite drop_ge by lia. by rewrite app_nil_r.
Qed.

Lemma table_set_ok t i s v :
  table_ok t → (∀ e, te_is i s e = true → entry_ok e → entry_ok (mkEntry (te_meta e) v)) → table_ok (table_set t i s v).
Proof.
  intros Ht Hv. apply Forall_map. eapply Forall_impl; [|exact Ht]. intros e He. destruct (te_is i s e) eqn:Hk; auto.
Qed.

Lemma table_set_other t i s v :
  table_ok t → ¬ (i = 0x1005 ∧ s = 0) → ¬ (i = 0x1019 ∧ s = 0) → ¬ (0x1600 ≤ i < 0x1800 ∧ 1 ≤ s) →
  table_ok (table_set t i s v).
Proof.
  intros Ht H5 H9 Hm. apply table_set_ok; [done|]. intros e [<- <-]%te_is_spec _.
  split; [|split]; [intros Hk%te_is_spec; by destruct H5|intros Hk%te_is_spec; by destruct H9|].
  intros ??. by destruct Hm.
Qed.

Lemma table_write_ok t i s d :
  table_ok t → (∀ e, te_is i s e = true → entry_ok e → table_accepts (te_meta e) d = Ok tt → table_ok (table_set t i s d)) →
  table_ok (fst (table_write t i s d)).
Proof.
  intros Ht Hset. unfold table_write. destruct (table_find t i s) as [e|] eqn:Ef; [|done].
  destruct (table_find_ok _ _ _ _ Ht Ef) as [He Hk].
  destruct (table_accepts (te_meta e) d) as [[]|] eqn:Ea; [|done]. by apply (Hset e).
Qed.

Lemma accepts_size m d n : table_accepts m d = Ok tt → DataType.size (data_type m) = Some n → len d = n.
Proof. unfold table_accepts. intros Ha Hn. rewrite Hn in Ha. case_decide; [done|]. by destruct (Z.eqb_spec (len d) n). Qed.

Lemma accepts_writable m d : table_accepts m d = Ok tt → ¬ (access m = Ro ∨ access m = Const).
Proof. unfold table_accepts. by case_decide. Qed.

Lemma table_sdo_write_ok t i s d :
  table_ok t → bytes d → sync_entries_supported i s d → table_ok (fst (table_write t i s d)).
Proof.
  intros Ht Hb [H5 H9]. apply table_write_ok; [done|]. intros e Hk He Ha.
  pose proof Hk as [Hi Hs]%te_is_spec. destruct He as (He5 & He9 & Hem).
  destruct (decide (i = 0x1005 ∧ s = 0)) as [[-> ->]|N5].
  { destruct (He5 Hk) as (Hty & _ & _). pose proof (accepts_size _ _ 4 Ha ltac:(by rewrite Hty)) as Hl.
    apply table_set_ok; [done|]. intros e' Hk' (He' & _ & _). destruct (He' Hk') as (Hty' & _).
    apply te_is_spec in Hk' as [Hi' Hs']. split; [|split].
    - intros _. split; [done|split; [by split|by apply H5]].
    - intros [? ?]%te_is_spec. simpl in *. congruence.
    - simpl. intros. lia. }
  destruct (decide (i = 0x1019 ∧ s = 0)) as [[-> ->]|N9].
  { destruct (He9 Hk) as (Hty & _ & _). pose proof (accepts_size _ _ 1 Ha ltac:(by rewrite Hty)) as Hl.
    apply table_set_ok; [done|]. intros e' Hk' (_ & He' & _). destruct (He' Hk') as (Hty' & _).
    apply te_is_spec in Hk' as [Hi' Hs']. split; [|split].
    - intros [? ?]%te_is_spec. simpl in *. congruence.
    - intros _. split; [done|split; [by split|apply H9; [done|done|lia]]].
    - simpl. intros. lia. }
  apply table_set_other; [done..|]. intros [? ?]. subst i s.
  destruct (Hem ltac:(done) ltac:(done)) as [Hacc _]. by apply (accepts_writable _ _ Ha).
Qed.

#[export] Program Instance table_node_od : NodeOd TableOd := {
  od_ok := table_ok;
  pdo_object := application_object;
}.
Next Obligation.
  intros t b Ht Hr. destruct (table_read_exact _ _ _ _ _ Ht Hr) as (e & (He & _) & Hk & Hb).
  destruct (He Hk) as (_ & Ha & Hs). by rewrite Hb.
Qed.
Next Obligation.
  intros t b Ht Hr. destruct (table_read_exact _ _ _ _ _ Ht Hr) as (e & (_ & He & _) & Hk & Hb).
  destruct (He Hk) as (_ & Ha & Hs). by rewrite Hb.
Qed.
Next Obligation. intros t i s d Ht Hb _ Hs. by apply table_sdo_write_ok. Qed.
Next Obligation.
  intros t i s d Ht Hi. apply table_write_ok; [done|]. intros. unfold application_object in Hi. apply table_set_other; [done|lia..].
Qed.
Next Obligation. intros t i d Ht Hi. apply table_write_ok; [done|]. intros. apply table_set_other; [done|lia..]. Qed.
Next Obligation.
  intros t i s buf0 b0 buf b Ht Hi _ _ Hs Hl Hr. cbn zeta. destruct (table_read_exact _ _ _ _ _ Ht Hr) as (e & (_ & _ & He) & Hk & Hb).
  apply te_is_spec in Hk as [? ?]. destruct (He ltac:(lia) ltac:(lia)) as (_ & Ha & Hm).
  rewrite Hb; [exact Hm|]. by rewrite Hl.
Qed.
Next Obligation. done. Qed.
Next Obligation. intros t v Ht. apply table_set_other; [done|lia..]. Qed.

(** ** A concrete node *)

Definition u8_entry (i s v : Z) (a : AccessType) : TableEntry := mkEntry (mkMeta i s U8 a false None) [v].
Definition u16_entry (i s v : Z) (a : AccessType) : TableEntry := mkEntry (mkMeta i s U16 a true None) (to_le_bytes 2 v).
Definition u32_entry (i s v : Z) (a : AccessType) : TableEntry := mkEntry (mkMeta i s U32 a false None) (to_le_bytes 4 v).

(** One synchronous RPDO writing 0x2000, one synchronous TPDO sampling it,
    SYNC on 0x80, node 0x22, one additional SDO server. *)
Definition node_od : TableOd :=
  [ u8_entry 0x1001 0 0 Ro; u32_entry 0x1005 0 0x80 Rw; u32_entry 0x1006 0 0 Rw; u16_entry 0x1017 0 1000 Rw;
    u8_entry 0x1019 0 0 Rw; u8_entry 0x1016 0 1 Const; u32_entry 0x1016 1 0x000501F4 Rw;
    u32_entry 0x1400 1 0x222 Rw; u8_entry 0x1400 2 1 Rw; u16_entry 0x1400 5 0 Rw;
    u8_entry 0x1600 0 1 Const; u32_entry 0x1600 1 0x20000010 Const;
    u32_entry 0x1800 1 0x1A2 Rw; u8_entry 0x1800 2 1 Rw; u16_entry 0x1800 3 0 Rw; u16_entry 0x1800 5 0 Rw;
    u8_entry 0x1A00 0 1 Const; u32_entry 0x1A00 1 0x20000010 Const;
    u16_entry 0x2000 0 0 Rw ].

Definition node_mapping : list PdoMapping := [mkMapping 0x2000 0 16].

Definition node_config : NodeConfig :=
  mkNodeConfig 0x22 1000 true [mkTpdo 1 0x1A2 1 0 0 node_mapping true] [mkRpdo 1 0x222 1 0 node_mapping true]
    [mkSdoServerConfig 1 0x640 0x5C0] (mkIdentity 1 2 3 4).

Definition demo_node : Node (OD := TableOd) :=
  match new node_config node_od with Ret n => n | Panic => initial node_config node_od end.

Definition frame (id : Z) (data : list Z) : CanFrame := mkCanFrame id (len data) (data ++ zeros (8 - len data)).

Lemma frame_wf id data : 0 ≤ id ≤ 0x7FF → bytes data → len data ≤ 8 → wf_frame (frame id data).
Proof.
  intros Hid Hb Hl. split; [done|split; [simpl; lia|]]. split; simpl.
  - rewrite length_app. pose proof (len_zeros (8 - len data)). lia.
  - apply bytes_app; [done|apply bytes_zeros].
Qed.

(** Boot, an RPDO frame and a SYNC, an SDO read of 0x1001, an error report, a
    remote heartbeat, Stop, and a reset. *)
Definition node_traffic : list (node_op (OD := TableOd)) :=
  [ OpProcess 1000; OpReceived (frame 0x222 [7; 9]); OpReceived (frame 0x80 []); OpProcess 2000;
    OpReceived (frame 0x622 [0x40; 0x01; 0x10; 0; 0; 0; 0; 0]); OpSetError 0x8130 0x10 [1]; OpProcess 3000;
    OpReceived (frame 0x705 [5]); OpNotifyChanged 0x2000 0; OpProcess 4000; OpSent; OpTakeEvents;
    OpReceived (frame 0 [2; 0x22]); OpProcess 5000; OpReceived (frame 0 [0x81; 0]); OpProcess 6000;
    OpRequestReset ResetTypeCommunication; OpProcess 7000 ].

(** The frames the run sends: boot-up, the synchronous TPDO with the value the
    RPDO brought, the SDO answer, ... *)
Example demo_run_frames :
  (r ← run_node_ops 8 8 16 16 (take 7 node_traffic) (demo_node, Mailbox.new);
   mret (map (λ f, (cf_id f, CanFrame.data f)) (tx_queue (snd r)))) =
  Ret [(0x722, [0]); (0x1A2, [7; 9]); (0x5A2, [0x4F; 0x01; 0x10; 0; 0x11; 0; 0; 0]);
       (0xA2, [0x30; 0x81; 0x11; 1; 0; 0; 0; 0])].
Proof. vm_compute. reflexivity. Qed.

Lemma node_od_ok : table_ok node_od.
Proof.
  unfold table_ok, node_od.
  repeat (apply List.Forall_cons; [|]); [..|apply List.Forall_nil]; (split; [|split]);
    try (intros Hk%te_is_spec; simpl in Hk; lia); try (simpl; intros; lia);
    try (intros _; split; [done|split; [split; [done|]|reflexivity]]; apply bytes_to_le || (repeat constructor; done)).
  intros _ _. split; [by right|split; [split; [done|apply bytes_to_le]|]].
  cbv zeta. intros _. unfold application_object. vm_compute. discriminate.
Qed.

Lemma node_config_ok : config_ok node_config.
Proof.
  unfold config_ok, wf_node. simpl. split; [lia|]. split; [|split; [|lia]].
  - apply List.Forall_cons; [|apply List.Forall_nil]. split; [|simpl; lia].
    apply List.Forall_cons; [unfold wf_mapping, is_uint; simpl; lia|apply List.Forall_nil].
  - apply List.Forall_cons; [|apply List.Forall_nil]. split; [|simpl; lia].
    apply List.Forall_cons; [|apply List.Forall_nil]. split; [unfold wf_mapping, is_uint; simpl; lia|].
    intros _. simpl. unfold application_object. lia.
Qed.

Lemma demo_new : new node_config node_od = Ret demo_node.
Proof. unfold demo_node. destruct (new node_config node_od) eqn:E; [done|]. vm_compute in E. discriminate. Qed.

Lemma node_traffic_wf : Forall (wf_node_op (OD := TableOd)) node_traffic.
Proof.
  repeat (apply List.Forall_cons; [first [exact I|apply frame_wf; [lia| |simpl; lia]]|]); [..|apply List.Forall_nil];
    repeat constructor; done.
Qed.

Lemma node_never_panics_witness : runs (run_node_ops 8 8 16 16 node_traffic (demo_node, Mailbox.new)) (state_ok 8).
Proof.
  exact (node_never_panics 8 8 16 16 node_config node_od demo_node node_traffic node_config_ok node_od_ok demo_new node_traffic_wf).
Defined.
