(* ===== verification/NodeNew.v ===== *)
(** * Construction of a node

    [Node::new] [canopen-core/src/node.rs] against a description of the node
    it builds from its configuration and its dictionary, field by field, and
    of the COB-ID plans it accepts. *)
From S2P Require Import Prelude Frame Nmt Od SdoProtocol SdoServer PdoBits PdoEngine Sync Heartbeat Emcy Lss Nb Node NodeSafe NodeRun.

Section construction.
Context {OD : Type} `{NodeOd OD} (EVT_QUEUE : nat).
Implicit Types (c : NodeConfig) (od : OD).

(** ** The node *)

(** The COB-IDs of a list of PDOs, written to sub 1 of their records. *)
Definition mirrored_cobs (base : Z) (l : list (Z * Z * bool)) od : OD :=
  fold_left (λ od '(slot, (cob, od_number, enabled)),
      fst (od_write od (base + pdo_od_offset od_number slot) 1 (stored_cob cob enabled)))
    (imap pair l) od.

(** The dictionary of the node: the one it was given, with the COB-IDs of the
    PDOs and SDO servers and an empty error register. *)
Definition mirrored_od c od : OD :=
  let od := mirrored_cobs 0x1800 (map (λ t, (tp_cob_id t, tp_od_number t, tp_enabled t)) (cfg_tpdo c)) od in
  let od := mirrored_cobs 0x1400 (map (λ r, (rp_cob_id r, rp_od_number r, rp_enabled r)) (cfg_rpdo c)) od in
  od_store_error_register (od_store_sdo_server_cob_ids od (cfg_node_id c)) 0.

(** The SYNC settings of a dictionary: COB-ID and whether the node produces,
    period, window and counter overflow; without 0x1005 the node consumes
    0x080. *)
Record SyncSettings := mkSettings {
  set_cob : Z; set_produces : bool; set_period : Z; set_window : Z; set_overflow_value : Z;
}.

Definition sync_settings od : SyncSettings :=
  let '(b5, ok5) := read_into od 0x1005 0 (zeros 4) in
  let '(b6, ok6) := read_into od 0x1006 0 b5 in
  let '(b7, ok7) := read_into od 0x1007 0 b6 in
  let '(b9, ok9) := read_into od 0x1019 0 (zeros 1) in
  let raw := if ok5 then from_le_bytes b5 else 0x080 in
  mkSettings (Z.land raw 0x7FF) (Z.testbit raw 30) (if ok6 then from_le_bytes b6 else 0)
    (if ok7 then from_le_bytes b7 else 0) (if ok9 then at_ b9 0 else 0).

(** The heartbeat period: 0x1017, or else the configured one. *)
Definition heartbeat_ms c od : Z :=
  let '(b, ok) := read_into od 0x1017 0 (zeros 2) in
  if ok then from_le_bytes b else cfg_heartbeat_interval_ms c.

(** The heartbeat consumers of 0x1016. *)
Definition consumers od : list (option HeartbeatMonitor) :=
  monitors_loop od false 0 (zeros 4) (replicate MAX_HEARTBEAT_MONITORS None).

Definition producer_of (s : SyncSettings) : SyncProducer :=
  mkProducer (if set_produces s then set_cob s else 0) (set_period s) (set_overflow_value s) 0 false 0.

(** The node on its final dictionary. *)
Definition assembled_on c od : Node (OD := OD) :=
  let id := cfg_node_id c in
  let s := sync_settings od in
  {| nd_node_id := id; nd_od := od; nd_nmt := NmtHandler.new;
     nd_sdo_server := SdoServerState.new; nd_sdo_tx := PendingSdoTx.default;
     nd_extra_sdo := map (λ srv, mkExtra SdoServerState.new PendingSdoTx.default (cob_rx srv) (cob_tx srv)) (cfg_sdo_servers c);
     nd_tpdo := Tpdo.new (cfg_tpdo c); nd_rpdo := Rpdo.new (cfg_rpdo c);
     nd_sync := mkConsumer (set_cob s) 0; nd_sync_producer := producer_of s;
     nd_sync_window := mkWindow (set_window s) 0 false;
     nd_pending_sync_tpdo := []; nd_last_attempt_us := None;
     nd_heartbeat := HeartbeatProducer.new id (heartbeat_ms c od);
     nd_hb_monitors := consumers od; nd_hb_events := [];
     nd_emcy := EmcyProducer.new id; nd_lss := LssSlave.new (cfg_identity c) id;
     nd_booted := false; nd_auto_start := cfg_auto_start c;
     nd_event_queue := []; nd_dirty_set := []; nd_overflow := 0; nd_reset_event := None |}.

Definition assembled c od : Node := assembled_on c (mirrored_od c od).

Lemma store_cobs_eq base slot l od :
  base = 0x1800 ∨ base = 0x1400 → Forall (λ x, 0 ≤ snd (fst x) ≤ 512) l → (slot + length l ≤ 512)%nat →
  store_cobs base slot l od
  = Ret (fold_left (λ od '(slot, (cob, od_number, enabled)),
           fst (od_write od (base + pdo_od_offset od_number slot) 1 (stored_cob cob enabled)))
         (imap (λ i x, ((slot + i)%nat, x)) l) od).
Proof.
  intros Hbase Hl. revert slot od. induction Hl as [|[[cob k] en] l Hk Hl IH]; intros slot od Hs; [done|].
  cbn [fst snd length store_cobs] in *. pose proof (pdo_offset_range k slot Hk ltac:(lia)) as Ho.
  rewrite checked_ret by (unfold is_uint; lia). rstep. rewrite IH by lia.
  rewrite imap_cons. cbn [fold_left]. rewrite Nat.add_0_r. do 2 f_equal.
  apply imap_ext. intros i x _. cbn. f_equal. lia.
Qed.

Lemma write_cobs_eq c od :
  config_ok c →
  write_pdo_cob_ids_to_od (initial c od)
  = Ret (set_od (mirrored_cobs 0x1400 (map (λ r, (rp_cob_id r, rp_od_number r, rp_enabled r)) (cfg_rpdo c))
           (mirrored_cobs 0x1800 (map (λ t, (tp_cob_id t, tp_od_number t, tp_enabled t)) (cfg_tpdo c)) od))
         (initial c od)).
Proof.
  intros (_ & Ht & Hr & Htl & Hrl). unfold write_pdo_cob_ids_to_od, initial, Tpdo.new, Rpdo.new.
  cbn [nd_tpdo nd_rpdo nd_od rpdo_slots]. rewrite !map_map. cbn [ts_cfg rs_cfg].
  rewrite store_cobs_eq; [|by left| |by rewrite length_map].
  2: { apply Forall_map. eapply Forall_impl; [|exact Ht]. by intros t [_ ?]. }
  rstep. rewrite store_cobs_eq; [done|by right| |by rewrite length_map].
  apply Forall_map. eapply Forall_impl; [|exact Hr]. by intros r [_ ?].
Qed.

(** ** The SYNC settings *)

Lemma from_raw_eq raw :
  is_supported_sync_cob_id raw = true →
  SyncCobId.from_raw raw = Some (mkSyncCobId (Z.land raw 0x7FF) (Z.testbit raw 30)) ∧ Z.land raw 0x7FF ≠ 0.
Proof.
  intros Hs. unfold SyncCobId.from_raw. rewrite Hs. cbn [negb].
  unfold is_supported_sync_cob_id in Hs. apply andb_true_iff in Hs as [_ Hn]. split; [|by apply Z.eqb_neq, negb_true_iff].
  change SYNC_GEN with (2 ^ 30). rewrite flag_bit by done. do 2 f_equal. apply wrap_id.
  pose proof (Z.land_ones raw 11 ltac:(lia)) as Ho. change (Z.ones 11) with 0x7FF in Ho. rewrite Ho.
  pose proof (Z.mod_pos_bound raw (2 ^ 11) ltac:(lia)). unfold is_uint. lia.
Qed.

Lemma sync_settings_cob od : od_ok od → set_cob (sync_settings od) ≠ 0.
Proof.
  intros Hod. unfold sync_settings. destruct (read_into od 0x1005 0 (zeros 4)) as [b5 ok5] eqn:E.
  destruct (read_into _ 0x1006 0 _), (read_into _ 0x1007 0 _), (read_into _ 0x1019 0 _).
  cbn [set_cob]. destruct ok5; [|done]. by apply from_raw_eq, (od_ok_1005 od b5).
Qed.

Lemma sync_config_eq n :
  od_ok (nd_od n) →
  let s := sync_settings (nd_od n) in
  sync_config_from_od n
  = Ret (set_sync_producer (SyncProducer.configure (nd_sync_producer n) (if set_produces s then set_cob s else 0)
                              (set_period s) (set_overflow_value s))
           (set_sync_window (SyncWindow.configure (nd_sync_window n) (set_window s))
              (set_sync (SyncConsumer.set_cob_id (nd_sync n) (set_cob s)) n))).
Proof.
  intros Hod. unfold sync_settings, sync_config_from_od.
  destruct (read_into (nd_od n) 0x1005 0 (zeros 4)) as [b5 ok5] eqn:E5.
  cbn [nd_od set_sync set_sync_window nd_sync_window nd_sync_producer].
  destruct (read_into (nd_od n) 0x1006 0 b5) as [b6 ok6].
  destruct (read_into (nd_od n) 0x1007 0 b6) as [b7 ok7].
  destruct (read_into (nd_od n) 0x1019 0 (zeros 1)) as [b9 ok9] eqn:E9.
  assert (is_valid_sync_counter_overflow (if ok9 then at_ b9 0 else 0) = true) as Hov
    by (destruct ok9; [by apply (od_ok_1019 (nd_od n) b9)|done]).
  cbn [set_cob set_produces set_period set_window set_overflow_value]. destruct ok5.
  - pose proof (od_ok_1005 _ _ Hod E5) as Hs. destruct (from_raw_eq _ Hs) as [Hr _].
    rewrite Hs, Hr. rstep. by rewrite Hov.
  - rstep. by rewrite Hov.
Qed.

Lemma heartbeat_eq c od n :
  nd_heartbeat n = HeartbeatProducer.new (cfg_node_id c) (cfg_heartbeat_interval_ms c) →
  nd_hb_monitors n = replicate MAX_HEARTBEAT_MONITORS None → nd_od n = od →
  sync_heartbeat_from_od false n
  = set_hb_monitors (consumers od)
      (set_heartbeat (HeartbeatProducer.new (cfg_node_id c) (heartbeat_ms c od)) n).
Proof.
  intros Hh Hm <-. unfold sync_heartbeat_from_od, heartbeat_ms, consumers. rewrite <- Hm.
  destruct (read_into (nd_od n) 0x1017 0 (zeros 2)) as [b [|]]; [by rewrite Hh|]. rewrite <- Hh. by destruct n.
Qed.

Lemma set_cob_default x : SyncConsumer.set_cob_id SyncConsumer.default_cob x = mkConsumer x 0.
Proof.
  unfold SyncConsumer.set_cob_id. cbn [con_cob_id SyncConsumer.default_cob SyncConsumer.new].
  by destruct (Z.eqb_spec SYNC_COB_ID_DEFAULT x) as [<-|].
Qed.

Lemma configure_new cob i ov : SyncProducer.configure SyncProducer.new cob i ov = mkProducer cob i ov 0 false 0.
Proof.
  unfold SyncProducer.configure. cbn [prod_cob_id prod_interval_us overflow SyncProducer.new prod_last_sent_us].
  destruct (Z.eqb_spec 0 cob) as [<-|]; [|done]. destruct (Z.eqb_spec 0 i) as [<-|]; [|done].
  by destruct (Z.eqb_spec 0 ov) as [<-|].
Qed.

(** The dictionary of a node, and its error register. *)
Lemma nd_od_set_od od n : nd_od (set_od od n) = od.
Proof. done. Qed.
Lemma set_od_set_od od od' n : set_od od (set_od od' n) = set_od od n.
Proof. done. Qed.
Lemma register_initial c od od' : error_register (nd_emcy (set_od od' (initial c od))) = 0.
Proof. done. Qed.

(** The configured node, before the two assertions. *)
Lemma configured_eq c od od' :
  od_ok od' →
  sync_config_from_od (set_hb_monitors (consumers od')
    (set_heartbeat (HeartbeatProducer.new (cfg_node_id c) (heartbeat_ms c od')) (set_od od' (initial c od))))
  = Ret (assembled_on c od').
Proof.
  intros Hod. rewrite sync_config_eq by done. f_equal.
  cbn [nd_od nd_sync nd_sync_producer nd_sync_window set_hb_monitors set_heartbeat set_od initial].
  by rewrite set_cob_default, configure_new.
Qed.

(** Up to the two assertions, construction is [assembled]. *)
Lemma new_eq c od :
  config_ok c → od_ok od →
  node_ok EVT_QUEUE (assembled c od) ∧
  new c od = if sdo_cob_ids_are_unique (assembled c od) && sync_cob_id_is_unique (assembled c od)
             then Ret (assembled c od) else Panic.
Proof.
  intros Hc Hod. pose proof (write_cobs_ok EVT_QUEUE _ (initial_ok EVT_QUEUE c od Hc Hod)) as Hw.
  unfold new, assembled, mirrored_od. rewrite write_cobs_eq in * by done. cbn [runs] in Hw. rstep.
  set (od1 := mirrored_cobs 0x1400 _ _) in *.
  rewrite nd_od_set_od, !set_od_set_od, nd_od_set_od, register_initial.
  set (od2 := od_store_error_register _ 0).
  assert (od_ok od2) as Hod2 by (apply od_ok_store_register, od_ok_store_servers, Hw).
  clearbody od2. clear Hw od1.
  assert (node_ok EVT_QUEUE (set_od od2 (initial c od))) as Hr by (apply set_od_ok; [by apply initial_ok|done]).
  pose proof (sync_heartbeat_ok EVT_QUEUE false _ Hr) as Hh.
  rewrite (heartbeat_eq c od2) in Hh by done. rewrite (heartbeat_eq c od2) by done.
  pose proof (sync_config_ok EVT_QUEUE _ Hh) as Hs. rewrite configured_eq in * by done. cbn [runs] in Hs. rstep.
  split; [exact Hs|]. destruct (sdo_cob_ids_are_unique _); [|done]. rstep. by destruct (sync_cob_id_is_unique _).
Qed.

(** ** The COB-ID plan *)

(** The SDO channels of the node: its default server and the additional
    ones. *)
Definition default_channel c : list Z := [CobId.sdo_rx (cfg_node_id c); CobId.sdo_tx (cfg_node_id c)].
Definition extra_channels c : list Z := flat_map (λ srv, [cob_rx srv; cob_tx srv]) (cfg_sdo_servers c).
Definition sdo_channels c : list Z := default_channel c ++ extra_channels c.

(** The node's own services besides SDO, SYNC and the PDOs. *)
Definition own_services c : list Z :=
  [CobId.nmt; CobId.emergency (cfg_node_id c); CobId.heartbeat (cfg_node_id c); LSS_REQUEST_COB; LSS_RESPONSE_COB].

(** What its PDOs and heartbeat consumers use, enabled or not. *)
Definition pdos_and_consumers c od : list Z :=
  map tp_cob_id (cfg_tpdo c) ++ map rp_cob_id (cfg_rpdo c)
  ++ map (λ m, CobId.heartbeat (hm_node m)) (omap id (consumers od)).

(** No SDO channel and no SYNC identifier is used twice. *)
Record unambiguous c od : Prop := {
  channels_distinct : base.NoDup (sdo_channels c);
  channels_free x : x ∈ sdo_channels c → x ∉ own_services c ++ pdos_and_consumers c od;
  sync_free : set_cob (sync_settings od) ∉ own_services c ++ sdo_channels c ++ pdos_and_consumers c od;
}.

Lemma contains_spec l x : contains l x = true ↔ x ∈ l.
Proof.
  unfold contains. rewrite existsb_exists. setoid_rewrite Z.eqb_eq. rewrite list_elem_of_In. naive_solver.
Qed.

Lemma contains_false l x : contains l x = false ↔ x ∉ l.
Proof. rewrite <- contains_spec. by destruct (contains l x). Qed.

Definition channel_cobs (l : list ExtraSdo) : list Z := flat_map (λ e, [ex_rx e; ex_tx e]) l.

Lemma overlap_spec rx tx l :
  forallb (λ o, negb ((rx =? ex_rx o) || (rx =? ex_tx o) || (tx =? ex_rx o) || (tx =? ex_tx o))) l = true
  ↔ (rx ∉ channel_cobs l) ∧ (tx ∉ channel_cobs l).
Proof.
  induction l as [|o l IH]; cbn [forallb channel_cobs flat_map app]; [by split; [split; apply not_elem_of_nil|]|].
  rewrite andb_true_iff, IH, negb_true_iff, !orb_false_iff, !Z.eqb_neq, !not_elem_of_cons. unfold channel_cobs. tauto.
Qed.

Lemma extras_unique_spec fixed l :
  0 ∈ fixed →
  extras_unique fixed l = true ↔ base.NoDup (channel_cobs l) ∧ ∀ x, x ∈ channel_cobs l → x ∉ fixed.
Proof.
  intros Hz. induction l as [|e l IH]; cbn [extras_unique channel_cobs flat_map app].
  { split; [split; [constructor|by intros x Hx%elem_of_nil]|done]. }
  rewrite !andb_true_iff, IH, overlap_spec, !negb_true_iff, !orb_false_iff, !contains_false, !Z.eqb_neq.
  rewrite !list.NoDup_cons, not_elem_of_cons. fold (channel_cobs l). split.
  - intros [[[[[? ?] ?] [? ?]] [? ?]] [? ?]]. split_and!; try done. intros x.
    rewrite !elem_of_cons. intros [->|[->|]]; [done|done|auto].
  - intros [[[Hne Hrx] [Htx Hd]] Hx].
    assert (ex_rx e ∉ fixed) by (apply Hx; left). assert (ex_tx e ∉ fixed) by (apply Hx; right; left).
    split_and!; try done; try congruence. intros x Hin. apply Hx. by right; right.
Qed.

Lemma claims_spec s cob :
  SdoCobIds.claims s cob = true ↔ cob ≠ 0 ∧ cob ∈ [default_rx s; default_tx s] ++ extra_rx s ++ extra_tx s.
Proof.
  unfold SdoCobIds.claims. rewrite andb_true_iff, !orb_true_iff, !contains_spec, negb_true_iff, Z.eqb_neq, !Z.eqb_eq.
  rewrite !elem_of_app, !elem_of_cons, elem_of_nil. tauto.
Qed.

Lemma claims_channels c od cob :
  SdoCobIds.claims (sdo_cobs (assembled_on c od)) cob = true ↔ cob ≠ 0 ∧ cob ∈ sdo_channels c.
Proof.
  rewrite claims_spec. unfold sdo_cobs, sdo_channels, default_channel, extra_channels. cbn [default_rx default_tx extra_rx extra_tx nd_node_id nd_extra_sdo assembled_on].
  rewrite !map_map. cbn [ex_rx ex_tx]. apply and_iff_compat_l. rewrite !elem_of_app. apply or_iff_compat_l.
  induction (cfg_sdo_servers c) as [|srv l IH]; cbn [map flat_map app]; [by rewrite !elem_of_nil; tauto|].
  rewrite !elem_of_cons, <- IH. tauto.
Qed.

Lemma forallb_free c od l :
  forallb (λ x, negb (SdoCobIds.claims (sdo_cobs (assembled_on c od)) x)) l = true
  ↔ ∀ x, x ∈ l → x ≠ 0 → x ∉ sdo_channels c.
Proof.
  rewrite forallb_forall. split.
  - intros Hl x Hx%list_elem_of_In Hn Hin. specialize (Hl x Hx).
    by rewrite (proj2 (claims_channels c od x) (conj Hn Hin)) in Hl.
  - intros Hl x Hx%list_elem_of_In. apply negb_true_iff, not_true_iff_false. rewrite claims_channels.
    intros [Hn Hin]. by apply (Hl x).
Qed.

Lemma pdo_cobs_eq c od :
  tpdo_cobs (assembled_on c od) = map tp_cob_id (cfg_tpdo c) ∧
  rpdo_cobs (assembled_on c od) = map rp_cob_id (cfg_rpdo c).
Proof.
  unfold tpdo_cobs, rpdo_cobs, Tpdo.new, Rpdo.new. cbn [nd_tpdo nd_rpdo rpdo_slots assembled_on].
  split; apply map_map.
Qed.

Lemma sdo_unique_spec c od :
  set_cob (sync_settings od) ≠ 0 →
  sdo_cob_ids_are_unique (assembled_on c od) = true ↔
  base.NoDup (extra_channels c) ∧
  (∀ x, x ∈ extra_channels c → x ∉ set_cob (sync_settings od) :: default_channel c ++ own_services c) ∧
  ∀ x, x ∈ pdos_and_consumers c od → x ≠ 0 → x ∉ sdo_channels c.
Proof.
  intros Hs. unfold sdo_cob_ids_are_unique.
  rewrite !andb_true_iff, extras_unique_spec by left. rewrite !forallb_free.
  destruct (pdo_cobs_eq c od) as [-> ->]. unfold pdos_and_consumers, monitored_cobs, monitors, sync_or_0, SyncConsumer.cob_id.
  cbn [nd_node_id nd_extra_sdo nd_sync nd_hb_monitors con_cob_id assembled_on].
  unfold channel_cobs, extra_channels. rewrite flat_map_concat_map, map_map, <- flat_map_concat_map. cbn [ex_rx ex_tx].
  rewrite (proj2 (Z.eqb_neq (set_cob _) 0)) by done. change (default 0 (Some (set_cob (sync_settings od)))) with (set_cob (sync_settings od)).
  assert (∀ x, x ∉ [CobId.nmt; set_cob (sync_settings od); CobId.emergency (cfg_node_id c);
                    CobId.sdo_rx (cfg_node_id c); CobId.sdo_tx (cfg_node_id c); CobId.heartbeat (cfg_node_id c);
                    LSS_REQUEST_COB; LSS_RESPONSE_COB]
               ↔ x ∉ set_cob (sync_settings od) :: default_channel c ++ own_services c) as Hfix.
  { intros x. unfold own_services, default_channel. cbn [app].
    rewrite !not_elem_of_cons. tauto. }
  setoid_rewrite Hfix. setoid_rewrite elem_of_app. setoid_rewrite elem_of_app. split.
  - intros [[[[? ?] ?] ?] ?]. split_and!; try done. intros x [?|[?|?]]; auto.
  - intros (? & ? & Hall). split_and!; auto.
Qed.

Lemma existsb_same l s : existsb (λ cob, cob =? s) l = contains l s.
Proof. induction l as [|x l IH]; [done|]. unfold contains in *. cbn [existsb]. by rewrite IH, Z.eqb_sym. Qed.

Lemma sync_unique_spec c od :
  set_cob (sync_settings od) ≠ 0 →
  sync_cob_id_is_unique (assembled_on c od) = true ↔
  set_cob (sync_settings od) ∉ own_services c ++ sdo_channels c ++ pdos_and_consumers c od.
Proof.
  intros Hs. unfold sync_cob_id_is_unique, SyncConsumer.cob_id. cbn [nd_sync con_cob_id assembled_on nd_node_id].
  rewrite (proj2 (Z.eqb_neq (set_cob _) 0)) by done.
  assert (∀ b r : bool, (if b then false else r) = negb b && r) as Hif by by intros [].
  rewrite !Hif, !existsb_same, !andb_true_iff, !negb_true_iff, !orb_false_iff, !contains_false, !Z.eqb_neq.
  rewrite <- not_true_iff_false, claims_channels.
  destruct (pdo_cobs_eq c od) as [-> ->]. unfold pdos_and_consumers, monitored_cobs, monitors, own_services.
  cbn [nd_hb_monitors assembled_on]. rewrite !elem_of_app, !elem_of_cons, elem_of_nil. tauto.
Qed.

(** The default server cannot clash with the node's own services. *)
Lemma default_free c x : wf_node (cfg_node_id c) → x ∈ default_channel c → x ∉ own_services c.
Proof.
  unfold wf_node, default_channel, own_services, CobId.sdo_rx, CobId.sdo_tx, CobId.emergency, CobId.heartbeat,
    CobId.nmt, LSS_REQUEST_COB, LSS_RESPONSE_COB.
  intros Hid Hx. rewrite !elem_of_cons, elem_of_nil in *. lia.
Qed.

(** The two assertions decide whether the plan is ambiguous. *)
Lemma plan_spec c od :
  wf_node (cfg_node_id c) → set_cob (sync_settings od) ≠ 0 →
  sdo_cob_ids_are_unique (assembled_on c od) && sync_cob_id_is_unique (assembled_on c od) = true
  ↔ unambiguous c od.
Proof.
  intros Hid Hs. rewrite andb_true_iff, sdo_unique_spec, sync_unique_spec by done. split.
  - intros [(Hd & He & Hc) Hsync].
    assert (∀ x, x ∈ sdo_channels c → x ∉ own_services c) as Hown.
    { intros x [Hx|Hx]%elem_of_app; [by apply default_free|].
      specialize (He x Hx). rewrite not_elem_of_cons, not_elem_of_app in He. tauto. }
    split; [|intros x Hx|done].
    + unfold sdo_channels. apply list.NoDup_app. split_and!; [| |done].
      * apply list.NoDup_cons. split; [|apply NoDup_singleton].
        rewrite list_elem_of_singleton. unfold CobId.sdo_rx, CobId.sdo_tx. lia.
      * intros x Hx Hx'. specialize (He x Hx'). rewrite not_elem_of_cons, not_elem_of_app in He. tauto.
    + rewrite not_elem_of_app. split; [by apply Hown|]. intros Hin. apply (Hc x Hin); [|done].
      intros ->. apply (Hown 0 Hx). left.
  - intros [Hd Hf Hsync]. split; [|done]. apply list.NoDup_app in Hd as (_ & Hdis & Hd).
    split; [done|]. split.
    + intros x Hx. assert (x ∈ sdo_channels c) as Hch by (apply elem_of_app; by right).
      pose proof (Hf x Hch) as Hn. rewrite not_elem_of_cons, !not_elem_of_app in *.
      split; [|split; [intros Hx'; by apply (Hdis x)|tauto]]. intros ->. tauto.
    + intros x Hx _ Hch. apply (Hf x Hch). apply elem_of_app. by right.
Qed.

(** C27. Construction is what its inputs say, and fails exactly on an
    ambiguous COB-ID plan.  For a well-formed configuration and dictionary the
    node that [new] builds is [assembled]: the node id, engines, additional
    servers, identity and start mode of the configuration, a dictionary that
    shows the COB-IDs of the PDOs and servers and an empty error register, and
    heartbeat period, heartbeat consumers and SYNC settings taken from that
    dictionary; it satisfies the node's invariant.  [new] returns it exactly
    when no SDO channel and no SYNC identifier coincides with another service
    of the node, enabled or not, and panics exactly when one does. *)
Theorem new_fails_only_on_clash c od :
  config_ok c → od_ok od →
  node_ok EVT_QUEUE (assembled c od) ∧
  (unambiguous c (mirrored_od c od) → new c od = Ret (assembled c od)) ∧
  (¬ unambiguous c (mirrored_od c od) → new c od = Panic).
Proof.
  intros Hc Hod. destruct (new_eq c od Hc Hod) as [Hok ->]. split; [done|].
  assert (set_cob (sync_settings (mirrored_od c od)) ≠ 0) as Hs by apply sync_settings_cob, Hok.
  rewrite <- plan_spec by (done || apply Hc). unfold assembled.
  destruct (sdo_cob_ids_are_unique _ && _); by split.
Qed.
End construction.

Lemma new_fails_only_on_clash_witness :
  new node_config node_od = Ret (assembled node_config node_od) ∧
  node_ok 8 (assembled node_config node_od) ∧
  (unambiguous node_config (mirrored_od node_config node_od) →
     new node_config node_od = Ret (assembled node_config node_od)) ∧
  (¬ unambiguous node_config (mirrored_od node_config node_od) → new node_config node_od = Panic).
Proof.
  split; [vm_compute; reflexivity|].
  exact (new_fails_only_on_clash 8 node_config node_od node_config_ok node_od_ok).
Defined.

(** An additional server on the identifier of the node's TPDO. *)
Example new_clash :
  new (mkNodeConfig 0x22 1000 true (cfg_tpdo node_config) [] [mkSdoServerConfig 1 0x640 0x1A2] (mkIdentity 1 2 3 4))
    node_od = Panic.
Proof. vm_compute. reflexivity. Qed.
