(* ===== verification/SdoTimed.v ===== *)
(** * Timed SDO transfers, typed access and non-blocking transports

    The rest of [canopen-core/src/sdo/driver.rs].  A timed transfer polls its
    transport: the class [PollCan] is an [AsyncCan] seen one poll at a time, the
    list [clock] holds the readings of the clock in the order they are taken,
    and a transfer that needs more readings than it has returns [None].
    [NbCanAsync] makes an [AsyncCan] of a non-blocking transport; its waits
    have fuel. *)
From S2P Require Import Prelude Frame Nmt Od SdoProtocol SdoServer SdoServerSafe SdoClient SdoClientSafe SdoDriver Nb NodeSafe.

Class PollCan (C E : Type) := {
  poll_transmit : C → CanFrame → C * option (result unit E);
  poll_receive : C → C * option (result CanFrame E);
}.

(** What a transport promises: the frames it receives are frames. *)
Class PollLaws (C E : Type) `{PollCan C E} := {
  poll_ok : C → Prop;
  poll_transmit_ok : ∀ c f, poll_ok c → poll_ok (fst (poll_transmit c f));
  poll_receive_ok : ∀ c c' r, poll_ok c → poll_receive c = (c', r) →
    poll_ok c' ∧ match r with Some (Ok f) => wf_frame f | _ => True end;
}.

(** ** Deadlines *)

(** [with_deadline]'s [poll_fn]: the clock is read at every poll. *)
Fixpoint poll_until {C R} (clock : list Z) (d : TransferDeadline) (poll : C → C * option R) (c : C)
    : option (C * list Z * result R unit) :=
  match clock with
  | [] => None
  | now :: clock =>
      if remaining d now =? 0 then Some (c, clock, Err tt)
      else match poll c with
           | (c, Some r) => Some (c, clock, Ok r)
           | (c, None) => poll_until clock d poll c
           end
  end.

Definition with_deadline {C R} (clock : list Z) (d : TransferDeadline) (poll : C → C * option R) (c : C)
    : option (C * list Z * result R unit) :=
  match clock with
  | [] => None
  | now :: clock => if remaining d now =? 0 then Some (c, clock, Err tt) else poll_until clock d poll c
  end.

(** How a loop ends: [Ok] with the outcome the server knows about, [Err] when
    the transfer broke off; [None] when it goes on. *)
Definition ending (T E : Type) : Type := result (result T (SdoError E)) (SdoError E).

Section timed.
Context {C E : Type} `{PollCan C E}.

Definition send_timed (clock : list Z) (dl : TransferDeadline) (can : C) (frame : CanFrame)
    : option (C * list Z * result unit (SdoError E)) :=
  match with_deadline clock dl (λ c, poll_transmit c frame) can with
  | None => None
  | Some (can, clock, Err _) => Some (can, clock, Err ErrTimeout)
  | Some (can, clock, Ok (Ok _)) => Some (can, clock, Ok tt)
  | Some (can, clock, Ok (Err e)) => Some (can, clock, Err (ErrTransport e))
  end.

Fixpoint receive_response_timed (fuel : nat) (clock : list Z) (dl : TransferDeadline) (d : SdoDriver) (can : C)
    : option (C * list Z * result CanFrame (SdoError E)) :=
  match fuel with
  | O => None
  | S fuel =>
      match with_deadline clock dl poll_receive can with
      | None => None
      | Some (can, clock, Err _) => Some (can, clock, Err ErrTimeout)
      | Some (can, clock, Ok (Err e)) => Some (can, clock, Err (ErrTransport e))
      | Some (can, clock, Ok (Ok frame)) =>
          if negb (CanFrame.raw_id frame =? drv_response_cob d)
          then receive_response_timed fuel clock dl d can
          else if negb (CanFrame.raw_dlc frame =? 8) then Some (can, clock, Err ErrProtocol)
          else Some (can, clock, Ok frame)
      end
  end.

(** [send_abort] polls the transmission once. *)
Definition send_abort_once (d : SdoDriver) (can : C) (index subindex : Z) (code : AbortCode) : exec C :=
  data ← encode_abort index subindex code;
  mret (match CanFrame.new (CobId.sdo_rx (drv_target d)) data with
        | Some frame => fst (poll_transmit can frame)
        | None => can
        end).

Definition finish_timed {T} (d : SdoDriver) (can : C) (index subindex : Z)
    (r : ending T E) : exec (C * result T (SdoError E)) :=
  match r with
  | Ok outcome => mret (can, outcome)
  | Err error =>
      let code := match error with
                  | ErrTimeout => Some SdoProtocolTimeout
                  | ErrProtocol => Some InvalidCommandSpecifier
                  | _ => None
                  end in
      match code with
      | Some code => can ← send_abort_once d can index subindex code; mret (can, Err error)
      | None => mret (can, Err error)
      end
  end.

(** Both loops are one, up to what a response of the client means: [Some r]
    ends the transfer with [r]. *)
Fixpoint transfer_loop {T} (outcome : SdoClient → SdoClientResult → exec (option (ending T E)))
    (fuel : nat) (clock : list Z) (dl : TransferDeadline) (d : SdoDriver) (client : SdoClient) (can : C)
    : exec (option (C * list Z * ending T E)) :=
  match fuel with
  | O => mret None
  | S fuel' =>
      match receive_response_timed fuel clock dl d can with
      | None => mret None
      | Some (can, clock, Err e) => mret (Some (can, clock, Err e))
      | Some (can, clock, Ok frame) =>
          '(client, r) ← process_response MAX_TRANSFER client (CanFrame.data frame);
          match r with
          | SendNext next =>
              match send_timed clock dl can next with
              | None => mret None
              | Some (can, clock, Ok _) => transfer_loop outcome fuel' clock dl d client can
              | Some (can, clock, Err e) => mret (Some (can, clock, Err e))
              end
          | IgnoredAbort => transfer_loop outcome fuel' clock dl d client can
          | r =>
              o ← outcome client r;
              mret (match o with Some o => Some (can, clock, o) | None => None end)
          end
      end
  end.

(** The arms of [download_impl] and [upload_impl] that end the loop. *)
Definition download_outcome (client : SdoClient) (r : SdoClientResult)
    : exec (option (ending unit E)) :=
  mret (match r with
        | DownloadComplete => Some (Ok (Ok tt))
        | Aborted code => Some (Ok (Err (ErrAborted code)))
        | UploadComplete _ | ProtocolViolation => Some (Err ErrProtocol)
        | SendNext _ | IgnoredAbort => None
        end).

Definition upload_outcome (buf_len : Z) (client : SdoClient) (r : SdoClientResult)
    : exec (option (ending (list Z * bool) E)) :=
  match r with
  | UploadComplete data_len =>
      if buf_len <? data_len then mret (Some (Ok (Err ErrTooLarge)))
      else
        all ← data client;
        v ← slice all 0 data_len;
        mret (Some (Ok (Ok (v, upload_size_indicated client))))
  | Aborted code => mret (Some (Ok (Err (ErrAborted code))))
  | DownloadComplete | ProtocolViolation => mret (Some (Err ErrProtocol))
  | SendNext _ | IgnoredAbort => mret None
  end.

(** The part after the request frame is built. *)
Definition run_timed {T} (outcome : SdoClient → SdoClientResult → exec (option (ending T E)))
    (fuel : nat) (clock : list Z) (dl : TransferDeadline) (d : SdoDriver) (client : SdoClient) (can : C)
    (index subindex : Z) (req : CanFrame) : exec (option (C * list Z * result T (SdoError E))) :=
  match send_timed clock dl can req with
  | None => mret None
  | Some (can, clock, Err e) => mret (Some (can, clock, Err e))
  | Some (can, clock, Ok _) =>
      r ← transfer_loop outcome fuel clock dl d client can;
      match r with
      | None => mret None
      | Some (can, clock, r) =>
          q ← finish_timed d can index subindex r;
          mret (Some (fst q, clock, snd q))
      end
  end.

Definition download_timed (fuel : nat) (clock : list Z) (d : SdoDriver) (can : C) (index subindex : Z)
    (data : list Z) (timeout_us : Z) : exec (option (C * list Z * result unit (SdoError E))) :=
  match clock with
  | [] => mret None
  | now :: clock =>
      '(client, req) ← start_download MAX_TRANSFER (new MAX_TRANSFER (drv_target d)) index subindex data;
      match req with
      | Err _ => mret (Some (can, clock, Err ErrTooLarge))
      | Ok req => run_timed download_outcome fuel clock (mkDeadline now timeout_us) d client can index subindex req
      end
  end.

Definition upload_timed (fuel : nat) (clock : list Z) (d : SdoDriver) (can : C) (index subindex buf_len : Z)
    (timeout_us : Z) : exec (option (C * list Z * result (list Z) (SdoError E))) :=
  match clock with
  | [] => mret None
  | now :: clock =>
      '(client, req) ← start_upload (new MAX_TRANSFER (drv_target d)) index subindex;
      r ← run_timed (upload_outcome buf_len) fuel clock (mkDeadline now timeout_us) d client can index subindex req;
      mret (match r with
            | None => None
            | Some (can, clock, Ok (v, _)) => Some (can, clock, Ok v)
            | Some (can, clock, Err e) => Some (can, clock, Err e)
            end)
  end.
End timed.

(** ** Typed access *)

Section typed.
Context {C E : Type} `{AsyncCan C E}.

Definition map_ok {T U} (f : T → U) (r : exec (option (C * result T (SdoError E))))
    : exec (option (C * result U (SdoError E))) :=
  r ← r;
  mret (match r with
        | None => None
        | Some (can, Ok v) => Some (can, Ok (f v))
        | Some (can, Err e) => Some (can, Err e)
        end).

(** [typed_access!]: the reader and the writer of an unsigned or signed type of
    [n] bytes; [f32] and [f64] are their bit patterns. *)
Definition read_uint (n : Z) (fuel : nat) (d : SdoDriver) (can : C) (index subindex : Z) :=
  map_ok from_le_bytes (read_fixed fuel d can index subindex n).

Definition read_int (n : Z) (fuel : nat) (d : SdoDriver) (can : C) (index subindex : Z) :=
  map_ok (λ v, signed_of n (from_le_bytes v)) (read_fixed fuel d can index subindex n).

Definition write_int (n : nat) (fuel : nat) (d : SdoDriver) (can : C) (index subindex val : Z) :=
  download fuel d can index subindex (to_le_bytes n val).

Definition read_u8 := read_uint 1.
Definition read_i8 := read_int 1.
Definition read_u16 := read_uint 2.
Definition read_i16 := read_int 2.
Definition read_u32 := read_uint 4.
Definition read_i32 := read_int 4.
Definition read_u64 := read_uint 8.
Definition read_i64 := read_int 8.

Definition read_bool (fuel : nat) (d : SdoDriver) (can : C) (index subindex : Z) :=
  map_ok (λ v, negb (at_ v 0 =? 0)) (read_fixed fuel d can index subindex 1).

Definition write_bool (fuel : nat) (d : SdoDriver) (can : C) (index subindex : Z) (val : bool) :=
  download fuel d can index subindex [if val then 1 else 0].

(** [i32::from_le_bytes] with the extension byte. *)
Definition i24_of (v : list Z) : Z :=
  let ext := if negb (Z.land (at_ v 2) 0x80 =? 0) then 0xFF else 0x00 in
  signed_of 4 (from_le_bytes [at_ v 0; at_ v 1; at_ v 2; ext]).

Definition read_i24 (fuel : nat) (d : SdoDriver) (can : C) (index subindex : Z) :=
  map_ok i24_of (read_fixed fuel d can index subindex 3).

Definition read_u24 (fuel : nat) (d : SdoDriver) (can : C) (index subindex : Z) :=
  map_ok (λ v, from_le_bytes [at_ v 0; at_ v 1; at_ v 2; 0]) (read_fixed fuel d can index subindex 3).

(** [write_i24] and [write_u24]: the first three of four bytes. *)
Definition write_24 (fuel : nat) (d : SdoDriver) (can : C) (index subindex val : Z) :=
  b ← slice (to_le_bytes 4 val) 0 3; download fuel d can index subindex b.
End typed.

(** ** Non-blocking transports *)

Section nb.
Context {S : Type} `{Can S}.

Fixpoint nb_transmit (fuel : nat) (s : S) (frame : CanFrame) : S * option (result unit CanError) :=
  match fuel with
  | O => (s, None)
  | Datatypes.S fuel =>
      match Nb.transmit s frame with
      | (s, Ok _) => (s, Some (Ok tt))
      | (s, Err WouldBlock) => nb_transmit fuel s frame
      | (s, Err (Other e)) => (s, Some (Err e))
      end
  end.

Fixpoint nb_receive (fuel : nat) (s : S) : S * option (result CanFrame CanError) :=
  match fuel with
  | O => (s, None)
  | Datatypes.S fuel =>
      match Nb.receive s with
      | (s, Ok frame) => (s, Some (Ok frame))
      | (s, Err WouldBlock) => nb_receive fuel s
      | (s, Err (Other e)) => (s, Some (Err e))
      end
  end.

(** One poll of its futures is one call of the transport. *)
#[export] Instance nb_poll_can : PollCan S CanError | 100 := {
  poll_transmit s frame := nb_transmit 1 s frame;
  poll_receive s := nb_receive 1 s;
}.

#[export] Program Instance nb_poll_laws `{!CanLaws S} : PollLaws S CanError := { poll_ok := can_ok }.
Next Obligation.
  intros L c f Hc. destruct (transmit_ok c f Hc) as [Ht _]. cbn [poll_transmit nb_poll_can nb_transmit].
  by destruct (Nb.transmit c f) as [c' [|[|]]].
Qed.
Next Obligation.
  intros L c c' r Hc. cbn [poll_receive nb_poll_can nb_receive].
  destruct (Nb.receive c) as [c2 r2] eqn:Hr. destruct (receive_ok c c2 r2 Hc Hr) as [Hc2 Hf].
  destruct r2 as [f|[|e]]; intros [= <- <-]; (split; [done|]); [by destruct Hf|done..].
Qed.
End nb.

(** ** The numbers of the typed readers and writers *)

Lemma signed_of_to_le (n : nat) (z : Z) :
  (0 < n)%nat → - 2 ^ (8 * Z.of_nat n - 1) ≤ z < 2 ^ (8 * Z.of_nat n - 1) →
  signed_of (Z.of_nat n) (from_le_bytes (to_le_bytes n z)) = z.
Proof.
  intros Hn Hz. rewrite from_to_le. change 256 with (2 ^ 8). rewrite <- Z.pow_mul_r by lia. unfold signed_of.
  assert (2 ^ (8 * Z.of_nat n) = 2 * 2 ^ (8 * Z.of_nat n - 1)) as Hp
    by (rewrite <- Z.pow_succ_r by lia; f_equal; lia).
  set (h := 2 ^ (8 * Z.of_nat n - 1)) in *. rewrite Hp. destruct (Z.lt_ge_cases z 0).
  - rewrite <- (Z_mod_plus_full z 1), Z.mod_small by lia. destruct (Z.ltb_spec (z + 1 * (2 * h)) h); lia.
  - rewrite Z.mod_small by lia. destruct (Z.ltb_spec z h); lia.
Qed.

(** [read_i24] sign-extends the three bytes on the wire. *)
Lemma i24_of_spec (a b c : Z) :
  is_u8 a → is_u8 b → is_u8 c → i24_of [a; b; c] = signed_of 3 (from_le_bytes [a; b; c]).
Proof.
  intros Ha Hb Hc. unfold i24_of, at_. cbn [nth].
  assert ((Z.land c 0x80 =? 0) = (c <? 128)) as ->.
  { apply Bool.eqb_prop. revert c Hc. apply byte_forall. by vm_compute. }
  unfold signed_of, from_le_bytes, is_uint in *. change (2 ^ (8 * 3 - 1)) with 8388608. change (2 ^ (8 * 3)) with 16777216.
  change (2 ^ (8 * 4 - 1)) with 2147483648. change (2 ^ (8 * 4)) with 4294967296.
  destruct (Z.ltb_spec c 128); cbn [negb]; repeat case_match; lia.
Qed.

(** What [write_i24] puts on the wire, [read_i24] takes off it. *)
Lemma i24_roundtrip (z : Z) :
  - 2 ^ 23 ≤ z < 2 ^ 23 → (b ← slice (to_le_bytes 4 z) 0 3; mret (i24_of b)) = Ret z.
Proof.
  intros Hz. rewrite slice_prefix by (rewrite ?length_to_le; lia).
  replace (take (Z.to_nat 3) (to_le_bytes 4 z)) with (to_le_bytes 3 z) by done. rstep.
  pose proof (signed_of_to_le 3 z ltac:(lia) Hz) as Hs. pose proof (bytes_to_le 3 z) as Hb. f_equal.
  rewrite <- Hs at 2. change (to_le_bytes 3 z) with [z mod 256; z / 256 mod 256; z / 256 / 256 mod 256] in *.
  repeat (apply List.Forall_cons_iff in Hb as [? Hb]). by apply i24_of_spec.
Qed.
