(* ===== verification/SdoTimedSpec.v ===== *)
(** * When timed SDO transfers end, and what they do until then

    Over any transport, a timed transfer of [SdoTimed] takes clock readings
    that are all within its timeout, or ends with the timeout error at the
    first that is not ([clocked], carried from the single wait to the whole
    transfer).  Over a transport that is always ready it is the untimed
    transfer of [SdoDriver]. *)
From S2P Require Import Prelude Frame Nmt Od SdoProtocol SdoServer SdoServerSafe SdoClient SdoClientSafe SdoDriver Nb NodeSafe SdoTimed.

(** ** When a timed transfer ends *)

Definition within (dl : TransferDeadline) (now : Z) : Prop := (now - started dl) mod 2 ^ 64 < timeout_us dl.

Lemma remaining_spec dl now : remaining dl now ≠ 0 ↔ within dl now.
Proof. unfold remaining, within, saturating_sub, wrapping_sub, wrap. lia. Qed.

Lemma remaining_cases dl now : (remaining dl now =? 0) = false ∧ within dl now ∨ (remaining dl now =? 0) = true ∧ ¬ within dl now.
Proof. pose proof (remaining_spec dl now). destruct (Z.eqb_spec (remaining dl now) 0); [right|left]; naive_solver. Qed.

(** The readings a transfer used up: all in time, except the last one when it
    timed out. *)
Definition used_up (dl : TransferDeadline) (timeout : Prop) (used : list Z) : Prop :=
  ¬ timeout ∧ Forall (within dl) used ∨
  timeout ∧ ∃ u now, used = u ++ [now] ∧ Forall (within dl) u ∧ ¬ within dl now.

Lemma used_up_app dl t u v : Forall (within dl) u → used_up dl t v → used_up dl t (u ++ v).
Proof.
  intros Hu [[Ht Hv]|[Ht (w & now & -> & Hw & Hn)]].
  - left. split; [done|]. by apply Forall_app_2.
  - right. split; [done|]. exists (u ++ w), now. split; [apply app_assoc|]. split; [by apply Forall_app_2|done].
Qed.

Lemma used_up_iff dl (t t' : Prop) u : (t ↔ t') → used_up dl t u → used_up dl t' u.
Proof. unfold used_up. naive_solver. Qed.

(** What a step that reads [clock] does with it, and what it leaves. *)
Definition clocked {A R} (post : A → R → Prop) (dl : TransferDeadline) (t : R → Prop) (clock : list Z)
    (o : option (A * list Z * R)) : Prop :=
  match o with
  | None => Forall (within dl) clock
  | Some (a, clock', r) => post a r ∧ ∃ used, clock = used ++ clock' ∧ used ≠ [] ∧ used_up dl (t r) used
  end.

Definition timed_out {T E} (r : result T (SdoError E)) : Prop := r = Err ErrTimeout.

Lemma clocked_one_late {A R} (post : A → R → Prop) dl (t : R → Prop) now clock a r :
  ¬ within dl now → post a r → t r → clocked post dl t (now :: clock) (Some (a, clock, r)).
Proof.
  intros H0 Hp Ht. split; [done|]. exists [now]. split; [done|]. split; [done|]. right. split; [done|].
  exists [], now. split; [done|]. split; [apply List.Forall_nil|done].
Qed.

Lemma clocked_one_more {A R} (post : A → R → Prop) dl (t : R → Prop) now clock o :
  within dl now → clocked post dl t clock o → clocked post dl t (now :: clock) o.
Proof.
  intros Hn. destruct o as [[[a k] r]|]; cbn [clocked].
  - intros (Hp & used & -> & Hne & Hu). split; [done|]. exists (now :: used). split; [done|]. split; [done|].
    apply (used_up_app dl _ [now]); [|done]. apply List.Forall_cons; [exact Hn|apply List.Forall_nil].
  - by apply List.Forall_cons.
Qed.

(** A step with the readings another step left. *)
Lemma clocked_next {A R} (post : A → R → Prop) dl clock used clock' (t : R → Prop) (o : option (A * list Z * R)) :
  clock = used ++ clock' → Forall (within dl) used → clocked post dl t clock' o → clocked post dl t clock o.
Proof.
  intros -> Hu Ho. induction Hu as [|now used Hn _ IH]; [done|]. by apply (clocked_one_more post dl t now).
Qed.

Lemma clocked_mono {A A' R R'} (post : A → R → Prop) (post' : A' → R' → Prop) dl (t : R → Prop) (t' : R' → Prop)
    clock a a' k r r' :
  clocked post dl t clock (Some (a, k, r)) → (post a r → post' a' r') → (t r ↔ t' r') →
  clocked post' dl t' clock (Some (a', k, r')).
Proof.
  intros (Hp & used & Hc & Hne & Hu) Hpost Ht. split; [by apply Hpost|]. exists used.
  split; [done|]. split; [done|]. by eapply used_up_iff.
Qed.

(** What an answer in time leaves to the rest. *)
Lemma clocked_ok {A R} (post : A → R → Prop) dl (t : R → Prop) clock n a k r :
  clocked post dl t clock (Some (a, k, r)) → ¬ t r → (length clock < S n)%nat →
  post a r ∧ (length k < n)%nat ∧ ∃ used, clock = used ++ k ∧ Forall (within dl) used.
Proof.
  intros (Hp & used & -> & Hne & [[_ Hu]|[Ht _]]) Hnt Hl; [|contradiction].
  rewrite length_app in Hl. split; [done|]. split; [destruct used; [done|cbn [length] in Hl; lia]|]. by exists used.
Qed.

Section poll.
Context {C R : Type} (I : C → Prop) (Q : R → Prop) (dl : TransferDeadline) (poll : C → C * option R).
Hypothesis poll_keeps : ∀ c c' o, I c → poll c = (c', o) → I c' ∧ match o with Some r => Q r | None => True end.

Definition polled (c : C) (r : result R unit) : Prop := I c ∧ match r with Ok x => Q x | Err _ => True end.

Lemma poll_until_clocked clock c :
  I c → clocked polled dl (λ r, r = Err tt) clock (poll_until clock dl poll c).
Proof using poll_keeps.
  revert c. induction clock as [|now clock IH]; intros c Hc; cbn [poll_until]; [apply List.Forall_nil|].
  destruct (remaining_cases dl now) as [[-> H0]|[-> H0]]; [|by apply clocked_one_late].
  destruct (poll c) as [c' [r|]] eqn:Hp; destruct (poll_keeps _ _ _ Hc Hp) as [Hc' Hr].
  - split; [done|]. exists [now]. split; [done|]. split; [done|]. left. split; [done|].
    apply List.Forall_cons; [exact H0|apply List.Forall_nil].
  - apply clocked_one_more; [exact H0|]. by apply IH.
Qed.

Lemma with_deadline_clocked clock c :
  I c → clocked polled dl (λ r, r = Err tt) clock (with_deadline clock dl poll c).
Proof using poll_keeps.
  intros Hc. destruct clock as [|now clock]; cbn [with_deadline]; [apply List.Forall_nil|].
  destruct (remaining_cases dl now) as [[-> H0]|[-> H0]]; [|by apply clocked_one_late].
  apply clocked_one_more; [exact H0|]. by apply poll_until_clocked.
Qed.
End poll.

Section deadline.
Context {C E : Type} `{PollLaws C E}.
Implicit Types (can : C) (dl : TransferDeadline).

Definition kept {R} (Q : R → Prop) can (r : result R (SdoError E)) : Prop :=
  poll_ok can ∧ match r with Ok x => Q x | Err _ => True end.

Definition anything {R} (r : R) : Prop := True.

(** A response the client may be given. *)
Definition response_ok (f : CanFrame) : Prop := wf_frame f ∧ CanFrame.raw_dlc f = 8.

Lemma send_timed_clocked clock dl can frame :
  poll_ok can → clocked (kept anything) dl timed_out clock (send_timed clock dl can frame).
Proof.
  intros Hc. unfold send_timed.
  assert (∀ (c c' : C) (o : option (result unit E)), poll_ok c → poll_transmit c frame = (c', o) →
    poll_ok c' ∧ match o with Some r => anything r | None => True end) as Hk.
  { intros c c' o Hok Ht. pose proof (poll_transmit_ok c frame Hok) as Hk. rewrite Ht in Hk. by destruct o. }
  pose proof (with_deadline_clocked _ _ dl _ Hk clock can Hc) as Hw.
  destruct (with_deadline _ _ _ _) as [[[c k] [[[]|e]|[]]]|]; [..|done];
    (eapply clocked_mono; [exact Hw|unfold polled, kept; naive_solver|unfold timed_out; naive_solver]).
Qed.

Lemma receive_timed_clocked fuel clock dl d can :
  poll_ok can → (length clock < fuel)%nat →
  clocked (kept response_ok) dl timed_out clock (receive_response_timed fuel clock dl d can).
Proof.
  revert clock can. induction fuel as [|fuel IH]; intros clock can Hc Hf; [lia|]. cbn [receive_response_timed].
  pose proof (with_deadline_clocked poll_ok (λ r, match r with Ok f => wf_frame f | Err _ => True end) dl
    poll_receive (λ c c' o Hok Hr, poll_receive_ok c c' o Hok Hr) clock can Hc) as Hw.
  destruct (with_deadline _ _ _ _) as [[[c k] [[frame|e]|[]]]|]; [| | |done];
    [|eapply clocked_mono; [exact Hw|unfold polled, kept; naive_solver|unfold timed_out; naive_solver]..].
  destruct (negb (CanFrame.raw_id frame =? _)).
  - eapply clocked_ok in Hw as ([Hk _] & Hlen & used & Hck & Hin); [|done|exact Hf].
    eapply clocked_next; [exact Hck|done|]. by apply IH.
  - destruct (Z.eqb_spec (CanFrame.raw_dlc frame) 8); cbn [negb];
      (eapply clocked_mono; [exact Hw|unfold polled, kept, response_ok; naive_solver|unfold timed_out; naive_solver]).
Qed.

Lemma response_array f : response_ok f → array 8 (CanFrame.data f).
Proof.
  intros [Hf Hd]. split; [|by apply bytes_data]. rewrite length_data by done. exact Hd.
Qed.

Definition broke_off {T} (r : ending T E) : Prop := r = Err ErrTimeout ∨ r = Ok (Err ErrTimeout).

(** What ends a loop is not a timeout, and everything but a next frame and an
    ignored abort ends it. *)
Definition outcome_ok {T} (outcome : SdoClient → SdoClientResult → exec (option (ending T E))) : Prop :=
  ∀ n c r, step_post MAX_TRANSFER n (c, r) → runs (outcome c r) (λ o,
    match o with
    | Some e => ¬ broke_off e
    | None => match r with SendNext _ | IgnoredAbort => True | _ => False end
    end).

(** The computation does not panic, and keeps to its deadline. *)
Definition on_time {R} (dl : TransferDeadline) (t : R → Prop) (clock : list Z) (m : exec (option (C * list Z * R)))
    : Prop := runs m (clocked (λ can _, poll_ok can) dl t clock).

Lemma on_time_next {R} dl (t : R → Prop) clock used clock' (m : exec (option (C * list Z * R))) :
  clock = used ++ clock' → Forall (within dl) used → on_time dl t clock' m → on_time dl t clock m.
Proof. intros Hck Hin Hm. eapply runs_mono; [exact Hm|]. intros o Ho. by eapply clocked_next. Qed.

Section loop.
Context {T : Type} (outcome : SdoClient → SdoClientResult → exec (option (ending T E))).
Hypothesis outcome_fine : outcome_ok outcome.

Lemma transfer_loop_clocked fuel clock dl d n client can :
  next_ok MAX_TRANSFER n client → poll_ok can → (length clock < fuel)%nat →
  on_time dl broke_off clock (transfer_loop outcome fuel clock dl d client can).
Proof using outcome_fine.
  revert clock client can. induction fuel as [|fuel IH]; intros clock client can [Hcl Hn] Hcan Hf; [lia|].
  cbn [transfer_loop]. pose proof (receive_timed_clocked (S fuel) clock dl d can Hcan Hf) as Hr.
  destruct (receive_response_timed (S fuel) clock dl d can) as [[[c k] [frame|e]]|]; [| |exact Hr].
  2: { apply runs_ret. eapply clocked_mono; [exact Hr|by intros []|]. unfold timed_out, broke_off. naive_solver. }
  pose proof Hr as Hr'. eapply clocked_ok in Hr' as ([Hk Hresp] & Hlen & used & Hck & Hin); [|done|exact Hf].
  eapply runs_bind; [apply process_response_ok; [done|exact Hcl|by apply response_array]|].
  intros [client' r] Hpost. rewrite Hn in Hpost. pose proof Hpost as [Hnext _]. cbn [fst] in Hnext.
  assert (∀ o : option (ending T E), match o with Some e => ¬ broke_off e | None => False end →
    clocked (λ can _, poll_ok can) dl broke_off clock (match o with Some o => Some (c, k, o) | None => None end)) as Hend.
  { intros [o|] Ho; [|done]. eapply clocked_mono; [exact Hr|done|]. unfold timed_out. naive_solver. }
  destruct r as [l| |next|code| |].
  1,2,4,6: (eapply runs_bind; [by eapply outcome_fine|]; intros o Ho; apply runs_ret; by apply Hend).
  - eapply on_time_next; [exact Hck|exact Hin|]. unfold on_time.
    pose proof (send_timed_clocked k dl c next Hk) as Hs.
    destruct (send_timed k dl c next) as [[[c2 k2] [[]|e]]|]; [| |exact Hs].
    + eapply clocked_ok in Hs as ([Hk2 _] & Hlen2 & used2 & Hck2 & Hin2); [|done|by apply Nat.lt_lt_succ_r].
      eapply on_time_next; [exact Hck2|exact Hin2|]. by apply IH.
    + apply runs_ret. eapply clocked_mono; [exact Hs|by intros []|]. unfold timed_out, broke_off. naive_solver.
  - eapply on_time_next; [exact Hck|exact Hin|]. by apply IH.
Qed.

Lemma finish_timed_ok d can index subindex (r : ending T E) :
  wf_node (drv_target d) → poll_ok can → is_u8 subindex →
  runs (finish_timed d can index subindex r) (λ q, poll_ok (fst q) ∧ (broke_off r ↔ timed_out (snd q))).
Proof.
  intros Hn Hc Hs. unfold finish_timed, broke_off, timed_out.
  destruct r as [out|err]; [apply runs_ret; naive_solver|].
  assert (∀ code, runs (send_abort_once d can index subindex code) poll_ok) as Ha.
  { intros code. unfold send_abort_once. rewrite encode_abort_eq. rstep. case_match; [|done]. by apply poll_transmit_ok. }
  destruct err as [code| |e| |];
    match goal with
    | |- runs (mbind _ _) _ => eapply runs_bind; [apply Ha|]; intros c' Hc'; apply runs_ret
    | |- _ => apply runs_ret
    end; naive_solver.
Qed.

Lemma run_timed_clocked fuel clock dl d client can index subindex req :
  next_ok MAX_TRANSFER (drv_target d) client → poll_ok can → is_u8 subindex → (length clock < fuel)%nat →
  on_time dl timed_out clock (run_timed outcome fuel clock dl d client can index subindex req).
Proof using outcome_fine.
  intros Hcl Hcan Hs Hf. unfold on_time, run_timed.
  pose proof (send_timed_clocked clock dl can req Hcan) as Hsend.
  destruct (send_timed clock dl can req) as [[[c k] [[]|e]]|]; [| |exact Hsend].
  2: { apply runs_ret. eapply clocked_mono; [exact Hsend|by intros []|]. unfold timed_out. naive_solver. }
  eapply clocked_ok in Hsend as ([Hk _] & Hlen & used & Hck & Hin); [|done|by apply Nat.lt_lt_succ_r].
  eapply on_time_next; [exact Hck|exact Hin|]. unfold on_time.
  eapply runs_bind; [by apply (transfer_loop_clocked fuel k dl d (drv_target d))|].
  intros [[[c2 k2] r]|] Ho; [|by apply runs_ret].
  pose proof Ho as [Hc2 _].
  eapply runs_bind; [apply finish_timed_ok; [|exact Hc2|exact Hs]|].
  { destruct Hcl as [(Hn & _) <-]. exact Hn. }
  intros [c3 r3] [Hc3 Hiff]. apply runs_ret. by eapply clocked_mono; [exact Ho|..].
Qed.
End loop.

Lemma download_outcome_ok : outcome_ok download_outcome.
Proof.
  intros n c r _. unfold download_outcome, broke_off. apply runs_ret. destruct r; naive_solver.
Qed.

Lemma upload_outcome_ok buf_len : outcome_ok (upload_outcome buf_len).
Proof.
  intros n c r [[Hc _] Hr]. cbn [fst snd] in Hc, Hr. unfold upload_outcome, broke_off.
  destruct r; try (apply runs_ret; naive_solver).
  destruct (buf_len <? data_len); [apply runs_ret; naive_solver|].
  eapply runs_bind; [by apply (data_ok MAX_TRANSFER)|]. intros all [Hl _].
  rewrite slice_prefix; [apply runs_ret; naive_solver| |lia].
  destruct Hc as (_ & _ & ? & _). lia.
Qed.
End deadline.

(** ** What is proved of timed transfers *)

Section timed_spec.
Context {C E : Type} `{PollLaws C E}.

(** What a transfer leaves of the [clock] after its start. *)
Definition ends_in_time {T} (dl : TransferDeadline) (clock : list Z) (o : option (C * list Z * result T (SdoError E))) : Prop :=
  match o with
  | None => Forall (within dl) clock
  | Some (can', clock', r) =>
      poll_ok can' ∧ ∃ used, clock = used ++ clock' ∧ used_up dl (r = Err ErrTimeout) used
  end.

(** C4. A timed transfer reads the clock once at its start.  Fuel beyond the
    readings is enough: it never panics, and it is still running only if all
    readings so far are within the timeout of the start, on the wrapping
    clock.  If it returns anything but the timeout error, all readings it took
    are in time; if it returns the timeout error, all but the last are, and
    the last is not.  So it ends with the first late reading at the latest,
    whatever the other side sends. *)
Theorem timed_transfer_ends (fuel : nat) (clock : list Z) (d : SdoDriver) (can : C) (start timeout i s buf_len : Z)
    (v : list Z) :
  wf_node (drv_target d) → poll_ok can → is_u16 i → is_u8 s → bytes v → (length clock < fuel)%nat →
  let dl := mkDeadline start timeout in
  runs (download_timed fuel (start :: clock) d can i s v timeout) (ends_in_time dl clock) ∧
  runs (upload_timed fuel (start :: clock) d can i s buf_len timeout) (ends_in_time dl clock).
Proof.
  intros Hn Hc Hi Hs Hv Hf dl.
  assert (∀ T (o : option (C * list Z * result T (SdoError E))),
    clocked (λ can _, poll_ok can) dl timed_out clock o → ends_in_time dl clock o) as Hends.
  { intros T [[[c k] r]|]; [|done]. intros (Hk & used & Hck & _ & Hu). split; [done|]. by exists used. }
  assert (0 ≤ MAX_TRANSFER) as Hbuf by (unfold MAX_TRANSFER; lia).
  pose proof (new_ok MAX_TRANSFER Hbuf _ Hn) as [Hnew Ht]. split.
  - cbn [download_timed]. eapply runs_bind; [by apply (start_download_ok MAX_TRANSFER)|].
    intros [client [req|]] [Hcl _]; [|apply runs_ret; split; [done|]; exists []; split; [done|]; by left].
    eapply runs_mono; [|apply Hends]. apply (run_timed_clocked _ download_outcome_ok); [exact Hcl|done..].
  - cbn [upload_timed]. eapply runs_bind; [by apply (start_upload_ok MAX_TRANSFER)|].
    intros [client req] [Hcl _]. eapply runs_bind.
    { apply (run_timed_clocked _ (upload_outcome_ok buf_len) fuel clock dl); [exact Hcl|done..]. }
    intros [[[c k] r]|] Ho; apply runs_ret; [|exact Ho]. apply Hends in Ho. revert Ho.
    destruct r as [[w b]|e]; intros (Hk & used & Hck & Hu); (split; [done|]); exists used; (split; [done|]);
      (eapply used_up_iff; [|exact Hu]); split; congruence.
Qed.
End timed_spec.

(** ** In time, a timed transfer is the untimed one *)

Section ready.
Context {C E : Type} `{PollCan C E, AsyncCan C E}.
Hypothesis ready_transmit : ∀ c f, poll_transmit c f = let '(c', r) := can_transmit c f in (c', Some r).
Hypothesis ready_receive : ∀ c, poll_receive c = let '(c', r) := can_receive c in (c', Some r).
Context (dl : TransferDeadline).

(** [m] needs [n] readings in time, and leaves the rest. *)
Definition takes {A R} (n : nat) (clock : list Z) (o : option (A * list Z * R)) (a : A) (r : R) : Prop :=
  (n ≤ length clock)%nat → Forall (within dl) clock → o = Some (a, drop n clock, r).

Lemma wait_ready {R} (poll : C → C * option R) c c' r clock :
  poll c = (c', Some r) → takes 2 clock (with_deadline clock dl poll c) c' (Ok r).
Proof.
  intros Hp Hl Hin. destruct clock as [|a [|b clock]]; [cbn in Hl; lia..|].
  apply List.Forall_cons_iff in Hin as [Ha Hin]. apply List.Forall_cons_iff in Hin as [Hb _].
  cbn [with_deadline poll_until]. destruct (remaining_cases dl a) as [[-> _]|[_ ?]]; [|contradiction].
  destruct (remaining_cases dl b) as [[-> _]|[_ ?]]; [|contradiction]. by rewrite Hp.
Qed.

Lemma send_ready c f c' r clock :
  send c f = (c', r) → takes 2 clock (send_timed clock dl c f) c' r.
Proof using ready_transmit.
  intros Hs Hl Hin. unfold send in Hs. unfold send_timed. specialize (ready_transmit c f).
  destruct (can_transmit c f) as [c2 o].
  rewrite (wait_ready (λ c, poll_transmit c f) c c2 o clock ready_transmit Hl Hin).
  destruct o as [[]|e]; by injection Hs as <- <-.
Qed.

Lemma rest_in_time n clock : Forall (within dl) clock → Forall (within dl) (drop n clock).
Proof. apply Forall_drop. Qed.

Lemma receive_ready fuel d c c' r :
  receive_response fuel d c = (c', Some r) →
  ∃ n, ∀ clock fuel', (fuel ≤ fuel')%nat → takes n clock (receive_response_timed fuel' clock dl d c) c' r.
Proof using ready_receive.
  revert c. induction fuel as [|fuel IH]; intros c Hr; cbn [receive_response] in Hr; [done|].
  pose proof (ready_receive c) as Hp. destruct (can_receive c) as [c2 [frame|e]].
  - destruct (negb (CanFrame.raw_id frame =? drv_response_cob d)) eqn:Hid.
    + apply IH in Hr as [n Hn]. exists (2 + n)%nat. intros clock [|fuel'] Hf Hl Hin; [lia|].
      cbn [receive_response_timed]. rewrite (wait_ready poll_receive c c2 _ clock Hp) by (done || lia).
      rewrite Hid, (Hn (drop 2 clock)); [by rewrite drop_drop|lia|rewrite length_drop; lia|by apply rest_in_time].
    + exists 2%nat. intros clock [|fuel'] Hf Hl Hin; [lia|].
      cbn [receive_response_timed]. rewrite (wait_ready poll_receive c c2 _ clock Hp) by (done || lia).
      rewrite Hid. by destruct (negb (CanFrame.raw_dlc frame =? 8)); injection Hr as <- <-.
  - exists 2%nat. intros clock [|fuel'] Hf Hl Hin; [lia|].
    cbn [receive_response_timed]. rewrite (wait_ready poll_receive c c2 _ clock Hp) by (done || lia).
    by injection Hr as <- <-.
Qed.

(** The loops of [SdoDriver] with the outcome as an argument. *)
Fixpoint untimed_loop {T} (outcome : SdoClient → SdoClientResult → exec (option (ending T E)))
    (fuel : nat) (d : SdoDriver) (client : SdoClient) (can : C) : exec (option (C * ending T E)) :=
  match fuel with
  | O => mret None
  | S fuel' =>
      match receive_response fuel d can with
      | (can, None) => mret None
      | (can, Some (Err e)) => mret (Some (can, Err e))
      | (can, Some (Ok frame)) =>
          '(client, r) ← process_response MAX_TRANSFER client (CanFrame.data frame);
          match r with
          | SendNext next =>
              match send can next with
              | (can, Ok _) => untimed_loop outcome fuel' d client can
              | (can, Err e) => mret (Some (can, Err e))
              end
          | IgnoredAbort => untimed_loop outcome fuel' d client can
          | r => o ← outcome client r; mret (match o with Some o => Some (can, o) | None => None end)
          end
      end
  end.

Lemma download_loop_untimed fuel d client can :
  download_loop fuel d client can = untimed_loop download_outcome fuel d client can.
Proof.
  revert client can. induction fuel as [|fuel IH]; intros client can; [done|]. cbn [download_loop untimed_loop].
  destruct (receive_response (S fuel) d can) as [c [[frame|e]|]]; [|done..].
  destruct (process_response _ _ _) as [[client' r]|]; [|done]. rstep.
  destruct r; try done. by destruct (send c frame0) as [c2 [[]|e]].
Qed.

Lemma upload_loop_untimed fuel d client buf_len can :
  upload_loop fuel d client buf_len can = untimed_loop (upload_outcome buf_len) fuel d client can.
Proof.
  revert client can. induction fuel as [|fuel IH]; intros client can; [done|]. cbn [upload_loop untimed_loop].
  destruct (receive_response (S fuel) d can) as [c [[frame|e]|]]; [|done..].
  destruct (process_response _ _ _) as [[client' r]|]; [|done]. rstep.
  destruct r; try done; [|by destruct (send c frame0) as [c2 [[]|e]]].
  unfold upload_outcome. destruct (buf_len <? data_len); [done|].
  destruct (data client'); [|done]. rstep. by destruct (slice _ _ _).
Qed.

Section outcome.
Context {T : Type} (outcome : SdoClient → SdoClientResult → exec (option (ending T E))).

Lemma loop_ready fuel d client c c' r :
  untimed_loop outcome fuel d client c = Ret (Some (c', r)) →
  ∃ n, ∀ clock fuel', (fuel ≤ fuel')%nat → (n ≤ length clock)%nat → Forall (within dl) clock →
    transfer_loop outcome fuel' clock dl d client c = Ret (Some (c', drop n clock, r)).
Proof using ready_transmit ready_receive.
  revert client c. induction fuel as [|fuel IH]; intros client c Hr; cbn [untimed_loop] in Hr; [done|].
  destruct (receive_response (S fuel) d c) as [c2 [rr|]] eqn:Hrec; [|done].
  apply receive_ready in Hrec as [n Hn].
  destruct rr as [frame|e].
  2: { injection Hr as <- <-. exists n. intros clock [|fuel'] Hf Hl Hin; [lia|]. cbn [transfer_loop]. by rewrite Hn. }
  destruct (process_response _ _ _) as [[client' res]|] eqn:Hproc; [|done]. cbn [mbind exec_bind] in Hr.
  destruct res as [l| |next|code| |].
  1,2,4,6: exists n; intros clock [|fuel'] Hf Hl Hin; [lia|]; cbn [transfer_loop];
    rewrite Hn, Hproc by done; rstep; destruct (outcome client' _) as [[o|]|]; try done; by injection Hr as <- <-.
  - destruct (send c2 next) as [c3 [[]|e]] eqn:Hsend.
    + apply IH in Hr as [n2 Hn2]. exists (n + (2 + n2))%nat. intros clock [|fuel'] Hf Hl Hin; [lia|]. cbn [transfer_loop].
      rewrite Hn by (done || lia). rewrite Hproc. rstep.
      rewrite (send_ready _ _ _ _ (drop n clock) Hsend) by (first [by apply rest_in_time|rewrite length_drop; lia]).
      rewrite Hn2; [by rewrite !drop_drop, Nat.add_assoc|lia|rewrite !length_drop; lia|by apply rest_in_time, rest_in_time].
    + injection Hr as <- <-. exists (n + 2)%nat. intros clock [|fuel'] Hf Hl Hin; [lia|]. cbn [transfer_loop].
      rewrite Hn by (done || lia). rewrite Hproc. rstep.
      rewrite (send_ready _ _ _ _ (drop n clock) Hsend) by (first [by apply rest_in_time|rewrite length_drop; lia]).
      by rewrite drop_drop.
  - apply IH in Hr as [n2 Hn2]. exists (n + n2)%nat. intros clock [|fuel'] Hf Hl Hin; [lia|]. cbn [transfer_loop].
    rewrite Hn by (done || lia). rewrite Hproc. rstep.
    rewrite Hn2; [by rewrite drop_drop|lia|rewrite length_drop; lia|by apply rest_in_time].
Qed.

Lemma finish_ready {U} d c i s (r : ending U E) : finish_timed d c i s r = finish d c i s r.
Proof using ready_transmit.
  unfold finish_timed, finish. destruct r as [out|err]; [done|].
  assert (∀ code, send_abort_once d c i s code = send_abort d c i s code) as Hs; [|by destruct err; rewrite ?Hs].
  intros code. unfold send_abort_once, send_abort. rewrite encode_abort_eq. rstep. case_match; [|done].
  rewrite ready_transmit. by destruct (can_transmit c _).
Qed.

(** The untimed transfer after its request frame is built. *)
Definition run_untimed (fuel : nat) (d : SdoDriver) (client : SdoClient) (c : C) (i s : Z) (req : CanFrame)
    : exec (option (C * result T (SdoError E))) :=
  match send c req with
  | (c, Err e) => mret (Some (c, Err e))
  | (c, Ok _) =>
      r ← untimed_loop outcome fuel d client c;
      match r with
      | None => mret None
      | Some (c, r) => r ← finish d c i s r; mret (Some r)
      end
  end.

Lemma run_ready fuel d client c i s req c' r :
  run_untimed fuel d client c i s req = Ret (Some (c', r)) →
  ∃ n, ∀ clock fuel', (fuel ≤ fuel')%nat → (n ≤ length clock)%nat → Forall (within dl) clock →
    run_timed outcome fuel' clock dl d client c i s req = Ret (Some (c', drop n clock, r)).
Proof using ready_transmit ready_receive.
  intros Hr. unfold run_untimed in Hr. destruct (send c req) as [c2 [[]|e]] eqn:Hsend.
  - destruct (untimed_loop _ _ _ _ _) as [[[c3 r3]|]|] eqn:Hloop; try done. cbn [mbind exec_bind] in Hr.
    apply loop_ready in Hloop as [n Hn]. exists (2 + n)%nat. intros clock fuel' Hf Hl Hin. unfold run_timed.
    rewrite (send_ready _ _ _ _ clock Hsend) by (done || lia).
    rewrite Hn; [|lia|rewrite length_drop; lia|by apply rest_in_time]. rstep. rewrite finish_ready.
    destruct (finish d c3 i s r3) as [[c4 r4]|]; [|done]. rstep.
    injection Hr as <- <-. by rewrite drop_drop.
  - injection Hr as <- <-. exists 2%nat. intros clock fuel' Hf Hl Hin. unfold run_timed.
    by rewrite (send_ready _ _ _ _ clock Hsend).
Qed.
End outcome.

(** On a transport that is always ready, a timed transfer whose clock
    readings are all within the timeout does what the untimed one does: the
    same frames, the same result. *)
Theorem in_time_is_untimed fuel d can can' start timeout i s (v : list Z) (buf_len : Z) :
  dl = mkDeadline start timeout →
  (∀ r, download fuel d can i s v = Ret (Some (can', r)) →
   ∃ n, ∀ clock fuel', (fuel ≤ fuel')%nat → (n ≤ length clock)%nat → Forall (within dl) clock →
     download_timed fuel' (start :: clock) d can i s v timeout = Ret (Some (can', drop n clock, r))) ∧
  (∀ r, upload fuel d can i s buf_len = Ret (Some (can', r)) →
   ∃ n, ∀ clock fuel', (fuel ≤ fuel')%nat → (n ≤ length clock)%nat → Forall (within dl) clock →
     upload_timed fuel' (start :: clock) d can i s buf_len timeout = Ret (Some (can', drop n clock, r))).
Proof using ready_transmit ready_receive.
  intros Hdl. split; intros r Hr.
  - unfold download in Hr. cbn [download_timed]. rewrite <- Hdl.
    destruct (start_download _ _ _ _ _) as [[client [req|]]|]; cbn [mbind exec_bind] in Hr |- *; [| |done].
    + apply (run_ready download_outcome fuel d client). unfold run_untimed. rewrite <- Hr.
      destruct (send can req) as [c2 [[]|e]]; [|done]. by rewrite download_loop_untimed.
    + injection Hr as <- <-. exists O. by intros.
  - unfold upload, upload_impl in Hr. cbn [upload_timed]. rewrite <- Hdl.
    destruct (start_upload _ _ _) as [[client req]|]; cbn [mbind exec_bind] in Hr |- *; [|done].
    destruct (run_untimed (upload_outcome buf_len) fuel d client can i s req) as [[[c2 r2]|]|] eqn:Hrun.
    + pose proof (run_ready _ _ _ _ _ _ _ _ _ _ Hrun) as [n Hn].
      exists n. intros clock fuel' Hf Hl Hin. rewrite Hn by done. rstep. revert Hr Hrun. unfold run_untimed.
      destruct (send can req) as [c3 [[]|e]].
      * rewrite upload_loop_untimed. intros Hr Hrun. rewrite Hrun in Hr. revert Hr. rstep.
        by destruct r2 as [[w b]|e]; intros [= <- <-].
      * intros Hr [= <- <-]. by injection Hr as <- <-.
    + exfalso. revert Hr Hrun. unfold run_untimed. destruct (send can req) as [c3 [[]|e]]; [|done].
      rewrite upload_loop_untimed. intros Hr Hrun. rewrite Hrun in Hr. done.
    + exfalso. revert Hr Hrun. unfold run_untimed. destruct (send can req) as [c3 [[]|e]]; [|done].
      rewrite upload_loop_untimed. intros Hr Hrun. rewrite Hrun in Hr. done.
Qed.
End ready.

(** ** Examples: a reply on the mailbox, and none *)

Definition demo_reply : CanFrame := mkCanFrame 0x585 8 [0x60; 0x00; 0x20; 0x01; 0; 0; 0; 0].

(** A download of two bytes to node 5 with the replies in [rx], started at 90. *)
Definition demo_download (rx : list CanFrame) (clock : list Z) :=
  @download_timed _ _ (@nb_poll_can _ (mailbox_can 4 4)) 9 clock (driver_new 5) (mkMailbox [] rx) 0x2000 1 [1; 2] 100.

Lemma demo_transfers :
  match demo_download [demo_reply] [90; 91; 92; 93; 94; 95] with
  | Ret (Some (_, [95], Ok _)) => True | _ => False
  end ∧
  match demo_download [] [90; 91; 92; 93; 120; 190; 191] with
  | Ret (Some (m, [191], Err ErrTimeout)) => length (tx_queue m) = 2%nat | _ => False
  end.
Proof. by vm_compute. Qed.

Lemma timed_transfer_ends_witness :
  Forall wf_frame [demo_reply] ∧
  runs (demo_download [demo_reply] [90; 91; 92; 93; 94; 190; 191])
    (@ends_in_time _ _ (@nb_poll_can _ (mailbox_can 4 4)) (@nb_poll_laws _ (mailbox_can 4 4) (mailbox_can_laws 4 4)) unit
      (mkDeadline 90 100) [91; 92; 93; 94; 190; 191]).
Proof.
  assert (Forall wf_frame [demo_reply]) as Hrx.
  { apply List.Forall_cons; [|apply List.Forall_nil]. unfold wf_frame, demo_reply, array. simpl. by repeat constructor. }
  split; [exact Hrx|].
  exact (proj1 (@timed_transfer_ends _ _ _ (@nb_poll_laws _ (mailbox_can 4 4) (mailbox_can_laws 4 4)) 9
    [91; 92; 93; 94; 190; 191] (driver_new 5) (mkMailbox [] [demo_reply]) 90 100 0x2000 1 0 [1; 2]
    ltac:(by unfold wf_node) Hrx ltac:(by unfold is_uint) ltac:(by unfold is_uint) ltac:(by repeat constructor)
    ltac:(simpl; lia))).
Defined.

(** A transport that is always ready: queued replies, and an error after them. *)
#[local] Instance ready_poll : PollCan (list CanFrame) unit := {
  poll_transmit q f := (q, Some (Ok tt));
  poll_receive q := match q with [] => (q, Some (Err tt)) | f :: q => (q, Some (Ok f)) end;
}.

#[local] Instance ready_async : AsyncCan (list CanFrame) unit := {
  can_transmit q f := (q, Ok tt);
  can_receive q := match q with [] => (q, Err tt) | f :: q => (q, Ok f) end;
}.

Lemma in_time_is_untimed_witness :
  download 3 (driver_new 5) [demo_reply] 0x2000 1 [1; 2] = Ret (Some ([], Ok tt)) ∧
  ∃ n, ∀ clock fuel', (3 ≤ fuel')%nat → (n ≤ length clock)%nat → Forall (within (mkDeadline 90 100)) clock →
    download_timed fuel' (90 :: clock) (driver_new 5) [demo_reply] 0x2000 1 [1; 2] 100
    = Ret (Some ([], drop n clock, Ok tt)).
Proof.
  assert (download 3 (driver_new 5) [demo_reply] 0x2000 1 [1; 2] = Ret (Some ([], Ok tt))) as Hd by by vm_compute.
  split; [exact Hd|].
  assert (∀ c, poll_receive c = let '(c', r) := can_receive c in (c', Some r)) as Hrx by by intros [].
  exact (proj1 (in_time_is_untimed (λ c f, eq_refl) Hrx (mkDeadline 90 100) 3 (driver_new 5) [demo_reply] []
    90 100 0x2000 1 [1; 2] 0 eq_refl) (Ok tt) Hd).
Defined.
