(* ===== verification/Router.v ===== *)
(** * Frame routing ports

    [canopen-core/src/can_router.rs]: [SdoPort], [HeartbeatPort] and the
    demultiplexer [CanDemux] with its SDO port, over the class [AsyncCan].  A
    loop that waits for frames has [fuel] and returns [None] when it runs out;
    [recv_heartbeat_timed] is driven by the sequence of its polls. *)
From S2P Require Import Prelude Frame Nmt Od SdoProtocol SdoClient SdoDriver.

(** [CobId::new(frame.raw_id()).map(|c| c.parse())] *)
Definition parsed (frame : CanFrame) : option ParsedCobId :=
  CobId.parse <$> CobId.new (CanFrame.raw_id frame).

(** [heapless::Vec::push] and [Deque::push_back] whose error is dropped. *)
Definition push_or_drop (cap : nat) (q : list CanFrame) (f : CanFrame) : list CanFrame :=
  match Mailbox.push_back cap q f with Ok q => q | Err _ => q end.

Section ports.
Context {C E : Type} `{AsyncCan C E}.

(** ** Filtered ports *)

Record SdoPort := mkSdoPort {
  sp_transport : C; sp_response_cob : Z; sp_overflow : list CanFrame; sp_overflow_dropped : Z;
}.

Definition sdo_port_new (transport : C) (target : Z) : SdoPort :=
  mkSdoPort transport (CobId.sdo_tx target) [] 0.

Definition drain_overflow (p : SdoPort) : SdoPort * list CanFrame :=
  (mkSdoPort (sp_transport p) (sp_response_cob p) [] (sp_overflow_dropped p), sp_overflow p).

Definition clear_overflow (p : SdoPort) : SdoPort :=
  mkSdoPort (sp_transport p) (sp_response_cob p) [] (sp_overflow_dropped p).

Definition sdo_port_transmit (p : SdoPort) (frame : CanFrame) : SdoPort * result unit E :=
  let '(t, r) := can_transmit (sp_transport p) frame in
  (mkSdoPort t (sp_response_cob p) (sp_overflow p) (sp_overflow_dropped p), r).

Fixpoint sdo_port_receive (fuel : nat) (p : SdoPort) : SdoPort * option (result CanFrame E) :=
  match fuel with
  | O => (p, None)
  | S fuel =>
      match can_receive (sp_transport p) with
      | (t, Err e) => (mkSdoPort t (sp_response_cob p) (sp_overflow p) (sp_overflow_dropped p), Some (Err e))
      | (t, Ok frame) =>
          if CanFrame.raw_id frame =? sp_response_cob p then
            (mkSdoPort t (sp_response_cob p) (sp_overflow p) (sp_overflow_dropped p), Some (Ok frame))
          else
            match Mailbox.push_back 16 (sp_overflow p) frame with
            | Ok q => sdo_port_receive fuel (mkSdoPort t (sp_response_cob p) q (sp_overflow_dropped p))
            | Err _ =>
                sdo_port_receive fuel
                  (mkSdoPort t (sp_response_cob p) (sp_overflow p) (saturating_add 32 (sp_overflow_dropped p) 1))
            end
      end
  end.

Record HeartbeatPort := mkHbPort {
  hp_transport : C; filter_node : option Z; hp_overflow : list CanFrame;
}.

Definition heartbeat_port_new (transport : C) (node : option Z) : HeartbeatPort :=
  mkHbPort transport node [].

(** [node.is_none() || node == Some(n)] *)
Definition node_matches (node : option Z) (n : Z) : bool :=
  match node with None => true | Some m => m =? n end.

(** [Some(Heartbeat(n))] with a node that matches. *)
Definition is_heartbeat_of (node : option Z) (p : option ParsedCobId) : bool :=
  match p with Some (Heartbeat n) => node_matches node n | _ => false end.

Fixpoint heartbeat_port_receive (fuel : nat) (p : HeartbeatPort) : HeartbeatPort * option (result CanFrame E) :=
  match fuel with
  | O => (p, None)
  | S fuel =>
      match can_receive (hp_transport p) with
      | (t, Err e) => (mkHbPort t (filter_node p) (hp_overflow p), Some (Err e))
      | (t, Ok frame) =>
          if is_heartbeat_of (filter_node p) (parsed frame) then
            (mkHbPort t (filter_node p) (hp_overflow p), Some (Ok frame))
          else heartbeat_port_receive fuel (mkHbPort t (filter_node p) (push_or_drop 16 (hp_overflow p) frame))
      end
  end.

(** ** The demultiplexer *)

Record CanDemux := mkDemux {
  dx_transport : C;
  pdo_buf : list CanFrame;
  heartbeat_buf : list CanFrame;
  other_buf : list CanFrame;
}.

Definition demux_new (transport : C) : CanDemux := mkDemux transport [] [] [].

Definition set_transport (d : CanDemux) (t : C) : CanDemux :=
  mkDemux t (pdo_buf d) (heartbeat_buf d) (other_buf d).

Definition route_frame (d : CanDemux) (frame : CanFrame) : CanDemux :=
  match parsed frame with
  | Some (Heartbeat _) =>
      mkDemux (dx_transport d) (pdo_buf d) (push_or_drop 8 (heartbeat_buf d) frame) (other_buf d)
  | Some (Tpdo _ _) | Some (Rpdo _ _) =>
      mkDemux (dx_transport d) (push_or_drop 16 (pdo_buf d) frame) (heartbeat_buf d) (other_buf d)
  | _ => mkDemux (dx_transport d) (pdo_buf d) (heartbeat_buf d) (push_or_drop 4 (other_buf d) frame)
  end.

(** The test of [take_buffered_heartbeat] on one frame. *)
Definition buffered_matches (node : option Z) (f : CanFrame) : bool :=
  match node with
  | None => true
  | Some _ =>
      bool_decide ((match parsed f with Some (Heartbeat n) => Some n | _ => None end) = node)
  end.

(** The rotation of the buffer: [n] frames are popped, and all but the first
    match pushed back. *)
Fixpoint rotate (n : nat) (buf : list CanFrame) (node : option Z) (found : option CanFrame)
    : list CanFrame * option CanFrame :=
  match n with
  | O => (buf, found)
  | S n =>
      match Mailbox.pop_front buf with
      | (Some f, buf) =>
          if bool_decide (found = None) && buffered_matches node f then rotate n buf node (Some f)
          else rotate n (push_or_drop 8 buf f) node found
      | (None, buf) => rotate n buf node found
      end
  end.

Definition take_buffered_heartbeat (d : CanDemux) (node : option Z) : CanDemux * option CanFrame :=
  let '(buf, found) := rotate (length (heartbeat_buf d)) (heartbeat_buf d) node None in
  (mkDemux (dx_transport d) (pdo_buf d) buf (other_buf d), found).

(** The loop of [recv_heartbeat] on the transport. *)
Fixpoint poll_heartbeat (fuel : nat) (d : CanDemux) (node : option Z) : CanDemux * option (result CanFrame E) :=
  match fuel with
  | O => (d, None)
  | S fuel =>
      match can_receive (dx_transport d) with
      | (t, Err e) => (set_transport d t, Some (Err e))
      | (t, Ok frame) =>
          if is_heartbeat_of node (parsed frame) then (set_transport d t, Some (Ok frame))
          else poll_heartbeat fuel (route_frame (set_transport d t) frame) node
      end
  end.

Definition recv_heartbeat (fuel : nat) (d : CanDemux) (node : option Z) : CanDemux * option (result CanFrame E) :=
  match take_buffered_heartbeat d node with
  | (d, Some f) => (d, Some (Ok f))
  | (d, None) => poll_heartbeat fuel d node
  end.

(** The polls of [recv_heartbeat_timed]: the clock at each, and whether the
    receive of the transport completes in it. *)
Fixpoint poll_timed (polls : list (Z * bool)) (d : CanDemux) (node : option Z) (started timeout_us : Z)
    : CanDemux * option (result (option CanFrame) E) :=
  match polls with
  | [] => (d, None)
  | (now, ready) :: polls =>
      if timeout_us <=? wrapping_sub 64 now started then (d, Some (Ok None))
      else if ready then
        match can_receive (dx_transport d) with
        | (t, Err e) => (set_transport d t, Some (Err e))
        | (t, Ok frame) =>
            if is_heartbeat_of node (parsed frame) then (set_transport d t, Some (Ok (Some frame)))
            else poll_timed polls (route_frame (set_transport d t) frame) node started timeout_us
        end
      else poll_timed polls d node started timeout_us
  end.

Definition recv_heartbeat_timed (polls : list (Z * bool)) (d : CanDemux) (node : option Z)
    (timeout_us started : Z) : CanDemux * option (result (option CanFrame) E) :=
  match take_buffered_heartbeat d node with
  | (d, Some f) => (d, Some (Ok (Some f)))
  | (d, None) => poll_timed polls d node started timeout_us
  end.

Definition is_pdo (p : option ParsedCobId) : bool :=
  match p with Some (Tpdo _ _) | Some (Rpdo _ _) => true | _ => false end.

Fixpoint poll_pdo (fuel : nat) (d : CanDemux) : CanDemux * option (result CanFrame E) :=
  match fuel with
  | O => (d, None)
  | S fuel =>
      match can_receive (dx_transport d) with
      | (t, Err e) => (set_transport d t, Some (Err e))
      | (t, Ok frame) =>
          if is_pdo (parsed frame) then (set_transport d t, Some (Ok frame))
          else poll_pdo fuel (route_frame (set_transport d t) frame)
      end
  end.

Definition try_recv_heartbeat (d : CanDemux) : CanDemux * option CanFrame :=
  let '(o, q) := Mailbox.pop_front (heartbeat_buf d) in
  (mkDemux (dx_transport d) (pdo_buf d) q (other_buf d), o).

Definition try_recv_pdo (d : CanDemux) : CanDemux * option CanFrame :=
  let '(o, q) := Mailbox.pop_front (pdo_buf d) in
  (mkDemux (dx_transport d) q (heartbeat_buf d) (other_buf d), o).

Definition try_recv_other (d : CanDemux) : CanDemux * option CanFrame :=
  let '(o, q) := Mailbox.pop_front (other_buf d) in
  (mkDemux (dx_transport d) (pdo_buf d) (heartbeat_buf d) q, o).

Definition recv_pdo (fuel : nat) (d : CanDemux) : CanDemux * option (result CanFrame E) :=
  match try_recv_pdo d with
  | (d, Some f) => (d, Some (Ok f))
  | (d, None) => poll_pdo fuel d
  end.

(** [DemuxSdoPort]: its two operations. *)
Definition demux_sdo_transmit (d : CanDemux) (frame : CanFrame) : CanDemux * result unit E :=
  let '(t, r) := can_transmit (dx_transport d) frame in (set_transport d t, r).

Fixpoint demux_sdo_receive (fuel : nat) (d : CanDemux) (response_cob : Z)
    : CanDemux * option (result CanFrame E) :=
  match fuel with
  | O => (d, None)
  | S fuel =>
      match can_receive (dx_transport d) with
      | (t, Err e) => (set_transport d t, Some (Err e))
      | (t, Ok frame) =>
          if (CanFrame.raw_id frame =? response_cob) && (CanFrame.raw_dlc frame =? 8)
          then (set_transport d t, Some (Ok frame))
          else demux_sdo_receive fuel (route_frame (set_transport d t) frame) response_cob
      end
  end.
End ports.
Arguments SdoPort C : clear implicits.
Arguments HeartbeatPort C : clear implicits.
Arguments CanDemux C : clear implicits.

(** ** What the demultiplexer delivers *)

(** A transport that records the frames it has delivered. *)
#[export] Instance logged {C E} `{AsyncCan C E} : AsyncCan (C * list CanFrame) E | 100 := {
  can_transmit c f := let (t, r) := can_transmit (fst c) f in ((t, snd c), r);
  can_receive c :=
    match can_receive (fst c) with
    | (t, Ok f) => ((t, snd c ++ [f]), Ok f)
    | (t, Err e) => ((t, snd c), Err e)
    end;
}.

Definition by_id (id : Z) (l : list CanFrame) : list CanFrame :=
  List.filter (λ f, CanFrame.raw_id f =? id) l.

Lemma by_id_app id l k : by_id id (l ++ k) = by_id id l ++ by_id id k.
Proof. apply List.filter_app. Qed.

Lemma by_id_cons id f l :
  by_id id (f :: l) = (if CanFrame.raw_id f =? id then [f] else []) ++ by_id id l.
Proof. cbn [by_id List.filter]. by destruct (_ =? _). Qed.

Inductive frame_class := ClassHeartbeat | ClassPdo | ClassOther.

#[export] Instance frame_class_eq_dec : EqDecision frame_class.
Proof. solve_decision. Defined.

Definition class_of (p : option ParsedCobId) : frame_class :=
  match p with
  | Some (Heartbeat _) => ClassHeartbeat
  | Some (Tpdo _ _) | Some (Rpdo _ _) => ClassPdo
  | _ => ClassOther
  end.

Definition has_class (c : frame_class) (f : CanFrame) : Prop := class_of (parsed f) = c.

(** The frames of a class, and the room the demultiplexer has for them. *)
Definition select (c : frame_class) (l : list CanFrame) : list CanFrame :=
  List.filter (λ f, bool_decide (class_of (parsed f) = c)) l.

Definition class_room (c : frame_class) : nat :=
  match c with ClassHeartbeat => 8 | ClassPdo => 16 | ClassOther => 4 end.

Lemma select_app c l k : select c (l ++ k) = select c l ++ select c k.
Proof. apply List.filter_app. Qed.

Lemma select_one c f : select c [f] = if bool_decide (class_of (parsed f) = c) then [f] else [].
Proof. done. Qed.

Lemma select_all c l : Forall (has_class c) l → select c l = l.
Proof.
  intros Hl. induction Hl as [|f l Hf _ IH]; [done|]. cbn [select List.filter].
  rewrite bool_decide_eq_true_2 by done. by f_equal.
Qed.

#[export] Instance select_perm c : Proper ((≡ₚ) ==> (≡ₚ)) (select c).
Proof.
  intros l k Hlk. induction Hlk as [|f l k _ IH|f g l|l k m _ IH1 _ IH2]; cbn [select List.filter] in *;
    [done| | |by etrans]; repeat case_match; try constructor; done.
Qed.

Lemma parsed_id f g : CanFrame.raw_id f = CanFrame.raw_id g → parsed f = parsed g.
Proof. unfold parsed. by intros ->. Qed.

Lemma by_id_other_class c id l f :
  Forall (has_class c) l → class_of (parsed f) ≠ c → CanFrame.raw_id f = id → by_id id l = [].
Proof.
  intros Hl Hf Hid. induction Hl as [|g l Hg _ IH]; [done|]. rewrite by_id_cons, IH, app_nil_r.
  destruct (Z.eqb_spec (CanFrame.raw_id g) id) as [Hgi|]; [|done]. exfalso. apply Hf.
  rewrite (parsed_id f g) by congruence. exact Hg.
Qed.

Section fifo.
Context {C E : Type} `{AsyncCan C E}.
Implicit Types d : CanDemux (C * list CanFrame).

(** The buffers hold frames of their class, within their capacity. *)
Definition routed d : Prop :=
  Forall (has_class ClassPdo) (pdo_buf d) ∧ Forall (has_class ClassHeartbeat) (heartbeat_buf d) ∧
  Forall (has_class ClassOther) (other_buf d) ∧
  (length (pdo_buf d) ≤ 16)%nat ∧ (length (heartbeat_buf d) ≤ 8)%nat ∧ (length (other_buf d) ≤ 4)%nat.

Definition log d : list CanFrame := snd (dx_transport d).

Definition stock id d : list CanFrame := by_id id (pdo_buf d ++ heartbeat_buf d ++ other_buf d).

Definition held d : list CanFrame := pdo_buf d ++ heartbeat_buf d ++ other_buf d.

(** While fewer frames of a class were received than its buffer holds, each is
    among [all] the frames given out or still held. *)
Definition lossless (all : list CanFrame) d : Prop :=
  ∀ c, (length (select c (log d)) ≤ class_room c)%nat → select c (all ++ held d) ≡ₚ select c (log d).

(** Of each identifier, what was delivered and then what is buffered comes from
    the received frames, in order and without repetition. *)
Definition fifo (all delivered : list CanFrame) d : Prop :=
  routed d ∧ (∀ id, sublist (by_id id delivered ++ stock id d) (by_id id (log d))) ∧ lossless all d.

Lemma push_or_drop_cases cap q f :
  push_or_drop cap q f = q ∧ (cap ≤ length q)%nat ∨ push_or_drop cap q f = q ++ [f] ∧ (length q < cap)%nat.
Proof.
  unfold push_or_drop, Mailbox.push_back. destruct (Nat.leb_spec cap (length q)); [by left|by right].
Qed.

Lemma stock_eq id d : stock id d = by_id id (pdo_buf d) ++ by_id id (heartbeat_buf d) ++ by_id id (other_buf d).
Proof. unfold stock. by rewrite !by_id_app. Qed.

(** The buffers of the other classes hold no frame of an identifier. *)
Lemma by_id_only d f id :
  routed d → CanFrame.raw_id f = id →
  match class_of (parsed f) with
  | ClassPdo => by_id id (heartbeat_buf d) = [] ∧ by_id id (other_buf d) = []
  | ClassHeartbeat => by_id id (pdo_buf d) = [] ∧ by_id id (other_buf d) = []
  | ClassOther => by_id id (pdo_buf d) = [] ∧ by_id id (heartbeat_buf d) = []
  end.
Proof.
  intros (Hp & Hh & Ho & _) Hid.
  destruct (class_of (parsed f)) eqn:Ec; split;
    first [apply (by_id_other_class ClassPdo _ _ f Hp) | apply (by_id_other_class ClassHeartbeat _ _ f Hh)
          | apply (by_id_other_class ClassOther _ _ f Ho)]; congruence.
Qed.

Definition with_transport d t : CanDemux (C * list CanFrame) := set_transport d t.

Lemma route_frame_spec d f :
  routed d →
  routed (route_frame d f) ∧ dx_transport (route_frame d f) = dx_transport d ∧
  ∀ id, stock id (route_frame d f) = stock id d ∨ stock id (route_frame d f) = stock id d ++ by_id id [f].
Proof.
  intros Hr. pose proof Hr as (Hp & Hh & Ho & Lp & Lh & Lo).
  assert (∀ id, CanFrame.raw_id f ≠ id → by_id id [f] = []) as Hne.
  { intros id Hid. rewrite by_id_cons. by rewrite (proj2 (Z.eqb_neq _ _) Hid). }
  assert (route_frame d f = match class_of (parsed f) with
    | ClassHeartbeat => mkDemux (dx_transport d) (pdo_buf d) (push_or_drop 8 (heartbeat_buf d) f) (other_buf d)
    | ClassPdo => mkDemux (dx_transport d) (push_or_drop 16 (pdo_buf d) f) (heartbeat_buf d) (other_buf d)
    | ClassOther => mkDemux (dx_transport d) (pdo_buf d) (heartbeat_buf d) (push_or_drop 4 (other_buf d) f)
    end) as ->.
  { unfold route_frame, class_of. by destruct (parsed f) as [[]|]. }
  pose proof (λ id, by_id_only d f id Hr) as Honly. unfold routed.
  destruct (class_of (parsed f)) eqn:Ec; cbn [pdo_buf heartbeat_buf other_buf dx_transport];
    match goal with |- context [push_or_drop ?c ?q f] => destruct (push_or_drop_cases c q f) as [[-> Hc]|[-> Hc]] end;
    (split; [|split; [done|]]); try done;
    try (by intros id; left);
    try (rewrite ?length_app; cbn [length];
         split; [first [done|by apply Forall_app_2; [|apply Forall_singleton]]|];
         split; [first [done|by apply Forall_app_2; [|apply Forall_singleton]]|];
         split; [first [done|by apply Forall_app_2; [|apply Forall_singleton]]|]; lia);
    intros id; rewrite !stock_eq; cbn [pdo_buf heartbeat_buf other_buf]; rewrite by_id_app;
    destruct (decide (CanFrame.raw_id f = id)) as [Hid|Hid];
    try (left; by rewrite (Hne id Hid), app_nil_r); right; destruct (Honly id Hid) as [-> ->];
    by rewrite ?app_nil_r, ?app_nil_l.
Qed.

Lemma route_held d f :
  held (route_frame d f) ≡ₚ held d ++ [f] ∨
  held (route_frame d f) = held d ∧
  (class_room (class_of (parsed f)) ≤ length (match class_of (parsed f) with
     | ClassHeartbeat => heartbeat_buf d | ClassPdo => pdo_buf d | ClassOther => other_buf d end))%nat.
Proof.
  unfold route_frame, held. destruct (parsed f) as [[]|]; cbn [class_of class_room pdo_buf heartbeat_buf other_buf];
    match goal with |- context [push_or_drop ?c ?q f] => destruct (push_or_drop_cases c q f) as [[-> Hc]|[-> Hc]] end;
    (by right) || left; solve_Permutation.
Qed.

Lemma few_before (d : CanDemux (C * list CanFrame)) f c n :
  (length (select c (log d ++ [f])) ≤ n)%nat → (length (select c (log d)) ≤ n)%nat.
Proof. rewrite select_app, length_app. lia. Qed.

Lemma lossless_route all d t f :
  routed d → lossless all d → snd t = log d ++ [f] → lossless all (route_frame (set_transport d t) f).
Proof.
  intros Hr Hl Ht c. pose proof (route_frame_spec (set_transport d t) f Hr) as (_ & Htr & _).
  unfold log at 1 2. rewrite Htr. cbn [dx_transport set_transport]. rewrite Ht. intros Hfew.
  pose proof (Hl c (few_before d f c _ Hfew)) as Hc. rewrite !select_app in *. rewrite <- Hc.
  destruct (route_held (set_transport d t) f) as [Hh|[Hh Hfull]]; rewrite Hh.
  - rewrite select_app. by rewrite app_assoc.
  - change (held (set_transport d t)) with (held d). rewrite select_one. case_bool_decide as Hcl; [|by rewrite app_nil_r].
    exfalso. rewrite Hcl in Hfull. rewrite length_app, select_one, bool_decide_eq_true_2 in Hfew by done. cbn [length] in Hfew.
    apply Permutation_length in Hc. rewrite length_app in Hc. unfold held in Hc. rewrite !select_app, !length_app in Hc.
    destruct Hr as (Hp & Hb & Ho & _).
    destruct c; cbn [class_room set_transport pdo_buf heartbeat_buf other_buf] in *;
      [rewrite (select_all _ _ Hb) in Hc|rewrite (select_all _ _ Hp) in Hc|rewrite (select_all _ _ Ho) in Hc]; lia.
Qed.

(** A received frame that is given out at once. *)
Lemma lossless_out all d t f :
  lossless all d → snd t = log d ++ [f] → lossless (all ++ [f]) (set_transport d t).
Proof.
  intros Hl Ht c. change (held (set_transport d t)) with (held d).
  unfold log at 1 2. cbn [dx_transport set_transport]. rewrite Ht. intros Hfew.
  rewrite (select_app c (log d)). rewrite <- (Hl c (few_before d f c _ Hfew)), !select_app. solve_Permutation.
Qed.

(** A held frame that is given out. *)
Lemma lossless_pop all d d' f :
  lossless all d → dx_transport d' = dx_transport d → held d ≡ₚ f :: held d' → lossless (all ++ [f]) d'.
Proof.
  intros Hl Ht Hh c. unfold log. rewrite Ht. intros Hfew. rewrite <- (Hl c Hfew), Hh. by rewrite <- app_assoc.
Qed.

(** One received frame, routed. *)
Lemma fifo_route all delivered d t f :
  fifo all delivered d → snd t = log d ++ [f] → fifo all delivered (route_frame (set_transport d t) f).
Proof.
  intros (Hr & Hs & Hl) Ht. destruct (route_frame_spec (set_transport d t) f) as (Hr' & Htr & Hst); [done|].
  split; [done|]. split; [|by apply lossless_route]. intros id. unfold log. rewrite Htr. cbn [dx_transport set_transport].
  rewrite Ht, by_id_app.
  assert (stock id (set_transport d t) = stock id d) as Est by done.
  destruct (Hst id) as [-> | ->]; rewrite Est.
  - by apply sublist_inserts_r.
  - rewrite app_assoc. by apply sublist_app.
Qed.

(** One received frame of which none is buffered, delivered at once. *)
Lemma fifo_deliver all delivered d t f :
  fifo all delivered d → snd t = log d ++ [f] → stock (CanFrame.raw_id f) d = [] →
  fifo (all ++ [f]) (delivered ++ [f]) (set_transport d t).
Proof.
  intros (Hr & Hs & Hl) Ht Hno. split; [done|]. split; [|by apply lossless_out]. intros id.
  change (stock id (set_transport d t)) with (stock id d).
  unfold log. cbn [dx_transport set_transport]. rewrite Ht, !by_id_app.
  destruct (decide (CanFrame.raw_id f = id)) as [<-|Hid].
  - rewrite Hno, app_nil_r. apply sublist_app; [|done].
    specialize (Hs (CanFrame.raw_id f)). by rewrite Hno, app_nil_r in Hs.
  - assert (by_id id [f] = []) as -> by (rewrite by_id_cons; by rewrite (proj2 (Z.eqb_neq _ _) Hid)).
    rewrite !app_nil_r. apply Hs.
Qed.

(** One received frame that goes to the SDO client. *)
Lemma fifo_skip all delivered d t f :
  fifo all delivered d → snd t = log d ++ [f] → fifo (all ++ [f]) delivered (set_transport d t).
Proof.
  intros (Hr & Hs & Hl) Ht. split; [done|]. split; [|by apply lossless_out]. intros id.
  change (stock id (set_transport d t)) with (stock id d).
  unfold log. cbn [dx_transport set_transport]. rewrite Ht, by_id_app.
  by apply sublist_inserts_r.
Qed.

Lemma fifo_same_log all delivered d t : fifo all delivered d → snd t = log d → fifo all delivered (set_transport d t).
Proof.
  intros (Hr & Hs & Hl) Ht. split; [done|]. unfold lossless, log in *. cbn [dx_transport set_transport]. by rewrite Ht.
Qed.

Lemma logged_receive (d : CanDemux (C * list CanFrame)) t r :
  can_receive (dx_transport d) = (t, r) →
  match r with Ok f => snd t = log d ++ [f] | Err _ => snd t = log d end.
Proof.
  cbn. unfold log. destruct (can_receive _) as [t' [f|e]]; by intros [= <- <-].
Qed.

(** *** The heartbeat buffer *)

Lemma buffered_class d f node :
  routed d → In f (heartbeat_buf d) → buffered_matches node f = is_heartbeat_of node (parsed f).
Proof.
  intros (_ & Hh & _) Hf. rewrite List.Forall_forall in Hh. specialize (Hh f Hf). unfold has_class in Hh.
  unfold buffered_matches, is_heartbeat_of, class_of in *.
  destruct (parsed f) as [[]|]; try done. destruct node as [m|]; [|done]. cbn [node_matches].
  destruct (Z.eqb_spec m node0) as [->|Hm]; [by apply bool_decide_eq_true|].
  apply bool_decide_eq_false. congruence.
Qed.

Lemma push_or_drop_room cap q f : (length q < cap)%nat → push_or_drop cap q f = q ++ [f].
Proof. intros. destruct (push_or_drop_cases cap q f) as [[_ ?]|[-> _]]; [lia|done]. Qed.

Lemma rotate_found l acc node f :
  (length l + length acc ≤ 8)%nat → rotate (length l) (l ++ acc) node (Some f) = (acc ++ l, Some f).
Proof.
  revert acc. induction l as [|g l IH]; intros acc Hl; cbn [length rotate app Mailbox.pop_front];
    [by rewrite app_nil_r|].
  cbn [length] in Hl. rewrite bool_decide_eq_false_2 by done. cbn [andb].
  rewrite push_or_drop_room by (rewrite length_app; lia). rewrite <- app_assoc.
  rewrite IH by (rewrite length_app; cbn [length]; lia). by rewrite <- app_assoc.
Qed.

(** The first match is taken out and the order of the others kept. *)
Lemma rotate_spec l acc node :
  (length l + length acc ≤ 8)%nat →
  (∀ g, In g l → buffered_matches node g = false) ∧ rotate (length l) (l ++ acc) node None = (acc ++ l, None) ∨
  ∃ l1 f l2, l = l1 ++ f :: l2 ∧ (∀ g, In g l1 → buffered_matches node g = false) ∧
    buffered_matches node f = true ∧ rotate (length l) (l ++ acc) node None = (acc ++ l1 ++ l2, Some f).
Proof.
  revert acc. induction l as [|g l IH]; intros acc Hl; cbn [length rotate app Mailbox.pop_front].
  - left. split; [done|]. by rewrite app_nil_r.
  - cbn [length] in Hl. rewrite bool_decide_eq_true_2 by done. cbn [andb].
    destruct (buffered_matches node g) eqn:Eg.
    + right. exists [], g, l. split; [done|]. split; [done|]. split; [done|].
      by rewrite rotate_found by lia.
    + rewrite push_or_drop_room by (rewrite length_app; lia). rewrite <- app_assoc.
      destruct (IH (acc ++ [g])) as [[Hno ->]|(l1 & f & l2 & -> & Hno & Hf & ->)];
        [rewrite length_app; cbn [length]; lia| |].
      * left. split; [intros x [<-|Hx]; [done|by apply Hno]|]. by rewrite <- app_assoc.
      * right. exists (g :: l1), f, l2. split; [done|].
        split; [intros x [<-|Hx]; [done|by apply Hno]|]. split; [done|]. by rewrite <- app_assoc.
Qed.

Lemma by_id_none id l : (∀ g, In g l → CanFrame.raw_id g ≠ id) → by_id id l = [].
Proof.
  intros Hl. induction l as [|g l IH]; [done|]. rewrite by_id_cons, IH by (intros; apply Hl; by right).
  rewrite (proj2 (Z.eqb_neq _ _)); [done|]. apply Hl. by left.
Qed.

Definition no_buffered node d : Prop :=
  ∀ g, In g (heartbeat_buf d) → is_heartbeat_of node (parsed g) = false.

Lemma take_buffered_spec all delivered d node :
  fifo all delivered d →
  match take_buffered_heartbeat d node with
  | (d', Some f) => fifo (all ++ [f]) (delivered ++ [f]) d' ∧ is_heartbeat_of node (parsed f) = true ∧ dx_transport d' = dx_transport d
  | (d', None) => d' = d ∧ no_buffered node d
  end.
Proof.
  intros (Hr & Hs & Hless). pose proof Hr as (Hp & Hh & Ho & Lp & Lh & Lo).
  unfold take_buffered_heartbeat. destruct (rotate_spec (heartbeat_buf d) [] node) as [[Hno Hrot]|Hrot];
    [cbn [length]; lia| |]; rewrite app_nil_r in Hrot.
  - rewrite Hrot. split; [by destruct d|]. intros g Hg. rewrite <- (buffered_class d g node Hr Hg). by apply Hno.
  - destruct Hrot as (l1 & f & l2 & Hl & Hno & Hf & Hrot). rewrite Hrot. cbn [app].
    assert (In f (heartbeat_buf d)) as Hin by (rewrite Hl; apply in_or_app; right; by left).
    split; [|split; [by rewrite <- (buffered_class d f node Hr Hin)|done]].
    rewrite Hl in Hh, Lh. apply Forall_app in Hh as [Hh1 Hh2]. apply Forall_cons_1 in Hh2 as [Hcf Hh2].
    rewrite length_app in Lh. cbn [length] in Lh. split; [|split].
    + unfold routed. cbn [pdo_buf heartbeat_buf other_buf]. rewrite length_app.
      split; [done|]. split; [by apply Forall_app_2|]. split; [done|]. split; [done|]. split; [lia|done].
    + intros id. specialize (Hs id). rewrite stock_eq in *. cbn [pdo_buf heartbeat_buf other_buf].
      rewrite Hl, !by_id_app, by_id_cons in Hs. rewrite !by_id_app. unfold log in *. cbn [dx_transport].
      rewrite by_id_cons. cbn [by_id List.filter]. rewrite app_nil_r.
      destruct (Z.eqb_spec (CanFrame.raw_id f) id) as [Hid|Hid]; [|by rewrite app_nil_r].
      assert (by_id id l1 = []) as El.
      { apply by_id_none. intros g Hg Hgi. specialize (Hno g Hg).
        unfold buffered_matches in *. rewrite (parsed_id g f) in Hno by congruence. congruence. }
      pose proof (by_id_only d f id Hr Hid) as Honly. rewrite Hcf in Honly. destruct Honly as [-> _].
      rewrite El in *. cbn [app] in *.
      assert (by_id id (pdo_buf d) = []) as Ep.
      { by apply (by_id_other_class ClassPdo _ _ f Hp); [rewrite Hcf|]. }
      rewrite Ep in Hs. cbn [app] in Hs. by rewrite <- app_assoc.
    + apply (lossless_pop all d); [done|done|]. unfold held. cbn [pdo_buf heartbeat_buf other_buf].
      rewrite Hl. solve_Permutation.
Qed.

(** *** The operations *)

(** What an operation that returned [r] has delivered. *)
Definition got {X} (r : option (result X E)) (f : X → list CanFrame) : list CanFrame :=
  match r with Some (Ok x) => f x | _ => [] end.

Lemma route_heartbeat_buf d f :
  heartbeat_buf (route_frame d f) = heartbeat_buf d ∨
  heartbeat_buf (route_frame d f) = heartbeat_buf d ++ [f].
Proof.
  unfold route_frame. destruct (parsed f) as [[]|]; cbn [heartbeat_buf]; try (by left).
  destruct (push_or_drop_cases 8 (heartbeat_buf d) f) as [[-> _]|[-> _]]; [by left|by right].
Qed.

Lemma no_buffered_route node d f :
  no_buffered node d → is_heartbeat_of node (parsed f) = false → no_buffered node (route_frame d f).
Proof.
  intros Hno Hf g. destruct (route_heartbeat_buf d f) as [-> | ->]; [apply Hno|].
  intros [Hg|[<-|[]]]%in_app_or; [by apply Hno|done].
Qed.

Lemma no_buffered_stock node d f :
  routed d → no_buffered node d → is_heartbeat_of node (parsed f) = true → stock (CanFrame.raw_id f) d = [].
Proof.
  intros Hr Hno Hf. rewrite stock_eq. pose proof (by_id_only d f _ Hr eq_refl) as Honly.
  assert (class_of (parsed f) = ClassHeartbeat) as Hc
    by (unfold is_heartbeat_of in Hf; by destruct (parsed f) as [[]|]).
  rewrite Hc in Honly. destruct Honly as [-> ->]. cbn [app]. rewrite app_nil_r.
  apply by_id_none. intros g Hg Hid. specialize (Hno g Hg). rewrite (parsed_id g f Hid) in Hno. congruence.
Qed.

Lemma poll_heartbeat_fifo fuel all delivered d node d' r :
  fifo all delivered d → no_buffered node d → poll_heartbeat fuel d node = (d', r) →
  fifo (all ++ got r (λ f, [f])) (delivered ++ got r (λ f, [f])) d' ∧
  (∀ f, r = Some (Ok f) → is_heartbeat_of node (parsed f) = true).
Proof.
  revert d. induction fuel as [|fuel IH]; intros d Hd Hno; cbn [poll_heartbeat].
  - intros [= <- <-]. cbn [got]. by rewrite !app_nil_r.
  - destruct (can_receive (dx_transport d)) as [t [f|e]] eqn:Er; pose proof (logged_receive _ _ _ Er) as Ht.
    + destruct (is_heartbeat_of node (parsed f)) eqn:Ef.
      * intros [= <- <-]. cbn [got]. split; [|by intros ? [= <-]].
        apply fifo_deliver; [done..|]. eapply no_buffered_stock; [apply Hd|done|done].
      * apply IH; [by eapply fifo_route|by apply no_buffered_route].
    + intros [= <- <-]. cbn [got]. rewrite !app_nil_r. split; [by apply fifo_same_log|done].
Qed.

Lemma poll_timed_fifo polls all delivered d node started timeout d' r :
  fifo all delivered d → no_buffered node d → poll_timed polls d node started timeout = (d', r) →
  fifo (all ++ got r option_list) (delivered ++ got r option_list) d' ∧
  (∀ f, r = Some (Ok (Some f)) → is_heartbeat_of node (parsed f) = true).
Proof.
  revert d. induction polls as [|[now ready] polls IH]; intros d Hd Hno; cbn [poll_timed].
  - intros [= <- <-]. cbn [got]. by rewrite !app_nil_r.
  - destruct (timeout <=? _); [intros [= <- <-]; cbn [got option_list]; by rewrite !app_nil_r|].
    destruct ready; [|by apply IH].
    destruct (can_receive (dx_transport d)) as [t [f|e]] eqn:Er; pose proof (logged_receive _ _ _ Er) as Ht.
    + destruct (is_heartbeat_of node (parsed f)) eqn:Ef.
      * intros [= <- <-]. cbn [got]. split; [|by intros ? [= <-]].
        apply fifo_deliver; [done..|]. eapply no_buffered_stock; [apply Hd|done|done].
      * apply IH; [by eapply fifo_route|by apply no_buffered_route].
    + intros [= <- <-]. cbn [got]. rewrite !app_nil_r. split; [by apply fifo_same_log|done].
Qed.

Lemma poll_pdo_fifo fuel all delivered d d' r :
  fifo all delivered d → pdo_buf d = [] → poll_pdo fuel d = (d', r) →
  fifo (all ++ got r (λ f, [f])) (delivered ++ got r (λ f, [f])) d' ∧ (∀ f, r = Some (Ok f) → is_pdo (parsed f) = true).
Proof.
  revert d. induction fuel as [|fuel IH]; intros d Hd Hno; cbn [poll_pdo].
  - intros [= <- <-]. cbn [got]. by rewrite !app_nil_r.
  - destruct (can_receive (dx_transport d)) as [t [f|e]] eqn:Er; pose proof (logged_receive _ _ _ Er) as Ht.
    + destruct (is_pdo (parsed f)) eqn:Ef.
      * intros [= <- <-]. cbn [got]. split; [|by intros ? [= <-]].
        apply fifo_deliver; [done..|]. rewrite stock_eq, Hno. destruct Hd as [Hr _].
        pose proof (by_id_only d f _ Hr eq_refl) as Honly.
        assert (class_of (parsed f) = ClassPdo) as Hc by (unfold is_pdo in Ef; by destruct (parsed f) as [[]|]).
        rewrite Hc in Honly. by destruct Honly as [-> ->].
      * apply IH; [by eapply fifo_route|].
        unfold route_frame. unfold is_pdo in Ef. by destruct (parsed f) as [[]|].
    + intros [= <- <-]. cbn [got]. rewrite !app_nil_r. split; [by apply fifo_same_log|done].
Qed.

Lemma demux_sdo_receive_fifo fuel all delivered d cob d' r :
  fifo all delivered d → demux_sdo_receive fuel d cob = (d', r) →
  fifo (all ++ got r (λ f, [f])) delivered d' ∧ (∀ f, r = Some (Ok f) → CanFrame.raw_id f = cob ∧ CanFrame.raw_dlc f = 8).
Proof.
  revert d. induction fuel as [|fuel IH]; intros d Hd; cbn [demux_sdo_receive].
  - intros [= <- <-]. cbn [got]. by rewrite app_nil_r.
  - destruct (can_receive (dx_transport d)) as [t [f|e]] eqn:Er; pose proof (logged_receive _ _ _ Er) as Ht.
    + destruct (Z.eqb_spec (CanFrame.raw_id f) cob) as [Hi|], (Z.eqb_spec (CanFrame.raw_dlc f) 8) as [H8|]; cbn [andb];
        try (apply IH; by eapply fifo_route).
      intros [= <- <-]. split; [by apply fifo_skip|by intros ? [= <-]].
    + intros [= <- <-]. cbn [got]. rewrite app_nil_r. split; [by apply fifo_same_log|done].
Qed.

(** Taking the head of one buffer. *)
Lemma fifo_pop all delivered d d' f :
  fifo all delivered d → dx_transport d' = dx_transport d → routed d' →
  (∀ id, stock id d = by_id id [f] ++ stock id d') → held d ≡ₚ f :: held d' → fifo (all ++ [f]) (delivered ++ [f]) d'.
Proof.
  intros (_ & Hs & Hl) Ht Hr Hst Hh. split; [done|]. split; [|by apply (lossless_pop all d)]. intros id. unfold log. rewrite Ht.
  rewrite by_id_app, <- app_assoc, <- Hst. apply Hs.
Qed.

Lemma try_recv_fifo all delivered d d' o :
  fifo all delivered d →
  try_recv_heartbeat d = (d', o) ∨ try_recv_pdo d = (d', o) ∨ try_recv_other d = (d', o) →
  fifo (all ++ option_list o) (delivered ++ option_list o) d'.
Proof.
  intros Hd Hop. pose proof Hd as [Hr _]. pose proof Hr as (Hp & Hh & Ho & Lp & Lh & Lo).
  destruct Hop as [Hop|[Hop|Hop]].
  - unfold try_recv_heartbeat in Hop. destruct (heartbeat_buf d) as [|f q] eqn:Eq; cbn [Mailbox.pop_front] in Hop;
      injection Hop as <- <-; cbn [option_list]; [rewrite !app_nil_r, <- Eq; by destruct d|].
    apply Forall_cons_1 in Hh as [Hf Hh]. cbn [length] in Lh.
    apply (fifo_pop all delivered d); [done|done| | |unfold held; rewrite Eq; cbn [pdo_buf heartbeat_buf other_buf]; solve_Permutation].
    + unfold routed. cbn [pdo_buf heartbeat_buf other_buf]. by split_and!; try done; lia.
    + intros id. rewrite !stock_eq, Eq. cbn [pdo_buf heartbeat_buf other_buf].
      rewrite (by_id_cons id f q), (by_id_cons id f []). change (by_id id []) with (@nil CanFrame). rewrite app_nil_r.
      destruct (Z.eqb_spec (CanFrame.raw_id f) id) as [Hid|]; [|done].
      pose proof (by_id_only d f id Hr Hid) as Honly. rewrite Hf in Honly. by destruct Honly as [-> _].
  - unfold try_recv_pdo in Hop. destruct (pdo_buf d) as [|f q] eqn:Eq; cbn [Mailbox.pop_front] in Hop;
      injection Hop as <- <-; cbn [option_list]; [rewrite !app_nil_r, <- Eq; by destruct d|].
    apply Forall_cons_1 in Hp as [Hf Hp]. cbn [length] in Lp.
    apply (fifo_pop all delivered d); [done|done| | |unfold held; rewrite Eq; cbn [pdo_buf heartbeat_buf other_buf]; solve_Permutation].
    + unfold routed. cbn [pdo_buf heartbeat_buf other_buf]. by split_and!; try done; lia.
    + intros id. rewrite !stock_eq, Eq. cbn [pdo_buf heartbeat_buf other_buf].
      rewrite (by_id_cons id f q), (by_id_cons id f []). change (by_id id []) with (@nil CanFrame).
      by rewrite app_nil_r, <- app_assoc.
  - unfold try_recv_other in Hop. destruct (other_buf d) as [|f q] eqn:Eq; cbn [Mailbox.pop_front] in Hop;
      injection Hop as <- <-; cbn [option_list]; [rewrite !app_nil_r, <- Eq; by destruct d|].
    apply Forall_cons_1 in Ho as [Hf Ho]. cbn [length] in Lo.
    apply (fifo_pop all delivered d); [done|done| | |unfold held; rewrite Eq; cbn [pdo_buf heartbeat_buf other_buf]; solve_Permutation].
    + unfold routed. cbn [pdo_buf heartbeat_buf other_buf]. by split_and!; try done; lia.
    + intros id. rewrite !stock_eq, Eq. cbn [pdo_buf heartbeat_buf other_buf].
      rewrite (by_id_cons id f q), (by_id_cons id f []). change (by_id id []) with (@nil CanFrame). rewrite app_nil_r.
      destruct (Z.eqb_spec (CanFrame.raw_id f) id) as [Hid|]; [|done].
      pose proof (by_id_only d f id Hr Hid) as Honly. rewrite Hf in Honly. by destruct Honly as [-> ->].
Qed.

(** *** Any use of a demultiplexer *)

Inductive demux_op :=
| RecvHeartbeat (fuel : nat) (node : option Z)
| RecvHeartbeatTimed (polls : list (Z * bool)) (node : option Z) (timeout started : Z)
| RecvPdo (fuel : nat)
| TryHeartbeat
| TryPdo
| TryOther
| SdoReceive (fuel : nat) (cob : Z)
| SdoTransmit (f : CanFrame).

(** The demultiplexer afterwards, the frames delivered, those delivered to an
    SDO client, and whether the result is one the operation promises. *)
Definition demux_step d (op : demux_op) : CanDemux (C * list CanFrame) * list CanFrame * list CanFrame * Prop :=
  match op with
  | RecvHeartbeat fuel node =>
      let '(d, r) := recv_heartbeat fuel d node in
      (d, got r (λ f, [f]), [], ∀ f, r = Some (Ok f) → is_heartbeat_of node (parsed f) = true)
  | RecvHeartbeatTimed polls node timeout started =>
      let '(d, r) := recv_heartbeat_timed polls d node timeout started in
      (d, got r option_list, [], ∀ f, r = Some (Ok (Some f)) → is_heartbeat_of node (parsed f) = true)
  | RecvPdo fuel =>
      let '(d, r) := recv_pdo fuel d in (d, got r (λ f, [f]), [], ∀ f, r = Some (Ok f) → is_pdo (parsed f) = true)
  | TryHeartbeat => let '(d, o) := try_recv_heartbeat d in (d, option_list o, [], True)
  | TryPdo => let '(d, o) := try_recv_pdo d in (d, option_list o, [], True)
  | TryOther => let '(d, o) := try_recv_other d in (d, option_list o, [], True)
  | SdoReceive fuel cob =>
      let '(d, r) := demux_sdo_receive fuel d cob in
      (d, [], got r (λ f, [f]), ∀ f, r = Some (Ok f) → CanFrame.raw_id f = cob ∧ CanFrame.raw_dlc f = 8)
  | SdoTransmit f => (fst (demux_sdo_transmit d f), [], [], True)
  end.

Lemma demux_step_fifo all delivered d op d' out sdo ok :
  fifo all delivered d → demux_step d op = (d', out, sdo, ok) → fifo (all ++ out ++ sdo) (delivered ++ out) d' ∧ ok.
Proof.
  intros Hd. rewrite (app_assoc all). destruct op as [fuel node|polls node timeout started|fuel| | | |fuel cob|f]; cbn [demux_step].
  - unfold recv_heartbeat. pose proof (take_buffered_spec all delivered d node Hd) as Ht.
    destruct (take_buffered_heartbeat d node) as [d1 [f|]].
    + destruct Ht as (? & ? & _). intros [= <- <- <- <-]; rewrite ?app_nil_r. split; [done|by intros ? [= <-]].
    + destruct Ht as [-> Hno]. destruct (poll_heartbeat fuel d node) as [d2 r] eqn:Er.
      intros [= <- <- <- <-]; rewrite ?app_nil_r. by eapply poll_heartbeat_fifo.
  - unfold recv_heartbeat_timed. pose proof (take_buffered_spec all delivered d node Hd) as Ht.
    destruct (take_buffered_heartbeat d node) as [d1 [f|]].
    + destruct Ht as (? & ? & _). intros [= <- <- <- <-]; rewrite ?app_nil_r. split; [done|by intros ? [= <-]].
    + destruct Ht as [-> Hno]. destruct (poll_timed polls d node started timeout) as [d2 r] eqn:Er.
      intros [= <- <- <- <-]; rewrite ?app_nil_r. by eapply poll_timed_fifo.
  - unfold recv_pdo. destruct (try_recv_pdo d) as [d1 [f|]] eqn:Et.
    + intros [= <- <- <- <-]; rewrite ?app_nil_r. split; [eapply (try_recv_fifo _ _ _ _ (Some f)); eauto|].
      intros ? [= <-]. destruct Hd as ((Hp & _) & _). unfold try_recv_pdo in Et.
      destruct (pdo_buf d) as [|g q]; [done|]. injection Et as _ ->.
      apply Forall_cons_1 in Hp as [Hg _]. unfold has_class, class_of, is_pdo in *. by destruct (parsed f) as [[]|].
    + assert (d1 = d ∧ pdo_buf d = []) as [-> Hno].
      { unfold try_recv_pdo in Et. destruct d as [t p h o]. cbn [pdo_buf heartbeat_buf other_buf dx_transport] in *.
        destruct p; [by injection Et as <-|done]. }
      destruct (poll_pdo fuel d) as [d2 r] eqn:Er. intros [= <- <- <- <-]; rewrite ?app_nil_r. by eapply poll_pdo_fifo.
  - destruct (try_recv_heartbeat d) as [d1 o] eqn:Et. intros [= <- <- <- <-]; rewrite ?app_nil_r. split; [|done]. eapply try_recv_fifo; eauto.
  - destruct (try_recv_pdo d) as [d1 o] eqn:Et. intros [= <- <- <- <-]; rewrite ?app_nil_r. split; [|done]. eapply try_recv_fifo; eauto.
  - destruct (try_recv_other d) as [d1 o] eqn:Et. intros [= <- <- <- <-]; rewrite ?app_nil_r. split; [|done]. eapply try_recv_fifo; eauto.
  - destruct (demux_sdo_receive fuel d cob) as [d1 r] eqn:Er. intros [= <- <- <- <-]; rewrite ?app_nil_r.
    by eapply demux_sdo_receive_fifo.
  - intros [= <- <- <- <-]; rewrite ?app_nil_r. split; [|done]. unfold demux_sdo_transmit.
    cbn [can_transmit logged]. destruct (can_transmit (fst (dx_transport d)) f) as [t r]. cbn [fst].
    by apply fifo_same_log.
Qed.

Fixpoint demux_run d (ops : list demux_op) : CanDemux (C * list CanFrame) * list CanFrame * list CanFrame * Prop :=
  match ops with
  | [] => (d, [], [], True)
  | op :: ops =>
      let '(d, out, sdo, ok) := demux_step d op in
      let '(d, outs, sdos, oks) := demux_run d ops in
      (d, out ++ outs, sdo ++ sdos, ok ∧ oks)
  end.

Lemma fifo_all_perm all all' delivered d : all ≡ₚ all' → fifo all delivered d → fifo all' delivered d.
Proof.
  intros Hp (Hr & Hs & Hl). split; [done|]. split; [done|]. intros c Hfew. rewrite <- Hp. by apply Hl.
Qed.

Lemma demux_run_fifo ops all delivered d d' outs sdos oks :
  fifo all delivered d → demux_run d ops = (d', outs, sdos, oks) →
  fifo (all ++ outs ++ sdos) (delivered ++ outs) d' ∧ oks.
Proof.
  revert all delivered d outs sdos oks. induction ops as [|op ops IH]; intros all delivered d outs sdos oks Hd; cbn [demux_run].
  - intros [= <- <- <- <-]. by rewrite !app_nil_r.
  - destruct (demux_step d op) as [[[d1 out] sdo] ok] eqn:E1. destruct (demux_run d1 ops) as [[[d2 out2] sdo2] ok2] eqn:E2.
    intros [= <- <- <- <-]. apply (demux_step_fifo all delivered) in E1 as [Hd1 Hok]; [|done].
    eapply IH in E2 as [Hd2 Hok2]; [|exact Hd1]. rewrite (app_assoc delivered). split; [|by split].
    eapply fifo_all_perm; [|exact Hd2]. solve_Permutation.
Qed.

(** C24. The demultiplexer keeps the order of every identifier: under any
    interleaving of its operations, with whatever node filters, deadlines and
    SDO transfers, the frames of each identifier it has delivered and then
    those it still holds are among the received ones of that identifier, in
    order, none twice; each operation returns frames of its kind only; the
    buffers hold frames of their class within their capacity.  As long as no
    more frames of a class were received than its buffer holds, none of them
    is lost: each was delivered, given to an SDO client or is still held. *)
Theorem demux_keeps_order ops (t : C) :
  let '(d, outs, sdos, oks) := demux_run (demux_new (t, [])) ops in
  routed d ∧ oks ∧
  (∀ id, sublist (by_id id outs ++ by_id id (held d)) (by_id id (log d))) ∧
  (∀ c, (length (select c (log d)) ≤ class_room c)%nat → select c (outs ++ sdos ++ held d) ≡ₚ select c (log d)).
Proof.
  destruct (demux_run (demux_new (t, [])) ops) as [[[d outs] sdos] oks] eqn:Er.
  apply (demux_run_fifo _ [] []) in Er as [(Hr & Hs & Hl) Hoks].
  - split; [done|]. split; [done|]. split; [done|]. intros c. rewrite (app_assoc outs). apply Hl.
  - split; [|split; [by intros id|by intros c]].
    unfold routed. cbn [demux_new pdo_buf heartbeat_buf other_buf length].
    split; [apply List.Forall_nil|]. split; [apply List.Forall_nil|]. split; [apply List.Forall_nil|]. lia.
Qed.
End fifo.

(** A transport that delivers given frames and then reports an error. *)
#[export] Instance script_can : AsyncCan (list CanFrame) unit | 100 := {
  can_transmit c _ := (c, Ok tt);
  can_receive c := match c with [] => ([], Err tt) | f :: c => (c, Ok f) end;
}.

Definition router_frame (id : Z) : CanFrame := mkCanFrame id 8 (zeros 8).

Example demux_demo :
  let '(d, outs, _, _) :=
    demux_run (demux_new ([router_frame 0x701; router_frame 0x181; router_frame 0x702; router_frame 0x581;
                           router_frame 0x701], []))
      [RecvHeartbeat 9 (Some 2); SdoReceive 9 0x581; RecvPdo 9; RecvHeartbeat 9 None; RecvHeartbeat 9 None] in
  cf_id <$> outs = [0x702; 0x181; 0x701; 0x701] ∧ log d = router_frame <$> [0x701; 0x181; 0x702; 0x581; 0x701].
Proof. vm_compute. by split. Qed.
