(* ===== verification/Dcf.v ===== *)
(** * Device configuration files

    [canopen-core/src/dcf.rs]: parsing the INI text of an EDS or DCF file,
    serialising its values by data type, and applying them to a dictionary or
    to a remote node.  Text is bytes ([Text]); the messages of [DcfError] are
    replaced by what they are formatted from. *)
From S2P Require Import Prelude Text Frame Od SdoProtocol SdoClient SdoDriver.

Record DcfEntry := mkDcfEntry { index : Z; subindex : Z; data : list Z; name : list Z }.

Record Dcf := mkDcf { node_id : option Z; baud_rate : option Z; entries : list DcfEntry }.

(** What the message of a [ParseError] is about. *)
Inductive ParseFailure :=
| InvalidNodeId (v : list Z)
| InvalidBaudRate (v : list Z)
| InvalidValue (index sub : Z) (value : list Z) (data_type : Z).

Inductive DcfError :=
| ParseError (f : ParseFailure)
| OdFailure (index subindex : Z) (error : OdError).

(** ** INI text *)

Definition props : Type := list (list Z * list Z).

(** The loop over the lines: the finished sections, the current one's name and
    properties. *)
Fixpoint ini_loop (content : list (list Z)) (sections : list (list Z * props))
    (current_section : list Z) (section_props : props) : list (list Z * props) :=
  match content with
  | [] =>
      if negb (len current_section =? 0) then sections ++ [(current_section, section_props)] else sections
  | line :: content =>
      let line := trim line in
      if (len line =? 0) || starts_with (str ";") line then
        ini_loop content sections current_section section_props
      else if starts_with (str "[") line && ends_with 93 line then
        let '(sections, section_props) :=
          if negb (len current_section =? 0) then (sections ++ [(current_section, section_props)], [])
          else (sections, section_props) in
        ini_loop content sections (removelast (tail line)) section_props
      else
        match split_once (str "=") line with
        | Some (key, value) =>
            ini_loop content sections current_section (section_props ++ [(trim key, trim value)])
        | None => ini_loop content sections current_section section_props
        end
  end.

Definition parse_ini_sections (content : list Z) : list (list Z * props) :=
  ini_loop (lines content) [] [] [].

Definition find_section (sections : list (list Z * props)) (name : list Z) : option props :=
  snd <$> List.find (λ s, eq_ignore_ascii_case (fst s) name) sections.

Definition get_prop (ps : props) (key : list Z) : option (list Z) :=
  snd <$> List.find (λ p, eq_ignore_ascii_case (fst p) key) ps.

Definition strip_hex (s : list Z) : option (list Z) :=
  match strip_prefix (str "0x") s with
  | Some hex => Some hex
  | None => strip_prefix (str "0X") s
  end.

Definition parse_int_val (s : list Z) : option Z :=
  let s := trim s in
  match strip_hex s with
  | Some hex => from_str_radix 64 16 hex
  | None => from_str_radix 64 10 s
  end.

Definition parse_section_index (section : list Z) : option (Z * option Z) :=
  let lower := to_lowercase section in
  match split_once (str "sub") lower with
  | Some (idx_str, sub_str) =>
      index ← from_str_radix 16 16 idx_str;
      subindex ← (match from_str_radix 8 16 sub_str with
                  | Some s => Some s
                  | None => from_str_radix 8 10 sub_str
                  end);
      Some (index, Some subindex)
  | None =>
      index ← from_str_radix 16 16 lower;
      if 0x1000 <=? index then Some (index, None) else None
  end.

Definition is_pdo_index (index : Z) : bool :=
  in_range 0x1400 0x15FF index || in_range 0x1600 0x17FF index
  || in_range 0x1800 0x19FF index || in_range 0x1A00 0x1BFF index.

(** ** Values *)

Definition serialize_integer (value : list Z) (bits : Z) (signed : bool) : option (list Z) :=
  raw ← (if signed && starts_with (str "-") value then
           n ← parse_signed 64 value;
           if n <? - Z.shiftl 1 (bits - 1) then None else Some (as_u64 n)
         else
           n ← parse_int_val value;
           let hex := starts_with (str "0x") value || starts_with (str "0X") value in
           let limit_bits := if signed && negb hex then bits - 1 else bits in
           if (limit_bits <? 64) && (Z.shiftl 1 limit_bits <=? n) then None else Some n);
  Some (take (Z.to_nat (bits / 8)) (to_le_bytes 8 raw)).

(** [(0..len).step_by(2)]: one byte per two characters. *)
Fixpoint hex_bytes (hex : list Z) : option (list Z) :=
  match hex with
  | a :: b :: hex => x ← from_str_radix 8 16 [a; b]; xs ← hex_bytes hex; Some (x :: xs)
  | _ => Some []
  end.

Definition is_ascii (s : list Z) : bool := forallb (λ c, c <? 128) s.

Definition serialize_value (value : list Z) (data_type : Z) : option (list Z) :=
  let v := trim_matches quote (trim value) in
  if data_type =? 0x0001 then
    if bool_decide (v = str "false") then Some [0]
    else if bool_decide (v = str "true") then Some [1]
    else
      n ← parse_int_val v;
      if n =? 0 then Some [0] else if n =? 1 then Some [1] else None
  else if data_type =? 0x0002 then serialize_integer v 8 true
  else if data_type =? 0x0005 then serialize_integer v 8 false
  else if data_type =? 0x0003 then serialize_integer v 16 true
  else if data_type =? 0x0006 then serialize_integer v 16 false
  else if data_type =? 0x0010 then serialize_integer v 24 true
  else if data_type =? 0x0016 then serialize_integer v 24 false
  else if data_type =? 0x0004 then serialize_integer v 32 true
  else if data_type =? 0x0007 then serialize_integer v 32 false
  else if data_type =? 0x0008 then
    match strip_hex v with
    | Some hex => to_le_bytes 4 <$> from_str_radix 32 16 hex
    | None => to_le_bytes 4 <$> parse_float f32 v
    end
  else if data_type =? 0x0009 then Some v
  else if (data_type =? 0x000A) || (data_type =? 0x000F) then
    match strip_hex v with
    | Some hex => if negb (is_ascii hex) || negb (len hex mod 2 =? 0) then None else hex_bytes hex
    | None => Some v
    end
  else if data_type =? 0x0011 then
    match strip_hex v with
    | Some hex => to_le_bytes 8 <$> from_str_radix 64 16 hex
    | None => to_le_bytes 8 <$> parse_float f64 v
    end
  else if data_type =? 0x0015 then serialize_integer v 64 true
  else if data_type =? 0x001B then serialize_integer v 64 false
  else None.

(** [uN::try_from] a [u64]. *)
Definition try_from (w n : Z) : option Z := if n <? 2 ^ w then Some n else None.

(** ** [Dcf::parse] *)

(** A property of [DeviceComissioning]: absent, invalid, or a [w]-bit number. *)
Definition commissioning (sections : list (list Z * props)) (key : list Z) (w : Z)
    (failure : list Z → ParseFailure) : result (option Z) DcfError :=
  match (ps ← find_section sections (str "DeviceComissioning"); get_prop ps key) with
  | None => Ok None
  | Some v =>
      match (n ← parse_int_val v; try_from w n) with
      | Some n => Ok (Some n)
      | None => Err (ParseError (failure v))
      end
  end.

(** One iteration of the loop over the sections: [None] is a [continue]. *)
Definition parse_entry (section_name : list Z) (ps : props) : option (result DcfEntry DcfError) :=
  '(index, subindex) ← parse_section_index section_name;
  if is_pdo_index index then None
  else if bool_decide (subindex = Some 0) then None
  else
    let sub := default 0 subindex in
    data_type ← (v ← get_prop ps (str "DataType"); parse_int_val v);
    value_str ← (match get_prop ps (str "ParameterValue") with
                 | Some v => Some v
                 | None => get_prop ps (str "DefaultValue")
                 end);
    let trimmed := trim value_str in
    if (len trimmed =? 0) || contains (str "$NODEID") trimmed || contains (str "$nodeid") trimmed then None
    else
      Some (match (ty ← try_from 16 data_type; serialize_value trimmed ty) with
            | Some data =>
                Ok (mkDcfEntry index sub data (default [] (get_prop ps (str "ParameterName"))))
            | None => Err (ParseError (InvalidValue index sub trimmed data_type))
            end).

Fixpoint parse_entries (sections : list (list Z * props)) : result (list DcfEntry) DcfError :=
  match sections with
  | [] => Ok []
  | (section_name, ps) :: sections =>
      match parse_entry section_name ps with
      | Some (Err e) => Err e
      | Some (Ok x) => match parse_entries sections with Ok xs => Ok (x :: xs) | Err e => Err e end
      | None => parse_entries sections
      end
  end.

Definition parse (content : list Z) : result Dcf DcfError :=
  let sections := parse_ini_sections content in
  match commissioning sections (str "NodeID") 8 InvalidNodeId with
  | Err e => Err e
  | Ok node_id =>
      match commissioning sections (str "BaudRate") 32 InvalidBaudRate with
      | Err e => Err e
      | Ok baud_rate =>
          match parse_entries sections with
          | Err e => Err e
          | Ok entries => Ok (mkDcf node_id baud_rate entries)
          end
      end
  end.

(** ** Applying a configuration *)

Section apply.
Context {OD : Type} `{ObjectDictionary OD}.

Fixpoint apply_loop (es : list DcfEntry) (od : OD) (count : Z) : OD * Z :=
  match es with
  | [] => (od, count)
  | e :: es =>
      match od_write od (index e) (subindex e) (data e) with
      | (od, Ok _) => apply_loop es od (count + 1)
      | (od, Err _) => apply_loop es od count
      end
  end.

Definition apply (d : Dcf) (od : OD) : OD * Z := apply_loop (entries d) od 0.

Fixpoint apply_strict_loop (es : list DcfEntry) (od : OD) (count : Z) : OD * result Z DcfError :=
  match es with
  | [] => (od, Ok count)
  | e :: es =>
      match od_write od (index e) (subindex e) (data e) with
      | (od, Ok _) => apply_strict_loop es od (count + 1)
      | (od, Err err) => (od, Err (OdFailure (index e) (subindex e) err))
      end
  end.

Definition apply_strict (d : Dcf) (od : OD) : OD * result Z DcfError :=
  apply_strict_loop (entries d) od 0.
End apply.

Section apply_remote.
Context {C E : Type} `{AsyncCan C E}.

(** [fuel] bounds the receive loop of each download. *)
Fixpoint apply_remote_loop (fuel : nat) (es : list DcfEntry) (driver : SdoDriver) (can : C) (count : Z)
    : exec (option (C * result Z (SdoError E))) :=
  match es with
  | [] => mret (Some (can, Ok count))
  | e :: es =>
      r ← download fuel driver can (index e) (subindex e) (data e);
      match r with
      | None => mret None
      | Some (can, Err e) => mret (Some (can, Err e))
      | Some (can, Ok _) => apply_remote_loop fuel es driver can (count + 1)
      end
  end.

Definition apply_remote (fuel : nat) (d : Dcf) (driver : SdoDriver) (can : C)
    : exec (option (C * result Z (SdoError E))) :=
  apply_remote_loop fuel (entries d) driver can 0.
End apply_remote.

(** ** Integers: what is accepted, and how it is encoded *)

(** The number a text denotes, of any size, and whether it is hexadecimal. *)
Definition int_value (signed : bool) (v : list Z) : option (bool * Z) :=
  match strip_prefix (str "-") v with
  | Some digits =>
      if signed then
        match digits with
        | [] => None
        | _ => n ← digits_value 10 0 digits; Some (false, - n)
        end
      else None
  | None =>
      match strip_hex v with
      | Some hex => n ← number 16 hex; Some (true, n)
      | None => n ← number 10 v; Some (false, n)
      end
  end.

(** Signed decimals have their numeric range; unsigned numbers and bit
    patterns have the width. *)
Definition int_range (bits : Z) (signed hex : bool) (n : Z) : bool :=
  if signed && negb hex then (- 2 ^ (bits - 1) <=? n) && (n <? 2 ^ (bits - 1))
  else (0 <=? n) && (n <? 2 ^ bits).

Definition int_width (bits : Z) : Prop :=
  bits = 8 ∨ bits = 16 ∨ bits = 24 ∨ bits = 32 ∨ bits = 64.

Lemma to_le_bytes_take k m z : (k ≤ m)%nat → take k (to_le_bytes m z) = to_le_bytes k z.
Proof.
  revert m z. induction k as [|k IH]; intros m z Hk; [done|].
  destruct m as [|m]; [lia|]. change (to_le_bytes (Datatypes.S m) z) with (z mod 256 :: to_le_bytes m (z / 256)).
  cbn [take]. by rewrite IH by lia.
Qed.

Lemma to_le_bytes_mod m z : to_le_bytes m (z mod 256 ^ Z.of_nat m) = to_le_bytes m z.
Proof.
  revert z. induction m as [|m IH]; intros z; [done|].
  replace (Z.of_nat (Datatypes.S m)) with (1 + Z.of_nat m) by lia.
  pose proof (Z.pow_pos_nonneg 256 (Z.of_nat m) ltac:(lia) ltac:(lia)).
  rewrite Z.pow_add_r, Z.pow_1_r, Z.rem_mul_r by lia.
  change (to_le_bytes (Datatypes.S m) z) with (z mod 256 :: to_le_bytes m (z / 256)).
  change (to_le_bytes (Datatypes.S m) ?x) with (x mod 256 :: to_le_bytes m (x / 256)).
  rewrite (Z.mul_comm 256), Z.mod_add, Z.div_add, Zmod_mod by lia.
  rewrite (Z.div_small (z mod 256)) by (apply Z.mod_pos_bound; lia).
  by rewrite Z.add_0_l, IH.
Qed.

Lemma take_le_wrap bits n :
  int_width bits → take (Z.to_nat (bits / 8)) (to_le_bytes 8 (as_u64 n)) = to_le_bytes (Z.to_nat (bits / 8)) n.
Proof.
  intros Hb. unfold wrap. change (2 ^ 64) with (256 ^ Z.of_nat 8). rewrite to_le_bytes_mod.
  apply to_le_bytes_take. unfold int_width in Hb. destruct Hb as [->|[->|[->|[->| ->]]]]; by apply Nat.leb_le.
Qed.

Lemma number_nonneg radix s n : 1 ≤ radix → number radix s = Some n → 0 ≤ n.
Proof.
  intros Hr. unfold number. destruct (digits_of s); [|done]. apply digits_value_ge; lia.
Qed.

Lemma parse_int_val_value v :
  trim v = v →
  parse_int_val v = below (2 ^ 64) (match strip_hex v with Some h => number 16 h | None => number 10 v end).
Proof.
  intros Ht. unfold parse_int_val. rewrite Ht. destruct (strip_hex v); by apply from_str_radix_spec.
Qed.

Lemma strip_hex_starts v :
  starts_with (str "0x") v || starts_with (str "0X") v = bool_decide (is_Some (strip_hex v)).
Proof.
  unfold starts_with, strip_hex. destruct (strip_prefix (str "0x") v); [done|].
  by destruct (strip_prefix (str "0X") v).
Qed.

(** The branch without a minus sign. *)
Lemma serialize_unsigned bits signed v :
  int_width bits → trim v = v → signed && starts_with (str "-") v = false →
  serialize_integer v bits signed =
  match (match strip_hex v with
         | Some h => n ← number 16 h; Some (true, n)
         | None => n ← number 10 v; Some (false, n) end) with
  | Some (hex, n) => if int_range bits signed hex n then Some (to_le_bytes (Z.to_nat (bits / 8)) n) else None
  | None => None
  end.
Proof.
  intros Hb Ht Hm. unfold serialize_integer. rewrite Hm, strip_hex_starts, parse_int_val_value by done.
  assert (∀ hex o, (∀ n, o = Some n → 0 ≤ n) →
    (raw ← (n ← below (2 ^ 64) o;
            let limit_bits := if signed && negb hex then bits - 1 else bits in
            if (limit_bits <? 64) && (Z.shiftl 1 limit_bits <=? n) then None else Some n);
     Some (take (Z.to_nat (bits / 8)) (to_le_bytes 8 raw)))
    = match (n ← o; Some (hex, n)) with
      | Some (hex, n) => if int_range bits signed hex n then Some (to_le_bytes (Z.to_nat (bits / 8)) n) else None
      | None => None
      end) as Hgen.
  { intros hex o Ho. destruct o as [n|]; [|done]. specialize (Ho n eq_refl).
    unfold below. cbn [mbind option_bind]. cbv zeta. set (lim := if signed && negb hex then bits - 1 else bits).
    assert (0 ≤ lim ≤ 64 ∧ int_range bits signed hex n = (n <? 2 ^ lim)) as [Hlim ->].
    { unfold int_range, lim, int_width in *. pose proof (Z.pow_nonneg 2 (bits - 1)).
      destruct (signed && negb hex); (split; [lia|]); by rewrite (proj2 (Z.leb_le _ _)) by lia. }
    rewrite Z.shiftl_1_l.
    pose proof (Z.pow_le_mono_r 2 lim 64 ltac:(lia) ltac:(lia)) as Hpow.
    destruct (Z.ltb_spec n (2 ^ 64)) as [Hn|Hn]; cbn [mbind option_bind].
    - destruct (Z.ltb_spec lim 64) as [Hl|Hl].
      + destruct (Z.leb_spec (2 ^ lim) n), (Z.ltb_spec n (2 ^ lim)); try lia; cbn [andb mbind option_bind]; [done|].
        f_equal. rewrite <- (wrap_id 64 n) by (unfold is_uint; lia). rewrite take_le_wrap by done.
        by rewrite (wrap_id 64 n) by (unfold is_uint; lia).
      + assert (lim = 64) as -> by lia. rewrite (proj2 (Z.ltb_lt _ _) Hn). cbn [andb mbind option_bind].
        f_equal. rewrite <- (wrap_id 64 n) by (unfold is_uint; lia). rewrite take_le_wrap by done.
        by rewrite (wrap_id 64 n) by (unfold is_uint; lia).
    - by rewrite (proj2 (Z.ltb_ge _ _)) by lia. }
  destruct (strip_hex v) as [h|]; apply Hgen; intros n Hn; eapply number_nonneg; eauto; lia.
Qed.

(** C28. Integer values of a configuration file: a text is accepted exactly
    when it denotes a number in the range of its type (the numeric range for
    signed decimals, the width of the type for unsigned numbers and for
    hexadecimal bit patterns), however large the number is, and its bytes are
    the little-endian two's complement of that number in the type's width. *)
Theorem serialize_integer_bounds v bits signed :
  int_width bits → trim v = v →
  serialize_integer v bits signed =
  match int_value signed v with
  | Some (hex, n) => if int_range bits signed hex n then Some (to_le_bytes (Z.to_nat (bits / 8)) n) else None
  | None => None
  end.
Proof.
  intros Hb Ht. unfold int_value. destruct (strip_prefix (str "-") v) as [digits|] eqn:Hs.
  - apply strip_prefix_Some in Hs. change (str "-" ++ digits) with (minus :: digits) in Hs.
    destruct signed.
    + unfold serialize_integer, starts_with. rewrite Hs. rewrite (strip_prefix_app (str "-") digits : strip_prefix _ (minus :: digits) = _). cbn [andb].
      destruct digits as [|c digits]; [done|]. rewrite parse_signed_minus.
      destruct (digits_value 10 0 (c :: digits)) as [n|] eqn:En; [|done].
      apply digits_value_ge in En; [|lia..]. unfold below. cbn [mbind option_bind].
      unfold int_range. cbn [andb negb].
      assert (0 ≤ 2 ^ (bits - 1) ≤ 2 ^ 63) as Hp.
      { split; [by apply Z.pow_nonneg|]. apply Z.pow_le_mono_r; [done|]. unfold int_width in Hb. lia. }
      rewrite Z.shiftl_1_l. change (64 - 1) with 63.
      destruct (Z.ltb_spec n (2 ^ 63 + 1)) as [Hn|Hn]; cbn [fmap option_fmap option_map mbind option_bind].
      * destruct (Z.ltb_spec (- n) (- 2 ^ (bits - 1))), (Z.leb_spec (- 2 ^ (bits - 1)) (- n));
          try lia; cbn [andb mbind option_bind].
        { done. }
        rewrite (proj2 (Z.ltb_lt _ _)) by (pose proof (Z.pow_pos_nonneg 2 (bits - 1)); unfold int_width in Hb; lia).
        by rewrite take_le_wrap.
      * by rewrite (proj2 (Z.leb_gt _ _)) by lia.
    + rewrite serialize_unsigned by done. rewrite Hs.
      by destruct digits.
  - apply serialize_unsigned; [done..|]. unfold starts_with. rewrite Hs. apply andb_false_r.
Qed.

Lemma serialize_integer_bounds_witness :
  (int_width 8 ∧ trim (str "-128") = str "-128") ∧
  (serialize_integer (str "-128") 8 true =
   match int_value true (str "-128") with
   | Some (hex, n) => if int_range 8 true hex n then Some (to_le_bytes (Z.to_nat (8 / 8)) n) else None
   | None => None
   end) ∧
  serialize_integer (str "-128") 8 true = Some [0x80] ∧ serialize_integer (str "-129") 8 true = None ∧
  serialize_integer (str "0x80") 8 true = Some [0x80] ∧ serialize_integer (str "128") 8 true = None.
Proof.
  assert (int_width 8 ∧ trim (str "-128") = str "-128") as [Hw Ht] by (split; [by left|reflexivity]).
  split; [by split|]. split; [by apply serialize_integer_bounds|]. vm_compute. by repeat split.
Defined.

(** ** What a parsed configuration holds *)

Lemma serialize_integer_typed v bits signed d :
  int_width bits → serialize_integer v bits signed = Some d → bytes d ∧ len d = bits / 8.
Proof.
  unfold serialize_integer. intros Hb H. apply bind_Some in H as (raw & _ & [= <-]).
  split; [apply bytes_take, bytes_to_le|]. rewrite length_take, length_to_le.
  by destruct Hb as [->|[->|[->|[->| ->]]]].
Qed.

Lemma hex_bytes_typed s d : hex_bytes s = Some d → bytes d.
Proof.
  revert d. induction s as [s IH] using (induction_ltof1 _ (@length Z)). unfold ltof in IH.
  intros d. destruct s as [|a [|b s]]; cbn [hex_bytes]; try (intros [= <-]; constructor).
  intros H. apply bind_Some in H as (x & Hx & H). apply bind_Some in H as (xs & Hxs & [= <-]).
  constructor; [by apply (from_str_radix_range 8 16 [a; b])|]. eapply IH; [|exact Hxs]. simpl. lia.
Qed.

Definition has_type (ty : Z) (d : list Z) : Prop :=
  ∃ dt, DataType.from_code ty = Some dt ∧ ∀ n, DataType.size dt = Some n → len d = n.

Ltac int_arm ty code dt bits :=
  destruct (Z.eqb_spec ty code) as [->|_];
  [match goal with
   | Hint : ∀ ty dt bits signed, _ |- _ =>
       by eapply (Hint code dt bits); [reflexivity|reflexivity|unfold int_width; lia|eassumption]
   end|].

Lemma serialize_value_typed value ty d :
  bytes value → serialize_value value ty = Some d → bytes d ∧ has_type ty d.
Proof.
  intros Hv. unfold serialize_value. set (v := trim_matches quote (trim value)). intros H.
  assert (bytes v) as Hbv by (by apply all_trim_by, all_trim_by).
  assert (∀ ty dt bits signed, DataType.from_code ty = Some dt → DataType.size dt = Some (bits / 8) →
    int_width bits → serialize_integer v bits signed = Some d → bytes d ∧ has_type ty d) as Hint.
  { intros ty' dt bits signed Hc Hs Hw Hd. apply serialize_integer_typed in Hd as [? Hl]; [|done].
    split; [done|]. exists dt. split; [done|]. rewrite Hs. by intros n [= <-]. }
  assert (∀ ty dt k o, DataType.from_code ty = Some dt → DataType.size dt = Some (Z.of_nat k) →
    to_le_bytes k <$> (o : option Z) = Some d → bytes d ∧ has_type ty d) as Hfloat.
  { intros ty' dt k o Hc Hs Ho. apply fmap_Some in Ho as (x & _ & ->).
    split; [apply bytes_to_le|]. exists dt. split; [done|]. rewrite Hs, length_to_le. by intros n [= <-]. }
  assert (∀ dt, DataType.from_code ty = Some dt → DataType.size dt = None → bytes d → bytes d ∧ has_type ty d) as Hany.
  { intros dt Hc Hs ?. split; [done|]. exists dt. split; [done|]. by rewrite Hs. }
  destruct (Z.eqb_spec ty 0x0001) as [->|_].
  { assert (∀ b, is_u8 b → Some [b] = Some d → bytes d ∧ has_type 1 d) as Hb.
    { intros b Hb [= <-]. split; [apply List.Forall_cons; [done|constructor]|].
      exists Boolean. split; [done|]. by intros n [= <-]. }
    destruct (bool_decide _); [by apply (Hb 0); [split|]|]. destruct (bool_decide _); [by apply (Hb 1); [split|]|].
    apply bind_Some in H as (n & _ & H). 
    destruct (n =? 0); [by apply (Hb 0); [split|]|]. destruct (n =? 1); [by apply (Hb 1); [split|]|done]. }
  int_arm ty 0x0002 I8 8. int_arm ty 0x0005 U8 8. int_arm ty 0x0003 I16 16. int_arm ty 0x0006 U16 16.
  int_arm ty 0x0010 I24 24. int_arm ty 0x0016 U24 24. int_arm ty 0x0004 I32 32. int_arm ty 0x0007 U32 32.
  destruct (Z.eqb_spec ty 0x0008) as [->|_].
  { destruct (strip_hex v); by eapply (Hfloat _ Real32 4%nat). }
  destruct (Z.eqb_spec ty 0x0009) as [->|_]; [injection H as <-; by eapply (Hany VisibleString)|].
  destruct ((ty =? 0x000A) || (ty =? 0x000F)) eqn:Ho.
  { assert (∃ dt, DataType.from_code ty = Some dt ∧ DataType.size dt = None) as (dt & Hc & Hs).
    { destruct (Z.eqb_spec ty 0x000A) as [->|_]; [by exists OctetString|].
      destruct (Z.eqb_spec ty 0x000F) as [->|_]; [by exists Domain|done]. }
    apply (Hany dt Hc Hs). destruct (strip_hex v); [|by injection H as <-].
    match type of H with (if ?b then _ else _) = _ => destruct b end; [done|by eapply hex_bytes_typed]. }
  destruct (Z.eqb_spec ty 0x0011) as [->|_].
  { destruct (strip_hex v); by eapply (Hfloat _ Real64 8%nat). }
  int_arm ty 0x0015 I64 64. int_arm ty 0x001B U64 64. done.
Qed.

(** Property values of a text of bytes are bytes. *)
Definition section_bytes (s : list Z * props) : Prop := Forall (λ p, bytes (snd p)) (snd s).

Lemma bytes_trim s : bytes s → bytes (trim s).
Proof. apply all_trim_by. Qed.

Lemma ini_loop_bytes content sections cur ps :
  Forall bytes content → Forall section_bytes sections → Forall (λ p, bytes (snd p)) ps →
  Forall section_bytes (ini_loop content sections cur ps).
Proof.
  intros Hc. revert sections cur ps.
  induction Hc as [|line content Hl _ IH]; intros sections cur ps Hs Hp; cbn [ini_loop].
  - destruct (negb _); [|done]. apply Forall_app_2; [done|]. by apply Forall_singleton.
  - cbv zeta. destruct (_ || _); [by apply IH|]. destruct (_ && _).
    + destruct (negb _); apply IH; try done; try apply List.Forall_nil.
      apply Forall_app_2; [done|]. by apply Forall_singleton.
    + destruct (split_once _ _) as [[key value]|] eqn:E; [|by apply IH]. apply IH; [done|].
      apply (all_split_once (is_uint 8)) in E as [_ Hv]; [|by apply bytes_trim].
      apply Forall_app_2; [done|]. apply Forall_singleton. by apply bytes_trim.
Qed.

Lemma get_prop_bytes ps key v : Forall (λ p, bytes (snd p)) ps → get_prop ps key = Some v → bytes v.
Proof.
  unfold get_prop. intros Hp H. apply fmap_Some in H as ([k x] & H & ->).
  apply find_some in H as [H _]. rewrite List.Forall_forall in Hp. by apply (Hp (k, x)).
Qed.

(** What the section of an entry determines. *)
Definition entry_ok (ps : props) (e : DcfEntry) : Prop :=
  is_u16 (index e) ∧ is_u8 (subindex e) ∧ is_pdo_index (index e) = false ∧ bytes (data e) ∧
  ∃ v ty, get_prop ps (str "DataType") = Some v ∧ parse_int_val v = Some ty ∧ has_type ty (data e).

Lemma parse_section_index_range name i s :
  parse_section_index name = Some (i, s) → is_u16 i ∧ is_u8 (default 0 s).
Proof.
  unfold parse_section_index. destruct (split_once _ _) as [[a b]|].
  - intros H. apply bind_Some in H as (i' & Hi & H). apply bind_Some in H as (s' & Hs & [= <- <-]).
    split; [by apply (from_str_radix_range 16 16 a)|].
    destruct (from_str_radix 8 16 b) as [x|] eqn:E; [injection Hs as ->; by apply (from_str_radix_range 8 16 b)|].
    by apply (from_str_radix_range 8 10 b).
  - intros H. apply bind_Some in H as (i' & Hi & H). destruct (_ <=? _); [|done].
    injection H as <- <-. split; [by eapply (from_str_radix_range 16 16)|by split].
Qed.

Lemma parse_entry_ok name ps e :
  Forall (λ p, bytes (snd p)) ps → parse_entry name ps = Some (Ok e) → entry_ok ps e.
Proof.
  intros Hps. unfold parse_entry. intros H. apply bind_Some in H as ([i s] & Hi & H).
  destruct (is_pdo_index i) eqn:Hpdo; [done|]. destruct (bool_decide (s = Some 0)); [done|].
  apply bind_Some in H as (ty & Hty & H). apply bind_Some in Hty as (v & Hv & Hty).
  apply bind_Some in H as (value & Hvalue & H).
  assert (bytes value) as Hb.
  { destruct (get_prop ps (str "ParameterValue")) eqn:E; [injection Hvalue as ->|]; by eapply get_prop_bytes. }
  cbv zeta in H. destruct (_ || _ || _); [done|]. injection H as H.
  destruct (try_from 16 ty) as [ty'|] eqn:Ht; cbn [mbind option_bind] in H; [|done].
  unfold try_from in Ht. destruct (ty <? 2 ^ 16); [|done]. injection Ht as <-.
  destruct (serialize_value (trim value) ty) as [d|] eqn:Hd; [|done]. injection H as <-.
  apply serialize_value_typed in Hd as [Hbd Htd]; [|by apply bytes_trim].
  destruct (parse_section_index_range _ _ _ Hi) as [Hi' Hs'].
  split; [exact Hi'|]. split; [exact Hs'|]. split; [exact Hpdo|]. split; [exact Hbd|]. by exists v, ty.
Qed.

Definition ok_entry (s : list Z * props) : option DcfEntry := r ← parse_entry (fst s) (snd s); res_ok r.

Lemma parse_entries_ok sections es :
  parse_entries sections = Ok es → es = omap ok_entry sections.
Proof.
  revert es. induction sections as [|[name ps] sections IH]; intros es; cbn [parse_entries omap list_omap].
  - by intros [= <-].
  - unfold ok_entry at 1. cbn [fst snd]. destruct (parse_entry name ps) as [[x|e]|]; [|done|apply IH].
    destruct (parse_entries sections) as [xs|]; [|done]. intros [= <-]. cbn [mbind option_bind res_ok].
    by rewrite (IH xs).
Qed.

Lemma commissioning_range sections key w failure n :
  commissioning sections key w failure = Ok (Some n) → is_uint w n.
Proof.
  unfold commissioning. destruct (_ ≫= _) as [v|]; [|done].
  destruct (parse_int_val v) as [m|] eqn:E; cbn [mbind option_bind]; [|done].
  unfold try_from. destruct (Z.ltb_spec m (2 ^ w)); [|done]. intros [= <-].
  unfold parse_int_val in E. destruct (strip_hex _); apply from_str_radix_range in E; try lia;
    unfold is_uint in *; lia.
Qed.

(** A parsed configuration is well typed: node id and baud rate fit their
    types, the entries are those of the sections in file order, and each has
    a 16-bit index outside the PDO parameters, an 8-bit subindex, and bytes of
    exactly the size of the CANopen data type its section names. *)
Theorem dcf_parse_well_typed content d :
  bytes content → parse content = Ok d →
  (∀ n, node_id d = Some n → is_u8 n) ∧ (∀ n, baud_rate d = Some n → is_u32 n) ∧
  entries d = omap ok_entry (parse_ini_sections content) ∧
  ∀ e, In e (entries d) →
    ∃ name ps, In (name, ps) (parse_ini_sections content) ∧ parse_entry name ps = Some (Ok e) ∧ entry_ok ps e.
Proof.
  intros Hc. unfold parse.
  assert (Forall section_bytes (parse_ini_sections content)) as Hs.
  { apply ini_loop_bytes; [by apply all_lines|apply List.Forall_nil..]. }
  destruct (commissioning _ (str "NodeID") _ _) as [node|] eqn:En; [|done].
  destruct (commissioning _ (str "BaudRate") _ _) as [baud|] eqn:Eb; [|done].
  destruct (parse_entries _) as [es|] eqn:Ee; [|done]. intros [= <-]. cbn [node_id baud_rate entries].
  split; [intros n ->; by eapply commissioning_range|]. split; [intros n ->; by eapply commissioning_range|].
  apply parse_entries_ok in Ee. split; [exact Ee|]. intros e He.
  rewrite Ee in He. apply list_elem_of_In, list_elem_of_omap in He as ([name ps] & Hin & Hok).
  apply list_elem_of_In in Hin. exists name, ps. unfold ok_entry in Hok.
  apply bind_Some in Hok as ([x|f] & Hr & Hx); [|done]. injection Hx as ->.
  rewrite List.Forall_forall in Hs. split; [done|]. split; [done|]. apply (parse_entry_ok name); [|done].
  by apply (Hs (name, ps)).
Qed.

Definition demo_dcf : list Z := str "[DeviceComissioning]
NodeID=5
BaudRate = 0x5

[1017]
ParameterName=Producer Heartbeat Time
DataType=0x0006
ParameterValue=500
; the default applies without a configured value
[2000sub1]
DataType=0x0002
DefaultValue=-3
[1A00]
DataType=7
DefaultValue=1
".

Definition demo_entries : list DcfEntry :=
  [mkDcfEntry 0x1017 0 [0xF4; 0x01] (str "Producer Heartbeat Time"); mkDcfEntry 0x2000 1 [0xFD] []].

Lemma dcf_parse_well_typed_witness :
  (bytes demo_dcf ∧ parse demo_dcf = Ok (mkDcf (Some 5) (Some 5) demo_entries)) ∧
  let d := mkDcf (Some 5) (Some 5) demo_entries in
  (∀ n, node_id d = Some n → is_u8 n) ∧ (∀ n, baud_rate d = Some n → is_u32 n) ∧
  entries d = omap ok_entry (parse_ini_sections demo_dcf) ∧
  ∀ e, In e (entries d) →
    ∃ name ps, In (name, ps) (parse_ini_sections demo_dcf) ∧ parse_entry name ps = Some (Ok e) ∧ entry_ok ps e.
Proof.
  assert (bytes demo_dcf ∧ parse demo_dcf = Ok (mkDcf (Some 5) (Some 5) demo_entries)) as [Hb Hp].
  { split; [apply bytes_str|]. vm_compute. reflexivity. }
  split; [by split|]. by apply dcf_parse_well_typed.
Defined.

(** Properties before the first section header stay with the parser and become
    the first properties of the first section. *)
Example ini_headerless_properties :
  parse_ini_sections (str "DataType=5
[1017]
DataType=6
") = [(str "1017", [(str "DataType", str "5"); (str "DataType", str "6")])].
Proof. vm_compute. reflexivity. Qed.

(** ** Applying *)

Section apply_spec.
Context {OD : Type} `{ObjectDictionary OD}.

(** The writes of [es], in order, each accepted. *)
Fixpoint writes_ok (es : list DcfEntry) (od od' : OD) : Prop :=
  match es with
  | [] => od = od'
  | e :: es => ∃ od1, od_write od (index e) (subindex e) (data e) = (od1, Ok tt) ∧ writes_ok es od1 od'
  end.

Lemma apply_strict_loop_spec es od od' count r :
  apply_strict_loop es od count = (od', r) →
  match r with
  | Ok n => n = count + len es ∧ writes_ok es od od' ∧ apply_loop es od count = (od', n)
  | Err f => ∃ done e rest od1 err,
      es = done ++ e :: rest ∧ writes_ok done od od1 ∧
      od_write od1 (index e) (subindex e) (data e) = (od', Err err) ∧
      f = OdFailure (index e) (subindex e) err
  end.
Proof.
  revert od count. induction es as [|e es IH]; intros od count; cbn [apply_strict_loop apply_loop].
  - intros [= <- <-]. cbn [length]. split; [lia|done].
  - destruct (od_write od _ _ _) as [od1 [[]|err]] eqn:E.
    + intros Hrun. specialize (IH _ _ Hrun). destruct r as [n|f].
      * destruct IH as (-> & Hw & Ha). split; [cbn [length]; lia|]. split; [by exists od1|done].
      * destruct IH as (don & e' & rest & od2 & err & -> & Hw & He & ->).
        exists (e :: don), e', rest, od2, err. split; [done|]. split; [by exists od1|done].
    + intros [= <- <-]. by exists [], e, es, od, err.
Qed.

(** [apply_strict] succeeds exactly when every write is accepted, and then does
    what [apply] does; it fails at the first refused entry, all writes before
    it done. *)
Lemma apply_strict_spec d od od' r :
  apply_strict d od = (od', r) →
  match r with
  | Ok n => n = len (entries d) ∧ writes_ok (entries d) od od' ∧ apply d od = (od', n)
  | Err f => ∃ done e rest od1 err,
      entries d = done ++ e :: rest ∧ writes_ok done od od1 ∧
      od_write od1 (index e) (subindex e) (data e) = (od', Err err) ∧
      f = OdFailure (index e) (subindex e) err
  end.
Proof. apply apply_strict_loop_spec. Qed.
End apply_spec.
