(* ===== verification/Eds.v ===== *)
(** * Object dictionary definitions

    What the procedural macros of [canopen-derive] work on: the data types and
    checks of dsl.rs, and the resolution of PDO mappings in codegen.rs.  An
    identifier is the list of its bytes; [Expr] is [syn::Expr], which only the
    defaults hold.  Error messages are replaced by what they are formatted
    from. *)
From S2P Require Import Prelude Text.

(** ** dsl.rs *)

Definition PDO_MAX_PAYLOAD_BITS : Z := 64.
Definition PDO_MAX_MAPPINGS : Z := 64.

Inductive AccessKind := AccRo | AccRw | AccWo | AccConst.

#[export] Instance AccessKind_eq_dec : EqDecision AccessKind.
Proof. solve_decision. Defined.

Inductive MappingKind := Immutable | Mutable.

#[export] Instance MappingKind_eq_dec : EqDecision MappingKind.
Proof. solve_decision. Defined.

Inductive CobIdSpec := Absolute (raw : Z) | NodeRelative (base : Z).

#[export] Instance CobIdSpec_eq_dec : EqDecision CobIdSpec.
Proof. solve_decision. Defined.

Inductive PdoDirection := DirTpdo | DirRpdo.

#[export] Instance PdoDirection_eq_dec : EqDecision PdoDirection.
Proof. solve_decision. Defined.

Record PdoMappingDef := mkMappingDef {
  field_name : list Z;
  map_bit_length : option Z;
  raw_mapping : option Z;
}.

Record PdoDef := mkPdoDef {
  pd_direction : PdoDirection;
  pd_number : Z;
  pd_cob_id : option CobIdSpec;
  pd_transmission_type : Z;
  pd_inhibit_time : Z;
  pd_event_timer : Z;
  pd_mapping : MappingKind;
  pd_mappings : list PdoMappingDef;
}.

Record SdoServerDef := mkSdoServerDef { sd_number : Z; sd_cob_rx : CobIdSpec; sd_cob_tx : CobIdSpec }.

Definition is_variable_length_type (ty : list Z) : bool :=
  bool_decide (ty = str "visible_string") || bool_decide (ty = str "octet_string") || bool_decide (ty = str "domain").

Definition type_size (ty : list Z) : option Z :=
  if bool_decide (ty ∈ [str "bool"; str "u8"; str "i8"]) then Some 1
  else if bool_decide (ty ∈ [str "u16"; str "i16"]) then Some 2
  else if bool_decide (ty ∈ [str "i24"; str "u24"]) then Some 3
  else if bool_decide (ty ∈ [str "u32"; str "i32"; str "f32"]) then Some 4
  else if bool_decide (ty ∈ [str "u64"; str "i64"; str "f64"]) then Some 8
  else None.

Section definitions.
Context {Expr : Type}.

Record VarDef := mkVarDef {
  type_name : list Z;
  vd_capacity : option Z;
  vd_default : option Expr;
  vd_access : AccessKind;
  pdo_mappable : bool;
}.

Record SubEntry := mkSubEntry { sub_subindex : Z; sub_name : list Z; sub_var : VarDef }.

Record ArrayDef := mkArrayDef {
  element_type : list Z;
  element_capacity : option Z;
  arr_count : Z;
  arr_access : AccessKind;
  arr_pdo_mappable : bool;
}.

Inductive EntryKind :=
| EntryVar (var : VarDef)
| EntryRecord (subs : list SubEntry)
| EntryArray (arr : ArrayDef).

Record OdEntry := mkOdEntry { oe_index : Z; oe_name : list Z; oe_kind : EntryKind }.

(** [OdDefinition] without its visibility and export path. *)
Record OdDefinition := mkOdDefinition {
  od_name : list Z;
  od_entries : list OdEntry;
  od_pdos : list PdoDef;
  od_sdo_servers : list SdoServerDef;
  use_alloc : bool;
  validate_write_fn : option (list Z);
}.

(** [find_var_access] *)
Definition access_of (field : list Z) (entry : OdEntry) : option AccessKind :=
  match oe_kind entry with
  | EntryVar var => if bool_decide (oe_name entry = field) then Some (vd_access var) else None
  | EntryRecord subs =>
      (λ sub, vd_access (sub_var sub)) <$> List.find (λ sub, bool_decide (sub_name sub = field)) subs
  | EntryArray _ => None
  end.

Fixpoint find_var_access (entries : list OdEntry) (field : list Z) : option AccessKind :=
  match entries with
  | [] => None
  | entry :: entries =>
      match access_of field entry with Some a => Some a | None => find_var_access entries field end
  end.

(** The errors of [validate]. *)
Inductive OdInvalid :=
| IndexDeclaredTwice (index : Z)
| Sub0Declared (index : Z)
| SubDeclaredTwice (index subindex : Z)
| IndexGenerated (index : Z)
| RtrTransmission (direction : PdoDirection) (number : Z)
| WrongAccess (direction : PdoDirection) (number : Z) (field : list Z).

Fixpoint check_subs (index : Z) (seen : list Z) (subs : list SubEntry) : result unit OdInvalid :=
  match subs with
  | [] => Ok tt
  | sub :: subs =>
      if sub_subindex sub =? 0 then Err (Sub0Declared index)
      else if bool_decide (sub_subindex sub ∈ seen) then Err (SubDeclaredTwice index (sub_subindex sub))
      else check_subs index (sub_subindex sub :: seen) subs
  end.

Fixpoint check_owners (owners : list Z) (entries : list OdEntry) : result (list Z) OdInvalid :=
  match entries with
  | [] => Ok owners
  | entry :: entries =>
      if bool_decide (oe_index entry ∈ owners) then Err (IndexDeclaredTwice (oe_index entry))
      else
        match (match oe_kind entry with EntryRecord subs => check_subs (oe_index entry) [] subs | _ => Ok tt end) with
        | Err e => Err e
        | Ok _ => check_owners (oe_index entry :: owners) entries
        end
  end.

(** The communication and mapping index of a PDO. *)
Definition pdo_base (direction : PdoDirection) : Z * Z :=
  match direction with DirTpdo => (0x1800, 0x1A00) | DirRpdo => (0x1400, 0x1600) end.

Definition comm_index (pdo : PdoDef) : Z := fst (pdo_base (pd_direction pdo)) + (pd_number pdo - 1).
Definition map_index (pdo : PdoDef) : Z := snd (pdo_base (pd_direction pdo)) + (pd_number pdo - 1).

Definition generated_indices (od : OdDefinition) : list Z :=
  [0x1021; 0x1022] ++ flat_map (λ pdo, [comm_index pdo; map_index pdo]) (od_pdos od)
  ++ map (λ s, 0x1200 + sd_number s - 1) (od_sdo_servers od).

Definition mapping_access_bad (entries : list OdEntry) (direction : PdoDirection) (m : PdoMappingDef) : bool :=
  match raw_mapping m, find_var_access entries (field_name m) with
  | None, Some access =>
      match direction with
      | DirRpdo => bool_decide (access = AccRo) || bool_decide (access = AccConst)
      | DirTpdo => bool_decide (access = AccWo)
      end
  | _, _ => false
  end.

Fixpoint check_access (entries : list OdEntry) (pdos : list PdoDef) : result unit OdInvalid :=
  match pdos with
  | [] => Ok tt
  | pdo :: pdos =>
      match List.find (mapping_access_bad entries (pd_direction pdo)) (pd_mappings pdo) with
      | Some m => Err (WrongAccess (pd_direction pdo) (pd_number pdo) (field_name m))
      | None => check_access entries pdos
      end
  end.

Definition validate (od : OdDefinition) : result unit OdInvalid :=
  match check_owners [] (od_entries od) with
  | Err e => Err e
  | Ok owners =>
      match List.find (λ i, bool_decide (i ∈ owners)) (generated_indices od) with
      | Some index => Err (IndexGenerated index)
      | None =>
          match List.find (λ pdo, in_range 252 253 (pd_transmission_type pdo)) (od_pdos od) with
          | Some pdo => Err (RtrTransmission (pd_direction pdo) (pd_number pdo))
          | None => check_access (od_entries od) (od_pdos od)
          end
      end
  end.

(** ** codegen.rs: flat entries and mappings *)

Record FlatEntry := mkFlatEntry { fl_index : Z; fl_subindex : Z; fl_name : list Z; fl_var : VarDef }.

Definition flatten_entry (entry : OdEntry) : list FlatEntry :=
  match oe_kind entry with
  | EntryVar var => [mkFlatEntry (oe_index entry) 0 (oe_name entry) var]
  | EntryRecord subs => map (λ sub, mkFlatEntry (oe_index entry) (sub_subindex sub) (sub_name sub) (sub_var sub)) subs
  | EntryArray _ => []
  end.

Definition flatten (entries : list OdEntry) : list FlatEntry := flat_map flatten_entry entries.

Record ResolvedMapping := mkResolved { rm_index : Z; rm_subindex : Z; rm_bit_length : Z }.

(** [raw()] *)
Definition raw (m : ResolvedMapping) : Z :=
  Z.lor (Z.lor (Z.shiftl (rm_index m) 16) (Z.shiftl (rm_subindex m) 8)) (rm_bit_length m).

Definition resolve_mapping_def (flat : list FlatEntry) (m : PdoMappingDef) : exec ResolvedMapping :=
  match raw_mapping m with
  | Some r => mret (mkResolved (as_u16 (Z.shiftr r 16)) (as_u8 (Z.land (Z.shiftr r 8) 0xFF)) (as_u8 r))
  | None =>
      entry ← unwrap (List.find (λ e, bool_decide (fl_name e = field_name m)) flat);
      assert_ (pdo_mappable (fl_var entry));;
      let ty := type_name (fl_var entry) in
      assert_ (negb (is_variable_length_type ty));;
      bit_length ← (match map_bit_length m with
                    | Some b => mret b
                    | None =>
                        if bool_decide (ty = str "bool") then mret 1
                        else size ← unwrap (type_size ty); checked 8 (as_u8 size * 8)
                    end);
      mret (mkResolved (fl_index entry) (fl_subindex entry) bit_length)
  end.

Fixpoint resolve_all (flat : list FlatEntry) (ms : list PdoMappingDef) : exec (list ResolvedMapping) :=
  match ms with
  | [] => mret []
  | m :: ms => r ← resolve_mapping_def flat m; rs ← resolve_all flat ms; mret (r :: rs)
  end.

Definition total_bits (rs : list ResolvedMapping) : Z := foldr (λ m n, rm_bit_length m + n) 0 rs.

Definition resolve_pdo_mappings (pdo : PdoDef) (flat : list FlatEntry) : exec (list ResolvedMapping) :=
  resolved ← resolve_all flat (pd_mappings pdo);
  assert_ (total_bits resolved <=? PDO_MAX_PAYLOAD_BITS);;
  mret resolved.
End definitions.
Arguments VarDef Expr : clear implicits.
Arguments SubEntry Expr : clear implicits.
Arguments EntryKind Expr : clear implicits.
Arguments OdEntry Expr : clear implicits.
Arguments OdDefinition Expr : clear implicits.
Arguments FlatEntry Expr : clear implicits.
