(* ===== verification/EdsParser.v ===== *)
(** * Importing EDS files

    [canopen-derive/src/eds_parser.rs]: from the text of an EDS file to the
    object dictionary entries and PDO definitions the code generators use.
    The INI functions are the same code as in dcf.rs.  [syn] is a parameter:
    [parse_expr] is [syn::parse_str::<Expr>], [expr_text] the tokens of an
    expression as text.  So is the order in which a [HashMap] is iterated,
    which the standard library leaves open.  Letters and digits are those of
    ASCII. *)
From S2P Require Import Prelude Text Dcf Eds.

(** What the error message is formatted from. *)
Inductive EdsError :=
| DuplicateSection (index : Z) (subindex : option Z) (previous section : list Z)
| InvalidDataType (raw section : list Z)
| UnknownAccess (access : list Z) (index subindex : Z) (name : list Z)
| InvalidDefault (value rust_type : list Z) (index subindex : Z) (name : list Z)
| InvalidExpression (text : list Z)
| InvalidPdoCobId (raw : list Z) (index : Z)
| InvalidPdoValue (raw : list Z) (index subindex : Z)
| PdoValueTooWide (raw : list Z) (index subindex width : Z)
| MappingCountTooLarge (count index : Z)
| ReservedTransmission (value index : Z)
| RpdoRtrTransmission (value index : Z).

Abbreviation section := (list Z * props)%type.

(** ** Text *)

Definition parse_sections (content : list Z) : list section := parse_ini_sections content.
Definition get_prop (ps : props) (key : list Z) : option (list Z) := Dcf.get_prop ps key.
Definition parse_int (s : list Z) : option Z := parse_int_val s.
Definition parse_section_index (s : list Z) : option (Z * option Z) := Dcf.parse_section_index s.
Definition is_pdo_index (index : Z) : bool := Dcf.is_pdo_index index.

Definition is_digit (c : Z) : bool := in_range 48 57 c.
Definition is_alphanumeric (c : Z) : bool := is_digit c || in_range 65 90 c || in_range 97 122 c.

Definition sanitize_name (name : list Z) : list Z :=
  let s := (λ c, if is_alphanumeric c then to_ascii_lowercase c else 95) <$> name in
  match s with
  | c :: _ => if is_digit c then 95 :: s else s
  | [] => str "_unnamed"
  end.

Definition datatype_to_rust (code : Z) : option (list Z * Z) :=
  if code =? 0x0001 then Some (str "bool", 1)
  else if code =? 0x0002 then Some (str "i8", 1)
  else if code =? 0x0003 then Some (str "i16", 2)
  else if code =? 0x0004 then Some (str "i32", 4)
  else if code =? 0x0005 then Some (str "u8", 1)
  else if code =? 0x0006 then Some (str "u16", 2)
  else if code =? 0x0007 then Some (str "u32", 4)
  else if code =? 0x0008 then Some (str "f32", 4)
  else if code =? 0x0010 then Some (str "i24", 3)
  else if code =? 0x0016 then Some (str "u24", 3)
  else if code =? 0x0009 then Some (str "visible_string", 0)
  else if code =? 0x000A then Some (str "octet_string", 0)
  else if code =? 0x000F then Some (str "domain", 0)
  else if code =? 0x0011 then Some (str "f64", 8)
  else if code =? 0x0015 then Some (str "i64", 8)
  else if code =? 0x001B then Some (str "u64", 8)
  else None.

(** Decimal digits of a number, for [to_string]. *)
Fixpoint decimal_loop (fuel : nat) (n : Z) (acc : list Z) : list Z :=
  match fuel with
  | O => acc
  | S fuel => let acc := (48 + n mod 10) :: acc in if n <? 10 then acc else decimal_loop fuel (n / 10) acc
  end.

Definition decimal (n : Z) : list Z := decimal_loop (Z.to_nat (Z.log2 n + 1)) n [].
Definition signed_decimal (n : Z) : list Z := if n <? 0 then minus :: decimal (- n) else decimal n.

(** The integer types: their bits and whether they are signed. *)
Definition int_type (data_type : Z) : option (Z * bool) :=
  if data_type =? 0x0002 then Some (8, true)
  else if data_type =? 0x0003 then Some (16, true)
  else if data_type =? 0x0010 then Some (24, true)
  else if data_type =? 0x0004 then Some (32, true)
  else if data_type =? 0x0015 then Some (64, true)
  else if data_type =? 0x0005 then Some (8, false)
  else if data_type =? 0x0006 then Some (16, false)
  else if data_type =? 0x0016 then Some (24, false)
  else if data_type =? 0x0007 then Some (32, false)
  else if data_type =? 0x001B then Some (64, false)
  else None.

(** The value of an integer default, which must be in the range of its type. *)
Definition default_integer (v : list Z) (bits : Z) (signed : bool) : option Z :=
  value ← (match strip_hex v with
           | Some hex =>
               raw ← from_str_radix 64 16 hex;
               if (bits <? 64) && negb (Z.shiftr raw bits =? 0) then None
               else if signed && (Z.land (Z.shiftr raw (bits - 1)) 1 =? 1) then Some (raw - Z.shiftl 1 bits)
               else Some raw
           | None => parse_signed 128 v
           end);
  let '(min, max) :=
    if signed then (- Z.shiftl 1 (bits - 1), Z.shiftl 1 (bits - 1) - 1) else (0, Z.shiftl 1 bits - 1) in
  if in_range min max value then Some value else None.

Definition normalize_default (value : list Z) (data_type : Z) : option (list Z) :=
  let v := trim value in
  if (len v =? 0) || contains (str "$NODEID") (map (λ c, if in_range 97 122 c then c - 32 else c) v) then
    Some (if data_type =? 0x0008 then str "0.0f32" else if data_type =? 0x0011 then str "0.0f64"
          else if data_type =? 0x0001 then str "false" else str "0")
  else if data_type =? 0x0001 then
    let l := to_lowercase v in
    if bool_decide (l = str "0") || bool_decide (l = str "false") then Some (str "false")
    else if bool_decide (l = str "1") || bool_decide (l = str "true") then Some (str "true")
    else None
  else if data_type =? 0x0008 then
    match strip_hex v with
    | Some hex => _ ← from_str_radix 32 16 hex; Some (str "f32::from_bits(0x" ++ hex ++ str ")")
    | None => _ ← parse_float f32 v; Some (v ++ str "f32")
    end
  else if data_type =? 0x0011 then
    match strip_hex v with
    | Some hex => _ ← from_str_radix 64 16 hex; Some (str "f64::from_bits(0x" ++ hex ++ str ")")
    | None => _ ← parse_float f64 v; Some (v ++ str "f64")
    end
  else
    match int_type data_type with
    | None => Some v
    | Some (bits, signed) => signed_decimal <$> default_integer v bits signed
    end.

(** ** PDO parameters *)

Definition default_value (ps : option props) : option (list Z) := ps ← ps; get_prop ps (str "DefaultValue").

Definition parse_pdo_cob_id (value : list Z) : option CobIdSpec :=
  let v := trim value in
  if eq_ignore_ascii_case v (str "$NODEID") then Some (NodeRelative 0)
  else
    match split_once (str "+") v with
    | Some (lhs, rhs) =>
        let lhs := trim lhs in
        let rhs := trim rhs in
        base ← (if eq_ignore_ascii_case lhs (str "$NODEID") then Some rhs
                else if eq_ignore_ascii_case rhs (str "$NODEID") then Some lhs
                else None);
        n ← parse_int base;
        NodeRelative <$> try_from 32 n
    | None => n ← parse_int v; Absolute <$> try_from 32 n
    end.

Definition parse_pdo_cob_id_default (ps : option props) (index : Z) : result (option CobIdSpec) EdsError :=
  match default_value ps with
  | None => Ok None
  | Some raw =>
      if len (trim raw) =? 0 then Ok None
      else match parse_pdo_cob_id raw with
           | Some spec => Ok (Some spec)
           | None => Err (InvalidPdoCobId raw index)
           end
  end.

(** [parse_pdo_default::<uN>] with [N = width]. *)
Definition parse_pdo_default (width : Z) (ps : option props) (default index subindex : Z) : result Z EdsError :=
  match default_value ps with
  | None => Ok default
  | Some raw =>
      if len (trim raw) =? 0 then Ok default
      else match parse_int raw with
           | None => Err (InvalidPdoValue raw index subindex)
           | Some value =>
               match try_from width value with
               | Some v => Ok v
               | None => Err (PdoValueTooWide raw index subindex width)
               end
           end
  end.

Definition parse_pdo_mapping_count (ps : option props) (index : Z) : result Z EdsError :=
  match parse_pdo_default 8 ps 0 index 0 with
  | Err e => Err e
  | Ok count => if PDO_MAX_MAPPINGS <? count then Err (MappingCountTooLarge count index) else Ok count
  end.

Definition validate_pdo_transmission_type (value : Z) (direction : PdoDirection) (index : Z) : result unit EdsError :=
  if in_range 241 251 value then Err (ReservedTransmission value index)
  else if bool_decide (direction = DirRpdo) && in_range 252 253 value then Err (RpdoRtrTransmission value index)
  else Ok tt.

Definition mapping_kind_from_access (access : option (list Z)) : MappingKind :=
  match to_lowercase <$> access with
  | Some a => if bool_decide (a = str "ro") || bool_decide (a = str "const") then Immutable else Mutable
  | None => Mutable
  end.

(** ** Hexadecimal section keys *)

Definition hex_digit (d : Z) : Z := if d <? 10 then 48 + d else 55 + d.

(** [{:X}] *)
Fixpoint hex_loop (fuel : nat) (n : Z) (acc : list Z) : list Z :=
  match fuel with
  | O => acc
  | S fuel => let acc := hex_digit (n mod 16) :: acc in if n <? 16 then acc else hex_loop fuel (n / 16) acc
  end.

Definition hex (n : Z) : list Z := hex_loop (Z.to_nat (Z.log2 n + 1)) n [].

(** [{:0wX}] *)
Definition hex_padded (w : nat) (n : Z) : list Z := let h := hex n in replicate (w - length h) 48 ++ h.

Definition index_key (index : Z) : list Z := hex_padded 4 index.
Definition sub_key (index subindex : Z) : list Z := hex_padded 4 index ++ str "sub" ++ hex subindex.

Example hex_keys : sub_key 0x1A00 26 = str "1A00sub1A" ∧ index_key 0x2F = str "002F" ∧ hex 0 = str "0" ∧
  signed_decimal (-120) = str "-120" ∧ decimal 0 = str "0".
Proof. by vm_compute. Qed.

(** ** Sections *)

(** [validate_unique_object_sections] *)
Fixpoint validate_unique (seen : list (Z * option Z * list Z)) (sections : list section) : result unit EdsError :=
  match sections with
  | [] => Ok tt
  | (name, _) :: sections =>
      match parse_section_index name with
      | None => validate_unique seen sections
      | Some address =>
          match List.find (λ s, bool_decide (fst s = address)) seen with
          | Some (_, previous) => Err (DuplicateSection (fst address) (snd address) previous name)
          | None => validate_unique ((address, name) :: seen) sections
          end
      end
  end.

(** The check of every object's [DataType]. *)
Fixpoint check_data_types (sections : list section) : result unit EdsError :=
  match sections with
  | [] => Ok tt
  | (name, ps) :: sections =>
      match parse_section_index name, get_prop ps (str "DataType") with
      | Some _, Some raw =>
          if negb (len (trim raw) =? 0) && bool_decide ((n ← parse_int raw; try_from 16 n) = None)
          then Err (InvalidDataType raw name) else check_data_types sections
      | _, _ => check_data_types sections
      end
  end.

(** [sort_by_key], which is stable. *)
Fixpoint insert_by {A} (key : A → Z) (x : A) (l : list A) : list A :=
  match l with
  | [] => [x]
  | y :: l => if key x <=? key y then x :: y :: l else y :: insert_by key x l
  end.

Definition sort_by_key {A} (key : A → Z) (l : list A) : list A := foldr (insert_by key) [] l.

Section parser.
Context {Expr : Type} (parse_expr : list Z → option Expr) (expr_text : Expr → list Z).
Context (capacity_overrides : list (Z * Z)).

(** [parse_var_entry]: [Ok None] skips the section. *)
Definition parse_var_entry (index subindex : Z) (ps : props) : result (option (SubEntry Expr)) EdsError :=
  match get_prop ps (str "ParameterName") with
  | None => Ok None
  | Some name_str =>
      match (v ← get_prop ps (str "DataType"); n ← parse_int v; try_from 16 n) with
      | None => Ok None
      | Some data_type_code =>
          let access_str := default (str "ro") (get_prop ps (str "AccessType")) in
          let default_str := default (str "0") (get_prop ps (str "DefaultValue")) in
          let pdo_mapping := negb (default 0 (v ← get_prop ps (str "PDOMapping"); parse_int v) =? 0) in
          match datatype_to_rust data_type_code with
          | None => Ok None
          | Some (rust_type, _) =>
              let is_varlen := is_variable_length_type rust_type in
              let a := to_lowercase (trim access_str) in
              match (if bool_decide (a = str "ro") then Some AccRo
                     else if bool_decide (a = str "const") then Some AccConst
                     else if bool_decide (a = str "rw") || bool_decide (a = str "rwr") || bool_decide (a = str "rww")
                     then Some AccRw
                     else if bool_decide (a = str "wo") then Some AccWo
                     else None) with
              | None => Err (UnknownAccess a index subindex name_str)
              | Some access =>
                  let capacity :=
                    if is_varlen then
                      Some (default (if bool_decide (rust_type = str "visible_string") then 64
                                     else if bool_decide (rust_type = str "octet_string") then 256
                                     else if bool_decide (rust_type = str "domain") then 512 else 256)
                              (map_get capacity_overrides index))
                    else None in
                  let entry d :=
                    Ok (Some (mkSubEntry subindex (sanitize_name name_str)
                                (mkVarDef rust_type capacity d access pdo_mapping))) in
                  if is_varlen then
                    entry (if bool_decide (rust_type = str "visible_string") then
                             let stripped := trim_matches quote (trim default_str) in
                             if negb (len stripped =? 0) then parse_expr ([quote] ++ stripped ++ [quote]) else None
                           else None)
                  else
                    match normalize_default default_str data_type_code with
                    | None => Err (InvalidDefault (trim default_str) rust_type index subindex name_str)
                    | Some normalized =>
                        match parse_expr normalized with
                        | None => Err (InvalidExpression normalized)
                        | Some e => entry (Some e)
                        end
                    end
              end
          end
      end
  end.

(** ** The passes over the sections *)

Record FirstPass := mkFirstPass {
  fp_entries : list (OdEntry Expr);
  record_subs : list (Z * list (Z * props));
  obj_types : list (Z * Z);
}.

Definition first_pass_step (p : FirstPass) (s : section) : result FirstPass EdsError :=
  let '(name, ps) := s in
  match parse_section_index name with
  | None => Ok p
  | Some (index, subindex) =>
      if is_pdo_index index || (index =? 0x1021) || (index =? 0x1022) then Ok p
      else
        match subindex with
        | Some sub => Ok (mkFirstPass (fp_entries p) (map_push (record_subs p) index (sub, ps)) (obj_types p))
        | None =>
            let obj_type := default 0x07 (v ← get_prop ps (str "ObjectType"); parse_int v) in
            let types := map_insert (obj_types p) index obj_type in
            if obj_type =? 0x07 then
              match parse_var_entry index 0 ps with
              | Err e => Err e
              | Ok None => Ok (mkFirstPass (fp_entries p) (record_subs p) types)
              | Ok (Some entry) =>
                  Ok (mkFirstPass (fp_entries p ++ [mkOdEntry index (sub_name entry) (EntryVar (sub_var entry))])
                        (record_subs p) types)
              end
            else Ok (mkFirstPass (fp_entries p) (record_subs p) types)
        end
  end.

Fixpoint first_pass (p : FirstPass) (sections : list section) : result FirstPass EdsError :=
  match sections with
  | [] => Ok p
  | s :: sections => match first_pass_step p s with Ok p => first_pass p sections | Err e => Err e end
  end.

(** The sub-entries of one record. *)
Fixpoint parse_subs (index : Z) (subs : list (Z * props)) : result (list (SubEntry Expr)) EdsError :=
  match subs with
  | [] => Ok []
  | (subindex, ps) :: subs =>
      if subindex =? 0 then parse_subs index subs
      else
        match parse_var_entry index subindex ps with
        | Err e => Err e
        | Ok o => match parse_subs index subs with Ok l => Ok (option_list o ++ l) | Err e => Err e end
        end
  end.

(** The name in the object's own section. *)
Definition main_name (sections : list section) (index : Z) : list Z :=
  match (s ← List.find (λ s, bool_decide (parse_section_index (fst s) = Some (index, None))) sections;
         get_prop (snd s) (str "ParameterName")) with
  | Some n => n
  | None => str "obj_" ++ map to_ascii_lowercase (hex_padded 4 index)
  end.

Definition zero_default (e : SubEntry Expr) : bool :=
  match vd_default (sub_var e) with
  | None => true
  | Some expr =>
      bool_decide (expr_text expr ∈ [str "0"; str "0x00"; str "0i32"; str "0u32"; str "0.0f32"; str "0.0f64"; str "false"])
  end.

(** One iteration of the second pass: the entry of a record or array. *)
Definition assemble (sections : list section) (types : list (Z * Z)) (index : Z) (subs : list (Z * props))
    : result (option (OdEntry Expr)) EdsError :=
  match parse_subs index subs with
  | Err e => Err e
  | Ok [] => Ok None
  | Ok sub_entries =>
      let sub_entries := sort_by_key sub_subindex sub_entries in
      let prefix := sanitize_name (main_name sections index) in
      let sub_entries :=
        map (λ s, mkSubEntry (sub_subindex s) (prefix ++ str "_" ++ sub_name s) (sub_var s)) sub_entries in
      let obj_type := default 0x09 (map_get types index) in
      let elements := List.filter (λ s, 0 <? sub_subindex s) sub_entries in
      let record := Ok (Some (mkOdEntry index prefix (EntryRecord sub_entries))) in
      if (obj_type =? 0x08) && (4 <=? len elements) && forallb zero_default elements then
        match elements with
        | first :: _ =>
            Ok (Some (mkOdEntry index prefix
              (EntryArray (mkArrayDef (type_name (sub_var first)) (vd_capacity (sub_var first)) (len elements)
                 (vd_access (sub_var first)) (pdo_mappable (sub_var first))))))
        | [] => Ok None
        end
      else record
  end.

Fixpoint second_pass (sections : list section) (types : list (Z * Z)) (subs : list (Z * list (Z * props)))
    : result (list (OdEntry Expr)) EdsError :=
  match subs with
  | [] => Ok []
  | (index, ss) :: subs =>
      match assemble sections types index ss with
      | Err e => Err e
      | Ok o => match second_pass sections types subs with Ok l => Ok (option_list o ++ l) | Err e => Err e end
      end
  end.

(** ** PDO definitions *)

Definition get_section_props (sections : list section) (key : list Z) : option props := find_section sections key.

Definition mark_mappable (var : VarDef Expr) : VarDef Expr :=
  mkVarDef (type_name var) (vd_capacity var) (vd_default var) (vd_access var) true.

(** The inner loop of [resolve_mapping] over the sub-entries of a record. *)
Fixpoint resolve_sub (subs : list (SubEntry Expr)) (sub : Z) : option (list (SubEntry Expr) * list Z) :=
  match subs with
  | [] => None
  | s :: subs =>
      if sub_subindex s =? sub then
        Some (mkSubEntry (sub_subindex s) (sub_name s) (mark_mappable (sub_var s)) :: subs, sub_name s)
      else '(subs, n) ← resolve_sub subs sub; Some (s :: subs, n)
  end.

(** One entry of the loop: the marked entry and the field's name. *)
Definition resolve_entry (entry : OdEntry Expr) (index sub : Z) : option (OdEntry Expr * list Z) :=
  if oe_index entry =? index then
    match oe_kind entry with
    | EntryVar var =>
        if sub =? 0 then Some (mkOdEntry (oe_index entry) (oe_name entry) (EntryVar (mark_mappable var)), oe_name entry)
        else None
    | EntryRecord subs =>
        '(subs, n) ← resolve_sub subs sub; Some (mkOdEntry (oe_index entry) (oe_name entry) (EntryRecord subs), n)
    | EntryArray _ => None
    end
  else None.

Fixpoint resolve_in (entries : list (OdEntry Expr)) (index sub : Z) : list (OdEntry Expr) * option (list Z) :=
  match entries with
  | [] => ([], None)
  | entry :: entries =>
      match resolve_entry entry index sub with
      | Some (entry, n) => (entry :: entries, Some n)
      | None => let '(entries, n) := resolve_in entries index sub in (entry :: entries, n)
      end
  end.

Definition resolve_mapping (val : Z) (entries : list (OdEntry Expr)) : list (OdEntry Expr) * option PdoMappingDef :=
  let mapped_index := as_u16 (Z.shiftr val 16) in
  let mapped_sub := as_u8 (Z.land (Z.shiftr val 8) 0xFF) in
  let bit_length := as_u8 val in
  if in_range 0x0001 0x0007 mapped_index then
    (entries, Some (mkMappingDef (str "__dummy_mapping") (Some bit_length) (Some val)))
  else
    let '(entries, n) := resolve_in entries mapped_index mapped_sub in
    (entries, (λ n, mkMappingDef n (Some bit_length) None) <$> n).

(** The loop over the mapping entries [sub .. sub + n - 1]. *)
Fixpoint read_mappings (n : nat) (sub : Z) (sections : list section) (map_idx : Z) (entries : list (OdEntry Expr))
    : result (list (OdEntry Expr) * list PdoMappingDef) EdsError :=
  match n with
  | O => Ok (entries, [])
  | S n =>
      match parse_pdo_default 32 (get_section_props sections (sub_key map_idx sub)) 0 map_idx sub with
      | Err e => Err e
      | Ok val =>
          let '(entries, m) := if negb (val =? 0) then resolve_mapping val entries else (entries, None) in
          match read_mappings n (sub + 1) sections map_idx entries with
          | Err e => Err e
          | Ok (entries, ms) => Ok (entries, option_list m ++ ms)
          end
      end
  end.

(** The body of the loop for PDO [n + 1]: [None] when it has no communication
    section.  Only TPDOs have an inhibit time. *)
Definition extract_pdo (sections : list section) (direction : PdoDirection) (n : Z) (entries : list (OdEntry Expr))
    : result (list (OdEntry Expr) * option PdoDef) EdsError :=
  let comm_idx := fst (pdo_base direction) + n in
  let map_idx := snd (pdo_base direction) + n in
  let sub s := get_section_props sections (sub_key comm_idx s) in
  match get_section_props sections (index_key comm_idx) with
  | None => Ok (entries, None)
  | Some _ =>
      match parse_pdo_cob_id_default (sub 1) comm_idx with
      | Err e => Err e
      | Ok cob_id =>
      match parse_pdo_default 8 (sub 2) 255 comm_idx 2 with
      | Err e => Err e
      | Ok transmission_type =>
      match validate_pdo_transmission_type transmission_type direction comm_idx with
      | Err e => Err e
      | Ok _ =>
      match (match direction with
             | DirTpdo => parse_pdo_default 16 (sub 3) 0 comm_idx 3
             | DirRpdo => Ok 0
             end) with
      | Err e => Err e
      | Ok inhibit_time =>
      match parse_pdo_default 16 (sub 5) 0 comm_idx 5 with
      | Err e => Err e
      | Ok event_timer =>
      let sub0 := get_section_props sections (sub_key map_idx 0) in
      match parse_pdo_mapping_count sub0 map_idx with
      | Err e => Err e
      | Ok map_count =>
      let mapping := mapping_kind_from_access (ps ← sub0; get_prop ps (str "AccessType")) in
      match read_mappings (Z.to_nat map_count) 1 sections map_idx entries with
      | Err e => Err e
      | Ok (entries, mappings) =>
          Ok (entries, Some (mkPdoDef direction (n + 1) cob_id transmission_type inhibit_time event_timer mapping
                               mappings))
      end end end end end end end
  end.

(** The loop over the PDO numbers from [n] on. *)
Fixpoint extract_loop (count : nat) (n : Z) (sections : list section) (direction : PdoDirection)
    (entries : list (OdEntry Expr)) : result (list (OdEntry Expr) * list PdoDef) EdsError :=
  match count with
  | O => Ok (entries, [])
  | S count =>
      match extract_pdo sections direction n entries with
      | Err e => Err e
      | Ok (entries, o) =>
          match extract_loop count (n + 1) sections direction entries with
          | Err e => Err e
          | Ok (entries, pdos) => Ok (entries, option_list o ++ pdos)
          end
      end
  end.

Definition extract_pdos (sections : list section) (entries : list (OdEntry Expr))
    : result (list (OdEntry Expr) * list PdoDef) EdsError :=
  match extract_loop 512 0 sections DirTpdo entries with
  | Err e => Err e
  | Ok (entries, tpdos) =>
      match extract_loop 512 0 sections DirRpdo entries with
      | Err e => Err e
      | Ok (entries, rpdos) => Ok (entries, tpdos ++ rpdos)
      end
  end.

(** ** The import *)

Section import.
Context (iterate : list (Z * list (Z * props)) → list (Z * list (Z * props))).

Definition parse_sections_to_od (sections : list section)
    : result (list (OdEntry Expr) * list PdoDef) EdsError :=
  match validate_unique [] sections with
  | Err e => Err e
  | Ok _ =>
      match check_data_types sections with
      | Err e => Err e
      | Ok _ =>
          match first_pass (mkFirstPass [] [] []) sections with
          | Err e => Err e
          | Ok p =>
              match second_pass sections (obj_types p) (iterate (record_subs p)) with
              | Err e => Err e
              | Ok records => extract_pdos sections (sort_by_key oe_index (fp_entries p ++ records))
              end
          end
      end
  end.

(** [parse_eds_content_with_overrides] *)
Definition parse_eds_content (content : list Z) : result (list (OdEntry Expr) * list PdoDef) EdsError :=
  parse_sections_to_od (parse_sections content).

(** [parse_eds_source_to_od]: no additional SDO servers. *)
Definition parse_eds_source_to_od (name content : list Z) : result (OdDefinition Expr) EdsError :=
  match parse_eds_content content with
  | Err e => Err e
  | Ok (entries, pdos) => Ok (mkOdDefinition name entries pdos [] false None)
  end.
End import.
End parser.
