(* ===== verification/EdsSpec.v ===== *)
(** * What an EDS import guarantees

    Facts on the stable sort of the entries, the independence of the iteration
    order of the hash map, and the well-formedness of whatever is accepted. *)
From Stdlib Require Import Sorted.
From S2P Require Import Prelude Text Dcf Eds EdsParser.

(** ** The stable sort *)

Section sort.
Context {A : Type} (key : A → Z).

Definition with_key (k : Z) (l : list A) : list A := List.filter (λ x, key x =? k) l.
Definition ordered (l : list A) : Prop := StronglySorted (λ x y, key x ≤ key y) l.

Lemma insert_by_perm x l : insert_by key x l ≡ₚ x :: l.
Proof.
  induction l as [|y l IH]; cbn [insert_by]; [done|]. destruct (key x <=? key y); [done|].
  rewrite IH. apply Permutation_swap.
Qed.

Lemma sort_by_key_perm l : sort_by_key key l ≡ₚ l.
Proof. unfold sort_by_key. induction l as [|x l IH]; cbn [foldr]; [done|]. by rewrite insert_by_perm, IH. Qed.

Lemma insert_by_ordered x l : ordered l → ordered (insert_by key x l).
Proof.
  intros Hl. induction Hl as [|y l Hl IH Hy]; cbn [insert_by].
  - apply SSorted_cons; [apply SSorted_nil|apply List.Forall_nil].
  - destruct (Z.leb_spec (key x) (key y)).
    + apply SSorted_cons; [by apply SSorted_cons|]. apply List.Forall_cons; [done|].
      eapply List.Forall_impl; [|exact Hy]. simpl. lia.
    + apply SSorted_cons; [done|]. apply List.Forall_forall. intros z Hz.
      apply (Permutation_in _ (insert_by_perm x l)) in Hz. destruct Hz as [<-|Hz]; [lia|].
      by apply (proj1 (List.Forall_forall _ _) Hy).
Qed.

Lemma sort_by_key_ordered l : ordered (sort_by_key key l).
Proof.
  unfold sort_by_key. induction l as [|x l IH]; cbn [foldr]; [apply SSorted_nil|]. by apply insert_by_ordered.
Qed.

Lemma with_key_cons k x l : with_key k (x :: l) = (if key x =? k then [x] else []) ++ with_key k l.
Proof. cbn [with_key List.filter]. by destruct (_ =? _). Qed.

Lemma with_key_app k l m : with_key k (l ++ m) = with_key k l ++ with_key k m.
Proof. apply List.filter_app. Qed.

Lemma insert_by_stable k x l : with_key k (insert_by key x l) = with_key k (x :: l).
Proof.
  induction l as [|y l IH]; cbn [insert_by]; [done|]. destruct (Z.leb_spec (key x) (key y)); [done|].
  rewrite (with_key_cons k y), IH, !with_key_cons.
  destruct (Z.eqb_spec (key x) k), (Z.eqb_spec (key y) k); done || lia.
Qed.

Lemma sort_by_key_stable k l : with_key k (sort_by_key key l) = with_key k l.
Proof.
  unfold sort_by_key. induction l as [|x l IH]; cbn [foldr]; [done|]. by rewrite insert_by_stable, !with_key_cons, IH.
Qed.

Lemma with_key_in k x l : In x (with_key k l) ↔ In x l ∧ key x = k.
Proof. unfold with_key. by rewrite List.filter_In, Z.eqb_eq. Qed.

(** An ordered list is determined by its parts of equal key. *)
Lemma ordered_unique l m : ordered l → ordered m → (∀ k, with_key k l = with_key k m) → l = m.
Proof.
  intros Hl. revert m. induction Hl as [|x l Hl IH Hx]; intros m Hm Heq.
  - destruct m as [|y m]; [done|]. specialize (Heq (key y)). rewrite with_key_cons, Z.eqb_refl in Heq. done.
  - destruct Hm as [|y m Hm Hy].
    + specialize (Heq (key x)). rewrite with_key_cons, Z.eqb_refl in Heq. done.
    + assert (key x = key y) as Hk.
      { assert (∀ z w (u v : list A), Forall (λ t, key z ≤ key t) u → with_key (key w) (w :: v) = with_key (key w) (z :: u) →
          key z ≤ key w) as Hle.
        { intros z w u v Hu Hz. assert (In w (with_key (key w) (z :: u))) as Hin.
          { rewrite <- Hz. apply with_key_in. by split; [left|]. }
          apply with_key_in in Hin as [[->|Hin] _]; [done|]. by apply (proj1 (List.Forall_forall _ _) Hu). }
        pose proof (Hle x y l m Hx (eq_sym (Heq (key y)))). pose proof (Hle y x m l Hy (Heq (key x))). lia. }
      pose proof (Heq (key x)) as Hxy. rewrite !with_key_cons, Hk, Z.eqb_refl in Hxy. injection Hxy as -> Htl.
      f_equal. apply IH; [done|]. intros k. specialize (Heq k). rewrite !with_key_cons in Heq. by apply app_inv_head in Heq.
Qed.

Lemma sort_by_key_unique l m : (∀ k, with_key k l = with_key k m) → sort_by_key key l = sort_by_key key m.
Proof.
  intros Heq. apply ordered_unique; [apply sort_by_key_ordered..|]. intros k. by rewrite !sort_by_key_stable.
Qed.

(** Where keys are distinct, a permutation has equal parts. *)
Lemma with_key_perm k l m : NoDup (map key l) → l ≡ₚ m → with_key k l = with_key k m.
Proof.
  intros Hnd Hp. assert (with_key k l ≡ₚ with_key k m) as Hpk.
  { clear Hnd. induction Hp as [|x l m _ IH|x y l|l m n _ IH1 _ IH2]; [done| | |by etrans].
    - rewrite !with_key_cons. by apply Permutation_app_head.
    - rewrite !with_key_cons. rewrite !(assoc_L (++)). apply Permutation_app_tail, Permutation_app_comm. }
  assert (length (with_key k l) ≤ 1)%nat as Hlen.
  { clear Hp Hpk. induction l as [|x l IH]; [simpl; lia|]. cbn [map] in Hnd. inversion Hnd as [|? ? Hx Hnd']; subst.
    rewrite with_key_cons, length_app. destruct (Z.eqb_spec (key x) k) as [Hk|]; [|by apply IH].
    assert (with_key k l = []) as ->; [|simpl; lia].
    destruct (with_key k l) as [|y r] eqn:Hy; [done|]. exfalso. apply Hx.
    assert (In y (with_key k l)) as Hin by (rewrite Hy; by left). apply with_key_in in Hin as [Hin Hky].
    apply list_elem_of_In, List.in_map_iff. exists y. by rewrite Hk, Hky. }
  destruct (with_key k l) as [|x [|y r]] eqn:Hl; [|by apply Permutation_singleton_l in Hpk|cbn [length] in Hlen; lia].
  by apply Permutation_nil_l in Hpk.
Qed.
End sort.

(** ** The hash map of sub-entries *)

Lemma map_get_in {A} (m : list (Z * A)) k v : map_get m k = Some v → In (k, v) m.
Proof.
  unfold map_get. intros H. apply fmap_Some in H as ([k' v'] & Hf & ->). apply List.find_some in Hf as [Hin Hk].
  cbn [fst] in Hk. apply Z.eqb_eq in Hk as ->. done.
Qed.

Lemma map_get_none {A} (m : list (Z * A)) k : map_get m k = None → k ∉ map fst m.
Proof.
  unfold map_get. intros H%fmap_None Hin. apply list_elem_of_In, List.in_map_iff in Hin as ([k' v] & <- & Hin).
  pose proof (List.find_none _ _ H _ Hin) as Hk. cbn [fst] in Hk. apply Z.eqb_neq in Hk. done.
Qed.

Lemma map_push_keys {A} (m : list (Z * list A)) k x :
  NoDup (map fst m) → NoDup (map fst (map_push m k x)).
Proof.
  intros Hm. unfold map_push. destruct (map_get m k) eqn:Hg.
  - assert (map fst (map (λ e : Z * list A, if fst e =? k then (fst e, snd e ++ [x]) else e) m) = map fst m) as ->; [|done].
    rewrite List.map_map. apply List.map_ext. intros [a b]. cbn. by destruct (a =? k).
  - rewrite List.map_app. apply list.NoDup_app. split; [done|]. split; [|apply NoDup_singleton].
    intros y Hy Hy'. apply list_elem_of_singleton in Hy' as ->. by apply map_get_none in Hg.
Qed.

Section spec.
Context {Expr : Type} (parse_expr : list Z → option Expr) (expr_text : Expr → list Z).
Context (capacity_overrides : list (Z * Z)).

Abbreviation assemble_ := (assemble parse_expr expr_text capacity_overrides).
Abbreviation second_pass_ := (second_pass parse_expr expr_text capacity_overrides).
Abbreviation first_pass_ := (first_pass parse_expr capacity_overrides).

Lemma first_pass_ind (P : FirstPass → Prop) p sections p' :
  (∀ p s p', P p → first_pass_step parse_expr capacity_overrides p s = Ok p' → P p') →
  P p → first_pass_ p sections = Ok p' → P p'.
Proof.
  intros Hstep. revert p. induction sections as [|s sections IH]; intros p Hp; cbn [first_pass].
  - by intros [= <-].
  - destruct (first_pass_step _ _ p s) as [q|e] eqn:Hq; [|done]. apply IH. by eapply Hstep.
Qed.

Lemma first_pass_keys sections p :
  first_pass_ (mkFirstPass [] [] []) sections = Ok p → NoDup (map fst (record_subs p)).
Proof.
  apply (first_pass_ind (λ p, NoDup (map fst (record_subs p)))); [|apply NoDup_nil_2].
  intros q [name ps] q' Hq. unfold first_pass_step.
  destruct (parse_section_index name) as [[i o]|]; [|by intros [= <-]].
  destruct (_ || _); [by intros [= <-]|]. destruct o as [sub|]; [intros [= <-]; by apply map_push_keys|].
  cbv zeta. destruct (_ =? 7); [|by intros [= <-]].
  destruct (parse_var_entry _ _ _ _ _) as [[e|]|e]; intros [= <-]; done.
Qed.

Lemma assemble_index sections types i subs o :
  assemble_ sections types i subs = Ok (Some o) → oe_index o = i.
Proof.
  unfold assemble. destruct (parse_subs _ _ _ _) as [[|s l]|]; [done| |done]. cbv zeta.
  destruct (_ && _); [|by intros [= <-]]. destruct (List.filter _ _); by intros [= <-].
Qed.

Lemma second_pass_cons sections types i ss subs :
  second_pass_ sections types ((i, ss) :: subs) =
  match assemble_ sections types i ss with
  | Err e => Err e
  | Ok o => match second_pass_ sections types subs with Ok l => Ok (option_list o ++ l) | Err e => Err e end
  end.
Proof. done. Qed.

Lemma second_pass_indices sections types subs l :
  second_pass_ sections types subs = Ok l → sublist (map oe_index l) (map fst subs).
Proof.
  revert l. induction subs as [|[i ss] subs IH]; intros l; [by intros [= <-]|]. rewrite second_pass_cons.
  destruct (assemble_ sections types i ss) as [o|e] eqn:Ha; [|done].
  destruct (second_pass_ sections types subs) as [r|e]; [|done]. intros [= <-].
  specialize (IH r eq_refl). destruct o as [o|].
  - change (option_list (Some o)) with [o]. cbn [app map fst]. rewrite (assemble_index _ _ _ _ _ Ha). by apply sublist_skip.
  - change (option_list None) with (@nil (OdEntry Expr)). cbn [app map fst]. by apply sublist_cons.
Qed.

(** The records come out in the order of the hash map, and all or none. *)
Lemma second_pass_perm sections types subs subs' l :
  subs ≡ₚ subs' → second_pass_ sections types subs = Ok l →
  ∃ l', second_pass_ sections types subs' = Ok l' ∧ l ≡ₚ l'.
Proof.
  intros Hp. revert l. induction Hp as [|[i ss] subs subs' _ IH|[i ss] [j tt] subs|s1 s2 s3 _ IH1 _ IH2]; intros l.
  - intros [= <-]. by exists [].
  - rewrite !second_pass_cons. destruct (assemble_ _ _ i ss) as [o|]; [|done].
    destruct (second_pass_ _ _ subs) as [r|]; [|done]. intros [= <-]. destruct (IH r eq_refl) as (r' & -> & Hr).
    eexists. split; [done|]. by rewrite Hr.
  - rewrite !second_pass_cons. destruct (assemble_ _ _ j tt) as [o2|]; [|done].
    destruct (assemble_ _ _ i ss) as [o1|]; [|done].
    destruct (second_pass_ _ _ subs) as [r|]; [|done]. intros [= <-]. eexists. split; [done|].
    rewrite !(assoc_L (++)). apply Permutation_app_tail, Permutation_app_comm.
  - intros H. apply IH1 in H as (l2 & H & Hl2). apply IH2 in H as (l3 & H & Hl3). exists l3. split; [done|]. by etrans.
Qed.

(** The import does not depend on the order in which the hash map of the
    sub-entries is iterated: under any two orders it accepts the same files,
    and gives the same entries and PDO definitions, in the same order. *)
Theorem hash_order_irrelevant (iterate1 iterate2 : list (Z * list (Z * props)) → list (Z * list (Z * props)))
    (content : list Z) :
  (∀ m, iterate1 m ≡ₚ m) → (∀ m, iterate2 m ≡ₚ m) →
  match parse_eds_content parse_expr expr_text capacity_overrides iterate1 content,
        parse_eds_content parse_expr expr_text capacity_overrides iterate2 content with
  | Ok r1, Ok r2 => r1 = r2
  | Err _, Err _ => True
  | _, _ => False
  end.
Proof.
  intros H1 H2. unfold parse_eds_content, parse_sections_to_od.
  destruct (validate_unique _ _); [|done]. destruct (check_data_types _); [|done].
  destruct (first_pass_ _ _) as [p|] eqn:Hp; [|done]. apply first_pass_keys in Hp.
  assert (iterate1 (record_subs p) ≡ₚ iterate2 (record_subs p)) as Hi by (by rewrite H1, H2).
  set (m1 := iterate1 _) in *. set (m2 := iterate2 _) in *.
  assert (NoDup (map fst m1)) as Hnd by (unfold m1; by rewrite H1).
  destruct (second_pass_ _ _ m1) as [l1|e1] eqn:E1.
  - destruct (second_pass_perm _ _ _ _ _ Hi E1) as (l2 & -> & Hl).
    rewrite (sort_by_key_unique oe_index (fp_entries p ++ l1) (fp_entries p ++ l2)); [by destruct (extract_pdos _ _)|].
    intros k. rewrite !with_key_app. f_equal. apply with_key_perm; [|done].
    eapply list.sublist_NoDup; [exact Hnd|by eapply second_pass_indices].
  - destruct (second_pass_ _ _ m2) as [l2|e2] eqn:E2; [|done].
    destruct (second_pass_perm _ _ _ _ _ (symmetry Hi) E2) as (l1 & H & _). congruence.
Qed.

(** ** What is accepted is well formed *)

Definition rust_types : list (list Z) :=
  [str "bool"; str "i8"; str "i16"; str "i32"; str "u8"; str "u16"; str "u32"; str "f32"; str "i24"; str "u24";
   str "visible_string"; str "octet_string"; str "domain"; str "f64"; str "i64"; str "u64"].

(** A supported type, a capacity exactly where the length varies, and a default
    for everything else. *)
Definition var_ok (v : VarDef Expr) : Prop :=
  type_name v ∈ rust_types ∧
  (is_Some (vd_capacity v) ↔ is_variable_length_type (type_name v) = true) ∧
  (is_variable_length_type (type_name v) = false → is_Some (vd_default v)).

Definition object_index (i : Z) : Prop := is_u16 i ∧ is_pdo_index i = false ∧ i ≠ 0x1021 ∧ i ≠ 0x1022.

(** Sub-indices ascend strictly from 1; an array has at least four elements. *)
Definition od_entry_ok (e : OdEntry Expr) : Prop :=
  object_index (oe_index e) ∧
  match oe_kind e with
  | EntryVar var => var_ok var
  | EntryRecord subs =>
      subs ≠ [] ∧ StronglySorted (λ s t, sub_subindex s < sub_subindex t) subs ∧
      Forall (λ s, 1 ≤ sub_subindex s ≤ 255 ∧ var_ok (sub_var s)) subs
  | EntryArray arr => 4 ≤ arr_count arr ≤ 255 ∧ element_type arr ∈ rust_types
  end.

Definition spec_ok (c : CobIdSpec) : Prop := match c with Absolute r | NodeRelative r => is_u32 r end.

(** A mapping is a dummy with its value, or names a mappable object. *)
Definition mapping_ok (entries : list (OdEntry Expr)) (m : PdoMappingDef) : Prop :=
  (∃ b, map_bit_length m = Some b ∧ is_u8 b) ∧
  match raw_mapping m with
  | Some r => is_u32 r ∧ 1 ≤ r / 2 ^ 16 ≤ 7
  | None => ∃ e, In e (flatten entries) ∧ fl_name e = field_name m ∧ pdo_mappable (fl_var e) = true
  end.

Definition pdo_ok (entries : list (OdEntry Expr)) (p : PdoDef) : Prop :=
  1 ≤ pd_number p ≤ 512 ∧
  match pd_cob_id p with Some c => spec_ok c | None => True end ∧
  (0 ≤ pd_transmission_type p ≤ 240 ∨ 252 ≤ pd_transmission_type p ≤ 255 ∧
     (pd_direction p = DirRpdo → 254 ≤ pd_transmission_type p)) ∧
  is_u16 (pd_inhibit_time p) ∧ (pd_direction p = DirRpdo → pd_inhibit_time p = 0) ∧
  is_u16 (pd_event_timer p) ∧ len (pd_mappings p) ≤ 64 ∧ Forall (mapping_ok entries) (pd_mappings p).

(** *** Objects *)

Lemma datatype_to_rust_types code ty size :
  datatype_to_rust code = Some (ty, size) → ty ∈ rust_types.
Proof.
  unfold datatype_to_rust. repeat (case_match; [intros [= <- _]; by apply (bool_decide_unpack _); vm_compute|]). done.
Qed.

Lemma parse_var_entry_ok i s ps e :
  parse_var_entry parse_expr capacity_overrides i s ps = Ok (Some e) → sub_subindex e = s ∧ var_ok (sub_var e).
Proof.
  unfold parse_var_entry. destruct (get_prop ps (str "ParameterName")) as [name|]; [|done].
  destruct (_ ≫= _) as [code|]; [|done]. destruct (datatype_to_rust code) as [[ty size]|] eqn:Hty; [|done].
  apply datatype_to_rust_types in Hty. cbv zeta.
  destruct (if bool_decide _ then _ else _) as [access|]; [|done].
  unfold var_ok. destruct (is_variable_length_type ty) eqn:Hvar.
  - intros [= <-]. split; [done|]. cbn [sub_var type_name vd_capacity vd_default]. rewrite Hvar. naive_solver.
  - destruct (normalize_default _ _) as [t|]; [|done]. destruct (parse_expr t) as [x|]; [|done].
    intros [= <-]. split; [done|]. cbn [sub_var type_name vd_capacity vd_default]. rewrite Hvar.
    split; [done|]. split; [split; [by intros []|done]|by eexists].
Qed.

Lemma parse_subs_spec i subs l :
  parse_subs parse_expr capacity_overrides i subs = Ok l →
  sublist (map sub_subindex l) (map fst subs) ∧ Forall (λ s, sub_subindex s ≠ 0 ∧ var_ok (sub_var s)) l.
Proof.
  revert l. induction subs as [|[k ps] subs IH]; intros l; cbn [parse_subs].
  - intros [= <-]. by split; [|apply List.Forall_nil].
  - destruct (Z.eqb_spec k 0) as [->|Hk].
    { intros Hl. destruct (IH l Hl) as [? ?]. split; [by apply sublist_cons|done]. }
    destruct (parse_var_entry _ _ i k ps) as [o|e] eqn:Hv; [|done].
    destruct (parse_subs _ _ i subs) as [r|e]; [|done]. intros [= <-]. destruct (IH r eq_refl) as [Hs Hf].
    destruct o as [o|]; [|by split; [apply sublist_cons|]].
    apply parse_var_entry_ok in Hv as [<- Hv]. change (option_list (Some o)) with [o]. cbn [app map fst].
    split; [by apply sublist_skip|]. by apply List.Forall_cons.
Qed.

Lemma ordered_strict {A} (key : A → Z) l :
  ordered key l → NoDup (map key l) → StronglySorted (λ x y, key x < key y) l.
Proof.
  intros Hl. induction Hl as [|x l Hl IH Hx]; intros Hnd; [apply SSorted_nil|].
  cbn [map] in Hnd. inversion Hnd as [|? ? Hnot Hnd']; subst. apply SSorted_cons; [by apply IH|].
  apply List.Forall_forall. intros y Hy. pose proof (proj1 (List.Forall_forall _ _) Hx y Hy) as Hle. simpl in Hle.
  assert (key x ≠ key y); [|lia]. intros Heq. apply Hnot, list_elem_of_In, List.in_map_iff. by exists y.
Qed.

Lemma strict_length {A} (key : A → Z) l a b :
  StronglySorted (λ x y, key x < key y) l → Forall (λ x, a ≤ key x ≤ b) l → a ≤ b + 1 → len l ≤ b - a + 1.
Proof.
  intros Hl. revert a. induction Hl as [|x l Hl IH Hx]; intros a Hr Hab; [simpl; lia|].
  apply List.Forall_cons_iff in Hr as [Hxr Hr]. specialize (IH (key x + 1)). cbn [length].
  assert (len l ≤ b - (key x + 1) + 1); [|lia]. apply IH; [|lia].
  apply List.Forall_forall. intros y Hy. pose proof (proj1 (List.Forall_forall _ _) Hx y Hy).
  pose proof (proj1 (List.Forall_forall _ _) Hr y Hy). simpl in *. lia.
Qed.

Lemma strict_map {A B} (f : A → B) (key : A → Z) (key' : B → Z) l :
  (∀ x, key' (f x) = key x) → StronglySorted (λ x y, key x < key y) l →
  StronglySorted (λ x y, key' x < key' y) (map f l).
Proof.
  intros Hf Hl. induction Hl as [|x l Hl IH Hx]; [apply SSorted_nil|]. cbn [map]. apply SSorted_cons; [done|].
  apply List.Forall_forall. intros y Hy. apply List.in_map_iff in Hy as (z & <- & Hz). rewrite !Hf.
  by apply (proj1 (List.Forall_forall _ _) Hx).
Qed.

Lemma filter_id {A} (f : A → bool) l : (∀ x, In x l → f x = true) → List.filter f l = l.
Proof.
  induction l as [|x l IH]; intros Hf; [done|]. cbn [List.filter]. rewrite (Hf x) by by left.
  f_equal. apply IH. intros y Hy. apply Hf. by right.
Qed.

Definition subs_ok (subs : list (Z * props)) : Prop := NoDup (map fst subs) ∧ Forall (λ s, is_u8 (fst s)) subs.

Lemma assemble_ok sections types i subs e :
  object_index i → subs_ok subs → assemble_ sections types i subs = Ok (Some e) → od_entry_ok e.
Proof.
  intros Hi [Hnd Hu8]. unfold assemble. destruct (parse_subs _ _ i subs) as [l|] eqn:Hl; [|done].
  apply parse_subs_spec in Hl as [Hsub Hf]. set (prefix := sanitize_name _).
  assert (StronglySorted (λ s t, sub_subindex s < sub_subindex t) (sort_by_key sub_subindex l)) as Hss.
  { apply ordered_strict; [apply sort_by_key_ordered|]. rewrite sort_by_key_perm.
    eapply list.sublist_NoDup; [exact Hnd|done]. }
  set (rename := λ s, mkSubEntry (sub_subindex s) (prefix ++ str "_" ++ sub_name s) (sub_var s)).
  set (l' := map rename (sort_by_key sub_subindex l)).
  assert (StronglySorted (λ s t, sub_subindex s < sub_subindex t) l') as Hss' by (by eapply strict_map; [|exact Hss]).
  assert (Forall (λ s, 1 ≤ sub_subindex s ≤ 255 ∧ var_ok (sub_var s)) l') as Hok.
  { apply List.Forall_forall. intros s Hs. apply List.in_map_iff in Hs as (t & <- & Ht). cbn [rename sub_subindex sub_var].
    apply (Permutation_in _ (sort_by_key_perm sub_subindex l)) in Ht.
    pose proof (proj1 (List.Forall_forall _ _) Hf t Ht) as [Hne Hvar]. split; [|done].
    assert (sub_subindex t ∈ map fst subs) as Hin.
    { eapply elem_of_sublist; [|exact Hsub]. apply list_elem_of_In, List.in_map_iff. by exists t. }
    apply list_elem_of_In, List.in_map_iff in Hin as (u & Hu & Hin).
    pose proof (proj1 (List.Forall_forall _ _) Hu8 u Hin) as Hb. cbv beta in Hb. rewrite Hu in Hb. unfold is_uint in Hb. lia. }
  assert (len l' ≤ 255) as Hlen.
  { pose proof (strict_length sub_subindex l' 1 255 Hss') as H. rewrite Z.sub_add in H. apply H; [|lia].
    eapply List.Forall_impl; [|exact Hok]. naive_solver. }
  destruct l as [|s0 l0]; [done|]. cbv zeta. fold prefix. fold rename. fold l'.
  assert (l' ≠ []) as Hne.
  { intros Hnil. apply (f_equal length) in Hnil. unfold l' in Hnil. rewrite List.length_map in Hnil.
    pose proof (Permutation_length (sort_by_key_perm sub_subindex (s0 :: l0))) as Hpl. rewrite Hnil in Hpl. done. }
  rewrite (filter_id _ l').
  2: { intros x Hx. pose proof (proj1 (List.Forall_forall _ _) Hok x Hx) as [? _]. apply Z.ltb_lt. lia. }
  clearbody l'. destruct ((_ =? 8) && _ && _) eqn:Harr.
  - apply andb_prop in Harr as [Harr _]. apply andb_prop in Harr as [_ H4]. apply Z.leb_le in H4.
    destruct l' as [|first l'']; [done|]. intros [= <-]. split; [done|]. cbn [oe_kind arr_count element_type].
    cbn [length] in *. split; [lia|]. apply List.Forall_cons_iff in Hok as [[_ [Hty _]] _]. done.
  - intros [= <-]. by split.
Qed.

Definition addresses (sections : list section) : list (Z * option Z) :=
  omap (λ s, parse_section_index (fst s)) sections.

Lemma validate_unique_addresses seen sections :
  validate_unique seen sections = Ok tt →
  NoDup (addresses sections) ∧ ∀ a, a ∈ map fst seen → a ∉ addresses sections.
Proof.
  revert seen. induction sections as [|[name ps] sections IH]; intros seen; cbn [validate_unique].
  - intros _. split; [apply NoDup_nil_2|]. intros a _. apply not_elem_of_nil.
  - unfold addresses. cbn [omap list_omap fst]. destruct (parse_section_index name) as [a|]; [|apply IH].
    destruct (List.find _ seen) as [[b prev]|] eqn:Hfind; [done|]. intros Hv.
    apply IH in Hv as [Hnd Hdis]. fold (addresses sections). split.
    + apply NoDup_cons_2; [|done]. apply Hdis. cbn [map fst]. left.
    + intros b Hb Hin. apply elem_of_cons in Hin as [->|Hin]; [|by apply (Hdis b); [cbn [map]; right|]].
      apply list_elem_of_In, List.in_map_iff in Hb as (x & Hx & Hb).
      pose proof (List.find_none _ _ Hfind x Hb) as Hno. cbv beta in Hno. apply bool_decide_eq_false in Hno. done.
Qed.

(** The invariant of the first pass after the sections with addresses [seen]. *)
Definition first_ok (seen : list (Z * option Z)) (p : FirstPass) : Prop :=
  Forall od_entry_ok (fp_entries p) ∧
  Forall (λ e, object_index (fst e) ∧ subs_ok (snd e) ∧ ∀ s, s ∈ map fst (snd e) → (fst e, Some s) ∈ seen)
    (record_subs p).

Lemma first_ok_more seen seen' p : seen ⊆ seen' → first_ok seen p → first_ok seen' p.
Proof.
  intros Hs [He Hr]. split; [done|]. eapply List.Forall_impl; [|exact Hr]. intros e (Hi & Hsub & Hin).
  split; [done|]. split; [done|]. auto.
Qed.

Lemma map_push_ok seen (m : list (Z * list (Z * props))) i sub ps :
  object_index i → is_u8 sub → (i, Some sub) ∉ seen →
  Forall (λ e, object_index (fst e) ∧ subs_ok (snd e) ∧ ∀ s, s ∈ map fst (snd e) → (fst e, Some s) ∈ seen) m →
  Forall (λ e, object_index (fst e) ∧ subs_ok (snd e) ∧ ∀ s, s ∈ map fst (snd e) → (fst e, Some s) ∈ (i, Some sub) :: seen)
    (map_push m i (sub, ps)).
Proof.
  intros Hi Hsub Hnew Hm.
  assert (Forall (λ e : Z * list (Z * props), object_index (fst e) ∧ subs_ok (snd e) ∧
    ∀ s, s ∈ map fst (snd e) → (fst e, Some s) ∈ (i, Some sub) :: seen) m) as Hm'.
  { eapply List.Forall_impl; [|exact Hm]. intros e (? & ? & Hin). split; [done|]. split; [done|]. intros s Hs. right. by apply Hin. }
  unfold map_push. destruct (map_get m i) as [l|] eqn:Hg.
  - apply List.Forall_forall. intros e He. apply List.in_map_iff in He as (x & <- & Hx).
    pose proof (proj1 (List.Forall_forall _ _) Hm x Hx) as (Hxi & [Hnd Hu] & Hin).
    destruct (Z.eqb_spec (fst x) i) as [Hfst|]; [|by apply (proj1 (List.Forall_forall _ _) Hm')].
    cbn [fst snd]. split; [done|]. unfold subs_ok. rewrite List.map_app. cbn [map fst]. split; [split|].
    + apply list.NoDup_app. split; [done|]. split; [|apply NoDup_singleton].
      intros y Hy Hy'. apply list_elem_of_singleton in Hy' as ->. apply Hnew. rewrite <- Hfst. by apply Hin.
    + apply Forall_app_2; [done|]. apply List.Forall_cons; [done|apply List.Forall_nil].
    + intros s [Hs|Hs]%elem_of_app; [right; by apply Hin|]. apply list_elem_of_singleton in Hs as ->. rewrite Hfst. left.
  - apply Forall_app_2; [done|]. apply List.Forall_cons; [|apply List.Forall_nil]. cbn [fst snd map].
    split; [done|]. split; [split; [apply NoDup_singleton|by apply List.Forall_cons; [|apply List.Forall_nil]]|].
    intros s Hs. apply list_elem_of_singleton in Hs as ->. left.
Qed.

Lemma first_pass_ok seen p sections p' :
  first_ok seen p → NoDup (addresses sections) → (∀ a, a ∈ seen → a ∉ addresses sections) →
  first_pass_ p sections = Ok p' → first_ok (seen ++ addresses sections) p'.
Proof.
  revert seen p. induction sections as [|[name ps] sections IH]; intros seen p Hp Hnd Hdis; cbn [first_pass].
  - intros [= <-]. by rewrite app_nil_r.
  - unfold first_pass_step. unfold addresses in *. cbn [omap list_omap fst] in *. fold (addresses sections) in *.
    destruct (parse_section_index name) as [[i o]|] eqn:Hname; [|by apply IH].
    apply list.NoDup_cons in Hnd as [Ha Hnd].
    assert (∀ q, first_ok ((i, o) :: seen) q → first_pass_ q sections = Ok p' →
      first_ok (seen ++ (i, o) :: addresses sections) p') as Hnext.
    { intros q Hq Hrun. eapply IH in Hrun; [|exact Hq|done|].
      - eapply first_ok_more; [|exact Hrun]. intros x. rewrite !elem_of_app, !elem_of_cons, ?elem_of_app. tauto.
      - intros x [->|Hx]%elem_of_cons; [done|]. intros Hin. apply (Hdis x Hx). by right. }
    assert (first_ok ((i, o) :: seen) p) as Hmore by (eapply first_ok_more; [|exact Hp]; intros x; by right).
    destruct (is_pdo_index i || _ || _) eqn:Hskip; [by apply Hnext|].
    apply orb_false_elim in Hskip as [Hskip H22%Z.eqb_neq]. apply orb_false_elim in Hskip as [Hpdo H21%Z.eqb_neq].
    pose proof (Dcf.parse_section_index_range _ _ _ Hname) as [Hi16 Hu8].
    assert (object_index i) as Hi by done. destruct Hp as [He Hr].
    destruct o as [sub|]; [intros Hrun; eapply Hnext; [|exact Hrun]|].
    + split; [done|]. apply map_push_ok; [done|done| |done].
      intros Hin. apply (Hdis _ Hin). left.
    + cbv zeta. destruct (_ =? 7); [|apply Hnext; by destruct Hmore].
      destruct (parse_var_entry _ _ i 0 ps) as [[e|]|] eqn:Hv; [| |done]; apply Hnext; [|by destruct Hmore].
      destruct Hmore as [_ Hr']. split; [|exact Hr']. apply Forall_app_2; [done|].
      apply List.Forall_cons; [|apply List.Forall_nil]. apply parse_var_entry_ok in Hv as [_ Hv]. by split.
Qed.

(** *** Marking mapped objects *)

Definition var_marked (v v' : VarDef Expr) : Prop := v' = v ∨ v' = mark_mappable v.

Definition sub_marked (s s' : SubEntry Expr) : Prop :=
  sub_subindex s' = sub_subindex s ∧ sub_name s' = sub_name s ∧ var_marked (sub_var s) (sub_var s').

Definition entry_marked (e e' : OdEntry Expr) : Prop :=
  oe_index e' = oe_index e ∧ oe_name e' = oe_name e ∧
  match oe_kind e, oe_kind e' with
  | EntryVar v, EntryVar v' => var_marked v v'
  | EntryRecord l, EntryRecord l' => Forall2 sub_marked l l'
  | EntryArray a, EntryArray a' => a' = a
  | _, _ => False
  end.

Lemma var_marked_refl v : var_marked v v.
Proof. by left. Qed.

Lemma var_marked_trans u v w : var_marked u v → var_marked v w → var_marked u w.
Proof. unfold var_marked. intros [->| ->] [->| ->]; auto. Qed.

Lemma sub_marked_refl s : sub_marked s s.
Proof. split; [done|]. split; [done|]. apply var_marked_refl. Qed.

#[local] Instance sub_marked_reflexive : Reflexive sub_marked := sub_marked_refl.

Lemma sub_marked_trans s t u : sub_marked s t → sub_marked t u → sub_marked s u.
Proof.
  intros (Hi & Hn & Hv) (Hi' & Hn' & Hv'). split; [congruence|]. split; [congruence|]. by eapply var_marked_trans.
Qed.

Lemma entry_marked_refl e : entry_marked e e.
Proof.
  split; [done|]. split; [done|]. destruct (oe_kind e); [apply var_marked_refl|reflexivity|done].
Qed.

#[local] Instance entry_marked_reflexive : Reflexive entry_marked := entry_marked_refl.

Lemma entry_marked_trans e f g : entry_marked e f → entry_marked f g → entry_marked e g.
Proof.
  intros (Hi & Hn & Hk) (Hi' & Hn' & Hk'). split; [congruence|]. split; [congruence|].
  destruct (oe_kind e), (oe_kind f), (oe_kind g); try done.
  - by eapply var_marked_trans.
  - eapply list.Forall2_trans; [|exact Hk|exact Hk']. apply sub_marked_trans.
  - congruence.
Qed.

Definition marked : list (OdEntry Expr) → list (OdEntry Expr) → Prop := Forall2 entry_marked.

Lemma marked_refl es : marked es es.
Proof. unfold marked. reflexivity. Qed.

Lemma marked_trans es fs gs : marked es fs → marked fs gs → marked es gs.
Proof. apply list.Forall2_trans. apply entry_marked_trans. Qed.

(** What marking leaves of a flat entry. *)
Definition flat_marked (e e' : FlatEntry Expr) : Prop :=
  fl_index e' = fl_index e ∧ fl_subindex e' = fl_subindex e ∧ fl_name e' = fl_name e ∧ var_marked (fl_var e) (fl_var e').

Lemma marked_flat es es' : marked es es' → Forall2 flat_marked (flatten es) (flatten es').
Proof.
  intros H. induction H as [|e e' es es' (Hi & Hn & Hk) _ IH]; [apply list.Forall2_nil_2|].
  unfold flatten in *. cbn [flat_map]. apply Forall2_app; [|done]. unfold flatten_entry.
  destruct (oe_kind e) as [v|l|a], (oe_kind e') as [v'|l'|a']; try done.
  - repeat (apply list.Forall2_cons_2 || apply list.Forall2_nil_2). by split.
  - induction Hk as [|s s' l l' (Hsi & Hsn & Hsv) _ IHl]; cbn [map]; [apply list.Forall2_nil_2|].
    apply list.Forall2_cons_2; [|done]. by split.
Qed.

Lemma resolve_sub_spec subs sub subs' n :
  resolve_sub subs sub = Some (subs', n) →
  Forall2 sub_marked subs subs' ∧
  ∃ s, In s subs' ∧ sub_subindex s = sub ∧ sub_name s = n ∧ pdo_mappable (sub_var s) = true.
Proof.
  revert subs' n. induction subs as [|s subs IH]; intros subs' n; cbn [resolve_sub]; [done|].
  destruct (Z.eqb_spec (sub_subindex s) sub) as [Hs|Hs].
  - intros [= <- <-]. split.
    + apply list.Forall2_cons_2; [|reflexivity]. split; [done|]. split; [done|]. by right.
    + eexists. split; [by left|]. done.
  - intros H. apply bind_Some in H as ([l m] & Hl & [= <- <-]). destruct (IH _ _ Hl) as [Hm (t & Ht & ?)].
    split; [apply list.Forall2_cons_2; [apply sub_marked_refl|done]|]. exists t. split; [by right|done].
Qed.

Lemma resolve_entry_spec e i s e' n :
  resolve_entry e i s = Some (e', n) →
  entry_marked e e' ∧
  ∃ f, In f (flatten_entry e') ∧ fl_index f = i ∧ fl_subindex f = s ∧ fl_name f = n ∧ pdo_mappable (fl_var f) = true.
Proof.
  unfold resolve_entry, entry_marked, flatten_entry. destruct (Z.eqb_spec (oe_index e) i) as [Hi|]; [|done].
  destruct (oe_kind e) as [v|l|a]; [| |done].
  - destruct (Z.eqb_spec s 0) as [->|]; [|done]. intros [= <- <-]. cbn [oe_index oe_name oe_kind].
    split; [split; [done|]; split; [done|by right]|]. eexists. split; [by left|]. done.
  - intros H. apply bind_Some in H as ([l' m] & Hl & [= <- <-]). apply resolve_sub_spec in Hl as [Hm (t & Ht & <- & <- & Hp)].
    cbn [oe_index oe_name oe_kind]. split; [done|]. eexists. split; [by apply List.in_map|]. done.
Qed.

Lemma resolve_in_spec es i s es' o :
  resolve_in es i s = (es', o) →
  marked es es' ∧
  ∀ n, o = Some n → ∃ f, In f (flatten es') ∧ fl_index f = i ∧ fl_subindex f = s ∧ fl_name f = n ∧ pdo_mappable (fl_var f) = true.
Proof.
  revert es' o. induction es as [|e es IH]; intros es' o; cbn [resolve_in].
  - intros [= <- <-]. split; [apply marked_refl|done].
  - destruct (resolve_entry e i s) as [[e' m]|] eqn:He.
    + intros [= <- <-]. apply resolve_entry_spec in He as [Hm (f & Hf & Hrest)].
      split; [by apply list.Forall2_cons_2; [|apply marked_refl]|]. intros n [= <-]. exists f.
      split; [by apply List.in_app_iff; left|done].
    + destruct (resolve_in es i s) as [es2 o2]. intros [= <- <-]. destruct (IH _ _ eq_refl) as [Hm Hf].
      split; [apply list.Forall2_cons_2; [apply entry_marked_refl|done]|]. intros n Hn.
      destruct (Hf n Hn) as (f & Hin & Hrest). exists f. split; [by apply List.in_app_iff; right|done].
Qed.

(** *** PDO definitions *)

Lemma mapping_ok_marked es es' m : marked es es' → mapping_ok es m → mapping_ok es' m.
Proof.
  intros Hm [Hb Hr]. split; [done|]. destruct (raw_mapping m); [done|]. destruct Hr as (e & He & Hn & Hp).
  apply marked_flat in Hm. apply list_elem_of_In, list_elem_of_lookup in He as [k Hk].
  eapply Forall2_lookup_l in Hm as (e' & Hk' & (_ & _ & Hn' & Hv)); [|exact Hk].
  exists e'. split; [apply list_elem_of_In; by eapply list_elem_of_lookup_2|]. split; [congruence|].
  destruct Hv as [->| ->]; done.
Qed.

Lemma pdo_ok_marked es es' p : marked es es' → pdo_ok es p → pdo_ok es' p.
Proof.
  intros Hm (H1 & H2 & H3 & H4 & H5 & H6 & H7 & H8). repeat (split; [done|]).
  eapply List.Forall_impl; [|exact H8]. intros. by eapply mapping_ok_marked.
Qed.

Lemma parse_int_u64 v n : parse_int v = Some n → is_u64 n.
Proof.
  unfold parse_int, parse_int_val. destruct (strip_hex _); intros H; eapply from_str_radix_range in H; done || lia.
Qed.

Lemma try_from_range w n m : 0 ≤ n → try_from w n = Some m → is_uint w m.
Proof. intros Hn. unfold try_from. destruct (Z.ltb_spec n (2 ^ w)); [|done]. by intros [= <-]. Qed.

Lemma parse_pdo_default_range w ps d i s v :
  is_uint w d → parse_pdo_default w ps d i s = Ok v → is_uint w v.
Proof.
  intros Hd. unfold parse_pdo_default. destruct (default_value ps) as [raw|]; [|by intros [= <-]].
  destruct (_ =? 0); [by intros [= <-]|]. destruct (parse_int raw) as [n|] eqn:Hn; [|done].
  destruct (try_from w n) eqn:Ht; [|done]. intros [= <-]. eapply try_from_range; [|exact Ht].
  by apply parse_int_u64 in Hn as [? _].
Qed.

Lemma parse_pdo_cob_id_range v c : parse_pdo_cob_id v = Some c → spec_ok c.
Proof.
  unfold parse_pdo_cob_id. destruct (eq_ignore_ascii_case _ _); [intros [= <-]; by unfold is_uint|].
  destruct (split_once _ _) as [[a b]|].
  - intros H. apply bind_Some in H as (t & _ & H). apply bind_Some in H as (n & Hn & H).
    apply fmap_Some in H as (m & Hm & ->). eapply try_from_range; [|exact Hm]. by apply parse_int_u64 in Hn as [? _].
  - intros H. apply bind_Some in H as (n & Hn & H).
    apply fmap_Some in H as (m & Hm & ->). eapply try_from_range; [|exact Hm]. by apply parse_int_u64 in Hn as [? _].
Qed.

Lemma resolve_mapping_spec val es es' m :
  is_u32 val → resolve_mapping val es = (es', m) → marked es es' ∧ ∀ x, m = Some x → mapping_ok es' x.
Proof.
  intros Hval. unfold resolve_mapping. destruct (in_range 1 7 _) eqn:Hd.
  - intros [= <- <-]. split; [apply marked_refl|]. intros x [= <-]. split; cbn [map_bit_length raw_mapping].
    + eexists. split; [done|]. by apply wrap_range.
    + split; [done|]. unfold in_range, wrap in Hd. rewrite Z.shiftr_div_pow2 in Hd by lia. unfold is_uint in Hval.
      rewrite Z.mod_small in Hd; [lia|]. split; [apply Z.div_pos; lia|]. apply Z.div_lt_upper_bound; lia.
  - destruct (resolve_in es _ _) as [es2 o] eqn:Hr. intros [= <- <-]. apply resolve_in_spec in Hr as [Hm Hf].
    split; [done|]. intros x Hx. destruct o as [n|]; [|done]. injection Hx as <-.
    destruct (Hf n eq_refl) as (f & Hin & _ & _ & Hn & Hp). split; cbn [map_bit_length raw_mapping].
    + eexists. split; [done|]. by apply wrap_range.
    + by exists f.
Qed.

Lemma read_mappings_spec n k sections i es es' ms :
  read_mappings n k sections i es = Ok (es', ms) →
  marked es es' ∧ (length ms ≤ n)%nat ∧ Forall (mapping_ok es') ms.
Proof.
  revert k es es' ms. induction n as [|n IH]; intros k es es' ms; cbn [read_mappings].
  - intros [= <- <-]. split; [apply marked_refl|]. split; [simpl; lia|apply List.Forall_nil].
  - destruct (parse_pdo_default 32 _ _ _ _) as [val|e] eqn:Hv; [|done].
    apply parse_pdo_default_range in Hv; [|by unfold is_uint].
    destruct (if negb (val =? 0) then resolve_mapping val es else (es, None)) as [es1 m] eqn:Hr.
    destruct (read_mappings n (k + 1) sections i es1) as [[es2 ms2]|] eqn:Hrest; [|done]. intros [= <- <-].
    assert (marked es es1 ∧ ∀ x, m = Some x → mapping_ok es1 x) as [Hm Hx].
    { destruct (negb _); [by eapply resolve_mapping_spec|]. injection Hr as <- <-. by split; [apply marked_refl|]. }
    apply IH in Hrest as (Hm2 & Hlen & Hf). split; [by eapply marked_trans|].
    split; [destruct m; cbn; lia|]. apply Forall_app_2; [|done].
    destruct m as [x|]; [|apply List.Forall_nil]. apply List.Forall_cons; [|apply List.Forall_nil].
    eapply mapping_ok_marked; [exact Hm2|by apply Hx].
Qed.

Lemma transmission_ok v dir i :
  is_u8 v → validate_pdo_transmission_type v dir i = Ok tt →
  0 ≤ v ≤ 240 ∨ 252 ≤ v ≤ 255 ∧ (dir = DirRpdo → 254 ≤ v).
Proof.
  unfold validate_pdo_transmission_type, in_range, is_uint.
  destruct (Z.leb_spec 241 v), (Z.leb_spec v 251), (Z.leb_spec 252 v), (Z.leb_spec v 253); cbn [andb]; try done;
    destruct dir; cbn; try done; intros; try (left; lia); right; split; try lia; done.
Qed.

Lemma extract_pdo_spec sections dir n es es' o :
  0 ≤ n < 512 → extract_pdo sections dir n es = Ok (es', o) →
  marked es es' ∧ ∀ p, o = Some p → pdo_ok es' p ∧ pd_direction p = dir ∧ pd_number p = n + 1.
Proof.
  intros Hn. unfold extract_pdo. destruct (get_section_props _ (index_key _)).
  2: { intros [= <- <-]. by split; [apply marked_refl|]. }
  destruct (parse_pdo_cob_id_default _ _) as [cob|] eqn:Hcob; [|done].
  destruct (parse_pdo_default 8 _ 255 _ _) as [tt'|] eqn:Htt; [|done].
  apply parse_pdo_default_range in Htt; [|by unfold is_uint].
  destruct (validate_pdo_transmission_type _ _ _) as [[]|] eqn:Hval; [|done]. apply transmission_ok in Hval; [|done].
  destruct (match dir with DirTpdo => _ | DirRpdo => _ end) as [inh|] eqn:Hinh; [|done].
  assert (is_u16 inh ∧ (dir = DirRpdo → inh = 0)) as [Hinh1 Hinh2].
  { destruct dir; [split; [|done]; eapply parse_pdo_default_range; [|exact Hinh]; by unfold is_uint|].
    injection Hinh as <-. by split; [unfold is_uint|]. }
  destruct (parse_pdo_default 16 _ 0 _ 5) as [ev|] eqn:Hev; [|done].
  apply parse_pdo_default_range in Hev; [|by unfold is_uint].
  destruct (parse_pdo_mapping_count _ _) as [count|] eqn:Hcount; [|done].
  destruct (read_mappings _ _ _ _ _) as [[es2 ms]|] eqn:Hr; [|done]. intros [= <- <-].
  apply read_mappings_spec in Hr as (Hm & Hlen & Hms). split; [done|]. intros pdo [= <-].
  cbn [pd_number pd_direction]. split; [|done]. unfold pdo_ok. cbn [pd_number pd_direction pd_cob_id pd_transmission_type
    pd_inhibit_time pd_event_timer pd_mappings].
  split; [lia|]. split; [|repeat (split; [done|]); split; [|done]].
  - unfold parse_pdo_cob_id_default in Hcob. destruct (default_value _) as [raw|]; [|by injection Hcob as <-].
    destruct (_ =? 0); [by injection Hcob as <-|]. destruct (parse_pdo_cob_id raw) as [c|] eqn:Hc; [|done].
    injection Hcob as <-. by eapply parse_pdo_cob_id_range.
  - unfold parse_pdo_mapping_count in Hcount. destruct (parse_pdo_default 8 _ 0 _ 0) as [c|] eqn:Hc; [|done].
    apply parse_pdo_default_range in Hc; [|by unfold is_uint].
    destruct (Z.ltb_spec PDO_MAX_MAPPINGS c) as [|Hle]; [done|]. injection Hcount as <-.
    unfold PDO_MAX_MAPPINGS, is_uint in *. lia.
Qed.

(** The PDOs of one direction, in ascending order of their numbers from [n + 1]. *)
Definition numbered (dir : PdoDirection) (n : Z) (pdos : list PdoDef) : Prop :=
  StronglySorted (λ p q, pd_number p < pd_number q) pdos ∧ Forall (λ p, pd_direction p = dir ∧ n < pd_number p) pdos.

Lemma extract_loop_spec count n sections dir es es' pdos :
  0 ≤ n → n + Z.of_nat count ≤ 512 → extract_loop count n sections dir es = Ok (es', pdos) →
  marked es es' ∧ Forall (pdo_ok es') pdos ∧ numbered dir n pdos.
Proof.
  revert n es es' pdos. induction count as [|count IH]; intros n es es' pdos H0 Hn; cbn [extract_loop].
  - intros [= <- <-]. split; [apply marked_refl|]. split; [apply List.Forall_nil|].
    split; [apply SSorted_nil|apply List.Forall_nil].
  - destruct (extract_pdo sections dir n es) as [[es1 o]|] eqn:Ho; [|done].
    destruct (extract_loop count (n + 1) sections dir es1) as [[es2 ps]|] eqn:Hrest; [|done]. intros [= <- <-].
    apply extract_pdo_spec in Ho as [Hm Hp]; [|lia]. apply IH in Hrest as (Hm2 & Hps & Hss & Hnum); [|lia..].
    split; [by eapply marked_trans|].
    assert (Forall (λ p, pd_direction p = dir ∧ n < pd_number p) ps) as Hnum'.
    { eapply List.Forall_impl; [|exact Hnum]. intros q [? ?]. split; [done|lia]. }
    destruct o as [q|]; [|done]. destruct (Hp q eq_refl) as (Hq & Hdir & Hqn). change (option_list (Some q)) with [q]. cbn [app].
    split; [apply List.Forall_cons; [by eapply pdo_ok_marked|done]|]. split.
    + apply SSorted_cons; [done|]. eapply List.Forall_impl; [|exact Hnum]. intros r [_ ?]. lia.
    + apply List.Forall_cons; [|done]. split; [done|lia].
Qed.

Lemma extract_pdos_spec sections es es' pdos :
  extract_pdos sections es = Ok (es', pdos) →
  marked es es' ∧ Forall (pdo_ok es') pdos ∧
  ∃ ts rs, pdos = ts ++ rs ∧ numbered DirTpdo 0 ts ∧ numbered DirRpdo 0 rs.
Proof.
  unfold extract_pdos. destruct (extract_loop 512 0 sections DirTpdo es) as [[es1 ts]|] eqn:Ht; [|done].
  destruct (extract_loop 512 0 sections DirRpdo es1) as [[es2 rs]|] eqn:Hr; [|done]. intros [= <- <-].
  apply extract_loop_spec in Ht as (Hm1 & Hp1 & Hn1); [|lia..]. apply extract_loop_spec in Hr as (Hm2 & Hp2 & Hn2); [|lia..].
  split; [by eapply marked_trans|]. split; [|by exists ts, rs]. apply Forall_app_2; [|done].
  eapply List.Forall_impl; [|exact Hp1]. intros. by eapply pdo_ok_marked.
Qed.

(** *** Marking keeps entries well formed *)

Lemma var_marked_ok v v' : var_marked v v' → var_ok v → var_ok v'.
Proof. by intros [->| ->]. Qed.

Lemma entry_marked_ok e e' : entry_marked e e' → od_entry_ok e → od_entry_ok e'.
Proof.
  intros (Hi & Hn & Hk) [Ho He]. split; [by rewrite Hi|]. destruct (oe_kind e) as [v|l|a], (oe_kind e') as [v'|l'|a']; try done.
  - by eapply var_marked_ok.
  - destruct He as (Hne & Hss & Hf). split; [|split].
    + intros ->. inversion Hk; subst; done.
    + clear Hne Hf. induction Hk as [|s s' l l' (Hs & _) Hl IH]; [apply SSorted_nil|].
      apply StronglySorted_inv in Hss as [Hss Hall]. apply SSorted_cons; [by apply IH|].
      clear -Hs Hl Hall. induction Hl as [|t t' l l' (Ht & _) _ IH]; [apply List.Forall_nil|].
      apply List.Forall_cons_iff in Hall as [Hst Hall]. apply List.Forall_cons; [congruence|by apply IH].
    + clear Hne Hss. induction Hk as [|s s' l l' (Hs & _ & Hv) _ IH]; [apply List.Forall_nil|].
      apply List.Forall_cons_iff in Hf as [[Hr Hvar] Hf]. apply List.Forall_cons; [|by apply IH].
      rewrite Hs. split; [done|]. by eapply var_marked_ok.
  - by subst a'.
Qed.

Lemma marked_ok es es' : marked es es' → Forall od_entry_ok es → Forall od_entry_ok es'.
Proof.
  intros Hm. induction Hm as [|e e' es es' He _ IH]; [done|]. intros [H1 H2]%List.Forall_cons_iff.
  apply List.Forall_cons; [by eapply entry_marked_ok|by apply IH].
Qed.

Lemma marked_ordered es es' : marked es es' → ordered oe_index es → ordered oe_index es'.
Proof.
  intros Hm Ho. unfold ordered in *. induction Hm as [|e e' es es' (He & _) Hrest IH]; [done|].
  apply StronglySorted_inv in Ho as [Ho Hall]. apply SSorted_cons; [by apply IH|].
  clear -He Hrest Hall. induction Hrest as [|t t' l l' (Ht & _) _ IH]; [apply List.Forall_nil|].
  apply List.Forall_cons_iff in Hall as [Hst Hall]. apply List.Forall_cons; [congruence|by apply IH].
Qed.

Lemma second_pass_ok sections types subs l :
  Forall (λ e, object_index (fst e) ∧ subs_ok (snd e)) subs → second_pass_ sections types subs = Ok l → Forall od_entry_ok l.
Proof.
  revert l. induction subs as [|[i ss] subs IH]; intros l Hs; [by intros [= <-]|]. rewrite second_pass_cons.
  apply List.Forall_cons_iff in Hs as [[Hi Hss] Hs].
  destruct (assemble_ sections types i ss) as [o|] eqn:Ha; [|done].
  destruct (second_pass_ sections types subs) as [r|]; [|done]. intros [= <-]. apply Forall_app_2; [|by apply IH].
  destruct o as [e|]; [|apply List.Forall_nil]. apply List.Forall_cons; [|apply List.Forall_nil].
  by eapply assemble_ok.
Qed.

(** C37. Whatever EDS text is accepted, the result is well formed.  The entries
    are in the order of their indices, none of which is a PDO parameter or a
    generated object; variables have a supported type, with a capacity exactly
    where it is of variable length and a default elsewhere; the sub-indices of
    a record ascend strictly from 1.  The PDO definitions are the TPDOs and
    then the RPDOs, each in the strict order of their numbers 1..512; COB-IDs,
    times and transmission types fit their fields, the type is not reserved
    and an RPDO's not RTR; at most 64 mappings, each a dummy or the name of an
    object of the result that is marked mappable. *)
Theorem eds_import_valid (iterate : list (Z * list (Z * props)) → list (Z * list (Z * props))) (content : list Z)
    (es : list (OdEntry Expr)) (pdos : list PdoDef) :
  (∀ m, iterate m ≡ₚ m) →
  parse_eds_content parse_expr expr_text capacity_overrides iterate content = Ok (es, pdos) →
  ordered oe_index es ∧ Forall od_entry_ok es ∧ Forall (pdo_ok es) pdos ∧
  ∃ ts rs, pdos = ts ++ rs ∧ numbered DirTpdo 0 ts ∧ numbered DirRpdo 0 rs.
Proof.
  intros Hi. unfold parse_eds_content, parse_sections_to_od.
  destruct (validate_unique _ _) as [[]|] eqn:Hu; [|done]. destruct (check_data_types _); [|done].
  destruct (first_pass_ _ _) as [p|] eqn:Hp; [|done]. destruct (second_pass_ _ _ _) as [l|] eqn:Hl; [|done].
  intros Hx. apply extract_pdos_spec in Hx as (Hm & Hpdos & Hnum).
  apply validate_unique_addresses in Hu as [Hnd _].
  apply (first_pass_ok []) in Hp as [Hfe Hfr]; [|by split; apply List.Forall_nil|done|by intros a Ha%not_elem_of_nil].
  split; [eapply marked_ordered; [exact Hm|apply sort_by_key_ordered]|]. split; [|by split].
  eapply marked_ok; [exact Hm|]. apply List.Forall_forall. intros e He.
  apply (Permutation_in _ (sort_by_key_perm oe_index _)) in He. revert e He. apply List.Forall_forall.
  apply Forall_app_2; [done|]. eapply second_pass_ok; [|exact Hl]. apply List.Forall_forall. intros e He.
  apply (Permutation_in _ (Hi _)) in He. pose proof (proj1 (List.Forall_forall _ _) Hfr e He) as (? & ? & _). by split.
Qed.
End spec.

(** ** A concrete file *)

Definition demo_eds : list Z := str "[FileInfo]
FileName=demo.eds
[2000]
ParameterName=Motor Speed
ObjectType=0x7
DataType=0x0006
AccessType=rw
DefaultValue=0x10
[2001]
ParameterName=Gains
ObjectType=0x9
[2001sub0]
ParameterName=Number of entries
DataType=0x0005
[2001sub2]
ParameterName=Integral
DataType=0x0007
AccessType=rw
[2001sub1]
ParameterName=Proportional
DataType=0x0007
AccessType=ro
DefaultValue=7
[2010]
ParameterName=Table
ObjectType=0x9
[2010sub1]
ParameterName=First
DataType=0x0005
AccessType=rw
[1800]
ParameterName=TPDO 1
[1800sub1]
DefaultValue=$NODEID+0x180
[1800sub2]
DefaultValue=1
[1A00]
ParameterName=TPDO 1 mapping
[1A00sub0]
DefaultValue=2
[1A00sub1]
DefaultValue=0x20000010
[1A00sub2]
DefaultValue=0x20010220
".

Definition demo_import (iterate : list (Z * list (Z * props)) → list (Z * list (Z * props))) :=
  parse_eds_content (Expr := list Z) Some id [] iterate demo_eds.

Definition demo_result : list (OdEntry (list Z)) * list PdoDef :=
  ([mkOdEntry 0x2000 (str "motor_speed") (EntryVar (mkVarDef (str "u16") None (Some (str "16")) AccRw true));
    mkOdEntry 0x2001 (str "gains") (EntryRecord
      [mkSubEntry 1 (str "gains_proportional") (mkVarDef (str "u32") None (Some (str "7")) AccRo false);
       mkSubEntry 2 (str "gains_integral") (mkVarDef (str "u32") None (Some (str "0")) AccRw true)]);
    mkOdEntry 0x2010 (str "table") (EntryRecord
      [mkSubEntry 1 (str "table_first") (mkVarDef (str "u8") None (Some (str "0")) AccRw false)])],
   [mkPdoDef DirTpdo 1 (Some (NodeRelative 0x180)) 1 0 0 Mutable
      [mkMappingDef (str "motor_speed") (Some 16) None;
       mkMappingDef (str "gains_integral") (Some 32) None]]).

Example demo_eds_import : demo_import id = Ok demo_result.
Proof. vm_compute. reflexivity. Qed.

Lemma hash_order_irrelevant_witness :
  ((∀ m : list (Z * list (Z * props)), id m ≡ₚ m) ∧ (∀ m : list (Z * list (Z * props)), rev m ≡ₚ m)) ∧
  demo_import id = Ok demo_result ∧
  match demo_import id, demo_import (@rev _) with Ok r1, Ok r2 => r1 = r2 | Err _, Err _ => True | _, _ => False end.
Proof.
  assert (∀ m : list (Z * list (Z * props)), rev m ≡ₚ m) as Hrev
    by (intros m; symmetry; apply Permutation_rev).
  split; [by split|]. split; [apply demo_eds_import|].
  exact (hash_order_irrelevant Some id [] id (@rev _) demo_eds (λ m, reflexivity m) Hrev).
Defined.

Lemma eds_import_valid_witness :
  ((∀ m : list (Z * list (Z * props)), id m ≡ₚ m) ∧ demo_import id = Ok (fst demo_result, snd demo_result)) ∧
  ordered oe_index (fst demo_result) ∧ Forall od_entry_ok (fst demo_result) ∧
  Forall (pdo_ok (fst demo_result)) (snd demo_result) ∧
  ∃ ts rs, snd demo_result = ts ++ rs ∧ numbered DirTpdo 0 ts ∧ numbered DirRpdo 0 rs.
Proof.
  split; [split; [done|apply demo_eds_import]|].
  exact (eds_import_valid Some id [] id demo_eds (fst demo_result) (snd demo_result) (λ m, reflexivity m) demo_eds_import).
Defined.

(** A mapping entry that names an element of an array of four or more zero
    elements is dropped without an error, and what follows moves up in the
    frame: the field at bit 8 of the file is at bit 0 of the import. *)
Example array_mapping_dropped :
  option_map (λ r, map (map field_name) (map pd_mappings [r]))
    (match parse_eds_content (Expr := list Z) Some id [] id (str "[2000]
ParameterName=Table
ObjectType=0x8
[2000sub1]
ParameterName=A
DataType=0x0005
[2000sub2]
ParameterName=B
DataType=0x0005
[2000sub3]
ParameterName=C
DataType=0x0005
[2000sub4]
ParameterName=D
DataType=0x0005
[2001]
ParameterName=Speed
DataType=0x0006
[1800]
[1A00sub0]
DefaultValue=2
[1A00sub1]
DefaultValue=0x20000108
[1A00sub2]
DefaultValue=0x20010010
") with Ok (_, p :: _) => Some p | _ => None end) = Some [[str "speed"]].
Proof. vm_compute. reflexivity. Qed.
