(* ===== verification/Gen.v ===== *)
(** * Generated object dictionaries

    [canopen-derive/src/codegen.rs]: the dictionary type [generate] writes for a
    definition.  The templates are translated to the functions they denote: a
    [match] over addresses is a list of arms, tried in order, whose bodies take
    the dictionary, the sub-index and the caller's slice; a [static] table is
    the list of its rows.  [generate] itself may panic, at compile time.

    Parameters: [eval] is the value rustc gives the default expression of a
    field of a type, [eval_string] the bytes of [expr.to_string()] for a string
    field, [eds_compressed] the deflated export of the definition, and
    [validate_fn] the application's function named by [validate_write]. *)
From S2P Require Import Prelude Text Frame Od SdoProtocol PdoEngine Node Eds.

(** ** dsl.rs: types *)

Definition type_to_datatype (ty : list Z) : option DataType :=
  if bool_decide (ty = str "bool") then Some Boolean
  else if bool_decide (ty = str "u8") then Some U8
  else if bool_decide (ty = str "u16") then Some U16
  else if bool_decide (ty = str "u32") then Some U32
  else if bool_decide (ty = str "u64") then Some U64
  else if bool_decide (ty = str "i8") then Some I8
  else if bool_decide (ty = str "i16") then Some I16
  else if bool_decide (ty = str "i24") then Some I24
  else if bool_decide (ty = str "u24") then Some U24
  else if bool_decide (ty = str "i32") then Some I32
  else if bool_decide (ty = str "i64") then Some I64
  else if bool_decide (ty = str "f32") then Some Real32
  else if bool_decide (ty = str "f64") then Some Real64
  else if bool_decide (ty = str "visible_string") then Some VisibleString
  else if bool_decide (ty = str "octet_string") then Some OctetString
  else if bool_decide (ty = str "domain") then Some Domain
  else None.

(** ** The generated struct *)

(** A field's value: [VNum] is an integer, or the bits of a float; [VBytes] a
    string or byte vector. *)
Inductive Value := VBool (b : bool) | VNum (z : Z) | VBytes (l : list Z).

(** The [tpdo_*] or [rpdo_*] arrays.  RPDOs have no inhibit times; their timers
    are [rpdo_deadline]. *)
Record PdoFields := mkPdoFields {
  f_cob_id : list Z;
  f_transmission_type : list Z;
  f_inhibit_time : list Z;
  f_timer : list Z;
  f_mapping_count : list Z;
  f_mappings : list (list Z);
}.

Record Dict := mkDict {
  d_fields : list (list Z * Value);
  d_arrays : list (list Z * list Value);
  d_tpdo : PdoFields;
  d_rpdo : PdoFields;
  d_cob_rx : list Z;
  d_cob_tx : list Z;
}.

Definition set_fields (v : list (list Z * Value)) (d : Dict) : Dict :=
  mkDict v (d_arrays d) (d_tpdo d) (d_rpdo d) (d_cob_rx d) (d_cob_tx d).
Definition set_arrays (v : list (list Z * list Value)) (d : Dict) : Dict :=
  mkDict (d_fields d) v (d_tpdo d) (d_rpdo d) (d_cob_rx d) (d_cob_tx d).
Definition set_servers (rx tx : list Z) (d : Dict) : Dict :=
  mkDict (d_fields d) (d_arrays d) (d_tpdo d) (d_rpdo d) rx tx.

Definition pdo_fields (dir : PdoDirection) (d : Dict) : PdoFields :=
  match dir with DirTpdo => d_tpdo d | DirRpdo => d_rpdo d end.
Definition set_pdo_fields (dir : PdoDirection) (p : PdoFields) (d : Dict) : Dict :=
  match dir with
  | DirTpdo => mkDict (d_fields d) (d_arrays d) p (d_rpdo d) (d_cob_rx d) (d_cob_tx d)
  | DirRpdo => mkDict (d_fields d) (d_arrays d) (d_tpdo d) p (d_cob_rx d) (d_cob_tx d)
  end.

(** [self.name] and [self.name = v] *)
Definition assoc {A} (dflt : A) (l : list (list Z * A)) (name : list Z) : A :=
  match List.find (λ e, bool_decide (fst e = name)) l with Some (_, v) => v | None => dflt end.
Fixpoint assoc_set {A} (l : list (list Z * A)) (name : list Z) (v : A) : list (list Z * A) :=
  match l with
  | [] => []
  | e :: l => if bool_decide (fst e = name) then (fst e, v) :: l else e :: assoc_set l name v
  end.

Definition field (d : Dict) (name : list Z) : Value := assoc (VNum 0) (d_fields d) name.
Definition set_field (name : list Z) (v : Value) (d : Dict) : Dict := set_fields (assoc_set (d_fields d) name v) d.
Definition array_field (d : Dict) (name : list Z) : list Value := assoc [] (d_arrays d) name.
Definition set_array_field (name : list Z) (v : list Value) (d : Dict) : Dict :=
  set_arrays (assoc_set (d_arrays d) name v) d.

Definition num (v : Value) : Z := match v with VNum z => z | _ => 0 end.
Definition truth (v : Value) : bool := match v with VBool b => b | _ => false end.
Definition content (v : Value) : list Z := match v with VBytes l => l | _ => [] end.

(** ** Arms *)

Record Arm (B : Type) := mkArm { arm_index : Z; arm_first : Z; arm_last : Z; arm_body : B }.
Arguments mkArm {B}.
Arguments arm_index {B}.
Arguments arm_first {B}.
Arguments arm_last {B}.
Arguments arm_body {B}.

Definition ReadBody : Type := Dict → Z → list Z → exec (list Z * result Z OdError).
Definition WriteBody : Type := Dict → Z → list Z → exec (Dict * result unit OdError).

Definition select {B} (arms : list (Arm B)) (index subindex : Z) : option B :=
  arm_body <$> List.find (λ a, (arm_index a =? index) && in_range (arm_first a) (arm_last a) subindex) arms.

(** What one iteration of a generator loop adds to the three tables. *)
Record Piece := mkPiece {
  p_metas : list OdEntryMeta;
  p_read : Arm ReadBody;
  p_write : Arm WriteBody;
}.

Definition single (m : OdEntryMeta) (r : ReadBody) (w : WriteBody) : Piece :=
  let i := meta_index m in let s := meta_subindex m in
  mkPiece [m] (mkArm i s s r) (mkArm i s s w).

(** ** Bodies of scalar entries *)

Definition buf_set0 (buf : list Z) (v : Z) : exec (list Z) :=
  match buf with [] => Panic | _ :: buf => mret (v :: buf) end.

Definition read_byte (v : Z) (buf : list Z) : exec (list Z * result Z OdError) :=
  buf ← buf_set0 buf v; mret (buf, Ok 1).

Definition read_bytes (n : Z) (data buf : list Z) : exec (list Z * result Z OdError) :=
  buf ← copy_from_slice buf 0 n data; mret (buf, Ok n).

(** The read of a value of a sized type.  [repr] bytes hold its Rust type. *)
Definition repr_size (size : Z) : Z := if size =? 3 then 4 else size.

Definition read_scalar (ty : list Z) (size : Z) (v : Value) (buf : list Z) : exec (list Z * result Z OdError) :=
  if size =? 1 then
    if bool_decide (ty = str "bool") then read_byte (if truth v then 1 else 0) buf
    else read_byte (as_u8 (num v)) buf
  else
    let data := to_le_bytes (Z.to_nat (repr_size size)) (num v) in
    data ← slice data 0 size; read_bytes size data buf.

Definition is_signed (ty : list Z) : bool :=
  bool_decide (ty ∈ [str "i8"; str "i16"; str "i24"; str "i32"; str "i64"]).

(** [<ty>::from_le_bytes(data)] *)
Definition from_le (ty data : list Z) : Value :=
  VNum (if is_signed ty then signed_of (len data) (from_le_bytes data) else from_le_bytes data).

(** The new value of a sized type, or the error. *)
Definition write_scalar (ty : list Z) (size : Z) (data : list Z) : result Value OdError :=
  if bool_decide (ty = str "bool") then
    if negb (len data =? 1) then Err DataTypeMismatch else Ok (VBool (negb (at_ data 0 =? 0)))
  else if size =? 1 then
    if negb (len data =? 1) then Err DataTypeMismatch else Ok (from_le ty [at_ data 0])
  else if size =? 3 then
    if negb (len data =? 3) then Err DataTypeMismatch
    else
      let ext := if bool_decide (ty = str "i24") then
                   if negb (Z.land (at_ data 2) 0x80 =? 0) then 0xFF else 0x00
                 else 0x00 in
      Ok (from_le (if bool_decide (ty = str "i24") then str "i32" else str "u32")
            [at_ data 0; at_ data 1; at_ data 2; ext])
  else if negb (len data =? size) then Err DataTypeMismatch
  else Ok (from_le ty (take (Z.to_nat size) data)).

(** ** Bodies of strings *)

(** [core::str::from_utf8] accepts the string. *)
Definition utf8_cont (b : Z) : bool := in_range 0x80 0xBF b.

Fixpoint is_utf8 (l : list Z) : bool :=
  match l with
  | [] => true
  | a :: l1 =>
      if a <? 0x80 then is_utf8 l1
      else match l1 with
      | [] => false
      | b :: l2 =>
          if in_range 0xC2 0xDF a then utf8_cont b && is_utf8 l2
          else match l2 with
          | [] => false
          | c :: l3 =>
              if in_range 0xE0 0xEF a then
                in_range (if a =? 0xE0 then 0xA0 else 0x80) (if a =? 0xED then 0x9F else 0xBF) b
                && utf8_cont c && is_utf8 l3
              else match l3 with
              | [] => false
              | d :: l4 =>
                  in_range 0xF0 0xF4 a
                  && in_range (if a =? 0xF0 then 0x90 else 0x80) (if a =? 0xF4 then 0x8F else 0xBF) b
                  && utf8_cont c && utf8_cont d && is_utf8 l4
              end
          end
      end
  end.

Definition read_content (data buf : list Z) : exec (list Z * result Z OdError) :=
  let n := len data in
  if len buf <? n then mret (buf, Err ValueTooLong) else read_bytes n data buf.

(** [cap] is [None] with [use_alloc]. *)
Definition write_content (ty : list Z) (cap : option Z) (data : list Z) : result Value OdError :=
  if bool_decide (ty = str "visible_string") && negb (is_utf8 data) then Err DataTypeMismatch
  else match cap with
       | Some cap => if cap <? len data then Err ValueTooLong else Ok (VBytes data)
       | None => Ok (VBytes data)
       end.

(** ** The generator *)

Definition access_type (a : AccessKind) : AccessType :=
  match a with AccRo => Ro | AccRw => Rw | AccWo => Wo | AccConst => Const end.

Definition read_only : WriteBody := λ d _ _, mret (d, Err ReadOnly).
Definition write_only : ReadBody := λ _ _ buf, mret (buf, Err WriteOnly).

(** [self.x = v] for the value of a write. *)
Definition store (d : Dict) (set : Value → Dict) (r : result Value OdError) : exec (Dict * result unit OdError) :=
  match r with Ok v => mret (set v, Ok tt) | Err e => mret (d, Err e) end.

Section generator.
Context {Expr : Type} (eval : list Z → Expr → Value) (eval_string : Expr → list Z) (eds_compressed : list Z).

(** *** User entries *)

Definition field_capacity (alloc : bool) (var : VarDef Expr) : exec (option Z) :=
  if alloc then mret None else cap ← unwrap (vd_capacity var); mret (Some cap).

Definition zero_value (ty : list Z) : Value :=
  if bool_decide (ty = str "bool") then VBool false else VNum 0.

(** [field_defaults].  A string longer than its capacity is not stored. *)
Definition default_field (alloc : bool) (e : FlatEntry Expr) : exec (list Z * Value) :=
  let var := fl_var e in
  let ty := type_name var in
  v ← (if is_variable_length_type ty then
         cap ← field_capacity alloc var;
         mret (VBytes (match (if bool_decide (ty = str "visible_string") then vd_default var else None) with
                       | Some x =>
                           let s := eval_string x in
                           match cap with Some cap => if cap <? len s then [] else s | None => s end
                       | None => []
                       end))
       else mret (match vd_default var with Some x => eval ty x | None => zero_value ty end));
  mret (fl_name e, v).

Definition flat_meta (e : FlatEntry Expr) : exec OdEntryMeta :=
  dt ← unwrap (type_to_datatype (type_name (fl_var e)));
  mret (mkMeta (fl_index e) (fl_subindex e) dt (access_type (vd_access (fl_var e))) (Eds.pdo_mappable (fl_var e))
          (as_u16 <$> vd_capacity (fl_var e))).

Definition flat_read (e : FlatEntry Expr) : exec ReadBody :=
  let var := fl_var e in
  let ty := type_name var in
  if bool_decide (vd_access var = AccWo) then mret write_only
  else if is_variable_length_type ty then mret (λ d _ buf, read_content (content (field d (fl_name e))) buf)
  else size ← unwrap (type_size ty); mret (λ d _ buf, read_scalar ty size (field d (fl_name e)) buf).

Definition flat_write (alloc : bool) (e : FlatEntry Expr) : exec WriteBody :=
  let var := fl_var e in
  let ty := type_name var in
  if bool_decide (vd_access var = AccRo) || bool_decide (vd_access var = AccConst) then mret read_only
  else if is_variable_length_type ty then
    cap ← field_capacity alloc var;
    mret (λ d _ data, store d (λ v, set_field (fl_name e) v d) (write_content ty cap data))
  else
    size ← unwrap (type_size ty);
    mret (λ d _ data, store d (λ v, set_field (fl_name e) v d) (write_scalar ty size data)).

Definition flat_piece (alloc : bool) (e : FlatEntry Expr) : exec Piece :=
  m ← flat_meta e;
  r ← flat_read e;
  w ← flat_write alloc e;
  mret (single m r w).

(** *** Records and arrays *)

(** Sub-index 0: a constant. *)
Definition count_piece (index n : Z) : Piece :=
  single (mkMeta index 0 U8 Ro false None) (λ _ _ buf, read_byte n buf) read_only.

Definition record_piece (entry : OdEntry Expr) : list Piece :=
  match oe_kind entry with
  | EntryRecord subs => [count_piece (oe_index entry) (foldr Z.max 0 (map sub_subindex subs))]
  | _ => []
  end.

Record ArrayEntry := mkArrayEntry { ae_index : Z; ae_name : list Z; ae_def : ArrayDef }.

Definition collect_arrays (entries : list (OdEntry Expr)) : list ArrayEntry :=
  omap (λ e, match oe_kind e with
             | EntryArray def => Some (mkArrayEntry (oe_index e) (oe_name e) def)
             | _ => None
             end) entries.

Definition array_default (a : ArrayEntry) : list Z * list Value :=
  (ae_name a, replicate (Z.to_nat (arr_count (ae_def a))) (zero_value (element_type (ae_def a)))).

(** [self.name[(sub as usize) - 1]] *)
Definition element (d : Dict) (name : list Z) (sub : Z) : exec Value :=
  i ← usub sub 1; unwrap (array_field d name !! Z.to_nat i).

Definition set_element (d : Dict) (name : list Z) (sub : Z) (v : Value) : Dict :=
  set_array_field name (<[Z.to_nat (sub - 1) := v]> (array_field d name)) d.

Definition array_read (a : ArrayEntry) (size : Z) : ReadBody :=
  let ty := element_type (ae_def a) in
  if bool_decide (arr_access (ae_def a) = AccWo) then write_only
  else λ d sub buf, v ← element d (ae_name a) sub; read_scalar ty size v buf.

Definition array_write (a : ArrayEntry) (size : Z) : WriteBody :=
  let ty := element_type (ae_def a) in
  if bool_decide (arr_access (ae_def a) = AccRo) || bool_decide (arr_access (ae_def a) = AccConst) then read_only
  else λ d sub data,
    match write_scalar ty size data with
    | Err e => mret (d, Err e)
    | Ok v => _ ← element d (ae_name a) sub; mret (set_element d (ae_name a) sub v, Ok tt)
    end.

Definition array_pieces (a : ArrayEntry) : exec (list Piece) :=
  let count := as_u8 (arr_count (ae_def a)) in
  dt ← unwrap (type_to_datatype (element_type (ae_def a)));
  size ← unwrap (type_size (element_type (ae_def a)));
  mret [count_piece (ae_index a) count;
        mkPiece (map (λ sub, mkMeta (ae_index a) sub dt (access_type (arr_access (ae_def a)))
                                   (arr_pdo_mappable (ae_def a)) None) (seqZ 1 count))
          (mkArm (ae_index a) 1 count (array_read a size))
          (mkArm (ae_index a) 1 count (array_write a size))].

(** *** PDO records *)

Definition pdo_meta (index sub : Z) (dt : DataType) (access : AccessType) : OdEntryMeta :=
  mkMeta index sub dt access false None.

Definition upd (l : list Z) (i : nat) (v : Z) : list Z := <[i := v]> l.

Definition with_cob_id (i : nat) (v : Z) (p : PdoFields) : PdoFields :=
  mkPdoFields (upd (f_cob_id p) i v) (f_transmission_type p) (f_inhibit_time p) (f_timer p) (f_mapping_count p)
    (f_mappings p).
Definition with_transmission_type (i : nat) (v : Z) (p : PdoFields) : PdoFields :=
  mkPdoFields (f_cob_id p) (upd (f_transmission_type p) i v) (f_inhibit_time p) (f_timer p) (f_mapping_count p)
    (f_mappings p).
Definition with_inhibit_time (i : nat) (v : Z) (p : PdoFields) : PdoFields :=
  mkPdoFields (f_cob_id p) (f_transmission_type p) (upd (f_inhibit_time p) i v) (f_timer p) (f_mapping_count p)
    (f_mappings p).
Definition with_timer (i : nat) (v : Z) (p : PdoFields) : PdoFields :=
  mkPdoFields (f_cob_id p) (f_transmission_type p) (f_inhibit_time p) (upd (f_timer p) i v) (f_mapping_count p)
    (f_mappings p).
Definition with_mapping_count (i : nat) (v : Z) (p : PdoFields) : PdoFields :=
  mkPdoFields (f_cob_id p) (f_transmission_type p) (f_inhibit_time p) (f_timer p) (upd (f_mapping_count p) i v)
    (f_mappings p).
Definition with_mapping (i j : nat) (v : Z) (p : PdoFields) : PdoFields :=
  mkPdoFields (f_cob_id p) (f_transmission_type p) (f_inhibit_time p) (f_timer p) (f_mapping_count p)
    (<[i := upd (nth i (f_mappings p) []) j v]> (f_mappings p)).

(** [self.x = from_le_bytes(data)] after the length check. *)
Definition write_le (dir : PdoDirection) (n : Z) (set : Z → PdoFields → PdoFields) : WriteBody := λ d _ data,
  if negb (len data =? n) then mret (d, Err DataTypeMismatch)
  else mret (set_pdo_fields dir (set (from_le_bytes (take (Z.to_nat n) data)) (pdo_fields dir d)) d, Ok tt).

Definition read_le (dir : PdoDirection) (n : Z) (get : PdoFields → list Z) (i : nat) : ReadBody := λ d _ buf,
  read_bytes n (to_le_bytes (Z.to_nat n) (at_ (get (pdo_fields dir d)) i)) buf.

Definition write_transmission_type (dir : PdoDirection) (i : nat) : WriteBody := λ d _ data,
  if negb (len data =? 1) then mret (d, Err DataTypeMismatch)
  else if in_range 241 253 (at_ data 0) then mret (d, Err ValueRange)
  else mret (set_pdo_fields dir (with_transmission_type i (at_ data 0) (pdo_fields dir d)) d, Ok tt).

(** The loop over the active mappings: the sum of their lengths. *)
Fixpoint sum_mappings (lookup : Z → Z → option OdEntryMeta) (rx : bool) (row : list Z) (n j : nat) (total : Z)
    : exec (result Z OdError) :=
  match n with
  | O => mret (Ok total)
  | S n =>
      m ← unwrap (row !! j);
      match validate_target lookup m rx with
      | Err e => mret (Err e)
      | Ok _ => sum_mappings lookup rx row n (S j) (total + Z.land m 0xFF)
      end
  end.

Definition is_rpdo (dir : PdoDirection) : bool := match dir with DirTpdo => false | DirRpdo => true end.

Definition write_mapping_count (lookup : Z → Z → option OdEntryMeta) (dir : PdoDirection) (i : nat) : WriteBody :=
  λ d _ data,
  if negb (len data =? 1) then mret (d, Err DataTypeMismatch)
  else
    let count := at_ data 0 in
    if PDO_MAX_MAPPINGS <? count then mret (d, Err ValueRange)
    else
      total ← sum_mappings lookup (is_rpdo dir) (nth i (f_mappings (pdo_fields dir d)) []) (Z.to_nat count) 0 0;
      match total with
      | Err e => mret (d, Err e)
      | Ok total_bits =>
          if PDO_MAX_PAYLOAD_BITS <? total_bits then mret (d, Err ValueRange)
          else mret (set_pdo_fields dir (with_mapping_count i count (pdo_fields dir d)) d, Ok tt)
      end.

Definition write_mapping_entry (dir : PdoDirection) (i : nat) (sub : Z) : WriteBody := λ d _ data,
  if negb (at_ (f_mapping_count (pdo_fields dir d)) i =? 0) then mret (d, Err ReadOnly)
  else if negb (len data =? 4) then mret (d, Err DataTypeMismatch)
  else
    let mapping := from_le_bytes (take 4 data) in
    if PDO_MAX_PAYLOAD_BITS <? Z.land mapping 0xFF then mret (d, Err ValueRange)
    else mret (set_pdo_fields dir (with_mapping i (Z.to_nat (sub - 1)) mapping (pdo_fields dir d)) d, Ok tt).

Definition read_mapping_entry (dir : PdoDirection) (i : nat) (sub : Z) : ReadBody := λ d _ buf,
  read_bytes 4 (to_le_bytes 4 (at_ (nth i (f_mappings (pdo_fields dir d)) []) (Z.to_nat (sub - 1)))) buf.

Definition is_mutable (pdo : PdoDef) : bool := bool_decide (pd_mapping pdo = Mutable).

Definition max_map_sub (pdo : PdoDef) (resolved : list ResolvedMapping) : Z :=
  if is_mutable pdo then PDO_MAX_MAPPINGS else as_u8 (len resolved).

(** One iteration of the loops over [tpdo_defs] and [rpdo_defs]. *)
Definition pdo_pieces (lookup : Z → Z → option OdEntryMeta) (i : nat) (pdo : PdoDef) (resolved : list ResolvedMapping)
    : list Piece :=
  let dir := pd_direction pdo in
  let comm := comm_index pdo in
  let map_idx := map_index pdo in
  let map_access := if is_mutable pdo then Rw else Const in
  [ single (pdo_meta comm 0 U8 Ro) (λ _ _ buf, read_byte 5 buf) read_only;
    single (pdo_meta comm 1 U32 Rw) (read_le dir 4 f_cob_id i) (write_le dir 4 (with_cob_id i));
    single (pdo_meta comm 2 U8 Rw) (λ d _ buf, read_byte (at_ (f_transmission_type (pdo_fields dir d)) i) buf)
      (write_transmission_type dir i) ]
  ++ match dir with
     | DirTpdo => [single (pdo_meta comm 3 U16 Rw) (read_le dir 2 f_inhibit_time i) (write_le dir 2 (with_inhibit_time i))]
     | DirRpdo => []
     end
  ++ [ single (pdo_meta comm 5 U16 Rw) (read_le dir 2 f_timer i) (write_le dir 2 (with_timer i));
       single (pdo_meta map_idx 0 U8 map_access)
         (λ d _ buf, read_byte (at_ (f_mapping_count (pdo_fields dir d)) i) buf)
         (if is_mutable pdo then write_mapping_count lookup dir i else read_only) ]
  ++ map (λ sub, single (pdo_meta map_idx sub U32 map_access) (read_mapping_entry dir i sub)
                   (if is_mutable pdo then write_mapping_entry dir i sub else read_only))
       (seqZ 1 (max_map_sub pdo resolved)).

(** *** SDO server records *)

Definition server_index (s : SdoServerDef) : Z := 0x1200 + (sd_number s - 1).

Definition server_pieces (i : nat) (s : SdoServerDef) : list Piece :=
  let idx := server_index s in
  [ single (pdo_meta idx 0 U8 Ro) (λ _ _ buf, read_byte 2 buf) read_only;
    single (pdo_meta idx 1 U32 Ro) (λ d _ buf, read_bytes 4 (to_le_bytes 4 (at_ (d_cob_rx d) i)) buf) read_only;
    single (pdo_meta idx 2 U32 Ro) (λ d _ buf, read_bytes 4 (to_le_bytes 4 (at_ (d_cob_tx d) i)) buf) read_only ].

(** *** The stored EDS *)

Definition store_pieces : list Piece :=
  [ single (mkMeta 0x1021 0 Domain Ro false (Some (as_u16 (len eds_compressed))))
      (λ _ _ buf, read_content eds_compressed buf) read_only;
    single (mkMeta 0x1022 0 U8 Ro false None) (λ _ _ buf, read_byte STORE_FORMAT_DEFLATE buf) read_only ].

(** *** [generate] *)

Definition pdo_defs (dir : PdoDirection) (od : OdDefinition Expr) : list PdoDef :=
  List.filter (λ p, bool_decide (pd_direction p = dir)) (od_pdos od).

Definition no_duplicates (l : list Z) : bool := bool_decide (NoDup l).

(** The slots of the COB-ID collision check: node-relative or not, and value. *)
Definition cob_slot (spec : CobIdSpec) : bool * Z :=
  match spec with Absolute id => (false, id) | NodeRelative base => (true, base) end.

Definition cob_slots (servers : list SdoServerDef) : list (bool * Z) :=
  [(true, 0x600); (true, 0x580)] ++ flat_map (λ s, [cob_slot (sd_cob_rx s); cob_slot (sd_cob_tx s)]) servers.

(** The default of a stored COB-ID: 0 is resolved with the node id. *)
Definition stored_default (spec : option CobIdSpec) : Z :=
  match spec with Some (Absolute id) => id | _ => 0 end.

(** The expression [resolve_cob] at run time. *)
Definition resolve_cob (spec : CobIdSpec) (node_id : Z) : exec Z :=
  match spec with
  | Absolute id => mret (as_u16 id)
  | NodeRelative base => checked 16 (as_u16 base + node_id)
  end.

Definition map_row (resolved : list ResolvedMapping) : exec (list Z) :=
  _ ← assert_ (len resolved <=? PDO_MAX_MAPPINGS);
  mret (map raw resolved ++ zeros (PDO_MAX_MAPPINGS - len resolved)).

Definition pdo_defaults (dir : PdoDirection) (defs : list PdoDef) (resolved : list (list ResolvedMapping))
    : exec PdoFields :=
  rows ← for_each map_row resolved;
  mret (mkPdoFields (map (λ p, stored_default (pd_cob_id p)) defs) (map pd_transmission_type defs)
          (match dir with DirTpdo => map pd_inhibit_time defs | DirRpdo => [] end)
          (map pd_event_timer defs) (map (λ r, as_u8 (len r)) resolved) rows).

Record Generated := mkGenerated {
  g_meta : list OdEntryMeta;
  g_read : list (Arm ReadBody);
  g_write : list (Arm WriteBody);
  g_sub_counts : list (Z * Z);
  g_new : Dict;
  g_tpdo_defs : list PdoDef;
  g_rpdo_defs : list PdoDef;
  g_servers : list SdoServerDef;
  g_error_register : option (list Z);
  g_changes : list (FlatEntry Expr);
  g_array_changes : list ArrayEntry;
  g_validate : option (list Z);
}.

Definition lookup_meta (metas : list OdEntryMeta) (index subindex : Z) : option OdEntryMeta :=
  List.find (λ e, (meta_index e =? index) && (meta_subindex e =? subindex)) metas.

(** [sub_counts]: user entries, then PDO and server records, then arrays. *)
Definition flat_sub_counts (flat : list (FlatEntry Expr)) : list (Z * Z) :=
  foldl (λ m e,
    let counter := default 0 (map_get m (fl_index e)) in
    map_insert m (fl_index e) (if counter <? fl_subindex e then fl_subindex e else counter)) [] flat.

Definition insert_all (m : list (Z * Z)) (l : list (Z * Z)) : list (Z * Z) :=
  foldl (λ m e, map_insert m (fst e) (snd e)) m l.

Definition pdo_sub_counts (pdos : list (PdoDef * list ResolvedMapping)) : list (Z * Z) :=
  flat_map (λ p, [(comm_index (fst p), 5); (map_index (fst p), max_map_sub (fst p) (snd p))]) pdos.

Definition is_error_register (e : OdEntry Expr) : bool :=
  match oe_kind e with
  | EntryVar var => (oe_index e =? 0x1001) && bool_decide (type_name var = str "u8")
  | _ => false
  end.

Definition is_writable (a : AccessKind) : bool := bool_decide (a = AccRw) || bool_decide (a = AccWo).

(** The PDO pieces of one direction, [i] counting the definitions. *)
Fixpoint pdo_loop (lookup : Z → Z → option OdEntryMeta) (i : nat) (l : list (PdoDef * list ResolvedMapping))
    : list Piece :=
  match l with
  | [] => []
  | (pdo, resolved) :: l => pdo_pieces lookup i pdo resolved ++ pdo_loop lookup (S i) l
  end.

Fixpoint server_loop (i : nat) (l : list SdoServerDef) : list Piece :=
  match l with [] => [] | s :: l => server_pieces i s ++ server_loop (S i) l end.

(** The three tables: user entries, records and arrays, communication objects. *)
Definition pieces_of (lookup : Z → Z → option OdEntryMeta) (od : OdDefinition Expr) (arrays : list (list Piece))
    (flat : list Piece) (tpdos rpdos : list (PdoDef * list ResolvedMapping)) : list Piece * list Piece * list Piece :=
  (flat, flat_map record_piece (od_entries od) ++ concat arrays,
   pdo_loop lookup 0 tpdos ++ pdo_loop lookup 0 rpdos ++ server_loop 0 (od_sdo_servers od)).

Definition metas_of (p : list Piece * list Piece * list Piece) : list OdEntryMeta :=
  let '(flat, arrays, comm) := p in
  flat_map p_metas flat ++ flat_map p_metas comm ++ flat_map p_metas arrays ++ flat_map p_metas store_pieces.

Definition arms_of {B} (arm : Piece → Arm B) (p : list Piece * list Piece * list Piece) : list (Arm B) :=
  let '(flat, arrays, comm) := p in
  map arm flat ++ map arm arrays ++ map arm comm ++ map arm store_pieces.

Definition generate (od : OdDefinition Expr) : exec Generated :=
  let flat := flatten (od_entries od) in
  let arrays := collect_arrays (od_entries od) in
  let tpdo_defs := pdo_defs DirTpdo od in
  let rpdo_defs := pdo_defs DirRpdo od in
  let servers := od_sdo_servers od in
  _ ← assert_ (no_duplicates (map pd_number tpdo_defs));
  _ ← assert_ (no_duplicates (map pd_number rpdo_defs));
  tpdo_resolved ← for_each (λ p, resolve_pdo_mappings p flat) tpdo_defs;
  rpdo_resolved ← for_each (λ p, resolve_pdo_mappings p flat) rpdo_defs;
  _ ← assert_ (no_duplicates (map sd_number servers));
  _ ← assert_ (bool_decide (NoDup (cob_slots servers)));
  fields ← for_each (default_field (use_alloc od)) flat;
  array_pieces ← for_each array_pieces arrays;
  tpdo ← pdo_defaults DirTpdo tpdo_defs tpdo_resolved;
  rpdo ← pdo_defaults DirRpdo rpdo_defs rpdo_resolved;
  flat_pieces ← for_each (flat_piece (use_alloc od)) flat;
  let tpdos := combine tpdo_defs tpdo_resolved in
  let rpdos := combine rpdo_defs rpdo_resolved in
  let pieces lookup := pieces_of lookup od array_pieces flat_pieces tpdos rpdos in
  (* The table does not depend on the bodies that call [lookup]. *)
  let metas := metas_of (pieces (λ _ _, None)) in
  let pieces := pieces (lookup_meta metas) in
  mret (mkGenerated metas (arms_of p_read pieces) (arms_of p_write pieces)
    (insert_all (insert_all (flat_sub_counts flat)
                   (pdo_sub_counts (tpdos ++ rpdos) ++ map (λ s, (server_index s, 2)) servers))
       (map (λ a, (ae_index a, as_u8 (arr_count (ae_def a)))) arrays))
    (mkDict fields (map array_default arrays) tpdo rpdo
       (map (λ s, stored_default (Some (sd_cob_rx s))) servers)
       (map (λ s, stored_default (Some (sd_cob_tx s))) servers))
    tpdo_defs rpdo_defs servers
    (oe_name <$> List.find is_error_register (od_entries od))
    (List.filter (λ e, is_writable (vd_access (fl_var e))) flat)
    (List.filter (λ a, is_writable (arr_access (ae_def a))) arrays)
    (validate_write_fn od)).
End generator.
Arguments Generated Expr : clear implicits.

(** ** The generated implementations *)

(** A variant of the change enum, named by its field. *)
Inductive Change :=
| Changed (field : list Z)
| ChangedTo (field : list Z) (v : Value)
| ElementChanged (field : list Z) (sub : Z) (v : Value).

Section generated.
Context {Expr : Type} (g : Generated Expr).
Context (validate_fn : list Z → Dict → Z → Z → list Z → result unit OdError).

Definition gen_lookup (index subindex : Z) : option OdEntryMeta := lookup_meta (g_meta g) index subindex.

(** The caller's slice is too short for a readable fixed-size entry. *)
Definition too_short (index subindex : Z) (buf : list Z) : bool :=
  (len buf <? 8)
  && match gen_lookup index subindex with
     | Some meta =>
         negb (bool_decide (access meta = Wo))
         && match DataType.size (data_type meta) with Some size => len buf <? size | None => false end
     | None => false
     end.

Definition gen_read (d : Dict) (index subindex : Z) (buf : list Z) : exec (list Z * result Z OdError) :=
  if too_short index subindex buf then mret (buf, Err ValueTooLong)
  else match select (g_read g) index subindex with
       | Some body => body d subindex buf
       | None => mret (buf, Err NotFound)
       end.

Definition gen_write (d : Dict) (index subindex : Z) (data : list Z) : exec (Dict * result unit OdError) :=
  match select (g_write g) index subindex with
  | Some body => body d subindex data
  | None => mret (d, Err NotFound)
  end.

Definition gen_sub_count (index : Z) : option Z := map_get (g_sub_counts g) index.

Definition gen_validate_write (d : Dict) (index subindex : Z) (data : list Z) : result unit OdError :=
  match g_validate g with Some f => validate_fn f d index subindex data | None => Ok tt end.

(** [store_sdo_server_cob_ids] *)
Fixpoint store_servers_loop (i : nat) (servers : list SdoServerDef) (node_id : Z) (d : Dict) : exec Dict :=
  match servers with
  | [] => mret d
  | s :: servers =>
      rx ← resolve_cob (sd_cob_rx s) node_id;
      tx ← resolve_cob (sd_cob_tx s) node_id;
      store_servers_loop (S i) servers node_id (set_servers (upd (d_cob_rx d) i rx) (upd (d_cob_tx d) i tx) d)
  end.

Definition gen_store_servers (d : Dict) (node_id : Z) : exec Dict := store_servers_loop 0 (g_servers g) node_id d.

Definition gen_store_error_register (d : Dict) (v : Z) : Dict :=
  match g_error_register g with Some name => set_field name (VNum v) d | None => d end.

(** *** Configurations *)

(** The COB-ID of a stored 0; [predefined] is that of PDO 1. *)
Definition default_cob (predefined : Z) (pdo : PdoDef) (node_id : Z) : exec Z :=
  match pd_cob_id pdo with
  | Some (NodeRelative base) => checked 16 (as_u16 base + node_id)
  | _ => if pd_number pdo <=? 4 then checked 16 (predefined + (pd_number pdo - 1) * 0x100 + node_id) else mret 0
  end.

Definition config_cob (predefined : Z) (pdo : PdoDef) (raw node_id : Z) : exec Z :=
  if raw =? 0 then default_cob predefined pdo node_id else mret (as_u16 (Z.land raw 0x7FF)).

Definition config_enabled (raw cob_id : Z) : bool := (Z.land raw 0x80000000 =? 0) && negb (cob_id =? 0).

Definition config_mappings (p : PdoFields) (i : nat) : list PdoMapping :=
  let count := Z.min (at_ (f_mapping_count p) i) PDO_MAX_MAPPINGS in
  map PdoMapping.from_mapping_value (take (Z.to_nat count) (nth i (f_mappings p) [])).

Fixpoint tpdo_configs_from (i : nat) (defs : list PdoDef) (d : Dict) (node_id : Z) : exec (list TpdoConfig) :=
  match defs with
  | [] => mret []
  | pdo :: defs =>
      let p := d_tpdo d in
      let raw := at_ (f_cob_id p) i in
      cob_id ← config_cob 0x180 pdo raw node_id;
      configs ← tpdo_configs_from (S i) defs d node_id;
      mret (mkTpdo (pd_number pdo) cob_id (at_ (f_transmission_type p) i) (at_ (f_inhibit_time p) i)
              (at_ (f_timer p) i) (config_mappings p i) (config_enabled raw cob_id) :: configs)
  end.

Fixpoint rpdo_configs_from (i : nat) (defs : list PdoDef) (d : Dict) (node_id : Z) : exec (list RpdoConfig) :=
  match defs with
  | [] => mret []
  | pdo :: defs =>
      let p := d_rpdo d in
      let raw := at_ (f_cob_id p) i in
      cob_id ← config_cob 0x200 pdo raw node_id;
      configs ← rpdo_configs_from (S i) defs d node_id;
      mret (mkRpdo (pd_number pdo) cob_id (at_ (f_transmission_type p) i) (at_ (f_timer p) i) (config_mappings p i)
              (config_enabled raw cob_id) :: configs)
  end.

Definition tpdo_configs (d : Dict) (node_id : Z) : exec (list TpdoConfig) :=
  tpdo_configs_from 0 (g_tpdo_defs g) d node_id.
Definition rpdo_configs (d : Dict) (node_id : Z) : exec (list RpdoConfig) :=
  rpdo_configs_from 0 (g_rpdo_defs g) d node_id.

Fixpoint sdo_server_configs (servers : list SdoServerDef) (node_id : Z) : exec (list SdoServerConfig) :=
  match servers with
  | [] => mret []
  | s :: servers =>
      rx ← resolve_cob (sd_cob_rx s) node_id;
      tx ← resolve_cob (sd_cob_tx s) node_id;
      configs ← sdo_server_configs servers node_id;
      mret (mkSdoServerConfig (sd_number s) rx tx :: configs)
  end.

(** *** Changes *)

Definition decode_array (d : Dict) (a : ArrayEntry) (index subindex : Z) : option (exec Change) :=
  if (ae_index a =? index) && in_range 1 (as_u8 (arr_count (ae_def a))) subindex
  then Some (v ← element d (ae_name a) subindex; mret (ElementChanged (ae_name a) subindex v))
  else None.

Definition decode_event (d : Dict) (event : OdEvent) : exec (option Change) :=
  if bool_decide (ev_source event = SrcRpdoDeadline) then mret None
  else
    match List.find (λ e, (fl_index e =? ev_index event) && (fl_subindex e =? ev_subindex event)) (g_changes g) with
    | Some e =>
        mret (Some (if is_variable_length_type (type_name (fl_var e)) then Changed (fl_name e)
                    else ChangedTo (fl_name e) (field d (fl_name e))))
    | None =>
        match head (omap (λ a, decode_array d a (ev_index event) (ev_subindex event)) (g_array_changes g)) with
        | Some change => c ← change; mret (Some c)
        | None => mret None
        end
    end.
End generated.

(** The dictionary type of a definition. *)
Definition DictOf {Expr} (g : Generated Expr) : Type := Dict.

(** The interface is typed: a slice keeps its length, bytes and abort codes
    have their width.  [typed_read] ([typed_read_id]), [typed_error] and the
    reduction of written bytes are the identity on the values of the Rust
    types. *)
Definition typed_error (e : OdError) : OdError := match e with Abort c => Abort (as_u32 c) | _ => e end.

Definition typed_result {A} (r : result A OdError) : result A OdError :=
  match r with Ok x => Ok x | Err e => Err (typed_error e) end.

Definition typed_read (buf : list Z) (r : list Z * result Z OdError) : list Z * result Z OdError :=
  let '(b, r) := r in
  let within := match r with Ok n => in_range 0 (len buf) n | Err _ => true end in
  if (len b =? len buf) && within then (map as_u8 b, typed_result r) else (buf, Err HardwareError).

(** The trait's methods return; that the generated ones do not panic is
    [generated_is_table]. *)
#[export] Instance generated_od {Expr} (g : Generated Expr)
    (validate_fn : list Z → Dict → Z → Z → list Z → result unit OdError) : ObjectDictionary (DictOf g) := {
  od_lookup _ := gen_lookup g;
  od_read d i s buf :=
    match gen_read g d i s buf with Ret r => typed_read buf r | Panic => (buf, Err HardwareError) end;
  od_write d i s data :=
    match gen_write g d i s (map as_u8 data) with
    | Ret (d, r) => (d, typed_result r)
    | Panic => (d, Err HardwareError)
    end;
  od_sub_count _ := gen_sub_count g;
  od_validate_write d i s data := typed_result (gen_validate_write g validate_fn d i s data);
  od_store_sdo_server_cob_ids d id := match gen_store_servers g d id with Ret d => d | Panic => d end;
  od_store_error_register := gen_store_error_register g;
}.

(** ** A concrete definition *)

Definition demo_var (ty : list Z) (access : AccessKind) (mappable : bool) (v : Z) : VarDef Z :=
  mkVarDef ty None (Some v) access mappable.

Definition demo_od : OdDefinition Z :=
  mkOdDefinition (str "Demo")
    [ mkOdEntry 0x1001 (str "error_register") (EntryVar (demo_var (str "u8") AccRo false 0));
      mkOdEntry 0x1005 (str "sync_cob") (EntryVar (demo_var (str "u32") AccRw false 0x80));
      mkOdEntry 0x1008 (str "device_name") (EntryVar (mkVarDef (str "visible_string") (Some 8) None AccRw false));
      mkOdEntry 0x2000 (str "speed") (EntryVar (demo_var (str "i16") AccRw true (-2)));
      mkOdEntry 0x2001 (str "gains") (EntryRecord
        [ mkSubEntry 1 (str "gains_p") (demo_var (str "i24") AccRw true 5); mkSubEntry 3 (str "gains_on") (mkVarDef (str "bool") None None AccRw true) ]);
      mkOdEntry 0x2100 (str "table") (EntryArray (mkArrayDef (str "u16") None 4 AccRw false)) ]
    [ mkPdoDef DirTpdo 1 None 255 0 0 Mutable [mkMappingDef (str "speed") None None; mkMappingDef (str "gains_on") None None];
      mkPdoDef DirRpdo 2 (Some (NodeRelative 0x300)) 1 0 100 Immutable [mkMappingDef (str "gains_p") None None] ]
    [ mkSdoServerDef 2 (Absolute 0x640) (NodeRelative 0x5C0) ] false None.

Definition demo_eval (ty : list Z) (v : Z) : Value :=
  if bool_decide (ty = str "bool") then VBool (negb (v =? 0)) else VNum v.
Definition demo_string (_ : Z) : list Z := [].
Definition demo_eds : list Z := [0xAA; 0xBB].

Definition demo_generate : exec (Generated Z) := generate demo_eval demo_string demo_eds demo_od.
