(* ===== verification/GenSpec.v ===== *)
(** * Generated dictionaries behave as a table of typed locations

    An [Entry] is a row of the metadata with the place of its value in the
    struct.  [ref_read] and [ref_write] are the reference; the arms of
    [generate] are shown to compute them. *)
From S2P Require Import Prelude Text Frame Od SdoProtocol PdoEngine Node Eds Gen.

(** ** Locations *)

Inductive Loc :=
| LField (name : list Z)
| LElem (name : list Z) (k : nat)
| LCob (dir : PdoDirection) (i : nat)
| LType (dir : PdoDirection) (i : nat)
| LInhibit (dir : PdoDirection) (i : nat)
| LTimer (dir : PdoDirection) (i : nat)
| LCount (dir : PdoDirection) (i : nat)
| LMap (dir : PdoDirection) (i j : nat)
| LServerRx (i : nat)
| LServerTx (i : nat)
| LConst (v : Value).

Definition row (d : Dict) (dir : PdoDirection) (i : nat) : list Z := nth i (f_mappings (pdo_fields dir d)) [].

Definition get_loc (d : Dict) (l : Loc) : Value :=
  match l with
  | LField name => field d name
  | LElem name k => nth k (array_field d name) (VNum 0)
  | LCob dir i => VNum (at_ (f_cob_id (pdo_fields dir d)) i)
  | LType dir i => VNum (at_ (f_transmission_type (pdo_fields dir d)) i)
  | LInhibit dir i => VNum (at_ (f_inhibit_time (pdo_fields dir d)) i)
  | LTimer dir i => VNum (at_ (f_timer (pdo_fields dir d)) i)
  | LCount dir i => VNum (at_ (f_mapping_count (pdo_fields dir d)) i)
  | LMap dir i j => VNum (at_ (row d dir i) j)
  | LServerRx i => VNum (at_ (d_cob_rx d) i)
  | LServerTx i => VNum (at_ (d_cob_tx d) i)
  | LConst v => v
  end.

Definition on_pdo (dir : PdoDirection) (f : PdoFields → PdoFields) (d : Dict) : Dict :=
  set_pdo_fields dir (f (pdo_fields dir d)) d.

Definition set_loc (l : Loc) (v : Value) (d : Dict) : Dict :=
  match l with
  | LField name => set_field name v d
  | LElem name k => set_array_field name (<[k := v]> (array_field d name)) d
  | LCob dir i => on_pdo dir (with_cob_id i (num v)) d
  | LType dir i => on_pdo dir (with_transmission_type i (num v)) d
  | LInhibit dir i => on_pdo dir (with_inhibit_time i (num v)) d
  | LTimer dir i => on_pdo dir (with_timer i (num v)) d
  | LCount dir i => on_pdo dir (with_mapping_count i (num v)) d
  | LMap dir i j => on_pdo dir (with_mapping i j (num v)) d
  | LServerRx i => set_servers (upd (d_cob_rx d) i (num v)) (d_cob_tx d) d
  | LServerTx i => set_servers (d_cob_rx d) (upd (d_cob_tx d) i (num v)) d
  | LConst _ => d
  end.

(** The location exists in the struct. *)
Definition has_loc (d : Dict) (l : Loc) : Prop :=
  match l with
  | LField name => In name (map fst (d_fields d))
  | LElem name k => In name (map fst (d_arrays d)) ∧ (k < length (array_field d name))%nat
  | LCob dir i => (i < length (f_cob_id (pdo_fields dir d)))%nat
  | LType dir i => (i < length (f_transmission_type (pdo_fields dir d)))%nat
  | LInhibit dir i => (i < length (f_inhibit_time (pdo_fields dir d)))%nat
  | LTimer dir i => (i < length (f_timer (pdo_fields dir d)))%nat
  | LCount dir i => (i < length (f_mapping_count (pdo_fields dir d)))%nat
  | LMap dir i j => (i < length (f_mappings (pdo_fields dir d)) ∧ j < length (row d dir i))%nat
  | LServerRx i => (i < length (d_cob_rx d))%nat
  | LServerTx i => (i < length (d_cob_tx d))%nat
  | LConst _ => True
  end.

(** ** Association lists and updates *)

Section assoc.
Context {A : Type} (dflt : A).
Implicit Types (l : list (list Z * A)).

Lemma assoc_cons n k x l : assoc dflt ((k, x) :: l) n = if bool_decide (k = n) then x else assoc dflt l n.
Proof. unfold assoc. simpl. by case_bool_decide. Qed.

Lemma assoc_set_fst l n v : map fst (assoc_set l n v) = map fst l.
Proof. induction l as [|[k x] l IH]; simpl; [done|]. case_bool_decide; simpl; congruence. Qed.

Lemma assoc_set_same l n v : In n (map fst l) → assoc dflt (assoc_set l n v) n = v.
Proof.
  induction l as [|[k x] l IH]; simpl; [done|]. case_bool_decide as Hk; rewrite assoc_cons.
  - by rewrite bool_decide_eq_true_2.
  - rewrite bool_decide_eq_false_2 by done. intros [|]; [done|]. by apply IH.
Qed.

Lemma assoc_set_other l n n' v : n ≠ n' → assoc dflt (assoc_set l n v) n' = assoc dflt l n'.
Proof.
  intros Hn. induction l as [|[k x] l IH]; simpl; [done|]. case_bool_decide; rewrite !assoc_cons; [|by rewrite IH].
  rewrite !bool_decide_eq_false_2 by congruence. done.
Qed.

Lemma assoc_set_missing l n v : ¬ In n (map fst l) → assoc_set l n v = l.
Proof.
  induction l as [|[k x] l IH]; simpl; [done|]. intros Hn.
  case_bool_decide; [naive_solver|]. f_equal. naive_solver.
Qed.
End assoc.

Lemma nth_insert {A} (l : list A) i j v dflt :
  nth j (<[i := v]> l) dflt = if decide (i = j ∧ (i < length l)%nat) then v else nth j l dflt.
Proof.
  revert i j. induction l as [|x l IH]; intros i j.
  - case_decide; [simpl in *; lia|]. by destruct i.
  - destruct i as [|i], j as [|j]; case_decide; simpl in *; try done; try lia; rewrite IH; case_decide; (done || lia).
Qed.

Lemma at_upd l i j v : at_ (upd l i v) j = if decide (i = j ∧ (i < length l)%nat) then v else at_ l j.
Proof. apply nth_insert. Qed.

Lemma pdo_fields_on dir dir' f d :
  pdo_fields dir' (on_pdo dir f d) = if decide (dir = dir') then f (pdo_fields dir d) else pdo_fields dir' d.
Proof. by destruct dir, dir'. Qed.

(** Numbers for the locations that hold them. *)
Definition numeric (l : Loc) : bool := match l with LField _ | LElem _ _ | LConst _ => false | _ => true end.

Lemma get_set_same l v d :
  has_loc d l → (∀ c, l ≠ LConst c) → (numeric l = true → v = VNum (num v)) → get_loc (set_loc l v d) l = v.
Proof.
  intros Hl Hc Hv. destruct l; simpl in *; unfold row in *; rewrite ?pdo_fields_on, ?decide_True by done; simpl;
    try (rewrite at_upd, decide_True by (split; [done|by simpl in *]); by rewrite Hv by done); try done.
  - by apply assoc_set_same.
  - unfold array_field, set_array_field. simpl. rewrite assoc_set_same by tauto.
    rewrite nth_insert, decide_True by (split; [done|tauto]). done.
  - rewrite nth_insert, decide_True by (split; [done|tauto]). rewrite at_upd, decide_True by tauto. by rewrite Hv.
  - by destruct (Hc v0).
Qed.

Lemma get_set_other l l' v d : l ≠ l' → get_loc (set_loc l v d) l' = get_loc d l'.
Proof.
  intros Hl. destruct l, l'; simpl; try done; unfold row; rewrite ?pdo_fields_on; try (by destruct dir); try (by case_decide);
    try (case_decide; [subst|done]; simpl; rewrite ?at_upd, ?decide_False by (intros [-> ?]; done); done).
  - apply assoc_set_other. congruence.
  - unfold array_field, set_array_field. simpl. destruct (decide (name = name0)) as [->|Hn].
    + destruct (List.in_dec (λ x y, decide (x = y)) name0 (map fst (d_arrays d))) as [Hin|Hin].
      * rewrite assoc_set_same by done. rewrite nth_insert, decide_False; [done|]. intros [-> _]. done.
      * by rewrite assoc_set_missing.
    + by rewrite assoc_set_other.
  - case_decide as Hd; [subst dir0|done]. simpl. rewrite nth_insert. case_decide as Hi; [|done]. destruct Hi as [-> _].
    rewrite at_upd, decide_False; [done|]. intros [-> _]. by destruct Hl.
  - rewrite at_upd, decide_False; [done|]. intros [-> _]. done.
  - rewrite at_upd, decide_False; [done|]. intros [-> _]. done.
Qed.

(** ** The reference *)

Definition signed_type (dt : DataType) : bool :=
  bool_decide (dt ∈ [I8; I16; I24; I32; I64]).

Definition encode (dt : DataType) (v : Value) : list Z :=
  match DataType.size dt with
  | Some n => if bool_decide (dt = Boolean) then [if truth v then 1 else 0] else to_le_bytes (Z.to_nat n) (num v)
  | None => content v
  end.

Definition decode (dt : DataType) (data : list Z) : Value :=
  match DataType.size dt with
  | Some n =>
      if bool_decide (dt = Boolean) then VBool (negb (at_ data 0 =? 0))
      else VNum (if signed_type dt then signed_of n (from_le_bytes data) else from_le_bytes data)
  | None => VBytes data
  end.

(** A row of the table: its metadata, its place, and the checks of a write. *)
Record Entry := mkEnt {
  e_meta : OdEntryMeta;
  e_loc : Loc;
  e_check : Dict → list Z → result unit OdError;
}.

Definition e_addr (e : Entry) : Z * Z := (meta_index (e_meta e), meta_subindex (e_meta e)).

Definition ref_read (d : Dict) (e : Entry) (buf : list Z) : list Z * result Z OdError :=
  if bool_decide (access (e_meta e) = Wo) then (buf, Err WriteOnly)
  else
    let v := encode (data_type (e_meta e)) (get_loc d (e_loc e)) in
    if len buf <? len v then (buf, Err ValueTooLong) else (overwrite buf v, Ok (len v)).

Definition read_only_access (a : AccessType) : bool := bool_decide (a = Ro) || bool_decide (a = Const).

Definition ref_write (d : Dict) (e : Entry) (data : list Z) : Dict * result unit OdError :=
  if read_only_access (access (e_meta e)) then (d, Err ReadOnly)
  else match e_check e d data with
       | Err x => (d, Err x)
       | Ok _ => (set_loc (e_loc e) (decode (data_type (e_meta e)) data) d, Ok tt)
       end.

(** The checks on the bytes alone. *)
Definition value_check (dt : DataType) (cap : option Z) (data : list Z) : result unit OdError :=
  match DataType.size dt with
  | Some n => if negb (len data =? n) then Err DataTypeMismatch else Ok tt
  | None =>
      if bool_decide (dt = VisibleString) && negb (is_utf8 data) then Err DataTypeMismatch
      else match cap with Some cap => if cap <? len data then Err ValueTooLong else Ok tt | None => Ok tt end
  end.

Definition plain (m : OdEntryMeta) (cap : option Z) (l : Loc) : Entry :=
  mkEnt m l (λ _ data, value_check (data_type m) cap data).

Definition constant (m : OdEntryMeta) (v : Value) : Entry := plain m None (LConst v).

Section entries.
Context {Expr : Type}.

Definition flat_cap (alloc : bool) (var : VarDef Expr) : option Z := if alloc then None else vd_capacity var.

Definition entry_meta (e : FlatEntry Expr) : OdEntryMeta :=
  mkMeta (fl_index e) (fl_subindex e) (default U8 (type_to_datatype (type_name (fl_var e))))
    (access_type (vd_access (fl_var e))) (Eds.pdo_mappable (fl_var e)) (as_u16 <$> vd_capacity (fl_var e)).

Definition flat_ent (alloc : bool) (e : FlatEntry Expr) : Entry :=
  plain (entry_meta e) (flat_cap alloc (fl_var e)) (LField (fl_name e)).

Definition count_ent (index n : Z) : Entry := constant (mkMeta index 0 U8 Ro false None) (VNum n).

Definition record_ents (entry : OdEntry Expr) : list Entry :=
  match oe_kind entry with
  | EntryRecord subs => [count_ent (oe_index entry) (foldr Z.max 0 (map sub_subindex subs))]
  | _ => []
  end.

Definition element_ent (a : ArrayEntry) (sub : Z) : Entry :=
  plain (mkMeta (ae_index a) sub (default U8 (type_to_datatype (element_type (ae_def a))))
           (access_type (arr_access (ae_def a))) (arr_pdo_mappable (ae_def a)) None) None
    (LElem (ae_name a) (Z.to_nat (sub - 1))).

Definition array_ents (a : ArrayEntry) : list Entry :=
  let count := as_u8 (arr_count (ae_def a)) in
  count_ent (ae_index a) count :: map (element_ent a) (seqZ 1 count).
End entries.

Definition type_check (_ : Dict) (data : list Z) : result unit OdError :=
  if negb (len data =? 1) then Err DataTypeMismatch
  else if in_range 241 253 (at_ data 0) then Err ValueRange else Ok tt.

(** The sum of the lengths of eligible mappings. *)
Fixpoint sum_lengths (lookup : Z → Z → option OdEntryMeta) (rx : bool) (ms : list Z) (total : Z) : result Z OdError :=
  match ms with
  | [] => Ok total
  | m :: ms =>
      match validate_target lookup m rx with
      | Err e => Err e
      | Ok _ => sum_lengths lookup rx ms (total + Z.land m 0xFF)
      end
  end.

Definition count_check (lookup : Z → Z → option OdEntryMeta) (dir : PdoDirection) (i : nat) (d : Dict) (data : list Z)
    : result unit OdError :=
  if negb (len data =? 1) then Err DataTypeMismatch
  else if PDO_MAX_MAPPINGS <? at_ data 0 then Err ValueRange
  else match sum_lengths lookup (is_rpdo dir) (take (Z.to_nat (at_ data 0)) (row d dir i)) 0 with
       | Err e => Err e
       | Ok total => if PDO_MAX_PAYLOAD_BITS <? total then Err ValueRange else Ok tt
       end.

Definition mapping_check (dir : PdoDirection) (i : nat) (d : Dict) (data : list Z) : result unit OdError :=
  if negb (at_ (f_mapping_count (pdo_fields dir d)) i =? 0) then Err ReadOnly
  else if negb (len data =? 4) then Err DataTypeMismatch
  else if PDO_MAX_PAYLOAD_BITS <? Z.land (from_le_bytes data) 0xFF then Err ValueRange else Ok tt.

Definition map_access (pdo : PdoDef) : AccessType := if is_mutable pdo then Rw else Const.

Definition pdo_ents (lookup : Z → Z → option OdEntryMeta) (i : nat) (pdo : PdoDef) (resolved : list ResolvedMapping)
    : list Entry :=
  let dir := pd_direction pdo in
  let comm := comm_index pdo in
  let map_idx := map_index pdo in
  [ constant (pdo_meta comm 0 U8 Ro) (VNum 5);
    plain (pdo_meta comm 1 U32 Rw) None (LCob dir i);
    mkEnt (pdo_meta comm 2 U8 Rw) (LType dir i) type_check ]
  ++ match dir with DirTpdo => [plain (pdo_meta comm 3 U16 Rw) None (LInhibit dir i)] | DirRpdo => [] end
  ++ [ plain (pdo_meta comm 5 U16 Rw) None (LTimer dir i);
       mkEnt (pdo_meta map_idx 0 U8 (map_access pdo)) (LCount dir i) (count_check lookup dir i) ]
  ++ map (λ sub, mkEnt (pdo_meta map_idx sub U32 (map_access pdo)) (LMap dir i (Z.to_nat (sub - 1)))
                   (mapping_check dir i)) (seqZ 1 (max_map_sub pdo resolved)).

Definition server_ents (i : nat) (s : SdoServerDef) : list Entry :=
  [ constant (pdo_meta (server_index s) 0 U8 Ro) (VNum 2);
    plain (pdo_meta (server_index s) 1 U32 Ro) None (LServerRx i);
    plain (pdo_meta (server_index s) 2 U32 Ro) None (LServerTx i) ].

Definition store_ents (eds_compressed : list Z) : list Entry :=
  [ constant (mkMeta 0x1021 0 Domain Ro false (Some (as_u16 (len eds_compressed)))) (VBytes eds_compressed);
    constant (mkMeta 0x1022 0 U8 Ro false None) (VNum STORE_FORMAT_DEFLATE) ].

(** ** The invariant of the struct *)

Record same_shape (a b : PdoFields) : Prop := {
  ss_cob : length (f_cob_id b) = length (f_cob_id a);
  ss_type : length (f_transmission_type b) = length (f_transmission_type a);
  ss_inhibit : length (f_inhibit_time b) = length (f_inhibit_time a);
  ss_timer : length (f_timer b) = length (f_timer a);
  ss_count : length (f_mapping_count b) = length (f_mapping_count a);
  ss_mappings : map length (f_mappings b) = map length (f_mappings a);
}.

Definition pdo_bytes (p : PdoFields) : Prop := bytes (f_transmission_type p) ∧ bytes (f_mapping_count p).

(** A value of the struct type that [d0] belongs to. *)
Record dict_ok (d0 d : Dict) : Prop := {
  do_fields : map fst (d_fields d) = map fst (d_fields d0);
  do_arrays : map (λ a, (fst a, length (snd a))) (d_arrays d) = map (λ a, (fst a, length (snd a))) (d_arrays d0);
  do_pdo : ∀ dir, same_shape (pdo_fields dir d0) (pdo_fields dir d);
  do_bytes : ∀ dir, pdo_bytes (pdo_fields dir d);
  do_rx : length (d_cob_rx d) = length (d_cob_rx d0);
  do_tx : length (d_cob_tx d) = length (d_cob_tx d0);
}.

Lemma assoc_length {A} (l l0 : list (list Z * list A)) n :
  map (λ a, (fst a, length (snd a))) l = map (λ a, (fst a, length (snd a))) l0 →
  length (assoc [] l n) = length (assoc [] l0 n).
Proof.
  revert l0. induction l as [|[k x] l IH]; intros [|[k0 x0] l0]; try done. simpl. intros [= -> Hx Hl].
  rewrite !assoc_cons. case_bool_decide; [done|by apply IH].
Qed.

Lemma map_fst_length {A} (l l0 : list (list Z * list A)) :
  map (λ a, (fst a, length (snd a))) l = map (λ a, (fst a, length (snd a))) l0 → map fst l = map fst l0.
Proof.
  intros H. apply (f_equal (map fst)) in H. by rewrite !List.map_map in H.
Qed.

Lemma nth_map_length (l l0 : list (list Z)) i :
  map length l = map length l0 → length (nth i l []) = length (nth i l0 []).
Proof. intros H. rewrite <- !(List.map_nth length). by rewrite H. Qed.

Lemma row_length d0 d dir i : dict_ok d0 d → length (row d dir i) = length (row d0 dir i).
Proof. intros H. apply nth_map_length. apply (do_pdo _ _ H dir). Qed.

Lemma has_loc_shape d0 d l : dict_ok d0 d → has_loc d l ↔ has_loc d0 l.
Proof.
  intros H. pose proof (do_pdo _ _ H) as Hp. destruct l; simpl; try destruct (Hp dir) as [H1 H2 H3 H4 H5 H6].
  - by rewrite (do_fields _ _ H).
  - rewrite (map_fst_length _ _ (do_arrays _ _ H)). unfold array_field.
    by rewrite (assoc_length _ _ _ (do_arrays _ _ H)).
  - by rewrite H1.
  - by rewrite H2.
  - by rewrite H3.
  - by rewrite H4.
  - by rewrite H5.
  - rewrite (row_length _ _ _ _ H). apply (f_equal length) in H6. rewrite !length_map in H6. by rewrite H6.
  - by rewrite (do_rx _ _ H).
  - by rewrite (do_tx _ _ H).
  - done.
Qed.

Lemma upd_length l i v : length (upd l i v) = length l.
Proof. apply length_insert. Qed.

Lemma upd_bytes l i v : bytes l → is_u8 v → bytes (upd l i v).
Proof. intros. by apply Forall_insert. Qed.

Lemma map_length_insert (l : list (list Z)) i r :
  length r = length (nth i l []) → map length (<[i := r]> l) = map length l.
Proof.
  revert i. induction l as [|x l IH]; intros i Hr; [by destruct i|]. destruct i as [|i]; simpl in *; [by rewrite Hr|].
  f_equal. by apply IH.
Qed.

Lemma assoc_set_shape {A} (l : list (list Z * list A)) n v :
  length v = length (assoc [] l n) →
  map (λ a, (fst a, length (snd a))) (assoc_set l n v) = map (λ a, (fst a, length (snd a))) l.
Proof.
  induction l as [|[k x] l IH]; [done|]. rewrite assoc_cons. simpl. case_bool_decide as Hk; intros Hv; simpl.
  - by rewrite Hv.
  - by rewrite IH.
Qed.

Lemma on_pdo_ok d0 d dir f :
  dict_ok d0 d → (∀ p, same_shape p (f p)) → (∀ p, pdo_bytes p → pdo_bytes (f p)) → dict_ok d0 (on_pdo dir f d).
Proof.
  intros [H1 H2 H3 H4 H5 H6] Hs Hb. split; try (by destruct dir).
  - intros dir'. rewrite pdo_fields_on. case_decide as Hd; [subst|apply H3].
    destruct (H3 dir') as [A1 A2 A3 A4 A5 A6], (Hs (pdo_fields dir' d)) as [B1 B2 B3 B4 B5 B6]. split; congruence.
  - intros dir'. rewrite pdo_fields_on. case_decide; [|apply H4]. apply Hb, H4.
Qed.

(** What a location may hold for the struct to stay well typed. *)
Definition fits_loc (l : Loc) (v : Value) : Prop :=
  match l with LType _ _ | LCount _ _ => is_u8 (num v) | _ => True end.

Lemma set_loc_ok d0 d l v : dict_ok d0 d → fits_loc l v → dict_ok d0 (set_loc l v d).
Proof.
  intros H Hv. destruct l; simpl; try (apply on_pdo_ok; [done| |]); simpl in *;
    try (intros p; split; simpl; rewrite ?upd_length; done);
    try (intros p [? ?]; split; simpl; first [done|by apply upd_bytes]).
  - destruct H. split; try done. simpl. by rewrite assoc_set_fst.
  - destruct H. split; try done. simpl. rewrite assoc_set_shape; [done|]. by rewrite length_insert.
  - intros p. split; try done. simpl. apply map_length_insert, upd_length.
  - destruct H. split; try done. simpl. by rewrite upd_length.
  - destruct H. split; try done. simpl. by rewrite upd_length.
  - done.
Qed.

(** ** Bodies *)

Definition type_string (dt : DataType) : list Z :=
  match dt with
  | Boolean => str "bool" | U8 => str "u8" | U16 => str "u16" | U32 => str "u32" | U64 => str "u64"
  | I8 => str "i8" | I16 => str "i16" | I24 => str "i24" | U24 => str "u24" | I32 => str "i32" | I64 => str "i64"
  | Real32 => str "f32" | Real64 => str "f64"
  | VisibleString => str "visible_string" | OctetString => str "octet_string" | Domain => str "domain"
  end.

Lemma type_to_datatype_Some ty dt : type_to_datatype ty = Some dt → ty = type_string dt.
Proof. unfold type_to_datatype. repeat case_bool_decide; intros [= <-]; done. Qed.

Lemma type_size_string dt : type_size (type_string dt) = DataType.size dt.
Proof. by destruct dt. Qed.

Lemma type_size_Some ty n : type_size ty = Some n → ∃ dt, type_to_datatype ty = Some dt.
Proof.
  unfold type_size. repeat case_bool_decide; intros [= <-];
    repeat match goal with H : _ ∈ _ |- _ => apply list_elem_of_In in H; simpl in H end;
    naive_solver eauto.
Qed.

Lemma varlen_string dt : is_variable_length_type (type_string dt) = bool_decide (DataType.size dt = None).
Proof. by destruct dt. Qed.

Lemma overwrite_spec buf n v :
  len v = n → n ≤ len buf → take 0 buf ++ v ++ drop (Z.to_nat n) buf = overwrite buf v.
Proof.
  intros Hv Hn. unfold overwrite. rewrite take_0. simpl. rewrite (take_ge v) by lia. do 2 f_equal. lia.
Qed.

Lemma read_bytes_spec n data buf :
  len data = n → n ≤ len buf → read_bytes n data buf = Ret (overwrite buf data, Ok n).
Proof.
  intros Hd Hn. unfold read_bytes. rewrite copy_from_slice_ret by lia. rstep. f_equal. f_equal.
  by apply overwrite_spec.
Qed.

Lemma read_byte_spec v buf : 1 ≤ len buf → read_byte v buf = Ret (overwrite buf [v], Ok 1).
Proof. intros Hn. destruct buf as [|b buf]; [simpl in *; lia|]. unfold read_byte, overwrite. simpl. by rewrite take_nil, drop_0. Qed.

Lemma encode_length dt v n : DataType.size dt = Some n → len (encode dt v) = n.
Proof.
  intros Hn. pose proof (size_pos _ _ Hn). unfold encode. rewrite Hn. case_bool_decide.
  - subst dt. by injection Hn as <-.
  - rewrite length_to_le. lia.
Qed.

Lemma read_scalar_spec dt n v buf :
  DataType.size dt = Some n → n ≤ len buf →
  read_scalar (type_string dt) n v buf = Ret (overwrite buf (encode dt v), Ok n).
Proof.
  intros Hn Hb. pose proof (encode_length dt v n Hn) as Hl. unfold read_scalar, encode in *. rewrite Hn in *.
  destruct (Z.eqb_spec n 1) as [->|H1].
  - destruct dt; try discriminate; simpl; apply read_byte_spec; lia.
  - assert (bool_decide (dt = Boolean) = false) as Hdt by (destruct dt; simplify_eq/=; done). rewrite Hdt in *.
    assert (slice (to_le_bytes (Z.to_nat (repr_size n)) (num v)) 0 n = Ret (to_le_bytes (Z.to_nat n) (num v))) as ->.
    { pose proof (size_pos _ _ Hn). rewrite slice_prefix; [|lia|rewrite length_to_le; unfold repr_size; destruct (Z.eqb_spec n 3); lia].
      f_equal. by destruct dt; simplify_eq/=. }
    by apply read_bytes_spec.
Qed.

Lemma read_content_spec data buf :
  read_content data buf =
  Ret (if len buf <? len data then (buf, Err ValueTooLong) else (overwrite buf data, Ok (len data))).
Proof.
  unfold read_content. destruct (Z.ltb_spec (len buf) (len data)); [done|]. by apply read_bytes_spec.
Qed.

Lemma top_bit b : is_u8 b → (Z.land b 0x80 =? 0) = (b <? 128).
Proof.
  intros Hb. apply eqb_prop. revert b Hb. apply byte_forall. vm_compute. reflexivity.
Qed.

(** Three bytes and their sign extension. *)
Lemma extend_24 a b c :
  is_u8 a → is_u8 b → is_u8 c →
  signed_of 4 (from_le_bytes [a; b; c; if negb (Z.land c 0x80 =? 0) then 0xFF else 0]) =
  signed_of 3 (from_le_bytes [a; b; c]).
Proof.
  intros Ha Hb Hc. unfold is_uint in *. rewrite top_bit by done. unfold signed_of, from_le_bytes.
  change (2 ^ (8 * 4 - 1)) with 2147483648. change (2 ^ (8 * 3 - 1)) with 8388608. change (2 ^ (8 * 4)) with 4294967296.
  change (2 ^ (8 * 3)) with 16777216.
  destruct (Z.ltb_spec c 128); cbn [negb]; repeat match goal with |- context [?x <? ?y] => destruct (Z.ltb_spec x y) end; lia.
Qed.

Lemma len_1 (l : list Z) : len l = 1 → l = [at_ l 0].
Proof. destruct l as [|x [|y l]]; simpl; (done || lia). Qed.

Lemma len_3 (l : list Z) : len l = 3 → l = [at_ l 0; at_ l 1; at_ l 2].
Proof. destruct l as [|x [|y [|z [|w l]]]]; simpl; (done || lia). Qed.

Lemma write_scalar_spec dt n data :
  DataType.size dt = Some n → bytes data →
  write_scalar (type_string dt) n data =
  match value_check dt None data with Err e => Err e | Ok _ => Ok (decode dt data) end.
Proof.
  intros Hn Hb. unfold write_scalar, value_check, decode. rewrite Hn.
  destruct (Z.eqb_spec (len data) n) as [Hl|Hl]; cycle 1.
  { apply Z.eqb_neq in Hl. destruct (bool_decide (type_string dt = str "bool")) eqn:Hty.
    - assert (n = 1) as -> by (destruct dt; try discriminate Hty; by injection Hn). by rewrite Hl.
    - destruct (Z.eqb_spec n 1) as [->|]; [by rewrite Hl|]. destruct (Z.eqb_spec n 3) as [->|]; [by rewrite Hl|done]. }
  cbn [negb]. assert (take (Z.to_nat n) data = data) as Ht by (apply take_ge; lia).
  destruct dt; simpl in Hn; try discriminate Hn; injection Hn as <-; simpl; rewrite ?Hl, ?Ht; cbn [Z.eqb Pos.eqb negb]; try done;
    try (unfold from_le; simpl; rewrite Hl; done);
    try (pose proof (len_1 _ Hl) as Hd; set (x := at_ data 0) in *; rewrite Hd; done);
    pose proof (len_3 _ Hl) as Hd; set (x := at_ data 0) in *; set (y := at_ data 1) in *; set (z := at_ data 2) in *;
    clearbody x y z; subst data; apply List.Forall_cons_iff in Hb as [Hx [Hy [Hz _]%List.Forall_cons_iff]%List.Forall_cons_iff].
  - do 2 f_equal. unfold from_le. by rewrite <- extend_24.
  - by do 2 f_equal.
Qed.

Lemma value_check_size dt cap data n :
  DataType.size dt = Some n → value_check dt cap data = value_check dt None data.
Proof. intros Hn. unfold value_check. by rewrite Hn. Qed.

Lemma write_content_spec dt cap data :
  DataType.size dt = None →
  write_content (type_string dt) cap data =
  match value_check dt cap data with Err e => Err e | Ok _ => Ok (decode dt data) end.
Proof.
  intros Hn. unfold write_content, value_check, decode. rewrite Hn.
  assert (bool_decide (type_string dt = str "visible_string") = bool_decide (dt = VisibleString)) as -> by (by destruct dt).
  destruct (_ && _); [done|]. destruct cap as [cap|]; [|done]. by destruct (cap <? len data).
Qed.

Lemma sum_mappings_spec lookup rx r n j total :
  (j + n ≤ length r)%nat →
  sum_mappings lookup rx r n j total = Ret (sum_lengths lookup rx (take n (drop j r)) total).
Proof.
  revert j total. induction n as [|n IH]; intros j total Hn; [done|]. cbn [sum_mappings].
  destruct (lookup_lt_is_Some_2 r j) as [m Hm]; [lia|]. rewrite Hm. rstep.
  rewrite (drop_S r m j Hm). cbn [take sum_lengths]. destruct (validate_target lookup m rx); [|done].
  apply IH. lia.
Qed.

(** *** Pieces

    [implements] says that the arms of a piece compute the reference on its
    entries, for a well-typed struct and bytes. *)

Definition size_fits (e : Entry) (buf : list Z) : Prop :=
  ∀ n, DataType.size (data_type (e_meta e)) = Some n → access (e_meta e) ≠ Wo → n ≤ len buf.

Definition covers {B} (a : Arm B) (es : list Entry) : Prop :=
  ∀ i s, arm_index a = i ∧ arm_first a ≤ s ≤ arm_last a ↔ ∃ e, In e es ∧ e_addr e = (i, s).

Record implements (d0 : Dict) (p : Piece) (es : list Entry) : Prop := {
  im_metas : p_metas p = map e_meta es;
  im_read_covers : covers (p_read p) es;
  im_write_covers : covers (p_write p) es;
  im_read : ∀ e d buf, In e es → dict_ok d0 d → size_fits e buf →
    arm_body (p_read p) d (meta_subindex (e_meta e)) buf = Ret (ref_read d e buf);
  im_write : ∀ e d data, In e es → dict_ok d0 d → bytes data →
    arm_body (p_write p) d (meta_subindex (e_meta e)) data = Ret (ref_write d e data);
}.

Lemma encode_u8 v : is_u8 v → encode U8 (VNum v) = [v].
Proof. intros Hv. change (encode U8 (VNum v)) with [v mod 256]. by rewrite Z.mod_small. Qed.

Lemma decode_u8 data : len data = 1 → decode U8 data = VNum (at_ data 0).
Proof.
  intros Hl. destruct data as [|x [|y data]]; simpl in Hl; try lia. change (VNum (x + 256 * 0) = VNum x). f_equal. lia.
Qed.

Section pieces.
Variable d0 : Dict.

Lemma single_implements m r w e :
  e_meta e = m →
  (∀ d buf, dict_ok d0 d → size_fits e buf → r d (meta_subindex m) buf = Ret (ref_read d e buf)) →
  (∀ d data, dict_ok d0 d → bytes data → w d (meta_subindex m) data = Ret (ref_write d e data)) →
  implements d0 (single m r w) [e].
Proof.
  intros <- Hr Hw. split; simpl; try done.
  - intros i s. simpl. split; [intros [<- Hs]|intros (e' & [<-|[]] & [= <- <-]); lia].
    exists e. split; [by left|]. unfold e_addr. f_equal. lia.
  - intros i s. simpl. split; [intros [<- Hs]|intros (e' & [<-|[]] & [= <- <-]); lia].
    exists e. split; [by left|]. unfold e_addr. f_equal. lia.
  - intros e' d buf [<-|[]]. apply Hr.
  - intros e' d data [<-|[]]. apply Hw.
Qed.

(** What the bodies of a readable entry are. *)
Lemma ref_read_sized d e n v buf :
  access (e_meta e) ≠ Wo → DataType.size (data_type (e_meta e)) = Some n → n ≤ len buf → get_loc d (e_loc e) = v →
  ref_read d e buf = (overwrite buf (encode (data_type (e_meta e)) v), Ok n).
Proof.
  intros Ha Hn Hb <-. unfold ref_read. rewrite bool_decide_eq_false_2 by done.
  pose proof (encode_length _ (get_loc d (e_loc e)) _ Hn) as Hl. rewrite Hl.
  destruct (Z.ltb_spec (len buf) n); [lia|done].
Qed.

Lemma read_only_implements d e data : read_only_access (access (e_meta e)) = true → mret (d, Err ReadOnly) = Ret (ref_write d e data).
Proof. intros Ha. unfold ref_write. by rewrite Ha. Qed.

Lemma byte_implements m v e r w :
  e_meta e = m → data_type m = U8 → access m ≠ Wo →
  (∀ d, dict_ok d0 d → is_u8 (v d) ∧ get_loc d (e_loc e) = VNum (v d)) →
  (∀ d s buf, r d s buf = read_byte (v d) buf) →
  (∀ d data, dict_ok d0 d → bytes data → w d (meta_subindex m) data = Ret (ref_write d e data)) →
  implements d0 (single m r w) [e].
Proof.
  intros Hm Ht Ha Hv Hr Hw. apply single_implements; [done| |done]. intros d buf Hd Hf. rewrite Hr.
  destruct (Hv d Hd) as [Hu Hg]. assert (DataType.size (data_type (e_meta e)) = Some 1) as Hn by (by rewrite Hm, Ht).
  specialize (Hf 1 Hn ltac:(by rewrite Hm)). rewrite read_byte_spec by done.
  rewrite (ref_read_sized _ _ 1 (VNum (v d))); [|by rewrite Hm|done|done|done]. rewrite Hm, Ht.
  by rewrite encode_u8.
Qed.

Lemma constant_byte index sub n :
  is_u8 n → implements d0 (single (mkMeta index sub U8 Ro false None) (λ _ _ buf, read_byte n buf) read_only)
              [constant (mkMeta index sub U8 Ro false None) (VNum n)].
Proof.
  intros Hn. apply (byte_implements _ (λ _, n)); try done.
Qed.

Lemma read_le_implements m dir n get i e w :
  e_meta e = m → access m ≠ Wo → DataType.size (data_type m) = Some n → bool_decide (data_type m = Boolean) = false →
  (∀ d, get_loc d (e_loc e) = VNum (at_ (get (pdo_fields dir d)) i)) →
  (∀ d data, dict_ok d0 d → bytes data → w d (meta_subindex m) data = Ret (ref_write d e data)) →
  implements d0 (single m (read_le dir n get i) w) [e].
Proof.
  intros Hm Ha Hn Hb Hv Hw. apply single_implements; [done| |done]. intros d buf Hd Hf. unfold read_le.
  pose proof (size_pos _ _ Hn). specialize (Hf n). rewrite Hm in Hf. specialize (Hf Hn Ha).
  rewrite read_bytes_spec; [|rewrite length_to_le; lia|done].
  rewrite (ref_read_sized _ _ n (VNum (at_ (get (pdo_fields dir d)) i))); [|by rewrite ?Hm..|done|done].
  unfold encode. by rewrite Hm, Hn, Hb.
Qed.

Lemma write_le_plain m dir n set l d data :
  access m = Rw → DataType.size (data_type m) = Some n → signed_type (data_type m) = false →
  bool_decide (data_type m = Boolean) = false →
  (∀ v, set_loc l (VNum v) d = on_pdo dir (set v) d) →
  write_le dir n set d (meta_subindex m) data = Ret (ref_write d (plain m None l) data).
Proof.
  intros Ha Hn Hs Hb Hset. unfold write_le, ref_write, plain. simpl. rewrite Ha. simpl. unfold value_check, decode.
  rewrite Hn, Hb, Hs. pose proof (size_pos _ _ Hn). destruct (Z.eqb_spec (len data) n) as [Hl|Hl]; simpl; [|done].
  rewrite take_ge by lia. by rewrite Hset.
Qed.

Lemma ref_write_value d e ty (set : Value → Dict) data r :
  read_only_access (access (e_meta e)) = false → (∀ v, set v = set_loc (e_loc e) v d) →
  r = match value_check (data_type (e_meta e)) ty data with
      | Err x => Err x
      | Ok _ => Ok (decode (data_type (e_meta e)) data)
      end →
  e_check e d data = value_check (data_type (e_meta e)) ty data →
  store d set r = Ret (ref_write d e data).
Proof.
  intros Ha Hset -> Hc. unfold ref_write. rewrite Ha, Hc. by destruct (value_check _ _ _); simpl; rewrite ?Hset.
Qed.

Lemma access_type_ro a :
  read_only_access (access_type a) = (bool_decide (a = AccRo) || bool_decide (a = AccConst)).
Proof. by destruct a. Qed.

Section user.
Context {Expr : Type}.

Lemma flat_piece_implements alloc (e : FlatEntry Expr) p :
  flat_piece alloc e = Ret p → implements d0 p [flat_ent alloc e].
Proof.
  unfold flat_piece, flat_meta. intros H.
  destruct (type_to_datatype (type_name (fl_var e))) as [dt|] eqn:Hdt; [|done]. revert H. rstep. intros H.
  apply bind_Ret_inv in H as (r & Hr & H). apply bind_Ret_inv in H as (w & Hw & H). injection H as <-.
  assert (entry_meta e = mkMeta (fl_index e) (fl_subindex e) dt (access_type (vd_access (fl_var e)))
            (Eds.pdo_mappable (fl_var e)) (as_u16 <$> vd_capacity (fl_var e))) as Hm by (unfold entry_meta; by rewrite Hdt).
  pose proof (type_to_datatype_Some _ _ Hdt) as Hty. rewrite <- Hm.
  assert (data_type (e_meta (flat_ent alloc e)) = dt) as Hd by (cbn [e_meta flat_ent plain]; by rewrite Hm).
  assert (access (e_meta (flat_ent alloc e)) = access_type (vd_access (fl_var e))) as Ha by (cbn [e_meta flat_ent plain]; by rewrite Hm).
  apply single_implements; [done|intros d buf Hok Hf|intros d data Hok Hb].
  - unfold flat_read in Hr. rewrite Hty in Hr. destruct (bool_decide (vd_access (fl_var e) = AccWo)) eqn:Hwo.
    + injection Hr as <-. apply bool_decide_eq_true in Hwo. unfold ref_read. by rewrite Ha, Hwo.
    + apply bool_decide_eq_false in Hwo.
      assert (access (e_meta (flat_ent alloc e)) ≠ Wo) as Hw' by (rewrite Ha; by destruct (vd_access (fl_var e))).
      rewrite varlen_string, type_size_string in Hr. case_bool_decide as Hs.
      * injection Hr as <-. rewrite read_content_spec. unfold ref_read. rewrite bool_decide_eq_false_2 by done.
        rewrite Hd. unfold encode. by rewrite Hs.
      * destruct (DataType.size dt) as [n|] eqn:Hn; [|done]. injection Hr as <-.
        specialize (Hf n ltac:(by rewrite Hd) Hw').
        rewrite read_scalar_spec by done. erewrite ref_read_sized by (rewrite ?Hd; done). by rewrite Hd.
  - unfold flat_write in Hw. rewrite Hty in Hw. rewrite <- access_type_ro in Hw.
    destruct (read_only_access (access_type (vd_access (fl_var e)))) eqn:Hro.
    { injection Hw as <-. apply read_only_implements. by rewrite Ha. }
    rewrite varlen_string, type_size_string in Hw. case_bool_decide as Hs.
    + assert (field_capacity alloc (fl_var e) = Ret (flat_cap alloc (fl_var e))) as Hcap.
      { unfold field_capacity, flat_cap in *. destruct alloc; [done|]. by destruct (vd_capacity (fl_var e)). }
      rewrite Hcap in Hw. injection Hw as <-. apply (ref_write_value _ _ (flat_cap alloc (fl_var e))); [by rewrite Ha|done|..].
      * rewrite Hd. by apply write_content_spec.
      * by cbn [e_meta flat_ent plain e_check]; rewrite Hm.
    + destruct (DataType.size dt) as [n|] eqn:Hn; [|done]. injection Hw as <-.
      apply (ref_write_value _ _ None); [by rewrite Ha|done|..]; rewrite ?Hd.
      * by apply write_scalar_spec.
      * cbn [e_meta flat_ent plain e_check]. rewrite Hm. by eapply value_check_size.
Qed.

Lemma element_spec d a sub :
  dict_ok d0 d → 1 ≤ sub → has_loc d0 (LElem (ae_name a) (Z.to_nat (sub - 1))) →
  element d (ae_name a) sub = Ret (get_loc d (LElem (ae_name a) (Z.to_nat (sub - 1)))).
Proof.
  intros Hd Hs Hl. apply (has_loc_shape _ _ _ Hd) in Hl as [_ Hl]. unfold element. rewrite usub_ret by lia. rstep.
  destruct (lookup_lt_is_Some_2 _ _ Hl) as [v Hv]. rewrite Hv. simpl. by rewrite (nth_lookup_Some _ _ _ _ Hv).
Qed.

Lemma in_element_ents a count e :
  In e (map (element_ent a) (seqZ 1 count)) ↔ ∃ sub, 1 ≤ sub ≤ count ∧ e = element_ent a sub.
Proof.
  rewrite List.in_map_iff. split.
  - intros (sub & <- & Hs). apply list_elem_of_In, elem_of_seqZ in Hs. exists sub. split; [lia|done].
  - intros (sub & Hs & ->). exists sub. split; [done|]. apply list_elem_of_In, elem_of_seqZ. lia.
Qed.

Lemma element_piece_implements a dt size count :
  type_to_datatype (element_type (ae_def a)) = Some dt → type_size (element_type (ae_def a)) = Some size →
  (∀ sub, 1 ≤ sub ≤ count → has_loc d0 (LElem (ae_name a) (Z.to_nat (sub - 1)))) →
  implements d0
    (mkPiece (map (λ sub, mkMeta (ae_index a) sub dt (access_type (arr_access (ae_def a)))
                            (arr_pdo_mappable (ae_def a)) None) (seqZ 1 count))
       (mkArm (ae_index a) 1 count (array_read a size)) (mkArm (ae_index a) 1 count (array_write a size)))
    (map (element_ent a) (seqZ 1 count)).
Proof.
  intros Hdt Hsz Hloc. pose proof (type_to_datatype_Some _ _ Hdt) as Hty.
  rewrite Hty, type_size_string in Hsz.
  assert (∀ sub, e_meta (element_ent a sub) = mkMeta (ae_index a) sub dt (access_type (arr_access (ae_def a)))
            (arr_pdo_mappable (ae_def a)) None) as Hm by (intros; cbn [e_meta element_ent plain]; by rewrite Hdt).
  assert (∀ (i s : Z), (ae_index a = i ∧ 1 ≤ s ≤ count) ↔
            ∃ e, In e (map (element_ent a) (seqZ 1 count)) ∧ e_addr e = (i, s)) as Hcov.
  { intros i s. setoid_rewrite in_element_ents. split.
    - intros [<- Hs]. exists (element_ent a s). split; [by exists s|]. unfold e_addr. by rewrite Hm.
    - intros (e & (sub & Hs & ->) & He). unfold e_addr in He. rewrite Hm in He. by injection He as <- <-. }
  split; simpl.
  - rewrite List.map_map. apply List.map_ext. intros sub. by rewrite Hm.
  - exact Hcov.
  - exact Hcov.
  - intros e d buf (sub & Hs & ->)%in_element_ents Hd Hf. unfold array_read. specialize (Hloc sub Hs).
    rewrite Hm. cbn [meta_subindex]. case_bool_decide as Hwo.
    + unfold ref_read. rewrite Hm. simpl. by rewrite Hwo.
    + rewrite (element_spec _ _ _ Hd) by (done || lia). rstep. rewrite Hty.
      assert (access (e_meta (element_ent a sub)) ≠ Wo) as Hw' by (rewrite Hm; simpl; by destruct (arr_access (ae_def a))).
      specialize (Hf size ltac:(by rewrite Hm) Hw'). rewrite read_scalar_spec by done.
      erewrite ref_read_sized by (rewrite ?Hm; done). by rewrite Hm.
  - intros e d data (sub & Hs & ->)%in_element_ents Hd Hb. unfold array_write. specialize (Hloc sub Hs).
    rewrite Hm. cbn [meta_subindex]. rewrite <- access_type_ro.
    destruct (read_only_access (access_type (arr_access (ae_def a)))) eqn:Hro.
    { apply read_only_implements. by rewrite Hm. }
    rewrite Hty, (write_scalar_spec _ _ _ Hsz Hb). unfold ref_write. rewrite Hm. cbn [access data_type]. rewrite Hro.
    cbn [e_check element_ent plain]. rewrite Hdt. cbn [default data_type]. unfold id.
    destruct (value_check dt None data); [|done]. by rewrite (element_spec _ _ _ Hd) by (done || lia).
Qed.

Lemma array_pieces_implement a ps :
  array_pieces a = Ret ps →
  (∀ sub, 1 ≤ sub ≤ as_u8 (arr_count (ae_def a)) → has_loc d0 (LElem (ae_name a) (Z.to_nat (sub - 1)))) →
  ∃ ess, Forall2 (implements d0) ps ess ∧ array_ents a = concat ess.
Proof.
  unfold array_pieces. intros H Hloc. set (count := as_u8 (arr_count (ae_def a))) in *.
  destruct (type_to_datatype (element_type (ae_def a))) as [dt|] eqn:Hdt; [|done].
  destruct (type_size (element_type (ae_def a))) as [size|] eqn:Hsz; [|done]. injection H as <-.
  exists [[count_ent (ae_index a) count]; map (element_ent a) (seqZ 1 count)]. split.
  - apply list.Forall2_cons_2; [apply constant_byte, wrap_range; lia|].
    apply list.Forall2_cons_2; [by apply element_piece_implements|apply list.Forall2_nil_2].
  - unfold array_ents. simpl. by rewrite app_nil_r.
Qed.

Lemma record_piece_implements (entry : OdEntry Expr) :
  (∀ subs, oe_kind entry = EntryRecord subs → Forall (λ s, is_u8 (sub_subindex s)) subs) →
  ∃ ess, Forall2 (implements d0) (record_piece entry) ess ∧ record_ents entry = concat ess.
Proof.
  intros Hs. unfold record_piece, record_ents. destruct (oe_kind entry) as [v|subs|a].
  - exists []. split; [apply list.Forall2_nil_2|done].
  - exists [[count_ent (oe_index entry) (foldr Z.max 0 (map sub_subindex subs))]]. split; [|done].
    apply list.Forall2_cons_2; [|apply list.Forall2_nil_2]. apply constant_byte.
    specialize (Hs _ eq_refl). unfold is_uint in *. induction Hs as [|s subs H _ IH]; simpl; lia.
  - exists []. split; [apply list.Forall2_nil_2|done].
Qed.
End user.

Lemma write_type_spec dir i d m data :
  access m = Rw → data_type m = U8 → bytes data →
  write_transmission_type dir i d (meta_subindex m) data = Ret (ref_write d (mkEnt m (LType dir i) type_check) data).
Proof.
  intros Ha Ht Hb. unfold write_transmission_type, ref_write, type_check. cbn [e_meta e_check]. rewrite Ha. cbn [read_only_access].
  destruct (Z.eqb_spec (len data) 1) as [Hl|Hl]; cbn [negb]; [|done]. destruct (in_range 241 253 _); [done|].
  cbn [e_loc set_loc]. by rewrite Ht, decode_u8.
Qed.

Lemma write_count_spec lookup dir i d m data :
  (64 ≤ length (row d dir i))%nat → access m = Rw → data_type m = U8 → bytes data →
  write_mapping_count lookup dir i d (meta_subindex m) data =
  Ret (ref_write d (mkEnt m (LCount dir i) (count_check lookup dir i)) data).
Proof.
  intros Hr Ha Ht Hb. unfold write_mapping_count, ref_write, count_check. cbn [e_meta e_check]. rewrite Ha. cbn [read_only_access].
  destruct (Z.eqb_spec (len data) 1) as [Hl|Hl]; cbn [negb]; [|done].
  destruct (Z.ltb_spec PDO_MAX_MAPPINGS (at_ data 0)) as [|Hc]; [done|]. unfold PDO_MAX_MAPPINGS in Hc.
  rewrite sum_mappings_spec by (unfold row in Hr; lia). rstep. rewrite drop_0. fold (row d dir i).
  destruct (sum_lengths _ _ _ _) as [total|]; [|done]. destruct (PDO_MAX_PAYLOAD_BITS <? total); [done|].
  cbn [e_loc set_loc]. by rewrite Ht, decode_u8.
Qed.

Lemma write_mapping_spec dir i sub d m data :
  access m = Rw → data_type m = U32 →
  write_mapping_entry dir i sub d (meta_subindex m) data =
  Ret (ref_write d (mkEnt m (LMap dir i (Z.to_nat (sub - 1))) (mapping_check dir i)) data).
Proof.
  intros Ha Ht. unfold write_mapping_entry, ref_write, mapping_check. cbn [e_meta e_check]. rewrite Ha. cbn [read_only_access].
  destruct (at_ _ _ =? 0); cbn [negb]; [|done]. destruct (Z.eqb_spec (len data) 4) as [Hl|Hl]; cbn [negb]; [|done].
  rewrite take_ge by lia. destruct (PDO_MAX_PAYLOAD_BITS <? _); [done|]. cbn [e_loc set_loc]. by rewrite Ht.
Qed.


Ltac piece_cons := apply list.Forall2_cons_2.

(** One piece per entry. *)
Abbreviation each ps es := (Forall2 (λ p e, implements d0 p [e]) ps es).

Lemma each_implements ps es : each ps es → ∃ ess, Forall2 (implements d0) ps ess ∧ es = concat ess.
Proof.
  intros H. exists (map (λ e, [e]) es). split.
  - induction H; [apply list.Forall2_nil_2|by piece_cons].
  - clear H. induction es as [|e es IH]; simpl; congruence.
Qed.

Lemma pdo_pieces_each lookup i pdo resolved :
  (64 ≤ length (row d0 (pd_direction pdo) i))%nat → each (pdo_pieces lookup i pdo resolved) (pdo_ents lookup i pdo resolved).
Proof.
  intros Hrow. unfold pdo_pieces, pdo_ents. set (dir := pd_direction pdo) in *. set (comm := comm_index pdo).
  set (map_idx := map_index pdo). fold (map_access pdo).
  assert (∀ d, dict_ok d0 d → (64 ≤ length (row d dir i))%nat) as Hr by (intros d Hd; by rewrite (row_length _ _ _ _ Hd)).
  assert (∀ m e d data, e_meta e = m → is_mutable pdo = false → access m = map_access pdo →
            read_only d (meta_subindex m) data = Ret (ref_write d e data)) as Hconst.
  { intros m e d data <- Hmut Ha. apply read_only_implements. rewrite Ha. unfold map_access. by rewrite Hmut. }
  assert (map_access pdo ≠ Wo) as Hwo by (unfold map_access; by destruct (is_mutable pdo)).
  apply Forall2_app; [|apply Forall2_app; [|apply Forall2_app]].
  - piece_cons; [by apply constant_byte|]. piece_cons; [|piece_cons; [|apply list.Forall2_nil_2]].
    + apply read_le_implements; try done. intros. by apply write_le_plain.
    + apply (byte_implements _ (λ d, at_ (f_transmission_type (pdo_fields dir d)) i)); try done.
      * intros d Hd. split; [|done]. apply at_bytes, (do_bytes _ _ Hd dir).
      * intros. by apply write_type_spec.
  - destruct dir; [|apply list.Forall2_nil_2]. piece_cons; [|apply list.Forall2_nil_2].
    apply read_le_implements; try done. intros. by apply write_le_plain.
  - piece_cons; [|piece_cons; [|apply list.Forall2_nil_2]].
    + apply read_le_implements; try done. intros. by apply write_le_plain.
    + apply (byte_implements _ (λ d, at_ (f_mapping_count (pdo_fields dir d)) i)); try done.
      * intros d Hd. split; [|done]. apply at_bytes, (do_bytes _ _ Hd dir).
      * intros d data Hd Hb. destruct (is_mutable pdo) eqn:Hmut; [|by apply Hconst].
        apply write_count_spec; try done; [by apply Hr|]. simpl. unfold map_access. by rewrite Hmut.
  - induction (seqZ 1 _) as [|sub subs IH]; [apply list.Forall2_nil_2|]. simpl. piece_cons; [|done].
    apply single_implements; [done| |].
    + intros d buf Hd Hf. unfold read_mapping_entry. specialize (Hf 4 eq_refl Hwo).
      rewrite read_bytes_spec; [|by rewrite length_to_le|done].
      by rewrite (ref_read_sized _ _ 4 (get_loc d (LMap dir i (Z.to_nat (sub - 1))))).
    + intros d data Hd Hb. destruct (is_mutable pdo) eqn:Hmut; [|by apply Hconst].
      apply write_mapping_spec; [|done]. simpl. unfold map_access. by rewrite Hmut.
Qed.

Lemma server_pieces_each i s : each (server_pieces i s) (server_ents i s).
Proof.
  unfold server_pieces, server_ents. piece_cons; [by apply constant_byte|].
  piece_cons; [|piece_cons; [|apply list.Forall2_nil_2]]; (apply single_implements; [done| |done]);
    intros d buf Hd Hf; specialize (Hf 4 eq_refl ltac:(done)); rewrite read_bytes_spec by done;
    by erewrite (ref_read_sized _ _ 4) by done.
Qed.

Lemma store_pieces_each eds : each (store_pieces eds) (store_ents eds).
Proof.
  unfold store_pieces, store_ents. piece_cons; [|piece_cons; [by apply constant_byte|apply list.Forall2_nil_2]].
  apply single_implements; [done| |done]. intros d buf Hd Hf. by rewrite read_content_spec.
Qed.

(** *** Tables of pieces *)

Lemma in_concat_cons {A} (e : A) es ess : In e (concat (es :: ess)) ↔ In e es ∨ In e (concat ess).
Proof. simpl. apply List.in_app_iff. Qed.

Lemma arm_matches {B} (a : Arm B) i s :
  (arm_index a =? i) && in_range (arm_first a) (arm_last a) s = true ↔ arm_index a = i ∧ arm_first a ≤ s ≤ arm_last a.
Proof. unfold in_range. lia. Qed.

Section select.
Context {B : Type} (arm : Piece → Arm B) (good : Entry → B → Prop).

Lemma select_spec ps ess i s :
  Forall2 (λ p es, covers (arm p) es ∧ ∀ e, In e es → good e (arm_body (arm p))) ps ess →
  match select (map arm ps) i s with
  | Some body => ∃ e, In e (concat ess) ∧ e_addr e = (i, s) ∧ good e body
  | None => ∀ e, In e (concat ess) → e_addr e ≠ (i, s)
  end.
Proof.
  unfold select. induction 1 as [|p es ps ess [Hc Hg] _ IH]; simpl; [done|].
  destruct ((arm_index (arm p) =? i) && in_range (arm_first (arm p)) (arm_last (arm p)) s) eqn:Hm.
  - apply arm_matches, Hc in Hm as (e & He & Ha). simpl. exists e. split; [apply List.in_app_iff; by left|].
    split; [done|by apply Hg].
  - destruct (List.find _ _) as [a|]; simpl in *.
    + destruct IH as (e & He & Ha). exists e. split; [apply List.in_app_iff; by right|done].
    + intros e [He|He]%List.in_app_iff Ha; [|by eapply IH].
      assert (arm_index (arm p) = i ∧ arm_first (arm p) ≤ s ≤ arm_last (arm p)) as Hx by (apply Hc; by exists e).
      apply arm_matches in Hx. congruence.
Qed.
End select.

Definition good_read (e : Entry) (body : ReadBody) : Prop :=
  ∀ d buf, dict_ok d0 d → size_fits e buf → body d (meta_subindex (e_meta e)) buf = Ret (ref_read d e buf).
Definition good_write (e : Entry) (body : WriteBody) : Prop :=
  ∀ d data, dict_ok d0 d → bytes data → body d (meta_subindex (e_meta e)) data = Ret (ref_write d e data).

Lemma select_read ps ess i s :
  Forall2 (implements d0) ps ess →
  match select (map p_read ps) i s with
  | Some body => ∃ e, In e (concat ess) ∧ e_addr e = (i, s) ∧ good_read e body
  | None => ∀ e, In e (concat ess) → e_addr e ≠ (i, s)
  end.
Proof.
  intros H. apply (select_spec p_read). eapply list.Forall2_impl; [exact H|]. intros p es [_ Hc _ Hr _]. split; [done|].
  intros e He d buf. by apply Hr.
Qed.

Lemma select_write ps ess i s :
  Forall2 (implements d0) ps ess →
  match select (map p_write ps) i s with
  | Some body => ∃ e, In e (concat ess) ∧ e_addr e = (i, s) ∧ good_write e body
  | None => ∀ e, In e (concat ess) → e_addr e ≠ (i, s)
  end.
Proof.
  intros H. apply (select_spec p_write). eapply list.Forall2_impl; [exact H|]. intros p es [_ _ Hc _ Hw]. split; [done|].
  intros e He d data. by apply Hw.
Qed.

(** [implements] for a list of pieces and the list of all their entries. *)
Definition table (ps : list Piece) (es : list Entry) : Prop :=
  ∃ ess, Forall2 (implements d0) ps ess ∧ es = concat ess.

Lemma table_nil : table [] [].
Proof. exists []. by split; [apply list.Forall2_nil_2|]. Qed.

Lemma table_app ps qs es fs : table ps es → table qs fs → table (ps ++ qs) (es ++ fs).
Proof.
  intros (ess & H1 & ->) (fss & H2 & ->). exists (ess ++ fss). split; [by apply Forall2_app|]. by rewrite concat_app.
Qed.

Lemma table_each ps es : each ps es → table ps es.
Proof. apply each_implements. Qed.

Lemma table_metas ps es : table ps es → flat_map p_metas ps = map e_meta es.
Proof.
  intros (ess & H & ->). induction H as [|p es ps ess [Hm _ _ _ _] _ IH]; [done|]. simpl. by rewrite map_app, Hm, IH.
Qed.

Lemma table_concat {A} (f : A → list Piece) (h : A → list Entry) l :
  (∀ x, In x l → table (f x) (h x)) → table (flat_map f l) (flat_map h l).
Proof.
  induction l as [|x l IH]; intros H; [apply table_nil|]. simpl. apply table_app; [apply H; by left|].
  apply IH. intros y Hy. apply H. by right.
Qed.
End pieces.

Lemma for_each_Ret {A B} (f : A → exec B) l k : for_each f l = Ret k → Forall2 (λ x y, f x = Ret y) l k.
Proof.
  revert k. induction l as [|x l IH]; intros k; simpl; [intros [= <-]; apply list.Forall2_nil_2|].
  intros H. apply bind_Ret_inv in H as (y & Hy & H). apply bind_Ret_inv in H as (ys & Hys & H). injection H as <-.
  apply list.Forall2_cons_2; [done|by apply IH].
Qed.
