(* ===== verification/GenTable.v ===== *)
(** * A generated dictionary is its table

    The entries of a definition, the proof that every address has at most one,
    and the equivalence of [gen_lookup], [gen_read] and [gen_write] with the
    table of these entries. *)
From S2P Require Import Prelude Text Frame Od SdoProtocol PdoEngine Node Eds Gen GenSpec.

(** ** The entries of a definition *)

Section entries_of.
Context {Expr : Type}.

Fixpoint pdo_ents_loop (lookup : Z → Z → option OdEntryMeta) (i : nat) (l : list (PdoDef * list ResolvedMapping))
    : list Entry :=
  match l with
  | [] => []
  | (pdo, resolved) :: l => pdo_ents lookup i pdo resolved ++ pdo_ents_loop lookup (S i) l
  end.

Fixpoint server_ents_loop (i : nat) (l : list SdoServerDef) : list Entry :=
  match l with [] => [] | s :: l => server_ents i s ++ server_ents_loop (S i) l end.

Definition comm_ents (lookup : Z → Z → option OdEntryMeta) (od : OdDefinition Expr)
    (tpdos rpdos : list (PdoDef * list ResolvedMapping)) : list Entry :=
  pdo_ents_loop lookup 0 tpdos ++ pdo_ents_loop lookup 0 rpdos ++ server_ents_loop 0 (od_sdo_servers od).

Definition user_ents (od : OdDefinition Expr) : list Entry :=
  map (flat_ent (use_alloc od)) (flatten (od_entries od)).

Definition array_record_ents (od : OdDefinition Expr) : list Entry :=
  flat_map record_ents (od_entries od) ++ flat_map array_ents (collect_arrays (od_entries od)).

Definition entries_of (eds : list Z) (lookup : Z → Z → option OdEntryMeta) (od : OdDefinition Expr)
    (tpdos rpdos : list (PdoDef * list ResolvedMapping)) : list Entry :=
  user_ents od ++ comm_ents lookup od tpdos rpdos ++ array_record_ents od ++ store_ents eds.

(** What the Rust types, the parsers and the compiler guarantee of a
    definition: widths, ranges of numbers, distinct field names, no empty range
    pattern. *)
Record od_typed (od : OdDefinition Expr) : Prop := {
  ot_index : Forall (λ e, is_u16 (oe_index e)) (od_entries od);
  ot_subs : Forall (λ e, ∀ subs, oe_kind e = EntryRecord subs → Forall (λ s, is_u8 (sub_subindex s)) subs) (od_entries od);
  ot_arrays : Forall (λ a, 1 ≤ as_u8 (arr_count (ae_def a)) ∧ 0 ≤ arr_count (ae_def a)) (collect_arrays (od_entries od));
  ot_names : NoDup (map fl_name (flatten (od_entries od)) ++ map ae_name (collect_arrays (od_entries od)));
  ot_pdos : Forall (λ p, 1 ≤ pd_number p ≤ 512 ∧ is_u8 (pd_transmission_type p) ∧ is_u16 (pd_inhibit_time p)
                         ∧ is_u16 (pd_event_timer p)
                         ∧ match pd_cob_id p with Some (Absolute c) | Some (NodeRelative c) => is_u32 c | None => True end)
              (od_pdos od);
  ot_mappings : Forall (λ p, Forall (λ m, match map_bit_length m with Some b => is_u8 b | None => True end) (pd_mappings p))
                  (od_pdos od);
  ot_servers : Forall (λ s, 2 ≤ sd_number s ≤ 128) (od_sdo_servers od);
}.
End entries_of.

Section generate_facts.
Context {Expr : Type} (eval : list Z → Expr → Value) (eval_string : Expr → list Z) (eds : list Z).

(** The shape of what [generate] returns. *)
Record generated_from (od : OdDefinition Expr) (g : Generated Expr)
    (tpdo_resolved rpdo_resolved : list (list ResolvedMapping)) : Prop := {
  gf_tnum : NoDup (map pd_number (pdo_defs DirTpdo od));
  gf_rnum : NoDup (map pd_number (pdo_defs DirRpdo od));
  gf_snum : NoDup (map sd_number (od_sdo_servers od));
  gf_tres : Forall2 (λ p r, resolve_pdo_mappings p (flatten (od_entries od)) = Ret r) (pdo_defs DirTpdo od) tpdo_resolved;
  gf_rres : Forall2 (λ p r, resolve_pdo_mappings p (flatten (od_entries od)) = Ret r) (pdo_defs DirRpdo od) rpdo_resolved;
  gf_fields : Forall2 (λ e f, default_field eval eval_string (use_alloc od) e = Ret f) (flatten (od_entries od))
                (d_fields (g_new g));
  gf_arrays : d_arrays (g_new g) = map array_default (collect_arrays (od_entries od));
  gf_tpdo : pdo_defaults DirTpdo (pdo_defs DirTpdo od) tpdo_resolved = Ret (d_tpdo (g_new g));
  gf_rpdo : pdo_defaults DirRpdo (pdo_defs DirRpdo od) rpdo_resolved = Ret (d_rpdo (g_new g));
  gf_rx : length (d_cob_rx (g_new g)) = length (od_sdo_servers od);
  gf_tx : length (d_cob_tx (g_new g)) = length (od_sdo_servers od);
  gf_tdefs : g_tpdo_defs g = pdo_defs DirTpdo od;
  gf_rdefs : g_rpdo_defs g = pdo_defs DirRpdo od;
  gf_servers : g_servers g = od_sdo_servers od;
  gf_register : g_error_register g = oe_name <$> List.find is_error_register (od_entries od);
  gf_tables : ∃ arrays flats,
    Forall2 (λ a p, array_pieces a = Ret p) (collect_arrays (od_entries od)) arrays ∧
    Forall2 (λ e p, flat_piece (use_alloc od) e = Ret p) (flatten (od_entries od)) flats ∧
    let pieces lookup := pieces_of lookup od arrays flats (combine (pdo_defs DirTpdo od) tpdo_resolved)
                           (combine (pdo_defs DirRpdo od) rpdo_resolved) in
    g_meta g = metas_of eds (pieces (λ _ _, None)) ∧
    g_read g = arms_of eds p_read (pieces (lookup_meta (g_meta g))) ∧
    g_write g = arms_of eds p_write (pieces (lookup_meta (g_meta g)));
}.

Lemma assert_Ret b u : assert_ b = Ret u → b = true.
Proof. by destruct b. Qed.

Lemma generate_from od g :
  generate eval eval_string eds od = Ret g → ∃ tr rr, generated_from od g tr rr.
Proof.
  unfold generate. intros H.
  apply bind_Ret_inv in H as (u1 & H1%assert_Ret & H). apply bind_Ret_inv in H as (u2 & H2%assert_Ret & H).
  apply bind_Ret_inv in H as (tr & Ht%for_each_Ret & H). apply bind_Ret_inv in H as (rr & Hr%for_each_Ret & H).
  apply bind_Ret_inv in H as (u3 & H3%assert_Ret & H). apply bind_Ret_inv in H as (u4 & _ & H).
  apply bind_Ret_inv in H as (fields & Hf%for_each_Ret & H). apply bind_Ret_inv in H as (arrays & Ha%for_each_Ret & H).
  apply bind_Ret_inv in H as (tpdo & Htp & H). apply bind_Ret_inv in H as (rpdo & Hrp & H).
  apply bind_Ret_inv in H as (flats & Hfl%for_each_Ret & H). injection H as <-.
  apply bool_decide_eq_true in H1, H2, H3.
  exists tr, rr. split; try done; simpl; rewrite ?length_map; try done.
  exists arrays, flats. by split; [|split].
Qed.
End generate_facts.

Lemma map_row_length r x : map_row r = Ret x → length x = 64%nat.
Proof.
  unfold map_row. intros H. apply bind_Ret_inv in H as (u & Hl%assert_Ret & H). injection H as <-.
  unfold PDO_MAX_MAPPINGS in *. rewrite length_app, length_map. unfold zeros. rewrite length_replicate. lia.
Qed.

Lemma pdo_defaults_spec dir defs resolved p :
  pdo_defaults dir defs resolved = Ret p → Forall (λ d, is_u8 (pd_transmission_type d)) defs →
  length defs = length resolved →
  pdo_bytes p ∧ length (f_cob_id p) = length defs ∧ length (f_mappings p) = length defs ∧
  length (f_mapping_count p) = length defs ∧ Forall (λ r, length r = 64%nat) (f_mappings p) ∧
  Forall2 (λ r x, map_row r = Ret x) resolved (f_mappings p) ∧ f_mapping_count p = map (λ r, as_u8 (len r)) resolved.
Proof.
  unfold pdo_defaults. intros H Ht Hlen. apply bind_Ret_inv in H as (rows & Hr%for_each_Ret & H). injection H as <-. simpl.
  split; [split; simpl|].
  - apply Forall_map. eapply List.Forall_impl; [|exact Ht]. done.
  - apply Forall_map, Forall_true. intros. apply wrap_range. lia.
  - rewrite !length_map. split; [done|]. pose proof (list.Forall2_length _ _ _ Hr). split; [lia|]. split; [lia|].
    split; [|done]. clear -Hr. induction Hr as [|r x l k Hx _ IH]; [apply List.Forall_nil|].
    apply List.Forall_cons; [by eapply map_row_length|done].
Qed.

Section tables.
Context {Expr : Type} (eval : list Z → Expr → Value) (eval_string : Expr → list Z) (eds : list Z).
Context (od : OdDefinition Expr) (g : Generated Expr) (tr rr : list (list ResolvedMapping)).
Context (Htyped : od_typed od) (Hgen : generated_from eval eval_string eds od g tr rr).

Definition resolved_of (dir : PdoDirection) : list (list ResolvedMapping) :=
  match dir with DirTpdo => tr | DirRpdo => rr end.

Lemma defs_typed dir : Forall (λ d, is_u8 (pd_transmission_type d)) (pdo_defs dir od).
Proof using Htyped.
  apply List.Forall_forall. intros p [Hp _]%List.filter_In.
  by apply (proj1 (List.Forall_forall _ _) (ot_pdos _ Htyped) p Hp).
Qed.

Lemma defs_resolved dir : length (pdo_defs dir od) = length (resolved_of dir).
Proof using Hgen. destruct dir; eapply list.Forall2_length; [apply (gf_tres _ _ _ _ _ _ _ Hgen)|apply (gf_rres _ _ _ _ _ _ _ Hgen)]. Qed.

Lemma new_pdo dir :
  pdo_defaults dir (pdo_defs dir od) (resolved_of dir) = Ret (pdo_fields dir (g_new g)).
Proof using Hgen. destruct dir; [apply (gf_tpdo _ _ _ _ _ _ _ Hgen)|apply (gf_rpdo _ _ _ _ _ _ _ Hgen)]. Qed.

Lemma new_dict_ok : dict_ok (g_new g) (g_new g).
Proof using Htyped Hgen.
  split; try done. intros dir. apply (pdo_defaults_spec _ _ _ _ (new_pdo dir) (defs_typed dir) (defs_resolved dir)).
Qed.

Lemma new_row dir i : (i < length (pdo_defs dir od))%nat → length (row (g_new g) dir i) = 64%nat.
Proof using Htyped Hgen.
  intros Hi. pose proof (pdo_defaults_spec _ _ _ _ (new_pdo dir) (defs_typed dir) (defs_resolved dir))
    as (_ & _ & Hl & _ & Hr & _). unfold row.
  apply (proj1 (List.Forall_forall _ _) Hr). apply nth_In. lia.
Qed.

Lemma array_names : NoDup (map ae_name (collect_arrays (od_entries od))).
Proof using Htyped. pose proof (ot_names _ Htyped) as H. by apply list.NoDup_app in H as (_ & _ & ?). Qed.

Lemma assoc_map_in {A B} (dflt : B) (key : A → list Z) (val : A → B) l x :
  NoDup (map key l) → In x l → assoc dflt (map (λ y, (key y, val y)) l) (key x) = val x.
Proof.
  induction l as [|y l IH]; simpl; [done|]. intros [Hn Hd]%list.NoDup_cons [->|Hx]; rewrite assoc_cons.
  - by rewrite bool_decide_eq_true_2.
  - rewrite bool_decide_eq_false_2; [by apply IH|]. intros Hk. apply Hn. rewrite Hk.
    apply list_elem_of_In. by apply List.in_map.
Qed.

Lemma new_array a : In a (collect_arrays (od_entries od)) → array_field (g_new g) (ae_name a) = snd (array_default a).
Proof using Htyped Hgen.
  intros Ha. unfold array_field. rewrite (gf_arrays _ _ _ _ _ _ _ Hgen).
  apply (assoc_map_in [] ae_name (λ a, snd (array_default a))); [apply array_names|done].
Qed.

Lemma new_elements a sub :
  In a (collect_arrays (od_entries od)) → 1 ≤ sub ≤ as_u8 (arr_count (ae_def a)) →
  has_loc (g_new g) (LElem (ae_name a) (Z.to_nat (sub - 1))).
Proof using Htyped Hgen.
  intros Ha Hs. simpl. rewrite (new_array _ Ha). simpl. rewrite length_replicate. split.
  - rewrite (gf_arrays _ _ _ _ _ _ _ Hgen), List.map_map. apply List.in_map_iff. by exists a.
  - pose proof (proj1 (List.Forall_forall _ _) (ot_arrays _ Htyped) a Ha) as [_ Hc].
    assert (as_u8 (arr_count (ae_def a)) ≤ arr_count (ae_def a)) by (apply Z.mod_le; lia). lia.
Qed.

(** *** The tables of a generated dictionary *)

Definition gen_entries : list Entry :=
  entries_of eds (gen_lookup g) od (combine (pdo_defs DirTpdo od) tr) (combine (pdo_defs DirRpdo od) rr).

Lemma pdo_loop_table lookup dir i l :
  Forall (λ p, pd_direction (fst p) = dir) l → (∀ j, (i ≤ j < i + length l)%nat → (64 ≤ length (row (g_new g) dir j))%nat) →
  table (g_new g) (pdo_loop lookup i l) (pdo_ents_loop lookup i l).
Proof using Type.
  revert i. induction l as [|[pdo resolved] l IH]; intros i Hd Hr; [apply table_nil|].
  apply List.Forall_cons_iff in Hd as [Hd0 Hd]. simpl in Hd0, Hr. cbn [pdo_loop pdo_ents_loop]. apply table_app.
  - apply table_each, pdo_pieces_each. rewrite Hd0. apply Hr. lia.
  - apply IH; [done|]. intros j Hj. apply Hr. lia.
Qed.

Lemma server_loop_table i l : table (g_new g) (server_loop i l) (server_ents_loop i l).
Proof using Type.
  revert i. induction l as [|s l IH]; intros i; [apply table_nil|]. cbn [server_loop server_ents_loop].
  apply table_app; [apply table_each, server_pieces_each|apply IH].
Qed.

Lemma pdos_table lookup dir :
  table (g_new g) (pdo_loop lookup 0 (combine (pdo_defs dir od) (resolved_of dir)))
    (pdo_ents_loop lookup 0 (combine (pdo_defs dir od) (resolved_of dir))).
Proof using Htyped Hgen.
  apply (pdo_loop_table _ dir).
  - apply List.Forall_forall. intros [p r] Hp. apply List.in_combine_l in Hp. simpl.
    apply List.filter_In in Hp as [_ Hp]. by apply bool_decide_eq_true in Hp.
  - intros j Hj. rewrite length_combine, <- (defs_resolved dir) in Hj.
    rewrite new_row; lia.
Qed.

Lemma comm_table lookup :
  table (g_new g)
    (pdo_loop lookup 0 (combine (pdo_defs DirTpdo od) tr) ++ pdo_loop lookup 0 (combine (pdo_defs DirRpdo od) rr)
       ++ server_loop 0 (od_sdo_servers od))
    (comm_ents lookup od (combine (pdo_defs DirTpdo od) tr) (combine (pdo_defs DirRpdo od) rr)).
Proof using Htyped Hgen.
  apply table_app; [apply (pdos_table _ DirTpdo)|]. apply table_app; [apply (pdos_table _ DirRpdo)|apply server_loop_table].
Qed.

Lemma user_table flats :
  Forall2 (λ e p, flat_piece (use_alloc od) e = Ret p) (flatten (od_entries od)) flats →
  table (g_new g) flats (user_ents od).
Proof using Type.
  intros H. apply table_each. unfold user_ents. clear -H.
  induction H as [|e p l k Hp _ IH]; [apply list.Forall2_nil_2|]. apply list.Forall2_cons_2; [|done].
  by apply flat_piece_implements.
Qed.

Lemma arrays_table arrays :
  Forall2 (λ a p, array_pieces a = Ret p) (collect_arrays (od_entries od)) arrays →
  table (g_new g) (flat_map record_piece (od_entries od) ++ concat arrays) (array_record_ents od).
Proof using Htyped Hgen.
  intros H. apply table_app.
  - apply table_concat. intros e He. apply record_piece_implements.
    by apply (proj1 (List.Forall_forall _ _) (ot_subs _ Htyped)).
  - assert (∀ a, In a (collect_arrays (od_entries od)) → ∀ sub, 1 ≤ sub ≤ as_u8 (arr_count (ae_def a)) →
              has_loc (g_new g) (LElem (ae_name a) (Z.to_nat (sub - 1)))) as Hloc
      by (intros a Ha sub Hs; by apply new_elements).
    clear -H Hloc. induction H as [|a ps l k Hp _ IH]; [apply table_nil|]. cbn [concat flat_map]. apply table_app.
    + apply array_pieces_implement; [done|]. intros sub Hs. apply Hloc; [by left|done].
    + apply IH. intros b Hb. apply Hloc. by right.
Qed.

Lemma generated_tables :
  ∃ reads_of : list Piece,
    table (g_new g) reads_of (user_ents od ++ array_record_ents od
      ++ comm_ents (gen_lookup g) od (combine (pdo_defs DirTpdo od) tr) (combine (pdo_defs DirRpdo od) rr)
      ++ store_ents eds) ∧
    g_read g = map p_read reads_of ∧ g_write g = map p_write reads_of ∧ g_meta g = map e_meta gen_entries.
Proof using Htyped Hgen.
  destruct (gf_tables _ _ _ _ _ _ _ Hgen) as (arrays & flats & Ha & Hf & Hm & Hr & Hw).
  eexists. split; [|split; [|split]].
  - apply table_app; [by apply user_table|]. apply table_app; [by apply arrays_table|].
    apply table_app; [apply comm_table|apply table_each, store_pieces_each].
  - rewrite Hr. unfold arms_of, pieces_of. by rewrite !map_app.
  - rewrite Hw. unfold arms_of, pieces_of. by rewrite !map_app.
  - rewrite Hm. unfold metas_of, pieces_of, gen_entries, entries_of.
    rewrite (table_metas _ _ _ (user_table _ Hf)), (table_metas _ _ _ (comm_table _)),
      (table_metas _ _ _ (arrays_table _ Ha)), (table_metas _ _ _ (table_each _ _ _ (store_pieces_each (g_new g) eds))).
    rewrite !map_app. do 2 f_equal. unfold comm_ents. rewrite !map_app.
    assert (∀ L L' i l, map e_meta (pdo_ents_loop L i l) = map e_meta (pdo_ents_loop L' i l)) as HL.
    2: { rewrite (HL (λ _ _, None) (gen_lookup g) 0%nat (combine (pdo_defs DirTpdo od) tr)),
           (HL (λ _ _, None) (gen_lookup g) 0%nat (combine (pdo_defs DirRpdo od) rr)). reflexivity. }
    intros L L' i l. revert i. induction l as [|[pdo res] l IH]; intros i; [done|]. cbn [pdo_ents_loop].
    rewrite !map_app, (IH (S i)). f_equal. unfold pdo_ents. rewrite !map_app, !List.map_map. by destruct (pd_direction pdo).
Qed.
End tables.

(** A closed decidable goal, by evaluation. *)
Ltac by_decision := match goal with |- ?P => exact (bool_decide_eq_true_1 P eq_refl) end.

(** ** Every address has one entry

    Addresses are grouped by index: a group is an index and its sub-indices. *)

Definition group_addrs {A} (gr : Z * list A) : list (Z * A) := map (pair (fst gr)) (snd gr).

Lemma groups_NoDup {A} (groups : list (Z * list A)) :
  NoDup (map fst groups) → Forall (λ gr, NoDup (snd gr)) groups → NoDup (flat_map group_addrs groups).
Proof.
  induction groups as [|[i subs] groups IH]; intros Hn Hs; [apply base.NoDup_nil_2|].
  apply list.NoDup_cons in Hn as [Hi Hn]. apply List.Forall_cons_iff in Hs as [Hss Hs]. simpl in *.
  apply list.NoDup_app. split; [|split; [|by apply IH]].
  - apply NoDup_fmap_2; [|done]. by intros x y [= ->].
  - intros [j s] Hj Hj'. apply list_elem_of_In, List.in_map_iff in Hj as (s' & [= <- <-] & _).
    apply list_elem_of_In, List.in_flat_map in Hj' as ([k ks] & Hk & Hj'). apply List.in_map_iff in Hj' as (s2 & [= -> _] & _).
    apply Hi. apply list_elem_of_In, List.in_map_iff. by exists (i, ks).
Qed.

Lemma flat_map_perm {A B} (f h : A → list B) l :
  flat_map f l ++ flat_map h l ≡ₚ flat_map (λ x, f x ++ h x) l.
Proof.
  induction l as [|x l IH]; [done|]. simpl. rewrite <- IH. rewrite <- !(assoc_L (++)). apply Permutation_app_head.
  rewrite !(assoc_L (++)). apply Permutation_app_tail, Permutation_app_comm.
Qed.

Section addresses.
Context {Expr : Type}.

Definition entry_group (e : OdEntry Expr) : Z * list Z :=
  (oe_index e,
   match oe_kind e with
   | EntryVar _ => [0]
   | EntryRecord subs => map sub_subindex subs ++ [0]
   | EntryArray def => 0 :: seqZ 1 (as_u8 (arr_count def))
   end).

Definition pdo_groups (p : PdoDef * list ResolvedMapping) : list (Z * list Z) :=
  [(comm_index (fst p), [0; 1; 2] ++ match pd_direction (fst p) with DirTpdo => [3] | DirRpdo => [] end ++ [5]);
   (map_index (fst p), 0 :: seqZ 1 (max_map_sub (fst p) (snd p)))].

Definition server_group (s : SdoServerDef) : Z * list Z := (server_index s, [0; 1; 2]).

Lemma user_addrs (od : OdDefinition Expr) :
  map e_addr (user_ents od ++ array_record_ents od) ≡ₚ flat_map group_addrs (map entry_group (od_entries od)).
Proof.
  unfold user_ents, array_record_ents. generalize (use_alloc od) as alloc. intros alloc. generalize (od_entries od) as l. intros l.
  rewrite !map_app, List.map_map.
  assert (map (λ x, e_addr (flat_ent alloc x)) (flatten l) =
          flat_map (λ e, map (λ x, (fl_index x, fl_subindex x)) (flatten_entry e)) l) as ->.
  { unfold flatten. induction l as [|e l IH]; [done|]. cbn [flat_map]. rewrite map_app, IH. f_equal. }
  assert (map e_addr (flat_map record_ents l) = flat_map (λ e, map e_addr (record_ents e)) l) as ->.
  { induction l as [|e l IH]; [done|]. cbn [flat_map]. by rewrite map_app, IH. }
  assert (map e_addr (flat_map array_ents (collect_arrays l)) =
          flat_map (λ e, match oe_kind e with
                         | EntryArray def => map e_addr (array_ents (mkArrayEntry (oe_index e) (oe_name e) def))
                         | _ => []
                         end) l) as ->.
  { unfold collect_arrays. induction l as [|e l IH]; [done|]. cbn [flat_map]. rewrite <- IH. simpl.
    destruct (oe_kind e); simpl; [done..|]. by rewrite map_app. }
  rewrite flat_map_perm, flat_map_perm. apply Permutation_refl'. induction l as [|e l IH]; [done|]. cbn [flat_map map].
  rewrite IH. f_equal. unfold flatten_entry, record_ents, array_ents, entry_group, group_addrs. simpl.
  destruct (oe_kind e) as [v|subs|def]; simpl; [done| |].
  - by rewrite !map_app, !List.map_map.
  - by rewrite !List.map_map.
Qed.

Lemma comm_addrs lookup (od : OdDefinition Expr) tpdos rpdos eds :
  map e_addr (comm_ents lookup od tpdos rpdos ++ store_ents eds) =
  flat_map group_addrs (flat_map pdo_groups (tpdos ++ rpdos) ++ map server_group (od_sdo_servers od)
                        ++ [(0x1021, [0]); (0x1022, [0])]).
Proof.
  assert (∀ i l, map e_addr (pdo_ents_loop lookup i l) = flat_map group_addrs (flat_map pdo_groups l)) as Hp.
  { intros i l. revert i. induction l as [|[pdo res] l IH]; intros i; [done|]. cbn [pdo_ents_loop flat_map].
    rewrite map_app, IH, List.flat_map_app. f_equal. unfold pdo_ents, pdo_groups, group_addrs. simpl.
    destruct (pd_direction pdo); simpl; rewrite !app_nil_r; do 5 f_equal; rewrite !List.map_map; done. }
  assert (∀ i l, map e_addr (server_ents_loop i l) = flat_map group_addrs (map server_group l)) as Hs.
  { intros i l. revert i. induction l as [|s l IH]; intros i; [done|]. cbn [server_ents_loop map flat_map].
    by rewrite map_app, IH. }
  unfold comm_ents. rewrite !map_app, !Hp, Hs, !List.flat_map_app. by rewrite <- !(assoc_L (++)).
Qed.
End addresses.

Section valid.
Context {Expr : Type}.

Lemma check_subs_spec index seen (subs : list (SubEntry Expr)) u :
  check_subs index seen subs = Ok u →
  NoDup (map sub_subindex subs) ∧ Forall (λ s, sub_subindex s ≠ 0 ∧ sub_subindex s ∉ seen) subs.
Proof.
  revert seen. induction subs as [|s subs IH]; intros seen; simpl.
  - intros _. split; [apply base.NoDup_nil_2|apply List.Forall_nil].
  - destruct (Z.eqb_spec (sub_subindex s) 0); [done|]. case_bool_decide as Hin; [done|].
    intros [Hn Hf]%IH. split.
    + apply list.NoDup_cons. split; [|done]. intros (s' & Hs & Hs')%list_elem_of_In%List.in_map_iff.
      apply (proj1 (List.Forall_forall _ _) Hf) in Hs' as [_ Hs']. apply Hs'. rewrite Hs. by left.
    + apply List.Forall_cons; [done|]. eapply List.Forall_impl; [|exact Hf]. intros s' [? Hs']. split; [done|].
      intros Hx. apply Hs'. by right.
Qed.

Definition subs_distinct (e : OdEntry Expr) : Prop :=
  ∀ subs, oe_kind e = EntryRecord subs → NoDup (map sub_subindex subs) ∧ Forall (λ s, sub_subindex s ≠ 0) subs.

Lemma check_owners_spec owners (l : list (OdEntry Expr)) out :
  check_owners owners l = Ok out →
  NoDup (map oe_index l) ∧ Forall subs_distinct l ∧ (∀ e, In e l → oe_index e ∉ owners) ∧
  (∀ i, i ∈ out ↔ i ∈ owners ∨ In i (map oe_index l)).
Proof.
  revert owners. induction l as [|e l IH]; intros owners; cbn [check_owners].
  - intros [= <-]. split; [apply base.NoDup_nil_2|]. split; [apply List.Forall_nil|]. split; [done|]. simpl. tauto.
  - case_bool_decide as Hin; [done|].
    destruct (match oe_kind e with EntryRecord subs => check_subs (oe_index e) [] subs | _ => Ok tt end) as [u|] eqn:Hs; [|done].
    intros (Hn & Hf & Hnot & Hout)%IH. split; [|split; [|split]]; simpl.
    + apply list.NoDup_cons. split; [|done]. intros (e' & He & He')%list_elem_of_In%List.in_map_iff.
      apply (Hnot e' He'). rewrite He. by left.
    + apply List.Forall_cons; [|done]. intros subs Hk. rewrite Hk in Hs. apply check_subs_spec in Hs as [? Hs].
      split; [done|]. eapply List.Forall_impl; [|exact Hs]. by intros s [? _].
    + intros e' [<-|He']; [done|]. specialize (Hnot e' He'). intros Hx. apply Hnot. by right.
    + intros i. rewrite Hout, elem_of_cons. naive_solver.
Qed.

Context (od : OdDefinition Expr) (Htyped : od_typed od) (Hvalid : validate od = Ok tt).

Lemma valid_owners :
  NoDup (map oe_index (od_entries od)) ∧ Forall subs_distinct (od_entries od) ∧
  (∀ i, In i (generated_indices od) → ¬ In i (map oe_index (od_entries od))).
Proof using Hvalid.
  unfold validate in Hvalid. destruct (check_owners [] (od_entries od)) as [owners|] eqn:Ho; [|done].
  apply check_owners_spec in Ho as (Hn & Hf & _ & Hout). split; [done|]. split; [done|]. intros i Hi Hin.
  destruct (List.find _ (generated_indices od)) eqn:Hg; [done|]. pose proof (List.find_none _ _ Hg i Hi) as Hb.
  apply bool_decide_eq_false in Hb. apply Hb, Hout. by right.
Qed.

Lemma valid_access :
  Forall (λ p, ¬ 252 ≤ pd_transmission_type p ≤ 253) (od_pdos od) ∧
  check_access (od_entries od) (od_pdos od) = Ok tt.
Proof using Hvalid.
  unfold validate in Hvalid. destruct (check_owners [] (od_entries od)) as [owners|]; [|done].
  destruct (List.find _ (generated_indices od)); [done|].
  destruct (List.find _ (od_pdos od)) eqn:Ht; [done|]. split; [|done].
  apply List.Forall_forall. intros p Hp Hr. pose proof (List.find_none _ _ Ht p Hp) as Hb. simpl in Hb.
  unfold in_range in Hb. lia.
Qed.

(** The communication and mapping indices of all PDOs differ. *)
Lemma pdo_indices_NoDup (tr rr : list (list ResolvedMapping)) :
  NoDup (map pd_number (pdo_defs DirTpdo od)) → NoDup (map pd_number (pdo_defs DirRpdo od)) →
  NoDup (map fst (flat_map pdo_groups (combine (pdo_defs DirTpdo od) tr ++ combine (pdo_defs DirRpdo od) rr))).
Proof using Htyped.
  intros Ht Hr.
  assert (∀ dir p, In p (pdo_defs dir od) → pd_direction p = dir ∧ 1 ≤ pd_number p ≤ 512) as Hd.
  { intros dir p [Hp Hdir]%List.filter_In. apply bool_decide_eq_true in Hdir. split; [done|].
    apply (proj1 (List.Forall_forall _ _) (ot_pdos _ Htyped) p Hp). }
  assert (∀ dir res, NoDup (map pd_number (pdo_defs dir od)) →
            NoDup (map fst (flat_map pdo_groups (combine (pdo_defs dir od) res))) ∧
            ∀ i, In i (map fst (flat_map pdo_groups (combine (pdo_defs dir od) res))) →
              ∃ p, In p (pdo_defs dir od) ∧ (i = comm_index p ∨ i = map_index p)) as Hdir.
  { intros dir res Hn. specialize (Hd dir). revert res. induction (pdo_defs dir od) as [|p l IH]; intros res; [by split; [apply base.NoDup_nil_2|]|].
    destruct res as [|r res]; [by split; [apply base.NoDup_nil_2|]|]. simpl in Hn. apply list.NoDup_cons in Hn as [Hp Hn].
    destruct (IH ltac:(intros q Hq; apply Hd; by right) Hn res) as [IH1 IH2]. clear IH.
    destruct (Hd p ltac:(by left)) as [Hpd Hpn].
    assert (∀ i, In i (map fst (flat_map pdo_groups (combine l res))) → i ≠ comm_index p ∧ i ≠ map_index p) as Hne.
    { intros i Hi. apply IH2 in Hi as (q & Hq & Hi). destruct (Hd q ltac:(by right)) as [Hqd Hqn].
      assert (pd_number q ≠ pd_number p) by (intros He; apply Hp; rewrite <- He; apply list_elem_of_In; by apply List.in_map).
      unfold comm_index, map_index in *. rewrite Hpd, Hqd in *. destruct dir; simpl in *; lia. }
    simpl. split.
    - apply list.NoDup_cons. split; [|apply list.NoDup_cons; split; [|done]].
      + intros [H|H]%elem_of_cons; [|apply list_elem_of_In, Hne in H; tauto].
        unfold comm_index, map_index in H. rewrite Hpd in H. destruct dir; simpl in H; lia.
      + intros H%list_elem_of_In%Hne. tauto.
    - intros i [<-|[<-|H]]; [exists p; tauto..|]. apply IH2 in H as (q & ? & ?). exists q. tauto. }
  rewrite List.flat_map_app, map_app. destruct (Hdir DirTpdo tr Ht) as [H1 H2], (Hdir DirRpdo rr Hr) as [H3 H4].
  apply list.NoDup_app. split; [done|]. split; [|done]. intros i Hi%list_elem_of_In%H2 Hi'%list_elem_of_In%H4.
  destruct Hi as (p & Hp & Hi), Hi' as (q & Hq & Hi'). destruct (Hd _ _ Hp) as [Hpd Hpn], (Hd _ _ Hq) as [Hqd Hqn].
  unfold comm_index, map_index in *. rewrite Hpd, Hqd in *. simpl in *. lia.
Qed.
End valid.

(** ** The equivalence *)

Section equivalence.
Context {Expr : Type} (eval : list Z → Expr → Value) (eval_string : Expr → list Z) (eds : list Z).
Context (od : OdDefinition Expr) (g : Generated Expr) (tr rr : list (list ResolvedMapping)).
Context (Htyped : od_typed od) (Hvalid : validate od = Ok tt).
Context (Hgen : generated_from eval eval_string eds od g tr rr).

Abbreviation E := (gen_entries eds od g tr rr).

Definition all_groups : list (Z * list Z) :=
  map entry_group (od_entries od)
  ++ flat_map pdo_groups (combine (pdo_defs DirTpdo od) tr ++ combine (pdo_defs DirRpdo od) rr)
  ++ map server_group (od_sdo_servers od) ++ [(0x1021, [0]); (0x1022, [0])].

Lemma entries_addrs : map e_addr E ≡ₚ flat_map group_addrs all_groups.
Proof using Type.
  unfold gen_entries, entries_of, all_groups. rewrite List.flat_map_app, <- user_addrs.
  rewrite <- (comm_addrs (gen_lookup g) od _ _ eds). rewrite !map_app. rewrite <- !(assoc_L (++)). apply Permutation_app_head.
  rewrite !(assoc_L (++)). apply Permutation_app_tail. apply Permutation_app_comm.
Qed.

Lemma pdo_index_generated (l : list (PdoDef * list ResolvedMapping)) i :
  (∀ p, In p l → In (fst p) (od_pdos od)) → In i (map fst (flat_map pdo_groups l)) →
  In i (generated_indices od) ∧ 0x1400 ≤ i < 0x1C00.
Proof using Htyped.
  intros Hl (gr & <- & (p & Hp & Hgr)%List.in_flat_map)%List.in_map_iff. specialize (Hl p Hp).
  pose proof (proj1 (List.Forall_forall _ _) (ot_pdos _ Htyped) _ Hl) as [Hn _].
  assert (fst gr = comm_index (fst p) ∨ fst gr = map_index (fst p)) as Hi by (simpl in Hgr; naive_solver).
  split.
  - unfold generated_indices. rewrite !List.in_app_iff. right. left. apply List.in_flat_map. exists (fst p).
    split; [done|]. simpl. naive_solver.
  - unfold comm_index, map_index in Hi. destruct (pd_direction (fst p)); simpl in Hi; lia.
Qed.

Lemma groups_distinct : NoDup (map fst all_groups).
Proof using Htyped Hvalid Hgen.
  destruct (valid_owners _ Hvalid) as (Hn & _ & Hg). unfold all_groups. rewrite !map_app, !List.map_map.
  change (map (λ e : OdEntry Expr, fst (entry_group e)) (od_entries od)) with (map oe_index (od_entries od)).
  change (map (λ s, fst (server_group s)) (od_sdo_servers od)) with (map server_index (od_sdo_servers od)).
  assert (∀ i, In i (map server_index (od_sdo_servers od)) → In i (generated_indices od) ∧ 0x1201 ≤ i ≤ 0x127F) as Hs.
  { intros i (s & <- & Hs)%List.in_map_iff. pose proof (proj1 (List.Forall_forall _ _) (ot_servers _ Htyped) _ Hs) as Hr.
    simpl in Hr. unfold server_index. split; [|lia]. unfold generated_indices. rewrite !List.in_app_iff. right. right.
    apply List.in_map_iff. exists s. split; [lia|done]. }
  assert (∀ i, In i (map fst (flat_map pdo_groups (combine (pdo_defs DirTpdo od) tr ++ combine (pdo_defs DirRpdo od) rr))) →
            In i (generated_indices od) ∧ 0x1400 ≤ i < 0x1C00) as Hp.
  { intros i. apply pdo_index_generated. intros [p r] [Hp|Hp]%List.in_app_iff; apply List.in_combine_l in Hp;
      by apply List.filter_In in Hp as [Hp _]. }
  assert (∀ i, i = 0x1021 ∨ i = 0x1022 → In i (generated_indices od)) as Hst by (intros i [->| ->]; simpl; tauto).
  apply list.NoDup_app. split; [done|]. split.
  { intros i Hi%list_elem_of_In Hi'. apply (Hg i); [|done].
    apply elem_of_app in Hi' as [Hi'|Hi']; [by apply Hp, list_elem_of_In|].
    apply elem_of_app in Hi' as [Hi'|Hi']; [by apply Hs, list_elem_of_In|].
    apply Hst. apply list_elem_of_In in Hi'. simpl in Hi'. lia. }
  apply list.NoDup_app. split; [apply (pdo_indices_NoDup _ Htyped); apply Hgen|]. split.
  { intros i Hi%list_elem_of_In%Hp Hi'. apply elem_of_app in Hi' as [Hi'|Hi'].
    - apply list_elem_of_In, Hs in Hi'. lia.
    - apply list_elem_of_In in Hi'. simpl in Hi'. lia. }
  apply list.NoDup_app. split; [|split].
  - pose proof (gf_snum _ _ _ _ _ _ _ Hgen) as Hsn. clear -Hsn. induction (od_sdo_servers od) as [|s l IH]; [apply base.NoDup_nil_2|].
    apply list.NoDup_cons in Hsn as [Hs Hsn]. apply list.NoDup_cons. split; [|by apply IH].
    intros (s' & He & Hs')%list_elem_of_In%List.in_map_iff. apply Hs. apply list_elem_of_In, List.in_map_iff.
    exists s'. split; [|done]. unfold server_index in He. lia.
  - intros i Hi%list_elem_of_In%Hs Hi'%list_elem_of_In. simpl in Hi'. lia.
  - apply list.NoDup_cons. split; [|apply NoDup_singleton]. by intros H%list_elem_of_singleton.
Qed.

Lemma zero_seqZ n : NoDup (0 :: seqZ 1 n).
Proof. apply list.NoDup_cons. split; [|apply NoDup_seqZ]. intros H%elem_of_seqZ. lia. Qed.

Lemma groups_subs : Forall (λ gr, NoDup (snd gr)) all_groups.
Proof using Hvalid.
  destruct (valid_owners _ Hvalid) as (_ & Hsub & _). unfold all_groups. apply Forall_app_2; [|apply Forall_app_2; [|apply Forall_app_2]].
  - apply Forall_map. eapply List.Forall_impl; [|exact Hsub]. intros e He. unfold entry_group. simpl. unfold subs_distinct in He.
    destruct (oe_kind e) as [v|subs|def]; [apply NoDup_singleton| |apply zero_seqZ].
    destruct (He subs eq_refl) as [Hn Hz]. apply list.NoDup_app. split; [done|]. split; [|apply NoDup_singleton].
    intros s (x & <- & Hx)%list_elem_of_In%List.in_map_iff Hs%list_elem_of_singleton.
    by apply (proj1 (List.Forall_forall _ _) Hz) in Hx.
  - apply List.Forall_forall. intros gr (p & _ & Hgr)%List.in_flat_map. simpl in Hgr. destruct Hgr as [<-|[<-|[]]]; simpl.
    + destruct (pd_direction (fst p)); simpl; by_decision.
    + apply zero_seqZ.
  - apply Forall_map, Forall_true. intros s. by_decision.
  - repeat apply List.Forall_cons; [apply NoDup_singleton..|apply List.Forall_nil].
Qed.

Lemma entries_NoDup : NoDup (map e_addr E).
Proof using Htyped Hvalid Hgen.
  rewrite entries_addrs. apply groups_NoDup; [apply groups_distinct|apply groups_subs].
Qed.

Definition entry_at (i s : Z) : option Entry := List.find (λ e, bool_decide (e_addr e = (i, s))) E.

Lemma find_unique {A B} `{EqDecision B} (f : A → B) l x a :
  NoDup (map f l) → In x l → f x = a → List.find (λ y, bool_decide (f y = a)) l = Some x.
Proof using Type.
  induction l as [|y l IH]; simpl; [done|]. intros [Hy Hn]%list.NoDup_cons [->|Hx] Ha.
  - by rewrite bool_decide_eq_true_2.
  - rewrite bool_decide_eq_false_2; [by apply IH|]. intros Hya. apply Hy. rewrite Hya, <- Ha.
    apply list_elem_of_In. by apply List.in_map.
Qed.

Lemma entry_at_in i s e : entry_at i s = Some e ↔ In e E ∧ e_addr e = (i, s).
Proof using Htyped Hvalid Hgen.
  unfold entry_at. split.
  - intros [? H]%List.find_some. by apply bool_decide_eq_true in H.
  - intros [He Ha]. apply find_unique; [apply entries_NoDup|done|done].
Qed.

Lemma entry_at_none i s : entry_at i s = None → ∀ e, In e E → e_addr e ≠ (i, s).
Proof using Type. intros H e He Ha. pose proof (List.find_none _ _ H e He) as Hf. by apply bool_decide_eq_false in Hf. Qed.

Lemma gen_lookup_entry i s : gen_lookup g i s = e_meta <$> entry_at i s.
Proof using Htyped Hgen.
  destruct (generated_tables _ _ _ _ _ _ _ Htyped Hgen) as (_ & _ & _ & _ & Hm). unfold gen_lookup, lookup_meta, entry_at. rewrite Hm. clear Hm.
  induction E as [|e l IH]; [done|]. simpl. rewrite IH. unfold e_addr.
  destruct (Z.eqb_spec (meta_index (e_meta e)) i), (Z.eqb_spec (meta_subindex (e_meta e)) s); simpl;
    case_bool_decide; first [done|congruence].
Qed.

Lemma select_entry {B} (arm : Piece → Arm B) (good : Entry → B → Prop) arms i s :
  (match select arms i s with
   | Some body => ∃ e, In e E ∧ e_addr e = (i, s) ∧ good e body
   | None => ∀ e, In e E → e_addr e ≠ (i, s)
   end) →
  match entry_at i s with
  | Some e => ∃ body, select arms i s = Some body ∧ good e body
  | None => select arms i s = None
  end.
Proof using Htyped Hvalid Hgen.
  intros H. destruct (select arms i s) as [body|].
  - destruct H as (e & He & Ha & Hg). rewrite (proj2 (entry_at_in i s e)) by done. by exists body.
  - destruct (entry_at i s) as [e|] eqn:He; [|done]. apply entry_at_in in He as [He Ha]. by destruct (H e He).
Qed.

Lemma table_entries ps :
  table (g_new g) ps (user_ents od ++ array_record_ents od
      ++ comm_ents (gen_lookup g) od (combine (pdo_defs DirTpdo od) tr) (combine (pdo_defs DirRpdo od) rr) ++ store_ents eds) →
  ∃ ess, Forall2 (implements (g_new g)) ps ess ∧ ∀ e, In e (concat ess) ↔ In e E.
Proof using Type.
  intros (ess & H & He). exists ess. split; [done|]. intros e. rewrite <- He. unfold gen_entries, entries_of.
  rewrite !List.in_app_iff. tauto.
Qed.

Lemma read_entry i s :
  match entry_at i s with
  | Some e => ∃ body, select (g_read g) i s = Some body ∧ good_read (g_new g) e body
  | None => select (g_read g) i s = None
  end.
Proof using Htyped Hvalid Hgen.
  destruct (generated_tables _ _ _ _ _ _ _ Htyped Hgen) as (ps & Ht & Hr & _). rewrite Hr.
  apply (select_entry p_read). destruct (table_entries _ Ht) as (ess & Hi & He).
  pose proof (select_read _ _ _ i s Hi) as H. destruct (select _ i s) as [body|].
  - destruct H as (e & Hin & H). exists e. by rewrite <- He.
  - intros e Hin. by apply H, He.
Qed.

Lemma write_entry i s :
  match entry_at i s with
  | Some e => ∃ body, select (g_write g) i s = Some body ∧ good_write (g_new g) e body
  | None => select (g_write g) i s = None
  end.
Proof using Htyped Hvalid Hgen.
  destruct (generated_tables _ _ _ _ _ _ _ Htyped Hgen) as (ps & Ht & _ & Hw & _). rewrite Hw.
  apply (select_entry p_write). destruct (table_entries _ Ht) as (ess & Hi & He).
  pose proof (select_write _ _ _ i s Hi) as H. destruct (select _ i s) as [body|].
  - destruct H as (e & Hin & H). exists e. by rewrite <- He.
  - intros e Hin. by apply H, He.
Qed.

Lemma addr_sub e i s : e_addr e = (i, s) → meta_subindex (e_meta e) = s.
Proof using Type. by intros [= _ <-]. Qed.

(** Reads: any buffer, however short. *)
Lemma gen_read_entry d i s buf :
  dict_ok (g_new g) d →
  gen_read g d i s buf =
  Ret (match entry_at i s with Some e => ref_read d e buf | None => (buf, Err NotFound) end).
Proof using Htyped Hvalid Hgen.
  intros Hd. unfold gen_read, too_short. rewrite gen_lookup_entry. pose proof (read_entry i s) as Hr.
  destruct (entry_at i s) as [e|] eqn:He; cbn [fmap option_fmap option_map]; [|by rewrite andb_false_r, Hr].
  destruct Hr as (body & Hb & Hg). rewrite Hb. pose proof He as [_ Ha]%entry_at_in. apply addr_sub in Ha. rewrite <- Ha.
  assert (size_fits e buf → body d (meta_subindex (e_meta e)) buf = Ret (ref_read d e buf)) as Hfit by (intros; by apply Hg).
  destruct (bool_decide (access (e_meta e) = Wo)) eqn:Hwo.
  { rewrite andb_false_r. apply Hfit. apply bool_decide_eq_true in Hwo. by intros n _. }
  destruct (DataType.size (data_type (e_meta e))) as [n|] eqn:Hn; cycle 1.
  { rewrite !andb_false_r. apply Hfit. intros n. by rewrite Hn. }
  pose proof (size_pos _ _ Hn). cbn [negb andb]. destruct (Z.ltb_spec (len buf) n) as [Hs|Hs].
  - rewrite (proj2 (Z.ltb_lt (len buf) 8)) by lia. cbn [andb]. unfold ref_read. rewrite Hwo.
    rewrite (encode_length _ _ _ Hn), (proj2 (Z.ltb_lt _ _)) by done. done.
  - rewrite andb_false_r. apply Hfit. intros m Hm _. congruence.
Qed.

Lemma gen_write_entry d i s data :
  dict_ok (g_new g) d → bytes data →
  gen_write g d i s data =
  Ret (match entry_at i s with Some e => ref_write d e data | None => (d, Err NotFound) end).
Proof using Htyped Hvalid Hgen.
  intros Hd Hb. unfold gen_write. pose proof (write_entry i s) as Hw. destruct (entry_at i s) as [e|] eqn:He; [|by rewrite Hw].
  destruct Hw as (body & Hs & Hg). rewrite Hs. pose proof He as [_ Ha]%entry_at_in. apply addr_sub in Ha. rewrite <- Ha.
  by apply Hg.
Qed.
End equivalence.
