(* ===== verification/GenFacts.v ===== *)
(** * Reading what was written

    In every reachable state of a generated dictionary, accesses are those of
    its table; a successful write is read back from its address and from no
    other. *)
From S2P Require Import Prelude Text Frame Od SdoProtocol PdoEngine PdoMapped Node Eds Gen GenSpec GenTable.

(** ** Encoding *)

Definition canonical (dt : DataType) (data : list Z) : list Z :=
  if bool_decide (dt = Boolean) then [if at_ data 0 =? 0 then 0 else 1] else data.

Lemma to_le_signed n v : 0 ≤ n → to_le_bytes (Z.to_nat n) (signed_of n v) = to_le_bytes (Z.to_nat n) v.
Proof.
  intros Hn. unfold signed_of. destruct (_ <? _); [done|].
  rewrite <- (to_le_mod (Z.to_nat n) v), <- (to_le_mod (Z.to_nat n) (v - 2 ^ (8 * n))). f_equal.
  rewrite Z2Nat.id by done. replace (2 ^ (8 * n)) with (256 ^ n) by (change 256 with (2 ^ 8); by rewrite <- Z.pow_mul_r by lia).
  replace (v - 256 ^ n) with (v + (-1) * 256 ^ n) by lia. apply Z.mod_add. pose proof (Z.pow_pos_nonneg 256 n). lia.
Qed.

Lemma encode_decode dt data n :
  DataType.size dt = Some n → len data = n → bytes data → encode dt (decode dt data) = canonical dt data.
Proof.
  intros Hn Hl Hb. pose proof (size_pos _ _ Hn). unfold encode, decode, canonical. rewrite Hn. case_bool_decide as Hd.
  - simpl. by destruct (at_ data 0 =? 0).
  - assert (to_le_bytes (Z.to_nat n) (from_le_bytes data) = data) as Hle.
    { rewrite <- Hl, Nat2Z.id. by apply to_from_le. }
    simpl. destruct (signed_type dt); [|done]. by rewrite to_le_signed by lia.
Qed.

Lemma encode_decode_content dt data : DataType.size dt = None → encode dt (decode dt data) = canonical dt data.
Proof. intros Hn. unfold encode, decode, canonical. rewrite Hn. by destruct dt. Qed.

Lemma value_check_ok dt cap data n : DataType.size dt = Some n → value_check dt cap data = Ok tt → len data = n.
Proof. intros Hn. unfold value_check. rewrite Hn. by destruct (Z.eqb_spec (len data) n). Qed.

(** What every entry of a definition satisfies, for the struct [d0]. *)
Record entry_ok (d0 : Dict) (e : Entry) : Prop := {
  eo_check : ∀ d data n, e_check e d data = Ok tt → DataType.size (data_type (e_meta e)) = Some n → len data = n;
  eo_numeric : numeric (e_loc e) = true → ∃ n, DataType.size (data_type (e_meta e)) = Some n ∧ data_type (e_meta e) ≠ Boolean;
  eo_writable : read_only_access (access (e_meta e)) = false → has_loc d0 (e_loc e) ∧ ∀ c, e_loc e ≠ LConst c;
  eo_fits : match e_loc e with LType _ _ | LCount _ _ => data_type (e_meta e) = U8 | _ => True end;
}.

Lemma plain_ok d0 m cap l :
  (numeric l = true → ∃ n, DataType.size (data_type m) = Some n ∧ data_type m ≠ Boolean) →
  (read_only_access (access m) = false → has_loc d0 l ∧ ∀ c, l ≠ LConst c) →
  (match l with LType _ _ | LCount _ _ => data_type m = U8 | _ => True end) → entry_ok d0 (plain m cap l).
Proof. intros Hn Hw Hf. split; try done. intros d data n Hc Hs. exact (value_check_ok _ _ _ _ Hs Hc). Qed.

Lemma constant_ok d0 m v : read_only_access (access m) = true → entry_ok d0 (constant m v).
Proof. intros Hm. apply plain_ok; [done| |done]. by rewrite Hm. Qed.

(** The arrays of a direction have a slot for the [i]-th definition. *)
Record has_slot (d0 : Dict) (dir : PdoDirection) (i : nat) : Prop := {
  hs_cob : has_loc d0 (LCob dir i);
  hs_type : has_loc d0 (LType dir i);
  hs_inhibit : dir = DirTpdo → has_loc d0 (LInhibit dir i);
  hs_timer : has_loc d0 (LTimer dir i);
  hs_count : has_loc d0 (LCount dir i);
  hs_map : ∀ j, (j < 64)%nat → has_loc d0 (LMap dir i j);
}.

Lemma checked_entry_ok d0 m l check dt n :
  data_type m = dt → DataType.size dt = Some n → dt ≠ Boolean →
  (∀ d data, check d data = Ok tt → len data = n) → (read_only_access (access m) = false → has_loc d0 l) →
  numeric l = true → (match l with LType _ _ | LCount _ _ => dt = U8 | _ => True end) →
  entry_ok d0 (mkEnt m l check).
Proof.
  intros <- Hs Hb Hc Hl Hn Hf. split; simpl; [|by exists n|intros Hr; split; [by apply Hl|by destruct l]|done].
  intros d data k H Hk. rewrite Hs in Hk. injection Hk as <-. by eapply Hc.
Qed.

Lemma pdo_ents_ok d0 lookup i pdo res :
  has_slot d0 (pd_direction pdo) i → Forall (entry_ok d0) (pdo_ents lookup i pdo res).
Proof.
  intros [H1 H2 H3 H4 H5 H6]. unfold pdo_ents.
  apply Forall_app_2; [|apply Forall_app_2; [|apply Forall_app_2]].
  - repeat apply List.Forall_cons; [..|apply List.Forall_nil].
    + by apply constant_ok.
    + apply plain_ok; [by exists 4| |done]. by split.
    + eapply checked_entry_ok; try done. intros d data. unfold type_check. by destruct (Z.eqb_spec (len data) 1).
  - destruct (pd_direction pdo); [|apply List.Forall_nil]. apply List.Forall_cons; [|apply List.Forall_nil].
    apply plain_ok; [by exists 2| |done]. split; [by apply H3|done].
  - repeat apply List.Forall_cons; [..|apply List.Forall_nil].
    + apply plain_ok; [by exists 2| |done]. by split.
    + eapply checked_entry_ok; try done. intros d data. unfold count_check. by destruct (Z.eqb_spec (len data) 1).
  - apply Forall_map, List.Forall_forall. intros sub Hs%list_elem_of_In%elem_of_seqZ.
    eapply checked_entry_ok; try done.
    + intros d data. unfold mapping_check. destruct (negb _); [done|]. by destruct (Z.eqb_spec (len data) 4).
    + intros Hr. apply H6. unfold map_access, max_map_sub in *. simpl in Hr. destruct (is_mutable pdo); [|done].
      unfold PDO_MAX_MAPPINGS in Hs. lia.
Qed.

(** ** Entry by entry *)

Lemma lookup_combine {A B} (l : list A) (k : list B) i x y :
  combine l k !! i = Some (x, y) → l !! i = Some x ∧ k !! i = Some y.
Proof.
  revert k i. induction l as [|a l IH]; intros [|b k] i; try done. destruct i as [|i]; simpl; [by intros [= -> ->]|apply IH].
Qed.

Lemma pdo_loop_forall (P : Entry → Prop) lookup i l :
  (∀ j pdo res, l !! j = Some (pdo, res) → Forall P (pdo_ents lookup (i + j) pdo res)) → Forall P (pdo_ents_loop lookup i l).
Proof.
  revert i. induction l as [|[pdo res] l IH]; intros i H; cbn [pdo_ents_loop]; [apply List.Forall_nil|]. apply Forall_app_2.
  - pose proof (H 0%nat pdo res eq_refl) as H0. by rewrite Nat.add_0_r in H0.
  - apply IH. intros j p r Hj. replace (S i + j)%nat with (i + S j)%nat by lia. by apply H.
Qed.

Lemma server_loop_forall (P : Entry → Prop) i l :
  (∀ j s, l !! j = Some s → Forall P (server_ents (i + j) s)) → Forall P (server_ents_loop i l).
Proof.
  revert i. induction l as [|s l IH]; intros i H; cbn [server_ents_loop]; [apply List.Forall_nil|]. apply Forall_app_2.
  - pose proof (H 0%nat s eq_refl) as H0. by rewrite Nat.add_0_r in H0.
  - apply IH. intros j p Hj. replace (S i + j)%nat with (i + S j)%nat by lia. by apply H.
Qed.

Lemma Forall_flat_map {A B} (P : B → Prop) (f : A → list B) l :
  (∀ x, In x l → Forall P (f x)) → Forall P (flat_map f l).
Proof. intros H. apply List.Forall_forall. intros y (x & Hx & Hy)%List.in_flat_map. by apply (proj1 (List.Forall_forall _ _) (H x Hx)). Qed.

Section facts.
Context {Expr : Type} (eval : list Z → Expr → Value) (eval_string : Expr → list Z) (eds : list Z).
Context (od : OdDefinition Expr) (g : Generated Expr) (tr rr : list (list ResolvedMapping)).
Context (Htyped : od_typed od) (Hvalid : validate od = Ok tt).
Context (Hgen : generated_from eval eval_string eds od g tr rr).

Abbreviation E := (gen_entries eds od g tr rr).

Lemma gen_entries_forall (P : Entry → Prop) :
  (∀ x, In x (flatten (od_entries od)) → P (flat_ent (use_alloc od) x)) →
  (∀ dir i pdo res, pdo_defs dir od !! i = Some pdo → resolved_of tr rr dir !! i = Some res →
     Forall P (pdo_ents (gen_lookup g) i pdo res)) →
  (∀ i s, od_sdo_servers od !! i = Some s → Forall P (server_ents i s)) →
  (∀ e, In e (od_entries od) → Forall P (record_ents e)) →
  (∀ a, In a (collect_arrays (od_entries od)) → Forall P (array_ents a)) →
  Forall P (store_ents eds) → Forall P E.
Proof using Type.
  intros Hf Hp Hs Hr Ha Hst. unfold gen_entries, entries_of, user_ents, comm_ents, array_record_ents.
  repeat apply Forall_app_2; try done.
  - apply Forall_map, List.Forall_forall. by apply Hf.
  - apply pdo_loop_forall. intros i p r [H1 H2]%lookup_combine. by apply (Hp DirTpdo).
  - apply pdo_loop_forall. intros i p r [H1 H2]%lookup_combine. by apply (Hp DirRpdo).
  - by apply server_loop_forall.
  - by apply Forall_flat_map.
  - by apply Forall_flat_map.
Qed.

Lemma defs_direction dir i pdo : pdo_defs dir od !! i = Some pdo → pd_direction pdo = dir.
Proof using Type.
  intros [_ H]%list_elem_of_lookup_2%list_elem_of_In%List.filter_In. by apply bool_decide_eq_true in H.
Qed.

Lemma new_slot dir i pdo : pdo_defs dir od !! i = Some pdo → has_slot (g_new g) dir i.
Proof using Htyped Hgen.
  intros Hi%lookup_lt_Some. pose proof (new_row _ _ _ _ _ _ _ Htyped Hgen dir i Hi) as Hrow.
  pose proof (pdo_defaults_spec _ _ _ _ (new_pdo _ _ _ _ _ _ _ Hgen dir) (defs_typed _ Htyped dir)
    (defs_resolved _ _ _ _ _ _ _ Hgen dir)) as (_ & _ & Hm & Hc & _).
  pose proof (new_pdo _ _ _ _ _ _ _ Hgen dir) as Hd. unfold pdo_defaults in Hd.
  apply bind_Ret_inv in Hd as (rows & _ & Hd). injection Hd as Hd.
  split; simpl; try (rewrite <- Hd; simpl; rewrite ?length_map; lia).
  - intros ->. rewrite <- Hd. simpl. by rewrite length_map.
  - lia.
  - intros j Hj. rewrite Hrow, Hm. by split.
Qed.

Lemma gen_entries_ok : Forall (entry_ok (g_new g)) E.
Proof using Htyped Hgen.
  apply gen_entries_forall.
  - intros x Hx. apply plain_ok; [done| |done]. intros _. split; [|done].
    change (In (fl_name x) (map fst (d_fields (g_new g)))).
    assert (map fst (d_fields (g_new g)) = map fl_name (flatten (od_entries od))) as ->; [|by apply List.in_map].
    pose proof (gf_fields _ _ _ _ _ _ _ Hgen) as Hf. clear -Hf. induction Hf as [|e f l k He _ IH]; [done|]. simpl. rewrite IH.
    f_equal. unfold default_field in He. apply bind_Ret_inv in He as (v & _ & He). by injection He as <-.
  - intros dir i pdo res Hi _. apply pdo_ents_ok. rewrite (defs_direction _ _ _ Hi). by apply (new_slot dir i pdo).
  - intros i s _. repeat apply List.Forall_cons; [..|apply List.Forall_nil]; [by apply constant_ok|..];
      (apply plain_ok; [by exists 4|done|done]).
  - intros e _. unfold record_ents. destruct (oe_kind e); [apply List.Forall_nil| |apply List.Forall_nil].
    apply List.Forall_cons; [by apply constant_ok|apply List.Forall_nil].
  - intros a Ha. apply List.Forall_cons; [by apply constant_ok|]. apply Forall_map, List.Forall_forall.
    intros sub Hs%list_elem_of_In%elem_of_seqZ. apply plain_ok; [done| |done]. intros _. split; [|done].
    apply (new_elements _ _ _ _ _ _ _ Htyped Hgen); [done|lia].
  - repeat apply List.Forall_cons; [by apply constant_ok..|apply List.Forall_nil].
Qed.

(** ** Every location has one address *)

Definition loc_addr (l : Loc) : option (Z * Z) :=
  let pdo dir i (f : PdoDef → Z * Z) := f <$> pdo_defs dir od !! i in
  match l with
  | LField name =>
      (λ x, (fl_index x, fl_subindex x)) <$> List.find (λ x, bool_decide (fl_name x = name)) (flatten (od_entries od))
  | LElem name k =>
      (λ a, (ae_index a, Z.of_nat k + 1))
        <$> List.find (λ a, bool_decide (ae_name a = name)) (collect_arrays (od_entries od))
  | LCob dir i => pdo dir i (λ p, (comm_index p, 1))
  | LType dir i => pdo dir i (λ p, (comm_index p, 2))
  | LInhibit dir i => pdo dir i (λ p, (comm_index p, 3))
  | LTimer dir i => pdo dir i (λ p, (comm_index p, 5))
  | LCount dir i => pdo dir i (λ p, (map_index p, 0))
  | LMap dir i j => pdo dir i (λ p, (map_index p, Z.of_nat j + 1))
  | LServerRx i => (λ s, (server_index s, 1)) <$> od_sdo_servers od !! i
  | LServerTx i => (λ s, (server_index s, 2)) <$> od_sdo_servers od !! i
  | LConst _ => None
  end.

Definition loc_owned (e : Entry) : Prop := (∃ v, e_loc e = LConst v) ∨ loc_addr (e_loc e) = Some (e_addr e).

Lemma pdo_ents_owned i pdo res lookup :
  pdo_defs (pd_direction pdo) od !! i = Some pdo → Forall loc_owned (pdo_ents lookup i pdo res).
Proof using Type.
  intros Hi. unfold pdo_ents. apply Forall_app_2; [|apply Forall_app_2; [|apply Forall_app_2]].
  - repeat apply List.Forall_cons; [left; by eexists|right..|apply List.Forall_nil]; simpl; by rewrite Hi.
  - destruct (pd_direction pdo) eqn:Hd; [|apply List.Forall_nil]. apply List.Forall_cons; [|apply List.Forall_nil].
    right. simpl. by rewrite Hi.
  - repeat apply List.Forall_cons; [right..|apply List.Forall_nil]; simpl; by rewrite Hi.
  - apply Forall_map, List.Forall_forall. intros sub Hs%list_elem_of_In%elem_of_seqZ. right. simpl. rewrite Hi. simpl.
    unfold e_addr. simpl. do 2 f_equal. lia.
Qed.

Lemma gen_entries_owned : Forall loc_owned E.
Proof using Htyped.
  apply gen_entries_forall.
  - intros x Hx. right. simpl. rewrite (find_unique fl_name _ x (fl_name x)); [done| |done|done].
    pose proof (ot_names _ Htyped) as H. by apply list.NoDup_app in H as [? _].
  - intros dir i pdo res Hi _. apply pdo_ents_owned. by rewrite (defs_direction _ _ _ Hi).
  - intros i s Hs. repeat apply List.Forall_cons; [left; by eexists|right..|apply List.Forall_nil]; simpl; by rewrite Hs.
  - intros e _. unfold record_ents. destruct (oe_kind e); [apply List.Forall_nil| |apply List.Forall_nil].
    apply List.Forall_cons; [left; by eexists|apply List.Forall_nil].
  - intros a Ha. apply List.Forall_cons; [left; by eexists|]. apply Forall_map, List.Forall_forall.
    intros sub Hs%list_elem_of_In%elem_of_seqZ. right. simpl.
    rewrite (find_unique ae_name _ a (ae_name a)); [|exact (array_names _ Htyped)|done|done]. unfold e_addr. simpl. do 2 f_equal. lia.
  - repeat apply List.Forall_cons; [left; by eexists..|apply List.Forall_nil].
Qed.

Lemma locations_distinct e e' :
  In e E → In e' E → e_addr e ≠ e_addr e' → (∀ c, e_loc e ≠ LConst c) → e_loc e ≠ e_loc e'.
Proof using Htyped.
  intros He He' Ha Hc Hl. pose proof (proj1 (List.Forall_forall _ _) gen_entries_owned) as Ho.
  destruct (Ho e He) as [[v Hv]|Ho1]; [by destruct (Hc v)|]. destruct (Ho e' He') as [[v Hv]|Ho2]; [destruct (Hc v); congruence|].
  apply Ha. rewrite Hl, Ho2 in Ho1. congruence.
Qed.
End facts.

(** ** Writes of the reference *)

Lemma decode_number dt n data : DataType.size dt = Some n → dt ≠ Boolean → decode dt data = VNum (num (decode dt data)).
Proof. intros Hn Hb. unfold decode. rewrite Hn, bool_decide_eq_false_2 by done. done. Qed.

Lemma ref_write_dict_ok d0 d e data :
  entry_ok d0 e → dict_ok d0 d → bytes data → dict_ok d0 (fst (ref_write d e data)).
Proof.
  intros He Hd Hb. unfold ref_write. destruct (read_only_access _); [done|]. destruct (e_check e d data) as [[]|] eqn:Hc; [|done].
  cbn [fst]. apply set_loc_ok; [done|].
  assert (data_type (e_meta e) = U8 → is_u8 (num (decode (data_type (e_meta e)) data))) as Hu.
  { intros Hu. rewrite Hu, decode_u8 by (eapply eo_check; [exact He|exact Hc|by rewrite Hu]). by apply at_bytes. }
  pose proof (eo_fits _ _ He) as Hf. destruct (e_loc e); try done; by apply Hu.
Qed.

Lemma ref_write_error d e data x : snd (ref_write d e data) = Err x → fst (ref_write d e data) = d.
Proof. unfold ref_write. destruct (read_only_access _); [done|]. by destruct (e_check e d data). Qed.

Lemma ref_write_success d0 d e data :
  entry_ok d0 e → dict_ok d0 d → bytes data → snd (ref_write d e data) = Ok tt →
  (∀ c, e_loc e ≠ LConst c) ∧
  fst (ref_write d e data) = set_loc (e_loc e) (decode (data_type (e_meta e)) data) d ∧
  encode (data_type (e_meta e)) (get_loc (fst (ref_write d e data)) (e_loc e)) = canonical (data_type (e_meta e)) data.
Proof.
  intros He Hd Hb. unfold ref_write. destruct (read_only_access (access (e_meta e))) eqn:Hr; [done|].
  destruct (e_check e d data) as [[]|] eqn:Hc; [|done]. intros _. cbn [fst].
  destruct (eo_writable _ _ He Hr) as [Hl Hconst]. split; [done|]. split; [done|].
  rewrite get_set_same; [|by apply (has_loc_shape _ _ _ Hd)|done|].
  - destruct (DataType.size (data_type (e_meta e))) as [n|] eqn:Hn; [|by apply encode_decode_content].
    apply (encode_decode _ _ n); [done| |done]. by eapply eo_check.
  - intros Hnum. destruct (eo_numeric _ _ He Hnum) as (n & Hn & Hbool). by apply (decode_number _ n).
Qed.

Lemma canonical_length dt data : (∀ n, DataType.size dt = Some n → len data = n) → len (canonical dt data) = len data.
Proof. intros H. unfold canonical. case_bool_decide as Hd; [|done]. subst dt. by rewrite (H 1 eq_refl). Qed.

(** ** Reachable dictionaries *)

Section reachable.
Context {Expr : Type} (g : Generated Expr).

(** Every way the node has of changing a dictionary. *)
Inductive reachable : Dict → Prop :=
| reach_new : reachable (g_new g)
| reach_write d i s data d' r :
    reachable d → bytes data → gen_write g d i s data = Ret (d', r) → reachable d'
| reach_servers d node_id d' : reachable d → gen_store_servers g d node_id = Ret d' → reachable d'
| reach_error_register d v : reachable d → is_u8 v → reachable (gen_store_error_register g d v).

Lemma store_servers_ok d0 i servers node_id d d' :
  dict_ok d0 d → store_servers_loop i servers node_id d = Ret d' → dict_ok d0 d'.
Proof using Type.
  revert i d. induction servers as [|s l IH]; intros i d Hd; simpl; [by intros [= <-]|]. intros H.
  apply bind_Ret_inv in H as (rx & _ & H). apply bind_Ret_inv in H as (tx & _ & H). apply (IH _ _) in H; [done|].
  destruct Hd as [H1 H2 H3 H4 H5 H6]. split; simpl; rewrite ?upd_length; done.
Qed.

Lemma store_error_register_ok d0 d v : dict_ok d0 d → dict_ok d0 (gen_store_error_register g d v).
Proof using Type.
  intros Hd. unfold gen_store_error_register. destruct (g_error_register g) as [name|]; [|done].
  by apply (set_loc_ok d0 d (LField name) (VNum v)).
Qed.
End reachable.

(** The mappings of a direction, as [generate] resolves them. *)
Definition resolved_mappings {Expr} (dir : PdoDirection) (od : OdDefinition Expr) : list (list ResolvedMapping) :=
  map (λ p, match resolve_pdo_mappings p (flatten (od_entries od)) with Ret r => r | Panic => [] end) (pdo_defs dir od).

(** The row of the table at an address. *)
Definition row_at {Expr} (eds : list Z) (od : OdDefinition Expr) (g : Generated Expr) (i s : Z) : option Entry :=
  entry_at eds od g (resolved_mappings DirTpdo od) (resolved_mappings DirRpdo od) i s.

Section generated_facts.
Context {Expr : Type} (eval : list Z → Expr → Value) (eval_string : Expr → list Z) (eds : list Z).
Context (od : OdDefinition Expr) (g : Generated Expr).
Context (Htyped : od_typed od) (Hvalid : validate od = Ok tt) (Hret : generate eval eval_string eds od = Ret g).

Lemma resolved_unique (l : list PdoDef) k :
  Forall2 (λ p r, resolve_pdo_mappings p (flatten (od_entries od)) = Ret r) l k →
  k = map (λ p, match resolve_pdo_mappings p (flatten (od_entries od)) with Ret r => r | Panic => [] end) l.
Proof using Type. intros H. induction H as [|p r l k Hp _ IH]; [done|]. simpl. by rewrite Hp, IH. Qed.

Lemma generated : generated_from eval eval_string eds od g (resolved_mappings DirTpdo od) (resolved_mappings DirRpdo od).
Proof using Hret.
  destruct (generate_from _ _ _ _ _ Hret) as (tr & rr & H). pose proof H as H'.
  by rewrite (resolved_unique _ _ (gf_tres _ _ _ _ _ _ _ H)), (resolved_unique _ _ (gf_rres _ _ _ _ _ _ _ H)) in H'.
Qed.

Abbreviation at_addr := (row_at eds od g).

Lemma row_at_ok i s e : at_addr i s = Some e → entry_ok (g_new g) e ∧ In e (gen_entries eds od g (resolved_mappings DirTpdo od) (resolved_mappings DirRpdo od)) ∧ e_addr e = (i, s).
Proof using Htyped Hvalid Hret.
  intros He. apply (entry_at_in _ _ _ _ _ _ _ Htyped Hvalid generated) in He as [He Ha]. split; [|done].
  by apply (proj1 (List.Forall_forall _ _) (gen_entries_ok _ _ _ _ _ _ _ Htyped generated)).
Qed.

Lemma lookup_row i s : gen_lookup g i s = e_meta <$> at_addr i s.
Proof using Htyped Hret. exact (gen_lookup_entry _ _ _ _ _ _ _ Htyped generated i s). Qed.

Lemma read_row d i s buf :
  dict_ok (g_new g) d →
  gen_read g d i s buf = Ret (match at_addr i s with Some e => ref_read d e buf | None => (buf, Err NotFound) end).
Proof using Htyped Hvalid Hret. exact (gen_read_entry _ _ _ _ _ _ _ Htyped Hvalid generated d i s buf). Qed.

Lemma write_row d i s data :
  dict_ok (g_new g) d → bytes data →
  gen_write g d i s data = Ret (match at_addr i s with Some e => ref_write d e data | None => (d, Err NotFound) end).
Proof using Htyped Hvalid Hret. exact (gen_write_entry _ _ _ _ _ _ _ Htyped Hvalid generated d i s data). Qed.

Lemma write_dict_ok d i s data d' r :
  dict_ok (g_new g) d → bytes data → gen_write g d i s data = Ret (d', r) → dict_ok (g_new g) d'.
Proof using Htyped Hvalid Hret.
  intros Hd Hb. rewrite write_row by done. destruct (at_addr i s) as [e|] eqn:He; [|by intros [= <- _]].
  intros [= H]. apply row_at_ok in He as [He _]. pose proof (ref_write_dict_ok _ _ _ _ He Hd Hb) as Ho. by rewrite H in Ho.
Qed.

(** What an address holds. *)
Definition stored (d : Dict) (i s : Z) : option (list Z) :=
  (λ e, encode (data_type (e_meta e)) (get_loc d (e_loc e))) <$> at_addr i s.

Lemma stored_other d l v e i s i' s' :
  at_addr i s = Some e → e_loc e = l → (∀ c, l ≠ LConst c) → (i', s') ≠ (i, s) →
  stored (set_loc l v d) i' s' = stored d i' s'.
Proof using Htyped Hvalid Hret.
  intros He <- Hc Hne. unfold stored. destruct (at_addr i' s') as [e'|] eqn:He'; [|done]. simpl. do 2 f_equal.
  apply get_set_other. apply row_at_ok in He as (_ & Hin & Ha), He' as (_ & Hin' & Ha').
  apply (locations_distinct _ _ _ _ _ Htyped _ _ Hin Hin'); [congruence|done].
Qed.

(** A write: its row's checks, and what the addresses hold afterwards. *)
Lemma write_stored d i s data d' r :
  dict_ok (g_new g) d → bytes data → gen_write g d i s data = Ret (d', r) →
  match r with
  | Err _ => d' = d
  | Ok _ => ∃ e, at_addr i s = Some e ∧ e_check e d data = Ok tt ∧
      read_only_access (access (e_meta e)) = false ∧
      (∀ n, DataType.size (data_type (e_meta e)) = Some n → len data = n) ∧
      stored d' i s = Some (canonical (data_type (e_meta e)) data) ∧
      (∀ i' s', (i', s') ≠ (i, s) → stored d' i' s' = stored d i' s')
  end.
Proof using Htyped Hvalid Hret.
  intros Hd Hb. rewrite write_row by done. destruct (at_addr i s) as [e|] eqn:He; [|by intros [= <- <-]].
  pose proof (row_at_ok _ _ _ He) as (Hok & _). pose proof (ref_write_success _ _ _ _ Hok Hd Hb) as Hval.
  intros [= Hw]. unfold ref_write in *. destruct (read_only_access _) eqn:Hro; [by injection Hw as <- <-|].
  destruct (e_check e d data) as [[]|x] eqn:Hc; injection Hw as <- <-; [|done].
  destruct (Hval eq_refl) as (Hconst & _ & Henc). exists e. split; [done|]. split; [done|]. split; [done|]. split; [|split].
  - intros n. by apply (eo_check _ _ Hok d).
  - unfold stored. rewrite He. cbn [fmap option_fmap option_map]. f_equal. exact Henc.
  - intros i' s' Hne. by eapply stored_other.
Qed.

Lemma read_stored d i s buf :
  dict_ok (g_new g) d →
  gen_read g d i s buf =
  Ret (match at_addr i s with
       | Some e =>
           let v := default [] (stored d i s) in
           if bool_decide (access (e_meta e) = Wo) then (buf, Err WriteOnly)
           else if len buf <? len v then (buf, Err ValueTooLong) else (overwrite buf v, Ok (len v))
       | None => (buf, Err NotFound)
       end).
Proof using Htyped Hvalid Hret.
  intros Hd. rewrite read_row by done. unfold stored, ref_read. by destruct (at_addr i s).
Qed.

Lemma reachable_ok d : reachable g d → dict_ok (g_new g) d.
Proof using Htyped Hvalid Hret.
  induction 1 as [|d i s data d' r _ IH Hb Hw|d id d' _ IH Hs|d v _ IH _].
  - exact (new_dict_ok _ _ _ _ _ _ _ Htyped generated).
  - by eapply write_dict_ok.
  - by eapply store_servers_ok.
  - by apply store_error_register_ok.
Qed.
End generated_facts.

(** ** Properties *)

(** C12. A dictionary generated from a valid definition is the table of its rows:
    in every reachable state, whatever the address, the caller's buffer and the
    bytes written, lookups, reads and writes are those of the row with that
    address, and none of them panics. *)
Theorem generated_is_table {Expr : Type} (eval : list Z → Expr → Value) (eval_string : Expr → list Z) (eds : list Z)
    (od : OdDefinition Expr) (g : Generated Expr) (d : Dict) :
  od_typed od → validate od = Ok tt → generate eval eval_string eds od = Ret g → reachable g d →
  ∀ i s,
    gen_lookup g i s = e_meta <$> row_at eds od g i s ∧
    (∀ buf, gen_read g d i s buf =
       Ret (match row_at eds od g i s with Some e => ref_read d e buf | None => (buf, Err NotFound) end)) ∧
    (∀ data, bytes data → gen_write g d i s data =
       Ret (match row_at eds od g i s with Some e => ref_write d e data | None => (d, Err NotFound) end)).
Proof.
  intros Ht Hv Hg Hr i s. pose proof (reachable_ok _ _ _ _ _ Ht Hv Hg d Hr) as Hd. split; [|split].
  - by eapply lookup_row.
  - intros buf. by apply (read_row _ _ _ _ _ Ht Hv Hg).
  - intros data Hb. by apply (write_row _ _ _ _ _ Ht Hv Hg).
Qed.

(** C13. Reading what was written: after a successful write to a generated
    dictionary, every readable address holds what it held before, except the
    written one, which holds the data ([canonical]: a [bool] holds one bit); a
    write that fails changes nothing. *)
Theorem generated_roundtrip {Expr : Type} (eval : list Z → Expr → Value) (eval_string : Expr → list Z) (eds : list Z)
    (od : OdDefinition Expr) (g : Generated Expr) (d : Dict) i s data :
  od_typed od → validate od = Ok tt → generate eval eval_string eds od = Ret g → reachable g d → bytes data →
  ∃ d' r, gen_write g d i s data = Ret (d', r) ∧
    match r with
    | Err _ => d' = d
    | Ok _ =>
        ∃ m, gen_lookup g i s = Some m ∧
          (∀ buf, access m ≠ Wo → len data ≤ len buf →
             gen_read g d' i s buf = Ret (overwrite buf (canonical (data_type m) data), Ok (len data))) ∧
          (∀ i' s' buf, (i', s') ≠ (i, s) → gen_read g d' i' s' buf = gen_read g d i' s' buf)
    end.
Proof.
  intros Ht Hv Hg Hr Hb. pose proof (reachable_ok _ _ _ _ _ Ht Hv Hg d Hr) as Hd.
  pose proof (write_row _ _ _ _ _ Ht Hv Hg d i s data Hd Hb) as Hw. destruct (gen_write g d i s data) as [[d' r]|] eqn:Hgw; [|done].
  exists d', r. split; [done|]. pose proof (write_dict_ok _ _ _ _ _ Ht Hv Hg _ _ _ _ _ _ Hd Hb Hgw) as Hd'.
  pose proof (write_stored _ _ _ _ _ Ht Hv Hg _ _ _ _ _ _ Hd Hb Hgw) as Hs. destruct r as [u|x]; [|done].
  destruct Hs as (e & He & _ & _ & Hsize & Hval & Hother). exists (e_meta e). split; [|split].
  - by rewrite (lookup_row _ _ _ _ _ Ht Hg), He.
  - intros buf Hwo Hl. rewrite (read_stored _ _ _ _ _ Ht Hv Hg) by done. rewrite He, Hval. simpl.
    rewrite bool_decide_eq_false_2, canonical_length by done. by rewrite (proj2 (Z.ltb_ge _ _)).
  - intros i' s' buf Hne. rewrite !(read_stored _ _ _ _ _ Ht Hv Hg) by done. by rewrite Hother.
Qed.

(** ** The concrete definition *)

(** Closed lists of bounds. *)
Ltac by_rows :=
  repeat first [apply List.Forall_nil | apply List.Forall_cons; [vm_compute; repeat split; (done || congruence)|]].

Lemma demo_typed : od_typed demo_od.
Proof.
  split; [by_rows| |by_rows|by_decision|by_rows| |by_rows]; cycle 1.
  { repeat first [apply List.Forall_nil | apply List.Forall_cons]; vm_compute; done. }
  repeat first [apply List.Forall_nil | apply List.Forall_cons]; simpl; intros subs [= <-]; by_rows.
Qed.

(** What holds of the generated demonstration dictionary. *)
Definition demo_holds (P : Generated Z → Prop) : Prop := match demo_generate with Ret g => P g | Panic => False end.

Lemma demo_intro (P : Generated Z → Prop) : (∀ g, demo_generate = Ret g → P g) → demo_holds P.
Proof.
  unfold demo_holds. intros H. destruct demo_generate as [g|] eqn:Hg; [by apply H|].
  assert (match demo_generate with Ret _ => true | Panic => false end = true) as Ht by (vm_compute; reflexivity).
  by rewrite Hg in Ht.
Qed.

Lemma generated_is_table_witness :
  demo_holds (λ g, gen_read g (g_new g) 0x2000 0 (zeros 2) =
    Ret (match row_at demo_eds demo_od g 0x2000 0 with
         | Some e => ref_read (g_new g) e (zeros 2)
         | None => (zeros 2, Err NotFound)
         end)).
Proof.
  apply demo_intro. intros g Hg.
  apply (generated_is_table demo_eval demo_string demo_eds demo_od g (g_new g) demo_typed eq_refl Hg (reach_new g)).
Defined.

Lemma generated_roundtrip_witness :
  demo_holds (λ g, ∃ d r, gen_write g (g_new g) 0x2001 1 [1; 2; 0x80] = Ret (d, r) ∧
    match r with
    | Err _ => d = g_new g
    | Ok _ => ∃ m, gen_lookup g 0x2001 1 = Some m ∧
        (∀ buf, access m ≠ Wo → 3 ≤ len buf →
           gen_read g d 0x2001 1 buf = Ret (overwrite buf (canonical (data_type m) [1; 2; 0x80]), Ok 3)) ∧
        (∀ i' s' buf, (i', s') ≠ (0x2001, 1) → gen_read g d i' s' buf = gen_read g (g_new g) i' s' buf)
    end).
Proof.
  apply demo_intro. intros g Hg.
  apply (generated_roundtrip demo_eval demo_string demo_eds demo_od g (g_new g) 0x2001 1 [1; 2; 0x80]
           demo_typed eq_refl Hg (reach_new g)). by_rows.
Defined.

(** The values: initial, after a write, and of a mapping. *)
Example demo_values :
  match demo_generate with
  | Ret g =>
      gen_read g (g_new g) 0x2000 0 (zeros 2) = Ret ([0xFE; 0xFF], Ok 2) ∧
      gen_read g (g_new g) 0x1A00 1 (zeros 4) = Ret ([0x10; 0; 0; 0x20], Ok 4) ∧
      gen_read g (g_new g) 0x1A00 2 (zeros 4) = Ret ([1; 3; 1; 0x20], Ok 4)
  | Panic => False
  end.
Proof. vm_compute. done. Qed.

(** Two things the generator accepts: an array of more than 255 elements, of
    which the table shows the count modulo 256, and a node-relative COB-ID that
    overflows when it is resolved. *)
Example array_count_truncated :
  match array_pieces (mkArrayEntry 0x2100 (str "table") (mkArrayDef (str "u8") None 300 AccRw false)) with
  | Ret ps => length (flat_map p_metas ps) = 45%nat
  | Panic => False
  end.
Proof. vm_compute. reflexivity. Qed.

Example node_relative_overflow :
  default_cob 0x180 (mkPdoDef DirTpdo 1 (Some (NodeRelative 0xFFF0)) 255 0 0 Immutable []) 127 = Panic.
Proof. reflexivity. Qed.
