(* ===== verification/GenNode.v ===== *)
(** * A node with a generated dictionary

    A generated dictionary is a dictionary the node accepts ([NodeOd]): its
    SYNC entries stay supported and the active mappings of its RPDOs name
    objects that may be mapped.  A node built from the dictionary and its own
    configurations never panics. *)
From S2P Require Import Prelude Text Frame Nmt Od SdoProtocol SdoServer SdoServerSafe PdoBits PdoEngine PdoMapped Sync Heartbeat Emcy Lss Nb Node NodeSafe NodeRun Eds Gen GenSpec GenTable GenFacts.

(** ** The typed interface *)

Lemma typed_error_u32 e c : typed_error e = Abort c → is_u32 c.
Proof. destruct e; simpl; try discriminate. intros [= <-]. apply wrap_range. lia. Qed.

Lemma typed_result_u32 {A} (r : result A OdError) c : typed_result r = Err (Abort c) → is_u32 c.
Proof. destruct r; [done|]. intros [= H]. by eapply typed_error_u32. Qed.

Lemma map_u8_bytes l : bytes (map as_u8 l).
Proof. apply Forall_map, Forall_true. intros. apply as_u8_u8. Qed.

Lemma map_u8_id l : bytes l → map as_u8 l = l.
Proof. intros H. induction H as [|x l Hx _ IH]; [done|]. simpl. by rewrite IH, wrap_id. Qed.

Lemma typed_result_id {A} (r : result A OdError) : (∀ c, r = Err (Abort c) → is_u32 c) → typed_result r = r.
Proof. destruct r as [x|[]]; try done. intros H. simpl. by rewrite wrap_id by (by apply H). Qed.

Lemma typed_read_id buf b r :
  len b = len buf → bytes b → (∀ n, r = Ok n → 0 ≤ n ≤ len buf) → (∀ c, r = Err (Abort c) → is_u32 c) →
  typed_read buf (b, r) = (b, r).
Proof.
  intros Hl Hb Hn Hc. unfold typed_read. rewrite Hl, Z.eqb_refl, map_u8_id, typed_result_id by done.
  destruct r as [n|]; [|done]. unfold in_range. pose proof (Hn n eq_refl).
  by rewrite (proj2 (Z.leb_le _ _)), (proj2 (Z.leb_le _ _)) by lia.
Qed.

Lemma typed_read_bound buf r :
  length (fst (typed_read buf r)) = length buf ∧ (bytes buf → bytes (fst (typed_read buf r))) ∧
  (∀ n, snd (typed_read buf r) = Ok n → 0 ≤ n ≤ len buf) ∧
  (∀ c, snd (typed_read buf r) = Err (Abort c) → is_u32 c).
Proof.
  destruct r as [b r]. unfold typed_read. destruct (Z.eqb_spec (len b) (len buf)) as [Hl|]; [|done].
  cbn [andb]. destruct r as [n|e].
  - unfold in_range. destruct (Z.leb_spec 0 n), (Z.leb_spec n (len buf)); simpl; try done.
    split; [rewrite length_map; lia|]. split; [intros; apply map_u8_bytes|]. split; [by intros ? [= <-]|done].
  - simpl. split; [rewrite length_map; lia|]. split; [intros; apply map_u8_bytes|]. split; [done|].
    intros c [= H]. by eapply typed_error_u32.
Qed.

#[export] Program Instance generated_laws {Expr} (g : Generated Expr)
    (validate_fn : list Z → Dict → Z → Z → list Z → result unit OdError) :
  @OdLaws (DictOf g) (generated_od g validate_fn).
Next Obligation.
  intros. cbn. destruct (gen_read g od i s buf); [apply typed_read_bound|done].
Qed.
Next Obligation.
  intros Expr g v od i s buf Hb. cbn. destruct (gen_read g od i s buf); [by apply typed_read_bound|done].
Qed.
Next Obligation.
  intros Expr g v od i s buf n. cbn. destruct (gen_read g od i s buf); [apply typed_read_bound|done].
Qed.
Next Obligation.
  intros Expr g v od i s d c. cbn. destruct (gen_write g od i s (map as_u8 d)) as [[d' r]|]; [|done].
  apply typed_result_u32.
Qed.
Next Obligation.
  intros Expr g v od i s buf c. cbn. destruct (gen_read g od i s buf); [apply typed_read_bound|done].
Qed.
Next Obligation. intros Expr g v od i s d c. apply typed_result_u32. Qed.

(** ** Rows of the mapping records *)

(** What a definition promises a node, beyond being valid: SYNC entries of
    their CiA types that RPDOs cannot change and whose initial values are
    supported; raw mappings of RPDOs only to dummies; no mapping record
    declared by hand; SDO server identifiers that fit in 16 bits. *)
Definition mapped_value (i s : Z) (dt : DataType) (ok : list Z → bool) (m : option OdEntryMeta) (v : option (list Z)) : Prop :=
  ∀ meta, m = Some meta → data_type meta = dt ∧ Od.pdo_mappable meta = false ∧ ∀ b, v = Some b → ok b = true.

Record node_ready {Expr} (eds : list Z) (od : OdDefinition Expr) (g : Generated Expr) : Prop := {
  nr_1005 : mapped_value 0x1005 0 U32 (λ b, is_supported_sync_cob_id (from_le_bytes b)) (gen_lookup g 0x1005 0)
              (stored eds od g (g_new g) 0x1005 0);
  nr_1019 : mapped_value 0x1019 0 U8 (λ b, is_valid_sync_counter_overflow (at_ b 0)) (gen_lookup g 0x1019 0)
              (stored eds od g (g_new g) 0x1019 0);
  nr_user : Forall (λ e, ¬ 0x1600 ≤ oe_index e < 0x1800) (od_entries od);
  nr_raw : Forall (λ p, Forall (λ m, ∀ r, raw_mapping m = Some r → is_dummy_mapping_index (as_u16 (Z.shiftr r 16)) = true)
                     (pd_mappings p)) (pdo_defs DirRpdo od);
  nr_servers : Forall (λ s, ∀ b, sd_cob_rx s = NodeRelative b ∨ sd_cob_tx s = NodeRelative b → 0 ≤ b ≤ 0xFFFF - 127)
                 (od_sdo_servers od);
}.

Section node.
Context {Expr : Type} (eval : list Z → Expr → Value) (eval_string : Expr → list Z) (eds : list Z).
Context (od : OdDefinition Expr) (g : Generated Expr).
Context (Htyped : od_typed od) (Hvalid : validate od = Ok tt) (Hret : generate eval eval_string eds od = Ret g).
Context (Hready : node_ready eds od g).

Abbreviation at_addr := (row_at eds od g).
Abbreviation holds := (stored eds od g).
Abbreviation E := (gen_entries eds od g (resolved_mappings DirTpdo od) (resolved_mappings DirRpdo od)).

Definition mapping_row (e : Entry) : Prop :=
  0x1600 ≤ meta_index (e_meta e) < 0x1800 → ∃ k pdo,
    pdo_defs DirRpdo od !! k = Some pdo ∧ meta_index (e_meta e) = map_index pdo ∧
    ((meta_subindex (e_meta e) = 0 ∧ data_type (e_meta e) = U8 ∧ e_loc e = LCount DirRpdo k ∧
      e_check e = count_check (gen_lookup g) DirRpdo k) ∨
     (1 ≤ meta_subindex (e_meta e) ≤ 64 ∧ data_type (e_meta e) = U32 ∧
      e_loc e = LMap DirRpdo k (Z.to_nat (meta_subindex (e_meta e) - 1)) ∧ e_check e = mapping_check DirRpdo k)).

Lemma entry_index_In x : In x (flatten (od_entries od)) → ∃ e, In e (od_entries od) ∧ oe_index e = fl_index x.
Proof using Type.
  intros (e & He & Hx)%List.in_flat_map. exists e. split; [done|]. unfold flatten_entry in Hx.
  destruct (oe_kind e); [by destruct Hx as [<-|[]]|apply List.in_map_iff in Hx as (s & <- & _); done|done].
Qed.

Lemma array_index_In a : In a (collect_arrays (od_entries od)) → ∃ e, In e (od_entries od) ∧ oe_index e = ae_index a.
Proof using Type.
  unfold collect_arrays. intros (e & He & Hx)%list_elem_of_In%list_elem_of_omap. exists e. split; [by apply list_elem_of_In|].
  by destruct (oe_kind e); simplify_eq/=.
Qed.

Lemma user_not_mapping e : In e (od_entries od) → ¬ 0x1600 ≤ oe_index e < 0x1800.
Proof using Hready. apply (proj1 (List.Forall_forall _ _) (nr_user _ _ _ Hready)). Qed.

Lemma comm_range p : In p (od_pdos od) →
  match pd_direction p with
  | DirTpdo => 0x1800 ≤ comm_index p < 0x1A00 ∧ 0x1A00 ≤ map_index p
  | DirRpdo => 0x1400 ≤ comm_index p < 0x1600 ∧ 0x1600 ≤ map_index p < 0x1800
  end.
Proof using Htyped.
  intros Hp. pose proof (proj1 (List.Forall_forall _ _) (ot_pdos _ Htyped) _ Hp) as [Hn _]. simpl in Hn.
  unfold comm_index, map_index. destruct (pd_direction p); simpl; lia.
Qed.

Lemma def_In dir k pdo : pdo_defs dir od !! k = Some pdo → In pdo (od_pdos od) ∧ pd_direction pdo = dir.
Proof using Type.
  intros Hk. split; [|by eapply defs_direction]. apply list_elem_of_lookup_2, list_elem_of_In, List.filter_In in Hk. tauto.
Qed.

(** No more than 64 mappings are resolved. *)
Lemma resolved_length dir k res : resolved_mappings dir od !! k = Some res → len res ≤ 64.
Proof using Htyped Hret.
  intros Hk. pose proof (generated _ _ _ _ _ Hret) as Hgen.
  pose proof (new_pdo _ _ _ _ _ _ _ Hgen dir) as Hp. unfold pdo_defaults in Hp.
  apply bind_Ret_inv in Hp as (rows & Hr%for_each_Ret & _).
  replace (resolved_of (resolved_mappings DirTpdo od) (resolved_mappings DirRpdo od) dir)
    with (resolved_mappings dir od) in Hr by (by destruct dir).
  destruct (Forall2_lookup_l _ _ _ _ _ Hr Hk) as (row & _ & Hrow). unfold map_row in Hrow.
  apply bind_Ret_inv in Hrow as (u & Hu%assert_Ret & _). unfold PDO_MAX_MAPPINGS in Hu. lia.
Qed.

Lemma max_map_sub_bound dir k pdo res :
  pdo_defs dir od !! k = Some pdo → resolved_mappings dir od !! k = Some res → max_map_sub pdo res ≤ 64.
Proof using Htyped Hret.
  intros _ Hk. apply resolved_length in Hk. unfold max_map_sub, PDO_MAX_MAPPINGS. destruct (is_mutable pdo); [lia|].
  rewrite wrap_id; [lia|]. unfold is_uint. lia.
Qed.

Lemma mapping_rows : Forall mapping_row E.
Proof using Htyped Hret Hready.
  apply gen_entries_forall.
  - intros x (e & He & Hi)%entry_index_In Hr. apply user_not_mapping in He. rewrite Hi in He. by simpl in Hr.
  - intros dir k pdo res Hk Hres. pose proof (def_In _ _ _ Hk) as [Hin Hdir]. pose proof (comm_range _ Hin) as Hc.
    assert (resolved_mappings dir od !! k = Some res) as Hres' by (by destruct dir).
    pose proof (max_map_sub_bound _ _ _ _ Hk Hres') as Hmax. apply List.Forall_forall. intros e He Hr.
    assert (meta_index (e_meta e) = comm_index pdo ∨ In e (mkEnt (pdo_meta (map_index pdo) 0 U8 (map_access pdo)) (LCount dir k) (count_check (gen_lookup g) dir k)
      :: map (λ sub, mkEnt (pdo_meta (map_index pdo) sub U32 (map_access pdo)) (LMap dir k (Z.to_nat (sub - 1)))
                   (mapping_check dir k)) (seqZ 1 (max_map_sub pdo res)))) as Hcase.
    { unfold pdo_ents in He. rewrite Hdir in He. destruct dir; simpl in He; repeat destruct He as [<-|He]; try (by left);
        right; simpl; tauto. }
    destruct dir; rewrite Hdir in Hc.
    { exfalso. destruct Hcase as [Hi|[<-|(s & <- & _)%List.in_map_iff]]; simpl in Hr; lia. }
    destruct Hcase as [Hi|[<-|(s & <- & Hs)%List.in_map_iff]]; simpl in Hr; [lia|..]; exists k, pdo; (split; [done|]); simpl.
    + split; [done|]. by left.
    + split; [done|]. right. apply list_elem_of_In, elem_of_seqZ in Hs. split; [lia|done].
  - intros i s Hs. apply list_elem_of_lookup_2, list_elem_of_In in Hs.
    pose proof (proj1 (List.Forall_forall _ _) (ot_servers _ Htyped) _ Hs) as Hn. simpl in Hn.
    apply List.Forall_forall. intros e [<-|[<-|[<-|[]]]] Hr; simpl in Hr; unfold server_index in Hr; lia.
  - intros e He. unfold record_ents. destruct (oe_kind e); [apply List.Forall_nil| |apply List.Forall_nil].
    apply List.Forall_cons; [|apply List.Forall_nil]. intros Hr. by apply user_not_mapping in He.
  - intros a (e & He & Hi)%array_index_In. apply user_not_mapping in He. rewrite Hi in He.
    apply List.Forall_forall. intros x [<-|(s & <- & _)%List.in_map_iff] Hr; by simpl in Hr.
  - apply List.Forall_forall. intros x [<-|[<-|[]]] Hr; simpl in Hr; lia.
Qed.

(** ** The invariant *)

(** An object RPDOs may be mapped to. *)
Definition mappable_object (i s : Z) : Prop := ∃ m, gen_lookup g i s = Some m ∧ Od.pdo_mappable m = true.

Definition target_ok (value : Z) : Prop :=
  let m := PdoMapping.from_mapping_value value in
  is_dummy_mapping_index (pm_index m) = false → mappable_object (pm_index m) (pm_subindex m).

Record gen_ok (d : Dict) : Prop := {
  go_dict : dict_ok (g_new g) d;
  go_1005 : ∀ b, holds d 0x1005 0 = Some b → is_supported_sync_cob_id (from_le_bytes b) = true;
  go_1019 : ∀ b, holds d 0x1019 0 = Some b → is_valid_sync_counter_overflow (at_ b 0) = true;
  go_map : ∀ i s c b, 0x1600 ≤ i < 0x1800 → holds d i 0 = Some c → 1 ≤ s ≤ at_ c 0 → holds d i s = Some b →
    target_ok (from_le_bytes b);
}.

Lemma div_mod_mul x a b : 0 < a → 0 < b → (x mod (a * b)) / a = (x / a) mod b.
Proof using Type.
  intros Ha Hb. rewrite Z.rem_mul_r by lia. rewrite Z.add_comm, Z.mul_comm, Z.div_add_l by lia.
  rewrite (Z.div_small (x mod a)) by (by apply Z.mod_pos_bound). lia.
Qed.

Lemma from_mapping_value_mod x : PdoMapping.from_mapping_value (x mod 256 ^ Z.of_nat 4) = PdoMapping.from_mapping_value x.
Proof using Type.
  unfold PdoMapping.from_mapping_value, wrap. rewrite !Z.shiftr_div_pow2 by lia.
  change (256 ^ Z.of_nat 4) with 4294967296. change (2 ^ 16) with 65536. change (2 ^ 8) with 256.
  pose proof (div_mod_mul x 65536 65536 eq_refl eq_refl) as H1. pose proof (div_mod_mul x 256 16777216 eq_refl eq_refl) as H2.
  change (65536 * 65536) with 4294967296 in H1. change (256 * 16777216) with 4294967296 in H2. rewrite H1, H2.
  f_equal; [by apply Z.mod_mod|apply Z.mod_mod_divide; by exists 65536|].
  apply Z.mod_mod_divide. by exists 16777216.
Qed.

Lemma target_ok_le x : target_ok (from_le_bytes (to_le_bytes 4 x)) ↔ target_ok x.
Proof using Type. unfold target_ok. by rewrite from_to_le, from_mapping_value_mod. Qed.

Lemma validated_target x : validate_target (gen_lookup g) x true = Ok tt → target_ok x.
Proof using Type.
  unfold validate_target, target_ok, mappable_object. cbn zeta. simpl pm_index. simpl pm_subindex.
  destruct (is_dummy_mapping_index _); [done|]. destruct (gen_lookup g _ _) as [m|]; [|done].
  destruct (Od.pdo_mappable m) eqn:Hm; [|done]. intros _ _. by exists m.
Qed.

Lemma sum_lengths_ok lookup rx l total n :
  sum_lengths lookup rx l total = Ok n → Forall (λ m, validate_target lookup m rx = Ok tt) l.
Proof using Type.
  revert total. induction l as [|m l IH]; intros total; cbn [sum_lengths]; [intros _; apply List.Forall_nil|].
  destruct (validate_target lookup m rx) as [[]|] eqn:Hv; [|done]. intros H. apply List.Forall_cons; [done|by eapply IH].
Qed.

Lemma count_checked d k data :
  count_check (gen_lookup g) DirRpdo k d data = Ok tt → bytes data →
  len data = 1 ∧ ∀ j, 0 ≤ j < at_ data 0 → (Z.to_nat j < length (row d DirRpdo k))%nat →
    target_ok (at_ (row d DirRpdo k) (Z.to_nat j)).
Proof using Type.
  unfold count_check. destruct (Z.eqb_spec (len data) 1); [|done]. cbn [negb]. destruct (_ <? _); [done|].
  destruct (sum_lengths _ _ _ 0) as [n|] eqn:Hs; [|done]. intros _ Hb. split; [done|]. intros j Hj Hl.
  apply sum_lengths_ok in Hs. apply validated_target.
  apply (proj1 (List.Forall_forall _ _) Hs). rewrite <- (nth_lookup_Some (take (Z.to_nat (at_ data 0)) (row d DirRpdo k)) (Z.to_nat j) 0 (at_ (row d DirRpdo k) (Z.to_nat j))).
  - apply nth_In. rewrite length_take. lia.
  - rewrite lookup_take_lt by lia. destruct (lookup_lt_is_Some_2 _ _ Hl) as [x Hx]. unfold at_.
    by rewrite (nth_lookup_Some _ _ _ _ Hx).
Qed.

Lemma rpdo_slot_unique k k' pdo pdo' :
  pdo_defs DirRpdo od !! k = Some pdo → pdo_defs DirRpdo od !! k' = Some pdo' → map_index pdo = map_index pdo' → k = k'.
Proof using Hret.
  intros Hk Hk' Hi. pose proof (defs_direction _ _ _ _ Hk) as Hd. pose proof (defs_direction _ _ _ _ Hk') as Hd'.
  assert (pd_number pdo = pd_number pdo') as Hn by (unfold map_index in Hi; rewrite Hd, Hd' in Hi; simpl in Hi; lia).
  pose proof (gf_rnum _ _ _ _ _ _ _ (generated _ _ _ _ _ Hret)) as Hnd.
  apply (NoDup_lookup _ k k' (pd_number pdo) Hnd); rewrite list_lookup_fmap; [by rewrite Hk|by rewrite Hk', Hn].
Qed.

Lemma row_mapping i s e : at_addr i s = Some e → 0x1600 ≤ i < 0x1800 → ∃ k pdo,
  pdo_defs DirRpdo od !! k = Some pdo ∧ i = map_index pdo ∧
  ((s = 0 ∧ data_type (e_meta e) = U8 ∧ e_loc e = LCount DirRpdo k ∧ e_check e = count_check (gen_lookup g) DirRpdo k) ∨
   (1 ≤ s ≤ 64 ∧ data_type (e_meta e) = U32 ∧ e_loc e = LMap DirRpdo k (Z.to_nat (s - 1)) ∧
    e_check e = mapping_check DirRpdo k)).
Proof using Htyped Hvalid Hret Hready.
  intros He Hi. apply (row_at_ok _ _ _ _ _ Htyped Hvalid Hret) in He as (_ & Hin & Ha).
  pose proof (proj1 (List.Forall_forall _ _) mapping_rows _ Hin) as Hm. injection Ha as Hai Has. unfold mapping_row in Hm.
  rewrite Hai, Has in Hm. by apply Hm.
Qed.

Lemma stored_row d i s b : holds d i s = Some b →
  ∃ e, at_addr i s = Some e ∧ b = encode (data_type (e_meta e)) (get_loc d (e_loc e)).
Proof using Type. unfold stored. destruct (at_addr i s) as [e|]; [|done]. intros [= <-]. by exists e. Qed.

(** The active mappings after a write to a mapping record. *)
Lemma mapping_write d i s data d' s' c b :
  gen_ok d → bytes data → gen_write g d i s data = Ret (d', Ok tt) → 0x1600 ≤ i < 0x1800 →
  holds d' i 0 = Some c → 1 ≤ s' ≤ at_ c 0 → holds d' i s' = Some b → target_ok (from_le_bytes b).
Proof using Htyped Hvalid Hret Hready.
  intros [Hd _ _ Hmap] Hb Hw Hi Hc Hs' Hb'. pose proof (write_stored _ _ _ _ _ Htyped Hvalid Hret _ _ _ _ _ _ Hd Hb Hw) as Hst.
  cbn beta iota in Hst. destruct Hst as (e & He & Hck & _ & _ & Hval & Hother).
  pose proof (row_mapping _ _ _ He Hi) as (k & pdo & Hk & Hik & [(-> & Hty & _ & Hcheck)|(Hs & Hty & _ & Hcheck)]);
    rewrite Hcheck in Hck.
  - rewrite Hval in Hc. injection Hc as <-. rewrite Hother in Hb' by (intros [= ->]; lia).
    apply stored_row in Hb' as (e' & He' & ->). apply count_checked in Hck as [Hl Hck]; [|done].
    pose proof (row_mapping _ _ _ He' Hi) as (k' & pdo' & Hk' & Hik' & [(-> & _)|(Hr & Hty' & Hloc & _)]); [lia|].
    assert (k' = k) as -> by (eapply rpdo_slot_unique; eauto; congruence). rewrite Hty', Hloc. simpl get_loc.
    change (encode U32 (VNum ?x)) with (to_le_bytes 4 x). apply target_ok_le. apply Hck; [rewrite Hty in Hs'; change (canonical U8 data) with data in Hs'; lia|].
    rewrite (row_length _ _ _ _ Hd), (new_row _ _ _ _ _ _ _ Htyped (generated _ _ _ _ _ Hret)) by (by eapply lookup_lt_Some). lia.
  - exfalso. unfold mapping_check in Hck. rewrite Hother in Hc by (intros [= <-]; lia).
    apply stored_row in Hc as (e' & He' & ->).
    pose proof (row_mapping _ _ _ He' Hi) as (k' & pdo' & Hk' & Hik' & [(_ & Hty' & Hloc & _)|(Hr & _)]); [|lia].
    assert (k' = k) as -> by (eapply rpdo_slot_unique; eauto; congruence). rewrite Hty', Hloc in Hs'. cbn [get_loc] in Hs'.
    destruct (Z.eqb_spec (at_ (f_mapping_count (pdo_fields DirRpdo d)) k) 0) as [H0|]; [|done].
    rewrite H0 in Hs'. change (at_ (encode U8 (VNum 0)) 0) with 0 in Hs'. lia.
Qed.

Lemma gen_ok_write d i s data d' r :
  gen_ok d → bytes data → sync_entries_supported i s data → gen_write g d i s data = Ret (d', r) → gen_ok d'.
Proof using Htyped Hvalid Hret Hready.
  intros Hok Hb [H5 H9] Hw. pose proof (go_dict _ Hok) as Hd.
  pose proof (write_dict_ok _ _ _ _ _ Htyped Hvalid Hret _ _ _ _ _ _ Hd Hb Hw) as Hd'.
  pose proof (write_stored _ _ _ _ _ Htyped Hvalid Hret _ _ _ _ _ _ Hd Hb Hw) as Hst.
  destruct r as [[]|x]; [|by subst d']. destruct Hst as (e & He & _ & _ & Hsize & Hval & Hother).
  assert (gen_lookup g i s = Some (e_meta e)) as Hlk by (by rewrite (lookup_row _ _ _ _ _ Htyped Hret), He).
  split; [done|..].
  - intros b Hs. destruct (decide ((i, s) = (0x1005, 0))) as [[= -> ->]|Hne].
    + destruct (nr_1005 _ _ _ Hready _ Hlk) as (Hty & _ & _). rewrite Hty in Hval, Hsize. rewrite Hval in Hs.
      injection Hs as <-. apply H5; [done|done|]. by apply Hsize.
    + rewrite Hother in Hs by congruence. by apply (go_1005 _ Hok).
  - intros b Hs. destruct (decide ((i, s) = (0x1019, 0))) as [[= -> ->]|Hne].
    + destruct (nr_1019 _ _ _ Hready _ Hlk) as (Hty & _ & _). rewrite Hty in Hval, Hsize. rewrite Hval in Hs.
      injection Hs as <-. apply H9; [done|done|]. rewrite (Hsize 1 eq_refl). done.
    + rewrite Hother in Hs by congruence. by apply (go_1019 _ Hok).
  - intros j s' c b Hj Hc Hs' Hb'. destruct (decide (j = i)) as [->|Hne]; [by eapply mapping_write|].
    rewrite Hother in Hc, Hb' by congruence. by eapply (go_map _ Hok).
Qed.

(** ** The initial state *)

Lemma raw_value i s b : is_u16 i → is_u8 s → is_u8 b → raw (mkResolved i s b) = b + 256 * (s + 256 * i).
Proof using Type.
  intros Hi Hs Hb. unfold is_uint in *.
  unfold raw. simpl. change (Z.shiftl i 16) with (Z.shiftl i (8 + 8)). rewrite <- (Z.shiftl_shiftl i 8 8), <- Z.shiftl_lor, (Z.lor_comm _ s), Z.lor_comm by lia.
  rewrite !lor_shift; lia.
Qed.

Lemma from_raw i s b : is_u16 i → is_u8 s → is_u8 b →
  PdoMapping.from_mapping_value (raw (mkResolved i s b)) = mkMapping i s b.
Proof using Type.
  intros Hi Hs Hb. rewrite raw_value by done. unfold is_uint in *.
  unfold PdoMapping.from_mapping_value, wrap. rewrite !Z.shiftr_div_pow2 by lia.
  change (2 ^ 16) with 65536 in *. change (2 ^ 8) with 256 in *.
  f_equal; Z.div_mod_to_equations; lia.
Qed.

Lemma flat_typed x : In x (flatten (od_entries od)) → is_u16 (fl_index x) ∧ is_u8 (fl_subindex x).
Proof using Htyped.
  intros (e & He & Hx)%List.in_flat_map. pose proof (proj1 (List.Forall_forall _ _) (ot_index _ Htyped) _ He) as Hi.
  pose proof (proj1 (List.Forall_forall _ _) (ot_subs _ Htyped) _ He) as Hs. unfold flatten_entry in Hx.
  destruct (oe_kind e) as [v|subs|] eqn:Hk; [destruct Hx as [<-|[]]; by split| |done].
  apply List.in_map_iff in Hx as (y & <- & Hy). split; [done|]. by apply (proj1 (List.Forall_forall _ _) (Hs subs Hk)).
Qed.

Lemma flat_row x : In x (flatten (od_entries od)) →
  at_addr (fl_index x) (fl_subindex x) = Some (flat_ent (use_alloc od) x).
Proof using Htyped Hvalid Hret.
  intros Hx. apply (entry_at_in _ _ _ _ _ _ _ Htyped Hvalid (generated _ _ _ _ _ Hret)). split; [|done].
  unfold gen_entries, entries_of. apply List.in_app_iff. left. by apply List.in_map.
Qed.

Lemma flat_lookup x : In x (flatten (od_entries od)) →
  gen_lookup g (fl_index x) (fl_subindex x) = Some (entry_meta x).
Proof using Htyped Hvalid Hret. intros Hx. by rewrite (lookup_row _ _ _ _ _ Htyped Hret), flat_row. Qed.

(** What a mapping is resolved to. *)
Lemma resolve_named m r :
  raw_mapping m = None → resolve_mapping_def (flatten (od_entries od)) m = Ret r →
  ∃ x, List.find (λ e, bool_decide (fl_name e = field_name m)) (flatten (od_entries od)) = Some x ∧
    Eds.pdo_mappable (fl_var x) = true ∧ rm_index r = fl_index x ∧ rm_subindex r = fl_subindex x.
Proof using Type.
  intros Hraw Hr. unfold resolve_mapping_def in Hr. rewrite Hraw in Hr. apply bind_Ret_inv in Hr as (x & Hx & Hr).
  exists x. destruct (List.find _ _); [|done]. injection Hx as ->.
  apply bind_Ret_inv in Hr as (u & Hmap%assert_Ret & Hr). apply bind_Ret_inv in Hr as (u' & _ & Hr).
  by apply bind_Ret_inv in Hr as (bits & _ & [= <-]).
Qed.

Lemma resolve_wf pdo m r :
  In pdo (od_pdos od) → In m (pd_mappings pdo) → resolve_mapping_def (flatten (od_entries od)) m = Ret r →
  is_u16 (rm_index r) ∧ is_u8 (rm_subindex r) ∧ is_u8 (rm_bit_length r).
Proof using Htyped.
  intros Hp Hm Hr. unfold resolve_mapping_def in Hr.
  destruct (raw_mapping m) as [x|]; [injection Hr as <-; split; [|split]; apply wrap_range; lia|].
  apply bind_Ret_inv in Hr as (e & He & Hr). destruct (List.find _ _) as [e'|] eqn:Hf; [injection He as ->|done].
  apply List.find_some in Hf as [Hin _]. pose proof (flat_typed _ Hin) as [Hi Hs].
  apply bind_Ret_inv in Hr as (u & _ & Hr). apply bind_Ret_inv in Hr as (u' & _ & Hr).
  apply bind_Ret_inv in Hr as (bits & Hbits & [= <-]). split; [done|]. split; [done|]. simpl.
  pose proof (proj1 (List.Forall_forall _ _) (proj1 (List.Forall_forall _ _) (ot_mappings _ Htyped) _ Hp) _ Hm) as Hw.
  simpl in Hw. destruct (map_bit_length m) as [b|]; [by injection Hbits as <-|].
  case_bool_decide; [by injection Hbits as <-|]. apply bind_Ret_inv in Hbits as (size & _ & Hc).
  unfold checked in Hc. destruct (_ && _) eqn:Hu in Hc; [|done]. injection Hc as <-. by apply is_uint_dec_spec.
Qed.

Lemma resolved_target pdo m r :
  In pdo (pdo_defs DirRpdo od) → In m (pd_mappings pdo) → resolve_mapping_def (flatten (od_entries od)) m = Ret r →
  target_ok (raw r).
Proof using Htyped Hvalid Hret Hready.
  intros Hp Hm Hr. pose proof (proj1 (List.filter_In _ _ _) Hp) as [Hpo _]. pose proof (resolve_wf _ _ _ Hpo Hm Hr) as (Hi & Hs & Hb).
  unfold target_ok. destruct r as [i s b]. rewrite from_raw by done. simpl. destruct (raw_mapping m) as [x|] eqn:Hraw.
  - pose proof (proj1 (List.Forall_forall _ _) (proj1 (List.Forall_forall _ _) (nr_raw _ _ _ Hready) _ Hp) _ Hm x Hraw) as Hd.
    unfold resolve_mapping_def in Hr. rewrite Hraw in Hr. injection Hr as <- <- <-. by rewrite Hd.
  - intros _. destruct (resolve_named _ _ Hraw Hr) as (x & Hx & Hmap & Hxi & Hxs). simpl in Hxi, Hxs. subst i s.
    apply List.find_some in Hx as [Hin _]. exists (entry_meta x). split; [by apply flat_lookup|done].
Qed.

Lemma resolve_all_lookup ms rs j r :
  resolve_all (flatten (od_entries od)) ms = Ret rs → rs !! j = Some r →
  ∃ m, In m ms ∧ resolve_mapping_def (flatten (od_entries od)) m = Ret r.
Proof using Type.
  revert rs j. induction ms as [|m ms IH]; intros rs j; simpl; [by intros [= <-]|]. intros H.
  apply bind_Ret_inv in H as (x & Hx & H). apply bind_Ret_inv in H as (xs & Hxs & H). injection H as <-.
  destruct j as [|j]; simpl.
  - intros [= <-]. exists m. tauto.
  - intros Hj. destruct (IH _ _ Hxs Hj) as (m' & Hin & Hm). exists m'. tauto.
Qed.

(** The slot of the [k]-th PDO of a direction: its mappings, as resolved. *)
Lemma new_slot_row dir k pdo :
  pdo_defs dir od !! k = Some pdo → ∃ res,
    resolve_pdo_mappings pdo (flatten (od_entries od)) = Ret res ∧ len res ≤ 64 ∧
    at_ (f_mapping_count (pdo_fields dir (g_new g))) k = len res ∧
    row (g_new g) dir k = map raw res ++ zeros (PDO_MAX_MAPPINGS - len res).
Proof using Htyped Hret.
  intros Hk. pose proof (generated _ _ _ _ _ Hret) as Hgen.
  pose proof (pdo_defaults_spec _ _ _ _ (new_pdo _ _ _ _ _ _ _ Hgen dir) (defs_typed _ Htyped dir)
    (defs_resolved _ _ _ _ _ _ _ Hgen dir)) as (_ & _ & _ & _ & _ & Hrows & Hcount).
  assert (Forall2 (λ p r, resolve_pdo_mappings p (flatten (od_entries od)) = Ret r) (pdo_defs dir od) (resolved_mappings dir od)) as Hres
    by (destruct dir; [exact (gf_tres _ _ _ _ _ _ _ Hgen)|exact (gf_rres _ _ _ _ _ _ _ Hgen)]).
  destruct (Forall2_lookup_l _ _ _ _ _ Hres Hk) as (res & Hr & Hpdo). exists res. split; [done|].
  pose proof (resolved_length _ _ _ Hr) as Hl. split; [done|].
  replace (resolved_of (resolved_mappings DirTpdo od) (resolved_mappings DirRpdo od) dir)
    with (resolved_mappings dir od) in Hrows, Hcount by (by destruct dir). split.
  - unfold at_. rewrite Hcount, (nth_lookup_Some _ k _ (as_u8 (len res))) by (by rewrite list_lookup_fmap, Hr).
    apply wrap_id. unfold is_uint. lia.
  - destruct (Forall2_lookup_l _ _ _ _ _ Hrows Hr) as (x & Hx & Hmap). unfold row. rewrite (nth_lookup_Some _ _ _ _ Hx).
    unfold map_row in Hmap. by apply bind_Ret_inv in Hmap as (u & _ & [= <-]).
Qed.

Lemma resolve_pdo_lookup pdo res j r :
  resolve_pdo_mappings pdo (flatten (od_entries od)) = Ret res → res !! j = Some r →
  ∃ m, In m (pd_mappings pdo) ∧ resolve_mapping_def (flatten (od_entries od)) m = Ret r.
Proof using Type.
  intros H Hj. unfold resolve_pdo_mappings in H. apply bind_Ret_inv in H as (rs & Hrs & H).
  apply bind_Ret_inv in H as (u' & _ & [= ->]). by eapply resolve_all_lookup.
Qed.

(** The active mappings of an RPDO name what they may. *)
Lemma new_mapping k pdo j :
  pdo_defs DirRpdo od !! k = Some pdo → 0 ≤ j < at_ (f_mapping_count (d_rpdo (g_new g))) k →
  target_ok (at_ (row (g_new g) DirRpdo k) (Z.to_nat j)).
Proof using Htyped Hvalid Hret Hready.
  intros Hk Hj. destruct (new_slot_row _ _ _ Hk) as (res & Hres & Hl & Hc & Hrow). cbn [pdo_fields] in Hc.
  rewrite Hc in Hj. rewrite Hrow. destruct (lookup_lt_is_Some_2 res (Z.to_nat j)) as [r Hr]; [lia|].
  assert (at_ (map raw res ++ zeros (PDO_MAX_MAPPINGS - len res)) (Z.to_nat j) = raw r) as ->.
  { unfold at_. apply nth_lookup_Some. rewrite lookup_app_l by (rewrite length_map; lia). by rewrite list_lookup_fmap, Hr. }
  destruct (resolve_pdo_lookup _ _ _ _ Hres Hr) as (m & Hm & Hrm).
  eapply resolved_target; [|exact Hm|exact Hrm]. apply list_elem_of_In. by eapply list_elem_of_lookup_2.
Qed.

Lemma mapped_value_ok i s dt ok b :
  mapped_value i s dt ok (gen_lookup g i s) (holds (g_new g) i s) → holds (g_new g) i s = Some b → ok b = true.
Proof using Htyped Hret.
  intros Hm Hb. pose proof (stored_row _ _ _ _ Hb) as (e & He & _).
  assert (gen_lookup g i s = Some (e_meta e)) as Hl by (by rewrite (lookup_row _ _ _ _ _ Htyped Hret), He).
  destruct (Hm _ Hl) as (_ & _ & H). by apply H.
Qed.

Lemma new_gen_ok : gen_ok (g_new g).
Proof using Htyped Hvalid Hret Hready.
  split.
  - exact (new_dict_ok _ _ _ _ _ _ _ Htyped (generated _ _ _ _ _ Hret)).
  - intros b. apply (mapped_value_ok _ _ _ _ _ (nr_1005 _ _ _ Hready)).
  - intros b. apply (mapped_value_ok _ _ _ _ _ (nr_1019 _ _ _ Hready)).
  - intros i s c b Hi Hc Hs Hb. apply stored_row in Hc as (e0 & He0 & ->), Hb as (e & He & ->).
    pose proof (row_mapping _ _ _ He0 Hi) as (k & pdo & Hk & Hik & [(_ & Hty & Hloc & _)|(? & _)]); [|lia].
    pose proof (row_mapping _ _ _ He Hi) as (k' & pdo' & Hk' & Hik' & [(-> & _)|(Hr & Hty' & Hloc' & _)]); [lia|].
    assert (k' = k) as -> by (eapply rpdo_slot_unique; eauto; congruence).
    rewrite Hty, Hloc in Hs. rewrite Hty', Hloc'. cbn [get_loc] in *. change (encode U32 (VNum ?x)) with (to_le_bytes 4 x).
    apply target_ok_le. eapply new_mapping; [done|]. rewrite encode_u8 in Hs; [change (at_ [?x] 0) with x in Hs; cbn [pdo_fields] in Hs; lia|].
    apply at_bytes. apply (do_bytes _ _ (new_dict_ok _ _ _ _ _ _ _ Htyped (generated _ _ _ _ _ Hret)) DirRpdo).
Qed.

(** ** The other changes *)

Definition watched (i s : Z) : Prop := (i = 0x1005 ∧ s = 0) ∨ (i = 0x1019 ∧ s = 0) ∨ 0x1600 ≤ i < 0x1800.

Lemma gen_ok_keep d d' :
  gen_ok d → dict_ok (g_new g) d' → (∀ i s, watched i s → holds d' i s = holds d i s) → gen_ok d'.
Proof using Type.
  intros [Hd H5 H9 Hm] Hd' Hk. split; [done|..].
  - rewrite Hk by (unfold watched; tauto). done.
  - rewrite Hk by (unfold watched; tauto). done.
  - intros i s c b Hi. rewrite !Hk by (unfold watched; tauto). by apply Hm.
Qed.

Lemma server_location i s e k :
  at_addr i s = Some e → e_loc e = LServerRx k ∨ e_loc e = LServerTx k → 0x1201 ≤ i ≤ 0x127F.
Proof using Htyped Hvalid Hret.
  intros He Hl. apply (row_at_ok _ _ _ _ _ Htyped Hvalid Hret) in He as (_ & Hin & Ha).
  pose proof (proj1 (List.Forall_forall _ _) (gen_entries_owned _ od g _ _ Htyped) _ Hin) as [[v Hv]|Ho]; [destruct Hl; congruence|].
  assert (∃ sv s', od_sdo_servers od !! k = Some sv ∧ (server_index sv, s') = e_addr e) as (sv & s' & Hk & Hs).
  { destruct Hl as [Hl|Hl]; rewrite Hl in Ho; cbn [loc_addr] in Ho; destruct (od_sdo_servers od !! k) as [sv|];
      try discriminate; exists sv; eexists; (split; [done|]);
      exact (f_equal (default (0, 0)) Ho). }
  apply list_elem_of_lookup_2, list_elem_of_In in Hk.
  pose proof (proj1 (List.Forall_forall _ _) (ot_servers _ Htyped) _ Hk) as Hn. simpl in Hn.
  rewrite <- Hs in Ha. injection Ha as <- _. unfold server_index. lia.
Qed.

Lemma servers_stored d rx tx i s : watched i s → holds (set_servers rx tx d) i s = holds d i s.
Proof using Htyped Hvalid Hret.
  intros Hw. unfold stored. destruct (at_addr i s) as [e|] eqn:He; [|done]. simpl. do 2 f_equal.
  destruct (e_loc e) eqn:Hl; try done; pose proof (server_location _ _ _ i0 He ltac:(tauto)); unfold watched in Hw; lia.
Qed.

Lemma store_servers_gen_ok i servers id d d' : gen_ok d → store_servers_loop i servers id d = Ret d' → gen_ok d'.
Proof using Htyped Hvalid Hret.
  revert i d. induction servers as [|s l IH]; intros i d Hd; simpl; [by intros [= <-]|]. intros H.
  apply bind_Ret_inv in H as (rx & _ & H). apply bind_Ret_inv in H as (tx & _ & H). apply (IH _ _) in H; [done|].
  apply (gen_ok_keep d); [done| |intros; by apply servers_stored].
  destruct (go_dict _ Hd) as [H1 H2 H3 H4 H5 H6]. split; simpl; rewrite ?upd_length; done.
Qed.

Lemma store_register_gen_ok d v : gen_ok d → gen_ok (gen_store_error_register g d v).
Proof using Htyped Hvalid Hret.
  intros Hd. apply (gen_ok_keep d); [done|apply store_error_register_ok; apply Hd|]. intros i s Hw.
  unfold gen_store_error_register. rewrite (gf_register _ _ _ _ _ _ _ (generated _ _ _ _ _ Hret)).
  destruct (List.find is_error_register (od_entries od)) as [e|] eqn:Hf; [|done]. cbn [fmap option_fmap option_map].
  apply List.find_some in Hf as [Hin He]. unfold is_error_register in He.
  destruct (oe_kind e) as [var|subs|def] eqn:Hkind; [|done..]. apply andb_true_iff in He as [Hi%Z.eqb_eq _].
  assert (In (mkFlatEntry (oe_index e) 0 (oe_name e) var) (flatten (od_entries od))) as Hx.
  { apply List.in_flat_map. exists e. split; [done|]. unfold flatten_entry. rewrite Hkind. by left. }
  apply flat_row in Hx. simpl in Hx. rewrite Hi in Hx.
  change (set_field (oe_name e) (VNum v) d) with (set_loc (LField (oe_name e)) (VNum v) d).
  eapply (stored_other _ _ _ _ _ Htyped Hvalid Hret); [exact Hx|done|done|].
  intros [= -> ->]. unfold watched in Hw. lia.
Qed.

(** ** The interface *)

Context (validate_fn : list Z → Dict → Z → Z → list Z → result unit OdError).

#[local] Instance od_instance : ObjectDictionary (DictOf g) := generated_od g validate_fn.
#[local] Instance laws_instance : OdLaws (DictOf g) := generated_laws g validate_fn.

Lemma overwrite_len buf v : len v ≤ len buf → length (overwrite buf v) = length buf.
Proof using Type. intros H. unfold overwrite. rewrite length_app, length_take, length_drop. lia. Qed.

Lemma read_into_stored (d : DictOf g) i s buf b :
  dict_ok (g_new g) d → read_into d i s buf = (b, true) →
  ∃ e v, at_addr i s = Some e ∧ holds d i s = Some v ∧ v = encode (data_type (e_meta e)) (get_loc d (e_loc e)) ∧
    len v ≤ len buf ∧ b = map as_u8 (overwrite buf v).
Proof using Htyped Hvalid Hret.
  intros Hd. unfold read_into. cbn [od_read od_instance generated_od].
  rewrite (read_stored _ _ _ _ _ Htyped Hvalid Hret) by done.
  destruct (at_addr i s) as [e|] eqn:He.
  2: { unfold typed_read. by destruct (_ && _). }
  assert (holds d i s = Some (encode (data_type (e_meta e)) (get_loc d (e_loc e)))) as Hv by (unfold stored; by rewrite He).
  rewrite Hv. cbn [default from_option id]. set (v := encode _ _) in *. clearbody v.
  destruct (bool_decide _); [unfold typed_read; by destruct (_ && _)|].
  destruct (Z.ltb_spec (len buf) (len v)); [unfold typed_read; by destruct (_ && _)|].
  unfold typed_read. rewrite overwrite_len, Z.eqb_refl by done. cbn [andb].
  assert (in_range 0 (len buf) (len v) = true) as -> by (unfold in_range; lia). intros [= <-]. 
  exists e, v. split; [done|]. split; [done|]. split; [|done]. unfold stored in Hv. rewrite He in Hv. by injection Hv.
Qed.

Lemma overwrite_full buf v : length v = length buf → overwrite buf v = v.
Proof using Type. intros H. unfold overwrite. rewrite take_ge, drop_ge, app_nil_r by lia. done. Qed.

Lemma read_u32 (d : DictOf g) i s buf b e :
  dict_ok (g_new g) d → len buf = 4 → read_into d i s buf = (b, true) → at_addr i s = Some e →
  data_type (e_meta e) = U32 → holds d i s = Some b.
Proof using Htyped Hvalid Hret.
  intros Hd Hl Hr He Hty. destruct (read_into_stored _ _ _ _ _ Hd Hr) as (e' & v & He' & Hv & -> & _ & ->).
  rewrite He in He'. injection He' as <-. rewrite Hty in *. rewrite Hv. f_equal.
  change (encode U32 ?x) with (to_le_bytes 4 (num x)) in *.
  rewrite overwrite_full by (rewrite length_to_le; lia). symmetry. apply map_u8_id, bytes_to_le.
Qed.

Lemma read_u8 (d : DictOf g) i s buf b e :
  dict_ok (g_new g) d → 1 ≤ len buf → read_into d i s buf = (b, true) → at_addr i s = Some e →
  data_type (e_meta e) = U8 → ∃ v, holds d i s = Some v ∧ at_ b 0 = at_ v 0.
Proof using Htyped Hvalid Hret.
  intros Hd Hl Hr He Hty. destruct (read_into_stored _ _ _ _ _ Hd Hr) as (e' & v & He' & Hv & -> & _ & ->).
  rewrite He in He'. injection He' as <-. rewrite Hty in *. eexists. split; [exact Hv|].
  change (encode U8 ?x) with (to_le_bytes 1 (num x)). destruct buf as [|y buf]; [simpl in Hl; lia|].
  unfold overwrite, at_. simpl. unfold as_u8. apply wrap_id. apply wrap_range. lia.
Qed.

Lemma od_write_gen_ok (d : DictOf g) i s data :
  gen_ok d → sync_entries_supported i s (map as_u8 data) → gen_ok (fst (od_write d i s data)).
Proof using Htyped Hvalid Hret Hready.
  intros Hd Hs. cbn. destruct (gen_write g d i s (map as_u8 data)) as [[d' r]|] eqn:Hw; [|done].
  by apply (gen_ok_write d i s (map as_u8 data) d' r Hd (map_u8_bytes _) Hs).
Qed.

Lemma mappable_not_sync i s data : mappable_object i s → sync_entries_supported i s data.
Proof using Hready.
  intros (m & Hm & Hp). split; intros -> ->.
  - destruct (nr_1005 _ _ _ Hready _ Hm) as (_ & H & _). congruence.
  - destruct (nr_1019 _ _ _ Hready _ Hm) as (_ & H & _). congruence.
Qed.

Lemma sync_row i s dt ok e :
  mapped_value i s dt ok (gen_lookup g i s) (holds (g_new g) i s) → at_addr i s = Some e → data_type (e_meta e) = dt.
Proof using Htyped Hret.
  intros Hm He. assert (gen_lookup g i s = Some (e_meta e)) as Hl by (by rewrite (lookup_row _ _ _ _ _ Htyped Hret), He).
  by apply Hm in Hl as (? & _).
Qed.

Lemma read_row_exists (d : DictOf g) i s buf b :
  dict_ok (g_new g) d → read_into d i s buf = (b, true) → ∃ e, at_addr i s = Some e.
Proof using Htyped Hvalid Hret.
  intros Hd Hr. destruct (read_into_stored _ _ _ _ _ Hd Hr) as (e & v & He & _). by exists e.
Qed.

Definition generated_node_od : NodeOd (DictOf g).
Proof using All.
  refine {| od_ok := gen_ok : DictOf g → Prop; pdo_object := mappable_object |}.
  - intros d b Hd Hr. pose proof (go_dict _ Hd) as Hdo. destruct (read_row_exists _ _ _ _ _ Hdo Hr) as [e He].
    apply (go_1005 _ Hd). eapply read_u32; [done| |done|done|]; [done|by eapply (sync_row _ _ _ _ _ (nr_1005 _ _ _ Hready))].
  - intros d b Hd Hr. pose proof (go_dict _ Hd) as Hdo. destruct (read_row_exists _ _ _ _ _ Hdo Hr) as [e He].
    destruct (read_u8 d 0x1019 0 (zeros 1) b e Hdo) as (v & Hv & ->); [done|done|done| |by apply (go_1019 _ Hd)].
    by eapply (sync_row _ _ _ _ _ (nr_1019 _ _ _ Hready)).
  - intros d i s data Hd Hb _ Hs. apply od_write_gen_ok; [done|]. by rewrite map_u8_id.
  - intros d i s data Hd Hp. apply od_write_gen_ok; [done|]. by apply mappable_not_sync.
  - intros d i data Hd Hi. apply od_write_gen_ok; [done|]. split; intros ->; lia.
  - intros d i s buf0 b0 buf b Hd Hi Hl0 Hr0 Hs Hl Hr. pose proof (go_dict _ Hd) as Hdo.
    destruct (read_row_exists _ _ _ _ _ Hdo Hr0) as [e0 He0]. destruct (read_row_exists _ _ _ _ _ Hdo Hr) as [e He].
    pose proof (row_mapping _ _ _ He0 Hi) as (k0 & p0 & _ & _ & [(_ & Hty0 & _)|(? & _)]); [|lia].
    destruct (read_u8 d i 0 buf0 b0 e0 Hdo) as (c & Hc & Hac); [lia|done|done|done|]. rewrite Hac in Hs.
    pose proof (row_mapping _ _ _ He Hi) as (k & p & _ & _ & [(-> & _)|(_ & Hty & _)]); [lia|].
    pose proof (read_u32 d i s buf b e Hdo Hl Hr He Hty) as Hb. exact (go_map _ Hd _ _ _ _ Hi Hc Hs Hb).
  - intros d id Hd. cbn. destruct (gen_store_servers g d id) as [d'|] eqn:Hs; [|done].
    by apply (store_servers_gen_ok _ _ _ _ _ Hd Hs).
  - intros d v Hd. by apply store_register_gen_ok.
Defined.

(** ** Configurations *)

Lemma tpdo_configs_ok i defs (d : Dict) id ts :
  Forall (λ p, 0 ≤ pd_number p ≤ 512) defs → tpdo_configs_from i defs d id = Ret ts →
  length ts = length defs ∧ Forall (λ t, Forall wf_mapping (tp_mappings t) ∧ 0 ≤ tp_od_number t ≤ 512) ts.
Proof using Type.
  intros Hn. revert i ts. induction Hn as [|p l Hp _ IH]; intros i ts; cbn [tpdo_configs_from].
  { intros [= <-]. split; [done|apply List.Forall_nil]. }
  intros H. apply bind_Ret_inv in H as (cob & _ & H). apply bind_Ret_inv in H as (cs & Hcs & H). injection H as <-.
  destruct (IH _ _ Hcs) as [Hl Hok]. split; [simpl; by rewrite Hl|]. apply List.Forall_cons; [|done]. split; [|done].
  simpl. apply Forall_map, Forall_true. intros. apply mapping_value_wf.
Qed.

#[local] Instance node_instance : NodeOd (DictOf g) := generated_node_od.

Lemma config_mappings_ok k pdo :
  pdo_defs DirRpdo od !! k = Some pdo →
  Forall rx_mapping_ok (config_mappings (d_rpdo (g_new g)) k).
Proof using Type.
  intros Hk. unfold config_mappings. apply Forall_map, Forall_lookup. intros j x Hx. split; [apply mapping_value_wf|].
  pose proof (lookup_lt_Some _ _ _ Hx) as Hj. rewrite length_take in Hj. rewrite lookup_take_lt in Hx by lia.
  pose proof (new_mapping k pdo (Z.of_nat j) Hk ltac:(lia)) as Ht. rewrite Nat2Z.id in Ht.
  unfold row, at_ in Ht. cbn [pdo_fields] in Ht. by rewrite (nth_lookup_Some _ _ _ _ Hx) in Ht.
Qed.

Lemma rpdo_configs_ok i defs id rs :
  Forall (λ p, 0 ≤ pd_number p ≤ 512) defs → (∀ j p, defs !! j = Some p → pdo_defs DirRpdo od !! (i + j)%nat = Some p) →
  rpdo_configs_from i defs (g_new g) id = Ret rs →
  length rs = length defs ∧ Forall (λ r, Forall rx_mapping_ok (rp_mappings r) ∧ 0 ≤ rp_od_number r ≤ 512) rs.
Proof using Type.
  intros Hn. revert i rs. induction Hn as [|p l Hp _ IH]; intros i rs Hi; cbn [rpdo_configs_from].
  { intros [= <-]. split; [done|apply List.Forall_nil]. }
  intros H. apply bind_Ret_inv in H as (cob & _ & H). apply bind_Ret_inv in H as (cs & Hcs & H). injection H as <-.
  destruct (IH (S i) cs) as [Hl Hok]; [|done|].
  { intros j q Hj. replace (S i + j)%nat with (i + S j)%nat by lia. by apply Hi. }
  split; [simpl; by rewrite Hl|]. apply List.Forall_cons; [|done]. split; [|done]. simpl.
  apply (config_mappings_ok i p). pose proof (Hi 0%nat p eq_refl) as H0. by rewrite Nat.add_0_r in H0.
Qed.

Lemma defs_numbers dir : Forall (λ p, 0 ≤ pd_number p ≤ 512) (pdo_defs dir od) ∧ (length (pdo_defs dir od) ≤ 512)%nat.
Proof using Htyped Hret.
  assert (Forall (λ p, 1 ≤ pd_number p ≤ 512) (pdo_defs dir od)) as Hn.
  { apply List.Forall_forall. intros p [Hp _]%List.filter_In. by apply (proj1 (List.Forall_forall _ _) (ot_pdos _ Htyped) p Hp). }
  split; [eapply List.Forall_impl; [|exact Hn]; simpl; intros; lia|].
  assert (NoDup (map pd_number (pdo_defs dir od))) as Hd.
  { pose proof (generated _ _ _ _ _ Hret) as Hgen. destruct dir; [apply Hgen|apply Hgen]. }
  rewrite <- (length_map pd_number). replace 512%nat with (length (map Z.of_nat (seq 1 512))) by (by rewrite length_map, length_seq).
  apply submseteq_length, NoDup_submseteq; [done|]. intros x (p & -> & Hp)%list_elem_of_fmap.
  apply list_elem_of_In, (proj1 (List.Forall_forall _ _) Hn) in Hp. apply list_elem_of_In, List.in_map_iff.
  exists (Z.to_nat (pd_number p)). split; [lia|]. apply List.in_seq. lia.
Qed.

Lemma store_servers_total i servers id d :
  1 ≤ id ≤ 127 → Forall (λ s, ∀ b, sd_cob_rx s = NodeRelative b ∨ sd_cob_tx s = NodeRelative b → 0 ≤ b ≤ 0xFFFF - 127) servers →
  ∃ d', store_servers_loop i servers id d = Ret d'.
Proof using Type.
  intros Hid Hs. revert i d. induction Hs as [|s l Hb _ IH]; intros i d; cbn [store_servers_loop]; [by eexists|].
  assert (∀ c, c = sd_cob_rx s ∨ c = sd_cob_tx s → ∃ v, resolve_cob c id = Ret v) as Hr.
  { intros [x|b] Hc; [by eexists|]. assert (0 ≤ b ≤ 0xFFFF - 127) as Hr by (apply Hb; destruct Hc; auto).
    simpl. rewrite wrap_id by (unfold is_uint; lia). rewrite checked_ret by (unfold is_uint; lia). by eexists. }
  destruct (Hr (sd_cob_rx s)) as [rx Hrx]; [by left|]. destruct (Hr (sd_cob_tx s)) as [tx Htx]; [by right|].
  rewrite Hrx, Htx. apply IH.
Qed.

(** C3. A node built from a generated dictionary and the configurations it
    generates never panics, for every valid definition that satisfies
    [node_ready]: its entries 0x1005 and 0x1019 have their CiA types, are not
    PDO mappable and start with supported values, it declares no object in
    0x1600 to 0x17FF by hand, its raw RPDO mappings name dummies, and the
    node-relative bases of its SDO servers leave room for the node id.  Then,
    whatever frames arrive and whatever the application calls, every processing
    call returns, the dictionary's SYNC entries stay supported and its active
    RPDO mappings name mappable objects; resolving the SDO server identifiers
    does not overflow.  Of a definition without the first condition a received
    frame can panic the node ([mappable_sync_panics]). *)
Theorem generated_node_never_panics (EVT_QUEUE DIRTY_SET TX RX : nat) id heartbeat auto identity ts rs ss
    (n : Node (OD := DictOf g)) (os : list (node_op (OD := DictOf g))) :
  1 ≤ id ≤ 127 →
  tpdo_configs g (g_new g) id = Ret ts → rpdo_configs g (g_new g) id = Ret rs →
  sdo_server_configs (g_servers g) id = Ret ss →
  new (mkNodeConfig id heartbeat auto ts rs ss identity) (g_new g : DictOf g) = Ret n → Forall wf_node_op os →
  (∃ d, gen_store_servers g (g_new g) id = Ret d) ∧
  runs (run_node_ops EVT_QUEUE DIRTY_SET TX RX os (n, Mailbox.new)) (λ st, gen_ok (nd_od (fst st))).
Proof using Type.
  intros Hid Ht Hr _ Hnew Hos. pose proof (generated _ _ _ _ _ Hret) as Hgen. split.
  { apply store_servers_total; [done|]. rewrite (gf_servers _ _ _ _ _ _ _ Hgen). apply Hready. }
  destruct (defs_numbers DirTpdo) as [Htn Htl], (defs_numbers DirRpdo) as [Hrn Hrl].
  unfold tpdo_configs in Ht. unfold rpdo_configs in Hr.
  rewrite (gf_tdefs _ _ _ _ _ _ _ Hgen) in Ht. rewrite (gf_rdefs _ _ _ _ _ _ _ Hgen) in Hr.
  apply tpdo_configs_ok in Ht as [Htc Htk]; [|done]. apply rpdo_configs_ok in Hr as [Hrc Hrk]; [|done|by intros].
  assert (config_ok (mkNodeConfig id heartbeat auto ts rs ss identity)) as Hc.
  { split; [exact Hid|]. simpl. split; [done|]. split; [done|]. split; lia. }
  eapply runs_mono.
  { apply (run_node_ops_ok EVT_QUEUE DIRTY_SET TX RX os _ Hos). exact (new_state_ok EVT_QUEUE _ _ n Hc new_gen_ok Hnew). }
  intros st [Hok _]. apply Hok.
Qed.
End node.

(** ** The concrete definition *)

Definition demo_sync_ready (g : Generated Z) : bool :=
  match gen_lookup g 0x1005 0, stored demo_eds demo_od g (g_new g) 0x1005 0 with
  | Some m, Some b => bool_decide (data_type m = U32) && negb (Od.pdo_mappable m) && is_supported_sync_cob_id (from_le_bytes b)
  | _, _ => false
  end && bool_decide (gen_lookup g 0x1019 0 = None).

Lemma demo_ready : demo_holds (node_ready demo_eds demo_od).
Proof.
  assert (match demo_generate with Ret g => demo_sync_ready g | Panic => false end = true) as Hc by (vm_compute; reflexivity).
  apply demo_intro. intros g Hg. rewrite Hg in Hc. unfold demo_sync_ready in Hc. apply andb_true_iff in Hc as [H5 H9].
  split.
  - intros m Hm. rewrite Hm in H5. destruct (stored demo_eds demo_od g (g_new g) 0x1005 0) as [b|]; [|done].
    apply andb_true_iff in H5 as [[Ht Hp]%andb_true_iff Hs]. apply bool_decide_eq_true in Ht. apply negb_true_iff in Hp.
    split; [done|]. split; [done|]. by intros ? [= <-].
  - intros m Hm. apply bool_decide_eq_true in H9. congruence.
  - repeat first [apply List.Forall_nil | apply List.Forall_cons]; simpl; lia.
  - vm_compute pdo_defs. repeat first [apply List.Forall_nil | apply List.Forall_cons]; simpl; intros r [=].
  - repeat first [apply List.Forall_nil | apply List.Forall_cons]. simpl. intros b [[=]|[= <-]]. lia.
Qed.

#[local] Instance demo_instance (g : Generated Z) : ObjectDictionary (DictOf g) := generated_od g (λ _ _ _ _ _, Ok tt).

(** An RPDO that writes [gains_p] at the next SYNC, an SDO write of 0x2000, and the event-driven
    TPDO that carries it. *)
Definition demo_traffic {OD : Type} : list (node_op (OD := OD)) :=
  [ OpProcess 1000; OpReceived (frame 0 [1; 5]); OpProcess 2000; OpReceived (frame 0x305 [1; 2; 3]); OpReceived (frame 0x80 []);
    OpProcess 3000; OpReceived (frame 0x605 [0x2B; 0; 0x20; 0; 0x34; 0x12; 0; 0]); OpProcess 4000; OpProcess 5000;
    OpNotifyChanged 0x2000 0; OpProcess 6000 ].

Definition demo_built (g : Generated Z) : exec (Node (OD := DictOf g)) :=
  ts ← tpdo_configs g (g_new g) 5;
  rs ← rpdo_configs g (g_new g) 5;
  ss ← sdo_server_configs (g_servers g) 5;
  new (mkNodeConfig 5 0 true ts rs ss (mkIdentity 1 2 3 4)) (g_new g : DictOf g).

(** What the node sends, and what its dictionary then holds: the received
    [gains_p] and the written [speed]. *)
Example demo_run :
  match demo_generate with
  | Ret g =>
      (n ← demo_built g;
       st ← run_node_ops 8 8 16 16 demo_traffic (n, Mailbox.new);
       p ← gen_read g (nd_od (fst st)) 0x2001 1 (zeros 3);
       v ← gen_read g (nd_od (fst st)) 0x2000 0 (zeros 2);
       mret (map (λ f, (cf_id f, CanFrame.data f)) (tx_queue (snd st)), fst p, fst v)) =
      Ret ([(0x705, [0]); (0x585, [0x60; 0; 0x20; 0; 0; 0; 0; 0]); (0x185, [0x34; 0x12; 0])], [1; 2; 3], [0x34; 0x12])
  | Panic => False
  end.
Proof. vm_compute. reflexivity. Qed.

Lemma generated_node_never_panics_witness :
  demo_holds (λ g, ∃ n, demo_built g = Ret n ∧
    runs (run_node_ops 8 8 16 16 demo_traffic (n, Mailbox.new)) (λ st, gen_ok demo_eds demo_od g (nd_od (fst st)))).
Proof.
  assert (match demo_generate with
          | Ret g => match demo_built g with Ret _ => true | Panic => false end
          | Panic => false
          end = true) as Hb by (vm_compute; reflexivity).
  pose proof demo_ready as Hr. unfold demo_holds in *. destruct demo_generate as [g|] eqn:Hg; [|done].
  destruct (demo_built g) as [n|] eqn:Hn; [|done]. exists n. split; [done|]. unfold demo_built in Hn.
  apply bind_Ret_inv in Hn as (ts & Ht & Hn). apply bind_Ret_inv in Hn as (rs & Hrs & Hn).
  apply bind_Ret_inv in Hn as (ss & Hs & Hn).
  refine (proj2 (generated_node_never_panics demo_eval demo_string demo_eds demo_od g demo_typed eq_refl Hg Hr
    (λ _ _ _ _ _, Ok tt) 8 8 16 16 5 0 true (mkIdentity 1 2 3 4) ts rs ss n demo_traffic _ Ht Hrs Hs Hn _)).
  - lia.
  - repeat (apply List.Forall_cons; [first [exact I|apply frame_wf; [lia| |simpl; lia]]|]); [..|apply List.Forall_nil];
      repeat constructor; done.
Defined.

(** ** Why 0x1005 must not be mappable *)

(** A valid definition whose RPDO 1 maps the SYNC COB-ID. *)
Definition mappable_sync_od : OdDefinition Z :=
  mkOdDefinition (str "Mappable")
    [ mkOdEntry 0x1001 (str "error_register") (EntryVar (demo_var (str "u8") AccRo false 0));
      mkOdEntry 0x1005 (str "sync_cob") (EntryVar (demo_var (str "u32") AccRw true 0x80)) ]
    [ mkPdoDef DirRpdo 1 (Some (NodeRelative 0x200)) 255 0 0 Immutable [mkMappingDef (str "sync_cob") None None] ]
    [] false None.

Definition mappable_sync_run (after : list (node_op (OD := Dict))) : exec unit :=
  g ← generate demo_eval demo_string demo_eds mappable_sync_od;
  n ← demo_built g;
  _ ← run_node_ops (OD := DictOf g) 8 8 16 16
        ([OpProcess 1000; OpReceived (frame 0x205 [0; 0; 0; 0]); OpProcess 2000] ++ after) (n, Mailbox.new);
  mret tt.

(** The frame stores an unsupported value without the checks of the SDO server;
    the next NMT reset asserts on it. *)
Example mappable_sync_panics :
  validate mappable_sync_od = Ok tt ∧
  mappable_sync_run [] = Ret tt ∧
  mappable_sync_run [OpReceived (frame 0 [0x82; 5]); OpProcess 3000] = Panic.
Proof. by vm_compute. Qed.
