(* ===== verification/PdoClient.v ===== *)
(** * Generated PDO clients

    [canopen-derive/src/pdo_client_codegen.rs]: the remote-device type that
    [generate_parts] writes for a definition.  As in [Gen] the templates are the
    functions they denote: a payload struct is a list of named values, a decoder
    a function from frames to payloads, an encoder one from payloads to frames. *)
From S2P Require Import Prelude Text Frame PdoBits PdoEngine Eds Gen.

(** ** Errors *)

(** pdo/mod.rs *)
Inductive PdoDecodeError :=
| WrongCobId (expected actual : Z)
| PayloadTooShort (expected actual : Z)
| AmbiguousCobId (cob_id : Z).

(** What [generate_parts] turns into a compile error. *)
Inductive ClientError :=
| SameCobId (a b : Z)
| UnknownAddress (index subindex : Z)
| TooManyBits (index subindex : Z)
| MappedTwice (field : list Z)
| UnsupportedType (ty : list Z)
| NoPredefinedCobId (number : Z)
| ExtendedCobId (number : Z)
| InvalidCobId (number : Z).

Section client.
Context {Expr : Type}.

(** ** Fields *)

Record MappedField := mkMappedField {
  mf_name : list Z;
  mf_var : VarDef Expr;
  mf_offset : Z;
  mf_bits : Z;
}.

Definition mf_type (f : MappedField) : list Z := type_name (mf_var f).

Definition wire_bits (ty : list Z) : result Z ClientError :=
  if bool_decide (ty ∈ [str "bool"; str "u8"; str "i8"]) then Ok 8
  else if bool_decide (ty ∈ [str "u16"; str "i16"]) then Ok 16
  else if bool_decide (ty ∈ [str "u24"; str "i24"]) then Ok 24
  else if bool_decide (ty ∈ [str "u32"; str "i32"; str "f32"]) then Ok 32
  else if bool_decide (ty = str "f64") then Ok 64
  else Err (UnsupportedType ty).

(** One iteration of the loop of [mapped_fields]. *)
Definition mapped_field (flat : list (FlatEntry Expr)) (fields : list MappedField) (bit_offset : Z) (m : ResolvedMapping)
    : result (list MappedField) ClientError :=
  if in_range 0x0001 0x0007 (rm_index m) then Ok fields
  else
    match List.find (λ e, (fl_index e =? rm_index m) && (fl_subindex e =? rm_subindex m)) flat with
    | None => Err (UnknownAddress (rm_index m) (rm_subindex m))
    | Some entry =>
        match wire_bits (type_name (fl_var entry)) with
        | Err e => Err e
        | Ok object_bits =>
            if object_bits <? rm_bit_length m then Err (TooManyBits (rm_index m) (rm_subindex m))
            else if existsb (λ f, bool_decide (mf_name f = fl_name entry)) fields then Err (MappedTwice (fl_name entry))
            else Ok (fields ++ [mkMappedField (fl_name entry) (fl_var entry) bit_offset (rm_bit_length m)])
        end
    end.

Fixpoint mapped_fields_loop (flat : list (FlatEntry Expr)) (fields : list MappedField) (bit_offset : Z)
    (mappings : list ResolvedMapping) : result (list MappedField) ClientError :=
  match mappings with
  | [] => Ok fields
  | m :: mappings =>
      match mapped_field flat fields bit_offset m with
      | Err e => Err e
      | Ok fields => mapped_fields_loop flat fields (bit_offset + rm_bit_length m) mappings
      end
  end.

Definition mapped_fields (flat : list (FlatEntry Expr)) (mappings : list ResolvedMapping)
    : result (list MappedField) ClientError :=
  mapped_fields_loop flat [] 0 mappings.

(** ** COB-IDs *)

Definition mask_cob_id_flags (spec : CobIdSpec) : CobIdSpec :=
  match spec with
  | Absolute raw => Absolute (Z.land raw 0x3fffffff)
  | NodeRelative base => NodeRelative (Z.land base 0x3fffffff)
  end.

Definition effective_cob_id_spec (pdo : PdoDef) : option CobIdSpec :=
  match pd_cob_id pdo with
  | Some spec => Some (mask_cob_id_flags spec)
  | None =>
      if in_range 1 4 (pd_number pdo) then
        Some (NodeRelative ((match pd_direction pdo with DirTpdo => 0x180 | DirRpdo => 0x200 end)
                            + (pd_number pdo - 1) * 0x100))
      else None
  end.

Definition node_id_dependent_collision (pdo other : PdoDef) : bool :=
  match effective_cob_id_spec pdo, effective_cob_id_spec other with
  | Some (Absolute id), Some (NodeRelative base) | Some (NodeRelative base), Some (Absolute id) =>
      (base <=? id) && in_range 1 127 (id - base)
  | _, _ => false
  end.

Definition pdo_is_disabled (pdo : PdoDef) : bool :=
  match pd_cob_id pdo with
  | Some (Absolute raw) | Some (NodeRelative raw) => negb (Z.land raw 0x80000000 =? 0)
  | None => false
  end.

(** [cob_id_expr]: a constant, or a constant plus the node id. *)
Definition cob_id_expr (pdo : PdoDef) : result CobIdSpec ClientError :=
  match effective_cob_id_spec pdo with
  | None => Err (NoPredefinedCobId (pd_number pdo))
  | Some spec =>
      let raw := match spec with Absolute raw | NodeRelative raw => raw end in
      if negb (Z.land raw 0x20000000 =? 0) then Err (ExtendedCobId (pd_number pdo))
      else
        match spec with
        | Absolute raw => if raw <=? 0x7ff then Ok (Absolute (as_u16 raw)) else Err (InvalidCobId (pd_number pdo))
        | NodeRelative base =>
            if base + 127 <=? 0x7ff then Ok (NodeRelative (as_u16 base)) else Err (InvalidCobId (pd_number pdo))
        end
  end.

(** ** Codecs *)

Definition Payload : Type := list (list Z * Value).

(** The bytes of a field's value in its Rust type. *)
Definition object_bytes (ty : list Z) (v : Value) : list Z :=
  if bool_decide (ty = str "bool") then [if truth v then 1 else 0]
  else if bool_decide (ty ∈ [str "u8"; str "i8"]) then [as_u8 (num v)]
  else to_le_bytes (Z.to_nat (repr_size (default 0 (type_size ty)))) (num v).

Definition encode_field (payload : Payload) (f : MappedField) (data : list Z) : exec (list Z) :=
  copy_pdo_bits (object_bytes (mf_type f) (assoc (VNum 0) payload (mf_name f))) 0 data (mf_offset f) (mf_bits f).

Fixpoint encode_fields (payload : Payload) (fields : list MappedField) (data : list Z) : exec (list Z) :=
  match fields with
  | [] => mret data
  | f :: fields => data ← encode_field payload f data; encode_fields payload fields data
  end.

(** The value of the copied bits in the Rust type. *)
Definition field_value (ty : list Z) (bits : Z) (object_data : list Z) : exec Value :=
  if bool_decide (ty = str "bool") then
    b ← unwrap (object_data !! 0%nat); mret (VBool (negb (b =? 0)))
  else if bool_decide (ty = str "i24") then
    object_data ← sign_extend_pdo_bits object_data (Z.min bits 24);
    b ← unwrap (object_data !! 2%nat);
    object_data ← (if negb (Z.land b 0x80 =? 0) then
                     _ ← unwrap (object_data !! 3%nat); mret (<[3%nat := 0xff]> object_data)
                   else mret object_data);
    mret (VNum (signed_of (len object_data) (from_le_bytes object_data)))
  else if bool_decide (ty ∈ [str "i8"; str "i16"; str "i32"]) then
    object_data ← sign_extend_pdo_bits object_data bits;
    mret (VNum (signed_of (len object_data) (from_le_bytes object_data)))
  else mret (VNum (from_le_bytes object_data)).

Definition decode_field (f : MappedField) (data : list Z) : exec (list Z * Value) :=
  object_data ← copy_pdo_bits data (mf_offset f) (zeros (repr_size (default 0 (type_size (mf_type f))))) 0 (mf_bits f);
  v ← field_value (mf_type f) (mf_bits f) object_data;
  mret (mf_name f, v).

(** ** One PDO *)

Record ClientPdo := mkClientPdo {
  cp_def : PdoDef;
  cp_fields : list MappedField;
  cp_cob : CobIdSpec;
  cp_bytes : Z;
}.

(** [usize::div_ceil] *)
Definition div_ceil (a b : Z) : Z := (a + (b - 1)) / b.

Definition generate_pdo (pdo : PdoDef) (mappings : list ResolvedMapping) (flat : list (FlatEntry Expr))
    : result ClientPdo ClientError :=
  match mapped_fields flat mappings with
  | Err e => Err e
  | Ok fields =>
      match cob_id_expr pdo with
      | Err e => Err e
      | Ok cob =>
          let payload_bits := foldr (λ m n, rm_bit_length m + n) 0 mappings in
          Ok (mkClientPdo pdo fields cob (div_ceil payload_bits 8))
      end
  end.

(** [tpdo<n>_cob_id] and [rpdo<n>_cob_id] *)
Definition cob_id (c : ClientPdo) (node_id : Z) : exec Z :=
  raw ← (match cp_cob c with Absolute raw => mret raw | NodeRelative base => checked 16 (base + node_id) end);
  unwrap (CobId.new raw).

(** [decode_tpdo<n>] *)
Definition decode_tpdo (c : ClientPdo) (node_id : Z) (frame : CanFrame) : exec (result Payload PdoDecodeError) :=
  expected_cob_id ← cob_id c node_id;
  if negb (CanFrame.raw_id frame =? expected_cob_id) then mret (Err (WrongCobId expected_cob_id (CanFrame.raw_id frame)))
  else if len (CanFrame.data frame) <? cp_bytes c then
    mret (Err (PayloadTooShort (cp_bytes c) (len (CanFrame.data frame))))
  else
    payload ← for_each (λ f, decode_field f (CanFrame.data frame)) (cp_fields c);
    mret (Ok payload).

(** [rpdo<n>] *)
Definition encode_rpdo (c : ClientPdo) (node_id : Z) (payload : Payload) : exec CanFrame :=
  data ← encode_fields payload (cp_fields c) (zeros 8);
  id ← cob_id c node_id;
  bytes ← slice data 0 (cp_bytes c);
  unwrap (CanFrame.new id bytes).

(** ** [generate_parts] *)

(** The first pair, in loop order, for which [p] holds. *)
Fixpoint find_pair {A} (p : A → A → bool) (l : list A) : option (A * A) :=
  match l with
  | [] => None
  | a :: l => match List.find (p a) l with Some b => Some (a, b) | None => find_pair p l end
  end.

Definition mapped_pdos (od : OdDefinition Expr) : list PdoDef :=
  List.filter (λ p, negb (bool_decide (pd_mappings p = []))) (od_pdos od).

Definition dispatch_pdos (od : OdDefinition Expr) : list PdoDef :=
  List.filter (λ p, negb (pdo_is_disabled p)) (mapped_pdos od).

Fixpoint generate_pdos (flat : list (FlatEntry Expr)) (pdos : list PdoDef)
    : exec (result (list ClientPdo) ClientError) :=
  match pdos with
  | [] => mret (Ok [])
  | pdo :: pdos =>
      mappings ← resolve_pdo_mappings pdo flat;
      match generate_pdo pdo mappings flat with
      | Err e => mret (Err e)
      | Ok c =>
          rest ← generate_pdos flat pdos;
          mret (match rest with Err e => Err e | Ok cs => Ok (c :: cs) end)
      end
  end.

Definition generate_parts (od : OdDefinition Expr) : exec (result (list ClientPdo) ClientError) :=
  match find_pair (λ a b, bool_decide (effective_cob_id_spec a = effective_cob_id_spec b)) (dispatch_pdos od) with
  | Some (a, b) => mret (Err (SameCobId (pd_number a) (pd_number b)))
  | None => generate_pdos (flatten (od_entries od)) (mapped_pdos od)
  end.

(** The TPDOs that [decode] tries. *)
Definition dispatch_tpdos (client : list ClientPdo) : list ClientPdo :=
  List.filter (λ c, bool_decide (pd_direction (cp_def c) = DirTpdo) && negb (pdo_is_disabled (cp_def c))) client.

(** The pairs of [ambiguity_checks] *)
Fixpoint ambiguous_pairs (l : list ClientPdo) : list (ClientPdo * ClientPdo) :=
  match l with
  | [] => []
  | a :: l => map (pair a) (List.filter (λ b, node_id_dependent_collision (cp_def a) (cp_def b)) l) ++ ambiguous_pairs l
  end.

Definition both_match (a b : ClientPdo) (node_id raw_id : Z) : exec bool :=
  x ← cob_id a node_id;
  if raw_id =? x then y ← cob_id b node_id; mret (raw_id =? y) else mret false.

Fixpoint check_ambiguity (pairs : list (ClientPdo * ClientPdo)) (node_id raw_id : Z) : exec bool :=
  match pairs with
  | [] => mret false
  | (a, b) :: pairs =>
      clash ← both_match a b node_id raw_id;
      if (clash : bool) then mret true else check_ambiguity pairs node_id raw_id
  end.

Fixpoint decode_arms (l : list ClientPdo) (node_id : Z) (frame : CanFrame)
    : exec (result (option (Z * Payload)) PdoDecodeError) :=
  match l with
  | [] => mret (Ok None)
  | c :: l =>
      x ← cob_id c node_id;
      if CanFrame.raw_id frame =? x then
        r ← decode_tpdo c node_id frame;
        mret (match r with Ok payload => Ok (Some (pd_number (cp_def c), payload)) | Err e => Err e end)
      else decode_arms l node_id frame
  end.

(** [decode] *)
Definition decode (client : list ClientPdo) (node_id : Z) (frame : CanFrame)
    : exec (result (option (Z * Payload)) PdoDecodeError) :=
  let tpdos := dispatch_tpdos client in
  ambiguous ← check_ambiguity (ambiguous_pairs tpdos) node_id (CanFrame.raw_id frame);
  if (ambiguous : bool) then mret (Err (AmbiguousCobId (CanFrame.raw_id frame))) else decode_arms tpdos node_id frame.
End client.

Arguments MappedField Expr : clear implicits.
Arguments ClientPdo Expr : clear implicits.
