(* ===== verification/PdoClientSpec.v ===== *)
(** * The codecs of generated PDO clients

    What the encoder of a generated client puts in a payload and what its
    decoder takes out, as numbers: [image] places the [wire] values of the
    mapped fields, [received_fields] reads them back.  Values are cut to the
    mapped bits ([transmitted]); a value that fits arrives unchanged. *)
From S2P Require Import Prelude Text Frame Od SdoProtocol PdoBits PdoEngine PdoMapped Node Eds Gen GenSpec GenTable GenFacts GenNode PdoClient.

(** ** Values on the wire *)

(** The bits of a value, and the value of [n] received bits. *)
Definition wire (dt : DataType) (v : Value) : Z :=
  if bool_decide (dt = Boolean) then (if truth v then 1 else 0) else num v.

Definition received (dt : DataType) (n w : Z) : Value :=
  if bool_decide (dt = Boolean) then VBool (negb (w =? 0))
  else VNum (if signed_type dt then signed n w else w).

Definition transmitted (dt : DataType) (n : Z) (v : Value) : Value := received dt n (wire dt v mod 2 ^ n).

(** The values a field of [n] bits carries. *)
Definition value_fits (dt : DataType) (n : Z) (v : Value) : Prop :=
  1 ≤ n ∧
  match v with
  | VBool _ => dt = Boolean
  | VNum z => dt ≠ Boolean ∧ (if signed_type dt then - 2 ^ (n - 1) ≤ z < 2 ^ (n - 1) else 0 ≤ z < 2 ^ n)
  | VBytes _ => False
  end.

Lemma signed_range_mod n z : 1 ≤ n → - 2 ^ (n - 1) ≤ z < 2 ^ (n - 1) → signed n (z mod 2 ^ n) = z.
Proof.
  intros Hn Hz. assert (2 ^ n = 2 * 2 ^ (n - 1)) as H2 by (rewrite <- Z.pow_succ_r by lia; f_equal; lia).
  assert (0 < 2 ^ (n - 1)) by (apply Z.pow_pos_nonneg; lia). unfold signed.
  destruct (Z.le_gt_cases 0 z) as [Hp|Hneg].
  - rewrite Z.mod_small by lia. rewrite (testbit_small z (n - 1)) by lia. done.
  - assert (z mod 2 ^ n = z + 2 ^ n) as ->.
    { symmetry. apply Z.mod_unique_pos with (-1); lia. }
    assert (Z.testbit (z + 2 ^ n) (n - 1) = true) as ->; [|lia].
    apply Z.testbit_true; [lia|]. rewrite <- (Z.div_unique_pos (z + 2 ^ n) (2 ^ (n - 1)) 1 (z + 2 ^ n - 2 ^ (n - 1))) by lia. done.
Qed.

(** A value that fits arrives unchanged. *)
Lemma transmitted_fits dt n v : value_fits dt n v → transmitted dt n v = v.
Proof.
  intros [Hn Hv]. unfold transmitted, received, wire. destruct v as [b|z|]; [| |done].
  - rewrite bool_decide_eq_true_2 by done. simpl.
    assert (2 ^ 1 ≤ 2 ^ n) by (apply Z.pow_le_mono_r; lia). rewrite Z.mod_small by (destruct b; lia). by destruct b.
  - destruct Hv as [Hb Hz]. rewrite !bool_decide_eq_false_2 by done. simpl. destruct (signed_type dt).
    + by rewrite signed_range_mod.
    + by rewrite Z.mod_small.
Qed.

(** ** Types of PDO fields *)

Definition pdo_type (dt : DataType) : bool :=
  negb (bool_decide (dt ∈ [U64; I64])) && match DataType.size dt with Some _ => true | None => false end.

Definition dt_of (ty : list Z) : DataType := default U8 (type_to_datatype ty).

Lemma wire_bits_Ok ty ob :
  wire_bits ty = Ok ob →
  ∃ dt n, type_to_datatype ty = Some dt ∧ ty = type_string dt ∧ pdo_type dt = true ∧ DataType.size dt = Some n ∧ ob = 8 * n.
Proof.
  unfold wire_bits. repeat case_bool_decide; intros [= <-];
    repeat match goal with H : _ ∈ _ |- _ => apply list_elem_of_In in H; simpl in H end;
    repeat match goal with H : _ ∨ _ |- _ => destruct H as [H|H] end; try done; subst ty;
    eexists _, _; (split; [reflexivity|]); done.
Qed.

Lemma type_string_inj dt : type_to_datatype (type_string dt) = Some dt.
Proof. by destruct dt. Qed.

Lemma repr_string dt n : DataType.size dt = Some n → repr_size (default 0 (type_size (type_string dt))) = repr_size n.
Proof. intros Hn. rewrite type_size_string, Hn. done. Qed.

Lemma repr_bounds n : 1 ≤ n ≤ 8 → n ≤ repr_size n ≤ 8.
Proof. unfold repr_size. destruct (Z.eqb_spec n 3); lia. Qed.

(** ** Copies *)

Lemma copy_to_zeros_n k src sb n :
  bytes src → 0 ≤ n ≤ 8 * k → 0 ≤ sb → sb + n ≤ 8 * len src →
  copy_pdo_bits src sb (zeros k) 0 n = Ret (to_le_bytes (Z.to_nat k) (PdoMapped.field (from_le_bytes src) sb n)).
Proof.
  intros Hs Hn Hsb Hsl. pose proof (len_zeros k) as Hlz.
  destruct (runs_inv _ _ (copy_pdo_bits_ok src (zeros k) sb 0 n Hs (bytes_zeros k) ltac:(lia) Hsb Hsl ltac:(lia) ltac:(lia)))
    as (d & -> & Hl & Hb & Hbits).
  f_equal. apply le_number; [done|lia|].
  apply Z.bits_inj'. intros j Hj. rewrite Hbits, field_testbit by lia.
  rewrite (proj2 (Z.leb_le 0 j)), Z.add_0_l by lia. cbn [andb].
  destruct (Z.ltb_spec j n); [f_equal; lia|].
  assert (from_le_bytes (zeros k) = 0) as ->; [|apply Z.bits_0].
  unfold zeros. clear. induction (Z.to_nat k) as [|m IH]; [done|]. simpl replicate. rewrite from_le_cons. lia.
Qed.

Lemma signed_of_signed k v : 1 ≤ k → 0 ≤ v < 2 ^ (8 * k) → signed_of k v = signed (8 * k) v.
Proof.
  intros Hk Hv. unfold signed_of, signed.
  assert (2 ^ (8 * k) = 2 * 2 ^ (8 * k - 1)) as H2 by (rewrite <- Z.pow_succ_r by lia; f_equal; lia).
  destruct (Z.ltb_spec v (2 ^ (8 * k - 1))).
  - by rewrite (testbit_small v (8 * k - 1)) by lia.
  - assert (Z.testbit v (8 * k - 1) = true) as ->; [|done].
    apply Z.testbit_true; [lia|].
    rewrite <- (Z.div_unique_pos v (2 ^ (8 * k - 1)) 1 (v - 2 ^ (8 * k - 1))) by lia. done.
Qed.

Lemma signed_bounds n w : 1 ≤ n → 0 ≤ w < 2 ^ n → - 2 ^ (n - 1) ≤ signed n w < 2 ^ (n - 1).
Proof.
  intros Hn Hw. assert (2 ^ n = 2 * 2 ^ (n - 1)) as H2 by (rewrite <- Z.pow_succ_r by lia; f_equal; lia). unfold signed.
  destruct (Z.lt_ge_cases w (2 ^ (n - 1))).
  - rewrite (testbit_small w (n - 1)) by lia. lia.
  - assert (Z.testbit w (n - 1) = true) as ->; [|lia]. apply Z.testbit_true; [lia|].
    rewrite <- (Z.div_unique_pos w (2 ^ (n - 1)) 1 (w - 2 ^ (n - 1))) by lia. done.
Qed.

(** The received bits, sign-extended in [k] bytes. *)
Lemma extended_value k n w :
  1 ≤ k → 0 ≤ n ≤ 8 * k → 0 ≤ w < 2 ^ n →
  ∃ d, sign_extend_pdo_bits (to_le_bytes (Z.to_nat k) w) n = Ret d ∧ len d = k ∧ bytes d ∧
    signed_of k (from_le_bytes d) = signed n w.
Proof.
  intros Hk Hn Hw. assert (2 ^ n ≤ 2 ^ (8 * k)) as Hp by (apply Z.pow_le_mono_r; lia).
  assert (len (to_le_bytes (Z.to_nat k) w) = k) as Hl by (rewrite length_to_le; lia).
  assert (from_le_bytes (to_le_bytes (Z.to_nat k) w) = w) as Hf.
  { apply from_to_le_id. rewrite Z2Nat.id, pow_256 by lia. lia. }
  destruct (runs_inv _ _ (sign_extend_ok (to_le_bytes (Z.to_nat k) w) n (bytes_to_le _ _) ltac:(lia) ltac:(lia)))
    as (d & -> & Hld & Hbd & Hd). exists d. split; [done|]. split; [lia|]. split; [done|].
  pose proof (from_le_range d Hbd) as Hr. rewrite Hld, Hl, pow_256 in Hr by lia.
  rewrite signed_of_signed by lia. destruct (Z.eqb_spec n 0) as [->|Hz].
  - subst d. rewrite Hf. change (2 ^ 0) with 1 in Hw. assert (w = 0) as -> by lia. unfold signed. by rewrite !Z.bits_0.
  - by rewrite Hl, Hf in Hd.
Qed.

(** The top byte of a sign-extended 24-bit number. *)
Lemma extend_top_byte d x :
  bytes d → len d = 4 → - 2 ^ 23 ≤ x < 2 ^ 23 → signed_of 4 (from_le_bytes d) = x → 128 ≤ at_ d 2 →
  <[3%nat := 0xff]> d = d.
Proof.
  intros Hb Hl Hx Hs H2. destruct d as [|a [|b [|c [|e [|]]]]]; simpl in Hl; try lia.
  apply List.Forall_cons_iff in Hb as [Ha [Hb' [Hc [He _]%List.Forall_cons_iff]%List.Forall_cons_iff]%List.Forall_cons_iff].
  unfold is_uint in *. simpl in *. unfold at_ in H2. simpl in H2. unfold signed_of, from_le_bytes in Hs. simpl in Hs.
  change (2 ^ (8 * 4 - 1)) with 2147483648 in Hs. change (2 ^ (8 * 4)) with 4294967296 in Hs.
  change (2 ^ 23) with 8388608 in Hx. change (2 ^ 8) with 256 in *. assert (255 = e) as ->; [|done].
  destruct (Z.ltb_spec (a + 256 * (b + 256 * (c + 256 * (e + 256 * 0)))) 2147483648); lia.
Qed.

Lemma field_value_spec dt size n w :
  pdo_type dt = true → DataType.size dt = Some size → 0 ≤ n ≤ 8 * size → 0 ≤ w < 2 ^ n →
  field_value (type_string dt) n (to_le_bytes (Z.to_nat (repr_size size)) w) = Ret (received dt n w).
Proof.
  intros Hp Hs Hn Hw. pose proof (size_pos _ _ Hs) as Hsz.
  assert (2 ^ n ≤ 2 ^ (8 * size)) as Hpw by (apply Z.pow_le_mono_r; lia).
  assert (from_le_bytes (to_le_bytes (Z.to_nat (repr_size size)) w) = w) as Hf.
  { pose proof (repr_bounds _ Hsz). apply from_to_le_id. rewrite Z2Nat.id, pow_256 by lia. split; [lia|].
    apply (Z.lt_le_trans _ (2 ^ (8 * size))); [lia|]. apply Z.pow_le_mono_r; lia. }
  destruct dt; try done; simpl in Hs; injection Hs as <-; unfold field_value; cbn [type_string];
    try (change (repr_size ?k) with k in *; rewrite Hf; reflexivity).
  - change (to_le_bytes (Z.to_nat (repr_size 1)) w) with [w mod 256]. rewrite Z.mod_small by lia. done.
  - destruct (extended_value 1 n w) as (d & He & Hl & Hb & Hd); [lia..|]. change (repr_size 1) with 1. simpl bool_decide. cbv iota.
    rewrite He. rstep. rewrite Hl, Hd. done.
  - destruct (extended_value 2 n w) as (d & He & Hl & Hb & Hd); [lia..|]. change (repr_size 2) with 2. simpl bool_decide. cbv iota.
    rewrite He. rstep. rewrite Hl, Hd. done.
  - destruct (extended_value 4 n w) as (d & He & Hl & Hb & Hd); [lia..|]. change (repr_size 4) with 4. simpl bool_decide. cbv iota.
    rewrite He. rstep. rewrite Hl, Hd. done.
  - destruct (extended_value 4 n w) as (d & He & Hl & Hb & Hd); [lia..|]. change (repr_size 3) with 4. simpl bool_decide. cbv iota.
    replace (Z.min n 24) with n by lia. rewrite He. rstep.
    destruct d as [|a [|b [|c [|e [|]]]]] eqn:Hdd; simpl in Hl; try lia. cbn [lookup list_lookup unwrap]. rstep. 
    rewrite top_bit by (apply (proj1 (List.Forall_forall _ _) Hb); simpl; tauto).
    assert (- 2 ^ 23 ≤ signed n w < 2 ^ 23) as Hx.
    { destruct (Z.eq_dec n 0) as [->|]; [change (2 ^ 0) with 1 in Hw; assert (w = 0) as -> by lia; vm_compute; split; congruence|].
      pose proof (signed_bounds n w ltac:(lia) Hw). assert (2 ^ (n - 1) ≤ 2 ^ 23) by (apply Z.pow_le_mono_r; lia). lia. }
    destruct (Z.ltb_spec c 128) as [Hc|Hc]; cbn [negb]; rstep.
    + change (len [a; b; c; e]) with 4. by rewrite Hd.
    + rewrite (extend_top_byte [a; b; c; e] (signed n w) Hb Hl Hx Hd Hc). change (len [a; b; c; e]) with 4. by rewrite Hd.
  - change (repr_size 3) with 4 in *. rewrite Hf. reflexivity.
Qed.

(** ** The fields of a mapping *)

Section fields.
Context {Expr : Type} (flat : list (FlatEntry Expr)).
Implicit Types (fs : list (MappedField Expr)) (ms : list ResolvedMapping).

Definition mf_dt (f : MappedField Expr) : DataType := dt_of (mf_type f).

(** The field a mapping becomes, at bit [off]: the entry [x] of [size] bytes. *)
Record field_at (off : Z) (m : ResolvedMapping) (f : MappedField Expr) (x : FlatEntry Expr) (size : Z) : Prop := {
  fa_dummy : is_dummy_mapping_index (rm_index m) = false;
  fa_in : In x flat;
  fa_index : fl_index x = rm_index m;
  fa_subindex : fl_subindex x = rm_subindex m;
  fa_field : f = mkMappedField (fl_name x) (fl_var x) off (rm_bit_length m);
  fa_type : mf_type f = type_string (mf_dt f);
  fa_pdo : pdo_type (mf_dt f) = true;
  fa_size : DataType.size (mf_dt f) = Some size;
  fa_bits : rm_bit_length m ≤ 8 * size;
}.

Inductive fields_of : Z → list ResolvedMapping → list (MappedField Expr) → Prop :=
| fields_nil off : fields_of off [] []
| fields_dummy off m ms fs :
    is_dummy_mapping_index (rm_index m) = true → fields_of (off + rm_bit_length m) ms fs → fields_of off (m :: ms) fs
| fields_cons off m ms f x size fs :
    field_at off m f x size → fields_of (off + rm_bit_length m) ms fs → fields_of off (m :: ms) (f :: fs).

Lemma mapped_field_spec fs off m fs' :
  mapped_field flat fs off m = Ok fs' →
  (is_dummy_mapping_index (rm_index m) = true ∧ fs' = fs) ∨
  ∃ f x size, field_at off m f x size ∧ fs' = fs ++ [f] ∧ ¬ In (mf_name f) (map mf_name fs).
Proof.
  unfold mapped_field. destruct (in_range 1 7 (rm_index m)) eqn:Hd; [intros [= <-]; by left|].
  destruct (List.find _ flat) as [x|] eqn:Hx; [|done]. apply List.find_some in Hx as [Hin [Hi Hs]%andb_true_iff].
  destruct (wire_bits _) as [ob|] eqn:Hw; [|done]. apply wire_bits_Ok in Hw as (dt & n & Hdt & Hty & Hp & Hn & ->).
  destruct (Z.ltb_spec (8 * n) (rm_bit_length m)); [done|]. destruct (existsb _ fs) eqn:He; [done|]. intros [= <-]. right.
  eexists _, x, n. split; [|split; [done|]].
  - assert (dt_of (type_name (fl_var x)) = dt) as Hdt' by (unfold dt_of; by rewrite Hdt).
    split; try done; unfold mf_dt, mf_type; simpl; rewrite ?Hdt'; (done || lia).
  - intros (f & Hf & Hinf)%List.in_map_iff. apply not_true_iff_false in He. apply He, existsb_exists. exists f.
    split; [done|]. by apply bool_decide_eq_true.
Qed.

Lemma mapped_fields_loop_spec ms fs off fs' :
  mapped_fields_loop flat fs off ms = Ok fs' → NoDup (map mf_name fs) →
  NoDup (map mf_name fs') ∧ ∃ fs1, fs' = fs ++ fs1 ∧ fields_of off ms fs1.
Proof.
  revert fs off. induction ms as [|m ms IH]; intros fs off; cbn [mapped_fields_loop].
  { intros [= <-] Hn. split; [done|]. exists []. split; [by rewrite app_nil_r|constructor]. }
  destruct (mapped_field _ _ _ _) as [fs1|] eqn:Hf; [|done]. intros H Hn.
  apply mapped_field_spec in Hf as [[Hd ->]|(f & x & size & Hat & -> & Hnin)].
  - destruct (IH _ _ H Hn) as (Hn' & fs1 & -> & Hfs). split; [done|]. exists fs1. split; [done|]. by constructor.
  - destruct (IH _ _ H) as (Hn' & fs1 & -> & Hfs).
    { rewrite map_app. apply list.NoDup_app. split; [done|]. split; [|apply NoDup_singleton].
      intros y Hy Hy'. apply list_elem_of_singleton in Hy'. subst y. by apply list_elem_of_In in Hy. }
    split; [done|]. exists (f :: fs1). split; [by rewrite <- app_assoc|]. by econstructor.
Qed.

Lemma mapped_fields_spec ms fs : mapped_fields flat ms = Ok fs → fields_of 0 ms fs ∧ NoDup (map mf_name fs).
Proof.
  intros H. apply mapped_fields_loop_spec in H as (Hn & fs1 & -> & Hf); [by split|]. apply base.NoDup_nil_2.
Qed.

(** *** The payload as a number *)

Definition wire_field (v : list Z → Value) (f : MappedField Expr) : Z := wire (mf_dt f) (v (mf_name f)) mod 2 ^ mf_bits f.

(** The fields of [v], placed over [acc]. *)
Fixpoint image (v : list Z → Value) fs (acc : Z) : Z :=
  match fs with [] => acc | f :: fs => image v fs (acc + wire_field v f * 2 ^ mf_offset f) end.

Definition wf_resolved (m : ResolvedMapping) : Prop := is_u16 (rm_index m) ∧ is_u8 (rm_subindex m) ∧ is_u8 (rm_bit_length m).

Lemma wire_field_range v f : 0 ≤ mf_bits f → 0 ≤ wire_field v f < 2 ^ mf_bits f.
Proof. intros. apply Z.mod_pos_bound. by apply Z.pow_pos_nonneg. Qed.

Lemma total_nonneg ms : Forall wf_resolved ms → 0 ≤ Eds.total_bits ms.
Proof. intros H. induction H as [|m ms (_ & _ & Hm) _ IH]; simpl; [done|]. unfold is_uint in Hm. lia. Qed.

Lemma mod_mod_low z a b : 0 ≤ a → 0 ≤ b → z mod 2 ^ (a + b) mod 2 ^ a = z mod 2 ^ a.
Proof.
  intros Ha Hb. apply Z.bits_inj'. intros k Hk. destruct (Z.lt_ge_cases k a).
  - by rewrite !Z.mod_pow2_bits_low by lia.
  - by rewrite !Z.mod_pow2_bits_high by lia.
Qed.

Lemma range_grow acc off n : 0 ≤ acc < 2 ^ off → 0 ≤ off → 0 ≤ n → 0 ≤ acc < 2 ^ (off + n).
Proof. intros. split; [lia|]. apply (Z.lt_le_trans _ (2 ^ off)); [lia|]. apply Z.pow_le_mono_r; lia. Qed.

Lemma image_spec v off ms fs acc :
  fields_of off ms fs → Forall wf_resolved ms → 0 ≤ off → 0 ≤ acc < 2 ^ off →
  0 ≤ image v fs acc < 2 ^ (off + Eds.total_bits ms) ∧ image v fs acc mod 2 ^ off = acc ∧
  Forall (λ f, 0 ≤ mf_offset f ∧ 0 ≤ mf_bits f ∧ mf_offset f + mf_bits f ≤ off + Eds.total_bits ms
               ∧ PdoMapped.field (image v fs acc) (mf_offset f) (mf_bits f) = wire_field v f) fs.
Proof.
  intros Hf. revert acc. induction Hf as [off|off m ms fs Hd _ IH|off m ms f x size fs Hat Hfs IH]; intros acc Hwf Ho Hacc; simpl.
  - rewrite Z.add_0_r. split; [done|]. split; [by apply Z.mod_small|apply List.Forall_nil].
  - apply List.Forall_cons_iff in Hwf as [(_ & _ & Hm) Hwf]. unfold is_uint in Hm. rewrite Z.add_assoc.
    destruct (IH acc) as (Hr & Hlow & Hall); [done|lia|apply range_grow; lia|]. split; [done|]. split; [|done].
    rewrite <- (mod_mod_low _ off (rm_bit_length m)), Hlow by lia. by apply Z.mod_small.
  - apply List.Forall_cons_iff in Hwf as [(_ & _ & Hm) Hwf]. unfold is_uint in Hm. rewrite Z.add_assoc.
    assert (mf_offset f = off ∧ mf_bits f = rm_bit_length m) as [Hoff Hbits] by (by rewrite (fa_field _ _ _ _ _ Hat)).
    rewrite Hoff.
    pose proof (wire_field_range v f ltac:(lia)) as Hw. rewrite Hbits in Hw.
    destruct (IH (acc + wire_field v f * 2 ^ off)) as (Hr & Hlow & Hall); [done|lia|apply append_range; lia|].
    pose proof (total_nonneg ms Hwf). split; [done|]. split.
    + rewrite <- (mod_mod_low _ off (rm_bit_length m)), Hlow, Z.mod_add by lia. by apply Z.mod_small.
    + apply List.Forall_cons; [|done]. rewrite Hoff, Hbits. split; [lia|]. split; [lia|]. split; [lia|].
      rewrite (field_of_image acc (wire_field v f)); [by apply Z.mod_small|lia..|].
      unfold PdoMapped.field. rewrite Z.shiftr_0_r, (Z.mod_small (wire_field v f)), Hlow by lia.
      symmetry. apply Z.mod_small, append_range; lia.
Qed.

(** *** Encoding *)

Lemma low_bits k n z : 0 ≤ n ≤ 8 * k → PdoMapped.field (from_le_bytes (to_le_bytes (Z.to_nat k) z)) 0 n = z mod 2 ^ n.
Proof.
  intros Hn. unfold PdoMapped.field. rewrite Z.shiftr_0_r, from_to_le, Z2Nat.id, pow_256 by lia.
  replace (8 * k) with (n + (8 * k - n)) by lia. apply mod_mod_low; lia.
Qed.

(** What a value's bytes say of it. *)
Record value_bytes (dt : DataType) (size : Z) (v : Value) (obj : list Z) : Prop := {
  vb_bytes : bytes obj;
  vb_len : size ≤ len obj;
  vb_low : ∀ n, 0 ≤ n ≤ 8 * size → PdoMapped.field (from_le_bytes obj) 0 n = wire dt v mod 2 ^ n;
}.

Lemma value_bytes_le dt size k v :
  DataType.size dt = Some size → dt ≠ Boolean → size ≤ k → value_bytes dt size v (to_le_bytes (Z.to_nat k) (num v)).
Proof.
  intros Hs Hb Hk. pose proof (size_pos _ _ Hs). split; [apply bytes_to_le|rewrite length_to_le; lia|].
  intros n Hn. unfold wire. rewrite bool_decide_eq_false_2 by done. apply low_bits. lia.
Qed.

Lemma object_value_bytes dt size v :
  pdo_type dt = true → DataType.size dt = Some size → value_bytes dt size v (object_bytes (type_string dt) v).
Proof.
  intros Hp Hs. pose proof (size_pos _ _ Hs) as Hsz. destruct (decide (dt = Boolean)) as [->|Hb].
  - injection Hs as <-. change (object_bytes _ v) with [if truth v then 1 else 0]. split; [|simpl; lia|].
    + apply List.Forall_cons; [destruct (truth v); unfold is_uint; lia|apply List.Forall_nil].
    + intros n Hn. unfold PdoMapped.field, from_le_bytes, wire. rewrite Z.shiftr_0_r. simpl. f_equal. lia.
  - assert (object_bytes (type_string dt) v = to_le_bytes (Z.to_nat (repr_size size)) (num v)) as ->.
    { unfold object_bytes. rewrite (repr_string _ _ Hs). by destruct dt; simpl in Hs; simplify_eq. }
    apply value_bytes_le; [done|done|]. by apply repr_bounds.
Qed.

Lemma encode_fields_image payload off ms fs acc :
  fields_of off ms fs → Forall wf_resolved ms → 0 ≤ off → off + Eds.total_bits ms ≤ 64 → 0 ≤ acc < 2 ^ off →
  encode_fields payload fs (to_le_bytes 8 acc) = Ret (to_le_bytes 8 (image (assoc (VNum 0) payload) fs acc)).
Proof.
  intros Hf. revert acc. induction Hf as [off|off m ms fs Hd _ IH|off m ms f x size fs Hat Hfs IH]; intros acc Hwf Ho Ht Hacc; [done|..];
    apply List.Forall_cons_iff in Hwf as [(_ & _ & Hm) Hwf]; unfold is_uint in Hm; simpl in Ht; pose proof (total_nonneg ms Hwf).
  - apply IH; [done|lia|lia|]. apply range_grow; lia.
  - assert (mf_offset f = off ∧ mf_bits f = rm_bit_length m) as [Hoff Hbits] by (by rewrite (fa_field _ _ _ _ _ Hat)).
    pose proof (fa_bits _ _ _ _ _ Hat) as Hb. pose proof (wire_field_range (assoc (VNum 0) payload) f ltac:(lia)) as Hw.
    destruct (object_value_bytes (mf_dt f) size (assoc (VNum 0) payload (mf_name f)) (fa_pdo _ _ _ _ _ Hat) (fa_size _ _ _ _ _ Hat))
      as [Hvb Hvl Hv].
    cbn [encode_fields image]. unfold encode_field. rewrite (fa_type _ _ _ _ _ Hat), Hoff, Hbits in *.
    rewrite (copy_append _ acc) by (done || lia). rstep. rewrite Hv by lia.
    change (wire _ _ mod _) with (wire (mf_dt f) (assoc (VNum 0) payload (mf_name f)) mod 2 ^ rm_bit_length m).
    unfold wire_field in *. rewrite Hbits in *. apply IH; [done|lia|lia|]. apply append_range; lia.
Qed.

(** *** Decoding *)

(** The values in the number [y]. *)
Definition received_fields (y : Z) fs : Payload :=
  map (λ f, (mf_name f, received (mf_dt f) (mf_bits f) (PdoMapped.field y (mf_offset f) (mf_bits f)))) fs.

Lemma decode_fields off ms fs data :
  fields_of off ms fs → Forall wf_resolved ms → bytes data → 0 ≤ off → off + Eds.total_bits ms ≤ 8 * len data →
  for_each (λ f, decode_field f data) fs = Ret (received_fields (from_le_bytes data) fs).
Proof.
  intros Hf Hwf Hd. induction Hf as [off|off m ms fs _ _ IH|off m ms f x size fs Hat Hfs IH]; intros Ho Ht; [done|..];
    apply List.Forall_cons_iff in Hwf as [(_ & _ & Hm) Hwf]; unfold is_uint in Hm; simpl in Ht; pose proof (total_nonneg ms Hwf).
  - apply IH; [done|lia|lia].
  - assert (mf_offset f = off ∧ mf_bits f = rm_bit_length m) as [Hoff Hbits] by (by rewrite (fa_field _ _ _ _ _ Hat)).
    pose proof (fa_bits _ _ _ _ _ Hat) as Hb. pose proof (fa_size _ _ _ _ _ Hat) as Hs. pose proof (size_pos _ _ Hs) as Hsz.
    pose proof (repr_bounds _ Hsz). cbn [for_each received_fields map].
    assert (decode_field f data = Ret (mf_name f, received (mf_dt f) (mf_bits f) (PdoMapped.field (from_le_bytes data) (mf_offset f) (mf_bits f)))) as ->.
    { unfold decode_field. rewrite (fa_type _ _ _ _ _ Hat), (repr_string _ _ Hs), Hoff, Hbits.
      rewrite copy_to_zeros_n by (done || lia). rstep.
      rewrite (field_value_spec _ size) by (first [exact (fa_pdo _ _ _ _ _ Hat)|exact Hs|lia|apply field_range; lia]). done. }
    rstep. rewrite IH by (done || lia). done.
Qed.

Lemma received_image v off ms fs acc :
  fields_of off ms fs → Forall wf_resolved ms → 0 ≤ off → 0 ≤ acc < 2 ^ off →
  received_fields (image v fs acc) fs = map (λ f, (mf_name f, transmitted (mf_dt f) (mf_bits f) (v (mf_name f)))) fs.
Proof.
  intros Hf Hwf Ho Hacc. apply List.map_ext_in. intros f Hin.
  destruct (image_spec v off ms fs acc Hf Hwf Ho Hacc) as (_ & _ & Hall).
  pose proof (proj1 (List.Forall_forall _ _) Hall f Hin) as (_ & _ & _ & ->). done.
Qed.
End fields.
