(* ===== verification/PdoClientDevice.v ===== *)
(** * Device and client generated from one definition agree

    The frame a generated device builds for a TPDO decodes, in the generated
    client, to the values of the mapped fields of its dictionary; the frame the
    client encodes for an RPDO sets them. *)
From S2P Require Import Prelude Text Frame Od SdoProtocol SdoServer PdoBits PdoEngine PdoMapped Node Eds Gen GenSpec GenTable GenFacts GenNode PdoClient PdoClientSpec.

(** ** Access *)

Section access.
Context {Expr : Type}.
Implicit Types (entries : list (OdEntry Expr)).

Lemma find_app {A} (p : A → bool) l k :
  List.find p (l ++ k) = match List.find p l with Some x => Some x | None => List.find p k end.
Proof. induction l as [|x l IH]; simpl; [done|]. by destruct (p x). Qed.

Lemma find_map {A B} (f : A → B) (p : B → bool) l : List.find p (map f l) = f <$> List.find (λ x, p (f x)) l.
Proof. induction l as [|x l IH]; simpl; [done|]. by destruct (p (f x)). Qed.

Lemma find_access entries name :
  find_var_access entries name =
  (λ e, vd_access (fl_var e)) <$> List.find (λ e, bool_decide (fl_name e = name)) (flatten entries).
Proof.
  induction entries as [|e l IH]; [done|]. unfold flatten in *. simpl flat_map. rewrite find_app. simpl. rewrite IH.
  unfold access_of, flatten_entry. destruct (oe_kind e) as [v|subs|]; simpl; [by case_bool_decide| |done].
  rewrite find_map. simpl. by destruct (List.find _ subs).
Qed.

Lemma check_access_mapping entries pdos pdo m :
  check_access entries pdos = Ok tt → In pdo pdos → In m (pd_mappings pdo) →
  mapping_access_bad entries (pd_direction pdo) m = false.
Proof.
  induction pdos as [|p l IH]; [done|]. simpl. destruct (List.find _ (pd_mappings p)) eqn:Hf; [done|].
  intros H [->|Hin] Hm; [|by apply IH]. by apply (List.find_none _ _ Hf).
Qed.
End access.

(** What a device does with a mapped object of an access. *)
Definition mapped_access (dir : PdoDirection) (a : AccessKind) : Prop :=
  match dir with DirTpdo => a ≠ AccWo | DirRpdo => a ≠ AccRo ∧ a ≠ AccConst end.

(** Raw mapping values, which the generators do not check against the
    dictionary, name only dummies. *)
Definition raw_dummies (pdo : PdoDef) : Prop :=
  Forall (λ m, ∀ r, raw_mapping m = Some r → is_dummy_mapping_index (as_u16 (Z.shiftr r 16)) = true) (pd_mappings pdo).

Definition mapping_of (r : ResolvedMapping) : PdoMapping := mkMapping (rm_index r) (rm_subindex r) (rm_bit_length r).

(** [self.name = v] for each value of a payload. *)
Definition set_all (l : Payload) (d : Dict) : Dict := foldl (λ d p, set_field (fst p) (snd p) d) d l.

Lemma set_all_other l (d : Dict) name : ¬ In name (map fst l) → field (set_all l d) name = field d name.
Proof.
  revert d. induction l as [|[n v] l IH]; intros d Hn; [done|]. simpl in Hn. cbn [set_all foldl fst snd].
  change (foldl _ ?x l) with (set_all l x). rewrite IH by tauto. apply assoc_set_other. tauto.
Qed.

Lemma set_all_in l (d : Dict) name v :
  NoDup (map fst l) → In (name, v) l → In name (map fst (d_fields d)) → field (set_all l d) name = v.
Proof.
  revert d. induction l as [|[n w] l IH]; intros d Hn Hin Hd; [done|]. simpl in Hn. apply list.NoDup_cons in Hn as [Hnin Hn].
  cbn [set_all foldl fst snd]. change (foldl _ ?x l) with (set_all l x). destruct Hin as [[= -> ->]|Hin].
  - rewrite set_all_other by (by rewrite <- list_elem_of_In). by apply assoc_set_same.
  - apply IH; [done|done|]. simpl. by rewrite assoc_set_fst.
Qed.

Section device.
Context {Expr : Type} (eval : list Z → Expr → Value) (eval_string : Expr → list Z) (eds : list Z).
Context (od : OdDefinition Expr) (g : Generated Expr).
Context (Htyped : od_typed od) (Hvalid : validate od = Ok tt) (Hret : generate eval eval_string eds od = Ret g).
Context (validate_fn : list Z → Dict → Z → Z → list Z → result unit OdError).

#[local] Instance device_od : ObjectDictionary (DictOf g) := generated_od g validate_fn.
#[local] Instance device_laws : OdLaws (DictOf g) := generated_laws g validate_fn.

Abbreviation flat := (flatten (od_entries od)).
Abbreviation at_addr := (row_at eds od g).

Lemma flat_at x : In x flat → at_addr (fl_index x) (fl_subindex x) = Some (flat_ent (use_alloc od) x).
Proof using Htyped Hvalid Hret. exact (flat_row _ _ _ _ _ Htyped Hvalid Hret x). Qed.

Lemma same_address x y :
  In x flat → In y flat → fl_index x = fl_index y → fl_subindex x = fl_subindex y → fl_name x = fl_name y.
Proof using Htyped Hvalid Hret.
  intros Hx Hy Hi Hs. pose proof (flat_at x Hx) as Ex. rewrite Hi, Hs, (flat_at y Hy) in Ex. by injection Ex.
Qed.

Lemma name_unique x y : In x flat → In y flat → fl_name x = fl_name y → x = y.
Proof using Htyped.
  intros Hx Hy Hn. pose proof (ot_names _ Htyped) as Hnd. apply list.NoDup_app in Hnd as (Hnd & _).
  apply list_elem_of_In, list_elem_of_lookup in Hx as [i Hi], Hy as [j Hj].
  assert (i = j) as -> by (apply (NoDup_lookup _ i j (fl_name x) Hnd); rewrite list_lookup_fmap; [by rewrite Hi|by rewrite Hj, Hn]).
  congruence.
Qed.

(** Mapped fields may be accessed the way their PDO does. *)
Lemma field_access pdo ms off fs :
  In pdo (od_pdos od) → raw_dummies pdo → resolve_pdo_mappings pdo flat = Ret ms →
  (∀ r, In r ms → ∃ m, In m (pd_mappings pdo) ∧ resolve_mapping_def flat m = Ret r) →
  fields_of flat off ms fs →
  Forall (λ f, mapped_access (pd_direction pdo) (vd_access (mf_var f))) fs.
Proof using Htyped Hvalid Hret.
  intros Hp Hraw _ Hms Hf. induction Hf as [off|off m ms fs Hd _ IH|off m ms f x size fs Hat _ IH]; [apply List.Forall_nil|..].
  { apply IH. intros r Hr. apply Hms. by right. }
  apply List.Forall_cons; [|apply IH; intros r Hr; apply Hms; by right].
  destruct (Hms m) as (d & Hd & Hr); [by left|]. destruct (raw_mapping d) as [w|] eqn:Hw.
  - pose proof (proj1 (List.Forall_forall _ _) Hraw _ Hd w Hw) as Hdum. pose proof (fa_dummy _ _ _ _ _ _ Hat) as Hnd.
    unfold resolve_mapping_def in Hr. rewrite Hw in Hr. injection Hr as <-. simpl in Hnd. congruence.
  - destruct (resolve_named od d m Hw Hr) as (y & Hy & _ & Hi & Hs). pose proof (List.find_some _ _ Hy) as [Hin _].
    assert (x = y) as ->.
    { apply name_unique; [apply Hat|done|]. apply same_address; [apply Hat|done|..].
      - by rewrite (fa_index _ _ _ _ _ _ Hat). - by rewrite (fa_subindex _ _ _ _ _ _ Hat). }
    rewrite (fa_field _ _ _ _ _ _ Hat). simpl.
    pose proof (check_access_mapping _ _ _ _ (proj2 (valid_access _ Hvalid)) Hp Hd) as Hbad. unfold mapping_access_bad in Hbad.
    rewrite Hw, find_access, Hy in Hbad. simpl in Hbad. unfold mapped_access.
    destruct (pd_direction pdo); [by apply bool_decide_eq_false in Hbad|].
    apply orb_false_iff in Hbad as [H1%bool_decide_eq_false H2%bool_decide_eq_false]. done.
Qed.

(** ** Reading a mapped field *)

Lemma from_le_zeros n : from_le_bytes (replicate n 0) = 0.
Proof using Type. induction n as [|n IH]; [done|]. simpl replicate. rewrite from_le_cons. lia. Qed.

Lemma from_le_app_zeros l n : from_le_bytes (l ++ replicate n 0) = from_le_bytes l.
Proof using Type.
  induction l as [|x l IH]; [apply from_le_zeros|]. simpl app. rewrite !from_le_cons. lia.
Qed.

Lemma encode_value_bytes dt size v : DataType.size dt = Some size → value_bytes dt size v (encode dt v) ∧ len (encode dt v) = size.
Proof using Type.
  intros Hs. pose proof (size_pos _ _ Hs) as Hsz. unfold encode. rewrite Hs. destruct (decide (dt = Boolean)) as [->|Hb].
  - injection Hs as <-. rewrite bool_decide_eq_true_2 by done. split; [|done]. split; [|simpl; lia|].
    + apply List.Forall_cons; [destruct (truth v); unfold is_uint; lia|apply List.Forall_nil].
    + intros n Hn. unfold PdoMapped.field, from_le_bytes, wire. rewrite Z.shiftr_0_r. simpl. f_equal. lia.
  - rewrite bool_decide_eq_false_2 by done. split; [|rewrite length_to_le; lia]. by apply value_bytes_le.
Qed.

Lemma padded_value_bytes dt size v obj :
  value_bytes dt size v obj → len obj = size → size ≤ 8 → value_bytes dt size v (overwrite (zeros 8) obj).
Proof using Type.
  intros [Hb Hl Hv] Hn Hs.
  assert (overwrite (zeros 8) obj = obj ++ replicate (8 - length obj) 0) as ->.
  { unfold overwrite, zeros. rewrite length_replicate, take_ge, drop_replicate by lia. f_equal. }
  split.
  - apply bytes_app; [done|]. apply Forall_replicate. by unfold is_uint.
  - rewrite length_app. lia.
  - intros n Hn'. rewrite from_le_app_zeros. by apply Hv.
Qed.

Lemma read_field (d : DictOf g) off m f x size :
  dict_ok (g_new g) d → field_at flat off m f x size → mapped_access DirTpdo (vd_access (mf_var f)) →
  ∃ obj, od_read d (rm_index m) (rm_subindex m) (zeros 8) = (obj, Ok size) ∧
    value_bytes (mf_dt f) size (field d (mf_name f)) obj.
Proof using Htyped Hvalid Hret.
  intros Hd Hat Ha. pose proof (fa_size _ _ _ _ _ _ Hat) as Hs. pose proof (size_pos _ _ Hs) as Hsz.
  destruct (encode_value_bytes (mf_dt f) size (field d (mf_name f)) Hs) as [Hvb Hl].
  pose proof (padded_value_bytes _ _ _ _ Hvb Hl ltac:(lia)) as Hpad. eexists. split; [|exact Hpad].
  cbn [od_read device_od generated_od]. rewrite (read_row _ _ _ _ _ Htyped Hvalid Hret) by done.
  rewrite <- (fa_index _ _ _ _ _ _ Hat), <- (fa_subindex _ _ _ _ _ _ Hat), flat_at by apply Hat.
  pose proof (fa_field _ _ _ _ _ _ Hat) as Hf. unfold ref_read, flat_ent. cbn [plain e_meta e_loc access entry_meta data_type get_loc].
  assert (default U8 (type_to_datatype (type_name (fl_var x))) = mf_dt f) as -> by (by rewrite Hf).
  assert (fl_name x = mf_name f) as -> by (by rewrite Hf).
  assert (fl_var x = mf_var f) as -> by (by rewrite Hf). simpl in Ha.
  rewrite bool_decide_eq_false_2 by (by destruct (vd_access (mf_var f))).
  rewrite Hl, (proj2 (Z.ltb_ge _ _)) by (change (len (zeros 8)) with 8; lia).
  apply typed_read_id; [by rewrite overwrite_len by (rewrite Hl; change (len (zeros 8)) with 8; lia)|apply Hpad| |done].
  intros k [= <-]. change (len (zeros 8)) with 8. lia.
Qed.

(** The device's TPDO payload as a number. *)
Lemma device_image (d : DictOf g) off ms fs acc :
  dict_ok (g_new g) d → fields_of flat off ms fs → Forall wf_resolved ms → 0 ≤ off → off + Eds.total_bits ms ≤ 64 →
  0 ≤ acc < 2 ^ off → Forall (λ f, mapped_access DirTpdo (vd_access (mf_var f))) fs →
  tpdo_image d (map mapping_of ms) off acc = Some (image (field d) fs acc, off + Eds.total_bits ms).
Proof using Htyped Hvalid Hret.
  intros Hd Hf. revert acc. induction Hf as [off|off m ms fs Hdum _ IH|off m ms f x size fs Hat Hfs IH];
    intros acc Hwf Ho Ht Hacc Ha; [simpl; by rewrite Z.add_0_r|..];
    apply List.Forall_cons_iff in Hwf as [(_ & _ & Hm) Hwf]; unfold is_uint in Hm; simpl in Ht; pose proof (total_nonneg ms Hwf);
    cbn [tpdo_image map mapping_of pm_index pm_subindex bit_length Eds.total_bits foldr]; rewrite Z.add_assoc;
    change (foldr (λ m n, rm_bit_length m + n) 0 ms) with (Eds.total_bits ms);
    rewrite (proj2 (Z.ltb_ge _ _)) by lia.
  - rewrite Hdum. apply IH; [done|lia|lia| |done]. apply range_grow; lia.
  - apply List.Forall_cons_iff in Ha as [Ha Has]. rewrite (fa_dummy _ _ _ _ _ _ Hat).
    assert (mf_offset f = off ∧ mf_bits f = rm_bit_length m) as [Hoff Hbits] by (by rewrite (fa_field _ _ _ _ _ _ Hat)).
    destruct (read_field d off m f x size Hd Hat Ha) as (obj & -> & [_ _ Hv]).
    pose proof (fa_bits _ _ _ _ _ _ Hat) as Hb. rewrite (proj2 (Z.ltb_ge _ _)) by lia. rewrite Hv by lia.
    pose proof (wire_field_range (field d) f ltac:(lia)) as Hw. cbn [image]. rewrite Hoff.
    unfold wire_field in *. rewrite Hbits in *. apply IH; [done|lia|lia| |done]. apply append_range; lia.
Qed.

(** ** Identifiers *)

Definition predefined_base (dir : PdoDirection) : Z := match dir with DirTpdo => 0x180 | DirRpdo => 0x200 end.

Lemma land_small_mask x : 0 ≤ x → Z.land x 0x3fffffff ≤ 0x7ff → Z.land x 0x7ff = Z.land x 0x3fffffff ∧ as_u16 x = Z.land x 0x3fffffff.
Proof using Type.
  intros Hx Hle. change 0x3fffffff with (Z.ones 30) in *. change 0x7ff with (Z.ones 11) in Hle |- *. rewrite !Z.land_ones in * by lia.
  change (Z.ones 11) with 2047 in Hle. unfold wrap. pose proof (Z.mod_pos_bound x (2 ^ 30) ltac:(lia)).
  rewrite <- (mod_mod_low x 11 19), <- (mod_mod_low x 16 14) by lia. change (2 ^ (11 + 19)) with (2 ^ 30).
  change (2 ^ (16 + 14)) with (2 ^ 30). rewrite !(Z.mod_small (x mod 2 ^ 30)) by lia. done.
Qed.

(** The device and the client resolve the identifier alike, unless the EDS
    says 0, which the device takes for its predefined identifier. *)
Lemma cob_id_agrees (c : ClientPdo Expr) pdo id r :
  In pdo (od_pdos od) → pd_cob_id pdo ≠ Some (Absolute 0) → cob_id_expr pdo = Ok (cp_cob c) → 1 ≤ id ≤ 127 →
  config_cob (predefined_base (pd_direction pdo)) pdo (stored_default (pd_cob_id pdo)) id = Ret r →
  cob_id c id = Ret r ∧ 0 ≤ r ≤ 0x7FF.
Proof using Htyped.
  intros Hp H0 Hc Hid Hr. destruct (proj1 (List.Forall_forall _ _) (ot_pdos _ Htyped) _ Hp) as (Hn & _ & _ & _ & Hw).
  assert (∀ raw, 0 ≤ raw ≤ 0x7ff → as_u16 raw = raw) as Hu by (intros; apply wrap_id; unfold is_uint; lia).
  assert (∀ raw, 0 ≤ raw ≤ 0x7ff → unwrap (CobId.new raw) = Ret raw) as Hnew
    by (intros raw Hraw; unfold CobId.new; by rewrite (proj2 (Z.leb_le _ _)) by lia).
  assert (∀ z, 0 ≤ z ≤ 0x7ff → checked 16 z = Ret z) as Hck by (intros; apply checked_ret; unfold is_uint; lia).
  unfold cob_id_expr, effective_cob_id_spec in Hc. unfold config_cob, default_cob, stored_default in Hr. unfold cob_id.
  destruct (pd_cob_id pdo) as [[raw|base]|]; simpl mask_cob_id_flags in Hc.
  - destruct (negb (Z.land (Z.land raw 0x3fffffff) 0x20000000 =? 0)); [done|].
    destruct (Z.leb_spec (Z.land raw 0x3fffffff) 0x7ff) as [Hle|]; [|done]. injection Hc as <-.
    unfold is_uint in Hw. pose proof (land_small_mask raw ltac:(lia) Hle) as [Hl _].
    assert (0 ≤ Z.land raw 0x3fffffff) by (apply Z.land_nonneg; lia).
    destruct (Z.eqb_spec raw 0) as [->|]; [done|]. rewrite Hl, Hu in Hr by lia. injection Hr as <-.
    rewrite Hu by lia. rstep. by rewrite Hnew.
  - destruct (negb (Z.land (Z.land base 0x3fffffff) 0x20000000 =? 0)); [done|].
    destruct (Z.leb_spec (Z.land base 0x3fffffff + 127) 0x7ff) as [Hle|]; [|done]. injection Hc as <-.
    unfold is_uint in Hw. pose proof (land_small_mask base ltac:(lia) ltac:(lia)) as [_ Hl].
    assert (0 ≤ Z.land base 0x3fffffff) by (apply Z.land_nonneg; lia).
    change (0 =? 0) with true in Hr. cbv iota in Hr. rewrite Hl, Hck in Hr by lia. injection Hr as <-.
    rewrite Hu, Hck by lia. rstep. rewrite Hnew by lia. split; [done|lia].
  - unfold in_range in Hc. destruct (Z.leb_spec 1 (pd_number pdo)), (Z.leb_spec (pd_number pdo) 4); simpl in Hc; try done.
    change (0 =? 0) with true in Hr. cbv iota in Hr.
    set (b := predefined_base (pd_direction pdo)) in *.
    assert (0x180 ≤ b ≤ 0x200) as Hb by (unfold b, predefined_base; destruct (pd_direction pdo); lia).
    change (match pd_direction pdo with DirTpdo => 384 | DirRpdo => 512 end) with b in Hc.
    rewrite Hck in Hr by lia. injection Hr as <-.
    destruct (negb (Z.land (b + (pd_number pdo - 1) * 0x100) 0x20000000 =? 0)); [done|].
    destruct (Z.leb_spec (b + (pd_number pdo - 1) * 0x100 + 127) 0x7ff); [|done]. injection Hc as <-.
    rewrite Hu, Hck by lia. rstep. rewrite Hnew by lia. split; [done|lia].
Qed.

(** ** Configurations *)

Lemma new_cob dir k pdo :
  pdo_defs dir od !! k = Some pdo → at_ (f_cob_id (pdo_fields dir (g_new g))) k = stored_default (pd_cob_id pdo).
Proof using Hret.
  intros Hk. pose proof (new_pdo _ _ _ _ _ _ _ (generated _ _ _ _ _ Hret) dir) as Hp. unfold pdo_defaults in Hp.
  apply bind_Ret_inv in Hp as (rows & _ & [= <-]). simpl. unfold at_. apply nth_lookup_Some. by rewrite list_lookup_fmap, Hk.
Qed.

Lemma mapping_of_raw r : wf_resolved r → PdoMapping.from_mapping_value (raw r) = mapping_of r.
Proof using Type. intros (Hi & Hs & Hb). destruct r. by apply from_raw. Qed.

(** The facts about one PDO that its codecs need. *)
Record mapped_pdo (pdo : PdoDef) (ms : list ResolvedMapping) : Prop := {
  mp_in : In pdo (od_pdos od);
  mp_wf : Forall wf_resolved ms;
  mp_total : Eds.total_bits ms ≤ 64;
  mp_source : ∀ r, In r ms → ∃ m, In m (pd_mappings pdo) ∧ resolve_mapping_def flat m = Ret r;
}.

Lemma resolved_pdo dir k pdo ms :
  pdo_defs dir od !! k = Some pdo → resolve_pdo_mappings pdo flat = Ret ms → mapped_pdo pdo ms.
Proof using Htyped.
  intros Hk Hms. pose proof (def_In _ _ _ _ Hk) as [Hin _].
  assert (∀ r, In r ms → ∃ m, In m (pd_mappings pdo) ∧ resolve_mapping_def flat m = Ret r) as Hsrc.
  { intros r [j Hj]%list_elem_of_In%list_elem_of_lookup. by eapply resolve_pdo_lookup. }
  split; [done| | |done].
  - apply List.Forall_forall. intros r (m & Hm & Hr)%Hsrc. exact (resolve_wf _ Htyped _ _ _ Hin Hm Hr).
  - unfold resolve_pdo_mappings in Hms. apply bind_Ret_inv in Hms as (rs & _ & Hms).
    apply bind_Ret_inv in Hms as (u & Hu%assert_Ret & [= ->]). unfold PDO_MAX_PAYLOAD_BITS in Hu. lia.
Qed.

Lemma new_config_mappings dir k pdo ms :
  pdo_defs dir od !! k = Some pdo → resolve_pdo_mappings pdo flat = Ret ms →
  config_mappings (pdo_fields dir (g_new g)) k = map mapping_of ms.
Proof using Htyped Hret.
  intros Hk Hms. pose proof (resolved_pdo _ _ _ _ Hk Hms) as [_ Hwf _ _].
  destruct (new_slot_row _ _ _ _ _ Htyped Hret _ _ _ Hk) as (res & Hres & Hl & Hc & Hrow).
  rewrite Hms in Hres. injection Hres as <-. unfold config_mappings. rewrite Hc.
  change (nth k (f_mappings (pdo_fields dir (g_new g))) []) with (row (g_new g) dir k). rewrite Hrow.
  rewrite Z.min_l by (unfold PDO_MAX_MAPPINGS; lia). rewrite Nat2Z.id, take_app_length' by (by rewrite length_map).
  rewrite List.map_map. apply List.map_ext_in. intros r Hr. apply mapping_of_raw.
  by apply (proj1 (List.Forall_forall _ _) Hwf).
Qed.

Lemma tpdo_config_at i defs (d : Dict) id ts k pdo :
  tpdo_configs_from i defs d id = Ret ts → defs !! k = Some pdo →
  ∃ t, ts !! k = Some t ∧ tp_mappings t = config_mappings (d_tpdo d) (i + k) ∧
    config_cob 0x180 pdo (at_ (f_cob_id (d_tpdo d)) (i + k)) id = Ret (tp_cob_id t).
Proof using Type.
  revert i ts k. induction defs as [|p l IH]; intros i ts k; cbn [tpdo_configs_from]; [done|].
  intros H. apply bind_Ret_inv in H as (cob & Hcob & H). apply bind_Ret_inv in H as (cs & Hcs & H). injection H as <-.
  destruct k as [|k]; simpl.
  - intros [= ->]. eexists. split; [done|]. rewrite Nat.add_0_r. done.
  - intros Hk. rewrite <- Nat.add_succ_comm. by apply IH.
Qed.

Lemma rpdo_config_at i defs (d : Dict) id rs k pdo :
  rpdo_configs_from i defs d id = Ret rs → defs !! k = Some pdo →
  ∃ r, rs !! k = Some r ∧ rp_mappings r = config_mappings (d_rpdo d) (i + k) ∧
    config_cob 0x200 pdo (at_ (f_cob_id (d_rpdo d)) (i + k)) id = Ret (rp_cob_id r).
Proof using Type.
  revert i rs k. induction defs as [|p l IH]; intros i rs k; cbn [rpdo_configs_from]; [done|].
  intros H. apply bind_Ret_inv in H as (cob & Hcob & H). apply bind_Ret_inv in H as (cs & Hcs & H). injection H as <-.
  destruct k as [|k]; simpl.
  - intros [= ->]. eexists. split; [done|]. rewrite Nat.add_0_r. done.
  - intros Hk. rewrite <- Nat.add_succ_comm. by apply IH.
Qed.

(** What [generate_pdo] keeps of a definition. *)
Lemma generate_pdo_inv pdo ms (c : ClientPdo Expr) :
  generate_pdo pdo ms flat = Ok c →
  cp_def c = pdo ∧ cob_id_expr pdo = Ok (cp_cob c) ∧ fields_of flat 0 ms (cp_fields c) ∧
  NoDup (map mf_name (cp_fields c)) ∧ cp_bytes c = bytes_for_bits (Eds.total_bits ms).
Proof using Type.
  unfold generate_pdo. destruct (mapped_fields flat ms) as [fs|] eqn:Hf; [|done].
  destruct (cob_id_expr pdo) as [cob|]; [|done]. intros [= <-]. apply mapped_fields_spec in Hf as [Hf Hn]. simpl.
  done.
Qed.

(** The values a client reads off the dictionary [d]. *)
Definition sent_values (fs : list (MappedField Expr)) (v : list Z → Value) : Payload :=
  map (λ f, (mf_name f, transmitted (mf_dt f) (mf_bits f) (v (mf_name f)))) fs.

Lemma total_mapping ms : PdoEngine.total_bits (map mapping_of ms) = Eds.total_bits ms.
Proof using Type. induction ms as [|m ms IH]; [done|]. unfold PdoEngine.total_bits in *. simpl. by rewrite IH. Qed.

Lemma bytes_number n bits y :
  0 ≤ bits ≤ 64 → 0 ≤ y < 2 ^ bits → n = bytes_for_bits bits →
  from_le_bytes (to_le_bytes (Z.to_nat n) y) = y ∧ len (to_le_bytes (Z.to_nat n) y) = n ∧ bits ≤ 8 * n ∧ 0 ≤ n ≤ 8.
Proof using Type.
  intros Hb Hy ->. pose proof (bytes_for_bits_bound bits Hb) as [Hn Hle]. split; [|split; [rewrite length_to_le; lia|lia]].
  apply from_to_le_id. rewrite Z2Nat.id, pow_256 by lia. split; [lia|]. apply (Z.lt_le_trans _ (2 ^ bits)); [lia|].
  apply Z.pow_le_mono_r; lia.
Qed.

(** ** Transmission *)

Lemma tpdo_frame (d : DictOf g) t pdo ms (c : ClientPdo Expr) :
  dict_ok (g_new g) d → mapped_pdo pdo ms → raw_dummies pdo → pd_direction pdo = DirTpdo →
  resolve_pdo_mappings pdo flat = Ret ms → generate_pdo pdo ms flat = Ok c → tp_mappings t = map mapping_of ms →
  build_pdo_frame t d =
    Ret (CanFrame.new (tp_cob_id t) (to_le_bytes (Z.to_nat (cp_bytes c)) (image (field d) (cp_fields c) 0))).
Proof using Htyped Hvalid Hret.
  intros Hd Hmp Hraw Hdir Hms Hc Ht. destruct (generate_pdo_inv _ _ _ Hc) as (_ & _ & Hf & _ & Hb).
  destruct Hmp as [Hin Hwf Htot Hsrc].
  pose proof (field_access _ _ _ _ Hin Hraw Hms Hsrc Hf) as Ha. rewrite Hdir in Ha.
  rewrite build_pdo_frame_image; rewrite Ht.
  2: { apply Forall_map. eapply List.Forall_impl; [|exact Hwf]. by intros r (_ & _ & ?). }
  rewrite (device_image d 0 ms (cp_fields c) 0 Hd Hf Hwf) by (done || lia). by rewrite Hb, Z.add_0_l.
Qed.

(** C15. What a generated device sends, its generated client understands: for
    every enabled TPDO that both generators accept, in every reachable state of
    the dictionary, the frame of the TPDO exists, and the client decodes it to
    the value of each mapped field, cut to the mapped bits ([transmitted_fits]:
    a value that fits arrives as it is).  The definition may not give the PDO
    the COB-ID 0, and its raw mapping values name only dummies. *)
Theorem tpdo_reaches_client (d : DictOf g) id ts t k pdo ms (c : ClientPdo Expr) :
  reachable g d → 1 ≤ id ≤ 127 →
  pdo_defs DirTpdo od !! k = Some pdo → pd_cob_id pdo ≠ Some (Absolute 0) → raw_dummies pdo →
  resolve_pdo_mappings pdo flat = Ret ms → generate_pdo pdo ms flat = Ok c →
  tpdo_configs g (g_new g) id = Ret ts → ts !! k = Some t →
  ∃ f, build_pdo_frame t d = Ret (Some f) ∧
    decode_tpdo c id f = Ret (Ok (sent_values (cp_fields c) (field d))).
Proof using Htyped Hvalid Hret.
  intros Hr Hid Hk H0 Hraw Hms Hc Hts Ht. pose proof (reachable_ok _ _ _ _ _ Htyped Hvalid Hret d Hr) as Hd.
  pose proof (resolved_pdo _ _ _ _ Hk Hms) as Hmp. destruct (def_In _ _ _ _ Hk) as [Hin Hdir].
  unfold tpdo_configs in Hts. rewrite (gf_tdefs _ _ _ _ _ _ _ (generated _ _ _ _ _ Hret)) in Hts.
  destruct (tpdo_config_at _ _ _ _ _ _ _ Hts Hk) as (t' & Ht' & Hmap & Hcob). rewrite Ht in Ht'. injection Ht' as <-.
  rewrite (new_config_mappings DirTpdo k pdo ms Hk Hms : config_mappings (d_tpdo (g_new g)) (0 + k) = _) in Hmap.
  rewrite (new_cob DirTpdo k pdo Hk : at_ (f_cob_id (d_tpdo (g_new g))) (0 + k) = _) in Hcob.
  destruct (generate_pdo_inv _ _ _ Hc) as (_ & Hce & Hf & _ & Hb).
  assert (cob_id c id = Ret (tp_cob_id t) ∧ 0 ≤ tp_cob_id t ≤ 0x7FF) as [Hce' Hrange].
  { apply (cob_id_agrees c pdo); try done. by rewrite Hdir. }
  rewrite (tpdo_frame d t pdo ms c Hd Hmp Hraw Hdir Hms Hc Hmap). destruct Hmp as [_ Hwf Htot Hsrc].
  destruct (image_spec flat (field d) 0 ms (cp_fields c) 0 Hf Hwf ltac:(lia) ltac:(simpl; lia)) as (Hy & _ & _).
  rewrite Z.add_0_l in Hy. pose proof (total_nonneg _ Hwf).
  destruct (bytes_number (cp_bytes c) (Eds.total_bits ms) _ ltac:(lia) Hy Hb) as (Hfrom & Hl & Hle & H8).
  destruct (CanFrame.new _ _) as [f|] eqn:Hframe; [|rewrite CanFrame_new_ok in Hframe by lia; done].
  exists f. split; [done|]. unfold decode_tpdo. rewrite Hce'. rstep.
  rewrite (CanFrame_new_data _ _ _ Hframe), (CanFrame_new_id _ _ _ Hframe).
  rewrite Z.eqb_refl, Hl, (proj2 (Z.ltb_ge _ _)) by lia. cbn [negb].
  rewrite (decode_fields flat 0 ms) by (done || apply bytes_to_le || (rewrite ?Hl; lia)). rstep. rewrite Hfrom.
  unfold sent_values. by rewrite (received_image flat (field d) 0 ms) by (done || simpl; lia).
Qed.

(** ** Reception *)

Lemma decode_received dt size n w :
  pdo_type dt = true → DataType.size dt = Some size → 0 ≤ n ≤ 8 * size → 0 ≤ w < 2 ^ n →
  GenSpec.decode dt (to_le_bytes (Z.to_nat size) (if is_signed_integer dt then signed n w else w)) = received dt n w.
Proof using Type.
  intros Hp Hs Hn Hw. pose proof (size_pos _ _ Hs) as Hsz. unfold GenSpec.decode, received. rewrite Hs.
  assert (2 ^ n ≤ 2 ^ (8 * size)) as Hpw by (apply Z.pow_le_mono_r; lia).
  destruct (decide (dt = Boolean)) as [->|Hb].
  - injection Hs as <-. rewrite !bool_decide_eq_true_2 by done. change (8 * 1) with 8 in *. change (2 ^ 8) with 256 in *.
    change (to_le_bytes _ _) with [w mod 256]. unfold at_. cbn [nth]. by rewrite Z.mod_small by lia.
  - rewrite !bool_decide_eq_false_2 by done. f_equal. rewrite from_to_le, Z2Nat.id, pow_256 by lia.
    assert (signed_type dt = is_signed_integer dt) as -> by by destruct dt.
    destruct (is_signed_integer dt) eqn:Hsg; [|apply Z.mod_small; lia].
    rewrite signed_of_signed by (try lia; apply Z.mod_pos_bound; lia).
    destruct (Z.eq_dec n 0) as [->|Hn0].
    { change (2 ^ 0) with 1 in Hw. assert (w = 0) as -> by lia. unfold signed. by rewrite Z.bits_0, Z.mod_0_l, Z.bits_0 by lia. }
    pose proof (signed_bounds n w ltac:(lia) Hw). apply signed_range_mod; [lia|].
    assert (2 ^ (n - 1) ≤ 2 ^ (8 * size - 1)) by (apply Z.pow_le_mono_r; lia). lia.
Qed.

Lemma write_field (d : DictOf g) off m f x size data :
  dict_ok (g_new g) d → field_at flat off m f x size → mapped_access DirRpdo (vd_access (mf_var f)) →
  bytes data → len data = size →
  od_write d (rm_index m) (rm_subindex m) data = (set_field (mf_name f) (GenSpec.decode (mf_dt f) data) d, Ok tt).
Proof using Htyped Hvalid Hret.
  intros Hd Hat [Ha1 Ha2] Hb Hl. pose proof (fa_size _ _ _ _ _ _ Hat) as Hs.
  cbn [od_write device_od generated_od]. rewrite map_u8_id by done. rewrite (write_row _ _ _ _ _ Htyped Hvalid Hret) by done.
  rewrite <- (fa_index _ _ _ _ _ _ Hat), <- (fa_subindex _ _ _ _ _ _ Hat), flat_at by apply Hat.
  pose proof (fa_field _ _ _ _ _ _ Hat) as Hf. unfold ref_write, flat_ent.
  cbn [plain e_meta e_loc e_check access entry_meta data_type set_loc].
  assert (default U8 (type_to_datatype (type_name (fl_var x))) = mf_dt f) as -> by (by rewrite Hf).
  assert (fl_name x = mf_name f) as -> by (by rewrite Hf).
  assert (fl_var x = mf_var f) as -> by (by rewrite Hf).
  assert (read_only_access (access_type (vd_access (mf_var f))) = false) as -> by by destruct (vd_access (mf_var f)).
  unfold value_check. rewrite Hs, Hl, Z.eqb_refl. done.
Qed.

Lemma field_sized_type (d : DictOf g) off m f x size :
  field_at flat off m f x size → sized_type d (rm_index m) (rm_subindex m) = Some (mf_dt f, size).
Proof using Htyped Hvalid Hret.
  intros Hat. unfold sized_type. cbn [od_lookup device_od generated_od].
  rewrite <- (fa_index _ _ _ _ _ _ Hat), <- (fa_subindex _ _ _ _ _ _ Hat).
  rewrite (flat_lookup _ _ _ _ _ Htyped Hvalid Hret) by apply Hat. simpl.
  pose proof (fa_field _ _ _ _ _ _ Hat) as Hf.
  assert (default U8 (type_to_datatype (type_name (fl_var x))) = mf_dt f) as -> by (by rewrite Hf).
  by rewrite (fa_size _ _ _ _ _ _ Hat).
Qed.

(** The events of a received payload, one for each mapped object. *)
Definition rpdo_events (evt : nat) (events : list OdEvent) (ms : list ResolvedMapping) : list OdEvent :=
  foldl (λ l r, if is_dummy_mapping_index (rm_index r) then l
                else push_event evt l (mkEvent (rm_index r) (rm_subindex r) SrcRpdo)) events ms.

Lemma device_applies evt off ms fs y (a : Applied (DictOf g)) :
  dict_ok (g_new g) (ap_od a) → fields_of flat off ms fs → Forall wf_resolved ms →
  Forall (λ f, mapped_access DirRpdo (vd_access (mf_var f))) fs →
  ap_od (apply_fields evt (map mapping_of ms) off y a) = set_all (received_fields y fs) (ap_od a) ∧
  ap_events (apply_fields evt (map mapping_of ms) off y a) = rpdo_events evt (ap_events a) ms.
Proof using Htyped Hvalid Hret.
  intros Hd Hf Hwf. revert a Hd. induction Hf as [off|off m ms fs Hdum _ IH|off m ms f x size fs Hat Hfs IH]; intros a Hd Ha; [done|..];
    apply List.Forall_cons_iff in Hwf as [(_ & _ & Hm) Hwf]; unfold is_uint in Hm;
    cbn [apply_fields map mapping_of pm_index pm_subindex bit_length rpdo_events foldl].
  - rewrite Hdum. by apply IH.
  - apply List.Forall_cons_iff in Ha as [Ha Has]. rewrite (fa_dummy _ _ _ _ _ _ Hat).
    assert (mf_offset f = off ∧ mf_bits f = rm_bit_length m) as [Hoff Hbits] by (by rewrite (fa_field _ _ _ _ _ _ Hat)).
    pose proof (fa_bits _ _ _ _ _ _ Hat) as Hb. pose proof (fa_size _ _ _ _ _ _ Hat) as Hs. pose proof (size_pos _ _ Hs) as Hsz.
    rewrite (field_sized_type (ap_od a) _ _ _ _ _ Hat). unfold PdoMapped.object_bytes.
    assert (bytes_for_bits (rm_bit_length m) ≤ size) as Hbb by (unfold bytes_for_bits; Z.div_mod_to_equations; lia).
    rewrite (proj2 (Z.leb_le _ _) Hbb), (proj2 (Z.leb_le size 8)) by lia. cbn [andb].
    pose proof (field_range y off (rm_bit_length m) ltac:(lia)) as Hw.
    unfold apply_write. cbn [pm_index pm_subindex].
    rewrite (write_field (ap_od a) _ _ _ _ _ _ Hd Hat Ha (bytes_to_le _ _)) by (rewrite length_to_le; lia).
    rewrite (decode_received _ size) by (first [exact (fa_pdo _ _ _ _ _ _ Hat)|exact Hs|lia]).
    cbn [received_fields map set_all foldl fst snd]. rewrite Hoff, Hbits.
    destruct (IH Hwf (mkApplied (set_field (mf_name f) (received (mf_dt f) (rm_bit_length m) (PdoMapped.field y off (rm_bit_length m))) (ap_od a))
      (push_event evt (ap_events a) (mkEvent (rm_index m) (rm_subindex m) SrcRpdo))
      (if (evt <=? length (ap_events a))%nat then saturating_add 32 (ap_dropped a) 1 else ap_dropped a))) as [H1 H2]; [|done|].
    + cbn [ap_od]. by apply (set_loc_ok (g_new g) (ap_od a) (LField (mf_name f))).
    + split; [exact H1|exact H2].
Qed.

Lemma mapped_names off ms fs (d : Dict) :
  dict_ok (g_new g) d → fields_of flat off ms fs → Forall (λ f, mapped_access DirRpdo (vd_access (mf_var f))) fs →
  Forall (λ f, In (mf_name f) (map fst (d_fields d))) fs.
Proof using Htyped Hvalid Hret.
  intros Hd Hf. induction Hf as [off|off m ms fs _ _ IH|off m ms f x size fs Hat _ IH]; intros Ha; [apply List.Forall_nil|by apply IH|].
  apply List.Forall_cons_iff in Ha as [[Ha1 Ha2] Ha]. apply List.Forall_cons; [|by apply IH].
  pose proof (flat_at x (fa_in _ _ _ _ _ _ Hat)) as Hx. apply (row_at_ok _ _ _ _ _ Htyped Hvalid Hret) in Hx as ([_ _ Hw _] & _).
  rewrite (fa_field _ _ _ _ _ _ Hat) in *. rewrite (do_fields _ _ Hd). simpl in *. apply Hw. by destruct (vd_access (fl_var x)).
Qed.

(** C16. What a generated client sends, its device stores: for every RPDO that
    both generators accept and in every reachable state of the dictionary, the
    client's frame has the identifier and the length the device expects, and
    processing it sets each mapped field to the payload's value, cut to the
    mapped bits; no other field changes, and each mapped object causes one
    event. *)
Theorem rpdo_reaches_device (evt : nat) (events : list OdEvent) (d : DictOf g) id rs r k pdo ms (c : ClientPdo Expr)
    (payload : Payload) :
  reachable g d → 1 ≤ id ≤ 127 →
  pdo_defs DirRpdo od !! k = Some pdo → pd_cob_id pdo ≠ Some (Absolute 0) → raw_dummies pdo →
  resolve_pdo_mappings pdo flat = Ret ms → generate_pdo pdo ms flat = Ok c →
  rpdo_configs g (g_new g) id = Ret rs → rs !! k = Some r →
  ∃ f a, encode_rpdo c id payload = Ret f ∧ CanFrame.raw_id f = rp_cob_id r ∧
    mapped_payload_len r = Some (len (CanFrame.data f)) ∧
    apply_mapped evt r (CanFrame.data f) d events = Ret a ∧
    let values := sent_values (cp_fields c) (assoc (VNum 0) payload) in
    ap_od a = set_all values d ∧ (∀ name v, In (name, v) values → field (ap_od a) name = v) ∧
    ap_events a = rpdo_events evt events ms.
Proof using Htyped Hvalid Hret.
  intros Hr Hid Hk H0 Hraw Hms Hc Hrs Hrk. pose proof (reachable_ok _ _ _ _ _ Htyped Hvalid Hret d Hr) as Hd.
  pose proof (resolved_pdo _ _ _ _ Hk Hms) as [Hin Hwf Htot Hsrc]. destruct (def_In _ _ _ _ Hk) as [_ Hdir].
  unfold rpdo_configs in Hrs. rewrite (gf_rdefs _ _ _ _ _ _ _ (generated _ _ _ _ _ Hret)) in Hrs.
  destruct (rpdo_config_at _ _ _ _ _ _ _ Hrs Hk) as (r' & Hr' & Hmap & Hcob). rewrite Hrk in Hr'. injection Hr' as <-.
  rewrite (new_config_mappings DirRpdo k pdo ms Hk Hms : config_mappings (d_rpdo (g_new g)) (0 + k) = _) in Hmap.
  rewrite (new_cob DirRpdo k pdo Hk : at_ (f_cob_id (d_rpdo (g_new g))) (0 + k) = _) in Hcob.
  destruct (generate_pdo_inv _ _ _ Hc) as (_ & Hce & Hf & Hnd & Hb).
  assert (cob_id c id = Ret (rp_cob_id r) ∧ 0 ≤ rp_cob_id r ≤ 0x7FF) as [Hce' Hrange].
  { apply (cob_id_agrees c pdo); try done. by rewrite Hdir. }
  pose proof (field_access _ _ _ _ Hin Hraw Hms Hsrc Hf) as Ha. rewrite Hdir in Ha.
  set (v := assoc (VNum 0) payload).
  destruct (image_spec flat v 0 ms (cp_fields c) 0 Hf Hwf ltac:(lia) ltac:(simpl; lia)) as (Hy & _ & _).
  rewrite Z.add_0_l in Hy. pose proof (total_nonneg _ Hwf).
  destruct (bytes_number (cp_bytes c) (Eds.total_bits ms) _ ltac:(lia) Hy Hb) as (Hfrom & Hl & Hle & H8).
  set (y := image v (cp_fields c) 0) in *.
  destruct (CanFrame.new (rp_cob_id r) (to_le_bytes (Z.to_nat (cp_bytes c)) y)) as [f|] eqn:Hframe; [|rewrite CanFrame_new_ok in Hframe by lia; done].
  assert (encode_rpdo c id payload = Ret f) as He.
  { unfold encode_rpdo. change (zeros 8) with (to_le_bytes 8 0).
    rewrite (encode_fields_image flat payload 0 ms) by (done || simpl; lia). fold v. fold y. rstep. rewrite Hce'. rstep.
    rewrite slice_prefix by (rewrite ?length_to_le; lia). rstep. rewrite take_to_le by lia. by rewrite Hframe. }
  pose proof (CanFrame_new_data _ _ _ Hframe) as Hdata. pose proof (CanFrame_new_id _ _ _ Hframe) as Hfid.
  assert (Forall wf_mapping (rp_mappings r)) as Hwm.
  { rewrite Hmap. apply Forall_map. eapply List.Forall_impl; [|exact Hwf]. by intros m (_ & _ & ?). }
  assert (PdoEngine.total_bits (rp_mappings r) = Eds.total_bits ms) as Htm by (by rewrite Hmap, total_mapping).
  destruct (device_applies evt 0 ms (cp_fields c) y (mkApplied d events 0) Hd Hf Hwf Ha) as [Hod Hev].
  eexists f, _. split; [done|]. split; [done|]. rewrite Hdata, Hl. split; [|split].
  - unfold mapped_payload_len. rewrite Htm, (proj2 (Z.leb_le _ _)) by (unfold PdoEngine.PDO_MAX_PAYLOAD_BITS; lia). by rewrite Hb.
  - unfold apply_mapped. rewrite apply_loop_fields; [|done|apply bytes_to_le|lia|lia|rewrite Htm; lia].
    by rewrite Hfrom, Hmap.
  - rewrite Hod, Hev. cbn [ap_od ap_events].
    assert (received_fields y (cp_fields c) = sent_values (cp_fields c) v) as ->
      by (apply (received_image flat v 0 ms); (done || simpl; lia)).
    split; [done|]. split; [|done]. intros name w Hin'. apply set_all_in; [|done|].
    + unfold sent_values. by rewrite List.map_map.
    + apply List.in_map_iff in Hin' as (fl & [= <- _] & Hfl).
      by apply (proj1 (List.Forall_forall _ _) (mapped_names 0 ms _ d Hd Hf Ha)).
Qed.
End device.

(** ** The concrete definition *)

#[local] Instance demo_device (g : Generated Z) : ObjectDictionary (DictOf g) := generated_od g (λ _ _ _ _ _, Ok tt).

Definition demo_pdo (dir : PdoDirection) : PdoDef := nth 0 (pdo_defs dir demo_od) (mkPdoDef dir 0 None 0 0 0 Mutable []).

Definition demo_mappings (dir : PdoDirection) : list ResolvedMapping :=
  match resolve_pdo_mappings (demo_pdo dir) (flatten (od_entries demo_od)) with Ret ms => ms | Panic => [] end.

Definition demo_client_pdo (dir : PdoDirection) : ClientPdo Z :=
  match generate_pdo (demo_pdo dir) (demo_mappings dir) (flatten (od_entries demo_od)) with
  | Ok c => c
  | Err _ => mkClientPdo (demo_pdo dir) [] (Absolute 0) 0
  end.

Lemma demo_raw dir : raw_dummies (demo_pdo dir).
Proof. unfold raw_dummies. destruct dir; vm_compute pd_mappings; repeat (apply List.Forall_cons; [intros r [=]|]); apply List.Forall_nil. Qed.

(** The initial [speed] and [gains_on] of node 5, in 17 bits. *)
Lemma tpdo_reaches_client_witness :
  demo_holds (λ g, ∃ t f, (ts ← tpdo_configs g (g_new g) 5; unwrap (ts !! 0%nat)) = Ret t ∧
    build_pdo_frame (OD := DictOf g) t (g_new g) = Ret (Some f) ∧
    decode_tpdo (demo_client_pdo DirTpdo) 5 f = Ret (Ok [(str "speed", VNum (-2)); (str "gains_on", VBool false)])).
Proof.
  assert (match demo_generate with
          | Ret g => match (ts ← tpdo_configs g (g_new g) 5; unwrap (ts !! 0%nat)) with Ret t => tp_cob_id t =? 0x185 | Panic => false end
                     && match field (g_new g) (str "speed"), field (g_new g) (str "gains_on") with VNum z, VBool b => (z =? -2) && negb b | _, _ => false end
          | Panic => false
          end = true) as Hb by (vm_compute; reflexivity).
  unfold demo_holds. destruct demo_generate as [g|] eqn:Hg; [|done].
  apply andb_true_iff in Hb as [Hb Hv].
  destruct (field (g_new g) (str "speed")) as [|z|] eqn:Hspeed; [done| |done].
  destruct (field (g_new g) (str "gains_on")) as [[]| |] eqn:Hon; try (by rewrite andb_false_r in Hv); try done.
  rewrite andb_true_r in Hv. apply Z.eqb_eq in Hv as ->.
  destruct (ts ← tpdo_configs g (g_new g) 5; unwrap (ts !! 0%nat)) as [t|] eqn:Ht; [|done]. exists t.
  apply bind_Ret_inv in Ht as (ts & Hts & Ht). destruct (ts !! 0%nat) as [t'|] eqn:Hlk; [injection Ht as ->|done].
  destruct (tpdo_reaches_client demo_eval demo_string demo_eds demo_od g demo_typed eq_refl Hg (λ _ _ _ _ _, Ok tt)
    (g_new g) 5 ts t 0 (demo_pdo DirTpdo) (demo_mappings DirTpdo) (demo_client_pdo DirTpdo)) as (f & Hf & Hd);
    [exact (reach_new g)|lia|vm_compute; reflexivity|vm_compute; discriminate|apply demo_raw|vm_compute; reflexivity|vm_compute; reflexivity|exact Hts|exact Hlk|].
  exists f. split; [done|]. split; [exact Hf|]. rewrite Hd. do 2 f_equal.
  change (cp_fields (demo_client_pdo DirTpdo)) with
    [mkMappedField (str "speed") (demo_var (str "i16") AccRw true (-2)) 0 16;
     mkMappedField (str "gains_on") (mkVarDef (str "bool") None None AccRw true : VarDef Z) 16 1].
  unfold sent_values. cbn [map mf_name]. rewrite Hspeed, Hon. vm_compute. reflexivity.
Defined.

(** [gains_p] of node 5, in 24 bits. *)
Lemma rpdo_reaches_device_witness :
  demo_holds (λ g, ∃ r f a, (rs ← rpdo_configs g (g_new g) 5; unwrap (rs !! 0%nat)) = Ret r ∧
    encode_rpdo (demo_client_pdo DirRpdo) 5 [(str "gains_p", VNum (-5))] = Ret f ∧
    apply_mapped (OD := DictOf g) 4 r (CanFrame.data f) (g_new g) [] = Ret a ∧
    field (ap_od a) (str "gains_p") = VNum (-5) ∧ ap_events a = [mkEvent 0x2001 1 SrcRpdo]).
Proof.
  assert (match demo_generate with
          | Ret g => match (rs ← rpdo_configs g (g_new g) 5; unwrap (rs !! 0%nat)) with Ret r => rp_cob_id r =? 0x305 | Panic => false end
          | Panic => false
          end = true) as Hb by (vm_compute; reflexivity).
  unfold demo_holds. destruct demo_generate as [g|] eqn:Hg; [|done].
  destruct (rs ← rpdo_configs g (g_new g) 5; unwrap (rs !! 0%nat)) as [r|] eqn:Hr; [|done]. exists r.
  apply bind_Ret_inv in Hr as (rs & Hrs & Hr). destruct (rs !! 0%nat) as [r'|] eqn:Hlk; [injection Hr as ->|done].
  destruct (rpdo_reaches_device demo_eval demo_string demo_eds demo_od g demo_typed eq_refl Hg (λ _ _ _ _ _, Ok tt) 4 []
    (g_new g) 5 rs r 0 (demo_pdo DirRpdo) (demo_mappings DirRpdo) (demo_client_pdo DirRpdo) [(str "gains_p", VNum (-5))])
    as (f & a & He & _ & _ & Ha & _ & Hv & Hev);
    [exact (reach_new g)|lia|vm_compute; reflexivity|vm_compute; discriminate|apply demo_raw|vm_compute; reflexivity|vm_compute; reflexivity|exact Hrs|exact Hlk|].
  exists f, a. split; [done|]. split; [exact He|]. split; [exact Ha|]. split; [|by rewrite Hev].
  apply Hv. left. vm_compute. reflexivity.
Defined.

(** *** Where the two differ *)

(** The disabled flag of a node-relative identifier. *)
Example disabled_flag_lost :
  let pdo := mkPdoDef DirTpdo 1 (Some (NodeRelative 0x80000180)) 255 0 0 Mutable [] in
  pdo_is_disabled pdo = true ∧
  (cob ← config_cob 0x180 pdo (stored_default (pd_cob_id pdo)) 5; mret (cob, config_enabled (stored_default (pd_cob_id pdo)) cob)) =
    Ret (0x185, true).
Proof. vm_compute. done. Qed.

(** An identifier given as 0. *)
Example zero_cob_id :
  let pdo := mkPdoDef DirTpdo 1 (Some (Absolute 0)) 255 0 0 Mutable [] in
  config_cob 0x180 pdo (stored_default (pd_cob_id pdo)) 5 = Ret 0x185 ∧
  cob_id (mkClientPdo (Expr := Z) pdo [] (Absolute 0) 0) 5 = Ret 0.
Proof. vm_compute. done. Qed.
