(* ===== verification/PdoClientDispatch.v ===== *)
(** * Dispatch in generated clients

    [decode] of a generated client tries the TPDOs in order, after comparing
    the frame with the pairs of TPDOs whose identifiers may coincide for some
    node id.  It is shown to be the reference [dispatch]: no TPDO has the
    frame's identifier, one has, or several have. *)
From S2P Require Import Prelude Text Frame PdoBits PdoEngine Eds Gen GenSpec GenTable PdoClient.

Section dispatch.
Context {Expr : Type}.

(** ** The reference *)

(** The identifier of a PDO is the frame's. *)
Definition has_id (id raw : Z) (c : ClientPdo Expr) : bool :=
  match cob_id c id with Ret x => raw =? x | Panic => false end.

Definition dispatch (client : list (ClientPdo Expr)) (id : Z) (frame : CanFrame)
    : exec (result (option (Z * Payload)) PdoDecodeError) :=
  match List.filter (has_id id (CanFrame.raw_id frame)) (dispatch_tpdos client) with
  | [] => mret (Ok None)
  | [c] =>
      r ← decode_tpdo c id frame;
      mret (match r with Ok payload => Ok (Some (pd_number (cp_def c), payload)) | Err e => Err e end)
  | _ => mret (Err (AmbiguousCobId (CanFrame.raw_id frame)))
  end.

(** ** Identifiers *)

Definition spec_value (s : CobIdSpec) (id : Z) : Z := match s with Absolute raw => raw | NodeRelative base => base + id end.

(** The effective identifier of a PDO the generator accepts. *)
Record resolved_id (c : ClientPdo Expr) (s : CobIdSpec) : Prop := {
  ri_spec : effective_cob_id_spec (cp_def c) = Some s;
  ri_cob : cp_cob c = s;
  ri_range : match s with Absolute raw => 0 ≤ raw ≤ 0x7FF | NodeRelative base => 0 ≤ base ≤ 0x7FF - 127 end;
}.

Lemma resolved_cob_id c s id : resolved_id c s → 1 ≤ id ≤ 127 → cob_id c id = Ret (spec_value s id).
Proof.
  intros [_ Hc Hr] Hid. unfold cob_id. rewrite Hc. destruct s as [raw|base]; simpl in *.
  - unfold CobId.new. by rewrite (proj2 (Z.leb_le _ _)) by lia.
  - rewrite checked_ret by (unfold is_uint; lia). rstep. unfold CobId.new. by rewrite (proj2 (Z.leb_le _ _)) by lia.
Qed.

(** Identifiers that coincide for a node id, of different specifications. *)
Lemma coincidence a b sa sb id :
  resolved_id a sa → resolved_id b sb → sa ≠ sb → 1 ≤ id ≤ 127 → spec_value sa id = spec_value sb id →
  node_id_dependent_collision (cp_def a) (cp_def b) = true.
Proof.
  intros Ha Hb Hne Hid Hv. unfold node_id_dependent_collision. rewrite (ri_spec _ _ Ha), (ri_spec _ _ Hb).
  destruct sa as [x|x], sb as [y|y]; simpl in Hv; subst; try (exfalso; apply Hne; f_equal; lia); unfold in_range; lia.
Qed.

(** ** The ambiguity check *)

Definition distinct_specs (l : list (ClientPdo Expr)) : Prop :=
  find_pair (λ a b, bool_decide (effective_cob_id_spec a = effective_cob_id_spec b)) (map cp_def l) = None.

Lemma find_pair_cons {A} (p : A → A → bool) a l : find_pair p (a :: l) = None → find_pair p l = None ∧ ∀ b, In b l → p a b = false.
Proof. simpl. destruct (List.find (p a) l) eqn:Hf; [done|]. intros H. split; [done|]. intros b Hb. by apply (List.find_none _ _ Hf). Qed.

Lemma find_pair_filter {A} (p : A → A → bool) q l : find_pair p l = None → find_pair p (List.filter q l) = None.
Proof.
  induction l as [|a l IH]; [done|]. intros [Hl Ha]%find_pair_cons. simpl. destruct (q a); [|by apply IH]. simpl.
  destruct (List.find (p a) _) as [b|] eqn:Hf; [|by apply IH]. apply List.find_some in Hf as [[Hb _]%List.filter_In Hp].
  by rewrite Ha in Hp.
Qed.

Lemma check_ambiguity_app p q id raw :
  check_ambiguity (p ++ q : list (ClientPdo Expr * ClientPdo Expr)) id raw =
  (x ← check_ambiguity p id raw; if (x : bool) then mret true else check_ambiguity q id raw).
Proof.
  induction p as [|[a b] p IH]; [done|]. simpl. destruct (both_match a b id raw) as [[]|]; [done| |done]. exact IH.
Qed.

Section node.
Context (id : Z) (Hid : 1 ≤ id ≤ 127) (raw : Z).

Abbreviation accepted := (Forall (λ c : ClientPdo Expr, ∃ s, resolved_id c s)).

Lemma both_match_has a b :
  (∃ s, resolved_id a s) → (∃ s, resolved_id b s) → both_match a b id raw = Ret (has_id id raw a && has_id id raw b).
Proof using Hid.
  intros [sa Ha] [sb Hb]. unfold both_match, has_id.
  rewrite (resolved_cob_id _ _ _ Ha Hid), (resolved_cob_id _ _ _ Hb Hid). rstep. by destruct (raw =? spec_value sa id).
Qed.

Lemma check_pairs a (l : list (ClientPdo Expr)) :
  (∃ s, resolved_id a s) → accepted l →
  check_ambiguity (map (pair a) l) id raw = Ret (has_id id raw a && existsb (has_id id raw) l).
Proof using Hid.
  intros Ha Hl. induction Hl as [|b l Hb _ IH]; [simpl; by rewrite andb_false_r|]. cbn [map check_ambiguity].
  rewrite both_match_has by done. rstep. rewrite IH. simpl. by destruct (has_id id raw a), (has_id id raw b).
Qed.

(** Two TPDOs with the frame's identifier are among the compared pairs. *)
Lemma collision_found a l :
  (∃ s, resolved_id a s) → accepted l → has_id id raw a = true →
  (∀ b, In b (map cp_def l) → bool_decide (effective_cob_id_spec (cp_def a) = effective_cob_id_spec b) = false) →
  existsb (has_id id raw) (List.filter (λ b, node_id_dependent_collision (cp_def a) (cp_def b)) l) = existsb (has_id id raw) l.
Proof using Hid.
  intros [sa Ha] Hl Hm. induction Hl as [|b l [sb Hb] _ IH]; [done|]. intros Hne. simpl.
  assert (has_id id raw b = true → node_id_dependent_collision (cp_def a) (cp_def b) = true) as Hcol.
  { intros Hmb. unfold has_id in *. rewrite (resolved_cob_id _ _ _ Ha Hid) in Hm. rewrite (resolved_cob_id _ _ _ Hb Hid) in Hmb.
    apply (coincidence _ _ _ _ id Ha Hb); [|done|lia]. intros ->. pose proof (Hne (cp_def b) ltac:(by left)) as H.
    rewrite (ri_spec _ _ Ha), (ri_spec _ _ Hb) in H. by rewrite bool_decide_eq_true_2 in H. }
  assert (∀ b, In b (map cp_def l) → bool_decide (effective_cob_id_spec (cp_def a) = effective_cob_id_spec b) = false) as Hne'
    by (intros b' Hb'; apply Hne; by right).
  destruct (node_id_dependent_collision (cp_def a) (cp_def b)); simpl; rewrite IH by done; [done|].
  destruct (has_id id raw b); [by discriminate Hcol|done].
Qed.

Lemma existsb_filter_length {A} (p : A → bool) l : existsb p l = (0 <? len (List.filter p l)).
Proof using Type. induction l as [|x l IH]; [done|]. simpl. destruct (p x); [symmetry; apply Z.ltb_lt; simpl; lia|]. exact IH. Qed.

Lemma check_ambiguity_spec l :
  accepted l → distinct_specs l →
  check_ambiguity (ambiguous_pairs l) id raw = Ret (1 <? len (List.filter (has_id id raw) l)).
Proof using Hid.
  intros Hl. induction Hl as [|a l Ha Hl IH]; [done|]. intros [Hd Hne]%find_pair_cons. specialize (IH Hd).
  cbn [ambiguous_pairs]. rewrite check_ambiguity_app, check_pairs; [|done|].
  2: { apply List.Forall_forall. intros b [Hb _]%List.filter_In. by apply (proj1 (List.Forall_forall _ _) Hl). }
  rstep. rewrite IH. simpl List.filter. destruct (has_id id raw a) eqn:Hm; [|done].
  rewrite collision_found by done. rewrite existsb_filter_length. cbn [andb length].
  destruct (Z.ltb_spec 0 (len (List.filter (has_id id raw) l))).
  - by rewrite (proj2 (Z.ltb_lt 1 _)) by lia.
  - by rewrite !(proj2 (Z.ltb_ge 1 _)) by lia.
Qed.

Lemma decode_arms_spec l frame :
  accepted l → CanFrame.raw_id frame = raw →
  decode_arms l id frame =
  match List.filter (has_id id raw) l with
  | [] => mret (Ok None)
  | c :: _ =>
      r ← decode_tpdo c id frame;
      mret (match r with Ok payload => Ok (Some (pd_number (cp_def c), payload)) | Err e => Err e end)
  end.
Proof using Hid.
  intros Hl Hraw. induction Hl as [|a l [s Ha] _ IH]; [done|]. cbn [decode_arms List.filter].
  unfold has_id at 1. rewrite (resolved_cob_id _ _ _ Ha Hid), Hraw. rstep. by destruct (raw =? spec_value s id).
Qed.
End node.

(** ** Generation *)

Lemma accepted_id pdo (c : ClientPdo Expr) :
  match pd_cob_id pdo with Some (Absolute x) | Some (NodeRelative x) => is_u32 x | None => True end → 1 ≤ pd_number pdo →
  cp_def c = pdo → cob_id_expr pdo = Ok (cp_cob c) → ∃ s, resolved_id c s.
Proof.
  intros Hw Hn Hdef Hc. unfold cob_id_expr in Hc. destruct (effective_cob_id_spec pdo) as [s|] eqn:Hs; [|done]. exists s.
  destruct (negb (Z.land _ 0x20000000 =? 0)); [done|].
  assert (match s with Absolute x | NodeRelative x => 0 ≤ x end) as H0.
  { unfold effective_cob_id_spec in Hs. destruct (pd_cob_id pdo) as [[x|x]|].
    - injection Hs as <-. apply Z.land_nonneg. lia.
    - injection Hs as <-. apply Z.land_nonneg. lia.
    - destruct (in_range 1 4 _); [|done]. injection Hs as <-. destruct (pd_direction pdo); lia. }
  destruct s as [x|x].
  - destruct (Z.leb_spec x 0x7ff); [|done]. rewrite wrap_id in Hc by (unfold is_uint; lia). injection Hc as Hc.
    split; [by rewrite Hdef|done|lia].
  - destruct (Z.leb_spec (x + 127) 0x7ff); [|done]. rewrite wrap_id in Hc by (unfold is_uint; lia). injection Hc as Hc.
    split; [by rewrite Hdef|done|lia].
Qed.

Lemma generate_pdos_spec flat pdos (cs : list (ClientPdo Expr)) :
  generate_pdos flat pdos = Ret (Ok cs) →
  Forall2 (λ p c, cp_def c = p ∧ cob_id_expr p = Ok (cp_cob c)) pdos cs.
Proof.
  revert cs. induction pdos as [|p l IH]; intros cs; cbn [generate_pdos]; [intros [= <-]; constructor|]. intros H.
  apply bind_Ret_inv in H as (ms & _ & H). destruct (generate_pdo p ms flat) as [c|] eqn:Hc; [|done].
  apply bind_Ret_inv in H as (rest & Hr & H). destruct rest as [cs'|]; [|done]. injection H as <-.
  constructor; [|by apply IH]. unfold generate_pdo in Hc. destruct (mapped_fields flat ms); [|done].
  destruct (cob_id_expr p) as [cob|]; [|done]. by injection Hc as <-.
Qed.

Lemma filter_map_defs (q : PdoDef → bool) pdos (cs : list (ClientPdo Expr)) :
  Forall2 (λ p c, cp_def c = p ∧ cob_id_expr p = Ok (cp_cob c)) pdos cs →
  map cp_def (List.filter (λ c, q (cp_def c)) cs) = List.filter q pdos.
Proof. induction 1 as [|p c l cs [Hd _] _ IH]; [done|]. simpl. rewrite Hd. destruct (q p); simpl; by rewrite ?Hd, IH. Qed.

Lemma filter_and {A} (p q : A → bool) l : List.filter (λ x, p x && q x) l = List.filter p (List.filter q l).
Proof. induction l as [|x l IH]; [done|]. simpl. destruct (q x); simpl; destruct (p x); simpl; by rewrite IH. Qed.

Lemma generated_client od (cs : list (ClientPdo Expr)) :
  od_typed od → generate_parts od = Ret (Ok cs) →
  Forall (λ c, ∃ s, resolved_id c s) (dispatch_tpdos cs) ∧ distinct_specs (dispatch_tpdos cs).
Proof.
  intros Ht. unfold generate_parts. destruct (find_pair _ (dispatch_pdos od)) as [[x y]|] eqn:Hf; [done|].
  intros Hc%generate_pdos_spec. split.
  - apply List.Forall_forall. intros c [Hin _]%List.filter_In. apply list_elem_of_In, list_elem_of_lookup in Hin as [i Hi].
    destruct (Forall2_lookup_r _ _ _ _ _ Hc Hi) as (p & Hp & Hdef & Hcob).
    apply list_elem_of_lookup_2, list_elem_of_In, List.filter_In in Hp as [Hp _].
    destruct (proj1 (List.Forall_forall _ _) (ot_pdos _ Ht) p Hp) as (Hn & _ & _ & _ & Hw).
    apply (accepted_id p c); [done|lia|done|done].
  - pose proof (filter_map_defs (λ p, bool_decide (pd_direction p = DirTpdo) && negb (pdo_is_disabled p)) _ _ Hc) as Hm.
    cbv beta in Hm. unfold distinct_specs, dispatch_tpdos. rewrite Hm, filter_and. by apply find_pair_filter.
Qed.

(** ** The theorem *)

(** C17. A generated client never takes a frame for the wrong PDO: for every
    definition it is generated from, every node id and every frame, [decode]
    is [dispatch]: nothing when no enabled TPDO has the frame's identifier, the
    payload of the only one that has it, and [AmbiguousCobId] exactly when
    several do, which the pairs compared at run time are enough to notice. *)
Theorem client_dispatches od (client : list (ClientPdo Expr)) id frame :
  od_typed od → generate_parts od = Ret (Ok client) → 1 ≤ id ≤ 127 →
  decode client id frame = dispatch client id frame.
Proof.
  intros Ht Hc Hid. destruct (generated_client od client Ht Hc) as [Ha Hd]. unfold decode, dispatch.
  rewrite (check_ambiguity_spec id Hid _ _ Ha Hd). rstep. rewrite (decode_arms_spec id Hid _ _ frame Ha eq_refl).
  destruct (List.filter _ _) as [|c [|c' l]]; [done|done|]. cbn [length]. by rewrite (proj2 (Z.ltb_lt _ _)) by lia.
Qed.
End dispatch.

(** ** Two TPDOs whose identifiers coincide for node 7 *)

Definition dispatch_od : OdDefinition Z :=
  mkOdDefinition (str "Demo")
    [ mkOdEntry 0x2000 (str "speed") (EntryVar (demo_var (str "i16") AccRw true 0));
      mkOdEntry 0x2001 (str "torque") (EntryVar (demo_var (str "i24") AccRw true 0)) ]
    [ mkPdoDef DirTpdo 1 None 255 0 0 Immutable [mkMappingDef (str "speed") None None];
      mkPdoDef DirTpdo 5 (Some (Absolute 0x187)) 255 0 0 Immutable [mkMappingDef (str "torque") None None] ] [] false None.

Definition dispatch_client : list (ClientPdo Z) :=
  match generate_parts dispatch_od with Ret (Ok cs) => cs | _ => [] end.

Definition client_frame (id : Z) (data : list Z) : CanFrame := mkCanFrame id (len data) (data ++ zeros (8 - len data)).

(** Node 5 has two identifiers, node 7 one. *)
Lemma client_dispatches_witness :
  decode dispatch_client 5 (client_frame 0x185 [0xFE; 0xFF]) = Ret (Ok (Some (1, [(str "speed", VNum (-2))]))) ∧
  decode dispatch_client 5 (client_frame 0x187 [1; 0; 0x80]) = Ret (Ok (Some (5, [(str "torque", VNum (-8388607))]))) ∧
  decode dispatch_client 7 (client_frame 0x187 [1; 0; 0x80]) = Ret (Err (AmbiguousCobId 0x187)) ∧
  decode dispatch_client 7 (client_frame 0x185 []) = dispatch dispatch_client 7 (client_frame 0x185 []).
Proof.
  assert (od_typed dispatch_od) as Ht.
  { split.
    3, 6: repeat first [apply List.Forall_nil | apply List.Forall_cons]; vm_compute; done.
    2: repeat first [apply List.Forall_nil | apply List.Forall_cons]; simpl; intros subs [=].
    2: by_decision.
    all: repeat first [apply List.Forall_nil | apply List.Forall_cons; [vm_compute; repeat split; (done || congruence)|]]. }
  split; [vm_compute; reflexivity|]. split; [vm_compute; reflexivity|]. split; [vm_compute; reflexivity|].
  apply (client_dispatches dispatch_od dispatch_client 7); [exact Ht|vm_compute; reflexivity|lia].
Defined.
