(* ===== verification/Dsl.v ===== *)
(** * The macro language

    [canopen-derive/src/dsl.rs]: the parser of [object_dictionary!].  The
    parser works on [syn]'s token buffers, which are the class [TokenStream]:
    a stream [S] with [syn]'s look-aheads and token parsers, each of which
    returns the rest of the stream, or nothing when [syn] reports an error.
    An error is its message's arguments.  Loops run until their buffer is empty,
    with one more than the number of its tokens as fuel.  Tokens that the parser leaves
    in a group are reported by [syn] afterwards. *)
From S2P Require Import Prelude Text Eds.
From Stdlib Require Import SpecFloat.

(** ** Tokens *)

Inductive Punct := Pound | Equals | Colon | Semi | Comma | Less | Greater | Plus.
Inductive Delim := Bracket | Brace | Paren.

(** A literal: what [base10_parse] sees of its digits, and its suffix. *)
Record LitInt := mkLitInt { li_value : Z; li_suffix : list Z }.
Record LitFloat := mkLitFloat { lf_value : spec_float; lf_suffix : list Z }.
Inductive Lit := LInt (l : LitInt) | LFloat (l : LitFloat) | LOther.

Class TokenStream (S Expr : Type) := {
  tokens : S → nat;
  is_empty : S → bool;
  peek_ident : S → bool;
  peek_lit_int : S → bool;
  peek_punct : Punct → S → bool;
  peek2_punct : Punct → S → bool;
  peek_paren : S → bool;
  next_ident : S → option (list Z * S);
  next_any_ident : S → option (list Z * S);
  next_punct : Punct → S → option S;
  next_struct : S → option S;
  next_visibility : S → option S;
  next_lit_int : S → option (LitInt * S);
  next_lit_str : S → option (list Z * S);
  next_lit : S → option (Lit * S);
  next_expr : S → option (Expr * S);
  next_group : Delim → S → option (S * S);
}.

(** [Panicked]: the addition of [parse_cob_id_spec] overflows, and the macro
    panics, which ends the compilation as an error does. *)
Inductive DslError :=
| Syntax
| OutOfFuel
| Panicked
| ExpectedExportPath
| UnknownParameter (name : list Z)
| ExpectedFnName
| UnknownAttribute (name : list Z)
| ExpectedIndex
| ExpectedCount
| UnknownAccess (name : list Z)
| ExpectedPdo
| ExpectedColon
| ExpectedSubindex
| UnknownDirection (name : list Z)
| PdoNumber
| RtrRpdo
| InhibitTimeOfRpdo
| EventTimerOfRpdo
| DeadlineOfTpdo
| ExpectedMapping
| UnknownMapping (name : list Z)
| UnknownPdoParameter (name : list Z)
| TooManyMappings
| NoDefaultCobId (number : Z)
| ExpectedNodeId
| BaseRange
| CobIdRange
| ServerNumber
| UnknownServerParameter (name : list Z)
| NoCobRx
| NoCobTx
| ReservedTransmissionType (raw : Z)
| ExpectedTransmissionType
| SyncCyclicRange
| UnknownTransmissionType (name : list Z)
| TimeOverflow
| FloatWithoutUnit
| ExpectedTime
| TimeNotRepresentable
| TimeRange
| UnknownUnit (name : list Z)
| ExpectedCapacity
| Invalid (e : OdInvalid).

(** ** Parsers *)

Definition Parser (S A : Type) : Type := S → result (A * S) DslError.

#[export] Instance parser_ret {S} : MRet (Parser S) := λ A a s, Ok (a, s).
#[export] Instance parser_bind {S} : MBind (Parser S) := λ A B f p s,
  match p s with Ok (a, s) => f a s | Err e => Err e end.

Section parsers.
Context {S Expr : Type} `{TokenStream S Expr}.
Implicit Types (s : S).

Definition fail {A} (e : DslError) : Parser S A := λ _, Err e.

(** [syn]'s error, or another one in its place ([map_err]). *)
Definition token_or {A} (e : DslError) (p : S → option (A * S)) : Parser S A := λ s,
  match p s with Some r => Ok r | None => Err e end.
Definition token {A} (p : S → option (A * S)) : Parser S A := token_or Syntax p.
Definition skip (p : S → option S) : Parser S unit := λ s,
  match p s with Some s => Ok (tt, s) | None => Err Syntax end.
Definition test (p : S → bool) : Parser S bool := λ s, Ok (p s, s).
Definition fork {A} (p : Parser S A) : Parser S A := λ s,
  match p s with Ok (a, _) => Ok (a, s) | Err e => Err e end.
(** [bracketed!], [braced!], [parenthesized!] and what is parsed from the content. *)
Definition group {A} (d : Delim) (p : Parser S A) : Parser S A := λ s,
  match next_group d s with
  | None => Err Syntax
  | Some (content, rest) => match p content with Ok (a, _) => Ok (a, rest) | Err e => Err e end
  end.
(** [base10_parse] to an unsigned type of [w] bits. *)
Definition base10_or (e : DslError) (w : Z) (l : LitInt) : Parser S Z :=
  if (0 <=? li_value l) && (li_value l <? 2 ^ w) then mret (li_value l) else fail e.
Definition base10 : Z → LitInt → Parser S Z := base10_or Syntax.

(** [while cond(input) { b = step(b)?; }] *)
Fixpoint while {B} (cond : S → bool) (step : B → Parser S B) (fuel : nat) (b : B) : Parser S B := λ s,
  if cond s then
    match fuel with
    | O => Err OutOfFuel
    | Datatypes.S fuel => (b ← step b; while cond step fuel b) s
    end
  else Ok (b, s).

Definition while_tokens {B} (cond : S → bool) (step : B → Parser S B) (b : B) : Parser S B := λ s,
  while cond step (Datatypes.S (tokens s)) b s.
Definition until_empty {B} (step : B → Parser S B) (b : B) : Parser S B := while_tokens (λ s, negb (is_empty s)) step b.

(** [if input.peek(Token![,]) { input.parse::<Token![,]>()?; }] *)
Definition optional_comma : Parser S unit :=
  comma ← test (peek_punct Comma);
  if (comma : bool) then skip (next_punct Comma) else mret tt.

(** ** Variables *)

Definition parse_access (constant : bool) (name : list Z) : Parser S AccessKind :=
  if bool_decide (name = str "ro") then mret AccRo
  else if bool_decide (name = str "rw") then mret AccRw
  else if bool_decide (name = str "wo") then mret AccWo
  else if constant && bool_decide (name = str "const") then mret AccConst
  else fail (UnknownAccess name).

(** [, pdo] *)
Definition parse_pdo_flag : Parser S bool :=
  comma ← test (peek_punct Comma);
  if (comma : bool) then
    skip (next_punct Comma);;
    flag ← token next_ident;
    if bool_decide (flag = str "pdo") then mret true else fail ExpectedPdo
  else mret false.

Definition parse_var_def : Parser S (VarDef Expr) :=
  type_name ← token next_ident;
  less ← test (peek_punct Less);
  capacity ← (if (less : bool) then
                skip (next_punct Less);;
                lit ← token next_lit_int;
                cap ← base10_or ExpectedCapacity 64 lit;
                skip (next_punct Greater);;
                mret (Some cap)
              else mret None);
  equals ← test (peek_punct Equals);
  default_value ← (if (equals : bool) then
                     skip (next_punct Equals);;
                     expr ← token next_expr;
                     skip (next_punct Comma);;
                     mret (Some expr)
                   else skip (next_punct Comma);; mret None);
  access_ident ← token next_any_ident;
  access ← parse_access true access_ident;
  pdo_mappable ← parse_pdo_flag;
  mret (mkVarDef type_name capacity default_value access pdo_mappable).

Definition parse_sub_entry : Parser S (SubEntry Expr) :=
  subindex ← group Bracket (lit ← token next_lit_int; base10_or ExpectedSubindex 8 lit);
  name ← token next_ident;
  skip (next_punct Colon);;
  var ← parse_var_def;
  skip (next_punct Semi);;
  mret (mkSubEntry subindex name var).

(** [array<Type, Count>, access[, pdo];] after the keyword. *)
Definition parse_array : Parser S ArrayDef :=
  skip (next_punct Less);;
  element_type ← token next_ident;
  skip (next_punct Comma);;
  lit ← token next_lit_int;
  count ← base10_or ExpectedCount 64 lit;
  skip (next_punct Greater);;
  skip (next_punct Comma);;
  access_ident ← token next_ident;
  access ← parse_access false access_ident;
  pdo_mappable ← parse_pdo_flag;
  skip (next_punct Semi);;
  mret (mkArrayDef element_type None count access pdo_mappable).

Definition parse_record : Parser S (list (SubEntry Expr)) :=
  subs ← group Brace (until_empty (λ subs, sub ← parse_sub_entry; mret (subs ++ [sub])) []);
  skip (next_punct Semi);;
  mret subs.

(** The keyword after the colon, if there is an identifier. *)
Definition peek_keyword : Parser S (option (list Z)) :=
  ident ← test peek_ident;
  if (ident : bool) then name ← fork (token next_ident); mret (Some name) else mret None.

Definition parse_entry : Parser S (OdEntry Expr) :=
  index ← group Bracket (lit ← token next_lit_int; base10_or ExpectedIndex 16 lit);
  name ← token next_ident;
  colon ← test (λ s, peek_punct Colon s && negb (peek2_punct Colon s));
  if (colon : bool) then
    skip (next_punct Colon);;
    keyword ← peek_keyword;
    if bool_decide (keyword = Some (str "record")) then
      token next_ident;;
      subs ← parse_record;
      mret (mkOdEntry index name (EntryRecord subs))
    else if bool_decide (keyword = Some (str "array")) then
      token next_ident;;
      arr ← parse_array;
      mret (mkOdEntry index name (EntryArray arr))
    else
      var ← parse_var_def;
      skip (next_punct Semi);;
      mret (mkOdEntry index name (EntryVar var))
  else fail ExpectedColon.

(** ** COB-IDs *)

Definition parse_cob_id_spec : Parser S CobIdSpec :=
  ident ← test peek_ident;
  if (ident : bool) then
    name ← token next_ident;
    if bool_decide (name = str "node_id") then
      skip (next_punct Plus);;
      lit ← token next_lit_int;
      base ← base10 32 lit;
      if base =? 0 then fail BaseRange
      else if 2 ^ 32 <=? base + 127 then fail Panicked
      else if 0x7FF <? base + 127 then fail BaseRange
      else mret (NodeRelative base)
    else fail ExpectedNodeId
  else
    lit ← token next_lit_int;
    raw ← base10 32 lit;
    if (raw =? 0) || (0x7FF <? raw) then fail CobIdRange else mret (Absolute raw).

(** ** Times *)

Record TimeSpec := mkTimeSpec { unit_ns : Z }.
Definition INHIBIT_TIME_SPEC : TimeSpec := mkTimeSpec 100000.
Definition EVENT_TIMER_SPEC : TimeSpec := mkTimeSpec 1000000.
Definition DEADLINE_SPEC : TimeSpec := mkTimeSpec 1000000.

Definition suffix_to_ns (suffix : list Z) : Parser S Z :=
  if bool_decide (suffix = str "us") then mret 1000
  else if bool_decide (suffix = str "ms") then mret 1000000
  else if bool_decide (suffix = str "s") then mret 1000000000
  else fail (UnknownUnit suffix).

(** *** [f64] *)

Definition f64_of (z : Z) : spec_float := binary_normalize 53 1024 z 0 false.
Definition f64_mul : spec_float → spec_float → spec_float := SFmul 53 1024.
Definition f64_div : spec_float → spec_float → spec_float := SFdiv 53 1024.
Definition f64_sub : spec_float → spec_float → spec_float := SFsub 53 1024.
Definition f64_lt : spec_float → spec_float → bool := SFltb.

(** [f64::round]: ties away from zero. *)
Definition f64_round (f : spec_float) : spec_float :=
  match f with
  | S754_finite s m (Zneg p) =>
      let q := (Zpos m + 2 ^ (Zpos p - 1)) / 2 ^ Zpos p in
      binary_normalize 53 1024 (if s then - q else q) 0 s
  | _ => f
  end.

(** [as u16], which saturates. *)
Definition f64_as_u16 (f : spec_float) : Z :=
  match f with
  | S754_finite false m e => Z.min 65535 (match e with Zneg p => Zpos m / 2 ^ Zpos p | _ => Zpos m * 2 ^ e end)
  | S754_infinity false => 65535
  | _ => 0
  end.

(** The double nearest to 1e-6. *)
Definition TOLERANCE : spec_float := S754_finite false 4722366482869645 (-72).

(** The wire units of a number of nanoseconds. *)
Definition time_units (spec : TimeSpec) (value_ns : spec_float) : Parser S Z :=
  let units := f64_div value_ns (f64_of (unit_ns spec)) in
  let rounded := f64_round units in
  if f64_lt TOLERANCE (SFabs (f64_sub units rounded)) then fail TimeNotRepresentable
  else if f64_lt rounded (S754_zero false) || f64_lt (f64_of 65535) rounded then fail TimeRange
  else mret (f64_as_u16 rounded).

Definition parse_time_value (spec : TimeSpec) : Parser S Z :=
  lit ← token next_lit;
  match lit with
  | LInt li =>
      if bool_decide (li_suffix li = []) then base10 16 li
      else
        v ← base10 64 li;
        factor ← suffix_to_ns (li_suffix li);
        if v * factor <? 2 ^ 64 then time_units spec (f64_of (v * factor)) else fail TimeOverflow
  | LFloat lf =>
      if bool_decide (lf_suffix lf = []) then fail FloatWithoutUnit
      else factor ← suffix_to_ns (lf_suffix lf); time_units spec (f64_mul (lf_value lf) (f64_of factor))
  | LOther => fail ExpectedTime
  end.

(** ** PDOs *)

Definition parse_transmission_type : Parser S Z :=
  lit_int ← test peek_lit_int;
  if (lit_int : bool) then
    lit ← token next_lit_int;
    raw ← base10 8 lit;
    if in_range 241 251 raw then fail (ReservedTransmissionType raw) else mret raw
  else
    kw ← token_or ExpectedTransmissionType next_ident;
    if bool_decide (kw = str "event_driven") then mret 255
    else if bool_decide (kw = str "event_driven_manufacturer") then mret 254
    else if bool_decide (kw = str "rtr_event") then mret 253
    else if bool_decide (kw = str "rtr_sync") then mret 252
    else if bool_decide (kw = str "sync_acyclic") then mret 0
    else if bool_decide (kw = str "sync_cyclic") then
      n ← group Paren (lit ← token next_lit_int; base10 8 lit);
      if in_range 1 240 n then mret n else fail SyncCyclicRange
    else fail (UnknownTransmissionType kw).

Definition parse_direction : Parser S PdoDirection :=
  name ← token next_ident;
  if bool_decide (name = str "tpdo") then mret DirTpdo
  else if bool_decide (name = str "rpdo") then mret DirRpdo
  else fail (UnknownDirection name).

Definition parse_mapping_kind : Parser S MappingKind :=
  kw ← token_or ExpectedMapping next_ident;
  if bool_decide (kw = str "mutable") then mret Mutable
  else if bool_decide (kw = str "immutable") then mret Immutable
  else fail (UnknownMapping kw).

(** The parameters of a PDO, as the locals of [parse_pdo_def]. *)
Record PdoParams := mkPdoParams {
  pp_cob_id : option CobIdSpec;
  pp_transmission_type : Z;
  pp_inhibit_time : Z;
  pp_event_timer : Z;
  pp_mapping : MappingKind;
}.

Definition default_params : PdoParams := mkPdoParams None 255 0 0 Immutable.

(** The value of one [key = value], without the comma. *)
Definition parse_pdo_value (direction : PdoDirection) (p : PdoParams) (key : list Z) : Parser S PdoParams :=
  let rpdo := bool_decide (direction = DirRpdo) in
  let '(mkPdoParams cob ty inhibit timer mapping) := p in
  if bool_decide (key = str "cob_id") then
    cob ← parse_cob_id_spec; mret (mkPdoParams (Some cob) ty inhibit timer mapping)
  else if bool_decide (key = str "transmission_type") then
    ty ← parse_transmission_type;
    if rpdo && in_range 252 253 ty then fail RtrRpdo else mret (mkPdoParams cob ty inhibit timer mapping)
  else if bool_decide (key = str "inhibit_time") then
    if rpdo then fail InhibitTimeOfRpdo
    else inhibit ← parse_time_value INHIBIT_TIME_SPEC; mret (mkPdoParams cob ty inhibit timer mapping)
  else if bool_decide (key = str "event_timer") then
    if rpdo then fail EventTimerOfRpdo
    else timer ← parse_time_value EVENT_TIMER_SPEC; mret (mkPdoParams cob ty inhibit timer mapping)
  else if bool_decide (key = str "deadline") then
    if negb rpdo then fail DeadlineOfTpdo
    else timer ← parse_time_value DEADLINE_SPEC; mret (mkPdoParams cob ty inhibit timer mapping)
  else if bool_decide (key = str "mapping") then
    mapping ← parse_mapping_kind; mret (mkPdoParams cob ty inhibit timer mapping)
  else fail (UnknownPdoParameter key).

Definition parse_pdo_param (direction : PdoDirection) (p : PdoParams) : Parser S PdoParams :=
  key ← token next_ident;
  skip (next_punct Equals);;
  p ← parse_pdo_value direction p key;
  optional_comma;;
  mret p.

Definition parse_mapping (mappings : list PdoMappingDef) : Parser S (list PdoMappingDef) :=
  field ← token next_ident;
  optional_comma;;
  mret (mappings ++ [mkMappingDef field None None]).

Definition parse_pdo_def : Parser S PdoDef :=
  direction ← parse_direction;
  number ← group Bracket (lit ← token next_lit_int;
                          number ← base10_or PdoNumber 16 lit; 
                          if (number <? 1) || (512 <? number) then fail PdoNumber else mret number);
  paren ← test peek_paren;
  p ← (if (paren : bool) then group Paren (until_empty (parse_pdo_param direction) default_params) else mret default_params);
  mappings ← group Brace (until_empty parse_mapping []);
  if PDO_MAX_MAPPINGS <? len mappings then fail TooManyMappings
  else
    skip (next_punct Semi);;
    if (4 <? number) && bool_decide (pp_cob_id p = None) then fail (NoDefaultCobId number)
    else
      mret (mkPdoDef direction number (pp_cob_id p) (pp_transmission_type p) (pp_inhibit_time p) (pp_event_timer p)
              (pp_mapping p) mappings).

(** ** SDO servers *)

Definition parse_server_param (p : option CobIdSpec * option CobIdSpec) : Parser S (option CobIdSpec * option CobIdSpec) :=
  key ← token next_ident;
  skip (next_punct Equals);;
  p ← (if bool_decide (key = str "cob_rx") then cob ← parse_cob_id_spec; mret (Some cob, snd p)
       else if bool_decide (key = str "cob_tx") then cob ← parse_cob_id_spec; mret (fst p, Some cob)
       else fail (UnknownServerParameter key));
  optional_comma;;
  mret p.

Definition parse_sdo_server_def : Parser S SdoServerDef :=
  token next_ident;;
  number ← group Bracket (lit ← token next_lit_int;
                          number ← base10_or ServerNumber 16 lit;
                          if (number <? 2) || (128 <? number) then fail ServerNumber else mret number);
  p ← group Paren (until_empty parse_server_param (None, None));
  skip (next_punct Semi);;
  match p with
  | (None, _) => fail NoCobRx
  | (_, None) => fail NoCobTx
  | (Some rx, Some tx) => mret (mkSdoServerDef number rx tx)
  end.

(** ** The definition *)

(** [export_eds_path] is not kept. *)
Record Attributes := mkAttributes { at_use_alloc : bool; at_validate_write : option (list Z) }.

Definition parse_attribute (a : Attributes) : Parser S Attributes :=
  skip (next_punct Pound);;
  group Bracket (
    name ← token next_ident;
    if bool_decide (name = str "export_eds") then
      paren ← test peek_paren;
      if negb paren then fail ExpectedExportPath
      else
        group Paren (
          key ← token next_ident;
          if negb (bool_decide (key = str "path")) then fail (UnknownParameter key)
          else skip (next_punct Equals);; token next_lit_str;; mret a)
    else if bool_decide (name = str "use_alloc") then mret (mkAttributes true (at_validate_write a))
    else if bool_decide (name = str "validate_write") then
      paren ← test peek_paren;
      if negb paren then fail ExpectedFnName
      else group Paren (f ← token next_ident; mret (mkAttributes (at_use_alloc a) (Some f)))
    else fail (UnknownAttribute name)).

Record Body := mkBody { bd_entries : list (OdEntry Expr); bd_pdos : list PdoDef; bd_servers : list SdoServerDef }.

Definition parse_item (b : Body) : Parser S Body :=
  ident ← test peek_ident;
  if (ident : bool) then
    name ← fork (token next_ident);
    if bool_decide (name = str "sdo_server") then
      s ← parse_sdo_server_def; mret (mkBody (bd_entries b) (bd_pdos b) (bd_servers b ++ [s]))
    else p ← parse_pdo_def; mret (mkBody (bd_entries b) (bd_pdos b ++ [p]) (bd_servers b))
  else e ← parse_entry; mret (mkBody (bd_entries b ++ [e]) (bd_pdos b) (bd_servers b)).

Definition parse_definition : Parser S (OdDefinition Expr) :=
  a ← while_tokens (peek_punct Pound) parse_attribute (mkAttributes false None);
  skip next_visibility;;
  skip next_struct;;
  name ← token next_ident;
  b ← group Brace (until_empty parse_item (mkBody [] [] []));
  let od := mkOdDefinition name (bd_entries b) (bd_pdos b) (bd_servers b) (at_use_alloc a) (at_validate_write a) in
  match validate od with Ok _ => mret od | Err e => fail (Invalid e) end.
End parsers.
