(* ===== verification/DslSpec.v ===== *)
(** * What the macro language guarantees

    The parser ends on every input, and a definition it accepts satisfies what
    the generators rely on ([od_typed], [raw_dummies], the ranges of
    [node_ready]), apart from what rustc checks of the generated code.  The
    proofs are in a small program logic: [parses n P p] says that [p] consumes
    at least [n] tokens, that its result satisfies [P], and that it does not
    run out of fuel. *)
From S2P Require Import Prelude Text Eds Gen GenTable GenNode PdoClientDevice Dsl.
From S2P Require Import Od PdoEngine.
From Stdlib Require Import SpecFloat.

(** What [syn]'s parsers promise: a token parser consumes a token, and the
    content of a group is smaller than the group. *)
Class TokenLaws (S Expr : Type) `{TokenStream S Expr} := {
  next_ident_tokens s x s' : next_ident s = Some (x, s') → (tokens s' < tokens s)%nat;
  next_any_ident_tokens s x s' : next_any_ident s = Some (x, s') → (tokens s' < tokens s)%nat;
  next_punct_tokens c s s' : next_punct c s = Some s' → (tokens s' < tokens s)%nat;
  next_struct_tokens s s' : next_struct s = Some s' → (tokens s' < tokens s)%nat;
  next_visibility_tokens s s' : next_visibility s = Some s' → (tokens s' ≤ tokens s)%nat;
  next_lit_int_tokens s x s' : next_lit_int s = Some (x, s') → (tokens s' < tokens s)%nat;
  next_lit_str_tokens s x s' : next_lit_str s = Some (x, s') → (tokens s' < tokens s)%nat;
  next_lit_tokens s x s' : next_lit s = Some (x, s') → (tokens s' < tokens s)%nat;
  next_expr_tokens s x s' : next_expr s = Some (x, s') → (tokens s' < tokens s)%nat;
  next_group_tokens d s c s' : next_group d s = Some (c, s') → (tokens c < tokens s)%nat ∧ (tokens s' < tokens s)%nat;
}.

(** ** The logic *)

Section logic.
Context {S Expr : Type} `{TokenLaws S Expr}.

Definition parses {A} (n : nat) (P : A → Prop) (p : Parser S A) : Prop := ∀ s,
  match p s with Ok (a, s') => P a ∧ (tokens s' + n ≤ tokens s)%nat | Err e => e ≠ OutOfFuel end.

Lemma parses_mono {A} n m (P Q : A → Prop) p : parses n P p → (m ≤ n)%nat → (∀ a, P a → Q a) → parses m Q p.
Proof. intros Hp Hm HPQ s. specialize (Hp s). destruct (p s) as [[a s']|]; [|done]. destruct Hp. split; [auto|lia]. Qed.

Lemma parses_weaken {A} n (P : A → Prop) p : parses n P p → parses 0 P p.
Proof. intros Hp. apply (parses_mono n 0 P P); [done|lia|done]. Qed.

Lemma parses_ret {A} (P : A → Prop) a : P a → parses 0 P (mret a).
Proof. intros Ha s. split; [done|lia]. Qed.

Lemma parses_fail {A} n (P : A → Prop) e : e ≠ OutOfFuel → parses n P (fail e).
Proof. by intros He s. Qed.

Lemma parses_bind {A B} n m (P : A → Prop) (Q : B → Prop) p (f : A → Parser S B) :
  parses n P p → (∀ a, P a → parses m Q (f a)) → parses (n + m) Q (p ≫= f).
Proof.
  intros Hp Hf s. unfold mbind, parser_bind. specialize (Hp s). destruct (p s) as [[a s']|]; [|done].
  destruct Hp as [Ha Hn]. specialize (Hf a Ha s'). destruct (f a s') as [[b s'']|]; [|done]. destruct Hf. split; [done|lia].
Qed.

(** The first parser consumes, or a later one does. *)
Lemma parses_bind_first {A B} n (P : A → Prop) (Q : B → Prop) p (f : A → Parser S B) :
  parses n P p → (∀ a, P a → parses 0 Q (f a)) → parses n Q (p ≫= f).
Proof. intros Hp Hf. replace n with (n + 0)%nat by lia. by eapply parses_bind. Qed.

Lemma parses_bind_rest {A B} n (P : A → Prop) (Q : B → Prop) p (f : A → Parser S B) :
  parses 0 P p → (∀ a, P a → parses n Q (f a)) → parses n Q (p ≫= f).
Proof. intros Hp Hf. by apply (parses_bind 0 n P). Qed.

Lemma parses_token_or {A} e (p : S → option (A * S)) :
  e ≠ OutOfFuel → (∀ s x s', p s = Some (x, s') → (tokens s' < tokens s)%nat) → parses 1 (λ _, True) (token_or e p).
Proof. intros He Hp s. unfold token_or. destruct (p s) as [[x s']|] eqn:Hs; [|done]. apply Hp in Hs. split; [done|lia]. Qed.

Lemma parses_skip (p : S → option S) :
  (∀ s s', p s = Some s' → (tokens s' < tokens s)%nat) → parses 1 (λ _, True) (skip p).
Proof. intros Hp s. unfold skip. destruct (p s) as [s'|] eqn:Hs; [|done]. apply Hp in Hs. split; [done|lia]. Qed.

Lemma parses_test (p : S → bool) : parses 0 (λ _, True) (test p).
Proof. intros s. split; [done|lia]. Qed.

Lemma parses_fork {A} n (P : A → Prop) p : parses n P p → parses 0 P (fork p).
Proof. intros Hp s. unfold fork. specialize (Hp s). destruct (p s) as [[a s']|]; [|done]. split; [by apply Hp|lia]. Qed.

Lemma parses_group {A} d n (P : A → Prop) p : parses n P p → parses 1 P (group d p).
Proof.
  intros Hp s. unfold group. destruct (next_group d s) as [[c s']|] eqn:Hg; [|done]. apply next_group_tokens in Hg as [_ Hs].
  specialize (Hp c). destruct (p c) as [[a c']|]; [|done]. split; [by apply Hp|lia].
Qed.

Lemma parses_base10_or e w l : e ≠ OutOfFuel → parses 0 (is_uint w) (base10_or e w l).
Proof.
  intros He s. unfold base10_or. destruct (_ && _) eqn:Hu; [|done]. apply is_uint_dec_spec in Hu. split; [done|lia].
Qed.

(** A loop whose body consumes a token ends within the fuel. *)
Lemma parses_while_tokens {B} cond (step : B → Parser S B) (I : B → Prop) b :
  (∀ b, I b → parses 1 I (step b)) → I b → parses 0 I (while_tokens cond step b).
Proof.
  intros Hstep. assert (∀ fuel b s, I b → (tokens s < fuel)%nat →
    match while cond step fuel b s with Ok (a, s') => I a ∧ (tokens s' ≤ tokens s)%nat | Err e => e ≠ OutOfFuel end) as Hw.
  { clear b. induction fuel as [|fuel IH]; intros b s Hb Hs; [lia|]. cbn [while]. destruct (cond s); [|split; [done|lia]].
    unfold mbind, parser_bind. specialize (Hstep b Hb s). destruct (step b s) as [[b' s']|]; [|done].
    destruct Hstep as [Hb' Hs']. specialize (IH b' s' Hb' ltac:(lia)).
    destruct (while cond step fuel b' s') as [[b'' s'']|]; [|done]. destruct IH. split; [done|lia]. }
  intros Hb s. unfold while_tokens. specialize (Hw (Datatypes.S (tokens s)) b s Hb ltac:(lia)).
  destruct (while cond step _ b s) as [[a s']|]; [|done]. destruct Hw. split; [done|lia].
Qed.
End logic.

Ltac token_laws :=
  lazymatch goal with
  | |- parses _ _ (token_or _ _) => apply parses_token_or
  | |- parses _ _ (token _) => apply parses_token_or
  | |- parses _ _ (skip _) => apply parses_skip
  end;
  first [ discriminate
        | intros; by eapply next_ident_tokens | intros; by eapply next_any_ident_tokens | intros; by eapply next_punct_tokens
        | intros; by eapply next_struct_tokens | intros; by eapply next_lit_int_tokens | intros; by eapply next_lit_str_tokens
        | intros; by eapply next_lit_tokens | intros; by eapply next_expr_tokens ].

Create HintDb parses discriminated.

(** The parser at the head of a sequence. *)
Ltac head_spec :=
  first [ token_laws
        | apply parses_test
        | apply parses_base10_or; discriminate
        | solve [eauto with parses]
        | eapply parses_fork; head_spec ].

Ltac parse_step :=
  lazymatch goal with
  | |- parses 0 _ (mret _) => apply parses_ret
  | |- parses _ _ (fail _) => apply parses_fail; discriminate
  | |- parses _ _ (if ?b then _ else _) => destruct b eqn:?
  | |- parses 0 _ (mbind _ _) =>
      eapply parses_bind_first; [solve [first [head_spec | eapply parses_weaken; head_spec]] | intros ? ?]
  | |- parses 1 _ (mbind _ _) =>
      first [ eapply parses_bind_first; [solve [head_spec] | intros ? ?]
            | eapply parses_bind_rest; [solve [first [head_spec | eapply parses_weaken; head_spec]] | intros ? ?] ]
  | |- parses _ _ (token _) => head_spec
  | |- parses _ _ (skip _) => head_spec
  end.

(** ** What is accepted *)

Definition cob_ok (c : CobIdSpec) : Prop :=
  match c with Absolute raw => 1 ≤ raw ≤ 0x7FF | NodeRelative base => 1 ≤ base ≤ 0x7FF - 127 end.

Definition named_mapping (m : PdoMappingDef) : Prop := map_bit_length m = None ∧ raw_mapping m = None.

Record params_ok (dir : PdoDirection) (p : PdoParams) : Prop := {
  pk_cob : ∀ c, pp_cob_id p = Some c → cob_ok c;
  pk_type : is_u8 (pp_transmission_type p) ∧ ¬ 241 ≤ pp_transmission_type p ≤ 251;
  pk_rtr : dir = DirRpdo → ¬ 252 ≤ pp_transmission_type p ≤ 253;
  pk_inhibit : is_u16 (pp_inhibit_time p) ∧ (dir = DirRpdo → pp_inhibit_time p = 0);
  pk_timer : is_u16 (pp_event_timer p);
}.

Record pdo_ok (p : PdoDef) : Prop := {
  po_number : 1 ≤ pd_number p ≤ 512;
  po_params : params_ok (pd_direction p)
    (mkPdoParams (pd_cob_id p) (pd_transmission_type p) (pd_inhibit_time p) (pd_event_timer p) (pd_mapping p));
  po_cob : 4 < pd_number p → pd_cob_id p ≠ None;
  po_mappings : len (pd_mappings p) ≤ 64 ∧ Forall named_mapping (pd_mappings p);
}.

Definition server_ok (s : SdoServerDef) : Prop := 2 ≤ sd_number s ≤ 128 ∧ cob_ok (sd_cob_rx s) ∧ cob_ok (sd_cob_tx s).

Section accepted.
Context {S Expr : Type} `{TokenLaws S Expr}.

Definition var_ok (v : VarDef Expr) : Prop := ∀ n, vd_capacity v = Some n → 0 ≤ n.

Definition entry_ok (e : OdEntry Expr) : Prop :=
  is_u16 (oe_index e) ∧
  match oe_kind e with
  | EntryVar v => var_ok v
  | EntryRecord subs => Forall (λ s, is_u8 (sub_subindex s) ∧ var_ok (sub_var s)) subs
  | EntryArray a => 0 ≤ arr_count a ∧ element_capacity a = None ∧ arr_access a ≠ AccConst
  end.

Lemma parses_group_int d e w :
  e ≠ OutOfFuel → parses 1 (is_uint w) (group (S := S) d (lit ← token next_lit_int; base10_or e w lit)).
Proof. intros He. apply (parses_group _ 0). eapply parses_bind_first; [eapply parses_weaken; token_laws|]. intros l _. by apply parses_base10_or. Qed.

Lemma parses_access constant name :
  parses (S := S) 0 (λ a, constant = false → a ≠ AccConst) (parse_access constant name).
Proof. unfold parse_access. repeat parse_step; try done. intros ->. by simpl in *. Qed.
#[local] Hint Resolve parses_access : parses.

Lemma parses_comma : parses (S := S) 0 (λ _, True) optional_comma.
Proof. unfold optional_comma. repeat parse_step; [|done]. eapply parses_weaken; head_spec. Qed.
#[local] Hint Resolve parses_comma : parses.

Lemma parses_pdo_flag : parses (S := S) 0 (λ _, True) parse_pdo_flag.
Proof. unfold parse_pdo_flag. by repeat parse_step. Qed.
#[local] Hint Resolve parses_pdo_flag : parses.

Lemma parses_var_def : parses 0 var_ok (parse_var_def (S := S)).
Proof.
  unfold parse_var_def. do 2 parse_step.
  apply (parses_bind_first 0 (λ c, ∀ n, c = Some n → 0 ≤ n)).
  { repeat parse_step; [|by intros]. intros n [= <-]. unfold is_uint in *. lia. }
  intros capacity Hc. parse_step. apply (parses_bind_first 0 (λ _, True)); [by repeat parse_step|]. intros default _.
  by repeat parse_step.
Qed.
#[local] Hint Resolve parses_var_def : parses.

Lemma parses_sub_entry : parses 1 (λ s, is_u8 (sub_subindex s) ∧ var_ok (sub_var s)) (parse_sub_entry (S := S)).
Proof.
  unfold parse_sub_entry. eapply parses_bind_first; [apply (parses_group_int _ _ 8); discriminate|]. intros i Hi.
  by repeat parse_step.
Qed.

Lemma parses_array : parses (S := S) 0 (λ a, 0 ≤ arr_count a ∧ element_capacity a = None ∧ arr_access a ≠ AccConst) parse_array.
Proof.
  unfold parse_array. repeat parse_step. simpl. unfold is_uint in *. split; [lia|]. split; [done|]. auto.
Qed.
#[local] Hint Resolve parses_array : parses.

Lemma Forall_snoc {A} (P : A → Prop) l x : Forall P l → P x → Forall P (l ++ [x]).
Proof. intros Hl Hx. apply Forall_app_2; [done|]. apply List.Forall_cons; [done|apply List.Forall_nil]. Qed.

(** A list that grows by what is parsed. *)
Lemma parses_list {A} (P : A → Prop) (step : list A → Parser S (list A)) :
  (∀ l, parses 1 (λ l', ∃ x, l' = l ++ [x] ∧ P x) (step l)) → parses 0 (Forall P) (until_empty step []).
Proof.
  intros Hs. apply parses_while_tokens; [|apply List.Forall_nil]. intros l Hl.
  apply (parses_mono 1 1 _ _ _ (Hs l)); [lia|]. intros l' (x & -> & Hx). by apply Forall_snoc.
Qed.

Lemma parses_record : parses 0 (Forall (λ s, is_u8 (sub_subindex s) ∧ var_ok (sub_var s))) (parse_record (S := S)).
Proof.
  unfold parse_record. eapply parses_bind_first; [eapply parses_weaken, (parses_group _ 0), (parses_list (λ s, is_u8 (sub_subindex s) ∧ var_ok (sub_var s)))|].
  - intros l. eapply parses_bind_first; [apply parses_sub_entry|]. intros s Hs. apply parses_ret. by exists s.
  - intros l Hl. by repeat parse_step.
Qed.
#[local] Hint Resolve parses_record : parses.

Lemma parses_keyword : parses (S := S) 0 (λ _, True) peek_keyword.
Proof. unfold peek_keyword. by repeat parse_step. Qed.
#[local] Hint Resolve parses_keyword : parses.

Lemma parses_entry : parses 1 entry_ok (parse_entry (S := S)).
Proof.
  unfold parse_entry. eapply parses_bind_first; [apply (parses_group_int _ _ 16); discriminate|]. intros i Hi.
  by repeat parse_step.
Qed.

(** *** PDOs *)

Lemma parses_cob_id_spec : parses (S := S) 0 cob_ok parse_cob_id_spec.
Proof. unfold parse_cob_id_spec, base10. repeat parse_step; unfold is_uint, cob_ok in *; lia. Qed.
#[local] Hint Resolve parses_cob_id_spec : parses.

Lemma parses_suffix suffix : parses (S := S) 0 (λ _, True) (suffix_to_ns suffix).
Proof. unfold suffix_to_ns. by repeat parse_step. Qed.
#[local] Hint Resolve parses_suffix : parses.

Lemma f64_as_u16_range f : is_u16 (f64_as_u16 f).
Proof.
  unfold is_uint. change (2 ^ 16) with 65536. unfold f64_as_u16. destruct f as [|[]| |[] m e]; try lia.
  assert (0 ≤ match e with Zneg p => Zpos m / 2 ^ Zpos p | _ => Zpos m * 2 ^ e end); [|lia].
  destruct e; [lia|nia|]. apply Z.div_pos; [lia|]. by apply Z.pow_pos_nonneg.
Qed.

Lemma parses_units spec ns : parses (S := S) 0 is_u16 (time_units spec ns).
Proof. unfold time_units. repeat parse_step. apply f64_as_u16_range. Qed.
#[local] Hint Resolve parses_units : parses.

Lemma parses_time_value spec : parses (S := S) 0 is_u16 (parse_time_value spec).
Proof.
  unfold parse_time_value, base10. parse_step. destruct a as [l|l|]; repeat parse_step; try (by apply parses_units).
  by apply parses_base10_or.
Qed.
#[local] Hint Resolve parses_time_value : parses.

Lemma parses_transmission_type :
  parses (S := S) 0 (λ t, is_u8 t ∧ ¬ 241 ≤ t ≤ 251) parse_transmission_type.
Proof.
  unfold parse_transmission_type, base10. parse_step. destruct a.
  - repeat parse_step. unfold in_range in *. split; [done|lia].
  - parse_step. repeat (match goal with |- parses _ _ (if ?b then mret _ else _) => destruct b; [apply parses_ret; unfold is_uint; lia|] end).
    parse_step; [|parse_step].
    eapply parses_bind_first; [eapply parses_weaken, (parses_group_int _ _ 8); discriminate|]. intros n Hn.
    repeat parse_step. unfold in_range, is_uint in *. lia.
Qed.
#[local] Hint Resolve parses_transmission_type : parses.

Lemma parses_direction : parses (S := S) 1 (λ _, True) parse_direction.
Proof. unfold parse_direction. by repeat parse_step. Qed.
#[local] Hint Resolve parses_direction : parses.

Lemma parses_mapping_kind : parses (S := S) 0 (λ _, True) parse_mapping_kind.
Proof. unfold parse_mapping_kind. by repeat parse_step. Qed.
#[local] Hint Resolve parses_mapping_kind : parses.

Lemma default_params_ok dir : params_ok dir default_params.
Proof. split; simpl; unfold is_uint; (done || lia). Qed.

Lemma parses_pdo_value dir p key : params_ok dir p → parses (S := S) 0 (params_ok dir) (parse_pdo_value dir p key).
Proof.
  intros [Hc Ht Hr Hi Hm]. destruct p as [cob ty inhibit timer mapping]. simpl in *. unfold parse_pdo_value.
  repeat parse_step; split; simpl; try done; try tauto; try congruence.
  - intros ->. unfold in_range in *. simpl in *. lia.
  - split; [done|]. intros ->. done.
Qed.

Lemma parses_pdo_param dir p : params_ok dir p → parses (S := S) 1 (params_ok dir) (parse_pdo_param dir p).
Proof.
  intros Hp. unfold parse_pdo_param. do 2 parse_step. eapply parses_bind_first; [by apply parses_pdo_value|].
  intros p' Hp'. by repeat parse_step.
Qed.

Lemma parses_mappings : parses (S := S) 0 (Forall named_mapping) (until_empty parse_mapping []).
Proof.
  apply (parses_list named_mapping). intros l. unfold parse_mapping. repeat parse_step. by eexists.
Qed.

(** A number in brackets with a range of its own. *)
Lemma parses_number e lo hi :
  e ≠ OutOfFuel → 0 ≤ lo →
  parses (S := S) 1 (λ n, lo ≤ n ≤ hi)
    (group Bracket (lit ← token next_lit_int; number ← base10_or e 16 lit;
                    if (number <? lo) || (hi <? number) then fail e else mret number)).
Proof.
  intros He Hlo. apply (parses_group _ 0). parse_step. eapply parses_bind_first; [by apply parses_base10_or|]. intros n Hn.
  destruct (_ || _) eqn:Hr; [by apply parses_fail|]. apply parses_ret. lia.
Qed.

Lemma parses_pdo_def : parses (S := S) 1 pdo_ok parse_pdo_def.
Proof.
  unfold parse_pdo_def. eapply parses_bind_first; [apply parses_direction|]. intros dir _.
  eapply parses_bind_first; [eapply parses_weaken, (parses_number PdoNumber 1 512); [discriminate|lia]|]. intros n Hn.
  parse_step. apply (parses_bind_first 0 (params_ok dir)).
  { destruct a; [|apply parses_ret, default_params_ok]. eapply parses_weaken, (parses_group _ 0), parses_while_tokens.
    - apply parses_pdo_param.
    - apply default_params_ok. }
  intros [cob ty inhibit timer mapping] Hp. eapply parses_bind_first; [eapply parses_weaken, (parses_group _ 0), parses_mappings|].
  intros ms Hms. parse_step; [parse_step|]. do 2 parse_step; [parse_step|]. apply parses_ret. simpl in *. split; simpl; try done.
  - intros H4 ->. rewrite bool_decide_eq_true_2 in * by done. lia.
  - unfold PDO_MAX_MAPPINGS in *. split; [lia|done].
Qed.

(** *** Servers *)

Definition server_params_ok (p : option CobIdSpec * option CobIdSpec) : Prop :=
  (∀ c, fst p = Some c → cob_ok c) ∧ (∀ c, snd p = Some c → cob_ok c).

Lemma parses_server_param p : server_params_ok p → parses (S := S) 1 server_params_ok (parse_server_param p).
Proof.
  intros [Hr Ht]. unfold parse_server_param. do 2 parse_step.
  apply (parses_bind_first 0 server_params_ok).
  { repeat parse_step; split; simpl; try done; by intros c [= <-]. }
  intros p' Hp'. by repeat parse_step.
Qed.

Lemma parses_server_def : parses (S := S) 1 server_ok parse_sdo_server_def.
Proof.
  unfold parse_sdo_server_def. parse_step.
  eapply parses_bind_first; [eapply parses_weaken, (parses_number ServerNumber 2 128); [discriminate|lia]|]. intros n Hn.
  eapply parses_bind_first; [eapply parses_weaken, (parses_group _ 0), (parses_while_tokens _ _ server_params_ok)|].
  - apply parses_server_param.
  - done.
  - intros p [Hr Ht]. parse_step. destruct p as [[rx|] [tx|]]; simpl in *; try parse_step. split; simpl; auto.
Qed.

(** *** The definition *)

Lemma parses_attribute a : parses (S := S) 1 (λ _, True) (parse_attribute a).
Proof.
  unfold parse_attribute. parse_step. eapply parses_weaken, (parses_group _ 0). parse_step.
  parse_step.
  - do 2 parse_step; [parse_step|]. eapply parses_weaken, (parses_group _ 0). by repeat parse_step.
  - parse_step; [by parse_step|]. parse_step; [|parse_step]. do 2 parse_step; [parse_step|].
    eapply parses_weaken, (parses_group _ 0). by repeat parse_step.
Qed.

Definition body_ok (b : Body (Expr := Expr)) : Prop :=
  Forall entry_ok (bd_entries b) ∧ Forall pdo_ok (bd_pdos b) ∧ Forall server_ok (bd_servers b).

Lemma parses_item b : body_ok b → parses (S := S) 1 body_ok (parse_item b).
Proof.
  intros (He & Hp & Hs). unfold parse_item. parse_step. destruct a.
  - parse_step. parse_step.
    + eapply parses_bind_first; [apply parses_server_def|]. intros s Hs'. apply parses_ret. split; [done|]. split; [done|].
      by apply Forall_snoc.
    + eapply parses_bind_first; [apply parses_pdo_def|]. intros p Hp'. apply parses_ret. split; [done|]. split; [|done].
      by apply Forall_snoc.
  - eapply parses_bind_first; [apply parses_entry|]. intros e He'. apply parses_ret. split; [|by split].
    by apply Forall_snoc.
Qed.

(** What the parser promises of a definition. *)
Record definition_ok (od : OdDefinition Expr) : Prop := {
  df_valid : validate od = Ok tt;
  df_entries : Forall entry_ok (od_entries od);
  df_pdos : Forall pdo_ok (od_pdos od);
  df_servers : Forall server_ok (od_sdo_servers od);
}.

Lemma parses_definition : parses 0 definition_ok (parse_definition (S := S)).
Proof.
  unfold parse_definition.
  eapply parses_bind_first; [apply (parses_while_tokens _ _ (λ _, True)); [intros; apply parses_attribute|done]|]. intros a _.
  apply (parses_bind_first 0 (λ _, True)).
  { intros s. unfold skip. destruct (next_visibility s) eqn:Hv; [|done]. apply next_visibility_tokens in Hv. split; [done|lia]. }
  intros [] _. do 2 parse_step.
  eapply parses_bind_first; [eapply parses_weaken, (parses_group _ 0), (parses_while_tokens _ _ body_ok)|].
  - apply parses_item.
  - by split.
  - intros b (He & Hp & Hs). destruct (validate _) as [[]|] eqn:Hv; [|parse_step]. by apply parses_ret.
Qed.
End accepted.

(** ** For the generators *)

(** What rustc refuses in the generated code: two fields of one name, and an
    array without an accessible element. *)
Definition compiles {Expr} (od : OdDefinition Expr) : Prop :=
  NoDup (map fl_name (flatten (od_entries od)) ++ map ae_name (collect_arrays (od_entries od))) ∧
  Forall (λ a, 1 ≤ as_u8 (arr_count (ae_def a))) (collect_arrays (od_entries od)).

Section ready.
Context {Expr : Type}.

Lemma cob_ok_u32 (c : option CobIdSpec) :
  (∀ x, c = Some x → cob_ok x) → match c with Some (Absolute x) | Some (NodeRelative x) => is_u32 x | None => True end.
Proof. intros H. destruct c as [[x|x]|]; [..|done]; specialize (H _ eq_refl); unfold cob_ok, is_uint in *; lia. Qed.

Lemma definition_typed (od : OdDefinition Expr) : definition_ok od → compiles od → od_typed od.
Proof.
  intros [_ He Hp Hs] [Hn Ha]. split.
  - eapply List.Forall_impl; [|exact He]. by intros e [? _].
  - eapply List.Forall_impl; [|exact He]. intros e [_ Hk] subs Hsubs. rewrite Hsubs in Hk.
    eapply List.Forall_impl; [|exact Hk]. by intros s [? _].
  - apply List.Forall_forall. intros a Hin. split; [by apply (proj1 (List.Forall_forall _ _) Ha)|].
    unfold collect_arrays in Hin. apply list_elem_of_In, list_elem_of_omap in Hin as (e & He' & Hin). apply list_elem_of_In in He'.
    pose proof (proj1 (List.Forall_forall _ _) He _ He') as [_ Hk]. destruct (oe_kind e); simplify_eq/=. tauto.
  - exact Hn.
  - eapply List.Forall_impl; [|exact Hp]. intros p [Hnum [Hc [Ht _] _ [Hi _] Htm] _ _]. simpl in *.
    split; [done|]. split; [done|]. split; [done|]. split; [done|]. by apply cob_ok_u32.
  - eapply List.Forall_impl; [|exact Hp]. intros p [_ _ _ [_ Hm]]. eapply List.Forall_impl; [|exact Hm]. by intros m [-> _].
  - eapply List.Forall_impl; [|exact Hs]. by intros s (? & _).
Qed.

Lemma definition_raw (od : OdDefinition Expr) : definition_ok od → Forall raw_dummies (od_pdos od).
Proof.
  intros [_ _ Hp _]. eapply List.Forall_impl; [|exact Hp]. intros p [_ _ _ [_ Hm]].
  eapply List.Forall_impl; [|exact Hm]. intros m [_ Hraw] r Hr. congruence.
Qed.

(** The identifiers of the definition resolve for every node id. *)
Definition cob_resolves (c : CobIdSpec) : Prop := ∀ id, 1 ≤ id ≤ 127 → ∃ r, resolve_cob c id = Ret r ∧ 1 ≤ r ≤ 0x7FF.

Lemma cob_ok_resolves c : cob_ok c → cob_resolves c.
Proof.
  intros Hc id Hid. destruct c as [r|b]; simpl in *.
  - exists r. rewrite wrap_id by (unfold is_uint; lia). by split.
  - exists (b + id). rewrite wrap_id by (unfold is_uint; lia). rewrite checked_ret by (unfold is_uint; lia). split; [done|lia].
Qed.

(** C38. The macro language only lets valid definitions through: for every token
    stream, the parser ends with an error or with a definition that passed
    [validate], whose PDOs and SDO servers have numbers, types, times and
    identifiers in their ranges (identifiers resolve to 11 bits for every node
    id, without overflow), map objects by name, at most 64, and that is
    [od_typed], which the theorems on generated dictionaries ask, as soon as
    rustc accepts its fields. *)
Theorem macro_definition_valid {S : Type} `{TokenLaws S Expr} (s : S) :
  match parse_definition s with
  | Err e => e ≠ OutOfFuel
  | Ok (od, _) =>
      validate od = Ok tt ∧ Forall pdo_ok (od_pdos od) ∧
      Forall (λ p, ∀ c, pd_cob_id p = Some c → cob_resolves c) (od_pdos od) ∧
      Forall (λ s, 2 ≤ sd_number s ≤ 128 ∧ cob_resolves (sd_cob_rx s) ∧ cob_resolves (sd_cob_tx s)) (od_sdo_servers od) ∧
      Forall raw_dummies (od_pdos od) ∧ (compiles od → od_typed od)
  end.
Proof.
  pose proof (parses_definition s) as Hp. destruct (parse_definition s) as [[od s']|]; [|done]. destruct Hp as [Hok _].
  pose proof Hok as [Hv _ Hpdos Hservers]. split; [done|]. split; [done|]. split; [|split; [|split]].
  - eapply List.Forall_impl; [|exact Hpdos]. intros p [_ [Hc _ _ _ _] _ _] c Hpc. apply cob_ok_resolves. by apply Hc.
  - eapply List.Forall_impl; [|exact Hservers]. intros x (Hn & Hr & Ht). split; [done|]. by split; apply cob_ok_resolves.
  - by apply definition_raw.
  - by apply definition_typed.
Qed.
End ready.

(** ** Token trees *)

Inductive Tree :=
| TIdent (name : list Z)
| TKeyword (name : list Z)
| TPunct (c : Punct)
| TLit (l : Lit)
| TStr (l : list Z)
| TGroup (d : Delim) (content : list Tree).

#[export] Instance Punct_eq_dec : EqDecision Punct.
Proof. solve_decision. Defined.
#[export] Instance Delim_eq_dec : EqDecision Delim.
Proof. solve_decision. Defined.

Fixpoint tree_tokens (t : Tree) : nat :=
  match t with TGroup _ l => Datatypes.S (foldr (λ t n, tree_tokens t + n)%nat 0%nat l) | _ => 1%nat end.

Definition list_tokens (l : list Tree) : nat := foldr (λ t n, tree_tokens t + n)%nat 0%nat l.

(** Expressions are single literals. *)
#[export] Instance tree_stream : TokenStream (list Tree) Lit := {
  tokens := list_tokens;
  is_empty s := match s with [] => true | _ => false end;
  peek_ident s := match s with TIdent _ :: _ => true | _ => false end;
  peek_lit_int s := match s with TLit (LInt _) :: _ => true | _ => false end;
  peek_punct c s := match s with TPunct x :: _ => bool_decide (x = c) | _ => false end;
  peek2_punct c s := match s with _ :: TPunct x :: _ => bool_decide (x = c) | _ => false end;
  peek_paren s := match s with TGroup Paren _ :: _ => true | _ => false end;
  next_ident s := match s with TIdent x :: s => Some (x, s) | _ => None end;
  next_any_ident s := match s with TIdent x :: s | TKeyword x :: s => Some (x, s) | _ => None end;
  next_punct c s := match s with TPunct x :: s => if bool_decide (x = c) then Some s else None | _ => None end;
  next_struct s := match s with TKeyword x :: s => if bool_decide (x = str "struct") then Some s else None | _ => None end;
  next_visibility s := match s with TKeyword x :: s' => if bool_decide (x = str "pub") then Some s' else Some s | _ => Some s end;
  next_lit_int s := match s with TLit (LInt l) :: s => Some (l, s) | _ => None end;
  next_lit_str s := match s with TStr l :: s => Some (l, s) | _ => None end;
  next_lit s := match s with TLit l :: s => Some (l, s) | _ => None end;
  next_expr s := match s with TLit l :: s => Some (l, s) | _ => None end;
  next_group d s := match s with TGroup x l :: s => if bool_decide (x = d) then Some (l, s) else None | _ => None end;
}.

Lemma tree_tokens_pos t : (1 ≤ tree_tokens t)%nat.
Proof. destruct t; simpl; lia. Qed.

#[export] Instance tree_laws : TokenLaws (list Tree) Lit.
Proof.
  assert (∀ t s, (list_tokens s < list_tokens (t :: s))%nat) as Hc.
  { intros t s. unfold list_tokens. cbn [foldr]. pose proof (tree_tokens_pos t). lia. }
  split; cbn [next_ident next_any_ident next_punct next_struct next_visibility next_lit_int next_lit_str next_lit next_expr next_group tokens tree_stream].
  all: intros; repeat case_match; simplify_eq; try (by apply Hc); try lia.
  - apply Nat.lt_le_incl, Hc.
  - split; [|by apply Hc]. unfold list_tokens. cbn [foldr tree_tokens]. lia.
Qed.

(** *** A definition *)

Definition num_lit (z : Z) : Tree := TLit (LInt (mkLitInt z [])).
Definition key (name : list Z) (value : list Tree) : list Tree := TIdent name :: TPunct Equals :: value.

Definition dsl_text : list Tree :=
  [ TPunct Pound; TGroup Bracket [TIdent (str "use_alloc")]; TKeyword (str "pub"); TKeyword (str "struct"); TIdent (str "Demo");
    TGroup Brace (
      [TGroup Bracket [num_lit 0x2000]; TIdent (str "speed"); TPunct Colon; TIdent (str "i16"); TPunct Equals; num_lit 5;
       TPunct Comma; TIdent (str "rw"); TPunct Comma; TIdent (str "pdo"); TPunct Semi]
      ++ [TGroup Bracket [num_lit 0x2001]; TIdent (str "gains"); TPunct Colon; TIdent (str "record");
          TGroup Brace [TGroup Bracket [num_lit 1]; TIdent (str "gains_p"); TPunct Colon; TIdent (str "i24"); TPunct Comma;
                        TIdent (str "rw"); TPunct Comma; TIdent (str "pdo"); TPunct Semi]; TPunct Semi]
      ++ [TGroup Bracket [num_lit 0x2100]; TIdent (str "table"); TPunct Colon; TIdent (str "array"); TPunct Less;
          TIdent (str "u16"); TPunct Comma; num_lit 4; TPunct Greater; TPunct Comma; TIdent (str "ro"); TPunct Semi]
      ++ [TIdent (str "tpdo"); TGroup Bracket [num_lit 1];
          TGroup Paren (key (str "transmission_type") [TIdent (str "sync_cyclic"); TGroup Paren [num_lit 3]; TPunct Comma]
                        ++ key (str "inhibit_time") [TLit (LInt (mkLitInt 50 (str "ms")))]);
          TGroup Brace [TIdent (str "speed"); TPunct Comma]; TPunct Semi]
      ++ [TIdent (str "rpdo"); TGroup Bracket [num_lit 5];
          TGroup Paren (key (str "cob_id") [TIdent (str "node_id"); TPunct Plus; num_lit 0x1B0; TPunct Comma]
                        ++ key (str "deadline") [TLit (LFloat (mkLitFloat (S754_finite false 7205759403792794 (-56)) (str "s")))]);
          TGroup Brace [TIdent (str "gains_p")]; TPunct Semi]
      ++ [TIdent (str "sdo_server"); TGroup Bracket [num_lit 2];
          TGroup Paren (key (str "cob_rx") [num_lit 0x640; TPunct Comma] ++ key (str "cob_tx") [TIdent (str "node_id"); TPunct Plus; num_lit 0x5C0]);
          TPunct Semi]) ].

Definition dsl_definition : OdDefinition Lit :=
  mkOdDefinition (str "Demo")
    [ mkOdEntry 0x2000 (str "speed") (EntryVar (mkVarDef (str "i16") None (Some (LInt (mkLitInt 5 []))) AccRw true));
      mkOdEntry 0x2001 (str "gains") (EntryRecord [mkSubEntry 1 (str "gains_p") (mkVarDef (str "i24") None None AccRw true)]);
      mkOdEntry 0x2100 (str "table") (EntryArray (mkArrayDef (str "u16") None 4 AccRo false)) ]
    [ mkPdoDef DirTpdo 1 None 3 500 0 Immutable [mkMappingDef (str "speed") None None];
      mkPdoDef DirRpdo 5 (Some (NodeRelative 0x1B0)) 255 0 100 Immutable [mkMappingDef (str "gains_p") None None] ]
    [ mkSdoServerDef 2 (Absolute 0x640) (NodeRelative 0x5C0) ] true None.

(** 50 ms are 500 units of 100 us; 0.1 s are 100 ms. *)
Lemma macro_definition_valid_witness :
  parse_definition dsl_text = Ok (dsl_definition, []) ∧ od_typed dsl_definition.
Proof.
  assert (parse_definition dsl_text = Ok (dsl_definition, [])) as Hp by (vm_compute; reflexivity). split; [exact Hp|].
  pose proof (macro_definition_valid (Expr := Lit) dsl_text) as H. rewrite Hp in H. destruct H as (_ & _ & _ & _ & _ & H). apply H.
  split; [by_decision|]. repeat first [apply List.Forall_nil | apply List.Forall_cons; [vm_compute; congruence|]].
Defined.

(** Times that are not a whole number of units, or too long. *)
Example odd_time : parse_time_value (Expr := Lit) INHIBIT_TIME_SPEC [TLit (LInt (mkLitInt 150 (str "us")))] = Err TimeNotRepresentable.
Proof. vm_compute. reflexivity. Qed.
Example long_time : parse_time_value (Expr := Lit) EVENT_TIMER_SPEC [TLit (LInt (mkLitInt 66 (str "s")))] = Err TimeRange.
Proof. vm_compute. reflexivity. Qed.
Example reserved_type : parse_transmission_type (Expr := Lit) [num_lit 245] = Err (ReservedTransmissionType 245).
Proof. vm_compute. reflexivity. Qed.
(** The largest [u32] bases overflow in [base + 127]; compiled without overflow
    checks, the macro would take [node_id + 0xFFFFFFFF]. *)
Example base_overflow :
  parse_cob_id_spec (Expr := Lit) [TIdent (str "node_id"); TPunct Plus; num_lit 0xFFFFFFFF] = Err Panicked.
Proof. reflexivity. Qed.
