(* ===== verification/EdsExport.v ===== *)
(** * Exporting EDS files

    [canopen-derive/src/eds_export.rs]: the EDS text of a definition, which the
    generated device serves as 0x1021.  Text is a list of lines, each of which
    a [writeln!] appends with its line feed.  [syn::Expr] is a parameter seen
    through [view], the constructors the code matches on; a literal is its text
    and what [base10_parse] makes of it.  Writing the file is not modelled. *)
From S2P Require Import Prelude Text Eds EdsParser.

Definition type_to_eds_code (ty : list Z) : Z :=
  if bool_decide (ty = str "bool") then 0x0001
  else if bool_decide (ty = str "i8") then 0x0002
  else if bool_decide (ty = str "i16") then 0x0003
  else if bool_decide (ty = str "i32") then 0x0004
  else if bool_decide (ty = str "u8") then 0x0005
  else if bool_decide (ty = str "u16") then 0x0006
  else if bool_decide (ty = str "u32") then 0x0007
  else if bool_decide (ty = str "i24") then 0x0010
  else if bool_decide (ty = str "u24") then 0x0016
  else if bool_decide (ty = str "f32") then 0x0008
  else if bool_decide (ty = str "f64") then 0x0011
  else if bool_decide (ty = str "visible_string") then 0x0009
  else if bool_decide (ty = str "octet_string") then 0x000A
  else if bool_decide (ty = str "domain") then 0x000F
  else if bool_decide (ty = str "i64") then 0x0015
  else if bool_decide (ty = str "u64") then 0x001B
  else 0x0007.

Definition access_to_eds (access : AccessKind) : list Z :=
  match access with AccRo => str "ro" | AccConst => str "const" | AccRw => str "rw" | AccWo => str "wo" end.

(** ** Default values *)

Inductive UnOp := Neg | Not | OtherUnOp.
Inductive BinOp := Add | Sub | Mul | Div | Rem | BitOr | BitAnd | BitXor | Shl | Shr | OtherBinOp.

(** An integer literal: its text, suffix included, the suffix, and its number. *)
Record IntLit := mkIntLit { il_text : list Z; il_suffix : list Z; il_value : Z }.

Inductive SynLit :=
| LitStr (value : list Z)
| LitBool (b : bool)
| LitFloat (digits : list Z)
| LitInt (l : IntLit)
| LitByte (b : Z)
| LitOther.

Inductive Syn :=
| ExprLit (l : SynLit)
| ExprParen (e : Syn)
| ExprGroup (e : Syn)
| ExprCast (e : Syn)
| ExprUnary (op : UnOp) (e : Syn)
| ExprBinary (op : BinOp) (l r : Syn)
| ExprOther.

(** [i128] *)
Definition is_i128 (z : Z) : bool := in_range (- 2 ^ 127) (2 ^ 127 - 1) z.
Definition checked_i128 (z : Z) : option Z := if is_i128 z then Some z else None.
Definition wrap_i128 (z : Z) : Z := (z + 2 ^ 127) mod 2 ^ 128 - 2 ^ 127.
(** [u32::try_from(r).ok()] and the bound of a checked shift. *)
Definition shift_amount (r : Z) : option Z := if in_range 0 127 r then Some r else None.

Definition eval_binary (op : BinOp) (l r : Z) : option Z :=
  match op with
  | Add => checked_i128 (l + r)
  | Sub => checked_i128 (l - r)
  | Mul => checked_i128 (l * r)
  | Div => if r =? 0 then None else checked_i128 (Z.quot l r)
  | Rem => if (r =? 0) || ((l =? - 2 ^ 127) && (r =? -1)) then None else Some (Z.rem l r)
  | BitOr => Some (Z.lor l r)
  | BitAnd => Some (Z.land l r)
  | BitXor => Some (Z.lxor l r)
  | Shl => n ← shift_amount r; Some (wrap_i128 (Z.shiftl l n))
  | Shr => n ← shift_amount r; Some (Z.shiftr l n)
  | OtherBinOp => None
  end.

(** A negation that overflows panics. *)
Fixpoint eval_int (e : Syn) : exec (option Z) :=
  match e with
  | ExprLit (LitInt i) => mret (if il_value i <? 2 ^ 127 then Some (il_value i) else None)
  | ExprLit (LitBool b) => mret (Some (if b then 1 else 0))
  | ExprLit (LitByte b) => mret (Some b)
  | ExprLit _ => mret None
  | ExprParen e | ExprGroup e | ExprCast e => eval_int e
  | ExprUnary Neg e =>
      r ← eval_int e;
      match r with
      | None => mret None
      | Some v => _ ← assert_ (is_i128 (- v)); mret (Some (- v))
      end
  | ExprUnary Not e => r ← eval_int e; mret (match r with Some v => Some (Z.lnot v) | None => None end)
  | ExprUnary OtherUnOp _ => mret None
  | ExprBinary op l r =>
      l ← eval_int l;
      match l with
      | None => mret None
      | Some l =>
          r ← eval_int r;
          match r with None => mret None | Some r => mret (eval_binary op l r) end
      end
  | ExprOther => mret None
  end.

(** The bits of an [f64]; negation flips the sign. *)
Fixpoint eval_float (e : Syn) : option Z :=
  match e with
  | ExprLit (LitFloat digits) => parse_float f64 digits
  | ExprLit (LitInt i) => parse_float f64 (decimal (il_value i))
  | ExprParen e => eval_float e
  | ExprUnary Neg e => Z.lxor (sign_bit f64) <$> eval_float e
  | _ => None
  end.

(** *** [Display] for [f64]

    The shortest decimal that reads back as the number, the nearest such; no
    exponent is written. *)

Definition pow10_frac (k : Z) : Z * Z := if 0 <=? k then (10 ^ k, 1) else (1, 10 ^ (- k)).

(** The largest [k <= top] with [10 ^ k <= num / den]. *)
Fixpoint log10_frac (fuel : nat) (top num den : Z) : Z :=
  match fuel with
  | O => top
  | S fuel =>
      let '(p, q) := pow10_frac top in
      if p * den <=? num * q then top else log10_frac fuel (top - 1) num den
  end.

Definition decimal_bits (m k : Z) : Z := let '(p, q) := pow10_frac k in float_bits f64 (m * p) q.

(** With [n] digits: the nearer neighbour first. *)
Definition try_digits (bits num den top n : Z) : option (Z * Z) :=
  let k := top - n + 1 in
  let '(p, q) := pow10_frac k in
  let lo := num * q / (den * p) in
  let nearer_up := den * p <? 2 * (num * q - lo * (den * p)) in
  let a := if nearer_up then lo + 1 else lo in
  let b := if nearer_up then lo else lo + 1 in
  if decimal_bits a k =? bits then Some (a, k)
  else if decimal_bits b k =? bits then Some (b, k) else None.

Fixpoint shortest (fuel : nat) (bits num den top n : Z) : Z * Z :=
  match fuel with
  | O => (0, 0)
  | S fuel =>
      match try_digits bits num den top n with
      | Some r => r
      | None => shortest fuel bits num den top (n + 1)
      end
  end.

(** [m * 10 ^ k] *)
Definition place_point (m k : Z) : list Z :=
  let ds := decimal m in
  if 0 <=? k then (if m =? 0 then ds else ds ++ replicate (Z.to_nat k) 48)
  else
    let n := Z.to_nat (- k) in
    let ds := replicate (S n - length ds) 48 ++ ds in
    take (length ds - n) ds ++ str "." ++ drop (length ds - n) ds.

(** A fraction's trailing zeros, which only appear when [m] ends in them. *)
Fixpoint drop_zeros (fuel : nat) (m k : Z) : Z * Z :=
  match fuel with
  | O => (m, k)
  | S fuel => if (m mod 10 =? 0) && negb (m =? 0) then drop_zeros fuel (m / 10) (k + 1) else (m, k)
  end.

Definition display_f64 (bits : Z) : list Z :=
  let negative := sign_bit f64 <=? bits in
  let mag := if negative then bits - sign_bit f64 else bits in
  let sign := if negative then [minus] else [] in
  if inf_bits f64 <? mag then str "NaN"
  else if mag =? inf_bits f64 then sign ++ str "inf"
  else if mag =? 0 then sign ++ str "0"
  else
    let e := Z.max (mag / 2 ^ 52) 1 in
    let m := if mag <? 2 ^ 52 then mag else mag mod 2 ^ 52 + 2 ^ 52 in
    let k := e - 1075 in
    let num := if 0 <=? k then m * 2 ^ k else m in
    let den := if 0 <=? k then 1 else 2 ^ (- k) in
    let '(d, k) := shortest 17 mag num den (log10_frac 640 309 num den) 1 in
    let '(d, k) := drop_zeros 17 d k in
    sign ++ place_point d k.

Example display_floats :
  display_f64 0x3FB999999999999A = str "0.1" ∧ display_f64 0xBFF8000000000000 = str "-1.5" ∧
  display_f64 0x7FEFFFFFFFFFFFFF = str "17976931348623157" ++ replicate 292 48 ∧
  display_f64 0x3FF0000000000000 = str "1" ∧ display_f64 0x40F86A0000000000 = str "100000" ∧
  display_f64 0x3FD5555555555555 = str "0.3333333333333333" ∧ display_f64 0x8000000000000000 = str "-0".
Proof. by vm_compute. Qed.

(** *** Texts of literals *)

(** [trim_end_matches(p)] *)
Fixpoint trim_end_fuel (fuel : nat) (p s : list Z) : list Z :=
  match fuel with
  | O => s
  | S fuel =>
      match strip_prefix (rev p) (rev s) with Some r => trim_end_fuel fuel p (rev r) | None => s end
  end.
Definition trim_end_matches (p s : list Z) : list Z := trim_end_fuel (match p with [] => 0%nat | _ => length s end) p s.

Definition underscore : Z := 95.

Definition is_float_type (ty : list Z) : bool := bool_decide (ty = str "f32") || bool_decide (ty = str "f64").

(** The number of an expression, or nothing. *)
Definition computed_default (e : Syn) : exec (list Z) :=
  v ← eval_int e;
  mret (match v with
        | Some v => if v <? 0 then signed_decimal v else str "0x" ++ hex v
        | None => []
        end).

(** [eds_default] for an expression. *)
Definition expr_default (ty : list Z) (e : Syn) : exec (list Z) :=
  match e with
  | ExprLit (LitStr s) => mret s
  | ExprLit (LitBool b) => mret (if b then str "1" else str "0")
  | ExprLit (LitFloat digits) => mret digits
  | _ =>
      if is_float_type ty then mret (match eval_float e with Some v => display_f64 v | None => [] end)
      else
        match e with
        | ExprLit (LitInt i) =>
            let text := List.filter (λ c, negb (c =? underscore)) (trim_end_matches (il_suffix i) (il_text i)) in
            if negb (starts_with (str "0b") text) && negb (starts_with (str "0o") text) then mret text
            else computed_default e
        | _ => computed_default e
        end
  end.

(** ** Lines *)

Definition prop (key value : list Z) : list Z := key ++ str "=" ++ value.
Definition header (name : list Z) : list Z := str "[" ++ name ++ str "]".

Definition write_index_list (section : list Z) (indices : list Z) : list (list Z) :=
  [header section; prop (str "SupportedObjects") (decimal (len indices))]
  ++ imap (λ i idx, prop (decimal (Z.of_nat i + 1)) (str "0x" ++ hex_padded 4 idx)) indices
  ++ [[]].

Definition write_record_header (index : Z) (name : list Z) (sub_number : Z) : list (list Z) :=
  [header (index_key index);
   prop (str "ParameterName") name;
   prop (str "ObjectType") (str "0x9");
   prop (str "SubNumber") (decimal sub_number);
   []].

Definition write_pdo_sub (index subindex : Z) (name : list Z) (data_type : Z) (access default_value : list Z)
    : list (list Z) :=
  [header (sub_key index subindex);
   prop (str "ParameterName") name;
   prop (str "ObjectType") (str "0x7");
   prop (str "DataType") (str "0x" ++ hex_padded 4 data_type);
   prop (str "AccessType") access;
   prop (str "DefaultValue") default_value;
   prop (str "PDOMapping") (str "0");
   []].

Definition write_pdo_sub_limits (low_limit high_limit : Z) : list (list Z) :=
  [prop (str "LowLimit") (decimal low_limit); prop (str "HighLimit") (decimal high_limit)].

(** ** SDO servers and PDOs *)

Definition cob_id_spec_eds (spec : CobIdSpec) : list Z :=
  match spec with
  | Absolute id => str "0x" ++ hex id
  | NodeRelative base => str "$NODEID+0x" ++ hex base
  end.

Definition write_sdo_server_eds (s : SdoServerDef) : list (list Z) :=
  let idx := 0x1200 + (sd_number s - 1) in
  write_record_header idx (str "SDO Server Parameter") 3
  ++ write_pdo_sub idx 0 (str "Highest sub-index supported") 0x0005 (str "ro") (str "2")
  ++ write_pdo_sub idx 1 (str "COB-ID Client to Server (Receive SDO)") 0x0007 (str "ro")
       (cob_id_spec_eds (sd_cob_rx s))
  ++ write_pdo_sub idx 2 (str "COB-ID Server to Client (Transmit SDO)") 0x0007 (str "ro")
       (cob_id_spec_eds (sd_cob_tx s)).

Definition predefined_pdo_cob_id (direction : PdoDirection) (number : Z) : exec (list Z) :=
  _ ← assert_ (number <=? 4);
  let base := match direction with
              | DirTpdo => 0x180 + 0x100 * (number - 1)
              | DirRpdo => 0x200 + 0x100 * (number - 1)
              end in
  mret (str "$NODEID+0x" ++ hex base).

Definition pdo_cob_id_default (pdo : PdoDef) : exec (list Z) :=
  match pd_cob_id pdo with
  | Some (Absolute cob_id) => mret (str "0x" ++ hex cob_id)
  | Some (NodeRelative base) => mret (str "$NODEID+0x" ++ hex base)
  | None => predefined_pdo_cob_id (pd_direction pdo) (pd_number pdo)
  end.

(** The loop over the mapping slots, from slot [sub] on. *)
Fixpoint write_mapping_slots (n : nat) (sub index : Z) (access : list Z) (mappings : list ResolvedMapping)
    : list (list Z) :=
  match n with
  | O => []
  | S n =>
      let default_value := match mappings !! Z.to_nat (sub - 1) with
                           | Some m => str "0x" ++ hex_padded 8 (raw m)
                           | None => str "0x00000000"
                           end in
      write_pdo_sub index sub (str "Mapping Entry " ++ decimal sub) 0x0007 access default_value
      ++ write_mapping_slots n (sub + 1) index access mappings
  end.

Definition exported_mapping_slots (kind : MappingKind) (mappings : list ResolvedMapping) : Z :=
  match kind with Mutable => PDO_MAX_MAPPINGS | Immutable => as_u8 (len mappings) end.

Definition write_pdo_mapping_eds (index : Z) (name : list Z) (kind : MappingKind) (mappings : list ResolvedMapping)
    : exec (list (list Z)) :=
  let access := match kind with Mutable => str "rw" | Immutable => str "const" end in
  let slots := exported_mapping_slots kind mappings in
  sub_number ← checked 8 (slots + 1);
  mret (write_record_header index name sub_number
        ++ [header (sub_key index 0);
            prop (str "ParameterName") (str "Number of Mapped Objects");
            prop (str "ObjectType") (str "0x7");
            prop (str "DataType") (str "0x0005");
            prop (str "AccessType") access;
            prop (str "DefaultValue") (str "0x" ++ hex (len mappings));
            prop (str "PDOMapping") (str "0")]
        ++ (match kind with Mutable => write_pdo_sub_limits 0 slots | Immutable => [] end)
        ++ [[]]
        ++ write_mapping_slots (Z.to_nat slots) 1 index access mappings).

Definition write_pdo_eds (pdo : PdoDef) (mappings : list ResolvedMapping) : exec (list (list Z)) :=
  let prefix := match pd_direction pdo with DirTpdo => str "TPDO" | DirRpdo => str "RPDO" end in
  let comm_idx := comm_index pdo in
  let is_tpdo := bool_decide (pd_direction pdo = DirTpdo) in
  cob ← pdo_cob_id_default pdo;
  mapping ← write_pdo_mapping_eds (map_index pdo) (prefix ++ decimal (pd_number pdo) ++ str " Mapping")
              (pd_mapping pdo) mappings;
  mret (write_record_header comm_idx (prefix ++ decimal (pd_number pdo) ++ str " Communication")
          (if is_tpdo then 5 else 4)
        ++ write_pdo_sub comm_idx 0 (str "Number of Entries") 0x0005 (str "ro") (str "5")
        ++ write_pdo_sub comm_idx 1 (str "COB-ID") 0x0007 (str "rw") cob
        ++ write_pdo_sub comm_idx 2 (str "Transmission Type") 0x0005 (str "rw")
             (str "0x" ++ hex (pd_transmission_type pdo))
        ++ (if is_tpdo then
              write_pdo_sub comm_idx 3 (str "Inhibit Time") 0x0006 (str "rw") (str "0x" ++ hex (pd_inhibit_time pdo))
            else [])
        ++ write_pdo_sub comm_idx 5 (str "Event Timer") 0x0006 (str "rw") (str "0x" ++ hex (pd_event_timer pdo))
        ++ mapping).

(** ** Objects *)

Record FlatEdsEntry := mkFlatEds {
  fe_index : Z;
  fe_subindex : Z;
  fe_name : list Z;
  fe_type_name : list Z;
  fe_default : list Z;
  fe_access : AccessKind;
  fe_mappable : bool;
}.

Definition write_var_props (fe : FlatEdsEntry) (obj_type : Z) : list (list Z) :=
  [prop (str "ParameterName") (fe_name fe);
   prop (str "ObjectType") (str "0x" ++ hex obj_type);
   prop (str "DataType") (str "0x" ++ hex_padded 4 (type_to_eds_code (fe_type_name fe)));
   prop (str "AccessType") (access_to_eds (fe_access fe));
   prop (str "DefaultValue") (fe_default fe);
   prop (str "PDOMapping") (if fe_mappable fe then str "1" else str "0")].

Definition find_flat (flat : list FlatEdsEntry) (index subindex : Z) : option FlatEdsEntry :=
  List.find (λ f, (fe_index f =? index) && (fe_subindex f =? subindex)) flat.

(** Sub 0 of a record or array: the number of entries. *)
Definition write_sub0 (index count : Z) : list (list Z) :=
  [header (hex_padded 4 index ++ str "sub0");
   prop (str "ParameterName") (str "Number of Entries");
   prop (str "ObjectType") (str "0x7");
   prop (str "DataType") (str "0x0005");
   prop (str "AccessType") (str "ro");
   prop (str "DefaultValue") (decimal count);
   prop (str "PDOMapping") (str "0");
   []].

(** A sub-entry: [sub] as written, [subindex] as looked up. *)
Definition write_sub (flat : list FlatEdsEntry) (index sub subindex : Z) : exec (list (list Z)) :=
  fe ← unwrap (find_flat flat index subindex);
  mret ([header (sub_key index sub)] ++ write_var_props fe 0x07 ++ [[]]).

(** [1..=n] *)
Definition one_to (n : Z) : list Z := Z.of_nat <$> seq 1 (Z.to_nat n).

(** The main section of a record or array. *)
Definition write_main (index : Z) (name object_type : list Z) (sub_number : Z) : list (list Z) :=
  [header (hex_padded 4 index);
   prop (str "ParameterName") name;
   prop (str "ObjectType") object_type;
   prop (str "SubNumber") (decimal sub_number);
   []].

Section export.
Context {Expr : Type} (view : Expr → Syn).

Definition eds_default (var : VarDef Expr) : exec (list Z) :=
  match vd_default var with
  | None => mret []
  | Some expr => expr_default (type_name var) (view expr)
  end.

Definition flat_var (index subindex : Z) (name : list Z) (var : VarDef Expr) : exec FlatEdsEntry :=
  d ← eds_default var;
  mret (mkFlatEds index subindex name (type_name var) d (vd_access var) (pdo_mappable var)).

Definition flat_element (index : Z) (name : list Z) (arr : ArrayDef) (sub : Z) : FlatEdsEntry :=
  mkFlatEds index (as_u8 sub) (name ++ str "_" ++ decimal sub) (element_type arr)
    (match element_capacity arr with Some _ => [] | None => str "0" end) (arr_access arr) (arr_pdo_mappable arr).

Definition flatten_entry_for_eds (entry : OdEntry Expr) : exec (list FlatEdsEntry) :=
  match oe_kind entry with
  | EntryVar var => fe ← flat_var (oe_index entry) 0 (oe_name entry) var; mret [fe]
  | EntryRecord subs => for_each (λ sub, flat_var (oe_index entry) (sub_subindex sub) (sub_name sub) (sub_var sub)) subs
  | EntryArray arr => mret (map (flat_element (oe_index entry) (oe_name entry) arr) (one_to (arr_count arr)))
  end.

Definition flatten_for_eds (entries : list (OdEntry Expr)) : exec (list FlatEdsEntry) :=
  l ← for_each flatten_entry_for_eds entries; mret (concat l).

Definition write_object (flat : list FlatEdsEntry) (entry : OdEntry Expr) : exec (list (list Z)) :=
  let index := oe_index entry in
  match oe_kind entry with
  | EntryVar _ =>
      fe ← unwrap (find_flat flat index 0);
      mret ([header (hex_padded 4 index)] ++ write_var_props fe 0x07 ++ [[]])
  | EntryRecord subs =>
      let max_sub := foldr Z.max 0 (map sub_subindex subs) in
      body ← for_each (λ sub, write_sub flat index (sub_subindex sub) (sub_subindex sub)) subs;
      mret (write_main index (oe_name entry) (str "0x9") (len subs + 1) ++ write_sub0 index max_sub ++ concat body)
  | EntryArray arr =>
      body ← for_each (λ sub, write_sub flat index sub (as_u8 sub)) (one_to (arr_count arr));
      mret (write_main index (oe_name entry) (str "0x8") (arr_count arr + 1)
            ++ write_sub0 index (arr_count arr) ++ concat body)
  end.

(** [sort] and [dedup] *)
Fixpoint dedup (l : list Z) : list Z :=
  match l with
  | [] => []
  | x :: l => match dedup l with
              | y :: l' => if x =? y then y :: l' else x :: y :: l'
              | [] => [x]
              end
  end.
Definition sort_dedup (l : list Z) : list Z := dedup (sort_by_key id l).

Definition MANDATORY : list Z := [0x1000; 0x1001; 0x1018].
Definition is_mandatory (i : Z) : bool := bool_decide (i ∈ MANDATORY).

Definition user_indices (od : OdDefinition Expr) : list Z := sort_dedup (map oe_index (od_entries od)).
Definition pdo_indices (od : OdDefinition Expr) : list Z :=
  sort_dedup (flat_map (λ pdo, [comm_index pdo; map_index pdo]) (od_pdos od)).
Definition sdo_indices (od : OdDefinition Expr) : list Z :=
  sort_dedup (map (λ s, 0x1200 + (sd_number s - 1)) (od_sdo_servers od)).

Definition file_info (od : OdDefinition Expr) : list (list Z) :=
  [header (str "FileInfo");
   prop (str "FileName") (od_name od ++ str ".eds");
   prop (str "FileVersion") (str "1");
   prop (str "CreatedBy") (str "canopen-rs (object_dictionary! macro)");
   []].

Definition BAUD_RATES : list (list Z) :=
  [str "10"; str "20"; str "50"; str "125"; str "250"; str "500"; str "800"; str "1000"].

Definition identity (flat : list FlatEdsEntry) (sub : Z) : list Z :=
  match find_flat flat 0x1018 sub with Some f => fe_default f | None => [] end.

Definition count_dir (dir : PdoDirection) (pdos : list PdoDef) : Z :=
  len (List.filter (λ p, bool_decide (pd_direction p = dir)) pdos).

Definition device_info (od : OdDefinition Expr) (flat : list FlatEdsEntry) : list (list Z) :=
  [header (str "DeviceInfo");
   prop (str "VendorName") [];
   prop (str "VendorNumber") (identity flat 1);
   prop (str "ProductName") (od_name od);
   prop (str "ProductNumber") (identity flat 2);
   prop (str "RevisionNumber") (identity flat 3)]
  ++ map (λ rate, prop (str "BaudRate_" ++ rate) (str "1")) BAUD_RATES
  ++ [prop (str "SimpleBootUpMaster") (str "0");
      prop (str "SimpleBootUpSlave") (str "1");
      prop (str "Granularity") (str "1");
      prop (str "DynamicChannelsSupported") (str "0");
      prop (str "GroupMessaging") (str "0");
      prop (str "NrOfRXPDO") (decimal (count_dir DirRpdo (od_pdos od)));
      prop (str "NrOfTXPDO") (decimal (count_dir DirTpdo (od_pdos od)));
      prop (str "LSS_Supported") (str "1");
      []].

Definition index_lists (od : OdDefinition Expr) : list (list Z) :=
  let user := user_indices od in
  let optional :=
    sort_dedup (List.filter (λ i, (i <? 0x2000) && negb (is_mandatory i)) user
                ++ pdo_indices od ++ sdo_indices od ++ [0x1021; 0x1022]) in
  let standardised := List.filter (λ i, 0x6000 <=? i) user in
  write_index_list (str "MandatoryObjects") (List.filter is_mandatory user)
  ++ write_index_list (str "OptionalObjects") optional
  ++ write_index_list (str "ManufacturerObjects") (List.filter (λ i, (0x2000 <=? i) && (i <? 0x6000)) user)
  ++ match standardised with [] => [] | _ => write_index_list (str "StandardizedObjects") standardised end.

Definition self_description : list (list Z) :=
  [header (str "1021");
   prop (str "ParameterName") (str "Store EDS");
   prop (str "ObjectType") (str "0x7");
   prop (str "DataType") (str "0x000F");
   prop (str "AccessType") (str "ro");
   prop (str "PDOMapping") (str "0");
   [];
   header (str "1022");
   prop (str "ParameterName") (str "Store Format");
   prop (str "ObjectType") (str "0x7");
   prop (str "DataType") (str "0x0005");
   prop (str "AccessType") (str "ro");
   prop (str "DefaultValue") (str "0x80");
   prop (str "PDOMapping") (str "0");
   []].

Definition eds_lines (od : OdDefinition Expr) : exec (list (list Z)) :=
  flat ← flatten_for_eds (od_entries od);
  objects ← for_each (write_object flat) (od_entries od);
  pdos ← for_each (λ pdo, mappings ← resolve_pdo_mappings pdo (flatten (od_entries od)); write_pdo_eds pdo mappings)
           (od_pdos od);
  mret (file_info od ++ device_info od flat ++ index_lists od ++ concat objects ++ concat pdos
        ++ flat_map write_sdo_server_eds (od_sdo_servers od) ++ self_description).

(** Every line ends in a line feed. *)
Definition text_of (ls : list (list Z)) : list Z := flat_map (λ l, l ++ [newline]) ls.

Definition generate_eds (od : OdDefinition Expr) : exec (list Z) := ls ← eds_lines od; mret (text_of ls).
End export.
