(* ===== verification/EdsText.v ===== *)
(** * Reading back exported text

    What the INI functions of dcf.rs make of the lines [EdsExport] writes:
    numbers in decimal and hexadecimal, the keys of sections, and a text made
    of sections.  [parse_rendered] is the main result. *)
From S2P Require Import Prelude Text Dcf Eds EdsParser EdsExport.

(** ** Digits *)

Section digits.
Context (base : Z) (digit : Z → Z) (loop : nat → Z → list Z → list Z).
Hypothesis (Hbase : 2 ≤ base).
Hypothesis (Hdigit : ∀ d, 0 ≤ d < base → to_digit base (digit d) = Some d).
Hypothesis (Hloop : ∀ fuel n acc, loop (S fuel) n acc =
  if n <? base then digit (n mod base) :: acc else loop fuel (n / base) (digit (n mod base) :: acc)).

Lemma digits_value_app r acc s t :
  digits_value r acc (s ++ t) = (a ← digits_value r acc s; digits_value r a t).
Proof.
  revert acc. induction s as [|c s IH]; intros acc; [done|]. cbn [app digits_value].
  destruct (to_digit r c); [|done]. cbn [mbind option_bind]. apply IH.
Qed.

(** The digits the loop puts before [acc]. *)
Lemma loop_digits fuel n acc :
  0 ≤ n < base ^ Z.of_nat fuel → (0 < fuel)%nat →
  ∃ ds, loop fuel n acc = ds ++ acc ∧ ds ≠ [] ∧ (length ds ≤ fuel)%nat ∧
    Forall (λ c, ∃ d, 0 ≤ d < base ∧ c = digit d) ds ∧ digits_value base 0 ds = Some n.
Proof.
  revert n acc. induction fuel as [|fuel IH]; intros n acc Hn Hf; [lia|]. rewrite Hloop.
  assert (0 ≤ n mod base < base) as Hd by (apply Z.mod_pos_bound; lia).
  assert (∃ d, 0 ≤ d < base ∧ digit (n mod base) = digit d) as Hc by (by exists (n mod base)).
  destruct (Z.ltb_spec n base).
  { exists [digit (n mod base)]. split; [done|]. split; [done|]. split; [simpl; lia|].
    split; [by apply List.Forall_cons|]. cbn [digits_value]. rewrite Hdigit by done. cbn [mbind option_bind].
    f_equal. rewrite Z.mod_small; lia. }
  rewrite Nat2Z.inj_succ, Z.pow_succ_r in Hn by lia.
  assert (0 ≤ n / base < base ^ Z.of_nat fuel) as Hq.
  { split; [apply Z.div_pos; lia|]. apply Z.div_lt_upper_bound; lia. }
  destruct fuel as [|fuel]; [simpl in *; nia|].
  destruct (IH (n / base) (digit (n mod base) :: acc) Hq ltac:(lia)) as (ds & -> & Hne & Hlen & Hall & Hv).
  exists (ds ++ [digit (n mod base)]). split; [by rewrite <- app_assoc|]. split; [by destruct ds|].
  split; [rewrite length_app; simpl in *; lia|].
  split; [by apply Forall_app_2; [|apply List.Forall_cons]|].
  rewrite digits_value_app, Hv. cbn [mbind option_bind digits_value]. rewrite Hdigit by done. cbn [mbind option_bind].
  f_equal. pose proof (Z.div_mod n base ltac:(lia)). lia.
Qed.
End digits.

Lemma to_digit_hex d : 0 ≤ d < 16 → to_digit 16 (hex_digit d) = Some d.
Proof.
  intros Hd. assert (Forall (λ d, to_digit 16 (hex_digit d) = Some d) (Z.of_nat <$> seq 0 16)) as H by (by repeat constructor).
  apply (proj1 (List.Forall_forall _ _) H). apply list_elem_of_In, list_elem_of_fmap. exists (Z.to_nat d).
  rewrite elem_of_seq. lia.
Qed.

Lemma to_digit_decimal d : 0 ≤ d < 10 → to_digit 10 (48 + d) = Some d.
Proof.
  intros Hd. unfold to_digit, in_range. rewrite (proj2 (Z.leb_le _ _)), (proj2 (Z.leb_le _ _)) by lia. cbn [andb].
  rewrite (proj2 (Z.ltb_lt _ _)) by lia. f_equal. lia.
Qed.

Lemma log2_fuel b n : 2 ≤ b → 0 ≤ n → n < b ^ Z.of_nat (Z.to_nat (Z.log2 n + 1)).
Proof.
  intros Hb Hn. pose proof (Z.log2_nonneg n). rewrite Z2Nat.id by lia.
  destruct (Z.eq_dec n 0) as [->|]; [change (Z.log2 0) with 0; rewrite Z.pow_1_r; lia|].
  eapply Z.lt_le_trans; [apply Z.log2_spec; lia|]. apply Z.pow_le_mono_l. lia.
Qed.

(** An upper-case hexadecimal digit, a decimal digit. *)
Definition is_hex (c : Z) : Prop := ∃ d, 0 ≤ d < 16 ∧ c = hex_digit d.
Definition is_decimal (c : Z) : Prop := ∃ d, 0 ≤ d < 10 ∧ c = 48 + d.

Lemma hex_value n : 0 ≤ n → hex n ≠ [] ∧ Forall is_hex (hex n) ∧ digits_value 16 0 (hex n) = Some n.
Proof.
  intros Hn. pose proof (Z.log2_nonneg n).
  destruct (loop_digits 16 hex_digit hex_loop ltac:(lia) to_digit_hex ltac:(done) (Z.to_nat (Z.log2 n + 1)) n [])
    as (ds & Hds & Hne & _ & Hall & Hv); [split; [done|by apply log2_fuel]|lia|].
  unfold hex. rewrite Hds, app_nil_r. done.
Qed.

Lemma decimal_value n : 0 ≤ n → decimal n ≠ [] ∧ Forall is_decimal (decimal n) ∧ digits_value 10 0 (decimal n) = Some n.
Proof.
  intros Hn. pose proof (Z.log2_nonneg n).
  destruct (loop_digits 10 (λ d, 48 + d) decimal_loop ltac:(lia) to_digit_decimal ltac:(done) (Z.to_nat (Z.log2 n + 1)) n [])
    as (ds & Hds & Hne & _ & Hall & Hv); [split; [done|by apply log2_fuel]|lia|].
  unfold decimal. rewrite Hds, app_nil_r. done.
Qed.

Lemma zeros_value r k s : 1 ≤ r → digits_value r 0 (replicate k 48 ++ s) = digits_value r 0 s.
Proof.
  intros Hr. induction k as [|k IH]; [done|]. cbn [replicate app digits_value].
  assert (to_digit r 48 = Some 0) as ->; [|exact IH]. unfold to_digit. cbn [in_range Z.leb andb Z.compare Pos.compare Pos.compare_cont].
  change (48 - 48) with 0. by rewrite (proj2 (Z.ltb_lt _ _)) by lia.
Qed.

Lemma hex_padded_value w n :
  0 ≤ n → hex_padded w n ≠ [] ∧ Forall is_hex (hex_padded w n) ∧ digits_value 16 0 (hex_padded w n) = Some n.
Proof.
  intros Hn. destruct (hex_value n Hn) as (Hne & Hall & Hv). unfold hex_padded. split; [|split].
  - intros [_ ?]%app_eq_nil. done.
  - apply Forall_app_2; [|done]. apply list.Forall_replicate. by exists 0.
  - by rewrite zeros_value.
Qed.

(** ** Numbers *)

Lemma is_hex_range c : is_hex c → (48 ≤ c ≤ 57) ∨ (65 ≤ c ≤ 70).
Proof. intros (d & Hd & ->). unfold hex_digit. destruct (Z.ltb_spec d 10); lia. Qed.

Lemma is_decimal_range c : is_decimal c → 48 ≤ c ≤ 57.
Proof. intros (d & Hd & ->). lia. Qed.

(** Digits do not start with a sign. *)
Lemma digits_number radix s n (P : Z → Prop) :
  s ≠ [] → Forall P s → (∀ c, P c → 48 ≤ c) → digits_value radix 0 s = Some n → number radix s = Some n.
Proof.
  intros Hne Hall HP Hv. unfold number, digits_of. destruct s as [|c s]; [done|].
  apply Forall_cons_1 in Hall as [Hc%HP _].
  assert ((c =? plus) = false) as Hp by (apply Z.eqb_neq; unfold plus; lia).
  assert ((c =? minus) = false) as Hm by (apply Z.eqb_neq; unfold minus; lia).
  destruct s as [|c' s]; rewrite Hp; [rewrite Hm|]; exact Hv.
Qed.

Lemma from_str_digits w radix s n (P : Z → Prop) :
  0 ≤ w → 1 ≤ radix → s ≠ [] → Forall P s → (∀ c, P c → 48 ≤ c) → digits_value radix 0 s = Some n → n < 2 ^ w →
  from_str_radix w radix s = Some n.
Proof.
  intros. rewrite from_str_radix_spec by done. apply below_Some. split; [|done]. by eapply digits_number.
Qed.

Lemma hex_from_str w k n : is_uint w n → 0 ≤ w → from_str_radix w 16 (hex_padded k n) = Some n.
Proof.
  intros Hn Hw. destruct (hex_padded_value k n) as (Hne & Hall & Hv); [unfold is_uint in Hn; lia|].
  eapply (from_str_digits w 16 _ n is_hex); [done|lia|done|done|intros c Hc; apply is_hex_range in Hc; lia|done|]. unfold is_uint in Hn. lia.
Qed.

(** *** Trimming *)

Definition printable (s : list Z) : Prop := Forall (λ c, is_whitespace c = false) s.

Lemma trim_by_id f s : Forall (λ c, f c = false) s → trim_by f s = s.
Proof.
  intros Hs. unfold trim_by. assert (∀ l, Forall (λ c, f c = false) l → trim_start_by f l = l) as Hid.
  { intros l Hl. apply trim_start_by_id. destruct l; [done|]. by apply Forall_cons_1 in Hl as [? _]. }
  rewrite (Hid s Hs), Hid by (by apply all_rev). apply List.rev_involutive.
Qed.

Lemma trim_printable s : printable s → trim s = s.
Proof. apply trim_by_id. Qed.

Lemma not_white c : 33 ≤ c → is_whitespace c = false.
Proof.
  intros Hc. unfold is_whitespace, in_range. apply orb_false_iff. split; [|apply Z.eqb_neq; lia].
  apply andb_false_iff. right. apply Z.leb_gt. lia.
Qed.

Lemma printable_hex s : Forall is_hex s → printable s.
Proof. apply List.Forall_impl. intros c ?%is_hex_range. apply not_white. lia. Qed.

Lemma printable_decimal s : Forall is_decimal s → printable s.
Proof. apply List.Forall_impl. intros c ?%is_decimal_range. apply not_white. lia. Qed.

Lemma printable_app s t : printable s → printable t → printable (s ++ t).
Proof. apply Forall_app_2. Qed.

(** A constant text. *)
Ltac printable_text := by (repeat first [apply List.Forall_nil | apply List.Forall_cons; [reflexivity|]]).

Lemma printable_0x s : printable s → printable (str "0x" ++ s).
Proof. apply printable_app. printable_text. Qed.

(** *** [parse_int] *)

Lemma parse_hex k n : is_u64 n → parse_int (str "0x" ++ hex_padded k n) = Some n.
Proof.
  intros Hn. unfold parse_int, parse_int_val. destruct (hex_padded_value k n) as (_ & Hall & _); [unfold is_uint in Hn; lia|].
  rewrite trim_printable by (by apply printable_0x, printable_hex). unfold strip_hex.
  rewrite strip_prefix_app. by apply hex_from_str.
Qed.

Lemma hex_is_padded n : 0 ≤ n → hex n = hex_padded 0 n.
Proof. done. Qed.

Lemma parse_hex0 n : is_u64 n → parse_int (str "0x" ++ hex n) = Some n.
Proof. intros Hn. rewrite (hex_is_padded n) by (unfold is_uint in Hn; lia). by apply parse_hex. Qed.

(** A decimal number does not look hexadecimal. *)
Lemma strip_hex_decimal s : Forall is_decimal s → strip_hex s = None.
Proof.
  intros Hs. unfold strip_hex. change (str "0x") with [48; 120]. change (str "0X") with [48; 88].
  destruct s as [|c [|d s]]; cbn [strip_prefix]; [done|by destruct (48 =? c)|].
  apply Forall_cons_1 in Hs as [_ Hs]. apply Forall_cons_1 in Hs as [Hd%is_decimal_range _].
  rewrite !(proj2 (Z.eqb_neq _ d)) by lia. by destruct (48 =? c).
Qed.

Lemma parse_decimal_int n : is_u64 n → parse_int (decimal n) = Some n.
Proof.
  intros Hn. unfold parse_int, parse_int_val. destruct (decimal_value n) as (Hne & Hall & Hv); [unfold is_uint in Hn; lia|].
  rewrite trim_printable by (by apply printable_decimal). rewrite strip_hex_decimal by done.
  eapply (from_str_digits 64 10 _ n is_decimal); [done|lia|done|done|intros c Hc; apply is_decimal_range in Hc; lia|done|].
  unfold is_uint in Hn. lia.
Qed.

(** ** Section keys *)

Lemma lower_hex_digit d : 0 ≤ d < 16 → to_digit 16 (to_ascii_lowercase (hex_digit d)) = Some d.
Proof.
  intros Hd.
  assert (Forall (λ d, to_digit 16 (to_ascii_lowercase (hex_digit d)) = Some d) (Z.of_nat <$> seq 0 16)) as H by (by repeat constructor).
  apply (proj1 (List.Forall_forall _ _) H). apply list_elem_of_In, list_elem_of_fmap. exists (Z.to_nat d).
  rewrite elem_of_seq. lia.
Qed.

Lemma lower_value acc s : Forall is_hex s → digits_value 16 acc (to_lowercase s) = digits_value 16 acc s.
Proof.
  intros Hs. revert acc. induction Hs as [|c s (d & Hd & ->) Hs IH]; intros acc; [done|]. unfold to_lowercase.
  cbn [fmap list_fmap digits_value]. rewrite lower_hex_digit, to_digit_hex by done. cbn [mbind option_bind]. apply IH.
Qed.

Definition is_lower_hex (c : Z) : Prop := (48 ≤ c ≤ 57) ∨ (97 ≤ c ≤ 102).

Lemma lower_hex s : Forall is_hex s → Forall is_lower_hex (to_lowercase s).
Proof.
  intros Hs. apply Forall_fmap. eapply List.Forall_impl; [|exact Hs]. intros c Hc%is_hex_range. unfold compose, to_ascii_lowercase, in_range, is_lower_hex.
  destruct (Z.leb_spec 65 c), (Z.leb_spec c 90); cbn [andb]; lia.
Qed.

Lemma lower_app s t : to_lowercase (s ++ t) = to_lowercase s ++ to_lowercase t.
Proof. apply fmap_app. Qed.

Lemma lower_from_str w k n : is_uint w n → 0 ≤ w → from_str_radix w 16 (to_lowercase (hex_padded k n)) = Some n.
Proof.
  intros Hn Hw. destruct (hex_padded_value k n) as (Hne & Hall & Hv); [unfold is_uint in Hn; lia|].
  eapply (from_str_digits w 16 _ n is_lower_hex).
  - done.
  - lia.
  - by intros ?%fmap_nil_inv.
  - by apply lower_hex.
  - unfold is_lower_hex. lia.
  - by rewrite lower_value.
  - unfold is_uint in Hn. lia.
Qed.

Lemma split_once_sub_none s : Forall is_lower_hex s → split_once (str "sub") s = None.
Proof.
  induction 1 as [|c s Hc Hs IH]; [done|]. cbn [split_once]. change (str "sub") with [115; 117; 98] in *. cbn [strip_prefix].
  rewrite (proj2 (Z.eqb_neq 115 c)) by (unfold is_lower_hex in Hc; lia). by rewrite IH.
Qed.

Lemma split_once_sub s t : Forall is_lower_hex s → split_once (str "sub") (s ++ str "sub" ++ t) = Some (s, t).
Proof.
  induction 1 as [|c s Hc Hs IH]; [done|]. cbn [app split_once]. change (str "sub") with [115; 117; 98] in *. cbn [strip_prefix].
  rewrite (proj2 (Z.eqb_neq 115 c)) by (unfold is_lower_hex in Hc; lia). by rewrite IH.
Qed.

Lemma parse_index_key i : is_u16 i → 0x1000 ≤ i → parse_section_index (index_key i) = Some (i, None).
Proof.
  intros Hi Hlo. unfold parse_section_index, Dcf.parse_section_index, index_key. destruct (hex_padded_value 4 i) as (_ & Hall & _); [unfold is_uint in Hi; lia|].
  rewrite split_once_sub_none by (by apply lower_hex). rewrite lower_from_str by done. cbn [mbind option_bind].
  by rewrite (proj2 (Z.leb_le _ _)).
Qed.

Lemma parse_sub_key i s : is_u16 i → is_u8 s → parse_section_index (sub_key i s) = Some (i, Some s).
Proof.
  intros Hi Hs. unfold parse_section_index, Dcf.parse_section_index, sub_key. destruct (hex_padded_value 4 i) as (_ & Hall & _); [unfold is_uint in Hi; lia|].
  rewrite !lower_app. change (to_lowercase (str "sub")) with (str "sub").
  rewrite split_once_sub by (by apply lower_hex). rewrite lower_from_str by done. cbn [mbind option_bind].
  rewrite hex_is_padded by (unfold is_uint in Hs; lia). by rewrite lower_from_str.
Qed.

(** Names that are equal but for their case have one address. *)
Lemma ignore_case_address a b : eq_ignore_ascii_case a b = true → parse_section_index a = parse_section_index b.
Proof.
  unfold eq_ignore_ascii_case. intros H%bool_decide_eq_true. unfold parse_section_index, Dcf.parse_section_index. by rewrite H.
Qed.

Lemma hex_loop_chars fuel n acc : Forall is_hex acc → Forall is_hex (hex_loop fuel n acc).
Proof.
  revert n acc. induction fuel as [|fuel IH]; intros n acc Ha; [done|]. cbn [hex_loop].
  assert (Forall is_hex (hex_digit (n mod 16) :: acc)) by (apply List.Forall_cons; [exists (n mod 16); split; [apply Z.mod_pos_bound|]|]; done).
  destruct (n <? 16); [done|by apply IH].
Qed.

Lemma split_once_none c p s : Forall (λ d, d ≠ c) s → split_once (c :: p) s = None.
Proof.
  induction 1 as [|d s Hd Hs IH]; [done|]. cbn [split_once strip_prefix]. rewrite (proj2 (Z.eqb_neq c d)) by congruence. by rewrite IH.
Qed.

(** A number mentions no node id, in whatever case. *)
Lemma hex_no_nodeid n : contains (str "$NODEID") (map (λ c, if in_range 97 122 c then c - 32 else c) (str "0x" ++ hex n)) = false.
Proof.
  unfold contains. apply bool_decide_eq_false. change (str "$NODEID") with (36 :: str "NODEID"). rewrite split_once_none; [by intros [? ?]|].
  apply Forall_map, Forall_app_2; [by repeat constructor|]. eapply List.Forall_impl; [|apply hex_loop_chars, List.Forall_nil].
  intros c Hc%is_hex_range. cbv beta. destruct (in_range 97 122 c) eqn:Hr; [|lia].
  unfold in_range in Hr. lia.
Qed.

(** ** Lines and sections *)

Definition one_line (s : list Z) : Prop := Forall (λ c, c ≠ newline) s.

Lemma split_line l rest : one_line l → split newline (l ++ newline :: rest) = l :: split newline rest.
Proof.
  induction 1 as [|c l Hc Hl IH]; cbn [app split]; [by rewrite Z.eqb_refl|]. rewrite (proj2 (Z.eqb_neq _ _) Hc), IH. done.
Qed.

Lemma split_text ls : Forall one_line ls → split newline (text_of ls) = ls ++ [[]].
Proof.
  induction 1 as [|l ls Hl Hls IH]; [done|]. unfold text_of in *. cbn [flat_map app]. rewrite <- app_assoc. cbn [app].
  by rewrite split_line, IH.
Qed.

Lemma drop_last_text ls : drop_last_empty (ls ++ [[]]) = map strip_line_end ls.
Proof.
  induction ls as [|l ls IH]; [done|]. cbn [app map]. rewrite <- IH.
  destruct l as [|c l], ls as [|l' ls]; done.
Qed.

Lemma lines_text ls : Forall one_line ls → lines (text_of ls) = map strip_line_end ls.
Proof. intros H. unfold lines. by rewrite split_text, drop_last_text. Qed.

(** *** White space at the end of a line *)

Abbreviation white := (Forall (λ c, is_whitespace c = true)).
Abbreviation trim_start := (trim_start_by is_whitespace).
Definition trim_end (s : list Z) : list Z := rev (trim_start (rev s)).
(** The first character, the last character is not white. *)
Definition starts_dark (s : list Z) : Prop := match s with c :: _ => is_whitespace c = false | [] => True end.
Definition ends_dark (s : list Z) : Prop := starts_dark (rev s).

Lemma trim_start_spec s : ∃ w, white w ∧ s = w ++ trim_start s ∧ starts_dark (trim_start s).
Proof.
  induction s as [|c s (w & Hw & Hs & Hd)]; [by exists []|]. cbn [trim_start_by].
  destruct (is_whitespace c) eqn:Hc; [|by exists []]. exists (c :: w). split; [by apply List.Forall_cons|].
  split; [|done]. cbn [app]. by rewrite <- Hs.
Qed.

Lemma trim_end_spec s : ∃ w, white w ∧ s = trim_end s ++ w ∧ ends_dark (trim_end s).
Proof.
  destruct (trim_start_spec (rev s)) as (w & Hw & Hs & Hd). exists (rev w). split; [by apply all_rev|].
  unfold ends_dark, trim_end. rewrite List.rev_involutive. split; [|done]. rewrite <- List.rev_app_distr, <- Hs.
  by rewrite List.rev_involutive.
Qed.

Lemma trim_start_white w s : white w → trim_start (w ++ s) = trim_start s.
Proof. induction 1 as [|c w Hc Hw IH]; [done|]. cbn [app trim_start_by]. by rewrite Hc. Qed.

Lemma trim_end_white s w : white w → trim_end (s ++ w) = trim_end s.
Proof. intros Hw. unfold trim_end. by rewrite List.rev_app_distr, trim_start_white by (by apply all_rev). Qed.

Lemma trim_start_app s w : trim_start s ≠ [] → trim_start (s ++ w) = trim_start s ++ w.
Proof. induction s as [|c s IH]; [done|]. cbn [app trim_start_by]. destruct (is_whitespace c); [done|by intros]. Qed.

Lemma trim_white s w : white w → trim (s ++ w) = trim s.
Proof.
  intros Hw. change (trim_end (trim_start (s ++ w)) = trim_end (trim_start s)).
  destruct (decide (trim_start s = [])) as [Hs|Hs]; [|by rewrite trim_start_app, trim_end_white].
  destruct (trim_start_spec s) as (w' & Hw' & Heq & _). rewrite Hs, app_nil_r in Heq. rewrite Heq at 1.
  rewrite trim_start_white by done. rewrite Hs. rewrite <- (app_nil_r w), trim_start_white by done. done.
Qed.

Lemma trim_dark s : starts_dark s → ends_dark s → trim s = s.
Proof.
  intros Hs He. unfold trim, trim_by. rewrite (trim_start_by_id _ s) by done. rewrite trim_start_by_id by done.
  apply List.rev_involutive.
Qed.

Lemma trim_line_end l : trim (strip_line_end l) = trim l.
Proof.
  unfold strip_line_end. destruct (rev l) as [|c r] eqn:Hr.
  - assert (l = []) as ->; [|done]. rewrite <- (List.rev_involutive l), Hr. done.
  - destruct (Z.eqb_spec c cr) as [->|]; [|done].
    assert (l = rev r ++ [cr]) as -> by (rewrite <- (List.rev_involutive l), Hr; done).
    symmetry. apply trim_white. by apply List.Forall_cons.
Qed.

(** A key of letters, digits and underscores. *)
Definition key_char (c : Z) : bool := is_alphanumeric c || (c =? underscore).
Definition is_key (k : list Z) : bool := negb (len k =? 0) && forallb key_char k.

Lemma key_char_range c : key_char c = true → (48 ≤ c ≤ 57) ∨ (65 ≤ c ≤ 90) ∨ c = 95 ∨ (97 ≤ c ≤ 122).
Proof.
  unfold key_char, is_alphanumeric, is_digit, in_range. intros H. repeat (apply orb_prop in H as [H|H]);
    first [apply andb_prop in H as [?%Z.leb_le ?%Z.leb_le] | apply Z.eqb_eq in H; unfold underscore in H]; lia.
Qed.

Lemma is_key_spec k : is_key k = true → k ≠ [] ∧ Forall (λ c, key_char c = true) k.
Proof. unfold is_key. intros [Hk Hc]%andb_prop. split; [by destruct k|]. apply List.Forall_forall. by apply List.forallb_forall. Qed.

Lemma key_printable k : is_key k = true → printable k.
Proof.
  intros [_ Hk]%is_key_spec. eapply List.Forall_impl; [|exact Hk]. intros c Hc%key_char_range. apply not_white. lia.
Qed.

Lemma split_equals k v : is_key k = true → split_once (str "=") (k ++ str "=" ++ v) = Some (k, v).
Proof.
  intros [_ Hk]%is_key_spec. change (str "=") with [61] in *. induction Hk as [|c k Hc Hk IH]; [done|].
  cbn [app split_once strip_prefix] in *. rewrite (proj2 (Z.eqb_neq 61 c)) by (apply key_char_range in Hc; lia).
  by rewrite IH.
Qed.

Lemma trim_prop k v : is_key k = true → trim (prop k v) = k ++ str "=" ++ trim_end v.
Proof.
  intros Hk. pose proof (key_printable k Hk) as Hp. apply is_key_spec in Hk as [Hne _].
  destruct (trim_end_spec v) as (w & Hw & Hv & Hd). unfold prop. rewrite Hv at 1.
  rewrite !(assoc_L (++)), trim_white by done. rewrite <- (assoc_L (++)). apply trim_dark.
  - destruct k; [done|]. by apply Forall_cons_1 in Hp as [? _].
  - unfold ends_dark in *. rewrite !List.rev_app_distr. destruct (rev (trim_end v)); [done|exact Hd].
Qed.

Lemma trim_trim_end v : trim (trim_end v) = trim v.
Proof. destruct (trim_end_spec v) as (w & Hw & Hv & _). rewrite Hv at 2. symmetry. by apply trim_white. Qed.

(** *** Sections *)

Definition section_lines (s : section) : list (list Z) :=
  header (fst s) :: map (λ p, prop (fst p) (snd p)) (snd s) ++ [[]].

Definition read_props (ps : props) : props := map (λ p, (fst p, trim (snd p))) ps.
Definition read_section (s : section) : section := (fst s, read_props (snd s)).

Definition prop_ok (p : list Z * list Z) : Prop := is_key (fst p) = true ∧ one_line (snd p).
Definition section_ok (s : section) : Prop := fst s ≠ [] ∧ one_line (fst s) ∧ Forall prop_ok (snd s).

Lemma key_one_line k : is_key k = true → one_line k.
Proof.
  intros [_ Hk]%is_key_spec. eapply List.Forall_impl; [|exact Hk]. intros c Hc%key_char_range. unfold newline. lia.
Qed.

Lemma section_one_line s : section_ok s → Forall one_line (section_lines s).
Proof.
  intros (_ & Hn & Hp). apply List.Forall_cons; [|apply Forall_app_2].
  - unfold header, one_line. apply Forall_app_2; [by apply List.Forall_cons|].
    apply Forall_app_2; [done|by apply List.Forall_cons].
  - apply Forall_map. eapply List.Forall_impl; [|exact Hp]. intros [k v] [Hk Hv]. unfold prop, one_line. cbn [fst snd] in *.
    apply Forall_app_2; [by apply key_one_line|]. by apply List.Forall_cons.
  - apply List.Forall_cons; apply List.Forall_nil.
Qed.

Lemma ini_line_end ls secs cur ps : ini_loop (map strip_line_end ls) secs cur ps = ini_loop ls secs cur ps.
Proof.
  revert secs cur ps. induction ls as [|l ls IH]; intros secs cur ps; [done|]. cbn [map ini_loop]. rewrite trim_line_end.
  destruct (_ || _); [apply IH|]. destruct (_ && _); [destruct (negb _); apply IH|].
  destruct (split_once _ _) as [[k v]|]; apply IH.
Qed.

Lemma ini_prop k v ls secs cur ps :
  is_key k = true → ini_loop (prop k v :: ls) secs cur ps = ini_loop ls secs cur (ps ++ [(k, trim v)]).
Proof.
  intros Hk. cbn [ini_loop]. rewrite trim_prop by done. rewrite split_equals by done.
  rewrite (trim_printable k), trim_trim_end by (by apply key_printable). destruct (is_key_spec k Hk) as [Hne Hc].
  destruct k as [|c k]; [done|]. apply Forall_cons_1 in Hc as [Hc%key_char_range _].
  cbn [app length]. change (len (c :: _) =? 0) with false. unfold starts_with. cbn [orb].
  change (str ";") with [59]. change (str "[") with [91]. cbn [strip_prefix].
  rewrite (proj2 (Z.eqb_neq 59 c)), (proj2 (Z.eqb_neq 91 c)) by lia. done.
Qed.

Lemma ini_props ps' ls secs cur ps :
  Forall prop_ok ps' →
  ini_loop (map (λ p, prop (fst p) (snd p)) ps' ++ ls) secs cur ps = ini_loop ls secs cur (ps ++ read_props ps').
Proof.
  intros Hp. revert ps. induction Hp as [|[k v] ps' [Hk _] Hp IH]; intros ps; [by rewrite app_nil_r|].
  cbn [map app fst snd]. rewrite ini_prop, IH by done. by rewrite <- app_assoc.
Qed.

Lemma ini_header n ls secs cur ps :
  ini_loop (header n :: ls) secs cur ps =
  if len cur =? 0 then ini_loop ls secs n ps else ini_loop ls (secs ++ [(cur, ps)]) n [].
Proof.
  cbn [ini_loop]. assert (trim (header n) = header n) as ->.
  { apply trim_dark; [done|]. unfold ends_dark, header. by rewrite !List.rev_app_distr. }
  assert (ends_with 93 (header n) = true) as ->.
  { unfold ends_with, header. by rewrite !List.rev_app_distr. }
  assert (removelast (tail (header n)) = n) as -> by (unfold header; cbn [app tail]; apply List.removelast_last).
  by destruct (len cur =? 0).
Qed.

Lemma ini_section s ls secs cur ps :
  section_ok s → (len cur =? 0) = false →
  ini_loop (section_lines s ++ ls) secs cur ps = ini_loop ls (secs ++ [(cur, ps)]) (fst s) (read_props (snd s)).
Proof.
  intros (_ & _ & Hp) Hc. unfold section_lines. cbn [app]. rewrite ini_header, Hc, <- app_assoc, ini_props by done. done.
Qed.

Lemma ini_sections ss secs cur ps :
  Forall section_ok ss → (len cur =? 0) = false →
  ini_loop (flat_map section_lines ss) secs cur ps = secs ++ (cur, ps) :: map read_section ss.
Proof.
  intros Hs. revert secs cur ps. induction Hs as [|s ss Hok Hs IH]; intros secs cur ps Hc.
  - cbn [flat_map ini_loop map]. by rewrite Hc.
  - cbn [flat_map map]. rewrite ini_section, IH by (try done; destruct Hok as [? _]; by destruct (fst s)).
    by rewrite <- app_assoc.
Qed.

(** A text of sections is read as its sections, with trimmed values. *)
Lemma parse_rendered ss :
  Forall section_ok ss → parse_sections (text_of (flat_map section_lines ss)) = map read_section ss.
Proof.
  intros Hs. unfold parse_sections, parse_ini_sections. rewrite lines_text, ini_line_end.
  2: { induction Hs as [|s ss Hok Hs IH]; [apply List.Forall_nil|]. cbn [flat_map]. apply Forall_app_2; [by apply section_one_line|done]. }
  destruct Hs as [|s ss Hok Hs]; [done|]. cbn [flat_map map]. unfold section_lines at 1. cbn [app].
  destruct Hok as (Hn & _ & Hp). rewrite ini_header. cbn [length Z.of_nat Z.eqb]. rewrite <- app_assoc, ini_props by done.
  cbn [app ini_loop]. rewrite ini_sections by (try done; by destruct (fst s)). done.
Qed.

(** ** Texts of one line *)

Lemma decimal_loop_chars fuel n acc : Forall is_decimal acc → Forall is_decimal (decimal_loop fuel n acc).
Proof.
  revert n acc. induction fuel as [|fuel IH]; intros n acc Ha; [done|]. cbn [decimal_loop].
  assert (Forall is_decimal ((48 + n mod 10) :: acc)) by (apply List.Forall_cons; [exists (n mod 10); split; [apply Z.mod_pos_bound|]|]; done).
  destruct (n <? 10); [done|by apply IH].
Qed.

Lemma printable_one_line s : printable s → one_line s.
Proof. apply List.Forall_impl. by intros c Hc ->. Qed.

Lemma one_line_app s t : one_line s → one_line t → one_line (s ++ t).
Proof. apply Forall_app_2. Qed.

Lemma one_line_hex n : one_line (hex n).
Proof. apply printable_one_line, printable_hex, hex_loop_chars, List.Forall_nil. Qed.

Lemma one_line_hex_padded w n : one_line (hex_padded w n).
Proof. unfold hex_padded. apply one_line_app; [|apply one_line_hex]. by apply list.Forall_replicate. Qed.

Lemma printable_decimal_text n : printable (decimal n).
Proof. apply printable_decimal, decimal_loop_chars, List.Forall_nil. Qed.

Lemma one_line_decimal n : one_line (decimal n).
Proof. apply printable_one_line, printable_decimal_text. Qed.

Lemma one_line_check s : forallb (λ c, negb (c =? newline)) s = true → one_line s.
Proof. intros H. apply List.Forall_forall. intros c Hc. apply (proj1 (List.forallb_forall _ _) H) in Hc. by apply negb_true_iff, Z.eqb_neq in Hc. Qed.

Lemma decimal_key n : is_key (decimal n) = true.
Proof.
  assert (Forall is_decimal (decimal n)) as Hd by (apply decimal_loop_chars, List.Forall_nil).
  assert (decimal n ≠ []) as Hne.
  { unfold decimal. pose proof (Z.log2_nonneg n). destruct (Z.to_nat (Z.log2 n + 1)) as [|fuel] eqn:Hf; [lia|].
    cbn [decimal_loop]. destruct (n <? 10); [done|].
    assert (∀ fuel n acc, acc ≠ [] → decimal_loop fuel n acc ≠ []) as Hl.
    { clear. intros fuel. induction fuel as [|fuel IH]; intros n acc Ha; [done|]. cbn [decimal_loop]. destruct (n <? 10); [done|by apply IH]. }
    by apply Hl. }
  unfold is_key. apply andb_true_iff. split; [by destruct (decimal n)|]. apply List.forallb_forall. intros c Hc.
  apply (proj1 (List.Forall_forall _ _) Hd), is_decimal_range in Hc. unfold key_char, is_alphanumeric, is_digit, in_range.
  by rewrite !(proj2 (Z.leb_le _ _)) by lia.
Qed.

Create HintDb lines.
#[export] Hint Resolve one_line_app one_line_hex one_line_hex_padded one_line_decimal : lines.
#[export] Hint Extern 1 (one_line (str _)) => (apply one_line_check; vm_compute; reflexivity) : lines.
#[export] Hint Extern 1 (one_line []) => (apply List.Forall_nil) : lines.
