(* ===== verification/EdsExportSpec.v ===== *)
(** * What an exported EDS file consists of

    [eds_lines_sections]: the lines [eds_lines] writes for a well-formed
    definition are a list of sections ([eds_sections]): some about the file,
    then those of its objects, each a main section and its sub-sections.
    [read_export]: the INI reader gets them back. *)
From S2P Require Import Prelude GenTable Text Dcf Eds EdsParser EdsSpec EdsExport EdsText.

Lemma for_each_map {A B} (f : A → exec B) (h : A → B) l :
  (∀ x, In x l → f x = Ret (h x)) → for_each f l = Ret (map h l).
Proof.
  induction l as [|x l IH]; intros Hf; [done|]. cbn [for_each map]. rewrite Hf by (by left). cbn [mbind exec_bind].
  fold (for_each f l). rewrite IH by (intros; apply Hf; by right). done.
Qed.

Lemma find_ext {A} (f g : A → bool) l : (∀ x, f x = g x) → List.find f l = List.find g l.
Proof. intros H. induction l as [|x l IH]; [done|]. cbn [List.find]. by rewrite H, IH. Qed.

Lemma flat_map_concat {A B} (f : A → list B) l : concat (map f l) = flat_map f l.
Proof. by rewrite List.flat_map_concat_map. Qed.

(** ** Objects *)

Record object := mkObject { o_index : Z; o_main : props; o_subs : list (Z * props) }.

Definition object_sections (o : object) : list section :=
  (index_key (o_index o), o_main o) :: map (λ s, (sub_key (o_index o) (fst s), snd s)) (o_subs o).

Definition fe_props (fe : FlatEdsEntry) : props :=
  [(str "ParameterName", fe_name fe);
   (str "ObjectType", str "0x7");
   (str "DataType", str "0x" ++ hex_padded 4 (type_to_eds_code (fe_type_name fe)));
   (str "AccessType", access_to_eds (fe_access fe));
   (str "DefaultValue", fe_default fe);
   (str "PDOMapping", if fe_mappable fe then str "1" else str "0")].

Definition main_props (name object_type : list Z) (sub_number : Z) : props :=
  [(str "ParameterName", name); (str "ObjectType", object_type); (str "SubNumber", decimal sub_number)].

(** A sub-entry that is not PDO mappable. *)
Definition sub_props (name : list Z) (data_type : Z) (access default_value : list Z) : props :=
  [(str "ParameterName", name);
   (str "ObjectType", str "0x7");
   (str "DataType", str "0x" ++ hex_padded 4 data_type);
   (str "AccessType", access);
   (str "DefaultValue", default_value);
   (str "PDOMapping", str "0")].

Definition count_props (count : Z) : props := sub_props (str "Number of Entries") 0x0005 (str "ro") (decimal count).

(** *** PDOs and servers *)

(** The COB-ID of the export: the predefined one when none is given. *)
Definition effective_cob_id (pdo : PdoDef) : CobIdSpec :=
  default (NodeRelative (match pd_direction pdo with DirTpdo => 0x180 | DirRpdo => 0x200 end
                         + 0x100 * (pd_number pdo - 1)))
    (pd_cob_id pdo).

Definition pdo_prefix (pdo : PdoDef) : list Z :=
  match pd_direction pdo with DirTpdo => str "TPDO" | DirRpdo => str "RPDO" end ++ decimal (pd_number pdo).

Definition hex_text (n : Z) : list Z := str "0x" ++ hex n.

Definition comm_object (pdo : PdoDef) : object :=
  let is_tpdo := bool_decide (pd_direction pdo = DirTpdo) in
  mkObject (comm_index pdo)
    (main_props (pdo_prefix pdo ++ str " Communication") (str "0x9") (if is_tpdo then 5 else 4))
    ([(0, sub_props (str "Number of Entries") 0x0005 (str "ro") (str "5"));
      (1, sub_props (str "COB-ID") 0x0007 (str "rw") (cob_id_spec_eds (effective_cob_id pdo)));
      (2, sub_props (str "Transmission Type") 0x0005 (str "rw") (hex_text (pd_transmission_type pdo)))]
     ++ (if is_tpdo then [(3, sub_props (str "Inhibit Time") 0x0006 (str "rw") (hex_text (pd_inhibit_time pdo)))] else [])
     ++ [(5, sub_props (str "Event Timer") 0x0006 (str "rw") (hex_text (pd_event_timer pdo)))]).

Definition mapping_access (pdo : PdoDef) : list Z :=
  match pd_mapping pdo with Mutable => str "rw" | Immutable => str "const" end.

Definition slot_value (rs : list ResolvedMapping) (sub : Z) : list Z :=
  match rs !! Z.to_nat (sub - 1) with
  | Some m => str "0x" ++ hex_padded 8 (raw m)
  | None => str "0x00000000"
  end.

Definition map_object (pdo : PdoDef) (rs : list ResolvedMapping) : object :=
  let slots := exported_mapping_slots (pd_mapping pdo) rs in
  mkObject (map_index pdo)
    (main_props (pdo_prefix pdo ++ str " Mapping") (str "0x9") (slots + 1))
    ((0, sub_props (str "Number of Mapped Objects") 0x0005 (mapping_access pdo) (hex_text (len rs))
         ++ match pd_mapping pdo with
            | Mutable => [(str "LowLimit", decimal 0); (str "HighLimit", decimal slots)]
            | Immutable => []
            end)
     :: map (λ sub, (sub, sub_props (str "Mapping Entry " ++ decimal sub) 0x0007 (mapping_access pdo) (slot_value rs sub)))
          (one_to slots)).

Definition server_object (s : SdoServerDef) : object :=
  mkObject (0x1200 + (sd_number s - 1))
    (main_props (str "SDO Server Parameter") (str "0x9") 3)
    [(0, sub_props (str "Highest sub-index supported") 0x0005 (str "ro") (str "2"));
     (1, sub_props (str "COB-ID Client to Server (Receive SDO)") 0x0007 (str "ro") (cob_id_spec_eds (sd_cob_rx s)));
     (2, sub_props (str "COB-ID Server to Client (Transmit SDO)") 0x0007 (str "ro") (cob_id_spec_eds (sd_cob_tx s)))].

Definition store_eds : object :=
  mkObject 0x1021
    [(str "ParameterName", str "Store EDS"); (str "ObjectType", str "0x7"); (str "DataType", str "0x000F");
     (str "AccessType", str "ro"); (str "PDOMapping", str "0")] [].

Definition store_format : object :=
  mkObject 0x1022
    [(str "ParameterName", str "Store Format"); (str "ObjectType", str "0x7"); (str "DataType", str "0x0005");
     (str "AccessType", str "ro"); (str "DefaultValue", str "0x80"); (str "PDOMapping", str "0")] [].

(** ** The lines of each writer are its sections *)

Definition object_lines (o : object) : list (list Z) := flat_map section_lines (object_sections o).

Lemma server_lines s : write_sdo_server_eds s = object_lines (server_object s).
Proof. reflexivity. Qed.

Lemma self_lines : self_description = object_lines store_eds ++ object_lines store_format.
Proof. reflexivity. Qed.

Lemma var_lines fe : write_var_props fe 0x07 = map (λ p, prop (fst p) (snd p)) (fe_props fe).
Proof. reflexivity. Qed.

Lemma one_to_split sub n : (λ i, sub + Z.of_nat i) <$> seq 0 (S n) = sub :: ((λ i, sub + 1 + Z.of_nat i) <$> seq 0 n).
Proof.
  cbn [seq fmap list_fmap]. f_equal; [lia|]. rewrite <- seq_shift, <- list_fmap_compose. apply list_fmap_ext. intros. unfold compose. lia.
Qed.

Lemma slots_lines n sub i access rs :
  write_mapping_slots n sub i access rs =
  flat_map section_lines
    (map (λ s, (sub_key i s, sub_props (str "Mapping Entry " ++ decimal s) 0x0007 access (slot_value rs s)))
       ((λ k, sub + Z.of_nat k) <$> seq 0 n)).
Proof.
  revert sub. induction n as [|n IH]; intros sub; [done|]. rewrite one_to_split. cbn [map flat_map write_mapping_slots].
  rewrite IH. done.
Qed.

Lemma one_to_from n : one_to n = (λ k, 1 + Z.of_nat k) <$> seq 0 (Z.to_nat n).
Proof. unfold one_to. rewrite <- seq_shift, <- list_fmap_compose. apply list_fmap_ext. intros. unfold compose. lia. Qed.

Lemma map_lines pdo rs :
  len rs ≤ 64 →
  write_pdo_mapping_eds (map_index pdo) (pdo_prefix pdo ++ str " Mapping") (pd_mapping pdo) rs
  = Ret (object_lines (map_object pdo rs)).
Proof.
  intros Hlen. unfold write_pdo_mapping_eds. cbv zeta.
  assert (0 ≤ exported_mapping_slots (pd_mapping pdo) rs ≤ 64) as Hs.
  { unfold exported_mapping_slots, PDO_MAX_MAPPINGS. destruct (pd_mapping pdo); [|lia]. unfold wrap. change (2 ^ 8) with 256.
    rewrite Z.mod_small; lia. }
  rewrite (checked_ret 8 (exported_mapping_slots (pd_mapping pdo) rs + 1)) by (unfold is_uint; change (2 ^ 8) with 256; lia). cbn [mbind exec_bind mret exec_ret]. f_equal.
  rewrite slots_lines. unfold object_lines, object_sections, map_object. cbn [o_index o_main o_subs map flat_map fst snd].
  rewrite (List.map_map _ _ (one_to _)), one_to_from. unfold mapping_access. by destruct (pd_mapping pdo).
Qed.

Lemma pdo_lines pdo rs :
  len rs ≤ 64 → (4 < pd_number pdo → pd_cob_id pdo ≠ None) →
  write_pdo_eds pdo rs = Ret (object_lines (comm_object pdo) ++ object_lines (map_object pdo rs)).
Proof.
  intros Hlen Hcob. unfold write_pdo_eds. cbv zeta.
  assert (pdo_cob_id_default pdo = Ret (cob_id_spec_eds (effective_cob_id pdo))) as ->.
  { unfold pdo_cob_id_default, effective_cob_id. destruct (pd_cob_id pdo) as [[|]|]; [done..|]. unfold predefined_pdo_cob_id.
    destruct (Z.leb_spec (pd_number pdo) 4); [|exfalso; by apply Hcob; [lia|]]. by destruct (pd_direction pdo). }
  cbn [mbind exec_bind]. pose proof (map_lines pdo rs Hlen) as Hm. unfold pdo_prefix in Hm. rewrite <- (assoc_L (++)) in Hm.
  rewrite Hm. cbn [mbind exec_bind mret exec_ret]. f_equal. unfold object_lines at 2, comm_object, object_sections, pdo_prefix.
  rewrite <- (assoc_L (++)). by destruct (pd_direction pdo).
Qed.

(** ** The sections of a definition *)

(** A name without white space. *)
Definition is_name (name : list Z) : Prop := printable name.

Section sections.
Context {Expr : Type} (view : Expr → Syn).

Definition default_text (var : VarDef Expr) : list Z :=
  match eds_default view var with Ret t => t | Panic => [] end.

Definition var_flat (index subindex : Z) (name : list Z) (var : VarDef Expr) : FlatEdsEntry :=
  mkFlatEds index subindex name (type_name var) (default_text var) (vd_access var) (pdo_mappable var).

Definition entry_flats (e : OdEntry Expr) : list FlatEdsEntry :=
  match oe_kind e with
  | EntryVar var => [var_flat (oe_index e) 0 (oe_name e) var]
  | EntryRecord subs => map (λ s, var_flat (oe_index e) (sub_subindex s) (sub_name s) (sub_var s)) subs
  | EntryArray arr => map (flat_element (oe_index e) (oe_name e) arr) (one_to (arr_count arr))
  end.

Definition entry_object (e : OdEntry Expr) : object :=
  let i := oe_index e in
  match oe_kind e with
  | EntryVar var => mkObject i (fe_props (var_flat i 0 (oe_name e) var)) []
  | EntryRecord subs =>
      mkObject i (main_props (oe_name e) (str "0x9") (len subs + 1))
        ((0, count_props (foldr Z.max 0 (map sub_subindex subs)))
         :: map (λ s, (sub_subindex s, fe_props (var_flat i (sub_subindex s) (sub_name s) (sub_var s)))) subs)
  | EntryArray arr =>
      mkObject i (main_props (oe_name e) (str "0x8") (arr_count arr + 1))
        ((0, count_props (arr_count arr))
         :: map (λ sub, (sub, fe_props (flat_element i (oe_name e) arr sub))) (one_to (arr_count arr)))
  end.

(** *** Well-formed definitions *)

(** The default has a text of one line. *)
Definition var_writable (var : VarDef Expr) : Prop :=
  type_name var ∈ rust_types ∧ (∃ t, eds_default view var = Ret t) ∧ one_line (default_text var).

Definition entry_writable (e : OdEntry Expr) : Prop :=
  0x1000 ≤ oe_index e ∧ is_u16 (oe_index e) ∧ is_pdo_index (oe_index e) = false ∧ is_name (oe_name e) ∧
  match oe_kind e with
  | EntryVar var => var_writable var
  | EntryRecord subs =>
      subs ≠ [] ∧ Forall (λ s, is_u8 (sub_subindex s) ∧ is_name (sub_name s) ∧ var_writable (sub_var s)) subs
  | EntryArray arr => 1 ≤ arr_count arr ≤ 255 ∧ element_type arr ∈ rust_types
  end.

Definition cob_writable (c : CobIdSpec) : Prop := match c with Absolute r | NodeRelative r => is_u32 r end.

Definition resolved (od : OdDefinition Expr) (pdo : PdoDef) : list ResolvedMapping :=
  match resolve_pdo_mappings pdo (flatten (od_entries od)) with Ret rs => rs | Panic => [] end.

(** A raw mapping is a dummy: its index is a data type's. *)
Record pdo_writable (od : OdDefinition Expr) (p : PdoDef) : Prop := {
  pw_number : 1 ≤ pd_number p ≤ 512;
  pw_default : 4 < pd_number p → pd_cob_id p ≠ None;
  pw_cob : ∀ c, pd_cob_id p = Some c → cob_writable c;
  pw_type : is_u8 (pd_transmission_type p) ∧ ¬ 241 ≤ pd_transmission_type p ≤ 251;
  pw_inhibit : is_u16 (pd_inhibit_time p);
  pw_rpdo : pd_direction p = DirRpdo → pd_inhibit_time p = 0;
  pw_timer : is_u16 (pd_event_timer p);
  pw_count : len (pd_mappings p) ≤ 64;
  pw_raw : Forall (λ m, ∀ r, raw_mapping m = Some r → is_u32 r ∧ 1 ≤ r / 2 ^ 16 ≤ 7) (pd_mappings p);
  pw_bits : Forall (λ m, ∀ b, map_bit_length m = Some b → is_u8 b) (pd_mappings p);
  pw_resolve : resolve_pdo_mappings p (flatten (od_entries od)) = Ret (resolved od p);
}.

Definition server_writable (s : SdoServerDef) : Prop :=
  2 ≤ sd_number s ≤ 128 ∧ cob_writable (sd_cob_rx s) ∧ cob_writable (sd_cob_tx s).

Record writable (od : OdDefinition Expr) : Prop := {
  wr_valid : validate od = Ok tt;
  wr_name : one_line (od_name od);
  wr_entries : Forall entry_writable (od_entries od);
  wr_pdos : Forall (pdo_writable od) (od_pdos od);
  wr_numbers : NoDup (map (λ p, (pd_direction p, pd_number p)) (od_pdos od));
  wr_servers : Forall server_writable (od_sdo_servers od);
  wr_server_numbers : NoDup (map sd_number (od_sdo_servers od));
}.

(** *** Sections *)

Definition list_section (name : list Z) (indices : list Z) : section :=
  (name, (str "SupportedObjects", decimal (len indices))
         :: imap (λ i idx, (decimal (Z.of_nat i + 1), str "0x" ++ hex_padded 4 idx)) indices).

Definition all_flats (od : OdDefinition Expr) : list FlatEdsEntry := flat_map entry_flats (od_entries od).

Definition device_props (od : OdDefinition Expr) : props :=
  [(str "VendorName", []);
   (str "VendorNumber", identity (all_flats od) 1);
   (str "ProductName", od_name od);
   (str "ProductNumber", identity (all_flats od) 2);
   (str "RevisionNumber", identity (all_flats od) 3)]
  ++ map (λ rate, (str "BaudRate_" ++ rate, str "1")) BAUD_RATES
  ++ [(str "SimpleBootUpMaster", str "0"); (str "SimpleBootUpSlave", str "1"); (str "Granularity", str "1");
      (str "DynamicChannelsSupported", str "0"); (str "GroupMessaging", str "0");
      (str "NrOfRXPDO", decimal (count_dir DirRpdo (od_pdos od)));
      (str "NrOfTXPDO", decimal (count_dir DirTpdo (od_pdos od)));
      (str "LSS_Supported", str "1")].

Definition optional_indices (od : OdDefinition Expr) : list Z :=
  sort_dedup (List.filter (λ i, (i <? 0x2000) && negb (is_mandatory i)) (user_indices od)
              ++ pdo_indices od ++ sdo_indices od ++ [0x1021; 0x1022]).

Definition info_sections (od : OdDefinition Expr) : list section :=
  let standardised := List.filter (λ i, 0x6000 <=? i) (user_indices od) in
  [(str "FileInfo", [(str "FileName", od_name od ++ str ".eds"); (str "FileVersion", str "1");
                     (str "CreatedBy", str "canopen-rs (object_dictionary! macro)")]);
   (str "DeviceInfo", device_props od);
   list_section (str "MandatoryObjects") (List.filter is_mandatory (user_indices od));
   list_section (str "OptionalObjects") (optional_indices od);
   list_section (str "ManufacturerObjects") (List.filter (λ i, (0x2000 <=? i) && (i <? 0x6000)) (user_indices od))]
  ++ match standardised with [] => [] | _ => [list_section (str "StandardizedObjects") standardised] end.

Definition eds_objects (od : OdDefinition Expr) : list object :=
  map entry_object (od_entries od)
  ++ flat_map (λ p, [comm_object p; map_object p (resolved od p)]) (od_pdos od)
  ++ map server_object (od_sdo_servers od) ++ [store_eds; store_format].

Definition eds_sections (od : OdDefinition Expr) : list section :=
  info_sections od ++ flat_map object_sections (eds_objects od).

(** *** Lines *)

Lemma list_lines name indices : write_index_list name indices = section_lines (list_section name indices).
Proof.
  unfold write_index_list, section_lines, list_section. cbn [fst snd map app]. do 2 f_equal. f_equal.
  symmetry. set (g := λ p : list Z * list Z, prop (fst p) (snd p)). change (map g ?l) with (g <$> l). by rewrite fmap_imap.
Qed.

Lemma info_lines od : file_info od ++ device_info od (all_flats od) ++ index_lists od = flat_map section_lines (info_sections od).
Proof.
  unfold index_lists, info_sections. cbv zeta. rewrite !list_lines. fold (optional_indices od).
  destruct (List.filter (λ i, 0x6000 <=? i) (user_indices od)) as [|x l]; [reflexivity|].
  rewrite List.flat_map_app. cbn [flat_map]. rewrite !app_nil_r, !(assoc_L (++)). reflexivity.
Qed.

Lemma flat_var_ok i s name var : (∃ t, eds_default view var = Ret t) → flat_var view i s name var = Ret (var_flat i s name var).
Proof. intros [t Ht]. unfold flat_var, var_flat, default_text. by rewrite Ht. Qed.

Lemma entry_flats_ok e : entry_writable e → flatten_entry_for_eds view e = Ret (entry_flats e).
Proof.
  intros (_ & _ & _ & _ & He). unfold flatten_entry_for_eds, entry_flats. destruct (oe_kind e) as [var|subs|arr].
  - destruct He as (_ & Ht & _). by rewrite flat_var_ok.
  - destruct He as [_ Hs]. apply for_each_map. intros s Hin. apply flat_var_ok.
    apply (proj1 (List.Forall_forall _ _) Hs) in Hin as (_ & _ & _ & ? & _). done.
  - done.
Qed.

(** *** Each flat entry is found *)

Definition flat_key (f : FlatEdsEntry) : Z * Z := (fe_index f, fe_subindex f).

Lemma find_flat_in flat f :
  NoDup (map flat_key flat) → In f flat → find_flat flat (fe_index f) (fe_subindex f) = Some f.
Proof using Type.
  intros Hn Hin. unfold find_flat. rewrite <- (find_unique flat_key flat f (flat_key f) Hn Hin eq_refl).
  apply find_ext. intros x. unfold flat_key. symmetry. case_bool_decide as Hx.
  - injection Hx as -> ->. by rewrite !Z.eqb_refl.
  - symmetry. apply andb_false_iff. destruct (Z.eqb_spec (fe_index x) (fe_index f)); [|by left]. right. apply Z.eqb_neq. congruence.
Qed.

Lemma one_to_in n k : k ∈ one_to n ↔ 1 ≤ k ≤ n.
Proof using Type.
  unfold one_to. rewrite list_elem_of_fmap. setoid_rewrite elem_of_seq. split; [intros (x & -> & ?); lia|].
  intros. exists (Z.to_nat k). lia.
Qed.

Lemma one_to_NoDup n : NoDup (one_to n).
Proof using Type. apply NoDup_fmap_2; [apply _|apply NoDup_seq]. Qed.

Definition flat_group (e : OdEntry Expr) : Z * list Z :=
  (oe_index e, match oe_kind e with
               | EntryVar _ => [0]
               | EntryRecord subs => map sub_subindex subs
               | EntryArray arr => one_to (arr_count arr)
               end).

Lemma entry_flat_keys e : entry_writable e → map flat_key (entry_flats e) = group_addrs (flat_group e).
Proof.
  intros (_ & _ & _ & _ & He). unfold entry_flats, flat_group, group_addrs. cbn [fst snd].
  destruct (oe_kind e) as [var|subs|arr]; [done|by rewrite !List.map_map|].
  destruct He as [Hc _]. rewrite List.map_map. apply List.map_ext_in. intros k Hk%list_elem_of_In%one_to_in.
  unfold flat_key. cbn [fe_index fe_subindex flat_element]. f_equal. unfold wrap. change (2 ^ 8) with 256. apply Z.mod_small. lia.
Qed.

(** *** The lines of a definition *)

Section definition.
Context (od : OdDefinition Expr) (Hod : writable od).

Lemma entry_writable_in e : In e (od_entries od) → entry_writable e.
Proof using Hod. apply (proj1 (List.Forall_forall _ _) (wr_entries od Hod)). Qed.

Lemma pdo_writable_in p : In p (od_pdos od) → pdo_writable od p.
Proof using Hod. apply (proj1 (List.Forall_forall _ _) (wr_pdos od Hod)). Qed.

Lemma server_writable_in s : In s (od_sdo_servers od) → server_writable s.
Proof using Hod. apply (proj1 (List.Forall_forall _ _) (wr_servers od Hod)). Qed.

Lemma valid_entries :
  NoDup (map oe_index (od_entries od)) ∧ Forall subs_distinct (od_entries od) ∧
  (∀ i, In i (generated_indices od) → ¬ In i (map oe_index (od_entries od))).
Proof using Hod. apply valid_owners. apply Hod. Qed.

Lemma all_flats_ok : flatten_for_eds view (od_entries od) = Ret (all_flats od).
Proof using Hod.
  unfold flatten_for_eds. rewrite (for_each_map _ entry_flats) by (intros; by apply entry_flats_ok, entry_writable_in).
  cbn [mbind exec_bind mret exec_ret]. unfold all_flats. by rewrite flat_map_concat.
Qed.

Lemma flat_groups_distinct : Forall (λ gr, NoDup (snd gr)) (map flat_group (od_entries od)).
Proof using Hod.
  apply Forall_map, List.Forall_forall. intros e He. pose proof valid_entries as (_ & Hs & _).
  apply (proj1 (List.Forall_forall _ _) Hs) in He. unfold flat_group. cbn [snd].
  destruct (oe_kind e) eqn:Hk; [apply NoDup_singleton|by apply (He _ Hk)|apply one_to_NoDup].
Qed.

Lemma flats_NoDup : NoDup (map flat_key (all_flats od)).
Proof using Hod.
  assert (map flat_key (all_flats od) = flat_map group_addrs (map flat_group (od_entries od))) as ->.
  { unfold all_flats. pose proof (wr_entries od Hod) as He. induction He as [|e l He Hl IH]; [done|].
    cbn [flat_map map]. by rewrite map_app, IH, entry_flat_keys. }
  apply groups_NoDup; [|apply flat_groups_distinct]. rewrite List.map_map. apply valid_entries.
Qed.

Lemma write_sub_ok e f sub :
  In e (od_entries od) → In f (entry_flats e) → fe_index f = oe_index e →
  write_sub (all_flats od) (oe_index e) sub (fe_subindex f) = Ret (section_lines (sub_key (oe_index e) sub, fe_props f)).
Proof using Hod.
  intros He Hf Hi. unfold write_sub. rewrite <- Hi at 1. rewrite find_flat_in; [done|apply flats_NoDup|].
  unfold all_flats. apply List.in_flat_map. by exists e.
Qed.

Lemma entry_lines e : In e (od_entries od) → write_object (all_flats od) e = Ret (object_lines (entry_object e)).
Proof using Hod.
  intros Hin. pose proof (λ f sub, write_sub_ok e f sub Hin) as Hsub. pose proof (entry_writable_in e Hin) as (_ & _ & _ & _ & He).
  unfold write_object, entry_object, entry_flats in *. destruct (oe_kind e) as [var|subs|arr] eqn:Hk.
  - set (f := var_flat (oe_index e) 0 (oe_name e) var) in *.
    assert (find_flat (all_flats od) (oe_index e) 0 = Some f) as ->; [|done].
    apply (find_flat_in (all_flats od) f flats_NoDup). unfold all_flats. apply List.in_flat_map. exists e. split; [done|].
    unfold entry_flats. rewrite Hk. by left.
  - rewrite (for_each_map _ (λ s, section_lines (sub_key (oe_index e) (sub_subindex s),
      fe_props (var_flat (oe_index e) (sub_subindex s) (sub_name s) (sub_var s))))).
    2: { intros s Hs. apply (Hsub (var_flat (oe_index e) (sub_subindex s) (sub_name s) (sub_var s))); [|done]. apply List.in_map_iff. by exists s. }
    cbn [mbind exec_bind mret exec_ret]. f_equal. unfold object_lines, object_sections. cbn [o_index o_main o_subs map flat_map fst snd].
    rewrite flat_map_concat, List.map_map. rewrite !List.flat_map_concat_map, List.map_map. done.
  - destruct He as [Hc _]. rewrite (for_each_map _ (λ sub, section_lines (sub_key (oe_index e) sub,
      fe_props (flat_element (oe_index e) (oe_name e) arr sub)))).
    2: { intros k Hk'. apply (Hsub (flat_element (oe_index e) (oe_name e) arr k)); [|done]. by apply List.in_map. }
    cbn [mbind exec_bind mret exec_ret]. f_equal. unfold object_lines, object_sections. cbn [o_index o_main o_subs map flat_map fst snd].
    rewrite flat_map_concat, List.map_map. rewrite !List.flat_map_concat_map, List.map_map. done.
Qed.

Lemma resolve_all_length flat ms rs : resolve_all (Expr := Expr) flat ms = Ret rs → length rs = length ms.
Proof using Type.
  revert rs. induction ms as [|m ms IH]; intros rs; cbn [resolve_all]; [by intros [= <-]|].
  intros (r & _ & H)%bind_Ret_inv. apply bind_Ret_inv in H as (rs' & H & [= <-]). cbn [length]. f_equal. by apply IH.
Qed.

Lemma exported_resolved_length p : In p (od_pdos od) → len (resolved od p) = len (pd_mappings p).
Proof using Hod.
  intros Hp%pdo_writable_in. pose proof (pw_resolve _ _ Hp) as Hr.
  unfold resolve_pdo_mappings in Hr. apply bind_Ret_inv in Hr as (rs & Hr & H). apply bind_Ret_inv in H as (_ & _ & [= <-]).
  by rewrite (resolve_all_length _ _ _ Hr).
Qed.

Lemma resolved_bound p : In p (od_pdos od) → len (resolved od p) ≤ 64.
Proof using Hod. intros Hp. rewrite exported_resolved_length by done. by apply (pw_count od), pdo_writable_in. Qed.

Lemma flat_map_flat_map {A B C} (f : B → list C) (h : A → list B) l :
  flat_map f (flat_map h l) = flat_map (λ x, flat_map f (h x)) l.
Proof using Type. induction l as [|x l IH]; [done|]. cbn [flat_map]. by rewrite List.flat_map_app, IH. Qed.

Lemma flat_map_map {A B C} (f : B → list C) (h : A → B) l : flat_map f (map h l) = flat_map (λ x, f (h x)) l.
Proof using Type. induction l as [|x l IH]; [done|]. cbn [map flat_map]. by rewrite IH. Qed.

(** The lines of an export are those of its sections. *)
Lemma eds_lines_sections : eds_lines view od = Ret (flat_map section_lines (eds_sections od)).
Proof using Hod.
  unfold eds_lines. rewrite all_flats_ok. cbn [mbind exec_bind].
  rewrite (for_each_map _ (λ e, object_lines (entry_object e))) by (intros; by apply entry_lines). cbn [mbind exec_bind].
  rewrite (for_each_map _ (λ p, object_lines (comm_object p) ++ object_lines (map_object p (resolved od p)))).
  2: { intros p Hp. pose proof (pdo_writable_in p Hp) as Hw. rewrite (pw_resolve _ _ Hw). cbn [mbind exec_bind]. apply pdo_lines; [by apply resolved_bound|apply Hw]. }
  cbn [mbind exec_bind mret exec_ret]. f_equal. unfold eds_sections, eds_objects.
  rewrite !(assoc_L (++)), <- (assoc_L (++) (file_info od)), info_lines.
  rewrite !List.flat_map_app, !flat_map_concat, !flat_map_map, !flat_map_flat_map, self_lines. unfold object_lines.
  rewrite <- !(assoc_L (++)). f_equal. f_equal. f_equal.
  apply List.flat_map_ext. intros p. cbn [flat_map]. by rewrite app_nil_r.
Qed.

(** *** The sections are well formed *)

Lemma prop_ok_const k v : is_key k = true → one_line v → prop_ok (k, v).
Proof using Type. by split. Qed.

Lemma main_props_ok name ty n : one_line name → one_line ty → Forall prop_ok (main_props name ty n).
Proof using Type. intros. repeat apply List.Forall_cons; try apply List.Forall_nil; apply prop_ok_const; auto with lines. Qed.

Lemma sub_props_ok name ty a d : one_line name → one_line a → one_line d → Forall prop_ok (sub_props name ty a d).
Proof using Type. intros. repeat apply List.Forall_cons; try apply List.Forall_nil; apply prop_ok_const; auto with lines. Qed.

Lemma fe_props_ok fe : one_line (fe_name fe) → one_line (fe_default fe) → Forall prop_ok (fe_props fe).
Proof using Type.
  intros. repeat apply List.Forall_cons; try apply List.Forall_nil; apply prop_ok_const; auto with lines.
  - destruct (fe_access fe); cbn [access_to_eds]; auto with lines.
  - destruct (fe_mappable fe); auto with lines.
Qed.

Lemma cob_one_line c : one_line (cob_id_spec_eds c).
Proof using Type. destruct c; cbn [cob_id_spec_eds]; auto with lines. Qed.

Lemma flat_ok e f : In e (od_entries od) → In f (entry_flats e) → one_line (fe_name f) ∧ one_line (fe_default f).
Proof using Hod.
  intros Hin Hf. pose proof (entry_writable_in e Hin) as (_ & _ & _ & Hn & He). apply printable_one_line in Hn. unfold entry_flats in Hf.
  destruct (oe_kind e) as [var|subs|arr].
  - destruct Hf as [<-|[]]. by destruct He as (_ & _ & ?).
  - destruct He as [_ Hs]. apply List.in_map_iff in Hf as (s & <- & Hf).
    apply (proj1 (List.Forall_forall _ _) Hs) in Hf as (_ & Hsn & _ & _ & ?). split; [by apply printable_one_line|done].
  - apply List.in_map_iff in Hf as (s & <- & Hf). cbn [fe_name fe_default flat_element]. split; [auto with lines|].
    destruct (element_capacity arr); auto with lines.
Qed.

Definition object_ok (o : object) : Prop := Forall prop_ok (o_main o) ∧ Forall (λ s, Forall prop_ok (snd s)) (o_subs o).

Lemma entry_object_ok e : In e (od_entries od) → object_ok (entry_object e).
Proof using Hod.
  intros Hin. pose proof (entry_writable_in e Hin) as (_ & _ & _ & Hn & _). apply printable_one_line in Hn.
  assert (∀ f, In f (entry_flats e) → Forall prop_ok (fe_props f)) as Hf.
  { intros f Hf. apply (flat_ok e f Hin) in Hf as [? ?]. by apply fe_props_ok. }
  assert (∀ n, Forall prop_ok (count_props n)) as Hc by (intros; apply sub_props_ok; auto with lines).
  unfold object_ok, entry_object, entry_flats in *. destruct (oe_kind e) as [var|subs|arr]; cbn [o_main o_subs].
  - split; [apply Hf; by left|apply List.Forall_nil].
  - split; [apply main_props_ok; auto with lines|]. apply List.Forall_cons; [apply Hc|]. apply Forall_map, List.Forall_forall.
    intros s Hs. apply Hf. apply List.in_map_iff. by exists s.
  - split; [apply main_props_ok; auto with lines|]. apply List.Forall_cons; [apply Hc|]. apply Forall_map, List.Forall_forall.
    intros s Hs. apply Hf. by apply List.in_map.
Qed.

Lemma pdo_prefix_one_line p : one_line (pdo_prefix p).
Proof using Type. unfold pdo_prefix. destruct (pd_direction p); auto with lines. Qed.

Lemma comm_object_ok p : object_ok (comm_object p).
Proof using Type.
  pose proof (pdo_prefix_one_line p). pose proof (cob_one_line (effective_cob_id p)).
  unfold object_ok, comm_object, hex_text. cbn [o_main o_subs]. split; [apply main_props_ok; auto with lines|].
  destruct (pd_direction p); cbn [bool_decide app]; repeat (apply List.Forall_cons; [apply sub_props_ok; auto with lines|]);
    apply List.Forall_nil.
Qed.

Lemma map_object_ok p rs : object_ok (map_object p rs).
Proof using Type.
  pose proof (pdo_prefix_one_line p). assert (one_line (mapping_access p)) by (unfold mapping_access; destruct (pd_mapping p); auto with lines).
  unfold object_ok, map_object, hex_text. cbn [o_main o_subs]. split; [apply main_props_ok; auto with lines|].
  apply List.Forall_cons.
  - cbn [snd]. apply Forall_app_2; [apply sub_props_ok; auto with lines|].
    destruct (pd_mapping p); repeat apply List.Forall_cons; try apply List.Forall_nil; apply prop_ok_const; auto with lines.
  - apply Forall_map, List.Forall_forall. intros s _. cbn [snd]. apply sub_props_ok; auto with lines.
    unfold slot_value. destruct (rs !! _); auto with lines.
Qed.

Lemma server_object_ok s : object_ok (server_object s).
Proof using Type.
  pose proof (cob_one_line (sd_cob_rx s)). pose proof (cob_one_line (sd_cob_tx s)).
  split; cbn [server_object o_main o_subs]; [apply main_props_ok; auto with lines|].
  repeat (apply List.Forall_cons; [apply sub_props_ok; auto with lines|]). apply List.Forall_nil.
Qed.

Lemma self_ok : object_ok store_eds ∧ object_ok store_format.
Proof using Type.
  split; (split; [|apply List.Forall_nil]); repeat apply List.Forall_cons; try apply List.Forall_nil;
    apply prop_ok_const; auto with lines.
Qed.

Lemma flat_one_line f : In f (all_flats od) → one_line (fe_default f).
Proof using Hod. intros (e & He & Hf)%List.in_flat_map. by apply (flat_ok e f He). Qed.

Lemma identity_one_line sub : one_line (identity (all_flats od) sub).
Proof using Hod.
  unfold identity. destruct (find_flat _ _ _) as [f|] eqn:Hf; [|auto with lines]. apply List.find_some in Hf as [Hf _].
  by apply flat_one_line.
Qed.

Lemma list_section_ok name indices : name ≠ [] → one_line name → section_ok (list_section name indices).
Proof using Type.
  intros Hn Hl. split; [done|]. split; [done|]. cbn [list_section fst snd].
  apply List.Forall_cons; [apply prop_ok_const; auto with lines|]. apply List.Forall_forall.
  intros [k v] Hin%list_elem_of_In%elem_of_lookup_imap. destruct Hin as (i & idx & -> & _).
  apply prop_ok_const; [apply decimal_key|auto with lines].
Qed.

Lemma info_ok : Forall section_ok (info_sections od).
Proof using Hod.
  pose proof (wr_name od Hod). pose proof identity_one_line as Hid. unfold info_sections. apply Forall_app_2.
  - apply List.Forall_cons; [|apply List.Forall_cons; [|repeat (apply List.Forall_cons; [apply list_section_ok; auto with lines|]); apply List.Forall_nil]];
      (split; [done|split; [apply one_line_check; reflexivity|]]).
    + repeat (apply List.Forall_cons; [apply prop_ok_const; auto with lines|]). apply List.Forall_nil.
    + unfold device_props, BAUD_RATES. cbn [map app snd].
      repeat (apply List.Forall_cons; [apply prop_ok_const; auto with lines|]). apply List.Forall_nil.
  - destruct (List.filter _ _); [apply List.Forall_nil|]. apply List.Forall_cons; [apply list_section_ok; auto with lines|apply List.Forall_nil].
Qed.

Lemma objects_ok : Forall object_ok (eds_objects od).
Proof using Hod.
  apply List.Forall_forall. intros o. unfold eds_objects. rewrite !List.in_app_iff, List.in_flat_map, !List.in_map_iff.
  intros [(e & <- & He)|[(p & _ & Ho)|[(s & <- & _)|Ho]]].
  - by apply entry_object_ok.
  - destruct Ho as [<-|[<-|[]]]; [apply comm_object_ok|apply map_object_ok].
  - apply server_object_ok.
  - destruct self_ok. by destruct Ho as [<-|[<-|[]]].
Qed.

Lemma index_key_ok i : index_key i ≠ [] ∧ one_line (index_key i).
Proof using Type.
  unfold index_key, hex_padded. split; [|apply one_line_app; [by apply list.Forall_replicate|apply one_line_hex]].
  intros [Hr Hh]%app_eq_nil. by rewrite Hh in Hr.
Qed.

Lemma sub_key_ok i s : sub_key i s ≠ [] ∧ one_line (sub_key i s).
Proof using Type.
  unfold sub_key. split; [by intros [_ ?]%app_eq_nil|]. auto with lines.
Qed.

Lemma object_sections_ok o : object_ok o → Forall section_ok (object_sections o).
Proof using Type.
  intros [Hm Hs]. apply List.Forall_cons; [destruct (index_key_ok (o_index o)); by split|].
  apply Forall_map. eapply List.Forall_impl; [|exact Hs]. intros [k v] Hv. destruct (sub_key_ok (o_index o) k). by split.
Qed.

Lemma sections_ok : Forall section_ok (eds_sections od).
Proof using Hod.
  apply Forall_app_2; [apply info_ok|]. induction objects_ok as [|o l Ho Hl IH]; [apply List.Forall_nil|]. cbn [flat_map].
  apply Forall_app_2; [by apply object_sections_ok|done].
Qed.

(** The INI reader gets the sections back. *)
Lemma read_export :
  ∃ text, generate_eds view od = Ret text ∧ parse_sections text = map read_section (eds_sections od).
Proof using Hod.
  eexists. unfold generate_eds. rewrite eds_lines_sections. split; [reflexivity|]. apply parse_rendered, sections_ok.
Qed.
End definition.
End sections.
