(* ===== verification/EdsRoundTrip.v ===== *)
(** * Importing an exported EDS file

    The importer of [EdsParser] applied to the text of [EdsExport]: the objects
    come back with their types, access and mappability, the PDOs with their
    parameters and mappings ([eds_round_trip]). *)
From S2P Require Import Prelude GenTable Text Dcf Eds EdsParser EdsSpec EdsExport EdsText EdsExportSpec.

(** ** Sections read back *)

Definition read_object (o : object) : object :=
  mkObject (o_index o) (read_props (o_main o)) (map (λ s, (fst s, read_props (snd s))) (o_subs o)).

Lemma read_object_sections o : map read_section (object_sections o) = object_sections (read_object o).
Proof.
  unfold object_sections, read_object. cbn [map o_index o_main o_subs]. f_equal. rewrite !List.map_map. done.
Qed.

Lemma read_objects_sections os :
  map read_section (flat_map object_sections os) = flat_map object_sections (map read_object os).
Proof. induction os as [|o os IH]; [done|]. cbn [flat_map map]. by rewrite map_app, IH, read_object_sections. Qed.

(** An object whose keys are read as its addresses. *)
Definition addressable (o : object) : Prop :=
  0x1000 ≤ o_index o ∧ is_u16 (o_index o) ∧ Forall (λ s, is_u8 (fst s)) (o_subs o).

Definition object_group (o : object) : Z * list (option Z) := (o_index o, None :: map (λ s, Some (fst s)) (o_subs o)).

Lemma object_addresses o : addressable o → addresses (object_sections o) = group_addrs (object_group o).
Proof.
  intros (Hlo & Hi & Hs). unfold addresses, object_sections, object_group, group_addrs. cbn [omap list_omap fst snd map].
  rewrite parse_index_key by done. f_equal. induction Hs as [|s l Hs Hl IH]; [done|]. cbn [map omap list_omap fst].
  rewrite parse_sub_key by done. by f_equal.
Qed.

Lemma addresses_app s t : addresses (s ++ t) = addresses s ++ addresses t.
Proof. apply omap_app. Qed.

Lemma objects_addresses os :
  Forall addressable os → addresses (flat_map object_sections os) = flat_map group_addrs (map object_group os).
Proof.
  induction 1 as [|o os Ho Hos IH]; [done|]. cbn [flat_map map]. by rewrite addresses_app, object_addresses, IH.
Qed.

Lemma objects_NoDup os :
  Forall addressable os → NoDup (map o_index os) → Forall (λ o, NoDup (map fst (o_subs o))) os →
  NoDup (addresses (flat_map object_sections os)).
Proof.
  intros Ha Hn Hs. rewrite objects_addresses by done. apply groups_NoDup; [by rewrite List.map_map|].
  apply Forall_map. eapply List.Forall_impl; [|exact Hs]. intros o Ho. cbn [object_group snd]. apply list.NoDup_cons. split.
  - intros (s & ? & _)%list_elem_of_In%List.in_map_iff. done.
  - rewrite <- List.map_map. apply NoDup_fmap_2; [apply _|done].
Qed.

(** The sections with an address. *)
Lemma validate_unique_ok seen ss :
  NoDup (addresses ss) → (∀ a, a ∈ addresses ss → a ∉ map fst seen) → validate_unique seen ss = Ok tt.
Proof.
  revert seen. induction ss as [|[name ps] ss IH]; intros seen; [done|]. unfold addresses. cbn [omap list_omap fst validate_unique].
  fold (addresses ss). destruct (parse_section_index name) as [a|]; [|apply IH].
  intros [Ha Hn]%list.NoDup_cons Hseen. destruct (List.find _ seen) as [[b prev]|] eqn:Hf.
  - exfalso. apply List.find_some in Hf as [Hin Hb%bool_decide_eq_true]. cbn [fst] in Hb. apply (Hseen a); [by left|].
    apply list_elem_of_In, List.in_map_iff. by exists (b, prev).
  - apply IH; [done|]. intros b Hb. cbn [map fst]. intros [->|Hin]%elem_of_cons; [done|]. by apply (Hseen b); [right|].
Qed.

(** *** Finding a section *)

Lemma find_key ss key a ps :
  NoDup (addresses ss) → parse_section_index key = Some a → In (key, ps) ss → find_section ss key = Some ps.
Proof.
  intros Hn Ha Hin. unfold find_section. induction ss as [|[name ps'] ss IH]; [done|]. cbn [List.find fst].
  destruct (eq_ignore_ascii_case name key) eqn:He.
  - apply ignore_case_address in He. rewrite Ha in He. destruct Hin as [[= -> ->]|Hin]; [done|]. exfalso.
    unfold addresses in Hn. cbn [omap list_omap fst] in Hn. rewrite He in Hn. apply list.NoDup_cons in Hn as [Hn _]. apply Hn.
    apply list_elem_of_omap. exists (key, ps). split; [by apply list_elem_of_In|done].
  - destruct Hin as [[= -> ->]|Hin].
    + unfold eq_ignore_ascii_case in He. by rewrite bool_decide_eq_true_2 in He by done.
    + apply IH; [|done]. unfold addresses in *. cbn [omap list_omap fst] in Hn. destruct (parse_section_index name); [by apply list.NoDup_cons in Hn as [_ Hn]|done].
Qed.

Lemma find_no_key ss key a :
  parse_section_index key = Some a → a ∉ addresses ss → find_section ss key = None.
Proof.
  intros Ha Hn. unfold find_section. destruct (List.find _ ss) as [[name ps]|] eqn:Hf; [|done]. exfalso.
  apply List.find_some in Hf as [Hin He]. apply ignore_case_address in He. cbn [fst] in He. apply Hn.
  apply list_elem_of_omap. exists (name, ps). split; [by apply list_elem_of_In|]. cbn [fst]. congruence.
Qed.

(** ** The first pass *)

Lemma map_insert_new {A} (m : list (Z * A)) k v : k ∉ map fst m → map_insert m k v = m ++ [(k, v)].
Proof.
  intros Hk. unfold map_insert. f_equal. apply filter_id. intros [j w] Hin. cbn [fst]. apply negb_true_iff, Z.eqb_neq.
  intros ->. apply Hk, list_elem_of_In, List.in_map_iff. by exists (k, w).
Qed.

Lemma map_push_new {A} (m : list (Z * list A)) k x : k ∉ map fst m → map_push m k x = m ++ [(k, [x])].
Proof.
  intros Hk. unfold map_push. destruct (map_get m k) eqn:Hg; [|done]. apply map_get_in in Hg. exfalso. apply Hk.
  apply list_elem_of_In, List.in_map_iff. by exists (k, l).
Qed.

Lemma map_get_last {A} (m : list (Z * A)) k v : k ∉ map fst m → map_get (m ++ [(k, v)]) k = Some v.
Proof.
  intros Hk. unfold map_get. induction m as [|[j w] m IH]; cbn [app List.find fst].
  - by rewrite Z.eqb_refl.
  - destruct (Z.eqb_spec j k) as [->|]; [exfalso; apply Hk; by left|]. apply IH. intros H. apply Hk. by right.
Qed.

Lemma map_push_last {A} (m : list (Z * list A)) k l x :
  k ∉ map fst m → map_push (m ++ [(k, l)]) k x = m ++ [(k, l ++ [x])].
Proof.
  intros Hk. unfold map_push. rewrite map_get_last by done. rewrite map_app. cbn [map fst snd]. rewrite Z.eqb_refl. f_equal.
  rewrite <- (List.map_id m) at 2. apply List.map_ext_in. intros [j w] Hin. cbn [fst]. destruct (Z.eqb_spec j k) as [->|]; [|done]. exfalso. apply Hk.
  apply list_elem_of_In, List.in_map_iff. by exists (k, w).
Qed.

Lemma sublist_map {A B} (f : A → B) l k : l `sublist_of` k → map f l `sublist_of` map f k.
Proof. induction 1; cbn [map]; by constructor. Qed.

(** ** Rows

    An address of a dictionary: the entry's type, access and mappability, and
    for the number of entries of a record or array that number. *)

Record Row := mkRow {
  row_index : Z;
  row_sub : Z;
  row_type : list Z;
  row_access : AccessKind;
  row_mappable : bool;
  row_count : option Z;
}.

Definition count_row (index n : Z) : Row := mkRow index 0 (str "u8") AccRo false (Some n).

Definition var_row {Expr} (index subindex : Z) (var : VarDef Expr) : Row :=
  mkRow index subindex (type_name var) (vd_access var) (pdo_mappable var) None.

Definition rows_of {Expr} (e : OdEntry Expr) : list Row :=
  match oe_kind e with
  | EntryVar var => [var_row (oe_index e) 0 var]
  | EntryRecord subs =>
      count_row (oe_index e) (foldr Z.max 0 (map sub_subindex subs))
      :: map (λ s, var_row (oe_index e) (sub_subindex s) (sub_var s)) subs
  | EntryArray arr =>
      count_row (oe_index e) (arr_count arr)
      :: map (λ k, mkRow (oe_index e) k (element_type arr) (arr_access arr) (arr_pdo_mappable arr) None)
           (one_to (arr_count arr))
  end.

(** The parameters of an additional SDO server. *)
Definition server_rows (s : SdoServerDef) : list Row :=
  let i := 0x1200 + (sd_number s - 1) in
  [count_row i 2; mkRow i 1 (str "u32") AccRo false None; mkRow i 2 (str "u32") AccRo false None].

Definition flat_row (f : FlatEdsEntry) : Row :=
  mkRow (fe_index f) (fe_subindex f) (fe_type_name f) (fe_access f) (fe_mappable f) None.

Lemma max_perm l l' : l ≡ₚ l' → foldr Z.max 0 l = foldr Z.max 0 l'.
Proof. induction 1; cbn [foldr]; lia. Qed.

Section import.
Context {Expr : Type} (parse_expr : list Z → option Expr) (expr_text : Expr → list Z).
Context (capacity_overrides : list (Z * Z)).

Abbreviation first_pass_ := (first_pass parse_expr capacity_overrides).
Abbreviation parse_var_ := (parse_var_entry parse_expr capacity_overrides).
Abbreviation assemble_ := (assemble parse_expr expr_text capacity_overrides).

Definition object_type (ps : props) : Z := default 0x07 (v ← get_prop ps (str "ObjectType"); parse_int v).

Definition skipped (i : Z) : bool := is_pdo_index i || (i =? 0x1021) || (i =? 0x1022).

Lemma first_pass_app p ss ts :
  first_pass_ p (ss ++ ts) = match first_pass_ p ss with Ok q => first_pass_ q ts | Err e => Err e end.
Proof using Type.
  revert p. induction ss as [|s ss IH]; intros p; [done|]. cbn [app first_pass].
  destruct (first_pass_step _ _ p s); [apply IH|done].
Qed.

(** Sections that are no objects, and objects of PDOs. *)
Lemma first_pass_skips p ss :
  Forall (λ s, match parse_section_index (fst s) with Some (i, _) => skipped i = true | None => True end) ss →
  first_pass_ p ss = Ok p.
Proof using Type.
  induction 1 as [|[name ps] ss Hs Hss IH]; [done|]. cbn [first_pass first_pass_step fst] in *.
  destruct (parse_section_index name) as [[i o]|]; [|done]. unfold skipped in Hs. by rewrite Hs.
Qed.

(** The sub-sections of an object. *)
Lemma first_pass_subs p i l subs :
  is_u16 i → skipped i = false → i ∉ map fst (record_subs p) → Forall (λ s, is_u8 (fst s)) subs →
  first_pass_ (mkFirstPass (fp_entries p) (record_subs p ++ [(i, l)]) (obj_types p))
    (map (λ s, (sub_key i (fst s), snd s)) subs)
  = Ok (mkFirstPass (fp_entries p) (record_subs p ++ [(i, l ++ subs)]) (obj_types p)).
Proof using Type.
  intros Hi Hsk Hnew Hs. revert l. induction Hs as [|[k ps] subs Hk Hs IH]; intros l; [by rewrite app_nil_r|].
  cbn [map first_pass first_pass_step fst snd]. rewrite parse_sub_key by done. unfold skipped in Hsk. rewrite Hsk.
  cbn [fp_entries record_subs obj_types]. rewrite map_push_last by done. rewrite IH, <- app_assoc. done.
Qed.

(** What one object adds. *)
Definition object_subs (o : object) : list (Z * list (Z * props)) :=
  match o_subs o with [] => [] | subs => [(o_index o, subs)] end.

Definition add_object (p : FirstPass (Expr := Expr)) (o : object) (var : option (OdEntry Expr)) : FirstPass (Expr := Expr) :=
  mkFirstPass (fp_entries p ++ option_list var)
    (record_subs p ++ object_subs o)
    (obj_types p ++ [(o_index o, object_type (o_main o))]).

(** The entry an object's main section becomes: a variable, or none yet. *)
Definition main_entry (o : object) (var : option (OdEntry Expr)) : Prop :=
  if object_type (o_main o) =? 0x07 then
    ∃ s, parse_var_ (o_index o) 0 (o_main o) = Ok (Some s) ∧ var = Some (mkOdEntry (o_index o) (sub_name s) (EntryVar (sub_var s)))
  else var = None.

Lemma first_pass_object p o var :
  addressable o → skipped (o_index o) = false → main_entry o var →
  o_index o ∉ map fst (record_subs p) → o_index o ∉ map fst (obj_types p) →
  first_pass_ p (object_sections o) = Ok (add_object p o var).
Proof using Type.
  intros (Hlo & Hi & Hs) Hsk Hm Hr Ht. unfold object_sections. cbn [first_pass first_pass_step].
  rewrite parse_index_key by done. pose proof Hsk as Hsk'. unfold skipped in Hsk'. rewrite Hsk'. cbv zeta.
  fold (object_type (o_main o)). rewrite map_insert_new by done. unfold main_entry in Hm.
  assert (∀ es, first_pass_ (mkFirstPass es (record_subs p) (obj_types p ++ [(o_index o, object_type (o_main o))]))
                  (map (λ s, (sub_key (o_index o) (fst s), snd s)) (o_subs o))
                = Ok (mkFirstPass es (record_subs p ++ object_subs o)
                        (obj_types p ++ [(o_index o, object_type (o_main o))]))) as Hsubs.
  { intros es. unfold object_subs. destruct Hs as [|[k ps] subs Hk Hs]; [by rewrite app_nil_r|]. cbn [map first_pass first_pass_step fst snd].
    rewrite parse_sub_key by done. rewrite Hsk'. cbn [record_subs fp_entries obj_types]. rewrite map_push_new by done.
    apply (first_pass_subs (mkFirstPass es (record_subs p) (obj_types p ++ [(o_index o, object_type (o_main o))])) (o_index o) [(k, ps)] subs);
      done. }
  destruct (object_type (o_main o) =? 7).
  - destruct Hm as (s & -> & ->). apply Hsubs.
  - subst var. rewrite Hsubs. unfold add_object. by rewrite app_nil_r.
Qed.

Lemma object_subs_key o i : i ∈ map fst (object_subs o) → i = o_index o.
Proof using Type.
  unfold object_subs. destruct (o_subs o); [by intros ?%not_elem_of_nil|]. cbn [map fst]. by intros ?%list_elem_of_singleton.
Qed.

Lemma first_pass_objects p os vars :
  Forall addressable os → Forall (λ o, skipped (o_index o) = false) os → Forall2 main_entry os vars →
  NoDup (map o_index os) →
  Forall (λ o, (o_index o ∉ map fst (record_subs p)) ∧ (o_index o ∉ map fst (obj_types p))) os →
  first_pass_ p (flat_map object_sections os)
  = Ok (mkFirstPass (fp_entries p ++ concat (map option_list vars)) (record_subs p ++ flat_map object_subs os)
          (obj_types p ++ map (λ o, (o_index o, object_type (o_main o))) os)).
Proof using Type.
  intros Ha Hk Hm Hn Hp. revert p Ha Hk Hn Hp. induction Hm as [|o var os vars Hm Hms IH]; intros p Ha Hk Hn Hp.
  - cbn [flat_map first_pass map concat]. rewrite !app_nil_r. by destruct p.
  - apply List.Forall_cons_iff in Ha as [Ha Has], Hk as [Hk Hks], Hp as [[Hr Ht] Hps]. cbn [map] in Hn. apply list.NoDup_cons in Hn as [Hi Hn].
    cbn [flat_map map concat]. rewrite first_pass_app, (first_pass_object p o var) by done. rewrite IH; [|done..|].
    + unfold add_object. cbn [fp_entries record_subs obj_types]. rewrite <- !(assoc_L (++)). done.
    + apply List.Forall_forall. intros o' Ho'. pose proof (proj1 (List.Forall_forall _ _) Hps o' Ho') as [Hr' Ht'].
      assert (o_index o' ≠ o_index o) as Hne.
      { intros He. apply Hi. rewrite <- He. apply list_elem_of_In. by apply List.in_map. }
      unfold add_object. cbn [record_subs obj_types]. rewrite !map_app. split; intros [?|Hin]%elem_of_app; try done.
      * by apply object_subs_key in Hin.
      * cbn [map fst] in Hin. by apply list_elem_of_singleton in Hin.
Qed.

(** ** Variables *)

Lemma types_back ty : ty ∈ rust_types → ∃ size, datatype_to_rust (type_to_eds_code ty) = Some (ty, size) ∧ is_u16 (type_to_eds_code ty).
Proof using Type.
  intros H. unfold rust_types in H. repeat (apply elem_of_cons in H as [->|H]; [eexists; split; [reflexivity|by vm_compute]|]).
  by apply not_elem_of_nil in H.
Qed.

Definition default_capacity (ty : list Z) : Z :=
  if bool_decide (ty = str "visible_string") then 64
  else if bool_decide (ty = str "octet_string") then 256
  else if bool_decide (ty = str "domain") then 512 else 256.

Definition imported_capacity (i : Z) (ty : list Z) : option Z :=
  if is_variable_length_type ty then Some (default (default_capacity ty) (map_get capacity_overrides i)) else None.

(** The default text of a sized type is accepted. *)
Definition readable (ty text : list Z) : Prop :=
  is_variable_length_type ty = false →
  ∃ n e, normalize_default text (type_to_eds_code ty) = Some n ∧ parse_expr n = Some e.

Lemma trim_idem s : trim (trim s) = trim s.
Proof using Type.
  apply trim_dark.
  - change (starts_dark (trim_end (trim_start s))). destruct (trim_start_spec s) as (_ & _ & _ & Hd).
    destruct (trim_end_spec (trim_start s)) as (w & _ & Hw & _). destruct (trim_end (trim_start s)); [done|]. rewrite Hw in Hd. done.
  - change (ends_dark (trim_end (trim_start s))). by destruct (trim_end_spec (trim_start s)) as (_ & _ & _ & Hd).
Qed.

Lemma normalize_trim v ty : normalize_default (trim v) ty = normalize_default v ty.
Proof using Type. unfold normalize_default. by rewrite trim_idem. Qed.

Lemma access_back a :
  (let l := to_lowercase (trim (trim (access_to_eds a))) in
   if bool_decide (l = str "ro") then Some AccRo
   else if bool_decide (l = str "const") then Some AccConst
   else if bool_decide (l = str "rw") || bool_decide (l = str "rwr") || bool_decide (l = str "rww") then Some AccRw
   else if bool_decide (l = str "wo") then Some AccWo else None) = Some a.
Proof using Type. by destruct a. Qed.

Lemma parse_int_trim s : parse_int (trim s) = parse_int s.
Proof using Type. unfold parse_int, parse_int_val. by rewrite trim_idem. Qed.

Lemma data_type_back code :
  is_u16 code → (n ← parse_int (trim (str "0x" ++ hex_padded 4 code)); try_from 16 n) = Some code.
Proof using Type.
  intros Hc. rewrite parse_int_trim, parse_hex by (unfold is_uint in *; lia). cbn [mbind option_bind]. unfold try_from.
  unfold is_uint in Hc. by rewrite (proj2 (Z.ltb_lt _ _)) by lia.
Qed.

(** The import of an exported variable. *)
Lemma parse_var_back i s fe :
  fe_type_name fe ∈ rust_types → trim (fe_name fe) = fe_name fe → readable (fe_type_name fe) (fe_default fe) →
  ∃ d, parse_var_ i s (read_props (fe_props fe))
       = Ok (Some (mkSubEntry s (sanitize_name (fe_name fe))
           (mkVarDef (fe_type_name fe) (imported_capacity i (fe_type_name fe)) d (fe_access fe) (fe_mappable fe)))).
Proof using Type.
  intros Hty Hname Hr. destruct (types_back _ Hty) as (size & Hback & Hcode). unfold parse_var_entry.
  change (get_prop (read_props (fe_props fe)) (str "ParameterName")) with (Some (trim (fe_name fe))).
  change (get_prop (read_props (fe_props fe)) (str "DataType")) with (Some (trim (str "0x" ++ hex_padded 4 (type_to_eds_code (fe_type_name fe))))).
  change (get_prop (read_props (fe_props fe)) (str "AccessType")) with (Some (trim (access_to_eds (fe_access fe)))).
  change (get_prop (read_props (fe_props fe)) (str "DefaultValue")) with (Some (trim (fe_default fe))).
  change (get_prop (read_props (fe_props fe)) (str "PDOMapping")) with (Some (trim (if fe_mappable fe then str "1" else str "0"))).
  cbn [mbind option_bind default]. rewrite (data_type_back _ Hcode). cbn [from_option id]. rewrite Hback. cbv zeta.
  rewrite access_back, Hname.
  assert (negb (default 0 (parse_int (trim (if fe_mappable fe then str "1" else str "0"))) =? 0) = fe_mappable fe) as -> by (by destruct (fe_mappable fe)).
  unfold imported_capacity, readable in *. destruct (is_variable_length_type (fe_type_name fe)); [eexists; reflexivity|].
  destruct (Hr eq_refl) as (n & e & Hn & He). rewrite normalize_trim, Hn, He. by eexists.
Qed.

(** ** Records and arrays *)

(** A sub-entry and what it was exported from. *)
Definition sub_back (f : FlatEdsEntry) (s : SubEntry Expr) : Prop :=
  sub_subindex s = fe_subindex f ∧ type_name (sub_var s) = fe_type_name f ∧ vd_access (sub_var s) = fe_access f ∧
  pdo_mappable (sub_var s) = fe_mappable f.

Definition flat_readable (f : FlatEdsEntry) : Prop :=
  fe_type_name f ∈ rust_types ∧ trim (fe_name f) = fe_name f ∧ readable (fe_type_name f) (fe_default f).

Lemma parse_subs_back i fs :
  Forall flat_readable fs → Forall (λ f, fe_subindex f ≠ 0) fs →
  ∃ l, parse_subs parse_expr capacity_overrides i (map (λ f, (fe_subindex f, read_props (fe_props f))) fs) = Ok l ∧
       Forall2 sub_back fs l.
Proof using Type.
  induction 1 as [|f fs (Hty & Hn & Hr) Hfs IH]; intros H0; [by exists []|]. apply List.Forall_cons_iff in H0 as [H0 H0s].
  destruct (IH H0s) as (l & Hl & Hback). destruct (parse_var_back i (fe_subindex f) f Hty Hn Hr) as (d & Hv).
  cbn [map parse_subs]. rewrite (proj2 (Z.eqb_neq _ _) H0), Hv, Hl. eexists. split; [reflexivity|].
  cbn [option_list app]. apply Forall2_cons_2; [|done]. by repeat split.
Qed.

(** What a re-imported object must be like: the rows, and for what PDOs may
    map, a flat entry at its address. *)
Record back (i : Z) (rows : list Row) (fs : list FlatEdsEntry) (e : OdEntry Expr) : Prop := {
  bk_index : oe_index e = i;
  bk_rows : rows_of e ≡ₚ rows;
  bk_flat : ∀ f, In f fs → ∃ g, In g (flatten_entry e) ∧ fl_subindex g = fe_subindex f ∧
    type_name (fl_var g) = fe_type_name f ∧ pdo_mappable (fl_var g) = fe_mappable f;
  bk_subs : NoDup (map fl_subindex (flatten_entry e));
}.

Definition prefixed (prefix : list Z) (s : SubEntry Expr) : SubEntry Expr :=
  mkSubEntry (sub_subindex s) (prefix ++ str "_" ++ sub_name s) (sub_var s).

(** The record made of sub-entries. *)
Lemma record_back i prefix fs (l : list (SubEntry Expr)) :
  Forall2 sub_back fs l → NoDup (map fe_subindex fs) → Forall (λ f, fe_index f = i) fs →
  back i (count_row i (foldr Z.max 0 (map fe_subindex fs)) :: map flat_row fs) fs
    (mkOdEntry i prefix (EntryRecord (map (prefixed prefix) (sort_by_key sub_subindex l)))).
Proof using Type.
  intros Hl Hn Hi. pose proof (sort_by_key_perm sub_subindex l) as Hp.
  assert (map sub_subindex l = map fe_subindex fs) as Hsubs.
  { clear Hn Hi Hp. induction Hl as [|f s fs l (Hs & _) Hl IH]; [done|]. cbn [map]. by rewrite Hs, IH. }
  assert (map sub_subindex (map (prefixed prefix) (sort_by_key sub_subindex l)) ≡ₚ map fe_subindex fs) as Hkeys.
  { rewrite List.map_map. change (map sub_subindex (sort_by_key sub_subindex l) ≡ₚ map fe_subindex fs). rewrite <- Hsubs. by apply Permutation_map. }
  split; [done|..].
  - unfold rows_of. cbn [oe_index oe_kind]. rewrite (max_perm _ _ Hkeys). apply Permutation_cons; [done|].
    rewrite List.map_map. change (map (λ s, var_row i (sub_subindex s) (sub_var s)) (sort_by_key sub_subindex l) ≡ₚ map flat_row fs).
    rewrite Hp. match goal with |- ?a ≡ₚ ?b => enough (a = b) as -> by done end. clear Hn Hsubs Hkeys Hp. induction Hl as [|f s fs l (Hs & Ht & Ha & Hm) Hl IH]; [done|].
    apply List.Forall_cons_iff in Hi as [Hi His]. cbn [map]. rewrite (IH His). unfold var_row, flat_row. by rewrite Hs, Ht, Ha, Hm, Hi.
  - intros f Hf. unfold flatten_entry. cbn [oe_kind oe_index].
    apply list_elem_of_In, list_elem_of_lookup in Hf as [k Hk]. destruct (Forall2_lookup_l _ _ _ _ _ Hl Hk) as (s & Hs & Hb & Ht & _ & Hm).
    exists (mkFlatEntry i (sub_subindex s) (sub_name (prefixed prefix s)) (sub_var s)). split; [|by repeat split].
    apply List.in_map_iff. exists (prefixed prefix s). split; [done|]. apply List.in_map, (Permutation_in _ (symmetry Hp)).
    by apply list_elem_of_In, list_elem_of_lookup_2 with k.
  - unfold flatten_entry. cbn [oe_kind oe_index]. rewrite List.map_map. cbn [fl_subindex]. by rewrite Hkeys.
Qed.

(** The elements of an array, and the array made of them. *)
Definition elements (i : Z) (name : list Z) (arr : ArrayDef) : list FlatEdsEntry :=
  map (flat_element i name arr) (one_to (arr_count arr)).

Lemma element_index i name arr k : 1 ≤ k ≤ 255 → fe_subindex (flat_element i name arr k) = k.
Proof using Type. intros. cbn [fe_subindex flat_element]. unfold wrap. change (2 ^ 8) with 256. apply Z.mod_small. lia. Qed.

Lemma element_subs i name arr :
  arr_count arr ≤ 255 → map fe_subindex (elements i name arr) = one_to (arr_count arr).
Proof using Type.
  intros Hc. unfold elements. rewrite List.map_map. rewrite <- List.map_id. apply List.map_ext_in.
  intros k Hk%list_elem_of_In%one_to_in. apply element_index. lia.
Qed.

Lemma one_to_length n : 0 ≤ n → len (one_to n) = n.
Proof using Type. intros. unfold one_to. rewrite length_fmap, length_seq. lia. Qed.

Lemma one_to_succ n : 0 ≤ n → one_to (n + 1) = one_to n ++ [n + 1].
Proof using Type.
  intros Hn. unfold one_to. replace (Z.to_nat (n + 1)) with (S (Z.to_nat n)) by lia. rewrite seq_S, fmap_app. cbn [fmap list_fmap]. do 2 f_equal. lia.
Qed.

Lemma max_app l m : foldr Z.max 0 (l ++ m) = Z.max (foldr Z.max 0 l) (foldr Z.max 0 m).
Proof using Type.
  induction l as [|x l IH]; cbn [app foldr]; [|lia]. induction m as [|y m IHm]; cbn [foldr]; lia.
Qed.

Lemma one_to_max n : 0 ≤ n → foldr Z.max 0 (one_to n) = n.
Proof using Type.
  revert n. apply natlike_ind; [done|]. intros n Hn IH. change (Z.succ n) with (n + 1). rewrite one_to_succ by done.
  rewrite max_app, IH. cbn [foldr]. lia.
Qed.

Lemma array_back i name arr prefix ty cap access mappable :
  0 ≤ arr_count arr ≤ 255 → ty = element_type arr → access = arr_access arr → mappable = arr_pdo_mappable arr →
  back i (count_row i (foldr Z.max 0 (map fe_subindex (elements i name arr))) :: map flat_row (elements i name arr)) []
    (mkOdEntry i prefix (EntryArray (mkArrayDef ty cap (arr_count arr) access mappable))).
Proof using Type.
  intros Hc -> -> ->. split; [done| |done|apply base.NoDup_nil_2]. rewrite element_subs, one_to_max by lia. unfold rows_of. cbn [oe_kind oe_index arr_count element_type arr_access arr_pdo_mappable].
  apply Permutation_cons; [done|]. match goal with |- ?a ≡ₚ ?b => enough (a = b) as -> by done end. unfold elements. rewrite List.map_map. apply List.map_ext_in.
  intros k Hk%list_elem_of_In%one_to_in. unfold flat_row. cbn [flat_element fe_index fe_subindex fe_type_name fe_access fe_mappable].
  f_equal. unfold wrap. change (2 ^ 8) with 256. symmetry. apply Z.mod_small. lia.
Qed.

Lemma back_weaken i rows fs e : back i rows fs e → back i rows [] e.
Proof using Type. intros [? ? _ ?]. by split. Qed.

(** An object with sub-sections: a record, or the elements of an array. *)
Lemma assemble_back sections types i ps0 fs :
  fs ≠ [] → Forall flat_readable fs → Forall (λ f, 1 ≤ fe_subindex f ∧ fe_index f = i) fs → NoDup (map fe_subindex fs) →
  (map_get types i = Some 0x09 ∨
   map_get types i = Some 0x08 ∧ ∃ name arr, fs = elements i name arr ∧ 0 ≤ arr_count arr ≤ 255) →
  ∃ e, assemble_ sections types i ((0, ps0) :: map (λ f, (fe_subindex f, read_props (fe_props f))) fs) = Ok (Some e) ∧
    back i (count_row i (foldr Z.max 0 (map fe_subindex fs)) :: map flat_row fs)
      (if bool_decide (map_get types i = Some 0x09) then fs else []) e.
Proof using Type.
  intros Hne Hr Hi Hn Ht.
  assert (Forall (λ f, fe_subindex f ≠ 0) fs) as H0 by (eapply List.Forall_impl; [|exact Hi]; simpl; lia).
  destruct (parse_subs_back i fs Hr H0) as (l & Hl & Hback). unfold assemble. cbn [parse_subs Z.eqb]. rewrite Hl.
  destruct l as [|s0 l0] eqn:Hl0; [by apply Forall2_nil_inv_r in Hback|]. rewrite <- Hl0 in *. clear Hl0 s0 l0. cbv zeta.
  set (prefix := sanitize_name (main_name sections i)).
  change (map (λ s, mkSubEntry (sub_subindex s) (prefix ++ str "_" ++ sub_name s) (sub_var s)) (sort_by_key sub_subindex l))
    with (map (prefixed prefix) (sort_by_key sub_subindex l)).
  pose proof (record_back i prefix fs l Hback Hn ltac:(eapply List.Forall_impl; [|exact Hi]; simpl; lia)) as Hrec.
  destruct Ht as [Ht|(Ht & name & arr & Hfs & Hc)]; rewrite Ht; cbn [default from_option id].
  - rewrite bool_decide_eq_true_2 by done. cbn [Z.eqb Pos.eqb andb]. eexists. split; [reflexivity|done].
  - rewrite bool_decide_eq_false_2 by done. apply back_weaken in Hrec.
    destruct ((0x08 =? 0x08) && _ && _) eqn:Hz; [|eexists; split; [reflexivity|done]].
    rewrite filter_id.
    2: { intros s Hs. apply List.in_map_iff in Hs as (s' & <- & Hs'). apply (Permutation_in _ (sort_by_key_perm sub_subindex l)) in Hs'.
         apply list_elem_of_In, list_elem_of_lookup in Hs' as [k Hk]. destruct (Forall2_lookup_r _ _ _ _ _ Hback Hk) as (f & Hf & Hsf & _).
         apply Z.ltb_lt. cbn [prefixed sub_subindex]. rewrite Hsf. apply list_elem_of_lookup_2, list_elem_of_In in Hf.
         apply (proj1 (List.Forall_forall _ _) Hi) in Hf. lia. }
    assert (length (sort_by_key sub_subindex l) = length fs) as Hlen.
    { rewrite (sort_by_key_perm sub_subindex l). symmetry. by apply Forall2_length in Hback. }
    destruct (sort_by_key sub_subindex l) as [|s1 rest] eqn:Hsort; [by destruct fs|]. cbn [map].
    assert (In s1 l) as Hs1 by (apply (Permutation_in _ (sort_by_key_perm sub_subindex l)); rewrite Hsort; by left).
    apply list_elem_of_In, list_elem_of_lookup in Hs1 as [k Hk]. destruct (Forall2_lookup_r _ _ _ _ _ Hback Hk) as (f & Hf & _ & Hty & Ha & Hm).
    apply list_elem_of_lookup_2, list_elem_of_In in Hf. rewrite Hfs in Hf. apply List.in_map_iff in Hf as (j & <- & _).
    assert (len (prefixed prefix s1 :: map (prefixed prefix) rest) = arr_count arr) as ->.
    { cbn [length] in *. rewrite length_map, Hlen, Hfs. unfold elements. by rewrite length_map, one_to_length by lia. }
    eexists. split; [reflexivity|]. rewrite Hfs. by apply array_back.
Qed.

(** ** All objects *)

(** An exported variable, record or array, its rows, and the entries PDOs may
    map. *)
Inductive importable : object → list Row → list FlatEdsEntry → Prop :=
| importable_var f :
    flat_readable f → fe_subindex f = 0 →
    importable (mkObject (fe_index f) (fe_props f) []) [flat_row f] [f]
| importable_record i name n ps0 fs :
    fs ≠ [] → Forall flat_readable fs → Forall (λ f, 1 ≤ fe_subindex f ∧ fe_index f = i) fs → NoDup (map fe_subindex fs) →
    importable (mkObject i (main_props name (str "0x9") n) ((0, ps0) :: map (λ f, (fe_subindex f, fe_props f)) fs))
      (count_row i (foldr Z.max 0 (map fe_subindex fs)) :: map flat_row fs) fs
| importable_array i name n ps0 arr :
    Forall flat_readable (elements i name arr) → 1 ≤ arr_count arr ≤ 255 →
    importable
      (mkObject i (main_props name (str "0x8") n) ((0, ps0) :: map (λ f, (fe_subindex f, fe_props f)) (elements i name arr)))
      (count_row i (foldr Z.max 0 (map fe_subindex (elements i name arr))) :: map flat_row (elements i name arr)) [].

Definition known_type (types : list (Z * Z)) (o : object) : Prop :=
  map_get types (o_index o) = Some (object_type (o_main o)).

(** Each object becomes one entry, in the first or in the second pass. *)
Lemma importable_back sections types o rows fs :
  importable o rows fs → known_type types (read_object o) →
  ∃ e var, back (o_index o) rows fs e ∧ main_entry (read_object o) var ∧
    match o_subs (read_object o) with
    | [] => var = Some e
    | subs => var = None ∧ assemble_ sections types (o_index o) subs = Ok (Some e)
    end.
Proof using Type.
  unfold known_type, read_object. cbn [o_index o_main].
  intros [f Hf Hs|i name n ps0 l Hne Hr Hi Hn|i name n ps0 arr Hr Hc] Ht; cbn [o_index o_main o_subs] in *.
  - destruct Hf as (Hty & Hname & Hr). destruct (parse_var_back (fe_index f) 0 f Hty Hname Hr) as (d & Hv).
    eexists _, _. split; [|split; [|reflexivity]]; cycle 1.
    + unfold main_entry. cbn [o_main o_index]. change (object_type (read_props (fe_props f))) with 7. cbn [Z.eqb Pos.eqb].
      eexists. split; [exact Hv|reflexivity].
    + cbn [sub_name sub_var]. split; [done|..].
      * unfold rows_of, flat_row, var_row. cbn [oe_kind oe_index]. by rewrite Hs.
      * intros g [<-|[]]. unfold flatten_entry. cbn [oe_kind oe_index]. eexists. split; [by left|]. cbn [fl_subindex fl_var]. by rewrite Hs.
      * apply NoDup_singleton.
  - change (object_type (read_props (main_props name (str "0x9") n))) with 9 in Ht.
    destruct (assemble_back sections types i (read_props ps0) l) as (e & He & Hb); [done..|by left|].
    rewrite bool_decide_eq_true_2 in Hb by done. exists e, None. split; [done|]. split; [done|]. cbn [map fst snd]. split; [done|].
    by rewrite List.map_map.
  - change (object_type (read_props (main_props name (str "0x8") n))) with 8 in Ht.
    assert (map fe_subindex (elements i name arr) = one_to (arr_count arr)) as Hsubs by (apply element_subs; lia).
    destruct (assemble_back sections types i (read_props ps0) (elements i name arr)) as (e & He & Hb).
    + unfold elements. intros [=Hnil]%map_eq_nil. assert (len (one_to (arr_count arr)) = 0) as Hl by (by rewrite Hnil). rewrite one_to_length in Hl; lia.
    + done.
    + apply List.Forall_forall. intros f Hf. split; [|unfold elements in Hf; by apply List.in_map_iff in Hf as (k & <- & _)].
      apply (List.in_map fe_subindex) in Hf. rewrite Hsubs in Hf. apply list_elem_of_In, one_to_in in Hf. lia.
    + rewrite Hsubs. apply one_to_NoDup.
    + right. split; [done|]. exists name, arr. split; [done|lia].
    + rewrite bool_decide_eq_false_2 in Hb by congruence. exists e, None. split; [done|]. split; [done|]. cbn [map fst snd]. split; [done|].
      by rewrite List.map_map.
Qed.

(** The objects together: the variables of the first pass, the records of the second. *)
Lemma objects_back sections types items :
  Forall (λ '(o, rows, fs), importable o rows fs ∧ known_type types (read_object o)) items →
  ∃ es vars recs,
    Forall2 (λ '(o, rows, fs) e, back (o_index o) rows fs e) items es ∧
    Forall2 main_entry (map read_object (map (λ x, fst (fst x)) items)) vars ∧
    second_pass parse_expr expr_text capacity_overrides sections types
      (flat_map object_subs (map read_object (map (λ x, fst (fst x)) items))) = Ok recs ∧
    concat (map option_list vars) ++ recs ≡ₚ es.
Proof using Type.
  induction 1 as [|[[o rows] fs] items [Ho Ht] Hitems IH]; [by exists [], [], []|].
  destruct IH as (es & vars & recs & Hb & Hm & Hs & Hp).
  destruct (importable_back sections types o rows fs Ho Ht) as (e & var & Hback & Hvar & He).
  unfold object_subs in *. cbn [map flat_map fst].
  destruct (o_subs (read_object o)) as [|sub subs] eqn:Hsubs.
  - subst var. exists (e :: es), (Some e :: vars), recs. split; [by apply Forall2_cons_2|]. split; [by apply Forall2_cons_2|].
    split; [done|]. cbn [map option_list concat app]. by apply Permutation_cons.
  - destruct He as [-> He]. exists (e :: es), (None :: vars), (e :: recs). split; [by apply Forall2_cons_2|]. split; [by apply Forall2_cons_2|].
    split; [|cbn [map option_list concat app]; by rewrite <- Permutation_middle; apply Permutation_cons].
    cbn [app second_pass]. change (o_index (read_object o)) with (o_index o). by rewrite He, Hs.
Qed.

(** ** The objects of a definition *)

Section definition.
Context (view : Expr → Syn) (od : OdDefinition Expr) (Hod : writable view od).
(** The importer accepts every default, and [syn] every decimal number. *)
Hypothesis (Hreadable : Forall (λ f, readable (fe_type_name f) (fe_default f)) (all_flats view od)).
Hypothesis (Hdecimal : ∀ n, 0 ≤ n → is_Some (parse_expr (decimal n))).

Abbreviation Item := (object * list Row * list FlatEdsEntry)%type.

Definition mapped_flats (e : OdEntry Expr) : list FlatEdsEntry :=
  match oe_kind e with EntryArray _ => [] | _ => entry_flats view e end.

Definition entry_item (e : OdEntry Expr) : Item := (entry_object view e, rows_of e, mapped_flats e).

Lemma flats_readable e : In e (od_entries od) → Forall flat_readable (entry_flats view e).
Proof using Hod Hreadable.
  intros He. apply List.Forall_forall. intros f Hf.
  assert (readable (fe_type_name f) (fe_default f)) as Hr.
  { apply (proj1 (List.Forall_forall _ _) Hreadable). apply List.in_flat_map. by exists e. }
  pose proof (entry_writable_in _ _ Hod e He) as (_ & _ & _ & Hn & Hk). unfold entry_flats in Hf. destruct (oe_kind e) as [var|subs|arr].
  - destruct Hf as [<-|[]]. destruct Hk as (? & _). split; [done|]. split; [by apply trim_printable|done].
  - apply List.in_map_iff in Hf as (s & <- & Hs). destruct Hk as [_ Hk]. apply (proj1 (List.Forall_forall _ _) Hk) in Hs as (_ & ? & ? & _).
    split; [done|]. split; [by apply trim_printable|done].
  - apply List.in_map_iff in Hf as (k & <- & _). destruct Hk as [_ ?]. split; [done|]. split; [|done]. cbn [flat_element fe_name].
    apply trim_printable, printable_app; [done|]. apply printable_app; [printable_text|apply printable_decimal_text].
Qed.

Lemma entry_importable e :
  In e (od_entries od) → let '(o, rows, fs) := entry_item e in importable o rows fs.
Proof using Hod Hreadable.
  intros He. pose proof (flats_readable e He) as Hr. pose proof (entry_writable_in _ _ Hod e He) as (_ & _ & _ & _ & Hk).
  pose proof (valid_entries _ _ Hod) as (_ & Hd & _). apply (proj1 (List.Forall_forall _ _) Hd) in He as Hde. clear Hd.
  unfold entry_item, mapped_flats, entry_object, rows_of, entry_flats in *. destruct (oe_kind e) as [var|subs|arr] eqn:Hkind.
  - apply List.Forall_cons_iff in Hr as [Hr _]. exact (importable_var _ Hr eq_refl).
  - set (fs := map (λ s, var_flat view (oe_index e) (sub_subindex s) (sub_name s) (sub_var s)) subs) in *.
    destruct Hk as [Hne Hk]. destruct (Hde subs Hkind) as [Hn H0].
    assert (map fe_subindex fs = map sub_subindex subs) as Hsubs by (unfold fs; by rewrite List.map_map).
    assert (map (λ s, (sub_subindex s, fe_props (var_flat view (oe_index e) (sub_subindex s) (sub_name s) (sub_var s)))) subs
            = map (λ f, (fe_subindex f, fe_props f)) fs) as -> by (unfold fs; by rewrite List.map_map).
    assert (map (λ s, var_row (oe_index e) (sub_subindex s) (sub_var s)) subs = map flat_row fs) as -> by (unfold fs; by rewrite List.map_map).
    rewrite <- Hsubs in *. apply importable_record; [unfold fs; by destruct subs|done| |done].
    unfold fs. apply Forall_map, List.Forall_forall. intros s Hs. cbn [fe_subindex fe_index var_flat]. split; [|done].
    apply (proj1 (List.Forall_forall _ _) H0) in Hs as Hs0. apply (proj1 (List.Forall_forall _ _) Hk) in Hs as (Hu & _). unfold is_uint in Hu. lia.
  - destruct Hk as [Hc _]. fold (elements (oe_index e) (oe_name e) arr) in Hr.
    pose proof (element_subs (oe_index e) (oe_name e) arr ltac:(lia)) as Hsubs.
    pose proof (importable_array (oe_index e) (oe_name e) (arr_count arr + 1) (count_props (arr_count arr)) arr Hr Hc) as Himp.
    rewrite Hsubs, one_to_max in Himp by lia.
    assert (map (λ sub, (sub, fe_props (flat_element (oe_index e) (oe_name e) arr sub))) (one_to (arr_count arr))
            = map (λ f, (fe_subindex f, fe_props f)) (elements (oe_index e) (oe_name e) arr)) as ->.
    { unfold elements. rewrite List.map_map. apply List.map_ext_in. intros k Hk. by rewrite element_index by (by apply list_elem_of_In, one_to_in in Hk; lia). }
    assert (map (λ k, mkRow (oe_index e) k (element_type arr) (arr_access arr) (arr_pdo_mappable arr) None) (one_to (arr_count arr))
            = map flat_row (elements (oe_index e) (oe_name e) arr)) as ->; [|exact Himp].
    unfold elements. rewrite List.map_map. apply List.map_ext_in. intros k Hk. unfold flat_row.
    by rewrite element_index by (apply list_elem_of_In, one_to_in in Hk; lia).
Qed.

(** *** Additional SDO servers *)

Definition server_flats (s : SdoServerDef) : list FlatEdsEntry :=
  let i := 0x1200 + (sd_number s - 1) in
  [mkFlatEds i 1 (str "COB-ID Client to Server (Receive SDO)") (str "u32") (cob_id_spec_eds (sd_cob_rx s)) AccRo false;
   mkFlatEds i 2 (str "COB-ID Server to Client (Transmit SDO)") (str "u32") (cob_id_spec_eds (sd_cob_tx s)) AccRo false].

Definition server_item (s : SdoServerDef) : Item := (server_object s, server_rows s, server_flats s).

Lemma cob_readable c : cob_writable c → readable (str "u32") (cob_id_spec_eds c).
Proof using Hdecimal.
  intros Hc _. destruct c as [r|base]; cbn [cob_writable cob_id_spec_eds] in *.
  - destruct (Hdecimal r) as [e He]; [unfold is_uint in Hc; lia|]. exists (decimal r), e. split; [|done].
    unfold normalize_default. rewrite hex_is_padded, trim_printable by (try apply printable_0x, printable_hex, hex_padded_value; unfold is_uint in Hc; lia).
    change (len (str "0x" ++ hex_padded 0 r) =? 0) with false. change (type_to_eds_code (str "u32")) with 7.
    rewrite <- hex_is_padded, hex_no_nodeid by (unfold is_uint in Hc; lia).
    rewrite (hex_is_padded r) by (unfold is_uint in Hc; lia).
    cbn [orb Z.eqb Pos.eqb int_type]. unfold default_integer, strip_hex. rewrite strip_prefix_app, hex_from_str by (unfold is_uint in *; lia).
    cbn [mbind option_bind]. change (32 <? 64) with true. cbn [andb]. rewrite Z.shiftr_div_pow2, Z.div_small by (unfold is_uint in Hc; lia).
    cbn [negb Z.eqb mbind option_bind]. change (Z.shiftl 1 32 - 1) with (2 ^ 32 - 1). unfold in_range. unfold is_uint in Hc.
    rewrite !(proj2 (Z.leb_le _ _)) by lia. cbn [andb fmap option_fmap option_map]. unfold signed_decimal. by rewrite (proj2 (Z.ltb_ge _ _)) by lia.
  - destruct (Hdecimal 0) as [e He]; [lia|]. exists (str "0"), e. split; [|done].
    unfold normalize_default. rewrite trim_printable.
    2: { apply printable_app; [printable_text|]. apply printable_hex, hex_loop_chars, List.Forall_nil. }
    rewrite orb_true_intro; [done|]. right. by apply bool_decide_eq_true.
Qed.

Lemma server_importable s : In s (od_sdo_servers od) → importable (server_object s) (server_rows s) (server_flats s).
Proof using Hod Hdecimal.
  intros (Hnum & Hrx & Htx)%(server_writable_in _ _ Hod).
  apply (importable_record (0x1200 + (sd_number s - 1)) (str "SDO Server Parameter") 3 _ (server_flats s)); [done|..].
  - repeat (apply List.Forall_cons; [split; [by vm_compute; repeat constructor|split; [by vm_compute|by apply cob_readable]]|]). apply List.Forall_nil.
  - repeat (apply List.Forall_cons; [split; [simpl; lia|done]|]). apply List.Forall_nil.
  - by apply (bool_decide_unpack _).
Qed.

(** *** Addresses *)

Lemma comm_addressable p : pdo_writable od p → addressable (comm_object p).
Proof using Type.
  intros Hp. pose proof (pw_number _ _ Hp). split; [|split]; unfold comm_object; cbn [o_index o_subs];
    [unfold comm_index, pdo_base, is_uint; destruct (pd_direction p); simpl; lia..|].
  destruct (pd_direction p); cbn [bool_decide app]; repeat (apply List.Forall_cons; [done|]); apply List.Forall_nil.
Qed.

Lemma slots_bound p : In p (od_pdos od) → 0 ≤ exported_mapping_slots (pd_mapping p) (resolved od p) ≤ 64.
Proof using Hod.
  intros Hp. pose proof (resolved_bound _ _ Hod p Hp). unfold exported_mapping_slots, PDO_MAX_MAPPINGS, wrap. destruct (pd_mapping p); [|lia].
  change (2 ^ 8) with 256. rewrite Z.mod_small; lia.
Qed.

Lemma map_addressable p : In p (od_pdos od) → addressable (map_object p (resolved od p)).
Proof using Hod.
  intros Hin. pose proof (pw_number _ _ (pdo_writable_in _ _ Hod p Hin)). pose proof (slots_bound p Hin).
  split; [|split]; unfold map_object; cbn [o_index o_subs];
    [unfold map_index, pdo_base, is_uint; destruct (pd_direction p); simpl; lia..|].
  apply List.Forall_cons; [done|]. apply Forall_map, List.Forall_forall. intros k Hk%list_elem_of_In%one_to_in. cbn [fst]. unfold is_uint. lia.
Qed.

Lemma entry_addressable e : In e (od_entries od) → addressable (entry_object view e).
Proof using Hod.
  intros He. pose proof (entry_writable_in _ _ Hod e He) as (Hlo & Hi & _ & _ & Hk). unfold entry_object.
  destruct (oe_kind e) as [var|subs|arr]; (split; [done|split; [done|]]); cbn [o_subs]; [apply List.Forall_nil|..];
    (apply List.Forall_cons; [done|]); apply Forall_map, List.Forall_forall.
  - intros s Hs. destruct Hk as [_ Hk]. by apply (proj1 (List.Forall_forall _ _) Hk) in Hs as [? _].
  - intros k Hk'%list_elem_of_In%one_to_in. cbn [fst]. unfold is_uint. lia.
Qed.

Lemma objects_addressable : Forall addressable (eds_objects view od).
Proof using Hod.
  apply List.Forall_forall. intros o. unfold eds_objects. rewrite !List.in_app_iff, List.in_flat_map, !List.in_map_iff.
  intros [(e & <- & He)|[(p & Hp & Ho)|[(s & <- & Hs)|Ho]]].
  - by apply entry_addressable.
  - destruct Ho as [<-|[<-|[]]]; [by apply comm_addressable, (pdo_writable_in _ _ Hod)|by apply map_addressable].
  - apply (server_writable_in _ _ Hod) in Hs as (Hn & _). split; [|split]; unfold server_object; cbn [o_index o_subs]; [lia|unfold is_uint; lia|].
    repeat (apply List.Forall_cons; [done|]). apply List.Forall_nil.
  - destruct Ho as [<-|[<-|[]]]; (split; [done|split; [done|apply List.Forall_nil]]).
Qed.

Lemma objects_subs_NoDup : Forall (λ o, NoDup (map fst (o_subs o))) (eds_objects view od).
Proof using Hod.
  apply List.Forall_forall. intros o. unfold eds_objects. rewrite !List.in_app_iff, List.in_flat_map, !List.in_map_iff.
  intros [(e & <- & He)|[(p & Hp & Ho)|[(s & <- & Hs)|Ho]]].
  - pose proof (valid_entries _ _ Hod) as (_ & Hd & _). apply (proj1 (List.Forall_forall _ _) Hd) in He. unfold entry_object.
    destruct (oe_kind e) as [var|subs|arr] eqn:Hk; cbn [o_subs map fst]; [apply base.NoDup_nil_2|..]; rewrite List.map_map; cbn [fst];
      apply list.NoDup_cons.
    + destruct (He subs Hk) as [Hn H0]. split; [|done]. intros (s & Hs0 & Hs)%list_elem_of_In%List.in_map_iff.
      by apply (proj1 (List.Forall_forall _ _) H0) in Hs.
    + rewrite List.map_id. split; [|apply one_to_NoDup]. intros H%one_to_in. lia.
  - destruct Ho as [<-|[<-|[]]].
    + unfold comm_object. cbn [o_subs]. destruct (pd_direction p); by apply (bool_decide_unpack _).
    + unfold map_object. cbn [o_subs map fst]. rewrite List.map_map. cbn [fst]. rewrite List.map_id. apply list.NoDup_cons.
      split; [|apply one_to_NoDup]. intros H%one_to_in. lia.
  - by apply (bool_decide_unpack _).
  - destruct Ho as [<-|[<-|[]]]; apply base.NoDup_nil_2.
Qed.

(** *** Indices *)

Definition pdo_pair (p : PdoDef) : list Z := [comm_index p; map_index p].

Lemma pdo_pairs_NoDup (l : list PdoDef) :
  Forall (λ p, 1 ≤ pd_number p ≤ 512) l → NoDup (map (λ p, (pd_direction p, pd_number p)) l) → NoDup (flat_map pdo_pair l).
Proof using Type.
  induction 1 as [|p l Hp Hl IH]; intros Hn; [apply base.NoDup_nil_2|]. cbn [map] in Hn. apply list.NoDup_cons in Hn as [Hnew Hn].
  assert (∀ i, i ∈ flat_map pdo_pair l → i ≠ comm_index p ∧ i ≠ map_index p) as Hne.
  { intros i (q & Hq & Hi)%list_elem_of_In%List.in_flat_map. pose proof (proj1 (List.Forall_forall _ _) Hl q Hq) as Hqn. cbv beta in Hqn.
    assert ((pd_direction q, pd_number q) ≠ (pd_direction p, pd_number p)) as Hd.
    { intros He. apply Hnew. rewrite <- He. apply list_elem_of_In. by apply (List.in_map (λ p, (pd_direction p, pd_number p))). }
    unfold pdo_pair, comm_index, map_index in *. destruct (pd_direction q) eqn:Hdq, (pd_direction p) eqn:Hdp; cbn [pdo_base fst snd] in *;
      destruct Hi as [<-|[<-|[]]]; split; try lia; intros ?; apply Hd; f_equal; lia. }
  cbn [flat_map]. apply list.NoDup_app. split; [|split; [|by apply IH]].
  - unfold pdo_pair, comm_index, map_index. apply list.NoDup_cons. split; [|apply NoDup_singleton].
    intros Hi%list_elem_of_singleton. destruct (pd_direction p); simpl in Hi; lia.
  - intros i Hi Hi'%Hne. unfold pdo_pair in Hi. rewrite !elem_of_cons in Hi.
    destruct Hi as [->|[->|[]%not_elem_of_nil]]; tauto.
Qed.

Lemma objects_indices :
  map o_index (eds_objects view od)
  = map oe_index (od_entries od) ++ flat_map pdo_pair (od_pdos od) ++ map (λ s, 0x1200 + (sd_number s - 1)) (od_sdo_servers od) ++ [0x1021; 0x1022].
Proof using Type.
  unfold eds_objects. rewrite !map_app, !List.map_map. f_equal.
  { apply List.map_ext. intros e. unfold entry_object. by destruct (oe_kind e). }
  f_equal. induction (od_pdos od) as [|p l IH]; [done|]. cbn [flat_map app map]. rewrite IH. reflexivity.
Qed.

Lemma objects_indices_NoDup : NoDup (map o_index (eds_objects view od)).
Proof using Hod.
  rewrite objects_indices. pose proof (valid_entries _ _ Hod) as (Hn & _ & Hgen).
  assert (Forall (λ p, 1 ≤ pd_number p ≤ 512) (od_pdos od)) as Hnum.
  { apply List.Forall_forall. intros p Hp%(pdo_writable_in _ _ Hod). apply (pw_number _ _ Hp). }
  assert (∀ i, In i (map (λ s, 0x1200 + (sd_number s - 1)) (od_sdo_servers od)) → 0x1201 ≤ i ≤ 0x127F) as Hsrv.
  { intros i (s & <- & (Hs & _)%(server_writable_in _ _ Hod))%List.in_map_iff. lia. }
  assert (∀ i, In i (flat_map pdo_pair (od_pdos od)) → 0x1400 ≤ i ≤ 0x1BFF) as Hpdo.
  { intros i (p & Hp & Hi)%List.in_flat_map. apply (proj1 (List.Forall_forall _ _) Hnum) in Hp.
    unfold pdo_pair, comm_index, map_index in Hi. destruct (pd_direction p); simpl in Hi; destruct Hi as [<-|[<-|[]]]; lia. }
  apply list.NoDup_app. split; [done|]. split.
  - intros i Hi%list_elem_of_In Hg. apply (Hgen i); [|done]. unfold generated_indices. apply list_elem_of_In in Hg.
    rewrite !List.in_app_iff in *. destruct Hg as [Hg|[Hg|Hg]]; [by right; left| |by left]. right; right.
    apply List.in_map_iff in Hg as (s & <- & Hs). apply List.in_map_iff. exists s. split; [lia|done].
  - apply list.NoDup_app. split; [by apply pdo_pairs_NoDup; [|apply Hod]|]. split.
    + intros i Hi%list_elem_of_In%Hpdo [Hs|Hs]%elem_of_app; [apply list_elem_of_In, Hsrv in Hs; lia|].
      rewrite !elem_of_cons in Hs. destruct Hs as [->|[->|[]%not_elem_of_nil]]; lia.
    + apply list.NoDup_app. split; [|split; [|by apply (bool_decide_unpack _)]].
      * rewrite <- (List.map_map sd_number (λ n, 0x1200 + (n - 1))). apply NoDup_fmap_2; [intros x y; lia|]. apply Hod.
      * intros i Hi%list_elem_of_In%Hsrv Hs. rewrite !elem_of_cons in Hs. destruct Hs as [->|[->|[]%not_elem_of_nil]]; lia.
Qed.

(** *** The sections of the export, read back *)

Definition read_sections : list section := map read_section (eds_sections view od).

Lemma read_sections_split :
  read_sections = map read_section (info_sections view od) ++ flat_map object_sections (map read_object (eds_objects view od)).
Proof using Type. unfold read_sections, eds_sections. by rewrite map_app, read_objects_sections. Qed.

Lemma info_no_address : Forall (λ s, parse_section_index (fst s) = None) (map read_section (info_sections view od)).
Proof using Type.
  unfold info_sections. rewrite map_app. apply Forall_app_2.
  - repeat (apply List.Forall_cons; [reflexivity|]). apply List.Forall_nil.
  - destruct (List.filter _ _); [apply List.Forall_nil|]. apply List.Forall_cons; [reflexivity|apply List.Forall_nil].
Qed.

Lemma read_addressable o : addressable o → addressable (read_object o).
Proof using Type.
  intros (? & ? & Hs). split; [done|]. split; [done|]. cbn [read_object o_subs]. apply Forall_map. done.
Qed.

Lemma read_all_addressable : Forall addressable (map read_object (eds_objects view od)).
Proof using Hod. apply Forall_map. eapply List.Forall_impl; [|apply objects_addressable]. intros o. apply read_addressable. Qed.

Lemma addresses_none ss : Forall (λ s, parse_section_index (fst s) = None) ss → addresses ss = [].
Proof using Type. induction 1 as [|s ss Hs Hss IH]; [done|]. unfold addresses in *. cbn [omap list_omap]. by rewrite Hs. Qed.

Lemma read_sections_NoDup : NoDup (addresses read_sections).
Proof using Hod.
  rewrite read_sections_split, addresses_app, addresses_none by apply info_no_address. cbn [app].
  apply objects_NoDup; [apply read_all_addressable|rewrite List.map_map; apply objects_indices_NoDup|].
  apply Forall_map. eapply List.Forall_impl; [|apply objects_subs_NoDup]. intros o Ho. cbn [read_object o_subs]. by rewrite List.map_map.
Qed.

(** A data type, if there is one, is a number. *)
Definition typed_props (ps : props) : Prop :=
  match get_prop ps (str "DataType") with Some raw => is_Some (n ← parse_int raw; try_from 16 n) | None => True end.

Lemma check_types_ok ss :
  Forall (λ s, parse_section_index (fst s) = None ∨ typed_props (snd s)) ss → check_data_types ss = Ok tt.
Proof using Type.
  induction 1 as [|[name ps] ss Hs Hss IH]; [done|]. cbn [check_data_types fst snd] in *.
  destruct (parse_section_index name) as [a|]; [|done]. destruct Hs as [Hs|Hs]; [done|]. unfold typed_props in Hs.
  destruct (get_prop ps (str "DataType")) as [raw|]; [|done]. destruct Hs as [n Hn]. by rewrite Hn, andb_false_r.
Qed.

Lemma sub_typed name code a d more : is_u16 code → typed_props (read_props (sub_props name code a d ++ more)).
Proof using Type.
  intros Hc. unfold typed_props.
  change (get_prop (read_props (sub_props name code a d ++ more)) (str "DataType")) with (Some (trim (str "0x" ++ hex_padded 4 code))).
  cbv iota. rewrite data_type_back by done. by eexists.
Qed.

Lemma sub_typed_nil name code a d : is_u16 code → typed_props (read_props (sub_props name code a d)).
Proof using Type. intros. rewrite <- (app_nil_r (sub_props _ _ _ _)). by apply sub_typed. Qed.

Lemma fe_typed fe : fe_type_name fe ∈ rust_types → typed_props (read_props (fe_props fe)).
Proof using Type.
  intros Hty. destruct (types_back _ Hty) as (size & _ & Hc). unfold typed_props.
  change (get_prop (read_props (fe_props fe)) (str "DataType")) with (Some (trim (str "0x" ++ hex_padded 4 (type_to_eds_code (fe_type_name fe))))).
  cbv iota. rewrite data_type_back by done. by eexists.
Qed.

Definition typed_object (o : object) : Prop := typed_props (read_props (o_main o)) ∧ Forall (λ s, typed_props (read_props (snd s))) (o_subs o).

Lemma importable_typed o rows fs : importable o rows fs → (∃ n a d, match o_subs o with [] => True | (_, ps) :: _ => ps = sub_props n 0x0005 a d end) → typed_object o.
Proof using Type.
  intros [f (Hty & _)|i name n ps0 l _ Hr _ _|i name n ps0 arr Hr _] (n' & a & d & Hps); cbn [o_subs] in Hps.
  - split; [by apply fe_typed|apply List.Forall_nil].
  - split; [done|]. subst ps0. apply List.Forall_cons; [by apply sub_typed_nil|]. apply Forall_map. eapply List.Forall_impl; [|exact Hr].
    intros f (Hty & _). by apply fe_typed.
  - split; [done|]. subst ps0. apply List.Forall_cons; [by apply sub_typed_nil|]. apply Forall_map. eapply List.Forall_impl; [|exact Hr].
    intros f (Hty & _). by apply fe_typed.
Qed.

Lemma objects_typed : Forall typed_object (eds_objects view od).
Proof using Hod Hreadable Hdecimal.
  apply List.Forall_forall. intros o. unfold eds_objects. rewrite !List.in_app_iff, List.in_flat_map, !List.in_map_iff.
  intros [(e & <- & He)|[(p & Hp & Ho)|[(s & <- & Hs)|Ho]]].
  - pose proof (entry_importable e He) as Himp. unfold entry_item in Himp. eapply importable_typed; [exact Himp|].
    unfold entry_object. destruct (oe_kind e); cbn [o_subs]; [by exists [], [], []|unfold count_props; by eexists _, _, _..].
  - destruct Ho as [<-|[<-|[]]].
    + unfold comm_object. split; [done|]. cbn [o_subs].
      destruct (pd_direction p); cbn [bool_decide app]; repeat (apply List.Forall_cons; [by apply sub_typed_nil|]); apply List.Forall_nil.
    + unfold map_object. split; [done|]. cbn [o_subs]. apply List.Forall_cons; [by apply sub_typed|]. apply Forall_map, List.Forall_forall.
      intros k _. by apply sub_typed_nil.
  - eapply importable_typed; [by apply server_importable|]. by eexists _, _, _.
  - destruct Ho as [<-|[<-|[]]]; (split; [vm_compute; by eexists|apply List.Forall_nil]).
Qed.

Lemma read_sections_typed : check_data_types read_sections = Ok tt.
Proof using Hod Hreadable Hdecimal.
  apply check_types_ok. rewrite read_sections_split. apply Forall_app_2.
  - eapply List.Forall_impl; [|apply info_no_address]. by left.
  - induction objects_typed as [|o l [Hm Hs] Hl IH]; [apply List.Forall_nil|]. cbn [map flat_map]. apply Forall_app_2; [|done].
    apply List.Forall_cons; [by right|]. apply Forall_map. cbn [read_object o_subs]. apply Forall_map. eapply List.Forall_impl; [|exact Hs]. by right.
Qed.

(** *** The passes over the export *)

Definition items : list Item := map entry_item (od_entries od) ++ map server_item (od_sdo_servers od).

Definition item_objects : list object := map (entry_object view) (od_entries od) ++ map server_object (od_sdo_servers od).

Lemma items_objects : map (λ x : Item, fst (fst x)) items = item_objects.
Proof using Type. unfold items, item_objects. rewrite map_app, !List.map_map. done. Qed.

Lemma item_objects_sub : item_objects `sublist_of` eds_objects view od.
Proof using Type.
  unfold item_objects, eds_objects. apply sublist_app; [done|]. apply sublist_inserts_l, sublist_inserts_r. done.
Qed.

Lemma item_object_in o : In o item_objects → In o (eds_objects view od).
Proof using Type. rewrite <- !list_elem_of_In. intros Ho. eapply elem_of_sublist; [exact Ho|apply item_objects_sub]. Qed.

Lemma item_not_skipped o : In o item_objects → skipped (o_index o) = false.
Proof using Hod.
  intros Hin. unfold item_objects in Hin. apply List.in_app_iff in Hin as [(e & <- & He)%List.in_map_iff|(s & <- & Hs)%List.in_map_iff].
  - pose proof (valid_entries _ _ Hod) as (_ & _ & Hgen). pose proof (entry_writable_in _ _ Hod e He) as (_ & _ & Hp & _).
    assert (o_index (entry_object view e) = oe_index e) as -> by (unfold entry_object; by destruct (oe_kind e)).
    unfold skipped. rewrite Hp. cbn [orb]. apply (List.in_map oe_index) in He.
    apply orb_false_iff. split; apply Z.eqb_neq; intros Hi; rewrite Hi in He; revert He; apply Hgen; unfold generated_indices; simpl; tauto.
  - apply (server_writable_in _ _ Hod) in Hs as (Hn & _). cbn [server_object o_index]. unfold skipped, is_pdo_index, Dcf.is_pdo_index, in_range. lia.
Qed.

Lemma skipped_sections o :
  addressable o → skipped (o_index o) = true →
  Forall (λ s, match parse_section_index (fst s) with Some (i, _) => skipped i = true | None => True end) (object_sections o).
Proof using Type.
  intros (Hlo & Hi & Hs) Hk. apply List.Forall_cons; [cbn [fst]; by rewrite parse_index_key|]. apply Forall_map.
  eapply List.Forall_impl; [|exact Hs]. intros s Hsub. cbn [fst]. by rewrite parse_sub_key.
Qed.

Lemma first_pass_skipped p os :
  Forall (λ o, addressable o ∧ skipped (o_index o) = true) os →
  first_pass_ p (flat_map object_sections os) = Ok p.
Proof using Type.
  intros Hos. apply first_pass_skips. induction Hos as [|o os [Ha Hk] Hos IH]; [apply List.Forall_nil|]. cbn [flat_map].
  apply Forall_app_2; [by apply skipped_sections|done].
Qed.

Lemma pdo_objects_skipped :
  Forall (λ o, addressable o ∧ skipped (o_index o) = true)
    (map read_object (flat_map (λ p, [comm_object p; map_object p (resolved od p)]) (od_pdos od))).
Proof using Hod.
  apply Forall_map, List.Forall_forall. intros o (p & Hp & Ho)%List.in_flat_map.
  pose proof (pw_number _ _ (pdo_writable_in _ _ Hod p Hp)) as Hn. split.
  - apply read_addressable. destruct Ho as [<-|[<-|[]]]; [by apply comm_addressable, (pdo_writable_in _ _ Hod)|by apply map_addressable].
  - cbn [read_object o_index]. unfold skipped, is_pdo_index, Dcf.is_pdo_index, in_range.
    destruct Ho as [<-|[<-|[]]]; cbn [comm_object map_object o_index]; unfold comm_index, map_index; destruct (pd_direction p); cbn [pdo_base fst snd]; lia.
Qed.

Lemma self_skipped : Forall (λ o, addressable o ∧ skipped (o_index o) = true) (map read_object [store_eds; store_format]).
Proof using Type. repeat apply List.Forall_cons; try apply List.Forall_nil; (split; [split; [done|split; [done|apply List.Forall_nil]]|done]). Qed.

(** Only the objects of entries and servers count. *)
Lemma first_pass_export p :
  first_pass_ p read_sections = first_pass_ p (flat_map object_sections (map read_object item_objects)).
Proof using Hod.
  rewrite read_sections_split, first_pass_app, first_pass_skips.
  2: { eapply List.Forall_impl; [|apply info_no_address]. intros s Hs. cbv beta in Hs. by rewrite Hs. }
  unfold eds_objects, item_objects. rewrite !map_app, !List.flat_map_app, !first_pass_app.
  destruct (first_pass_ p _) as [q|]; [|done].
  rewrite first_pass_app, (first_pass_skipped q _ pdo_objects_skipped), first_pass_app.
  destruct (first_pass_ q _) as [r|]; [|done]. apply first_pass_skipped, self_skipped.
Qed.

Definition item_types : list (Z * Z) :=
  map (λ o, (o_index o, object_type (o_main o))) (map read_object item_objects).

Lemma item_indices_NoDup : NoDup (map o_index item_objects).
Proof using Hod. eapply sublist_NoDup; [apply objects_indices_NoDup|apply sublist_map, item_objects_sub]. Qed.

Lemma item_known o : In o item_objects → known_type item_types (read_object o).
Proof using Hod.
  intros Ho. unfold known_type, item_types, map_get. rewrite List.map_map. cbn [read_object o_index o_main].
  assert (List.find (λ e, fst e =? o_index o) (map (λ x, (o_index x, object_type (read_props (o_main x)))) item_objects)
          = Some (o_index o, object_type (read_props (o_main o)))) as ->; [|done].
  pose proof item_indices_NoDup as Hn. induction item_objects as [|x l IH]; [done|]. cbn [map List.find fst] in *. apply list.NoDup_cons in Hn as [Hx Hn].
  destruct Ho as [->|Ho]; [by rewrite Z.eqb_refl|]. destruct (Z.eqb_spec (o_index x) (o_index o)) as [He|]; [|by apply IH].
  exfalso. apply Hx. rewrite He. apply list_elem_of_In. by apply List.in_map.
Qed.

Lemma items_importable : Forall (λ '(o, rows, fs), importable o rows fs ∧ known_type item_types (read_object o)) items.
Proof using Hod Hreadable Hdecimal.
  apply List.Forall_forall. intros it Hin.
  assert (In (fst (fst it)) item_objects) as Ho by (rewrite <- items_objects; by apply (List.in_map (λ x : Item, fst (fst x)))).
  apply item_known in Ho. unfold items in Hin. apply List.in_app_iff in Hin as [(e & <- & He)%List.in_map_iff|(s & <- & Hs)%List.in_map_iff].
  - split; [by apply entry_importable|done].
  - split; [by apply server_importable|done].
Qed.

(** Everything but the PDOs. *)
Lemma import_objects :
  ∃ es, Forall2 (λ '(o, rows, fs) e, back (o_index o) rows fs e) items es ∧
    ∀ iterate, (∀ m, iterate m ≡ₚ m) → ∃ es', es' ≡ₚ es ∧
      parse_sections_to_od parse_expr expr_text capacity_overrides iterate read_sections = extract_pdos read_sections es'.
Proof using Hod Hreadable Hdecimal.
  destruct (objects_back read_sections item_types items items_importable) as (es & vars & recs & Hb & Hm & Hs & Hp).
  exists es. split; [done|]. intros iterate Hi. rewrite items_objects in Hm, Hs. unfold parse_sections_to_od.
  rewrite validate_unique_ok; [|apply read_sections_NoDup|by intros a _ ?%not_elem_of_nil]. rewrite read_sections_typed, first_pass_export.
  rewrite (first_pass_objects _ _ vars); [|..|done| |]; cbn [fp_entries record_subs obj_types app].
  - destruct (second_pass_perm parse_expr expr_text capacity_overrides read_sections item_types _ _ recs (symmetry (Hi _)) Hs) as (recs' & Hrecs & Hrp).
    fold item_types. rewrite Hrecs. eexists. split; [|reflexivity].
    etrans; [apply sort_by_key_perm|]. etrans; [apply Permutation_app_head; symmetry; exact Hrp|exact Hp].
  - apply Forall_map, List.Forall_forall. intros o Ho. apply read_addressable, (proj1 (List.Forall_forall _ _) objects_addressable), item_object_in, Ho.
  - apply Forall_map, List.Forall_forall. intros o Ho. by apply (item_not_skipped o).
  - rewrite List.map_map. apply item_indices_NoDup.
  - apply List.Forall_forall. intros o _. split; apply not_elem_of_nil.
Qed.
End definition.
End import.
