(* ===== verification/EdsPdoTrip.v ===== *)
(** * The PDOs of an exported EDS file

    The second half of the round trip: the importer finds the parameters and
    mappings of every PDO in the exported text. *)
From S2P Require Import Prelude GenTable GenNode Text Dcf Eds EdsParser EdsSpec EdsExport EdsText EdsExportSpec EdsRoundTrip.

(** ** Values *)

Lemma parse_default_back w name code a d more n dflt i s :
  printable d → d ≠ [] → parse_int d = Some n → n < 2 ^ w →
  parse_pdo_default w (Some (read_props (sub_props name code a d ++ more))) dflt i s = Ok n.
Proof.
  intros Hp Hne Hn Hw. unfold parse_pdo_default.
  change (default_value (Some (read_props (sub_props name code a d ++ more)))) with (Some (trim d)).
  rewrite !trim_printable by done. destruct (len d =? 0) eqn:Hl; [by destruct d|]. rewrite Hn.
  unfold try_from. by rewrite (proj2 (Z.ltb_lt _ _)).
Qed.

Lemma parse_hex_default w name code a m more n dflt i s :
  is_uint w n → 0 ≤ w ≤ 64 →
  parse_pdo_default w (Some (read_props (sub_props name code a (str "0x" ++ hex_padded m n) ++ more))) dflt i s = Ok n.
Proof.
  intros Hn Hw. pose proof (Z.pow_le_mono_r 2 w 64 ltac:(lia) ltac:(lia)). unfold is_uint in Hn.
  apply parse_default_back; [|done| |lia].
  - apply printable_0x, printable_hex, hex_padded_value. lia.
  - apply parse_hex. unfold is_uint. lia.
Qed.

Lemma split_plus_none n : split_once (str "+") (str "0x" ++ hex n) = None.
Proof.
  apply (split_once_none 43 []). apply Forall_app_2; [by repeat constructor|].
  eapply List.Forall_impl; [|apply hex_loop_chars, List.Forall_nil]. intros c Hc%is_hex_range. lia.
Qed.

Lemma not_nodeid s t : length s ≠ length t → eq_ignore_ascii_case s t = false.
Proof.
  intros Hl. unfold eq_ignore_ascii_case. apply bool_decide_eq_false. intros H. apply Hl.
  apply (f_equal length) in H. unfold to_lowercase in H. by rewrite !length_fmap in H.
Qed.

Lemma hex_printable n : printable (str "0x" ++ hex n).
Proof. apply printable_0x, printable_hex, hex_loop_chars, List.Forall_nil. Qed.

Lemma parse_cob_back c : cob_writable c → parse_pdo_cob_id (cob_id_spec_eds c) = Some c.
Proof.
  intros Hc. assert (∀ n, is_u32 n → (m ← parse_int (str "0x" ++ hex n); try_from 32 m) = Some n) as Hn.
  { intros n Hu. unfold is_uint in Hu. rewrite parse_hex0 by (unfold is_uint; lia). cbn [mbind option_bind]. unfold try_from. by rewrite (proj2 (Z.ltb_lt _ _)) by lia. }
  unfold parse_pdo_cob_id. destruct c as [r|base]; cbn [cob_id_spec_eds cob_writable] in *.
  - rewrite trim_printable by apply hex_printable.
    assert (eq_ignore_ascii_case (str "0x" ++ hex r) (str "$NODEID") = false) as ->.
    { unfold eq_ignore_ascii_case. by apply bool_decide_eq_false. }
    rewrite split_plus_none. specialize (Hn r Hc). destruct (parse_int _) as [m|]; [|done]. cbn [mbind option_bind] in *. by rewrite Hn.
  - assert (printable (str "$NODEID+0x" ++ hex base)) as Hp.
    { apply printable_app; [printable_text|]. apply printable_hex, hex_loop_chars, List.Forall_nil. }
    rewrite trim_printable by done.
    rewrite not_nodeid by (rewrite length_app; simpl; lia).
    change (split_once (str "+") (str "$NODEID+0x" ++ hex base)) with (Some (str "$NODEID", str "0x" ++ hex base)). cbv iota beta zeta.
    rewrite (trim_printable (str "0x" ++ hex base)) by apply hex_printable.
    change (eq_ignore_ascii_case (trim (str "$NODEID")) (str "$NODEID")) with true. cbn [mbind option_bind].
    specialize (Hn base Hc). destruct (parse_int _) as [m|]; [|done]. cbn [mbind option_bind] in *. by rewrite Hn.
Qed.

Lemma cob_text_ok c : printable (cob_id_spec_eds c) ∧ cob_id_spec_eds c ≠ [].
Proof.
  split; [|by destruct c]. destruct c as [r|base]; [apply hex_printable|]. apply printable_app; [printable_text|].
  apply printable_hex, hex_loop_chars, List.Forall_nil.
Qed.

(** ** The PDO's sections *)

Section pdos.
Context {Expr : Type} (view : Expr → Syn) (od : OdDefinition Expr) (Hod : writable view od).

Abbreviation S := (read_sections view od).

Lemma object_section o : In o (eds_objects view od) → find_section S (index_key (o_index o)) = Some (read_props (o_main o)).
Proof using Hod.
  intros Ho. pose proof (proj1 (List.Forall_forall _ _) (objects_addressable view od Hod) o Ho) as (Hlo & Hi & _).
  eapply find_key; [apply read_sections_NoDup, Hod|by apply parse_index_key|]. rewrite read_sections_split. apply List.in_app_iff. right.
  apply List.in_flat_map. exists (read_object o). split; [by apply List.in_map|by left].
Qed.

Lemma object_sub_section o k ps :
  In o (eds_objects view od) → In (k, ps) (o_subs o) → find_section S (sub_key (o_index o) k) = Some (read_props ps).
Proof using Hod.
  intros Ho Hk. pose proof (proj1 (List.Forall_forall _ _) (objects_addressable view od Hod) o Ho) as (Hlo & Hi & Hs).
  pose proof (proj1 (List.Forall_forall _ _) Hs _ Hk) as Hu. cbn [fst] in Hu.
  eapply find_key; [apply read_sections_NoDup, Hod|by apply parse_sub_key|]. rewrite read_sections_split. apply List.in_app_iff. right.
  apply List.in_flat_map. exists (read_object o). split; [by apply List.in_map|]. right. cbn [read_object o_subs o_index].
  rewrite List.map_map. cbn [fst snd]. apply List.in_map_iff. by exists (k, ps).
Qed.

Lemma pdo_objects_in p : In p (od_pdos od) → In (comm_object p) (eds_objects view od) ∧ In (map_object p (resolved od p)) (eds_objects view od).
Proof using Type.
  intros Hp. unfold eds_objects. rewrite !List.in_app_iff, !List.in_flat_map. split; right; left; exists p; (split; [done|]); simpl; tauto.
Qed.

(** No section for a PDO that is not defined. *)
Lemma no_pdo_section dir n :
  0 ≤ n < 512 → (∀ p, In p (od_pdos od) → pd_direction p = dir → pd_number p ≠ n + 1) →
  find_section S (index_key (fst (pdo_base dir) + n)) = None.
Proof using Hod.
  intros Hn Hno. set (i := fst (pdo_base dir) + n). assert (0x1400 ≤ i < 0x1A00 ∧ is_pdo_index i = true) as [Hi Hpi].
  { unfold i, is_pdo_index, Dcf.is_pdo_index, in_range. destruct dir; simpl; lia. }
  apply (find_no_key _ _ (i, None)); [apply parse_index_key; unfold is_uint; lia|].
  rewrite read_sections_split, addresses_app, addresses_none by apply info_no_address. cbn [app].
  rewrite objects_addresses by (by apply read_all_addressable). rewrite List.map_map. intros (gr & Hgr & Hin)%list_elem_of_In%List.in_flat_map.
  apply List.in_map_iff in Hgr as (o & <- & Ho). unfold group_addrs in Hin. apply List.in_map_iff in Hin as (x & [= Hio _] & _).
  apply (List.in_map o_index) in Ho. cbn [object_group fst] in Hio. change (o_index (read_object o)) with (o_index o) in Hio. rewrite Hio, objects_indices in Ho.
  rewrite !List.in_app_iff in Ho. destruct Ho as [He|[Hp|[Hs|Hself]]].
  - apply List.in_map_iff in He as (e & He & Hine). apply (entry_writable_in _ _ Hod) in Hine as (_ & _ & Hpdo & _). congruence.
  - apply List.in_flat_map in Hp as (p & Hp & Hip). specialize (Hno p Hp).
    pose proof (pw_number _ _ (pdo_writable_in _ _ Hod p Hp)). unfold pdo_pair, comm_index, map_index in Hip.
    unfold i in *. destruct (pd_direction p), dir; cbn [pdo_base fst snd] in *; destruct Hip as [Hip|[Hip|[]]]; try lia; by apply Hno; [|lia].
  - apply List.in_map_iff in Hs as (s & Hs & Hins). apply (server_writable_in _ _ Hod) in Hins as (? & _). lia.
  - destruct Hself as [?|[?|[]]]; lia.
Qed.
End pdos.

(** ** Mappings *)

(** The entries of the import: of what objects, at what indices. *)
Record imported {Expr} (view : Expr → Syn) (od : OdDefinition Expr) (es : list (OdEntry Expr)) : Prop := {
  im_indices : NoDup (map oe_index es);
  im_flat : ∀ f, In f (flatten (od_entries od)) → ∃ e g, In e es ∧ oe_index e = fl_index f ∧ In g (flatten_entry e) ∧
    fl_subindex g = fl_subindex f ∧ type_name (fl_var g) = type_name (fl_var f) ∧ pdo_mappable (fl_var g) = pdo_mappable (fl_var f);
  im_subs : Forall (λ e, NoDup (map fl_subindex (flatten_entry e))) es;
}.

Section resolve.
Context {Expr : Type}.

Lemma mark_mapped (v : VarDef Expr) : pdo_mappable v = true → mark_mappable v = v.
Proof using Type. destruct v. simpl. by intros ->. Qed.

Lemma resolve_sub_in (subs : list (SubEntry Expr)) s :
  NoDup (map sub_subindex subs) → In s subs → pdo_mappable (sub_var s) = true →
  resolve_sub subs (sub_subindex s) = Some (subs, sub_name s).
Proof using Type.
  induction subs as [|t subs IH]; [done|]. cbn [map resolve_sub]. intros [Ht Hn]%list.NoDup_cons [->|Hin] Hm.
  - rewrite Z.eqb_refl, mark_mapped by done. by destruct s.
  - destruct (Z.eqb_spec (sub_subindex t) (sub_subindex s)) as [He|_].
    { exfalso. apply Ht. rewrite He. apply list_elem_of_In. by apply List.in_map. }
    by rewrite IH.
Qed.

Lemma resolve_entry_in (e : OdEntry Expr) g :
  In g (flatten_entry e) → NoDup (map fl_subindex (flatten_entry e)) → pdo_mappable (fl_var g) = true →
  resolve_entry e (oe_index e) (fl_subindex g) = Some (e, fl_name g).
Proof using Type.
  unfold resolve_entry, flatten_entry. rewrite Z.eqb_refl. destruct e as [i n [var|subs|arr]]; cbn [oe_kind oe_index oe_name]; [..|done].
  - intros [<-|[]] _ Hm. cbn [fl_subindex fl_name fl_var Z.eqb] in *. by rewrite mark_mapped.
  - intros (s & <- & Hs)%List.in_map_iff Hn Hm. rewrite List.map_map in Hn. cbn [fl_subindex fl_name fl_var] in *.
    by rewrite resolve_sub_in.
Qed.

Lemma resolve_in_entry (es : list (OdEntry Expr)) e g :
  NoDup (map oe_index es) → In e es → In g (flatten_entry e) → NoDup (map fl_subindex (flatten_entry e)) →
  pdo_mappable (fl_var g) = true → resolve_in es (oe_index e) (fl_subindex g) = (es, Some (fl_name g)).
Proof using Type.
  intros Hn He Hg Hs Hm. induction es as [|x es IH]; [done|]. cbn [map resolve_in] in *. apply list.NoDup_cons in Hn as [Hx Hn].
  destruct He as [->|He]; [by rewrite (resolve_entry_in e g)|].
  assert (resolve_entry x (oe_index e) (fl_subindex g) = None) as ->.
  { unfold resolve_entry. destruct (Z.eqb_spec (oe_index x) (oe_index e)) as [Hi|]; [|done]. exfalso. apply Hx. rewrite Hi.
    apply list_elem_of_In. by apply List.in_map. }
  by rewrite IH.
Qed.

(** ** What one mapping is resolved to *)

(** A resolved mapping is a dummy, or an object of the definition. *)
Definition target (flat : list (FlatEntry Expr)) (m : ResolvedMapping) : Prop :=
  is_u16 (rm_index m) ∧ is_u8 (rm_subindex m) ∧ is_u8 (rm_bit_length m) ∧
  (1 ≤ rm_index m ≤ 7 ∨
   8 ≤ rm_index m ∧ ∃ f, In f flat ∧ fl_index f = rm_index m ∧ fl_subindex f = rm_subindex m ∧
     pdo_mappable (fl_var f) = true ∧ is_variable_length_type (type_name (fl_var f)) = false).

Definition mapping_def_ok (m : PdoMappingDef) : Prop :=
  (∀ r, raw_mapping m = Some r → is_u32 r ∧ 1 ≤ r / 2 ^ 16 ≤ 7) ∧ (∀ b, map_bit_length m = Some b → is_u8 b).

Lemma imported_target flat m r :
  Forall (λ f, 8 ≤ fl_index f ∧ is_u16 (fl_index f) ∧ is_u8 (fl_subindex f)) flat → mapping_def_ok m →
  resolve_mapping_def flat m = Ret r → target flat r.
Proof using Type.
  intros Hflat [Hraw Hbits]. unfold resolve_mapping_def. destruct (raw_mapping m) as [v|].
  - destruct (Hraw v eq_refl) as [Hu Hv]. intros [= <-]. unfold target, is_uint, wrap in *. cbn [rm_index rm_subindex rm_bit_length].
    rewrite !Z.shiftr_div_pow2 by lia. change (2 ^ 16) with 65536 in *. change (2 ^ 8) with 256 in *. change (2 ^ 32) with 4294967296 in *.
    assert (v / 65536 mod 65536 = v / 65536) as -> by (apply Z.mod_small; lia).
    split; [lia|]. split; [apply Z.mod_pos_bound; lia|]. split; [apply Z.mod_pos_bound; lia|]. left. lia.
  - intros (f & Hf & H)%bind_Ret_inv. destruct (List.find _ flat) as [f'|] eqn:Hfind; [|done]. injection Hf as ->.
    apply List.find_some in Hfind as [Hin _]. apply (proj1 (List.Forall_forall _ _) Hflat) in Hin as Hf. destruct Hf as (Hlo & Hi & Hs).
    apply bind_Ret_inv in H as (? & Hm%assert_Ret & H). apply bind_Ret_inv in H as (? & Hv%assert_Ret & H). cbv zeta in H.
    apply bind_Ret_inv in H as (b & Hb & [= <-]). unfold target. cbn [rm_index rm_subindex rm_bit_length].
    split; [done|]. split; [done|]. split.
    + destruct (map_bit_length m) as [b'|]; [injection Hb as <-; by apply Hbits|]. case_bool_decide; [by injection Hb as <-|].
      apply bind_Ret_inv in Hb as (size & _ & Hb). unfold checked in Hb. destruct (_ && _) eqn:Hr; [|done]. injection Hb as <-.
      unfold is_uint. lia.
    + right. split; [done|]. exists f. apply negb_true_iff in Hv. done.
Qed.
End resolve.

Section mappings.
Context {Expr : Type} (view : Expr → Syn) (od : OdDefinition Expr) (es : list (OdEntry Expr)) (Him : imported view od es).

(** What the import makes of one mapping value. *)
Definition mapping_back (m : ResolvedMapping) (d : PdoMappingDef) : Prop :=
  NoDup (map fl_name (flatten es)) → resolve_mapping_def (flatten es) d = Ret m.

Lemma flatten_in e g : In e es → In g (flatten_entry e) → In g (flatten es).
Proof using Type. intros He Hg. apply List.in_flat_map. by exists e. Qed.

Lemma flatten_entry_index (e : OdEntry Expr) g : In g (flatten_entry e) → fl_index g = oe_index e.
Proof using Type.
  unfold flatten_entry. destruct (oe_kind e); [intros [<-|[]]; done| |done]. by intros (s & <- & _)%List.in_map_iff.
Qed.

Lemma name_back e g m :
  In e es → In g (flatten_entry e) → oe_index e = rm_index m → fl_subindex g = rm_subindex m →
  pdo_mappable (fl_var g) = true → is_variable_length_type (type_name (fl_var g)) = false →
  mapping_back m (mkMappingDef (fl_name g) (Some (rm_bit_length m)) None).
Proof using Type.
  intros He Hg Hi Hs Hm Hv Hn. unfold resolve_mapping_def. cbn [raw_mapping map_bit_length field_name].
  rewrite (find_unique fl_name (flatten es) g (fl_name g) Hn (flatten_in e g He Hg) eq_refl). cbn [mbind exec_bind unwrap].
  rewrite Hm, Hv. cbn [assert_ negb mbind exec_bind mret exec_ret]. rewrite (flatten_entry_index e g Hg), Hi, Hs. by destruct m.
Qed.

Lemma raw_fields m :
  is_u16 (rm_index m) → is_u8 (rm_subindex m) → is_u8 (rm_bit_length m) →
  as_u16 (Z.shiftr (raw m) 16) = rm_index m ∧ as_u8 (Z.land (Z.shiftr (raw m) 8) 0xFF) = rm_subindex m ∧
  as_u8 (raw m) = rm_bit_length m ∧ 0 ≤ raw m < 2 ^ 32.
Proof using Type.
  destruct m as [i s b]. cbn [rm_index rm_subindex rm_bit_length]. intros Hi Hs Hb. rewrite raw_value by done.
  change 0xFF with (Z.ones 8). rewrite Z.land_ones by lia. unfold is_uint, wrap in *. rewrite !Z.shiftr_div_pow2 by lia.
  change (2 ^ 16) with 65536 in *. change (2 ^ 8) with 256 in *. change (2 ^ 32) with 4294967296.
  assert ((b + 256 * (s + 256 * i)) / 65536 = i) as -> by (symmetry; apply (Z.div_unique_pos _ _ _ (b + 256 * s)); lia).
  assert ((b + 256 * (s + 256 * i)) / 256 = s + 256 * i) as -> by (symmetry; apply (Z.div_unique_pos _ _ _ b); lia).
  assert ((s + 256 * i) mod 256 = s) as -> by (symmetry; apply (Z.mod_unique_pos _ _ i); lia).
  assert ((b + 256 * (s + 256 * i)) mod 256 = b) as -> by (symmetry; apply (Z.mod_unique_pos _ _ (s + 256 * i)); lia).
  rewrite !Z.mod_small by lia. lia.
Qed.

Lemma resolve_mapping_back m :
  target (flatten (od_entries od)) m →
  ∃ d, resolve_mapping (raw m) es = (es, Some d) ∧ raw m ≠ 0 ∧ mapping_back m d.
Proof using Him.
  intros (Hi & Hs & Hb & Ht). destruct (raw_fields m Hi Hs Hb) as (Hri & Hrs & Hrb & Hrange). unfold resolve_mapping. cbv zeta.
  assert (raw m ≠ 0) as Hne.
  { intros H0. rewrite H0 in Hri. change (as_u16 (Z.shiftr 0 16)) with 0 in Hri. lia. }
  rewrite Hri, Hrs, Hrb. destruct Ht as [Hd|(Hlo & f & Hf & Hfi & Hfs & Hm & Hv)].
  - assert (in_range 1 7 (rm_index m) = true) as -> by (unfold in_range; lia). eexists. split; [reflexivity|]. split; [done|].
    intros _. unfold resolve_mapping_def. cbn [raw_mapping]. rewrite Hri, Hrs, Hrb. by destruct m.
  - assert (in_range 1 7 (rm_index m) = false) as -> by (unfold in_range; lia).
    destruct (im_flat _ _ _ Him f Hf) as (e & g & He & Hei & Hg & Hgs & Hgt & Hgm).
    pose proof (proj1 (List.Forall_forall _ _) (im_subs _ _ _ Him) e He) as Hsub.
    rewrite <- Hfi, <- Hei, <- Hfs, <- Hgs. rewrite (resolve_in_entry es e g (im_indices _ _ _ Him) He Hg Hsub (eq_trans Hgm Hm)).
    eexists. split; [reflexivity|]. split; [done|]. apply (name_back e g m); try done; congruence.
Qed.

(** The loop over the mapping entries. *)
Lemma read_mappings_back sections map_idx rs k :
  Forall (target (flatten (od_entries od))) rs →
  (∀ j m, rs !! j = Some m →
     parse_pdo_default 32 (get_section_props sections (sub_key map_idx (k + Z.of_nat j))) 0 map_idx (k + Z.of_nat j) = Ok (raw m)) →
  ∃ ds, read_mappings (length rs) k sections map_idx es = Ok (es, ds) ∧ Forall2 mapping_back rs ds.
Proof using Him.
  revert k. induction rs as [|m rs IH]; intros k Ht Hp; [by exists []|]. apply List.Forall_cons_iff in Ht as [Ht Hts].
  destruct (resolve_mapping_back m Ht) as (d & Hd & Hne & Hback). pose proof (Hp O m eq_refl) as H0. rewrite Z.add_0_r in H0.
  destruct (IH (k + 1) Hts) as (ds & Hds & Hb).
  { intros j m' Hj. replace (k + 1 + Z.of_nat j) with (k + Z.of_nat (Datatypes.S j)) by lia. by apply Hp. }
  cbn [length read_mappings]. rewrite H0. rewrite (proj2 (Z.eqb_neq _ _) Hne). cbn [negb]. rewrite Hd, Hds.
  eexists. split; [reflexivity|]. cbn [option_list app]. by apply Forall2_cons_2.
Qed.

Lemma resolve_all_back rs ds :
  NoDup (map fl_name (flatten es)) → Forall2 mapping_back rs ds → resolve_all (flatten es) ds = Ret rs.
Proof using Type.
  intros Hn. induction 1 as [|m d rs ds Hd Hds IH]; [done|]. cbn [resolve_all]. rewrite (Hd Hn). cbn [mbind exec_bind]. by rewrite IH.
Qed.
End mappings.

(** ** Lists of optional results *)

Lemma omap_fmap {A B C} (f : B → option C) (h : A → B) (l : list A) : omap f (h <$> l) = omap (λ x, f (h x)) l.
Proof. apply list_omap_ext, Forall2_fmap_l, Forall_Forall2_diag, List.Forall_forall. done. Qed.

Lemma omap_cons {A B} (f : A → option B) x (l : list A) : omap f (x :: l) = option_list (f x) ++ omap f l.
Proof. cbn [omap list_omap]. by destruct (f x). Qed.

Lemma omap_none {A B} (f : A → option B) (l : list A) : (∀ x, x ∈ l → f x = None) → omap f l = [].
Proof.
  induction l as [|x l IH]; intros Hf; [done|]. rewrite omap_cons, (Hf x) by left. apply IH. intros y Hy. apply Hf. by right.
Qed.

(** ** One PDO *)

(** The PDO [p'] of an import with entries [es] is [p]: identical parameters,
    the COB-ID written out, and, when the fields of the import have distinct
    names, the same objects in the same bits. *)
Record same_pdo {Expr} (od : OdDefinition Expr) (es : list (OdEntry Expr)) (p p' : PdoDef) : Prop := {
  sp_direction : pd_direction p' = pd_direction p;
  sp_number : pd_number p' = pd_number p;
  sp_cob_id : pd_cob_id p' = Some (effective_cob_id p);
  sp_type : pd_transmission_type p' = pd_transmission_type p;
  sp_inhibit : pd_inhibit_time p' = pd_inhibit_time p;
  sp_timer : pd_event_timer p' = pd_event_timer p;
  sp_mapping : pd_mapping p' = pd_mapping p;
  sp_mappings : NoDup (map fl_name (flatten es)) →
    resolve_pdo_mappings p' (flatten es) = resolve_pdo_mappings p (flatten (od_entries od));
}.

Section extract.
Context {Expr : Type} (view : Expr → Syn) (od : OdDefinition Expr) (Hod : writable view od).
Context (es : list (OdEntry Expr)) (Him : imported view od es).

Abbreviation S := (read_sections view od).

Lemma effective_cob_ok p : pdo_writable od p → cob_writable (effective_cob_id p).
Proof using Type.
  intros Hp. pose proof (pw_number _ _ Hp) as Hn. pose proof (pw_cob _ _ Hp) as Hc. pose proof (pw_default _ _ Hp) as Hd.
  unfold effective_cob_id. destruct (pd_cob_id p) as [c|]; [by apply Hc|]. cbn [default from_option cob_writable].
  destruct (Z_lt_dec 4 (pd_number p)) as [Hlt|]; [by destruct (Hd Hlt)|]. unfold is_uint. destruct (pd_direction p); lia.
Qed.

Lemma comm_sub p k ps :
  In p (od_pdos od) → In (k, ps) (o_subs (comm_object p)) →
  get_section_props S (sub_key (comm_index p) k) = Some (read_props ps).
Proof using Hod. intros Hp Hk. apply (object_sub_section view od Hod (comm_object p)); [by apply pdo_objects_in|done]. Qed.

Lemma map_sub p k ps :
  In p (od_pdos od) → In (k, ps) (o_subs (map_object p (resolved od p))) →
  get_section_props S (sub_key (map_index p) k) = Some (read_props ps).
Proof using Hod. intros Hp Hk. apply (object_sub_section view od Hod (map_object p (resolved od p))); [by apply pdo_objects_in|done]. Qed.

Lemma cob_id_back p :
  In p (od_pdos od) →
  parse_pdo_cob_id_default (get_section_props S (sub_key (comm_index p) 1)) (comm_index p) = Ok (Some (effective_cob_id p)).
Proof using Hod.
  intros Hp. rewrite (comm_sub p 1 (sub_props (str "COB-ID") 0x0007 (str "rw") (cob_id_spec_eds (effective_cob_id p)))) by (try done; right; by left).
  pose proof (cob_text_ok (effective_cob_id p)) as [Ht Hne]. unfold parse_pdo_cob_id_default.
  change (default_value (Some (read_props (sub_props ?a ?b ?c ?d)))) with (Some (trim d)). rewrite !trim_printable by done.
  destruct (len (cob_id_spec_eds (effective_cob_id p)) =? 0) eqn:Hl; [by destruct (cob_id_spec_eds _)|].
  by rewrite parse_cob_back by (by apply effective_cob_ok, (pdo_writable_in _ _ Hod)).
Qed.

Lemma parameter_back p k name code w n dflt :
  In p (od_pdos od) → In (k, sub_props name code (str "rw") (hex_text n)) (o_subs (comm_object p)) → is_uint w n → 0 ≤ w ≤ 64 →
  parse_pdo_default w (get_section_props S (sub_key (comm_index p) k)) dflt (comm_index p) k = Ok n.
Proof using Hod.
  intros Hp Hk Hn Hw. rewrite (comm_sub p k _ Hp Hk). rewrite <- (app_nil_r (sub_props _ _ _ _)). unfold hex_text.
  rewrite (hex_is_padded n) by (unfold is_uint in Hn; lia). by apply parse_hex_default.
Qed.

Lemma count_back p :
  In p (od_pdos od) →
  parse_pdo_mapping_count (get_section_props S (sub_key (map_index p) 0)) (map_index p) = Ok (len (resolved od p)) ∧
  mapping_kind_from_access (ps ← get_section_props S (sub_key (map_index p) 0); get_prop ps (str "AccessType")) = pd_mapping p.
Proof using Hod.
  intros Hp. pose proof (resolved_bound _ _ Hod p Hp) as Hb. erewrite (map_sub p 0) by (try done; by left). split.
  - unfold parse_pdo_mapping_count, hex_text. rewrite (hex_is_padded (len _)) by lia.
    rewrite parse_hex_default by (unfold is_uint; change (2 ^ 8) with 256; lia). unfold PDO_MAX_MAPPINGS.
    by rewrite (proj2 (Z.ltb_ge _ _)) by lia.
  - cbn [mbind option_bind]. unfold mapping_access. by destruct (pd_mapping p).
Qed.

Lemma flat_indices : Forall (λ f, 8 ≤ fl_index f ∧ is_u16 (fl_index f) ∧ is_u8 (fl_subindex f)) (flatten (od_entries od)).
Proof using Hod.
  apply List.Forall_forall. intros f (e & He & Hf)%List.in_flat_map. pose proof (entry_writable_in _ _ Hod e He) as (Hlo & Hi & _ & _ & Hk).
  rewrite (flatten_entry_index e f Hf). split; [lia|]. split; [done|]. unfold flatten_entry in Hf. destruct (oe_kind e); [by destruct Hf as [<-|[]]| |done].
  apply List.in_map_iff in Hf as (s & <- & Hs). destruct Hk as [_ Hk]. by apply (proj1 (List.Forall_forall _ _) Hk) in Hs as [? _].
Qed.

Lemma resolved_all p : In p (od_pdos od) → resolve_all (flatten (od_entries od)) (pd_mappings p) = Ret (resolved od p) ∧
  total_bits (resolved od p) ≤ 64.
Proof using Hod.
  intros Hp. pose proof (pw_resolve _ _ (pdo_writable_in _ _ Hod p Hp)) as Hr. unfold resolve_pdo_mappings in Hr.
  apply bind_Ret_inv in Hr as (rs & Hrs & H). apply bind_Ret_inv in H as (? & Ha%assert_Ret & [= <-]). split; [done|].
  by apply Z.leb_le in Ha.
Qed.

Lemma resolve_all_targets flat ms rs :
  Forall (λ f, 8 ≤ fl_index f ∧ is_u16 (fl_index f) ∧ is_u8 (fl_subindex f)) flat → Forall mapping_def_ok ms →
  resolve_all (Expr := Expr) flat ms = Ret rs → Forall (target flat) rs.
Proof using Type.
  intros Hflat Hms. revert rs. induction Hms as [|m ms Hm Hms IH]; intros rs; cbn [resolve_all]; [intros [= <-]; apply List.Forall_nil|].
  intros (r & Hr & H)%bind_Ret_inv. apply bind_Ret_inv in H as (rs' & Hrs & [= <-]).
  apply List.Forall_cons; [by eapply imported_target|by apply IH].
Qed.

Lemma mappings_back p :
  In p (od_pdos od) →
  ∃ ds, read_mappings (Z.to_nat (len (resolved od p))) 1 S (map_index p) es = Ok (es, ds) ∧
    (NoDup (map fl_name (flatten es)) → resolve_all (flatten es) ds = Ret (resolved od p)).
Proof using Hod Him.
  intros Hp. pose proof (pdo_writable_in _ _ Hod p Hp) as Hw. destruct (resolved_all p Hp) as [Hr _].
  assert (Forall (target (flatten (od_entries od))) (resolved od p)) as Ht.
  { eapply resolve_all_targets; [apply flat_indices| |exact Hr]. apply List.Forall_forall. intros m Hm. split.
    - apply (proj1 (List.Forall_forall _ _) (pw_raw _ _ Hw) m Hm).
    - apply (proj1 (List.Forall_forall _ _) (pw_bits _ _ Hw) m Hm). }
  rewrite Nat2Z.id. destruct (read_mappings_back view od es Him S (map_index p) (resolved od p) 1 Ht) as (ds & Hds & Hb).
  - intros j m Hj. pose proof (slots_bound view od Hod p Hp) as Hsb. pose proof (resolved_bound _ _ Hod p Hp) as Hlen.
    assert (Z.of_nat j < len (resolved od p)) as Hjl by (apply lookup_lt_Some in Hj; lia).
    rewrite (map_sub p (1 + Z.of_nat j) (sub_props (str "Mapping Entry " ++ decimal (1 + Z.of_nat j)) 0x0007 (mapping_access p) (slot_value (resolved od p) (1 + Z.of_nat j)))); [|done|].
    + unfold slot_value. replace (Z.to_nat (1 + Z.of_nat j - 1)) with j by lia. rewrite Hj. rewrite <- (app_nil_r (sub_props _ _ _ _)).
      apply parse_hex_default; [|lia]. apply list_elem_of_lookup_2, list_elem_of_In in Hj.
      apply (proj1 (List.Forall_forall _ _) Ht) in Hj as (Hi & Hs & Hbits & _). unfold is_uint. by apply raw_fields.
    + unfold map_object. cbn [o_subs]. right. apply List.in_map_iff. exists (1 + Z.of_nat j). split; [done|].
      apply list_elem_of_In, one_to_in. unfold exported_mapping_slots, PDO_MAX_MAPPINGS, wrap. destruct (pd_mapping p); [|lia].
      change (2 ^ 8) with 256. rewrite Z.mod_small; lia.
  - exists ds. split; [done|]. intros Hn. by apply (resolve_all_back es).
Qed.

Lemma extract_pdo_back p :
  In p (od_pdos od) → ∃ p', extract_pdo S (pd_direction p) (pd_number p - 1) es = Ok (es, Some p') ∧ same_pdo od es p p'.
Proof using Hod Him.
  intros Hp. pose proof (pdo_writable_in _ _ Hod p Hp) as Hw. unfold extract_pdo. cbv zeta.
  change (fst (pdo_base (pd_direction p)) + (pd_number p - 1)) with (comm_index p).
  change (snd (pdo_base (pd_direction p)) + (pd_number p - 1)) with (map_index p).
  pose proof (object_section view od Hod (comm_object p) ltac:(by apply pdo_objects_in)) as Hmain. cbn [comm_object o_index] in Hmain.
  unfold get_section_props at 1. rewrite Hmain, cob_id_back by done.
  rewrite (parameter_back p 2 (str "Transmission Type") 0x0005 8 (pd_transmission_type p) 255 Hp ltac:(right; right; by left)
             (proj1 (pw_type _ _ Hw)) ltac:(lia)).
  assert (validate_pdo_transmission_type (pd_transmission_type p) (pd_direction p) (comm_index p) = Ok tt) as ->.
  { pose proof (valid_access od (wr_valid _ _ Hod)) as [Hv _]. apply (proj1 (List.Forall_forall _ _) Hv) in Hp. pose proof (pw_type _ _ Hw) as [_ Hres].
    unfold validate_pdo_transmission_type, in_range. rewrite (proj2 (andb_false_iff _ _)) by lia. rewrite (proj2 (andb_false_iff _ _)); [done|]. right. lia. }
  assert ((match pd_direction p with
           | DirTpdo => parse_pdo_default 16 (get_section_props S (sub_key (comm_index p) 3)) 0 (comm_index p) 3
           | DirRpdo => Ok 0
           end) = Ok (pd_inhibit_time p)) as ->.
  { destruct (pd_direction p) eqn:Hdir; [|by rewrite (pw_rpdo _ _ Hw Hdir)].
    apply (parameter_back p 3 (str "Inhibit Time") 0x0006 16); [done| |apply (pw_inhibit _ _ Hw)|lia].
    unfold comm_object. rewrite Hdir. simpl. tauto. }
  rewrite (parameter_back p 5 (str "Event Timer") 0x0006 16 (pd_event_timer p)).
  2: done. 2: { unfold comm_object. destruct (pd_direction p); simpl; tauto. } 2: apply (pw_timer _ _ Hw). 2: lia.
  destruct (count_back p Hp) as [-> ->]. destruct (mappings_back p Hp) as (ds & Hds & Hb). rewrite Hds.
  eexists. split; [reflexivity|]. split; try done; cbn [pd_number]; [lia|]. intros Hn. unfold resolve_pdo_mappings. cbn [pd_mappings].
  destruct (resolved_all p Hp) as [-> _]. by rewrite (Hb Hn).
Qed.

(** *** All PDOs *)

Definition extracted (dk : PdoDirection * Z) : option PdoDef :=
  match extract_pdo S (fst dk) (snd dk) es with Ok (_, o) => o | Err _ => None end.

Definition pdo_slot (p : PdoDef) : PdoDirection * Z := (pd_direction p, pd_number p - 1).

Lemma extracted_pdo p : In p (od_pdos od) → ∃ p', extracted (pdo_slot p) = Some p' ∧ same_pdo od es p p'.
Proof using Hod Him.
  intros Hp. destruct (extract_pdo_back p Hp) as (p' & He & Hs). exists p'. split; [|done].
  unfold extracted, pdo_slot. cbn [fst snd]. by rewrite He.
Qed.

Lemma extract_slot dir k :
  0 ≤ k < 512 →
  extract_pdo S dir k es = Ok (es, extracted (dir, k)) ∧ ((dir, k) ∉ map pdo_slot (od_pdos od) → extracted (dir, k) = None).
Proof using Hod Him.
  intros Hk. unfold extracted. cbn [fst snd].
  destruct (decide ((dir, k) ∈ map pdo_slot (od_pdos od))) as [Hin|Hout].
  - apply list_elem_of_In, List.in_map_iff in Hin as Hin'. destruct Hin' as (p & [= <- <-] & Hp). destruct (extract_pdo_back p Hp) as (p' & He & _).
    rewrite He. split; [done|]. intros Hn. exfalso. by apply Hn, list_elem_of_In.
  - assert (extract_pdo S dir k es = Ok (es, None)) as He; [|by rewrite He].
    unfold extract_pdo. unfold get_section_props at 1. rewrite no_pdo_section; [done|done|done|]. intros p Hp Hd Hnum. apply Hout.
    apply list_elem_of_In, List.in_map_iff. exists p. split; [|done]. unfold pdo_slot. f_equal; [done|lia].
Qed.

Lemma extract_loop_back dir count k :
  0 ≤ k → k + Z.of_nat count ≤ 512 →
  extract_loop count k S dir es = Ok (es, omap (λ j, extracted (dir, k + Z.of_nat j)) (seq 0 count)).
Proof using Hod Him.
  revert k. induction count as [|count IH]; intros k Hk Hc; [done|]. cbn [extract_loop].
  destruct (extract_slot dir k) as [He _]; [lia|]. rewrite He, IH by lia. cbn [seq]. rewrite <- seq_shift, omap_cons.
  change (List.map Datatypes.S ?l) with (Datatypes.S <$> l). rewrite omap_fmap, Z.add_0_r. f_equal. f_equal. f_equal.
  apply list_omap_ext, Forall_Forall2_diag, List.Forall_forall. intros j _. do 2 f_equal. lia.
Qed.

(** The slots of both directions. *)
Definition slots (dir : PdoDirection) : list (PdoDirection * Z) := (λ j, (dir, Z.of_nat j)) <$> seq 0 512.

Lemma slots_in dir dk : dk ∈ slots dir ↔ fst dk = dir ∧ 0 ≤ snd dk < 512.
Proof using Type.
  unfold slots. rewrite list_elem_of_fmap. setoid_rewrite elem_of_seq. split; [intros (j & -> & ?); cbn [fst snd]; split; [done|lia]|].
  destruct dk as [d k]. cbn [fst snd]. intros [<- Hk]. exists (Z.to_nat k). split; [f_equal; lia|lia].
Qed.

Lemma slots_NoDup : NoDup (slots DirTpdo ++ slots DirRpdo).
Proof using Type.
  apply list.NoDup_app. split; [|split].
  - apply NoDup_fmap_2; [intros x y [=]; lia|apply NoDup_seq].
  - intros dk [Hd _]%slots_in [Hd' _]%slots_in. congruence.
  - apply NoDup_fmap_2; [intros x y [=]; lia|apply NoDup_seq].
Qed.

Lemma pdo_slots_perm :
  omap extracted (slots DirTpdo ++ slots DirRpdo) ≡ₚ omap extracted (map pdo_slot (od_pdos od)).
Proof using Hod Him.
  set (all := slots DirTpdo ++ slots DirRpdo). set (used := map pdo_slot (od_pdos od)).
  assert (NoDup used) as Hu.
  { unfold used. pose proof (wr_numbers _ _ Hod) as Hn. rewrite <- (List.map_map (λ p, (pd_direction p, pd_number p)) (λ dn, (fst dn, snd dn - 1))).
    apply NoDup_fmap_2; [|exact Hn]. intros [d n] [d' n'] [= -> ?]. f_equal. lia. }
  assert (all ≡ₚ used ++ filter (λ dk, dk ∉ used) all) as ->.
  { apply NoDup_Permutation; [apply slots_NoDup| |].
    - apply list.NoDup_app. split; [done|]. split; [|by apply list.NoDup_filter, slots_NoDup]. intros dk Hin [? _]%list_elem_of_filter. done.
    - intros dk. rewrite elem_of_app, list_elem_of_filter. split; [intros; destruct (decide (dk ∈ used)); tauto|].
      intros [Hin|[_ Hin]]; [|done]. unfold used in Hin. apply list_elem_of_In, List.in_map_iff in Hin as (p & <- & Hp).
      pose proof (pw_number _ _ (pdo_writable_in _ _ Hod p Hp)). unfold all. rewrite elem_of_app, !slots_in. unfold pdo_slot. cbn [fst snd].
      destruct (pd_direction p); [left|right]; (split; [done|lia]). }
  rewrite omap_app, (omap_none _ (filter _ _)), app_nil_r; [done|]. intros [d k] [Hno Hin]%list_elem_of_filter.
  unfold all in Hin. rewrite elem_of_app, !slots_in in Hin. cbn [fst snd] in Hin. apply extract_slot; [tauto|done].
Qed.

Lemma extract_pdos_back :
  ∃ pdos ps, extract_pdos S es = Ok (es, pdos) ∧ pdos ≡ₚ ps ∧ Forall2 (same_pdo od es) (od_pdos od) ps.
Proof using Hod Him.
  exists (omap extracted (slots DirTpdo ++ slots DirRpdo)), (omap extracted (map pdo_slot (od_pdos od))).
  split; [|split; [apply pdo_slots_perm|]].
  - unfold extract_pdos. rewrite !(extract_loop_back _ 512 0) by lia. rewrite omap_app. unfold slots.
    by rewrite !omap_fmap.
  - assert (∀ p, In p (od_pdos od) → ∃ p', extracted (pdo_slot p) = Some p' ∧ same_pdo od es p p') as Hall by apply extracted_pdo.
    induction (od_pdos od) as [|p l IH]; [apply Forall2_nil_2|]. cbn [map]. rewrite omap_cons.
    destruct (Hall p) as (p' & Hp & Hs); [by left|]. rewrite Hp. apply Forall2_cons_2; [done|]. apply IH. intros q Hq. apply Hall. by right.
Qed.
End extract.

(** ** The round trip *)

Section trip.
Context {Expr : Type} (parse_expr : list Z → option Expr) (expr_text : Expr → list Z).
Context (capacity_overrides : list (Z * Z)) (view : Expr → Syn) (od : OdDefinition Expr).
Context (Hod : writable view od).

Abbreviation items_ := (items view od).

Lemma items_rows (es : list (OdEntry Expr)) :
  Forall2 (λ '(o, rows, fs) e, back (o_index o) rows fs e) items_ es →
  flat_map rows_of es ≡ₚ flat_map rows_of (od_entries od) ++ flat_map server_rows (od_sdo_servers od).
Proof using Type.
  intros Hb. assert (flat_map rows_of es ≡ₚ concat (map (λ it, snd (fst it)) items_)) as ->.
  { induction Hb as [|[[o rows] fs] e its es Hback _ IH]; [done|]. cbn [flat_map map concat fst snd].
    apply Permutation_app; [apply (bk_rows _ _ _ _ Hback)|exact IH]. }
  unfold items. rewrite map_app, List.concat_app, !List.map_map, !flat_map_concat. done.
Qed.

Lemma item_back (es : list (OdEntry Expr)) it :
  Forall2 (λ '(o, rows, fs) e, back (o_index o) rows fs e) items_ es → In it items_ →
  ∃ e, In e es ∧ back (o_index (fst (fst it))) (snd (fst it)) (snd it) e.
Proof using Type.
  intros Hb Hin. apply list_elem_of_In, list_elem_of_lookup in Hin as [k Hk].
  destruct (Forall2_lookup_l _ _ _ _ _ Hb Hk) as (e & He & Hback). exists e. destruct it as [[o rows] fs]. split; [|done].
  by apply list_elem_of_In, list_elem_of_lookup_2 with k.
Qed.

Lemma import_is_imported (es es' : list (OdEntry Expr)) :
  Forall2 (λ '(o, rows, fs) e, back (o_index o) rows fs e) items_ es → es' ≡ₚ es → imported view od es'.
Proof using Hod.
  intros Hb Hp. split.
  - rewrite Hp. assert (map oe_index es = map o_index (item_objects view od)) as ->; [|by apply (item_indices_NoDup view od Hod)].
    rewrite <- items_objects, List.map_map. clear Hp. induction Hb as [|[[o rows] fs] e its es Hback _ IH]; [done|]. cbn [map fst].
    by rewrite (bk_index _ _ _ _ Hback), IH.
  - intros f (e0 & He0 & Hf)%List.in_flat_map. destruct (item_back es (entry_item view e0) Hb) as (e & He & Hback).
    { unfold items. apply List.in_app_iff. left. by apply List.in_map. }
    cbn [entry_item fst snd] in Hback.
    assert (o_index (entry_object view e0) = oe_index e0) as Hi by (unfold entry_object; by destruct (oe_kind e0)).
    pose proof (flatten_entry_index e0 f Hf) as Hfi.
    assert (In (var_flat view (oe_index e0) (fl_subindex f) (fl_name f) (fl_var f)) (mapped_flats view e0)) as Hm.
    { unfold flatten_entry, mapped_flats, entry_flats in *. destruct (oe_kind e0); [destruct Hf as [<-|[]]; by left| |done].
      apply List.in_map_iff in Hf as (s & <- & Hs). apply List.in_map_iff. by exists s. }
    destruct (bk_flat _ _ _ _ Hback _ Hm) as (g & Hg & Hgs & Hgt & Hgm). exists e, g.
    split; [by apply (Permutation_in _ (symmetry Hp))|]. rewrite (bk_index _ _ _ _ Hback), Hi, Hfi.
    split; [done|]. split; [done|]. split; [exact Hgs|]. split; [exact Hgt|exact Hgm].
  - rewrite Hp. clear Hp. induction Hb as [|[[o rows] fs] e its es Hback _ IH]; [apply List.Forall_nil|].
    apply List.Forall_cons; [apply (bk_subs _ _ _ _ Hback)|done].
Qed.

(** C36. An exported EDS file describes the device: for every well-formed
    definition whose default texts the importer accepts, the export does not
    panic, and importing its text, in whatever order the hash map iterates,
    gives exactly the addresses of the definition (those of its additional SDO
    servers as plain objects) with their types, access, PDO mappability and
    numbers of entries, and exactly its PDOs, with the COB-ID written out and,
    when the imported field names are distinct, the same objects in the same
    bits. *)
Theorem eds_round_trip (iterate : list (Z * list (Z * props)) → list (Z * list (Z * props))) :
  Forall (λ f, readable parse_expr (fe_type_name f) (fe_default f)) (all_flats view od) →
  (∀ n, 0 ≤ n → is_Some (parse_expr (decimal n))) → (∀ m, iterate m ≡ₚ m) →
  ∃ text es pdos ps,
    generate_eds view od = Ret text ∧
    parse_eds_content parse_expr expr_text capacity_overrides iterate text = Ok (es, pdos) ∧
    flat_map rows_of es ≡ₚ flat_map rows_of (od_entries od) ++ flat_map server_rows (od_sdo_servers od) ∧
    pdos ≡ₚ ps ∧ Forall2 (same_pdo od es) (od_pdos od) ps.
Proof using Hod.
  intros Hr Hd Hi. destruct (read_export view od Hod) as (text & Ht & Hparse).
  destruct (import_objects parse_expr expr_text capacity_overrides view od Hod Hr Hd) as (es & Hb & Himp).
  destruct (Himp iterate Hi) as (es' & Hp & Hod'). pose proof (import_is_imported es es' Hb Hp) as Him.
  destruct (extract_pdos_back view od Hod es' Him) as (pdos & ps & Hx & Hpp & Hs).
  exists text, es', pdos, ps. split; [done|]. split; [|split; [|done]].
  - unfold parse_eds_content. rewrite Hparse. fold (read_sections view od). by rewrite Hod'.
  - rewrite Hp. by apply items_rows.
Qed.
End trip.

(** ** A device with every kind of object

    Its default texts are their own expressions, integer literals without a
    suffix, and the hash map iterates in reverse order. *)

Definition literal_view (t : list Z) : Syn := ExprLit (LitInt (mkIntLit t [] (default 0 (parse_int_val t)))).

Definition plain_var (ty text : list Z) (access : AccessKind) (mappable : bool) : VarDef (list Z) :=
  mkVarDef ty None (Some text) access mappable.

Definition sample : OdDefinition (list Z) :=
  mkOdDefinition (str "Demo")
    [mkOdEntry 0x6000 (str "speed") (EntryVar (plain_var (str "i16") (str "0") AccRo true));
     mkOdEntry 0x2000 (str "limits")
       (EntryRecord [mkSubEntry 2 (str "upper") (plain_var (str "u8") (str "7") AccRw true);
                     mkSubEntry 1 (str "lower") (plain_var (str "u32") (str "0x10") AccRw false)]);
     mkOdEntry 0x2001 (str "table") (EntryArray (mkArrayDef (str "u16") None 4 AccRw false));
     mkOdEntry 0x1018 (str "identity")
       (EntryRecord [mkSubEntry 1 (str "vendor") (plain_var (str "u32") (str "0x123") AccConst false)])]
    [mkPdoDef DirTpdo 1 None 255 5 0 Immutable [mkMappingDef (str "speed") None None; mkMappingDef (str "upper") None None];
     mkPdoDef DirRpdo 2 (Some (Absolute 0x301)) 255 0 7 Mutable [mkMappingDef (str "upper") None None]]
    [mkSdoServerDef 2 (Absolute 0x640) (NodeRelative 0x5C0)] false None.

(** Splits lists and conjunctions and evaluates what is left. *)
Ltac by_parts :=
  repeat first
    [ apply List.Forall_nil | apply List.Forall_cons | split
    | progress intros | exact I | reflexivity | by_decision | eexists; reflexivity ].

Lemma sample_pdos : Forall (pdo_writable sample) (od_pdos sample).
Proof.
  repeat apply List.Forall_cons; try apply List.Forall_nil; split.
  11, 22: vm_compute; reflexivity.
  all: try (cbn [pd_number pd_transmission_type pd_inhibit_time pd_event_timer pd_mappings]; unfold is_uint; cbn [length]; lia).
  all: try discriminate.
  all: try (repeat constructor; done).
  intros c [= <-]; cbn; unfold is_uint; lia.
Qed.

Lemma sample_writable : writable literal_view sample.
Proof.
  split.
  - vm_compute. reflexivity.
  - by_parts.
  - by_parts.
  - apply sample_pdos.
  - by apply (bool_decide_unpack _).
  - by_parts; cbn; lia.
  - by apply (bool_decide_unpack _).
Qed.

(** The importer takes every default text, and any text as an expression. *)
Lemma eds_round_trip_witness :
  ∃ text es pdos ps,
    generate_eds literal_view sample = Ret text ∧
    parse_eds_content Some id [] (@rev _) text = Ok (es, pdos) ∧
    flat_map rows_of es ≡ₚ flat_map rows_of (od_entries sample) ++ flat_map server_rows (od_sdo_servers sample) ∧
    pdos ≡ₚ ps ∧ Forall2 (same_pdo sample es) (od_pdos sample) ps.
Proof.
  apply (eds_round_trip Some id [] literal_view sample sample_writable (@rev _)).
  - repeat apply List.Forall_cons; try apply List.Forall_nil; intros _; do 2 eexists; (split; [vm_compute; reflexivity|reflexivity]).
  - intros n _. by eexists.
  - intros m. symmetry. apply Permutation_rev.
Defined.

(** *** What the export does not carry over *)

Definition lone (e : OdEntry (list Z)) : OdDefinition (list Z) := mkOdDefinition (str "Demo") [e] [] [] false None.

(** The indices of a re-imported export, and which of them are arrays. *)
Definition reimported (view : list Z → Syn) (od : OdDefinition (list Z)) : option (list (Z * bool)) :=
  match generate_eds view od with
  | Ret text =>
      match parse_eds_content Some id [] id text with
      | Ok (es, _) => Some (map (λ e, (oe_index e, match oe_kind e with EntryArray _ => true | _ => false end)) es)
      | Err _ => None
      end
  | Panic => None
  end.

(** An array of floats comes back as a record: its elements are exported as
    [0], which becomes [0f32], and only [0.0f32] counts as zero. *)
Example float_array_becomes_record :
  let array ty := lone (mkOdEntry 0x2001 (str "gains") (EntryArray (mkArrayDef ty None 4 AccRw false))) in
  reimported literal_view (array (str "f32")) = Some [(0x2001, false)] ∧
  reimported literal_view (array (str "i32")) = Some [(0x2001, true)].
Proof. vm_compute. split; reflexivity. Qed.

(** A string default is exported as it is: with a line feed in it, it adds
    lines to the file, here a second object. *)
Example string_default_adds_object :
  let lf := [newline] in
  let text := str "x" ++ lf ++ str "[2002]" ++ lf ++ str "ParameterName=ghost" ++ lf ++ str "DataType=0x0005" ++ lf
              ++ str "AccessType=rw" ++ lf ++ str "DefaultValue=1" in
  let var := mkVarDef (str "visible_string") (Some 16) (Some text) AccRw false in
  reimported (λ t, ExprLit (LitStr t)) (lone (mkOdEntry 0x2001 (str "label") (EntryVar var)))
  = Some [(0x2001, false); (0x2002, false)].
Proof. vm_compute. reflexivity. Qed.
