(* ===== verification/SdoClientGen.v ===== *)
(** * Generated SDO clients

    [canopen-derive/src/sdo_client_codegen.rs]: the typed SDO client generated
    for a definition, a struct around an [SdoDriver] with one reader or writer
    per object.  [generate_from_od] lists the methods its templates emit; what
    a method does is its template run on the driver of [SdoDriver] and
    [SdoTimed], over any transport of the class [AsyncCan].  Doc comments and
    the visibility of the struct are not kept. *)
From S2P Require Import Prelude Text Frame SdoProtocol SdoClient SdoDriver SdoTimed Eds EdsParser Gen.

(** ** The fixed-width types, by the suffix of their driver methods *)

Inductive Scalar :=
| ScBool | ScU8 | ScI8 | ScU16 | ScI16 | ScU24 | ScI24 | ScU32 | ScI32 | ScF32 | ScU64 | ScI64 | ScF64.

Definition typed_info (ty : list Z) : option Scalar :=
  if bool_decide (ty = str "bool") then Some ScBool
  else if bool_decide (ty = str "u8") then Some ScU8
  else if bool_decide (ty = str "i8") then Some ScI8
  else if bool_decide (ty = str "u16") then Some ScU16
  else if bool_decide (ty = str "i16") then Some ScI16
  else if bool_decide (ty = str "u24") then Some ScU24
  else if bool_decide (ty = str "i24") then Some ScI24
  else if bool_decide (ty = str "u32") then Some ScU32
  else if bool_decide (ty = str "i32") then Some ScI32
  else if bool_decide (ty = str "f32") then Some ScF32
  else if bool_decide (ty = str "u64") then Some ScU64
  else if bool_decide (ty = str "i64") then Some ScI64
  else if bool_decide (ty = str "f64") then Some ScF64
  else None.

(** ** Methods *)

(** The driver call of a method.  A method of an array takes the sub-index and
    asserts that it is in [1..=count]. *)
Inductive Access :=
| Upload (subindex : Z)
| ReadScalar (t : Scalar) (subindex : Z)
| ReadElement (t : Scalar) (count : Z)
| Download (subindex : Z)
| WriteScalar (t : Scalar) (subindex : Z)
| WriteElement (t : Scalar) (count : Z).

Record Method := mkMethod { m_name : list Z; m_index : Z; m_access : Access }.

(** [{:04x}] and [{:02x}] *)
Definition lower_hex (w : nat) (n : Z) : list Z := map to_ascii_lowercase (hex_padded w n).

Definition readable_access (a : AccessKind) : bool := negb (bool_decide (a = AccWo)).
Definition writable_access (a : AccessKind) : bool := bool_decide (a = AccRw) || bool_decide (a = AccWo).

Definition gen_var_methods (index subindex : Z) (name ty : list Z) (access : AccessKind) : list Method :=
  let is_varlen := is_variable_length_type ty in
  let reader body := mkMethod (str "read_" ++ name) index body in
  let writer body := mkMethod (str "write_" ++ name) index body in
  (if readable_access access then
     if is_varlen then [reader (Upload subindex)]
     else match typed_info ty with Some t => [reader (ReadScalar t subindex)] | None => [] end
   else [])
  ++ (if writable_access access then
        if is_varlen then [writer (Download subindex)]
        else match typed_info ty with Some t => [writer (WriteScalar t subindex)] | None => [] end
      else []).

Definition gen_array_methods (index : Z) (name element_ty : list Z) (access : AccessKind) (count : Z) : list Method :=
  let count_u8 := as_u8 count in
  (if readable_access access then
     match typed_info element_ty with
     | Some t => [mkMethod (str "read_" ++ name) index (ReadElement t count_u8)]
     | None => []
     end
   else [])
  ++ (if writable_access access then
        match typed_info element_ty with
        | Some t => [mkMethod (str "write_" ++ name) index (WriteElement t count_u8)]
        | None => []
        end
      else []).

Section generator.
Context {Expr : Type}.

(** The address-qualified names. *)
Definition fixed_name (index subindex : Z) (base : list Z) : list Z :=
  str "i" ++ lower_hex 4 index ++ str "_s" ++ lower_hex 2 subindex ++ str "_" ++ base.

Definition array_name (index : Z) (base : list Z) : list Z := str "i" ++ lower_hex 4 index ++ str "_" ++ base.

Definition entry_methods (entry : OdEntry Expr) : list Method :=
  let index := oe_index entry in
  match oe_kind entry with
  | EntryVar var =>
      gen_var_methods index 0 (str "i" ++ lower_hex 4 index ++ str "_s00_" ++ oe_name entry) (type_name var)
        (vd_access var)
  | EntryRecord subs =>
      flat_map (λ sub, gen_var_methods index (sub_subindex sub) (fixed_name index (sub_subindex sub) (sub_name sub))
                         (type_name (sub_var sub)) (vd_access (sub_var sub))) subs
  | EntryArray arr =>
      gen_array_methods index (array_name index (oe_name entry)) (element_type arr) (arr_access arr) (arr_count arr)
  end.

Definition generate_from_od (od : OdDefinition Expr) : list Method := flat_map entry_methods (od_entries od).

(** ** What the methods do *)

Context {C E : Type} `{AsyncCan C E} (fuel : nat).

(** [SdoDriver::read_#suffix]; floats are their bit patterns. *)
Definition driver_read (t : Scalar) (d : SdoDriver) (can : C) (index subindex : Z)
    : exec (option (C * result Value (SdoError E))) :=
  match t with
  | ScBool => map_ok VBool (read_bool fuel d can index subindex)
  | ScU8 => map_ok VNum (read_u8 fuel d can index subindex)
  | ScI8 => map_ok VNum (read_i8 fuel d can index subindex)
  | ScU16 => map_ok VNum (read_u16 fuel d can index subindex)
  | ScI16 => map_ok VNum (read_i16 fuel d can index subindex)
  | ScU24 => map_ok VNum (read_u24 fuel d can index subindex)
  | ScI24 => map_ok VNum (read_i24 fuel d can index subindex)
  | ScU32 | ScF32 => map_ok VNum (read_u32 fuel d can index subindex)
  | ScI32 => map_ok VNum (read_i32 fuel d can index subindex)
  | ScU64 | ScF64 => map_ok VNum (read_u64 fuel d can index subindex)
  | ScI64 => map_ok VNum (read_i64 fuel d can index subindex)
  end.

(** [SdoDriver::write_#suffix] *)
Definition driver_write (t : Scalar) (d : SdoDriver) (can : C) (index subindex : Z) (v : Value)
    : exec (option (C * result unit (SdoError E))) :=
  match t with
  | ScBool => write_bool fuel d can index subindex (truth v)
  | ScU8 | ScI8 => write_int 1 fuel d can index subindex (num v)
  | ScU16 | ScI16 => write_int 2 fuel d can index subindex (num v)
  | ScU24 | ScI24 => write_24 fuel d can index subindex (num v)
  | ScU32 | ScI32 | ScF32 => write_int 4 fuel d can index subindex (num v)
  | ScU64 | ScI64 | ScF64 => write_int 8 fuel d can index subindex (num v)
  end.

(** A reader called with the sub-index argument [sub] (used by arrays) or a
    buffer of [buf_len] bytes (used by variable-length objects, of which it
    gives the bytes received).  [None]: not a reader, or out of fuel. *)
Definition call_reader (m : Method) (d : SdoDriver) (can : C) (sub buf_len : Z)
    : exec (option (C * result Value (SdoError E))) :=
  match m_access m with
  | Upload s => map_ok VBytes (upload fuel d can (m_index m) s buf_len)
  | ReadScalar t s => driver_read t d can (m_index m) s
  | ReadElement t count => assert_ (in_range 1 count sub);; driver_read t d can (m_index m) sub
  | _ => mret None
  end.

Definition call_writer (m : Method) (d : SdoDriver) (can : C) (sub : Z) (v : Value)
    : exec (option (C * result unit (SdoError E))) :=
  match m_access m with
  | Download s => download fuel d can (m_index m) s (content v)
  | WriteScalar t s => driver_write t d can (m_index m) s v
  | WriteElement t count => assert_ (in_range 1 count sub);; driver_write t d can (m_index m) sub v
  | _ => mret None
  end.

(** [new] and [target] wrap the driver's. *)
Definition client_new (target : Z) : SdoDriver := driver_new target.
Definition client_target (d : SdoDriver) : Z := drv_target d.
End generator.
