(* ===== verification/SdoClientDevice.v ===== *)
(** * The generated SDO client and the generated device agree

    [sdo_client_methods]: the methods of a client have distinct names and
    address exactly the objects of the definition.  [sdo_client_round_trip]:
    against the server of a device generated from the same definition, a value
    set by a writer is what the readers of the object return. *)
From S2P Require Import Prelude Text Frame Nmt Od SdoProtocol SdoServer SdoServerSafe SdoClient SdoDriver SdoTransfer SdoTimed Eds EdsParser EdsText Gen GenSpec GenTable GenFacts GenNode PdoClientDevice SdoClientGen.

(** ** Scalars *)

Definition scalar_type (t : Scalar) : DataType :=
  match t with
  | ScBool => Boolean | ScU8 => U8 | ScI8 => I8 | ScU16 => U16 | ScI16 => I16 | ScU24 => U24 | ScI24 => I24
  | ScU32 => U32 | ScI32 => I32 | ScF32 => Real32 | ScU64 => U64 | ScI64 => I64 | ScF64 => Real64
  end.

Lemma typed_info_type ty t : typed_info ty = Some t → type_to_datatype ty = Some (scalar_type t).
Proof.
  unfold typed_info. repeat (case_bool_decide; [subst; by intros [= <-]|]). done.
Qed.

Lemma type_typed_info ty dt n :
  type_to_datatype ty = Some dt → DataType.size dt = Some n → ∃ t, typed_info ty = Some t ∧ dt = scalar_type t.
Proof.
  unfold type_to_datatype. repeat (case_bool_decide; [subst; intros [= <-]; simpl; try done; eexists; by split|]). done.
Qed.

Lemma varlen_type ty dt :
  type_to_datatype ty = Some dt → (is_variable_length_type ty = true ↔ DataType.size dt = None).
Proof.
  unfold type_to_datatype. repeat (case_bool_decide; [subst; intros [= <-]; by split|]). done.
Qed.

(** The values of a data type; a float is its bits. *)
Definition value_ok (dt : DataType) (v : Value) : Prop :=
  match DataType.size dt, v with
  | None, VBytes l => bytes l
  | Some n, VBool _ => dt = Boolean
  | Some n, VNum z =>
      dt ≠ Boolean ∧ if signed_type dt then - 2 ^ (8 * n - 1) ≤ z < 2 ^ (8 * n - 1) else 0 ≤ z < 2 ^ (8 * n)
  | _, _ => False
  end.

Lemma decode_encode dt v : value_ok dt v → decode dt (encode dt v) = v.
Proof.
  unfold value_ok, decode, encode. destruct (DataType.size dt) as [n|] eqn:Hn; destruct v as [b|z|l]; try done.
  - intros ->. simpl. by destruct b.
  - intros [Hb Hz]. rewrite !bool_decide_eq_false_2 by done. f_equal. simpl num. pose proof (size_pos _ _ Hn) as Hp.
    rewrite from_to_le, Z2Nat.id by lia. replace (256 ^ n) with (2 ^ (8 * n)) by (change 256 with (2 ^ 8); by rewrite <- Z.pow_mul_r by lia).
    assert (2 ^ (8 * n) = 2 * 2 ^ (8 * n - 1)) as Hpow by (rewrite <- Z.pow_succ_r by lia; f_equal; lia).
    destruct (signed_type dt); [|by apply Z.mod_small]. unfold signed_of.
    pose proof (Z.mod_pos_bound z (2 ^ (8 * n)) ltac:(lia)). pose proof (Z.div_mod z (2 ^ (8 * n)) ltac:(lia)).
    assert (z / 2 ^ (8 * n) = 0 ∨ z / 2 ^ (8 * n) = -1) as [Hd|Hd] by (destruct (Z.le_gt_cases 0 z);
      [left; apply Z.div_small; lia|right; symmetry; apply (Z.div_unique _ _ _ (z + 2 ^ (8 * n))); lia]);
      destruct (Z.ltb_spec (z mod 2 ^ (8 * n)) (2 ^ (8 * n - 1))); lia.
Qed.

Lemma decode_canonical dt v : value_ok dt v → decode dt (canonical dt (encode dt v)) = v.
Proof.
  intros Hv. unfold canonical. case_bool_decide as Hb; [|by apply decode_encode]. subst dt. destruct v as [[]|z|l]; try done.
  by destruct Hv.
Qed.

Lemma encode_bytes dt v : value_ok dt v → bytes (encode dt v).
Proof.
  unfold value_ok, encode. destruct (DataType.size dt) as [n|]; [|by destruct v].
  intros _. case_bool_decide; [|apply bytes_to_le]. repeat constructor; destruct (truth v); unfold is_uint; lia.
Qed.

Lemma encode_len dt v n : DataType.size dt = Some n → len (encode dt v) = n.
Proof.
  intros Hn. pose proof (size_pos _ _ Hn). unfold encode. rewrite Hn. case_bool_decide as Hb; [subst; by injection Hn as <-|].
  rewrite length_to_le. lia.
Qed.

(** ** The driver's typed access *)

Ltac unfold_reads :=
  unfold read_bool, SdoTimed.read_u8, read_i8, read_u16, read_i16, read_u24, read_i24, SdoTimed.read_u32, read_i32,
    read_u64, read_i64, read_uint, read_int, map_ok.

Section driver.
Context {C E : Type} `{AsyncCan C E} (fuel : nat) (d : SdoDriver) (can : C) (i s : Z).

Lemma typed_write t v : driver_write fuel t d can i s v = download fuel d can i s (encode (scalar_type t) v).
Proof using Type.
  destruct t; try reflexivity; unfold driver_write, write_24;
    (rewrite slice_prefix by (rewrite ?length_to_le; lia)); rstep; by rewrite (take_to_le 3 4) by lia.
Qed.

(** A driver that receives exactly the bytes of the type. *)
Lemma typed_read_ok t can' v indicated :
  upload_impl fuel d can i s 8 = Ret (Some (can', Ok (v, indicated))) → bytes v →
  DataType.size (scalar_type t) = Some (len v) →
  driver_read fuel t d can i s = Ret (Some (can', Ok (decode (scalar_type t) v))).
Proof using Type.
  intros Hu Hb Hn.
  assert (∀ n, len v = n → n ≤ 8 → read_fixed fuel d can i s n = Ret (Some (can', Ok v))) as Hf.
  { intros n Hl Hle. unfold read_fixed. rewrite Hu. rstep. rewrite Hl, Z.eqb_refl. cbn [orb].
    rewrite slice_prefix; [|lia|rewrite length_app; lia]. rstep. do 4 f_equal. apply take_app_length'. lia. }
  unfold driver_read, decode. rewrite Hn.
  destruct t; injection Hn as Hn; unfold_reads; rewrite Hf by lia; rstep; try reflexivity; try (by rewrite <- Hn).
  all: rewrite (len_3 v (eq_sym Hn)) in *.
  - cbv [mret exec_ret]. by do 5 f_equal.
  - destruct (proj1 (List.Forall_cons_iff _ _ _) Hb) as [H0 [H1 [H2 _]%List.Forall_cons_iff]%List.Forall_cons_iff].
    cbv [mret exec_ret]. do 5 f_equal. exact (extend_24 _ _ _ H0 H1 H2).
Qed.
End driver.

(** ** The object a method addresses *)

Definition reads (m : Method) : bool :=
  match m_access m with Upload _ | ReadScalar _ _ | ReadElement _ _ => true | _ => false end.

Definition method_type (m : Method) : option Scalar :=
  match m_access m with
  | Upload _ | Download _ => None
  | ReadScalar t _ | ReadElement t _ | WriteScalar t _ | WriteElement t _ => Some t
  end.

(** With the sub-index argument [sub], which only methods of arrays take. *)
Definition method_addr (m : Method) (sub : Z) : option (Z * Z) :=
  match m_access m with
  | Upload s | Download s | ReadScalar _ s | WriteScalar _ s => Some (m_index m, s)
  | ReadElement _ count | WriteElement _ count => if in_range 1 count sub then Some (m_index m, sub) else None
  end.

(** An object's type and access, and a method for it. *)
Definition method_fits (m : Method) (dt : DataType) (a : AccessKind) : Prop :=
  match method_type m with Some t => dt = scalar_type t | None => DataType.size dt = None end ∧
  if reads m then a ≠ AccWo else a = AccRw ∨ a = AccWo.

Lemma readable_spec a : readable_access a = true ↔ a ≠ AccWo.
Proof. unfold readable_access. by case_bool_decide. Qed.

Lemma writable_spec a : writable_access a = true ↔ a = AccRw ∨ a = AccWo.
Proof. unfold writable_access. by rewrite orb_true_iff, !bool_decide_eq_true. Qed.

Lemma var_methods_addr i s n ty a m dt :
  In m (gen_var_methods i s n ty a) → type_to_datatype ty = Some dt →
  (∀ sub, method_addr m sub = Some (i, s)) ∧ method_fits m dt a ∧
  m_name m = (if reads m then str "read_" else str "write_") ++ n.
Proof.
  unfold gen_var_methods. intros Hm Hty. apply List.in_app_iff in Hm as [Hm|Hm].
  - destruct (readable_access a) eqn:Ha; [|done]. apply readable_spec in Ha.
    destruct (is_variable_length_type ty) eqn:Hv; [apply (varlen_type _ _ Hty) in Hv; by destruct Hm as [<-|[]]|].
    destruct (typed_info ty) as [t|] eqn:Ht; [|done]. apply typed_info_type in Ht. rewrite Hty in Ht. injection Ht as ->.
    by destruct Hm as [<-|[]].
  - destruct (writable_access a) eqn:Ha; [|done]. apply writable_spec in Ha.
    destruct (is_variable_length_type ty) eqn:Hv; [apply (varlen_type _ _ Hty) in Hv; by destruct Hm as [<-|[]]|].
    destruct (typed_info ty) as [t|] eqn:Ht; [|done]. apply typed_info_type in Ht. rewrite Hty in Ht. injection Ht as ->.
    by destruct Hm as [<-|[]].
Qed.

Lemma array_methods_addr i n ty a count m dt :
  In m (gen_array_methods i n ty a count) → type_to_datatype ty = Some dt →
  (∀ sub, method_addr m sub = if in_range 1 (as_u8 count) sub then Some (i, sub) else None) ∧ method_fits m dt a ∧
  m_name m = (if reads m then str "read_" else str "write_") ++ n.
Proof.
  unfold gen_array_methods. intros Hm Hty. destruct (typed_info ty) as [t|] eqn:Ht.
  2: { destruct (readable_access a), (writable_access a); done. }
  apply typed_info_type in Ht. rewrite Hty in Ht. injection Ht as ->. apply List.in_app_iff in Hm as [Hm|Hm].
  - destruct (readable_access a) eqn:Ha; [|done]. apply readable_spec in Ha. by destruct Hm as [<-|[]].
  - destruct (writable_access a) eqn:Ha; [|done]. apply writable_spec in Ha. by destruct Hm as [<-|[]].
Qed.

(** A supported object has its reader and its writer. *)
Lemma var_methods_complete i s n ty a dt (rd : bool) :
  type_to_datatype ty = Some dt → (if rd then a ≠ AccWo else a = AccRw ∨ a = AccWo) →
  ∃ m, In m (gen_var_methods i s n ty a) ∧ reads m = rd.
Proof.
  intros Hty Ha. unfold gen_var_methods.
  assert (is_variable_length_type ty = true ∨ is_variable_length_type ty = false ∧ ∃ t, typed_info ty = Some t) as Hk.
  { destruct (is_variable_length_type ty) eqn:Hv; [by left|right]. split; [done|].
    destruct (DataType.size dt) as [k|] eqn:Hk; [|apply (varlen_type _ _ Hty) in Hk; congruence].
    destruct (type_typed_info _ _ _ Hty Hk) as (t & Ht & _). by exists t. }
  destruct rd; [apply readable_spec in Ha|apply writable_spec in Ha]; rewrite Ha;
    (destruct Hk as [->|(-> & t & ->)]; eexists; (split; [apply List.in_app_iff; (left; by left) || (right; by left)|done])).
Qed.

Lemma array_methods_complete i n ty a count dt (rd : bool) size :
  type_to_datatype ty = Some dt → type_size ty = Some size → (if rd then a ≠ AccWo else a = AccRw ∨ a = AccWo) →
  ∃ m, In m (gen_array_methods i n ty a count) ∧ reads m = rd.
Proof.
  intros Hty Hsz Ha. unfold gen_array_methods. assert (∃ t, typed_info ty = Some t) as [t ->].
  { destruct (DataType.size dt) as [k|] eqn:Hk; [destruct (type_typed_info _ _ _ Hty Hk) as (t & Ht & _); by exists t|].
    revert Hty Hsz Hk. unfold type_to_datatype. repeat (case_bool_decide; [subst; by intros [= <-]|]). done. }
  destruct rd; [apply readable_spec in Ha|apply writable_spec in Ha]; rewrite Ha;
    (eexists; (split; [apply List.in_app_iff; (left; by left) || (right; by left)|done])).
Qed.

Section methods.
Context {Expr : Type}.

Lemma methods_of_entries (od : OdDefinition Expr) m :
  In m (generate_from_od od) ↔
  (∃ x, In x (flatten (od_entries od)) ∧
     In m (gen_var_methods (fl_index x) (fl_subindex x) (fixed_name (fl_index x) (fl_subindex x) (fl_name x))
             (type_name (fl_var x)) (vd_access (fl_var x)))) ∨
  (∃ a, In a (collect_arrays (od_entries od)) ∧
     In m (gen_array_methods (ae_index a) (array_name (ae_index a) (ae_name a)) (element_type (ae_def a))
             (arr_access (ae_def a)) (arr_count (ae_def a)))).
Proof using Type.
  unfold generate_from_od, flatten, collect_arrays. rewrite List.in_flat_map. split.
  - intros (e & He & Hm). unfold entry_methods in Hm. destruct (oe_kind e) as [v|subs|arr] eqn:Hk.
    + left. eexists. split; [apply List.in_flat_map; exists e; split; [done|]; unfold flatten_entry; rewrite Hk; by left|done].
    + apply List.in_flat_map in Hm as (s & Hs & Hm). left. eexists.
      split; [apply List.in_flat_map; exists e; split; [done|]; unfold flatten_entry; rewrite Hk; by apply List.in_map|done].
    + right. exists (mkArrayEntry (oe_index e) (oe_name e) arr). split; [|exact Hm].
      apply list_elem_of_In, list_elem_of_omap. exists e. rewrite Hk. split; [by apply list_elem_of_In|done].
  - intros [(x & (e & He & Hx)%List.in_flat_map & Hm)|(a & (e & He%list_elem_of_In & Ha)%list_elem_of_In%list_elem_of_omap & Hm)]; exists e; (split; [done|]);
      unfold entry_methods, flatten_entry in *; destruct (oe_kind e) as [v|subs|arr]; try done.
    + by destruct Hx as [<-|[]].
    + apply List.in_map_iff in Hx as (s & <- & Hs). apply List.in_flat_map. by exists s.
    + by injection Ha as <-.
Qed.
End methods.

(** ** Names *)

Lemma before_delimiter d (l l' r r' : list Z) :
  d ∉ l → d ∉ l' → l ++ d :: r = l' ++ d :: r' → l = l' ∧ r = r'.
Proof.
  revert l'. induction l as [|x l IH]; intros [|y l']; rewrite ?not_elem_of_cons; simpl.
  - by intros _ _ [= ->].
  - by intros _ [Hd _] [= -> _].
  - by intros [Hd _] _ [= <- _].
  - intros [_ H] [_ H'] [= -> He]. destruct (IH l' H H' He) as [-> ->]. done.
Qed.

Lemma lowered_digit c : is_hex c → (48 ≤ to_ascii_lowercase c ≤ 57 ∧ to_ascii_lowercase c = c) ∨ (97 ≤ to_ascii_lowercase c ≤ 102 ∧ to_ascii_lowercase c = c + 32).
Proof. intros [Hc|Hc]%is_hex_range; unfold to_ascii_lowercase, in_range; [left|right]; destruct (Z.leb_spec 65 c), (Z.leb_spec c 90); simpl; lia. Qed.

Lemma lower_hex_plain w n : 0 ≤ n → 95 ∉ lower_hex w n.
Proof.
  intros Hn (c & Hc & Hin)%list_elem_of_fmap. destruct (hex_padded_value w n Hn) as (_ & Hall & _).
  apply list_elem_of_In in Hin. apply (proj1 (List.Forall_forall _ _) Hall), lowered_digit in Hin. lia.
Qed.

Lemma map_inj_on {A B} (P : A → Prop) (f : A → B) l k :
  (∀ x y, P x → P y → f x = f y → x = y) → Forall P l → Forall P k → map f l = map f k → l = k.
Proof.
  intros Hf Hl. revert k. induction Hl as [|x l Hx _ IH]; intros k Hk; destruct Hk as [|y k Hy Hk]; try done.
  intros [= Hxy He]. f_equal; [by apply Hf|by apply IH].
Qed.

Lemma lower_hex_inj w n m : 0 ≤ n → 0 ≤ m → lower_hex w n = lower_hex w m → n = m.
Proof.
  intros Hn Hm He. destruct (hex_padded_value w n Hn) as (_ & Ha & Hv), (hex_padded_value w m Hm) as (_ & Ha' & Hv').
  apply (map_inj_on is_hex) in He; [|intros x y Hx%lowered_digit Hy%lowered_digit; lia|done|done].
  rewrite He, Hv' in Hv. by injection Hv.
Qed.

(** What a name says: the kind of access, the index, and the rest. *)
Definition name_of (rd : bool) (i : Z) (rest : list Z) : list Z :=
  (if rd then str "read_" else str "write_") ++ str "i" ++ lower_hex 4 i ++ str "_" ++ rest.

Lemma name_inj rd rd' i i' rest rest' :
  0 ≤ i → 0 ≤ i' → name_of rd i rest = name_of rd' i' rest' → rd = rd' ∧ i = i' ∧ rest = rest'.
Proof.
  intros Hi Hi' He. assert (rd = rd') as <- by (by destruct rd, rd'). split; [done|]. unfold name_of in He.
  apply app_inv_head, app_inv_head in He. apply before_delimiter in He as [He ->]; [|by apply lower_hex_plain..].
  split; [|done]. by apply lower_hex_inj in He.
Qed.

Lemma sub_inj s s' b b' : 0 ≤ s → 0 ≤ s' →
  str "s" ++ lower_hex 2 s ++ str "_" ++ b = str "s" ++ lower_hex 2 s' ++ str "_" ++ b' → s = s'.
Proof.
  intros Hs Hs' He. apply app_inv_head in He. apply before_delimiter in He as [He _]; [|by apply lower_hex_plain..].
  by apply lower_hex_inj in He.
Qed.

Lemma NoDup_flat_map {A B K} (f : A → list B) (key : A → K) l :
  NoDup (map key l) → (∀ a, In a l → NoDup (f a)) →
  (∀ a b x, In a l → In b l → In x (f a) → In x (f b) → key a = key b) → NoDup (flat_map f l).
Proof.
  induction l as [|a l IH]; intros Hk Hf Hx; [apply base.NoDup_nil_2|]. apply list.NoDup_cons in Hk as [Hnot Hk].
  cbn [flat_map]. apply list.NoDup_app. split; [apply Hf; by left|]. split.
  - intros x Hxa%list_elem_of_In Hxl%list_elem_of_In. apply List.in_flat_map in Hxl as (b & Hb & Hxb). apply Hnot.
    apply list_elem_of_In, List.in_map_iff. exists b. split; [|done]. symmetry. apply (Hx a b x); [by left|by right|done|done].
  - apply IH; [done|intros; apply Hf; by right|]. intros c b x ? ?. apply Hx; by right.
Qed.

Lemma var_methods_NoDup i s n ty a : NoDup (map m_name (gen_var_methods i s n ty a)).
Proof.
  unfold gen_var_methods. destruct (readable_access a), (writable_access a), (is_variable_length_type ty), (typed_info ty);
    try apply NoDup_singleton; try apply base.NoDup_nil_2; apply list.NoDup_cons; (split; [|apply NoDup_singleton]);
    by intros ?%list_elem_of_singleton.
Qed.

Lemma array_methods_NoDup i n ty a c : NoDup (map m_name (gen_array_methods i n ty a c)).
Proof.
  unfold gen_array_methods. destruct (readable_access a), (writable_access a), (typed_info ty);
    try apply NoDup_singleton; try apply base.NoDup_nil_2; apply list.NoDup_cons; (split; [|apply NoDup_singleton]);
    by intros ?%list_elem_of_singleton.
Qed.

Lemma var_method_name i s n ty a x : In x (map m_name (gen_var_methods i s n ty a)) → ∃ rd : bool, x = (if rd then str "read_" else str "write_") ++ n.
Proof.
  intros (m & <- & Hm)%List.in_map_iff. unfold gen_var_methods in Hm. apply List.in_app_iff in Hm as [Hm|Hm]; [exists true|exists false];
    destruct (readable_access a), (writable_access a), (is_variable_length_type ty), (typed_info ty); try done; by destruct Hm as [<-|[]].
Qed.

Lemma array_method_name i n ty a c x : In x (map m_name (gen_array_methods i n ty a c)) → ∃ rd : bool, x = (if rd then str "read_" else str "write_") ++ n.
Proof.
  intros (m & <- & Hm)%List.in_map_iff. unfold gen_array_methods in Hm. apply List.in_app_iff in Hm as [Hm|Hm]; [exists true|exists false];
    destruct (readable_access a), (writable_access a), (typed_info ty); try done; by destruct Hm as [<-|[]].
Qed.

Lemma map_flat_map {A B C} (f : A → list B) (h : B → C) l : map h (flat_map f l) = flat_map (λ a, map h (f a)) l.
Proof. induction l as [|a l IH]; [done|]. cbn [flat_map]. by rewrite map_app, IH. Qed.

Section names.
Context {Expr : Type} (od : OdDefinition Expr) (Htyped : od_typed od) (Hvalid : validate od = Ok tt).

Lemma entry_method_name (e : OdEntry Expr) x : In x (map m_name (entry_methods e)) → ∃ rd rest, x = name_of rd (oe_index e) rest.
Proof using Type.
  unfold entry_methods. destruct (oe_kind e) as [v|subs|arr].
  - intros (rd & ->)%var_method_name. exists rd. by eexists.
  - rewrite map_flat_map. intros (s & _ & (rd & ->)%var_method_name)%List.in_flat_map. exists rd. by eexists.
  - intros (rd & ->)%array_method_name. exists rd. by eexists.
Qed.

Lemma entry_methods_NoDup (e : OdEntry Expr) : In e (od_entries od) → NoDup (map m_name (entry_methods e)).
Proof using Htyped Hvalid.
  intros He. unfold entry_methods. destruct (oe_kind e) as [v|subs|arr] eqn:Hk; [apply var_methods_NoDup| |apply array_methods_NoDup].
  destruct (valid_owners _ Hvalid) as (_ & Hsub & _). apply (proj1 (List.Forall_forall _ _) Hsub) in He as Hd.
  pose proof (proj1 (List.Forall_forall _ _) (ot_subs _ Htyped) _ He _ Hk) as Hu8.
  rewrite map_flat_map. apply (NoDup_flat_map _ sub_subindex); [by apply Hd|intros; apply var_methods_NoDup|].
  intros s s' x Hs Hs' (rd & ->)%var_method_name (rd' & Hx)%var_method_name.
  apply (proj1 (List.Forall_forall _ _) Hu8) in Hs as [Hs _], Hs' as [Hs' _].
  apply (name_inj rd rd' (oe_index e) (oe_index e) (str "s" ++ lower_hex 2 (sub_subindex s) ++ str "_" ++ sub_name s)
    (str "s" ++ lower_hex 2 (sub_subindex s') ++ str "_" ++ sub_name s')) in Hx as (_ & _ & Hx).
  - by apply sub_inj in Hx.
  - by apply (proj1 (List.Forall_forall _ _) (ot_index _ Htyped) _ He).
  - by apply (proj1 (List.Forall_forall _ _) (ot_index _ Htyped) _ He).
Qed.

Lemma names_distinct : NoDup (map m_name (generate_from_od od)).
Proof using Htyped Hvalid.
  unfold generate_from_od. rewrite map_flat_map. apply (NoDup_flat_map _ oe_index).
  - apply (valid_owners _ Hvalid).
  - apply entry_methods_NoDup.
  - intros e e' x He Hf (rd & rest & ->)%entry_method_name (rd' & rest' & Hx)%entry_method_name.
    apply name_inj in Hx as (_ & Hi & _); [done|..].
    + by apply (proj1 (List.Forall_forall _ _) (ot_index _ Htyped) _ He).
    + by apply (proj1 (List.Forall_forall _ _) (ot_index _ Htyped) _ Hf).
Qed.
End names.

(** ** Client and device *)

Section device.
Context {Expr : Type} (eval : list Z → Expr → Value) (eval_string : Expr → list Z) (eds : list Z).
Context (od : OdDefinition Expr) (g : Generated Expr).
Context (Htyped : od_typed od) (Hvalid : validate od = Ok tt) (Hret : generate eval eval_string eds od = Ret g).
Context (validate_fn : list Z → Dict → Z → Z → list Z → result unit OdError).

#[local] Instance device_od : ObjectDictionary (DictOf g) := generated_od g validate_fn.
#[local] Instance device_laws : OdLaws (DictOf g) := generated_laws g validate_fn.

Abbreviation at_addr := (row_at eds od g).
Abbreviation methods := (generate_from_od od).
Abbreviation holds := (stored eds od g).

Lemma flat_type x : In x (flatten (od_entries od)) → is_Some (type_to_datatype (type_name (fl_var x))).
Proof using Hret.
  intros Hx%list_elem_of_In. destruct (gf_tables _ _ _ _ _ _ _ (generated _ _ _ _ _ Hret)) as (arrays & flats & _ & Hf & _).
  apply list_elem_of_lookup in Hx as [k Hk]. destruct (Forall2_lookup_l _ _ _ _ _ Hf Hk) as (p & _ & Hp).
  unfold flat_piece, flat_meta in Hp. destruct (type_to_datatype (type_name (fl_var x))); [by eexists|done].
Qed.

Lemma array_type a : In a (collect_arrays (od_entries od)) →
  is_Some (type_to_datatype (element_type (ae_def a))) ∧ is_Some (type_size (element_type (ae_def a))).
Proof using Hret.
  intros Hx%list_elem_of_In. destruct (gf_tables _ _ _ _ _ _ _ (generated _ _ _ _ _ Hret)) as (arrays & flats & Ha & _).
  apply list_elem_of_lookup in Hx as [k Hk]. destruct (Forall2_lookup_l _ _ _ _ _ Ha Hk) as (p & _ & Hp).
  unfold array_pieces in Hp. destruct (type_to_datatype _); [|done]. cbn [unwrap mbind exec_bind] in Hp.
  destruct (type_size _); [|done]. by split; eexists.
Qed.

Lemma element_row a sub : In a (collect_arrays (od_entries od)) → 1 ≤ sub ≤ as_u8 (arr_count (ae_def a)) →
  at_addr (ae_index a) sub = Some (element_ent a sub).
Proof using Htyped Hvalid Hret.
  intros Ha Hs. apply (entry_at_in _ _ _ _ _ _ _ Htyped Hvalid (generated _ _ _ _ _ Hret)). split; [|done].
  unfold gen_entries, entries_of, array_record_ents. rewrite !List.in_app_iff. right. right. left. right.
  apply List.in_flat_map. exists a. split; [done|]. unfold array_ents. right. apply List.in_map, list_elem_of_In, elem_of_seqZ. lia.
Qed.

(** Every method addresses a row of its type and access. *)
Lemma method_row m sub i s : In m methods → method_addr m sub = Some (i, s) →
  ∃ e a, at_addr i s = Some e ∧ access (e_meta e) = access_type a ∧ method_fits m (data_type (e_meta e)) a.
Proof using Htyped Hvalid Hret.
  intros [(x & Hx & Hm)|(a & Ha & Hm)]%methods_of_entries Hs.
  - destruct (flat_type x Hx) as [dt Hdt]. destruct (var_methods_addr _ _ _ _ _ _ _ Hm Hdt) as (Haddr & Hfit & _).
    rewrite Haddr in Hs. injection Hs as <- <-. exists (flat_ent (use_alloc od) x), (vd_access (fl_var x)).
    split; [by apply (flat_row _ _ _ _ _ Htyped Hvalid Hret)|]. split; [done|]. simpl. by rewrite Hdt.
  - destruct (array_type a Ha) as [[dt Hdt] _]. destruct (array_methods_addr _ _ _ _ _ _ _ Hm Hdt) as (Haddr & Hfit & _).
    rewrite Haddr in Hs. destruct (in_range 1 _ sub) eqn:Hr; [|done]. injection Hs as <- <-. unfold in_range in Hr.
    exists (element_ent a sub), (arr_access (ae_def a)). split; [apply element_row; [done|lia]|]. split; [done|]. simpl. by rewrite Hdt.
Qed.

Lemma access_wo a : access_type a = Wo ↔ a = AccWo.
Proof using Type. by destruct a. Qed.

(** *** Reading *)

Context (EVT_QUEUE : nat) (ctx : SdoContext) (target : Z) (Htarget : wf_node target).

#[local] Instance device_can : AsyncCan (Loop (DictOf g)) loop_error := loop_can EVT_QUEUE ctx target.

Implicit Types (lp : Loop (DictOf g)).

(** What an upload of the stored bytes [b] into [n] bytes gives. *)
Definition received (b : list Z) (n : Z) : result (list Z) (SdoError loop_error) :=
  if BUF_LEN <? len b then Err (ErrAborted (AbortCode.to_u32 OutOfMemory))
  else if MAX_TRANSFER <? len b then Err ErrProtocol
  else if n <? len b then Err ErrTooLarge
  else Ok (map as_u8 b).

Lemma device_read (d : DictOf g) i s e :
  reachable g d → at_addr i s = Some e → access (e_meta e) ≠ Wo →
  od_read d i s (zeros BUF_LEN) =
  let v := default [] (holds d i s) in
  if BUF_LEN <? len v then (zeros BUF_LEN, Err ValueTooLong)
  else (map as_u8 (overwrite (zeros BUF_LEN) v), Ok (len v)).
Proof using Htyped Hvalid Hret.
  intros Hd He Ha. cbn [od_read device_od generated_od].
  rewrite (read_stored _ _ _ _ _ Htyped Hvalid Hret) by (by eapply reachable_ok). rewrite He, bool_decide_eq_false_2 by done.
  assert (len (zeros BUF_LEN) = BUF_LEN) as Hz by reflexivity. cbv zeta. rewrite Hz.
  set (v := default [] _). clearbody v. destruct (Z.ltb_spec BUF_LEN (len v)).
  - rewrite typed_read_id; [done|done|apply bytes_zeros|done|done].
  - unfold typed_read. rewrite overwrite_len, Z.eqb_refl by lia. cbn [andb].
    assert (in_range 0 (len (zeros BUF_LEN)) (len v) = true) as -> by (unfold in_range; lia). done.
Qed.

Lemma upload_receives lp i s e n :
  is_u16 i → is_u8 s → reachable g (lp_od lp) → takes_requests (lp_srv lp) → lp_rx lp = [] →
  at_addr i s = Some e → access (e_meta e) ≠ Wo →
  upload 40 (drv target) lp i s n = Ret (Some (settled lp, received (default [] (holds (lp_od lp) i s)) n)).
Proof using Htyped Hvalid Hret Htarget.
  intros Hi Hs Hd Hsrv Hrx He Ha.
  etransitivity; [exact (upload_reads EVT_QUEUE ctx target Htarget i s Hi Hs 40 lp n Hsrv Hrx ltac:(lia))|]. do 3 f_equal. unfold read_object. rewrite (device_read _ _ _ _ Hd He Ha). unfold received. set (v := default [] _). cbv zeta.
  destruct (Z.ltb_spec BUF_LEN (len v)); [done|]. destruct (MAX_TRANSFER <? len v); [done|]. destruct (n <? len v); [done|].
  f_equal. unfold overwrite. rewrite map_app, Nat2Z.id.
  assert (length (zeros BUF_LEN) = Z.to_nat BUF_LEN) as -> by reflexivity. rewrite (take_ge v) by lia.
  by rewrite take_app_length' by (by rewrite length_map).
Qed.

(** A reader's result, from the bytes the object holds. *)
Definition read_result (m : Method) (b : list Z) (n : Z) : result Value (SdoError loop_error) :=
  match method_type m with
  | Some t => Ok (decode (scalar_type t) b)
  | None => match received b n with Ok v => Ok (VBytes v) | Err e => Err e end
  end.

Lemma upload_split lp i s n st r :
  upload 40 (drv target) lp i s n = Ret (Some (st, r)) →
  match r with
  | Ok v => ∃ b, upload_impl 40 (drv target) lp i s n = Ret (Some (st, Ok (v, b)))
  | Err e => upload_impl 40 (drv target) lp i s n = Ret (Some (st, Err e))
  end.
Proof using Type.
  unfold upload. destruct (upload_impl _ _ _ _ _ _) as [[[st' [[v b]|e]]|]|]; rstep; try done.
  - intros [= <- <-]. by exists b.
  - by intros [= <- <-].
Qed.

Lemma scalar_bytes t v : bytes (encode (scalar_type t) v) ∧ DataType.size (scalar_type t) = Some (len (encode (scalar_type t) v)) ∧
  len (encode (scalar_type t) v) ≤ 8.
Proof using Type.
  split; [|by destruct t, v]. unfold encode. destruct (DataType.size (scalar_type t)) eqn:Hn; [|by destruct t].
  case_bool_decide; [|apply bytes_to_le]. apply List.Forall_cons; [|apply List.Forall_nil]. destruct (truth v); unfold is_uint; lia.
Qed.

Lemma stored_at (d : DictOf g) i s e : at_addr i s = Some e →
  holds d i s = Some (encode (data_type (e_meta e)) (get_loc d (e_loc e))).
Proof using Type. intros He. unfold stored. by rewrite He. Qed.

Lemma method_address m sub i s : In m methods → method_addr m sub = Some (i, s) → is_u16 i ∧ is_u8 s.
Proof using Htyped Hret.
  intros [(x & Hx & Hm)|(a & Ha & Hm)]%methods_of_entries Hs.
  - destruct (flat_type x Hx) as [dt Hdt]. destruct (var_methods_addr _ _ _ _ _ _ _ Hm Hdt) as (Haddr & _).
    rewrite Haddr in Hs. injection Hs as <- <-. by apply (flat_typed _ Htyped).
  - destruct (array_type a Ha) as [[dt Hdt] _]. destruct (array_methods_addr _ _ _ _ _ _ _ Hm Hdt) as (Haddr & _).
    rewrite Haddr in Hs. destruct (in_range 1 _ sub) eqn:Hr; [|done]. injection Hs as <- <-. unfold in_range in Hr.
    pose proof (wrap_range 8 (arr_count (ae_def a)) ltac:(lia)) as Hw. unfold is_uint in *. split; [|lia].
    destruct (array_index_In _ a Ha) as (e & He & <-). by apply (proj1 (List.Forall_forall _ _) (ot_index _ Htyped) _ He).
Qed.

Lemma reader_reads m sub lp i s n :
  reachable g (lp_od lp) → takes_requests (lp_srv lp) → lp_rx lp = [] →
  In m methods → reads m = true → method_addr m sub = Some (i, s) →
  call_reader 40 m (client_new target) lp sub n =
    Ret (Some (settled lp, read_result m (default [] (holds (lp_od lp) i s)) n)).
Proof using Htyped Hvalid Hret Htarget.
  intros Hd Hsrv Hrx Hm Hr Hs. destruct (method_address _ _ _ _ Hm Hs) as [Hi Hu].
  destruct (method_row _ _ _ _ Hm Hs) as (e & a & He & Ha & Hty & Hacc). rewrite Hr in Hacc.
  assert (access (e_meta e) ≠ Wo) as Hwo by (by rewrite Ha, access_wo).
  assert (∀ k, upload 40 (drv target) lp i s k = Ret (Some (settled lp, received (default [] (holds (lp_od lp) i s)) k))) as Hup
    by (intros; by eapply upload_receives).
  assert (∀ t, method_type m = Some t →
    driver_read 40 t (drv target) lp i s = Ret (Some (settled lp, Ok (decode (scalar_type t) (default [] (holds (lp_od lp) i s)))))) as Hsc.
  { intros t Ht. rewrite Ht in Hty. specialize (Hup 8). rewrite (stored_at _ _ _ _ He), Hty in *. cbn [default from_option id] in *.
    destruct (scalar_bytes t (get_loc (lp_od lp) (e_loc e))) as (Hb & Hsz & Hl).
    unfold received, MAX_TRANSFER, BUF_LEN in Hup. rewrite !(proj2 (Z.ltb_ge _ _)) in Hup by lia. rewrite map_u8_id in Hup by done.
    apply upload_split in Hup as [b Hup]. by eapply typed_read_ok. }
  unfold call_reader, read_result, reads, method_type, method_addr in *. unfold client_new. change (driver_new target) with (drv target).
  destruct (m_access m) as [k|t k|t c| | |]; try done.
  - injection Hs as -> ->. rewrite Hup. unfold map_ok. rstep. by destruct (received _ _).
  - injection Hs as -> ->. by apply Hsc.
  - destruct (in_range 1 c sub) eqn:Hin; [|done]. injection Hs as -> ->. rstep. by apply Hsc.
Qed.

(** *** Writing *)

(** An argument in the range of the object's type, which for 24 bits is less than
    that of the Rust type; a byte slice fits the transfer. *)
Definition argument_ok (m : Method) (v : Value) : Prop :=
  match method_type m with
  | Some t => value_ok (scalar_type t) v
  | None => match v with VBytes l => bytes l ∧ len l ≤ MAX_TRANSFER | _ => False end
  end.

Lemma writer_writes m sub v lp i s e :
  takes_requests (lp_srv lp) → lp_rx lp = [] → locked ctx i = false →
  In m methods → reads m = false → method_addr m sub = Some (i, s) → argument_ok m v → at_addr i s = Some e →
  let r := write_object EVT_QUEUE ctx lp i s (encode (data_type (e_meta e)) v) in
  value_ok (data_type (e_meta e)) v ∧ bytes (encode (data_type (e_meta e)) v) ∧
  call_writer 40 m (client_new target) lp sub v = Ret (Some (fst r, driver_result (snd r))).
Proof using Htyped Hvalid Hret Htarget.
  intros Hsrv Hrx Hlock Hm Hw Hs Hv He. destruct (method_address _ _ _ _ Hm Hs) as [Hi Hu].
  destruct (method_row _ _ _ _ Hm Hs) as (e' & a & He' & _ & Hty & _). rewrite He in He'. injection He' as <-.
  assert (value_ok (data_type (e_meta e)) v ∧ len (encode (data_type (e_meta e)) v) ≤ MAX_TRANSFER) as [Hok Hl].
  { unfold argument_ok in Hv. destruct (method_type m) as [t|].
    - rewrite Hty. split; [done|]. destruct (scalar_bytes t v) as (_ & _ & Hl8). unfold MAX_TRANSFER. lia.
    - unfold value_ok, encode. rewrite Hty. by destruct v. }
  intros r. pose proof (encode_bytes _ _ Hok) as Hb. split; [done|]. split; [done|].
  assert (download 40 (drv target) lp i s (encode (data_type (e_meta e)) v) = Ret (Some (fst r, driver_result (snd r)))) as Hd.
  { exact (download_writes EVT_QUEUE ctx target Htarget i s _ Hi Hu Hb Hl 40 lp Hsrv Hlock Hrx ltac:(unfold MAX_TRANSFER in *; lia)). }
  assert (∀ t, method_type m = Some t → driver_write 40 t (drv target) lp i s v = Ret (Some (fst r, driver_result (snd r)))) as Hsc.
  { intros t Ht. rewrite Ht in Hty. rewrite typed_write, <- Hty. exact Hd. }
  unfold call_writer, reads, method_type, method_addr in *. unfold client_new. change (driver_new target) with (drv target).
  destruct (m_access m) as [| | |k|t k|t c]; try done.
  - injection Hs as -> ->. unfold encode in Hd at 1. by rewrite Hty in Hd.
  - injection Hs as -> ->. by apply Hsc.
  - destruct (in_range 1 c sub) eqn:Hin; [|done]. injection Hs as -> ->. rstep. by apply Hsc.
Qed.

(** The device after a write. *)
Lemma device_writes lp i s e v :
  reachable g (lp_od lp) → at_addr i s = Some e → bytes v →
  let '(lp', r) := write_object EVT_QUEUE ctx lp i s v in
  reachable g (lp_od lp') ∧ takes_requests (lp_srv lp') ∧ lp_rx lp' = [] ∧
  match r with
  | Ok _ => holds (lp_od lp') i s = Some (canonical (data_type (e_meta e)) v) ∧
      (∀ i' s', (i', s') ≠ (i, s) → holds (lp_od lp') i' s' = holds (lp_od lp) i' s')
  | Err _ => lp_od lp' = lp_od lp
  end.
Proof using Htyped Hvalid Hret.
  intros Hd He Hb. pose proof (reachable_ok _ _ _ _ _ Htyped Hvalid Hret _ Hd) as Hok. unfold write_object.
  destruct (validate_download _ _ _ _ _) as [|c]; [|done]. cbn [od_write device_od generated_od]. rewrite map_u8_id by done.
  pose proof (write_row _ _ _ _ _ Htyped Hvalid Hret _ i s v Hok Hb) as Hw.
  destruct (gen_write g (lp_od lp) i s v) as [[d' r]|] eqn:Hg; [|done]. clear Hw.
  pose proof (reach_write _ _ _ _ _ _ _ Hd Hb Hg) as Hd'.
  pose proof (write_stored _ _ _ _ _ Htyped Hvalid Hret _ _ _ _ _ _ Hok Hb Hg) as Hst.
  destruct r as [[]|x]; simpl; [|by rewrite Hst].
  destruct Hst as (e' & He' & _ & _ & _ & Hst & Hother). rewrite He in He'. by injection He' as <-.
Qed.

Lemma reads_back rd w sub sub' i s e v n :
  In rd methods → In w methods → method_addr rd sub' = Some (i, s) → method_addr w sub = Some (i, s) →
  at_addr i s = Some e → argument_ok w v → value_ok (data_type (e_meta e)) v → len (content v) ≤ n →
  read_result rd (canonical (data_type (e_meta e)) (encode (data_type (e_meta e)) v)) n = Ok v.
Proof using Htyped Hvalid Hret.
  intros Hrd Hw Hsr Hsw He Harg Hv Hn.
  destruct (method_row _ _ _ _ Hrd Hsr) as (e1 & _ & He1 & _ & Hty & _), (method_row _ _ _ _ Hw Hsw) as (e2 & _ & He2 & _ & Hty' & _).
  rewrite He in He1, He2. injection He1 as <-. injection He2 as <-. unfold read_result.
  destruct (method_type rd) as [t|]; [by rewrite <- Hty, decode_canonical|]. unfold argument_ok in Harg.
  destruct (method_type w) as [t|]; [rewrite Hty' in Hty; by destruct t|]. destruct v as [|z|l]; [done..|]. destruct Harg as [Hb Hl].
  unfold encode. rewrite Hty. unfold canonical. rewrite bool_decide_eq_false_2 by (intros Hx; by rewrite Hx in Hty).
  simpl in *. unfold received, MAX_TRANSFER, BUF_LEN in *. rewrite !(proj2 (Z.ltb_ge _ _)) by lia. by rewrite map_u8_id.
Qed.

(** The value that a reader of address [a] returns after a write of [v] to
    [i, s], if it returned [r] before. *)
Definition after_write (i s : Z) (v : Value) (a : Z * Z) (r : result Value (SdoError loop_error)) :
    result Value (SdoError loop_error) :=
  if decide (a = (i, s)) then Ok v else r.

(** C14. The SDO client and the device generated from one definition understand
    each other: whatever state the device's dictionary is in, calling a writer
    of the client with any value of the object's type ends with the server ready
    for the next request; when it succeeds, every reader for the written object
    returns the value passed (strings: into a buffer that holds it), and every
    other reader what it returned before; when it fails, the dictionary is
    unchanged.  Nothing panics, and 40 iterations are enough. *)
Theorem sdo_client_round_trip w sub v i s lp :
  In w methods → reads w = false → method_addr w sub = Some (i, s) → argument_ok w v →
  reachable g (lp_od lp) → takes_requests (lp_srv lp) → lp_rx lp = [] → locked ctx i = false →
  ∃ lp' r, call_writer 40 w (client_new target) lp sub v = Ret (Some (lp', r)) ∧
    reachable g (lp_od lp') ∧ takes_requests (lp_srv lp') ∧ lp_rx lp' = [] ∧
    match r with
    | Ok _ => ∀ rd sub' n a, In rd methods → reads rd = true → method_addr rd sub' = Some a → len (content v) ≤ n →
        ∃ before, call_reader 40 rd (client_new target) lp sub' n = Ret (Some (settled lp, before)) ∧
          call_reader 40 rd (client_new target) lp' sub' n = Ret (Some (settled lp', after_write i s v a before))
    | Err _ => lp_od lp' = lp_od lp
    end.
Proof using Htyped Hvalid Hret Htarget.
  intros Hw Hr Hs Hv Hd Hsrv Hrx Hlock. destruct (method_row _ _ _ _ Hw Hs) as (e & _ & He & _).
  destruct (writer_writes w sub v lp i s e Hsrv Hrx Hlock Hw Hr Hs Hv He) as (Hok & Hb & Hcall).
  pose proof (device_writes lp i s e _ Hd He Hb) as Hdev. destruct (write_object _ _ _ _ _ _) as [lp' r].
  destruct Hdev as (Hd' & Hsrv' & Hrx' & Hres). exists lp', (driver_result r). split; [exact Hcall|].
  split; [done|]. split; [done|]. split; [done|]. destruct r as [[]|c]; [|done]. destruct Hres as [Hst Hother].
  intros rd sub' n [i' s'] Hrd Hrr Hsr Hn. eexists. split; [by apply (reader_reads rd sub' lp i' s')|].
  rewrite (reader_reads rd sub' lp' i' s') by done. do 3 f_equal. unfold after_write. case_decide as Ha.
  - injection Ha as -> ->. rewrite Hst. cbn [default from_option id]. by eapply (reads_back rd w sub sub').
  - by rewrite Hother.
Qed.

(** ** The methods *)

(** An object the definition declares, with its access. *)
Definition declared (i s : Z) (a : AccessKind) : Prop :=
  (∃ x, In x (flatten (od_entries od)) ∧ fl_index x = i ∧ fl_subindex x = s ∧ vd_access (fl_var x) = a) ∨
  (∃ arr, In arr (collect_arrays (od_entries od)) ∧ ae_index arr = i ∧ 1 ≤ s ≤ as_u8 (arr_count (ae_def arr)) ∧
     arr_access (ae_def arr) = a).

(** The methods of a generated SDO client have distinct names, and address
    exactly the declared objects: readers all but the write-only ones, writers
    those declared [rw] or [wo]. *)
Theorem sdo_client_methods :
  NoDup (map m_name methods) ∧
  ∀ (rd : bool) i s,
    (∃ m sub, In m methods ∧ reads m = rd ∧ method_addr m sub = Some (i, s)) ↔
    (∃ a, declared i s a ∧ if rd then a ≠ AccWo else a = AccRw ∨ a = AccWo).
Proof using Htyped Hvalid Hret.
  split; [by apply names_distinct|]. intros rd i s. split.
  - intros (m & sub & Hm & <- & Hs). pose proof Hm as [(x & Hx & Hin)|(a & Ha & Hin)]%methods_of_entries.
    + destruct (flat_type x Hx) as [dt Hdt]. destruct (var_methods_addr _ _ _ _ _ _ _ Hin Hdt) as (Haddr & [_ Hacc] & _).
      rewrite Haddr in Hs. injection Hs as <- <-. eexists. split; [left; by exists x|done].
    + destruct (array_type a Ha) as [[dt Hdt] _]. destruct (array_methods_addr _ _ _ _ _ _ _ Hin Hdt) as (Haddr & [_ Hacc] & _).
      rewrite Haddr in Hs. destruct (in_range 1 _ sub) eqn:Hr; [|done]. injection Hs as <- <-. unfold in_range in Hr.
      eexists. split; [right; exists a; split; [done|]; split; [done|]; split; [lia|done]|done].
  - intros (a & [(x & Hx & <- & <- & <-)|(arr & Ha & <- & Hs & <-)] & Hacc).
    + destruct (flat_type x Hx) as [dt Hdt].
      destruct (var_methods_complete (fl_index x) (fl_subindex x) (fixed_name (fl_index x) (fl_subindex x) (fl_name x)) _ _ dt rd Hdt Hacc)
        as (m & Hm & Hrd). exists m, 0. split; [apply methods_of_entries; left; by exists x|]. split; [done|].
      by destruct (var_methods_addr _ _ _ _ _ _ _ Hm Hdt) as (-> & _).
    + destruct (array_type arr Ha) as [[dt Hdt] [size Hsize]].
      destruct (array_methods_complete (ae_index arr) (array_name (ae_index arr) (ae_name arr)) _ _ (arr_count (ae_def arr)) dt rd size Hdt Hsize Hacc)
        as (m & Hm & Hrd). exists m, s. split; [apply methods_of_entries; right; by exists arr|]. split; [done|].
      destruct (array_methods_addr _ _ _ _ _ _ _ Hm Hdt) as (-> & _). unfold in_range.
      by rewrite !(proj2 (Z.leb_le _ _)) by lia.
Qed.
End device.

(** ** The concrete definition *)

Example method_names :
  map m_name (generate_from_od demo_od) =
  [str "read_i1001_s00_error_register"; str "read_i1005_s00_sync_cob"; str "write_i1005_s00_sync_cob";
   str "read_i1008_s00_device_name"; str "write_i1008_s00_device_name"; str "read_i2000_s00_speed";
   str "write_i2000_s00_speed"; str "read_i2001_s01_gains_p"; str "write_i2001_s01_gains_p";
   str "read_i2001_s03_gains_on"; str "write_i2001_s03_gains_on"; str "read_i2100_table"; str "write_i2100_table"].
Proof. vm_compute. reflexivity. Qed.

Section demo.
Context (g : Generated Z).

#[local] Instance demo_device_od : ObjectDictionary (DictOf g) := generated_od g (λ _ _ _ _ _, Ok tt).
#[local] Instance demo_device_can : AsyncCan (Loop (DictOf g)) loop_error := loop_can 4 (demo_ctx Operational) 5.

Definition demo_device_loop : Loop (DictOf g) := mkLoop SdoServerState.new (g_new g : DictOf g) [] [].

(** [write_i2001_s01_gains_p], [read_i2001_s01_gains_p], [read_i2100_table]. *)
Definition demo_writer : Method := mkMethod (str "write_i2001_s01_gains_p") 0x2001 (WriteScalar ScI24 1).
Definition demo_reader : Method := mkMethod (str "read_i2001_s01_gains_p") 0x2001 (ReadScalar ScI24 1).
Definition demo_element_reader : Method := mkMethod (str "read_i2100_table") 0x2100 (ReadElement ScU16 4).

Definition demo_call (v : Value) := call_writer 40 demo_writer (client_new 5) demo_device_loop 0 v.
Definition demo_reading (m : Method) (lp : Loop (DictOf g)) (sub : Z) : option (result Value (SdoError loop_error)) :=
  match call_reader 40 m (client_new 5) lp sub 0 with Ret (Some (_, r)) => Some r | _ => None end.
End demo.

(** Set to -5, read back; the array keeps its elements. *)
Example demo_set_get :
  match demo_generate with
  | Ret g =>
      match demo_call g (VNum (-5)) with
      | Ret (Some (lp, Ok _)) =>
          demo_reading g demo_reader lp 0 = Some (Ok (VNum (-5))) ∧
          demo_reading g demo_element_reader lp 4 = Some (Ok (VNum 0)) ∧
          demo_reading g demo_element_reader lp 5 = None
      | _ => False
      end
  | Panic => False
  end.
Proof. vm_compute. split; [|split]; reflexivity. Qed.

Lemma sdo_client_round_trip_witness :
  demo_holds (λ g, ∃ lp r, demo_call g (VNum (-5)) = Ret (Some (lp, r)) ∧
    match r with
    | Ok _ => demo_reading g demo_reader lp 0 = Some (Ok (VNum (-5)))
    | Err _ => lp_od lp = g_new g
    end).
Proof.
  apply demo_intro. intros g Hg.
  destruct (sdo_client_round_trip demo_eval demo_string demo_eds demo_od g demo_typed eq_refl Hg (λ _ _ _ _ _, Ok tt) 4
    (demo_ctx Operational) 5 ltac:(unfold wf_node; lia) demo_writer 0 (VNum (-5)) 0x2001 1 (demo_device_loop g))
    as (lp & r & Hcall & _ & _ & _ & Hres);
    [vm_compute; tauto|reflexivity|reflexivity|split; [discriminate|vm_compute; split; discriminate || reflexivity]|exact (reach_new g)|exact I|reflexivity|reflexivity|].
  exists lp, r. split; [exact Hcall|]. destruct r; [|exact Hres].
  destruct (Hres demo_reader 0 0 (0x2001, 1)) as (before & _ & Hread); [vm_compute; tauto|reflexivity|reflexivity|simpl; lia|].
  exact (f_equal (λ x, match x with Ret (Some (_, r)) => Some r | _ => None end) Hread).
Defined.

Lemma sdo_client_methods_witness :
  demo_holds (λ _, NoDup (map m_name (generate_from_od demo_od)) ∧
    ∃ m sub, In m (generate_from_od demo_od) ∧ reads m = true ∧ method_addr m sub = Some (0x2100, 4)).
Proof.
  apply demo_intro. intros g Hg.
  destruct (sdo_client_methods demo_eval demo_string demo_eds demo_od g demo_typed eq_refl Hg) as [Hn Hm]. split; [exact Hn|].
  apply Hm. exists AccRw. split; [right|done]. eexists. split; [by left|]. vm_compute. repeat split; discriminate.
Defined.
