(* ===== verification/Slcan.v ===== *)
(** * SLCAN, the text protocol of serial CAN adapters

    [canopen-core/src/slcan/logic.rs] (encoding and parsing of a line) and
    [slcan/serial.rs] (the transport over a byte stream).  ASCII characters are
    their codes.  The state of [SlcanTransport] keeps the valid prefix of the
    receive buffer, [rx_buf[..rx_pos]]: the bytes behind it are never read.
    The serial port is the class [SerialPort]. *)
From S2P Require Import Prelude Frame.

Definition CR : Z := 13.
Definition ch_0 : Z := 48.
Definition ch_A : Z := 65.
Definition ch_a : Z := 97.
Definition ch_t : Z := 116.

Inductive SlcanBitrate := S0 | S1 | S2 | S3 | S4 | S5 | S6 | S7 | S8.

Definition SlcanBitrate_code (b : SlcanBitrate) : Z :=
  match b with
  | S0 => 0 | S1 => 1 | S2 => 2 | S3 => 3 | S4 => 4 | S5 => 5 | S6 => 6 | S7 => 7 | S8 => 8
  end.

(** ** Lines *)

(** [b'0' + val] is a checked [u8] sum of the unmasked value. *)
Definition hex_digit (val : Z) : exec Z :=
  let low := Z.land val 0x0F in
  if in_range 0 9 low then checked 8 (ch_0 + val)
  else if in_range 10 15 low then d ← checked 8 (val - 10); checked 8 (ch_A + d)
  else mret ch_0.

Definition parse_hex_digit (ch : Z) : option Z :=
  if in_range ch_0 57 ch then Some (ch - ch_0)
  else if in_range ch_a 102 ch then Some (ch - ch_a + 10)
  else if in_range ch_A 70 ch then Some (ch - ch_A + 10)
  else None.

(** The test on one window of five bytes. *)
Definition slcan_window (w : list Z) : bool :=
  (at_ w 0 =? ch_t)
  && bool_decide (is_Some (parse_hex_digit (at_ w 1)))
  && bool_decide (is_Some (parse_hex_digit (at_ w 2)))
  && bool_decide (is_Some (parse_hex_digit (at_ w 3)))
  && (ch_0 <=? at_ w 4) && (at_ w 4 <=? 56).

(** [buf.windows(5)]: the windows starting at each byte. *)
Fixpoint has_slcan_frame (buf : list Z) : bool :=
  if (length buf <? 5)%nat then false
  else match buf with
       | [] => false
       | _ :: buf' => slcan_window (take 5 buf) || has_slcan_frame buf'
       end.

(** [out[pos] = v; pos += 1] *)
Definition put (out : list Z) (pos v : Z) : exec (list Z * Z) :=
  if (0 <=? pos) && (pos <? len out) then mret (set_at out (Z.to_nat pos) v, pos + 1) else Panic.

Fixpoint encode_data (data out : list Z) (pos : Z) : exec (list Z * Z) :=
  match data with
  | [] => mret (out, pos)
  | b :: data =>
      h ← hex_digit (Z.shiftr b 4); '(out, pos) ← put out pos h;
      l ← hex_digit (Z.land b 0x0F); '(out, pos) ← put out pos l;
      encode_data data out pos
  end.

(** The buffer afterwards and, on success, the number of bytes written. *)
Definition encode_slcan_frame (frame : CanFrame) (out : list Z) : exec (list Z * option Z) :=
  let data := CanFrame.data frame in
  let needed := 6 + len data * 2 in
  if len out <? needed then mret (out, None)
  else
    let id := CanFrame.raw_id frame in
    '(out, pos) ← put out 0 ch_t;
    d ← hex_digit (Z.land (as_u8 (Z.shiftr id 8)) 0x0F); '(out, pos) ← put out pos d;
    d ← hex_digit (Z.land (as_u8 (Z.shiftr id 4)) 0x0F); '(out, pos) ← put out pos d;
    d ← hex_digit (Z.land (as_u8 id) 0x0F); '(out, pos) ← put out pos d;
    d ← checked 8 (ch_0 + CanFrame.raw_dlc frame); '(out, pos) ← put out pos d;
    '(out, pos) ← encode_data data out pos;
    '(out, pos) ← put out pos CR;
    mret (out, Some pos).

(** [strip_suffix(b"\r").unwrap_or(line)] *)
Definition strip_cr (line : list Z) : list Z :=
  match list.last line with
  | Some c => if c =? CR then removelast line else line
  | None => line
  end.

(** The loop over the data bytes, from byte [i] on. *)
Fixpoint parse_data (line : list Z) (i n : nat) : option (list Z) :=
  match n with
  | O => Some []
  | S n =>
      h ← parse_hex_digit (at_ line (5 + i * 2));
      l ← parse_hex_digit (at_ line (6 + i * 2));
      rest ← parse_data line (S i) n;
      Some (Z.lor (as_u8 (Z.shiftl h 4)) l :: rest)
  end.

Definition is_timestamp (suffix : list Z) : bool :=
  (len suffix =? 4) && forallb (λ b, bool_decide (is_Some (parse_hex_digit b))) suffix.

Definition parse_slcan_frame (line : list Z) : option CanFrame :=
  let line := strip_cr line in
  if len line =? 0 then None
  else if negb (at_ line 0 =? ch_t) then None
  else if len line <? 5 then None
  else
    a ← parse_hex_digit (at_ line 1);
    b ← parse_hex_digit (at_ line 2);
    c ← parse_hex_digit (at_ line 3);
    let id := Z.lor (Z.lor (as_u16 (Z.shiftl a 8)) (as_u16 (Z.shiftl b 4))) c in
    if at_ line 4 <? ch_0 then None
    else
      let dlc := at_ line 4 - ch_0 in
      if 8 <? dlc then None
      else if len line <? 5 + dlc * 2 then None
      else
        let suffix := drop (Z.to_nat (5 + dlc * 2)) line in
        if negb (len suffix =? 0) && negb (is_timestamp suffix) then None
        else
          data ← parse_data line 0 (Z.to_nat dlc);
          CanFrame.new id data.

(** ** The transport *)

(** [port_read p n] is a read into a slice of [n] bytes: the bytes delivered.
    Errors carry no information the transport uses. *)
Class SerialPort (P : Type) := {
  port_read : P → Z → P * result (list Z) unit;
  port_write_all : P → list Z → P * result unit unit;
}.

Section transport.
Context {P : Type} `{SerialPort P}.

Record SlcanTransport := mkSlcan { port : P; rx : list Z; discarding_line : bool }.

Definition RX_BUF : Z := 256.

Definition new (p : P) : SlcanTransport := mkSlcan p [] false.

Definition write (t : SlcanTransport) (bytes : list Z) : SlcanTransport * result unit unit :=
  let '(p, r) := port_write_all (port t) bytes in (mkSlcan p (rx t) (discarding_line t), r).

Definition send_close (t : SlcanTransport) : SlcanTransport * result unit unit := write t [67; CR].

Definition send_bitrate (t : SlcanTransport) (bitrate : SlcanBitrate) : SlcanTransport * result unit unit :=
  write t [83; ch_0 + SlcanBitrate_code bitrate; CR].

Definition send_open (t : SlcanTransport) : SlcanTransport * result unit unit := write t [79; CR].

(** The loop of [drain_rx]; [None] when [fuel] reads did not drain the port. *)
Fixpoint drain_port (fuel : nat) (p : P) : option P :=
  match fuel with
  | O => None
  | S fuel =>
      match port_read p 64 with
      | (p, Ok d) => if 0 <? len d then drain_port fuel p else Some p
      | (p, Err _) => Some p
      end
  end.

Definition drain_rx (fuel : nat) (t : SlcanTransport) : option SlcanTransport :=
  p ← drain_port fuel (port t); Some (mkSlcan p [] false).

(** [iter().position(|&b| b == b'\r')] *)
Fixpoint cr_position (b : list Z) : option nat :=
  match b with
  | [] => None
  | x :: b => if x =? CR then Some O else S <$> cr_position b
  end.

(** The [while] loop of [take_buffered_frame], on the buffered bytes; each
    round removes a delimiter. *)
Fixpoint take_lines (fuel : nat) (buf : list Z) (discarding : bool) : list Z * bool * option CanFrame :=
  match fuel with
  | O => (buf, discarding, None)
  | S fuel =>
      match cr_position buf with
      | None => (buf, discarding, None)
      | Some cr_pos =>
          let frame := if discarding then None else parse_slcan_frame (take cr_pos buf) in
          let buf := drop (S cr_pos) buf in
          match frame with
          | Some f => (buf, false, Some f)
          | None => take_lines fuel buf false
          end
      end
  end.

Definition take_buffered_frame (t : SlcanTransport) : SlcanTransport * option CanFrame :=
  match take_lines (S (length (rx t))) (rx t) (discarding_line t) with
  | (buf, d, Some f) => (mkSlcan (port t) buf d, Some f)
  | (buf, d, None) =>
      if len buf =? RX_BUF then (mkSlcan (port t) [] true, None) else (mkSlcan (port t) buf d, None)
  end.

Definition try_recv (t : SlcanTransport) : SlcanTransport * result (option CanFrame) unit :=
  match take_buffered_frame t with
  | (t, Some frame) => (t, Ok (Some frame))
  | (t, None) =>
      let space := RX_BUF - len (rx t) in
      if 0 <? space then
        match port_read (port t) space with
        | (p, Err e) => (mkSlcan p (rx t) (discarding_line t), Err e)
        | (p, Ok d) =>
            let '(t, f) := take_buffered_frame (mkSlcan p (rx t ++ d) (discarding_line t)) in (t, Ok f)
        end
      else let '(t, f) := take_buffered_frame t in (t, Ok f)
  end.

Definition transmit (t : SlcanTransport) (frame : CanFrame)
    : exec (SlcanTransport * result (option CanFrame) nb_error) :=
  '(cmd, pos) ← encode_slcan_frame frame (zeros 32);
  match pos with
  | None => mret (t, Err (Other BusError))
  | Some pos =>
      line ← slice cmd 0 pos;
      mret (match write t line with
            | (t, Ok _) => (t, Ok None)
            | (t, Err _) => (t, Err (Other BusError))
            end)
  end.

Definition receive (t : SlcanTransport) : SlcanTransport * result CanFrame nb_error :=
  match try_recv t with
  | (t, Err _) => (t, Err (Other BusError))
  | (t, Ok None) => (t, Err WouldBlock)
  | (t, Ok (Some f)) => (t, Ok f)
  end.

End transport.
Arguments SlcanTransport P : clear implicits.

(** ** Lines: encoding and parsing are inverse *)

Definition hex_char (v : Z) : Z := if v <=? 9 then ch_0 + v else 55 + v.

Definition hex_byte (b : Z) : list Z := [hex_char (Z.shiftr b 4); hex_char (Z.land b 0x0F)].

(** The text of a frame, without its delimiter. *)
Definition frame_text (id : Z) (data : list Z) : list Z :=
  ch_t :: hex_char (Z.shiftr id 8) :: hex_char (Z.land (Z.shiftr id 4) 0x0F) :: hex_char (Z.land id 0x0F)
  :: ch_0 + len data :: concat (hex_byte <$> data).

Definition hex_ok (v : Z) : bool :=
  match hex_digit v with Ret c => c =? hex_char v | Panic => false end && bool_decide (parse_hex_digit (hex_char v) = Some v)
  && (47 <? hex_char v).

Lemma hex_nibble v : 0 ≤ v < 16 →
  hex_digit v = Ret (hex_char v) ∧ parse_hex_digit (hex_char v) = Some v ∧ 47 < hex_char v.
Proof.
  intros Hv. assert (forallb hex_ok (seqZ 0 16) = true) as H by (vm_compute; reflexivity).
  rewrite forallb_forall in H. specialize (H v). unfold hex_ok in H.
  rewrite !andb_true_iff, bool_decide_eq_true, Z.ltb_lt in H.
  destruct H as [[H ?] ?]; [apply list_elem_of_In, elem_of_seqZ; lia|].
  destruct (hex_digit v); [|done]. by apply Z.eqb_eq in H as ->.
Qed.

Definition byte_hex_ok (b : Z) : bool :=
  (Z.lor (as_u8 (Z.shiftl (Z.shiftr b 4) 4)) (Z.land b 0x0F) =? b)
  && in_range 0 15 (Z.shiftr b 4) && in_range 0 15 (Z.land b 0x0F).

Lemma byte_hex b : is_u8 b →
  Z.lor (as_u8 (Z.shiftl (Z.shiftr b 4) 4)) (Z.land b 0x0F) = b ∧
  0 ≤ Z.shiftr b 4 < 16 ∧ 0 ≤ Z.land b 0x0F < 16.
Proof.
  intros Hb. assert (forallb byte_hex_ok (seqZ 0 256) = true) as H by (vm_compute; reflexivity).
  pose proof (byte_forall _ H b Hb) as Hok. unfold byte_hex_ok, in_range in Hok. lia.
Qed.

Definition id_hex_ok (id : Z) : bool :=
  let a := Z.shiftr id 8 in let b := Z.land (Z.shiftr id 4) 0x0F in let c := Z.land id 0x0F in
  (Z.lor (Z.lor (as_u16 (Z.shiftl a 8)) (as_u16 (Z.shiftl b 4))) c =? id)
  && (Z.land (as_u8 a) 0x0F =? a) && (Z.land (as_u8 (Z.shiftr id 4)) 0x0F =? b)
  && (Z.land (as_u8 id) 0x0F =? c) && in_range 0 15 a && in_range 0 15 b && in_range 0 15 c.

Lemma id_hex id : 0 ≤ id ≤ 0x7FF → id_hex_ok id = true.
Proof.
  intros Hid. apply cob_forall; [|done]. vm_compute. reflexivity.
Qed.

(** ** Encoding *)

(** A buffer is the part already written and the rest. *)
Lemma put_app pre x post v pos :
  pos = len pre → put (pre ++ x :: post) pos v = Ret ((pre ++ [v]) ++ post, pos + 1).
Proof.
  intros ->. unfold put. rewrite length_app. cbn [length].
  rewrite (proj2 (Z.leb_le 0 _)), (proj2 (Z.ltb_lt _ _)) by lia. cbn [andb].
  unfold set_at. rewrite Nat2Z.id, insert_app_r_alt, Nat.sub_diag by lia. simpl.
  by rewrite <- app_assoc.
Qed.

Lemma length_hex_bytes data : length (concat (hex_byte <$> data)) = (2 * length data)%nat.
Proof. induction data as [|b data IH]; [done|]. rewrite fmap_cons. cbn [concat]. rewrite length_app, IH. simpl. lia. Qed.

Lemma encode_data_app data pre junk post :
  bytes data → length junk = (2 * length data)%nat →
  encode_data data (pre ++ junk ++ post) (len pre)
  = Ret ((pre ++ concat (hex_byte <$> data)) ++ post, len pre + 2 * len data).
Proof.
  intros Hd. revert pre junk. induction Hd as [|b data Hb _ IH]; intros pre junk Hj.
  - destruct junk; [|done]. simpl. rewrite app_nil_r. do 2 f_equal. lia.
  - destruct junk as [|x [|y junk]]; simpl in Hj; try lia.
    destruct (byte_hex b Hb) as (_ & Hh & Hl).
    destruct (hex_nibble _ Hh) as (E1 & _). destruct (hex_nibble _ Hl) as (E2 & _).
    cbn [encode_data app]. rewrite E1. rstep. rewrite put_app by done. rstep.
    rewrite E2. rstep. rewrite put_app by (rewrite length_app; simpl; lia). rstep.
    replace (len pre + 1 + 1) with (len ((pre ++ [hex_char (Z.shiftr b 4)]) ++ [hex_char (Z.land b 0x0F)]))
      by (rewrite !length_app; simpl; lia).
    rewrite IH by lia. cbn [fmap list_fmap concat hex_byte]. rewrite <- !app_assoc.
    do 2 f_equal. rewrite !length_app. simpl. lia.
Qed.

(** What the constructor of frames guarantees, and what [frame_text] needs. *)
Lemma CanFrame_new_inv id data f :
  CanFrame.new id data = Some f →
  id ≤ 0x7FF ∧ (length data ≤ 8)%nat ∧ CanFrame.data f = data ∧ CanFrame.raw_id f = id ∧
  CanFrame.raw_dlc f = len data.
Proof.
  intros H. pose proof (CanFrame_new_data _ _ _ H). pose proof (CanFrame_new_id _ _ _ H).
  unfold CanFrame.new in H. destruct (Z.ltb_spec 0x7FF id), (Z.ltb_spec 8 (len data)); try done.
  split_and!; try done; try lia. injection H as <-. simpl. apply wrap_id. unfold is_uint. lia.
Qed.

Lemma length_frame_text id data : len (frame_text id data) = 5 + 2 * len data.
Proof. unfold frame_text. cbn [length]. rewrite length_hex_bytes. lia. Qed.

Lemma encode_slcan_frame_text id data f out :
  0 ≤ id → bytes data → CanFrame.new id data = Some f → 6 + 2 * len data ≤ len out →
  encode_slcan_frame f out
  = Ret ((frame_text id data ++ [CR]) ++ drop (6 + 2 * length data) out, Some (6 + 2 * len data)).
Proof.
  intros Hid Hb Hf Hout. destruct (CanFrame_new_inv _ _ _ Hf) as (Hid' & Hl & Hd & Hi & Hc).
  unfold encode_slcan_frame. rewrite Hd, Hi, Hc.
  rewrite (proj2 (Z.ltb_ge _ _)) by lia.
  pose proof (id_hex id ltac:(lia)) as Hx. unfold id_hex_ok, in_range in Hx. cbv zeta in Hx.
  rewrite !andb_true_iff, !Z.eqb_eq, !Z.leb_le in Hx.
  destruct Hx as [[[[[[_ Ha] Hbb] Hcc] Ra] Rb] Rc]. rewrite Ha, Hbb, Hcc.
  destruct (hex_nibble (Z.shiftr id 8) ltac:(lia)) as (E1 & _).
  destruct (hex_nibble (Z.land (Z.shiftr id 4) 0x0F) ltac:(lia)) as (E2 & _).
  destruct (hex_nibble (Z.land id 0x0F) ltac:(lia)) as (E3 & _).
  rewrite E1, E2, E3.
  rewrite <- (take_drop (5 + (2 * length data + 1)) out) at 1.
  set (post := drop _ out).
  assert (∃ x0 x1 x2 x3 x4 junk y, take (5 + (2 * length data + 1)) out
          = [] ++ x0 :: x1 :: x2 :: x3 :: x4 :: junk ++ [y] ∧ length junk = (2 * length data)%nat)
    as (x0 & x1 & x2 & x3 & x4 & junk & y & -> & Hj).
  { assert (length (take (5 + (2 * length data + 1)) out) = (5 + (2 * length data + 1))%nat) as Ht
      by (rewrite length_take; lia).
    destruct (take _ out) as [|x0 [|x1 [|x2 [|x3 [|x4 rest]]]]]; simpl in Ht; try lia.
    exists x0, x1, x2, x3, x4. destruct rest as [|r rest] using rev_ind; simpl in Ht; [lia|].
    rewrite length_app in Ht. simpl in Ht. exists rest, r. split; [done|lia]. }
  rewrite <- app_assoc. rewrite <- !app_comm_cons, <- app_assoc.
  do 4 (rewrite put_app by (rewrite ?length_app; simpl; lia); rstep).
  rewrite checked_ret by (unfold is_uint, ch_0; lia). rstep.
  rewrite put_app by (rewrite ?length_app; simpl; lia). rstep.
  match goal with |- context [encode_data _ (?p ++ _) ?n] => replace n with (len p) by done end.
  rewrite encode_data_app by done. rstep. change ([y] ++ post) with (y :: post).
  rewrite put_app by (rewrite !length_app, length_hex_bytes; simpl; lia). rstep.
  f_equal. f_equal.
  - unfold frame_text, post. replace (6 + 2 * length data)%nat with (5 + (2 * length data + 1))%nat by lia.
    cbn [app]. by rewrite <- !app_assoc.
  - f_equal. cbn [length app]. lia.
Qed.

(** ** Parsing *)

Lemma strip_cr_app text : strip_cr (text ++ [CR]) = text.
Proof. unfold strip_cr. rewrite last_snoc. simpl. apply removelast_last. Qed.

Lemma strip_cr_id text : Forall (λ c, 47 < c) text → strip_cr text = text.
Proof.
  unfold strip_cr. intros Ht. destruct (list.last text) as [c|] eqn:Hc; [|done].
  apply last_Some in Hc as [l ->]. apply Forall_app in Ht as [_ Ht].
  destruct (Z.eqb_spec c CR) as [->|]; [|done]. by apply Forall_cons_1 in Ht as [Ht _].
Qed.

Lemma parse_data_hex pre data suffix i :
  bytes data → length pre = (5 + i * 2)%nat →
  parse_data (pre ++ concat (hex_byte <$> data) ++ suffix) i (length data) = Some data.
Proof.
  intros Hd. revert pre i. induction Hd as [|b data Hb _ IH]; intros pre i Hp; [done|].
  destruct (byte_hex b Hb) as (Hbb & Hh & Hl).
  destruct (hex_nibble _ Hh) as (_ & E1 & _). destruct (hex_nibble _ Hl) as (_ & E2 & _).
  rewrite fmap_cons. cbn [concat length parse_data].
  assert (∀ k x, at_ (pre ++ (hex_byte b ++ x) ++ suffix) (length pre + k) = at_ ((hex_byte b ++ x) ++ suffix) k)
    as Hat by (intros; unfold at_; by rewrite app_nth2_plus).
  rewrite <- Hp. replace (6 + i * 2)%nat with (length pre + 1)%nat by lia.
  rewrite <- (Nat.add_0_r (length pre)) at 1. rewrite !Hat.
  cbn [at_ nth app hex_byte]. rewrite E1. cbn [mbind option_bind]. rewrite E2. cbn [mbind option_bind].
  change (hex_char (Z.shiftr b 4) :: hex_char (Z.land b 15) :: concat (hex_byte <$> data) ++ suffix)
    with (hex_byte b ++ concat (hex_byte <$> data) ++ suffix).
  rewrite app_assoc, IH by (rewrite length_app; simpl; lia).
  cbn [mbind option_bind]. by rewrite Hbb.
Qed.

(** An optional timestamp. *)
Definition timestamp_opt (ts : list Z) : Prop := ts = [] ∨ is_timestamp ts = true.

Lemma parse_frame_text line id data ts :
  strip_cr line = frame_text id data ++ ts → 0 ≤ id ≤ 0x7FF → bytes data → (length data ≤ 8)%nat →
  timestamp_opt ts → parse_slcan_frame line = CanFrame.new id data.
Proof.
  intros Hline Hid Hb Hl Hts. unfold parse_slcan_frame. rewrite Hline.
  assert (len (frame_text id data ++ ts) = 5 + 2 * len data + len ts) as Hlen
    by (rewrite length_app; pose proof (length_frame_text id data); lia).
  pose proof (id_hex id Hid) as Hx. unfold id_hex_ok, in_range in Hx. cbv zeta in Hx.
  rewrite !andb_true_iff, !Z.eqb_eq, !Z.leb_le in Hx.
  destruct Hx as [[[[[[Hor _] _] _] Ra] Rb] Rc].
  destruct (hex_nibble (Z.shiftr id 8) ltac:(lia)) as (_ & E1 & _).
  destruct (hex_nibble (Z.land (Z.shiftr id 4) 0x0F) ltac:(lia)) as (_ & E2 & _).
  destruct (hex_nibble (Z.land id 0x0F) ltac:(lia)) as (_ & E3 & _).
  rewrite Hlen, (proj2 (Z.eqb_neq _ 0)) by lia.
  rewrite (proj2 (Z.ltb_ge _ 5)) by lia.
  set (text := frame_text id data ++ ts).
  assert (at_ text 0 = ch_t ∧ at_ text 1 = hex_char (Z.shiftr id 8) ∧
    at_ text 2 = hex_char (Z.land (Z.shiftr id 4) 0x0F) ∧ at_ text 3 = hex_char (Z.land id 0x0F) ∧
    at_ text 4 = ch_0 + len data) as (-> & -> & -> & -> & ->) by done.
  rewrite Z.eqb_refl, E1, E2, E3. cbn [negb mbind option_bind]. cbv zeta. rewrite Hor.
  rewrite (proj2 (Z.ltb_ge _ ch_0)) by lia. replace (ch_0 + len data - ch_0) with (len data) by lia.
  rewrite (proj2 (Z.ltb_ge 8 _)), (proj2 (Z.ltb_ge _ (5 + len data * 2))) by lia.
  assert (drop (Z.to_nat (5 + len data * 2)) text = ts) as ->.
  { unfold text. apply drop_app_length'. pose proof (length_frame_text id data). lia. }
  assert (negb (len ts =? 0) && negb (is_timestamp ts) = false) as ->.
  { destruct Hts as [-> | ->]; [done|]. by rewrite andb_false_r. }
  rewrite Nat2Z.id. unfold text, frame_text.
  match goal with |- context [?a :: ?b :: ?c :: ?d :: ?e :: concat ?h] =>
    change (a :: b :: c :: d :: e :: concat h) with ([a; b; c; d; e] ++ concat h) end.
  rewrite <- app_assoc, parse_data_hex by done. done.
Qed.

Lemma frame_text_no_cr id data :
  0 ≤ id ≤ 0x7FF → bytes data → Forall (λ c, 47 < c) (frame_text id data).
Proof.
  intros Hid Hb. pose proof (id_hex id Hid) as Hx. unfold id_hex_ok, in_range in Hx. cbv zeta in Hx.
  rewrite !andb_true_iff, !Z.leb_le in Hx. destruct Hx as [[[_ Ra] Rb] Rc].
  repeat (apply List.Forall_cons; [first [done | apply hex_nibble; lia | unfold ch_0; lia]|]).
  induction Hb as [|b data Hbb _ IH]; [constructor|].
  destruct (byte_hex b Hbb) as (_ & Hh & Hl).
  rewrite fmap_cons. cbn [concat]. apply Forall_app_2; [|done].
  repeat (apply List.Forall_cons; [by apply hex_nibble|]). constructor.
Qed.

Lemma timestamp_chars ts : timestamp_opt ts → Forall (λ c, 47 < c) ts.
Proof.
  intros [-> | Hts]; [constructor|]. unfold is_timestamp in Hts.
  apply andb_true_iff in Hts as [_ Hts]. rewrite forallb_forall in Hts.
  apply List.Forall_forall. intros c Hc. apply Hts, bool_decide_eq_true in Hc. unfold parse_hex_digit, in_range, ch_0, ch_a, ch_A in Hc.
  destruct (Z.leb_spec 48 c), (Z.leb_spec 97 c), (Z.leb_spec 65 c); try lia. by destruct Hc.
Qed.

(** SLCAN lines round-trip: a frame encoded into a large enough buffer is
    the whole written prefix, nothing behind it is touched, and parsing the line
    gives the frame back, with its delimiter, without it, and with the
    timestamp some adapters insert before the delimiter.  A buffer that is too
    small is refused untouched. *)
Theorem slcan_roundtrip id data f out :
  0 ≤ id → bytes data → CanFrame.new id data = Some f →
  let needed := 6 + 2 * len data in
  (len out < needed → encode_slcan_frame f out = Ret (out, None)) ∧
  (needed ≤ len out →
   ∃ text, encode_slcan_frame f out
           = Ret ((text ++ [CR]) ++ drop (Z.to_nat needed) out, Some needed) ∧
   len text + 1 = needed ∧
   ∀ ts, timestamp_opt ts →
     parse_slcan_frame (text ++ ts) = Some f ∧ parse_slcan_frame (text ++ ts ++ [CR]) = Some f).
Proof.
  intros Hid Hb Hf. cbv zeta. destruct (CanFrame_new_inv _ _ _ Hf) as (Hid' & Hl & Hd & _).
  split; intros Hout.
  - unfold encode_slcan_frame. rewrite Hd. by rewrite (proj2 (Z.ltb_lt _ _)) by lia.
  - exists (frame_text id data). split_and!.
    + rewrite (encode_slcan_frame_text id data) by (done || lia). do 5 f_equal. lia.
    + pose proof (length_frame_text id data). lia.
    + intros ts Hts. rewrite <- Hf.
      split; apply parse_frame_text with (ts := ts); try done.
      * apply strip_cr_id, Forall_app_2; [apply frame_text_no_cr; [lia|done]|by apply timestamp_chars].
      * by rewrite app_assoc, strip_cr_app.
Qed.

Lemma slcan_roundtrip_witness :
  (0 ≤ 0x181 ∧ bytes [0x12; 0xAB]) ∧
  ∃ f, CanFrame.new 0x181 [0x12; 0xAB] = Some f ∧
    let needed := 6 + 2 * len [0x12; 0xAB] in
    (len (zeros 32) < needed → encode_slcan_frame f (zeros 32) = Ret (zeros 32, None)) ∧
    (needed ≤ len (zeros 32) →
     ∃ text, encode_slcan_frame f (zeros 32)
             = Ret ((text ++ [CR]) ++ drop (Z.to_nat needed) (zeros 32), Some needed) ∧
     len text + 1 = needed ∧
     ∀ ts, timestamp_opt ts →
       parse_slcan_frame (text ++ ts) = Some f ∧ parse_slcan_frame (text ++ ts ++ [CR]) = Some f).
Proof.
  assert (bytes [0x12; 0xAB]) as Hb by (repeat (apply List.Forall_cons; [by split|]); apply List.Forall_nil).
  split; [by split|]. eexists. split; [reflexivity|]. by apply (slcan_roundtrip 0x181 [0x12; 0xAB]).
Defined.

(** ** The byte stream as a sequence of lines *)

(** The lines a CR completes, [cur] being the part of the first one already read. *)
Fixpoint stream_lines (cur bytes : list Z) : list (list Z) :=
  match bytes with
  | [] => []
  | b :: bytes => if b =? CR then cur :: stream_lines [] bytes else stream_lines (cur ++ [b]) bytes
  end.

(** What a stream transports: the frames of its lines, in order. *)
Definition frames_of (bytes : list Z) : list CanFrame := omap parse_slcan_frame (stream_lines [] bytes).

(** The same when the first line is to be discarded. *)
Definition frames_left (discarding : bool) (bytes : list Z) : list CanFrame :=
  if discarding then omap parse_slcan_frame (tail (stream_lines [] bytes)) else frames_of bytes.

Lemma stream_lines_cr cur b n :
  cr_position b = Some n → stream_lines cur b = (cur ++ take n b) :: stream_lines [] (drop (S n) b).
Proof.
  revert cur n. induction b as [|x b IH]; intros cur n; [done|]. cbn [cr_position stream_lines].
  destruct (x =? CR); [intros [= <-]; simpl; by rewrite app_nil_r|].
  destruct (cr_position b) as [m|]; [|done]. intros [= <-]. rewrite (IH _ m) by done.
  simpl. by rewrite <- app_assoc.
Qed.

Lemma stream_lines_prefix cur a b :
  cr_position a = None → stream_lines cur (a ++ b) = stream_lines (cur ++ a) b.
Proof.
  revert cur. induction a as [|x a IH]; intros cur; cbn [cr_position stream_lines app].
  - by rewrite app_nil_r.
  - destruct (x =? CR); [done|]. destruct (cr_position a); [done|]. intros _.
    rewrite IH by done. by rewrite <- app_assoc.
Qed.

Lemma stream_lines_none cur b : cr_position b = None → stream_lines cur b = [].
Proof. intros H. rewrite <- (app_nil_r b). by rewrite stream_lines_prefix. Qed.

Lemma cr_position_app a b n : cr_position a = Some n → cr_position (a ++ b) = Some n ∧ (n < length a)%nat.
Proof.
  revert n. induction a as [|x a IH]; intros n; [done|]. cbn [cr_position app].
  destruct (x =? CR); [intros [= <-]; simpl; split; [done|lia]|].
  destruct (cr_position a) as [m|]; [|done]. intros [= <-]. destruct (IH m eq_refl) as [-> ?].
  split; [done|simpl; lia].
Qed.

Lemma tail_lines cur cur' b : tail (stream_lines cur b) = tail (stream_lines cur' b).
Proof.
  destruct (cr_position b) eqn:E.
  - by rewrite !(stream_lines_cr _ _ _ E).
  - by rewrite !stream_lines_none.
Qed.

Lemma strip_cr_length line : len line ≤ len (strip_cr line) + 1.
Proof.
  unfold strip_cr. destruct (list.last line) as [c|] eqn:Hc; [|lia]. destruct (c =? CR); [|lia].
  apply last_Some in Hc as [l ->]. rewrite removelast_last, length_app. simpl. lia.
Qed.

(** The longest line with a frame: 21 characters, a timestamp, a delimiter. *)
Lemma parse_overlong line : 26 < len line → parse_slcan_frame line = None.
Proof.
  intros Hl. pose proof (strip_cr_length line) as Hs. unfold parse_slcan_frame.
  set (l := strip_cr line) in *.
  destruct (len l =? 0); [done|]. destruct (negb (at_ l 0 =? ch_t)); [done|].
  destruct (len l <? 5); [done|].
  destruct (parse_hex_digit (at_ l 1)); [|done]. destruct (parse_hex_digit (at_ l 2)); [|done].
  destruct (parse_hex_digit (at_ l 3)); [|done]. cbn [mbind option_bind].
  destruct (Z.ltb_spec (at_ l 4) ch_0) as [|Hc]; [done|]. cbv zeta.
  destruct (Z.ltb_spec 8 (at_ l 4 - ch_0)); [done|].
  destruct (Z.ltb_spec (len l) (5 + (at_ l 4 - ch_0) * 2)); [done|].
  set (suffix := drop _ l).
  assert (len suffix > 4) as Hsuf by (unfold suffix; rewrite length_drop; lia).
  unfold is_timestamp.
  by rewrite (proj2 (Z.eqb_neq (len suffix) 0)), (proj2 (Z.eqb_neq (len suffix) 4)) by lia.
Qed.

Lemma overlong_lines cur b :
  26 < len cur → omap parse_slcan_frame (stream_lines cur b) = frames_left true b.
Proof.
  intros Hc. unfold frames_left. rewrite (tail_lines [] cur). destruct (cr_position b) as [n|] eqn:E.
  - rewrite !(stream_lines_cr _ _ _ E). cbn [tail omap list_omap].
    by rewrite parse_overlong by (rewrite length_app; lia).
  - by rewrite !stream_lines_none.
Qed.

(** ** What the transport delivers *)

Lemma take_lines_spec fuel buf d buf' d' o :
  (length buf < fuel)%nat → take_lines fuel buf d = (buf', d', o) →
  (∀ s, frames_left d (buf ++ s) = option_list o ++ frames_left d' (buf' ++ s)) ∧
  (length buf' ≤ length buf)%nat ∧ (o = None → cr_position buf' = None).
Proof.
  revert buf d. induction fuel as [|fuel IH]; intros buf d Hf H; [lia|]. cbn [take_lines] in H.
  destruct (cr_position buf) as [n|] eqn:E; [|by injection H as <- <- <-].
  assert (∀ s, frames_left d (buf ++ s)
    = option_list (if d then None else parse_slcan_frame (take n buf)) ++ frames_left false (drop (S n) buf ++ s))
    as Hstep.
  { intros s. destruct (cr_position_app buf s n E) as [E' Hn]. unfold frames_left, frames_of.
    rewrite (stream_lines_cr [] _ _ E'), drop_app_le, take_app_le by lia.
    destruct d; [done|]. cbn [omap list_omap app]. by destruct (parse_slcan_frame (take n buf)). }
  destruct (cr_position_app buf [] n E) as [_ Hn].
  assert (length (drop (S n) buf) < length buf)%nat as Hd by (rewrite length_drop; lia).
  destruct (if d then None else parse_slcan_frame (take n buf)) as [f|].
  - injection H as <- <- <-. split; [done|]. split; [lia|done].
  - apply IH in H as (Hfr & Hlen & Hcr); [|lia]. split; [|split; [lia|done]].
    intros s. by rewrite Hstep, Hfr.
Qed.

(** What a port promises: it delivers one stream of bytes, in pieces no longer
    than asked for; an error consumes nothing, and writing does not read. *)
Class SerialLaws (P : Type) `{SerialPort P} := {
  stream : P → list Z;
  read_stream : ∀ p n, 0 ≤ n →
    match port_read p n with
    | (p', Ok d) => len d ≤ n ∧ stream p = d ++ stream p'
    | (p', Err _) => stream p = stream p'
    end;
  write_stream : ∀ p b, stream (fst (port_write_all p b)) = stream p;
}.

Section delivery.
Context {P : Type} `{SerialLaws P}.
Implicit Types t : SlcanTransport P.

(** The frames a transport has yet to deliver. *)
Definition pending t : list CanFrame := frames_left (discarding_line t) (rx t ++ stream (port t)).

Definition slcan_ok t : Prop := len (rx t) ≤ RX_BUF.

Lemma take_buffered_frame_spec t t' o :
  slcan_ok t → take_buffered_frame t = (t', o) →
  pending t = option_list o ++ pending t' ∧ slcan_ok t' ∧ port t' = port t ∧
  (o = None → cr_position (rx t') = None ∧ len (rx t') < RX_BUF).
Proof.
  unfold take_buffered_frame, pending, slcan_ok. intros Hok Ht.
  destruct (take_lines _ _ _) as [[buf d] r] eqn:E.
  apply take_lines_spec in E as (Hfr & Hlen & Hcr); [|lia].
  destruct r as [f|].
  - injection Ht as <- <-. simpl. split_and!; [apply Hfr|lia|done|done].
  - specialize (Hcr eq_refl). destruct (Z.eqb_spec (len buf) RX_BUF) as [Hfull|Hfull];
      injection Ht as <- <-; simpl; split_and!; try done; try (intros; split; [done|]); try lia; try done.
    rewrite Hfr. cbn [option_list app]. unfold frames_left at 1, frames_of.
    rewrite stream_lines_prefix by done. destruct d.
    + unfold frames_left. by rewrite (tail_lines _ []).
    + apply overlong_lines. cbn [app]. rewrite Hfull. done.
Qed.

Lemma try_recv_spec t t' r :
  slcan_ok t → try_recv t = (t', r) →
  pending t = match r with Ok o => option_list o | Err _ => [] end ++ pending t' ∧ slcan_ok t' ∧
  (r = Ok None → cr_position (rx t') = None).
Proof.
  unfold try_recv. intros Hok Ht.
  destruct (take_buffered_frame t) as [t1 o] eqn:E1.
  pose proof (take_buffered_frame_spec _ _ _ Hok E1) as (Hp1 & Hok1 & Hport1 & Hn1).
  destruct o as [f|]; [by injection Ht as <- <-|]. destruct (Hn1 eq_refl) as [_ Hl].
  rewrite (proj2 (Z.ltb_lt 0 _)) in Ht by lia.
  pose proof (read_stream (port t1) (RX_BUF - len (rx t1)) ltac:(lia)) as Hread.
  destruct (port_read _ _) as [p [d|e]].
  - destruct Hread as [Hd Hs].
    destruct (take_buffered_frame (mkSlcan p _ _)) as [t2 o2] eqn:E2. injection Ht as <- <-.
    apply take_buffered_frame_spec in E2 as (Hp2 & Hok2 & _ & Hn2);
      [|unfold slcan_ok; simpl; rewrite length_app; lia].
    split_and!; [|done|by intros [= ->]; apply Hn2]. rewrite Hp1, <- Hp2.
    unfold pending. simpl. by rewrite Hs, app_assoc.
  - injection Ht as <- <-. split_and!; [|done|done].
    rewrite Hp1. unfold pending. simpl. by rewrite Hread.
Qed.

Lemma receive_spec t t' r :
  slcan_ok t → receive t = (t', r) →
  pending t = match r with Ok f => [f] | Err _ => [] end ++ pending t' ∧ slcan_ok t' ∧
  (r = Err WouldBlock → cr_position (rx t') = None).
Proof.
  unfold receive. intros Hok Ht. destruct (try_recv t) as [t1 q] eqn:E.
  apply try_recv_spec in E as (Hp & Hok1 & Hn); [|done].
  destruct q as [[f|]|e]; injection Ht as <- <-; split_and!; try done. intros _. by apply Hn.
Qed.

Lemma transmit_pending t f t' r :
  transmit t f = Ret (t', r) → pending t' = pending t ∧ rx t' = rx t.
Proof.
  unfold transmit. intros H1. apply bind_Ret_inv in H1 as ([cmd [pos|]] & _ & H1).
  - apply bind_Ret_inv in H1 as (line & _ & H1). unfold write in H1.
    pose proof (write_stream (port t) line) as Hw.
    destruct (port_write_all (port t) line) as [p [u|e]]; injection H1 as <- <-;
      unfold pending; simpl in *; by rewrite Hw.
  - by injection H1 as <- <-.
Qed.

Lemma transmit_runs t f : wf_frame f → runs (transmit t f) (λ _, True).
Proof.
  intros Hf. pose proof (bytes_data f Hf) as Hb. pose proof (length_data f Hf) as Hl.
  destruct Hf as (Hid & Hdlc & _).
  destruct (CanFrame.new (cf_id f) (CanFrame.data f)) as [g|] eqn:Hg.
  2: { rewrite CanFrame_new_ok in Hg by lia. done. }
  assert (encode_slcan_frame f (zeros 32) = encode_slcan_frame g (zeros 32)) as He.
  { destruct (CanFrame_new_inv _ _ _ Hg) as (_ & _ & Hd & Hi & Hc).
    unfold encode_slcan_frame. rewrite Hd, Hi, Hc. unfold CanFrame.raw_id, CanFrame.raw_dlc. by rewrite Hl. }
  unfold transmit. rewrite He, (encode_slcan_frame_text _ _ _ _ (proj1 Hid) Hb Hg)
    by (rewrite len_zeros; lia). rstep.
  pose proof (length_frame_text (cf_id f) (CanFrame.data f)) as Ht.
  rewrite slice_prefix by (rewrite ?length_app; cbn [length]; lia). rstep. done.
Qed.

(** ** A run of an adapter driver *)

Inductive slcan_op := Receive | Transmit (f : CanFrame).

(** The frames received, and whether the last receive found nothing. *)
Fixpoint slcan_run (t : SlcanTransport P) (idle : bool) (ops : list slcan_op)
    : exec (SlcanTransport P * list CanFrame * bool) :=
  match ops with
  | [] => mret (t, [], idle)
  | Receive :: ops =>
      let '(t, r) := receive t in
      q ← slcan_run t (match r with Err WouldBlock => true | _ => false end) ops;
      let '(t, fs, idle) := (q : SlcanTransport P * list CanFrame * bool) in
      mret (t, match r with Ok f => [f] | Err _ => [] end ++ fs, idle)
  | Transmit f :: ops =>
      q ← transmit t f;
      slcan_run (fst q) idle ops
  end.

Definition op_ok (op : slcan_op) : Prop := match op with Receive => True | Transmit f => wf_frame f end.

Lemma slcan_run_spec ops t idle :
  Forall op_ok ops → slcan_ok t → (idle = true → cr_position (rx t) = None) →
  runs (slcan_run t idle ops) (λ '(t', fs, idle'),
    pending t = fs ++ pending t' ∧ slcan_ok t' ∧ (idle' = true → cr_position (rx t') = None)).
Proof.
  intros Hops. revert t idle. induction Hops as [|op ops Hop _ IH]; intros t idle Hok Hidle; [done|].
  destruct op as [|f]; cbn [slcan_run].
  - destruct (receive t) as [t1 r] eqn:E. apply receive_spec in E as (Hp & Hok1 & Hn); [|done].
    eapply runs_bind.
    + apply IH; [done|]. intros Hi. apply Hn. by destruct r as [|[]].
    + intros [[t2 fs] idle2] (Hp2 & ?). rstep. split; [|done]. by rewrite Hp, Hp2, app_assoc.
  - destruct (runs_inv _ _ (transmit_runs t f Hop)) as ([t1 r] & E & _).
    rewrite E. rstep. destruct (transmit_pending _ _ _ _ E) as [Hp Hrx].
    rewrite <- Hp. apply IH; [|by rewrite Hrx]. unfold slcan_ok. by rewrite Hrx.
Qed.

(** C25. SLCAN framing: whatever the sizes of the pieces the serial port delivers,
    through full buffers, overlong lines, acknowledgements and read errors,
    interleaved with transmissions, the frames a transport returns are, in
    order and without loss or duplicate, those of the lines of the byte
    stream; and when the port has delivered all its bytes and a receive found
    nothing, all of them have been returned. *)
Theorem slcan_framing ops (p : P) :
  Forall op_ok ops →
  runs (slcan_run (new p) false ops) (λ '(t, fs, idle),
    frames_of (stream p) = fs ++ pending t ∧
    (idle = true → stream (port t) = [] → frames_of (stream p) = fs)).
Proof.
  intros Hops. eapply runs_mono.
  - by apply slcan_run_spec.
  - intros [[t fs] idle] (Hp & _ & Hi). change (pending (new p)) with (frames_of (stream p)) in Hp.
    split; [done|]. intros Hidle Hs. rewrite Hp. unfold pending. rewrite Hs, app_nil_r.
    unfold frames_left, frames_of. rewrite stream_lines_none by auto.
    destruct (discarding_line t); apply app_nil_r.
Qed.
End delivery.

(** A port that delivers given chunks, splitting one that is too long. *)
#[export] Instance chunk_port : SerialPort (list (list Z)) := {
  port_read p n :=
    match p with
    | [] => ([], Ok [])
    | c :: p => if len c <=? n then (p, Ok c)
                else (drop (Z.to_nat n) c :: p, Ok (take (Z.to_nat n) c))
    end;
  port_write_all p _ := (p, Ok tt);
}.

#[export, refine] Instance chunk_port_laws : SerialLaws (list (list Z)) := {| stream p := concat p |}.
Proof.
  - intros [|c p] n Hn; cbn [port_read chunk_port]; [by split|].
    destruct (Z.leb_spec (len c) n); [by split|]. split; [rewrite length_take; lia|].
    cbn [concat]. by rewrite app_assoc, take_drop.
  - done.
Defined.

(** An acknowledgement and a split line, an overlong line whose tail looks like a
    frame, and a frame behind it. *)
Definition slcan_demo : list (list Z) :=
  [[CR; 116; 50; 48]; [49; 49; 50; 65; CR] ++ replicate 300 120; [116; 50; 48; 49; 49; 50; 66; CR];
   [116; 50; 48; 49; 49; 50; 67; CR]].

Lemma slcan_framing_witness :
  Forall op_ok (replicate 8 Receive) ∧
  runs (slcan_run (new slcan_demo) false (replicate 8 Receive)) (λ '(t, fs, idle),
    frames_of (stream slcan_demo) = fs ++ pending t ∧
    (idle = true → stream (port t) = [] → frames_of (stream slcan_demo) = fs)) ∧
  CanFrame.data <$> frames_of (stream slcan_demo) = [[0x2A]; [0x2C]].
Proof.
  assert (Forall op_ok (replicate 8 Receive)) as Hops by (apply Forall_replicate; exact I).
  split; [exact Hops|]. split; [by apply slcan_framing|]. vm_compute. reflexivity.
Defined.
