(* ===== verification/Canwsd.v ===== *)
(** * The canwsd wire format, receive filters and frame buffer

    [canwsd-proto/src/wire.rs] (one CAN frame per WebSocket message),
    [canwsd-proto/src/filter.rs] ([id:mask] receive filters and their text) and
    [tools/canwsd/src/drop_buffer.rs] (the bounded buffer between the CAN socket
    and a slow client).  Every critical section of [DropBuffer] is one step; the
    wake-up of a waiting consumer carries no data. *)
From S2P Require Import Prelude Text.

(** ** wire.rs *)

Definition CAN_EFF_FLAG : Z := 0x80000000.
Definition CAN_RTR_FLAG : Z := 0x40000000.
Definition CAN_ERR_FLAG : Z := 0x20000000.
Definition CAN_EFF_MASK : Z := 0x1FFFFFFF.
Definition CAN_SFF_MASK : Z := 0x7FF.
Definition WIRE_HEADER_SIZE : Z := 5.
Definition MAX_WIRE_FRAME_SIZE : Z := WIRE_HEADER_SIZE + 8.

Record WireFrame := mkWire { id_word : Z; dlc : Z; wire_data : list Z }.

#[export] Instance WireFrame_eq_dec : EqDecision WireFrame.
Proof. solve_decision. Defined.

Inductive DecodeError :=
| TooShort (actual : Z)
| BadDlc (dlc : Z)
| LengthMismatch (expected actual : Z).

Module WireFrame.

Definition new (id_word : Z) (data : list Z) : exec (option WireFrame) :=
  if 8 <? len data then mret None
  else
    buf ← copy_from_slice (zeros 8) 0 (len data) data;
    mret (Some (mkWire id_word (as_u8 (len data)) buf)).

Definition is_extended (f : WireFrame) : bool := negb (Z.land (id_word f) CAN_EFF_FLAG =? 0).
Definition is_rtr (f : WireFrame) : bool := negb (Z.land (id_word f) CAN_RTR_FLAG =? 0).
Definition is_error (f : WireFrame) : bool := negb (Z.land (id_word f) CAN_ERR_FLAG =? 0).

Definition id (f : WireFrame) : Z :=
  if is_extended f then Z.land (id_word f) CAN_EFF_MASK else Z.land (id_word f) CAN_SFF_MASK.

Definition data (f : WireFrame) : exec (list Z) := slice (wire_data f) 0 (dlc f).

Definition encode (f : WireFrame) : exec (list Z * Z) :=
  buf ← copy_from_slice (zeros MAX_WIRE_FRAME_SIZE) 0 4 (to_le_bytes 4 (id_word f));
  let buf := set_at buf 4 (dlc f) in
  d ← data f;
  buf ← copy_from_slice buf WIRE_HEADER_SIZE (WIRE_HEADER_SIZE + dlc f) d;
  mret (buf, WIRE_HEADER_SIZE + dlc f).

Definition decode (buf : list Z) : exec (result WireFrame DecodeError) :=
  if len buf <? WIRE_HEADER_SIZE then mret (Err (TooShort (len buf)))
  else
    let word := from_le_bytes [at_ buf 0; at_ buf 1; at_ buf 2; at_ buf 3] in
    let dlc := at_ buf 4 in
    if 8 <? dlc then mret (Err (BadDlc dlc))
    else
      let expected := WIRE_HEADER_SIZE + dlc in
      if negb (len buf =? expected) then mret (Err (LengthMismatch expected (len buf)))
      else
        body ← slice buf WIRE_HEADER_SIZE expected;
        data ← copy_from_slice (zeros 8) 0 dlc body;
        mret (Ok (mkWire word dlc data)).

End WireFrame.

(** ** filter.rs *)

Record CanFilter := mkFilter { filter_id : Z; filter_mask : Z }.

Definition matches (f : CanFilter) (frame_id : Z) : bool :=
  Z.land frame_id (filter_mask f) =? Z.land (filter_id f) (filter_mask f).

Inductive FilterParseErrorKind := MissingColon | BadNumber.

Record FilterParseError := mkFilterError { entry : list Z; kind : FilterParseErrorKind }.

Definition parse_hex_or_dec (s : list Z) : option Z :=
  let s := trim s in
  match strip_prefix (str "0x") s with
  | Some hex => from_str_radix 32 16 hex
  | None =>
      match strip_prefix (str "0X") s with
      | Some hex => from_str_radix 32 16 hex
      | None => from_str_radix 32 10 s
      end
  end.

(** One item of the iterator [parse_filters] returns. *)
Definition parse_filter (entry : list Z) : result CanFilter FilterParseError :=
  match split_once (str ":") entry with
  | None => Err (mkFilterError entry MissingColon)
  | Some (id_s, mask_s) =>
      let bad_number := mkFilterError entry BadNumber in
      match parse_hex_or_dec id_s with
      | None => Err bad_number
      | Some id =>
          match parse_hex_or_dec mask_s with
          | None => Err bad_number
          | Some mask => Ok (mkFilter id mask)
          end
      end
  end.

Definition comma : Z := 44.

Definition parse_filters (s : list Z) : list (result CanFilter FilterParseError) :=
  parse_filter <$> List.filter (λ e, negb (len e =? 0)) (split comma s).

(** [collect] into a [Result]: the first error ends it. *)
Fixpoint collect {T E} (l : list (result T E)) : result (list T) E :=
  match l with
  | [] => Ok []
  | Err e :: _ => Err e
  | Ok x :: l => match collect l with Ok xs => Ok (x :: xs) | Err e => Err e end
  end.

Definition parse_filter_param (s : list Z) : result (list CanFilter) FilterParseError :=
  collect (parse_filters s).

(** ** drop_buffer.rs *)

Inductive BufferEvent (T : Type) :=
| Item (x : T)
| Overflow (n : Z)
| Closed (error : list Z).
Arguments Item {T} x.
Arguments Overflow {T} n.
Arguments Closed {T} error.

Module DropBuffer.
Section buffer.
Context {T : Type}.

Record State := mkState { capacity : Z; items : list T; dropped : Z; closed : option (list Z) }.

Definition new (capacity : Z) : exec State :=
  _ ← assert_ (0 <? capacity);
  mret (mkState capacity [] 0 None).

Definition push (s : State) (item : T) : State :=
  if capacity s <=? len (items s)
  then mkState (capacity s) [item] (saturating_add 64 (dropped s) (len (items s))) (closed s)
  else mkState (capacity s) (items s ++ [item]) (dropped s) (closed s).

Definition close (s : State) (error : list Z) : State :=
  mkState (capacity s) (items s) (dropped s) (Some error).

(** The critical section of [next]; [None] when it has to wait. *)
Definition next (s : State) : State * option (BufferEvent T) :=
  if 0 <? dropped s then (mkState (capacity s) (items s) 0 (closed s), Some (Overflow (dropped s)))
  else
    match items s with
    | x :: items => (mkState (capacity s) items (dropped s) (closed s), Some (Item x))
    | [] =>
        match closed s with
        | Some error => (mkState (capacity s) [] (dropped s) None, Some (Closed error))
        | None => (s, None)
        end
    end.

End buffer.
Arguments State T : clear implicits.
End DropBuffer.

(** ** The wire format is a bijection *)

(** The invariant of both constructors: the data array is zero behind the DLC. *)
Definition wf_wire (f : WireFrame) : Prop :=
  is_u32 (id_word f) ∧
  ∃ d, bytes d ∧ len d = dlc f ∧ dlc f ≤ 8 ∧ wire_data f = d ++ zeros (8 - len d).

(** The message of a frame with data [d]. *)
Definition message (word : Z) (d : list Z) : list Z := to_le_bytes 4 word ++ len d :: d.

Lemma length_message word d : len (message word d) = 5 + len d.
Proof. unfold message. rewrite length_app, length_to_le. cbn [length]. lia. Qed.

Lemma copy_prefix (dst src : list Z) :
  len src ≤ len dst → copy_from_slice dst 0 (len src) src = Ret (src ++ drop (length src) dst).
Proof. intros. rewrite copy_from_slice_ret by lia. by rewrite Nat2Z.id. Qed.

Lemma drop_zeros n k : drop n (zeros k) = zeros (k - Z.of_nat n).
Proof. unfold zeros. rewrite drop_replicate. f_equal. lia. Qed.

Lemma WireFrame_new_spec word d :
  WireFrame.new word d
  = Ret (if 8 <? len d then None else Some (mkWire word (len d) (d ++ zeros (8 - len d)))).
Proof.
  unfold WireFrame.new. destruct (Z.ltb_spec 8 (len d)); [done|].
  rewrite copy_prefix by (rewrite len_zeros; lia). rstep.
  rewrite wrap_id by (unfold is_uint; lia). by rewrite drop_zeros.
Qed.

Lemma WireFrame_data_spec word d :
  len d ≤ 8 → WireFrame.data (mkWire word (len d) (d ++ zeros (8 - len d))) = Ret d.
Proof.
  intros. unfold WireFrame.data. cbn [wire_data dlc].
  rewrite slice_prefix by (rewrite ?length_app; lia). by rewrite Nat2Z.id, take_app_length.
Qed.

Lemma encode_message word d :
  len d ≤ 8 →
  WireFrame.encode (mkWire word (len d) (d ++ zeros (8 - len d)))
  = Ret (message word d ++ zeros (8 - len d), 5 + len d).
Proof.
  intros Hd. unfold WireFrame.encode. rewrite WireFrame_data_spec by done. cbn [id_word dlc].
  assert (len (to_le_bytes 4 word) = 4) as H4 by (by rewrite length_to_le).
  pose proof (copy_prefix (zeros MAX_WIRE_FRAME_SIZE) (to_le_bytes 4 word)) as Hc.
  rewrite H4, length_to_le in Hc. rewrite Hc by done. rstep.
  change (drop 4 (zeros MAX_WIRE_FRAME_SIZE)) with (0 :: zeros 8).
  assert (set_at (to_le_bytes 4 word ++ 0 :: zeros 8) 4 (len d) = (to_le_bytes 4 word ++ [len d]) ++ zeros 8) as ->.
  { unfold set_at. rewrite insert_app_r_alt by (rewrite length_to_le; lia). rewrite length_to_le.
    rewrite <- app_assoc. done. }
  assert (length (to_le_bytes 4 word ++ [len d]) = 5%nat) as H5 by (by rewrite length_app, length_to_le).
  rewrite copy_from_slice_ret by (try (rewrite length_app, H5; cbn [length]); rewrite ?len_zeros; unfold WIRE_HEADER_SIZE; simpl; lia).
  rstep. unfold WIRE_HEADER_SIZE, message. do 2 f_equal.
  rewrite take_app_length' by done. rewrite drop_app_ge by lia.
  rewrite drop_zeros, H5, <- !app_assoc. cbn [app]. do 4 f_equal. lia.
Qed.

Lemma decode_message word d :
  is_u32 word → len d ≤ 8 →
  WireFrame.decode (message word d) = Ret (Ok (mkWire word (len d) (d ++ zeros (8 - len d)))).
Proof.
  intros Hw Hd. unfold WireFrame.decode. rewrite length_message. unfold WIRE_HEADER_SIZE.
  rewrite (proj2 (Z.ltb_ge _ 5)) by lia.
  assert (at_ (message word d) 4 = len d) as -> by done.
  assert ([at_ (message word d) 0; at_ (message word d) 1; at_ (message word d) 2; at_ (message word d) 3]
    = to_le_bytes 4 word) as -> by done.
  rewrite from_to_le_id by (unfold is_uint in Hw; lia). cbv zeta.
  rewrite (proj2 (Z.ltb_ge 8 _)), Z.eqb_refl by lia. cbn [negb].
  rewrite slice_ret by (rewrite ?length_message; lia).
  assert (take (Z.to_nat (5 + len d - 5)) (drop (Z.to_nat 5) (message word d)) = d) as ->.
  { unfold message. change (to_le_bytes 4 word ++ len d :: d) with (to_le_bytes 4 word ++ [len d] ++ d).
    rewrite app_assoc, drop_app_length' by (by rewrite length_app, length_to_le).
    apply take_ge. lia. }
  rstep. rewrite copy_prefix by (rewrite len_zeros; lia). rstep. by rewrite drop_zeros.
Qed.

(** A long enough buffer with a consistent length is the message of its parts. *)
Lemma buffer_message buf :
  bytes buf → 5 ≤ len buf → len buf = 5 + at_ buf 4 →
  ∃ word d, is_u32 word ∧ bytes d ∧ len d = at_ buf 4 ∧ buf = message word d.
Proof.
  intros Hb Hl Hd. destruct buf as [|b0 [|b1 [|b2 [|b3 [|b4 d]]]]]; cbn [length] in Hl; try lia.
  exists (from_le_bytes [b0; b1; b2; b3]), d.
  assert (bytes [b0; b1; b2; b3] ∧ bytes d) as [H4 ?].
  { change (b0 :: b1 :: b2 :: b3 :: b4 :: d) with ([b0; b1; b2; b3] ++ [b4] ++ d) in Hb.
    apply Forall_app in Hb as [? Hb]. by apply Forall_app in Hb as [_ ?]. }
  change (at_ _ 4) with b4 in *. cbn [length] in Hd.
  split; [|split; [done|split]].
  - pose proof (from_le_range _ H4). unfold is_uint. cbn [length] in *. lia.
  - lia.
  - unfold message. pose proof (to_from_le _ H4) as Ht. cbn [length] in Ht. rewrite Ht.
    cbn [app]. do 5 f_equal. lia.
Qed.

(** The canwsd wire format is a bijection between frames and messages:
    decoding accepts exactly the messages encoding produces and gives back
    the frame, every other message is refused with the reason it has, and
    neither direction panics. *)
Theorem wire_bijection :
  (∀ f, wf_wire f →
    runs (WireFrame.encode f) (λ '(buf, n),
      len buf = MAX_WIRE_FRAME_SIZE ∧ n = 5 + dlc f ∧
      WireFrame.decode (take (Z.to_nat n) buf) = Ret (Ok f))) ∧
  (∀ buf, bytes buf →
    runs (WireFrame.decode buf) (λ r,
      match r with
      | Ok f => wf_wire f ∧
          runs (WireFrame.encode f) (λ '(enc, n), n = len buf ∧ take (Z.to_nat n) enc = buf)
      | Err (TooShort n) => n = len buf ∧ n < 5
      | Err (BadDlc d) => 5 ≤ len buf ∧ d = at_ buf 4 ∧ 8 < d
      | Err (LengthMismatch e n) => e = 5 + at_ buf 4 ∧ at_ buf 4 ≤ 8 ∧ 5 ≤ n ∧ n = len buf ∧ n ≠ e
      end)).
Proof.
  split.
  - intros [word n data] (Hw & d & Hb & Hn & H8 & Hdata). cbn [id_word dlc wire_data] in *. subst n data.
    rewrite encode_message by done. split_and!.
    + rewrite length_app. pose proof (length_message word d).
      pose proof (len_zeros (8 - len d)). unfold MAX_WIRE_FRAME_SIZE, WIRE_HEADER_SIZE. lia.
    + done.
    + pose proof (length_message word d). rewrite take_app_length' by lia. by apply decode_message.
  - intros buf Hb.
    destruct (Z.ltb_spec (len buf) 5) as [Hs|Hs].
    { unfold WireFrame.decode, WIRE_HEADER_SIZE. by rewrite (proj2 (Z.ltb_lt _ _) Hs). }
    destruct (Z.ltb_spec 8 (at_ buf 4)) as [Hd|Hd].
    { unfold WireFrame.decode, WIRE_HEADER_SIZE. cbv zeta.
      by rewrite (proj2 (Z.ltb_ge _ _) Hs), (proj2 (Z.ltb_lt _ _) Hd). }
    destruct (Z.eqb_spec (len buf) (5 + at_ buf 4)) as [He|He].
    + destruct (buffer_message buf Hb Hs He) as (word & d & Hw & Hbd & Hl & Hbuf).
      assert (len d ≤ 8) as H8 by lia. rewrite Hbuf, decode_message by done. split.
      * split; [done|]. exists d. split; [done|]. split; [done|]. split; done.
      * rewrite encode_message by done. pose proof (length_message word d) as Hm.
        split; [lia|]. rewrite <- Hm, Nat2Z.id. by apply take_app_length'.
    + unfold WireFrame.decode, WIRE_HEADER_SIZE. cbv zeta.
      rewrite (proj2 (Z.ltb_ge _ _) Hs), (proj2 (Z.ltb_ge _ _) Hd), (proj2 (Z.eqb_neq _ _) He).
      cbn [negb]. by split_and!.
Qed.

Lemma wire_bijection_witness :
  runs (WireFrame.encode (mkWire 0x123 3 ([1; 2; 3] ++ zeros 5))) (λ '(buf, n),
    len buf = MAX_WIRE_FRAME_SIZE ∧ n = 5 + 3 ∧
    WireFrame.decode (take (Z.to_nat n) buf) = Ret (Ok (mkWire 0x123 3 ([1; 2; 3] ++ zeros 5)))) ∧
  WireFrame.encode (mkWire 0x123 3 ([1; 2; 3] ++ zeros 5))
  = Ret ([0x23; 1; 0; 0; 3; 1; 2; 3; 0; 0; 0; 0; 0], 8).
Proof.
  split; [|reflexivity]. apply (proj1 wire_bijection (mkWire 0x123 3 ([1; 2; 3] ++ zeros 5))).
  split; [by split|]. exists [1; 2; 3]. split; [|by split; [|split]].
  repeat (apply List.Forall_cons; [by split|]). apply List.Forall_nil.
Defined.

(** ** The frame buffer is a queue with announced losses *)

Section lossy_queue.
Context {T : Type}.

Inductive buffer_op := Push (x : T) | Close (error : list Z) | Next.

Definition buffer_step (s : DropBuffer.State T) (op : buffer_op)
    : DropBuffer.State T * option (BufferEvent T) :=
  match op with
  | Push x => (DropBuffer.push s x, None)
  | Close e => (DropBuffer.close s e, None)
  | Next => DropBuffer.next s
  end.

(** The abstract queue: what was pushed and not yet accounted for, oldest
    first, and the outstanding close.  A loss takes a positive multiple of
    the capacity from the front; a close is delivered, and a consumer waits,
    only when nothing is left. *)
Inductive queue_step (cap : Z)
    : list T * option (list Z) → buffer_op → option (BufferEvent T) → list T * option (list Z) → Prop :=
| queue_push l c x : queue_step cap (l, c) (Push x) None (l ++ [x], c)
| queue_close l c e : queue_step cap (l, c) (Close e) None (l, Some e)
| queue_item l c x : queue_step cap (x :: l, c) Next (Some (Item x)) (l, c)
| queue_overflow l lost c k :
    0 < k → len lost = k * cap → queue_step cap (lost ++ l, c) Next (Some (Overflow (len lost))) (l, c)
| queue_closed e : queue_step cap ([], Some e) Next (Some (Closed e)) ([], None)
| queue_wait : queue_step cap ([], None) Next None ([], None).

Fixpoint buffer_run (s : DropBuffer.State T) (ops : list buffer_op)
    : DropBuffer.State T * list (option (BufferEvent T)) :=
  match ops with
  | [] => (s, [])
  | op :: ops =>
      let '(s, ev) := buffer_step s op in
      let '(s, evs) := buffer_run s ops in (s, ev :: evs)
  end.

Inductive queue_run (cap : Z)
    : list T * option (list Z) → list buffer_op → list (option (BufferEvent T)) → list T * option (list Z) → Prop :=
| queue_run_nil q : queue_run cap q [] [] q
| queue_run_cons q op ev q' ops evs q'' :
    queue_step cap q op ev q' → queue_run cap q' ops evs q'' → queue_run cap q (op :: ops) (ev :: evs) q''.

(** [budget] more operations cannot saturate the loss counter. *)
Definition buffer_rel (cap budget : Z) (s : DropBuffer.State T) (q : list T * option (list Z)) : Prop :=
  DropBuffer.capacity s = cap ∧ DropBuffer.closed s = snd q ∧
  len (DropBuffer.items s) ≤ cap ∧
  ∃ lost k, fst q = lost ++ DropBuffer.items s ∧ 0 ≤ k ∧ len lost = k * cap ∧
    DropBuffer.dropped s = len lost ∧ len (fst q) + budget < 2 ^ 64.

Lemma buffer_step_rel cap budget s q op s' ev :
  0 < cap → 0 ≤ budget → buffer_rel cap (budget + 1) s q → buffer_step s op = (s', ev) →
  ∃ q', queue_step cap q op ev q' ∧ buffer_rel cap budget s' q'.
Proof.
  intros Hcap Hbud (Hc & Hcl & Hi & lost & k & Hq & Hk & Hl & Hd & Hb) Hs.
  destruct q as [l c], s as [cp items dr cl]. cbn [fst snd DropBuffer.capacity DropBuffer.closed
    DropBuffer.items DropBuffer.dropped] in *. subst cp cl l.
  rewrite length_app in Hb. destruct op as [x|e|]; cbn [buffer_step] in Hs.
  - injection Hs as <- <-. exists ((lost ++ items) ++ [x], c). split; [constructor|].
    unfold DropBuffer.push. cbn [DropBuffer.capacity DropBuffer.items].
    destruct (Z.leb_spec cap (len items)); unfold buffer_rel; cbn [fst snd DropBuffer.capacity
      DropBuffer.closed DropBuffer.items DropBuffer.dropped length].
    + split; [done|]. split; [done|]. split; [lia|].
      exists (lost ++ items), (k + 1). rewrite !length_app. cbn [length].
      unfold saturating_add. split_and!; try done; nia.
    + split; [done|]. split; [done|]. rewrite length_app. cbn [length]. split; [lia|].
      exists lost, k. rewrite !length_app, <- app_assoc. cbn [length]. split_and!; try done; lia.
  - injection Hs as <- <-. exists (lost ++ items, Some e). split; [constructor|].
    unfold buffer_rel, DropBuffer.close. cbn [fst snd DropBuffer.capacity
      DropBuffer.closed DropBuffer.items DropBuffer.dropped].
    split; [done|]. split; [done|]. split; [done|]. exists lost, k. rewrite length_app. split_and!; try done; lia.
  - unfold DropBuffer.next in Hs. cbn [DropBuffer.capacity DropBuffer.closed DropBuffer.items DropBuffer.dropped] in Hs.
    destruct (Z.ltb_spec 0 dr) as [Hdr|Hdr].
    { injection Hs as <- <-. exists (items, c). split; [rewrite Hd; econstructor; [|done]; nia|].
      split; [done|]. split; [done|]. split; [done|]. exists [], 0. split_and!; try done; cbn; lia. }
    assert (lost = []) as -> by (destruct lost; [done|cbn [length] in *; lia]). cbn [app length] in *.
    destruct items as [|x items].
    + destruct c as [e|]; injection Hs as <- <-.
      * exists ([], None). split; [constructor|]. split; [done|]. split; [done|]. split; [done|].
        exists [], 0. split_and!; try done; cbn; lia.
      * exists ([], None). split; [constructor|]. split; [done|]. split; [done|]. split; [done|].
        exists [], 0. split_and!; try done; cbn; lia.
    + injection Hs as <- <-. exists (items, c). split; [constructor|]. split; [done|]. split; [done|].
      cbn [length DropBuffer.items] in *. split; [lia|]. exists [], 0. split_and!; try done; cbn; lia.
Qed.

Lemma buffer_run_rel cap ops s q s' evs :
  0 < cap → buffer_rel cap (len ops) s q → buffer_run s ops = (s', evs) →
  ∃ q', queue_run cap q ops evs q' ∧ buffer_rel cap 0 s' q'.
Proof.
  intros Hcap. revert s q evs. induction ops as [|op ops IH]; intros s q evs Hrel Hrun; cbn [buffer_run] in Hrun.
  - injection Hrun as <- <-. exists q. split; [constructor|done].
  - destruct (buffer_step s op) as [s1 ev] eqn:E1. destruct (buffer_run s1 ops) as [s2 evs2] eqn:E2.
    injection Hrun as <- <-.
    eapply (buffer_step_rel cap (len ops)) in E1 as (q1 & Hq1 & Hrel1); [|done|lia|].
    2: { replace (len ops + 1) with (len (op :: ops)) by (cbn [length]; lia). exact Hrel. }
    destruct (IH _ _ _ Hrel1 E2) as (q2 & Hq2 & Hrel2). exists q2. split; [|done]. by econstructor.
Qed.

(** The frame buffer refines a queue with announced losses: whatever is
    pushed, closed and read in whatever order, the consumer gets the pushed
    items in order, an overflow event reports exactly how many were lost
    before any later item arrives, losses happen only in whole buffers, and
    the close or a wait comes only when nothing is outstanding.  At most
    [capacity] items are ever held. *)
Theorem drop_buffer_refines_queue cap ops :
  len ops < 2 ^ 64 →
  (cap ≤ 0 → DropBuffer.new (T := T) cap = Panic) ∧
  (0 < cap → runs (DropBuffer.new cap) (λ s,
    let '(s', evs) := buffer_run s ops in
    len (DropBuffer.items s') ≤ cap ∧
    ∃ q, queue_run cap ([], None) ops evs q ∧
      (DropBuffer.dropped s' = 0 → fst q = DropBuffer.items s'))).
Proof.
  intros Hops. split; intros Hcap; unfold DropBuffer.new, assert_.
  - by rewrite (proj2 (Z.ltb_ge 0 cap)).
  - rewrite (proj2 (Z.ltb_lt 0 cap)) by done. rstep.
    destruct (buffer_run _ ops) as [s' evs] eqn:E.
    eapply buffer_run_rel in E as (q & Hq & (_ & _ & Hi & lost & k & Hl & _ & _ & Hd & _)); [|done|].
    + split; [done|]. exists q. split; [exact Hq|]. intros H0.
      destruct lost; [done|cbn [length] in *; lia].
    + split; [done|]. split; [done|]. split; [cbn; lia|]. exists [], 0. split_and!; try done; cbn [fst length]; lia.
Qed.
End lossy_queue.
Arguments buffer_op T : clear implicits.

Lemma drop_buffer_refines_queue_witness :
  len [Push 1; Push 2; Push 3; Close []; Next; Next; Next; Next] < 2 ^ 64 ∧
  runs (DropBuffer.new 2) (λ s,
    let '(s', evs) := buffer_run s [Push 1; Push 2; Push 3; Close []; Next; Next; Next; Next] in
    len (DropBuffer.items s') ≤ 2 ∧
    ∃ q, queue_run 2 ([], None) [Push 1; Push 2; Push 3; Close []; Next; Next; Next; Next] evs q ∧
      (DropBuffer.dropped s' = 0 → fst q = DropBuffer.items s')) ∧
  runs (DropBuffer.new 2) (λ s,
    snd (buffer_run s [Push 1; Push 2; Push 3; Close []; Next; Next; Next; Next])
    = [None; None; None; None; Some (Overflow 2); Some (Item 3); Some (Closed []); None]).
Proof.
  assert (len [Push 1; Push 2; Push 3; Close []; Next; Next; Next; Next] < 2 ^ 64) as H by done.
  split; [exact H|]. split; [|reflexivity].
  apply (proj2 (drop_buffer_refines_queue (T := Z) 2 _ H)). done.
Defined.
