(* ===== verification/Bridge.v ===== *)
(** * The WebSocket-to-CAN bridge of canwsd

    [tools/canwsd/src/bridge.rs] and [socketcan_wire.rs]: one client of the
    daemon is a CAN socket with a kernel filter, the reader task that drains it
    into a [DropBuffer], and the loop of [run_client] that forwards frames and
    statuses, writes the client's frames to the bus, applies its filter
    commands and keeps the connection alive.  The socket, its frames, the
    WebSocket sink and the JSON texts are the operations of the classes below;
    what the theorems rely on is in [FrameLaws], [SocketLaws] and [SinkLaws].

    Every branch of the [select!] is one step, the reader's iterations are
    steps between them; while a branch waits for the sink the reader only
    pushes, which commutes with the rest of the branch. *)
From stdpp Require Import gmap sorting.
From S2P Require Import Prelude Text Canwsd.

(** ** The code the bridge calls *)

(** [socketcan]'s classic frames and identifiers. *)
Class CanFrames (C I : Type) := {
  frame_id_word : C → Z;
  frame_data : C → list Z;
  ExtendedId_new : Z → option I;
  StandardId_new : Z → option I;
  CanFrame_new : I → list Z → option C;
  CanRemoteFrame_new : I → Z → option C;
}.

(** A CAN_RAW socket [K]; errors are kept as their text.  [write_frame] is
    [None] when the [timeout] around it fires. *)
Class CanSocket (K C : Type) := {
  socket_open : list Z → result K (list Z);
  set_filter_accept_all : K → K * result unit (list Z);
  set_filter_drop_all : K → K * result unit (list Z);
  set_filters : K → list (Z * Z) → K * result unit (list Z);
  set_error_filter_accept_all : K → K * result unit (list Z);
  write_frame : K → C → K * option (result unit (list Z));
}.

(** WebSocket messages; the close frame is its code and reason. *)
Inductive Message :=
| Binary (data : list Z)
| WsText (text : list Z)
| Ping
| Pong
| WsClose (frame : option (Z * list Z)).

#[export] Instance Message_eq_dec : EqDecision Message.
Proof. solve_decision. Defined.

(** The sending half; [None] when the [timeout] around it fires. *)
Class WsSink (W : Type) := {
  sink_send : W → Message → W * option (result unit unit);
}.

Inductive ClientCommand :=
| SetFilter (filter : list CanFilter)
| ClearFilter.

(** The texts serde derives. *)
Class Json := {
  overflow_status : Z → list Z;
  bus_error_status : list Z → list Z;
  parse_command : list Z → option ClientCommand;
}.

(** ** socketcan_wire.rs *)

Section wire.
Context {C I : Type} `{CanFrames C I}.

Definition wire_from_can_frame (frame : C) : exec (option WireFrame) :=
  WireFrame.new (frame_id_word frame) (frame_data frame).

Definition can_frame_from_wire (wf : WireFrame) : exec (option C) :=
  if WireFrame.is_error wf then mret None
  else
    match
      (if WireFrame.is_extended wf then ExtendedId_new (WireFrame.id wf)
       else StandardId_new (wrap 16 (WireFrame.id wf)))
    with
    | None => mret None
    | Some id =>
        if WireFrame.is_rtr wf then mret (CanRemoteFrame_new id (dlc wf))
        else
          d ← WireFrame.data wf;
          mret (CanFrame_new id d)
    end.
End wire.

(** ** bridge.rs *)

Definition FRAME_BUFFER : Z := 16384.
Definition MAX_KERNEL_FILTERS : Z := 512.
(** Microseconds. *)
Definition CLIENT_TIMEOUT : Z := 30 * 1000000.
Definition BUS_ERROR : Z := 4000.

(** [fetch_add] on the id counter: the next counter and the id. *)
Definition next_client_id (counter : Z) : Z * Z := (wrap 64 (counter + 1), counter).

(** *** The networks the daemon exposes *)

Record BridgeHub := mkHub { interfaces : gmap (list Z) (list Z) }.

Inductive NetworkStatus := Available | Unavailable.

Record NetworkInfo := mkNetwork {
  net_name : list Z;
  net_interface : list Z;
  net_bitrate : Z;
  net_status : NetworkStatus;
  net_error : list Z;
}.

Module BridgeHub.

(** [collect] into a map: a later specification of a name replaces an earlier. *)
Definition new (specs : list (list Z * list Z)) : BridgeHub :=
  mkHub (fold_left (λ m '(can_name, exposed), <[exposed := can_name]> m) specs ∅).

Definition resolve (h : BridgeHub) (exposed : list Z) : option (list Z) := interfaces h !! exposed.

(** The order of Rust's strings. *)
Fixpoint text_le (a b : list Z) : bool :=
  match a, b with
  | [], _ => true
  | _ :: _, [] => false
  | x :: a, y :: b => if x =? y then text_le a b else x <? y
  end.

Definition text_before (a b : list Z) : Prop := text_le a b = true.
Definition name_before (a b : NetworkInfo) : Prop := text_before (net_name a) (net_name b).

#[global] Instance text_before_dec : RelDecision text_before :=
  λ a b, bool_eq_dec (text_le a b) true.
#[global] Instance name_before_dec : RelDecision name_before :=
  λ a b, text_before_dec (net_name a) (net_name b).

Definition interface_names (h : BridgeHub) : list (list Z) :=
  merge_sort text_before ((map_to_list (interfaces h)).*1).

Section networks.
Context {C K : Type} `{CanSocket K C} (read_to_string : list Z → option (list Z)).

Definition read_bitrate (interface : list Z) : option Z :=
  match read_to_string (str "/sys/class/net/" ++ interface ++ str "/can_bittiming/bitrate") with
  | None => None
  | Some text => from_str_radix 32 10 (trim text)
  end.

Definition network_info (name interface : list Z) : NetworkInfo :=
  let bitrate := default 0 (read_bitrate interface) in
  match socket_open interface with
  | Ok _ => mkNetwork name interface bitrate Available []
  | Err e => mkNetwork name interface bitrate Unavailable e
  end.

Definition networks (h : BridgeHub) : list NetworkInfo :=
  merge_sort name_before
    (map (λ '(name, interface), network_info name interface) (map_to_list (interfaces h))).
End networks.
End BridgeHub.

(** *** One client *)

Section bridge.
Context {C I K W : Type} `{CanFrames C I} `{CanSocket K C} `{WsSink W} `{Json}.

Definition apply_filter (sock : K) (filter : option (list CanFilter)) : K * bool :=
  match filter with
  | None => let '(sock, _) := set_filter_accept_all sock in (sock, false)
  | Some [] =>
      let '(sock, r) := set_filter_drop_all sock in
      match r with Err _ => (sock, true) | Ok _ => (sock, false) end
  | Some filters =>
      if MAX_KERNEL_FILTERS <? len filters then
        let '(sock, _) := set_filter_accept_all sock in (sock, true)
      else
        let pairs := map (λ f, (filter_id f, filter_mask f)) filters in
        let '(sock, r) := set_filters sock pairs in
        match r with
        | Ok _ => (sock, false)
        | Err _ => let '(sock, _) := set_filter_accept_all sock in (sock, true)
        end
  end.

Definition open_client_socket (can_name : list Z) (filter : option (list CanFilter))
    (want_errors : bool) : result (K * bool) (list Z) :=
  match socket_open can_name with
  | Err e => Err e
  | Ok sock =>
      let '(sock, userspace_filter) := apply_filter sock filter in
      let sock := if want_errors then fst (set_error_filter_accept_all sock) else sock in
      Ok (sock, userspace_filter)
  end.

(** The locals of [run_client] and its reader task. *)
Record Client := mkClient {
  sock : K;
  buffer : DropBuffer.State WireFrame;
  reading : bool;
  ws_tx : W;
  filter : option (list CanFilter);
  userspace_filter : bool;
  last_rx : Z;
  running : bool;
}.

Definition with_sock (c : Client) (k : K) : Client :=
  mkClient k (buffer c) (reading c) (ws_tx c) (filter c) (userspace_filter c) (last_rx c) (running c).
Definition with_buffer (c : Client) (b : DropBuffer.State WireFrame) : Client :=
  mkClient (sock c) b (reading c) (ws_tx c) (filter c) (userspace_filter c) (last_rx c) (running c).
Definition with_tx (c : Client) (w : W) : Client :=
  mkClient (sock c) (buffer c) (reading c) w (filter c) (userspace_filter c) (last_rx c) (running c).

(** [break] and the [reader.abort()] behind the loop. *)
Definition disconnect (c : Client) : Client :=
  mkClient (sock c) (buffer c) false (ws_tx c) (filter c) (userspace_filter c) (last_rx c) false.

(** The locals before the loop. *)
Definition run_client_start (ws_tx : W) (sock : K) (filter : option (list CanFilter))
    (userspace_filter : bool) (now : Z) : exec Client :=
  buffer ← DropBuffer.new FRAME_BUFFER;
  mret (mkClient sock buffer true ws_tx filter userspace_filter now true).

(** One iteration of [reader_task]. *)
Definition reader_step (c : Client) (r : result C (list Z)) : exec Client :=
  match r with
  | Ok frame =>
      wf ← wire_from_can_frame frame;
      match wf with
      | None => mret c
      | Some wf => mret (with_buffer c (DropBuffer.push (buffer c) wf))
      end
  | Err e =>
      mret (mkClient (sock c) (DropBuffer.close (buffer c) e) false (ws_tx c) (filter c)
              (userspace_filter c) (last_rx c) (running c))
  end.

Definition send_ws (sink : W) (message : Message) : W * result unit unit :=
  let '(sink, r) := sink_send sink message in
  match r with
  | Some (Ok _) => (sink, Ok tt)
  | Some (Err _) => (sink, Err tt)
  | None => (sink, Err tt)
  end.

(** [if send_ws(..).await.is_err() { break; }] *)
Definition send_or_break (c : Client) (message : Message) : Client :=
  let '(tx, r) := send_ws (ws_tx c) message in
  match r with Ok _ => with_tx c tx | Err _ => disconnect (with_tx c tx) end.

Definition wanted (filter : option (list CanFilter)) (word : Z) : bool :=
  match filter with
  | None => true
  | Some filters => existsb (λ flt, matches flt word) filters
  end.

Definition passes (c : Client) (frame : WireFrame) : bool :=
  WireFrame.is_error frame || negb (userspace_filter c) || wanted (filter c) (id_word frame).

(** The [buffer.next()] branch. *)
Definition on_buffer_event (c : Client) (event : BufferEvent WireFrame) : exec Client :=
  match event with
  | Item frame =>
      if passes c frame then
        '(buf, n) ← WireFrame.encode frame;
        data ← slice buf 0 n;
        mret (send_or_break c (Binary data))
      else mret c
  | Overflow dropped => mret (send_or_break c (WsText (overflow_status dropped)))
  | Closed error =>
      let '(tx, r) := send_ws (ws_tx c) (WsText (bus_error_status error)) in
      let tx :=
        match r with
        | Ok _ => fst (send_ws tx (WsClose (Some (BUS_ERROR, error))))
        | Err _ => tx
        end in
      mret (disconnect (with_tx c tx))
  end.

Definition on_command (c : Client) (cmd : ClientCommand) : Client :=
  let filter := match cmd with SetFilter filters => Some filters | ClearFilter => None end in
  let '(sock, userspace_filter) := apply_filter (sock c) filter in
  mkClient sock (buffer c) (reading c) (ws_tx c) filter userspace_filter (last_rx c) (running c).

(** The [ws_rx.next()] branch. *)
Definition on_ws_message (c : Client) (now : Z) (msg : option (result Message unit)) : exec Client :=
  match msg with
  | Some (Ok msg) =>
      let c := mkClient (sock c) (buffer c) (reading c) (ws_tx c) (filter c)
                 (userspace_filter c) now (running c) in
      match msg with
      | Binary data =>
          r ← WireFrame.decode data;
          match r with
          | Ok frame =>
              out ← can_frame_from_wire frame;
              match out with
              | Some out =>
                  let '(sock, r) := write_frame (sock c) out in
                  match r with
                  | Some _ => mret (with_sock c sock)
                  | None => mret (disconnect (with_sock c sock))
                  end
              | None => mret c
              end
          | Err _ => mret c
          end
      | WsText text =>
          match parse_command text with
          | Some cmd => mret (on_command c cmd)
          | None => mret c
          end
      | WsClose _ => mret (disconnect c)
      | Ping | Pong => mret c
      end
  | _ => mret (disconnect c)
  end.

(** The [ping.tick()] branch. *)
Definition on_tick (c : Client) (now : Z) : Client :=
  if CLIENT_TIMEOUT <? Z.max 0 (now - last_rx c) then disconnect c
  else send_or_break c Ping.

Inductive bridge_op :=
| ReadFrame (r : result C (list Z))
| BufferNext
| WsMessage (now : Z) (msg : option (result Message unit))
| PingTick (now : Z).

Definition bridge_step (c : Client) (op : bridge_op) : exec Client :=
  if running c then
    match op with
    | ReadFrame r => if reading c then reader_step c r else mret c
    | BufferNext =>
        let '(b, event) := DropBuffer.next (buffer c) in
        let c := with_buffer c b in
        match event with Some event => on_buffer_event c event | None => mret c end
    | WsMessage now msg => on_ws_message c now msg
    | PingTick now => mret (on_tick c now)
    end
  else mret c.

Fixpoint bridge_run (c : Client) (ops : list bridge_op) : exec Client :=
  match ops with
  | [] => mret c
  | op :: ops => c ← bridge_step c op; bridge_run c ops
  end.
End bridge.
Arguments Client : clear implicits.
Arguments bridge_op : clear implicits.
