(* ===== verification/BridgeSpec.v ===== *)
(** * What a bridged client sees

    The laws of the code [Bridge] calls, the frames that survive the way
    through the bridge, and the invariant of a session: kernel and userspace
    filter together are the client's latest filter. *)
From stdpp Require Import gmap sorting.
From S2P Require Import Prelude Text Canwsd Bridge.

(** ** Laws *)

(** What [socketcan] documents of its frames: the constructors accept every
    identifier in range, and [id_word] is the identifier with its flags.  A
    remote frame carries as many zero bytes as its DLC. *)
Class FrameLaws (C I : Type) `{CanFrames C I} := {
  id_bits : I → Z;
  extended_new x : 0 ≤ x ≤ CAN_EFF_MASK →
    ∃ i, ExtendedId_new x = Some i ∧ id_bits i = Z.lor x CAN_EFF_FLAG;
  standard_new x : 0 ≤ x ≤ CAN_SFF_MASK → ∃ i, StandardId_new x = Some i ∧ id_bits i = x;
  frame_new i d : len d ≤ 8 →
    ∃ c : C, CanFrame_new i d = Some c ∧ frame_id_word c = id_bits i ∧ frame_data c = d;
  remote_new i n : 0 ≤ n ≤ 8 →
    ∃ c : C, CanRemoteFrame_new i n = Some c ∧
      frame_id_word c = Z.lor (id_bits i) CAN_RTR_FLAG ∧ frame_data c = zeros n;
}.

(** A filter without the bit the kernel takes as inversion in an identifier
    and as the error class in a mask. *)
Definition plain (f : CanFilter) : Prop :=
  Z.land (filter_id f) CAN_ERR_FLAG = 0 ∧ Z.land (filter_mask f) CAN_ERR_FLAG = 0.

(** The kernel's receive filter of a socket: [admits k word] tells whether a
    frame with that word gets through.  Only a successful call promises
    anything. *)
Class SocketLaws (K C : Type) `{CanSocket K C} := {
  admits : K → Z → bool;
  accept_all_ok k k' : set_filter_accept_all k = (k', Ok tt) → ∀ w, admits k' w = true;
  drop_all_ok k k' : set_filter_drop_all k = (k', Ok tt) → ∀ w, admits k' w = false;
  set_filters_ok k k' fs :
    Forall plain fs → set_filters k (map (λ f, (filter_id f, filter_mask f)) fs) = (k', Ok tt) →
    ∀ w, admits k' w = existsb (λ f, matches f w) fs;
  error_filter_keeps k w : admits (fst (set_error_filter_accept_all k)) w = admits k w;
  write_keeps k c w : admits (fst (write_frame k c)) w = admits k w;
}.

(** A sink logs what it accepted, and maybe a message whose sending failed. *)
Class SinkLaws (W : Type) `{WsSink W} := {
  log : W → list Message;
  send_log w m w' r : sink_send w m = (w', r) →
    log w' = log w ++ [m] ∨ (log w' = log w ∧ r ≠ Some (Ok tt));
}.

(** ** The exposed networks *)

Lemma text_le_total a b : BridgeHub.text_le a b = true ∨ BridgeHub.text_le b a = true.
Proof.
  revert b. induction a as [|x a IH]; intros [|y b]; cbn; auto.
  rewrite (Z.eqb_sym y x). destruct (Z.eqb_spec x y); [apply IH|].
  rewrite !Z.ltb_lt. lia.
Qed.

Lemma text_le_trans a b c :
  BridgeHub.text_le a b = true → BridgeHub.text_le b c = true → BridgeHub.text_le a c = true.
Proof.
  revert b c. induction a as [|x a IH]; intros [|y b] [|z c]; cbn; try done.
  destruct (Z.eqb_spec x y), (Z.eqb_spec y z), (Z.eqb_spec x z); subst; try done; rewrite ?Z.ltb_lt; try lia.
  apply IH.
Qed.

#[export] Instance text_before_total : Total BridgeHub.text_before.
Proof. intros a b. apply text_le_total. Qed.
#[export] Instance text_before_trans : Transitive BridgeHub.text_before.
Proof. intros a b c. apply text_le_trans. Qed.

(** The names are listed in order, each once, and resolve. *)
Lemma interface_names_spec h :
  StronglySorted BridgeHub.text_before (BridgeHub.interface_names h) ∧
  base.NoDup (BridgeHub.interface_names h) ∧
  ∀ n, n ∈ BridgeHub.interface_names h ↔ is_Some (BridgeHub.resolve h n).
Proof.
  unfold BridgeHub.interface_names, BridgeHub.resolve.
  pose proof (merge_sort_Permutation BridgeHub.text_before ((map_to_list (interfaces h)).*1)) as Hp.
  split; [apply StronglySorted_merge_sort; apply _|]. split.
  - rewrite Hp. apply NoDup_fst_map_to_list.
  - intros n. rewrite Hp, list_elem_of_fmap. split.
    + intros ([n' i] & -> & Hi). apply elem_of_map_to_list in Hi. by exists i.
    + intros [i Hi]. exists (n, i). split; [done|]. by apply elem_of_map_to_list.
Qed.

(** The last specification of a name decides. *)
Lemma resolve_new specs n :
  BridgeHub.resolve (BridgeHub.new specs) n
  = list.last (omap (λ '(can_name, exposed), if decide (exposed = n) then Some can_name else None) specs).
Proof.
  unfold BridgeHub.resolve, BridgeHub.new. cbn [interfaces].
  induction specs as [|[i e] specs IH] using rev_ind; [done|].
  rewrite fold_left_app, omap_app. cbn [fold_left omap list_omap].
  destruct (decide (e = n)) as [->|].
  - by rewrite lookup_insert_eq, last_snoc.
  - by rewrite lookup_insert_ne, app_nil_r.
Qed.

(** ** Identifier words *)

(** The frames [WireFrame.new] and [decode] build. *)
Definition wire_frame (word : Z) (d : list Z) : WireFrame :=
  mkWire word (len d) (d ++ zeros (8 - len d)).

(** The word of the frame that goes out for a frame with [word]. *)
Definition sent_word (word : Z) : Z :=
  if negb (Z.land word CAN_EFF_FLAG =? 0) then word
  else Z.land word (Z.lor CAN_RTR_FLAG CAN_SFF_MASK).

(** Split a bit index below 32 into its cases. *)
Ltac bit_cases n :=
  assert (n = 0 ∨ n = 1 ∨ n = 2 ∨ n = 3 ∨ n = 4 ∨ n = 5 ∨ n = 6 ∨ n = 7 ∨
    n = 8 ∨ n = 9 ∨ n = 10 ∨ n = 11 ∨ n = 12 ∨ n = 13 ∨ n = 14 ∨ n = 15 ∨
    n = 16 ∨ n = 17 ∨ n = 18 ∨ n = 19 ∨ n = 20 ∨ n = 21 ∨ n = 22 ∨ n = 23 ∨
    n = 24 ∨ n = 25 ∨ n = 26 ∨ n = 27 ∨ n = 28 ∨ n = 29 ∨ n = 30 ∨ n = 31) as Hn by lia;
  repeat (destruct Hn as [->|Hn]; [|]); try subst n.

(** Evaluate the bits of constants. *)
Ltac const_bits :=
  repeat match goal with
  | |- context [Z.testbit ?m ?k] =>
      let b := eval vm_compute in (Z.testbit m k) in
      match b with true => idtac | false => idtac end;
      change (Z.testbit m k) with b
  end.

(** Compare two words made of [w] bit by bit. *)
Ltac by_bits w Hw :=
  apply Z.bits_inj'; intros n Hn0; rewrite ?Z.lor_spec, ?Z.land_spec;
  destruct (Z.ltb_spec n 32) as [Hlt|Hge];
  [bit_cases n; const_bits;
   match goal with |- context [Z.testbit w ?k] => destruct (Z.testbit w k) eqn:? end;
   cbn [andb orb]; congruence
  |repeat match goal with
   | |- context [Z.testbit ?m n] => rewrite (testbit_small m 32 n) by first [done | apply Hw | by split]
   end; done].

Lemma ext_word w :
  is_u32 w → Z.testbit w 31 = true → Z.testbit w 30 = false → Z.testbit w 29 = false →
  Z.lor (Z.land w CAN_EFF_MASK) CAN_EFF_FLAG = w.
Proof. intros Hw H31 H30 H29. by_bits w Hw. Qed.

Lemma ext_rtr_word w :
  is_u32 w → Z.testbit w 31 = true → Z.testbit w 30 = true → Z.testbit w 29 = false →
  Z.lor (Z.lor (Z.land w CAN_EFF_MASK) CAN_EFF_FLAG) CAN_RTR_FLAG = w.
Proof. intros Hw H31 H30 H29. by_bits w Hw. Qed.

Lemma std_word w :
  is_u32 w → Z.testbit w 30 = false →
  Z.land w CAN_SFF_MASK = Z.land w (Z.lor CAN_RTR_FLAG CAN_SFF_MASK).
Proof. intros Hw H30. by_bits w Hw. Qed.

Lemma std_rtr_word w :
  is_u32 w → Z.testbit w 30 = true →
  Z.lor (Z.land w CAN_SFF_MASK) CAN_RTR_FLAG = Z.land w (Z.lor CAN_RTR_FLAG CAN_SFF_MASK).
Proof. intros Hw H30. by_bits w Hw. Qed.

Lemma wire_flags word d :
  WireFrame.is_extended (wire_frame word d) = Z.testbit word 31 ∧
  WireFrame.is_rtr (wire_frame word d) = Z.testbit word 30 ∧
  WireFrame.is_error (wire_frame word d) = Z.testbit word 29.
Proof. split_and!; [by apply (flag_bit word 31)|by apply (flag_bit word 30)|by apply (flag_bit word 29)]. Qed.

Lemma wire_from_data {C I} `{CanFrames C I} (c : C) word d :
  frame_id_word c = word → frame_data c = d → len d ≤ 8 →
  wire_from_can_frame c = Ret (Some (wire_frame word d)).
Proof.
  intros <- <- Hd. unfold wire_from_can_frame. rewrite WireFrame_new_spec.
  by rewrite (proj2 (Z.ltb_ge 8 _)) by done.
Qed.

Lemma can_frame_runs {C I} `{CanFrames C I} word d :
  len d ≤ 8 → runs (can_frame_from_wire (C := C) (wire_frame word d)) (λ _, True).
Proof.
  intros Hd. unfold can_frame_from_wire. destruct (WireFrame.is_error _); [done|].
  destruct (if WireFrame.is_extended _ then _ else _); [|done].
  destruct (WireFrame.is_rtr _); [done|]. unfold wire_frame. by rewrite WireFrame_data_spec.
Qed.

Section transmission.
Context {C I : Type} `{FrameLaws C I}.

(** The identifier of a frame that is not an error frame is accepted. *)
Lemma wire_id_accepted word d :
  is_u32 word → Z.testbit word 29 = false →
  ∃ i : I,
    (if WireFrame.is_extended (wire_frame word d) then ExtendedId_new (WireFrame.id (wire_frame word d))
     else StandardId_new (wrap 16 (WireFrame.id (wire_frame word d)))) = Some i ∧
    (if Z.testbit word 30 then Z.lor (id_bits i) CAN_RTR_FLAG else id_bits i) = sent_word word.
Proof.
  intros Hw H29. unfold WireFrame.id, sent_word.
  change (negb (Z.land word CAN_EFF_FLAG =? 0)) with (WireFrame.is_extended (wire_frame word d)).
  destruct (wire_flags word d) as (-> & _ & _). cbn [wire_frame id_word].
  assert (∀ n, Z.land word (Z.ones n) = word mod 2 ^ n ∨ n < 0) as Hones.
  { intros n. destruct (decide (n < 0)); [by right|left]. apply Z.land_ones. lia. }
  destruct (Z.testbit word 31) eqn:H31.
  - destruct (extended_new (Z.land word CAN_EFF_MASK)) as (i & Hi & Hb).
    { destruct (Hones 29) as [Ho|]; [|done]. change (Z.ones 29) with CAN_EFF_MASK in Ho. rewrite Ho.
      pose proof (Z.mod_pos_bound word (2 ^ 29) eq_refl). unfold CAN_EFF_MASK. lia. }
    exists i. split; [exact Hi|]. rewrite Hb.
    destruct (Z.testbit word 30) eqn:H30; [by apply ext_rtr_word|by apply ext_word].
  - assert (0 ≤ Z.land word CAN_SFF_MASK ≤ CAN_SFF_MASK) as Hr.
    { destruct (Hones 11) as [Ho|]; [|done]. change (Z.ones 11) with CAN_SFF_MASK in Ho. rewrite Ho.
      pose proof (Z.mod_pos_bound word (2 ^ 11) eq_refl). unfold CAN_SFF_MASK. lia. }
    rewrite wrap_id by (unfold is_uint, CAN_SFF_MASK in *; lia).
    destruct (standard_new _ Hr) as (i & Hi & Hb). exists i. split; [exact Hi|]. rewrite Hb.
    destruct (Z.testbit word 30) eqn:H30; [by apply std_rtr_word|by apply std_word].
Qed.

(** The frame a client's frame becomes on the bus: the identifier of a standard
    frame is cut to eleven bits. *)
Lemma frame_crosses_masked word d :
  is_u32 word → len d ≤ 8 →
  runs (can_frame_from_wire (C := C) (wire_frame word d)) (λ out,
    match out with
    | None => WireFrame.is_error (wire_frame word d) = true
    | Some frame =>
        WireFrame.is_error (wire_frame word d) = false ∧
        wire_from_can_frame frame
        = Ret (Some (wire_frame (sent_word word)
                       (if WireFrame.is_rtr (wire_frame word d) then zeros (len d) else d)))
    end).
Proof.
  intros Hw Hd. unfold can_frame_from_wire.
  destruct (wire_flags word d) as (_ & Hrtr & Herr). rewrite Herr, Hrtr.
  destruct (Z.testbit word 29) eqn:H29; [done|].
  destruct (wire_id_accepted word d Hw H29) as (i & -> & Hword).
  destruct (Z.testbit word 30).
  - destruct (remote_new i (len d)) as (c & Hc & Hc1 & Hc2); [lia|].
    cbn [wire_frame dlc]. rewrite Hc. split; [done|].
    apply wire_from_data; [congruence|done|by rewrite len_zeros by lia].
  - unfold wire_frame at 1. rewrite WireFrame_data_spec by done. rstep.
    destruct (frame_new i d Hd) as (c & Hc & Hc1 & Hc2). rewrite Hc. split; [done|].
    apply wire_from_data; congruence.
Qed.

(** An extended frame, or a standard one whose identifier has eleven bits. *)
Definition id_in_range (word : Z) : Prop :=
  Z.testbit word 31 = true ∨ Z.land word CAN_EFF_MASK ≤ CAN_SFF_MASK.

Lemma sent_word_in_range word :
  is_u32 word → id_in_range word → Z.testbit word 29 = false → sent_word word = word.
Proof.
  intros Hw Hr H29. unfold sent_word. change CAN_EFF_FLAG with (2 ^ 31). rewrite flag_bit by done.
  destruct (Z.testbit word 31) eqn:H31; [done|]. destruct Hr as [|Hr]; [congruence|].
  assert (∀ k, 11 ≤ k → Z.testbit (Z.land word CAN_EFF_MASK) k = false) as Hlow.
  { intros k Hk. apply (testbit_small _ 11); [lia| |done]. unfold CAN_SFF_MASK in Hr. split; [|lia].
    apply Z.land_nonneg. left. apply Hw. }
  apply Z.bits_inj'. intros n Hn0. rewrite Z.land_spec. destruct (Z.ltb_spec n 32) as [Hlt|Hge].
  - destruct (Z.ltb_spec n 11) as [Hl|Hh].
    + bit_cases n; try lia; const_bits; by rewrite andb_true_r.
    + specialize (Hlow n Hh). rewrite Z.land_spec in Hlow.
      bit_cases n; try lia; const_bits; rewrite ?andb_false_r, ?andb_true_r, ?H29, ?H31; try done;
        rewrite <- Hlow; by rewrite andb_true_r.
  - by rewrite (testbit_small word 32) by first [done | apply Hw].
Qed.

(** C35. A client's frame with an identifier in range, on its way to the bus:
    error frames are refused and only they; every other frame is written and
    reads back from the bus as exactly the frame that was sent, the same
    identifier, format and remote flag with the same length and data; a remote
    frame carries no data, its length is kept. *)
Theorem frame_crosses_bridge word d :
  is_u32 word → len d ≤ 8 → id_in_range word →
  runs (can_frame_from_wire (C := C) (wire_frame word d)) (λ out,
    match out with
    | None => Z.testbit word 29 = true
    | Some frame =>
        Z.testbit word 29 = false ∧
        wire_from_can_frame frame
        = Ret (Some (wire_frame word (if Z.testbit word 30 then zeros (len d) else d)))
    end).
Proof.
  intros Hw Hd Hr. destruct (wire_flags word d) as (_ & Hrtr & Herr).
  eapply runs_mono; [by apply frame_crosses_masked|]. rewrite Hrtr, Herr.
  intros [frame|]; [|done]. intros [H29 Hf]. by rewrite sent_word_in_range in Hf.
Qed.
End transmission.

(** ** The filters *)

Definition filter_plain (filter : option (list CanFilter)) : Prop :=
  match filter with Some fs => Forall plain fs | None => True end.

Definition shaped (f : WireFrame) : Prop := ∃ word d, len d ≤ 8 ∧ f = wire_frame word d.

Lemma decode_shaped buf :
  bytes buf →
  runs (WireFrame.decode buf) (λ r, match r with Ok f => shaped f | Err _ => True end).
Proof.
  intros Hb.
  destruct (decide (5 ≤ len buf ∧ at_ buf 4 ≤ 8 ∧ len buf = 5 + at_ buf 4)) as [(H5 & H8 & He)|Hno].
  - destruct (buffer_message buf Hb H5 He) as (word & d & Hw & _ & Hl & ->).
    rewrite decode_message by (done || lia). exists word, d. split; [lia|done].
  - unfold WireFrame.decode, WIRE_HEADER_SIZE.
    destruct (Z.ltb_spec (len buf) 5); [done|]. cbv zeta.
    destruct (Z.ltb_spec 8 (at_ buf 4)); [done|].
    destruct (Z.eqb_spec (len buf) (5 + at_ buf 4)); [|done]. destruct Hno. lia.
Qed.

Lemma encode_shaped f :
  shaped f →
  WireFrame.encode f ≫= (λ '(buf, n), slice buf 0 n)
  = Ret (message (id_word f) (take (Z.to_nat (dlc f)) (wire_data f))).
Proof.
  intros (word & d & Hd & ->). unfold wire_frame. cbn [id_word dlc wire_data].
  rewrite encode_message by done. rstep. pose proof (length_message word d) as Hm.
  rewrite slice_prefix by (rewrite ?length_app; lia).
  rewrite take_app_length' by lia. by rewrite Nat2Z.id, take_app_length.
Qed.

Section filters.
Context {C I K W : Type} `{CanFrames C I} `{SocketLaws K C} `{WsSink W} `{Json}.
Implicit Types c : Client K W.

(** No frame gets through that the client does not want. *)
Definition filter_sound (k : K) (filter : option (list CanFilter)) (userspace : bool) : Prop :=
  ∀ w, admits k w && (negb userspace || wanted filter w) = true → wanted filter w = true.

(** The calls that widen the kernel filter do not fail. *)
Definition widening_works : Prop := ∀ k : K, snd (set_filter_accept_all k) = Ok tt.

(** Every frame the client wants gets through the kernel. *)
Definition filter_complete (k : K) (filter : option (list CanFilter)) : Prop :=
  ∀ w, wanted filter w = true → admits k w = true.

Lemma widened k : widening_works → ∀ w, admits (fst (set_filter_accept_all k)) w = true.
Proof.
  intros Hw. destruct (set_filter_accept_all k) as [k' r] eqn:E.
  specialize (Hw k). rewrite E in Hw. cbn [fst snd] in *. subst r. exact (accept_all_ok _ _ E).
Qed.

Lemma apply_filter_spec k filter :
  filter_plain filter →
  let '(k', userspace) := apply_filter k filter in
  filter_sound k' filter userspace ∧ (widening_works → filter_complete k' filter).
Proof.
  intros Hp.
  assert (∀ k', filter_sound k' filter true) as Hchecked.
  { intros k' w Hw. cbn [negb orb] in Hw. by apply andb_true_iff in Hw as [_ ?]. }
  assert (widening_works → filter_complete (fst (set_filter_accept_all k)) filter) as Hopen.
  { intros Hw w _. by apply widened. }
  unfold apply_filter. destruct filter as [[|f fs]|].
  - destruct (set_filter_drop_all k) as [k' [[]|e]] eqn:E.
    + split; [|intros _ w Hw; discriminate].
      intros w Hw. by rewrite (drop_all_ok _ _ E w) in Hw.
    + split; [apply Hchecked|intros _ w Hw; discriminate].
  - destruct (MAX_KERNEL_FILTERS <? len (f :: fs)).
    + destruct (set_filter_accept_all k) as [k' r]. split; [apply Hchecked|exact Hopen].
    + destruct (set_filters k _) as [k' [[]|e]] eqn:E.
      * pose proof (set_filters_ok _ _ _ Hp E) as Hk.
        split; [intros w Hw|intros _ w Hw]; [|by rewrite Hk].
        rewrite Hk in Hw.
        by apply andb_true_iff in Hw as [? _].
      * assert (widening_works → ∀ w, admits (fst (set_filter_accept_all k')) w = true) as Ha by apply widened.
        destruct (set_filter_accept_all k') as [k2 r]. split; [apply Hchecked|].
        intros Hw w _. by apply Ha.
  - destruct (set_filter_accept_all k) as [k' r]. split; [by intros w|done].
Qed.
(** What the operations of a run may be: binary messages are bytes and filter
    commands are plain. *)
Definition op_ok (op : bridge_op C) : Prop :=
  match op with
  | WsMessage _ (Some (Ok (Binary data))) => bytes data
  | WsMessage _ (Some (Ok (WsText text))) =>
      match parse_command text with Some (SetFilter fs) => Forall plain fs | _ => True end
  | _ => True
  end.

(** The client's filter after an operation. *)
Definition latest (filter : option (list CanFilter)) (op : bridge_op C) : option (list CanFilter) :=
  match op with
  | WsMessage _ (Some (Ok (WsText text))) =>
      match parse_command text with
      | Some (SetFilter fs) => Some fs
      | Some ClearFilter => None
      | None => filter
      end
  | _ => filter
  end.

(** The frame buffer holds encodable frames, never more than its capacity. *)
Definition buffer_ok (b : DropBuffer.State WireFrame) : Prop :=
  Forall shaped (DropBuffer.items b) ∧ DropBuffer.capacity b = FRAME_BUFFER ∧
  len (DropBuffer.items b) ≤ FRAME_BUFFER.

Definition client_inv c : Prop :=
  buffer_ok (buffer c) ∧
  filter_sound (sock c) (filter c) (userspace_filter c) ∧
  (widening_works → filter_complete (sock c) (filter c)).

Lemma send_ws_cases (w : W) m :
  ∃ w', send_ws w m = (w', Ok tt) ∨ send_ws w m = (w', Err tt).
Proof. unfold send_ws. destruct (sink_send w m) as [w' [[]|]]; eauto. Qed.

Lemma send_or_break_cases c m :
  ∃ w, send_or_break c m = with_tx c w ∨ send_or_break c m = disconnect (with_tx c w).
Proof.
  unfold send_or_break. destruct (send_ws_cases (ws_tx c) m) as [w [-> | ->]]; eauto.
Qed.

Lemma client_inv_send c m :
  client_inv c → client_inv (send_or_break c m) ∧ filter (send_or_break c m) = filter c.
Proof. by destruct (send_or_break_cases c m) as [w [-> | ->]]. Qed.

Lemma client_inv_write c frame :
  client_inv c → client_inv (with_sock c (fst (write_frame (sock c) frame))).
Proof.
  intros (Hi & Hs & Hc). split; [done|]. split.
  - intros w. cbn [sock with_sock filter userspace_filter]. rewrite write_keeps. apply Hs.
  - intros Hw w Hwant. cbn [sock with_sock]. rewrite write_keeps. by apply Hc.
Qed.

Lemma client_inv_buffer c b :
  client_inv c → buffer_ok b → client_inv (with_buffer c b).
Proof. by intros (_ & ?). Qed.

Lemma push_ok b f : buffer_ok b → shaped f → buffer_ok (DropBuffer.push b f).
Proof.
  intros (Hb & Hc & Hl) Hf. unfold DropBuffer.push, buffer_ok. rewrite Hc.
  destruct (Z.leb_spec FRAME_BUFFER (len (DropBuffer.items b))); cbn [DropBuffer.items DropBuffer.capacity].
  - split; [by repeat constructor|]. split; [done|]. by cbn.
  - split; [apply Forall_app; by repeat constructor|]. split; [done|]. rewrite length_app. cbn [length]. lia.
Qed.

Lemma next_items {T} (P : T → Prop) b b' ev :
  Forall P (DropBuffer.items b) → DropBuffer.next b = (b', ev) →
  Forall P (DropBuffer.items b') ∧ match ev with Some (Item x) => P x | _ => True end.
Proof.
  intros Hb. unfold DropBuffer.next.
  destruct (0 <? _); [by intros [= <- <-]|].
  destruct (DropBuffer.items b) as [|x l] eqn:E.
  - destruct (DropBuffer.closed b); intros [= <- <-]; rewrite ?E; by repeat constructor.
  - intros [= <- <-]. by apply List.Forall_cons_iff in Hb as [? ?].
Qed.

Lemma next_ok b b' ev :
  buffer_ok b → DropBuffer.next b = (b', ev) →
  buffer_ok b' ∧ match ev with Some (Item x) => shaped x | _ => True end.
Proof.
  intros (Hb & Hc & Hl) Hn. destruct (next_items shaped _ _ _ Hb Hn) as [Hb' Hev]. split; [|done].
  split; [done|]. revert Hn. unfold DropBuffer.next.
  destruct (0 <? _); [by intros [= <- <-]|].
  destruct (DropBuffer.items b) as [|x l] eqn:E.
  - destruct (DropBuffer.closed b); intros [= <- <-]; by rewrite ?E.
  - intros [= <- <-]. cbn [DropBuffer.capacity DropBuffer.items length] in *. split; [done|lia].
Qed.

Lemma wire_from_can_frame_ret (f : C) :
  wire_from_can_frame f
  = Ret (if 8 <? len (frame_data f) then None else Some (wire_frame (frame_id_word f) (frame_data f))).
Proof. apply WireFrame_new_spec. Qed.

Lemma on_buffer_event_ret c ev :
  match ev with Item f => shaped f | _ => True end →
  on_buffer_event c ev = Ret
    match ev with
    | Item f =>
        if passes c f
        then send_or_break c (Binary (message (id_word f) (take (Z.to_nat (dlc f)) (wire_data f))))
        else c
    | Overflow n => send_or_break c (WsText (overflow_status n))
    | Closed e =>
        let '(tx, r) := send_ws (ws_tx c) (WsText (bus_error_status e)) in
        disconnect (with_tx c
          match r with Ok _ => fst (send_ws tx (WsClose (Some (BUS_ERROR, e)))) | Err _ => tx end)
    end.
Proof.
  intros Hev. destruct ev as [f|n|e]; cbn [on_buffer_event]; [|done|].
  - destruct (passes c f); [|done]. pose proof (encode_shaped f Hev) as He.
    destruct (WireFrame.encode f) as [[buf n]|]; [|done]. rstep. cbn [mbind exec_bind] in He.
    by rewrite He.
  - by destruct (send_ws (ws_tx c) _).
Qed.

Lemma client_inv_event c ev :
  client_inv c → match ev with Item f => shaped f | _ => True end →
  runs (on_buffer_event c ev) (λ c', client_inv c' ∧ filter c' = filter c).
Proof.
  intros Hc Hev. rewrite on_buffer_event_ret by done. cbn [runs]. destruct ev as [f|n|e].
  - destruct (passes c f); [by apply client_inv_send|done].
  - by apply client_inv_send.
  - by destruct (send_ws (ws_tx c) _).
Qed.
Lemma client_inv_command c cmd :
  client_inv c → match cmd with SetFilter fs => Forall plain fs | ClearFilter => True end →
  client_inv (on_command c cmd).
Proof.
  intros (Hi & _) Hp. unfold on_command.
  destruct cmd as [fs|].
  - pose proof (apply_filter_spec (sock c) (Some fs) Hp) as Ha. by destruct (apply_filter _ _).
  - pose proof (apply_filter_spec (sock c) None Logic.I) as Ha. by destruct (apply_filter _ _).
Qed.

Lemma client_inv_message c now data :
  client_inv c → bytes data →
  runs (on_ws_message c now (Some (Ok (Binary data)))) (λ c', client_inv c' ∧ filter c' = filter c).
Proof.
  intros Hc Hb. cbn [on_ws_message].
  set (c1 := mkClient _ _ _ _ _ _ _ _). assert (client_inv c1) as Hc1 by done.
  apply (runs_bind _ _ _ _ (decode_shaped _ Hb)). intros [f|]; [|done]. intros (word & d & Hd & ->).
  apply (runs_bind _ _ (λ _, True)).
  { by apply can_frame_runs. }
  intros [out|] _; [|done]. pose proof (client_inv_write c1 out Hc1) as Hw.
  destruct (write_frame (sock c1) out) as [k [r|]]; done.
Qed.

Lemma bridge_step_inv c op :
  op_ok op → client_inv c →
  runs (bridge_step c op) (λ c',
    client_inv c' ∧ (running c' = true → running c = true ∧ filter c' = latest (filter c) op)).
Proof.
  intros Hop Hc. unfold bridge_step. destruct (running c) eqn:Hr; [|by cbn; rewrite Hr].
  destruct op as [r| |now msg|now].
  - destruct (reading c); [|done]. destruct r as [f|e]; [|done]. cbn [reader_step].
    rewrite wire_from_can_frame_ret. rstep.
    destruct (Z.ltb_spec 8 (len (frame_data f))); [done|]. split; [|done].
    apply client_inv_buffer; [done|]. apply push_ok; [apply Hc|by eexists _, _].
  - destruct (DropBuffer.next (buffer c)) as [b ev] eqn:E.
    destruct (next_ok _ _ _ (proj1 Hc) E) as [Hb Hev].
    pose proof (client_inv_buffer c b Hc Hb) as Hc'.
    destruct ev as [ev|]; [|done].
    eapply runs_mono; [by apply client_inv_event|]. by intros c1 [? ?].
  - destruct msg as [[[data|text| | |cl]|]|]; try done.
    + eapply runs_mono; [by apply client_inv_message|]. by intros c1 [? ?].
    + cbn [on_ws_message op_ok latest] in *. destruct (parse_command text) as [cmd|]; [|done].
      split; [apply client_inv_command; [done|by destruct cmd]|].
      intros _. split; [done|]. unfold on_command. by destruct cmd, (apply_filter _ _).
  - cbn [runs]. unfold on_tick. destruct (CLIENT_TIMEOUT <? _); [done|].
    destruct (client_inv_send c Ping Hc). by split.
Qed.

Lemma bridge_run_inv c ops :
  Forall op_ok ops → client_inv c →
  runs (bridge_run c ops) (λ c',
    client_inv c' ∧ (running c' = true → running c = true ∧ filter c' = fold_left latest ops (filter c))).
Proof.
  intros Hops. revert c. induction Hops as [|op ops Hop Hops IH]; intros c Hc; [done|].
  cbn [bridge_run fold_left]. apply (runs_bind _ _ _ _ (bridge_step_inv c op Hop Hc)).
  intros c1 [Hc1 Hr1]. eapply runs_mono; [by apply IH|].
  intros c2 [Hc2 Hr2]. split; [done|]. intros Hr. destruct (Hr2 Hr) as [Hr' ->].
  destruct (Hr1 Hr') as [? ->]. done.
Qed.

(** The socket a session starts with. *)
Lemma opened_filter can_name flt want_errors (k : K) userspace :
  filter_plain flt → open_client_socket can_name flt want_errors = Ok (k, userspace) →
  filter_sound k flt userspace ∧ (widening_works → filter_complete k flt).
Proof.
  intros Hp Hopen. unfold open_client_socket in Hopen.
  destruct (socket_open can_name) as [k0|]; [|done].
  pose proof (apply_filter_spec k0 flt Hp) as Ha.
  destruct (apply_filter k0 flt) as [k1 us]. destruct Ha as [Hs Hc]. injection Hopen as Hk ->.
  assert (∀ w, admits k w = admits k1 w) as Heq.
  { intros w. subst k. destruct want_errors; [apply error_filter_keeps|done]. }
  split; [intros w|intros Hw w]; rewrite Heq; [apply Hs|by apply Hc].
Qed.

(** A session so far: its invariant, and the filter in force. *)
Lemma session_ok can_name flt want_errors (w0 : W) k userspace now ops :
  filter_plain flt → open_client_socket can_name flt want_errors = Ok (k, userspace) → Forall op_ok ops →
  runs (c ← run_client_start w0 k flt userspace now; bridge_run c ops) (λ c,
    client_inv c ∧ (running c = true → filter c = fold_left latest ops flt)).
Proof.
  intros Hp Hopen Hops. pose proof (opened_filter _ _ _ _ _ Hp Hopen) as Hk.
  unfold run_client_start.
  change (DropBuffer.new FRAME_BUFFER)
    with (Ret (DropBuffer.mkState (T := WireFrame) FRAME_BUFFER [] 0 None)).
  rstep. eapply runs_mono; [apply bridge_run_inv; [done|]|].
  - split; [|done]. split; [constructor|]. by split.
  - intros c [Hc Hf]. split; [done|]. intros Hr. by apply Hf.
Qed.
End filters.
