(* ===== verification/BridgeDelivery.v ===== *)
(** * What a bridged client sees: delivery

    Between two filter commands the messages a client of the bridge receives
    are those of the lossy queue of [Canwsd], rendered by the check of the loop;
    frames that arrived under the filter in force are rendered by that
    filter. *)
From S2P Require Import Prelude Text Canwsd Bridge BridgeSpec.

Section delivery.
Context {C I K W : Type} `{CanFrames C I} `{SocketLaws K C} `{SinkLaws W} `{Json}.
Implicit Types c : Client K W.

(** ** The abstract client *)

Definition wire_message (f : WireFrame) : list Z :=
  message (id_word f) (take (Z.to_nat (dlc f)) (wire_data f)).

(** What the client is sent for an event of the queue, when it is sent the
    frames that [sends] says. *)
Definition render (sends : WireFrame → bool) (ev : BufferEvent WireFrame) : list Message :=
  match ev with
  | Item f => if sends f then [Binary (wire_message f)] else []
  | Overflow n => [WsText (overflow_status n)]
  | Closed e => [WsText (bus_error_status e); WsClose (Some (BUS_ERROR, e))]
  end.

(** The frames a client with a filter wants; error frames bypass it. *)
Definition wants (filter : option (list CanFilter)) (f : WireFrame) : bool :=
  WireFrame.is_error f || wanted filter (id_word f).

(** Keepalive pings carry nothing. *)
Definition payload (l : list Message) : list Message :=
  List.filter (λ m, negb (bool_decide (m = Ping))) l.

(** What an operation does to the queue. *)
Definition queue_ops (reading : bool) (op : bridge_op C) : list (buffer_op WireFrame) :=
  match op with
  | ReadFrame (Ok f) =>
      if reading && (len (frame_data f) <=? 8) then [Push (wire_frame (frame_id_word f) (frame_data f))]
      else []
  | ReadFrame (Err e) => if reading then [Close e] else []
  | BufferNext => [Next]
  | _ => []
  end.

(** The reader stops at the first error. *)
Definition reading_after (reading : bool) (op : bridge_op C) : bool :=
  match op with ReadFrame (Err _) => false | _ => reading end.

Fixpoint run_queue_ops (reading : bool) (ops : list (bridge_op C)) : list (buffer_op WireFrame) :=
  match ops with
  | [] => []
  | op :: ops => queue_ops reading op ++ run_queue_ops (reading_after reading op) ops
  end.

(** The kernel hands out what its filter admits, and error frames. *)
Definition arrives (k : K) (op : bridge_op C) : Prop :=
  match op with
  | ReadFrame (Ok f) =>
      Z.land (frame_id_word f) CAN_ERR_FLAG ≠ 0 ∨ admits k (frame_id_word f) = true
  | _ => True
  end.

(** No filter command. *)
Definition quiet (op : bridge_op C) : Prop :=
  match op with
  | WsMessage _ (Some (Ok (WsText text))) => parse_command text = None
  | _ => True
  end.

(** ** One step *)

Definition same_filter c c' : Prop :=
  filter c' = filter c ∧ userspace_filter c' = userspace_filter c ∧
  ∀ w, admits (sock c') w = admits (sock c) w.

Lemma same_passes c c' f : same_filter c c' → passes c' f = passes c f.
Proof. intros (Hf & Hu & _). unfold passes. by rewrite Hf, Hu. Qed.

(** [c'] is [c] after the queue events [evs]. *)
Definition advances c c' (reading' : bool) (evs : list (option (BufferEvent WireFrame))) : Prop :=
  ∃ sent, log (ws_tx c') = log (ws_tx c) ++ sent ∧
    payload sent `prefix_of` flat_map (render (passes c)) (omap id evs) ∧
    (running c' = true →
       payload sent = flat_map (render (passes c)) (omap id evs) ∧
       reading c' = reading' ∧ same_filter c c').

Lemma send_or_break_log c m :
  ∃ sent, log (ws_tx (send_or_break c m)) = log (ws_tx c) ++ sent ∧
    (sent = [m] ∨ sent = [] ∧ running (send_or_break c m) = false).
Proof.
  unfold send_or_break, send_ws. destruct (sink_send (ws_tx c) m) as [w r] eqn:E.
  destruct (send_log _ _ _ _ E) as [Hl|[Hl Hr]].
  - exists [m]. destruct r as [[[]|]|]; (split; [exact Hl|by left]).
  - exists []. rewrite app_nil_r. destruct r as [[[]|]|]; [done| |]; (split; [exact Hl|by right]).
Qed.

(** A message sent for one event, or a ping for none. *)
Lemma send_advances c m evs :
  running c = true → payload [m] = flat_map (render (passes c)) (omap id evs) →
  advances c (send_or_break c m) (reading c) evs ∧ buffer (send_or_break c m) = buffer c.
Proof.
  intros Hr Hm. split.
  - destruct (send_or_break_log c m) as (sent & Hl & Hs). exists sent. split; [exact Hl|].
    destruct Hs as [->|[-> Hs]].
    + rewrite Hm. split; [done|]. intros Hrun. split; [done|].
      destruct (send_or_break_cases c m) as [w [Hc|Hc]]; rewrite Hc in *; [by split|done].
    + split; [apply prefix_nil|]. by rewrite Hs.
  - by destruct (send_or_break_cases c m) as [w [-> | ->]].
Qed.

Lemma close_advances c e :
  let c' := let '(tx, r) := send_ws (ws_tx c) (WsText (bus_error_status e)) in
    disconnect (with_tx c
      match r with Ok _ => fst (send_ws tx (WsClose (Some (BUS_ERROR, e)))) | Err _ => tx end) in
  ∀ reading', advances c c' reading' [Some (Closed e)].
Proof.
  cbv zeta. intros reading'. unfold send_ws.
  destruct (sink_send (ws_tx c) _) as [w r] eqn:E. pose proof (send_log _ _ _ _ E) as Hl.
  destruct r as [[[]|]|]; cbn [fst].
  - destruct Hl as [Hl|[_ Hl]]; [|done].
    destruct (sink_send w _) as [w2 r2] eqn:E2. destruct (send_log _ _ _ _ E2) as [Hl2|[Hl2 _]].
    + exists [WsText (bus_error_status e); WsClose (Some (BUS_ERROR, e))].
      split; [destruct r2 as [[[]|]|]; cbn; by rewrite Hl2, Hl, <- app_assoc|]. by split.
    + exists [WsText (bus_error_status e)].
      split; [destruct r2 as [[[]|]|]; cbn; by rewrite Hl2, Hl|]. split; [by eexists|done].
  - destruct Hl as [Hl|[Hl _]]; [exists [WsText (bus_error_status e)]|exists []];
      (split; [cbn; rewrite ?app_nil_r; exact Hl|]; split; [|done]); [by eexists|apply prefix_nil].
  - destruct Hl as [Hl|[Hl _]]; [exists [WsText (bus_error_status e)]|exists []];
      (split; [cbn; rewrite ?app_nil_r; exact Hl|]; split; [|done]); [by eexists|apply prefix_nil].
Qed.

(** Nothing sent, and nothing to send. *)
Lemma silent_advances c c' reading' evs :
  flat_map (render (passes c)) (omap id evs) = [] → ws_tx c' = ws_tx c →
  (running c' = true → reading c' = reading' ∧ same_filter c c') → advances c c' reading' evs.
Proof.
  intros He Hw Hs. exists []. rewrite app_nil_r, Hw, He. split; [done|]. split; [apply prefix_nil|].
  intros Hr. by split; [|apply Hs].
Qed.

Lemma buffer_run_one (b b' : DropBuffer.State WireFrame) op ev :
  buffer_step b op = (b', ev) → buffer_run b [op] = (b', [ev]).
Proof. intros E. cbn [buffer_run]. by rewrite E. Qed.

(** The result of a step. *)
Definition step_delivers c (op : bridge_op C) c' : Prop :=
  ∃ evs, buffer_run (buffer c) (queue_ops (reading c) op) = (buffer c', evs) ∧
    advances c c' (reading_after (reading c) op) evs ∧
    buffer_ok (buffer c').

Lemma step_delivers_intro c op c' evs :
  buffer_run (buffer c) (queue_ops (reading c) op) = (buffer c', evs) →
  advances c c' (reading_after (reading c) op) evs →
  buffer_ok (buffer c') → step_delivers c op c'.
Proof. by exists evs. Qed.

Lemma quiet_delivers c op c' :
  buffer_ok (buffer c) → queue_ops (reading c) op = [] → reading_after (reading c) op = reading c →
  ws_tx c' = ws_tx c → buffer c' = buffer c →
  (running c' = true → reading c' = reading c ∧ same_filter c c') → step_delivers c op c'.
Proof.
  intros Hk Hq Hr Hw Hb Hs. apply (step_delivers_intro _ _ _ []).
  - by rewrite Hq, Hb.
  - rewrite Hr. by apply silent_advances.
  - by rewrite Hb.
Qed.

Lemma read_delivers c r :
  buffer_ok (buffer c) → reading c = true → runs (reader_step c r) (step_delivers c (ReadFrame r)).
Proof.
  intros Hk Hr. destruct r as [f|e]; cbn [reader_step].
  - rewrite wire_from_can_frame_ret. rstep. destruct (Z.ltb_spec 8 (len (frame_data f))) as [H8|H8].
    + apply quiet_delivers; try done. cbn [queue_ops]. rewrite (proj2 (Z.leb_gt _ 8)) by done.
      by rewrite andb_false_r.
    + eapply step_delivers_intro; [| |by apply push_ok; [|by eexists _, _]].
      * cbn [queue_ops]. rewrite Hr, (proj2 (Z.leb_le _ 8)) by done. by apply buffer_run_one.
      * by apply silent_advances.
  - eapply step_delivers_intro; [| |exact Hk].
    + cbn [queue_ops]. rewrite Hr. by apply buffer_run_one.
    + by apply silent_advances.
Qed.

Lemma next_delivers c b ev :
  buffer_ok (buffer c) → running c = true → DropBuffer.next (buffer c) = (b, ev) →
  runs (match ev with
        | Some event => on_buffer_event (with_buffer c b) event
        | None => mret (with_buffer c b)
        end) (step_delivers c BufferNext).
Proof.
  intros Hk Hrun Hn. destruct (next_ok _ _ _ Hk Hn) as [Hb Hev].
  assert (buffer_run (buffer c) [Next] = (b, [ev])) as Hq by by apply buffer_run_one.
  destruct ev as [ev|]; [|by apply (step_delivers_intro _ _ _ [None]); [done|apply silent_advances|done]].
  rewrite on_buffer_event_ret by (by destruct ev). cbn [runs].
  destruct ev as [f|n|e].
  - change (passes (with_buffer c b) f) with (passes c f). destruct (passes c f) eqn:Hw.
    + destruct (send_advances (with_buffer c b) (Binary (wire_message f)) [Some (Item f)]) as [Ha He];
        [done|cbn; by change (passes (with_buffer c b) f) with (passes c f); rewrite Hw|]. unfold wire_message in *.
      eapply step_delivers_intro; [by rewrite He|exact Ha|by rewrite He].
    + eapply step_delivers_intro; [exact Hq| |done]. apply silent_advances; [|done..].
      cbn. by rewrite Hw.
  - destruct (send_advances (with_buffer c b) (WsText (overflow_status n)) [Some (Overflow n)]) as [Ha He];
      [done..|].
    eapply step_delivers_intro; [by rewrite He|exact Ha|by rewrite He].
  - pose proof (close_advances (with_buffer c b) e (reading c)) as Ha. cbv zeta in Ha.
    destruct (send_ws _ _) as [tx r].
    eapply step_delivers_intro; [exact Hq|exact Ha|done].
Qed.

Lemma bridge_step_delivers c op :
  op_ok op → quiet op → buffer_ok (buffer c) → running c = true →
  runs (bridge_step c op) (step_delivers c op).
Proof.
  intros Hop Hq Hk Hrun. unfold bridge_step. rewrite Hrun. destruct op as [r| |now msg|now].
  - destruct (reading c) eqn:Hr; [by apply read_delivers|].
    apply quiet_delivers; rewrite ?Hr; try done; by destruct r.
  - destruct (DropBuffer.next (buffer c)) as [b ev] eqn:E. by apply next_delivers.
  - destruct msg as [[[data|text| | |cl]|]|]; try by apply quiet_delivers.
    + cbn [on_ws_message]. apply (runs_bind _ _ _ _ (decode_shaped _ Hop)).
      intros [f|]; [|by intros _; apply quiet_delivers]. intros (word & d & Hd & ->).
      apply (runs_bind _ _ (λ _, True)); [by apply can_frame_runs|].
      intros [out|] _; [|by apply quiet_delivers]. cbn [sock].
      destruct (write_frame (sock c) out) as [k' r] eqn:E.
      assert (∀ w, admits k' w = admits (sock c) w) as Hw.
      { intros w. pose proof (write_keeps (sock c) out w) as Hw. by rewrite E in Hw. }
      destruct r; by apply quiet_delivers.
    + cbn [on_ws_message quiet] in *. rewrite Hq. by apply quiet_delivers.
  - cbn [runs]. unfold on_tick. destruct (CLIENT_TIMEOUT <? _); [by apply quiet_delivers|].
    destruct (send_advances c Ping [] Hrun eq_refl) as [Hs He].
    apply (step_delivers_intro _ _ _ []); [by rewrite He|exact Hs|by rewrite He].
Qed.

(** ** Runs *)

Lemma buffer_run_app {T} (b : DropBuffer.State T) ops1 ops2 b1 e1 b2 e2 :
  buffer_run b ops1 = (b1, e1) → buffer_run b1 ops2 = (b2, e2) →
  buffer_run b (ops1 ++ ops2) = (b2, e1 ++ e2).
Proof.
  revert b e1. induction ops1 as [|op ops1 IH]; intros b e1 Hr1 Hr2; cbn [buffer_run app] in *.
  - by injection Hr1 as -> <-.
  - destruct (buffer_step b op) as [b0 ev]. destruct (buffer_run b0 ops1) as [b1' e1'] eqn:E.
    injection Hr1 as -> <-. by rewrite (IH _ _ E Hr2).
Qed.

Lemma bridge_run_stopped c ops : running c = false → bridge_run c ops = Ret c.
Proof.
  intros Hr. induction ops as [|op ops IH]; [done|].
  cbn [bridge_run]. unfold bridge_step. by rewrite Hr.
Qed.

Lemma payload_app l1 l2 : payload (l1 ++ l2) = payload l1 ++ payload l2.
Proof. apply List.filter_app. Qed.

(** A session from [c], for the operations [processed] of a run. *)
Definition session_log c (processed rest : list (bridge_op C)) c' : Prop :=
  ∃ b evs sent,
    buffer_run (buffer c) (run_queue_ops (reading c) processed) = (b, evs) ∧
    log (ws_tx c') = log (ws_tx c) ++ sent ∧
    payload sent `prefix_of` flat_map (render (passes c)) (omap id evs) ∧
    (running c' = true → rest = [] ∧ payload sent = flat_map (render (passes c)) (omap id evs)).

Lemma render_ext p p' evs :
  (∀ f, In (Item f) evs → p f = p' f) → flat_map (render p) evs = flat_map (render p') evs.
Proof.
  intros Hp. induction evs as [|ev evs IH]; [done|]. cbn [flat_map].
  rewrite IH by (intros f Hf; apply Hp; by right). f_equal.
  destruct ev as [f| |]; try done. cbn [render]. by rewrite Hp by by left.
Qed.

Lemma session_log_step c op c1 processed rest c' :
  step_delivers c op c1 → running c1 = true → session_log c1 processed rest c' →
  session_log c (op :: processed) rest c'.
Proof.
  intros (evs1 & Hb1 & (sent1 & Hl1 & _ & Hs1) & _) Hr1 (b & evs & sent & Hb & Hl & Hp & Hend).
  destruct (Hs1 Hr1) as (He1 & Hread & Hsame). exists b, (evs1 ++ evs), (sent1 ++ sent).
  rewrite Hread in Hb. rewrite (render_ext (passes c1) (passes c)) in * by (intros; by apply same_passes).
  rewrite omap_app, flat_map_app, payload_app, He1. split.
  - cbn [run_queue_ops]. by eapply buffer_run_app.
  - split; [by rewrite Hl, Hl1, app_assoc|]. split; [by apply prefix_app|].
    intros Hr. destruct (Hend Hr) as [-> ->]. done.
Qed.

Lemma bridge_run_delivers c ops :
  Forall op_ok ops → Forall quiet ops → buffer_ok (buffer c) → running c = true →
  runs (bridge_run c ops) (λ c', ∃ processed rest, ops = processed ++ rest ∧ session_log c processed rest c').
Proof.
  revert c. induction ops as [|op ops IH]; intros c Hop Hq Hk Hr.
  { cbn. exists [], []. split; [done|]. exists (buffer c), [], []. by rewrite app_nil_r. }
  apply List.Forall_cons_iff in Hop as [Hop Hops], Hq as [Hq Hqs].
  cbn [bridge_run]. apply (runs_bind _ _ _ _ (bridge_step_delivers c op Hop Hq Hk Hr)).
  intros c1 Hs. destruct (running c1) eqn:Hr1.
  - assert (buffer_ok (buffer c1)) as Hk1 by by destruct Hs as (? & _ & _ & ?).
    eapply runs_mono; [by apply IH|]. intros c' (processed & rest & -> & Hlog).
    exists (op :: processed), rest. split; [done|]. by eapply session_log_step.
  - rewrite bridge_run_stopped by done. exists [op], ops. split; [done|].
    destruct Hs as (evs & Hb & (sent & Hl & Hp & _) & _). exists (buffer c1), evs, sent.
    cbn [run_queue_ops]. rewrite app_nil_r. split; [done|]. split; [done|]. split; [done|]. by rewrite Hr1.
Qed.

Lemma length_run_queue_ops reading ops : len (run_queue_ops reading ops) ≤ len ops.
Proof.
  revert reading. induction ops as [|op ops IH]; intros reading; [done|].
  cbn [run_queue_ops]. rewrite length_app. specialize (IH (reading_after reading op)).
  enough (len (queue_ops reading op) ≤ 1) by (cbn [length]; lia).
  destruct op as [[f|e]| | |]; cbn [queue_ops]; try by cbn.
  - by destruct (_ && _).
  - by destruct reading.
Qed.

(** ** The frames of a session *)

Lemma buffer_run_items {T} (P : T → Prop) (b b' : DropBuffer.State T) ops evs :
  Forall P (DropBuffer.items b) → (∀ x, In (Push x) ops → P x) → buffer_run b ops = (b', evs) →
  ∀ x, In (Some (Item x)) evs → P x.
Proof.
  revert b evs. induction ops as [|op ops IH]; intros b evs Hb Hp Hrun x Hx; cbn [buffer_run] in Hrun.
  { by injection Hrun as <- <-. }
  destruct (buffer_step b op) as [b1 ev] eqn:E. destruct (buffer_run b1 ops) as [b2 evs2] eqn:E2.
  injection Hrun as <- <-.
  enough (Forall P (DropBuffer.items b1) ∧ match ev with Some (Item y) => P y | _ => True end) as [Hb1 Hev].
  { destruct Hx as [->|Hx]; [exact Hev|]. eapply IH; [exact Hb1| |exact E2|exact Hx]. intros y Hy. apply Hp. by right. }
  destruct op as [y|e|]; cbn [buffer_step] in E.
  - injection E as <- <-. split; [|done].
    assert (Forall P [y]) by (apply List.Forall_cons; [apply Hp; by left|apply List.Forall_nil]).
    unfold DropBuffer.push. destruct (_ <=? _); cbn [DropBuffer.items]; [done|]. by apply Forall_app.
  - by injection E as <- <-.
  - by eapply next_items.
Qed.

(** A frame the kernel let through is one the client wants, or the loop
    checks it. *)
Lemma arrived_wanted c f :
  client_inv c → arrives (sock c) (ReadFrame (Ok f)) →
  let wf := wire_frame (frame_id_word f) (frame_data f) in passes c wf = wants (filter c) wf.
Proof.
  intros (_ & Hsound & _) Ha. cbv zeta. unfold passes, wants, WireFrame.is_error. cbn [arrives wire_frame id_word] in *.
  destruct (Z.eqb_spec (Z.land (frame_id_word f) CAN_ERR_FLAG) 0) as [He|]; [|done].
  destruct Ha as [|Ha]; [done|]. cbn [negb orb].
  specialize (Hsound (frame_id_word f)). rewrite Ha in Hsound. cbn [andb] in Hsound.
  destruct (userspace_filter c); [done|]. cbn [negb orb] in *. symmetry. by apply Hsound.
Qed.

Lemma pushed_arrived reading k ops x :
  Forall (arrives k) ops → In (Push x) (run_queue_ops reading ops) →
  ∃ f : C, x = wire_frame (frame_id_word f) (frame_data f) ∧ arrives k (ReadFrame (Ok f)).
Proof.
  intros Ha. revert reading. induction Ha as [|op ops Hop Ha IH]; intros reading; [done|].
  cbn [run_queue_ops]. intros [Hx|Hx]%in_app_iff; [|by eapply IH].
  destruct op as [[f|e]| |now msg|now]; cbn [queue_ops] in Hx.
  - destruct (_ && _); [|done]. destruct Hx as [[= <-]|[]]. by exists f.
  - destruct reading; [|done]. by destruct Hx as [|[]].
  - by destruct Hx as [|[]].
  - done.
  - done.
Qed.

(** What comes out of the buffer was in it, or is wanted by the filter if it
    passes the loop's check. *)
Lemma session_items c processed rest b evs :
  client_inv c → Forall (arrives (sock c)) (processed ++ rest) →
  buffer_run (buffer c) (run_queue_ops (reading c) processed) = (b, evs) →
  ∀ f, In (Item f) (omap id evs) → f ∈ DropBuffer.items (buffer c) ∨ passes c f = wants (filter c) f.
Proof.
  intros Hc [Ha _]%Forall_app Hb f Hf. rewrite <- list_elem_of_In, list_elem_of_omap in Hf.
  destruct Hf as (ev & Hev & [= ->]).
  eapply (buffer_run_items (λ f, f ∈ DropBuffer.items (buffer c) ∨ passes c f = wants (filter c) f));
    [| |exact Hb|by apply list_elem_of_In].
  - apply Forall_forall. intros x Hx%list_elem_of_In. by left.
  - intros x Hx. right. destruct (pushed_arrived _ _ _ _ Ha Hx) as (fr & -> & Hfr). by apply arrived_wanted.
Qed.

(** The message of a frame. *)
Lemma render_binary p evs d :
  In (Binary d) (flat_map (render p) evs) → ∃ f, d = wire_message f ∧ In (Item f) evs ∧ p f = true.
Proof.
  intros ([f|n|e] & Hev & Hd)%in_flat_map; cbn [render] in Hd.
  - destruct (p f) eqn:Hp; [|done]. destruct Hd as [[= <-]|[]]. by exists f.
  - by destruct Hd as [|[]].
  - by destruct Hd as [|[|[]]].
Qed.

Lemma in_payload d l : In (Binary d) l → In (Binary d) (payload l).
Proof. intros Hd. apply filter_In. by split. Qed.

(** C33. A client sees the bus as a lossy queue behind its filter.  Take any
    moment of a session whose filters are plain (no filter uses the error bit
    in its identifier or mask, which the kernel takes as inversion): its start, or
    a moment behind any number of filter commands at which no loss is
    unreported and the buffer holds no frame that only an earlier filter let
    in.  From there to the next filter command the client is sent, apart from
    keepalive pings and in bus order, the frames that the filter in force
    wants and the error frames, each as one binary message, those already
    buffered first; an overflow status says how many frames were lost before any
    later one; a bus error is announced by its status and a close frame, and
    only after everything that came before.  A session that has ended has sent
    a prefix of that, one that is still running has sent all of it.  No step
    panics. *)
Theorem client_sees_lossy_queue can_name flt want_errors (w0 : W) k userspace now before ops :
  filter_plain flt → open_client_socket can_name flt want_errors = Ok (k, userspace) →
  Forall op_ok before → Forall op_ok ops → Forall quiet ops → len ops + FRAME_BUFFER < 2 ^ 64 →
  runs (c ← run_client_start w0 k flt userspace now; bridge_run c before) (λ c1,
    let wanted_now := wants (fold_left latest before flt) in
    running c1 = true → DropBuffer.dropped (buffer c1) = 0 →
    userspace_filter c1 = true ∨ Forall (λ f, wanted_now f = true) (DropBuffer.items (buffer c1)) →
    Forall (arrives (sock c1)) ops →
    runs (bridge_run c1 ops) (λ c,
      ∃ processed rest evs q sent,
        ops = processed ++ rest ∧
        queue_run FRAME_BUFFER (DropBuffer.items (buffer c1), DropBuffer.closed (buffer c1))
          (run_queue_ops (reading c1) processed) evs q ∧
        log (ws_tx c) = log (ws_tx c1) ++ sent ∧
        payload sent `prefix_of` flat_map (render wanted_now) (omap id evs) ∧
        (running c = true → rest = [] ∧ payload sent = flat_map (render wanted_now) (omap id evs)))).
Proof.
  intros Hp Hopen Hbefore Hops Hq Hlen.
  eapply runs_mono; [by apply (session_ok can_name flt want_errors w0 k userspace now before)|].
  cbv zeta. intros c1 [Hc1 Hf] Hrun Hdrop Hfresh Ha. rewrite <- (Hf Hrun) in Hfresh |- *.
  eapply runs_mono; [apply (bridge_run_delivers c1 ops Hops Hq (proj1 Hc1) Hrun)|].
  intros c (processed & rest & -> & b & evs & sent & Hb & Hl & Hs & Hend).
  assert (flat_map (render (passes c1)) (omap id evs) = flat_map (render (wants (filter c1))) (omap id evs)) as Hr.
  { apply render_ext. intros f Hin.
    destruct (session_items c1 processed rest b evs Hc1 Ha Hb f Hin) as [Hold|]; [|done].
    destruct Hfresh as [Hu|Hw].
    - unfold passes, wants. rewrite Hu. by rewrite orb_false_r.
    - assert (wants (filter c1) f = true) as Hwf.
      { rewrite List.Forall_forall in Hw. by apply Hw, list_elem_of_In. }
      rewrite Hwf. unfold passes, wants in *. by destruct (WireFrame.is_error f), (userspace_filter c1). }
  destruct Hc1 as [(_ & Hcap & Hi) _]. rewrite Hr in *.
  eapply buffer_run_rel in Hb as (q & Hqueue & _); [by exists processed, rest, evs, q, sent|done|].
  pose proof (length_run_queue_ops (reading c1) processed) as Hn. rewrite length_app in Hlen.
  split; [done|]. split; [done|]. split; [done|].
  exists [], 0. split_and!; try done; cbn [fst length app]; lia.
Qed.

(** C34. The filter a client asked for is the filter it gets, as long as its
    filters are plain (no filter uses the error bit in its identifier or mask).  After whatever
    happened on the bus and on the WebSocket, and whichever calls of the socket
    failed, the kernel filter and the check in the loop together let no frame
    through that the client's latest filter excludes, and exactly what it
    admits as long as the socket can be set to accept everything.  So from any
    moment until the next filter command, every frame the client is sent is an
    error frame or one that its latest filter wants, unless it was already in
    the buffer at that moment. *)
Theorem client_filter_enforced can_name flt want_errors (w0 : W) k userspace now before :
  filter_plain flt → open_client_socket can_name flt want_errors = Ok (k, userspace) →
  Forall op_ok before →
  runs (c ← run_client_start w0 k flt userspace now; bridge_run c before) (λ c1,
    (running c1 = true → filter c1 = fold_left latest before flt) ∧
    (∀ w, admits (sock c1) w && (negb (userspace_filter c1) || wanted (filter c1) w) = true →
       wanted (filter c1) w = true) ∧
    (widening_works → ∀ w,
       admits (sock c1) w && (negb (userspace_filter c1) || wanted (filter c1) w) = wanted (filter c1) w) ∧
    (running c1 = true → ∀ since,
       Forall op_ok since → Forall quiet since → Forall (arrives (sock c1)) since →
       runs (bridge_run c1 since) (λ c2, ∃ sent,
         log (ws_tx c2) = log (ws_tx c1) ++ sent ∧
         ∀ d, In (Binary d) sent → ∃ f, d = wire_message f ∧
           (f ∈ DropBuffer.items (buffer c1) ∨ wants (filter c1) f = true)))).
Proof.
  intros Hp Hopen Hbefore.
  eapply runs_mono; [by apply (session_ok can_name flt want_errors w0 k userspace now before)|].
  intros c1 [Hc1 Hf]. pose proof Hc1 as (Hb & Hsound & Hcomplete). split; [done|]. split; [exact Hsound|]. split.
  { intros Hw w. destruct (wanted (filter c1) w) eqn:Hwant.
    - rewrite (Hcomplete Hw w Hwant). by rewrite orb_true_r.
    - apply not_true_iff_false. intros Htrue. pose proof (Hsound w) as Hs. rewrite Hwant in Hs.
      by specialize (Hs Htrue). }
  intros Hrun since Hops Hq Ha. eapply runs_mono; [apply (bridge_run_delivers c1 since Hops Hq Hb Hrun)|].
  intros c2 (processed & rest & -> & b & evs & sent & Hbr & Hl & [more Hs] & _). exists sent. split; [done|].
  intros d Hd. apply in_payload in Hd.
  assert (In (Binary d) (flat_map (render (passes c1)) (omap id evs))) as Hin
    by (rewrite Hs; apply in_app_iff; by left).
  apply render_binary in Hin as (f & -> & Hin & Hpass). exists f. split; [done|].
  destruct (session_items c1 processed rest b evs Hc1 Ha Hbr f Hin) as [|Heq]; [by left|right; congruence].
Qed.
End delivery.
