(* ===== verification/BridgeDemo.v ===== *)
(** * A concrete socket for the bridge

    The kernel's documented receive filter, a socket whose [accept_all] may
    fail, a sink that accepts everything and a small command encoding: the
    laws of [BridgeSpec] hold of them, and the theorems apply. *)
From S2P Require Import Prelude Text Canwsd Bridge BridgeSpec BridgeDelivery.

(** A frame is its identifier word and its data, an identifier its bits. *)
#[export] Instance plain_frames : CanFrames (Z * list Z) Z := {
  frame_id_word := fst;
  frame_data := snd;
  ExtendedId_new x := if x <=? CAN_EFF_MASK then Some (Z.lor x CAN_EFF_FLAG) else None;
  StandardId_new x := if x <=? CAN_SFF_MASK then Some x else None;
  CanFrame_new i d := if len d <=? 8 then Some (i, d) else None;
  CanRemoteFrame_new i n := if n <=? 8 then Some (Z.lor i CAN_RTR_FLAG, zeros n) else None;
}.

#[export] Instance plain_frame_laws : FrameLaws (Z * list Z) Z.
Proof.
  refine {| id_bits := λ i : Z, i |}.
  - intros x [_ Hx]. cbn. rewrite (proj2 (Z.leb_le _ _) Hx). eauto.
  - intros x [_ Hx]. cbn. rewrite (proj2 (Z.leb_le _ _) Hx). eauto.
  - intros i d Hd. cbn. rewrite (proj2 (Z.leb_le _ _) Hd). eauto.
  - intros i n [_ Hn]. cbn. rewrite (proj2 (Z.leb_le _ _) Hn). eauto.
Defined.

(** The kernel's filter list ([None] when everything passes), whether
    [accept_all] fails, and what was written. *)
Record DemoSocket := mkDemo {
  kernel_filters : option (list (Z * Z));
  accept_fails : bool;
  written : list (Z * list Z);
}.

Definition with_filters (k : DemoSocket) (f : option (list (Z * Z))) : DemoSocket :=
  mkDemo f (accept_fails k) (written k).

#[export] Instance demo_socket : CanSocket DemoSocket (Z * list Z) := {
  socket_open name := Ok (mkDemo None (bool_decide (name = [1])) []);
  set_filter_accept_all k := if accept_fails k then (k, Err []) else (with_filters k None, Ok tt);
  set_filter_drop_all k := (with_filters k (Some []), Ok tt);
  set_filters k l := (with_filters k (Some l), Ok tt);
  set_error_filter_accept_all k := (k, Ok tt);
  write_frame k f := (mkDemo (kernel_filters k) (accept_fails k) (written k ++ [f]), Some (Ok tt));
}.

(** The kernel's match, with its inverted filters. *)
Definition kernel_match (w : Z) (f : Z * Z) : bool :=
  let '(id, mask) := f in
  if Z.land id CAN_ERR_FLAG =? 0 then Z.land w mask =? Z.land id mask
  else negb (Z.land w mask =? Z.land id mask).

Definition demo_admits (k : DemoSocket) (w : Z) : bool :=
  match kernel_filters k with None => true | Some l => existsb (kernel_match w) l end.

#[export] Instance demo_laws : SocketLaws DemoSocket (Z * list Z).
Proof.
  refine {| admits := demo_admits |}; cbn.
  - intros k k'. destruct (accept_fails k); [done|]. by intros [= <-] w.
  - by intros k k' [= <-] w.
  - intros k k' fs Hp [= <-] w. unfold demo_admits. cbn [kernel_filters with_filters].
    induction Hp as [|f fs [Hid _] Hp IH]; [done|]. cbn [map existsb].
    rewrite IH. cbn [kernel_match]. by rewrite Hid.
  - done.
  - done.
Defined.

#[export] Instance demo_sink : WsSink (list Message) := {
  sink_send w m := (w ++ [m], Some (Ok tt));
}.

#[export] Instance demo_sink_laws : SinkLaws (list Message).
Proof. refine {| log := λ w : list Message, w |}. intros w m w' r [= <- <-]. by left. Defined.

#[export] Instance demo_json : Json := {
  overflow_status n := [n];
  bus_error_status e := e;
  parse_command t :=
    match t with
    | [] => Some ClearFilter
    | [id; mask] => Some (SetFilter [mkFilter id mask])
    | _ => None
    end;
}.

Definition demo_filter : option (list CanFilter) := Some [mkFilter 0x181 0x7FF].

Definition demo_frame (word : Z) : bridge_op (Z * list Z) := ReadFrame (Ok (word, [7])).
Definition demo_text (t : list Z) : bridge_op (Z * list Z) := WsMessage 5 (Some (Ok (WsText t))).

(** A wanted frame, then a filter command. *)
Definition demo_before : list (bridge_op (Z * list Z)) :=
  [demo_frame 0x181; BufferNext; demo_text [0x182; 0x7FF]].

(** A frame, an error frame, a frame from the client, a ping, a bus error. *)
Definition demo_ops : list (bridge_op (Z * list Z)) :=
  [demo_frame 0x182; BufferNext; demo_frame 0x20000004; BufferNext;
   WsMessage 3 (Some (Ok (Binary (message 0x601 [1; 2])))); PingTick 4; ReadFrame (Err [9]); BufferNext].

Definition demo_start : exec (Client DemoSocket (list Message)) :=
  run_client_start ([] : list Message) (mkDemo (Some [(0x181, 0x7FF)]) false []) demo_filter false 0.

Lemma frame_crosses_bridge_witness :
  is_u32 0x40000123 ∧ len [1; 2] ≤ 8 ∧ id_in_range 0x40000123 ∧
  can_frame_from_wire (wire_frame 0x40000123 [1; 2]) = Ret (Some (0x40000123, [0; 0])) ∧
  runs (can_frame_from_wire (C := Z * list Z) (wire_frame 0x40000123 [1; 2])) (λ out,
    match out with
    | None => Z.testbit 0x40000123 29 = true
    | Some frame =>
        Z.testbit 0x40000123 29 = false ∧
        wire_from_can_frame frame
        = Ret (Some (wire_frame 0x40000123 (if Z.testbit 0x40000123 30 then zeros (len [1; 2]) else [1; 2])))
    end).
Proof.
  assert (id_in_range 0x40000123) as Hr by (right; by vm_compute).
  split; [by split|]. split; [done|]. split; [exact Hr|]. split; [reflexivity|].
  apply (frame_crosses_bridge (C := Z * list Z) (I := Z)); [by split|done|exact Hr].
Defined.

(** A standard frame with more than eleven bits of identifier is written with
    the low eleven. *)
Example identifier_cut : can_frame_from_wire (wire_frame 0x923 [1]) = Ret (Some (0x123, [1])).
Proof. reflexivity. Qed.

Lemma plain_demo : plain (mkFilter 0x181 0x7FF).
Proof. by split. Qed.

Lemma bytes_demo : bytes (message 0x601 [1; 2]).
Proof. by apply (bool_decide_unpack _). Qed.

Lemma demo_before_ok : Forall (op_ok (C := Z * list Z)) demo_before.
Proof.
  repeat (apply List.Forall_cons; [first [done|apply List.Forall_cons; [by split|apply List.Forall_nil]]|]).
  apply List.Forall_nil.
Qed.

Lemma demo_filter_plain : filter_plain demo_filter.
Proof. apply List.Forall_cons; [exact plain_demo|apply List.Forall_nil]. Qed.

(** The client behind the filter command. *)
Definition demo_client : Client DemoSocket (list Message) :=
  mkClient (mkDemo (Some [(0x182, 0x7FF)]) false []) (DropBuffer.mkState FRAME_BUFFER [] 0 None) true
    [Binary (message 0x181 [7])] (Some [mkFilter 0x182 0x7FF]) false 5 true.

Lemma demo_client_eq : (c ← demo_start; bridge_run c demo_before) = Ret demo_client.
Proof. vm_compute. reflexivity. Qed.

Lemma demo_arrives : Forall (arrives (C := Z * list Z) (sock demo_client)) demo_ops.
Proof.
  repeat (apply List.Forall_cons; [first [exact Logic.I|by right|by left]|]). apply List.Forall_nil.
Qed.

(** A filter command in the middle of a session. *)
Lemma client_filter_enforced_witness :
  open_client_socket [] demo_filter true = Ok (mkDemo (Some [(0x181, 0x7FF)]) false [], false) ∧
  (c ← demo_start; bridge_run c demo_before) = Ret demo_client ∧
  Forall (arrives (C := Z * list Z) (sock demo_client)) demo_ops ∧
  runs (c ← demo_start; bridge_run c demo_before) (λ c1,
    (running c1 = true → filter c1 = fold_left latest demo_before demo_filter) ∧
    (∀ w, admits (sock c1) w && (negb (userspace_filter c1) || wanted (filter c1) w) = true →
       wanted (filter c1) w = true) ∧
    (widening_works (K := DemoSocket) (C := Z * list Z) → ∀ w,
       admits (sock c1) w && (negb (userspace_filter c1) || wanted (filter c1) w) = wanted (filter c1) w) ∧
    (running c1 = true → ∀ since,
       Forall op_ok since → Forall quiet since → Forall (arrives (sock c1)) since →
       runs (bridge_run c1 since) (λ c2, ∃ sent,
         log (ws_tx c2) = log (ws_tx c1) ++ sent ∧
         ∀ d, In (Binary d) sent → ∃ f, d = wire_message f ∧
           (f ∈ DropBuffer.items (buffer c1) ∨ wants (filter c1) f = true)))).
Proof.
  split; [reflexivity|]. split; [exact demo_client_eq|]. split; [exact demo_arrives|].
  exact (client_filter_enforced (C := Z * list Z) (I := Z) [] demo_filter true [] _ false 0 demo_before
             demo_filter_plain eq_refl demo_before_ok).
Defined.

(** Behind a filter command, with the buffer empty. *)
Lemma client_sees_lossy_queue_witness :
  (c ← demo_start; bridge_run c demo_before) = Ret demo_client ∧
  Forall (arrives (C := Z * list Z) (sock demo_client)) demo_ops ∧
  runs (c ← demo_start; bridge_run c demo_before) (λ c1,
    let wanted_now := wants (fold_left latest demo_before demo_filter) in
    running c1 = true → DropBuffer.dropped (buffer c1) = 0 →
    userspace_filter c1 = true ∨ Forall (λ f, wanted_now f = true) (DropBuffer.items (buffer c1)) →
    Forall (arrives (sock c1)) demo_ops →
    runs (bridge_run c1 demo_ops) (λ c,
      ∃ processed rest evs q sent,
        demo_ops = processed ++ rest ∧
        queue_run FRAME_BUFFER (DropBuffer.items (buffer c1), DropBuffer.closed (buffer c1))
          (run_queue_ops (reading c1) processed) evs q ∧
        log (ws_tx c) = log (ws_tx c1) ++ sent ∧
        payload sent `prefix_of` flat_map (render wanted_now) (omap id evs) ∧
        (running c = true → rest = [] ∧ payload sent = flat_map (render wanted_now) (omap id evs)))) ∧
  runs (c ← demo_start; bridge_run c (demo_before ++ demo_ops)) (λ c,
    ws_tx c = [Binary (message 0x181 [7]); Binary (message 0x182 [7]); Binary (message 0x20000004 [7]); Ping;
               WsText [9]; WsClose (Some (BUS_ERROR, [9]))] ∧
    written (sock c) = [(0x601, [1; 2])] ∧ running c = false).
Proof.
  split; [exact demo_client_eq|]. split; [exact demo_arrives|]. split; [|by vm_compute].
  apply (client_sees_lossy_queue (C := Z * list Z) (I := Z) [] demo_filter true);
    [exact demo_filter_plain|reflexivity|exact demo_before_ok| | |done].
  - repeat (apply List.Forall_cons; [first [exact bytes_demo|done]|]). apply List.Forall_nil.
  - repeat (apply List.Forall_cons; [done|]). apply List.Forall_nil.
Defined.

(** ** Where the filter is not what was asked for *)

(** A frame buffered while the check was in the loop is forwarded once a new
    filter fits the kernel, although neither filter admits it. *)
Definition many_filters : list CanFilter := replicate 513 (mkFilter 0x181 0x7FF).

Example stale_frame_forwarded :
  runs (c ← run_client_start ([] : list Message) (mkDemo None false []) (Some many_filters) true 0;
        bridge_run c [demo_frame 0x200; demo_text [0x182; 0x7FF]; BufferNext])
    (λ c, ws_tx c = [Binary (message 0x200 [7])]) ∧
  wanted (Some many_filters) 0x200 = false ∧ wanted (Some [mkFilter 0x182 0x7FF]) 0x200 = false.
Proof. by vm_compute. Qed.

(** Clearing the filter while [accept_all] fails keeps the old kernel filter. *)
Example stale_kernel_filter :
  runs (c ← run_client_start ([] : list Message) (mkDemo (Some [(0x181, 0x7FF)]) true []) demo_filter false 0;
        bridge_run c [demo_text []])
    (λ c, filter c = None ∧ userspace_filter c = false ∧ admits (sock c) 0x200 = false).
Proof. by vm_compute. Qed.

(** The kernel takes the error bit of a filter identifier as inversion, the
    check in the loop does not: such a filter gets the client the frames that
    [matches] excludes. *)
Example inverted_filter :
  let flt := Some [mkFilter 0x20000181 0x7FF] in
  match open_client_socket (K := DemoSocket) (C := Z * list Z) [] flt true with
  | Ok (k, userspace) =>
      userspace = false ∧
      admits k 0x181 = false ∧ wanted flt 0x181 = true ∧ admits k 0x200 = true ∧ wanted flt 0x200 = false
  | Err _ => False
  end.
Proof. by vm_compute. Qed.
