(* ===== verification/FwMeta.v ===== *)
(** * Update metadata of the firmware updater

    [examples/emdm-fwupdate/common/src/lib.rs]: the flash map, the append-only
    log of metadata records in one page, and the checks of the application
    image.  The flash is the class [FlashOps] of the source, with the
    memory-mapped window as [flash_at]; a call whose power fails returns [None]
    and leaves the flash as it is then.  The CRC is the [crc] package's. *)
From S2P Require Import Prelude.

(** ** Flash map *)

Definition FLASH_BASE : Z := 0x08000000.
Definition FLASH_SIZE : Z := 128 * 1024.
Definition PAGE_SIZE : Z := 2 * 1024.
Definition BOOTLOADER_OFFSET : Z := 0.
Definition BOOTLOADER_SIZE : Z := 56 * 1024.
Definition META_OFFSET : Z := BOOTLOADER_OFFSET + BOOTLOADER_SIZE.
Definition META_SIZE : Z := PAGE_SIZE.
Definition APP_OFFSET : Z := META_OFFSET + META_SIZE.
Definition APP_SIZE : Z := FLASH_SIZE - APP_OFFSET.
Definition APP_BASE : Z := FLASH_BASE + APP_OFFSET.
Definition RAM_BASE : Z := 0x20000000.
Definition RAM_SIZE : Z := 32 * 1024.

(** ** Records *)

Class Crc32 := crc32 : list Z → Z.

Definition META_MAGIC : Z := 0x4D444D45.
Definition META_RECORD_SIZE : Z := 32.
Definition META_SLOTS : Z := META_SIZE / META_RECORD_SIZE.

Record MetaRecord := mkMeta {
  seq_no : Z;
  app_len : Z;
  app_crc : Z;
  app_valid : bool;
  update_requested : bool;
}.

#[export] Instance MetaRecord_eq_dec : EqDecision MetaRecord.
Proof. solve_decision. Defined.

(** [out[a..a + len].copy_from_slice(src)] at constant offsets in bounds. *)
Definition put (a : nat) (src out : list Z) : list Z := take a out ++ src ++ drop (a + length src) out.

(** [u32::from_le_bytes(raw[a..a + 4])] of a slice known to be long enough. *)
Definition u32_at (raw : list Z) (a : nat) : Z := from_le_bytes (take 4 (drop a raw)).

(** The slots of a page: [chunks_exact]. *)
Fixpoint chunks_exact_fuel (fuel n : nat) (l : list Z) : list (list Z) :=
  match fuel with
  | O => []
  | S fuel => if (length l <? n)%nat then [] else take n l :: chunks_exact_fuel fuel n (drop n l)
  end.

Definition chunks_exact (n : nat) (l : list Z) : list (list Z) := chunks_exact_fuel (length l) n l.

Definition erased (raw : list Z) : bool := forallb (λ b, b =? 0xFF) raw.

Module MetaRecord.

Definition BLANK : MetaRecord := mkMeta 0 0 0 false false.

Section crc.
Context `{Crc32}.

Definition encode (r : MetaRecord) : list Z :=
  let out := zeros META_RECORD_SIZE in
  let out := put 0 (to_le_bytes 4 META_MAGIC) out in
  let out := put 4 (to_le_bytes 4 (seq_no r)) out in
  let out := put 8 (to_le_bytes 4 (app_len r)) out in
  let out := put 12 (to_le_bytes 4 (app_crc r)) out in
  let out := set_at out 16 (Z.b2z (app_valid r)) in
  let out := set_at out 17 (Z.b2z (update_requested r)) in
  put 28 (to_le_bytes 4 (crc32 (take 28 out))) out.

Definition decode (raw : list Z) : option MetaRecord :=
  if negb (len raw =? META_RECORD_SIZE) then None
  else if negb (u32_at raw 0 =? META_MAGIC) then None
  else
    let stored := u32_at raw 28 in
    if negb (crc32 (take 28 raw) =? stored) then None
    else
      Some (mkMeta (u32_at raw 4) (u32_at raw 8) (u32_at raw 12)
              (negb (at_ raw 16 =? 0)) (negb (at_ raw 17 =? 0))).

End crc.

(** [next] with the mutation of each caller. *)
Definition next (r : MetaRecord) (f : MetaRecord → MetaRecord) : MetaRecord :=
  f (mkMeta (wrap 32 (seq_no r + 1)) (app_len r) (app_crc r) (app_valid r) (update_requested r)).

End MetaRecord.

(** ** The log *)

Section scan.
Context `{Crc32}.

(** [rec.seq != b.seq && rec.seq.wrapping_sub(b.seq) < (1 << 31)]. *)
Definition newer (rec b : MetaRecord) : bool :=
  negb (seq_no rec =? seq_no b) && (wrapping_sub 32 (seq_no rec) (seq_no b) <? 2 ^ 31).

Definition scan_slot (slot : Z) (raw : list Z) (acc : option MetaRecord * Z) : option MetaRecord * Z :=
  let '(best, next_free) := acc in
  let next_free := if (next_free =? META_SLOTS) && erased raw then slot else next_free in
  let best :=
    match MetaRecord.decode raw with
    | Some rec =>
        match best with
        | None => Some rec
        | Some b => if newer rec b then Some rec else best
        end
    | None => best
    end in
  (best, next_free).

Fixpoint scan_slots (slot : Z) (slots : list (list Z)) (acc : option MetaRecord * Z)
    : option MetaRecord * Z :=
  match slots with
  | [] => acc
  | raw :: slots => scan_slots (slot + 1) slots (scan_slot slot raw acc)
  end.

Definition scan_meta (page : list Z) : MetaRecord * Z :=
  let '(best, next_free) :=
    scan_slots 0 (chunks_exact (Z.to_nat META_RECORD_SIZE) page) (None, META_SLOTS) in
  (default MetaRecord.BLANK best, next_free).
End scan.

(** [flash_at f offset] is the byte at [FLASH_BASE + offset]. *)
Class FlashOps (F E : Type) := {
  flash_at : F → Z → Z;
  flash_write : F → Z → list Z → F * option (result unit E);
  flash_erase : F → Z → Z → F * option (result unit E);
}.

Section flash.
Context `{Crc32} {F E : Type} `{FlashOps F E}.

(** [n] bytes of the window. *)
Definition flash_bytes (f : F) (offset n : Z) : list Z :=
  (λ i : nat, flash_at f (offset + Z.of_nat i)) <$> seq 0 (Z.to_nat n).

Definition meta_page (f : F) : list Z := flash_bytes f META_OFFSET META_SIZE.

Definition load_meta (f : F) : MetaRecord * Z := scan_meta (meta_page f).

Definition append_meta (f : F) (rec : MetaRecord) : F * option (result unit E) :=
  let '(_, next_free) := load_meta f in
  if META_SLOTS <=? next_free then
    let '(f, r) := flash_erase f META_OFFSET (META_OFFSET + META_SIZE) in
    match r with
    | Some (Ok _) => flash_write f (META_OFFSET + 0 * META_RECORD_SIZE) (MetaRecord.encode rec)
    | Some (Err e) => (f, Some (Err e))
    | None => (f, None)
    end
  else flash_write f (META_OFFSET + next_free * META_RECORD_SIZE) (MetaRecord.encode rec).

(** ** Image checks *)

Definition app_image (f : F) (n : Z) : option (list Z) :=
  if (n =? 0) || (APP_SIZE <? n) then None else Some (flash_bytes f APP_OFFSET n).

Definition app_vector_table_plausible (f : F) (n : Z) : bool :=
  match app_image f n with
  | None => false
  | Some image =>
      if len image <? 8 then false
      else
        let sp := u32_at image 0 in
        let reset := u32_at image 4 in
        let sp_ok := (RAM_BASE <? sp) && (sp <=? RAM_BASE + RAM_SIZE) && (sp mod 8 =? 0) in
        let reset_ok := (Z.land reset 1 =? 1) && (APP_BASE <? reset) && (reset <? APP_BASE + n) in
        sp_ok && reset_ok
  end.

Definition app_image_verifies (f : F) (rec : MetaRecord) : bool :=
  if negb (app_vector_table_plausible f (app_len rec)) then false
  else
    match app_image f (app_len rec) with
    | Some image => crc32 image =? app_crc rec
    | None => false
    end.
End flash.
