(* ===== verification/FwMetaSpec.v ===== *)
(** * The metadata log survives power failures

    The slots of the page as a list, the order of the records in it, and what
    [append_meta] does to the record in force, however it ends. *)
From S2P Require Import Prelude FwMeta.

(** ** Records round trip *)

Definition wf_meta (r : MetaRecord) : Prop :=
  is_u32 (seq_no r) ∧ is_u32 (app_len r) ∧ is_u32 (app_crc r).

Class Crc32Laws `{Crc32} := { crc32_u32 l : is_u32 (crc32 l) }.

Section records.
Context `{Crc32Laws}.

(** The fields of a record in front of its checksum. *)
Definition record_body (r : MetaRecord) : list Z :=
  to_le_bytes 4 META_MAGIC ++ to_le_bytes 4 (seq_no r) ++ to_le_bytes 4 (app_len r) ++
  to_le_bytes 4 (app_crc r) ++ [Z.b2z (app_valid r); Z.b2z (update_requested r)] ++ zeros 10.

Lemma encode_layout r :
  MetaRecord.encode r = record_body r ++ to_le_bytes 4 (crc32 (record_body r)).
Proof. reflexivity. Qed.

Lemma length_encode r : len (MetaRecord.encode r) = META_RECORD_SIZE.
Proof. rewrite encode_layout. reflexivity. Qed.

Lemma le_id z : is_u32 z → from_le_bytes (to_le_bytes 4 z) = z.
Proof. intros Hz. apply from_to_le_id. exact Hz. Qed.

Lemma record_round_trip r : wf_meta r → MetaRecord.decode (MetaRecord.encode r) = Some r.
Proof.
  intros (Hs & Hl & Hc). unfold MetaRecord.decode. rewrite length_encode, Z.eqb_refl. cbn [negb].
  rewrite encode_layout.
  change (u32_at _ 0) with (from_le_bytes (to_le_bytes 4 META_MAGIC)).
  change (u32_at _ 4) with (from_le_bytes (to_le_bytes 4 (seq_no r))).
  change (u32_at _ 8) with (from_le_bytes (to_le_bytes 4 (app_len r))).
  change (u32_at _ 12) with (from_le_bytes (to_le_bytes 4 (app_crc r))).
  change (u32_at _ 28) with (from_le_bytes (to_le_bytes 4 (crc32 (record_body r)))).
  change (take 28 _) with (record_body r).
  rewrite !le_id by (done || apply crc32_u32 || by split). rewrite !Z.eqb_refl. cbn [negb].
  change (at_ _ 16) with (Z.b2z (app_valid r)). change (at_ _ 17) with (Z.b2z (update_requested r)).
  by destruct r as [? ? ? [] []].
Qed.

Lemma decode_wf raw r : bytes raw → MetaRecord.decode raw = Some r → wf_meta r.
Proof.
  intros Hb. unfold MetaRecord.decode.
  destruct (Z.eqb_spec (len raw) META_RECORD_SIZE) as [Hl|]; [|done]. cbn [negb].
  destruct (u32_at raw 0 =? META_MAGIC); [|done]. cbn [negb].
  destruct (crc32 (take 28 raw) =? u32_at raw 28); [|done]. intros [= <-].
  assert (∀ a, (a + 4 ≤ 32)%nat → is_u32 (u32_at raw a)) as Hu.
  { intros a Ha. unfold u32_at.
    assert (bytes (take 4 (drop a raw))) as Hb4 by (by apply Forall_take, Forall_drop).
    pose proof (from_le_range _ Hb4) as Hr. rewrite length_take, length_drop in Hr.
    unfold META_RECORD_SIZE in Hl. replace (Z.of_nat (Nat.min 4 (length raw - a))) with 4 in Hr by lia.
    exact Hr. }
  by split; [|split]; apply Hu; lia.
Qed.

(** An erased slot is no record. *)
Lemma erased_decode raw : erased raw = true → MetaRecord.decode raw = None.
Proof.
  intros He. unfold MetaRecord.decode.
  destruct (Z.eqb_spec (len raw) META_RECORD_SIZE) as [Hl|]; [|done]. cbn [negb].
  enough (u32_at raw 0 ≠ META_MAGIC) as Hne by (by rewrite (proj2 (Z.eqb_neq _ _) Hne)).
  destruct raw as [|b0 [|b1 [|b2 [|b3 raw]]]]; try (unfold META_RECORD_SIZE in Hl; cbn [length] in Hl; lia).
  cbn [erased forallb] in He.
  repeat (apply andb_true_iff in He as [?%Z.eqb_eq He]). subst. by vm_compute.
Qed.
End records.

(** ** The order of the log *)

Section log.
Context `{Crc32Laws}.
Implicit Types (slots : list (list Z)) (raw : list Z) (r : MetaRecord).

(** Slot [k] holds the record [r]. *)
Definition holds slots (k : nat) r : Prop := ∃ raw, slots !! k = Some raw ∧ MetaRecord.decode raw = Some r.

Definition is_erased slots (k : nat) : Prop := ∃ raw, slots !! k = Some raw ∧ erased raw = true.

(** Sequence numbers grow with the slots, by at most two per slot. *)
Definition numbered slots (base : Z) (d : nat → Z) : Prop :=
  (∀ k r, holds slots k r → seq_no r = wrap 32 (base + d k) ∧ 0 ≤ d k ≤ 2 * Z.of_nat k) ∧
  (∀ j k r r', (j < k)%nat → holds slots j r → holds slots k r' → d j < d k).

(** Records are in order and in front of the erased slots. *)
Definition log_ok slots : Prop :=
  (∃ base d, numbered slots base d) ∧
  (∀ j k r, holds slots j r → is_erased slots k → (j < k)%nat) ∧
  len slots = META_SLOTS.

(** The record in force. *)
Definition current slots : option MetaRecord := list.last (omap MetaRecord.decode slots).

Lemma holds_lt slots k r : holds slots k r → (k < length slots)%nat.
Proof. intros (raw & Hk & _). by apply lookup_lt_Some in Hk. Qed.

Lemma holds_snoc slots raw k r :
  holds (slots ++ [raw]) k r ↔ holds slots k r ∨ k = length slots ∧ MetaRecord.decode raw = Some r.
Proof.
  unfold holds. split.
  - intros (raw' & Hk & Hd). destruct (decide (k < length slots)%nat).
    + left. exists raw'. by rewrite lookup_app_l in Hk.
    + rewrite lookup_app_r in Hk by lia. apply list_lookup_singleton_Some in Hk as [Hk ->].
      right. split; [lia|done].
  - intros [(raw' & Hk & Hd)|[-> Hd]].
    + exists raw'. split; [|done]. rewrite lookup_app_l; [done|]. by apply lookup_lt_Some in Hk.
    + exists raw. split; [|done]. by rewrite list_lookup_middle.
Qed.

Lemma current_snoc slots raw :
  current (slots ++ [raw]) = match MetaRecord.decode raw with Some r => Some r | None => current slots end.
Proof.
  unfold current. rewrite omap_app. cbn [omap list_omap].
  destruct (MetaRecord.decode raw); [apply last_snoc|by rewrite app_nil_r].
Qed.

(** The record in force is the one in the last slot that holds one. *)
Lemma current_spec slots :
  match current slots with
  | Some r => ∃ k, holds slots k r ∧ ∀ j r', holds slots j r' → (j ≤ k)%nat
  | None => ∀ j r', ¬ holds slots j r'
  end.
Proof.
  induction slots as [|raw slots IH] using rev_ind; [by intros j r' (raw & Hj & _)|].
  rewrite current_snoc. destruct (MetaRecord.decode raw) as [r|] eqn:E.
  - exists (length slots). split; [apply holds_snoc; by right|].
    intros j r' Hj. apply holds_lt in Hj. rewrite length_app in Hj. cbn in Hj. lia.
  - destruct (current slots) as [r|].
    + destruct IH as (k & Hk & Hmax). exists k. split; [apply holds_snoc; by left|].
      intros j r' Hj. apply holds_snoc in Hj as [Hj|[_ Hj]]; [by eapply Hmax|congruence].
    + intros j r' Hj. apply holds_snoc in Hj as [Hj|[_ Hj]]; [by eapply IH|congruence].
Qed.

(** ** Scanning *)

Lemma scan_slots_snoc n slots raw acc :
  scan_slots n (slots ++ [raw]) acc = scan_slot (n + len slots) raw (scan_slots n slots acc).
Proof.
  revert n acc. induction slots as [|x slots IH]; intros n acc; cbn [scan_slots app].
  - by rewrite Z.add_0_r.
  - rewrite IH. cbn [length]. f_equal. lia.
Qed.

Lemma newer_spec x y n : is_u32 n → 0 < x - y < 2 ^ 31 → ∀ r b,
  seq_no r = wrap 32 (n + x) → seq_no b = wrap 32 (n + y) → newer r b = true.
Proof.
  intros Hn Hxy r b Hr Hb. unfold newer, wrapping_sub. rewrite Hr, Hb. unfold wrap.
  assert (((n + x) mod 2 ^ 32 - (n + y) mod 2 ^ 32) mod 2 ^ 32 = x - y) as Hd.
  { rewrite <- Zminus_mod. replace (n + x - (n + y)) with (x - y) by lia. apply Z.mod_small. lia. }
  rewrite Hd. apply andb_true_iff. split; [|lia].
  apply negb_true_iff, Z.eqb_neq. intros He. rewrite He, Z.sub_diag in Hd. change (0 mod 2 ^ 32) with 0 in Hd. lia.
Qed.

Lemma numbered_snoc slots raw base d : numbered (slots ++ [raw]) base d → numbered slots base d.
Proof.
  intros [Hn Ho]. split.
  - intros k r Hk. apply Hn, holds_snoc. by left.
  - intros j k r r' Hjk Hj Hk. eapply Ho; [done|apply holds_snoc; by left|apply holds_snoc; by left].
Qed.

Lemma scan_best slots base d :
  is_u32 base → numbered slots base d → len slots ≤ META_SLOTS →
  fst (scan_slots 0 slots (None, META_SLOTS)) = current slots.
Proof.
  intros Hb. induction slots as [|raw slots IH] using rev_ind; [done|]. intros Hn Hl.
  rewrite length_app in Hl. cbn [length] in Hl.
  specialize (IH (numbered_snoc _ _ _ _ Hn) ltac:(lia)).
  rewrite scan_slots_snoc, current_snoc.
  destruct (scan_slots 0 slots _) as [best free]. cbn [fst] in IH. subst best. cbn [scan_slot fst].
  destruct (MetaRecord.decode raw) as [r|] eqn:E; [|done].
  pose proof (current_spec slots) as Hc. destruct (current slots) as [b|]; [|done].
  destruct Hc as (k & Hk & _). pose proof (holds_lt _ _ _ Hk) as Hlt.
  assert (holds (slots ++ [raw]) k b) as Hk' by (apply holds_snoc; by left).
  assert (holds (slots ++ [raw]) (length slots) r) as Hr by (apply holds_snoc; by right).
  destruct Hn as [Hn Ho]. destruct (Hn _ _ Hk') as [Hsb Hdb], (Hn _ _ Hr) as [Hsr Hdr].
  pose proof (Ho _ _ _ _ Hlt Hk' Hr).
  rewrite (newer_spec (d (length slots)) (d k) base Hb); [done| |done|done].
  unfold META_SLOTS in Hl. change (META_SIZE / META_RECORD_SIZE) with 64 in Hl. lia.
Qed.

(** The free slot is the first erased one. *)
Lemma scan_free slots :
  len slots ≤ META_SLOTS →
  let free := snd (scan_slots 0 slots (None, META_SLOTS)) in
  (free = META_SLOTS ∧ ∀ k, ¬ is_erased slots k) ∨
  ∃ k, free = Z.of_nat k ∧ is_erased slots k ∧ ∀ j, is_erased slots j → (k ≤ j)%nat.
Proof.
  cbv zeta. induction slots as [|raw slots IH] using rev_ind; intros Hl.
  { left. split; [done|]. by intros k (raw & Hk & _). }
  rewrite length_app in Hl. cbn [length] in Hl. specialize (IH ltac:(lia)).
  rewrite scan_slots_snoc. destruct (scan_slots 0 slots _) as [best free]. cbn [scan_slot snd] in *.
  assert (∀ k, is_erased (slots ++ [raw]) k ↔ is_erased slots k ∨ k = length slots ∧ erased raw = true) as Hs.
  { intros k. unfold is_erased. split.
    - intros (raw' & Hk & He). destruct (decide (k < length slots)%nat).
      + left. exists raw'. by rewrite lookup_app_l in Hk.
      + rewrite lookup_app_r in Hk by lia. apply list_lookup_singleton_Some in Hk as [Hk ->].
        right. split; [lia|done].
    - intros [(raw' & Hk & He)|[-> He]].
      + exists raw'. split; [|done]. rewrite lookup_app_l; [done|]. by apply lookup_lt_Some in Hk.
      + exists raw. split; [|done]. by rewrite list_lookup_middle. }
  destruct IH as [[-> Hno]|(k & -> & Hk & Hmin)].
  - rewrite Z.eqb_refl. cbn [andb]. destruct (erased raw) eqn:He.
    + right. exists (length slots). split; [done|]. split; [apply Hs; by right|].
      intros j Hj. apply Hs in Hj as [Hj|[-> _]]; [by destruct (Hno j)|done].
    + left. split; [done|]. intros j Hj. apply Hs in Hj as [Hj|[_ Hj]]; [by destruct (Hno j)|congruence].
  - assert ((k < length slots)%nat) by (destruct Hk as (? & Hk & _); by apply lookup_lt_Some in Hk).
    rewrite (proj2 (Z.eqb_neq _ _)) by lia. cbn [andb].
    right. exists k. split; [done|]. split; [apply Hs; by left|].
    intros j Hj. apply Hs in Hj as [Hj|[-> _]]; [by apply Hmin|lia].
Qed.
(** ** One more record *)

Lemma current_unique slots k r :
  holds slots k r → (∀ j r', holds slots j r' → (j ≤ k)%nat) → current slots = Some r.
Proof.
  intros Hk Hmax. pose proof (current_spec slots) as Hc. destruct (current slots) as [r0|].
  - destruct Hc as (k0 & Hk0 & Hmax0). assert (k0 = k) as -> by (apply Nat.le_antisymm; eauto).
    destruct Hk as (raw & Hl & Hd), Hk0 as (raw0 & Hl0 & Hd0). congruence.
  - by destruct (Hc k r).
Qed.

Lemma current_none slots : (∀ j r, ¬ holds slots j r) → current slots = None.
Proof.
  intros Hno. pose proof (current_spec slots) as Hc. destruct (current slots) as [r0|]; [|done].
  destruct Hc as (k & Hk & _). by destruct (Hno k r0).
Qed.

Lemma erased_holds slots k r : is_erased slots k → ¬ holds slots k r.
Proof.
  intros (raw & Hk & He) (raw' & Hk' & Hd). rewrite Hk in Hk'. injection Hk' as <-.
  by rewrite erased_decode in Hd.
Qed.

Lemma holds_insert slots k raw j r :
  is_erased slots k →
  holds (<[k:=raw]> slots) j r ↔ holds slots j r ∨ j = k ∧ MetaRecord.decode raw = Some r.
Proof.
  intros He. assert (k < length slots)%nat as Hlt.
  { destruct He as (? & Hk & _). by apply lookup_lt_Some in Hk. }
  split.
  - intros (raw' & Hj & Hd). destruct (decide (j = k)) as [->|].
    + rewrite list_lookup_insert_eq in Hj by done. injection Hj as ->. by right.
    + rewrite list_lookup_insert_ne in Hj by done. left. by exists raw'.
  - intros [(raw' & Hj & Hd)|[-> Hd]].
    + exists raw'. split; [|done]. rewrite list_lookup_insert_ne; [done|]. intros ->.
      eapply erased_holds; [exact He|]. by exists raw'.
    + exists raw. split; [|done]. by rewrite list_lookup_insert_eq.
Qed.

(** [rec] is the next generation of the record in force, or the one after. *)
Definition follows slots (rec : MetaRecord) : Prop :=
  is_u32 (seq_no rec) ∧
  ∀ r, current slots = Some r →
    seq_no rec = wrap 32 (seq_no r + 1) ∨ seq_no rec = wrap 32 (seq_no r + 2).

Lemma numbered_insert slots k raw rec :
  log_ok slots → is_erased slots k → follows slots rec → MetaRecord.decode raw = Some rec →
  ∃ base d, is_u32 base ∧ numbered (<[k:=raw]> slots) base d.
Proof.
  intros ((base & d & Hn & Ho) & Hfront & _) He [Hrec Hfol] Hd.
  pose proof (current_spec slots) as Hc. destruct (current slots) as [r0|].
  - destruct Hc as (k0 & Hk0 & Hmax). destruct (Hn _ _ Hk0) as [Hs0 Hd0].
    pose proof (Hfront _ _ _ Hk0 He) as Hlt.
    assert (∃ n, (n = 1 ∨ n = 2) ∧ seq_no rec = wrap 32 (seq_no r0 + n)) as (n & Hn12 & Hseq).
    { destruct (Hfol r0 eq_refl); eauto. }
    exists (wrap 32 base), (λ j, if decide (j = k) then d k0 + n else d j).
    split; [by apply wrap_range|]. split.
    + intros j r Hj. apply holds_insert in Hj as [Hj|[-> Hj]]; [| |done].
      * destruct (decide (j = k)) as [->|]; [by destruct (erased_holds _ _ _ He Hj)|].
        destruct (Hn _ _ Hj) as [-> ?]. split; [|done]. unfold wrap. by rewrite Zplus_mod_idemp_l.
      * rewrite decide_True by done. assert (r = rec) as -> by congruence. split; [|lia].
        rewrite Hseq, Hs0. unfold wrap. rewrite !Zplus_mod_idemp_l. f_equal. lia.
    + intros i j r r' Hij Hi Hj. apply holds_insert in Hi as [Hi|[-> Hi]]; [|..|done]; last first.
      { apply holds_insert in Hj as [Hj|[-> Hj]]; [|lia|done]. pose proof (Hfront _ _ _ Hj He). lia. }
      destruct (decide (i = k)) as [->|]; [by destruct (erased_holds _ _ _ He Hi)|].
      apply holds_insert in Hj as [Hj|[-> Hj]]; [| |done].
      * destruct (decide (j = k)) as [->|]; [by destruct (erased_holds _ _ _ He Hj)|]. by eapply Ho.
      * rewrite decide_True by done. specialize (Hmax _ _ Hi).
        destruct (decide (i = k0)) as [->|]; [lia|].
        assert (d i < d k0) by (eapply Ho; [|done..]; lia). lia.
  - exists (seq_no rec), (λ _, 0). split; [done|]. split.
    + intros j r Hj. apply holds_insert in Hj as [Hj|[-> Hj]]; [by destruct (Hc j r)| |done].
      assert (r = rec) as -> by congruence. rewrite Z.add_0_r, wrap_id by done. split; [done|lia].
    + intros i j r r' Hij Hi Hj.
      apply holds_insert in Hi as [Hi|[-> Hi]]; [by destruct (Hc i r)| |done].
      apply holds_insert in Hj as [Hj|[-> Hj]]; [by destruct (Hc j r')|lia|done].
Qed.

Lemma log_insert slots k raw rec :
  log_ok slots → is_erased slots k → (∀ j, is_erased slots j → (k ≤ j)%nat) → follows slots rec →
  MetaRecord.decode raw = None ∨ MetaRecord.decode raw = Some rec →
  log_ok (<[k:=raw]> slots) ∧
  current (<[k:=raw]> slots)
  = match MetaRecord.decode raw with Some r => Some r | None => current slots end.
Proof.
  intros Hlog He Hmin Hfol Hd. pose proof Hlog as ((base & d & Hnum) & Hfront & Hlen).
  assert (∀ j, is_erased (<[k:=raw]> slots) j → is_erased slots j ∧ (j ≠ k ∨ erased raw = true)) as Her.
  { intros j (raw' & Hj & He'). destruct (decide (j = k)) as [->|].
    - apply list_lookup_insert_Some in Hj as [(_ & <- & _)|[? _]]; [|done]. split; [done|by right].
    - rewrite list_lookup_insert_ne in Hj by done. split; [by exists raw'|by left]. }
  split.
  - split; [|split; [|by rewrite length_insert]].
    + destruct Hd as [Hd|Hd].
      * exists base, d. destruct Hnum as [Hn Ho]. split.
        -- intros j r Hj. apply holds_insert in Hj as [Hj|[_ Hj]]; [by apply Hn|congruence|done].
        -- intros i j r r' Hij Hi Hj.
           apply holds_insert in Hi as [Hi|[_ Hi]]; [|congruence|done].
           apply holds_insert in Hj as [Hj|[_ Hj]]; [by eapply Ho|congruence|done].
      * destruct (numbered_insert slots k raw rec) as (base' & d' & _ & ?); [done..|by exists base', d'].
    + intros i j r Hi Hj. apply Her in Hj as [Hj Hjk].
      apply holds_insert in Hi as [Hi|[-> Hi]]; [by eapply Hfront| |done].
      destruct Hjk as [Hjk|Hjk]; [specialize (Hmin _ Hj); lia|].
      by rewrite erased_decode in Hi.
  - destruct (MetaRecord.decode raw) as [r|] eqn:E.
    + eapply current_unique; [apply holds_insert; [done|by right]|].
      intros j r' Hj. apply holds_insert in Hj as [Hj|[-> _]]; [|done..].
      pose proof (Hfront _ _ _ Hj He). lia.
    + pose proof (current_spec slots) as Hc. destruct (current slots) as [r0|].
      * destruct Hc as (k0 & Hk0 & Hmax). eapply current_unique; [apply holds_insert; [done|by left]|].
        intros j r' Hj. apply holds_insert in Hj as [Hj|[_ Hj]]; [by eapply Hmax|congruence|done].
      * apply current_none. intros j r Hj. apply holds_insert in Hj as [Hj|[_ Hj]]; [by destruct (Hc j r)|congruence|done].
Qed.

(** A page without records. *)
Lemma log_empty slots :
  len slots = META_SLOTS → (∀ k r, ¬ holds slots k r) → log_ok slots ∧ current slots = None.
Proof.
  intros Hl Hno. split; [|by apply current_none]. split; [|split; [|done]].
  - exists 0, (λ _, 0). split; intros; by edestruct Hno.
  - intros j k r Hj. by destruct (Hno j r).
Qed.
End log.

(** ** The flash *)

(** What the updater relies on of the flash driver.  A call changes nothing
    outside its range; a successful erase leaves erased bytes and a successful
    write of a record into an erased slot leaves the record.  The last two are the assumptions the
    source states: a record whose writing was cut short fails its CRC (unless
    it is complete), one whose writing failed is none, and an interrupted erase
    of the metadata page leaves it alone or loses the records. *)
Class FlashLaws (F E : Type) `{Crc32} `{FlashOps F E} := {
  flash_byte f a : is_u8 (flash_at f a);
  write_outside f off data f' r a :
    flash_write f off data = (f', r) → a < off ∨ off + len data ≤ a → flash_at f' a = flash_at f a;
  erase_outside f from to f' r a :
    flash_erase f from to = (f', r) → a < from ∨ to ≤ a → flash_at f' a = flash_at f a;
  erase_ok f from to f' a :
    flash_erase f from to = (f', Some (Ok tt)) → from ≤ a < to → flash_at f' a = 0xFF;
  record_written f k rec f' :
    0 ≤ k < META_SLOTS →
    erased (flash_bytes f (META_OFFSET + k * META_RECORD_SIZE) META_RECORD_SIZE) = true →
    flash_write f (META_OFFSET + k * META_RECORD_SIZE) (MetaRecord.encode rec) = (f', Some (Ok tt)) →
    flash_bytes f' (META_OFFSET + k * META_RECORD_SIZE) META_RECORD_SIZE = MetaRecord.encode rec;
  record_torn f k rec f' r :
    0 ≤ k < META_SLOTS → r ≠ Some (Ok tt) →
    erased (flash_bytes f (META_OFFSET + k * META_RECORD_SIZE) META_RECORD_SIZE) = true →
    flash_write f (META_OFFSET + k * META_RECORD_SIZE) (MetaRecord.encode rec) = (f', r) →
    let d := MetaRecord.decode (flash_bytes f' (META_OFFSET + k * META_RECORD_SIZE) META_RECORD_SIZE) in
    d = None ∨ r = None ∧ d = Some rec;
  erase_torn f f' r :
    flash_erase f META_OFFSET (META_OFFSET + META_SIZE) = (f', r) → r ≠ Some (Ok tt) →
    meta_page f' = meta_page f ∨
    ∀ k, MetaRecord.decode (flash_bytes f' (META_OFFSET + k * META_RECORD_SIZE) META_RECORD_SIZE) = None;
}.

Lemma chunks_exact_spec n m l :
  (0 < n)%nat → length l = (m * n)%nat →
  chunks_exact n l = map (λ k, take n (drop (k * n) l)) (seq 0 m).
Proof.
  intros Hn Hl. unfold chunks_exact.
  assert (∀ fuel m l, (m ≤ fuel)%nat → length l = (m * n)%nat →
    chunks_exact_fuel fuel n l = map (λ k, take n (drop (k * n) l)) (seq 0 m)) as Hgen.
  { clear m l Hl. induction fuel as [|fuel IH]; intros [|m] l Hm Hl; try done; [lia| |].
    - cbn [chunks_exact_fuel]. destruct (Nat.ltb_spec (length l) n); [done|lia].
    - cbn [chunks_exact_fuel]. destruct (Nat.ltb_spec (length l) n); [lia|].
      rewrite (IH m) by (rewrite ?length_drop; lia). cbn [seq map]. f_equal.
      rewrite <- seq_shift, map_map. apply map_ext. intros k. rewrite drop_drop.
      f_equal. }
  apply Hgen; [|done]. rewrite Hl. nia.
Qed.

Section flash_log.
Context `{Crc32Laws} {F E : Type} `{FlashOps F E}.
Implicit Types f : F.

Lemma length_flash_bytes f off n : length (flash_bytes f off n) = Z.to_nat n.
Proof. unfold flash_bytes. by rewrite length_fmap, length_seq. Qed.

Lemma flash_bytes_lookup f off n (i : nat) :
  flash_bytes f off n !! i = if decide (i < Z.to_nat n)%nat then Some (flash_at f (off + Z.of_nat i)) else None.
Proof.
  unfold flash_bytes. rewrite list_lookup_fmap. case_decide.
  - by rewrite lookup_seq_lt.
  - by rewrite lookup_seq_ge by lia.
Qed.

Lemma flash_bytes_part f off n a m :
  0 ≤ a → 0 ≤ m → a + m ≤ n →
  take (Z.to_nat m) (drop (Z.to_nat a) (flash_bytes f off n)) = flash_bytes f (off + a) m.
Proof.
  intros Ha Hm Hn. apply list_eq. intros i. rewrite (flash_bytes_lookup f (off + a)). case_decide.
  - rewrite lookup_take_lt, lookup_drop, flash_bytes_lookup by done. rewrite decide_True by lia.
    do 2 f_equal. lia.
  - by rewrite lookup_take_ge by lia.
Qed.

Lemma flash_bytes_same f f' off n :
  (∀ a, off ≤ a < off + n → flash_at f' a = flash_at f a) → flash_bytes f' off n = flash_bytes f off n.
Proof.
  intros Hs. apply list_eq. intros i. rewrite !flash_bytes_lookup. case_decide; [|done].
  f_equal. apply Hs. lia.
Qed.

(** The slots are sealed: nothing below looks into the bytes of a page. *)
Definition slots_of_def f : list (list Z) := chunks_exact (Z.to_nat META_RECORD_SIZE) (meta_page f).
Definition slots_of_aux : seal slots_of_def.
Proof. by eexists. Qed.
Definition slots_of : F → list (list Z) := unseal slots_of_aux.
Lemma slots_of_eq f : slots_of f = chunks_exact (Z.to_nat META_RECORD_SIZE) (meta_page f).
Proof. unfold slots_of. rewrite seal_eq. unfold slots_of_def. reflexivity. Qed.

Definition slot_def f (k : Z) : list Z := flash_bytes f (META_OFFSET + k * META_RECORD_SIZE) META_RECORD_SIZE.
Definition slot_aux : seal slot_def.
Proof. by eexists. Qed.
Definition slot : F → Z → list Z := unseal slot_aux.
Lemma slot_bytes f k :
  slot f k = flash_bytes f (META_OFFSET + k * META_RECORD_SIZE) META_RECORD_SIZE.
Proof. unfold slot. rewrite seal_eq. unfold slot_def. reflexivity. Qed.

Lemma slots_of_map f : slots_of f = map (λ k : nat, slot f (Z.of_nat k)) (seq 0 (Z.to_nat META_SLOTS)).
Proof.
  rewrite slots_of_eq, (chunks_exact_spec _ (Z.to_nat META_SLOTS)).
  - apply map_ext_in. intros k Hk%in_seq. rewrite slot_bytes. unfold meta_page.
    replace (k * Z.to_nat META_RECORD_SIZE)%nat with (Z.to_nat (Z.of_nat k * META_RECORD_SIZE))
      by (unfold META_RECORD_SIZE; lia).
    apply flash_bytes_part; unfold META_RECORD_SIZE, META_SIZE, PAGE_SIZE in *; [lia..|].
    change (Z.to_nat META_SLOTS) with 64%nat in Hk. lia.
  - unfold META_RECORD_SIZE; lia.
  - unfold meta_page. by rewrite length_flash_bytes.
Qed.

Lemma length_slots f : len (slots_of f) = META_SLOTS.
Proof. rewrite slots_of_map, length_map, length_seq. reflexivity. Qed.

Lemma slots_lookup f (k : nat) :
  slots_of f !! k = if decide (Z.of_nat k < META_SLOTS) then Some (slot f (Z.of_nat k)) else None.
Proof.
  rewrite slots_of_map. change (map ?g ?l) with (g <$> l). rewrite list_lookup_fmap. case_decide.
  - by rewrite lookup_seq_lt by lia.
  - by rewrite lookup_seq_ge by lia.
Qed.

Lemma load_meta_slots f :
  load_meta f = let '(best, free) := scan_slots 0 (slots_of f) (None, META_SLOTS) in
                (default MetaRecord.BLANK best, free).
Proof. rewrite slots_of_eq. unfold load_meta, scan_meta. reflexivity. Qed.

Lemma slots_page f f' : meta_page f = meta_page f' → slots_of f = slots_of f'.
Proof. intros Hp. by rewrite !slots_of_eq, Hp. Qed.

(** What a scan of the page finds. *)
Lemma load_meta_spec f :
  log_ok (slots_of f) →
  fst (load_meta f) = default MetaRecord.BLANK (current (slots_of f)) ∧
  ((snd (load_meta f) = META_SLOTS ∧ ∀ k, ¬ is_erased (slots_of f) k) ∨
   ∃ k, snd (load_meta f) = Z.of_nat k ∧ is_erased (slots_of f) k ∧
     ∀ j, is_erased (slots_of f) j → (k ≤ j)%nat).
Proof.
  intros ((base & d & Hn) & _ & Hl). rewrite load_meta_slots.
  assert (numbered (slots_of f) (wrap 32 base) d) as Hn'.
  { destruct Hn as [Hn Ho]. split; [|done]. intros k r Hk. destruct (Hn _ _ Hk) as [-> ?].
    split; [|done]. unfold wrap. by rewrite Zplus_mod_idemp_l. }
  pose proof (scan_best _ _ _ (wrap_range 32 base (Zle_0_pos 32)) Hn' (Z.eq_le_incl _ _ Hl)) as Hbest.
  pose proof (scan_free (slots_of f) (Z.eq_le_incl _ _ Hl)) as Hfree.
  destruct (scan_slots 0 _ _) as [best free]. cbn [fst snd] in *. by subst best.
Qed.
End flash_log.
#[global] Opaque load_meta.

Section append.
Context `{Crc32Laws} {F E : Type} `{!FlashOps F E} `{!FlashLaws F E}.
Implicit Types f : F.

(** The part of the flash the log occupies. *)
Definition in_meta (a : Z) : Prop := META_OFFSET ≤ a < META_OFFSET + META_SIZE.

Lemma slot_same f f' k :
  (∀ a, META_OFFSET + k * META_RECORD_SIZE ≤ a < META_OFFSET + (k + 1) * META_RECORD_SIZE →
    flash_at f' a = flash_at f a) → slot f' k = slot f k.
Proof. intros Hs. rewrite !slot_bytes. apply flash_bytes_same. intros a Ha. apply Hs. lia. Qed.

Lemma slots_same f f' :
  (∀ a, in_meta a → flash_at f' a = flash_at f a) → slots_of f' = slots_of f.
Proof.
  intros Hs. apply list_eq. intros k. rewrite !slots_lookup. case_decide as Hk; [|done].
  f_equal. apply slot_same. intros a Ha. apply Hs. unfold in_meta, META_RECORD_SIZE in *.
  change META_SLOTS with 64 in Hk. change META_SIZE with 2048. lia.
Qed.

Lemma write_slots f (k : nat) rec f' r :
  Z.of_nat k < META_SLOTS →
  flash_write f (META_OFFSET + Z.of_nat k * META_RECORD_SIZE) (MetaRecord.encode rec) = (f', r) →
  slots_of f' = <[k := slot f' (Z.of_nat k)]> (slots_of f) ∧
  ∀ a, ¬ in_meta a → flash_at f' a = flash_at f a.
Proof.
  intros Hk Hw. pose proof (length_encode rec) as He. split.
  - apply list_eq. intros j. pose proof (length_slots f) as Hl.
    destruct (decide (j = k)) as [->|Hjk].
    + rewrite list_lookup_insert_eq by lia. rewrite slots_lookup. by rewrite decide_True.
    + rewrite list_lookup_insert_ne by done. rewrite !slots_lookup. case_decide; [|done].
      f_equal. apply slot_same. intros a Ha. eapply write_outside; [exact Hw|].
      rewrite He. unfold META_RECORD_SIZE in *. nia.
  - intros a Ha. eapply write_outside; [exact Hw|]. rewrite He. unfold in_meta, META_RECORD_SIZE in *.
    change META_SLOTS with 64 in Hk. change META_SIZE with 2048 in Ha. lia.
Qed.

Lemma erased_slots f f' :
  flash_erase f META_OFFSET (META_OFFSET + META_SIZE) = (f', Some (Ok tt)) →
  ∀ k, Z.of_nat k < META_SLOTS → is_erased (slots_of f') k.
Proof.
  intros He k Hk. exists (slot f' (Z.of_nat k)). rewrite slots_lookup, decide_True by done. split; [done|].
  unfold erased. apply forallb_forall. intros b Hb. apply list_elem_of_In in Hb.
  apply list_elem_of_lookup in Hb as [i Hi]. rewrite slot_bytes, flash_bytes_lookup in Hi.
  case_decide as Hlt; [|done]. injection Hi as <-. apply Z.eqb_eq. eapply erase_ok; [exact He|].
  unfold META_RECORD_SIZE in *. change META_SLOTS with 64 in Hk. change META_SIZE with 2048. lia.
Qed.

(** Writing the next record into the first erased slot. *)
Lemma write_record f (k : nat) rec f' r :
  log_ok (slots_of f) → wf_meta rec → follows (slots_of f) rec →
  is_erased (slots_of f) k → (∀ j, is_erased (slots_of f) j → (k ≤ j)%nat) →
  flash_write f (META_OFFSET + Z.of_nat k * META_RECORD_SIZE) (MetaRecord.encode rec) = (f', r) →
  log_ok (slots_of f') ∧ (∀ a, ¬ in_meta a → flash_at f' a = flash_at f a) ∧
  (current (slots_of f') = current (slots_of f) ∧ r ≠ Some (Ok tt) ∨
   current (slots_of f') = Some rec ∧ (r = None ∨ r = Some (Ok tt))).
Proof.
  intros Hlog Hwf Hfol He Hmin Hw.
  assert (Z.of_nat k < META_SLOTS) as Hk.
  { destruct He as (raw & Hl & _). rewrite slots_lookup in Hl. by case_decide. }
  assert (erased (flash_bytes f (META_OFFSET + Z.of_nat k * META_RECORD_SIZE) META_RECORD_SIZE) = true) as Her.
  { destruct He as (raw & Hl & He'). rewrite slots_lookup, decide_True in Hl by done. injection Hl as <-.
    by rewrite slot_bytes in He'. }
  destruct (write_slots f k rec f' r Hk Hw) as [Hslots Hout].
  assert ((MetaRecord.decode (slot f' (Z.of_nat k)) = None ∧ r ≠ Some (Ok tt)) ∨
    MetaRecord.decode (slot f' (Z.of_nat k)) = Some rec ∧ (r = None ∨ r = Some (Ok tt))) as Hd.
  { destruct r as [[[]|e]|].
    - right. split; [|by right]. rewrite slot_bytes. erewrite record_written; [|lia|exact Her|exact Hw]. by apply record_round_trip.
    - left. rewrite slot_bytes. split; [|done]. by destruct (record_torn f (Z.of_nat k) rec f' (Some (Err e)) ltac:(lia) ltac:(done) Her Hw) as [?|[? _]].
    - rewrite slot_bytes. destruct (record_torn f (Z.of_nat k) rec f' None ltac:(lia) ltac:(done) Her Hw) as [?|[_ ?]]; [by left|].
      right. split; [done|by left]. }
  assert (MetaRecord.decode (slot f' (Z.of_nat k)) = None ∨
    MetaRecord.decode (slot f' (Z.of_nat k)) = Some rec) as Hd'.
  { destruct Hd as [[? _]|[? _]]; [by left|by right]. }
  destruct (log_insert _ k (slot f' (Z.of_nat k)) rec Hlog He Hmin Hfol Hd') as [Hlog' Hcur].
  rewrite <- Hslots in *. split; [done|]. split; [done|]. rewrite Hcur.
  destruct Hd as [[-> ?]|[-> ?]]; [by left|by right].
Qed.

Lemma load_current f : log_ok (slots_of f) → fst (load_meta f) = default MetaRecord.BLANK (current (slots_of f)).
Proof. intros Hlog. exact (proj1 (load_meta_spec f Hlog)). Qed.

(** An erased page holds no record, and its first slot is free. *)
Lemma erased_page f f' :
  flash_erase f META_OFFSET (META_OFFSET + META_SIZE) = (f', Some (Ok tt)) →
  log_ok (slots_of f') ∧ current (slots_of f') = None ∧ is_erased (slots_of f') 0.
Proof.
  intros He. pose proof (erased_slots f f' He) as Her.
  destruct (log_empty (slots_of f') (length_slots f')) as [Hlog Hcur].
  { intros k r Hk. pose proof (holds_lt _ _ _ Hk) as Hlt. pose proof (length_slots f') as Hl.
    eapply erased_holds; [apply Her|exact Hk]. lia. }
  split; [exact Hlog|]. split; [exact Hcur|]. by apply Her.
Qed.

(** The three ways an append goes: an interrupted erase, a free slot, an
    erased page. *)
Lemma torn_page f f' r :
  log_ok (slots_of f) → flash_erase f META_OFFSET (META_OFFSET + META_SIZE) = (f', r) → r ≠ Some (Ok tt) →
  log_ok (slots_of f') ∧
  (current (slots_of f') = current (slots_of f) ∨ current (slots_of f') = None).
Proof.
  intros Hlog He Hr. destruct (erase_torn f f' r He Hr) as [Hpage|Hnone].
  - rewrite (slots_page f' f Hpage). split; [exact Hlog|by left].
  - destruct (log_empty (slots_of f') (length_slots f')) as [Hl Hc]; [|split; [exact Hl|by right]].
    intros k r0 (raw & Hk & Hd). rewrite slots_lookup in Hk. case_decide; [|done].
    injection Hk as <-. rewrite slot_bytes, Hnone in Hd. discriminate.
Qed.

Lemma append_free f k rec f' r :
  log_ok (slots_of f) → wf_meta rec → follows (slots_of f) rec →
  is_erased (slots_of f) k → (∀ j, is_erased (slots_of f) j → (k ≤ j)%nat) →
  flash_write f (META_OFFSET + Z.of_nat k * META_RECORD_SIZE) (MetaRecord.encode rec) = (f', r) →
  log_ok (slots_of f') ∧ (∀ a, ¬ in_meta a → flash_at f' a = flash_at f a) ∧
  (current (slots_of f') = Some rec ∧ (r = None ∨ r = Some (Ok tt)) ∨
   r ≠ Some (Ok tt) ∧ current (slots_of f') = current (slots_of f)).
Proof.
  intros Hlog Hwf Hfol Hk Hmin Ha.
  destruct (write_record f k rec f' r Hlog Hwf Hfol Hk Hmin Ha) as (Hlog' & Hout & Hc).
  split; [exact Hlog'|]. split; [exact Hout|].
  destruct Hc as [[Hc Hr]|Hc]; [right; split; [exact Hr|exact Hc]|by left].
Qed.

Lemma append_full f f1 rec f' r :
  wf_meta rec → is_u32 (seq_no rec) →
  flash_erase f META_OFFSET (META_OFFSET + META_SIZE) = (f1, Some (Ok tt)) →
  flash_write f1 (META_OFFSET + 0 * META_RECORD_SIZE) (MetaRecord.encode rec) = (f', r) →
  log_ok (slots_of f') ∧ (∀ a, ¬ in_meta a → flash_at f' a = flash_at f a) ∧
  (current (slots_of f') = Some rec ∧ (r = None ∨ r = Some (Ok tt)) ∨
   r ≠ Some (Ok tt) ∧ current (slots_of f') = None).
Proof.
  intros Hwf Hs He Ha.
  assert (∀ a, ¬ in_meta a → flash_at f1 a = flash_at f a) as Hout1.
  { intros a Hin. eapply erase_outside; [exact He|]. unfold in_meta in Hin. lia. }
  destruct (erased_page f f1 He) as (Hlog1 & Hcur1 & Her1).
  destruct (write_record f1 0 rec f' r Hlog1 Hwf) as (Hlog' & Hout & Hc); [| |lia|exact Ha|].
  { split; [exact Hs|]. intros r0 Hr0. congruence. }
  { exact Her1. }
  split; [exact Hlog'|]. split; [intros a Hin; rewrite Hout, Hout1 by done; done|].
  destruct Hc as [[Hc Hr]|Hc]; [right|by left]. split; [exact Hr|]. congruence.
Qed.
(** What an append leaves, however it ends. *)
Lemma append_meta_spec f rec f' r :
  log_ok (slots_of f) → wf_meta rec → follows (slots_of f) rec → append_meta f rec = (f', r) →
  log_ok (slots_of f') ∧ (∀ a, ¬ in_meta a → flash_at f' a = flash_at f a) ∧
  (current (slots_of f') = Some rec ∧ (r = None ∨ r = Some (Ok tt)) ∨
   r ≠ Some (Ok tt) ∧
   (current (slots_of f') = current (slots_of f) ∨
    snd (load_meta f) = META_SLOTS ∧ current (slots_of f') = None)).
Proof.
  intros Hlog Hwf Hfol Ha. unfold append_meta in Ha.
  destruct (load_meta_spec f Hlog) as [_ Hfree]. destruct (load_meta f) as [m free]. cbn [snd] in *.
  destruct Hfree as [[-> Hno]|(k & -> & Hk & Hmin)].
  - rewrite Z.leb_refl in Ha.
    destruct (flash_erase f META_OFFSET (META_OFFSET + META_SIZE)) as [f1 r1] eqn:He.
    assert (∀ a, ¬ in_meta a → flash_at f1 a = flash_at f a) as Hout1.
    { intros a Hin. eapply erase_outside; [exact He|]. unfold in_meta in Hin. lia. }
    pose proof (torn_page f f1 r1 Hlog He) as Htorn.
    assert (f1 = f' ∧ r1 = r ∧ r ≠ Some (Ok tt) ∨ r1 = Some (Ok tt)) as [(-> & -> & Hr)| -> ].
    { destruct r1 as [[[]|e]|]; [by right|..]; injection Ha as <- <-; by left. }
    + destruct (Htorn Hr) as [Hl Hc]. split; [exact Hl|]. split; [exact Hout1|]. right.
      split; [exact Hr|]. destruct Hc as [Hc|Hc]; [by left|right; by split].
    + destruct (append_full f f1 rec f' r Hwf (proj1 Hfol) He Ha) as (Hl & Hout & Hc).
      split; [exact Hl|]. split; [exact Hout|].
      destruct Hc as [Hc|[Hr Hc]]; [by left|right]. split; [exact Hr|]. right. by split.
  - assert (Z.of_nat k < META_SLOTS) as Hlt.
    { destruct Hk as (raw & Hl & _). rewrite slots_lookup in Hl. by case_decide. }
    rewrite (proj2 (Z.leb_gt _ _) Hlt) in Ha.
    destruct (append_free f k rec f' r Hlog Hwf Hfol Hk Hmin Ha) as (Hl & Hout & Hc).
    split; [exact Hl|]. split; [exact Hout|].
    destruct Hc as [Hc|[Hr Hc]]; [by left|right; split; [exact Hr|by left]].
Qed.

(** C30. Appending the next generation to the metadata log survives a power
    failure at any moment and any error of the flash: afterwards the log is in
    order again and the record in force is the new one or the old one, the new
    one if the call succeeds and the old one if it reports an error; only
    while a full page is recycled, by an interrupted erase or in the record
    write after it, can both be lost, and then the device counts as never
    programmed.  Nothing outside the page changes.  Sequence
    numbers may wrap around. *)
Theorem append_is_atomic f rec f' r :
  log_ok (slots_of f) → wf_meta rec →
  seq_no rec = wrap 32 (seq_no (fst (load_meta f)) + 1) →
  append_meta f rec = (f', r) →
  log_ok (slots_of f') ∧ (∀ a, ¬ in_meta a → flash_at f' a = flash_at f a) ∧
  let lost := snd (load_meta f) = META_SLOTS ∧ fst (load_meta f') = MetaRecord.BLANK in
  match r with
  | Some (Ok _) => fst (load_meta f') = rec
  | Some (Err _) => fst (load_meta f') = fst (load_meta f) ∨ lost
  | None => fst (load_meta f') = rec ∨ fst (load_meta f') = fst (load_meta f) ∨ lost
  end.
Proof.
  intros Hlog Hwf Hseq Ha.
  destruct (append_meta_spec f rec f' r Hlog Hwf) as (Hlog' & Hout & Hc); [|exact Ha|].
  { split; [apply Hwf|]. intros r0 Hr0. left. by rewrite Hseq, load_current, Hr0. }
  split; [exact Hlog'|]. split; [exact Hout|]. cbv zeta. rewrite (load_current f' Hlog'), (load_current f Hlog).
  destruct Hc as [[-> Hr]|[Hr Hc]].
  - destruct Hr as [->| ->]; [left; reflexivity|reflexivity].
  - destruct r as [[[]|e]|]; [by destruct Hr|..].
    + destruct Hc as [->|[Hfull ->]]; [left; reflexivity|right; split; [exact Hfull|reflexivity]].
    + right. destruct Hc as [->|[Hfull ->]]; [left; reflexivity|right; split; [exact Hfull|reflexivity]].
Qed.
End append.
