(* ===== verification/FwUpdate.v ===== *)
(** * The firmware updater

    [examples/emdm-fwupdate/bootloader/src/main.rs] (boot decision, programmer,
    program control) and the update request of the application
    ([app/src/main.rs]).  A computation either goes on, panics, or ends with
    the flash a power failure or a reset leaves.

    The object dictionary is kept to the objects the updater works on; a host
    write passes [check_write] and is then stored, and [handle_changes] works
    off the resulting changes, reading the current values.  What the node
    itself does (emergency frames, PDOs) is [Node]'s; of it only the reported
    error codes are kept. *)
From S2P Require Import Prelude Od FwMeta.

(** ** Outcomes *)

Inductive outcome (F A : Type) :=
| Go (a : A)
| Off (f : F)
| Crash.
Arguments Go {F A} a.
Arguments Off {F A} f.
Arguments Crash {F A}.

#[export] Instance outcome_ret F : MRet (outcome F) := λ A a, Go a.
#[export] Instance outcome_bind F : MBind (outcome F) := λ A B k m,
  match m with Go a => k a | Off f => Off f | Crash => Crash end.

(** Slices and checked arithmetic. *)
Definition lift {F A} (m : exec A) : outcome F A :=
  match m with Ret a => Go a | Panic => Crash end.

(** ** Constants *)

Definition WRITE_SIZE : Z := 8.
Definition MAX_CHUNK : Z := 889.
Definition ENTER_UPDATE_MAGIC : Z := 0x54504455.

Definition ST_IDLE : Z := 0.
Definition ST_PROGRAMMING : Z := 1.
Definition ST_VALID : Z := 2.
Definition ST_ERROR : Z := 0xFF.

Definition CLEAR : Z := 3.
Definition VALIDATE : Z := 1.
Definition RESET : Z := 2.

(** ** Object dictionary *)

Record BootOd := mkBootOd {
  firmware_chunk : list Z;
  command : Z;
  expected_crc : Z;
  flash_status : Z;
  image_length : Z;
  bytes_written : Z;
}.

Definition with_chunk (od : BootOd) (d : list Z) : BootOd :=
  mkBootOd d (command od) (expected_crc od) (flash_status od) (image_length od) (bytes_written od).
Definition with_command (od : BootOd) (c : Z) : BootOd :=
  mkBootOd (firmware_chunk od) c (expected_crc od) (flash_status od) (image_length od) (bytes_written od).
Definition with_crc (od : BootOd) (c : Z) : BootOd :=
  mkBootOd (firmware_chunk od) (command od) c (flash_status od) (image_length od) (bytes_written od).
Definition with_status (od : BootOd) (s : Z) : BootOd :=
  mkBootOd (firmware_chunk od) (command od) (expected_crc od) s (image_length od) (bytes_written od).
Definition with_length (od : BootOd) (n : Z) : BootOd :=
  mkBootOd (firmware_chunk od) (command od) (expected_crc od) (flash_status od) n (bytes_written od).
Definition with_written (od : BootOd) (n : Z) : BootOd :=
  mkBootOd (firmware_chunk od) (command od) (expected_crc od) (flash_status od) (image_length od) n.

Definition BootOd_new : BootOd := mkBootOd [] 0 0 ST_IDLE 0 0.

Definition check_write (od : BootOd) (index subindex : Z) (data : list Z) : result unit OdError :=
  if (index =? 0x1F50) && (subindex =? 1) then
    if negb (flash_status od =? ST_PROGRAMMING) then Err HardwareError
    else if image_length od <? bytes_written od + len data then Err ValueRange
    else Ok tt
  else if (index =? 0x2000) && (subindex =? 1) then
    if negb (len data =? 4) then Err ValueRange
    else
      let n := from_le_bytes data in
      if (n =? 0) || (APP_SIZE <? n) then Err ValueRange else Ok tt
  else if (index =? 0x1F51) && (subindex =? 1) then
    match data with
    | [] => Err ValueRange
    | cmd :: _ =>
        if cmd =? CLEAR then if image_length od =? 0 then Err ValueRange else Ok tt
        else if cmd =? VALIDATE then
          if negb (flash_status od =? ST_PROGRAMMING) then Err HardwareError else Ok tt
        else if cmd =? RESET then Ok tt
        else Err ValueRange
    end
  else Ok tt.

Inductive BootOdChange :=
| FirmwareChunk
| Command
| ExpectedCrc
| ImageLength.

(** The write behind [check_write], with the generated size checks. *)
Definition od_store (od : BootOd) (index subindex : Z) (data : list Z)
    : result (BootOd * BootOdChange) OdError :=
  if (index =? 0x1F50) && (subindex =? 1) then
    if MAX_CHUNK <? len data then Err ValueTooLong else Ok (with_chunk od data, FirmwareChunk)
  else if (index =? 0x1F51) && (subindex =? 1) then
    match data with [c] => Ok (with_command od c, Command) | _ => Err DataTypeMismatch end
  else if (index =? 0x1F56) && (subindex =? 1) then
    if negb (len data =? 4) then Err DataTypeMismatch
    else Ok (with_crc od (from_le_bytes data), ExpectedCrc)
  else if (index =? 0x2000) && (subindex =? 1) then
    if negb (len data =? 4) then Err DataTypeMismatch
    else Ok (with_length od (from_le_bytes data), ImageLength)
  else Err ReadOnly.

(** ** Programmer *)

Inductive ProgramError := TooLarge | FlashError.

Record Programmer := mkProgrammer {
  accepted : Z;
  flushed : Z;
  pending : list Z;
  pending_len : Z;
}.

Definition Programmer_new : Programmer := mkProgrammer 0 0 (replicate 8 0xFF) 0.

Definition received (p : Programmer) : Z := accepted p.

Section programmer.
Context {F E : Type} `{FlashOps F E}.

(** A [Result] of the programmer with what its receiver and the flash are. *)
Definition programmed : Type := Programmer * F * result unit ProgramError.

Definition commit (p : Programmer) (f : F) (data : list Z) : outcome F programmed :=
  let '(f, r) := flash_write f (APP_OFFSET + flushed p) data in
  match r with
  | None => Off f
  | Some (Err _) => mret (p, f, Err FlashError)
  | Some (Ok _) =>
      n ← lift (checked 32 (flushed p + as_u32 (len data)));
      mret (mkProgrammer (accepted p) n (pending p) (pending_len p), f, Ok tt)
  end.

(** The part of [push] behind the carried tail. *)
Definition push_aligned (p : Programmer) (f : F) (count : Z) (data : list Z) : outcome F programmed :=
  aligned ← lift (usub (len data) (len data mod WRITE_SIZE));
  '(p, f, r) ←
    (if 0 <? aligned then
       chunk ← lift (slice data 0 aligned);
       commit p f chunk
     else mret (p, f, Ok tt));
  match r with
  | Err e => mret (p, f, Err e)
  | Ok _ =>
      tail ← lift (slice data aligned (len data));
      buf ← lift (copy_from_slice (pending p) 0 (len tail) tail);
      total ← lift (checked 32 (accepted p + count));
      mret (mkProgrammer total (flushed p) buf (len tail), f, Ok tt)
  end.

Definition push (p : Programmer) (f : F) (data : list Z) : outcome F programmed :=
  let count := as_u32 (len data) in
  if APP_SIZE <? received p + len data then mret (p, f, Err TooLarge)
  else if 0 <? pending_len p then
    room ← lift (usub WRITE_SIZE (pending_len p));
    let take := Z.min room (len data) in
    head ← lift (slice data 0 take);
    buf ← lift (copy_from_slice (pending p) (pending_len p) (pending_len p + take) head);
    data ← lift (slice data take (len data));
    let p := mkProgrammer (accepted p) (flushed p) buf (pending_len p + take) in
    if pending_len p =? WRITE_SIZE then
      '(p, f, r) ← commit p f (pending p);
      match r with
      | Err e => mret (p, f, Err e)
      | Ok _ => push_aligned (mkProgrammer (accepted p) (flushed p) (pending p) 0) f count data
      end
    else push_aligned p f count data
  else push_aligned p f count data.

Definition finish (p : Programmer) (f : F) : outcome F programmed :=
  if 0 <? pending_len p then
    kept ← lift (slice (pending p) 0 (pending_len p));
    let word := kept ++ replicate (Z.to_nat (WRITE_SIZE - pending_len p)) 0xFF in
    commit (mkProgrammer (accepted p) (flushed p) (pending p) 0) f word
  else mret (p, f, Ok tt).
End programmer.

(** ** The updater task *)

Section updater.
Context `{Crc32} {F E : Type} `{FlashOps F E}.

(** [errors] are the codes reported through [set_error]. *)
Record Updater := mkUpdater {
  nvm : F;
  programmer : Programmer;
  meta : MetaRecord;
  od : BootOd;
  errors : list Z;
}.

Definition set_nvm (u : Updater) (f : F) : Updater := mkUpdater f (programmer u) (meta u) (od u) (errors u).
Definition set_programmer (u : Updater) (p : Programmer) : Updater :=
  mkUpdater (nvm u) p (meta u) (od u) (errors u).
Definition set_meta (u : Updater) (m : MetaRecord) : Updater :=
  mkUpdater (nvm u) (programmer u) m (od u) (errors u).
Definition set_od (u : Updater) (o : BootOd) : Updater :=
  mkUpdater (nvm u) (programmer u) (meta u) o (errors u).

Definition invalidate (r : MetaRecord) : MetaRecord :=
  mkMeta (seq_no r) 0 0 false (update_requested r).

Definition fail (u : Updater) : outcome F Updater :=
  u ←
    (if app_valid (meta u) then
       let invalidated := MetaRecord.next (meta u) invalidate in
       let '(f, r) := append_meta (nvm u) invalidated in
       match r with
       | None => Off f
       | Some (Ok _) => mret (set_meta (set_nvm u f) invalidated)
       | Some (Err _) => mret (set_nvm u f)
       end
     else mret u);
  mret (mkUpdater (nvm u) (programmer u) (meta u) (with_status (od u) ST_ERROR) (errors u ++ [0x5000])).

Definition clear (u : Updater) : outcome F Updater :=
  let declared := image_length (od u) in
  let invalidated := MetaRecord.next (meta u) invalidate in
  let '(f, r) := append_meta (nvm u) invalidated in
  match r with
  | None => Off f
  | Some (Err _) => fail (set_nvm u f)
  | Some (Ok _) =>
      let u := set_meta (set_nvm u f) invalidated in
      let pages := (declared + PAGE_SIZE - 1) / PAGE_SIZE in
      bytes ← lift (checked 32 (pages * PAGE_SIZE));
      last ← lift (checked 32 (APP_OFFSET + bytes));
      let '(f, r) := flash_erase (nvm u) APP_OFFSET last in
      match r with
      | None => Off f
      | Some (Err _) => fail (set_nvm u f)
      | Some (Ok _) =>
          mret (set_od (set_programmer (set_nvm u f) Programmer_new)
                  (with_status (with_written (od u) 0) ST_PROGRAMMING))
      end
  end.

Definition validate (u : Updater) : outcome F Updater :=
  '(p, f, r) ← finish (programmer u) (nvm u);
  let u := set_programmer (set_nvm u f) p in
  match r with
  | Err _ => fail u
  | Ok _ =>
      let declared := image_length (od u) in
      if negb (received (programmer u) =? declared) then fail u
      else
        let candidate := MetaRecord.next (meta u)
          (λ r, mkMeta (seq_no r) declared (expected_crc (od u)) true (update_requested r)) in
        match app_image (nvm u) declared with
        | None => fail u
        | Some image =>
            if negb (crc32 image =? expected_crc (od u)) then fail u
            else if negb (app_vector_table_plausible (nvm u) declared) then fail u
            else
              let '(f, r) := append_meta (nvm u) candidate in
              match r with
              | None => Off f
              | Some (Err _) => fail (set_nvm u f)
              | Some (Ok _) => mret (set_od (set_meta (set_nvm u f) candidate) (with_status (od u) ST_VALID))
              end
        end
  end.

Definition handle_change (u : Updater) (change : BootOdChange) : outcome F Updater :=
  match change with
  | FirmwareChunk =>
      let data := firmware_chunk (od u) in
      chunk ← lift (copy_from_slice (zeros MAX_CHUNK) 0 (len data) data);
      sent ← lift (slice chunk 0 (len data));
      '(p, f, r) ← push (programmer u) (nvm u) sent;
      let u := set_programmer (set_nvm u f) p in
      match r with
      | Ok _ => mret (set_od u (with_written (od u) (received p)))
      | Err _ => fail u
      end
  | Command =>
      let cmd := command (od u) in
      if cmd =? CLEAR then clear u
      else if cmd =? VALIDATE then validate u
      else if cmd =? RESET then Off (nvm u)
      else mret u
  | ExpectedCrc | ImageLength => mret u
  end.

Fixpoint handle_changes (u : Updater) (changes : list BootOdChange) : outcome F Updater :=
  match changes with
  | [] => mret u
  | change :: changes => u ← handle_change u change; handle_changes u changes
  end.

(** A host's write: checked, then stored. *)
Definition host_write (u : Updater) (index subindex : Z) (data : list Z)
    : Updater * result BootOdChange OdError :=
  match check_write (od u) index subindex data with
  | Err e => (u, Err e)
  | Ok _ =>
      match od_store (od u) index subindex data with
      | Err e => (u, Err e)
      | Ok (o, change) => (set_od u o, Ok change)
      end
  end.

(** ** Boot and application *)

(** The decision of [main]: start the application or stay in the updater. *)
Definition boots (f : F) : bool :=
  let '(meta, _) := load_meta f in
  if update_requested meta then false
  else if negb (app_valid meta) then false
  else app_image_verifies f meta.

(** The entry of the updater task. *)
Definition updater_start (f : F) : outcome F Updater :=
  let '(boot_meta, _) := load_meta f in
  '(f, meta) ←
    (if update_requested boot_meta then
       let meta := MetaRecord.next boot_meta
         (λ r, mkMeta (seq_no r) (app_len r) (app_crc r) (app_valid r) false) in
       let '(f, r) := append_meta f meta in
       match r with None => Off f | Some _ => mret (f, meta) end
     else mret (f, boot_meta));
  mret (mkUpdater f Programmer_new meta BootOd_new []).

(** The application's [check_write]. *)
Definition app_check_write (index subindex : Z) (data : list Z) : result unit OdError :=
  if (index =? 0x2F00) && (subindex =? 0) then
    if negb (len data =? 4) then Err ValueRange
    else if negb (from_le_bytes data =? ENTER_UPDATE_MAGIC) then Err ValueRange
    else Ok tt
  else Ok tt.

(** The application's [enter_update]: [Off] is its reset. *)
Definition enter_update (f : F) : outcome F F :=
  let '(meta, _) := load_meta f in
  let request := MetaRecord.next meta
    (λ r, mkMeta (seq_no r) (app_len r) (app_crc r) (app_valid r) true) in
  let '(f, r) := append_meta f request in
  match r with
  | None => Off f
  | Some (Ok _) => Off f
  | Some (Err _) => mret f
  end.
End updater.
Arguments Updater : clear implicits.
