(* ===== verification/FwUpdateSpec.v ===== *)
(** * The updater never boots a half-written image

    Runs of the device over host requests, power failures at any flash
    operation and resets; the invariant that the record in force is only ever
    valid for the image it describes; and what a download leaves in the flash. *)
From S2P Require Import Prelude Od FwMeta FwMetaSpec FwUpdate.

(** ** Runs of the device *)

(** The device is off, in the application, or in the updater. *)
Inductive machine (F : Type) :=
| Dead (f : F)
| Application (f : F)
| Updating (u : Updater F).
Arguments Dead {F} f.
Arguments Application {F} f.
Arguments Updating {F} u.

(** A host's request is worked off before the next one: the updater task is
    woken by it, and a client waits for its answer. *)
Inductive machine_op :=
| PowerOn
| Request (index subindex : Z) (data : list Z)
| EnterUpdate (data : list Z).

Section machine.
Context `{Crc32} {F E : Type} `{FlashOps F E}.

Definition flash_of (m : machine F) : F :=
  match m with Dead f => f | Application f => f | Updating u => nvm u end.

Definition request (u : Updater F) (index subindex : Z) (data : list Z) : outcome F (Updater F) :=
  let '(u, r) := host_write u index subindex data in
  match r with Ok change => handle_changes u [change] | Err _ => mret u end.

Definition power_on (f : F) : outcome F (machine F) :=
  if boots f then mret (Application f) else u ← updater_start f; mret (Updating u).

Definition machine_step (m : machine F) (op : machine_op) : exec (machine F) :=
  let settle {A} (k : A → machine F) (o : outcome F A) :=
    match o with Go a => Ret (k a) | Off f => Ret (Dead f) | Crash => Panic end in
  match op, m with
  | PowerOn, _ => settle id (power_on (flash_of m))
  | Request i s d, Updating u => settle Updating (request u i s d)
  | EnterUpdate data, Application f =>
      match app_check_write 0x2F00 0 data with
      | Ok _ => settle Application (enter_update f)
      | Err _ => Ret m
      end
  | _, _ => Ret m
  end.

Fixpoint machine_run (m : machine F) (ops : list machine_op) {struct ops} : exec (machine F) :=
  match ops with
  | [] => mret m
  | op :: ops => m ← machine_step m op; machine_run m ops
  end.
End machine.

(** ** Reasoning about outcomes *)

(** [ends m P Q]: no panic, [P] of the result, [Q] of a flash left behind. *)
Definition ends {F A} (m : outcome F A) (P : A → Prop) (Q : F → Prop) : Prop :=
  match m with Go a => P a | Off f => Q f | Crash => False end.

Lemma ends_bind {F A B} (m : outcome F A) (k : A → outcome F B) P P' Q :
  ends m P' Q → (∀ a, P' a → ends (k a) P Q) → ends (m ≫= k) P Q.
Proof. destruct m; simpl; auto. Qed.

Lemma ends_mono {F A} (m : outcome F A) (P P' : A → Prop) (Q : F → Prop) :
  ends m P' Q → (∀ a, P' a → P a) → ends m P Q.
Proof. destruct m; simpl; auto. Qed.

Lemma ends_lift {F A} (m : exec A) (P : A → Prop) (Q : F → Prop) : runs m P → ends (lift m) P Q.
Proof. by destruct m. Qed.

(** ** The flash invariant *)

Section safety.
Context `{Crc32Laws} {F E : Type} `{!FlashOps F E} `{!FlashLaws F E}.
Implicit Types (f : F) (u : Updater F).

(** The record in force. *)
Definition in_force_def f : MetaRecord := fst (load_meta f).
Definition in_force_aux : seal in_force_def.
Proof. by eexists. Qed.
Definition in_force : F → MetaRecord := unseal in_force_aux.
Lemma in_force_eq f : in_force f = fst (load_meta f).
Proof. unfold in_force. rewrite seal_eq. unfold in_force_def. reflexivity. Qed.

Lemma in_force_spec f : log_ok (slots_of f) → in_force f = default MetaRecord.BLANK (current (slots_of f)).
Proof. intros Hlog. rewrite in_force_eq. exact (load_current f Hlog). Qed.

(** The log is in order, and a valid record describes the image in the slot. *)
Definition flash_inv f : Prop :=
  log_ok (slots_of f) ∧ (app_valid (in_force f) = true → app_image_verifies f (in_force f) = true).

Definition app_same f f' : Prop := ∀ a, APP_OFFSET ≤ a → flash_at f' a = flash_at f a.

Lemma app_not_meta a : APP_OFFSET ≤ a → ¬ in_meta a.
Proof. unfold in_meta, APP_OFFSET. lia. Qed.

Lemma image_same f f' n : app_same f f' → app_image f' n = app_image f n.
Proof.
  intros Hs. unfold app_image. destruct (_ || _); [done|]. f_equal. apply flash_bytes_same.
  intros a Ha. apply Hs. lia.
Qed.

Lemma verifies_same f f' r : app_same f f' → app_image_verifies f' r = app_image_verifies f r.
Proof.
  intros Hs. unfold app_image_verifies, app_vector_table_plausible. by rewrite (image_same f f' _ Hs).
Qed.

Lemma load_same f f' : (∀ a, in_meta a → flash_at f' a = flash_at f a) →
  slots_of f' = slots_of f ∧ load_meta f' = load_meta f.
Proof.
  intros Hs. pose proof (slots_same f f' Hs) as He. split; [exact He|].
  rewrite (load_meta_slots f'), (load_meta_slots f), He. reflexivity.
Qed.

(** A change of the application slot while no record is valid. *)
Lemma app_changed f f' :
  (∀ a, in_meta a → flash_at f' a = flash_at f a) → log_ok (slots_of f) → app_valid (in_force f) = false →
  flash_inv f' ∧ slots_of f' = slots_of f ∧ in_force f' = in_force f.
Proof.
  intros Hs Hlog Hv. destruct (load_same f f' Hs) as [Hslots Hload].
  assert (in_force f' = in_force f) as Hf by (rewrite !in_force_eq, Hload; reflexivity).
  unfold flash_inv. rewrite Hslots, Hf, Hv.
  split; [split; [exact Hlog|intros [=]]|split; reflexivity].
Qed.

(** An append of a record that is valid only for the image in the slot. *)
Lemma append_inv f rec f' r :
  flash_inv f → wf_meta rec → follows (slots_of f) rec →
  (app_valid rec = true → app_image_verifies f rec = true) →
  append_meta f rec = (f', r) →
  flash_inv f' ∧ app_same f f' ∧
  (r = Some (Ok tt) → current (slots_of f') = Some rec) ∧
  (r ≠ Some (Ok tt) → r ≠ None →
   current (slots_of f') = current (slots_of f) ∨ current (slots_of f') = None).
Proof.
  intros [Hlog Hver] Hwf Hfol Hrec Ha.
  destruct (append_meta_spec f rec f' r Hlog Hwf Hfol Ha) as (Hlog' & Hout & Hc).
  assert (app_same f f') as Hsame by (intros a Hin; by apply Hout, app_not_meta).
  split; [|split; [exact Hsame|]].
  - split; [exact Hlog'|]. rewrite (in_force_spec f' Hlog'), (verifies_same f f' _ Hsame).
    rewrite (in_force_spec f Hlog) in Hver.
    destruct Hc as [[-> _]|[_ [->|[_ ->]]]]; [exact Hrec|exact Hver|discriminate].
  - destruct Hc as [[Hc Hr]|[Hr Hc]]; split; intros Hr'.
    + exact Hc.
    + intros Hn. destruct Hr as [Hr|Hr]; contradict Hr; assumption.
    + contradict Hr. exact Hr'.
    + intros _. destruct Hc as [Hc|[_ Hc]]; [left|right]; exact Hc.
Qed.

(** ** The updater's invariant *)

Definition od_ok (o : BootOd) : Prop := is_u32 (expected_crc o) ∧ 0 ≤ image_length o ≤ APP_SIZE ∧
  len (firmware_chunk o) ≤ MAX_CHUNK.

Definition programmer_ok (p : Programmer) : Prop :=
  len (pending p) = WRITE_SIZE ∧ 0 ≤ pending_len p ≤ WRITE_SIZE ∧ 0 ≤ flushed p ∧ 0 ≤ accepted p.

(** The record in the updater's memory is the one in force or its successor,
    and it is valid if that one is. *)
Definition meta_ok f (m : MetaRecord) : Prop :=
  wf_meta m ∧ (app_valid (in_force f) = true → app_valid m = true) ∧
  ∀ r, current (slots_of f) = Some r → seq_no m = seq_no r ∨ seq_no m = wrap 32 (seq_no r + 1).

Definition base_inv u : Prop :=
  flash_inv (nvm u) ∧ meta_ok (nvm u) (meta u) ∧ od_ok (od u) ∧ programmer_ok (programmer u).

(** While chunks are accepted no record is valid, and the counters agree. *)
Definition programming_ok u : Prop :=
  app_valid (in_force (nvm u)) = false ∧
  flushed (programmer u) + pending_len (programmer u) ≤ accepted (programmer u) ∧
  accepted (programmer u) ≤ APP_SIZE.

Definition updater_inv u : Prop :=
  base_inv u ∧ (flash_status (od u) = ST_PROGRAMMING → programming_ok u).

Lemma next_wf m g :
  wf_meta m → (∀ r, seq_no (g r) = seq_no r) → (∀ r, wf_meta r → wf_meta (g r)) →
  wf_meta (MetaRecord.next m g) ∧ seq_no (MetaRecord.next m g) = wrap 32 (seq_no m + 1).
Proof.
  intros (Hs & Hl & Hc) Hg Hwf. unfold MetaRecord.next. split; [|apply Hg].
  apply Hwf. split; [by apply wrap_range|]. by split.
Qed.

Lemma wrap_succ_succ n : wrap 32 (wrap 32 (n + 1) + 1) = wrap 32 (n + 2).
Proof. unfold wrap. rewrite Zplus_mod_idemp_l. f_equal. lia. Qed.

Lemma next_follows f m g :
  meta_ok f m → (∀ r, seq_no (g r) = seq_no r) → (∀ r, wf_meta r → wf_meta (g r)) →
  wf_meta (MetaRecord.next m g) ∧ follows (slots_of f) (MetaRecord.next m g).
Proof.
  intros (Hwf & _ & Hseq) Hg Hgwf. destruct (next_wf m g Hwf Hg Hgwf) as [Hn Hs].
  split; [exact Hn|]. split; [apply Hn|]. intros r Hr. rewrite Hs.
  destruct (Hseq r Hr) as [->| ->]; [left; reflexivity|right; apply wrap_succ_succ].
Qed.

Lemma in_force_current f r : log_ok (slots_of f) → current (slots_of f) = Some r → in_force f = r.
Proof. intros Hlog Hc. by rewrite (in_force_spec f Hlog), Hc. Qed.

(** Appending the successor of the updater's record. *)
Lemma append_next f m g f' r :
  flash_inv f → meta_ok f m → (∀ r, seq_no (g r) = seq_no r) → (∀ r, wf_meta r → wf_meta (g r)) →
  (app_valid (MetaRecord.next m g) = true → app_image_verifies f (MetaRecord.next m g) = true) →
  append_meta f (MetaRecord.next m g) = (f', r) →
  flash_inv f' ∧
  match r with
  | None => True
  | Some (Ok _) => in_force f' = MetaRecord.next m g ∧ meta_ok f' (MetaRecord.next m g)
  | Some (Err _) => meta_ok f' m ∧ (app_valid (in_force f) = false → app_valid (in_force f') = false)
  end.
Proof.
  intros Hf Hm Hg Hgwf Hver Ha.
  destruct (next_follows f m g Hm Hg Hgwf) as [Hwf Hfol].
  destruct (append_inv f _ f' r Hf Hwf Hfol Hver Ha) as (Hf' & _ & Hok & Herr).
  split; [exact Hf'|]. destruct r as [[[]|e]|]; [| |exact Logic.I].
  - specialize (Hok eq_refl). pose proof (in_force_current f' _ (proj1 Hf') Hok) as Hin.
    split; [exact Hin|]. split; [exact Hwf|]. rewrite Hin. split; [intros Hv; exact Hv|].
    intros r Hr. left. congruence.
  - destruct Hm as (Hmwf & Hmv & Hms).
    assert (current (slots_of f') = current (slots_of f) ∨ current (slots_of f') = None) as Hc.
    { apply Herr; discriminate. }
    rewrite (in_force_spec f (proj1 Hf)) in *. unfold meta_ok.
    rewrite (in_force_spec f' (proj1 Hf')). destruct Hc as [-> | ->].
    + split; [split; [exact Hmwf|split; [exact Hmv|exact Hms]]|intros Hv; exact Hv].
    + split; [split; [exact Hmwf|split; [intros [=]|intros r [=]]]|intros _; reflexivity].
Qed.

Lemma invalidate_seq r : seq_no (invalidate r) = seq_no r.
Proof. reflexivity. Qed.

Lemma invalidate_wf r : wf_meta r → wf_meta (invalidate r).
Proof. intros (Hs & _ & _). split; [exact Hs|]. by split. Qed.

Lemma fail_ends u : base_inv u → ends (fail u) updater_inv flash_inv.
Proof.
  intros (Hf & Hm & Ho & Hp). unfold fail.
  apply ends_bind with (P' := base_inv).
  - destruct (app_valid (meta u)); [|by split].
    destruct (append_meta (nvm u) _) as [f r] eqn:Ha.
    destruct (append_next _ _ _ _ _ Hf Hm invalidate_seq invalidate_wf ltac:(discriminate) Ha) as [Hf' Hr].
    destruct r as [[[]|e]|]; [| |exact Hf'].
    + split; [exact Hf'|]. split; [apply Hr|]. split; [exact Ho|exact Hp].
    + split; [exact Hf'|]. split; [apply Hr|]. split; [exact Ho|exact Hp].
  - intros u' (Hf' & Hm' & Ho' & Hp'). split; [|discriminate].
    split; [exact Hf'|]. split; [exact Hm'|]. split; [exact Ho'|exact Hp'].
Qed.

(** ** Programming *)

(** Only the application slot changed, and no record is valid. *)
Definition calm f f' : Prop :=
  flash_inv f' ∧ slots_of f' = slots_of f ∧ in_force f' = in_force f.

Lemma calm_refl f : flash_inv f → calm f f.
Proof. intros Hf. split; [exact Hf|]. split; reflexivity. Qed.

Lemma calm_trans f1 f2 f3 : calm f1 f2 → calm f2 f3 → calm f1 f3.
Proof.
  intros (_ & Hs1 & Hi1) (Hf & Hs2 & Hi2). split; [exact Hf|].
  split; [by rewrite Hs2, Hs1|by rewrite Hi2, Hi1].
Qed.

Lemma calm_meta f f' m : calm f f' → meta_ok f m → meta_ok f' m.
Proof. intros (_ & Hs & Hi). unfold meta_ok. rewrite Hs, Hi. exact (λ H, H). Qed.

Lemma app_write f off data f' r :
  APP_OFFSET ≤ off → flash_inv f → app_valid (in_force f) = false →
  flash_write f off data = (f', r) → calm f f'.
Proof.
  intros Ho [Hlog _] Hv Hw. apply app_changed; [|exact Hlog|exact Hv].
  intros a Ha. eapply write_outside; [exact Hw|]. left. unfold in_meta, APP_OFFSET in *. lia.
Qed.

(** The flash of a programmer's result. *)
Definition res_flash (x : programmed (F := F)) : F := snd (fst x).
Definition res_prog (x : programmed (F := F)) : Programmer := fst (fst x).

Lemma commit_ends p f data :
  0 ≤ flushed p → flushed p + len data < 2 ^ 32 → flash_inv f → app_valid (in_force f) = false →
  ends (commit p f data) (λ x,
    calm f (res_flash x) ∧ accepted (res_prog x) = accepted p ∧ pending (res_prog x) = pending p ∧
    pending_len (res_prog x) = pending_len p ∧
    flushed (res_prog x) = match snd x with Ok _ => flushed p + len data | Err _ => flushed p end)
    flash_inv.
Proof.
  intros Hpos Hlen Hf Hv. unfold commit.
  destruct (flash_write f (APP_OFFSET + flushed p) data) as [f' r] eqn:Hw.
  assert (calm f f') as Hc by (eapply app_write; [|exact Hf|exact Hv|exact Hw]; lia).
  destruct r as [[[]|e]|]; [| |apply Hc].
  - rewrite wrap_id by (unfold is_uint; lia). rewrite checked_ret by (unfold is_uint; lia).
    split; [exact Hc|]. by split_and!.
  - split; [exact Hc|]. by split_and!.
Qed.

Lemma length_slice (l : list Z) a b n : 0 ≤ a → a ≤ b → b ≤ len l → n = b - a →
  runs (slice l a b) (λ s, len s = n).
Proof.
  intros ? ? ? ->. rewrite slice_ret by done. cbn [runs]. rewrite length_take, length_drop. lia.
Qed.

Lemma push_aligned_ends p f count data :
  programmer_ok p → flushed p + len data < 2 ^ 32 → 0 ≤ count → accepted p + count < 2 ^ 32 →
  flash_inv f → app_valid (in_force f) = false →
  ends (push_aligned p f count data) (λ x,
    calm f (res_flash x) ∧ programmer_ok (res_prog x) ∧
    (is_ok (snd x) = true → accepted (res_prog x) = accepted p + count ∧
       flushed (res_prog x) + pending_len (res_prog x) = flushed p + len data)) flash_inv.
Proof.
  intros (Hp & Hpl & Hfl & Hac) Hlen Hcount Hacc Hf Hv. unfold push_aligned, WRITE_SIZE in *.
  pose proof (Z.mod_pos_bound (len data) 8 eq_refl) as Hmod.
  assert (len data mod 8 ≤ len data) as Hle by (apply Z.mod_le; lia).
  rewrite usub_ret by lia. cbn [lift mbind outcome_bind].
  set (n := len data - len data mod 8).
  apply ends_bind with (P' := λ x, calm f (res_flash x) ∧ accepted (res_prog x) = accepted p ∧
    pending (res_prog x) = pending p ∧ 0 ≤ flushed (res_prog x) ∧ 0 ≤ pending_len (res_prog x) ≤ 8 ∧
    (is_ok (snd x) = true → flushed (res_prog x) = flushed p + n)).
  { destruct (Z.ltb_spec 0 n).
    - apply ends_bind with (P' := λ s, len s = n).
      { apply ends_lift, length_slice; lia. }
      intros s Hs. eapply ends_mono; [apply commit_ends; try assumption; lia|].
      cbn beta. intros [[p' f'] r] (Hc & Ha & Hpe & Hpl' & Hfl'). cbn [res_prog res_flash fst snd] in *.
      rewrite Hpl', Hfl'. split; [exact Hc|]. split; [exact Ha|]. split; [exact Hpe|].
      destruct r; cbn [is_ok]; split_and!; intros; lia || discriminate.
    - cbn. split; [by apply calm_refl|]. by split_and!; intros; cbn; try lia. }
  intros [[p' f'] r] (Hc & Ha & Hpe & Hfl' & Hpl' & Hok). cbn [res_prog res_flash fst snd] in *.
  destruct r as [[]|e].
  - specialize (Hok eq_refl).
    apply ends_bind with (P' := λ s, len s = len data - n); [apply ends_lift, length_slice; lia|].
    intros tail Ht. assert (len tail = len data mod 8) as Ht' by lia. rewrite Hpe.
    pose proof (copy_from_slice_ret (pending p) 0 (len tail) tail) as Hcopy.
    rewrite Hcopy by lia. cbn [lift mbind outcome_bind].
    rewrite checked_ret by (unfold is_uint; lia). cbn [lift mbind outcome_bind ends].
    split; [exact Hc|]. unfold programmer_ok, WRITE_SIZE. cbn [res_prog fst snd pending pending_len flushed accepted].
    rewrite !length_app, length_take, length_drop. split_and!; intros; lia.
  - cbn. split; [exact Hc|]. split; [|discriminate]. unfold programmer_ok, WRITE_SIZE. rewrite Hpe. lia.
Qed.

Lemma push_ends p f data :
  programmer_ok p → flushed p + pending_len p ≤ accepted p → accepted p ≤ APP_SIZE → len data ≤ MAX_CHUNK →
  flash_inv f → app_valid (in_force f) = false →
  ends (push p f data) (λ x,
    calm f (res_flash x) ∧ programmer_ok (res_prog x) ∧
    (is_ok (snd x) = true →
       flushed (res_prog x) + pending_len (res_prog x) ≤ accepted (res_prog x) ∧
       accepted (res_prog x) ≤ APP_SIZE)) flash_inv.
Proof.
  intros Hp Hle Hsize Hdata Hf Hv. pose proof Hp as (Hpe & Hpl & Hfl & Hac). unfold push, received.
  change APP_SIZE with 71680 in *. unfold MAX_CHUNK, WRITE_SIZE in *.
  rewrite wrap_id by (unfold is_uint; lia).
  destruct (Z.ltb_spec 71680 (accepted p + len data)) as [|Hfit].
  { cbn. split; [by apply calm_refl|]. split; [exact Hp|discriminate]. }
  destruct (Z.ltb_spec 0 (pending_len p)) as [Hpos|]; last first.
  { eapply ends_mono; [apply push_aligned_ends; try assumption; lia|]. cbn beta.
    intros x (Hc & Hok & Hr). split; [exact Hc|]. split; [exact Hok|]. intros Hx. specialize (Hr Hx). lia. }
  rewrite usub_ret by lia. cbn [lift mbind outcome_bind]. set (n := Z.min (8 - pending_len p) (len data)).
  apply ends_bind with (P' := λ s, len s = n); [apply ends_lift, length_slice; lia|]. intros head Hhead.
  rewrite copy_from_slice_ret by lia. cbn [lift mbind outcome_bind].
  set (buf := take _ _ ++ _). assert (len buf = 8) as Hbuf.
  { unfold buf. rewrite !length_app, length_take, length_drop. lia. }
  apply ends_bind with (P' := λ s, len s = len data - n); [apply ends_lift, length_slice; lia|].
  intros rest Hrest. cbn [pending_len pending accepted flushed].
  destruct (Z.eqb_spec (pending_len p + n) 8) as [H8|H8].
  - apply ends_bind with (P' := λ x, calm f (res_flash x) ∧ programmer_ok (res_prog x) ∧
      accepted (res_prog x) = accepted p ∧ (is_ok (snd x) = true → flushed (res_prog x) = flushed p + 8)).
    { eapply ends_mono; [apply commit_ends; cbn [flushed]; try assumption; lia|]. cbn beta.
      intros [[p' f'] r] (Hc & Ha & Hpe' & Hpl' & Hfl'). cbn [res_prog res_flash fst snd accepted pending pending_len flushed] in *.
      split; [exact Hc|]. unfold programmer_ok, WRITE_SIZE. rewrite Ha, Hpe', Hpl', Hfl', Hbuf.
      destruct r; cbn [is_ok]; split_and!; intros; try lia; try discriminate; reflexivity. }
    intros [[p' f'] r] (Hc & (Hpe' & Hpl' & Hfl' & _) & Ha & Hok). cbn [res_prog res_flash fst snd] in *.
    destruct r as [[]|e]; [|cbn; split; [exact Hc|]; split; [|discriminate]; unfold programmer_ok; lia].
    specialize (Hok eq_refl). destruct Hc as (Hf' & Hs' & Hi').
    eapply ends_mono; [apply push_aligned_ends; try exact Hf'; cbn [flushed accepted pending_len pending]|].
    + unfold programmer_ok, WRITE_SIZE in *. cbn [flushed accepted pending_len pending]. lia.
    + lia.
    + lia.
    + lia.
    + by rewrite Hi'.
    + cbn beta. intros x (Hc & Hpo & Hr). split; [by apply (calm_trans f f')|]. split; [exact Hpo|].
      intros Hx. specialize (Hr Hx). cbn [accepted flushed] in Hr. lia.
  - eapply ends_mono; [apply push_aligned_ends; try assumption; cbn [flushed accepted pending_len pending]|].
    + unfold programmer_ok, WRITE_SIZE. cbn [flushed accepted pending_len pending]. lia.
    + lia.
    + lia.
    + lia.
    + cbn beta. intros x (Hc & Hpo & Hr). split; [exact Hc|]. split; [exact Hpo|].
      intros Hx. specialize (Hr Hx). cbn [accepted flushed] in Hr. lia.
Qed.

Lemma finish_ends p f :
  programmer_ok p → flushed p ≤ APP_SIZE → flash_inv f → app_valid (in_force f) = false →
  ends (finish p f) (λ x, calm f (res_flash x) ∧ programmer_ok (res_prog x)) flash_inv.
Proof.
  intros (Hpe & Hpl & Hfl & Hac) Hle Hf Hv. unfold finish.
  change APP_SIZE with 71680 in *. unfold WRITE_SIZE in *.
  destruct (Z.ltb_spec 0 (pending_len p)); last first.
  { cbn. split; [by apply calm_refl|]. by split. }
  apply ends_bind with (P' := λ s, len s = pending_len p); [apply ends_lift, length_slice; lia|]. intros kept Hk.
  eapply ends_mono; [apply commit_ends; cbn [flushed]; try assumption|].
  - rewrite length_app, length_replicate. lia.
  - cbn beta. intros [[p' f'] r] (Hc & Ha & Hpe' & Hpl' & Hfl'). cbn [res_prog res_flash fst snd accepted pending pending_len flushed] in *.
    split; [exact Hc|]. unfold programmer_ok, WRITE_SIZE. rewrite Ha, Hpe', Hpl', Hfl'. destruct r; lia.
Qed.

(** ** Program control *)

Lemma base_fail u : base_inv u → ends (fail u) updater_inv flash_inv.
Proof. exact (fail_ends u). Qed.

Lemma erase_app f last f' r :
  flash_inv f → app_valid (in_force f) = false → flash_erase f APP_OFFSET last = (f', r) → calm f f'.
Proof.
  intros [Hlog _] Hv He. apply app_changed; [|exact Hlog|exact Hv].
  intros a Ha. eapply erase_outside; [exact He|]. left. unfold in_meta, APP_OFFSET in *. lia.
Qed.

Lemma clear_ends u : base_inv u → ends (clear u) updater_inv flash_inv.
Proof.
  intros (Hf & Hm & Ho & Hp). unfold clear. destruct (append_meta (nvm u) _) as [f r] eqn:Ha.
  destruct (append_next _ _ _ _ _ Hf Hm invalidate_seq invalidate_wf ltac:(discriminate) Ha) as [Hf' Hr].
  destruct r as [[[]|e]|]; [| |exact Hf'].
  - destruct Hr as [Hin Hm']. destruct (Ho) as (Hcrc & Hlen & Hchunk).
    assert (app_valid (in_force f) = false) as Hv by (by rewrite Hin).
    pose proof (Z.div_mod (image_length (od u) + PAGE_SIZE - 1) PAGE_SIZE ltac:(done)) as Hdiv.
    pose proof (Z.mod_pos_bound (image_length (od u) + PAGE_SIZE - 1) PAGE_SIZE ltac:(done)) as Hmod.
    change APP_SIZE with 71680 in *. change PAGE_SIZE with 2048 in *. change APP_OFFSET with 59392.
    set (pages := (image_length (od u) + 2048 - 1) / 2048) in *.
    rewrite checked_ret by (unfold is_uint; lia). cbn [lift mbind outcome_bind].
    rewrite checked_ret by (unfold is_uint; lia). cbn [lift mbind outcome_bind nvm set_meta set_nvm].
    change 59392 with APP_OFFSET at 1. destruct (flash_erase f APP_OFFSET _) as [f2 r2] eqn:He.
    pose proof (erase_app f _ f2 r2 Hf' Hv He) as Hc. pose proof (calm_meta f f2 _ Hc Hm') as Hm2.
    destruct r2 as [[[]|e]|]; [| |apply Hc].
    + split; [|intros _].
      * split; [apply Hc|]. split; [exact Hm2|]. split; [exact Ho|].
        unfold programmer_ok, WRITE_SIZE. cbn. lia.
      * split; [|cbn; change APP_SIZE with 71680; lia]. cbn [nvm set_od set_programmer set_nvm set_meta].
        destruct Hc as (_ & _ & Hi). by rewrite Hi.
    + apply fail_ends. split; [apply Hc|]. split; [exact Hm2|]. split; [exact Ho|exact Hp].
  - apply fail_ends. split; [exact Hf'|]. split; [apply Hr|]. split; [exact Ho|exact Hp].
Qed.

Lemma validate_ends u :
  base_inv u → programming_ok u → ends (validate u) updater_inv flash_inv.
Proof.
  intros (Hf & Hm & Ho & Hp) (Hv & Hle & Hsize). unfold validate.
  assert (flushed (programmer u) ≤ APP_SIZE) as Hfl by (destruct Hp as (_ & ? & _); lia).
  apply (ends_bind _ _ _ _ _ (finish_ends _ _ Hp Hfl Hf Hv)).
  intros [[p f] r] (Hc & Hp'). cbn [res_prog res_flash fst snd] in *.
  pose proof (calm_meta _ _ _ Hc Hm) as Hm'. set (u1 := set_programmer (set_nvm u f) p).
  assert (base_inv u1) as Hu1 by (split; [apply Hc|split; [exact Hm'|split; [exact Ho|exact Hp']]]).
  assert (app_valid (in_force (nvm u1)) = false) as Hv1 by (destruct Hc as (_ & _ & Hi); cbn; by rewrite Hi).
  destruct r as [[]|e]; [|by apply fail_ends].
  destruct (negb (received (programmer u1) =? image_length (od u1))); [by apply fail_ends|].
  destruct (app_image (nvm u1) (image_length (od u1))) as [image|] eqn:Himg; [|by apply fail_ends].
  destruct (crc32 image =? expected_crc (od u1)) eqn:Hcrc; [|by apply fail_ends]. cbn [negb].
  destruct (app_vector_table_plausible (nvm u1) (image_length (od u1))) eqn:Hvec; [|by apply fail_ends].
  cbn [negb]. set (g := λ r : MetaRecord, mkMeta _ _ _ _ _). destruct (append_meta (nvm u1) _) as [f2 r2] eqn:Ha.
  assert (∀ m, wf_meta m → wf_meta (g m)) as Hg.
  { intros m (Hms & _ & _). split; [exact Hms|]. destruct Ho as (Hoc & Hol & _). cbn.
    split; [|exact Hoc]. unfold is_uint. change APP_SIZE with 71680 in Hol. lia. }
  assert (∀ m, seq_no (g m) = seq_no m) as Hgs by reflexivity.
  assert (app_image_verifies (nvm u1) (MetaRecord.next (meta u1) g) = true) as Hver.
  { unfold app_image_verifies. cbn [MetaRecord.next g app_len app_crc]. by rewrite Hvec, Himg, Hcrc. }
  destruct (append_next (nvm u1) (meta u1) g f2 r2 (proj1 Hu1) Hm' Hgs Hg (λ _, Hver) Ha) as [Hf2 Hr].
  destruct r2 as [[[]|e]|]; [| |exact Hf2].
  - split; [|discriminate]. split; [exact Hf2|]. split; [apply Hr|]. split; [exact Ho|exact Hp'].
  - apply fail_ends. split; [exact Hf2|]. split; [apply Hr|]. split; [exact Ho|exact Hp'].
Qed.

Lemma chunk_ends u :
  base_inv u → programming_ok u → ends (handle_change u FirmwareChunk) updater_inv flash_inv.
Proof.
  intros (Hf & Hm & Ho & Hp) (Hv & Hle & Hsize). pose proof Ho as (_ & _ & Hchunk). unfold handle_change.
  set (d := firmware_chunk (od u)) in *.
  assert (len (zeros MAX_CHUNK) = 889) as Hz by reflexivity. unfold MAX_CHUNK in *.
  rewrite copy_from_slice_ret by lia. cbn [lift mbind outcome_bind].
  apply ends_bind with (P' := λ s, len s = len d).
  { apply ends_lift, length_slice; rewrite ?length_app; lia. }
  intros s Hs.
  assert (len s ≤ MAX_CHUNK) as Hs' by (unfold MAX_CHUNK; lia).
  apply (ends_bind _ _ _ _ _ (push_ends _ _ s Hp Hle Hsize Hs' Hf Hv)).
  intros [[p f] r] (Hc & Hp' & Hok). cbn [res_prog res_flash fst snd] in *.
  pose proof (calm_meta _ _ _ Hc Hm) as Hm'. destruct r as [[]|e].
  - destruct (Hok eq_refl) as [Hle' Hsize'].
    split; [split; [apply Hc|split; [exact Hm'|split; [exact Ho|exact Hp']]]|]. intros _.
    split; [|by split]. destruct Hc as (_ & _ & Hi). cbn. by rewrite Hi.
  - apply fail_ends. split; [apply Hc|]. split; [exact Hm'|]. split; [exact Ho|exact Hp'].
Qed.

(** ** Requests *)

Lemma from_le_4 data : bytes data → len data = 4 → is_u32 (from_le_bytes data).
Proof. intros Hb Hl. pose proof (from_le_range _ Hb) as Hr. by rewrite Hl in Hr. Qed.

Lemma request_ends u index subindex data :
  bytes data → updater_inv u → ends (request u index subindex data) updater_inv flash_inv.
Proof.
  intros Hb Hu. pose proof Hu as [Hbase Hprog]. pose proof Hbase as (Hf & Hm & Ho & Hp).
  assert (∀ o, od_ok o → base_inv (set_od u o)) as Hset.
  { intros o Hoo. split; [exact Hf|]. split; [exact Hm|]. split; [exact Hoo|exact Hp]. }
  assert (∀ m : outcome F (Updater F), ends m updater_inv flash_inv → ends (m ≫= mret) updater_inv flash_inv) as Hret.
  { by intros [v|f|]. }
  pose proof Ho as (Hcrc & Hlen & Hchunk).
  unfold request, host_write. destruct (check_write (od u) index subindex data) as [[]|] eqn:Hcheck; [|exact Hu].
  destruct (od_store (od u) index subindex data) as [[o change]|] eqn:Hst; [|exact Hu].
  unfold check_write in Hcheck. unfold od_store in Hst. cbn [handle_changes].
  change (λ u0, handle_changes u0 []) with (λ u0 : Updater F, mret (M := outcome F) u0).
  apply (Hret (handle_change (set_od u o) change)).
  destruct ((index =? 0x1F50) && (subindex =? 1)).
  { destruct (Z.eqb_spec (flash_status (od u)) ST_PROGRAMMING) as [Hs|]; [|discriminate].
    destruct (Z.ltb_spec MAX_CHUNK (len data)); [discriminate|]. injection Hst as <- <-.
    apply chunk_ends; [by apply Hset|exact (Hprog Hs)]. }
  destruct ((index =? 0x2000) && (subindex =? 1)).
  { destruct (Z.eqb_spec (len data) 4) as [H4|]; [|discriminate]. cbn [negb] in Hcheck, Hst.
    destruct ((index =? 0x1F51) && (subindex =? 1)).
    { destruct data as [|c [|]]; try discriminate. }
    destruct ((index =? 0x1F56) && (subindex =? 1)).
    { injection Hst as <- <-. split; [|exact Hprog]. apply Hset. split; [by apply from_le_4|by split]. }
    injection Hst as <- <-. split; [|exact Hprog]. apply Hset. split; [exact Hcrc|].
    pose proof (from_le_4 _ Hb H4) as Hr. unfold is_uint in Hr. cbn [image_length with_length].
    destruct (Z.eqb_spec (from_le_bytes data) 0); [discriminate|].
    destruct (Z.ltb_spec APP_SIZE (from_le_bytes data)); [discriminate|]. split; [lia|exact Hchunk]. }
  destruct ((index =? 0x1F51) && (subindex =? 1)).
  { destruct data as [|c [|]]; try discriminate. injection Hst as <- <-.
    cbn [handle_change command od set_od with_command].
    destruct (c =? CLEAR); [apply clear_ends, Hset; exact Ho|].
    destruct (c =? VALIDATE).
    { destruct (Z.eqb_spec (flash_status (od u)) ST_PROGRAMMING) as [Hs|]; [|discriminate].
      apply validate_ends; [apply Hset; exact Ho|exact (Hprog Hs)]. }
    destruct (c =? RESET); [exact Hf|discriminate]. }
  destruct ((index =? 0x1F56) && (subindex =? 1)); [|discriminate].
  destruct (Z.eqb_spec (len data) 4) as [H4|]; [|discriminate]. injection Hst as <- <-.
  split; [|exact Hprog]. apply Hset. split; [by apply from_le_4|by split].
Qed.

(** ** Boot *)

Lemma in_force_wf f : log_ok (slots_of f) → wf_meta (in_force f).
Proof.
  intros Hlog. rewrite (in_force_spec f Hlog). pose proof (current_spec (slots_of f)) as Hc.
  destruct (current (slots_of f)) as [r|]; [|by repeat split].
  destruct Hc as (k & (raw & Hk & Hd) & _). eapply decode_wf; [|exact Hd].
  rewrite slots_lookup in Hk. case_decide; [|discriminate]. injection Hk as <-. rewrite slot_bytes.
  unfold flash_bytes. apply Forall_fmap, List.Forall_forall. intros i _. apply flash_byte.
Qed.

Lemma in_force_ok f : flash_inv f → meta_ok f (in_force f).
Proof.
  intros [Hlog _]. split; [by apply in_force_wf|]. split; [exact (λ H, H)|].
  intros r Hr. left. by rewrite (in_force_current f r Hlog Hr).
Qed.

(** A change of [update_requested] alone. *)
Lemma append_flag f g f' r :
  flash_inv f → (∀ m, seq_no (g m) = seq_no m ∧ app_len (g m) = app_len m ∧ app_crc (g m) = app_crc m ∧
    app_valid (g m) = app_valid m) →
  append_meta f (MetaRecord.next (in_force f) g) = (f', r) →
  flash_inv f' ∧ (r ≠ None → meta_ok f' (MetaRecord.next (in_force f) g)).
Proof.
  intros Hf Hg Ha. pose proof (in_force_ok f Hf) as Hm.
  assert (∀ m, seq_no (g m) = seq_no m) as Hgs by apply Hg.
  assert (∀ m, wf_meta m → wf_meta (g m)) as Hgwf.
  { intros m Hwf. unfold wf_meta. destruct (Hg m) as (-> & -> & -> & _). exact Hwf. }
  set (m' := MetaRecord.next (in_force f) g) in *.
  assert (app_valid m' = app_valid (in_force f) ∧ app_len m' = app_len (in_force f) ∧
    app_crc m' = app_crc (in_force f)) as (Hv & Hl & Hc).
  { unfold m', MetaRecord.next. destruct (Hg (mkMeta (wrap 32 (seq_no (in_force f) + 1)) (app_len (in_force f))
      (app_crc (in_force f)) (app_valid (in_force f)) (update_requested (in_force f)))) as (_ & -> & -> & ->).
    split_and!; reflexivity. }
  assert (app_valid m' = true → app_image_verifies f m' = true) as Hver.
  { intros Htrue. rewrite Hv in Htrue. pose proof (proj2 Hf Htrue) as Hi.
    unfold app_image_verifies in *. by rewrite Hl, Hc. }
  destruct (next_follows f (in_force f) g Hm Hgs Hgwf) as [Hwf Hfol].
  destruct (next_wf (in_force f) g (proj1 Hm) Hgs Hgwf) as [_ Hseq].
  destruct (append_inv f m' f' r Hf Hwf Hfol Hver Ha) as (Hf' & _ & Hok & Herr).
  split; [exact Hf'|]. intros Hn. destruct (decide (is_ok <$> r = Some true)) as [Hr|Hr].
  - assert (r = Some (Ok tt)) as -> by (by destruct r as [[[]|]|]).
    specialize (Hok eq_refl). pose proof (in_force_current f' _ (proj1 Hf') Hok) as Hin.
    rewrite <- Hin. by apply in_force_ok.
  - assert (r ≠ Some (Ok tt)) as Hr' by (intros ->; by apply Hr).
    specialize (Herr Hr' Hn). split; [exact Hwf|].
    rewrite (in_force_spec f' (proj1 Hf')), Hv, (in_force_spec f (proj1 Hf)).
    destruct Herr as [-> | ->]; [|split; [intros [=]|intros r0 [=]]].
    split; [exact (λ H, H)|]. intros r0 Hr0. right. fold m' in Hseq.
    by rewrite Hseq, (in_force_current f r0 (proj1 Hf) Hr0).
Qed.

Lemma start_ends f : flash_inv f → ends (updater_start f) updater_inv flash_inv.
Proof.
  intros Hf. unfold updater_start. pose proof (in_force_eq f) as Hin.
  destruct (load_meta f) as [m n]. cbn [fst] in Hin. subst m.
  apply ends_bind with (P' := λ '(f', m), flash_inv f' ∧ meta_ok f' m).
  - destruct (update_requested (in_force f)); [|split; [exact Hf|by apply in_force_ok]].
    destruct (append_meta f _) as [f' r] eqn:Ha.
    pose proof (λ Hg, append_flag f _ f' r Hf Hg Ha) as Hflag.
    destruct Hflag as [Hf' Hm]; [intros m; by split_and!|].
    destruct r; [split; [exact Hf'|by apply Hm]|exact Hf'].
  - intros [f' m] [Hf' Hm]. split; [|discriminate]. split; [exact Hf'|]. split; [exact Hm|]. split.
    + split; [by split|]. cbn. change APP_SIZE with 71680. unfold MAX_CHUNK. lia.
    + unfold programmer_ok, WRITE_SIZE. cbn. lia.
Qed.

Lemma enter_update_ends f : flash_inv f → ends (enter_update f) flash_inv flash_inv.
Proof.
  intros Hf. unfold enter_update. pose proof (in_force_eq f) as Hin.
  destruct (load_meta f) as [m n]. cbn [fst] in Hin. subst m.
  destruct (append_meta f _) as [f' r] eqn:Ha.
  pose proof (λ Hg, append_flag f _ f' r Hf Hg Ha) as Hflag.
  destruct Hflag as [Hf' _]; [intros m; by split_and!|].
  by destruct r as [[[]|]|].
Qed.

(** ** The device *)

Definition machine_inv (m : machine F) : Prop :=
  match m with Updating u => updater_inv u | _ => flash_inv (flash_of m) end.

Definition op_ok (op : machine_op) : Prop :=
  match op with Request _ _ data => bytes data | _ => True end.

Lemma machine_inv_flash m : machine_inv m → flash_inv (flash_of m).
Proof. destruct m; [exact (λ H, H)..|]. intros [Hb _]. apply Hb. Qed.

Lemma machine_step_inv m op : op_ok op → machine_inv m → runs (machine_step m op) machine_inv.
Proof.
  intros Hop Hm. pose proof (machine_inv_flash m Hm) as Hf. destruct op as [|i s d|d]; cbn [machine_step].
  - unfold power_on. destruct (boots (flash_of m)); [exact Hf|].
    pose proof (start_ends (flash_of m) Hf) as Hs. by destruct (updater_start (flash_of m)).
  - destruct m as [f|f|u]; [exact Hf..|]. pose proof (request_ends u i s d Hop Hm) as Hs.
    by destruct (request u i s d).
  - destruct m as [f|f|u]; [exact Hf| |exact Hm].
    destruct (app_check_write 0x2F00 0 d); [|exact Hf].
    pose proof (enter_update_ends f Hf) as Hs. by destruct (enter_update f).
Qed.

Lemma machine_run_inv m ops : Forall op_ok ops → machine_inv m → runs (machine_run m ops) machine_inv.
Proof.
  intros Hops. revert m. induction Hops as [|op ops Hop Hops IH]; intros m Hm; [exact Hm|].
  cbn [machine_run]. apply (runs_bind _ _ _ _ (machine_step_inv m op Hop Hm)). exact IH.
Qed.

(** The metadata page holds no record: erased, or another program's data. *)
Definition unprogrammed f : Prop :=
  ∀ k, 0 ≤ k < META_SLOTS →
    MetaRecord.decode (flash_bytes f (META_OFFSET + k * META_RECORD_SIZE) META_RECORD_SIZE) = None.

Lemma unprogrammed_inv f : unprogrammed f → flash_inv f.
Proof.
  intros Hno. destruct (log_empty (slots_of f) (length_slots f)) as [Hlog Hc].
  { intros k r (raw & Hk & Hd). rewrite slots_lookup in Hk. case_decide; [|discriminate].
    injection Hk as <-. rewrite slot_bytes, Hno in Hd by lia. discriminate. }
  split; [exact Hlog|]. rewrite (in_force_spec f Hlog), Hc. intros [=].
Qed.

Lemma boots_spec f :
  flash_inv f → boots f = app_valid (in_force f) && negb (update_requested (in_force f)).
Proof.
  intros [_ Hver]. unfold boots. pose proof (in_force_eq f) as Hin.
  destruct (load_meta f) as [m n]. cbn [fst] in Hin. subst m.
  destruct (update_requested (in_force f)), (app_valid (in_force f)); try reflexivity.
  cbn [negb andb]. by apply Hver.
Qed.

(** C29. Whatever a host requests, in any order and with any data, whichever
    flash operations fail and at whichever of them the power is lost, the
    updater does not panic and never boots a half-written image: at every
    moment a power-on starts the application exactly when the record in force
    is valid and no update is requested, a valid record describes an image in
    the slot that passes the checks, so the check at boot never fails, and
    while chunks are accepted a power-on leads back to the updater. *)
Theorem update_never_boots_partial_image f0 ops :
  unprogrammed f0 → Forall op_ok ops →
  runs (machine_run (Dead f0) ops) (λ m,
    let f := flash_of m in
    let rec := fst (load_meta f) in
    boots f = app_valid rec && negb (update_requested rec) ∧
    (app_valid rec = true → app_image_verifies f rec = true) ∧
    match m with
    | Updating u => flash_status (od u) = ST_PROGRAMMING → boots f = false
    | _ => True
    end).
Proof.
  intros Hno Hops. eapply runs_mono.
  { apply machine_run_inv; [exact Hops|]. exact (unprogrammed_inv f0 Hno). }
  cbn beta. intros m Hm. cbv zeta. rewrite <- in_force_eq.
  pose proof (machine_inv_flash m Hm) as Hf. rewrite (boots_spec _ Hf).
  split; [reflexivity|]. split; [exact (proj2 Hf)|].
  destruct m as [f|f|u]; [exact Logic.I..|]. destruct Hm as [_ Hprog]. intros Hs.
  destruct (Hprog Hs) as [Hv _]. cbn [flash_of]. by rewrite Hv.
Qed.
End safety.
