(* ===== verification/FwProgram.v ===== *)
(** * What a download leaves in the flash

    The programmer cuts the chunks of a download into doublewords.  As long as
    every chunk fills the word carried over from the chunks before it, the
    slot holds the concatenation of the chunks. *)
From S2P Require Import Prelude Od FwMeta FwMetaSpec FwUpdate FwUpdateSpec.

(** A write that reports success has happened. *)
Class FlashWrites (F E : Type) `{FlashOps F E} := {
  write_done f off data f' :
    flash_write f off data = (f', Some (Ok tt)) → flash_bytes f' off (len data) = data;
}.

Section download.
Context `{Crc32Laws} {F E : Type} `{!FlashOps F E} `{!FlashLaws F E} `{!FlashWrites F E}.
Implicit Types (f : F) (p : Programmer).

(** A download: chunks, then the flush of [validate]. *)
Fixpoint push_all p f (chunks : list (list Z)) : outcome F programmed :=
  match chunks with
  | [] => finish p f
  | c :: chunks =>
      '(p, f, r) ← push p f c;
      match r with Ok _ => push_all p f chunks | Err e => mret (p, f, Err e) end
  end.

(** Every chunk fills the word carried over from the chunks before it. *)
Fixpoint fills (carried : Z) (chunks : list (list Z)) : bool :=
  match chunks with
  | [] => true
  | c :: chunks =>
      ((carried =? 0) || (WRITE_SIZE - carried <=? len c)) && fills ((carried + len c) mod WRITE_SIZE) chunks
  end.

Lemma flash_bytes_app f off a b :
  0 ≤ a → 0 ≤ b → flash_bytes f off (a + b) = flash_bytes f off a ++ flash_bytes f (off + a) b.
Proof.
  intros Ha Hb. apply list_eq. intros i. rewrite flash_bytes_lookup.
  destruct (decide (i < Z.to_nat a)%nat).
  - rewrite lookup_app_l by (by rewrite length_flash_bytes). rewrite flash_bytes_lookup.
    rewrite !decide_True by lia. done.
  - rewrite lookup_app_r by (rewrite length_flash_bytes; lia). rewrite length_flash_bytes, flash_bytes_lookup.
    case_decide; [rewrite decide_True by lia; do 2 f_equal; lia|by rewrite decide_False by lia].
Qed.

(** What the programmer holds of the bytes [bs] it was given. *)
Definition stream p f (bs : list Z) : Prop :=
  accepted p = len bs ∧ flushed p + pending_len p = len bs ∧ 0 ≤ flushed p ∧
  0 ≤ pending_len p < WRITE_SIZE ∧ flushed p mod WRITE_SIZE = 0 ∧ len (pending p) = WRITE_SIZE ∧
  flash_bytes f APP_OFFSET (flushed p) ++ take (Z.to_nat (pending_len p)) (pending p) = bs.

Lemma bind_go {A B} (m : outcome F A) (k : A → outcome F B) b :
  m ≫= k = Go b → ∃ a, m = Go a ∧ k a = Go b.
Proof. destruct m; cbn; intros Hk; [by eexists|discriminate|discriminate]. Qed.

Lemma lift_go {A} (m : exec A) (a : A) : lift (F := F) m = Go a → m = Ret a.
Proof. destruct m; cbn; [by intros [= ->]|discriminate]. Qed.

Lemma commit_go p f data p' f' :
  0 ≤ flushed p → commit p f data = Go (p', f', Ok tt) →
  len data < 2 ^ 32 →
  p' = mkProgrammer (accepted p) (flushed p + len data) (pending p) (pending_len p) ∧
  flash_bytes f' APP_OFFSET (flushed p + len data) = flash_bytes f APP_OFFSET (flushed p) ++ data.
Proof.
  intros Hf Hc Hlen. unfold commit in Hc.
  destruct (flash_write f (APP_OFFSET + flushed p) data) as [f1 [[[]|e]|]] eqn:Hw; [|discriminate|discriminate].
  apply bind_go in Hc as (n & Hn & Hc). apply lift_go in Hn. injection Hc as <- <-.
  rewrite wrap_id in Hn by (unfold is_uint; lia). unfold checked in Hn.
  destruct ((0 <=? flushed p + len data) && (flushed p + len data <? 2 ^ 32)); [|discriminate].
  injection Hn as <-. split; [done|]. rewrite flash_bytes_app by lia. f_equal.
  - apply flash_bytes_same. intros a Ha. eapply write_outside; [exact Hw|]. lia.
  - by eapply write_done.
Qed.

Lemma slice_take (l : list Z) n : 0 ≤ n → n ≤ len l → slice l 0 n = Ret (take (Z.to_nat n) l).
Proof. intros. by apply slice_prefix. Qed.

Lemma slice_drop (l : list Z) n : 0 ≤ n → n ≤ len l → slice l n (len l) = Ret (drop (Z.to_nat n) l).
Proof.
  intros. rewrite slice_ret by lia. f_equal. apply take_ge. rewrite length_drop. lia.
Qed.

(** The aligned part behind a finished prefix [bs] of the image. *)
Lemma push_aligned_go p f count data bs p' f' :
  0 ≤ flushed p → flushed p mod WRITE_SIZE = 0 → len (pending p) = WRITE_SIZE → len data < 2 ^ 32 →
  flash_bytes f APP_OFFSET (flushed p) = bs → flushed p = len bs → accepted p + count = len bs + len data →
  push_aligned p f count data = Go (p', f', Ok tt) → stream p' f' (bs ++ data).
Proof.
  intros Hf Hmod Hpe Hlen Hbs Hfl Hacc Hp. unfold push_aligned, WRITE_SIZE in *.
  pose proof (Z.mod_pos_bound (len data) 8 eq_refl) as Hb.
  assert (len data mod 8 ≤ len data) as Hle by (apply Z.mod_le; lia).
  rewrite usub_ret in Hp by lia. cbn [lift mbind outcome_bind] in Hp.
  set (n := len data - len data mod 8) in *.
  apply bind_go in Hp as ([[p1 f1] r1] & Hc & Hp). destruct r1 as [[]|e]; [|discriminate].
  assert (p1 = mkProgrammer (accepted p) (flushed p + n) (pending p) (pending_len p1) ∧
    flash_bytes f1 APP_OFFSET (flushed p + n) = bs ++ take (Z.to_nat n) data) as [Hp1 Hbytes].
  { destruct (Z.ltb_spec 0 n).
    - rewrite slice_take in Hc by lia. cbn [lift mbind outcome_bind] in Hc.
      assert (len (take (Z.to_nat n) data) = n) as Hn by (rewrite length_take; lia).
      destruct (commit_go _ _ _ _ _ Hf Hc) as [-> Hb1]; [lia|]. rewrite Hn in *.
      split; [done|]. by rewrite Hb1, Hbs.
    - injection Hc as <- <-. assert (n = 0) as Hn0 by lia. rewrite Hn0, Z.add_0_r, app_nil_r. by destruct p. }
  rewrite slice_drop in Hp by lia. cbn [lift mbind outcome_bind] in Hp.
  rewrite Hp1 in Hp. cbn [pending accepted flushed] in Hp.
  assert (len (drop (Z.to_nat n) data) = len data mod 8) as Ht by (rewrite length_drop; lia).
  rewrite copy_from_slice_ret in Hp by lia. cbn [lift mbind outcome_bind] in Hp.
  apply bind_go in Hp as (total & Htot & Hp). apply lift_go in Htot. unfold checked in Htot.
  destruct ((0 <=? accepted p + count) && (accepted p + count <? 2 ^ 32)); [|discriminate].
  injection Htot as <-. injection Hp as <- <-.
  unfold stream, WRITE_SIZE. cbn [accepted flushed pending pending_len].
  rewrite Hbytes, ?length_app, ?length_take, ?length_drop. cbn [Z.to_nat take app length].
  split; [lia|]. split; [lia|]. split; [lia|]. split; [lia|]. split.
  - replace (flushed p + n) with (flushed p + (len data / 8) * 8); [by rewrite Z_mod_plus_full|].
    pose proof (Z.div_mod (len data) 8 ltac:(done)). lia.
  - split; [lia|]. cbn [app]. rewrite <- app_assoc. f_equal. rewrite take_app_length' by lia. apply take_drop.
Qed.

Lemma push_go p f data bs p' f' :
  stream p f bs → pending_len p = 0 ∨ WRITE_SIZE - pending_len p ≤ len data →
  push p f data = Go (p', f', Ok tt) → stream p' f' (bs ++ data).
Proof.
  intros (Hac & Hsum & Hf & Hpl & Hmod & Hpe & Hbs) Hfill Hp.
  pose proof (length_flash_bytes f APP_OFFSET (flushed p)) as Hlb.
  unfold push, received, WRITE_SIZE in *. change APP_SIZE with 71680 in Hp.
  destruct (Z.ltb_spec 71680 (accepted p + len data)) as [|Hfit]; [discriminate|].
  rewrite wrap_id in Hp by (unfold is_uint; lia).
  destruct (Z.ltb_spec 0 (pending_len p)) as [Hpos|Hpos]; last first.
  { assert (pending_len p = 0) as H0' by lia. rewrite H0', take_0, app_nil_r in Hbs.
    refine (push_aligned_go _ _ _ _ _ p' f' Hf Hmod Hpe _ Hbs _ _ Hp); lia. }
  destruct Hfill as [?|Hfill]; [lia|]. rewrite usub_ret in Hp by lia. cbn [lift mbind outcome_bind] in Hp.
  rewrite Z.min_l in Hp by lia. set (n := 8 - pending_len p) in *.
  rewrite slice_take in Hp by lia. cbn [lift mbind outcome_bind] in Hp.
  assert (len (take (Z.to_nat n) data) = n) as Hhead by (rewrite length_take; lia).
  rewrite copy_from_slice_ret in Hp by lia. cbn [lift mbind outcome_bind] in Hp.
  rewrite slice_drop in Hp by lia. cbn [lift mbind outcome_bind pending_len pending accepted flushed] in Hp.
  replace (pending_len p + n) with 8 in Hp by lia. change (8 =? 8) with true in Hp. cbv iota in Hp.
  rewrite (drop_ge (pending p)), app_nil_r in Hp by lia.
  set (word := take (Z.to_nat (pending_len p)) (pending p) ++ take (Z.to_nat n) data) in *.
  assert (len word = 8) as Hword by (unfold word; rewrite length_app, length_take; lia).
  apply bind_go in Hp as ([[p1 f1] r1] & Hc & Hp). destruct r1 as [[]|e]; [|discriminate].
  apply commit_go in Hc as [-> Hb1]; [|exact Hf|lia]. cbn [accepted flushed pending pending_len] in *.
  rewrite Hword in *.
  assert (bs ++ data = (flash_bytes f APP_OFFSET (flushed p) ++ word) ++ drop (Z.to_nat n) data) as ->.
  { unfold word. rewrite <- Hbs, <- !app_assoc. do 2 f_equal. by rewrite take_drop. }
  refine (push_aligned_go _ _ _ _ _ p' f' _ _ _ _ _ _ _ Hp); cbn [accepted flushed pending pending_len];
    rewrite ?length_app, ?length_drop; try lia.
  - rewrite <- Zplus_mod_idemp_r. change (8 mod WRITE_SIZE) with 0. by rewrite Z.add_0_r.
  - exact Hword.
  - exact Hb1.
Qed.

Lemma finish_go p f bs p' f' :
  stream p f bs → finish p f = Go (p', f', Ok tt) →
  flash_bytes f' APP_OFFSET (len bs) = bs ∧ received p' = len bs.
Proof.
  intros (Hac & Hsum & Hf & Hpl & Hmod & Hpe & Hbs) Hp. unfold finish, received, WRITE_SIZE in *.
  destruct (Z.ltb_spec 0 (pending_len p)) as [Hpos|Hpos].
  - rewrite slice_take in Hp by lia. cbn [lift mbind outcome_bind] in Hp.
    apply commit_go in Hp as [-> Hb1]; [|exact Hf|rewrite length_app, length_take, length_replicate; lia].
    cbn [accepted flushed] in *. split; [|done].
    assert (flash_bytes f' APP_OFFSET (len bs)
      = take (length bs) (flash_bytes f' APP_OFFSET (flushed p + len (take (Z.to_nat (pending_len p)) (pending p) ++
          replicate (Z.to_nat (8 - pending_len p)) 255)))) as ->.
    { pose proof (flash_bytes_part f' APP_OFFSET (flushed p + len (take (Z.to_nat (pending_len p)) (pending p) ++
          replicate (Z.to_nat (8 - pending_len p)) 255)) 0 (len bs)) as Hpart.
      rewrite Nat2Z.id, Z.add_0_r in Hpart. cbn [Z.to_nat] in Hpart. rewrite drop_0 in Hpart.
      symmetry. apply Hpart; rewrite ?length_app, ?length_take, ?length_replicate; lia. }
    rewrite Hb1, app_assoc, Hbs. apply take_app_length.
  - injection Hp as <- <-. assert (pending_len p = 0) as H0' by lia.
    rewrite H0', take_0, app_nil_r in Hbs. split; [|done]. replace (len bs) with (flushed p) by lia. exact Hbs.
Qed.

Lemma push_all_go chunks p f bs p' f' :
  stream p f bs → fills (pending_len p) chunks = true → push_all p f chunks = Go (p', f', Ok tt) →
  flash_bytes f' APP_OFFSET (len (bs ++ concat chunks)) = bs ++ concat chunks ∧
  received p' = len (bs ++ concat chunks).
Proof.
  revert p f bs. induction chunks as [|c chunks IH]; intros p f bs Hs Hfill Hp; cbn [push_all fills concat] in *.
  - rewrite app_nil_r. by eapply finish_go.
  - apply andb_true_iff in Hfill as [Hc Hfill].
    apply bind_go in Hp as ([[p1 f1] r1] & Hpush & Hp). destruct r1 as [[]|e]; [|discriminate].
    assert (stream p1 f1 (bs ++ c)) as Hs1.
    { eapply push_go; [exact Hs| |exact Hpush]. apply orb_true_iff in Hc as [Hc|Hc]; lia. }
    rewrite app_assoc. apply (IH p1 f1 (bs ++ c) Hs1); [|exact Hp].
    replace (pending_len p1) with ((pending_len p + len c) mod WRITE_SIZE); [exact Hfill|].
    destruct Hs as (_ & Hsum & _ & _ & Hmod & _), Hs1 as (_ & Hsum1 & _ & Hpl1 & Hmod1 & _).
    rewrite length_app in Hsum1. unfold WRITE_SIZE in *.
    rewrite <- (Z.mod_small (pending_len p1) 8) by lia.
    replace (pending_len p + len c) with (pending_len p1 + (flushed p1 - flushed p)) by lia.
    rewrite Zplus_mod, Zminus_mod, Hmod, Hmod1. cbn. by rewrite Z.add_0_r, Zmod_mod.
Qed.

Lemma stream_new f : stream Programmer_new f [].
Proof. unfold stream, WRITE_SIZE. cbn. by split_and!. Qed.

(** A download of chunks of which each fills the doubleword carried over
    from the chunks before it, flushed by the final validation, leaves exactly
    the concatenation of the chunks in the application slot when all flash
    writes succeed, and counts exactly its bytes. *)
Theorem download_programs_image f chunks p' f' :
  fills 0 chunks = true → push_all Programmer_new f chunks = Go (p', f', Ok tt) →
  flash_bytes f' APP_OFFSET (len (concat chunks)) = concat chunks ∧ received p' = len (concat chunks).
Proof.
  intros Hfill Hp. exact (push_all_go chunks Programmer_new f [] p' f' (stream_new f) Hfill Hp).
Qed.
End download.
