(* ===== verification/FwDemo.v ===== *)
(** * A concrete flash for the updater

    A flash as the list of its writes and erases, whose power fails after a
    given number of operations; the laws of [FwMetaSpec] and [FwProgram] hold
    of it, and the theorems apply. *)
From S2P Require Import Prelude Od FwMeta FwMetaSpec FwUpdate FwUpdateSpec FwProgram.

Inductive segment :=
| Written (off : Z) (data : list Z)
| Erased (from to : Z).

(** Newest operation first; [power] operations are left. *)
Record DemoFlash := mkFlash { segments : list segment; power : nat }.

Definition covers (s : segment) (a : Z) : option Z :=
  match s with
  | Written off data => if (off <=? a) && (a <? off + len data) then Some (wrap 8 (at_ data (Z.to_nat (a - off)))) else None
  | Erased from to => if (from <=? a) && (a <? to) then Some 0xFF else None
  end.

Fixpoint segments_at (l : list segment) (a : Z) : Z :=
  match l with
  | [] => 0xFF
  | s :: l => match covers s a with Some b => b | None => segments_at l a end
  end.

Definition operate (f : DemoFlash) (s : segment) : DemoFlash * option (result unit unit) :=
  match power f with
  | O => (f, None)
  | S n => (mkFlash (s :: segments f) n, Some (Ok tt))
  end.

#[export] Instance demo_crc : Crc32 := λ l, wrap 32 (foldr (λ b c, wrap 32 (b + 257 * c)) (len l) l).

#[export] Instance demo_crc_laws : Crc32Laws.
Proof. split. intros l. by apply wrap_range. Defined.

#[export] Instance demo_flash : FlashOps DemoFlash unit := {
  flash_at f a := segments_at (segments f) a;
  flash_write f off data := if forallb (λ b, (0 <=? b) && (b <? 256)) data
                            then operate f (Written off data) else (f, Some (Err tt));
  flash_erase f from to := operate f (Erased from to);
}.

Lemma segments_u8 l a : is_u8 (segments_at l a).
Proof.
  induction l as [|s l IH]; [by split|]. cbn [segments_at].
  destruct s as [off data|from to]; cbn [covers]; destruct (_ && _); try exact IH; [by apply wrap_range|by split].
Qed.

Lemma operate_cases f s f' r :
  operate f s = (f', r) → (f' = f ∧ r = None) ∨ (segments f' = s :: segments f ∧ r = Some (Ok tt)).
Proof. unfold operate. destruct (power f); intros [= <- <-]; [by left|by right]. Qed.

Lemma demo_written (f f' : DemoFlash) off data :
  flash_write f off data = (f', Some (Ok tt)) → flash_bytes f' off (len data) = data.
Proof.
  cbn [flash_write demo_flash]. destruct (forallb _ data) eqn:Hb; [|discriminate]. intros Hw.
  apply operate_cases in Hw as [[_ [=]]|[Hs _]].
  apply list_eq. intros i. rewrite flash_bytes_lookup. case_decide as Hi.
  - rewrite Nat2Z.id in Hi. destruct (lookup_lt_is_Some_2 data i Hi) as [b Hlb]. rewrite Hlb.
    unfold flash_at, demo_flash. rewrite Hs. cbn [segments_at covers].
    rewrite (proj2 (Z.leb_le _ _)), (proj2 (Z.ltb_lt _ _)) by lia. cbn [andb]. do 2 f_equal.
    replace (off + Z.of_nat i - off) with (Z.of_nat i) by lia. rewrite Nat2Z.id. unfold at_. rewrite (nth_lookup_Some data i 0 b Hlb).
    apply wrap_id. rewrite forallb_forall in Hb.
    apply list_elem_of_lookup_2, list_elem_of_In in Hlb. specialize (Hb b Hlb).
    apply andb_true_iff in Hb. unfold is_uint. lia.
  - symmetry. apply lookup_ge_None_2. lia.
Qed.

#[export] Instance demo_writes : FlashWrites DemoFlash unit.
Proof. split. intros f off data f'. apply demo_written. Defined.

Lemma demo_unchanged (f f' : DemoFlash) off data r :
  flash_write f off data = (f', r) → r ≠ Some (Ok tt) → f' = f.
Proof.
  cbn [flash_write demo_flash]. destruct (forallb _ data); [|by intros [= <- <-]].
  intros Hw Hr. by apply operate_cases in Hw as [[? _]|[_ ?]].
Qed.

#[export] Instance demo_flash_laws : FlashLaws DemoFlash unit.
Proof.
  split.
  - intros f a. apply segments_u8.
  - intros f off data f' r a Hw Ha. cbn [flash_write demo_flash] in Hw.
    destruct (forallb _ data); [|by injection Hw as <- <-].
    apply operate_cases in Hw as [[-> _]|[Hs _]]; [done|].
    unfold flash_at, demo_flash. rewrite Hs. cbn [segments_at covers].
    destruct (Z.leb_spec off a), (Z.ltb_spec a (off + len data)); cbn [andb]; try done. lia.
  - intros f from to f' r a He Ha. apply operate_cases in He as [[-> _]|[Hs _]]; [done|].
    unfold flash_at, demo_flash. rewrite Hs. cbn [segments_at covers].
    destruct (Z.leb_spec from a), (Z.ltb_spec a to); cbn [andb]; try done. lia.
  - intros f from to f' a He Ha. apply operate_cases in He as [[_ [=]]|[Hs _]].
    unfold flash_at, demo_flash. rewrite Hs. cbn [segments_at covers].
    by rewrite (proj2 (Z.leb_le _ _)), (proj2 (Z.ltb_lt _ _)) by lia.
  - intros f k rec f' _ _ Hw. apply demo_written in Hw. by rewrite length_encode in Hw.
  - intros f k rec f' r _ Hr He Hw. left. rewrite (demo_unchanged _ _ _ _ _ Hw Hr). by apply erased_decode.
  - intros f f' r He Hr. left. apply operate_cases in He as [[-> _]|[_ ?]]; [done|by destruct Hr].
Defined.

(** A never programmed flash that survives [n] operations. *)
Definition fresh (n : nat) : DemoFlash := mkFlash [] n.

Lemma fresh_unprogrammed n : unprogrammed (fresh n).
Proof.
  intros k _. apply erased_decode. unfold erased, flash_bytes. apply forallb_forall. intros b Hb.
  apply list_elem_of_In, list_elem_of_fmap in Hb as (i & -> & _). done.
Qed.

Lemma fresh_log n : log_ok (slots_of (fresh n)).
Proof. exact (proj1 (unprogrammed_inv _ (fresh_unprogrammed n))). Qed.

(** An eight-byte image: its stack pointer and its reset vector. *)
Definition demo_image : list Z := to_le_bytes 4 (RAM_BASE + RAM_SIZE) ++ to_le_bytes 4 (APP_BASE + 5).

Definition demo_update : list machine_op :=
  [PowerOn;
   Request 0x2000 1 (to_le_bytes 4 8);
   Request 0x1F56 1 (to_le_bytes 4 (crc32 demo_image));
   Request 0x1F51 1 [CLEAR];
   Request 0x1F50 1 demo_image;
   Request 0x1F51 1 [VALIDATE];
   Request 0x1F51 1 [RESET];
   PowerOn].

Definition running_app (m : machine DemoFlash) : bool :=
  match m with Application _ => true | _ => false end.

(** The update takes four flash operations; cut short at any of them the
    device comes back in the updater. *)
Example update_boots :
  map (λ n, m ← machine_run (Dead (fresh n)) demo_update; mret (running_app m)) (seq 0 6)
  = [Ret false; Ret false; Ret false; Ret false; Ret true; Ret true].
Proof. vm_compute. reflexivity. Qed.

Lemma append_is_atomic_witness :
  let rec := mkMeta 1 8 9 true false in
  let f' := fst (append_meta (fresh 3) rec) in
  log_ok (slots_of (fresh 3)) ∧ wf_meta rec ∧
  seq_no rec = wrap 32 (seq_no (fst (load_meta (fresh 3))) + 1) ∧
  log_ok (slots_of f') ∧ (∀ a, ¬ in_meta a → flash_at f' a = flash_at (fresh 3) a) ∧
  fst (load_meta f') = rec.
Proof.
  cbv zeta. split; [exact (fresh_log 3)|]. split; [by repeat split|]. split; [vm_compute; reflexivity|].
  apply (append_is_atomic (fresh 3) (mkMeta 1 8 9 true false) (fst (append_meta (fresh 3) (mkMeta 1 8 9 true false)))
    (Some (Ok tt)) (fresh_log 3)); [by repeat split|vm_compute; reflexivity|vm_compute; reflexivity].
Defined.

Lemma update_never_boots_partial_image_witness :
  unprogrammed (fresh 3) ∧ Forall op_ok demo_update ∧
  runs (machine_run (Dead (fresh 3)) demo_update) (λ m,
    let f := flash_of m in
    let rec := fst (load_meta f) in
    boots f = app_valid rec && negb (update_requested rec) ∧
    (app_valid rec = true → app_image_verifies f rec = true) ∧
    match m with
    | Updating u => flash_status (od u) = ST_PROGRAMMING → boots f = false
    | _ => True
    end).
Proof.
  assert (Forall op_ok demo_update) as Hops.
  { repeat (apply List.Forall_cons; [first [exact Logic.I|by apply (bool_decide_unpack _)]|]). apply List.Forall_nil. }
  split; [exact (fresh_unprogrammed 3)|]. split; [exact Hops|].
  apply (update_never_boots_partial_image (fresh 3) demo_update (fresh_unprogrammed 3) Hops).
Defined.

(** ** Downloads *)

Definition result_of (m : outcome DemoFlash programmed) : DemoFlash * Z :=
  match m with Go (p, f, _) => (f, received p) | Off f => (f, 0) | Crash => (fresh 0, 0) end.

Lemma download_programs_image_witness :
  fills 0 [[1; 2; 3]; [4; 5; 6; 7; 8; 9]; [10; 11; 12; 13; 14; 15; 16; 17]] = true ∧
  ∃ p f, push_all Programmer_new (fresh 9) [[1; 2; 3]; [4; 5; 6; 7; 8; 9]; [10; 11; 12; 13; 14; 15; 16; 17]]
    = Go (p, f, Ok tt) ∧
  flash_bytes f APP_OFFSET 17 = [1; 2; 3; 4; 5; 6; 7; 8; 9; 10; 11; 12; 13; 14; 15; 16; 17] ∧ received p = 17.
Proof.
  split; [reflexivity|]. do 2 eexists. split; [vm_compute; reflexivity|].
  eapply (download_programs_image (fresh 9) [[1; 2; 3]; [4; 5; 6; 7; 8; 9]; [10; 11; 12; 13; 14; 15; 16; 17]]);
    [reflexivity|vm_compute; reflexivity].
Defined.

(** A chunk too short to fill the carried word drops it: two chunks of three
    and two bytes are counted as five, and none of them reaches the flash. *)
Example short_chunk_loses_bytes :
  let '(f, n) := result_of (push_all Programmer_new (fresh 9) [[1; 2; 3]; [4; 5]]) in
  n = 5 ∧ flash_bytes f APP_OFFSET 5 = [0xFF; 0xFF; 0xFF; 0xFF; 0xFF].
Proof. vm_compute. split; reflexivity. Qed.
