(* ===== verification/FwHost.v ===== *)
(** * The host side of a firmware update

    [tools/canopen-fwupdate/src/main.rs]: what the command-line client of the
    updater asks of a node, in which order, and what it concludes from the
    answers.  The bus is the class [Network]: opening the transport, the two
    blocking SDO helpers and the clock; each may change the state of the
    world.  Times are microseconds.  Console output and the file system are
    left out, the image is an argument; closing a transport has no effect. *)
From S2P Require Import Prelude FwMeta.

(** [C] is an open transport, [E] what a failed exchange reports. *)
Class Network (N C E : Type) := {
  net_connect : N → N * result C E;
  net_upload : N → C → Z → Z → Z → Z → N * result (list Z) E;
  net_download : N → C → Z → Z → Z → list Z → Z → N * result unit E;
  net_now : N → N * Z;
  net_sleep : N → Z → N;
}.

Module Host.

(** ** Constants *)

Definition MAX_CHUNK : Z := 256.

Definition VENDOR_ID : Z := 0x0000053A.
Definition PRODUCT_CODE_APP : Z := 0x454D4441.
Definition PRODUCT_CODE_BOOTLOADER : Z := 0x454D4442.
Definition PRODUCT_CODE_STATUSLIGHT_APP : Z := 0x53544C01.
Definition PRODUCT_CODE_STATUSLIGHT_BOOTLOADER : Z := 0x53544C42.
Definition PRODUCT_CODE_F767_APP : Z := 0x44445541.
Definition PRODUCT_CODE_F767_BOOTLOADER : Z := 0x44445542.
Definition ENTER_UPDATE_MAGIC : Z := 0x54504455.

Definition IDENTITY : Z := 0x1018.
Definition PROGRAM_DATA : Z := 0x1F50.
Definition PROGRAM_CONTROL : Z := 0x1F51.
Definition PROGRAM_SW_ID : Z := 0x1F56.
Definition FLASH_STATUS : Z := 0x1F57.
Definition UPDATE_INFO : Z := 0x2000.
Definition ENTER_UPDATE : Z := 0x2F00.

Definition CMD_VALIDATE : Z := 1.
Definition CMD_RESET : Z := 2.
Definition CMD_CLEAR : Z := 3.

Definition ST_PROGRAMMING : Z := 1.
Definition ST_VALID : Z := 2.

Definition ms (n : Z) : Z := n * 1000.
Definition secs (n : Z) : Z := n * 1000000.
Definition T_SHORT : Z := ms 500.
Definition T_FLASH : Z := secs 5.

Inductive Target := Firmware | Web.

#[global] Instance Target_eq_dec : EqDecision Target.
Proof. solve_decision. Defined.

Definition raw (t : Target) : Z := match t with Firmware => 1 | Web => 2 end.

Inductive Role := Application | Bootloader.

#[global] Instance Role_eq_dec : EqDecision Role.
Proof. solve_decision. Defined.

(** ** Outcomes *)

(** The messages of the tool, by what they report. *)
Inductive HostError (E : Type) :=
| ConnectFailed (e : E)
| ReadFailed (index sub : Z) (e : E)
| ReadShort (index sub : Z) (n : Z)
| WriteFailed (index sub : Z) (e : E)
| ChunkFailed (n : Z) (e : E)
| UnexpectedVendor (vendor : Z)
| UnexpectedProduct (product : Z)
| NoProgramControl
| DidNotComeBack (role : Role)
| ImageTooSmall
| SelectedTarget (selected : Z)
| NoTargetSelector
| SlotTooSmall (n capacity : Z)
| WrongAddress (reset base : Z)
| NotProgramming (status : Z)
| Received (written total : Z)
| ValidationFailed (status : Z).
Arguments ConnectFailed {E} e.
Arguments ReadFailed {E} index sub e.
Arguments ReadShort {E} index sub n.
Arguments WriteFailed {E} index sub e.
Arguments ChunkFailed {E} n e.
Arguments UnexpectedVendor {E} vendor.
Arguments UnexpectedProduct {E} product.
Arguments NoProgramControl {E}.
Arguments DidNotComeBack {E} role.
Arguments ImageTooSmall {E}.
Arguments SelectedTarget {E} selected.
Arguments NoTargetSelector {E}.
Arguments SlotTooSmall {E} n capacity.
Arguments WrongAddress {E} reset base.
Arguments NotProgramming {E} status.
Arguments Received {E} written total.
Arguments ValidationFailed {E} status.

(** A run of the tool; the waiting loops take their fuel from their deadlines. *)
Inductive tool (A : Type) :=
| Done (a : A)
| Panicked
| OutOfFuel.
Arguments Done {A} a.
Arguments Panicked {A}.
Arguments OutOfFuel {A}.

Definition host (N E A : Type) : Type := N → tool (N * result A (HostError E)).

#[global] Instance host_ret N E : MRet (host N E) := λ A a n, Done (n, Ok a).
#[global] Instance host_bind N E : MBind (host N E) := λ A B k m n,
  match m n with
  | Done (n, Ok a) => k a n
  | Done (n, Err e) => Done (n, Err e)
  | Panicked => Panicked
  | OutOfFuel => OutOfFuel
  end.

Section commands.
Context {N C E : Type} `{Network N C E}.

Definition throw {A} (e : HostError E) : host N E A := λ n, Done (n, Err e).

(** A result that is inspected or discarded instead of returned with [?]. *)
Definition try_ {A} (m : host N E A) : host N E (result A (HostError E)) := λ n,
  match m n with
  | Done (n, r) => Done (n, Ok r)
  | Panicked => Panicked
  | OutOfFuel => OutOfFuel
  end.

Definition call {A} (f : N → N * A) : host N E A := λ n, let '(n, a) := f n in Done (n, Ok a).
Definition arith {A} (m : exec A) : host N E A := λ n,
  match m with Ret a => Done (n, Ok a) | Panic => Panicked end.
Definition out_of_fuel {A} : host N E A := λ _, OutOfFuel.

Definition now : host N E Z := call net_now.
Definition sleep (d : Z) : host N E unit := call (λ n, (net_sleep n d, tt)).

(** ** Objects *)

Definition read_u32_timeout (c : C) (node index sub timeout : Z) : host N E Z :=
  r ← call (λ n, net_upload n c node index sub timeout);
  match r with
  | Err e => throw (ReadFailed index sub e)
  | Ok data =>
      if len data <? 4 then throw (ReadShort index sub (len data))
      else mret (from_le_bytes (take 4 data))
  end.

Definition read_u32 (c : C) (node index sub : Z) : host N E Z :=
  read_u32_timeout c node index sub T_SHORT.

Definition read_u8 (c : C) (node index sub : Z) : host N E Z :=
  r ← call (λ n, net_upload n c node index sub T_SHORT);
  match r with
  | Err e => throw (ReadFailed index sub e)
  | Ok [] => throw (ReadShort index sub 0)
  | Ok (b :: _) => mret b
  end.

Definition write (c : C) (node index sub : Z) (data : list Z) (timeout : Z) : host N E unit :=
  r ← call (λ n, net_download n c node index sub data timeout);
  match r with
  | Err e => throw (WriteFailed index sub e)
  | Ok _ => mret tt
  end.

Definition write_u32 (c : C) (node index sub value timeout : Z) : host N E unit :=
  write c node index sub (to_le_bytes 4 value) timeout.

Definition write_u8 (c : C) (node index sub value timeout : Z) : host N E unit :=
  write c node index sub [value] timeout.

Definition identify (c : C) (node : Z) : host N E Role :=
  vendor ← read_u32 c node IDENTITY 1;
  if negb (vendor =? VENDOR_ID) then throw (UnexpectedVendor vendor)
  else
    product ← read_u32 c node IDENTITY 2;
    if (product =? PRODUCT_CODE_APP) || (product =? PRODUCT_CODE_STATUSLIGHT_APP)
       || (product =? PRODUCT_CODE_F767_APP) then mret Application
    else if (product =? PRODUCT_CODE_BOOTLOADER) || (product =? PRODUCT_CODE_STATUSLIGHT_BOOTLOADER)
       || (product =? PRODUCT_CODE_F767_BOOTLOADER) then mret Bootloader
    else throw (UnexpectedProduct product).

(** ** Waiting *)

(** Rounds of [interval] until [timeout], with the first and the last. *)
Definition rounds (timeout interval : Z) : nat := S (S (Z.to_nat (timeout / interval))).

Fixpoint connect_loop (fuel : nat) (deadline : Z) : host N E C :=
  match fuel with
  | O => out_of_fuel
  | S fuel =>
      r ← call net_connect;
      match r with
      | Ok c => mret c
      | Err e =>
          t ← now;
          if deadline <=? t then throw (ConnectFailed e)
          else _ ← sleep (ms 100); connect_loop fuel deadline
      end
  end.

Definition connect_wait (timeout : Z) : host N E C :=
  t ← now;
  connect_loop (rounds timeout (ms 100)) (t + timeout).

(** The loops that wait for the node to come back in a role. *)
Fixpoint come_back_loop (fuel : nat) (deadline node : Z) (wanted : Role) : host N E C :=
  match fuel with
  | O => out_of_fuel
  | S fuel =>
      t ← now;
      if deadline <=? t then throw (DidNotComeBack wanted)
      else
        _ ← sleep (ms 200);
        r ← call net_connect;
        match r with
        | Err _ => come_back_loop fuel deadline node wanted
        | Ok c =>
            role ← try_ (identify c node);
            match role with
            | Ok role => if bool_decide (role = wanted) then mret c else come_back_loop fuel deadline node wanted
            | Err _ => come_back_loop fuel deadline node wanted
            end
        end
  end.

Definition come_back (node : Z) (wanted : Role) : host N E C :=
  t ← now;
  come_back_loop (rounds (secs 10) (ms 200)) (t + secs 10) node wanted.

(** ** Commands *)

Record Status := mkStatus {
  st_role : Role;
  st_flash : option (Z * Z * Z * Z * Z);
}.

Definition status (c : C) (node : Z) : host N E Status :=
  role ← identify c node;
  match role with
  | Bootloader =>
      status ← read_u32 c node FLASH_STATUS 1;
      declared ← read_u32 c node UPDATE_INFO 1;
      written ← read_u32 c node UPDATE_INFO 2;
      base ← read_u32 c node UPDATE_INFO 3;
      capacity ← read_u32 c node UPDATE_INFO 4;
      mret (mkStatus role (Some (status, declared, written, base, capacity)))
  | Application => mret (mkStatus role None)
  end.

Definition enter_update (node : Z) : host N E C :=
  c ← connect_wait (secs 3);
  role ← identify c node;
  match role with
  | Bootloader => mret c
  | Application =>
      _ ← try_ (write_u32 c node ENTER_UPDATE 0 ENTER_UPDATE_MAGIC T_SHORT);
      come_back node Bootloader
  end.

(** [image.chunks(MAX_CHUNK)] *)
Fixpoint chunks_fuel (fuel : nat) (l : list Z) : list (list Z) :=
  match fuel, l with
  | S fuel, _ :: _ => take (Z.to_nat MAX_CHUNK) l :: chunks_fuel fuel (drop (Z.to_nat MAX_CHUNK) l)
  | _, _ => []
  end.

Definition chunks (l : list Z) : list (list Z) := chunks_fuel (length l) l.

Fixpoint send_chunks (c : C) (node n : Z) (l : list (list Z)) : host N E unit :=
  match l with
  | [] => mret tt
  | chunk :: l =>
      r ← call (λ w, net_download w c node PROGRAM_DATA 1 chunk T_FLASH);
      match r with
      | Err e => throw (ChunkFailed n e)
      | Ok _ => send_chunks c node (n + 1) l
      end
  end.

(** [image[victim] ^= 0xFF] *)
Definition corrupt_byte (image : list Z) : exec (list Z) :=
  let victim := (length image / 2)%nat in
  b ← unwrap (image !! victim);
  mret (<[victim := Z.lxor b 0xFF]> image).

Definition select_target (c : C) (node : Z) (target : Target) : host N E unit :=
  product ← read_u32 c node IDENTITY 2;
  if product =? PRODUCT_CODE_F767_BOOTLOADER then
    select_result ← try_ (write_u8 c node UPDATE_INFO 5 (raw target) T_SHORT);
    _ ← sleep (ms 20);
    selected ← read_u8 c node UPDATE_INFO 5;
    if negb (selected =? raw target) then
      match select_result with
      | Err e => throw e
      | Ok _ => throw (SelectedTarget selected)
      end
    else mret tt
  else if bool_decide (target = Web) then throw NoTargetSelector
  else mret tt.

(** The checks of the image against the slot, in front of the first write. *)
Definition check_slot (c : C) (node : Z) (image : list Z) (reset : option Z) : host N E unit :=
  capacity ← read_u32 c node UPDATE_INFO 4;
  base ← read_u32 c node UPDATE_INFO 3;
  if capacity <? as_u32 (len image) then throw (SlotTooSmall (len image) capacity)
  else
    match reset with
    | None => mret tt
    | Some reset =>
        if (Z.land reset 1 =? 0) || (reset <? base) then throw (WrongAddress reset base)
        else
          past ← arith (checked 32 (base + as_u32 (len image)));
          if past <=? reset then throw (WrongAddress reset base) else mret tt
    end.

(** Declaration, erase, chunks and validation. *)
Definition program (c : C) (node : Z) (target : Target) (image : list Z) (crc : Z) : host N E unit :=
  _ ← write_u32 c node UPDATE_INFO 1 (as_u32 (len image)) T_SHORT;
  _ ← write_u32 c node PROGRAM_SW_ID 1 crc T_SHORT;
  _ ← write_u8 c node PROGRAM_CONTROL 1 CMD_CLEAR T_FLASH;
  _ ← sleep (ms 50);
  let erase_timeout := match target with Firmware => secs 30 | Web => secs 120 end in
  status ← read_u32_timeout c node FLASH_STATUS 1 erase_timeout;
  if negb (status =? ST_PROGRAMMING) then throw (NotProgramming status)
  else
    _ ← send_chunks c node 0 (chunks image);
    written ← read_u32 c node UPDATE_INFO 2;
    if negb (written =? as_u32 (len image)) then throw (Received written (len image))
    else
      _ ← write_u8 c node PROGRAM_CONTROL 1 CMD_VALIDATE T_FLASH;
      status ← read_u32 c node FLASH_STATUS 1;
      if negb (status =? ST_VALID) then throw (ValidationFailed status) else mret tt.

Definition flash `{Crc32} (node : Z) (image : list Z) (target : Target) (no_reset corrupt : bool)
    : host N E unit :=
  if bool_decide (target = Firmware) && (len image <? 8) then throw ImageTooSmall
  else
    let crc := crc32 image in
    let reset := if bool_decide (target = Firmware) then Some (u32_at image 4) else None in
    image ← (if corrupt then arith (corrupt_byte image) else mret image);
    c ← enter_update node;
    _ ← select_target c node target;
    _ ← check_slot c node image reset;
    _ ← program c node target image crc;
    if no_reset then mret tt
    else
      _ ← try_ (write_u8 c node PROGRAM_CONTROL 1 CMD_RESET T_SHORT);
      _ ← come_back node Application;
      mret tt.

Inductive Command :=
| CmdStatus
| CmdEnterUpdate
| CmdReset
| CmdFlash (image : list Z) (target : Target) (no_reset corrupt : bool).

(** [main] behind the command line; a status is the only output kept. *)
Definition run_command `{Crc32} (node : Z) (command : Command) : host N E (option Status) :=
  match command with
  | CmdStatus =>
      c ← connect_wait (secs 3);
      s ← status c node;
      mret (Some s)
  | CmdEnterUpdate =>
      _ ← enter_update node;
      mret None
  | CmdReset =>
      c ← connect_wait (secs 3);
      role ← identify c node;
      if negb (bool_decide (role = Bootloader)) then throw NoProgramControl
      else
        _ ← try_ (write_u8 c node PROGRAM_CONTROL 1 CMD_RESET T_SHORT);
        mret None
  | CmdFlash image target no_reset corrupt =>
      _ ← flash node image target no_reset corrupt;
      mret None
  end.
End commands.
End Host.
