(* ===== verification/FwBench.v ===== *)
(** * The updater on the bench

    The client of [FwHost] connected to the device of [FwUpdateSpec]: a
    [Network] whose node is the machine that runs the updater or the
    application.  Exchanges may be lost on the way in or on the way back and
    the power may be cycled in front of any of them; the flash may fail as it
    does in [FwUpdateSpec].  The invariant of the device and the rules the
    proofs of [FwInstall] use. *)
From S2P Require Import Prelude Od FwMeta FwMetaSpec FwUpdate FwUpdateSpec FwHost.

(** [emdm-fwupdate/common]: the identity of the node. *)
Definition NODE_ID : Z := 42.
Definition VENDOR_ID : Z := 0x0000053A.
Definition PRODUCT_CODE_APP : Z := 0x454D4441.
Definition PRODUCT_CODE_BOOTLOADER : Z := 0x454D4442.

(** The objects of the two dictionaries the client reads. *)
Definition boot_read (o : BootOd) (index subindex : Z) : option (list Z) :=
  if (index =? 0x1018) && (subindex =? 1) then Some (to_le_bytes 4 VENDOR_ID)
  else if (index =? 0x1018) && (subindex =? 2) then Some (to_le_bytes 4 PRODUCT_CODE_BOOTLOADER)
  else if (index =? 0x1F57) && (subindex =? 1) then Some (to_le_bytes 4 (flash_status o))
  else if (index =? 0x2000) && (subindex =? 1) then Some (to_le_bytes 4 (image_length o))
  else if (index =? 0x2000) && (subindex =? 2) then Some (to_le_bytes 4 (bytes_written o))
  else if (index =? 0x2000) && (subindex =? 3) then Some (to_le_bytes 4 APP_BASE)
  else if (index =? 0x2000) && (subindex =? 4) then Some (to_le_bytes 4 APP_SIZE)
  else None.

Definition app_read (index subindex : Z) : option (list Z) :=
  if (index =? 0x1018) && (subindex =? 1) then Some (to_le_bytes 4 VENDOR_ID)
  else if (index =? 0x1018) && (subindex =? 2) then Some (to_le_bytes 4 PRODUCT_CODE_APP)
  else None.

(** What happens at an exchange: nothing, a power cycle in front of it, the
    request is lost, or its answer is. *)
Inductive fault := Quiet | Cycle | Lost | Mute.

Inductive BenchError := NoAnswer | Aborted (e : OdError).

Section bench.
Context `{Crc32} {F E : Type} `{FlashOps F E}.

Record Bench := mkBench { board : machine F; clock : Z; faults : list fault }.

Definition set_board (b : Bench) (m : machine F) : Bench := mkBench m (clock b) (faults b).
(** A [Duration] is not negative. *)
Definition wait (b : Bench) (d : Z) : Bench := mkBench (board b) (clock b + Z.max 0 d) (faults b).

Definition next_fault (b : Bench) : fault * Bench :=
  match faults b with
  | [] => (Quiet, b)
  | x :: l => (x, mkBench (board b) (clock b) l)
  end.

(** A device that panics halts. *)
Definition act (m : machine F) (op : machine_op) : machine F :=
  match machine_step m op with Ret m => m | Panic => Dead (flash_of m) end.

Definition answer {A} (o : option A) : result A BenchError :=
  match o with Some a => Ok a | None => Err (Aborted NotFound) end.

Definition serve_read (index subindex : Z) (m : machine F) : machine F * result (list Z) BenchError :=
  match m with
  | Updating u => (m, answer (boot_read (od u) index subindex))
  | Application _ => (m, answer (app_read index subindex))
  | Dead _ => (m, Err NoAnswer)
  end.

(** A write is acknowledged before it is worked off. *)
Definition serve_write (index subindex : Z) (data : list Z) (m : machine F)
    : machine F * result unit BenchError :=
  match m with
  | Updating u =>
      (act m (Request index subindex data),
       match snd (host_write u index subindex data) with Ok _ => Ok tt | Err e => Err (Aborted e) end)
  | Application _ =>
      if (index =? 0x2F00) && (subindex =? 0) then
        match app_check_write index subindex data with
        | Ok _ => (act m (EnterUpdate data), Ok tt)
        | Err e => (m, Err (Aborted e))
        end
      else (m, Err (Aborted NotFound))
  | Dead _ => (m, Err NoAnswer)
  end.

Definition exchange {A} (b : Bench) (node timeout : Z)
    (serve : machine F → machine F * result A BenchError) : Bench * result A BenchError :=
  let '(x, b) := next_fault b in
  if negb (node =? NODE_ID) then (wait b timeout, Err NoAnswer)
  else
    match x with
    | Lost => (wait b timeout, Err NoAnswer)
    | Quiet => let '(m, r) := serve (board b) in (set_board b m, r)
    | Cycle => let '(m, r) := serve (act (board b) PowerOn) in (set_board b m, r)
    | Mute => let '(m, _) := serve (board b) in (wait (set_board b m) timeout, Err NoAnswer)
    end.

Definition bench_connect (b : Bench) : Bench * result unit BenchError :=
  let '(x, b) := next_fault b in
  match x with
  | Quiet => (b, Ok tt)
  | Cycle => (set_board b (act (board b) PowerOn), Ok tt)
  | Lost | Mute => (b, Err NoAnswer)
  end.

(** Time passes: a device that went off is up again. *)
Definition bench_sleep (b : Bench) (d : Z) : Bench :=
  wait (match board b with Dead _ => set_board b (act (board b) PowerOn) | _ => b end) d.

#[export] Instance bench_network : Network Bench unit BenchError := {
  net_connect := bench_connect;
  net_upload b _ node index subindex timeout := exchange b node timeout (serve_read index subindex);
  net_download b _ node index subindex data timeout :=
    exchange b node timeout (serve_write index subindex data);
  net_now b := (b, clock b);
  net_sleep := bench_sleep;
}.
End bench.
Arguments Bench : clear implicits.
Arguments mkBench {F} board clock faults.

(** ** Rules for the client *)

(** [triple P m Q R]: from a state in [P], a result comes with [Q] and an
    error with [R]. *)
Definition triple {N E A} (P : N → Prop) (m : Host.host N E A) (Q : A → N → Prop) (R : N → Prop) : Prop :=
  ∀ n, P n →
    match m n with
    | Host.Done (n', Ok a) => Q a n'
    | Host.Done (n', Err _) => R n'
    | _ => True
    end.

Section rules.
Context {N C E : Type} `{Network N C E}.
Implicit Types (P R : N → Prop).

Lemma t_bind {A B} P (m : Host.host N E A) (k : A → Host.host N E B) Q' Q R :
  triple P m Q' R → (∀ a, triple (Q' a) (k a) Q R) → triple P (m ≫= k) Q R.
Proof.
  intros Hm Hk n Hn. specialize (Hm n Hn). unfold mbind, Host.host_bind.
  destruct (m n) as [[n' [a|e]]| |]; [exact (Hk a n' Hm)|exact Hm|exact Logic.I..].
Qed.

Lemma t_ret {A} P (a : A) (Q : A → N → Prop) R : (∀ n, P n → Q a n) → triple (E := E) P (mret a) Q R.
Proof. intros HQ n Hn. exact (HQ n Hn). Qed.

Lemma t_throw {A} P (e : Host.HostError E) (Q : A → N → Prop) R :
  (∀ n, P n → R n) → triple P (Host.throw e) Q R.
Proof. intros HR n Hn. exact (HR n Hn). Qed.

Lemma t_mono {A} P P' (m : Host.host N E A) (Q Q' : A → N → Prop) R R' :
  triple P' m Q' R' → (∀ n, P n → P' n) → (∀ a n, Q' a n → Q a n) → (∀ n, R' n → R n) → triple P m Q R.
Proof.
  intros Hm HP HQ HR n Hn. specialize (Hm n (HP n Hn)).
  destruct (m n) as [[n' [a|e]]| |]; [by apply HQ|by apply HR|exact Logic.I..].
Qed.

Lemma t_try {A} P (m : Host.host N E A) (Q : A → N → Prop) R R' :
  triple P m Q R →
  triple P (Host.try_ m) (λ r n, match r with Ok a => Q a n | Err _ => R n end) R'.
Proof.
  intros Hm n Hn. specialize (Hm n Hn). unfold Host.try_.
  destruct (m n) as [[n' [a|e]]| |]; [exact Hm..|exact Logic.I|exact Logic.I].
Qed.

Lemma t_call {A} P (f : N → N * A) (Q : A → N → Prop) R :
  (∀ n, P n → Q (snd (f n)) (fst (f n))) → triple (E := E) P (Host.call f) Q R.
Proof. intros HQ n Hn. specialize (HQ n Hn). unfold Host.call. by destruct (f n). Qed.

Lemma t_arith {A} P (m : exec A) (Q : A → N → Prop) R :
  (∀ a, m = Ret a → ∀ n, P n → Q a n) → triple (E := E) P (Host.arith m) Q R.
Proof. intros HQ n Hn. unfold Host.arith. destruct m; [by apply HQ|exact Logic.I]. Qed.

Lemma t_fuel {A} P (Q : A → N → Prop) R : triple (E := E) P Host.out_of_fuel Q R.
Proof. intros n _. exact Logic.I. Qed.
End rules.

(** ** Results of the device *)

(** [goes m P]: if the computation goes on, its result satisfies [P]. *)
Definition goes {F A} (m : outcome F A) (P : A → Prop) : Prop := ∀ a, m = Go a → P a.

Lemma goes_ret {F A} (a : A) (P : A → Prop) : P a → goes (F := F) (Go a) P.
Proof. by intros Ha b [= <-]. Qed.

Lemma goes_off {F A} (f : F) (P : A → Prop) : goes (Off f) P.
Proof. by intros a. Qed.

Lemma goes_bind {F A B} (m : outcome F A) (k : A → outcome F B) (P' : A → Prop) P :
  goes m P' → (∀ a, P' a → goes (k a) P) → goes (m ≫= k) P.
Proof. intros Hm Hk b Hb. destruct m as [a|f|]; [|discriminate..]. exact (Hk a (Hm a eq_refl) b Hb). Qed.

Lemma goes_any {F A} (m : outcome F A) : goes m (λ _, True).
Proof. by intros a _. Qed.

Lemma goes_mono {F A} (m : outcome F A) (P P' : A → Prop) : goes m P' → (∀ a, P' a → P a) → goes m P.
Proof. intros Hm HP a Ha. by apply HP, Hm. Qed.

Section device.
Context `{Crc32Laws} {F E : Type} `{!FlashOps F E} `{!FlashLaws F E}.
Implicit Types (f : F) (u : Updater F) (m : machine F) (b : Bench F).

(** The record in memory asks for no update: the request was cleared. *)
Definition quiet u : Prop := update_requested (meta u) = false ∧ is_u32 (flash_status (od u)).

Lemma fail_goes u : goes (fail u) (λ u', flash_status (od u') = ST_ERROR ∧ (quiet u → quiet u')).
Proof.
  unfold fail. apply goes_bind with (P' := λ u', quiet u → quiet u').
  - destruct (app_valid (meta u)); [|by apply goes_ret].
    destruct (append_meta (nvm u) _) as [f [[[]|e]|]]; [by apply goes_ret..|apply goes_off].
  - intros u' Hu'. apply goes_ret. split; [reflexivity|]. intros Hq. destruct (Hu' Hq) as [Hr _].
    by split; [exact Hr|split].
Qed.

Lemma fail_quiet u : quiet u → goes (fail u) quiet.
Proof. intros Hq. eapply goes_mono; [apply fail_goes|]. intros u' [_ Hu']. by apply Hu'. Qed.

Lemma clear_quiet u : quiet u → goes (clear u) quiet.
Proof.
  intros Hq. unfold clear. destruct (append_meta (nvm u) _) as [f [[[]|e]|]]; [|by apply fail_quiet|apply goes_off].
  apply (goes_bind _ _ _ _ (goes_any _)). intros n _. apply (goes_bind _ _ _ _ (goes_any _)). intros n' _.
  destruct (flash_erase _ _ _) as [f' [[[]|e]|]]; [|by apply fail_quiet|apply goes_off].
  apply goes_ret. split; [exact (proj1 Hq)|by split].
Qed.

Lemma validate_quiet u : quiet u → goes (validate u) quiet.
Proof.
  intros Hq. unfold validate. apply (goes_bind _ _ _ _ (goes_any _)). intros [[p f] [[]|e]] _; [|by apply fail_quiet].
  destruct (negb _); [by apply fail_quiet|]. destruct (app_image _ _); [|by apply fail_quiet].
  destruct (negb _); [by apply fail_quiet|]. destruct (negb _); [by apply fail_quiet|].
  destruct (append_meta _ _) as [f' [[[]|e]|]]; [|by apply fail_quiet|apply goes_off].
  apply goes_ret. split; [exact (proj1 Hq)|by split].
Qed.

Lemma change_quiet u c : quiet u → goes (handle_change u c) quiet.
Proof.
  intros Hq. destruct c; cbn [handle_change]; [| |by apply goes_ret..].
  - do 2 (apply (goes_bind _ _ _ _ (goes_any _)); intros ? _).
    apply (goes_bind _ _ _ _ (goes_any _)). intros [[p f] [[]|e]] _; [by apply goes_ret|by apply fail_quiet].
  - destruct (_ =? CLEAR); [by apply clear_quiet|]. destruct (_ =? VALIDATE); [by apply validate_quiet|].
    destruct (_ =? RESET); [apply goes_off|by apply goes_ret].
Qed.

(** A host's write stores nothing but what it addresses. *)
Lemma host_write_ok u index subindex data u' c :
  host_write u index subindex data = (u', Ok c) →
  check_write (od u) index subindex data = Ok tt ∧
  ∃ o, u' = set_od u o ∧ od_store (od u) index subindex data = Ok (o, c) ∧
    flash_status o = flash_status (od u).
Proof.
  unfold host_write. destruct (check_write _ _ _ _) as [[]|]; [|discriminate].
  destruct (od_store _ _ _ _) as [[o c']|] eqn:Hst; [|discriminate]. intros [= <- <-].
  split; [done|]. exists o. split; [done|]. split; [done|]. revert Hst. unfold od_store.
  destruct (_ && _); [destruct (_ <? _); [discriminate|by intros [= <- _]]|].
  destruct (_ && _); [destruct data as [|x [|]]; [discriminate|by intros [= <- _]|discriminate]|].
  destruct (_ && _); [destruct (negb _); [discriminate|by intros [= <- _]]|].
  destruct (_ && _); [destruct (negb _); [discriminate|by intros [= <- _]]|discriminate].
Qed.

(** A request, by what its write stored and the change it caused. *)
Lemma request_goes u index subindex data (P : Updater F → Prop) :
  (∀ o c, check_write (od u) index subindex data = Ok tt → od_store (od u) index subindex data = Ok (o, c) →
    flash_status o = flash_status (od u) → goes (handle_change (set_od u o) c) P) →
  is_ok (snd (host_write u index subindex data)) = true →
  goes (request u index subindex data) P.
Proof.
  intros Hc Hok. unfold request. destruct (host_write u index subindex data) as [u1 [c|e]] eqn:Hw; [|discriminate].
  destruct (host_write_ok _ _ _ _ _ _ Hw) as (Hcheck & o & -> & Hst & Hs).
  cbn [handle_changes]. apply (goes_bind _ _ _ _ (Hc o c Hcheck Hst Hs)). intros a Ha. by apply goes_ret.
Qed.

Lemma request_quiet u index subindex data : quiet u → goes (request u index subindex data) quiet.
Proof.
  intros Hq. destruct (is_ok (snd (host_write u index subindex data))) eqn:Hok.
  - apply request_goes; [|exact Hok]. intros o c _ _ Hs. apply change_quiet.
    split; [exact (proj1 Hq)|]. cbn [od set_od]. rewrite Hs. exact (proj2 Hq).
  - unfold request. destruct (host_write u index subindex data) as [u1 [c|e]] eqn:Hw; [discriminate|].
    unfold host_write in Hw. destruct (check_write _ _ _ _); [destruct (od_store _ _ _ _) as [[o c']|]|];
      [discriminate|..]; injection Hw as <- <-; by apply goes_ret.
Qed.

(** A device that comes up in the updater starts over. *)
Definition restarted u : Prop := od u = BootOd_new ∧ quiet u.

Lemma start_restarted f : goes (updater_start f) restarted.
Proof.
  unfold updater_start. destruct (load_meta f) as [m k].
  apply goes_bind with (P' := λ x, update_requested (snd x) = false).
  - destruct (update_requested m) eqn:Hm; [|by apply goes_ret].
    destruct (append_meta f _) as [f' [r|]]; [by apply goes_ret|apply goes_off].
  - intros [f' m'] Hm. apply goes_ret. split; [reflexivity|]. by split; [exact Hm|split].
Qed.

(** ** The invariant of the bench *)

Definition bench_inv b : Prop :=
  machine_inv (board b) ∧ ∀ u, board b = Updating u → quiet u.

Lemma act_inv m op : op_ok op → machine_inv m → machine_inv (act m op) ∧ machine_step m op = Ret (act m op).
Proof.
  intros Hop Hm. unfold act. pose proof (machine_step_inv m op Hop Hm) as Hs.
  destruct (machine_step m op); [by split|destruct Hs].
Qed.

Lemma act_power_on m : machine_inv m → ∀ u, act m PowerOn = Updating u → restarted u.
Proof.
  intros Hm u Hu. destruct (act_inv m PowerOn Logic.I Hm) as [_ Hs]. rewrite Hu in Hs.
  cbn [machine_step] in Hs. unfold power_on in Hs. destruct (boots _); [discriminate|].
  destruct (updater_start (flash_of m)) as [u'|f|] eqn:Hst; [|discriminate..].
  cbn in Hs. injection Hs as ->. exact (start_restarted _ _ Hst).
Qed.

Lemma act_request u i s d m :
  updater_inv u → bytes d → act (Updating u) (Request i s d) = m →
  match m with Updating u' => request u i s d = Go u' | Dead f => request u i s d = Off f | _ => False end.
Proof.
  intros Hu Hd <-. destruct (act_inv (Updating u) (Request i s d) Hd Hu) as [_ Hs].
  revert Hs. cbn [machine_step]. destruct (request u i s d) as [u'|f|]; [..|discriminate]; by intros [= <-].
Qed.

Lemma act_enter f d m :
  flash_inv f → act (Application f) (EnterUpdate d) = m → match m with Updating _ => False | _ => True end.
Proof.
  intros Hf <-. destruct (act_inv (Application f) (EnterUpdate d) Logic.I Hf) as [_ Hs].
  cbn [machine_step] in Hs. destruct (app_check_write _ _ _); [destruct (enter_update f)|];
    try discriminate Hs; cbn in Hs; injection Hs as <-; exact Logic.I.
Qed.
End device.
