(* ===== verification/FwInstall.v ===== *)
(** * What a successful update leaves in the node

    The client of [FwHost] on the bench of [FwBench]: whatever is lost,
    whenever the power is cycled and whatever flash operations fail, a client
    that reports success has left its image in the application slot, marked
    valid, and started it. *)
From S2P Require Import Prelude Od FwMeta FwMetaSpec FwUpdate FwUpdateSpec FwProgram FwHost FwBench.

(** Evaluate the comparisons of a fixed object in an unfolded handler. *)
Ltac eval_index d H :=
  unfold d in H;
  repeat match type of H with
  | context [Z.pos ?a =? Z.pos ?b] =>
      let v := eval compute in (Z.pos a =? Z.pos b) in change (Z.pos a =? Z.pos b) with v in H
  end;
  cbn [andb] in H.

Section install.
Context `{Crc32Laws} {F E : Type} `{!FlashOps F E} `{!FlashLaws F E} `{!FlashWrites F E}.
Implicit Types (f : F) (u : Updater F) (m : machine F) (b : Bench F).

(** ** Phases of the client *)

(** The device is in order, and [φ] holds of it when it is the updater. *)
Definition phase (φ : Updater F → Prop) b : Prop :=
  bench_inv b ∧ ∀ u, board b = Updating u → φ u.

(** A phase a restarted device is in by itself. *)
Class Restarts (φ : Updater F → Prop) := restarts u : restarted u → φ u.

Lemma phase_mono (φ ψ : Updater F → Prop) b : (∀ u, φ u → ψ u) → phase φ b → phase ψ b.
Proof. intros Hu [Hb Hφ]. split; [exact Hb|]. intros u Hbu. by apply Hu, Hφ. Qed.

(** A property of the device alone that power cycles keep. *)
Class Steady (I : Bench F → Prop) := {
  steady_board b b' : board b' = board b → I b → I b';
  steady_power b : I b → I (set_board b (act (board b) PowerOn));
}.

#[local] Instance phase_steady φ `{!Restarts φ} : Steady (phase φ).
Proof.
  split; [unfold phase, bench_inv; by intros b b' ->|].
  intros b [[Hm _] _]. pose proof (act_power_on (board b) Hm) as Hrest.
  split; [split|]; cbn [board set_board].
  - by apply act_inv.
  - intros u Hu. apply (Hrest u Hu).
  - intros u Hu. apply restarts, (Hrest u Hu).
Qed.

Lemma board_fault b : board (snd (next_fault b)) = board b.
Proof. unfold next_fault. by destruct (faults b). Qed.

Section steady.
Context (I : Bench F → Prop) `{!Steady I}.

Lemma sleep_steady b d : I b → I (bench_sleep b d).
Proof.
  intros Hb. unfold bench_sleep. destruct (board b) eqn:Hm; [|by apply (steady_board b)..].
  apply (steady_board (set_board b (act (board b) PowerOn))); [by rewrite Hm|]. by apply steady_power.
Qed.

Lemma connect_steady b : I b → I (fst (bench_connect b)).
Proof.
  intros Hb. unfold bench_connect. pose proof (board_fault b) as Hbf. destruct (next_fault b) as [x b0]. cbn [snd] in Hbf.
  assert (I b0) as Hb0 by (by apply (steady_board b)).
  destruct x; [exact Hb0|by apply steady_power|exact Hb0..].
Qed.

(** ** Exchanges *)

(** An answered exchange was served by the device, after a restart or not. *)
Lemma exchange_ok {A} b node t (serve : machine F → machine F * result A BenchError) b' a :
  I b → exchange b node t serve = (b', Ok a) → ∃ b1, I b1 ∧ serve (board b1) = (board b', Ok a).
Proof.
  intros Hb Hx. unfold exchange in Hx. pose proof (board_fault b) as Hbf.
  destruct (next_fault b) as [x b0]. cbn [snd] in Hbf.
  destruct (negb _); [discriminate|]. assert (I b0) as Hb0 by (by apply (steady_board b)).
  destruct x; [| |discriminate|by destruct (serve (board b0))].
  - destruct (serve (board b0)) as [m r] eqn:Hs. injection Hx as <- ->. by exists b0.
  - destruct (serve (act (board b0) PowerOn)) as [m r] eqn:Hs. injection Hx as <- ->.
    exists (set_board b0 (act (board b0) PowerOn)). split; [by apply steady_power|exact Hs].
Qed.

(** What the server keeps is kept by every exchange. *)
Lemma exchange_steady {A} b node t (serve : machine F → machine F * result A BenchError) :
  (∀ b1, I b1 → I (set_board b1 (fst (serve (board b1))))) → I b → I (fst (exchange b node t serve)).
Proof.
  intros Hs Hb. unfold exchange. pose proof (board_fault b) as Hbf.
  destruct (next_fault b) as [x b0]. cbn [snd] in Hbf.
  assert (I b0) as Hb0 by (by apply (steady_board b)).
  destruct (negb _); [by apply (steady_board b0)|]. pose proof (Hs b0 Hb0) as Hs0. destruct x.
  - by destruct (serve (board b0)).
  - specialize (Hs _ (steady_power b0 Hb0)). cbn [board set_board] in Hs.
    by destruct (serve (act (board b0) PowerOn)).
  - by apply (steady_board b0).
  - destruct (serve (board b0)) as [m r]. by apply (steady_board (set_board b0 m)).
Qed.

Lemma read_keeps i s b : I b → I (set_board b (fst (serve_read i s (board b)))).
Proof. intros Hb. apply (steady_board b); [|exact Hb]. by destruct (board b). Qed.

(** What a read of the device yields. *)
Definition reads (i s : Z) m (v : Z) : Prop :=
  ∃ data, snd (serve_read i s m) = Ok data ∧ v = from_le_bytes (take 4 data).

Lemma t_read c node i s t :
  triple I (Host.read_u32_timeout c node i s t) (λ v b, I b ∧ reads i s (board b) v) I.
Proof.
  unfold Host.read_u32_timeout.
  apply t_bind with (Q' := λ r b, I b ∧ ∀ d, r = Ok d → snd (serve_read i s (board b)) = Ok d).
  - apply t_call. intros b Hb. cbn [net_upload bench_network].
    pose proof (exchange_steady b node t (serve_read i s) (read_keeps i s) Hb) as Hk.
    pose proof (λ b' a, exchange_ok b node t (serve_read i s) b' a Hb) as Hok.
    destruct (exchange b node t (serve_read i s)) as [b' r]. cbn [fst snd] in *. split; [exact Hk|].
    intros d ->. destruct (Hok b' d eq_refl) as (b1 & _ & Hs).
    assert (board b1 = board b') as Hbb.
    { unfold serve_read in Hs. revert Hs. by destruct (board b1); intros [= <-]. }
    rewrite <- Hbb. by rewrite Hs.
  - intros [d|e]; [|apply t_throw; by intros b [Hb _]]. destruct (len d <? 4); [apply t_throw; by intros b [Hb _]|].
    apply t_ret. intros b [Hb Hd]. split; [exact Hb|]. exists d. by split; [apply Hd|].
Qed.

Lemma t_sleep d R : triple I (Host.sleep (E := BenchError) d) (λ _, I) R.
Proof. apply t_call. intros b Hb. by apply sleep_steady. Qed.

Lemma t_now R : triple I (Host.now (E := BenchError)) (λ _, I) R.
Proof. apply t_call. intros b Hb. exact Hb. Qed.

Lemma t_connect R : triple I (Host.call (E := BenchError) net_connect) (λ _, I) R.
Proof. apply t_call. intros b Hb. by apply connect_steady. Qed.

(** ** Roles and waiting *)

(** The identity the device answers with is that of its program. *)
Lemma reads_product m v :
  reads Host.IDENTITY 2 m v →
  (∃ f, m = Application f) ∧ v = PRODUCT_CODE_APP ∨ (∃ u, m = Updating u) ∧ v = PRODUCT_CODE_BOOTLOADER.
Proof.
  intros (d & Hs & ->). destruct m as [f|f|u]; [discriminate|left|right];
    (split; [by eexists|]); injection Hs as <-; reflexivity.
Qed.

Lemma t_identify c node :
  triple I (Host.identify c node)
    (λ role b, I b ∧ (role = Host.Application → ∃ f, board b = Application f)) I.
Proof.
  unfold Host.identify. apply (t_bind _ _ _ _ _ _ (t_read _ _ _ _ _)). intros vendor.
  destruct (negb _); [apply t_throw; by intros b [Hb _]|].
  apply t_bind with (Q' := λ v b, I b ∧ reads Host.IDENTITY 2 (board b) v).
  { eapply t_mono; [apply t_read| |auto..]. by intros b [Hb _]. }
  intros v. destruct (_ || _ || _) eqn:Happ.
  - apply t_ret. intros b [Hb Hr]. split; [exact Hb|]. intros _.
    destruct (reads_product _ _ Hr) as [[Hf _]|[_ ->]]; [exact Hf|discriminate Happ].
  - clear Happ. destruct (_ || _ || _).
    + apply t_ret. intros b [Hb _]. by split.
    + apply t_throw. by intros b [Hb _].
Qed.

Lemma t_come_back_loop fuel deadline node wanted :
  triple I (Host.come_back_loop fuel deadline node wanted)
    (λ _ b, I b ∧ (wanted = Host.Application → ∃ f, board b = Application f)) I.
Proof.
  induction fuel as [|fuel IH]; [apply t_fuel|]. cbn [Host.come_back_loop].
  apply (t_bind _ _ _ _ _ _ (t_now _)). intros t. destruct (_ <=? t); [by apply t_throw|].
  apply (t_bind _ _ _ _ _ _ (t_sleep _ _)). intros _. apply (t_bind _ _ _ _ _ _ (t_connect _)).
  intros [c|e]; [|exact IH]. apply (t_bind _ _ _ _ _ _ (t_try _ _ _ _ _ (t_identify c node))). intros [role|e]; [|exact IH].
  case_bool_decide as Hw.
  - apply t_ret. intros b [Hb Hr]. split; [exact Hb|]. intros Ha. apply Hr. by rewrite Hw.
  - eapply t_mono; [exact IH| |auto..]. by intros b [Hb _].
Qed.

Lemma t_come_back node wanted :
  triple I (Host.come_back node wanted)
    (λ _ b, I b ∧ (wanted = Host.Application → ∃ f, board b = Application f)) I.
Proof. apply (t_bind _ _ _ _ _ _ (t_now _)). intros t. apply t_come_back_loop. Qed.

Lemma t_connect_loop fuel deadline : triple I (Host.connect_loop fuel deadline) (λ _, I) I.
Proof.
  induction fuel as [|fuel IH]; [apply t_fuel|]. cbn [Host.connect_loop].
  apply (t_bind _ _ _ _ _ _ (t_connect _)). intros [c|e]; [by apply t_ret|].
  apply (t_bind _ _ _ _ _ _ (t_now _)). intros t. destruct (_ <=? t); [by apply t_throw|].
  apply (t_bind _ _ _ _ _ _ (t_sleep _ _)). intros _. exact IH.
Qed.

Lemma t_connect_wait timeout : triple I (Host.connect_wait timeout) (λ _, I) I.
Proof. apply (t_bind _ _ _ _ _ _ (t_now _)). intros t. apply t_connect_loop. Qed.
End steady.

(** The flash status as a client sees it. *)
Lemma reads_status b φ v :
  phase φ b → reads Host.FLASH_STATUS 1 (board b) v → ∃ u, board b = Updating u ∧ v = flash_status (od u).
Proof.
  intros [[_ Hq] _] (d & Hs & ->). destruct (board b) as [f|f|u]; [discriminate..|].
  exists u. split; [done|]. destruct (Hq u eq_refl) as [_ Hu].
  injection Hs as <-. rewrite take_ge by (by rewrite length_to_le). by rewrite le_id.
Qed.

(** ** Writes *)

Lemma download_ok φ ψ `{!Restarts φ} b node t i s d b' :
  bytes d → (i =? 0x2F00) && (s =? 0) = false →
  (∀ u, updater_inv u → quiet u → φ u → is_ok (snd (host_write u i s d)) = true → goes (request u i s d) ψ) →
  phase φ b → exchange b node t (serve_write i s d) = (b', Ok tt) → phase ψ b'.
Proof.
  intros Hd Hi Hreq Hb Hx. destruct (exchange_ok (phase φ) b node t _ b' tt Hb Hx) as (b1 & [[Hm Hq] Hφ] & Hs).
  unfold serve_write in Hs. rewrite Hi in Hs. destruct (board b1) as [f|f|u]; [discriminate..|].
  destruct (snd (host_write u i s d)) as [c|e] eqn:Hw; [|discriminate].
  injection Hs as Hs. destruct (act_inv (Updating u) (Request i s d) Hd Hm) as [Hm' _].
  pose proof (act_request u i s d _ Hm Hd Hs) as Hr. rewrite Hs in Hm'.
  assert (is_ok (snd (host_write u i s d)) = true) as Hok by (by rewrite Hw).
  split; [split; [exact Hm'|]|]; intros u' Hu'; rewrite Hu' in Hr.
  - exact (request_quiet u i s d (Hq u eq_refl) u' Hr).
  - exact (Hreq u Hm (Hq u eq_refl) (Hφ u eq_refl) Hok u' Hr).
Qed.

Lemma t_write φ ψ `{!Restarts φ} c node i s d t :
  bytes d → (i =? 0x2F00) && (s =? 0) = false →
  (∀ u, updater_inv u → quiet u → φ u → is_ok (snd (host_write u i s d)) = true → goes (request u i s d) ψ) →
  triple (phase φ) (Host.write (E := BenchError) c node i s d t) (λ _, phase ψ) (λ _, True).
Proof.
  intros Hd Hi Hreq. unfold Host.write.
  apply t_bind with (Q' := λ r b, r = Ok tt → phase ψ b).
  - apply t_call. intros b Hb. cbn [net_download bench_network].
    destruct (exchange b node t (serve_write i s d)) as [b' r] eqn:Hx. cbn [fst snd].
    intros ->. by eapply download_ok.
  - intros [[]|e]; [|by apply t_throw]. apply t_ret. intros b Hb. by apply Hb.
Qed.

(** ** The phases of a download *)

Definition declared (n : Z) u : Prop := image_length (od u) = 0 ∨ image_length (od u) = n.

Definition announced (n crc : Z) u : Prop :=
  image_length (od u) = 0 ∨ (image_length (od u) = n ∧ expected_crc (od u) = crc).

(** While chunks are accepted, the programmer holds the bytes sent so far. *)
Definition live (n crc : Z) (bs : list Z) u : Prop :=
  flash_status (od u) = ST_PROGRAMMING →
  image_length (od u) = n ∧ expected_crc (od u) = crc ∧ stream (programmer u) (nvm u) bs.

(** The image in the slot, and its record in force. *)
Definition in_slot (image : list Z) f : Prop :=
  flash_bytes f APP_OFFSET (len image) = image ∧ boots f = true.

Definition validated (image : list Z) (crc : Z) u : Prop :=
  flash_status (od u) = ST_VALID → in_slot image (nvm u) ∧ crc32 image = crc.

#[local] Instance restarts_any : Restarts (λ _, True).
Proof. by intros u _. Qed.
#[local] Instance restarts_declared n : Restarts (declared n).
Proof. intros u [Hu _]. left. by rewrite Hu. Qed.
#[local] Instance restarts_announced n crc : Restarts (announced n crc).
Proof. intros u [Hu _]. left. by rewrite Hu. Qed.
#[local] Instance restarts_live n crc bs : Restarts (live n crc bs).
Proof. intros u [Hu _]. unfold live. by rewrite Hu. Qed.
#[local] Instance restarts_validated image crc : Restarts (validated image crc).
Proof. intros u [Hu _]. unfold validated. by rewrite Hu. Qed.

Lemma declare_goes u n :
  is_u32 n → is_ok (snd (host_write u 0x2000 1 (to_le_bytes 4 n))) = true →
  goes (request u 0x2000 1 (to_le_bytes 4 n)) (declared n).
Proof.
  intros Hn. apply request_goes. intros o c _ Hst _. eval_index od_store Hst.
  destruct (negb _); [discriminate|]. injection Hst as <- <-. apply goes_ret. right. cbn. by apply le_id.
Qed.

Lemma announce_goes u n crc :
  is_u32 crc → declared n u → is_ok (snd (host_write u 0x1F56 1 (to_le_bytes 4 crc))) = true →
  goes (request u 0x1F56 1 (to_le_bytes 4 crc)) (announced n crc).
Proof.
  intros Hc Hu. apply request_goes. intros o c _ Hst _. eval_index od_store Hst.
  destruct (negb _); [discriminate|]. injection Hst as <- <-. apply goes_ret.
  destruct Hu as [Hu|Hu]; [by left|right]. split; [exact Hu|]. cbn. by apply le_id.
Qed.

Lemma command_goes u cmd (P : Updater F → Prop) :
  (check_write (od u) 0x1F51 1 [cmd] = Ok tt →
   goes (handle_change (set_od u (with_command (od u) cmd)) Command) P) →
  is_ok (snd (host_write u 0x1F51 1 [cmd])) = true → goes (request u 0x1F51 1 [cmd]) P.
Proof.
  intros Hc. apply request_goes. intros o c Hcheck Hst _. eval_index od_store Hst.
  injection Hst as <- <-. by apply Hc.
Qed.

Lemma fail_status u (P : Updater F → Prop) : (∀ u', flash_status (od u') = ST_ERROR → P u') → goes (fail u) P.
Proof. intros HP. eapply goes_mono; [apply fail_goes|]. intros u' [Hs _]. by apply HP. Qed.

Lemma fail_live u n crc bs : goes (fail u) (live n crc bs).
Proof. apply fail_status. intros u' Hs. unfold live. by rewrite Hs. Qed.

Lemma fail_validated u image crc : goes (fail u) (validated image crc).
Proof. apply fail_status. intros u' Hs. unfold validated. by rewrite Hs. Qed.

Lemma clear_goes u n crc :
  announced n crc u → is_ok (snd (host_write u 0x1F51 1 [CLEAR])) = true →
  goes (request u 0x1F51 1 [CLEAR]) (live n crc []).
Proof.
  intros Hu. apply command_goes. intros Hcheck. eval_index check_write Hcheck.
  change (CLEAR =? CLEAR) with true in Hcheck. cbv iota in Hcheck.
  destruct Hu as [Hu|[Hn Hc]]; [rewrite Hu in Hcheck; discriminate Hcheck|]. cbn [handle_change command od set_od with_command].
  change (CLEAR =? CLEAR) with true. cbv iota. unfold clear.
  destruct (append_meta _ _) as [f [[[]|e]|]]; [|apply fail_live|apply goes_off].
  apply (goes_bind _ _ _ _ (goes_any _)). intros x _. apply (goes_bind _ _ _ _ (goes_any _)). intros y _.
  destruct (flash_erase _ _ _) as [f' [[[]|e]|]]; [|apply fail_live|apply goes_off].
  apply goes_ret. intros _. split; [exact Hn|]. split; [exact Hc|]. apply stream_new.
Qed.

Lemma stream_aligned p f bs : stream p f bs → len bs mod WRITE_SIZE = 0 → pending_len p = 0.
Proof.
  intros (_ & Hsum & _ & Hpl & Hmod & _) Hbs. unfold WRITE_SIZE in *.
  rewrite <- Hsum, Zplus_mod, Hmod, Z.add_0_l, Zmod_mod, Z.mod_small in Hbs by lia. exact Hbs.
Qed.

(** The chunk the programmer is given is the chunk the host sent. *)
Lemma sent_chunk d :
  len d ≤ MAX_CHUNK →
  copy_from_slice (zeros MAX_CHUNK) 0 (len d) d ≫= (λ chunk, slice chunk 0 (len d)) = Ret d.
Proof.
  intros Hd. assert (len (zeros MAX_CHUNK) = MAX_CHUNK) as Hz by reflexivity.
  rewrite copy_from_slice_ret by lia. cbn [mbind exec_bind].
  rewrite slice_take by (rewrite ?length_app; lia). f_equal. rewrite Nat2Z.id.
  cbn [Z.to_nat]. rewrite take_0. cbn [app]. apply take_app_length.
Qed.

Lemma lift_bind {A B} (m : exec A) (k : A → exec B) : lift (F := F) (m ≫= k) = (lift m ≫= λ a, lift (k a)).
Proof. by destruct m. Qed.

Lemma chunk_goes u n crc bs d :
  len bs mod WRITE_SIZE = 0 → live n crc bs u → is_ok (snd (host_write u 0x1F50 1 d)) = true →
  goes (request u 0x1F50 1 d) (live n crc (bs ++ d)).
Proof.
  intros Hbs Hu. apply request_goes. intros o c Hcheck Hst _. eval_index check_write Hcheck.
  destruct (Z.eqb_spec (flash_status (od u)) ST_PROGRAMMING) as [Hs|]; [|discriminate Hcheck].
  destruct (Hu Hs) as (Hn & Hc & Hstr). eval_index od_store Hst.
  destruct (Z.ltb_spec MAX_CHUNK (len d)) as [|Hd]; [discriminate Hst|]. injection Hst as <- <-.
  cbn [handle_change firmware_chunk od set_od with_chunk]. pose proof (sent_chunk d Hd) as Hsent.
  destruct (copy_from_slice (zeros MAX_CHUNK) 0 (len d) d) as [chunk|]; [|discriminate Hsent].
  cbn [mbind exec_bind] in Hsent. cbn [lift mbind outcome_bind]. rewrite Hsent. cbn [lift mbind outcome_bind].
  apply goes_bind with (P' := λ '(p, f, r), r = Ok tt → stream p f (bs ++ d)).
  - intros [[p f] r] Hp ->. cbn [programmer nvm set_od] in Hp.
    refine (push_go _ _ _ _ _ _ Hstr _ Hp). left. exact (stream_aligned _ _ _ Hstr Hbs).
  - intros [[p f] [[]|e]] Hp; [|apply fail_live]. apply goes_ret. intros _.
    split; [exact Hn|]. split; [exact Hc|]. by apply Hp.
Qed.

(** ** Validation *)

Lemma image_at f n image : app_image f n = Some image → image = flash_bytes f APP_OFFSET n ∧ n ≤ APP_SIZE.
Proof.
  unfold app_image. destruct (_ =? _); [discriminate|]. destruct (Z.ltb_spec APP_SIZE n); [discriminate|].
  by intros [= <-].
Qed.

(** The record of a validated image, appended, is in force and boots. *)
Lemma record_boots f (r0 : MetaRecord) n crc f' :
  flash_inv f → meta_ok f r0 → update_requested r0 = false → is_u32 n → is_u32 crc →
  (let g := λ r, mkMeta (seq_no r) n crc true (update_requested r) in
   app_image_verifies f (MetaRecord.next r0 g) = true →
   append_meta f (MetaRecord.next r0 g) = (f', Some (Ok tt)) →
   boots f' = true ∧ app_same f f').
Proof.
  intros Hf Hm Hr Hn Hc. cbv zeta. set (g := λ r, mkMeta (seq_no r) n crc true (update_requested r)). intros Hver Ha.
  assert (∀ r, seq_no (g r) = seq_no r) as Hg by reflexivity.
  assert (∀ r, wf_meta r → wf_meta (g r)) as Hgwf.
  { intros r (Hs & _ & _). split; [exact Hs|]. by split. }
  destruct (append_next f r0 g f' (Some (Ok tt)) Hf Hm Hg Hgwf (λ _, Hver) Ha) as (Hf' & Hin & _).
  destruct (next_follows f r0 g Hm Hg Hgwf) as [Hwf Hfol].
  destruct (append_inv f _ f' _ Hf Hwf Hfol (λ _, Hver) Ha) as (_ & Hsame & _).
  split; [|exact Hsame]. rewrite (boots_spec f' Hf'), Hin. cbn. by rewrite Hr.
Qed.

Lemma validate_goes u n crc image :
  updater_inv u → quiet u → live n crc image u → is_ok (snd (host_write u 0x1F51 1 [VALIDATE])) = true →
  goes (request u 0x1F51 1 [VALIDATE]) (validated image crc).
Proof.
  intros [Hbase Hprog] Hq Hu. apply command_goes. intros Hcheck. eval_index check_write Hcheck.
  change (VALIDATE =? CLEAR) with false in Hcheck. change (VALIDATE =? VALIDATE) with true in Hcheck. cbv iota in Hcheck.
  destruct (Z.eqb_spec (flash_status (od u)) ST_PROGRAMMING) as [Hs|]; [|discriminate Hcheck].
  destruct (Hu Hs) as (Hn & Hc & Hstr). destruct (Hprog Hs) as (Hv & Hle & Hsize).
  destruct Hbase as (Hf & Hm & Ho & Hp). destruct Ho as (Hcrc & Hlen & _).
  cbn [handle_change command od set_od with_command].
  change (VALIDATE =? CLEAR) with false. change (VALIDATE =? VALIDATE) with true. cbv iota. unfold validate.
  cbn [programmer nvm set_od].
  assert (flushed (programmer u) ≤ APP_SIZE) as Hfl by (destruct Hp as (_ & ? & _); lia).
  pose proof (finish_ends _ _ Hp Hfl Hf Hv) as Hends.
  apply goes_bind with (P' := λ '(p, f, r), calm (nvm u) f ∧
    (r = Ok tt → flash_bytes f APP_OFFSET (len image) = image ∧ received p = len image)).
  { intros [[p f] r] Hfin. rewrite Hfin in Hends. destruct Hends as [Hcalm _]. split; [exact Hcalm|].
    intros ->. exact (finish_go _ _ _ _ _ Hstr Hfin). }
  intros [[p f] [[]|e]] (Hcalm & Hbytes); [|apply fail_validated]. destruct (Hbytes eq_refl) as [Himg Hrec].
  cbn [programmer nvm od set_od set_programmer set_nvm with_command image_length expected_crc meta].
  rewrite Hn, Hc, Hrec. destruct (Z.eqb_spec (len image) n) as [Hnl|]; [|apply fail_validated]. cbn [negb].
  destruct (app_image f n) as [slot|] eqn:Hslot; [|apply fail_validated].
  destruct (crc32 slot =? crc) eqn:Hcs; [|apply fail_validated]. cbn [negb].
  destruct (app_vector_table_plausible f n) eqn:Hvec; [|apply fail_validated]. cbn [negb].
  destruct (append_meta f _) as [f' [[[]|e]|]] eqn:Ha; [|apply fail_validated|apply goes_off].
  destruct (image_at _ _ _ Hslot) as [Hslot' _]. apply goes_ret. intros _.
  destruct (record_boots f (meta u) n crc f') as [Hb Hsame]; [apply Hcalm|by eapply calm_meta|exact (proj1 Hq)|..].
  - rewrite <- Hn. unfold is_uint. change APP_SIZE with 71680 in Hlen. lia.
  - by rewrite <- Hc.
  - unfold app_image_verifies. cbn [MetaRecord.next app_len app_crc]. by rewrite Hvec, Hslot.
  - exact Ha.
  - cbn [nvm set_od set_meta set_nvm]. split; [split; [|exact Hb]|].
    + rewrite <- Himg at 2. apply flash_bytes_same. intros a Hin. apply Hsame. lia.
    + rewrite <- Himg, Hnl, <- Hslot'. by apply Z.eqb_eq.
Qed.

(** ** The client's steps *)

Lemma t_send fuel c node k n crc bs rest :
  (length rest ≤ fuel)%nat → bytes rest → len bs mod WRITE_SIZE = 0 →
  triple (phase (live n crc bs)) (Host.send_chunks c node k (Host.chunks_fuel fuel rest))
    (λ _, phase (live n crc (bs ++ rest))) (λ _, True).
Proof.
  revert k bs rest. induction fuel as [|fuel IH]; intros k bs rest Hfuel Hb Hbs.
  { destruct rest; [|cbn in Hfuel; lia]. apply t_ret. rewrite app_nil_r. auto. }
  destruct rest as [|x rest']; [apply t_ret; rewrite app_nil_r; auto|].
  set (rest := x :: rest') in *. cbn [Host.chunks_fuel]. fold rest.
  change (Z.to_nat Host.MAX_CHUNK) with 256%nat. cbn [Host.send_chunks].
  apply t_bind with (Q' := λ r b, r = Ok tt → phase (live n crc (bs ++ take 256 rest)) b).
  - apply t_call. intros b Hp. cbn [net_download bench_network].
    destruct (exchange b node _ _) as [b' r] eqn:Hx. cbn [fst snd]. intros ->.
    apply (download_ok (live n crc bs) _ b node Host.T_FLASH 0x1F50 1 (take 256 rest) b');
      [by apply Forall_take|reflexivity| |exact Hp|exact Hx].
    intros u _ _ Hu. by apply chunk_goes.
  - intros [[]|e]; [|by apply t_throw].
    apply t_mono with (P' := phase (live n crc (bs ++ take 256 rest))) (Q' := λ _, phase (live n crc (bs ++ rest)))
      (R' := λ _, True); [|intros b Hp; by apply Hp|auto..].
    destruct (decide (256 ≤ length rest)%nat) as [Hlong|Hshort].
    + replace (bs ++ rest) with ((bs ++ take 256 rest) ++ drop 256 rest)
        by (rewrite <- app_assoc; by rewrite take_drop).
      apply IH; [rewrite length_drop; lia|by apply Forall_drop|].
      rewrite length_app, length_take, Nat.min_l, Nat2Z.inj_add by lia.
      rewrite Zplus_mod. unfold WRITE_SIZE in *. by rewrite Hbs.
    + rewrite (drop_ge rest), (take_ge rest) by lia.
      assert (Host.chunks_fuel fuel [] = []) as -> by (by destruct fuel).
      apply t_ret. auto.
Qed.

Lemma t_status c node t φ `{!Restarts φ} :
  triple (phase φ) (Host.read_u32_timeout c node Host.FLASH_STATUS 1 t)
    (λ v b, phase φ b ∧ ∃ u, board b = Updating u ∧ v = flash_status (od u)) (phase φ).
Proof.
  eapply t_mono; [apply (t_read (phase φ))| |intros v b [Hb Hr]|auto]; [auto|].
  split; [exact Hb|]. by eapply reads_status.
Qed.

Lemma t_program c node target image crc :
  bytes image → is_u32 crc →
  triple (phase (λ _, True)) (Host.program c node target image crc)
    (λ _ b, phase (validated image crc) b ∧ ∃ u, board b = Updating u ∧ flash_status (od u) = ST_VALID)
    (λ _, True).
Proof.
  intros Hb Hc. set (n := as_u32 (len image)). assert (is_u32 n) as Hn by (by apply wrap_range).
  unfold Host.program. fold n.
  apply t_bind with (Q' := λ _, phase (declared n)).
  { apply (t_write (λ _, True) _); [apply bytes_to_le|reflexivity|]. intros u _ _ _. by apply declare_goes. }
  intros _. apply t_bind with (Q' := λ _, phase (announced n crc)).
  { apply (t_write (declared n) _); [apply bytes_to_le|reflexivity|]. intros u _ _ Hu. by apply announce_goes. }
  intros _. apply t_bind with (Q' := λ _, phase (live n crc [])).
  { apply (t_write (announced n crc) _); [by repeat constructor|reflexivity|]. intros u _ _ Hu. by apply clear_goes. }
  intros _. apply (t_bind _ _ _ _ _ _ (t_sleep _ _ _)). intros _.
  cbv zeta. apply t_bind with (Q' := λ v b, phase (live n crc []) b).
  { apply (t_mono _ _ _ _ _ _ _ (t_status c node _ (live n crc []))); [auto|by intros v b [Hp _]|auto]. }
  intros v. destruct (negb _); [by apply t_throw|].
  apply t_bind with (Q' := λ _, phase (live n crc image)).
  { apply (t_send _ _ _ _ _ _ []); [reflexivity|exact Hb|reflexivity]. }
  intros _. apply t_bind with (Q' := λ _, phase (live n crc image)).
  { eapply t_mono; [apply (t_read (phase (live n crc image)))|auto|by intros w b [Hp _]|auto]. }
  intros w. destruct (negb _); [by apply t_throw|].
  apply t_bind with (Q' := λ _, phase (validated image crc)).
  { apply (t_write (live n crc image) _); [by repeat constructor|reflexivity|]. intros u Hi Hq Hu. by eapply validate_goes. }
  intros _. eapply t_bind.
  { apply (t_mono _ _ _ _ _ _ _ (t_status c node _ (validated image crc))); [auto|intros v' b Hv'; exact Hv'|auto]. }
  intros v'. cbn beta. destruct (negb (v' =? Host.ST_VALID)) eqn:Hw; [by apply t_throw|].
  apply t_ret. intros b [Hp (u & Hu & ->)]. split; [exact Hp|]. exists u. split; [exact Hu|].
  apply negb_false_iff, Z.eqb_eq in Hw. exact Hw.
Qed.

(** ** Around the download *)

(** A device in order. *)
Definition sane : Bench F → Prop := phase (λ _, True).

Lemma write_keeps i s d b :
  bytes d → sane b → sane (set_board b (fst (serve_write i s d (board b)))).
Proof.
  intros Hd Hb. destruct Hb as [[Hm Hq] Hany]. unfold serve_write. destruct (board b) as [f|f|u] eqn:Hbd.
  - apply (steady_board b); [by rewrite Hbd|]. by split; [split; rewrite Hbd|].
  - assert (sane (set_board b (Application f))) as Happ by (by split; [split|]).
    destruct (_ && _); [|exact Happ]. destruct (app_check_write i s d); [|exact Happ].
    destruct (act_inv (Application f) (EnterUpdate d) Logic.I Hm) as [Hm' _].
    pose proof (act_enter f d _ Hm eq_refl) as Hno. cbn [fst].
    split; [split; [exact Hm'|]|]; cbn [board set_board]; intros u Hu; rewrite Hu in Hno; destruct Hno.
  - cbn [fst]. destruct (act_inv (Updating u) (Request i s d) Hd Hm) as [Hm' _].
    pose proof (act_request u i s d _ Hm Hd eq_refl) as Hr.
    split; [split; [exact Hm'|]|done]. cbn [board set_board]. intros u' Hu'. rewrite Hu' in Hr.
    exact (request_quiet u i s d (Hq u eq_refl) u' Hr).
Qed.

(** A write whose outcome is ignored. *)
Lemma t_write_try I `{!Steady I} c node i s d t R :
  (∀ b, I b → I (set_board b (fst (serve_write i s d (board b))))) →
  triple I (Host.try_ (Host.write (E := BenchError) c node i s d t)) (λ _, I) R.
Proof.
  intros Hk.
  assert (triple I (Host.write (E := BenchError) c node i s d t) (λ _, I) I) as Hw.
  { unfold Host.write. apply t_bind with (Q' := λ _, I).
    - apply t_call. intros b Hb. cbn [net_download bench_network]. by apply exchange_steady; [|exact Hk|].
    - intros [[]|e]; [by apply t_ret|by apply t_throw]. }
  eapply t_mono; [exact (t_try _ _ _ _ R Hw)|auto|by intros [a|e] b|auto].
Qed.

Lemma t_enter_update node : triple sane (Host.enter_update node) (λ _, sane) (λ _, True).
Proof.
  unfold Host.enter_update. apply (t_bind _ _ _ (λ _, sane)).
  { eapply t_mono; [apply (t_connect_wait sane)|auto..]. }
  intros c. apply (t_bind _ _ _ (λ _, sane)).
  { eapply t_mono; [apply (t_identify sane)|auto|by intros r b [Hb _]|auto]. }
  intros [|]; [|by apply t_ret]. apply (t_bind _ _ _ (λ _, sane)).
  { apply (t_write_try sane). intros b. apply write_keeps, bytes_to_le. }
  intros _. eapply t_mono; [apply (t_come_back sane)|auto|by intros r b [Hb _]|auto].
Qed.

Lemma t_select c node target :
  triple sane (Host.select_target c node target) (λ _ b, sane b ∧ target = Host.Firmware) (λ _, True).
Proof.
  unfold Host.select_target. apply (t_bind _ _ _ (λ v b, sane b ∧ v ≠ Host.PRODUCT_CODE_F767_BOOTLOADER)).
  { eapply t_mono; [apply (t_read sane)|auto| |auto]. intros v b [Hb Hv]. split; [exact Hb|].
    destruct (reads_product _ _ Hv) as [[_ ->]|[_ ->]]; discriminate. }
  intros v. destruct (Z.eqb_spec v Host.PRODUCT_CODE_F767_BOOTLOADER) as [Hv|_]; [by intros b [_ Hb]|].
  case_bool_decide as Ht; [by apply t_throw|]. apply t_ret. intros b [Hb _]. split; [exact Hb|]. by destruct target.
Qed.

Lemma t_slot c node image reset : triple sane (Host.check_slot c node image reset) (λ _, sane) (λ _, True).
Proof.
  unfold Host.check_slot. do 2 (apply (t_bind _ _ _ (λ _, sane));
    [eapply t_mono; [apply (t_read sane)|auto|by intros r b [Hb _]|auto]|intros ?]).
  destruct (_ <? _); [by apply t_throw|]. destruct reset as [reset|]; [|by apply t_ret].
  destruct (_ || _); [by apply t_throw|]. apply (t_bind _ _ _ (λ _, sane)); [by apply t_arith|].
  intros past. destruct (_ <=? _); [by apply t_throw|by apply t_ret].
Qed.

(** ** The installed image *)

(** The device runs the image, or would after a restart. *)
Definition installed (image : list Z) b : Prop :=
  machine_inv (board b) ∧ in_slot image (flash_of (board b)) ∧
  match board b with Updating u => quiet u | _ => True end.

Lemma act_boot m : boots (flash_of m) = true → act m PowerOn = Application (flash_of m).
Proof.
  intros Hb. unfold act. destruct m; cbn [machine_step flash_of] in *; unfold power_on; by rewrite Hb.
Qed.

#[local] Instance installed_steady image : Steady (installed image).
Proof.
  split; [intros b b'; unfold installed; by intros ->|]. intros b (Hm & Hs & _). unfold installed. cbn [board set_board].
  rewrite (act_boot _ (proj2 Hs)). split; [exact (machine_inv_flash _ Hm)|]. split; [exact Hs|exact Logic.I].
Qed.

(** The reset finds an updater, which goes off, or is refused. *)
Lemma reset_keeps image b :
  installed image b → installed image (set_board b (fst (serve_write 0x1F51 1 [RESET] (board b)))).
Proof.
  intros Hb. unfold serve_write. destruct (board b) as [f|f|u] eqn:Hbd.
  - apply (steady_board b); [by rewrite Hbd|exact Hb].
  - apply (steady_board b); [by rewrite Hbd|exact Hb].
  - destruct Hb as (Hm & Hs & Hq). rewrite Hbd in *. cbn [fst].
    assert (act (Updating u) (Request 0x1F51 1 [RESET]) = Dead (nvm u)) as -> by reflexivity.
    split; [exact (machine_inv_flash _ Hm)|]. split; [exact Hs|exact Logic.I].
Qed.

Lemma validated_installed image crc b :
  phase (validated image crc) b → (∃ u, board b = Updating u ∧ flash_status (od u) = ST_VALID) →
  installed image b ∧ crc32 image = crc.
Proof.
  intros [[Hm Hq] Hv] (u & Hu & Hs). destruct (Hv u Hu Hs) as [Hslot Hcrc]. split; [|exact Hcrc].
  split; [exact Hm|]. rewrite Hu. split; [exact Hslot|]. by apply Hq.
Qed.

Lemma lxor_u8 a : is_u8 a → is_u8 (Z.lxor a 0xFF).
Proof.
  intros Ha. apply byte_from_bits.
  - intros j Hj. rewrite Z.lxor_spec, !testbit_byte; [done|by split|done..].
  - apply Z.lxor_nonneg. unfold is_uint in Ha. lia.
Qed.

(** What a run of the client leaves. *)
Lemma t_flash node image target no_reset corrupt :
  bytes image →
  triple sane (Host.flash node image target no_reset corrupt)
    (λ _ b, target = Host.Firmware ∧ ∃ sent,
       (if corrupt then Host.corrupt_byte image else Ret image) = Ret sent ∧
       crc32 sent = crc32 image ∧ installed sent b ∧
       (no_reset = false → ∃ f, board b = Application f)) (λ _, True).
Proof.
  intros Hbytes. unfold Host.flash. destruct (_ && _); [by apply t_throw|]. cbv zeta.
  apply (t_bind _ _ _ (λ sent b, sane b ∧ (if corrupt then Host.corrupt_byte image else Ret image) = Ret sent)).
  { destruct corrupt; [apply t_arith; by intros a Ha b Hb|by apply t_ret]. }
  intros sent. intros b0 [Hb0 Hsent]. revert b0 Hb0.
  assert (bytes sent) as Hbs.
  { destruct corrupt; [|by injection Hsent as <-]. unfold Host.corrupt_byte in Hsent.
    destruct (image !! _) as [x|] eqn:Hx; [|discriminate]. injection Hsent as <-.
    apply Forall_insert; [exact Hbytes|]. apply lxor_u8.
    rewrite List.Forall_forall in Hbytes. apply Hbytes. eapply list_elem_of_In, list_elem_of_lookup_2, Hx. }
  apply (t_bind _ _ _ (λ _, sane)); [apply t_enter_update|]. intros c.
  apply (t_bind _ _ _ (λ _ b, sane b ∧ target = Host.Firmware)); [apply t_select|]. intros _.
  intros b0 [Hb0 Htarget]. revert b0 Hb0. apply (t_bind _ _ _ (λ _, sane)); [apply t_slot|]. intros _.
  apply (t_bind _ _ _ (λ _ b, installed sent b ∧ crc32 sent = crc32 image)).
  { eapply t_mono; [apply t_program; [exact Hbs|apply crc32_u32]|auto| |auto].
    intros _ b [Hp Hu]. by eapply validated_installed. }
  intros ? b0 [Hb0 Hcrc]. revert b0 Hb0. destruct no_reset.
  - apply t_ret. intros b Hb. split; [exact Htarget|]. exists sent.
    split_and!; [exact Hsent|exact Hcrc|exact Hb|discriminate].
  - apply (t_bind _ _ _ (λ _, installed sent)).
    { apply (t_write_try (installed sent)). exact (reset_keeps sent). }
    intros _. eapply t_bind; [eapply t_mono; [apply (t_come_back (installed sent))|auto|intros r b Hr; exact Hr|auto]|].
    intros ?. apply t_ret. intros b [Hb Happ]. split; [exact Htarget|]. exists sent.
    split_and!; [exact Hsent|exact Hcrc|exact Hb|intros _; by apply Happ].
Qed.

(** ** The theorem *)

Lemma step_quiet m op :
  machine_inv m → op_ok op → (∀ u, m = Updating u → quiet u) → ∀ u, act m op = Updating u → quiet u.
Proof.
  intros Hm Hop Hq u Hu. destruct op as [|i s d|d].
  - by apply (act_power_on m Hm).
  - destruct m as [f|f|u0]; [discriminate Hu..|].
    pose proof (act_request u0 i s d _ Hm Hop eq_refl) as Hr. rewrite Hu in Hr.
    exact (request_quiet u0 i s d (Hq u0 eq_refl) u Hr).
  - destruct m as [f|f|u0]; [discriminate Hu| |].
    + pose proof (act_enter f d _ Hm eq_refl) as Hno. rewrite Hu in Hno. destruct Hno.
    + apply Hq. exact Hu.
Qed.

(** A device with any history is in order. *)
Lemma history_sane f0 ops m t faults :
  unprogrammed f0 → Forall op_ok ops → machine_run (Dead f0) ops = Ret m → sane (mkBench m t faults).
Proof.
  intros Hno Hops Hrun. unfold sane, phase, bench_inv. cbn [board]. split; [|done].
  assert (machine_inv (Dead f0) ∧ ∀ u, Dead f0 = Updating u → quiet u) as H0'.
  { split; [by apply unprogrammed_inv|discriminate]. }
  revert H0' Hrun. generalize (Dead f0). induction Hops as [|op ops Hop Hops IH]; intros m0 [Hm Hq] Hrun.
  - injection Hrun as <-. by split.
  - cbn [machine_run] in Hrun. destruct (act_inv m0 op Hop Hm) as [Hm' Hs]. rewrite Hs in Hrun. cbn in Hrun.
    apply (IH (act m0 op)); [|exact Hrun]. split; [exact Hm'|]. by apply step_quiet.
Qed.

(** C31. A client that reports a successful update has installed its image:
    whatever exchanges are lost, wherever the power is cycled, whichever flash
    operations fail and whatever state earlier sessions left the node in, the
    application slot then holds exactly the bytes sent, their CRC is the one of
    the image file, a power-on starts them, and unless the node was to stay in
    the updater it runs them.  Bytes corrupted on purpose pass only when their
    CRC collides.  The target is then the firmware, the only one this updater
    has. *)
Theorem success_installs_image f0 ops m t faults node image target no_reset corrupt b :
  unprogrammed f0 → Forall op_ok ops → machine_run (Dead f0) ops = Ret m → bytes image →
  Host.flash node image target no_reset corrupt (mkBench m t faults) = Host.Done (b, Ok tt) →
  target = Host.Firmware ∧ ∃ sent,
    (if corrupt then Host.corrupt_byte image else Ret image) = Ret sent ∧ crc32 sent = crc32 image ∧
    flash_bytes (flash_of (board b)) APP_OFFSET (len sent) = sent ∧ boots (flash_of (board b)) = true ∧
    (no_reset = false → ∃ f, board b = Application f).
Proof.
  intros Hno Hops Hrun Hb Hx. pose proof (history_sane f0 ops m t faults Hno Hops Hrun) as Hs.
  pose proof (t_flash node image target no_reset corrupt Hb _ Hs) as Ht. rewrite Hx in Ht.
  destruct Ht as (Htarget & sent & Hsent & Hcrc & (_ & [Hslot Hboots] & _) & Happ).
  split; [exact Htarget|]. exists sent. by split_and!.
Qed.
End install.
