(* ===== verification/FwSuccess.v ===== *)
(** * An update that nothing disturbs succeeds

    With a flash whose erases and first writes of erased words succeed, and a
    bus that loses nothing, the client of [FwHost] installs every plausible
    image, whatever state the node is in.  The proof also shows that the
    updater only ever programs erased doublewords. *)
From S2P Require Import Prelude Od FwMeta FwMetaSpec FwUpdate FwUpdateSpec FwProgram FwHost FwBench FwInstall.

(** A flash that does what it is made for: pages are erased, and erased
    doublewords are written. *)
Class FlashWorks (F E : Type) `{FlashOps F E} := {
  works_write f off data :
    0 ≤ off → off mod WRITE_SIZE = 0 → len data mod WRITE_SIZE = 0 → off + len data ≤ FLASH_SIZE →
    bytes data → erased (flash_bytes f off (len data)) = true →
    ∃ f', flash_write f off data = (f', Some (Ok tt));
  works_erase f from to :
    0 ≤ from → from ≤ to → to ≤ FLASH_SIZE → from mod PAGE_SIZE = 0 → to mod PAGE_SIZE = 0 →
    ∃ f', flash_erase f from to = (f', Some (Ok tt));
}.

(** What the boot loader asks of the vectors of an image. *)
Definition bootable (image : list Z) : bool :=
  let sp := u32_at image 0 in
  let reset := u32_at image 4 in
  (8 <=? len image) && (len image <=? APP_SIZE) &&
  (RAM_BASE <? sp) && (sp <=? RAM_BASE + RAM_SIZE) && (sp mod 8 =? 0) &&
  (Z.land reset 1 =? 1) && (APP_BASE <? reset) && (reset <? APP_BASE + len image).

Section success.
Context `{Crc32Laws} {F E : Type} `{!FlashOps F E} `{!FlashLaws F E} `{!FlashWrites F E} `{!FlashWorks F E}.
Implicit Types (f : F) (u : Updater F) (m : machine F) (p : Programmer).

(** ** The flash *)

Definition blank f (a b : Z) : Prop := ∀ x, a ≤ x < b → flash_at f x = 0xFF.

Lemma blank_erased f a n : 0 ≤ n → blank f a (a + n) → erased (flash_bytes f a n) = true.
Proof.
  intros Hn Hb. apply forallb_forall. intros x Hx. apply list_elem_of_In, list_elem_of_lookup in Hx as [i Hi].
  rewrite flash_bytes_lookup in Hi. case_decide; [|discriminate]. injection Hi as <-.
  apply Z.eqb_eq, Hb. lia.
Qed.

Lemma write_blank f off data b :
  0 ≤ off → off mod WRITE_SIZE = 0 → len data mod WRITE_SIZE = 0 → off + len data ≤ b → b ≤ FLASH_SIZE →
  bytes data → blank f off b → ∃ f', flash_write f off data = (f', Some (Ok tt)) ∧ blank f' (off + len data) b.
Proof.
  intros Hoff Hmod Hlen Hb Hsize Hdata Hbl.
  destruct (works_write f off data) as [f' Hw]; try assumption; [lia| |].
  { apply blank_erased; [lia|]. intros x Hx. apply Hbl. lia. }
  exists f'. split; [exact Hw|]. intros x Hx. rewrite (write_outside f off data f' _ x Hw); [apply Hbl|]; lia.
Qed.

Lemma bytes_encode r : wf_meta r → bytes (MetaRecord.encode r).
Proof.
  intros _. rewrite encode_layout. apply Forall_app. split; [|apply bytes_to_le]. unfold record_body.
  repeat (apply Forall_app; split); try apply bytes_to_le.
  - repeat constructor; by destruct (app_valid r), (update_requested r).
  - by repeat constructor.
Qed.

Lemma append_works f rec :
  log_ok (slots_of f) → wf_meta rec → ∃ f', append_meta f rec = (f', Some (Ok tt)).
Proof.
  intros Hlog Hwf. unfold append_meta. destruct (load_meta_spec f Hlog) as [_ Hfree].
  destruct (load_meta f) as [m free]. cbn [snd] in Hfree.
  assert (∀ f1 k, 0 ≤ k < META_SLOTS → erased (slot f1 k) = true →
    ∃ f', flash_write f1 (META_OFFSET + k * META_RECORD_SIZE) (MetaRecord.encode rec) = (f', Some (Ok tt))) as Hw.
  { intros f1 k Hk He. pose proof (length_encode rec) as Hl. rewrite slot_bytes in He.
    change META_SLOTS with 64 in Hk. change META_OFFSET with 57344 in *. unfold META_RECORD_SIZE, WRITE_SIZE in *.
    apply works_write; rewrite ?Hl; [lia| |reflexivity| |by apply bytes_encode|exact He].
    - replace (57344 + k * 32) with (0 + (7168 + k * 4) * 8) by lia. by rewrite Z_mod_plus_full.
    - change FLASH_SIZE with 131072. lia. }
  destruct Hfree as [[-> _]|(k & -> & (raw & Hk & He) & _)].
  - rewrite Z.leb_refl. destruct (works_erase f META_OFFSET (META_OFFSET + META_SIZE)) as [f1 H1]; [done..|].
    rewrite H1. destruct (Hw f1 0 ltac:(done)) as [f' Hf'].
    { destruct (erased_slots f f1 H1 0 ltac:(done)) as (raw & Hl & He).
      rewrite slots_lookup, decide_True in Hl by done. by injection Hl as <-. }
    exists f'. rewrite Hf'. reflexivity.
  - rewrite slots_lookup in Hk. case_decide as Hlt; [|discriminate]. injection Hk as <-.
    rewrite (proj2 (Z.leb_gt _ _) Hlt). apply Hw; [lia|exact He].
Qed.

(** ** The programmer *)

Lemma app_offset_mod x : (APP_OFFSET + x) mod WRITE_SIZE = x mod WRITE_SIZE.
Proof.
  change APP_OFFSET with 59392. unfold WRITE_SIZE.
  replace (59392 + x) with (x + 7424 * 8) by lia. apply Z_mod_plus_full.
Qed.

Lemma commit_works p f data e :
  0 ≤ flushed p → flushed p mod WRITE_SIZE = 0 → len data mod WRITE_SIZE = 0 →
  flushed p + len data ≤ e → e ≤ APP_SIZE → bytes data → blank f (APP_OFFSET + flushed p) (APP_OFFSET + e) →
  ∃ f', commit p f data = Go (mkProgrammer (accepted p) (flushed p + len data) (pending p) (pending_len p), f', Ok tt) ∧
    blank f' (APP_OFFSET + (flushed p + len data)) (APP_OFFSET + e).
Proof.
  intros Hf Hmod Hlen He Hsize Hd Hbl. change APP_SIZE with 71680 in Hsize.
  assert (APP_OFFSET = 59392) as Ho by reflexivity.
  destruct (write_blank f (APP_OFFSET + flushed p) data (APP_OFFSET + e)) as (f' & Hw & Hbl'); try assumption.
  - lia.
  - by rewrite app_offset_mod.
  - lia.
  - change FLASH_SIZE with 131072. lia.
  - exists f'. unfold commit. rewrite Hw. rewrite wrap_id by (unfold is_uint; lia).
    rewrite checked_ret by (unfold is_uint; lia). split; [reflexivity|].
    by replace (APP_OFFSET + (flushed p + len data)) with (APP_OFFSET + flushed p + len data) by lia.
Qed.

Lemma push_works p f bs data e :
  stream p f bs → pending_len p = 0 → len bs + len data ≤ e → e ≤ APP_SIZE → bytes data →
  blank f (APP_OFFSET + flushed p) (APP_OFFSET + e) →
  ∃ p' f', push p f data = Go (p', f', Ok tt) ∧ accepted p' = len bs + len data ∧
    blank f' (APP_OFFSET + flushed p') (APP_OFFSET + e).
Proof.
  intros (Hac & Hsum & Hf & Hpl & Hmod & Hpe & _) H0' He Hsize Hd Hbl.
  unfold push, received. change APP_SIZE with 71680 in *. unfold WRITE_SIZE in *.
  rewrite (proj2 (Z.ltb_ge _ _)) by lia. rewrite H0'. cbn [Z.ltb Z.compare].
  rewrite wrap_id by (unfold is_uint; lia). unfold push_aligned, WRITE_SIZE.
  pose proof (Z.mod_pos_bound (len data) 8 eq_refl) as Hb.
  assert (len data mod 8 ≤ len data) as Hle by (apply Z.mod_le; lia).
  rewrite usub_ret by lia. cbn [lift mbind outcome_bind]. set (n := len data - len data mod 8).
  assert (∃ f', (if 0 <? n then chunk ← lift (slice data 0 n); commit p f chunk else mret (p, f, Ok tt)) =
      Go (mkProgrammer (accepted p) (flushed p + n) (pending p) 0, f', Ok tt) ∧
      blank f' (APP_OFFSET + (flushed p + n)) (APP_OFFSET + e)) as (f' & -> & Hbl').
  { destruct (Z.ltb_spec 0 n) as [Hn|Hn].
    - rewrite slice_take by lia. cbn [lift mbind outcome_bind].
      assert (len (take (Z.to_nat n) data) = n) as Hlen by (rewrite length_take; lia).
      destruct (commit_works p f (take (Z.to_nat n) data) e) as (f' & Hc & Hbl'); try assumption.
      + rewrite Hlen. unfold n, WRITE_SIZE. rewrite Zminus_mod_idemp_r, Z.sub_diag. reflexivity.
      + lia.
      + by apply Forall_take.
      + exists f'. rewrite Hc, Hlen, H0'. rewrite Hlen in Hbl'. by split.
    - assert (n = 0) as -> by lia. exists f. rewrite Z.add_0_r. split; [|exact Hbl].
      destruct p; cbn in *. by subst. }
  cbn [lift mbind outcome_bind pending accepted flushed].
  rewrite slice_drop by lia. cbn [lift mbind outcome_bind].
  assert (len (drop (Z.to_nat n) data) = len data mod 8) as Hdrop by (rewrite length_drop; lia).
  rewrite copy_from_slice_ret by lia. cbn [lift mbind outcome_bind].
  rewrite checked_ret by (unfold is_uint; lia). cbn [lift mbind outcome_bind].
  eexists _, f'. split; [reflexivity|]. cbn [accepted flushed]. split; [lia|exact Hbl'].
Qed.

Lemma finish_works p f bs e :
  stream p f bs → len bs ≤ e → e mod WRITE_SIZE = 0 → e ≤ APP_SIZE → bytes bs →
  blank f (APP_OFFSET + flushed p) (APP_OFFSET + e) →
  ∃ p' f', finish p f = Go (p', f', Ok tt).
Proof.
  intros (Hac & Hsum & Hf & Hpl & Hmod & Hpe & Hbs) He Hmode Hsize Hd Hbl. unfold finish.
  destruct (Z.ltb_spec 0 (pending_len p)) as [Hpos|]; [|by eexists _, _].
  rewrite slice_take by (unfold WRITE_SIZE in *; lia). cbn [lift mbind outcome_bind].
  set (word := take _ _ ++ _). assert (len word = 8) as Hw.
  { unfold word. rewrite length_app, length_take, length_replicate. unfold WRITE_SIZE in *. lia. }
  destruct (commit_works (mkProgrammer (accepted p) (flushed p) (pending p) 0) f word e) as (f' & Hc & _);
    cbn [flushed]; try assumption.
  - by rewrite Hw.
  - rewrite Hw. unfold WRITE_SIZE in *.
    pose proof (Z.div_mod (flushed p) 8 ltac:(done)). pose proof (Z.div_mod e 8 ltac:(done)). lia.
  - unfold word. apply Forall_app. split; [|apply Forall_replicate; by split].
    rewrite <- Hbs in Hd. by apply Forall_app in Hd as [_ Hd].
  - rewrite Hc. by eexists _, _.
Qed.

(** ** The requests of a download *)

Lemma serve_works u i s d o c u' :
  check_write (od u) i s d = Ok tt → od_store (od u) i s d = Ok (o, c) →
  handle_change (set_od u o) c = Go u' → serve_write i s d (Updating u) = (Updating u', Ok tt).
Proof.
  intros Hc Hs Hh. unfold serve_write, act. cbn [machine_step]. unfold request, host_write.
  rewrite Hc, Hs. cbn [snd handle_changes]. by rewrite Hh.
Qed.

(** The invariants a served write keeps. *)
Lemma served_inv u i s d u' :
  updater_inv u → quiet u → bytes d → serve_write i s d (Updating u) = (Updating u', Ok tt) →
  updater_inv u' ∧ quiet u'.
Proof.
  intros Hu Hq Hd Hs. unfold serve_write in Hs. injection Hs as Hs _.
  destruct (act_inv (Updating u) (Request i s d) Hd Hu) as [Hm _]. rewrite Hs in Hm.
  pose proof (act_request u i s d _ Hu Hd Hs) as Hr. split; [exact Hm|]. exact (request_quiet u i s d Hq u' Hr).
Qed.

Lemma declare_works u n :
  0 < n ≤ APP_SIZE →
  serve_write 0x2000 1 (to_le_bytes 4 n) (Updating u) = (Updating (set_od u (with_length (od u) n)), Ok tt).
Proof.
  intros Hn. change APP_SIZE with 71680 in Hn.
  assert (from_le_bytes (to_le_bytes 4 n) = n) as Hle by (apply le_id; unfold is_uint; lia).
  eapply serve_works.
  - unfold check_write. cbn [Z.eqb andb Pos.eqb]. rewrite length_to_le, Hle. change APP_SIZE with 71680.
    rewrite (proj2 (Z.eqb_neq n 0)), (proj2 (Z.ltb_ge 71680 n)) by lia. reflexivity.
  - unfold od_store. cbn [Z.eqb andb Pos.eqb]. rewrite length_to_le, Hle. reflexivity.
  - reflexivity.
Qed.

Lemma announce_works u crc :
  is_u32 crc →
  serve_write 0x1F56 1 (to_le_bytes 4 crc) (Updating u) = (Updating (set_od u (with_crc (od u) crc)), Ok tt).
Proof.
  intros Hc. eapply serve_works; [reflexivity| |].
  - unfold od_store. cbn [Z.eqb andb Pos.eqb]. rewrite length_to_le, le_id by exact Hc. reflexivity.
  - reflexivity.
Qed.

(** The updater in the middle of an undisturbed download. *)
Record ready (n crc : Z) (bs : list Z) u : Prop := {
  ready_inv : updater_inv u;
  ready_quiet : quiet u;
  ready_status : flash_status (od u) = ST_PROGRAMMING;
  ready_length : image_length (od u) = n;
  ready_crc : expected_crc (od u) = crc;
  ready_stream : stream (programmer u) (nvm u) bs;
  ready_written : bytes_written (od u) = len bs;
  ready_blank : ∃ e, n ≤ e ≤ APP_SIZE ∧ e mod WRITE_SIZE = 0 ∧
    blank (nvm u) (APP_OFFSET + flushed (programmer u)) (APP_OFFSET + e);
}.

Lemma pages_cover n :
  0 < n ≤ APP_SIZE →
  let e := (n + PAGE_SIZE - 1) / PAGE_SIZE * PAGE_SIZE in
  n ≤ e ≤ APP_SIZE ∧ e mod WRITE_SIZE = 0 ∧ (APP_OFFSET + e) mod PAGE_SIZE = 0.
Proof.
  intros Hn. cbv zeta. change APP_SIZE with 71680 in *. change PAGE_SIZE with 2048. unfold WRITE_SIZE.
  change APP_OFFSET with 59392. set (k := (n + 2048 - 1) / 2048).
  pose proof (Z.div_mod (n + 2048 - 1) 2048 ltac:(done)) as Hd. fold k in Hd.
  pose proof (Z.mod_pos_bound (n + 2048 - 1) 2048 ltac:(done)).
  split; [lia|]. split.
  - replace (k * 2048) with (0 + (k * 256) * 8) by lia. by rewrite Z_mod_plus_full.
  - replace (59392 + k * 2048) with (0 + (29 + k) * 2048) by lia. by rewrite Z_mod_plus_full.
Qed.

Lemma clear_works u n crc :
  updater_inv u → quiet u → image_length (od u) = n → expected_crc (od u) = crc → 0 < n ≤ APP_SIZE →
  ∃ u', serve_write 0x1F51 1 [CLEAR] (Updating u) = (Updating u', Ok tt) ∧ ready n crc [] u'.
Proof.
  intros Hu Hq Hl Hc Hn.
  assert (∃ u', handle_change (set_od u (with_command (od u) CLEAR)) Command = Go u' ∧
    programmer u' = Programmer_new ∧ od u' = with_status (with_written (with_command (od u) CLEAR) 0) ST_PROGRAMMING ∧
    ∃ e, n ≤ e ≤ APP_SIZE ∧ e mod WRITE_SIZE = 0 ∧ blank (nvm u') APP_OFFSET (APP_OFFSET + e))
    as (u' & Hh & Hp & Ho & e & He & Hmod & Hbl).
  { cbn [handle_change command od set_od with_command]. change (CLEAR =? CLEAR) with true. cbv iota. unfold clear.
    cbn [image_length od set_od with_command meta nvm]. rewrite Hl.
    destruct Hu as [([Hlog _] & (Hwf & _) & _) _].
    destruct (next_wf (meta u) invalidate Hwf invalidate_seq invalidate_wf) as [Hwf' _].
    destruct (append_works (nvm u) _ Hlog Hwf') as [f Ha].
    rewrite Ha. destruct (pages_cover n Hn) as (He & He8 & Hep).
    set (e := (n + PAGE_SIZE - 1) / PAGE_SIZE * PAGE_SIZE) in *. cbn [nvm set_nvm set_meta].
    change APP_SIZE with 71680 in *. assert (APP_OFFSET = 59392) as Hoff by reflexivity.
    rewrite checked_ret by (unfold is_uint; lia). cbn [lift mbind outcome_bind].
    rewrite checked_ret by (unfold is_uint; lia). cbn [lift mbind outcome_bind].
    destruct (works_erase f APP_OFFSET (APP_OFFSET + e)) as [f' Hf']; [lia|lia| |reflexivity|exact Hep|].
    { change FLASH_SIZE with 131072. lia. }
    rewrite Hf'. eexists. split; [reflexivity|]. split; [reflexivity|]. split; [reflexivity|].
    exists e. split; [exact He|]. split; [exact He8|]. intros x Hx. exact (erase_ok f _ _ f' x Hf' Hx). }
  exists u'. assert (serve_write 0x1F51 1 [CLEAR] (Updating u) = (Updating u', Ok tt)) as Hs.
  { eapply serve_works; [|reflexivity|exact Hh]. unfold check_write. cbn [Z.eqb andb Pos.eqb].
    change (CLEAR =? CLEAR) with true. cbv iota. rewrite Hl, (proj2 (Z.eqb_neq n 0)) by lia. reflexivity. }
  split; [exact Hs|]. destruct (served_inv u 0x1F51 1 [CLEAR] u' Hu Hq) as [Hu' Hq']; [by repeat constructor|exact Hs|].
  split; [exact Hu'|exact Hq'|by rewrite Ho|by rewrite Ho|by rewrite Ho| |by rewrite Ho|].
  - rewrite Hp. apply stream_new.
  - exists e. split; [exact He|]. split; [exact Hmod|]. rewrite Hp. cbn [flushed Programmer_new]. by rewrite Z.add_0_r.
Qed.

Lemma chunk_works u n crc bs d :
  ready n crc bs u → len bs mod WRITE_SIZE = 0 → len bs + len d ≤ n → len d ≤ MAX_CHUNK → bytes d →
  ∃ u', serve_write 0x1F50 1 d (Updating u) = (Updating u', Ok tt) ∧ ready n crc (bs ++ d) u'.
Proof.
  intros [Hu Hq Hs Hl Hc Hstr Hw (e & He & Hmod & Hbl)] Hbs Hfit Hmax Hd.
  pose proof (stream_aligned _ _ _ Hstr Hbs) as H0'.
  destruct (push_works (programmer u) (nvm u) bs d e Hstr H0') as (p' & f' & Hp & Hacc & Hbl'); [lia|lia|exact Hd|exact Hbl|].
  set (u' := set_od (set_programmer (set_nvm (set_od u (with_chunk (od u) d)) f') p')
               (with_written (with_chunk (od u) d) (received p'))).
  assert (serve_write 0x1F50 1 d (Updating u) = (Updating u', Ok tt)) as Hserve.
  { eapply serve_works.
    - unfold check_write. cbn [Z.eqb andb Pos.eqb]. rewrite Hs, Z.eqb_refl. cbn [negb].
      rewrite Hl, Hw, (proj2 (Z.ltb_ge _ _)) by lia. reflexivity.
    - unfold od_store. cbn [Z.eqb andb Pos.eqb]. rewrite (proj2 (Z.ltb_ge _ _)) by lia. reflexivity.
    - cbn [handle_change firmware_chunk od set_od with_chunk]. pose proof (sent_chunk d Hmax) as Hsent.
      destruct (copy_from_slice (zeros MAX_CHUNK) 0 (len d) d) as [chunk|]; [|discriminate Hsent].
      cbn [mbind exec_bind] in Hsent. cbn [lift mbind outcome_bind]. rewrite Hsent. cbn [lift mbind outcome_bind].
      cbn [programmer nvm set_od]. rewrite Hp. reflexivity. }
  exists u'. split; [exact Hserve|]. destruct (served_inv u _ _ d u' Hu Hq Hd Hserve) as [Hu' Hq'].
  split; [exact Hu'|exact Hq'|exact Hs|exact Hl|exact Hc| | |].
  - refine (push_go _ _ _ _ _ _ Hstr _ Hp). by left.
  - cbn. unfold received. rewrite Hacc, length_app. lia.
  - exists e. split; [exact He|]. split; [exact Hmod|exact Hbl'].
Qed.

Lemma bootable_plausible f image :
  flash_bytes f APP_OFFSET (len image) = image → bootable image = true →
  app_image f (len image) = Some image ∧ app_vector_table_plausible f (len image) = true.
Proof.
  intros Hf Hb. unfold bootable in Hb. rewrite !andb_true_iff in Hb.
  destruct Hb as [[[[[[[Hl Hs] H1] H2] H3] H4] H5] H6].
  assert (app_image f (len image) = Some image) as Himg.
  { unfold app_image. rewrite Hf. rewrite (proj2 (Z.eqb_neq _ _)), (proj2 (Z.ltb_ge _ _)) by lia. reflexivity. }
  split; [exact Himg|]. unfold app_vector_table_plausible. rewrite Himg, (proj2 (Z.ltb_ge _ _)) by lia.
  cbv zeta. by rewrite H1, H2, H3, H4, H5, H6.
Qed.

Lemma validate_works u n image :
  ready n (crc32 image) image u → n = len image → bytes image → bootable image = true →
  ∃ u', serve_write 0x1F51 1 [VALIDATE] (Updating u) = (Updating u', Ok tt) ∧ flash_status (od u') = ST_VALID.
Proof.
  intros [Hu Hq Hs Hl Hc Hstr Hw (e & He & Hmod & Hbl)] Hn Hb Hboot.
  destruct (finish_works _ _ _ e Hstr ltac:(lia) Hmod ltac:(lia) Hb Hbl) as (p' & f' & Hfin).
  destruct (finish_go _ _ _ _ _ Hstr Hfin) as [Himg Hrec].
  pose proof Hu as [(Hf & Hm & Ho & Hp) Hprog]. destruct (Hprog Hs) as (Hv & Hle & Hsize).
  assert (flushed (programmer u) ≤ APP_SIZE) as Hfl by (destruct Hp as (_ & ? & _); lia).
  pose proof (finish_ends _ _ Hp Hfl Hf Hv) as Hends. rewrite Hfin in Hends. destruct Hends as [Hcalm _].
  cbn [res_flash fst snd] in Hcalm. destruct (bootable_plausible f' image Himg Hboot) as [Hslot Hvec].
  assert (∃ u', handle_change (set_od u (with_command (od u) VALIDATE)) Command = Go u' ∧
    flash_status (od u') = ST_VALID) as (u' & Hh & Hst).
  { cbn [handle_change command od set_od with_command]. change (VALIDATE =? CLEAR) with false.
    change (VALIDATE =? VALIDATE) with true. cbv iota. unfold validate. cbn [programmer nvm set_od].
    rewrite Hfin. cbn [mbind outcome_bind programmer nvm od set_od set_programmer set_nvm with_command image_length expected_crc meta].
    rewrite Hl, Hrec, <- Hn, Z.eqb_refl, Hc. cbn [negb]. rewrite <- Hn in Hslot, Hvec. rewrite Hslot, Z.eqb_refl, Hvec. cbn [negb].
    set (g := λ r : MetaRecord, mkMeta _ _ _ _ _).
    destruct (append_works f' (MetaRecord.next (meta u) g)) as [f2 Ha]; [apply Hcalm| |].
    { apply (next_wf (meta u) g (proj1 Hm)); [reflexivity|]. intros r (Hr & _ & _). split; [exact Hr|].
      split; cbn; [|apply crc32_u32]. unfold is_uint. change APP_SIZE with 71680 in He. lia. }
    rewrite Ha. eexists. split; reflexivity. }
  exists u'. split; [|exact Hst]. eapply serve_works; [|reflexivity|exact Hh].
  unfold check_write. cbn [Z.eqb andb Pos.eqb]. change (VALIDATE =? CLEAR) with false.
  change (VALIDATE =? VALIDATE) with true. cbv iota. by rewrite Hs.
Qed.

(** ** Into the updater *)

Lemma power_updater m :
  machine_inv m → boots (flash_of m) = false →
  ∃ u, act m PowerOn = Updating u ∧ updater_inv u ∧ quiet u ∧ od u = BootOd_new.
Proof.
  intros Hm Hb. destruct (act_inv m PowerOn Logic.I Hm) as [Hm' Hs].
  pose proof (machine_inv_flash m Hm) as Hf.
  assert (∃ u, act m PowerOn = Updating u) as [u Hu].
  { assert (∃ u, updater_start (flash_of m) = Go u) as [u Hstart].
    2: { exists u. unfold act. cbn [machine_step]. unfold power_on. rewrite Hb, Hstart. reflexivity. }
    unfold updater_start. pose proof (in_force_eq (flash_of m)) as Hin.
    destruct (load_meta (flash_of m)) as [m0 n]. cbn [fst] in Hin. subst m0.
    destruct (update_requested _); [|eexists; reflexivity]. set (g := λ r : MetaRecord, mkMeta _ _ _ _ _).
    destruct (append_works (flash_of m) (MetaRecord.next (in_force (flash_of m)) g)) as [f' ->]; [apply Hf| |eexists; reflexivity].
    apply (next_wf _ g (in_force_wf _ (proj1 Hf))); [reflexivity|]. intros r Hr. exact Hr. }
  exists u. split; [exact Hu|]. rewrite Hu in Hm'. split; [exact Hm'|].
  destruct (act_power_on m Hm u Hu) as [Ho Hq]. by split.
Qed.

Lemma app_enters f :
  flash_inv f →
  ∃ f', serve_write 0x2F00 0 (to_le_bytes 4 Host.ENTER_UPDATE_MAGIC) (Application f) = (Dead f', Ok tt) ∧
    flash_inv f' ∧ boots f' = false.
Proof.
  intros Hf. set (g := λ r : MetaRecord, mkMeta (seq_no r) (app_len r) (app_crc r) (app_valid r) true).
  pose proof (in_force_wf f (proj1 Hf)) as Hwf. pose proof (in_force_ok f Hf) as Hm.
  assert (∀ r, wf_meta r → wf_meta (g r)) as Hg by (intros r Hr; exact Hr).
  destruct (next_wf (in_force f) g Hwf ltac:(reflexivity) Hg) as [Hwf' _].
  destruct (append_works f _ (proj1 Hf) Hwf') as [f' Ha].
  assert (app_valid (MetaRecord.next (in_force f) g) = true →
    app_image_verifies f (MetaRecord.next (in_force f) g) = true) as Hver.
  { intros Hv. pose proof (proj2 Hf Hv) as Hi. unfold app_image_verifies in *. exact Hi. }
  destruct (append_next f (in_force f) g f' (Some (Ok tt)) Hf Hm ltac:(reflexivity) Hg Hver Ha) as (Hf' & Hin & _).
  exists f'. split; [|split; [exact Hf'|]].
  - unfold serve_write. cbn [Z.eqb andb Pos.eqb].
    assert (app_check_write 0x2F00 0 (to_le_bytes 4 Host.ENTER_UPDATE_MAGIC) = Ok tt) as Hcheck by reflexivity.
    rewrite Hcheck. unfold act. cbn [machine_step]. rewrite Hcheck. unfold enter_update.
    pose proof (in_force_eq f) as Hin0. destruct (load_meta f) as [m0 n]. cbn [fst] in Hin0. subst m0.
    fold g. rewrite Ha. reflexivity.
  - rewrite (boots_spec f' Hf'), Hin. cbn. by rewrite andb_false_r.
Qed.

(** ** Runs of the client *)

(** From the device [m] the client goes on with [a] at the device [m']. *)
Definition lands {A} (x : Host.host (Bench F) BenchError A) m m' (a : A) : Prop :=
  ∀ k, ∃ k', x (mkBench m k []) = Host.Done (mkBench m' k' [], Ok a).

Lemma l_ret {A} m (a : A) : lands (mret a) m m a.
Proof. intros k. by exists k. Qed.

Lemma l_bind {A B} (x : Host.host (Bench F) BenchError A) (K : A → Host.host (Bench F) BenchError B) m m1 m' a b :
  lands x m m1 a → lands (K a) m1 m' b → lands (x ≫= K) m m' b.
Proof.
  intros Hx HK k. destruct (Hx k) as [k1 H1]. destruct (HK k1) as [k' H2]. exists k'.
  unfold mbind, Host.host_bind. by rewrite H1.
Qed.

Lemma l_try {A} (x : Host.host (Bench F) BenchError A) m m' a : lands x m m' a → lands (Host.try_ x) m m' (Ok a).
Proof. intros Hx k. destruct (Hx k) as [k' H1]. exists k'. unfold Host.try_. by rewrite H1. Qed.

Lemma l_read c m i s t d v :
  serve_read i s m = (m, Ok d) → len d = 4 → v = from_le_bytes d →
  lands (Host.read_u32_timeout c NODE_ID i s t) m m v.
Proof.
  intros Hs Hd -> k. exists k. unfold Host.read_u32_timeout, Host.call, mbind, Host.host_bind.
  cbn [net_upload bench_network]. unfold exchange. cbn [next_fault faults board]. rewrite Z.eqb_refl. cbn [negb].
  rewrite Hs, Hd. cbn [Z.ltb Z.compare Pos.compare Pos.compare_cont]. rewrite take_ge by lia. reflexivity.
Qed.

Lemma l_download c m i s d t m' :
  serve_write i s d m = (m', Ok tt) →
  lands (Host.call (λ n, net_download n c NODE_ID i s d t)) m m' (Ok tt).
Proof.
  intros Hs k. exists k. unfold Host.call. cbn [net_download bench_network]. unfold exchange.
  cbn [next_fault faults board]. rewrite Z.eqb_refl. cbn [negb]. by rewrite Hs.
Qed.

Lemma l_write c m i s d t m' :
  serve_write i s d m = (m', Ok tt) → lands (Host.write c NODE_ID i s d t) m m' tt.
Proof. intros Hs. eapply l_bind; [by apply l_download|]. apply l_ret. Qed.

Lemma l_sleep m d : (∀ f, m ≠ Dead f) → lands (Host.sleep d) m m tt.
Proof. intros Hm k. exists (k + Z.max 0 d). destruct m; [by destruct (Hm f)|reflexivity..]. Qed.

Lemma l_identify c m : (∀ f, m ≠ Dead f) →
  lands (Host.identify c NODE_ID) m m (match m with Application _ => Host.Application | _ => Host.Bootloader end).
Proof.
  intros Hm. unfold Host.identify. destruct m as [f|f|u]; [by destruct (Hm f)|..];
    (eapply l_bind; [eapply l_read; reflexivity|]); cbn;
    (eapply l_bind; [eapply l_read; reflexivity|]); apply l_ret.
Qed.

Lemma l_connect_wait m t : lands (Host.connect_wait t) m m tt.
Proof. intros k. by exists k. Qed.

(** The node is off and comes back. *)
Lemma l_come_back f wanted m :
  act (Dead f) PowerOn = m →
  match m with Application _ => wanted = Host.Application | Updating _ => wanted = Host.Bootloader | Dead _ => False end →
  lands (Host.come_back NODE_ID wanted) (Dead f) m tt.
Proof.
  intros Hact Hw k. unfold Host.come_back.
  assert (∃ n, Host.rounds (Host.secs 10) (Host.ms 200) = S n) as [n ->] by (by eexists).
  cbn [Host.come_back_loop]. unfold Host.now, Host.sleep, Host.call, mbind, Host.host_bind.
  cbn [net_now net_sleep net_connect bench_network clock].
  rewrite (proj2 (Z.leb_gt _ _)) by (unfold Host.secs; lia).
  unfold bench_sleep. cbn [board]. unfold set_board. cbn [board clock faults]. rewrite Hact.
  assert (∀ f', m ≠ Dead f') as Hm by (by intros f' ->).
  destruct (l_identify tt m Hm (k + Z.max 0 (Host.ms 200))) as [k' Hid]. exists k'.
  unfold bench_connect, wait, Host.try_. cbn [next_fault faults]. cbn [board clock faults]. rewrite Hid. destruct m; [done|by rewrite Hw..].
Qed.

Lemma l_send fuel c k n crc bs rest u :
  (length rest ≤ fuel)%nat → bytes rest → len bs mod WRITE_SIZE = 0 → len bs + len rest ≤ n → ready n crc bs u →
  ∃ u', lands (Host.send_chunks c NODE_ID k (Host.chunks_fuel fuel rest)) (Updating u) (Updating u') tt ∧
    ready n crc (bs ++ rest) u'.
Proof.
  revert k bs rest u. induction fuel as [|fuel IH]; intros k bs rest u Hfuel Hb Hbs Hn Hu.
  { destruct rest; [|cbn in Hfuel; lia]. exists u. rewrite app_nil_r. split; [apply l_ret|exact Hu]. }
  destruct rest as [|x rest']; [exists u; rewrite app_nil_r; split; [apply l_ret|exact Hu]|].
  set (rest := x :: rest') in *. cbn [Host.chunks_fuel]. fold rest.
  change (Z.to_nat Host.MAX_CHUNK) with 256%nat. cbn [Host.send_chunks].
  pose proof (length_take rest 256) as Hlt. pose proof (length_drop rest 256) as Hld.
  destruct (chunk_works u n crc bs (take 256 rest) Hu Hbs) as (u1 & Hs & Hu1);
    [lia|unfold MAX_CHUNK; lia|by apply Forall_take|].
  destruct (decide (256 ≤ length rest)%nat) as [Hlong|Hshort].
  - destruct (IH (k + 1) (bs ++ take 256 rest) (drop 256 rest) u1) as (u' & Hl & Hu'); [lia|by apply Forall_drop| | |exact Hu1|].
    + rewrite length_app, Hlt, Nat.min_l, Nat2Z.inj_add by lia.
      rewrite Zplus_mod. unfold WRITE_SIZE in *. by rewrite Hbs.
    + rewrite length_app. lia.
    + exists u'. split.
      * eapply l_bind; [exact (l_download c _ _ _ _ _ _ Hs)|exact Hl].
      * by rewrite <- app_assoc, take_drop in Hu'.
  - rewrite (drop_ge rest) by lia. rewrite (take_ge rest) in * by lia. exists u1.
    assert (Host.chunks_fuel fuel [] = []) as -> by (by destruct fuel). split; [|exact Hu1].
    eapply l_bind; [exact (l_download c _ _ _ _ _ _ Hs)|apply l_ret].
Qed.

Lemma l_status c u t s :
  flash_status (od u) = s → is_u32 s →
  lands (Host.read_u32_timeout c NODE_ID Host.FLASH_STATUS 1 t) (Updating u) (Updating u) s.
Proof.
  intros Hs Hu. eapply (l_read _ _ _ _ _ (to_le_bytes 4 s)); [|by rewrite length_to_le|by rewrite le_id].
  unfold serve_read, boot_read. cbn [Z.eqb Pos.eqb andb]. by rewrite Hs.
Qed.

Lemma l_program c u image :
  updater_inv u → quiet u → bytes image → bootable image = true →
  ∃ u', lands (Host.program c NODE_ID Host.Firmware image (crc32 image)) (Updating u) (Updating u') tt ∧
    updater_inv u' ∧ quiet u' ∧ flash_status (od u') = ST_VALID.
Proof.
  intros Hu Hq Hb Hboot. set (n := len image).
  assert (8 ≤ n ≤ APP_SIZE) as Hn.
  { unfold bootable in Hboot. rewrite !andb_true_iff in Hboot. lia. }
  assert (as_u32 (len image) = n) as Hwrap.
  { apply wrap_id. unfold is_uint. change APP_SIZE with 71680 in Hn. lia. }
  unfold Host.program. rewrite Hwrap.
  pose proof (declare_works u n ltac:(lia)) as H1. set (u1 := set_od u (with_length (od u) n)) in *.
  destruct (served_inv u 0x2000 1 (to_le_bytes 4 n) u1 Hu Hq (bytes_to_le _ _) H1) as [Hu1 Hq1].
  pose proof (announce_works u1 _ (crc32_u32 image)) as H2. set (u2 := set_od u1 (with_crc (od u1) (crc32 image))) in *.
  destruct (served_inv u1 0x1F56 1 _ u2 Hu1 Hq1 (bytes_to_le _ _) H2) as [Hu2 Hq2].
  destruct (clear_works u2 n (crc32 image) Hu2 Hq2 eq_refl eq_refl ltac:(lia)) as (u3 & H3 & Hr3).
  destruct (l_send (length image) c 0 n (crc32 image) [] image u3) as (u4 & H4 & Hr4); [lia|exact Hb|reflexivity|cbn; lia|exact Hr3|].
  cbn [app] in Hr4. destruct (validate_works u4 n image Hr4 eq_refl Hb Hboot) as (u5 & H5 & Hs5).
  destruct (served_inv u4 0x1F51 1 [VALIDATE] u5 (ready_inv _ _ _ _ Hr4) (ready_quiet _ _ _ _ Hr4)) as [Hu5 Hq5];
    [by repeat constructor|exact H5|].
  exists u5. split; [|by split].
  eapply l_bind; [exact (l_write c _ _ _ _ _ _ H1)|].
  eapply l_bind; [exact (l_write c _ _ _ _ _ _ H2)|].
  eapply l_bind; [exact (l_write c _ _ _ _ _ _ H3)|].
  eapply l_bind; [by apply l_sleep|]. cbv zeta.
  eapply l_bind; [apply (l_status c u3 _ ST_PROGRAMMING (ready_status _ _ _ _ Hr3)); by split|].
  change (negb (ST_PROGRAMMING =? Host.ST_PROGRAMMING)) with false. cbv iota.
  eapply l_bind; [exact H4|]. eapply l_bind.
  { eapply (l_read _ _ _ _ _ (to_le_bytes 4 n)); [|by rewrite length_to_le|].
    - unfold serve_read, boot_read. cbn [Z.eqb Pos.eqb andb Host.UPDATE_INFO].
      rewrite (ready_written _ _ _ _ Hr4). reflexivity.
    - rewrite le_id; [reflexivity|]. rewrite <- Hwrap. by apply wrap_range. }
  fold n. rewrite Z.eqb_refl. cbn [negb].
  eapply l_bind; [exact (l_write c _ _ _ _ _ _ H5)|].
  eapply l_bind; [apply (l_status c u5 _ ST_VALID Hs5); by split|].
  change (negb (ST_VALID =? Host.ST_VALID)) with false. apply l_ret.
Qed.

(** ** The theorem *)

Lemma l_enter c_m :
  machine_inv c_m → (∀ u, c_m = Updating u → quiet u) → (∀ f, c_m ≠ Dead f) →
  ∃ u, lands (Host.enter_update NODE_ID) c_m (Updating u) tt ∧ updater_inv u ∧ quiet u.
Proof.
  intros Hm Hq Hd. unfold Host.enter_update. destruct c_m as [f|f|u]; [by destruct (Hd f)| |].
  - destruct (app_enters f Hm) as (f' & Hs & Hf' & Hb).
    destruct (power_updater (Dead f') Hf' Hb) as (u & Hact & Hu & Hqu & _). exists u. split; [|by split].
    eapply l_bind; [apply l_connect_wait|]. eapply l_bind; [by apply l_identify|]. cbn.
    eapply l_bind; [apply l_try, (l_write _ _ _ _ _ _ _ Hs)|]. by apply l_come_back.
  - exists u. split; [|split; [exact Hm|by apply Hq]].
    eapply l_bind; [apply l_connect_wait|]. eapply l_bind; [by apply l_identify|]. apply l_ret.
Qed.

Lemma l_checks c u image :
  bootable image = true →
  lands (Host.check_slot c NODE_ID image (Some (u32_at image 4))) (Updating u) (Updating u) tt.
Proof.
  intros Hb. unfold bootable in Hb. rewrite !andb_true_iff in Hb.
  destruct Hb as [[[[[[[Hl Hs] _] _] _] H4] H5] H6]. change APP_SIZE with 71680 in Hs. change APP_BASE with 134277120 in *.
  unfold Host.check_slot. eapply l_bind; [eapply l_read; reflexivity|]. eapply l_bind; [eapply l_read; reflexivity|].
  change (from_le_bytes (to_le_bytes 4 APP_SIZE)) with 71680. change (from_le_bytes (to_le_bytes 4 APP_BASE)) with 134277120.
  rewrite (wrap_id 32 (len image)) by (unfold is_uint; lia). rewrite (proj2 (Z.ltb_ge _ _)) by lia.
  rewrite (proj2 (Z.eqb_neq (Z.land _ _) 0)) by lia. rewrite (proj2 (Z.ltb_ge _ _)) by lia. cbn [orb].
  rewrite checked_ret by (unfold is_uint; lia).
  eapply l_bind; [intros k; exists k; reflexivity|]. rewrite (proj2 (Z.leb_gt _ _)) by lia. apply l_ret.
Qed.

(** C32. An update that nothing disturbs succeeds: whatever state earlier
    sessions left the node in, as long as it is on, with a flash that erases
    pages and writes erased doublewords and a bus that loses nothing the
    client reports success for every image the boot loader could start, so it
    ends, no answer makes it give up, and the updater never programs a
    doubleword that is not erased. *)
Theorem undisturbed_update_succeeds f0 ops m t image :
  unprogrammed f0 → Forall op_ok ops → machine_run (Dead f0) ops = Ret m → (∀ f, m ≠ Dead f) →
  bytes image → bootable image = true →
  ∃ b, Host.flash NODE_ID image Host.Firmware false false (mkBench m t []) = Host.Done (b, Ok tt) ∧
    board b = Application (flash_of (board b)).
Proof.
  intros Hno Hops Hrun Hd Hb Hboot. destruct (history_sane f0 ops m t [] Hno Hops Hrun) as [[Hm Hq] _].
  destruct (l_enter m Hm Hq Hd) as (u & Henter & Hu & Hqu).
  destruct (l_program tt u image Hu Hqu Hb Hboot) as (u' & Hprog & Hu' & Hq' & Hs').
  assert (in_slot image (nvm u')) as Hslot.
  { assert (sane (mkBench (Updating u) 0 [])) as Hsane by (by split; [split; [exact Hu|by intros v [= <-]]|]).
    destruct (Hprog 0) as [k Hk].
    pose proof (t_program tt NODE_ID Host.Firmware image _ Hb (crc32_u32 image) _ Hsane) as Ht. rewrite Hk in Ht.
    destruct Ht as [Hphase Hup]. destruct (validated_installed _ _ _ Hphase Hup) as [(_ & Hin & _) _]. exact Hin. }
  assert (serve_write 0x1F51 1 [RESET] (Updating u') = (Dead (nvm u'), Ok tt)) as Hreset by reflexivity.
  pose proof (act_boot (Dead (nvm u')) (proj2 Hslot)) as Hact.
  assert (lands (Host.flash NODE_ID image Host.Firmware false false) m (Application (nvm u')) tt) as Hl.
  { unfold Host.flash. rewrite bool_decide_eq_true_2 by done. pose proof Hboot as Hlen. unfold bootable in Hlen.
    rewrite !andb_true_iff in Hlen. rewrite (proj2 (Z.ltb_ge _ _)) by lia. cbn [andb]. cbv zeta iota.
    eapply l_bind; [apply l_ret|]. eapply l_bind; [exact Henter|]. eapply l_bind.
    { unfold Host.select_target. eapply l_bind; [eapply l_read; reflexivity|]. apply l_ret. }
    eapply l_bind; [by apply l_checks|]. eapply l_bind; [exact Hprog|].
    eapply l_bind; [apply l_try, (l_write _ _ _ _ _ _ _ Hreset)|].
    eapply l_bind; [apply (l_come_back (nvm u') Host.Application _ Hact); done|]. apply l_ret. }
  destruct (Hl t) as [t' Ht]. exists (mkBench (Application (nvm u')) t' []). by split.
Qed.
End success.
