(* ===== verification/FwHostSpec.v ===== *)
(** * The host's client ends

    Whatever a node answers, as long as the clock goes forward: the waiting
    loops of [FwHost] are bounded by their deadlines, and only the image on the
    command line can make the client panic. *)
From S2P Require Import Prelude FwMeta FwHost.

(** The clock [ticks] never goes back, a sleep takes its time, and what is
    read are bytes. *)
Class NetworkLaws (N C E : Type) `{Network N C E} := {
  ticks : N → Z;
  connect_later n : ticks n ≤ ticks (fst (net_connect n));
  upload_later n c node i s t : ticks n ≤ ticks (fst (net_upload n c node i s t));
  download_later n c node i s d t : ticks n ≤ ticks (fst (net_download n c node i s d t));
  now_between n : ticks n ≤ snd (net_now n) ≤ ticks (fst (net_now n));
  sleep_later n d : 0 ≤ d → ticks n + d ≤ ticks (net_sleep n d);
  upload_bytes n c node i s t d : snd (net_upload n c node i s t) = Ok d → bytes d;
}.

Section ends.
Context {N C E : Type} `{NetworkLaws N C E}.
Implicit Types (P : N → Prop).

(** From a state in [P] the client ends, panicking only in case of [B]. *)
Definition halts (B : Prop) {A} (P : N → Prop) (m : Host.host N E A) (Q : A → N → Prop) : Prop :=
  ∀ n, P n →
    match m n with
    | Host.Done (n', Ok a) => ticks n ≤ ticks n' ∧ Q a n'
    | Host.Done (n', Err _) => ticks n ≤ ticks n'
    | Host.Panicked => B
    | Host.OutOfFuel => False
    end.

Section rules.
Context (B : Prop).

Lemma h_bind {A A'} P (m : Host.host N E A) (k : A → Host.host N E A') Q' Q :
  halts B P m Q' → (∀ a, halts B (Q' a) (k a) Q) → halts B P (m ≫= k) Q.
Proof.
  intros Hm Hk n Hn. specialize (Hm n Hn). unfold mbind, Host.host_bind.
  destruct (m n) as [[n' [a|e]]| |]; [|exact Hm..]. destruct Hm as [Ht Ha]. specialize (Hk a n' Ha).
  destruct (k a n') as [[n2 [b|e]]| |]; [|lia|exact Hk..]. split; [lia|apply Hk].
Qed.

Lemma h_ret {A} (P : N → Prop) (a : A) (Q : A → N → Prop) : (∀ n, P n → Q a n) → halts B P (mret a) Q.
Proof. intros HQ n Hn. split; [lia|by apply HQ]. Qed.

Lemma h_throw {A} P e (Q : A → N → Prop) : halts B P (Host.throw e) Q.
Proof. intros n _. exact (Z.le_refl _). Qed.

Lemma h_mono {A} (P P' : N → Prop) (m : Host.host N E A) (Q Q' : A → N → Prop) :
  halts B P' m Q' → (∀ n, P n → P' n) → (∀ a n, Q' a n → Q a n) → halts B P m Q.
Proof.
  intros Hm HP HQ n Hn. specialize (Hm n (HP n Hn)).
  destruct (m n) as [[n' [a|e]]| |]; [|exact Hm..]. split; [apply Hm|apply HQ, Hm].
Qed.

Lemma h_try {A} P (m : Host.host N E A) Q : halts B P m Q → halts B P (Host.try_ m) (λ _ _, True).
Proof.
  intros Hm n Hn. specialize (Hm n Hn). unfold Host.try_.
  destruct (m n) as [[n' [a|e]]| |]; [split; [apply Hm|exact Logic.I]|by split|exact Hm..].
Qed.

Lemma h_call {A} (P : N → Prop) (f : N → N * A) (Q : A → N → Prop) :
  (∀ n, ticks n ≤ ticks (fst (f n))) → (∀ n, P n → Q (snd (f n)) (fst (f n))) → halts B P (Host.call f) Q.
Proof.
  intros Ht HQ n Hn. specialize (Ht n). specialize (HQ n Hn). unfold Host.call. by destruct (f n).
Qed.

Lemma h_arith {A} P (m : exec A) : (m = Panic → B) → halts B P (Host.arith m) (λ _ _, True).
Proof. intros Hp n _. unfold Host.arith. destruct m; [by split; [lia|]|by apply Hp]. Qed.

Lemma h_given {A} (φ : Prop) (m : Host.host N E A) Q :
  (φ → halts B (λ _, True) m Q) → halts B (λ _, φ) m Q.
Proof. intros Hm n Hn. exact (Hm Hn n Logic.I). Qed.

(** Nothing but the end is claimed. *)
Definition concludes {A} (m : Host.host N E A) : Prop := halts B (λ _, True) m (λ _ _, True).

Lemma e_bind {A A'} (m : Host.host N E A) (k : A → Host.host N E A') : concludes m → (∀ a, concludes (k a)) → concludes (m ≫= k).
Proof. intros Hm Hk. exact (h_bind _ _ _ _ _ Hm Hk). Qed.

Lemma e_ret {A} (a : A) : concludes (mret a).
Proof. by apply h_ret. Qed.

Lemma e_throw {A} e : concludes (A := A) (Host.throw e).
Proof. apply h_throw. Qed.

Lemma e_try {A} (m : Host.host N E A) : concludes m → concludes (Host.try_ m).
Proof. apply h_try. Qed.

Lemma e_read c node i s t : concludes (Host.read_u32_timeout c node i s t).
Proof.
  apply e_bind; [apply h_call; [intros n; apply upload_later|done]|].
  intros [d|e]; [|apply e_throw]. destruct (_ <? _); [apply e_throw|apply e_ret].
Qed.

Lemma e_read_u8 c node i s : concludes (Host.read_u8 c node i s).
Proof.
  apply e_bind; [apply h_call; [intros n; apply upload_later|done]|].
  intros [[|b l]|e]; [apply e_throw|apply e_ret|apply e_throw].
Qed.

Lemma e_write c node i s d t : concludes (Host.write c node i s d t).
Proof.
  apply e_bind; [apply h_call; [intros n; apply download_later|done]|].
  intros [[]|e]; [apply e_ret|apply e_throw].
Qed.

Lemma h_sleep P d : 0 ≤ d → halts B P (Host.sleep d) (λ _ _, True).
Proof. intros Hd. apply h_call; [|done]. intros n. cbn [fst]. pose proof (sleep_later n d Hd). lia. Qed.

Lemma e_identify c node : concludes (Host.identify c node).
Proof.
  apply e_bind; [apply e_read|]. intros v. destruct (negb _); [apply e_throw|].
  apply e_bind; [apply e_read|]. intros p. destruct (_ || _ || _); [apply e_ret|].
  destruct (_ || _ || _); [apply e_ret|apply e_throw].
Qed.

(** ** Deadlines *)

(** The rounds left reach the deadline. *)
Definition in_time (interval deadline : Z) (fuel : nat) (n : N) : Prop :=
  deadline ≤ ticks n + interval * (Z.of_nat fuel - 1) ∧ (0 < fuel)%nat.

Lemma rounds_in_time timeout interval t n :
  0 < interval → 0 ≤ timeout → t ≤ ticks n → in_time interval (t + timeout) (Host.rounds timeout interval) n.
Proof.
  intros Hi Ht Hn. unfold in_time, Host.rounds. split; [|lia].
  pose proof (Z.div_mod timeout interval ltac:(lia)) as Hd.
  pose proof (Z.mod_pos_bound timeout interval Hi).
  pose proof (Z.div_pos timeout interval Ht Hi). nia.
Qed.

Lemma h_now interval deadline fuel :
  halts B (in_time interval deadline (S fuel)) Host.now
    (λ t n, (deadline <=? t) = false → deadline ≤ ticks n + interval * Z.of_nat fuel ∧ (0 < fuel)%nat).
Proof.
  apply h_call; [intros n; destruct (now_between n); lia|]. intros n [Hd _] Ht.
  pose proof (now_between n) as Hn. apply Z.leb_gt in Ht. destruct fuel; [lia|]. split; [nia|lia].
Qed.

Lemma h_round interval deadline fuel :
  0 ≤ interval →
  halts B (λ n, deadline ≤ ticks n + interval * Z.of_nat fuel ∧ (0 < fuel)%nat) (Host.sleep interval)
    (λ _, in_time interval deadline fuel).
Proof.
  intros Hi. apply h_call; [intros n; cbn [fst]; pose proof (sleep_later n interval Hi); lia|].
  intros n [Hd Hf]. cbn [fst]. pose proof (sleep_later n interval Hi). split; [nia|lia].
Qed.

(** A step that neither ends the round nor turns back the clock. *)
Lemma h_keep {A} interval deadline fuel (m : Host.host N E A) :
  concludes m → halts B (in_time interval deadline fuel) m (λ _, in_time interval deadline fuel).
Proof.
  intros Hm n [Hd Hf]. specialize (Hm n Logic.I). destruct (m n) as [[n' [a|e]]| |]; [|exact Hm..].
  destruct Hm as [Ht _]. split; [exact Ht|]. split; [nia|exact Hf].
Qed.

Lemma e_connect : concludes (Host.call net_connect).
Proof. apply h_call; [intros n; apply connect_later|done]. Qed.

Lemma h_connect_loop fuel deadline :
  halts B (in_time (Host.ms 100) deadline fuel) (Host.connect_loop fuel deadline) (λ _ _, True).
Proof.
  induction fuel as [|fuel IH]; [intros n [_ Hf]; lia|]. cbn [Host.connect_loop].
  eapply h_bind; [apply h_keep, e_connect|]. intros [c|e]; [by apply h_ret|].
  eapply h_bind; [apply h_now|]. intros t. cbn beta. destruct (deadline <=? t) eqn:Ht; [apply h_throw|].
  eapply h_bind; [eapply h_mono; [by apply h_round|intros n Hn; by apply Hn|intros a n Hn; exact Hn]|].
  intros ?. exact IH.
Qed.

Lemma h_deadline timeout interval {A} (k : Z → Host.host N E A) :
  0 < interval → 0 ≤ timeout →
  (∀ t, halts B (in_time interval (t + timeout) (Host.rounds timeout interval)) (k t) (λ _ _, True)) →
  concludes (t ← Host.now; k t).
Proof.
  intros Hi Ht Hk. eapply h_bind; [|exact Hk]. apply h_call; [intros n; destruct (now_between n); lia|].
  intros n _. apply rounds_in_time; [exact Hi|exact Ht|apply now_between].
Qed.

Lemma e_connect_wait timeout : 0 ≤ timeout → concludes (Host.connect_wait timeout).
Proof. intros Ht. apply (h_deadline timeout (Host.ms 100)); [done|exact Ht|]. intros t. apply h_connect_loop. Qed.

Lemma h_come_back_loop fuel deadline node wanted :
  halts B (in_time (Host.ms 200) deadline fuel) (Host.come_back_loop fuel deadline node wanted) (λ _ _, True).
Proof.
  induction fuel as [|fuel IH]; [intros n [_ Hf]; lia|]. cbn [Host.come_back_loop].
  eapply h_bind; [apply h_now|]. intros t. cbn beta. destruct (deadline <=? t) eqn:Ht; [apply h_throw|].
  eapply h_bind; [eapply h_mono; [by apply h_round|intros n Hn; by apply Hn|intros a n Hn; exact Hn]|]. intros ?.
  eapply h_bind; [apply h_keep, e_connect|]. intros [c|e]; [|exact IH].
  eapply h_bind; [apply h_keep, e_try, e_identify|]. intros [role|e]; [|exact IH].
  case_bool_decide; [by apply h_ret|exact IH].
Qed.

Lemma e_come_back node wanted : concludes (Host.come_back node wanted).
Proof. apply (h_deadline (Host.secs 10) (Host.ms 200)); [done..|]. intros t. apply h_come_back_loop. Qed.

(** ** Commands *)

Lemma e_status c node : concludes (Host.status c node).
Proof.
  apply e_bind; [apply e_identify|]. intros [|]; [apply e_ret|].
  do 5 (apply e_bind; [apply e_read|intros ?]). apply e_ret.
Qed.

Lemma e_enter_update node : concludes (Host.enter_update node).
Proof.
  apply e_bind; [by apply e_connect_wait|]. intros c. apply e_bind; [apply e_identify|].
  intros [|]; [|apply e_ret]. apply e_bind; [apply e_try, e_write|]. intros _. apply e_come_back.
Qed.

Lemma e_send c node k l : concludes (Host.send_chunks c node k l).
Proof.
  revert k. induction l as [|chunk l IH]; intros k; [apply e_ret|].
  apply e_bind; [apply h_call; [intros n; apply download_later|done]|].
  intros [[]|e]; [apply IH|apply e_throw].
Qed.

Lemma e_select c node target : concludes (Host.select_target c node target).
Proof.
  apply e_bind; [apply e_read|]. intros p. destruct (_ =? _).
  - apply e_bind; [apply e_try, e_write|]. intros r. apply e_bind; [by apply h_sleep|]. intros _.
    apply e_bind; [apply e_read_u8|]. intros s. destruct (negb _); [|apply e_ret].
    destruct r; apply e_throw.
  - case_bool_decide; [apply e_throw|apply e_ret].
Qed.

Lemma e_program c node target image crc : concludes (Host.program c node target image crc).
Proof.
  do 3 (apply e_bind; [apply e_write|intros _]). apply e_bind; [by apply h_sleep|]. intros _.
  apply e_bind; [apply e_read|]. intros s. destruct (negb _); [apply e_throw|].
  apply e_bind; [apply e_send|]. intros _. apply e_bind; [apply e_read|]. intros w.
  destruct (negb _); [apply e_throw|]. apply e_bind; [apply e_write|]. intros _.
  apply e_bind; [apply e_read|]. intros v. destruct (negb _); [apply e_throw|apply e_ret].
Qed.
End rules.

Lemma h_read B P c node i s t : halts B P (Host.read_u32_timeout c node i s t) (λ v _, 0 ≤ v).
Proof.
  eapply h_bind.
  - apply (h_call B P _ (λ r _, ∀ d, r = Ok d → bytes d)); [intros n; apply upload_later|].
    intros n _ d. apply upload_bytes.
  - intros [d|e]; [|apply h_throw]. destruct (_ <? _); [apply h_throw|]. apply h_ret. intros n Hd.
    apply from_le_range. by apply Forall_take, Hd.
Qed.

(** The sum of base and length overflows only for a vector that high. *)
Lemma e_check_slot c node image reset :
  concludes (∃ r, reset = Some r ∧ 2 ^ 32 ≤ r + as_u32 (len image)) (Host.check_slot c node image reset).
Proof.
  apply e_bind; [apply e_read|]. intros capacity. eapply h_bind; [apply h_read|]. intros base.
  destruct (_ <? _); [apply h_throw|]. destruct reset as [r|]; [|by apply h_ret].
  destruct (_ || _) eqn:Hr; [apply h_throw|]. apply orb_false_iff in Hr as [_ Hr%Z.ltb_ge]. intros n Hn. revert n Hn.
  apply (h_bind _ _ _ _ (λ _ _, True)).
  - intros n Hn. cbn beta in Hn. apply (h_arith _ (λ _, True)); [|exact Logic.I].
    unfold checked. destruct (_ && _) eqn:Hc; [discriminate|]. intros _. exists r. split; [done|]. pose proof (wrap_range 32 (len image) ltac:(lia)) as [Hw _]. lia.
  - intros past. destruct (_ <=? _); [apply h_throw|by apply h_ret].
Qed.

(** When the client may panic: an empty image to be corrupted, or a firmware
    whose reset vector and length add up past the address space. *)
Definition bad_command (command : Host.Command) : Prop :=
  match command with
  | Host.CmdFlash image target _ corrupt =>
      (corrupt = true ∧ image = []) ∨
      (target = Host.Firmware ∧ 2 ^ 32 ≤ u32_at image 4 + as_u32 (len image))
  | _ => False
  end.

Lemma corrupt_ok image : Host.corrupt_byte image = Panic → image = [].
Proof.
  unfold Host.corrupt_byte. destruct (image !! (length image / 2)%nat) eqn:Hi; [discriminate|].
  apply lookup_ge_None_1 in Hi. destruct image; [done|]. exfalso.
  pose proof (Nat.div_lt (length (z :: image)) 2 ltac:(cbn; lia) ltac:(lia)). lia.
Qed.

Lemma corrupt_length image sent : Host.corrupt_byte image = Ret sent → length sent = length image.
Proof.
  unfold Host.corrupt_byte. destruct (image !! _); [|discriminate]. intros [= <-]. apply length_insert.
Qed.

Lemma e_flash `{Crc32} node image target no_reset corrupt :
  concludes (bad_command (Host.CmdFlash image target no_reset corrupt)) (Host.flash node image target no_reset corrupt).
Proof.
  set (B := bad_command _). unfold Host.flash. destruct (_ && _); [apply e_throw|]. cbv zeta.
  apply (h_bind _ _ _ _ (λ sent _, length sent = length image)).
  { destruct corrupt; [|by apply h_ret]. intros n _. unfold Host.arith.
    destruct (Host.corrupt_byte image) as [sent|] eqn:Hc; [split; [lia|by eapply corrupt_length]|].
    left. by split; [|apply corrupt_ok]. }
  intros sent. apply h_given. intros Hs.
  apply e_bind; [apply e_enter_update|]. intros c. apply e_bind; [apply e_select|]. intros _.
  apply e_bind.
  { intros n Hn. pose proof (e_check_slot c node sent (if bool_decide (target = Host.Firmware) then Some (u32_at image 4) else None) n Hn) as Hcs.
    destruct (Host.check_slot _ _ _ _ n) as [[n' [a|e]]| |]; [exact Hcs..| |exact Hcs].
    destruct Hcs as (r & Hr & Hle). case_bool_decide as Ht; [|discriminate]. injection Hr as <-.
    right. split; [exact Ht|]. by rewrite <- Hs. }
  intros _. apply e_bind; [apply e_program|]. intros _. destruct no_reset; [apply e_ret|].
  apply e_bind; [apply e_try, e_write|]. intros _. apply e_bind; [apply e_come_back|]. intros _. apply e_ret.
Qed.

(** Every command of the client ends, whatever the node and the bus answer and
    however long that takes, and it does not panic: only an empty image to be
    corrupted on purpose, or a firmware whose reset vector lies within its
    length of the end of the address space, can make it panic. *)
Theorem client_ends `{Crc32} node command n :
  Host.run_command node command n ≠ Host.OutOfFuel ∧
  (Host.run_command node command n = Host.Panicked → bad_command command).
Proof.
  assert (concludes (bad_command command) (Host.run_command node command)) as Hc.
  { destruct command as [| | |image target no_reset corrupt]; cbn [Host.run_command].
    - apply e_bind; [by apply e_connect_wait|]. intros c. apply e_bind; [apply e_status|]. intros s. apply e_ret.
    - apply e_bind; [apply e_enter_update|]. intros c. apply e_ret.
    - apply e_bind; [by apply e_connect_wait|]. intros c. apply e_bind; [apply e_identify|]. intros r.
      destruct (negb _); [apply e_throw|]. apply e_bind; [apply e_try, e_write|]. intros _. apply e_ret.
    - apply e_bind; [apply e_flash|]. intros _. apply e_ret. }
  specialize (Hc n Logic.I). destruct (Host.run_command node command n) as [[n' [a|e]]| |]; done.
Qed.
End ends.
