(* ===== verification/FwHostDemo.v ===== *)
(** * Updates on a concrete bench

    The client and the device of [FwBench] on concrete flashes: runs of the
    client, and the theorems applied. *)
From S2P Require Import Prelude Od FwMeta FwMetaSpec FwUpdate FwUpdateSpec FwProgram FwDemo FwHost FwHostSpec FwBench FwInstall FwSuccess.

(** What an answered read brings are bytes. *)
Lemma answer_bytes (o : option (list Z)) d : (∀ l, o = Some l → bytes l) → answer o = Ok d → bytes d.
Proof. destruct o as [l|]; [|discriminate]. intros Hl [= <-]. by apply Hl. Qed.

Lemma boot_read_bytes o i s d : boot_read o i s = Some d → bytes d.
Proof.
  unfold boot_read. repeat (case_match; [intros [= <-]; apply bytes_to_le|]). discriminate.
Qed.

Lemma app_read_bytes i s d : app_read i s = Some d → bytes d.
Proof. unfold app_read. repeat (case_match; [intros [= <-]; apply bytes_to_le|]). discriminate. Qed.

Section clock.
Context `{Crc32} {F E : Type} `{!FlashOps F E}.
Implicit Types b : Bench F.

Lemma exchange_later {A} b node t (serve : machine F → machine F * result A BenchError) :
  clock b ≤ clock (fst (exchange b node t serve)).
Proof.
  unfold exchange, next_fault. destruct (faults b) as [|[] l], (negb _); cbn [board];
    try destruct (serve _); cbn; lia.
Qed.

Lemma exchange_bytes b node i s t d : snd (exchange b node t (serve_read i s)) = Ok d → bytes d.
Proof.
  assert (∀ m : machine F, snd (serve_read i s m) = Ok d → bytes d) as Hs.
  { intros [f|f|u]; cbn [serve_read snd]; [discriminate|apply answer_bytes..]; intros l;
      [apply app_read_bytes|apply boot_read_bytes]. }
  unfold exchange. destruct (next_fault b) as [x b0]. destruct (negb _); [discriminate|].
  pose proof (Hs (board b0)) as H1. pose proof (Hs (act (board b0) PowerOn)) as H2.
  destruct x; [by destruct (serve_read i s (board b0))|by destruct (serve_read i s (act (board b0) PowerOn))|
    discriminate|by destruct (serve_read i s (board b0))].
Qed.

#[export] Instance bench_laws : NetworkLaws (Bench F) unit BenchError.
Proof.
  exists clock.
  - intros b. cbn. unfold bench_connect, next_fault. destruct (faults b) as [|[] l]; cbn; lia.
  - intros b c node i s t. apply exchange_later.
  - intros b c node i s d t. apply exchange_later.
  - intros b. cbn. lia.
  - intros b d Hd. cbn. unfold bench_sleep. destruct (board b); cbn; lia.
  - intros b c node i s t d. apply exchange_bytes.
Defined.
End clock.

(** A flash without a power supply to fail. *)
Record SolidFlash := solid { cells : list segment }.

Definition powered (f : SolidFlash) : DemoFlash := mkFlash (cells f) 1.

#[export] Instance solid_flash : FlashOps SolidFlash unit := {
  flash_at f a := flash_at (powered f) a;
  flash_write f off data :=
    let '(g, r) := flash_write (powered f) off data in (solid (segments g), r);
  flash_erase f from to :=
    let '(g, r) := flash_erase (powered f) from to in (solid (segments g), r);
}.

Lemma solid_bytes f off n : flash_bytes f off n = flash_bytes (powered f) off n.
Proof. reflexivity. Qed.

(** A flash is read by its segments alone. *)
Lemma powered_bytes g off n : flash_bytes (powered (solid (segments g))) off n = flash_bytes g off n.
Proof. reflexivity. Qed.

Lemma solid_write f off data f' r :
  flash_write f off data = (f', r) → ∃ g, flash_write (powered f) off data = (g, r) ∧ f' = solid (segments g).
Proof.
  cbn [flash_write solid_flash]. destruct (flash_write (powered f) off data) as [g r0]. intros [= <- <-]. by exists g.
Qed.

Lemma solid_erase f from to f' r :
  flash_erase f from to = (f', r) → ∃ g, flash_erase (powered f) from to = (g, r) ∧ f' = solid (segments g).
Proof.
  cbn [flash_erase solid_flash]. destruct (flash_erase (powered f) from to) as [g r0]. intros [= <- <-]. by exists g.
Qed.

#[export] Instance solid_flash_laws : FlashLaws SolidFlash unit.
Proof.
  split.
  - intros f a. apply segments_u8.
  - intros f off data f' r a Hw Ha. apply solid_write in Hw as (g & Hw & ->). exact (write_outside _ _ _ _ _ a Hw Ha).
  - intros f from to f' r a He Ha. apply solid_erase in He as (g & He & ->). exact (erase_outside _ _ _ _ _ a He Ha).
  - intros f from to f' a He Ha. apply solid_erase in He as (g & He & ->). exact (erase_ok _ _ _ _ a He Ha).
  - intros f k rec f' Hk He Hw. apply solid_write in Hw as (g & Hw & ->). exact (record_written (powered f) k rec g Hk He Hw).
  - intros f k rec f' r Hk Hr He Hw. apply solid_write in Hw as (g & Hw & ->).
    exact (record_torn (powered f) k rec g r Hk Hr He Hw).
  - intros f f' r He Hr. apply solid_erase in He as (g & He & ->). exact (erase_torn (powered f) g r He Hr).
Defined.

#[export] Instance solid_flash_writes : FlashWrites SolidFlash unit.
Proof.
  split. intros f off data f' Hw. apply solid_write in Hw as (g & Hw & ->). exact (write_done _ _ _ _ Hw).
Defined.

#[export] Instance solid_flash_works : FlashWorks SolidFlash unit.
Proof.
  split.
  - intros f off data _ _ _ _ Hb _. cbn [flash_write solid_flash demo_flash powered].
    assert (forallb (λ b, (0 <=? b) && (b <? 256)) data = true) as ->; [|by eexists].
    apply forallb_forall. intros b Hin. rewrite List.Forall_forall in Hb. specialize (Hb b Hin).
    unfold is_uint in Hb. lia.
  - intros f from to _ _ _ _ _. by eexists.
Defined.

(** ** Runs *)

(** An image of two chunks. *)
Definition long_image : list Z := demo_image ++ replicate 292 7.

(** A node that runs the image of an earlier update. *)
Definition running_on {F E} `{FlashOps F E} (f : F) : machine F :=
  match machine_run (Dead f) demo_update with Ret m => m | Panic => Dead f end.

Definition running : machine DemoFlash := running_on (FwDemo.fresh 40).

(** The bench after an update, and what the client reports. *)
Definition after (faults : list fault) (corrupt : bool)
    : Bench DemoFlash * result unit (Host.HostError BenchError) :=
  match Host.flash NODE_ID long_image Host.Firmware false corrupt (mkBench running 0 faults) with
  | Host.Done r => r
  | _ => (mkBench running 0 [], Err Host.ImageTooSmall)
  end.

(** A lost connection is tried again; a lost chunk, a power cycle between the
    chunks and a corrupted image are reported. *)
Example updates :
  snd (after [] false) = Ok tt ∧
  snd (after [Lost; Lost] false) = Ok tt ∧
  snd (after (replicate 14 Quiet ++ [Lost]) false) = Err (Host.ChunkFailed 0 NoAnswer) ∧
  snd (after (replicate 15 Quiet ++ [Cycle]) false) = Err (Host.ChunkFailed 1 (Aborted HardwareError)) ∧
  snd (after [] true) = Err (Host.ValidationFailed ST_ERROR).
Proof. vm_compute. repeat split. Qed.

(** ** The theorems at work *)

Lemma demo_update_ok : Forall op_ok demo_update.
Proof.
  repeat (apply List.Forall_cons; [first [exact Logic.I|by apply (bool_decide_unpack _)]|]). apply List.Forall_nil.
Qed.

Lemma long_image_bytes : bytes long_image.
Proof. by apply (bool_decide_unpack _). Qed.

Lemma running_history : machine_run (Dead (FwDemo.fresh 40)) demo_update = Ret running.
Proof. vm_compute. reflexivity. Qed.

Definition updated : Bench DemoFlash := fst (after [Lost] false).

Lemma updated_run :
  Host.flash NODE_ID long_image Host.Firmware false false (mkBench running 0 [Lost]) = Host.Done (updated, Ok tt).
Proof. vm_compute. reflexivity. Qed.

Lemma success_installs_image_witness :
  unprogrammed (FwDemo.fresh 40) ∧ Forall op_ok demo_update ∧ bytes long_image ∧
  Host.Firmware = Host.Firmware ∧ ∃ sent,
    Ret long_image = Ret sent ∧ crc32 sent = crc32 long_image ∧
    flash_bytes (flash_of (board updated)) APP_OFFSET (len sent) = sent ∧ boots (flash_of (board updated)) = true ∧
    (false = false → ∃ f, board updated = Application f).
Proof.
  split; [exact (fresh_unprogrammed 40)|]. split; [exact demo_update_ok|]. split; [exact long_image_bytes|].
  exact (success_installs_image (FwDemo.fresh 40) demo_update running 0 [Lost] NODE_ID long_image Host.Firmware
    false false updated (fresh_unprogrammed 40) demo_update_ok running_history long_image_bytes updated_run).
Defined.

(** The same node on the flash that never fails. *)
Definition blank_solid : SolidFlash := solid [].

Lemma solid_unprogrammed : unprogrammed blank_solid.
Proof. intros k Hk. exact (fresh_unprogrammed 1 k Hk). Qed.

Definition running_solid : machine SolidFlash := running_on blank_solid.

Lemma solid_history : machine_run (Dead blank_solid) demo_update = Ret running_solid.
Proof. vm_compute. reflexivity. Qed.

Definition is_off {F} (m : machine F) : bool := match m with Dead _ => true | _ => false end.

Lemma solid_on f : running_solid ≠ Dead f.
Proof.
  assert (is_off running_solid = false) as Hoff by (vm_compute; reflexivity). intros Hf.
  apply (f_equal is_off) in Hf. pose proof (eq_trans (eq_sym Hoff) Hf) as Hne. discriminate Hne.
Qed.

Lemma long_image_boots : bootable long_image = true.
Proof. vm_compute. reflexivity. Qed.

Lemma undisturbed_update_succeeds_witness :
  unprogrammed blank_solid ∧ Forall op_ok demo_update ∧ bytes long_image ∧ bootable long_image = true ∧
  ∃ b, Host.flash NODE_ID long_image Host.Firmware false false (mkBench running_solid 0 []) = Host.Done (b, Ok tt) ∧
    board b = Application (flash_of (board b)).
Proof.
  split; [exact solid_unprogrammed|]. split; [exact demo_update_ok|]. split; [exact long_image_bytes|].
  split; [exact long_image_boots|].
  exact (undisturbed_update_succeeds blank_solid demo_update running_solid 0 long_image solid_unprogrammed
    demo_update_ok solid_history solid_on long_image_bytes long_image_boots).
Defined.
