(* ===== verification/Bus.v ===== *)
(** * The shared CAN bus

    [canopen-core/src/bus.rs]: subscriptions with their own bounded queue,
    filter and overflow policy, the transmit queue, and the pump between them
    and the transport.  Each region under a lock is one function; a waker is
    the number of its task.  The bus keeps its subscriptions in the order of
    [subs]; [alive] is whether the [Subscription] still exists, and [sub_id]
    the identity of the shared allocation. *)
From S2P Require Import Prelude Frame Nb.

(** ** Wakers *)

Module WakerSet.

Definition register (wakers : list nat) (w : nat) : list nat :=
  if existsb (Nat.eqb w) wakers then wakers else wakers ++ [w].

(** What is taken, and what is left. *)
Definition take (wakers : list nat) : list nat * list nat := (wakers, []).

End WakerSet.

(** ** Subscriptions *)

Inductive OverflowPolicy := DropOldest | DropNewest.

Record Subscription := mkSub {
  sub_id : nat;
  alive : bool;
  queue : list CanFrame;
  rx_wakers : list nat;
  capacity : Z;
  policy : OverflowPolicy;
  overflow : Z;
  filter : option (CanFrame → bool);
}.

Module Subscription.

Definition with_queue (s : Subscription) (q : list CanFrame) : Subscription :=
  mkSub (sub_id s) (alive s) q (rx_wakers s) (capacity s) (policy s) (overflow s) (filter s).
Definition with_wakers (s : Subscription) (ws : list nat) : Subscription :=
  mkSub (sub_id s) (alive s) (queue s) ws (capacity s) (policy s) (overflow s) (filter s).
Definition with_overflow (s : Subscription) (n : Z) : Subscription :=
  mkSub (sub_id s) (alive s) (queue s) (rx_wakers s) (capacity s) (policy s) n (filter s).

(** The region of [push] under the queue lock; [true] when the wakers are to be
    taken afterwards. *)
Definition push_queue (s : Subscription) (frame : CanFrame) : Subscription * bool :=
  if capacity s <=? len (queue s) then
    let s := with_overflow s (as_u64 (overflow s + 1)) in
    match policy s with
    | DropOldest => (with_queue s (tail (queue s) ++ [frame]), true)
    | DropNewest => (s, false)
    end
  else (with_queue s (queue s ++ [frame]), true).

Definition push (s : Subscription) (frame : CanFrame) : Subscription * list nat :=
  match push_queue s frame with
  | (s, true) => let (woken, rest) := WakerSet.take (rx_wakers s) in (with_wakers s rest, woken)
  | (s, false) => (s, [])
  end.

Definition try_recv (s : Subscription) : Subscription * option CanFrame :=
  let (o, q) := Mailbox.pop_front (queue s) in (with_queue s q, o).

Definition take_overflow_count (s : Subscription) : Subscription * Z := (with_overflow s 0, overflow s).

Definition is_empty (s : Subscription) : bool := len (queue s) =? 0.

Definition accepts (s : Subscription) (frame : CanFrame) : bool :=
  match filter s with Some f => f frame | None => true end.

End Subscription.

(** ** The bus *)

Record SharedCanBus := mkBus { subs : list Subscription; next_id : nat }.

Module SharedCanBus.

Definition new : SharedCanBus := mkBus [] 0.

Definition subscribe_with (b : SharedCanBus) (capacity : Z) (policy : OverflowPolicy)
    (filter : option (CanFrame → bool)) : exec (SharedCanBus * nat) :=
  _ ← assert_ (0 <? capacity);
  mret (mkBus (subs b ++ [mkSub (next_id b) true [] [] capacity policy 0 filter]) (S (next_id b)),
        next_id b).

Definition subscribe (b : SharedCanBus) (capacity : Z) : exec (SharedCanBus * nat) :=
  subscribe_with b capacity DropOldest None.

Definition subscribe_filtered (b : SharedCanBus) (capacity : Z) (filter : CanFrame → bool)
    : exec (SharedCanBus * nat) :=
  subscribe_with b capacity DropOldest (Some filter).

(** [retain] over the subscriptions: the rest, and the wakers to wake. *)
Fixpoint publish_loop (l : list Subscription) (frame : CanFrame) : list Subscription * list nat :=
  match l with
  | [] => ([], [])
  | s :: l =>
      if alive s then
        let (s, woken) := if Subscription.accepts s frame then Subscription.push s frame else (s, []) in
        let (l, rest) := publish_loop l frame in (s :: l, woken ++ rest)
      else publish_loop l frame
  end.

Definition publish (b : SharedCanBus) (frame : CanFrame) : SharedCanBus * list nat :=
  let (l, woken) := publish_loop (subs b) frame in (mkBus l (next_id b), woken).

Definition subscriber_count (b : SharedCanBus) : SharedCanBus * Z :=
  let l := List.filter alive (subs b) in (mkBus l (next_id b), len l).

(** An operation of the holder of subscription [i]. *)
Fixpoint on_list {A} (l : list Subscription) (i : nat) (f : Subscription → Subscription * A)
    : list Subscription * option A :=
  match l with
  | [] => ([], None)
  | s :: l =>
      if (sub_id s =? i)%nat then let (s, a) := f s in (s :: l, Some a)
      else let (l, a) := on_list l i f in (s :: l, a)
  end.

Definition on_sub {A} (b : SharedCanBus) (i : nat) (f : Subscription → Subscription * A)
    : SharedCanBus * option A :=
  let (l, a) := on_list (subs b) i f in (mkBus l (next_id b), a).

(** [Drop] of a [Subscription]. *)
Definition unsubscribe (s : Subscription) : Subscription * unit :=
  (mkSub (sub_id s) false (queue s) (rx_wakers s) (capacity s) (policy s) (overflow s) (filter s), tt).

End SharedCanBus.

(** ** The transmit queue *)

Record TxQueue := mkTx { tx_frames : list CanFrame; tx_capacity : Z; space_wakers : list nat }.

Module TxQueue.

Definition new (capacity : Z) : exec TxQueue :=
  _ ← assert_ (0 <? capacity);
  mret (mkTx [] capacity []).

Definition try_send (t : TxQueue) (frame : CanFrame) : TxQueue * bool :=
  if tx_capacity t <=? len (tx_frames t) then (t, false)
  else (mkTx (tx_frames t ++ [frame]) (tx_capacity t) (space_wakers t), true).

(** The region of [try_pop] under the queue lock. *)
Definition pop_queue (t : TxQueue) : TxQueue * option CanFrame :=
  let (o, q) := Mailbox.pop_front (tx_frames t) in (mkTx q (tx_capacity t) (space_wakers t), o).

(** With the wakers to wake. *)
Definition try_pop (t : TxQueue) : TxQueue * option CanFrame * list nat :=
  match pop_queue t with
  | (t, Some f) =>
      let (woken, rest) := WakerSet.take (space_wakers t) in
      (mkTx (tx_frames t) (tx_capacity t) rest, Some f, woken)
  | (t, None) => (t, None, [])
  end.

End TxQueue.

(** ** The pump *)

Inductive PumpError := Transport (e : CanError) | TxStuck.

Definition TX_STUCK_TIMEOUT : Z := 500000.

Section pump.
Context {S : Type} `{Can S}.

Record Pump := mkPump { transport : S; pbus : SharedCanBus; tx : TxQueue }.

(** Drain everything pending; [None] when [fuel] receptions do not suffice. *)
Fixpoint pump_rx (fuel : nat) (p : Pump) (busy : bool) : option (Pump * result bool PumpError) :=
  match fuel with
  | O => None
  | Datatypes.S fuel =>
      match receive (transport p) with
      | (t, Ok frame) => pump_rx fuel (mkPump t (fst (SharedCanBus.publish (pbus p) frame)) (tx p)) true
      | (t, Err WouldBlock) => Some (mkPump t (pbus p) (tx p), Ok busy)
      | (t, Err (Other e)) => Some (mkPump t (pbus p) (tx p), Err (Transport e))
      end
  end.

(** The retry loop for one frame.  [clock] is the sequence of its readings of
    the time in microseconds, one per refusal; [None] when it ends early. *)
Fixpoint pump_send (clock : list Z) (deadline : Z) (t : S) (frame : CanFrame)
    : option (S * list Z * result unit PumpError) :=
  match transmit t frame with
  | (t, Ok _) => Some (t, clock, Ok tt)
  | (t, Err (Other e)) => Some (t, clock, Err (Transport e))
  | (t, Err WouldBlock) =>
      match clock with
      | [] => None
      | now :: clock =>
          if now <? deadline then pump_send clock deadline t frame else Some (t, clock, Err TxStuck)
      end
  end.

(** The loop over the transmit queue; each frame starts with a reading of the
    time.  Also the frames popped. *)
Fixpoint pump_tx (fuel : nat) (clock : list Z) (p : Pump) (busy : bool) (popped : list CanFrame)
    : option (Pump * list Z * list CanFrame * result bool PumpError) :=
  match fuel with
  | O => None
  | Datatypes.S fuel =>
      match TxQueue.try_pop (tx p) with
      | (q, None, _) => Some (mkPump (transport p) (pbus p) q, clock, popped, Ok busy)
      | (q, Some frame, _) =>
          match clock with
          | [] => None
          | now :: clock =>
              match pump_send clock (now + TX_STUCK_TIMEOUT) (transport p) frame with
              | None => None
              | Some (t, clock, Err e) => Some (mkPump t (pbus p) q, clock, popped ++ [frame], Err e)
              | Some (t, clock, Ok _) => pump_tx fuel clock (mkPump t (pbus p) q) true (popped ++ [frame])
              end
          end
      end
  end.

(** One round of the loop of [run_pump]; [Ok false] is followed by the idle
    sleep. *)
Definition pump_round (fuel : nat) (clock : list Z) (p : Pump)
    : option (Pump * list Z * result bool PumpError) :=
  match pump_rx fuel p false with
  | None => None
  | Some (p, Err e) => Some (p, clock, Err e)
  | Some (p, Ok busy) =>
      match pump_tx fuel clock p busy [] with
      | None => None
      | Some (p, clock, _, r) => Some (p, clock, r)
      end
  end.

(** [stop] is the sequence of the readings of the stop flag. *)
Fixpoint run_pump (fuel : nat) (stop : list bool) (clock : list Z) (p : Pump)
    : option (Pump * result unit PumpError) :=
  match stop with
  | [] => None
  | true :: _ => Some (p, Ok tt)
  | false :: stop =>
      match pump_round fuel clock p with
      | None => None
      | Some (p, _, Err e) => Some (p, Err e)
      | Some (p, clock, Ok _) => run_pump fuel stop clock p
      end
  end.
End pump.
Arguments Pump S : clear implicits.

(** ** What a subscription receives *)

Definition find_sub (b : SharedCanBus) (i : nat) : option Subscription :=
  List.find (λ s, (sub_id s =? i)%nat) (subs b).

Inductive bus_op :=
| Publish (f : CanFrame)
| Subscribe (capacity : Z) (policy : OverflowPolicy) (filter : option (CanFrame → bool))
| Unsubscribe (i : nat)
| TryRecv (i : nat)
| TakeOverflow (i : nat)
| Count.

(** What the users of the subscriptions get back. *)
Inductive bus_out := Received (i : nat) (f : CanFrame) | Lost (i : nat) (n : Z).

Definition bus_step (b : SharedCanBus) (op : bus_op) : exec (SharedCanBus * list bus_out) :=
  match op with
  | Publish f => mret (fst (SharedCanBus.publish b f), [])
  | Subscribe c p f => q ← SharedCanBus.subscribe_with b c p f; mret (fst q, [])
  | Unsubscribe i => mret (fst (SharedCanBus.on_sub b i SharedCanBus.unsubscribe), [])
  | TryRecv i =>
      mret (match SharedCanBus.on_sub b i Subscription.try_recv with
            | (b, Some (Some f)) => (b, [Received i f])
            | (b, _) => (b, [])
            end)
  | TakeOverflow i =>
      mret (match SharedCanBus.on_sub b i Subscription.take_overflow_count with
            | (b, Some n) => (b, [Lost i n])
            | (b, None) => (b, [])
            end)
  | Count => mret (fst (SharedCanBus.subscriber_count b), [])
  end.

Fixpoint bus_run (b : SharedCanBus) (ops : list bus_op) : exec (SharedCanBus * list bus_out) :=
  match ops with
  | [] => mret (b, [])
  | op :: ops =>
      q ← bus_step b op;
      r ← bus_run (fst q) ops;
      mret (fst r, snd q ++ snd r)
  end.

(** Every operation but the end of subscription [i], which it must not panic. *)
Definition op_ok (i : nat) (op : bus_op) : Prop :=
  match op with
  | Unsubscribe j => i ≠ j
  | Subscribe c _ _ => 0 < c
  | _ => True
  end.

(** *** One subscription of the bus *)

Lemma find_publish_loop l frame i s :
  List.find (λ s, (sub_id s =? i)%nat) l = Some s → alive s = true →
  List.find (λ s, (sub_id s =? i)%nat) (fst (SharedCanBus.publish_loop l frame))
  = Some (if Subscription.accepts s frame then fst (Subscription.push s frame) else s).
Proof.
  assert (∀ s f, sub_id (fst (Subscription.push s f)) = sub_id s) as Hid.
  { intros s' f. unfold Subscription.push, Subscription.push_queue.
    cbv zeta. destruct (_ <=? _); [cbn [policy Subscription.with_overflow]; destruct (policy s')|]; done. }
  induction l as [|x l IH]; cbn [List.find SharedCanBus.publish_loop]; [done|].
  intros Hf Ha. destruct (sub_id x =? i)%nat eqn:E.
  - injection Hf as ->. rewrite Ha. specialize (Hid s frame).
    destruct (Subscription.accepts s frame).
    + revert Hid. destruct (Subscription.push s frame) as [s1 w]. intros Hid. destruct (SharedCanBus.publish_loop l frame).
      cbn [fst] in *. cbn [List.find]. by rewrite Hid, E.
    + destruct (SharedCanBus.publish_loop l frame). cbn [fst List.find]. by rewrite E.
  - specialize (IH Hf Ha). destruct (alive x); [|done]. specialize (Hid x frame).
    destruct (Subscription.accepts x frame).
    + revert Hid IH. destruct (Subscription.push x frame) as [s1 w], (SharedCanBus.publish_loop l frame). intros Hid IH.
      cbn [fst] in *. cbn [List.find]. by rewrite Hid, E.
    + revert IH. destruct (SharedCanBus.publish_loop l frame). intros IH. cbn [fst] in *. cbn [List.find]. by rewrite E.
Qed.

Lemma find_publish b frame i s :
  find_sub b i = Some s → alive s = true →
  find_sub (fst (SharedCanBus.publish b frame)) i
  = Some (if Subscription.accepts s frame then fst (Subscription.push s frame) else s).
Proof.
  intros Hf Ha. pose proof (find_publish_loop _ frame _ _ Hf Ha) as H. revert H.
  unfold SharedCanBus.publish, find_sub. by destruct (SharedCanBus.publish_loop (subs b) frame).
Qed.

Lemma find_on_sub {A} b i j s (f : Subscription → Subscription * A) :
  (∀ s, sub_id (fst (f s)) = sub_id s) → find_sub b i = Some s →
  find_sub (fst (SharedCanBus.on_sub b j f)) i = Some (if decide (i = j) then fst (f s) else s) ∧
  (i = j → snd (SharedCanBus.on_sub b j f) = Some (snd (f s))).
Proof.
  intros Hid. unfold find_sub, SharedCanBus.on_sub. destruct b as [l nx]. cbn [subs next_id].
  induction l as [|x l IH]; cbn [List.find SharedCanBus.on_list]; [done|]. intros Hf.
  destruct (Nat.eqb_spec (sub_id x) j) as [Hj|Hj].
  - pose proof (Hid x) as Hx. destruct (f x) as [x' a] eqn:Ef. cbn [fst snd subs List.find] in *.
    rewrite Hx. destruct (Nat.eqb_spec (sub_id x) i) as [Hi|Hi].
    + injection Hf as <-. rewrite decide_True by congruence. by rewrite Ef.
    + rewrite decide_False by congruence. split; [done|congruence].
  - destruct (SharedCanBus.on_list l j f) as [l' a]. cbn [fst snd subs List.find] in *.
    destruct (Nat.eqb_spec (sub_id x) i) as [Hi|Hi].
    + injection Hf as <-. rewrite decide_False by congruence. split; [done|congruence].
    + by apply IH.
Qed.

Lemma find_filter_alive b i s :
  find_sub b i = Some s → alive s = true → find_sub (fst (SharedCanBus.subscriber_count b)) i = Some s.
Proof.
  unfold find_sub, SharedCanBus.subscriber_count. cbn [fst subs].
  induction (subs b) as [|x l IH]; cbn [List.find List.filter]; [done|]. intros Hf Ha.
  destruct (sub_id x =? i)%nat eqn:E.
  - injection Hf as ->. rewrite Ha. cbn [List.find]. by rewrite E.
  - destruct (alive x); [|by apply IH]. cbn [List.find]. rewrite E. by apply IH.
Qed.

Lemma find_app_some {A} (f : A → bool) l k x : List.find f l = Some x → List.find f (l ++ k) = Some x.
Proof. induction l as [|y l IH]; cbn [List.find app]; [done|]. by destruct (f y). Qed.

(** *** Accounting *)

Definition published (ops : list bus_op) : list CanFrame :=
  omap (λ op, match op with Publish f => Some f | _ => None end) ops.

Definition received_by (i : nat) (outs : list bus_out) : list CanFrame :=
  omap (λ o, match o with Received j f => if decide (i = j) then Some f else None | Lost _ _ => None end) outs.

Fixpoint lost_by (i : nat) (outs : list bus_out) : Z :=
  match outs with
  | [] => 0
  | Lost j n :: outs => (if decide (i = j) then n else 0) + lost_by i outs
  | Received _ _ :: outs => lost_by i outs
  end.

(** Of the frames [accepted] for a subscription, [received] were delivered and
    [lost] dropped, of which [taken] have been reported. *)
Definition delivered (accepted received : list CanFrame) (taken : Z) (s : Subscription) : Prop :=
  ∃ lost, 0 ≤ lost ∧ sublist (received ++ queue s) accepted ∧
    len accepted = len received + len (queue s) + lost ∧
    len (queue s) ≤ capacity s ∧
    as_u64 (overflow s + taken) = as_u64 lost ∧
    (policy s = DropOldest → queue s `suffix_of` accepted).

(** What stays of a subscription. *)
Definition same_sub (s s' : Subscription) : Prop :=
  alive s' = alive s ∧ capacity s' = capacity s ∧ policy s' = policy s ∧ filter s' = filter s.

Lemma as_u64_succ a b t : as_u64 (a + t) = as_u64 b → as_u64 (as_u64 (a + 1) + t) = as_u64 (b + 1).
Proof.
  unfold wrap. intros H. rewrite Zplus_mod_idemp_l.
  replace (a + 1 + t) with (a + t + 1) by lia. by rewrite Zplus_mod, H, <- Zplus_mod.
Qed.

Ltac sub_cbn :=
  cbn [fst snd tail queue capacity overflow policy filter alive sub_id rx_wakers option_list
       Subscription.with_wakers Subscription.with_queue Subscription.with_overflow length].

Lemma push_delivered accepted received taken s f :
  0 < capacity s → delivered accepted received taken s →
  delivered (accepted ++ [f]) received taken (fst (Subscription.push s f)) ∧
  same_sub s (fst (Subscription.push s f)).
Proof.
  intros Hc (lost & Hl & Hsub & Hlen & Hcap & Hov & Hsuf).
  unfold Subscription.push, Subscription.push_queue, WakerSet.take, delivered. cbv zeta. sub_cbn.
  rewrite length_app. cbn [length].
  destruct (Z.leb_spec (capacity s) (len (queue s))) as [Hfull|Hroom].
  - destruct (policy s) eqn:Hp; sub_cbn; (split; [|by split_and!]); exists (lost + 1).
    + destruct (queue s) as [|x q] eqn:Hq; [cbn [length] in *; lia|]. sub_cbn.
      rewrite length_app. cbn [length] in *. split; [lia|]. split.
      { rewrite app_assoc. apply sublist_app; [|done].
        etrans; [|exact Hsub]. apply sublist_app; [done|]. by apply sublist_cons. }
      split; [lia|]. split; [lia|]. split; [by apply as_u64_succ|].
      intros _. destruct (Hsuf eq_refl) as [k ->]. exists (k ++ [x]). by rewrite <- !app_assoc.
    + split; [lia|]. split; [by apply sublist_inserts_r|]. split; [lia|]. split; [lia|].
      split; [by apply as_u64_succ|]. by rewrite Hp.
  - sub_cbn. split; [|by split_and!]. exists lost. rewrite length_app. cbn [length].
    split; [lia|]. split; [rewrite app_assoc; by apply sublist_app|]. split; [lia|]. split; [lia|].
    split; [done|]. intros Hp. destruct (Hsuf Hp) as [k ->]. exists k. by rewrite <- app_assoc.
Qed.

Lemma recv_delivered accepted received taken s :
  delivered accepted received taken s →
  delivered accepted (received ++ option_list (snd (Subscription.try_recv s))) taken (fst (Subscription.try_recv s)) ∧
  same_sub s (fst (Subscription.try_recv s)).
Proof.
  intros (lost & Hl & Hsub & Hlen & Hcap & Hov & Hsuf). unfold Subscription.try_recv, delivered.
  destruct (queue s) as [|x q] eqn:Hq; cbn [Mailbox.pop_front]; sub_cbn; (split; [|by split_and!]); exists lost.
  - rewrite !app_nil_r in *. cbn [length] in *. split; [done|]. by split_and!.
  - change (option_list (Some x)) with [x].
    rewrite <- app_assoc, length_app. cbn [length app] in *. split; [done|]. split; [done|].
    split; [lia|].
    split; [lia|]. split; [done|]. intros Hp. destruct (Hsuf Hp) as [k ->]. exists (k ++ [x]). by rewrite <- app_assoc.
Qed.

Lemma taken_delivered accepted received taken s :
  delivered accepted received taken s →
  delivered accepted received (taken + overflow s) (fst (Subscription.take_overflow_count s)) ∧
  same_sub s (fst (Subscription.take_overflow_count s)).
Proof.
  intros (lost & Hl & Hsub & Hlen & Hcap & Hov & Hsuf).
  unfold delivered, Subscription.take_overflow_count. sub_cbn.
  split; [|by split_and!]. exists lost.
  split; [done|]. split; [done|]. split; [done|]. split; [done|]. split; [|done].
  rewrite <- Hov. by replace (0 + (taken + overflow s)) with (overflow s + taken) by lia.
Qed.

Lemma received_by_app i a b : received_by i (a ++ b) = received_by i a ++ received_by i b.
Proof. apply omap_app. Qed.

Lemma lost_by_app i a b : lost_by i (a ++ b) = lost_by i a + lost_by i b.
Proof.
  induction a as [|[j f|j n] a IH]; cbn [app lost_by]; [done|done|]. rewrite IH. lia.
Qed.

Lemma same_sub_refl s : same_sub s s.
Proof. done. Qed.

Lemma same_sub_trans s1 s2 s3 : same_sub s1 s2 → same_sub s2 s3 → same_sub s1 s3.
Proof. unfold same_sub. intros (-> & -> & -> & ->) (-> & -> & -> & ->). done. Qed.

Lemma accepts_same s s' f : same_sub s s' → Subscription.accepts s' f = Subscription.accepts s f.
Proof. intros (_ & _ & _ & Hf). unfold Subscription.accepts. by rewrite Hf. Qed.

(** One operation, seen from subscription [i]. *)
Lemma bus_step_delivered b op i s accepted received taken :
  op_ok i op → find_sub b i = Some s → alive s = true → 0 < capacity s →
  delivered accepted received taken s →
  runs (bus_step b op) (λ '(b', outs), ∃ s',
    find_sub b' i = Some s' ∧ same_sub s s' ∧
    delivered (accepted ++ List.filter (Subscription.accepts s) (published [op]))
      (received ++ received_by i outs) (taken + lost_by i outs) s').
Proof.
  intros Hop Hf Ha Hc Hd.
  destruct op as [f|c p fl|j|j|j|]; cbn [bus_step published omap list_omap List.filter]; rstep.
  - exists (if Subscription.accepts s f then fst (Subscription.push s f) else s).
    split; [by apply find_publish|]. rewrite app_nil_r, Z.add_0_r.
    destruct (Subscription.accepts s f); [|by rewrite app_nil_r].
    destruct (push_delivered accepted received taken s f Hc Hd) as [? ?]. by split.
  - unfold SharedCanBus.subscribe_with, assert_. rewrite (proj2 (Z.ltb_lt 0 c) Hop). rstep.
    exists s. split; [by apply find_app_some|]. split; [done|]. by rewrite !app_nil_r, Z.add_0_r.
  - exists s. destruct (find_on_sub b i j s SharedCanBus.unsubscribe) as [Hs _]; [done..|].
    rewrite decide_False in Hs by done. split; [done|]. split; [done|]. by rewrite !app_nil_r, Z.add_0_r.
  - destruct (find_on_sub b i j s Subscription.try_recv) as [Hs Hr]; [|done|].
    { intros s0. unfold Subscription.try_recv. by destruct (Mailbox.pop_front _). }
    rewrite app_nil_r. destruct (SharedCanBus.on_sub b j Subscription.try_recv) as [b' o]. cbn [fst snd] in *.
    destruct (decide (i = j)) as [<-|Hij].
    + specialize (Hr eq_refl) as ->. destruct (recv_delivered _ _ _ _ Hd) as [Hd' Hs'].
      destruct (snd (Subscription.try_recv s)) as [f|]; rstep; eexists; (split; [exact Hs|]); (split; [done|]).
      * cbn [received_by omap list_omap lost_by]. rewrite decide_True by done. by rewrite Z.add_0_r.
      * cbn [lost_by]. by rewrite Z.add_0_r.
    + destruct o as [[f|]|]; rstep; eexists; (split; [exact Hs|]); (split; [done|]);
        cbn [received_by omap list_omap lost_by]; rewrite ?decide_False by done; by rewrite app_nil_r, Z.add_0_r.
  - destruct (find_on_sub b i j s Subscription.take_overflow_count) as [Hs Hr]; [done..|].
    rewrite app_nil_r. destruct (SharedCanBus.on_sub b j Subscription.take_overflow_count) as [b' o]. cbn [fst snd] in *.
    destruct (decide (i = j)) as [<-|Hij].
    + specialize (Hr eq_refl) as ->. destruct (taken_delivered _ _ _ _ Hd) as [Hd' Hs'].
      rstep. eexists. split; [exact Hs|]. split; [done|].
      cbn [received_by omap list_omap lost_by]. rewrite decide_True by done. rewrite app_nil_r, Z.add_0_r. exact Hd'.
    + destruct o as [n|]; rstep; eexists; (split; [exact Hs|]); (split; [done|]);
        cbn [received_by omap list_omap lost_by]; rewrite ?decide_False by done; by rewrite app_nil_r, ?Z.add_0_r.
  - exists s. split; [by apply find_filter_alive|]. split; [done|]. by rewrite !app_nil_r, Z.add_0_r.
Qed.

Lemma sublist_same_length {A} (l k : list A) : sublist l k → (length k ≤ length l)%nat → l = k.
Proof.
  induction 1 as [|x l k _ IH|x l k Hs _]; cbn [length]; intros Hl; [done| |].
  - f_equal. apply IH. lia.
  - apply sublist_length in Hs. lia.
Qed.

Lemma filter_same s s' l : same_sub s s' →
  List.filter (Subscription.accepts s') l = List.filter (Subscription.accepts s) l.
Proof. intros Hs. apply filter_ext. intros f. by apply accepts_same. Qed.

Lemma bus_run_delivered ops b i s accepted received taken :
  Forall (op_ok i) ops → find_sub b i = Some s → alive s = true → 0 < capacity s →
  delivered accepted received taken s →
  runs (bus_run b ops) (λ '(b', outs), ∃ s',
    find_sub b' i = Some s' ∧ same_sub s s' ∧
    delivered (accepted ++ List.filter (Subscription.accepts s) (published ops))
      (received ++ received_by i outs) (taken + lost_by i outs) s').
Proof.
  intros Hops. revert b s accepted received taken.
  induction Hops as [|op ops Hop _ IH]; intros b s accepted received taken Hf Ha Hc Hd; cbn [bus_run].
  - rstep. exists s. split; [done|]. split; [done|].
    cbn [published received_by omap list_omap List.filter lost_by]. by rewrite !app_nil_r, Z.add_0_r.
  - eapply runs_bind; [by apply (bus_step_delivered b op i s accepted received taken)|].
    intros [b1 outs1] (s1 & Hf1 & Hs1 & Hd1). cbn [fst snd].
    pose proof Hs1 as (Ha1 & Hc1 & _).
    eapply runs_bind; [eapply IH; [exact Hf1|by rewrite Ha1|by rewrite Hc1|exact Hd1]|].
    intros [b2 outs2] (s2 & Hf2 & Hs2 & Hd2). rstep. exists s2. split; [exact Hf2|].
    split; [by eapply same_sub_trans|].
    rewrite (filter_same s s1) in Hd2 by done. rewrite received_by_app, lost_by_app.
    rewrite <- app_assoc in Hd2. rewrite <- app_assoc in Hd2. rewrite <- Z.add_assoc in Hd2.
    change (published (op :: ops)) with (published ([op] ++ ops)). unfold published at 1. rewrite omap_app, List.filter_app.
    exact Hd2.
Qed.

(** C22. Delivery on the shared bus: whatever is published, received, subscribed
    and dropped around it, a fresh subscription gets the frames its filter
    accepts in publish order, each at most once, every one it does not get or
    still holds is counted as lost, its queue keeps its bound, and with
    [DropOldest] it holds the most recent ones. *)
Theorem bus_delivery ops b i s :
  Forall (op_ok i) ops → find_sub b i = Some s → alive s = true → 0 < capacity s →
  queue s = [] → overflow s = 0 →
  runs (bus_run b ops) (λ '(b', outs),
    let accepted := List.filter (Subscription.accepts s) (published ops) in
    let received := received_by i outs in
    ∃ s' lost, find_sub b' i = Some s' ∧ 0 ≤ lost ∧
      sublist (received ++ queue s') accepted ∧
      len accepted = len received + len (queue s') + lost ∧
      len (queue s') ≤ capacity s ∧
      as_u64 (overflow s' + lost_by i outs) = as_u64 lost ∧
      (policy s = DropOldest → queue s' `suffix_of` accepted) ∧
      (lost = 0 → received ++ queue s' = accepted)).
Proof.
  intros Hops Hf Ha Hc Hq Ho. eapply runs_mono.
  - apply (bus_run_delivered ops b i s [] [] 0); [done..|].
    exists 0. rewrite Hq, Ho. cbn [length app]. split; [done|]. split; [constructor|].
    split; [done|]. split; [lia|]. split; [done|]. intros _. by exists [].
  - intros [b' outs] (s' & Hf' & (_ & Hcap & Hpol & _) & lost & Hl & Hsub & Hlen & Hb & Hov & Hsuf).
    cbn [app] in *. exists s', lost. rewrite <- Hcap, <- Hpol.
    split; [done|]. split; [done|]. split; [done|]. split; [done|]. split; [done|]. split; [done|].
    split; [done|]. intros ->. apply sublist_same_length; [done|]. rewrite length_app. lia.
Qed.

Definition bus_demo_frame (id : Z) : CanFrame := mkCanFrame id 0 (zeros 8).
Definition bus_demo_sub : Subscription :=
  mkSub 0 true [] [] 2 DropOldest 0 (Some (λ f, cf_id f <? 0x200)).
Definition bus_demo : SharedCanBus := mkBus [bus_demo_sub] 1.
Definition bus_demo_ops : list bus_op :=
  [Publish (bus_demo_frame 0x181); Publish (bus_demo_frame 0x281); Subscribe 4 DropNewest None;
   Publish (bus_demo_frame 0x182); Publish (bus_demo_frame 0x183); TryRecv 0; TakeOverflow 0; TryRecv 1; Unsubscribe 1].

Lemma bus_delivery_witness :
  Forall (op_ok 0) bus_demo_ops ∧
  runs (bus_run bus_demo bus_demo_ops) (λ '(b', outs),
    let accepted := List.filter (Subscription.accepts bus_demo_sub) (published bus_demo_ops) in
    let received := received_by 0 outs in
    ∃ s' lost, find_sub b' 0 = Some s' ∧ 0 ≤ lost ∧
      sublist (received ++ queue s') accepted ∧
      len accepted = len received + len (queue s') + lost ∧
      len (queue s') ≤ capacity bus_demo_sub ∧
      as_u64 (overflow s' + lost_by 0 outs) = as_u64 lost ∧
      (policy bus_demo_sub = DropOldest → queue s' `suffix_of` accepted) ∧
      (lost = 0 → received ++ queue s' = accepted)) ∧
  runs (bus_run bus_demo bus_demo_ops) (λ '(_, outs),
    outs = [Received 0 (bus_demo_frame 0x182); Lost 0 1; Received 1 (bus_demo_frame 0x182)]).
Proof.
  assert (Forall (op_ok 0) bus_demo_ops) as H
    by (repeat (apply List.Forall_cons; [done|]); apply List.Forall_nil).
  split; [exact H|]. split; [|by vm_compute]. by apply bus_delivery.
Defined.
