(* ===== verification/BusWait.v ===== *)
(** * No lost wake-ups on the shared bus

    [Subscription::recv_async] and [TxQueue::send_async] (bus.rs) poll in three
    separately locked parts: try, register the waker, try again.  The other
    side changes the queue under its lock, takes the registered wakers in a
    second region, and wakes them later.  [step] interleaves these regions of
    any number of tasks in any order; the class [WaitQueue] is what both
    queues have in common.  [block_step] does the same for the threads that
    wait on the condition variables. *)
From stdpp Require Import relations.
From S2P Require Import Prelude Frame Nb Bus.

(** [attempt] is the critical section of the waiting side with an argument of
    type [A], [provide] that of the other side, whose result says whether it
    goes on to take the wakers. *)
Class WaitQueue (Q A R P : Type) := {
  attempt : A → Q → Q * option R;
  provide : P → Q → Q * bool;
  wakers : Q → list nat;
  set_wakers : Q → list nat → Q;
}.

Class WaitQueueLaws (Q A R P : Type) `{WaitQueue Q A R P} := {
  blocked : Q → Prop;
  attempt_fails : ∀ a q, snd (attempt a q) = None → blocked (fst (attempt a q));
  attempt_blocked : ∀ a q, blocked q → blocked (fst (attempt a q));
  provide_silent : ∀ p q, snd (provide p q) = false → blocked q → blocked (fst (provide p q));
  attempt_wakers : ∀ a q, wakers (fst (attempt a q)) = wakers q;
  provide_wakers : ∀ p q, wakers (fst (provide p q)) = wakers q;
  get_set_wakers : ∀ q ws, wakers (set_wakers q ws) = ws;
  set_blocked : ∀ q ws, blocked q → blocked (set_wakers q ws);
}.

Section interleaving.
Context {Q A R P : Type} `{WaitQueueLaws Q A R P}.

(** Where a task is in its future. *)
Inductive stage :=
| Idle
| Start (a : A)
| Checked (a : A)
| Registered (a : A)
| Parked (a : A)
| Done (r : R).

(** [takers] producers are between their two regions, [flying] are wakers
    taken and not yet woken; the executor polls a task that is [notified]. *)
Record System := mkSystem {
  sq : Q;
  takers : nat;
  flying : list nat;
  task : nat → stage;
  notified : nat → bool;
}.

Definition upd {T} (f : nat → T) (t : nat) (x : T) : nat → T := λ t', if decide (t' = t) then x else f t'.

Inductive step : System → System → Prop :=
| step_begin s t a : task s t = Idle →
    step s (mkSystem (sq s) (takers s) (flying s) (upd (task s) t (Start a)) (upd (notified s) t false))
| step_try s t a q o : task s t = Start a → attempt a (sq s) = (q, o) →
    step s (mkSystem q (takers s) (flying s)
              (upd (task s) t (match o with Some r => Done r | None => Checked a end)) (notified s))
| step_register s t a : task s t = Checked a →
    step s (mkSystem (set_wakers (sq s) (WakerSet.register (wakers (sq s)) t)) (takers s) (flying s)
              (upd (task s) t (Registered a)) (notified s))
| step_recheck s t a q o : task s t = Registered a → attempt a (sq s) = (q, o) →
    step s (mkSystem q (takers s) (flying s)
              (upd (task s) t (match o with Some r => Done r | None => Parked a end)) (notified s))
| step_repoll s t a : task s t = Parked a →
    step s (mkSystem (sq s) (takers s) (flying s) (upd (task s) t (Start a)) (upd (notified s) t false))
| step_drop s t :
    step s (mkSystem (sq s) (takers s) (flying s) (upd (task s) t Idle) (notified s))
| step_provide s p q b : provide p (sq s) = (q, b) →
    step s (mkSystem q (takers s + (if b then 1 else 0)) (flying s) (task s) (notified s))
| step_take s n : takers s = S n →
    step s (mkSystem (set_wakers (sq s) (snd (WakerSet.take (wakers (sq s))))) n
              (flying s ++ fst (WakerSet.take (wakers (sq s)))) (task s) (notified s))
| step_wake s l w k : flying s = l ++ w :: k →
    step s (mkSystem (sq s) (takers s) (l ++ k) (task s) (upd (notified s) w true)).

Definition initial (s : System) : Prop :=
  takers s = O ∧ flying s = [] ∧ ∀ t, task s t = Idle.

Definition waiting (st : stage) : Prop :=
  match st with Registered _ | Parked _ => True | _ => False end.

(** A waiting task that nobody has woken has its waker registered or on its
    way, and once parked with the waker still registered it waits for a queue
    that is blocked, or about to be announced. *)
Definition wake_inv (s : System) : Prop :=
  ∀ t, notified s t = false → waiting (task s t) → t ∉ flying s →
    t ∈ wakers (sq s) ∧ (∀ a, task s t = Parked a → blocked (sq s) ∨ (0 < takers s)%nat).

Lemma upd_same {T} (f : nat → T) t x : upd f t x t = x.
Proof. unfold upd. by rewrite decide_True. Qed.

Lemma upd_other {T} (f : nat → T) t t' x : t' ≠ t → upd f t x t' = f t'.
Proof. intros. unfold upd. by rewrite decide_False. Qed.

Lemma elem_register ws t t' : t' ∈ WakerSet.register ws t ↔ t' ∈ ws ∨ t' = t.
Proof.
  unfold WakerSet.register. destruct (existsb _ ws) eqn:E.
  - apply existsb_exists in E as (x & Hx & ->%Nat.eqb_eq). apply list_elem_of_In in Hx. naive_solver.
  - rewrite elem_of_app, list_elem_of_singleton. done.
Qed.

Lemma wake_inv_initial s : initial s → wake_inv s.
Proof. intros (_ & _ & Hidle) t _ Hw. by rewrite Hidle in Hw. Qed.

(** A step of task [t] alone keeps the invariant for the others. *)
Lemma wake_inv_step s s' : wake_inv s → step s s' → wake_inv s'.
Proof.
  intros Hinv Hst. destruct Hst as [s t a Ht|s t a q o Ht Ha|s t a Ht|s t a q o Ht Ha|s t a Ht|s t|s p q b Hp|s n Hn|s l w k Hf];
    intros t' Hn' Hw' Hf'; cbn [sq takers flying task notified] in *.
  - destruct (decide (t' = t)) as [->|Hne]; [by rewrite upd_same in Hw'|].
    rewrite !upd_other in * by done. by apply Hinv.
  - pose proof (attempt_wakers a (sq s)) as Hws. rewrite Ha in Hws. cbn [fst] in Hws. rewrite Hws.
    destruct (decide (t' = t)) as [->|Hne]; [rewrite upd_same in Hw'; by destruct o|].
    rewrite !upd_other in * by done. destruct (Hinv t' Hn' Hw' Hf') as [? Hp]. split; [done|].
    intros a' Hpk. destruct (Hp a' Hpk) as [Hb|?]; [left|by right].
    apply (attempt_blocked a) in Hb. by rewrite Ha in Hb.
  - rewrite get_set_wakers, elem_register. destruct (decide (t' = t)) as [->|Hne].
    + split; [by right|]. intros a'. by rewrite upd_same.
    + rewrite !upd_other in * by done. destruct (Hinv t' Hn' Hw' Hf') as [? Hp]. split; [by left|].
      intros a' Hpk. destruct (Hp a' Hpk); [left; by apply set_blocked|by right].
  - pose proof (attempt_wakers a (sq s)) as Hws. rewrite Ha in Hws. cbn [fst] in Hws. rewrite Hws.
    destruct (decide (t' = t)) as [->|Hne].
    + rewrite upd_same in *. destruct o as [r|]; [done|].
      destruct (Hinv t Hn') as [? _]; [by rewrite Ht|done|]. split; [done|]. intros a' _. left.
      pose proof (attempt_fails a (sq s)) as Hb. rewrite Ha in Hb. by apply Hb.
    + rewrite !upd_other in * by done. destruct (Hinv t' Hn' Hw' Hf') as [? Hp]. split; [done|].
      intros a' Hpk. destruct (Hp a' Hpk) as [Hb|?]; [left|by right].
      apply (attempt_blocked a) in Hb. by rewrite Ha in Hb.
  - destruct (decide (t' = t)) as [->|Hne]; [by rewrite upd_same in Hw'|].
    rewrite !upd_other in * by done. by apply Hinv.
  - destruct (decide (t' = t)) as [->|Hne]; [by rewrite upd_same in Hw'|].
    rewrite !upd_other in * by done. by apply Hinv.
  - pose proof (provide_wakers p (sq s)) as Hws. rewrite Hp in Hws. cbn [fst] in Hws. rewrite Hws.
    destruct (Hinv t' Hn' Hw' Hf') as [? Hpk]. split; [done|]. intros a' Ha'.
    destruct b; [right; lia|]. destruct (Hpk a' Ha') as [Hb|?]; [left|right; lia].
    pose proof (provide_silent p (sq s)) as Hs. rewrite Hp in Hs. by apply Hs.
  - cbn [WakerSet.take fst snd] in *. rewrite not_elem_of_app in Hf'. destruct Hf' as [Hf' Hnw].
    by destruct (Hinv t' Hn' Hw' Hf') as [? _].
  - destruct (decide (t' = w)) as [->|Hne]; [by rewrite upd_same in Hn'|].
    rewrite upd_other in Hn' by done. apply Hinv; [done..|].
    rewrite Hf, not_elem_of_app, not_elem_of_cons. rewrite not_elem_of_app in Hf'. naive_solver.
Qed.

Lemma wake_inv_reachable s s' : initial s → rtc step s s' → wake_inv s'.
Proof.
  intros Hi Hr. assert (wake_inv s) as Hinv by (by apply wake_inv_initial). clear Hi.
  induction Hr; eauto using wake_inv_step.
Qed.

Lemma parked_blocked s s' t a :
  initial s → rtc step s s' → takers s' = O → flying s' = [] →
  task s' t = Parked a → notified s' t = false → blocked (sq s').
Proof.
  intros Hi Hr Htk Hfl Ht Hn.
  destruct (wake_inv_reachable s s' Hi Hr t Hn) as [_ Hp]; [by rewrite Ht|rewrite Hfl; by apply not_elem_of_nil|].
  destruct (Hp a Ht) as [?|?]; [done|lia].
Qed.
End interleaving.
Arguments stage A R : clear implicits.
Arguments System Q A R : clear implicits.

(** ** Blocking waits

    [Subscription::recv], [Subscription::recv_timeout] and [TxQueue::send] hold
    the lock, try, and wait on a condition variable that releases the lock
    while they sleep; the other side notifies one sleeper under the lock.
    [avail] is what there is to take: frames, or free slots. *)
Class CondQueueLaws (Q A R P : Type) `{WaitQueue Q A R P} := {
  avail : Q → Z;
  attempt_takes : ∀ a q r, snd (attempt a q) = Some r → avail (fst (attempt a q)) = avail q - 1;
  attempt_empty : ∀ a q, snd (attempt a q) = None → avail q ≤ 0 ∧ fst (attempt a q) = q;
  provide_adds : ∀ p q, avail (fst (provide p q)) ≤ avail q + (if snd (provide p q) then 1 else 0);
}.

Section blocking.
Context {Q A R P : Type} `{CondQueueLaws Q A R P}.

(** A round of the loop under the lock; [expired] is the deadline test of
    [recv_timeout], [false] in the others. *)
Inductive round := Got (r : R) | Expired | Wait.

Definition wait_round (a : A) (expired : bool) (q : Q) : Q * round :=
  match attempt a q with
  | (q, Some r) => (q, Got r)
  | (q, None) => (q, if expired then Expired else Wait)
  end.

(** A running thread is about to take the lock. *)
Inductive thread := Running (a : A) | Sleeping (a : A) | Ended (o : option R).

Definition after_round (a : A) (o : round) : thread :=
  match o with Got r => Ended (Some r) | Expired => Ended None | Wait => Sleeping a end.

Definition woken (th : thread) : thread := match th with Sleeping a => Running a | _ => th end.

Record Blocking := mkBlocking { bq : Q; threads : list thread }.

Definition is_running (th : thread) : bool := match th with Running _ => true | _ => false end.
Definition is_sleeping (th : thread) : bool := match th with Sleeping _ => true | _ => false end.

(** [block_poll] is any attempt that does not block: [try_recv], [try_send] and
    the polls of the asynchronous waits.  A sleeper may wake without a
    notification, for its timeout or for none. *)
Inductive block_step : Blocking → Blocking → Prop :=
| block_call s a : block_step s (mkBlocking (bq s) (threads s ++ [Running a]))
| block_round s t a expired q o : threads s !! t = Some (Running a) → wait_round a expired (bq s) = (q, o) →
    block_step s (mkBlocking q (<[t := after_round a o]> (threads s)))
| block_wake s t a : threads s !! t = Some (Sleeping a) →
    block_step s (mkBlocking (bq s) (<[t := Running a]> (threads s)))
| block_poll s a : block_step s (mkBlocking (fst (attempt a (bq s))) (threads s))
| block_notify s p q t a : provide p (bq s) = (q, true) → threads s !! t = Some (Sleeping a) →
    block_step s (mkBlocking q (<[t := Running a]> (threads s)))
| block_unheard s p q : provide p (bq s) = (q, true) → existsb is_sleeping (threads s) = false →
    block_step s (mkBlocking q (threads s))
| block_silent s p q : provide p (bq s) = (q, false) → block_step s (mkBlocking q (threads s)).

Definition running (s : Blocking) : Z := len (List.filter is_running (threads s)).

(** While a thread sleeps, everything available is some running thread's. *)
Definition block_inv (s : Blocking) : Prop := existsb is_sleeping (threads s) = true → avail (bq s) ≤ running s.

Lemma filter_insert {T} (f : T → bool) (l : list T) t x y : l !! t = Some x →
  len (List.filter f (<[t := y]> l)) = len (List.filter f l) - (if f x then 1 else 0) + (if f y then 1 else 0).
Proof using Type.
  revert t. induction l as [|z l IH]; intros [|t]; [done|done|..]; cbn [lookup list_lookup insert list_insert].
  - intros [= ->]. cbn [List.filter]. destruct (f x), (f y); cbn [length]; lia.
  - intros Hx. cbn [List.filter]. destruct (f z); cbn [length]; rewrite ?Nat2Z.inj_succ; pose proof (IH t Hx) as Hi; unfold insert in *; lia.
Qed.

Lemma running_insert s t x y q : threads s !! t = Some x →
  running (mkBlocking q (<[t := y]> (threads s))) =
  running s - (if is_running x then 1 else 0) + (if is_running y then 1 else 0).
Proof using Type. intros Ht. unfold running. cbn [threads]. by apply filter_insert. Qed.

Lemma sleeping_insert (l : list thread) t y : is_sleeping y = false →
  existsb is_sleeping (<[t := y]> l) = true → existsb is_sleeping l = true.
Proof using Type.
  intros Hy. revert t. induction l as [|z l IH]; intros [|t]; try done; cbn [insert list_insert existsb].
  - rewrite Hy. cbn [orb]. intros ->. apply orb_true_r.
  - rewrite !orb_true_iff. intros [?|?]; [by left|right]. by apply (IH t).
Qed.

Lemma sleeping_at (l : list thread) t a : l !! t = Some (Sleeping a) → existsb is_sleeping l = true.
Proof using Type.
  intros Ht. apply existsb_exists. exists (Sleeping a). split; [|done]. by apply list_elem_of_In, list_elem_of_lookup_2 with t.
Qed.

Lemma running_nonneg s : 0 ≤ running s.
Proof using Type. unfold running. lia. Qed.

Lemma block_inv_step s s' : block_inv s → block_step s s' → block_inv s'.
Proof.
  intros Hinv Hst. pose proof (running_nonneg s).
  destruct Hst as [s a|s t a expired q o Ht Ho|s t a Ht|s a|s p q t a Hp Ht|s p q Hp Hno|s p q Hp]; unfold block_inv; cbn [bq threads].
  - unfold running. cbn [threads]. rewrite existsb_app. cbn [existsb is_sleeping]. rewrite orb_false_r, List.filter_app, length_app.
    intros Hs. specialize (Hinv Hs). unfold running in Hinv. cbn [List.filter is_running length]. lia.
  - rewrite (running_insert _ _ _ _ _ Ht). unfold wait_round in Ho. destruct (attempt a (bq s)) as [q' [r|]] eqn:Ha.
    + injection Ho as <- <-. intros Hs%sleeping_insert; [|done]. specialize (Hinv Hs).
      pose proof (attempt_takes a (bq s) r) as Hk. rewrite Ha in Hk. cbn. specialize (Hk eq_refl). cbn in Hk. lia.
    + pose proof (attempt_empty a (bq s)) as Hk. rewrite Ha in Hk. destruct (Hk eq_refl) as [Hz Hq]. cbn in Hq. subst q'.
      assert (0 < running s) as Hr.
      { unfold running. assert (List.In (Running a) (List.filter is_running (threads s))) as Hin.
        { apply List.filter_In. split; [|done]. by apply list_elem_of_In, list_elem_of_lookup_2 with t. }
        destruct (List.filter is_running (threads s)); [done|cbn; lia]. }
      injection Ho as <- <-. intros _. destruct expired; cbn; lia.
  - intros _. rewrite (running_insert _ _ _ _ _ Ht). cbn. specialize (Hinv (sleeping_at _ _ _ Ht)). lia.
  - intros Hs. specialize (Hinv Hs). unfold running in *. cbn [threads]. destruct (attempt a (bq s)) as [q [r|]] eqn:Ha.
    + pose proof (attempt_takes a (bq s) r) as Hk. rewrite Ha in Hk. specialize (Hk eq_refl). cbn in *. lia.
    + pose proof (attempt_empty a (bq s)) as Hk. rewrite Ha in Hk. destruct (Hk eq_refl) as [_ Hq]. cbn in *. by subst.
  - intros _. rewrite (running_insert _ _ _ _ _ Ht). specialize (Hinv (sleeping_at _ _ _ Ht)).
    pose proof (provide_adds p (bq s)) as Hk. rewrite Hp in Hk. cbn in *. lia.
  - congruence.
  - intros Hs. specialize (Hinv Hs). pose proof (provide_adds p (bq s)) as Hk. rewrite Hp in Hk. unfold running in *. cbn in *. lia.
Qed.

Lemma asleep_blocked s s' : threads s = [] → rtc block_step s s' → running s' = 0 →
  existsb is_sleeping (threads s') = true → avail (bq s') ≤ 0.
Proof.
  intros Hi Hr Hrun Hs. assert (block_inv s) as Hinv by (unfold block_inv; by rewrite Hi).
  assert (block_inv s') as Hinv'; [|specialize (Hinv' Hs); lia].
  clear Hi Hrun Hs. induction Hr; eauto using block_inv_step.
Qed.
End blocking.
Arguments thread A R : clear implicits.
Arguments Blocking Q A R : clear implicits.

(** ** The two queues *)

#[export] Instance subscription_queue : WaitQueue Subscription unit CanFrame CanFrame := {
  attempt _ s := Subscription.try_recv s;
  provide f s := Subscription.push_queue s f;
  wakers := rx_wakers;
  set_wakers := Subscription.with_wakers;
}.

#[export, refine] Instance subscription_laws : WaitQueueLaws Subscription unit CanFrame CanFrame :=
  {| blocked s := queue s = [] |}.
Proof.
  - intros [] s. cbn. unfold Subscription.try_recv. by destruct (queue s).
  - intros [] s Hb. cbn. unfold Subscription.try_recv. by rewrite Hb.
  - intros f s. cbn. unfold Subscription.push_queue. cbv zeta.
    destruct (_ <=? _); [|done]. cbn [policy Subscription.with_overflow]. by destruct (policy s).
  - intros [] s. cbn. unfold Subscription.try_recv. by destruct (queue s).
  - intros f s. cbn. unfold Subscription.push_queue. cbv zeta.
    destruct (_ <=? _); [|done]. cbn [policy Subscription.with_overflow]. by destruct (policy s).
  - done.
  - done.
Defined.

#[export] Instance tx_queue : WaitQueue TxQueue CanFrame unit unit := {
  attempt f t := let (t, sent) := TxQueue.try_send t f in (t, if sent then Some tt else None);
  provide _ t := let (t, o) := TxQueue.pop_queue t in (t, match o with Some _ => true | None => false end);
  wakers := space_wakers;
  set_wakers t ws := mkTx (tx_frames t) (tx_capacity t) ws;
}.

#[export, refine] Instance tx_queue_laws : WaitQueueLaws TxQueue CanFrame unit unit :=
  {| blocked t := tx_capacity t ≤ len (tx_frames t) |}.
Proof.
  - intros f t. cbn. unfold TxQueue.try_send. by destruct (Z.leb_spec (tx_capacity t) (len (tx_frames t))).
  - intros f t Hb. cbn. unfold TxQueue.try_send. by rewrite (proj2 (Z.leb_le _ _) Hb).
  - intros [] t. cbn. unfold TxQueue.pop_queue. by destruct (tx_frames t).
  - intros f t. cbn. unfold TxQueue.try_send. by destruct (_ <=? _).
  - intros [] t. cbn. unfold TxQueue.pop_queue. by destruct (tx_frames t).
  - done.
  - done.
Defined.

#[export, refine] Instance subscription_cond : CondQueueLaws Subscription unit CanFrame CanFrame :=
  {| avail s := len (queue s) |}.
Proof.
  - intros [] s r. cbn. unfold Subscription.try_recv. destruct (queue s); [done|]. cbn. lia.
  - intros [] s. cbn. unfold Subscription.try_recv. destruct s as [? ? [] ? ? ? ? ?]; [|done]. cbn. done.
  - intros f s. cbn. unfold Subscription.push_queue. cbv zeta. destruct (_ <=? _); cbn.
    + destruct (policy s); cbn; [|lia]. rewrite length_app. destruct (queue s); cbn; lia.
    + rewrite length_app. cbn. lia.
Defined.

#[export, refine] Instance tx_queue_cond : CondQueueLaws TxQueue CanFrame unit unit :=
  {| avail t := tx_capacity t - len (tx_frames t) |}.
Proof.
  - intros f t r. cbn. unfold TxQueue.try_send. destruct (_ <=? _); [done|]. cbn. rewrite length_app. cbn. lia.
  - intros f t. cbn. unfold TxQueue.try_send. destruct (Z.leb_spec (tx_capacity t) (len (tx_frames t))); [|done]. cbn. split; [lia|done].
  - intros [] t. cbn. unfold TxQueue.pop_queue. destruct (tx_frames t); cbn; lia.
Defined.

Abbreviation receivers := (System Subscription unit CanFrame).
Abbreviation senders := (System TxQueue CanFrame unit).

(** C23. No wake-up is lost: in every interleaving of tasks that start, poll, drop
    and restart [recv_async] on a subscription with publishers, wakes and
    spurious polls, once the publishers have finished and their wakes arrived,
    a task that sleeps without a notification sleeps on an empty queue; and
    in the same way a task asleep in [send_async] waits for a full transmit
    queue.  A thread asleep in [recv] or [recv_timeout] when no other is awake
    sleeps on an empty queue, one asleep in [send] waits for a full queue,
    whatever else takes frames or slots. *)
Theorem no_lost_wakeup :
  (∀ (s s' : receivers) t, initial s → rtc step s s' → takers s' = O → flying s' = [] →
     task s' t = Parked tt → notified s' t = false → queue (sq s') = []) ∧
  (∀ (s s' : senders) t f, initial s → rtc step s s' → takers s' = O → flying s' = [] →
     task s' t = Parked f → notified s' t = false → tx_capacity (sq s') ≤ len (tx_frames (sq s'))) ∧
  (∀ s s' : Blocking Subscription unit CanFrame, threads s = [] → rtc block_step s s' → running s' = 0 →
     existsb is_sleeping (threads s') = true → queue (bq s') = []) ∧
  (∀ s s' : Blocking TxQueue CanFrame unit, threads s = [] → rtc block_step s s' → running s' = 0 →
     existsb is_sleeping (threads s') = true → tx_capacity (bq s') ≤ len (tx_frames (bq s'))).
Proof.
  split; [|split; [|split]].
  - intros s s' t. exact (parked_blocked (H0 := subscription_laws) s s' t tt).
  - intros s s' t f. exact (parked_blocked (H0 := tx_queue_laws) s s' t f).
  - intros s s' Hi Hr Hrun Hs. pose proof (asleep_blocked (H0 := subscription_cond) s s' Hi Hr Hrun Hs) as Ha. cbn in Ha.
    apply nil_length_inv. lia.
  - intros s s' Hi Hr Hrun Hs. pose proof (asleep_blocked (H0 := tx_queue_cond) s s' Hi Hr Hrun Hs) as Ha. cbn in Ha. lia.
Qed.

(** The race the second try is for: a frame published between a task's first try
    and its registration is found by the second try. *)
Definition race_start : receivers :=
  mkSystem (mkSub 0 true [] [] 4 DropOldest 0 None) 0 [] (λ _, Idle) (λ _, true).

Lemma race_found :
  ∃ s' : receivers, rtc step race_start s' ∧ task s' 7 = Done (mkCanFrame 1 0 (zeros 8)) ∧
    queue (sq s') = [] ∧ rx_wakers (sq s') = [] ∧ flying s' = [7]%nat.
Proof.
  set (f := mkCanFrame 1 0 (zeros 8)).
  eexists. split; [|split; [|split; [|split]]].
  - eapply rtc_l; [apply (step_begin race_start 7%nat tt); reflexivity|].
    eapply rtc_l; [eapply (step_try _ 7%nat tt); reflexivity|].
    eapply rtc_l; [eapply (step_provide _ f); reflexivity|].
    eapply rtc_l; [eapply (step_register _ 7%nat tt); reflexivity|].
    eapply rtc_l; [eapply step_take; reflexivity|].
    eapply rtc_l; [eapply (step_recheck _ 7%nat tt); reflexivity|].
    apply rtc_refl.
  - reflexivity.
  - reflexivity.
  - reflexivity.
  - reflexivity.
Qed.

Lemma no_lost_wakeup_witness :
  ∃ s' : receivers, rtc step race_start s' ∧ task s' 7 = Parked tt ∧
    (takers s' = O → flying s' = [] → task s' 7 = Parked tt → notified s' 7 = false → queue (sq s') = []).
Proof.
  eexists. split; [|split].
  - eapply rtc_l; [apply (step_begin race_start 7%nat tt); reflexivity|].
    eapply rtc_l; [eapply (step_try _ 7%nat tt); reflexivity|].
    eapply rtc_l; [eapply (step_register _ 7%nat tt); reflexivity|].
    eapply rtc_l; [eapply (step_recheck _ 7%nat tt); reflexivity|].
    apply rtc_refl.
  - reflexivity.
  - intros Htk Hfl Ht Hn. eapply (proj1 no_lost_wakeup race_start _ 7%nat); [| |exact Htk|exact Hfl|exact Ht|exact Hn].
    + by split.
    + eapply rtc_l; [apply (step_begin race_start 7%nat tt); reflexivity|].
      eapply rtc_l; [eapply (step_try _ 7%nat tt); reflexivity|].
      eapply rtc_l; [eapply (step_register _ 7%nat tt); reflexivity|].
      eapply rtc_l; [eapply (step_recheck _ 7%nat tt); reflexivity|].
      apply rtc_refl.
Defined.

(** Two threads in [recv], one frame: the one that is notified gets it. *)
Lemma blocking_run :
  let f := mkCanFrame 1 0 (zeros 8) in
  let q frames := mkSub 0 true frames [] 4 DropOldest 0 None in
  rtc block_step (mkBlocking (q []) [] : Blocking Subscription unit CanFrame)
    (mkBlocking (q []) [Sleeping tt; Ended (Some f)]).
Proof.
  intros f q.
  eapply rtc_l; [apply (block_call _ tt)|]. eapply rtc_l; [apply (block_call _ tt)|].
  eapply rtc_l; [eapply (block_round _ 0 tt false); reflexivity|].
  eapply rtc_l; [eapply (block_round _ 1 tt false); reflexivity|].
  eapply rtc_l; [eapply (block_notify _ f _ 1 tt); reflexivity|].
  eapply rtc_l; [eapply (block_round _ 1 tt false); reflexivity|]. apply rtc_refl.
Qed.
